(* ===== verification/_CoqProject ===== *)
-Q . S2P
Prelude.v
Text.v
Float64.v
CoreTypes.v
External.v
ExprSyntax.v
ExprEval.v
ExprProps.v
Capability.v
PathScope.v
PolicyDocument.v
ScopeIndex.v
EgressHost.v
Decision.v
Budget.v
BudgetTracker.v
BudgetProps.v
Findings.v
Redaction.v
Detection.v
Registry.v
RegistryProps.v
RateLimit.v
Engine.v
EngineProps.v
Leases.v
ScopeOrder.v
Ledger.v
LedgerProps.v
Authority.v
AuthorityProps.v
Resolve.v
Lowering.v
Plan.v
PlanProps.v
LeaseRecord.v
Governed.v
GovernedProps.v
OpControl.v
RuntimeQuery.v
OpControlProps.v
AuditChain.v
AuditProps.v
Approval.v
ApprovalProps.v
FileTree.v
WorkspaceTx.v
WorkspaceProps.v
NetAddr.v
HttpCodec.v
HttpProps.v
Intercept.v
JsonText.v
Sse.v
ResponseCodec.v
BodyProps.v
Credentials.v
ProxyEgress.v
Mcp.v
ResponseRelay.v
ResponseProps.v
McpProps.v
Proxy.v
ProxyProps.v
McpFlow.v
Topology.v
TarjanProps.v
EdgeStore.v
Auth.v
AuthProps.v
EdgeApi.v
EdgeApiProps.v
TopologyService.v
TopologyApi.v
TopologyApiProps.v
Anomaly.v
Lifecycle.v
LifecycleProps.v
PolicyService.v
PolicyServiceProps.v
