(* ===== verification/Prelude.v ===== *)
(** * Agent Assembly: a verification library for the governance core

    Agent Assembly governs what AI agents may do.  A gateway holds policy documents,
    a registry of agents and a spend ledger; for every action an agent proposes, the
    policy engine answers allow, deny or ask a human, and may redact the payload.  What
    is asked waits in an approval queue, what happened goes into a hash-chained audit log,
    operators pause or stop agents through live operations.  Beside the gateway, agents
    are launched under leases: a policy is lowered to requirements, a backend is
    negotiated, authority is attenuated along delegations, and the runtime admits calls
    under the leases that are left; a launched process works on a staged copy of its
    directory, which is folded back by a transaction.  What the process sends goes through
    a proxy, which judges the destination, scans the body, injects the real credential and
    records what left.  This library models that core and proves what makes it
    trustworthy.

    ** Parts and files

    The order below is the dependency order; each file opens with what it holds.

    - Prelude, Text, Float64: results with early return, a writer for records appended
      to a shared sink, machine widths, a stable sort; Rust string operations;
      binary64 arithmetic and the parsing of floating-point literals.
    - CoreTypes: the vocabulary of aa-core (actions, results, modes, levels, contexts).
    - External: the third-party libraries the code calls, one class each: JSON,
      durations, UUIDs, time zones, decimals, with their laws where a theorem needs
      them and one concrete instance each.
    - ExprSyntax, ExprEval, ExprProps: the policy expression language of
      aa-policy/src/expr.rs: lexer, load-time validators, parser, evaluator.
    - Capability, PathScope, PolicyDocument: aa-core/src/capability.rs,
      aa-security/src/policy/filesystem.rs and syscall.rs, aa-policy/src/document.rs
      and scope.rs.
    - ScopeIndex: aa-gateway/src/engine/scope_index.rs.
    - EgressHost: the egress matcher of aa-core/src/policy.rs and
      aa-policy/src/network.rs.
    - Decision: aa-gateway/src/engine/decision.rs, the stateless stages of one document
      and their merge over a cascade of documents.
    - Budget, BudgetTracker, BudgetProps: aa-gateway/src/budget (types.rs, pricing.rs,
      tracker.rs, rollup.rs) and aa-core/src/llm.rs.
    - Findings, Redaction, Detection: the finding vocabulary and both redaction
      primitives of aa-security (scanner.rs, canonical/), and the detection port of
      aa-gateway/src/engine/detection.rs.
    - Registry, RegistryProps: the agent hierarchy of aa-gateway/src/registry.
    - RateLimit: the token bucket of aa-gateway/src/engine/rate_limit.rs.
    - Engine, EngineProps: aa-gateway/src/engine/mod.rs with effective_mode.rs and
      cache.rs, aa-gateway/src/policy/context.rs, and the tenancy and suspension steps
      of aa-gateway/src/service/policy_service.rs.
    - Leases, ScopeOrder, Ledger, LedgerProps: aa-isolation (spec.rs, capability.rs,
      lease.rs, scope_order.rs, attenuation.rs): leases, when one scope is inside another,
      and the delegation ledger.
    - Authority, AuthorityProps: aa-isolation/src/authority.rs, the gate of a launch.
    - Resolve, Lowering, Plan, PlanProps: aa-policy (canonical.rs, resolve.rs) and
      aa-isolation (lowering.rs, plan.rs, requirements.rs, planner.rs): from a validated
      document to a planned launch.
    - LeaseRecord, Governed, GovernedProps: aa-runtime/src/lease and
      aa-isolation/src/lease_lowering.rs: the persisted revocations of a run, the decision
      on a tool call, and the reload of revocations while the run goes on.
    - OpControl, RuntimeQuery, OpControlProps: aa-gateway/src/ops with the streams of the
      service, aa-runtime/src/op_control.rs, and the answer to a policy query in
      aa-runtime/src/pipeline.
    - AuditChain, AuditProps: aa-core/src/audit.rs and aa-gateway/src/audit.rs.
    - Approval, ApprovalProps: aa-runtime/src/approval.rs and the table of
      aa-gateway/src/storage/approval.rs.
    - FileTree, WorkspaceTx, WorkspaceProps: aa-workspace-tx with aa-isolation/src/tx.rs.
    - NetAddr: aa-core/src/net.rs, the addresses nothing may be dialled at and
      the readings of an address literal.
    - HttpCodec, HttpProps: the request side of aa-proxy/src/proxy/http.rs.
    - Intercept: what the proxy decides about a body and what it records (aa-proxy:
      intercept/mod.rs, transmission_evidence.rs, audit_jsonl.rs, probe_adjudication.rs;
      aa-core/src/types/sensitive_data/evidence.rs).
    - Credentials: the credential broker of aa-proxy (credentials.rs,
      revocations.rs, control.rs).
    - ProxyEgress, Proxy, ProxyProps: aa-proxy/src/proxy/mod.rs with network_enforce.rs,
      trusted_upstream.rs and intercept/detect.rs: where a connection may go, and the
      handlers of a connection as the trace of what they do.
    - JsonText, Mcp, McpProps: intercept/mcp.rs and mcp_enforce.rs of aa-proxy: the readings
      of a JSON body and the judgement of an MCP request.
    - Sse: proxy/sse.rs, the canonical events of a stream.
    - ResponseCodec, BodyProps, ResponseRelay, ResponseProps: the response side of
      proxy/http.rs, intercept/mod.rs and proxy/mod.rs: what a client of an enforcing proxy
      is sent.  McpFlow puts the handler, the judgement and the relay together.
    - Topology, TarjanProps, EdgeStore: the edges between agents of aa-core/src/topology and
      aa-gateway/src/edges: both cycle detectors, the indexed stores and the plain log.
    - Auth, AuthProps: aa-auth, aa-policy/src/rbac.rs and aa-api/src/auth: API keys, tokens,
      the gate in front of a route, and who may change a policy.
    - EdgeApi, EdgeApiProps, TopologyService, TopologyApi, TopologyApiProps: the routes of
      aa-api/src/routes (edges.rs, topology.rs, enforcement_mirror.rs) with their models, the
      remote calls of aa-gateway/src/service/topology_service.rs and iam/grpc_auth.rs.
    - Lifecycle, LifecycleProps: aa-gateway/src/service/lifecycle_service.rs and
      org_binding.rs, registry/convert.rs and token.rs, storage/challenge.rs: how an agent
      gets its credential.
    - Anomaly: aa-gateway/src/anomaly, the baselines of the agents and the detections.
    - PolicyService, PolicyServiceProps: aa-gateway/src/service/policy_service.rs and
      convert.rs with aa-core/src/identity_attribution.rs: one check from the request to the
      audit entries, batches, and the continuation of an action that is held.

    The engine calls everything else: it collects a cascade from the scope index and
    the lineage of the registry, merges the documents' verdicts (through the decision
    cache), guards the merged capabilities, takes a rate-limit token, scans the
    payload, checks the budget, and hands the result to PolicyService, which has checked the
    credential before and then asks Anomaly, holds the action in the approval queue or reserves
    its cost, moves the live operation and writes the audit entry.  The approval queue
    writes its resolutions through the audit chain.  The launch side runs from Resolve
    over Lowering to Plan, asks Authority and the ledger, and leaves a record that Governed
    reads; RuntimeQuery puts the operator's halts before the gate of Governed and the
    gateway's answer.  The proxy asks NetAddr, EgressHost and the gateway where a request
    may go, Intercept what of it may leave, and Credentials with which key; when it enforces
    for a gateway, Mcp judges the request first and ResponseRelay what comes back.  Lifecycle
    fills the registry, under keys that Auth validates and identities bound to them; the
    topology routes and calls read the registry, the edges and the merged documents for a
    caller that Auth let in.

    ** How the code is read

    A struct is a [Record], an enum an [Inductive] with the source's constructors, a
    method that changes its receiver a function that returns the new state, [Result]
    is [result] and [Option] is [option].  A [BTreeMap] or [HashMap] is a [gmap], a set
    a [gset]; a [Vec] is a list.  A [u64] counter wraps, [u32] sums saturate where the
    source says so; the sequence numbers of the audit chain and the counts of an answer are
    unbounded, as neither reaches its width.  Where the code expects a value that could be
    missing ([expect] in Authority), the panic is a value of its own.  Every reading of a clock is an argument ([Readings], [Request]),
    so a theorem holds for every sequence of readings; one evaluation takes one reading
    for all its budget checks.  What an operation logs or broadcasts is data: the
    records of the writer [W], or the [en_audit] field of the engine.

    A string has code points below 256, one [ascii] per code point, in the components
    that read characters; a payload is its UTF-8 bytes, one [ascii] each, in the
    components that work on byte offsets.

    Shared state guarded by locks is state passed from step to step: each operation of
    the tracker, the registry and the engine is one step, which is what their locks and
    snapshots serialise within one operation.  Interleavings inside an operation are
    not modelled, but for the registration of an agent, which is a task of several steps
    between which other calls run (Lifecycle), and for a held action, whose continuation runs
    at any later state of the gateway (PolicyService).  A theorem about a component over time
    is about every sequence of its operations (inductive step relations, [rtc]); messages between processes are logs of
    what was sent, and a receiver is at any point of them.  A file tree is a finite map of
    paths; each call into the file system may fail, which is an argument by the number of
    the call, so that a statement for every failure pattern also covers a stop at any
    point.  A handler of the proxy is a list of effects in the order in which they happen;
    a write that fails ends it, so the theorems hold for every prefix of the list.  What
    comes over a connection is a string of bytes; the lines of a request head are decoded
    texts below U+0100.

    ** Fuel

    The lexer's loops take one unit per character and ExprSyntax proves that the fuel
    they start with is enough.  The walks over the agent hierarchy answer [None] when
    the fuel ends; RegistryProps proves that on every reachable registry some amount is
    enough for the walks over children lists, and that the walk over parents can fail
    to end.  The verification of a lease chain has the source's own bound, the number of
    entries, and LedgerProps proves it enough.  The measurement of a tree takes one unit
    per level and starts with one more than the longest path.  The loops over the bytes of a
    response start with more than their number; BodyProps and ResponseProps prove the loops
    over a body and a stream complete, whatever the fuel beyond that.  The searches over the
    edges start with the number of nodes and TarjanProps proves it enough; the walk of a graph
    request takes one unit per node and EdgeApiProps proves that it ends.

    ** Parameters

    The classes of External; [Detectors] (the credential scanner, the regex engine and
    the zh-TW recognisers, see Detection); and, for the engine, the digest of a
    document (sha256), the 64-bit hash of an action (ahash) and the conversion of an
    [f64] to a decimal.  Whether the bounded cache still holds an entry is a field of
    the request: eviction and expiry are the cache library's.  On the launch side: a
    backend's rendering of a requirement and the length of a record's JSON text.  For
    live operations and approvals: the printing and parsing of RFC 3339 stamps, the stream
    server's answers, the JSON of an audit payload.  For the audit chain: SHA-256, with
    collision-freedom as the hypothesis where it is needed.  For workspace transactions
    the class [Host] of FileTree: which calls fail, names of temporary files, inode
    numbers, where links lead, SHA-256 and Unicode folding.  For the proxy the classes
    [Inflate] (the decompressors), and [Net] (the resolver, the gateway's answers, which
    connections succeed), [Serde] (serde_json: which texts are documents, values and
    envelopes, with the class [SerdeLaws] of McpProps for what it documents about them) and
    [McpGateway] (the gateway's answers about calls and results); whether the client
    completes a TLS handshake is an argument of the handlers.  What an upstream sends is its
    bytes, how they end, and how many each read gives.  For authentication the class
    [Credentials] (Argon2, SHA-256 and JWT), for the routes [Formats] (hexadecimal and RFC
    3339), for registrations [Keys] (base58, Ed25519, the digest of an identity) and [Redis],
    with [KeysLaws] and [RedisLaws] of LifecycleProps; nonces and tokens are arguments of
    the steps that draw them.  For detections [AnomalyLib] (a digest and the printing of
    numbers), for policy checks [ServiceLib] (JSON and identifier texts); the approval router's
    answer, the ids that are drawn and the clock are the fields of [CheckEnv].

    Decimals are assumed exact only where the exact result is a number a decimal can hold
    ([DecimalLaws]); whether the audit channel of the proxy takes an entry is a function of
    its own, so an entry may be dropped.

    ** What the theorems show

    - Engine: the exact conditions under which the cascade allows, with the verdict served
      from the cache where there is one; a forged tenancy has
      no effect; the decision cache is invisible under stated conditions; a cascade of
      one document and the single-document pipeline agree; loading invalidates the
      cache, removing does not; an allowed request can suspend its agent.
    - Decision: the merge is the most restrictive verdict, monotone in the cascade and in
      the quality of the live context, and attributed to a document that produced it;
      the schedule window.
    - Expressions: the exact grammar accepted, the meaning of an expression from its
      text, fail-safe behaviour on context failures, soundness of grants.
    - Capabilities, paths, scopes, hosts: merges permit what both sides permit, with the
      exception stated; containment is by component; round trips; the host a URL is
      judged by is the one a client dials.
    - Budget: reservations are atomic and bounded within a budget window, accrual never
      reopens headroom where sums are exact, window resets are idempotent, and which caps are
      not enforced.
    - Redaction: exactly the flagged bytes are removed; the taxonomy is lossless.
    - Registry: children lists form a forest in every reachable registry, descendant
      walks are complete, cascading suspension is but for leftover reasons, and where parent
      links and indexes go stale.
    - Rate limit: a bucket never loosens.
    - Delegation: verification decides the unbounded chain, derived leases never exceed
      their roots, revocation is final; an admitted launch is inside its parent.
    - Launch: lowering neither drops nor invents a restriction, negotiation succeeds
      exactly when the backend meets it, and both compose to enforcement.
    - Governed runs: the exact condition of a permit; a revocation or an unreadable
      record takes effect at the next reading, for good.
    - Live operations: the kill switch reaches the runtimes that subscribe under the halted
      identity, and which runtimes it misses; the runtime is at least as halted as the registry
      says; where replay and re-ingestion give way.
    - Audit: a head commits to the history behind it; emissions verify under loss and
      restart; what the hash does not cover.
    - Approvals: one answer per request and always one, remembered for a bounded history;
      audit entries of a queue verify;
      where processes that share a table disagree.
    - Workspace transactions: opening stages exactly the surface; a commit applies
      everything, nothing, or leaves a journal that keeps others off, under every failure
      pattern, and never follows a link; what the checks let through.
    - Proxy: the refused IPv4 addresses are eleven networks and a literal has no second
      reading; a request is read the same however it is buffered, and what is sent upstream
      reads back as that one request; only judged destinations and public addresses are
      dialled, what leaves was inspected or is a tunnel that is not to be, what leaves was
      offered to the audit channel first; a revocation lasts over restarts and stops the
      requests to the providers known by name; what the guards miss.
    - MCP: a tool call leaves only as the gateway allowed it and as every peer reads it,
      where the body is an object of values that can be held; the
      client is sent only what was judged in every reading; a body in pieces is the body at
      once, events do not depend on packets and read back as they were judged, and a stream
      is delivered in order up to the first refused event; which spellings get around it.
    - Topology and authentication: a depth-first search and Tarjan's algorithm agree on
      cycles; the indexed repository cannot be told from a log; a gate admits exactly the
      valid credentials; whatever the caches hold, a tenant is shown and counted only its own
      agents, but for the number of their children, and the permissions shown are the ones enforced; edges are recorded only by their owners.
    - Registration: however calls interleave, a credential is answered only for an agent the
      durable store has acknowledged and only to who may have it; a nonce is accepted once,
      from the holder of the key; an organisation is never taken from a claim alone.
    - Policy checks: the exact condition of an allowed action; only the holder of an agent's
      token touches its record; every answer is recorded under its decision id, in a log that
      verifies however calls interleave; a held action goes on only when it is granted; whose
      budget a disguised claim charges, and what observe mode and approvals do not cover.
    - Anomalies: what blocks; the counts within the window, and which of them outlive it.

    A theorem about the code's own promise and one that exhibits a departure from it
    are both stated as what the code does.

    ** Not modelled, and what comes next

    In the order planned: the zh-TW recognisers and the scanner's detection passes
    (aa-security/src/locale, scanner.rs), the canonical digest and the validator
    (aa-policy), the routing and escalation of approvals (aa-gateway/src/approval), the
    credential and egress brokers and the report of aa-isolation.

    Left out of the proxy: certificates, the extraction of fields from LLM exchanges, the
    rotation of the audit file, telemetry, the reading of the environment.

    Left out: transport, storage drivers, kernel and VM back ends, user interfaces and
    tool adapters, which are I/O around the components above; policy file loading and
    the sensitive-data projection of the engine; the control-stream channels and the
    storage rehydration of the registry; budget persistence; the generation of keys
    and the accounts of native users. *)

From stdpp Require Import base gmap strings list fin_maps sorting.
From Stdlib Require Import ZArith Lia Bool.

Open Scope Z_scope.

(** ** Results

    Rust's [Result<A, E>]: fallible operations of the code return one. *)

Inductive result (A E : Type) : Type :=
| Ok (a : A)
| Err (e : E).

Arguments Ok {A E} a.
Arguments Err {A E} e.

Definition is_ok {A E} (r : result A E) : bool :=
  match r with Ok _ => true | Err _ => false end.

Definition result_bind {A B E} (r : result A E) (k : A → result B E) : result B E :=
  match r with Ok a => k a | Err e => Err e end.

Declare Scope aasm_scope.
Delimit Scope aasm_scope with aasm.
Notation "'let?' x ':=' r 'in' k" := (result_bind r (λ x, k))
  (at level 10, x pattern, r at level 100, k at level 200) : aasm_scope.

(** ** Machine integers

    Unsigned integers of the source are kept in [Z] with their width written out. *)

Definition u64_max : Z := 2 ^ 64 - 1.
Definition u32_max : Z := 2 ^ 32 - 1.
Definition wrap64 (z : Z) : Z := z mod 2 ^ 64.
Definition in_u32 (z : Z) : Prop := 0 ≤ z ≤ u32_max.
Definition in_u64 (z : Z) : Prop := 0 ≤ z ≤ u64_max.

Lemma wrap64_id z : in_u64 z → wrap64 z = z.
Proof. unfold in_u64, u64_max, wrap64. intros. apply Z.mod_small. lia. Qed.

(** ** Effects: values computed together with the records they append

    The evaluator of the source pushes audit records into a shared sink while it
    computes; [W R A] is the value together with the records this computation
    appended, in push order. *)

Definition W (R A : Type) : Type := (A * list R)%type.

Definition w_ret {R A} (a : A) : W R A := (a, []).

Definition w_bind {R A B} (m : W R A) (k : A → W R B) : W R B :=
  let '(a, r1) := m in
  let '(b, r2) := k a in
  (b, r1 ++ r2).

Notation "'let*' x ':=' m 'in' k" := (w_bind m (λ x, k))
  (at level 10, x pattern, m at level 100, k at level 200) : aasm_scope.

Open Scope aasm_scope.

(** [Iterator::all] and [Iterator::any] over an effectful predicate: both stop at
    the first element that settles the answer, so later records are not pushed. *)

Fixpoint w_all {R A} (f : A → W R bool) (l : list A) : W R bool :=
  match l with
  | [] => w_ret true
  | x :: l' => let* b := f x in if b then w_all f l' else w_ret false
  end.

Fixpoint w_any {R A} (f : A → W R bool) (l : list A) : W R bool :=
  match l with
  | [] => w_ret false
  | x :: l' => let* b := f x in if b then w_ret true else w_any f l'
  end.

Section Effects.
Context {R A : Type}.
Implicit Types (f g : A → W R bool) (l : list A).

Lemma w_all_fst f l : fst (w_all f l) = forallb (λ x, fst (f x)) l.
Proof.
  induction l as [|x l IH]; [done|]. simpl. destruct (f x) as [b r]; simpl.
  destruct b; simpl; [|done]. rewrite <- IH. by destruct (w_all f l).
Qed.

Lemma w_any_fst f l : fst (w_any f l) = existsb (λ x, fst (f x)) l.
Proof.
  induction l as [|x l IH]; [done|]. simpl. destruct (f x) as [b r]; simpl.
  destruct b; simpl; [done|]. rewrite <- IH. by destruct (w_any f l).
Qed.

Lemma w_all_ext f g l : (∀ x, x ∈ l → f x = g x) → w_all f l = w_all g l.
Proof.
  induction l as [|x l IH]; intros Hfg; [done|]. simpl.
  rewrite (Hfg x) by (left). rewrite IH; [done|].
  intros y Hy. apply Hfg. by right.
Qed.

Lemma w_any_ext f g l : (∀ x, x ∈ l → f x = g x) → w_any f l = w_any g l.
Proof.
  induction l as [|x l IH]; intros Hfg; [done|]. simpl.
  rewrite (Hfg x) by (left). rewrite IH; [done|].
  intros y Hy. apply Hfg. by right.
Qed.

Lemma w_all_records f l (P : R → Prop) :
  (∀ x, x ∈ l → Forall P (snd (f x))) → Forall P (snd (w_all f l)).
Proof.
  induction l as [|x l IH]; intros HP; simpl; [constructor|].
  pose proof (HP x ltac:(left)) as Hx. destruct (f x) as [b r]; simpl in *.
  assert (Forall P (snd (w_all f l))) as Hl by (apply IH; intros y Hy; apply HP; by right).
  destruct b; simpl; [|by rewrite app_nil_r].
  destruct (w_all f l); simpl in *. by apply Forall_app.
Qed.

Lemma w_any_records f l (P : R → Prop) :
  (∀ x, x ∈ l → Forall P (snd (f x))) → Forall P (snd (w_any f l)).
Proof.
  induction l as [|x l IH]; intros HP; simpl; [constructor|].
  pose proof (HP x ltac:(left)) as Hx. destruct (f x) as [b r]; simpl in *.
  assert (Forall P (snd (w_any f l))) as Hl by (apply IH; intros y Hy; apply HP; by right).
  destruct b; simpl; [by rewrite app_nil_r|].
  destruct (w_any f l); simpl in *. by apply Forall_app.
Qed.
End Effects.

(** ** Booleans *)

Lemma forallb_mono {A} (f g : A → bool) l :
  (∀ x, x ∈ l → f x = true → g x = true) → forallb f l = true → forallb g l = true.
Proof.
  induction l as [|x l IH]; intros Hfg; simpl; [done|].
  rewrite !andb_true_iff. intros [Hx Hl]. split.
  - apply Hfg; [left|done].
  - apply IH; [|done]. intros y Hy. apply Hfg. by right.
Qed.

Lemma existsb_mono {A} (f g : A → bool) l :
  (∀ x, x ∈ l → f x = true → g x = true) → existsb f l = true → existsb g l = true.
Proof.
  induction l as [|x l IH]; intros Hfg; simpl; [done|].
  rewrite !orb_true_iff. intros [Hx|Hl].
  - left. apply Hfg; [left|done].
  - right. apply IH; [|done]. intros y Hy. apply Hfg. by right.
Qed.

(** ** Lists *)

Lemma list_filter_all {A} (P : A → Prop) `{!∀ x, Decision (P x)} (l : list A) :
  (∀ x, x ∈ l → P x) → filter P l = l.
Proof.
  induction l as [|x l IH]; intros HP; [done|]. rewrite filter_cons.
  rewrite decide_True by (apply HP; left). rewrite IH; [done|]. intros y Hy. apply HP. by right.
Qed.

Lemma elem_of_rev {A} (x : A) l : x ∈ rev l ↔ x ∈ l.
Proof. by rewrite !list_elem_of_In, <- in_rev. Qed.

Lemma Forall_rev_iff {A} (P : A → Prop) l : Forall P (rev l) ↔ Forall P l.
Proof. rewrite !Forall_forall. by setoid_rewrite elem_of_rev. Qed.

Section Positions.
Context {A : Type} (f : A → bool).

(** The positions of the elements that satisfy [f], ascending. *)
Definition positions (l : list A) : list nat :=
  List.filter (λ i, match l !! i with Some x => f x | None => false end) (seq 0 (List.length l)).

Lemma positions_snoc l x : positions (l ++ [x]) = positions l ++ if f x then [List.length l] else [].
Proof.
  unfold positions. rewrite length_app, seq_app, List.filter_app. simpl. f_equal.
  - apply List.filter_ext_in. intros i Hi%in_seq. by rewrite lookup_app_l by lia.
  - by rewrite list_lookup_middle by done; destruct (f x).
Qed.

Lemma positions_lookup l : Forall2 (λ i x, l !! i = Some x) (positions l) (List.filter f l).
Proof.
  induction l as [|x l IH] using rev_ind; [constructor|]. rewrite positions_snoc, List.filter_app.
  apply Forall2_app.
  - eapply Forall2_impl; [exact IH|]. intros i y Hi. by apply lookup_app_l_Some.
  - simpl. destruct (f x); constructor; [|constructor]. by apply list_lookup_middle.
Qed.
End Positions.

Lemma Forall2_rev {A B} (P : A → B → Prop) l k : Forall2 P l k → Forall2 P (rev l) (rev k).
Proof.
  induction 1; [constructor|]. simpl. apply Forall2_app; [done|]. by repeat constructor.
Qed.

(** Rust's stable sorts, [sort_by_key]: an element is placed before the ones of the
    sorted rest whose key is not smaller. *)

Section StableSort.
Context {A : Type} (leb : A → A → bool).

Fixpoint insert_sorted (x : A) (l : list A) : list A :=
  match l with
  | [] => [x]
  | y :: l' => if leb x y then x :: l else y :: insert_sorted x l'
  end.

Definition stable_sort (l : list A) : list A := foldr insert_sorted [] l.

Lemma elem_of_insert_sorted x y l : y ∈ insert_sorted x l ↔ y = x ∨ y ∈ l.
Proof.
  induction l as [|z l IH]; simpl; [set_solver|].
  destruct (leb x z); rewrite !elem_of_cons; [tauto|]. rewrite IH. tauto.
Qed.

Lemma elem_of_stable_sort x l : x ∈ stable_sort l ↔ x ∈ l.
Proof.
  unfold stable_sort. induction l as [|y l IH]; simpl; [done|].
  by rewrite elem_of_insert_sorted, elem_of_cons, IH.
Qed.

Context (R : A → A → Prop) (HR : ∀ x y z, R x y → R y z → R x z).
Context (Hle : ∀ x y, leb x y = true → R x y) (Hgt : ∀ x y, leb x y = false → R y x).

Lemma insert_sorted_sorted x l : StronglySorted R l → StronglySorted R (insert_sorted x l).
Proof.
  induction 1 as [|y l Hl IH Hy]; simpl; [by repeat constructor|].
  destruct (leb x y) eqn:E.
  - constructor; [by constructor|]. constructor; [by apply Hle|].
    apply Forall_forall. intros z Hz. rewrite Forall_forall in Hy.
    eapply HR; [by apply Hle|]. by apply Hy.
  - constructor; [done|]. apply Forall_forall. intros z [->|Hz]%elem_of_insert_sorted.
    + by apply Hgt.
    + rewrite Forall_forall in Hy. by apply Hy.
Qed.

Lemma stable_sort_sorted l : StronglySorted R (stable_sort l).
Proof.
  unfold stable_sort. induction l as [|x l IH]; simpl; [constructor|]. by apply insert_sorted_sorted.
Qed.
End StableSort.

(** ** Automation *)

Create HintDb aasm discriminated.

(** Case analysis on the scrutinees of the goal's and the hypotheses' matches. *)
Ltac destruct_matches :=
  repeat (case_match; simplify_eq/=).

Ltac bsplit :=
  rewrite ?andb_true_iff, ?orb_true_iff, ?negb_true_iff, ?andb_false_iff, ?orb_false_iff in *.
