(* ===== verification/Text.v ===== *)
(** * Text: the character classes and string operations the source uses

    A Rust [&str] is a sequence of Unicode scalar values; the model covers the
    strings whose code points are below U+0100, one [ascii] per code point, so
    the byte value of an [ascii] is the code point.  [char::is_whitespace] and
    [char::is_alphanumeric] are the Unicode tables restricted to that range. *)

From stdpp Require Import base strings list.
From Stdlib Require Import ZArith Lia Bool Ascii String DecimalString DecimalN DecimalPos.
From S2P Require Import Prelude.

Open Scope Z_scope.

#[global] Arguments String.append !_ _ : simpl nomatch.

Definition code (c : ascii) : Z := Z.of_N (N_of_ascii c).

Definition in_range (lo hi : Z) (c : ascii) : bool := (lo <=? code c) && (code c <=? hi).

(** [char::is_whitespace]: U+0009..U+000D, U+0020, U+0085, U+00A0. *)
Definition is_whitespace (c : ascii) : bool :=
  in_range 9 13 c || (code c =? 32) || (code c =? 133) || (code c =? 160).

Definition is_ascii_digit (c : ascii) : bool := in_range 48 57 c.

(** [char::is_alphanumeric]: letters (U+00AA, U+00B5, U+00BA and U+00C0..U+00FF
    but U+00D7 and U+00F7 beside the ASCII ones) and numbers (the superscripts
    U+00B2, U+00B3, U+00B9 and the fractions U+00BC..U+00BE beside the digits). *)
Definition is_alphanumeric (c : ascii) : bool :=
  in_range 48 57 c || in_range 65 90 c || in_range 97 122 c ||
  (code c =? 170) || (code c =? 181) || (code c =? 186) ||
  (code c =? 178) || (code c =? 179) || (code c =? 185) || in_range 188 190 c ||
  in_range 192 214 c || in_range 216 246 c || in_range 248 255 c.

(** Characters that string literals cannot spell conveniently. *)
Definition quote_c : ascii := ascii_of_nat 34.
Definition backslash_c : ascii := ascii_of_nat 92.

(** [str::starts_with], [str::contains], [str::strip_prefix]. *)

Fixpoint starts_with (s pat : string) : bool :=
  match pat, s with
  | EmptyString, _ => true
  | String p pat', String c s' => (if ascii_dec p c then true else false) && starts_with s' pat'
  | String _ _, EmptyString => false
  end.

Fixpoint contains (s pat : string) : bool :=
  starts_with s pat ||
  match s with
  | EmptyString => false
  | String _ s' => contains s' pat
  end.

Fixpoint strip_prefix (s pat : string) : option string :=
  match pat, s with
  | EmptyString, _ => Some s
  | String p pat', String c s' => if ascii_dec p c then strip_prefix s' pat' else None
  | String _ _, EmptyString => None
  end.

Definition is_empty (s : string) : bool :=
  match s with EmptyString => true | _ => false end.

(** [str::split_once] at a character: the parts around its first occurrence. *)
Fixpoint split_once (sep : ascii) (s : string) : option (string * string) :=
  match s with
  | EmptyString => None
  | String c s' =>
      if ascii_dec c sep then Some (EmptyString, s')
      else match split_once sep s' with
           | Some (a, b) => Some (String c a, b)
           | None => None
           end
  end.

(** [str::replace] of one character by another. *)
Fixpoint replace_char (from into : ascii) (s : string) : string :=
  match s with
  | EmptyString => EmptyString
  | String c s' => String (if ascii_dec c from then into else c) (replace_char from into s')
  end.

(** The longest prefix whose characters satisfy [pred], and what follows it. *)
Fixpoint take_while (pred : ascii → bool) (s : string) : string * string :=
  match s with
  | String c s' =>
      if pred c then let '(w, rest) := take_while pred s' in (String c w, rest)
      else (EmptyString, s)
  | EmptyString => (EmptyString, EmptyString)
  end.

Fixpoint str_forallb (pred : ascii → bool) (s : string) : bool :=
  match s with
  | EmptyString => true
  | String c s' => pred c && str_forallb pred s'
  end.

(** [Ord] on [str]: lexicographic on the code points. *)
Fixpoint str_ltb (a b : string) : bool :=
  match a, b with
  | _, EmptyString => false
  | EmptyString, String _ _ => true
  | String x a', String y b' =>
      (code x <? code y) || ((code x =? code y) && str_ltb a' b')
  end.

(** [str::split] at a character: the parts between its occurrences, at least one. *)
Fixpoint split_on (sep : ascii) (s : string) : list string :=
  match s with
  | EmptyString => [EmptyString]
  | String c s' =>
      if ascii_dec c sep then EmptyString :: split_on sep s'
      else match split_on sep s' with
           | [] => [String c EmptyString]
           | part :: parts => String c part :: parts
           end
  end.

(** [[_]::join] with a string separator. *)
Fixpoint join (sep : string) (parts : list string) : string :=
  match parts with
  | [] => EmptyString
  | [p] => p
  | p :: parts' => String.append p (String.append sep (join sep parts'))
  end.

(** [str::trim]. *)
Fixpoint trim_end (s : string) : string :=
  match s with
  | EmptyString => EmptyString
  | String c s' =>
      match trim_end s' with
      | EmptyString => if is_whitespace c then EmptyString else String c EmptyString
      | t => String c t
      end
  end.

Definition trim (s : string) : string := trim_end (snd (take_while is_whitespace s)).

(** [str::rsplit_once] at a character: the parts around its last occurrence. *)
Fixpoint rsplit_once (sep : ascii) (s : string) : option (string * string) :=
  match s with
  | EmptyString => None
  | String c s' =>
      match rsplit_once sep s' with
      | Some (a, b) => Some (String c a, b)
      | None => if ascii_dec c sep then Some (EmptyString, s') else None
      end
  end.

(** [str::split_once] at a string. *)
Fixpoint split_once_str (sep s : string) : option (string * string) :=
  match strip_prefix s sep with
  | Some rest => Some (EmptyString, rest)
  | None =>
      match s with
      | EmptyString => None
      | String c s' =>
          match split_once_str sep s' with
          | Some (a, b) => Some (String c a, b)
          | None => None
          end
      end
  end.

(** [str::strip_suffix] with a character. *)
Fixpoint strip_suffix_char (c : ascii) (s : string) : option string :=
  match s with
  | EmptyString => None
  | String d EmptyString => if ascii_dec d c then Some EmptyString else None
  | String d s' => option_map (String d) (strip_suffix_char c s')
  end.

(** [str::ends_with]. *)
Fixpoint ends_with (s suffix : string) : bool :=
  String.eqb s suffix ||
  match s with EmptyString => false | String _ s' => ends_with s' suffix end.

(** [char::is_control]: U+0000..U+001F and U+007F..U+009F. *)
Definition is_control (c : ascii) : bool := in_range 0 31 c || in_range 127 159 c.

Definition is_ascii_alphabetic (c : ascii) : bool := in_range 65 90 c || in_range 97 122 c.
Definition is_ascii_alphanumeric (c : ascii) : bool := is_ascii_digit c || is_ascii_alphabetic c.
Definition is_ascii_hexdigit (c : ascii) : bool :=
  is_ascii_digit c || in_range 65 70 c || in_range 97 102 c.

(** [str::to_ascii_lowercase]. *)
Definition lower_char (c : ascii) : ascii :=
  if in_range 65 90 c then ascii_of_nat (nat_of_ascii c + 32) else c.

Fixpoint to_ascii_lowercase (s : string) : string :=
  match s with
  | EmptyString => EmptyString
  | String c s' => String (lower_char c) (to_ascii_lowercase s')
  end.

(** [str::eq_ignore_ascii_case]. *)
Definition eq_ignore_ascii_case (a b : string) : bool :=
  String.eqb (to_ascii_lowercase a) (to_ascii_lowercase b).

(** No occurrence of a character. *)
Definition lacks (sep : ascii) (s : string) : bool :=
  str_forallb (λ c, if ascii_dec c sep then false else true) s.

(** ** Lemmas *)

Lemma starts_with_app p s : starts_with (String.append p s) p = true.
Proof.
  induction p as [|c p IH]; simpl; [by destruct s|].
  destruct (ascii_dec c c); [done|congruence].
Qed.

Lemma strip_prefix_app p s : strip_prefix (String.append p s) p = Some s.
Proof.
  induction p as [|c p IH]; simpl; [by destruct s|].
  destruct (ascii_dec c c); [done|congruence].
Qed.

Lemma strip_prefix_Some s p r : strip_prefix s p = Some r → s = String.append p r.
Proof.
  revert s. induction p as [|c p IH]; intros [|d s]; simpl; intros H; simplify_eq; try done.
  destruct (ascii_dec c d) as [->|]; [|done]. by rewrite (IH s H).
Qed.

Lemma starts_with_strip s p :
  starts_with s p = match strip_prefix s p with Some _ => true | None => false end.
Proof.
  revert s. induction p as [|c p IH]; intros [|d s]; simpl; try done.
  destruct (ascii_dec c d); simpl; [apply IH|done].
Qed.

Lemma split_once_app sep a b :
  str_forallb (λ c, if ascii_dec c sep then false else true) a = true →
  split_once sep (String.append a (String sep b)) = Some (a, b).
Proof.
  induction a as [|c a IH]; simpl.
  - intros _. by destruct (ascii_dec sep sep).
  - destruct (ascii_dec c sep); simpl; [done|]. intros H. by rewrite IH.
Qed.

Lemma split_once_Some sep s a b :
  split_once sep s = Some (a, b) → s = String.append a (String sep b).
Proof.
  revert a. induction s as [|c s IH]; intros a; simpl; [done|].
  destruct (ascii_dec c sep) as [->|]; [by intros [= <- <-]|].
  destruct (split_once sep s) as [[a' b']|]; [|done].
  intros [= <- <-]. simpl. by rewrite (IH a' eq_refl).
Qed.

Lemma take_while_length pred s :
  (String.length (snd (take_while pred s)) ≤ String.length s)%nat.
Proof.
  induction s as [|c s IH]; simpl; [done|].
  destruct (pred c); [|simpl; lia]. destruct (take_while pred s); simpl in *; lia.
Qed.

(** The word [take_while] reads is the longest prefix of its class. *)
Lemma take_while_app pred w rest :
  str_forallb pred w = true →
  match rest with EmptyString => True | String c _ => pred c = false end →
  take_while pred (String.append w rest) = (w, rest).
Proof.
  induction w as [|c w IH]; simpl; intros Hw Hrest.
  - destruct rest as [|d rest]; simpl; [done|]. by rewrite Hrest.
  - apply andb_true_iff in Hw as [-> Hw]. by rewrite IH.
Qed.

Lemma str_ltb_irrefl a : str_ltb a a = false.
Proof.
  induction a as [|c a IH]; simpl; [done|]. rewrite IH.
  rewrite Z.ltb_irrefl. by rewrite andb_false_r.
Qed.

Lemma append_length s t :
  (String.length (String.append s t) = String.length s + String.length t)%nat.
Proof. induction s as [|c s IH]; simpl; [done|]. by rewrite IH. Qed.

Lemma append_nil_r s : String.append s EmptyString = s.
Proof. induction s as [|c s IH]; simpl; [done|]. by rewrite IH. Qed.

Lemma append_assoc s t u :
  String.append (String.append s t) u = String.append s (String.append t u).
Proof. induction s as [|c s IH]; simpl; [done|]. by rewrite IH. Qed.

Lemma split_on_ne sep s : split_on sep s ≠ [].
Proof. destruct s; simpl; [done|]. destruct (ascii_dec _ _); [done|]. by destruct (split_on sep s). Qed.

Lemma split_on_lacks sep s : Forall (λ p, lacks sep p = true) (split_on sep s).
Proof.
  induction s as [|c s IH]; simpl; [by repeat constructor|].
  destruct (ascii_dec c sep) as [->|Hc]; [by constructor|].
  destruct (split_on sep s) as [|p ps]; inversion IH; subst; constructor; try done; unfold lacks; simpl;
    by destruct (ascii_dec c sep).
Qed.

Lemma split_on_app sep p s :
  lacks sep p = true →
  split_on sep (String.append p (String sep s)) = p :: split_on sep s.
Proof.
  induction p as [|c p IH]; simpl; intros Hp.
  - by destruct (ascii_dec sep sep).
  - unfold lacks in Hp. simpl in Hp. destruct (ascii_dec c sep); [done|]. simpl in Hp.
    by rewrite (IH Hp).
Qed.

Lemma split_on_lone sep p : lacks sep p = true → split_on sep p = [p].
Proof.
  induction p as [|c p IH]; simpl; [done|]. intros Hp. unfold lacks in Hp. simpl in Hp.
  destruct (ascii_dec c sep); [done|]. simpl in Hp. by rewrite (IH Hp).
Qed.

Lemma append_inj_l s t u : String.append s t = String.append s u → t = u.
Proof. induction s as [|c s IH]; simpl; [done|]. intros [= H]. by apply IH. Qed.


Lemma str_forallb_app p s t : str_forallb p (String.append s t) = str_forallb p s && str_forallb p t.
Proof. induction s as [|c s IH]; simpl; [done|]. by rewrite IH, andb_assoc. Qed.

Lemma str_forallb_mono (p q : ascii → bool) s :
  (∀ c, p c = true → q c = true) → str_forallb p s = true → str_forallb q s = true.
Proof.
  intros Hpq. induction s as [|c s IH]; simpl; [done|]. rewrite !andb_true_iff. intros [? ?]. auto.
Qed.

Lemma lacks_app sep s t : lacks sep (String.append s t) = lacks sep s && lacks sep t.
Proof. apply str_forallb_app. Qed.

(** A string whose characters are all of a class lacks a character outside it. *)
Lemma lacks_class (p : ascii → bool) sep s : p sep = false → str_forallb p s = true → lacks sep s = true.
Proof.
  intros Hsep. apply str_forallb_mono. intros c Hc. destruct (ascii_dec c sep) as [->|]; [congruence|done].
Qed.

Lemma rsplit_once_None sep s : lacks sep s = true → rsplit_once sep s = None.
Proof.
  unfold lacks. induction s as [|c s IH]; simpl; [done|]. destruct (ascii_dec c sep); [done|]. simpl.
  intros H. by rewrite IH.
Qed.

Lemma rsplit_once_app sep a b :
  lacks sep b = true → rsplit_once sep (String.append a (String sep b)) = Some (a, b).
Proof.
  intros Hb. induction a as [|c a IH]; simpl.
  - rewrite rsplit_once_None by done. by destruct (ascii_dec sep sep).
  - by rewrite IH.
Qed.

Lemma rsplit_once_Some sep s a b :
  rsplit_once sep s = Some (a, b) → s = String.append a (String sep b) ∧ lacks sep b = true.
Proof.
  revert a. induction s as [|c s IH]; intros a; simpl; [done|].
  destruct (rsplit_once sep s) as [[a' b']|] eqn:E.
  - intros [= <- <-]. destruct (IH a' eq_refl) as [-> ?]. done.
  - destruct (ascii_dec c sep) as [->|]; [|done]. intros [= <- <-]. split; [done|].
    clear IH. induction s as [|d s IH]; [done|]. simpl in E.
    destruct (rsplit_once sep s) as [[]|]; [done|]. destruct (ascii_dec d sep) eqn:Ed; [done|].
    unfold lacks. simpl. rewrite Ed. simpl. by apply IH.
Qed.

Lemma strip_suffix_char_app c s : strip_suffix_char c (String.append s (String c EmptyString)) = Some s.
Proof.
  induction s as [|d s IH]; simpl; [by destruct (ascii_dec c c)|].
  destruct (String.append s (String c EmptyString)) as [|e t] eqn:E; [by destruct s|].
  by rewrite IH.
Qed.

Lemma strip_suffix_char_Some c s t :
  strip_suffix_char c s = Some t → s = String.append t (String c EmptyString).
Proof.
  revert t. induction s as [|d s IH]; intros t; [done|]. destruct s as [|e s].
  - simpl. destruct (ascii_dec d c) as [->|]; [|done]. by intros [= <-].
  - change (strip_suffix_char c (String d (String e s)))
      with (option_map (String d) (strip_suffix_char c (String e s))).
    destruct (strip_suffix_char c (String e s)) as [u|]; [|done].
    intros [= <-]. simpl. by rewrite <- (IH u eq_refl).
Qed.

Lemma ends_with_true s t : ends_with s t = true ↔ ∃ u, s = String.append u t.
Proof.
  induction s as [|c s IH].
  - change (ends_with EmptyString t) with (String.eqb EmptyString t || false).
    rewrite orb_false_r, String.eqb_eq. split.
    + intros <-. by exists EmptyString.
    + intros [[|] H]; [done|]. done.
  - change (ends_with (String c s) t) with (String.eqb (String c s) t || ends_with s t).
    rewrite orb_true_iff, String.eqb_eq, IH. split.
    + intros [<-|[u ->]]; [by exists EmptyString|]. by exists (String c u).
    + intros [[|d u] H]; simpl in H; [by left|]. injection H as -> ->. right. by exists u.
Qed.

Lemma lower_char_idemp c : lower_char (lower_char c) = lower_char c.
Proof. by destruct c as [[] [] [] [] [] [] [] []]. Qed.

Lemma to_ascii_lowercase_idemp s : to_ascii_lowercase (to_ascii_lowercase s) = to_ascii_lowercase s.
Proof. induction s as [|c s IH]; simpl; [done|]. by rewrite lower_char_idemp, IH. Qed.

Lemma str_forallb_lower (p : ascii → bool) s :
  (∀ c, p (lower_char c) = p c) → str_forallb p (to_ascii_lowercase s) = str_forallb p s.
Proof. intros Hp. induction s as [|c s IH]; simpl; [done|]. by rewrite Hp, IH. Qed.

(** ** Decimal text: [Display] of an unsigned integer *)

Definition decimal (n : N) : string := NilZero.string_of_uint (N.to_uint n).

Lemma decimal_inj n m : decimal n = decimal m → n = m.
Proof.
  unfold decimal. intros H. apply DecimalN.Unsigned.to_uint_inj.
  assert (∀ k, NilZero.uint_of_string (NilZero.string_of_uint (N.to_uint k)) = Some (N.to_uint k)) as Hk.
  { intros [|p]; [done|]. apply NilZero.usu. apply DecimalPos.Unsigned.to_uint_nonnil. }
  pose proof (Hk n) as Hn. rewrite H, Hk in Hn. by injection Hn.
Qed.

Lemma decimal_digits n : str_forallb is_ascii_digit (decimal n) = true.
Proof.
  unfold decimal, NilZero.string_of_uint.
  assert (∀ u, str_forallb is_ascii_digit (NilEmpty.string_of_uint u) = true) as H
    by (induction u; simpl; done).
  destruct (N.to_uint n); try apply H; done.
Qed.

Lemma decimal_lacks n : lacks ":" (decimal n) = true.
Proof. eapply lacks_class; [|apply decimal_digits]. done. Qed.

(** ** Bytes *)

(** [str::len]: UTF-8 bytes, two for a code point above U+007F. *)
Fixpoint utf8_len (s : string) : Z :=
  match s with
  | EmptyString => 0
  | String c s' => (if code c <? 128 then 1 else 2) + utf8_len s'
  end.

Lemma utf8_len_nonneg s : 0 ≤ utf8_len s.
Proof. induction s as [|c s IH]; simpl; [done|]. destruct (code c <? 128); lia. Qed.

(** Two texts of the same length that begin the same text are equal. *)
Lemma utf8_len_split a b r r' :
  String.append a r = String.append b r' → utf8_len a = utf8_len b → a = b ∧ r = r'.
Proof.
  revert b. induction a as [|c a IH]; intros [|c' b]; simpl; intros He Hl.
  - done.
  - pose proof (utf8_len_nonneg b). destruct (code c' <? 128); lia.
  - pose proof (utf8_len_nonneg a). destruct (code c <? 128); lia.
  - injection He as -> He. destruct (IH b He) as [-> ->]; [|done]. lia.
Qed.

(** [str::bytes]: UTF-8, two bytes for a code point above U+007F. *)
Fixpoint utf8_bytes (s : string) : list Z :=
  match s with
  | EmptyString => []
  | String c s' =>
      (if code c <? 128 then [code c] else [192 + code c / 64; 128 + code c mod 64]) ++ utf8_bytes s'
  end.

Lemma code_range c : 0 ≤ code c < 256.
Proof. unfold code. pose proof (N_ascii_bounded c). lia. Qed.

Lemma utf8_bytes_range s b : b ∈ utf8_bytes s → 0 ≤ b < 256.
Proof.
  induction s as [|c s IH]; simpl; [by intros ?%not_elem_of_nil|]. pose proof (code_range c).
  rewrite elem_of_app. intros [Hb|]; [|by apply IH]. destruct (Z.ltb_spec (code c) 128).
  - apply list_elem_of_singleton in Hb. lia.
  - assert (code c / 64 < 4) by (apply Z.div_lt_upper_bound; lia).
    assert (0 ≤ code c / 64) by (apply Z.div_pos; lia).
    pose proof (Z.mod_pos_bound (code c) 64 ltac:(lia)).
    apply elem_of_cons in Hb as [->|Hb]; [lia|]. apply list_elem_of_singleton in Hb. lia.
Qed.

Lemma utf8_bytes_inj s t : utf8_bytes s = utf8_bytes t → s = t.
Proof.
  revert t. induction s as [|c s IH]; intros [|c' t]; simpl; try done.
  1-2: by destruct (_ <? 128).
  pose proof (code_range c). pose proof (code_range c').
  assert (2 ≤ code c / 64 ∨ code c < 128) as Hc
    by (destruct (Z.ltb_spec (code c) 128); [by right|left; apply Z.div_le_lower_bound; lia]).
  assert (2 ≤ code c' / 64 ∨ code c' < 128) as Hc'
    by (destruct (Z.ltb_spec (code c') 128); [by right|left; apply Z.div_le_lower_bound; lia]).
  destruct (Z.ltb_spec (code c) 128), (Z.ltb_spec (code c') 128); simpl; intros Heq; injection Heq; try lia.
  - intros Hs He. apply IH in Hs as ->. f_equal. unfold code in He. apply N2Z.inj in He.
    by rewrite <- (ascii_N_embedding c), He, ascii_N_embedding.
  - intros Hs Hm Hd. apply IH in Hs as ->. f_equal.
    assert (code c = code c') as He by (rewrite (Z.div_mod (code c) 64), (Z.div_mod (code c') 64) by lia; lia).
    unfold code in He. apply N2Z.inj in He. by rewrite <- (ascii_N_embedding c), He, ascii_N_embedding.
Qed.
