(* ===== verification/Float64.v ===== *)
(** * Float64: the [f64] arithmetic of the source

    [f64] is an IEEE 754 binary64 datum, here [spec_float] at precision 53 and
    maximal exponent 1024, so comparisons, subtraction and rounding are the
    standard's and NaN is unordered.  [parse_f64] is [str::parse::<f64>]: the
    grammar of its documentation, rounded to nearest even. *)

From stdpp Require Import base strings list.
From Stdlib Require Import ZArith Lia Bool Ascii String.
From Stdlib Require Import Floats.SpecFloat.
From S2P Require Import Prelude.
From S2P Require Import Text.

Open Scope Z_scope.

Definition f64 : Type := spec_float.
Definition prec : Z := 53.
Definition emax : Z := 1024.

(** [n as f64] of an integer. *)
Definition f64_of_Z (n : Z) : f64 := binary_normalize prec emax n 0 false.

Definition f64_sub (a b : f64) : f64 := SFsub prec emax a b.
(** [f64::INFINITY]. *)
Definition f64_infinity : f64 := S754_infinity false.

Definition f64_abs (a : f64) : f64 := SFabs a.

(** [f64::EPSILON], 2^-52. *)
Definition f64_epsilon : f64 := binary_normalize prec emax 1 (-52) false.

(** ** Orders

    [PartialOrd] of the standard library: the comparisons the code takes. *)

Class PartialOrd (A : Type) := {
  po_eqb : A → A → bool;
  po_ltb : A → A → bool;
  po_leb : A → A → bool;
}.

#[export] Instance f64_partial_ord : PartialOrd f64 := {|
  po_eqb := SFeqb;
  po_ltb := SFltb;
  po_leb := SFleb;
|}.

(** ** Parsing *)

Definition digit_value (c : ascii) : Z := code c - 48.

(** A decimal digit string read into an accumulator. *)
Fixpoint digits_value (acc : Z) (s : string) : Z :=
  match s with
  | EmptyString => acc
  | String c s' => digits_value (10 * acc + digit_value c) s'
  end.

(** [m * 10 ^ e], rounded once. *)
Definition f64_of_decimal (neg : bool) (m e : Z) : f64 :=
  match m with
  | Z0 => S754_zero neg
  | Zpos p =>
      let r := if e >=? 0 then binary_normalize prec emax (Zpos p * 10 ^ e) 0 false
               else SFdiv prec emax (S754_finite false p 0)
                      (S754_finite false (Z.to_pos (10 ^ (- e))) 0) in
      if neg then SFopp r else r
  | Zneg _ => S754_nan
  end.

Definition to_lower (c : ascii) : ascii :=
  if in_range 65 90 c then ascii_of_nat (nat_of_ascii c + 32) else c.

Fixpoint str_lower (s : string) : string :=
  match s with EmptyString => EmptyString | String c s' => String (to_lower c) (str_lower s') end.

(** An optional sign. *)
Definition take_sign (s : string) : bool * string :=
  match s with
  | String c s' =>
      if ascii_dec c "-"%char then (true, s')
      else if ascii_dec c "+"%char then (false, s') else (false, s)
  | EmptyString => (false, s)
  end.

(** [Exp ::= 'e' Sign? Digit+] up to the end of the string, or nothing. *)
Definition parse_exp (s : string) : option Z :=
  match s with
  | EmptyString => Some 0
  | String c s' =>
      if (if ascii_dec (to_lower c) "e"%char then true else false) then
        let '(neg, ds) := take_sign s' in
        if negb (is_empty ds) && str_forallb is_ascii_digit ds
        then Some (if neg then - digits_value 0 ds else digits_value 0 ds)
        else None
      else None
  end.

(** [Number ::= (Digit+ | Digit+ '.' Digit* | Digit* '.' Digit+) Exp?]. *)
Definition parse_number (neg : bool) (s : string) : option f64 :=
  let '(ip, r1) := take_while is_ascii_digit s in
  let '(fp, r2) := match r1 with
                   | String c r => if ascii_dec c "."%char then take_while is_ascii_digit r
                                   else (EmptyString, r1)
                   | EmptyString => (EmptyString, r1)
                   end in
  if is_empty ip && is_empty fp then None
  else match parse_exp r2 with
       | Some e =>
           Some (f64_of_decimal neg (digits_value 0 (String.append ip fp))
                   (e - Z.of_nat (String.length fp)))
       | None => None
       end.

(** [str::parse::<f64>]. *)
Definition parse_f64 (s : string) : option f64 :=
  let '(neg, r) := take_sign s in
  let l := str_lower r in
  if String.eqb l "nan" then Some S754_nan
  else if String.eqb l "inf" || String.eqb l "infinity" then Some (S754_infinity neg)
  else parse_number neg r.

(** ** Checks on concrete inputs *)

Example parse_f64_tenth :
  parse_f64 "0.1" = Some (S754_finite false 7205759403792794 (-56)).
Proof. vm_compute. reflexivity. Qed.

Example parse_f64_exp : parse_f64 "-25e-1" = Some (f64_sub (f64_of_Z 0) (f64_sub (f64_of_Z 3) (S754_finite false 4503599627370496 (-53)))).
Proof. vm_compute. reflexivity. Qed.

Example parse_f64_words :
  (parse_f64 "Infinity", parse_f64 "1e", parse_f64 ".", parse_f64 "7.", parse_f64 ".5") =
  (Some (S754_infinity false), None, None, Some (f64_of_Z 7),
   Some (S754_finite false 4503599627370496 (-53))).
Proof. vm_compute. reflexivity. Qed.
