(* ===== verification/CoreTypes.v ===== *)
(** * CoreTypes: the governance vocabulary of aa-core

    The data every other component exchanges: actions, decisions, enforcement
    modes, risk tiers and governance levels (aa-core/src/policy.rs,
    risk_tier.rs, dev_tool.rs, identity.rs, agent.rs). *)

From stdpp Require Import base gmap strings list.
From Stdlib Require Import ZArith Lia Bool String.
From S2P Require Import Prelude.
From S2P Require Import Text.
From S2P Require Import Float64.

Open Scope Z_scope.

(** ** Identity: the sixteen raw UUID bytes, read as one 128-bit number. *)

Definition AgentId : Type := N.
Definition SessionId : Type := N.

#[export] Instance AgentId_eq_dec : EqDecision AgentId := N.eq_dec.
#[export] Instance AgentId_countable : Countable AgentId := N_countable.

(** ** Actions *)

Inductive FileMode := Read | Write | Append | Delete.

#[export] Instance FileMode_eq_dec : EqDecision FileMode.
Proof. solve_decision. Defined.

Inductive GovernanceAction :=
| ToolCall (name args : string)
| ToolResult (tool_name result : string)
| FileAccess (path : string) (mode : FileMode)
| NetworkRequest (url method : string)
| ProcessExec (command : string)
| SendMessage (source_team_id target_team_id channel_id : option string).

#[export] Instance GovernanceAction_eq_dec : EqDecision GovernanceAction.
Proof. solve_decision. Defined.

(** ** Decisions *)

Inductive PolicyResult :=
| Allow
| Deny (reason : string)
| RequiresApproval (timeout_secs : Z).

#[export] Instance PolicyResult_eq_dec : EqDecision PolicyResult.
Proof. solve_decision. Defined.

Inductive PolicyError := InvalidDocument | UnknownAction | EvaluationFailed.

(** ** Enforcement mode *)

Inductive EnforcementMode := Enforce | Observe | Disabled.

#[export] Instance EnforcementMode_eq_dec : EqDecision EnforcementMode.
Proof. solve_decision. Defined.

Module EnforcementModes.
Definition from_proto_i32 (v : Z) : option EnforcementMode :=
  if v =? 1 then Some Enforce
  else if v =? 2 then Some Observe
  else if v =? 3 then Some Disabled
  else None.

Definition as_wire (m : EnforcementMode) : string :=
  match m with
  | Enforce => "enforce"
  | Observe => "observe"
  | Disabled => "disabled"
  end.

Definition from_wire (s : string) : option EnforcementMode :=
  if String.eqb s "enforce" then Some Enforce
  else if String.eqb s "observe" then Some Observe
  else if String.eqb s "disabled" then Some Disabled
  else None.
End EnforcementModes.

(** ** Risk tiers, in ascending severity *)

Inductive RiskTier := Low | Medium | High | Critical.

#[export] Instance RiskTier_eq_dec : EqDecision RiskTier.
Proof. solve_decision. Defined.

Definition risk_rank (t : RiskTier) : Z :=
  match t with Low => 0 | Medium => 1 | High => 2 | Critical => 3 end.

(** The derived [PartialOrd] compares declaration order. *)
#[export] Instance RiskTier_partial_ord : PartialOrd RiskTier := {|
  po_eqb a b := risk_rank a =? risk_rank b;
  po_ltb a b := risk_rank a <? risk_rank b;
  po_leb a b := risk_rank a <=? risk_rank b;
|}.

Definition risk_tier_from_proto_i32 (v : Z) : option RiskTier :=
  if v =? 1 then Some Low
  else if v =? 2 then Some Medium
  else if v =? 3 then Some High
  else if v =? 4 then Some Critical
  else None.

(** ** Governance levels *)

Inductive GovernanceLevel := L0Discover | L1Observe | L2Enforce | L3Native.

#[export] Instance GovernanceLevel_eq_dec : EqDecision GovernanceLevel.
Proof. solve_decision. Defined.

Definition level_rank (l : GovernanceLevel) : Z :=
  match l with L0Discover => 0 | L1Observe => 1 | L2Enforce => 2 | L3Native => 3 end.

#[export] Instance GovernanceLevel_partial_ord : PartialOrd GovernanceLevel := {|
  po_eqb a b := level_rank a =? level_rank b;
  po_ltb a b := level_rank a <? level_rank b;
  po_leb a b := level_rank a <=? level_rank b;
|}.

Definition governance_level_display (l : GovernanceLevel) : string :=
  match l with
  | L0Discover => "L0Discover"
  | L1Observe => "L1Observe"
  | L2Enforce => "L2Enforce"
  | L3Native => "L3Native"
  end.

Definition governance_level_from_str (s : string) : result GovernanceLevel string :=
  if String.eqb s "L0" || String.eqb s "L0Discover" then Ok L0Discover
  else if String.eqb s "L1" || String.eqb s "L1Observe" then Ok L1Observe
  else if String.eqb s "L2" || String.eqb s "L2Enforce" then Ok L2Enforce
  else if String.eqb s "L3" || String.eqb s "L3Native" then Ok L3Native
  else Err "unknown governance level; expected L0, L1, L2, or L3".

(** ** Execution context *)

Record AgentContext := {
  ac_agent_id : AgentId;
  ac_session_id : SessionId;
  ac_pid : Z;
  ac_started_at : Z;
  ac_metadata : gmap string string;
  ac_governance_level : GovernanceLevel;
  ac_parent_agent_id : option AgentId;
  ac_team_id : option string;
  ac_depth : Z;
  ac_delegation_reason : option string;
  ac_spawned_by_tool : option string;
  ac_root_agent_id : option AgentId;
}.

(** ** Lemmas *)

Lemma from_wire_as_wire m : EnforcementModes.from_wire (EnforcementModes.as_wire m) = Some m.
Proof. by destruct m. Qed.

Lemma governance_level_from_display l :
  governance_level_from_str (governance_level_display l) = Ok l.
Proof. by destruct l. Qed.
