(* ===== verification/External.v ===== *)
(** * External: the third-party libraries the code calls

    serde_json, humantime, uuid, chrono with its time zones and rust_decimal are
    dependencies of the repository, not part of it: a class states the operations the
    code calls on each, a second class the documented laws a theorem needs, and every
    definition that uses one takes it as an argument.  Each has a concrete instance. *)

From stdpp Require Import base strings list.
From Stdlib Require Import ZArith QArith Lia Bool Ascii String.
From S2P Require Import Prelude.
From S2P Require Import Float64.

Open Scope Z_scope.

(** serde_json: parsing, RFC 6901 pointers, and the views of a [Value] the
    evaluator takes ([Value::as_str]; [Value::Number] and its [as_f64]). *)
Class JsonLib := {
  json_value : Type;
  json_number : Type;
  json_from_str : string → option json_value;
  json_pointer : json_value → string → option json_value;
  json_as_str : json_value → option string;
  json_as_number : json_value → option json_number;
  json_number_as_f64 : json_number → option f64;
}.

(** humantime: [parse_duration(s).ok().map(|d| d.as_secs())]. *)
Class HumantimeLib := {
  humantime_parse_secs : string → option Z;
}.

(** uuid: the hyphenated text of sixteen bytes, and [Uuid::parse_str], whose error
    is rendered into the message of the scope parser. *)
Class UuidLib := {
  uuid_display : N → string;
  uuid_parse : string → result N string;
}.

(** The documented behaviour of uuid the scope parser relies on. *)
Class UuidLaws (U : UuidLib) : Prop := {
  uuid_parse_display id : uuid_parse (uuid_display id) = Ok id;
  uuid_display_ne id : uuid_display id ≠ EmptyString;
}.

(** chrono and chrono-tz: time zone names, and the local hour, minute and
    calendar date of an instant (nanoseconds since the epoch) in a zone.  A
    [NaiveDate] is its day number; [date_year] and [date_month] are its
    [Datelike] accessors. *)
Class ChronoLib := {
  tz : Type;
  tz_parse : string → option tz;
  tz_utc : tz;
  local_hour_minute : tz → Z → Z * Z;
  local_date : tz → Z → Z;
  date_year : Z → Z;
  date_month : Z → Z;
}.

(** [Timelike::hour] is below 24 and [Timelike::minute] below 60. *)
Class ChronoLaws (C : ChronoLib) : Prop := {
  local_hour_bound z t : 0 ≤ fst (local_hour_minute z t) < 24;
  local_minute_bound z t : 0 ≤ snd (local_hour_minute z t) < 60;
}.

(** rust_decimal: the operations of the budget engine.  [dec_new m s] is
    [Decimal::new], the number [m] divided by ten to the [s].  The operators panic when the
    result is out of range; the functions are what they return otherwise. *)
Class DecimalLib := {
  dec : Type;
  dec_zero : dec;
  dec_new : Z → Z → dec;
  dec_of_Z : Z → dec;
  dec_add : dec → dec → dec;
  dec_sub : dec → dec → dec;
  dec_mul : dec → dec → dec;
  dec_div : dec → dec → dec;
  dec_round0 : dec → dec;
  dec_leb : dec → dec → bool;
  dec_to_u8 : dec → option Z;
  dec_to_f64 : dec → option f64;
}.

(** The numbers a decimal can be: a mantissa of 96 bits over a power of ten up to the 28th. *)
Definition representable (q : Q) : Prop :=
  ∃ m s, Z.abs m < 2 ^ 96 ∧ 0 ≤ s ≤ 28 ∧ (q == inject_Z m / inject_Z (10 ^ s))%Q.

(** The numeric value of a decimal and the operations on it.  Comparison is by value, two
    representations of one number (1.0 and 1.00) have the same value, adding zero changes
    nothing, and an operation is exact where its exact result is representable; elsewhere it
    rounds or panics, and nothing is assumed. *)
Class DecimalLaws (D : DecimalLib) := {
  dec_val : dec → Q;
  dec_leb_val x y : dec_leb x y = true ↔ (dec_val x <= dec_val y)%Q;
  dec_val_zero : (dec_val dec_zero == 0)%Q;
  dec_val_new m s : Z.abs m < 2 ^ 63 → 0 ≤ s ≤ 28 → (dec_val (dec_new m s) == inject_Z m / inject_Z (10 ^ s))%Q;
  dec_val_of_Z z : Z.abs z < 2 ^ 96 → (dec_val (dec_of_Z z) == inject_Z z)%Q;
  dec_val_add_zero x : (dec_val (dec_add dec_zero x) == dec_val x)%Q;
  dec_val_add x y : representable (dec_val x + dec_val y) → (dec_val (dec_add x y) == dec_val x + dec_val y)%Q;
  dec_val_mul x y : representable (dec_val x * dec_val y) → (dec_val (dec_mul x y) == dec_val x * dec_val y)%Q;
  dec_val_div x y :
    ¬ (dec_val y == 0)%Q → representable (dec_val x / dec_val y) → (dec_val (dec_div x y) == dec_val x / dec_val y)%Q;
}.

(** Concrete instances, for evaluation on examples: the JSON values are the
    string scalars, the one document read is its own text, and no duration
    literal parses. *)
Definition text_json : JsonLib := {|
  json_value := string;
  json_number := f64;
  json_from_str s := Some s;
  json_pointer v p := if String.eqb p "/path" then Some v else None;
  json_as_str v := Some v;
  json_as_number _ := None;
  json_number_as_f64 n := Some n;
|}.

Definition no_durations : HumantimeLib := {|
  humantime_parse_secs _ := None;
|}.

(** Identifiers written as their binary digits, least significant first. *)
Fixpoint positive_text (p : positive) : string :=
  match p with
  | xH => "1"
  | xO p' => String "0" (positive_text p')
  | xI p' => String "1" (positive_text p')
  end.

Fixpoint positive_of_text (s : string) : option positive :=
  match s with
  | EmptyString => None
  | String c s' =>
      if ascii_dec c "0" then option_map xO (positive_of_text s')
      else match s' with
           | EmptyString => Some xH
           | _ => option_map xI (positive_of_text s')
           end
  end.

Definition binary_uuid : UuidLib := {|
  uuid_display id := match id with N0 => "z"%string | Npos p => String "p" (positive_text p) end;
  uuid_parse s :=
    match s with
    | String c s' =>
        if ascii_dec c "z" then Ok 0%N
        else match positive_of_text s' with
             | Some p => Ok (Npos p)
             | None => Err "not an identifier"%string
             end
    | EmptyString => Err "empty"%string
    end;
|}.

Lemma positive_of_text_text p : positive_of_text (positive_text p) = Some p.
Proof.
  induction p as [p IH|p IH|]; simpl; [|by rewrite IH|done].
  rewrite IH. by destruct p.
Qed.

Lemma binary_uuid_laws : UuidLaws binary_uuid.
Proof.
  split; [|by intros []]. intros [|p]; simpl; [done|]. by rewrite positive_of_text_text.
Qed.

(** Coordinated universal time only, with months of thirty days. *)
Definition utc_only : ChronoLib := {|
  tz := unit;
  tz_parse s := if String.eqb s "UTC" then Some tt else None;
  tz_utc := tt;
  local_hour_minute _ t := ((t / 3600000000000) mod 24, (t / 60000000000) mod 60);
  local_date _ t := t / 86400000000000;
  date_year d := 1970 + d / 360;
  date_month d := 1 + (d / 30) mod 12;
|}.

Lemma utc_only_laws : ChronoLaws utc_only.
Proof. split; intros z t; simpl; apply Z.mod_pos_bound; lia. Qed.

(** Exact rational amounts. *)
Definition rational : DecimalLib := {|
  dec := Q; dec_zero := 0%Q; dec_new m s := (inject_Z m / inject_Z (10 ^ s))%Q; dec_of_Z := inject_Z;
  dec_add x y := Qred (x + y); dec_sub x y := Qred (x - y); dec_mul x y := Qred (x * y);
  dec_div x y := Qred (x / y); dec_round0 x := inject_Z (Qnum x / Zpos (Qden x));
  dec_leb := Qle_bool;
  dec_to_u8 x := let z := Qnum x / Zpos (Qden x) in
                 if (0 <=? z) && (z <=? 255) then Some z else None;
  dec_to_f64 x := Some (f64_of_Z (Qnum x / Zpos (Qden x)));
|}.

Definition rational_laws : DecimalLaws rational.
Proof.
  refine {| dec_val := (λ x : @dec rational, x) : @dec rational → Q |}; simpl; intros;
    rewrite ?Qred_correct; try reflexivity.
  - apply Qle_bool_iff.
  - apply Qplus_0_l.
Defined.
