(* ===== verification/ExprSyntax.v ===== *)
(** * ExprSyntax: tokens and lexer of the policy expression language

    aa-policy/src/expr.rs, the lexical half: [tokenize] and its sub-lexers, the
    keyword table, and the load-time scanners ([extract_field_names],
    [validate_variables], [validate_governance_levels]).

    A cursor over the remaining characters is the remaining [string]; a
    sub-lexer returns its token with the string left.  The two scanning loops
    that are not structural take fuel, one unit per character read at least;
    [tokenize_unfold] shows that the fuel [tokenize] starts with is enough, that
    is, [tokenize] satisfies the loop of the source without any fuel. *)

From stdpp Require Import base strings list.
From Stdlib Require Import ZArith Lia Bool Ascii String.
From S2P Require Import Prelude.
From S2P Require Import Text.
From S2P Require Import Float64.
From S2P Require Import CoreTypes.
From S2P Require Import External.

Open Scope Z_scope.

(** ** Tokens *)

Module Field.
Inductive FieldRef :=
| Tool | Path | Url | Method | Command | GovernanceLevel
| AgentDepth | TeamActiveAgents | TeamBudgetRemaining | ChildTool | ChildRiskTier
| AgentRiskTier | ParentRiskTier | SourceTeamId | TargetTeamId | TargetChannelId
| AgentAge | TeamParallelAgents | AgentParentId | AgentTeamId | AgentChildrenCount
| AgentIsRoot | AgentIsLeaf
| ToolArg (pointer : string)
| ToolResult (pointer : string)
| ToolResultWhole.

#[export] Instance FieldRef_eq_dec : EqDecision FieldRef.
Proof. solve_decision. Defined.
End Field.

Module Op.
Inductive OpKind :=
| Eq | Ne | Gt | Gte | Lt | Lte | Contains | StartsWith | In | NotIn.

#[export] Instance OpKind_eq_dec : EqDecision OpKind.
Proof. solve_decision. Defined.
End Op.

Module Lit.
Inductive LiteralVal :=
| Str (s : string)
| Num (n : f64)
| Level (l : CoreTypes.GovernanceLevel)
| Tier (t : RiskTier)
| StrList (l : list string)
| Duration (secs : Z).
End Lit.

Module Tok.
Inductive Token :=
| Field (f : Field.FieldRef)
| Op (op : Op.OpKind)
| Literal (l : Lit.LiteralVal)
| And
| Or.
End Tok.

Import Tok.

(** ** Sub-lexers *)

(** The body of [read_quoted_body] after the opening quote. *)
Fixpoint read_quoted_loop (s : string) : option (string * string) :=
  match s with
  | EmptyString => None
  | String c s' =>
      if ascii_dec c quote_c then Some (EmptyString, s')
      else if ascii_dec c backslash_c then
        match s' with
        | EmptyString => None
        | String d s'' =>
            match read_quoted_loop s'' with
            | None => None
            | Some (body, rest) =>
                if ascii_dec d quote_c then Some (String quote_c body, rest)
                else if ascii_dec d backslash_c then Some (String backslash_c body, rest)
                else Some (String backslash_c (String d body), rest)
            end
        end
      else match read_quoted_loop s' with
           | None => None
           | Some (body, rest) => Some (String c body, rest)
           end
  end.

Definition read_quoted_body (s : string) : option (string * string) :=
  match s with
  | EmptyString => None
  | String _ s' => read_quoted_loop s'
  end.

Definition skip_while (s : string) (pred : ascii → bool) : string :=
  snd (take_while pred s).

Fixpoint lex_list_loop (fuel : nat) (items : list string) (s : string)
  : option (list string * string) :=
  match fuel with
  | O => None
  | S fuel' =>
      match skip_while s is_whitespace with
      | EmptyString => None
      | String c s' =>
          if ascii_dec c "]"%char then Some (items, s')
          else if ascii_dec c quote_c then
            match read_quoted_body (String c s') with
            | None => None
            | Some (body, rest) =>
                lex_list_loop fuel' (items ++ [body])
                  (skip_while rest (λ c, is_whitespace c || (code c =? 44)))
            end
          else None
      end
  end.

Definition lex_list_literal (s : string) : option (Token * string) :=
  match s with
  | EmptyString => None
  | String _ s' =>
      match lex_list_loop (S (String.length s')) [] s' with
      | None => None
      | Some (items, rest) => Some (Literal (Lit.StrList items), rest)
      end
  end.

Definition lex_quoted_string (s : string) : option (Token * string) :=
  match read_quoted_body s with
  | None => None
  | Some (body, rest) => Some (Literal (Lit.Str body), rest)
  end.

Definition lex_comparison_op (s : string) : option (Token * string) :=
  match s with
  | EmptyString => None
  | String ch s' =>
      match s' with
      | String "="%char s'' =>
          if ascii_dec ch "<"%char then Some (Tok.Op Op.Lte, s'')
          else if ascii_dec ch ">"%char then Some (Tok.Op Op.Gte, s'')
          else if ascii_dec ch "="%char then Some (Tok.Op Op.Eq, s'')
          else if ascii_dec ch "!"%char then Some (Tok.Op Op.Ne, s'')
          else None
      | _ =>
          if ascii_dec ch "<"%char then Some (Tok.Op Op.Lt, s')
          else if ascii_dec ch ">"%char then Some (Tok.Op Op.Gt, s')
          else None
      end
  end.

(** Characters of a word: letters, digits, [_], [-] and [.]. *)
Definition is_word_char (c : ascii) : bool :=
  is_alphanumeric c || (code c =? 95) || (code c =? 45) || (code c =? 46).

(** The keyword table of [word_to_token]. *)
Definition keyword_table : list (string * Token) :=
  [ ("AND", And); ("OR", Or);
    ("tool", Field Field.Tool); ("path", Field Field.Path); ("url", Field Field.Url);
    ("method", Field Field.Method); ("command", Field Field.Command);
    ("governance_level", Field Field.GovernanceLevel);
    ("agent.depth", Field Field.AgentDepth);
    ("team.active_agents", Field Field.TeamActiveAgents);
    ("team.budget_remaining", Field Field.TeamBudgetRemaining);
    ("child.tool", Field Field.ChildTool);
    ("child.risk_tier", Field Field.ChildRiskTier);
    ("agent.risk_tier", Field Field.AgentRiskTier);
    ("parent.risk_tier", Field Field.ParentRiskTier);
    ("source.team_id", Field Field.SourceTeamId);
    ("target.team_id", Field Field.TargetTeamId);
    ("target.channel_id", Field Field.TargetChannelId);
    ("agent.age", Field Field.AgentAge);
    ("team.parallel_agents", Field Field.TeamParallelAgents);
    ("agent.parent_agent_id", Field Field.AgentParentId);
    ("agent.team_id", Field Field.AgentTeamId);
    ("agent.children_count", Field Field.AgentChildrenCount);
    ("agent.is_root", Field Field.AgentIsRoot);
    ("agent.is_leaf", Field Field.AgentIsLeaf);
    ("L0", Literal (Lit.Level L0Discover)); ("L1", Literal (Lit.Level L1Observe));
    ("L2", Literal (Lit.Level L2Enforce)); ("L3", Literal (Lit.Level L3Native));
    ("Low", Literal (Lit.Tier Low)); ("Medium", Literal (Lit.Tier Medium));
    ("High", Literal (Lit.Tier High)); ("Critical", Literal (Lit.Tier Critical));
    ("contains", Tok.Op Op.Contains); ("starts_with", Tok.Op Op.StartsWith);
    ("in", Tok.Op Op.In); ("not_in", Tok.Op Op.NotIn) ].

Fixpoint assoc {A} (k : string) (l : list (string * A)) : option A :=
  match l with
  | [] => None
  | (k', a) :: l' => if String.eqb k k' then Some a else assoc k l'
  end.

Section Lexer.
Context {HT : HumantimeLib}.

Definition word_literal_token (word : string) : option Token :=
  match parse_f64 word with
  | Some n => Some (Literal (Lit.Num n))
  | None =>
      match word with
      | String c _ =>
          if is_ascii_digit c then
            match humantime_parse_secs word with
            | Some secs => Some (Literal (Lit.Duration secs))
            | None => None
            end
          else None
      | EmptyString => None
      end
  end.

(** The JSON pointer of a dotted path: [a.b] is [/a/b]. *)
Definition pointer_of (rest : string) : string := String "/" (replace_char "." "/" rest).

Definition word_to_token (word : string) : option Token :=
  match strip_prefix word "args." with
  | Some rest =>
      if is_empty rest then None else Some (Field (Field.ToolArg (pointer_of rest)))
  | None =>
      match strip_prefix word "tool_result." with
      | Some rest =>
          if is_empty rest then None else Some (Field (Field.ToolResult (pointer_of rest)))
      | None =>
          if String.eqb word "tool_result" then Some (Field Field.ToolResultWhole)
          else match assoc word keyword_table with
               | Some t => Some t
               | None => word_literal_token word
               end
      end
  end.

Definition lex_word (s : string) : option (Token * string) :=
  let '(word, rest) := take_while is_word_char s in
  match word_to_token word with
  | None => None
  | Some t => Some (t, rest)
  end.

Definition is_comparison_char (c : ascii) : bool :=
  (code c =? 60) || (code c =? 62) || (code c =? 61) || (code c =? 33).

(** One token at a character that is not white space. *)
Definition lex_token (c : ascii) (s : string) : option (Token * string) :=
  if ascii_dec c "["%char then lex_list_literal s
  else if ascii_dec c quote_c then lex_quoted_string s
  else if is_comparison_char c then lex_comparison_op s
  else if is_word_char c then lex_word s
  else None.

Fixpoint tokenize_loop (fuel : nat) (s : string) : option (list Token) :=
  match fuel with
  | O => None
  | S fuel' =>
      match s with
      | EmptyString => Some []
      | String c s' =>
          if is_whitespace c then tokenize_loop fuel' s'
          else match lex_token c s with
               | None => None
               | Some (t, rest) =>
                   match tokenize_loop fuel' rest with
                   | None => None
                   | Some ts => Some (t :: ts)
                   end
               end
      end
  end.

Definition tokenize (expr : string) : option (list Token) :=
  tokenize_loop (S (String.length expr)) expr.
End Lexer.

(** ** Load-time scanners *)

Definition KNOWN_VARIABLES : list string :=
  [ "tool"; "path"; "url"; "method"; "command"; "governance_level"; "agent.depth";
    "agent.risk_tier"; "team.active_agents"; "team.budget_remaining"; "child.tool";
    "child.risk_tier"; "parent.risk_tier"; "source.team_id"; "target.team_id";
    "target.channel_id"; "agent.age"; "team.parallel_agents"; "agent.parent_agent_id";
    "agent.team_id"; "agent.children_count"; "agent.is_root"; "agent.is_leaf" ].

Definition SKIP_WORDS : list string :=
  [ "AND"; "OR"; "true"; "false"; "contains"; "starts_with"; "in"; "not_in";
    "L0"; "L1"; "L2"; "L3"; "Low"; "Medium"; "High"; "Critical" ].

Definition str_mem (s : string) (l : list string) : bool := existsb (String.eqb s) l.

(** Everything up to and including the closing bracket, or to the end. *)
Fixpoint skip_list_body (s : string) : string :=
  match s with
  | EmptyString => EmptyString
  | String c s' => if ascii_dec c "]"%char then s' else skip_list_body s'
  end.

Definition skip_list_literal (s : string) : string :=
  match s with EmptyString => EmptyString | String _ s' => skip_list_body s' end.

Fixpoint skip_quoted_body (s : string) : string :=
  match s with
  | EmptyString => EmptyString
  | String c s' =>
      if ascii_dec c quote_c then s'
      else if ascii_dec c backslash_c then
        match s' with EmptyString => EmptyString | String _ s'' => skip_quoted_body s'' end
      else skip_quoted_body s'
  end.

Definition skip_quoted_string (s : string) : string :=
  match s with EmptyString => EmptyString | String _ s' => skip_quoted_body s' end.

Definition take_word (s : string) : string * string := take_while is_word_char s.

Fixpoint extract_loop (fuel : nat) (s : string) : list string :=
  match fuel with
  | O => []
  | S fuel' =>
      match s with
      | EmptyString => []
      | String c s' =>
          if is_whitespace c || is_comparison_char c then extract_loop fuel' s'
          else if ascii_dec c "["%char then extract_loop fuel' (skip_list_literal s)
          else if ascii_dec c quote_c then extract_loop fuel' (skip_quoted_string s)
          else if is_word_char c then
            let '(word, rest) := take_word s in
            if str_mem word SKIP_WORDS || match parse_f64 word with Some _ => true | None => false end
            then extract_loop fuel' rest
            else word :: extract_loop fuel' rest
          else extract_loop fuel' s'
      end
  end.

Definition extract_field_names (expr : string) : list string :=
  extract_loop (S (String.length expr)) expr.

Definition is_dynamic_field_name (name : string) : bool :=
  (starts_with name "args." && (5 <? Z.of_nat (String.length name))) ||
  String.eqb name "tool_result" ||
  (starts_with name "tool_result." && (12 <? Z.of_nat (String.length name))).

(** [PolicyParseError::UnknownVariable]; the suggestion is the caller's
    diagnostic and comes from the edit-distance function [strsim::levenshtein]. *)
Record UnknownVariable := {
  uv_name : string;
  uv_suggestion : option string;
  uv_available : list string;
}.

Section Validation.
Variable levenshtein : string → string → nat.

(** [min_by_key] keeps the first of the least entries. *)
Fixpoint min_by_key {A} (key : A → nat) (l : list A) : option A :=
  match l with
  | [] => None
  | a :: l' =>
      match min_by_key key l' with
      | None => Some a
      | Some b => if Nat.leb (key a) (key b) then Some a else Some b
      end
  end.

Definition suggest_variable (name : string) : option string :=
  min_by_key (levenshtein name)
    (List.filter (λ v, Nat.leb (levenshtein name v) 2) KNOWN_VARIABLES).

Fixpoint validate_names (names : list string) : result unit UnknownVariable :=
  match names with
  | [] => Ok tt
  | name :: names' =>
      if is_dynamic_field_name name then validate_names names'
      else if negb (str_mem name KNOWN_VARIABLES) then
        Err {| uv_name := name; uv_suggestion := suggest_variable name;
               uv_available := KNOWN_VARIABLES |}
      else validate_names names'
  end.

Definition validate_variables (expr : string) : result unit UnknownVariable :=
  validate_names (extract_field_names expr).
End Validation.

Definition is_identifier_char (c : ascii) : bool := is_alphanumeric c || (code c =? 95).

Definition take_identifier (s : string) : string * string := take_while is_identifier_char s.

Definition validate_level_word (word : string) : result unit string :=
  let rest := match word with EmptyString => EmptyString | String _ r => r end in
  if is_empty rest || negb (str_forallb is_ascii_digit rest) then Ok tt
  else if str_mem word ["L0"; "L1"; "L2"; "L3"] then Ok tt
  else Err ("unknown governance level: " +:+ word +:+ "; valid values: L0, L1, L2, L3").

Fixpoint validate_levels_loop (fuel : nat) (s : string) : result unit string :=
  match fuel with
  | O => Ok tt
  | S fuel' =>
      match s with
      | EmptyString => Ok tt
      | String c s' =>
          if ascii_dec c "L"%char then
            let '(word, rest) := take_identifier s in
            let? _ := validate_level_word word in validate_levels_loop fuel' rest
          else validate_levels_loop fuel' s'
      end
  end.

Definition validate_governance_levels (expr : string) : result unit string :=
  validate_levels_loop (S (String.length expr)) expr.

(** ** Lexing makes progress, so the fuel is enough *)

Definition shorter (rest s : string) : Prop := (String.length rest < String.length s)%nat.

Lemma skip_while_length s p : (String.length (skip_while s p) ≤ String.length s)%nat.
Proof. apply take_while_length. Qed.

Lemma read_quoted_loop_length_aux n s body rest :
  (String.length s ≤ n)%nat → read_quoted_loop s = Some (body, rest) → shorter rest s.
Proof.
  unfold shorter. revert s body rest. induction n as [|n IH]; intros s body rest Hn.
  { destruct s; simpl in *; [done|lia]. }
  destruct s as [|c s']; simpl in *; [done|]. intros H.
  destruct (ascii_dec c quote_c); simplify_eq; [lia|].
  destruct (ascii_dec c backslash_c).
  - destruct s' as [|d s'']; [done|]. simpl in *.
    destruct (read_quoted_loop s'') as [[b r]|] eqn:E; [|done].
    assert (String.length r < String.length s'')%nat by (eapply (IH _ b); [lia|done]).
    destruct (ascii_dec d quote_c), (ascii_dec d backslash_c); simplify_eq; lia.
  - destruct (read_quoted_loop s') as [[b r]|] eqn:E; [|done]. simplify_eq.
    assert (String.length rest < String.length s')%nat by (eapply (IH _ b); [lia|done]). lia.
Qed.

Lemma read_quoted_body_length s body rest :
  read_quoted_body s = Some (body, rest) → shorter rest s.
Proof.
  destruct s as [|c s]; simpl; [done|]. intros H.
  apply (read_quoted_loop_length_aux (String.length s)) in H; [|done].
  unfold shorter in *. simpl. lia.
Qed.

Lemma lex_list_loop_length n items s l rest :
  lex_list_loop n items s = Some (l, rest) → shorter rest s.
Proof.
  unfold shorter. revert items s. induction n as [|n IH]; intros items s; simpl; [done|].
  pose proof (skip_while_length s is_whitespace) as Hs.
  destruct (skip_while s is_whitespace) as [|c s'] eqn:E; [done|]. simpl in Hs.
  destruct (ascii_dec c "]"); [intros [= <- <-]; lia|].
  destruct (ascii_dec c quote_c); [|done].
  destruct (read_quoted_loop s') as [[b r]|] eqn:Er; [|done]. intros H.
  apply (read_quoted_loop_length_aux (String.length s')) in Er; [|done].
  apply IH in H. unfold shorter in Er.
  pose proof (skip_while_length r (λ c, is_whitespace c || (code c =? 44))). lia.
Qed.

Section LexerProgress.
Context {HT : HumantimeLib}.

Lemma lex_token_length c s t rest :
  lex_token c (String c s) = Some (t, rest) → shorter rest (String c s).
Proof.
  unfold lex_token, shorter. intros H.
  destruct (ascii_dec c "[").
  { unfold lex_list_literal in H.
    destruct (lex_list_loop _ [] s) as [[l r]|] eqn:E; simplify_eq.
    apply lex_list_loop_length in E. unfold shorter in E. simpl. lia. }
  destruct (ascii_dec c quote_c).
  { unfold lex_quoted_string in H.
    destruct (read_quoted_body (String c s)) as [[l r]|] eqn:E; simplify_eq.
    by apply read_quoted_body_length in E. }
  destruct (is_comparison_char c).
  { simpl in H. repeat case_match; simplify_eq/=; lia. }
  destruct (is_word_char c) eqn:Hc; [|done].
  unfold lex_word in H. simpl in H. rewrite Hc in H.
  pose proof (take_while_length is_word_char s).
  destruct (take_while is_word_char s) as [w r]. simpl in *.
  case_match; simplify_eq. simpl. lia.
Qed.

Lemma tokenize_loop_step n c s :
  tokenize_loop (S n) (String c s) =
    if is_whitespace c then tokenize_loop n s
    else match lex_token c (String c s) with
         | None => None
         | Some (t, rest) =>
             match tokenize_loop n rest with None => None | Some ts => Some (t :: ts) end
         end.
Proof. done. Qed.

Lemma tokenize_loop_fuel n m s :
  (String.length s < n)%nat → (String.length s < m)%nat → tokenize_loop n s = tokenize_loop m s.
Proof.
  revert m s. induction n as [|n IH]; intros [|m] s Hn Hm; [lia..|].
  destruct s as [|c s]; [done|]. simpl in Hn, Hm.
  rewrite !tokenize_loop_step. destruct (is_whitespace c); [apply IH; lia|].
  destruct (lex_token c (String c s)) as [[t rest]|] eqn:E; [|done].
  apply lex_token_length in E. unfold shorter in E. simpl in E.
  by rewrite (IH m rest) by lia.
Qed.

Lemma tokenize_nil : tokenize EmptyString = Some [].
Proof. done. Qed.

(** The loop equation of [tokenize], free of fuel. *)
Lemma tokenize_unfold c s :
  tokenize (String c s) =
    if is_whitespace c then tokenize s
    else match lex_token c (String c s) with
         | None => None
         | Some (t, rest) =>
             match tokenize rest with None => None | Some ts => Some (t :: ts) end
         end.
Proof.
  unfold tokenize. cbn [String.length]. rewrite tokenize_loop_step.
  destruct (is_whitespace c); [done|].
  destruct (lex_token c (String c s)) as [[t rest]|] eqn:E; [|done].
  apply lex_token_length in E. unfold shorter in E. simpl in E.
  by rewrite (tokenize_loop_fuel _ (S (String.length rest))) by lia.
Qed.
End LexerProgress.

(** ** Printing, the left inverse of lexing *)

Fixpoint escape (s : string) : string :=
  match s with
  | EmptyString => EmptyString
  | String c s' =>
      if ascii_dec c quote_c then String backslash_c (String quote_c (escape s'))
      else if ascii_dec c backslash_c then String backslash_c (String backslash_c (escape s'))
      else String c (escape s')
  end.

Definition quoted (s : string) (k : string) : string :=
  String quote_c (String.append (escape s) (String quote_c k)).

Fixpoint quoted_items (l : list string) (k : string) : string :=
  match l with
  | [] => String "]" k
  | s :: l' => quoted s (String "," (quoted_items l' k))
  end.

Lemma read_quoted_loop_escape s k :
  read_quoted_loop (String.append (escape s) (String quote_c k)) = Some (s, k).
Proof.
  induction s as [|c s IH]; simpl; [done|].
  destruct (ascii_dec c quote_c) as [->|Hq].
  { simpl. by rewrite IH. }
  destruct (ascii_dec c backslash_c) as [->|Hb].
  { simpl. by rewrite IH. }
  simpl. destruct (ascii_dec c quote_c); [done|]. destruct (ascii_dec c backslash_c); [done|].
  by rewrite IH.
Qed.

Lemma lex_quoted_string_quoted s k :
  lex_quoted_string (quoted s k) = Some (Literal (Lit.Str s), k).
Proof. unfold lex_quoted_string, quoted. simpl. by rewrite read_quoted_loop_escape. Qed.

Lemma skip_while_quote p s k : p quote_c = false → skip_while (quoted s k) p = quoted s k.
Proof. intros Hp. unfold skip_while, quoted. simpl. by rewrite Hp. Qed.

Lemma skip_while_quoted_items p l k :
  p quote_c = false → p "]"%char = false → skip_while (quoted_items l k) p = quoted_items l k.
Proof.
  intros Hq Hb. destruct l; simpl; [|by apply skip_while_quote].
  unfold skip_while. simpl. by rewrite Hb.
Qed.

Lemma lex_list_loop_quoted n acc (l : list string) k :
  (List.length l < n)%nat → lex_list_loop n acc (quoted_items l k) = Some (acc ++ l, k).
Proof.
  revert acc l. induction n as [|n IH]; intros acc l Hn; [lia|]. cbn [lex_list_loop].
  rewrite skip_while_quoted_items by done.
  destruct l as [|s l]; [by rewrite app_nil_r|].
  cbn [quoted_items]. unfold quoted at 1. cbn -[read_quoted_body skip_while].
  unfold read_quoted_body. rewrite read_quoted_loop_escape.
  replace (skip_while (String "," (quoted_items l k)) (λ c, is_whitespace c || (code c =? 44)))
    with (quoted_items l k).
  - rewrite IH by (simpl in Hn; lia). by rewrite <- app_assoc.
  - unfold skip_while. simpl. pose proof (skip_while_quoted_items
      (λ c, is_whitespace c || (code c =? 44)) l k eq_refl eq_refl) as H.
    unfold skip_while in H. by destruct (take_while _ (quoted_items l k)).
Qed.

(** A lexeme of an expression: what a policy author writes between blanks. *)
Inductive lexeme :=
| LWord (w : string)
| LQuoted (s : string)
| LItems (l : list string)
| LCompare (op : Op.OpKind).

Definition compare_text (op : Op.OpKind) : string :=
  match op with
  | Op.Eq => "==" | Op.Ne => "!=" | Op.Gt => ">" | Op.Gte => ">=" | Op.Lt => "<" | Op.Lte => "<="
  | _ => ""
  end.

(** A word is written with word characters only; a comparison is one of the six. *)
Definition lexeme_wf (x : lexeme) : bool :=
  match x with
  | LWord w => negb (is_empty w) && str_forallb is_word_char w
  | LCompare op => negb (is_empty (compare_text op))
  | LQuoted _ | LItems _ => true
  end.

Definition lexeme_text (x : lexeme) (k : string) : string :=
  match x with
  | LWord w => String.append w k
  | LQuoted s => quoted s k
  | LItems l => String "[" (quoted_items l k)
  | LCompare op => String.append (compare_text op) k
  end.

(** The lexemes of an expression, each followed by a blank. *)
Fixpoint print_lexemes (l : list lexeme) : string :=
  match l with
  | [] => EmptyString
  | x :: l' => lexeme_text x (String " " (print_lexemes l'))
  end.

Definition lexeme_token `{HumantimeLib} (x : lexeme) : option Token :=
  match x with
  | LWord w => word_to_token w
  | LQuoted s => Some (Literal (Lit.Str s))
  | LItems l => Some (Literal (Lit.StrList l))
  | LCompare op => Some (Tok.Op op)
  end.

Lemma word_char_class c :
  is_word_char c = true →
  is_whitespace c = false ∧ is_comparison_char c = false ∧ c ≠ "["%char ∧ c ≠ quote_c.
Proof. by destruct c as [[] [] [] [] [] [] [] []]. Qed.

Lemma quoted_items_length l k :
  (List.length l + String.length k < String.length (quoted_items l k))%nat.
Proof.
  induction l as [|s l IH]; simpl; [lia|].
  unfold quoted. simpl. rewrite append_length. simpl. lia.
Qed.

Section LexerRoundTrip.
Context {HT : HumantimeLib}.

(** The text of a well-formed lexeme starts with a character that is not white
    space, and lexing there gives the lexeme's token and leaves the rest. *)
Lemma lex_token_lexeme x k c s :
  lexeme_wf x = true → lexeme_text x (String " " k) = String c s →
  is_whitespace c = false ∧
  lex_token c (String c s) = option_map (λ t, (t, String " " k)) (lexeme_token x).
Proof.
  intros Hwf Htext. destruct x as [w|q|l|op]; simpl in *.
  - apply andb_true_iff in Hwf as [Hne Hw]. destruct w as [|d w]; [done|].
    simpl in Htext. simplify_eq. simpl in Hw. apply andb_true_iff in Hw as [Hd Hw].
    apply word_char_class in Hd as Hcls. destruct Hcls as (Hws & Hcmp & Hbr & Hq).
    split; [done|]. unfold lex_token.
    destruct (ascii_dec c "["); [done|]. destruct (ascii_dec c quote_c); [done|].
    rewrite Hcmp, Hd. unfold lex_word.
    change (String c (String.append w (String " " k)))
      with (String.append (String c w) (String " " k)).
    rewrite take_while_app by (simpl; rewrite ?Hd, ?Hw; done).
    by destruct (word_to_token (String c w)).
  - unfold quoted in Htext. simplify_eq. split; [done|].
    change (lex_token quote_c ?s) with (lex_quoted_string s).
    apply (lex_quoted_string_quoted q).
  - simplify_eq. split; [done|].
    change (lex_token "[" ?s) with (lex_list_literal s). unfold lex_list_literal.
    rewrite lex_list_loop_quoted; [done|].
    pose proof (quoted_items_length l (String " " k)). lia.
  - destruct op; simpl in *; simplify_eq; split; done.
Qed.

Lemma lexeme_text_cons x k :
  lexeme_wf x = true → ∃ c s, lexeme_text x (String " " k) = String c s.
Proof.
  destruct x as [[|c w]| | |[]]; simpl; try done; intros _; unfold quoted; eauto.
Qed.

Lemma tokenize_print_lexemes l :
  forallb lexeme_wf l = true → tokenize (print_lexemes l) = mapM lexeme_token l.
Proof.
  induction l as [|x l IH]; [done|]. simpl. intros [Hx Hl]%andb_true_iff.
  destruct (lexeme_text_cons x (print_lexemes l) Hx) as (c & s & Hcs).
  destruct (lex_token_lexeme x _ c s Hx Hcs) as [Hws Hlex].
  rewrite Hcs, tokenize_unfold, Hws, Hlex.
  destruct (lexeme_token x) as [t|]; simpl; [|done].
  rewrite (tokenize_unfold " "). change (is_whitespace " ") with true. cbn match.
  rewrite (IH Hl). by destruct (mapM lexeme_token l).
Qed.
End LexerRoundTrip.
