(* ===== verification/ExprEval.v ===== *)
(** * ExprEval: evaluation of policy expressions

    aa-policy/src/expr.rs, the semantic half, and the [PolicyContext] contract of
    aa-policy/src/context.rs.  Evaluation appends a [ResolutionFailure] to the
    shared sink for every graph-context getter that reports an error; a
    computation of the source that may do so is a [W ResolutionFailure] here. *)

From stdpp Require Import base strings list.
From Stdlib Require Import ZArith Lia Bool Ascii String.
From S2P Require Import Prelude.
From S2P Require Import Text.
From S2P Require Import Float64.
From S2P Require Import CoreTypes.
From S2P Require Import External.
From S2P Require Import ExprSyntax.

Import Tok.
Open Scope Z_scope.
Open Scope aasm_scope.

(** ** The context contract *)

Record ContextError := { ce_detail : string }.

(** The [PolicyContext] trait: one field per getter. *)
Record PolicyContext := {
  agent_depth : result (option Z) ContextError;
  team_active_agents : result (option Z) ContextError;
  team_budget_remaining : result (option f64) ContextError;
  child_tools : result (list string) ContextError;
  agent_risk_tier : result (option RiskTier) ContextError;
  parent_risk_tier : result (option RiskTier) ContextError;
  child_risk_tier : result (option RiskTier) ContextError;
  agent_age_secs : result (option Z) ContextError;
  agent_parent_id : result (option string) ContextError;
  agent_team_id : result (option string) ContextError;
  agent_children_count : result (option Z) ContextError;
}.

(** ** Clause polarity *)

Module Clause.
Inductive ClauseKind := Deny | RequireApproval | Allow.

#[export] Instance ClauseKind_eq_dec : EqDecision ClauseKind.
Proof. solve_decision. Defined.

Definition fail_safe_fires (k : ClauseKind) : bool :=
  match k with Deny | RequireApproval => true | Allow => false end.

Definition fail_safe_action (k : ClauseKind) : string :=
  match k with
  | Deny => "deny"
  | RequireApproval => "require_approval"
  | Allow => "no_grant"
  end.
End Clause.

Abbreviation ClauseKind := Clause.ClauseKind.
Abbreviation fail_safe_fires := Clause.fail_safe_fires.

Record ResolutionFailure := {
  rf_variable : string;
  rf_clause : ClauseKind;
}.

Definition rf_fail_safe_action (f : ResolutionFailure) : string :=
  Clause.fail_safe_action (rf_clause f).

Abbreviation E A := (W ResolutionFailure A).

(** [FailSafe::record] and [FailSafe::resolve]; the [FailSafe] value of the source
    is the clause polarity here, its sink is the record list of [E]. *)

Definition record (fs : ClauseKind) (var : string) : E bool :=
  (fail_safe_fires fs, [ {| rf_variable := var; rf_clause := fs |} ]).

Definition resolve {T} (fs : ClauseKind) (policy_ctx : option PolicyContext) (var : string)
  (getter : PolicyContext → result (option T) ContextError) : E (result (option T) bool) :=
  match policy_ctx with
  | None => w_ret (Ok None)
  | Some c =>
      match getter c with
      | Ok opt => w_ret (Ok opt)
      | Err _ => let* fired := record fs var in w_ret (Err fired)
      end
  end.

(** ** Comparisons *)

Definition compare_ord {T} `{PartialOrd T} (lhs rhs : T) (op : Op.OpKind) : bool :=
  match op with
  | Op.Eq => po_eqb lhs rhs
  | Op.Ne => negb (po_eqb lhs rhs)
  | Op.Gt => po_ltb rhs lhs
  | Op.Gte => po_leb rhs lhs
  | Op.Lt => po_ltb lhs rhs
  | Op.Lte => po_leb lhs rhs
  | Op.Contains | Op.StartsWith | Op.In | Op.NotIn => false
  end.

Definition numeric_literal (lit : Lit.LiteralVal) : option f64 :=
  match lit with
  | Lit.Num n => Some n
  | Lit.Str s => parse_f64 s
  | Lit.Duration secs => Some (f64_of_Z secs)
  | Lit.Level _ | Lit.Tier _ | Lit.StrList _ => None
  end.

Definition compare_numeric (lhs : f64) (op : Op.OpKind) (literal : Lit.LiteralVal) : bool :=
  match numeric_literal literal with
  | Some rhs => compare_ord lhs rhs op
  | None => false
  end.

Definition compare_string (lhs : string) (op : Op.OpKind) (literal : Lit.LiteralVal) : bool :=
  match op, literal with
  | Op.In, Lit.StrList l => str_mem lhs l
  | Op.NotIn, Lit.StrList l => negb (str_mem lhs l)
  | Op.Eq, Lit.Str rhs => String.eqb lhs rhs
  | Op.Ne, Lit.Str rhs => negb (String.eqb lhs rhs)
  | Op.Contains, Lit.Str rhs => contains lhs rhs
  | Op.StartsWith, Lit.Str rhs => starts_with lhs rhs
  | _, _ => false
  end.

Definition eval_whole_body (body : string) (op : Op.OpKind) (literal : Lit.LiteralVal) : bool :=
  match literal with
  | Lit.Str lit =>
      match op with
      | Op.Contains => contains body lit
      | Op.StartsWith => starts_with body lit
      | _ => false
      end
  | _ => false
  end.

(** ** String fields *)

Definition field_value (field : Field.FieldRef) (action : GovernanceAction) : string :=
  match field, action with
  | Field.Tool, ToolCall name _ => name
  | Field.Path, FileAccess path _ => path
  | Field.Url, NetworkRequest url _ => url
  | Field.Method, NetworkRequest _ method => method
  | Field.Command, ProcessExec command => command
  | _, _ => EmptyString
  end.

Definition eval_string_membership (lhs : string) (op : Op.OpKind) (literal : Lit.LiteralVal) : bool :=
  match op, literal with
  | Op.Contains, Lit.Str rhs => contains lhs rhs
  | Op.StartsWith, Lit.Str rhs => starts_with lhs rhs
  | Op.In, Lit.StrList l => str_mem lhs l
  | Op.NotIn, Lit.StrList l => negb (str_mem lhs l)
  | _, _ => false
  end.

Definition eval_string_equality (lhs : string) (op : Op.OpKind) (literal : Lit.LiteralVal) : bool :=
  let eq := match literal with
            | Lit.Num rhs => match parse_f64 lhs with Some n => po_eqb n rhs | None => false end
            | Lit.Str rhs => String.eqb lhs rhs
            | Lit.Level _ | Lit.Tier _ | Lit.StrList _ | Lit.Duration _ => false
            end in
  match op with Op.Ne => negb eq | _ => eq end.

Definition eval_string_numeric (lhs : string) (op : Op.OpKind) (literal : Lit.LiteralVal) : bool :=
  match parse_f64 lhs, numeric_literal literal with
  | Some l, Some r => compare_ord l r op
  | _, _ => true
  end.

Definition eval_string_field (field : Field.FieldRef) (op : Op.OpKind) (literal : Lit.LiteralVal)
  (action : GovernanceAction) : bool :=
  let lhs := field_value field action in
  match op with
  | Op.Contains | Op.StartsWith | Op.In | Op.NotIn => eval_string_membership lhs op literal
  | Op.Eq | Op.Ne => eval_string_equality lhs op literal
  | Op.Gt | Op.Gte | Op.Lt | Op.Lte => eval_string_numeric lhs op literal
  end.

(** ** JSON fields *)

Section Json.
Context {JS : JsonLib}.

Definition compare_json_value (resolved : json_value) (op : Op.OpKind) (literal : Lit.LiteralVal)
  : bool :=
  match op, literal with
  | Op.Eq, Lit.Str lit =>
      match json_as_str resolved with Some s => String.eqb s lit | None => false end
  | Op.Ne, Lit.Str lit =>
      match json_as_str resolved with Some s => negb (String.eqb s lit) | None => false end
  | Op.Eq, Lit.Num lit =>
      match json_as_number resolved ≫= json_number_as_f64 with
      | Some v => po_ltb (f64_abs (f64_sub v lit)) f64_epsilon
      | None => false
      end
  | Op.Ne, Lit.Num lit =>
      match json_as_number resolved ≫= json_number_as_f64 with
      | Some v => po_leb f64_epsilon (f64_abs (f64_sub v lit))
      | None => false
      end
  | Op.Contains, Lit.Str lit =>
      match json_as_str resolved with Some v => contains v lit | None => false end
  | Op.StartsWith, Lit.Str lit =>
      match json_as_str resolved with Some v => starts_with v lit | None => false end
  | Op.In, Lit.StrList l =>
      match json_as_str resolved with Some v => str_mem v l | None => false end
  | Op.NotIn, Lit.StrList l =>
      match json_as_str resolved with Some v => negb (str_mem v l) | None => false end
  | (Op.Gt | Op.Gte | Op.Lt | Op.Lte), Lit.Num rhs =>
      match json_as_number resolved ≫= json_number_as_f64 with
      | Some lhs => compare_ord lhs rhs op
      | None => false
      end
  | _, _ => false
  end.

Definition eval_json_pointer (json_str pointer : string) (op : Op.OpKind)
  (literal : Lit.LiteralVal) : bool :=
  match json_from_str json_str with
  | None => false
  | Some value =>
      match json_pointer value pointer with
      | Some resolved => compare_json_value resolved op literal
      | None => false
      end
  end.

Definition eval_tool_result_field (field : Field.FieldRef) (op : Op.OpKind)
  (literal : Lit.LiteralVal) (action : GovernanceAction) : option bool :=
  match field with
  | Field.ToolResult pointer =>
      match action with
      | ToolResult _ result => Some (eval_json_pointer result pointer op literal)
      | _ => Some false
      end
  | Field.ToolResultWhole =>
      match action with
      | ToolResult _ result => Some (eval_whole_body result op literal)
      | _ => Some false
      end
  | _ => None
  end.

Definition eval_tool_arg_field (field : Field.FieldRef) (op : Op.OpKind)
  (literal : Lit.LiteralVal) (action : GovernanceAction) : option bool :=
  match field with
  | Field.ToolArg pointer =>
      match action with
      | ToolCall _ args => Some (eval_json_pointer args pointer op literal)
      | _ => Some false
      end
  | _ => None
  end.
End Json.

(** ** Context fields *)

Definition eval_numeric_ctx_field (field : Field.FieldRef) (op : Op.OpKind)
  (literal : Lit.LiteralVal) (policy_ctx : option PolicyContext) (fs : ClauseKind)
  : E (option bool) :=
  let finish (r : result (option f64) bool) : option bool :=
    match r with
    | Err fired => Some fired
    | Ok (Some lhs) => Some (compare_numeric lhs op literal)
    | Ok None => Some true
    end in
  let as_f64 (r : result (option Z) bool) : result (option f64) bool :=
    match r with Ok o => Ok (option_map f64_of_Z o) | Err b => Err b end in
  match field with
  | Field.AgentDepth =>
      let* r := resolve fs policy_ctx "agent.depth" agent_depth in w_ret (finish (as_f64 r))
  | Field.TeamActiveAgents =>
      let* r := resolve fs policy_ctx "team.active_agents" team_active_agents in
      w_ret (finish (as_f64 r))
  | Field.TeamParallelAgents =>
      let* r := resolve fs policy_ctx "team.parallel_agents" team_active_agents in
      w_ret (finish (as_f64 r))
  | Field.TeamBudgetRemaining =>
      let* r := resolve fs policy_ctx "team.budget_remaining" team_budget_remaining in
      w_ret (finish r)
  | Field.AgentAge =>
      let* r := resolve fs policy_ctx "agent.age" agent_age_secs in w_ret (finish (as_f64 r))
  | Field.AgentChildrenCount =>
      let* r := resolve fs policy_ctx "agent.children_count" agent_children_count in
      w_ret (finish (as_f64 r))
  | _ => w_ret None
  end.

Definition eval_child_tool_field (field : Field.FieldRef) (op : Op.OpKind)
  (literal : Lit.LiteralVal) (policy_ctx : option PolicyContext) (fs : ClauseKind)
  : E (option bool) :=
  match field with
  | Field.ChildTool =>
      match policy_ctx with
      | None => w_ret (Some false)
      | Some c =>
          match child_tools c with
          | Err _ => let* fired := record fs "child.tool" in w_ret (Some fired)
          | Ok tools =>
              w_ret (match literal with
                     | Lit.Str rhs =>
                         Some (match op with
                               | Op.Eq => existsb (λ t, String.eqb t rhs) tools
                               | Op.Ne => forallb (λ t, negb (String.eqb t rhs)) tools
                               | Op.Contains => existsb (λ t, contains t rhs) tools
                               | Op.StartsWith => existsb (λ t, starts_with t rhs) tools
                               | _ => false
                               end)
                     | _ => Some false
                     end)
          end
      end
  | _ => w_ret None
  end.

Definition eval_risk_tier_field (field : Field.FieldRef) (op : Op.OpKind)
  (literal : Lit.LiteralVal) (policy_ctx : option PolicyContext) (fs : ClauseKind)
  : E (option bool) :=
  let finish (r : result (option RiskTier) bool) : option bool :=
    match r with
    | Err fired => Some fired
    | Ok tier =>
        match tier, literal with
        | Some lhs, Lit.Tier rhs => Some (compare_ord lhs rhs op)
        | _, _ => Some false
        end
    end in
  match field with
  | Field.AgentRiskTier =>
      let* r := resolve fs policy_ctx "agent.risk_tier" agent_risk_tier in w_ret (finish r)
  | Field.ParentRiskTier =>
      let* r := resolve fs policy_ctx "parent.risk_tier" parent_risk_tier in w_ret (finish r)
  | Field.ChildRiskTier =>
      let* r := resolve fs policy_ctx "child.risk_tier" child_risk_tier in w_ret (finish r)
  | _ => w_ret None
  end.

Definition eval_agent_identity_field (field : Field.FieldRef) (op : Op.OpKind)
  (literal : Lit.LiteralVal) (policy_ctx : option PolicyContext) (fs : ClauseKind)
  : E (option bool) :=
  let finish (r : result (option string) bool) : option bool :=
    match r with
    | Err fired => Some fired
    | Ok None => Some false
    | Ok (Some id) =>
        Some (match op with
              | Op.In | Op.NotIn => false
              | _ => compare_string id op literal
              end)
    end in
  match field with
  | Field.AgentParentId =>
      let* r := resolve fs policy_ctx "agent.parent_agent_id" agent_parent_id in w_ret (finish r)
  | Field.AgentTeamId =>
      let* r := resolve fs policy_ctx "agent.team_id" agent_team_id in w_ret (finish r)
  | _ => w_ret None
  end.

Definition eval_topology_flag_field (field : Field.FieldRef) (op : Op.OpKind)
  (literal : Lit.LiteralVal) (policy_ctx : option PolicyContext) (fs : ClauseKind)
  : E (option bool) :=
  let finish (r : result (option Z) bool) : option bool :=
    match r with
    | Err fired => Some fired
    | Ok None => Some false
    | Ok (Some n) =>
        let lhs := if n =? 0 then f64_of_Z 1 else f64_of_Z 0 in
        match numeric_literal literal with
        | None => Some false
        | Some rhs =>
            Some (match op with
                  | Op.Eq => po_eqb lhs rhs
                  | Op.Ne => negb (po_eqb lhs rhs)
                  | _ => false
                  end)
        end
    end in
  match field with
  | Field.AgentIsRoot =>
      let* r := resolve fs policy_ctx "agent.is_root" agent_depth in w_ret (finish r)
  | Field.AgentIsLeaf =>
      let* r := resolve fs policy_ctx "agent.is_leaf" agent_children_count in w_ret (finish r)
  | _ => w_ret None
  end.

(** ** Message and level fields *)

Inductive MsgField := SourceTeam | TargetTeam | Channel.

Definition send_message_field (action : GovernanceAction) (which : MsgField) : option string :=
  match action with
  | SendMessage source_team_id target_team_id channel_id =>
      match which with
      | SourceTeam => source_team_id
      | TargetTeam => target_team_id
      | Channel => channel_id
      end
  | _ => None
  end.

Definition eval_send_message_field (field : Field.FieldRef) (op : Op.OpKind)
  (literal : Lit.LiteralVal) (action : GovernanceAction) : option bool :=
  let finish (value : option string) : option bool :=
    Some (match value with Some id => compare_string id op literal | None => false end) in
  match field with
  | Field.SourceTeamId => finish (send_message_field action SourceTeam)
  | Field.TargetTeamId => finish (send_message_field action TargetTeam)
  | Field.TargetChannelId => finish (send_message_field action Channel)
  | _ => None
  end.

Definition eval_governance_level_field (field : Field.FieldRef) (op : Op.OpKind)
  (literal : Lit.LiteralVal) (agent_level : option GovernanceLevel) : option bool :=
  match field with
  | Field.GovernanceLevel =>
      match literal, agent_level with
      | Lit.Level rhs, Some lhs => Some (compare_ord lhs rhs op)
      | _, _ => Some false
      end
  | _ => None
  end.

(** ** Clauses and expressions *)

Record ExprClause := {
  cl_field : Field.FieldRef;
  cl_op : Op.OpKind;
  cl_literal : Lit.LiteralVal;
}.

(** [parse_or_groups]: the loop over the flat token stream.  [acc] holds the
    finished groups and [cur] the group being filled, that is, [or_groups] is
    [acc ++ [cur]]. *)
Fixpoint parse_or_groups_loop (acc : list (list ExprClause)) (cur : list ExprClause)
  (tokens : list Token) : option (list (list ExprClause)) :=
  match tokens with
  | [] => Some (acc ++ [cur])
  | Tok.Field f :: Tok.Op op :: Literal lit :: rest =>
      let cur' := cur ++ [ {| cl_field := f; cl_op := op; cl_literal := lit |} ] in
      match rest with
      | [] => Some (acc ++ [cur'])
      | And :: rest' => parse_or_groups_loop acc cur' rest'
      | Or :: rest' => parse_or_groups_loop (acc ++ [cur']) [] rest'
      | _ => None
      end
  | _ => None
  end.

Definition parse_or_groups (tokens : list Token) : option (list (list ExprClause)) :=
  parse_or_groups_loop [] [] tokens.

Section Evaluator.
Context {JS : JsonLib} {HT : HumantimeLib}.

(** Fall through to the next field group when this one does not own the field. *)
Definition or_else (m : E (option bool)) (k : E bool) : E bool :=
  let* v := m in match v with Some b => w_ret b | None => k end.

Definition eval_clause_safe (c : ExprClause) (action : GovernanceAction)
  (agent_level : option GovernanceLevel) (policy_ctx : option PolicyContext) (fs : ClauseKind)
  : E bool :=
  let field := cl_field c in let op := cl_op c in let literal := cl_literal c in
  or_else (eval_numeric_ctx_field field op literal policy_ctx fs) (
  or_else (eval_child_tool_field field op literal policy_ctx fs) (
  or_else (w_ret (eval_tool_result_field field op literal action)) (
  or_else (w_ret (eval_tool_arg_field field op literal action)) (
  or_else (eval_risk_tier_field field op literal policy_ctx fs) (
  or_else (eval_agent_identity_field field op literal policy_ctx fs) (
  or_else (eval_topology_flag_field field op literal policy_ctx fs) (
  or_else (w_ret (eval_send_message_field field op literal action)) (
  or_else (w_ret (eval_governance_level_field field op literal agent_level)) (
  w_ret (eval_string_field field op literal action)))))))))).

Definition eval_tokens (tokens : list Token) (action : GovernanceAction)
  (agent_level : option GovernanceLevel) (policy_ctx : option PolicyContext) (fs : ClauseKind)
  : E bool :=
  match parse_or_groups tokens with
  | None => w_ret (fail_safe_fires fs)
  | Some or_groups =>
      if forallb (λ g, match g with [] => true | _ => false end) or_groups
      then w_ret (fail_safe_fires fs)
      else w_any (w_all (λ c, eval_clause_safe c action agent_level policy_ctx fs)) or_groups
  end.

Definition evaluate_clause (expr : string) (action : GovernanceAction)
  (agent_level : option GovernanceLevel) (policy_ctx : option PolicyContext) (clause : ClauseKind)
  : E bool :=
  match tokenize expr with
  | Some (t :: ts) => eval_tokens (t :: ts) action agent_level policy_ctx clause
  | _ => w_ret (fail_safe_fires clause)
  end.

Definition evaluate (expr : string) (action : GovernanceAction)
  (agent_level : option GovernanceLevel) (policy_ctx : option PolicyContext) : bool :=
  fst (evaluate_clause expr action agent_level policy_ctx Clause.RequireApproval).

Definition is_live_context_field (field : Field.FieldRef) : bool :=
  match field with
  | Field.AgentDepth | Field.TeamActiveAgents | Field.TeamParallelAgents
  | Field.TeamBudgetRemaining | Field.AgentAge | Field.AgentChildrenCount
  | Field.ChildTool | Field.ChildRiskTier | Field.AgentRiskTier | Field.ParentRiskTier
  | Field.AgentParentId | Field.AgentTeamId | Field.AgentIsRoot | Field.AgentIsLeaf => true
  | _ => false
  end.

Definition references_live_context (expr : string) : bool :=
  match tokenize expr with
  | None => false
  | Some tokens =>
      existsb (λ t, match t with Tok.Field f => is_live_context_field f | _ => false end) tokens
  end.
End Evaluator.
