(* ===== verification/ExprProps.v ===== *)
(** * ExprProps: correctness of the policy expression language

    The grammar [parse_or_groups] accepts, the meaning of an expression from its
    text to its verdict, the fail-safe directions of ADR 0015 section 4, and the
    independence of cacheable expressions from the live context. *)

From stdpp Require Import base strings list.
From Stdlib Require Import ZArith Lia Bool Ascii String.
From S2P Require Import Prelude.
From S2P Require Import Text.
From S2P Require Import Float64.
From S2P Require Import CoreTypes.
From S2P Require Import External.
From S2P Require Import ExprSyntax.
From S2P Require Import ExprEval.

Import Tok.
Open Scope Z_scope.

(** ** The grammar *)

Definition clause_tokens (c : ExprClause) : list Token :=
  [Tok.Field (cl_field c); Tok.Op (cl_op c); Literal (cl_literal c)].

Fixpoint group_tokens (g : list ExprClause) : list Token :=
  match g with
  | [] => []
  | [c] => clause_tokens c
  | c :: g' => clause_tokens c ++ And :: group_tokens g'
  end.

Fixpoint render (gs : list (list ExprClause)) : list Token :=
  match gs with
  | [] => []
  | [g] => group_tokens g
  | g :: gs' => group_tokens g ++ Or :: render gs'
  end.

Definition null {A} (l : list A) : bool := match l with [] => true | _ => false end.

(** Expressions of the grammar: at least one group, none empty. *)
Definition dnf_wf (gs : list (list ExprClause)) : bool :=
  match gs with [] => false | _ => forallb (negb ∘ null) gs end.

Lemma parse_loop_group acc cur g rest :
  g ≠ [] →
  parse_or_groups_loop acc cur (group_tokens g ++ rest) =
    match rest with
    | [] => Some (acc ++ [cur ++ g])
    | And :: rest' => parse_or_groups_loop acc (cur ++ g) rest'
    | Or :: rest' => parse_or_groups_loop (acc ++ [cur ++ g]) [] rest'
    | _ => None
    end.
Proof.
  revert cur. induction g as [|c g IH]; intros cur Hne; [done|].
  destruct g as [|c' g].
  - destruct c. by destruct rest as [|[] ?].
  - change (group_tokens (c :: c' :: g)) with (clause_tokens c ++ And :: group_tokens (c' :: g)).
    rewrite <- app_assoc. destruct c as [f op lit]. simpl (_ ++ _) at 1.
    cbn [parse_or_groups_loop].
    rewrite IH by done. by rewrite <- app_assoc.
Qed.

Lemma render_cons g g' gs : render (g :: g' :: gs) = group_tokens g ++ Or :: render (g' :: gs).
Proof. done. Qed.

Lemma group_tokens_cons c c' g :
  group_tokens (c :: c' :: g) = clause_tokens c ++ And :: group_tokens (c' :: g).
Proof. done. Qed.

(** What the loop does after a rendered prefix whose last group is [g]. *)
Lemma parse_loop_render acc gs g rest :
  forallb (negb ∘ null) (gs ++ [g]) = true →
  parse_or_groups_loop acc [] (render (gs ++ [g]) ++ rest) =
    match rest with
    | [] => Some (acc ++ gs ++ [g])
    | And :: rest' => parse_or_groups_loop (acc ++ gs) g rest'
    | Or :: rest' => parse_or_groups_loop (acc ++ gs ++ [g]) [] rest'
    | _ => None
    end.
Proof.
  revert acc. induction gs as [|g0 gs IH]; intros acc Hwf.
  - simpl in *. apply andb_true_iff in Hwf as [Hg _].
    rewrite parse_loop_group by (by destruct g). destruct rest as [|[] ?]; try done.
    by rewrite app_nil_r.
  - simpl in Hwf. apply andb_true_iff in Hwf as [Hg Hgs].
    assert (∃ h t, gs ++ [g] = h :: t) as (h & t & Hht) by (destruct gs; simpl; eauto).
    change ((g0 :: gs) ++ [g]) with (g0 :: (gs ++ [g])). rewrite Hht, render_cons, <- Hht.
    rewrite <- app_assoc, parse_loop_group by (by destruct g0).
    rewrite <- app_comm_cons, IH by done.
    destruct rest as [|[] ?]; rewrite <- ?app_assoc; done.
Qed.

Lemma dnf_wf_snoc gs :
  dnf_wf gs = true → ∃ gs' g, gs = gs' ++ [g] ∧ forallb (negb ∘ null) (gs' ++ [g]) = true.
Proof.
  intros Hwf. destruct gs as [|g0 gs] using rev_ind; [done|].
  exists gs, g0. split; [done|]. unfold dnf_wf in Hwf. by destruct (gs ++ [g0]).
Qed.

Lemma parse_render gs : dnf_wf gs = true → parse_or_groups (render gs) = Some gs.
Proof.
  intros (gs' & g & -> & Hwf)%dnf_wf_snoc. unfold parse_or_groups.
  pose proof (parse_loop_render [] gs' g [] Hwf) as H. by rewrite app_nil_r in H.
Qed.

Lemma parse_render_and gs : dnf_wf gs = true → parse_or_groups (render gs ++ [And]) = Some gs.
Proof.
  intros (gs' & g & -> & Hwf)%dnf_wf_snoc. unfold parse_or_groups.
  by rewrite (parse_loop_render [] gs' g [And] Hwf).
Qed.

Lemma parse_render_or gs :
  dnf_wf gs = true → parse_or_groups (render gs ++ [Or]) = Some (gs ++ [[]]).
Proof.
  intros (gs' & g & -> & Hwf)%dnf_wf_snoc. unfold parse_or_groups.
  by rewrite (parse_loop_render [] gs' g [Or] Hwf).
Qed.

(** The token streams the parser accepts, with the groups it reads them as. *)
Definition accepted (ts : list Token) (gs : list (list ExprClause)) : Prop :=
  (ts = [] ∧ gs = [[]]) ∨
  (dnf_wf gs = true ∧ (ts = render gs ∨ ts = render gs ++ [And])) ∨
  (∃ gs', dnf_wf gs' = true ∧ gs = gs' ++ [[]] ∧ ts = render gs' ++ [Or]).

Lemma accepted_and c h t ts :
  accepted ts (h :: t) → accepted (clause_tokens c ++ And :: ts) ((c :: h) :: t).
Proof.
  assert (∀ gs', dnf_wf (h :: gs') = true →
            dnf_wf ((c :: h) :: gs') = true ∧
            render ((c :: h) :: gs') = clause_tokens c ++ And :: render (h :: gs')) as Hr.
  { intros gs' Hwf. destruct h as [|c' h]; [done|]. split; [done|].
    destruct gs' as [|g' gs']; [done|].
    by rewrite !render_cons, group_tokens_cons, <- app_assoc. }
  intros [[-> Heq]|[[Hwf Hts]|(gs' & Hwf & Hgs & ->)]].
  - simplify_eq. right. left. split; [done|]. by right.
  - destruct (Hr t Hwf) as [Hwf' Hr']. right. left. split; [done|]. rewrite Hr', <- app_assoc.
    destruct Hts as [-> | ->]; [left|right]; done.
  - destruct gs' as [|g gs']; [done|]. injection Hgs as <- ->.
    destruct (Hr gs' Hwf) as [Hwf' Hr']. right. right. exists ((c :: h) :: gs').
    rewrite Hr', <- app_assoc. done.
Qed.

Lemma accepted_or c h t ts :
  accepted ts (h :: t) → accepted (clause_tokens c ++ Or :: ts) ([c] :: h :: t).
Proof.
  intros [[-> Heq]|[[Hwf Hts]|(gs' & Hwf & Hgs & ->)]].
  - simplify_eq. right. right. by exists [[c]].
  - right. left. split; [done|]. rewrite render_cons, <- app_assoc.
    destruct Hts as [-> | ->]; [left|right]; done.
  - destruct gs' as [|g gs']; [done|]. right. right. exists ([c] :: g :: gs').
    rewrite render_cons, <- app_assoc. split; [done|]. split; [|done].
    simpl in *. congruence.
Qed.

Lemma parse_loop_accepted n acc cur ts gs :
  (List.length ts ≤ n)%nat → parse_or_groups_loop acc cur ts = Some gs →
  ∃ h t, gs = acc ++ (cur ++ h) :: t ∧ accepted ts (h :: t).
Proof.
  revert acc cur ts. induction n as [|n IH]; intros acc cur ts Hn Hp.
  { destruct ts; [|simpl in Hn; lia]. simpl in Hp. simplify_eq.
    exists [], []. rewrite app_nil_r. split; [done|]. by left. }
  destruct ts as [|[f|op|lit| |] [|[f'|op'|lit'| |] [|[f''|op''|lit''| |] rest]]];
    simpl in Hp; simplify_eq.
  { exists [], []. rewrite app_nil_r. split; [done|]. by left. }
  set (c := {| cl_field := f; cl_op := op'; cl_literal := lit'' |}) in *.
  destruct rest as [|[]  rest]; simplify_eq; simpl in Hn.
  - exists [c], []. split; [done|]. right. left. split; [done|]. by left.
  - apply IH in Hp as (h & t & -> & Hacc); [|lia].
    exists (c :: h), t. rewrite <- app_assoc. split; [done|]. by apply (accepted_and c).
  - apply IH in Hp as (h & t & -> & Hacc); [|lia].
    exists [c], (h :: t). rewrite <- app_assoc. split; [done|]. by apply (accepted_or c).
Qed.

(** The parser reads exactly the token streams of the grammar
    group (OR group)*, group = clause (AND clause)*, clause = field op literal, and
    the two anomalies it lets through: the empty stream and one dangling connective.
    A dangling AND is dropped; a dangling OR adds an empty group. *)
Theorem parse_or_groups_grammar ts gs : parse_or_groups ts = Some gs ↔ accepted ts gs.
Proof.
  split.
  - intros H. apply (parse_loop_accepted _ _ _ _ _ (le_n _)) in H as (h & t & -> & Hacc). done.
  - intros [[-> ->]|[[Hwf [-> | ->]]|(gs' & Hwf & -> & ->)]].
    + done.
    + by apply parse_render.
    + by apply parse_render_and.
    + by apply parse_render_or.
Qed.

(** ** Meaning *)

Section Semantics.
Context {JS : JsonLib} {HT : HumantimeLib}.
Implicit Types (a : GovernanceAction) (lvl : option GovernanceLevel) (k : ClauseKind).
Implicit Types (ctx : option PolicyContext) (gs : list (list ExprClause)).

(** The verdict of one clause, and of a disjunction of conjunctions. *)
Definition verdict a lvl ctx k (c : ExprClause) : bool := fst (eval_clause_safe c a lvl ctx k).

Definition dnf_verdict a lvl ctx k gs : bool := existsb (forallb (verdict a lvl ctx k)) gs.

Lemma eval_groups_fst a lvl ctx k gs :
  fst (w_any (w_all (λ c, eval_clause_safe c a lvl ctx k)) gs) = dnf_verdict a lvl ctx k gs.
Proof.
  rewrite w_any_fst. unfold dnf_verdict. induction gs as [|g gs IH]; [done|]. simpl.
  by rewrite w_all_fst, IH.
Qed.

Lemma forallb_null_dnf gs : dnf_wf gs = true → forallb null gs = false.
Proof. destruct gs as [|[|c g] gs]; done. Qed.

Lemma forallb_null_snoc gs : dnf_wf gs = true → forallb null (gs ++ [[]]) = false.
Proof. destruct gs as [|[|c g] gs]; done. Qed.

Lemma eval_tokens_parsed ts gs a lvl ctx k :
  parse_or_groups ts = Some gs → forallb null gs = false →
  eval_tokens ts a lvl ctx k = w_any (w_all (λ c, eval_clause_safe c a lvl ctx k)) gs.
Proof. intros Hp Hn. unfold eval_tokens. rewrite Hp. unfold null in Hn. by rewrite Hn. Qed.

Lemma evaluate_clause_tokens expr ts a lvl ctx k :
  tokenize expr = Some ts → evaluate_clause expr a lvl ctx k = eval_tokens ts a lvl ctx k.
Proof. intros Hts. unfold evaluate_clause. rewrite Hts. by destruct ts. Qed.

(** C35: an expression written as clauses joined by AND within groups joined by
    OR evaluates, from its text, to the disjunction over the groups of the
    conjunction of their clause verdicts: AND binds tighter than OR, whatever the
    quoting of the literals. *)
Theorem evaluate_clause_dnf ls gs a lvl ctx k :
  forallb lexeme_wf ls = true → dnf_wf gs = true → mapM lexeme_token ls = Some (render gs) →
  fst (evaluate_clause (print_lexemes ls) a lvl ctx k) = dnf_verdict a lvl ctx k gs.
Proof.
  intros Hls Hgs Htok.
  rewrite (evaluate_clause_tokens _ (render gs)) by (by rewrite tokenize_print_lexemes).
  rewrite (eval_tokens_parsed _ gs) by eauto using parse_render, forallb_null_dnf.
  apply eval_groups_fst.
Qed.

(** An expression that does not tokenize, is empty, or does not parse
    takes the fail-safe direction of its clause and records nothing: a guard fires,
    a grant is withheld. *)
Theorem evaluate_clause_malformed expr a lvl ctx k :
  tokenize expr ≫= parse_or_groups = None ∨ tokenize expr = Some [] →
  evaluate_clause expr a lvl ctx k = (fail_safe_fires k, []).
Proof.
  unfold evaluate_clause, eval_tokens. intros [Hn|Hn].
  - destruct (tokenize expr) as [[|t ts]|]; [done| |done]. simpl in Hn. by rewrite Hn.
  - by rewrite Hn.
Qed.

(** A dangling OR makes the expression fire for every clause kind, action and
    context, a grant included. *)
Theorem dangling_or_fires ls gs a lvl ctx k :
  forallb lexeme_wf ls = true → dnf_wf gs = true →
  mapM lexeme_token ls = Some (render gs ++ [Or]) →
  fst (evaluate_clause (print_lexemes ls) a lvl ctx k) = true.
Proof.
  intros Hls Hgs Htok.
  rewrite (evaluate_clause_tokens _ (render gs ++ [Or])) by (by rewrite tokenize_print_lexemes).
  rewrite (eval_tokens_parsed _ (gs ++ [[]])) by eauto using parse_render_or, forallb_null_snoc.
  rewrite eval_groups_fst. unfold dnf_verdict. rewrite existsb_app. simpl. apply orb_true_r.
Qed.

(** ** Failures of the live context *)

Definition getter_refines {T} (r r' : result T ContextError) : Prop :=
  match r with Ok v => r' = Ok v | Err _ => True end.

(** [c'] answers every getter [c] answers, with the same value. *)
Record ctx_refines (c c' : PolicyContext) : Prop := {
  cr_depth : getter_refines (agent_depth c) (agent_depth c');
  cr_active : getter_refines (team_active_agents c) (team_active_agents c');
  cr_budget : getter_refines (team_budget_remaining c) (team_budget_remaining c');
  cr_tools : getter_refines (child_tools c) (child_tools c');
  cr_tier : getter_refines (agent_risk_tier c) (agent_risk_tier c');
  cr_parent_tier : getter_refines (parent_risk_tier c) (parent_risk_tier c');
  cr_child_tier : getter_refines (child_risk_tier c) (child_risk_tier c');
  cr_age : getter_refines (agent_age_secs c) (agent_age_secs c');
  cr_parent : getter_refines (agent_parent_id c) (agent_parent_id c');
  cr_team : getter_refines (agent_team_id c) (agent_team_id c');
  cr_children : getter_refines (agent_children_count c) (agent_children_count c');
}.

Lemma resolve_cases {T} k ctx v (g : PolicyContext → result (option T) ContextError) :
  (∃ o, resolve k ctx v g = (Ok o, [])) ∨
  (ctx ≠ None ∧ resolve k ctx v g =
     (Err (fail_safe_fires k), [ {| rf_variable := v; rf_clause := k |} ])).
Proof.
  destruct ctx as [c|]; simpl; [|by left; exists None].
  destruct (g c) as [o|e]; [left; by exists o|]. by right.
Qed.

Lemma resolve_refines {T} k c c' v (g : PolicyContext → result (option T) ContextError) :
  getter_refines (g c) (g c') →
  resolve k (Some c) v g = resolve k (Some c') v g ∨
  resolve k (Some c) v g = (Err (fail_safe_fires k), [ {| rf_variable := v; rf_clause := k |} ]).
Proof.
  unfold resolve. destruct (g c) as [o|e]; simpl; [|by right]. intros ->. by left.
Qed.

(** A computation either yields a value without a record, or is one failed
    lookup of a known variable. *)
Definition settled {T} k ctx (inj : bool → T) (m : E T) : Prop :=
  (∃ t, m = (t, [])) ∨
  (ctx ≠ None ∧ ∃ v, str_mem v KNOWN_VARIABLES = true ∧
     m = (inj (fail_safe_fires k), [ {| rf_variable := v; rf_clause := k |} ])).

Lemma settled_pure {T} k ctx (inj : bool → T) t : settled k ctx inj (w_ret t).
Proof. left. by exists t. Qed.

Lemma settled_resolve {T} k ctx v (g : PolicyContext → result (option T) ContextError) finish :
  str_mem v KNOWN_VARIABLES = true → (∀ b, finish (Err b) = Some b) →
  settled k ctx Some (let* r := resolve k ctx v g in w_ret (finish r)).
Proof.
  intros Hv Hf. destruct (resolve_cases k ctx v g) as [[o ->]|[Hc ->]]; simpl.
  - left. by eexists.
  - right. rewrite Hf. eauto.
Qed.

Lemma settled_or_else k ctx m n :
  settled k ctx Some m → settled k ctx id n → settled k ctx id (or_else m n).
Proof.
  intros [[o ->]|(Hc & v & Hv & ->)] Hn; unfold or_else; simpl.
  - destruct o; [left; by eexists|]. by destruct n.
  - right. eauto.
Qed.

Lemma settled_child_tool f op lit ctx k :
  settled k ctx Some (eval_child_tool_field f op lit ctx k).
Proof.
  destruct f; try apply settled_pure. simpl. destruct ctx as [c|]; [|apply settled_pure].
  destruct (child_tools c); [apply settled_pure|]. right. split; [done|]. by exists "child.tool".
Qed.

Ltac settle f := destruct f; try apply settled_pure; by apply settled_resolve.

Lemma settled_numeric f op lit ctx k : settled k ctx Some (eval_numeric_ctx_field f op lit ctx k).
Proof. settle f. Qed.

Lemma settled_tier f op lit ctx k : settled k ctx Some (eval_risk_tier_field f op lit ctx k).
Proof. settle f. Qed.

Lemma settled_identity f op lit ctx k :
  settled k ctx Some (eval_agent_identity_field f op lit ctx k).
Proof. settle f. Qed.

Lemma settled_topology f op lit ctx k :
  settled k ctx Some (eval_topology_flag_field f op lit ctx k).
Proof. settle f. Qed.

(** A clause either computes its verdict without a record, or fails. *)
Lemma eval_clause_settled c a lvl ctx k : settled k ctx id (eval_clause_safe c a lvl ctx k).
Proof.
  unfold eval_clause_safe.
  repeat apply settled_or_else;
    auto using @settled_pure, settled_child_tool, settled_numeric, settled_tier, settled_identity,
      settled_topology.
Qed.

(** ** Refinement of the context *)

(** [m] is [m'], or a failed lookup. *)
Definition degrades {T} k (inj : bool → T) (m m' : E T) : Prop :=
  m = m' ∨ ∃ v, m = (inj (fail_safe_fires k), [ {| rf_variable := v; rf_clause := k |} ]).

Lemma degrades_resolve {T} k c c' v (g : PolicyContext → result (option T) ContextError) finish :
  getter_refines (g c) (g c') → (∀ b, finish (Err b) = Some b) →
  degrades k Some (let* r := resolve k (Some c) v g in w_ret (finish r))
                  (let* r := resolve k (Some c') v g in w_ret (finish r)).
Proof.
  intros Hg Hf. destruct (resolve_refines k c c' v g Hg) as [-> | ->]; [by left|].
  right. exists v. simpl. by rewrite Hf.
Qed.

Lemma degrades_or_else k ctx m m' n n' :
  settled k ctx Some m → degrades k Some m m' → degrades k id n n' →
  degrades k id (or_else m n) (or_else m' n').
Proof.
  intros Hs [-> |[v ->]] Hn; [|right; by exists v].
  destruct Hs as [[o ->]|(_ & v & _ & ->)]; [|by left].
  destruct o; [by left|]. destruct Hn as [-> |[v ->]]; [by left|]. right. by exists v.
Qed.

Lemma degrades_child_tool f op lit c c' k :
  ctx_refines c c' →
  degrades k Some (eval_child_tool_field f op lit (Some c) k)
                  (eval_child_tool_field f op lit (Some c') k).
Proof.
  intros [? ? ? Ht]. destruct f; try by left. simpl. unfold getter_refines in Ht.
  destruct (child_tools c) as [l|]; [left; by rewrite Ht|]. right. by exists "child.tool".
Qed.

Ltac degrade f := intros []; destruct f; try (by left); by apply degrades_resolve.

Lemma degrades_numeric f op lit c c' k :
  ctx_refines c c' →
  degrades k Some (eval_numeric_ctx_field f op lit (Some c) k)
                  (eval_numeric_ctx_field f op lit (Some c') k).
Proof. degrade f. Qed.

Lemma degrades_tier f op lit c c' k :
  ctx_refines c c' →
  degrades k Some (eval_risk_tier_field f op lit (Some c) k)
                  (eval_risk_tier_field f op lit (Some c') k).
Proof. degrade f. Qed.

Lemma degrades_identity f op lit c c' k :
  ctx_refines c c' →
  degrades k Some (eval_agent_identity_field f op lit (Some c) k)
                  (eval_agent_identity_field f op lit (Some c') k).
Proof. degrade f. Qed.

Lemma degrades_topology f op lit c c' k :
  ctx_refines c c' →
  degrades k Some (eval_topology_flag_field f op lit (Some c) k)
                  (eval_topology_flag_field f op lit (Some c') k).
Proof. degrade f. Qed.

Lemma degrades_refl {T} k (inj : bool → T) m : degrades k inj m m.
Proof. by left. Qed.

Lemma eval_clause_degrades c a lvl x x' k :
  ctx_refines x x' →
  degrades k id (eval_clause_safe c a lvl (Some x) k) (eval_clause_safe c a lvl (Some x') k).
Proof.
  intros Hx. unfold eval_clause_safe.
  repeat (apply (degrades_or_else k (Some x)); [| |]);
    auto using @settled_pure, settled_child_tool, settled_numeric, settled_tier, settled_identity,
      settled_topology, @degrades_refl, degrades_child_tool, degrades_numeric, degrades_tier,
      degrades_identity, degrades_topology.
Qed.

(** The safe side of a clause kind: a guard may only fire more, a grant only less. *)
Definition safer k (b b' : bool) : Prop :=
  if fail_safe_fires k then b' = true → b = true else b = true → b' = true.

Lemma degrades_safer k m m' : degrades k id m m' → safer k (fst m) (fst m').
Proof. unfold safer. intros [-> |[v ->]]; simpl; by destruct (fail_safe_fires k). Qed.

Lemma dnf_verdict_safer a lvl ctx ctx' k gs :
  (∀ c, safer k (verdict a lvl ctx k c) (verdict a lvl ctx' k c)) →
  safer k (dnf_verdict a lvl ctx k gs) (dnf_verdict a lvl ctx' k gs).
Proof.
  unfold safer, dnf_verdict. intros H. destruct (fail_safe_fires k);
    apply existsb_mono; intros g _; apply forallb_mono; auto.
Qed.

Lemma eval_tokens_fst ts a lvl ctx k :
  fst (eval_tokens ts a lvl ctx k) =
    match parse_or_groups ts with
    | Some gs => if forallb null gs then fail_safe_fires k else dnf_verdict a lvl ctx k gs
    | None => fail_safe_fires k
    end.
Proof.
  unfold eval_tokens. destruct (parse_or_groups ts) as [gs|]; [|done].
  unfold null. destruct (forallb _ gs); [done|]. apply eval_groups_fst.
Qed.

Lemma evaluate_clause_safer expr a lvl c c' k :
  ctx_refines c c' →
  safer k (fst (evaluate_clause expr a lvl (Some c) k)) (fst (evaluate_clause expr a lvl (Some c') k)).
Proof.
  intros Hc.
  assert (∀ b, safer k b b) as Hrefl by (intros b; unfold safer; by destruct (fail_safe_fires k)).
  unfold evaluate_clause. destruct (tokenize expr) as [[|t ts]|]; [apply Hrefl| |apply Hrefl].
  rewrite !eval_tokens_fst. destruct (parse_or_groups (t :: ts)) as [gs|]; [|apply Hrefl].
  destruct (forallb null gs); [apply Hrefl|]. apply dnf_verdict_safer. intros cl.
  by apply degrades_safer, eval_clause_degrades.
Qed.

(** A live-context lookup that fails never loosens a decision: compared with a
    context that answers strictly more getters, and agrees where both answer, a
    deny or approval guard that would fire still fires and an allow grant that would
    be withheld stays withheld. *)
Theorem context_failure_is_safe expr a lvl c c' k :
  ctx_refines c c' →
  safer k (fst (evaluate_clause expr a lvl (Some c) k)) (fst (evaluate_clause expr a lvl (Some c') k)).
Proof. apply evaluate_clause_safer. Qed.

Lemma evaluate_clause_records expr a lvl ctx k (P : ResolutionFailure → Prop) :
  (∀ c, Forall P (snd (eval_clause_safe c a lvl ctx k))) →
  Forall P (snd (evaluate_clause expr a lvl ctx k)).
Proof.
  intros HP. unfold evaluate_clause, eval_tokens.
  destruct (tokenize expr) as [[|t ts]|]; [constructor| |constructor].
  destruct (parse_or_groups (t :: ts)) as [gs|]; [|constructor].
  destruct (forallb _ gs); [constructor|].
  apply w_any_records. intros g _. apply w_all_records. auto.
Qed.

(** Every record an evaluation appends names a variable of the language and
    carries the polarity of the clause it was made for; with no live context there
    is none. *)
Theorem evaluate_clause_audit expr a lvl ctx k :
  Forall (λ f, str_mem (rf_variable f) KNOWN_VARIABLES = true ∧ rf_clause f = k ∧ ctx ≠ None)
    (snd (evaluate_clause expr a lvl ctx k)).
Proof.
  apply evaluate_clause_records. intros c.
  destruct (eval_clause_settled c a lvl ctx k) as [[t ->]|(Hc & v & Hv & ->)].
  - constructor.
  - by repeat constructor.
Qed.

Lemma allow_verdict_clean c a lvl ctx :
  verdict a lvl ctx Clause.Allow c = true → eval_clause_safe c a lvl ctx Clause.Allow = (true, []).
Proof.
  unfold verdict. destruct (eval_clause_settled c a lvl ctx Clause.Allow) as [[t ->]|(_ & v & _ & ->)].
  - simpl. by intros ->.
  - done.
Qed.

(** A grant fires only on evidence: when an allow expression fires it was well
    formed and has a group each of whose clauses evaluated to true with every
    context lookup it made answered. *)
Theorem allow_grant_sound expr a lvl ctx :
  fst (evaluate_clause expr a lvl ctx Clause.Allow) = true →
  ∃ ts gs g, tokenize expr = Some ts ∧ parse_or_groups ts = Some gs ∧ g ∈ gs ∧
    ∀ c, c ∈ g → eval_clause_safe c a lvl ctx Clause.Allow = (true, []).
Proof.
  unfold evaluate_clause. destruct (tokenize expr) as [[|t ts]|]; [done| |done].
  rewrite eval_tokens_fst. destruct (parse_or_groups (t :: ts)) as [gs|] eqn:Hp; [|done].
  destruct (forallb null gs); [done|].
  intros (g & Hg & Hall)%existsb_exists.
  exists (t :: ts), gs, g. split; [done|]. split; [done|]. split; [by apply list_elem_of_In|].
  intros c Hc%list_elem_of_In. rewrite forallb_forall in Hall. by apply allow_verdict_clean, Hall.
Qed.

(** ** Cacheability *)

Lemma group_tokens_field g c : c ∈ g → Tok.Field (cl_field c) ∈ group_tokens g.
Proof.
  induction g as [|c0 g IH]; intros Hc; [by apply not_elem_of_nil in Hc|].
  destruct g as [|c1 g].
  - apply list_elem_of_singleton in Hc as ->. left.
  - rewrite group_tokens_cons. apply elem_of_cons in Hc as [-> |Hc]; [left|].
    apply elem_of_app. right. right. by apply IH.
Qed.

Lemma render_field gs g c : g ∈ gs → c ∈ g → Tok.Field (cl_field c) ∈ render gs.
Proof.
  induction gs as [|g0 gs IH]; intros Hg Hc; [by apply not_elem_of_nil in Hg|].
  destruct gs as [|g1 gs].
  - apply list_elem_of_singleton in Hg as ->. by apply group_tokens_field.
  - rewrite render_cons. apply elem_of_app. apply elem_of_cons in Hg as [-> |Hg].
    + left. by apply group_tokens_field.
    + right. right. by apply IH.
Qed.

Lemma accepted_field ts gs g c :
  accepted ts gs → g ∈ gs → c ∈ g → Tok.Field (cl_field c) ∈ ts.
Proof.
  intros [[-> ->]|[[_ [-> | ->]]|(gs' & _ & -> & ->)]] Hg Hc.
  - apply list_elem_of_singleton in Hg as ->. by apply not_elem_of_nil in Hc.
  - by eapply render_field.
  - apply elem_of_app. left. by eapply render_field.
  - apply elem_of_app. left. apply elem_of_app in Hg as [Hg|Hg]; [by eapply render_field|].
    apply list_elem_of_singleton in Hg as ->. by apply not_elem_of_nil in Hc.
Qed.

Lemma eval_clause_not_live c a lvl ctx ctx' k :
  is_live_context_field (cl_field c) = false →
  eval_clause_safe c a lvl ctx k = eval_clause_safe c a lvl ctx' k.
Proof. destruct c as [[] op lit]; done. Qed.

(** An expression that [references_live_context] does not flag evaluates the same,
    records included, whatever the live context: its decision may be cached. *)
Lemma evaluate_clause_not_live expr a lvl ctx ctx' k :
  references_live_context expr = false →
  evaluate_clause expr a lvl ctx k = evaluate_clause expr a lvl ctx' k.
Proof.
  unfold references_live_context, evaluate_clause.
  destruct (tokenize expr) as [[|t ts]|]; [done| |done]. intros Hlive.
  unfold eval_tokens. destruct (parse_or_groups (t :: ts)) as [gs|] eqn:Hp; [|done].
  destruct (forallb _ gs); [done|]. apply w_any_ext. intros g Hg. apply w_all_ext. intros c Hc.
  apply eval_clause_not_live. apply not_true_iff_false. intros Hc'.
  apply not_true_iff_false in Hlive. apply Hlive, existsb_exists.
  apply (parse_loop_accepted _ _ _ _ _ (le_n _)) in Hp as (h & t' & -> & Hacc).
  exists (Tok.Field (cl_field c)). split; [|done].
  apply list_elem_of_In. by eapply accepted_field.
Qed.
End Semantics.

(** The numeric context fields. *)
Definition is_numeric_ctx_field (f : Field.FieldRef) : bool :=
  match f with
  | Field.AgentDepth | Field.TeamActiveAgents | Field.TeamParallelAgents
  | Field.TeamBudgetRemaining | Field.AgentAge | Field.AgentChildrenCount => true
  | _ => false
  end.

(** With no context attached, a comparison on a numeric context field fires
    whatever its operator and literal, in a grant as well as in a guard, where the
    other context fields do not match. *)
Theorem absent_numeric_fires `{JsonLib} c a lvl k :
  is_live_context_field (cl_field c) = true →
  eval_clause_safe c a lvl None k = (is_numeric_ctx_field (cl_field c), []).
Proof. by destruct c as [[] op lit]. Qed.

(** ** Witnesses *)

Section Witnesses.
Let JS : JsonLib := text_json.
Let HT : HumantimeLib := no_durations.
#[local] Existing Instance JS.
#[local] Existing Instance HT.

Definition sample_clause f op s : ExprClause :=
  {| cl_field := f; cl_op := op; cl_literal := Lit.Str s |}.

(** [tool == "bash" AND args.path starts_with "/etc" OR command contains "rm"]. *)
Definition sample_lexemes : list lexeme :=
  [ LWord "tool"; LCompare Op.Eq; LQuoted "bash"; LWord "AND";
    LWord "args.path"; LWord "starts_with"; LQuoted "/etc"; LWord "OR";
    LWord "command"; LWord "contains"; LQuoted "rm" ].

Definition sample_dnf : list (list ExprClause) :=
  [ [ sample_clause Field.Tool Op.Eq "bash";
      sample_clause (Field.ToolArg "/path") Op.StartsWith "/etc" ];
    [ sample_clause Field.Command Op.Contains "rm" ] ].

Lemma evaluate_clause_dnf_witness :
  fst (evaluate_clause (print_lexemes sample_lexemes) (ToolCall "bash" "/etc/passwd") None None
         Clause.Deny) = true.
Proof.
  rewrite (evaluate_clause_dnf sample_lexemes sample_dnf); vm_compute; reflexivity.
Defined.

Lemma dangling_or_fires_witness :
  fst (evaluate_clause (print_lexemes (sample_lexemes ++ [LWord "OR"]))
         (FileAccess "x" Read) None None Clause.Allow) = true.
Proof.
  apply (dangling_or_fires (sample_lexemes ++ [LWord "OR"]) sample_dnf); vm_compute; reflexivity.
Defined.

Lemma evaluate_clause_malformed_witness :
  evaluate_clause "tool AND" (FileAccess "x" Read) None None Clause.Allow = (false, []).
Proof.
  apply (evaluate_clause_malformed "tool AND" (FileAccess "x" Read) None None Clause.Allow).
  left. vm_compute. reflexivity.
Defined.

(** A context whose every lookup fails, and one that answers them all. *)
Definition down_context : PolicyContext :=
  let e {T} : result T ContextError := Err {| ce_detail := "registry unavailable" |} in
  {| agent_depth := e; team_active_agents := e; team_budget_remaining := e; child_tools := e;
     agent_risk_tier := e; parent_risk_tier := e; child_risk_tier := e; agent_age_secs := e;
     agent_parent_id := e; agent_team_id := e; agent_children_count := e |}.

Definition up_context : PolicyContext :=
  {| agent_depth := Ok (Some 2); team_active_agents := Ok (Some 3);
     team_budget_remaining := Ok None; child_tools := Ok ["bash"%string];
     agent_risk_tier := Ok (Some High); parent_risk_tier := Ok None; child_risk_tier := Ok None;
     agent_age_secs := Ok (Some 60); agent_parent_id := Ok None; agent_team_id := Ok None;
     agent_children_count := Ok (Some 0) |}.

Lemma down_refines_up : ctx_refines down_context up_context.
Proof. by constructor. Qed.

Lemma context_failure_is_safe_witness :
  safer Clause.Deny
    (fst (evaluate_clause "agent.depth > 1" (FileAccess "x" Read) None (Some down_context) Clause.Deny))
    (fst (evaluate_clause "agent.depth > 1" (FileAccess "x" Read) None (Some up_context) Clause.Deny))
  ∧ fst (evaluate_clause "agent.depth > 1" (FileAccess "x" Read) None (Some up_context) Clause.Deny)
    = true.
Proof.
  split; [apply context_failure_is_safe, down_refines_up | vm_compute; reflexivity].
Defined.

Lemma allow_grant_sound_witness :
  ∃ ts gs g, tokenize "agent.risk_tier >= High" = Some ts ∧ parse_or_groups ts = Some gs ∧ g ∈ gs ∧
    ∀ c, c ∈ g →
      eval_clause_safe c (FileAccess "x" Read) None (Some up_context) Clause.Allow = (true, []).
Proof.
  apply allow_grant_sound. vm_compute. reflexivity.
Defined.

Lemma absent_numeric_fires_witness :
  eval_clause_safe (sample_clause Field.AgentDepth Op.Lt "1") (ProcessExec "rm") None None
    Clause.Allow = (true, []).
Proof.
  rewrite (absent_numeric_fires (sample_clause Field.AgentDepth Op.Lt "1")); reflexivity.
Defined.
End Witnesses.
