(* ===== verification/Capability.v ===== *)
(** * Capability: capability sets and their most-restrictive merge

    aa-core/src/capability.rs.  A [BTreeSet<Capability>] is a [gset Capability]:
    the code observes membership, emptiness and the set operations only. *)

From stdpp Require Import base gmap strings list countable sets.
From Stdlib Require Import ZArith Lia Bool String.
From S2P Require Import Prelude.
From S2P Require Import Text.
From S2P Require Import CoreTypes.

Inductive Capability :=
| FileRead | FileWrite | FileDelete | NetworkOutbound | NetworkInbound | TerminalExec
| McpTool (name : string)
| Model (name : string)
| AgentSpawn.

#[export] Instance Capability_eq_dec : EqDecision Capability.
Proof. solve_decision. Defined.

(** An injection into a countable type, for finite sets of capabilities. *)
Definition capability_code (c : Capability) : nat * string :=
  match c with
  | FileRead => (0, EmptyString) | FileWrite => (1, EmptyString) | FileDelete => (2, EmptyString)
  | NetworkOutbound => (3, EmptyString) | NetworkInbound => (4, EmptyString)
  | TerminalExec => (5, EmptyString) | McpTool n => (6, n) | Model n => (7, n)
  | AgentSpawn => (8, EmptyString)
  end%nat.

Definition capability_decode (p : nat * string) : Capability :=
  match p with
  | (0, _) => FileRead | (1, _) => FileWrite | (2, _) => FileDelete
  | (3, _) => NetworkOutbound | (4, _) => NetworkInbound | (5, _) => TerminalExec
  | (6, n) => McpTool n | (7, n) => Model n | (_, _) => AgentSpawn
  end%nat.

#[export] Instance Capability_countable : Countable Capability.
Proof. apply (inj_countable' capability_code capability_decode). by intros []. Defined.

Record CapabilitySet := {
  cs_allow : gset Capability;
  cs_deny : gset Capability;
  cs_allow_restricted : bool;
}.

(** [CapabilitySet::default()]. *)
Definition capability_set_default : CapabilitySet :=
  {| cs_allow := ∅; cs_deny := ∅; cs_allow_restricted := false |}.

Definition set_is_empty (s : gset Capability) : bool := bool_decide (s = ∅).
Definition set_contains (s : gset Capability) (c : Capability) : bool := bool_decide (c ∈ s).

Definition allow_is_restricted (s : CapabilitySet) : bool :=
  cs_allow_restricted s || negb (set_is_empty (cs_allow s)).

Definition is_enforceable (c : Capability) : bool :=
  match c with Model _ | NetworkInbound | AgentSpawn => false | _ => true end.

Definition capability_from_str (s : string) : result Capability string :=
  if String.eqb s "file_read" then Ok FileRead
  else if String.eqb s "file_write" then Ok FileWrite
  else if String.eqb s "file_delete" then Ok FileDelete
  else if String.eqb s "network_outbound" then Ok NetworkOutbound
  else if String.eqb s "network_inbound" then Ok NetworkInbound
  else if String.eqb s "terminal_exec" then Ok TerminalExec
  else if String.eqb s "agent_spawn" then Ok AgentSpawn
  else match strip_prefix s "mcp_tool:" with
       | Some name =>
           if is_empty name then Err "mcp_tool: name must not be empty"%string else Ok (McpTool name)
       | None =>
           match strip_prefix s "model:" with
           | Some name =>
               if is_empty name then Err "model: name must not be empty"%string else Ok (Model name)
           | None => Err (String.append "unknown capability: '" (String.append s "'"))
           end
       end.

Definition capability_display (c : Capability) : string :=
  match c with
  | FileRead => "file_read"
  | FileWrite => "file_write"
  | FileDelete => "file_delete"
  | NetworkOutbound => "network_outbound"
  | NetworkInbound => "network_inbound"
  | TerminalExec => "terminal_exec"
  | AgentSpawn => "agent_spawn"
  | McpTool name => String.append "mcp_tool:" name
  | Model name => String.append "model:" name
  end.

Definition merge_capabilities (parent child : CapabilitySet) : CapabilitySet :=
  let deny := cs_deny parent ∪ cs_deny child in
  let allow :=
    match set_is_empty (cs_allow parent), set_is_empty (cs_allow child) with
    | true, true => ∅
    | true, false => cs_allow child ∖ deny
    | false, true => cs_allow parent ∖ deny
    | false, false => filter (λ c, c ∉ deny) (cs_allow parent ∩ cs_allow child)
    end in
  {| cs_allow := allow; cs_deny := deny;
     cs_allow_restricted :=
       cs_allow_restricted parent || cs_allow_restricted child
       || negb (set_is_empty (cs_allow parent)) || negb (set_is_empty (cs_allow child)) |}.

Definition action_to_capability (action : GovernanceAction) : option Capability :=
  match action with
  | ToolCall name _ => Some (McpTool name)
  | ToolResult tool_name _ => Some (McpTool tool_name)
  | FileAccess _ Read => Some FileRead
  | FileAccess _ (Write | Append) => Some FileWrite
  | FileAccess _ Delete => Some FileDelete
  | NetworkRequest _ _ => Some NetworkOutbound
  | ProcessExec _ => Some TerminalExec
  | SendMessage _ _ _ => None
  end.

Definition capability_is_denied (deny : gset Capability) (cap : Capability) : bool :=
  if set_contains deny cap then true
  else match cap with FileDelete => set_contains deny FileWrite | _ => false end.

Record PermissionSource := {
  ps_scope : string;
  ps_allow : gset Capability;
  ps_deny : gset Capability;
}.

Record EffectivePermissions := {
  ep_merged : CapabilitySet;
  ep_sources : list PermissionSource;
}.

(** ** What a set permits

    The guard the engine applies to a merged set: not denied, and listed when an
    allow-list is in force. *)

Definition permits (s : CapabilitySet) (cap : Capability) : bool :=
  negb (capability_is_denied (cs_deny s) cap)
  && (negb (allow_is_restricted s) || set_contains (cs_allow s) cap).

(** A set whose allow-list was emptied by an earlier disjoint merge. *)
Definition collapsed (s : CapabilitySet) : bool :=
  cs_allow_restricted s && set_is_empty (cs_allow s).

(** ** Lemmas *)

Lemma set_contains_union s t c : set_contains (s ∪ t) c = set_contains s c || set_contains t c.
Proof. unfold set_contains. rewrite <- bool_decide_or. apply bool_decide_ext. set_solver. Qed.

Lemma set_contains_difference s t c :
  set_contains (s ∖ t) c = set_contains s c && negb (set_contains t c).
Proof.
  unfold set_contains. rewrite <- bool_decide_not, <- bool_decide_and.
  apply bool_decide_ext. set_solver.
Qed.

Lemma set_contains_filter s t d c :
  set_contains (filter (λ x, x ∉ d) (s ∩ t)) c =
    set_contains s c && set_contains t c && negb (set_contains d c).
Proof.
  unfold set_contains. rewrite <- bool_decide_not, <- !bool_decide_and.
  apply bool_decide_ext. rewrite elem_of_filter, elem_of_intersection. tauto.
Qed.

Lemma set_contains_empty s c : set_is_empty s = true → set_contains s c = false.
Proof. unfold set_is_empty, set_contains. rewrite bool_decide_eq_true. intros ->.
  apply bool_decide_eq_false. set_solver. Qed.

Lemma capability_is_denied_union d d' cap :
  capability_is_denied (d ∪ d') cap = capability_is_denied d cap || capability_is_denied d' cap.
Proof.
  unfold capability_is_denied. rewrite !set_contains_union.
  destruct (set_contains d cap), (set_contains d' cap); simpl; try done;
    destruct cap; rewrite ?set_contains_union, ?orb_true_r; done.
Qed.

Lemma not_denied_not_in d cap :
  capability_is_denied d cap = false → set_contains d cap = false.
Proof. unfold capability_is_denied. by destruct (set_contains d cap). Qed.

(** The allow-list side of a merge, for a capability that no side denies. *)
Lemma merge_allow_contains p c cap :
  capability_is_denied (cs_deny p ∪ cs_deny c) cap = false →
  set_contains (cs_allow (merge_capabilities p c)) cap =
    match set_is_empty (cs_allow p), set_is_empty (cs_allow c) with
    | true, _ => set_contains (cs_allow c) cap
    | false, true => set_contains (cs_allow p) cap
    | false, false => set_contains (cs_allow p) cap && set_contains (cs_allow c) cap
    end.
Proof.
  intros Hd%not_denied_not_in. unfold merge_capabilities. simpl.
  destruct (set_is_empty (cs_allow p)), (set_is_empty (cs_allow c)) eqn:Hc.
  - rewrite (set_contains_empty (cs_allow c)) by done. by apply set_contains_empty, bool_decide_eq_true.
  - by rewrite set_contains_difference, Hd, andb_true_r.
  - by rewrite set_contains_difference, Hd, andb_true_r.
  - by rewrite set_contains_filter, Hd, andb_true_r.
Qed.

Lemma merge_restricted p c :
  allow_is_restricted (merge_capabilities p c) = allow_is_restricted p || allow_is_restricted c.
Proof.
  unfold allow_is_restricted, merge_capabilities. simpl.
  set (ep := set_is_empty (cs_allow p)). set (ec := set_is_empty (cs_allow c)).
  destruct (cs_allow_restricted p), (cs_allow_restricted c); simpl; rewrite ?orb_true_r; try done.
  by destruct ep, ec.
Qed.

(** The merged set denies what either side denies, the superset rule for deletes
    included: no child allow-list can lift a parent's deny. *)
Theorem merge_denies p c cap :
  capability_is_denied (cs_deny (merge_capabilities p c)) cap =
    capability_is_denied (cs_deny p) cap || capability_is_denied (cs_deny c) cap.
Proof. apply capability_is_denied_union. Qed.

Lemma merge_permits_step p c cap :
  collapsed p = false → collapsed c = false →
  permits (merge_capabilities p c) cap = permits p cap && permits c cap.
Proof.
  unfold permits. intros Hp Hc. rewrite merge_restricted.
  change (cs_deny (merge_capabilities p c)) with (cs_deny p ∪ cs_deny c).
  destruct (capability_is_denied (cs_deny p ∪ cs_deny c) cap) eqn:Hd;
    rewrite capability_is_denied_union in Hd.
  - apply orb_true_iff in Hd as [Hd|Hd]; rewrite Hd; simpl; by rewrite ?andb_false_r.
  - pose proof Hd as Hd'. apply orb_false_iff in Hd' as [Hdp Hdc]. rewrite Hdp, Hdc. cbn [negb andb].
    rewrite merge_allow_contains by (by rewrite capability_is_denied_union).
    unfold collapsed in *. unfold allow_is_restricted.
    destruct (set_is_empty (cs_allow p)), (set_is_empty (cs_allow c)); simpl in *;
      rewrite ?andb_true_r in *; rewrite ?Hp, ?Hc, ?orb_true_r; simpl; rewrite ?andb_true_r; done.
Qed.

(** Merging two capability sets, neither of which is an allow-list already
    collapsed to empty, permits exactly what both permit. *)
Theorem merge_permits p c :
  collapsed p = false → collapsed c = false →
  ∀ cap, permits (merge_capabilities p c) cap = permits p cap && permits c cap.
Proof. intros Hp Hc cap. by apply merge_permits_step. Qed.

(** Once a disjoint merge has collapsed an allow-list, a child that lists
    capabilities is judged by its own list alone: what the collapsed ancestor
    forbade by omission becomes permitted again. *)
Theorem merge_collapsed_forgets p c cap :
  collapsed p = true → set_is_empty (cs_allow c) = false →
  permits p cap = false ∧
  permits (merge_capabilities p c) cap =
    negb (capability_is_denied (cs_deny p) cap) && permits c cap.
Proof.
  unfold collapsed. intros [Hr He]%andb_true_iff Hc. unfold permits. split.
  - unfold allow_is_restricted. rewrite Hr, (set_contains_empty _ _ He). simpl. by rewrite andb_false_r.
  - rewrite merge_restricted. change (cs_deny (merge_capabilities p c)) with (cs_deny p ∪ cs_deny c).
    rewrite capability_is_denied_union.
    destruct (capability_is_denied (cs_deny p ∪ cs_deny c) cap) eqn:Hd;
      pose proof Hd as Hd'; rewrite capability_is_denied_union in Hd'.
    + apply orb_true_iff in Hd' as [-> | ->]; simpl; by rewrite ?orb_true_r, ?andb_false_r.
    + rewrite merge_allow_contains by done. rewrite He.
      unfold allow_is_restricted. rewrite Hc, !orb_true_r. simpl. by rewrite negb_orb, andb_assoc.
Qed.

(** A capability is enforceable exactly when some governance action maps to
    it: the inert list and the action mapping are in lock-step. *)
Theorem enforceable_iff_action c :
  is_enforceable c = true ↔ ∃ a, action_to_capability a = Some c.
Proof.
  split.
  - intros H. destruct c; try done.
    + by exists (FileAccess "" Read). + by exists (FileAccess "" Write).
    + by exists (FileAccess "" Delete). + by exists (NetworkRequest "" "").
    + by exists (ProcessExec ""). + by exists (ToolCall name "").
  - intros [a Ha]. destruct a as [| |? []| | |]; simplify_eq/=; done.
Qed.

(** Capabilities that have a textual form: a named one has a name. *)
Definition capability_wf (c : Capability) : bool :=
  match c with McpTool n | Model n => negb (is_empty n) | _ => true end.

Lemma capability_from_display c :
  capability_wf c = true → capability_from_str (capability_display c) = Ok c.
Proof.
  destruct c; try done; simpl; destruct name; done.
Qed.

(** Parsing a capability accepts exactly the printed form of a capability with
    a non-empty name, and gives that capability back. *)
Theorem capability_parse_print s c :
  capability_from_str s = Ok c ↔ capability_display c = s ∧ capability_wf c = true.
Proof.
  split.
  - unfold capability_from_str. intros H.
    repeat (match goal with H : context [String.eqb s ?k] |- _ =>
      destruct (String.eqb_spec s k) as [->|?]; [simplify_eq; done|] end).
    destruct (strip_prefix s "mcp_tool:") as [name|] eqn:Hm.
    { apply strip_prefix_Some in Hm as ->. destruct name; simplify_eq/=. done. }
    destruct (strip_prefix s "model:") as [name|] eqn:Hm'; [|done].
    apply strip_prefix_Some in Hm' as ->. destruct name; simplify_eq/=. done.
  - intros [<- Hwf]. by apply capability_from_display.
Qed.

(** ** Witnesses *)

Definition allow_only (c : Capability) : CapabilitySet :=
  {| cs_allow := {[ c ]}; cs_deny := ∅; cs_allow_restricted := false |}.

Lemma merge_permits_witness :
  permits (merge_capabilities (allow_only FileRead) (allow_only FileWrite)) FileRead = false.
Proof.
  rewrite (merge_permits (allow_only FileRead) (allow_only FileWrite)); vm_compute; reflexivity.
Defined.

Lemma merge_collapsed_forgets_witness :
  let collapsed_set := merge_capabilities (allow_only FileRead) (allow_only FileWrite) in
  permits collapsed_set NetworkOutbound = false ∧
  permits (merge_capabilities collapsed_set (allow_only NetworkOutbound)) NetworkOutbound = true.
Proof.
  pose proof (merge_collapsed_forgets
    (merge_capabilities (allow_only FileRead) (allow_only FileWrite)) (allow_only NetworkOutbound)
    NetworkOutbound ltac:(vm_compute; reflexivity) ltac:(vm_compute; reflexivity)) as [H1 H2].
  split; [exact H1 | rewrite H2; vm_compute; reflexivity].
Defined.
