(* ===== verification/PathScope.v ===== *)
(** * PathScope: the filesystem path scopes of the policy document

    aa-security/src/policy/filesystem.rs: lexical normalisation of absolute
    paths, component-aware containment, pruning, and the most-restrictive merge.
    A [BTreeSet<String>] is a [gset string]. *)

From stdpp Require Import base gmap strings list sets.
From Stdlib Require Import ZArith Lia Bool Ascii String.
From S2P Require Import Prelude.
From S2P Require Import Text.

Definition nul_c : ascii := ascii_of_nat 0.

Inductive PathScopeError :=
| Empty
| NotAbsolute (p : string)
| ParentTraversal (p : string)
| InteriorNul (p : string).

#[export] Instance PathScopeError_eq_dec : EqDecision PathScopeError.
Proof. solve_decision. Defined.

(** The loop over [trimmed.split('/')]. *)
Fixpoint normalize_loop (trimmed : string) (components parts : list string)
  : result (list string) PathScopeError :=
  match parts with
  | [] => Ok components
  | part :: parts' =>
      if String.eqb part "" || String.eqb part "." then normalize_loop trimmed components parts'
      else if String.eqb part ".." then Err (ParentTraversal trimmed)
      else normalize_loop trimmed (components ++ [part]) parts'
  end.

Definition normalize (raw : string) : result string PathScopeError :=
  let trimmed := trim raw in
  if is_empty trimmed then Err Empty
  else if negb (lacks nul_c trimmed) then Err (InteriorNul trimmed)
  else if negb (starts_with trimmed "/") then Err (NotAbsolute trimmed)
  else match normalize_loop trimmed [] (split_on "/" trimmed) with
       | Err e => Err e
       | Ok [] => Ok "/"%string
       | Ok components => Ok (String "/" (join "/" components))
       end.

Definition path_contains (ancestor path : string) : bool :=
  if String.eqb ancestor "/" then true
  else if String.eqb path ancestor then true
  else (String.length ancestor <? String.length path)%nat && starts_with path ancestor
       && match String.get (String.length ancestor) path with
          | Some c => if ascii_dec c "/" then true else false
          | None => false
          end.

Definition set_any (f : string → bool) (s : gset string) : bool := existsb f (elements s).

Definition prune_redundant (allow : gset string) : gset string :=
  filter (λ entry,
    set_any (λ other, negb (String.eqb other entry) && path_contains other entry) allow = false)
    allow.

Record PathScope := { ps_paths : gset string }.

Fixpoint from_paths_loop (allow : gset string) (paths : list string)
  : result (gset string) PathScopeError :=
  match paths with
  | [] => Ok allow
  | path :: paths' =>
      match normalize path with
      | Err e => Err e
      | Ok p => from_paths_loop ({[ p ]} ∪ allow) paths'
      end
  end.

Definition from_paths (paths : list string) : result PathScope PathScopeError :=
  match from_paths_loop ∅ paths with
  | Err e => Err e
  | Ok allow => Ok {| ps_paths := prune_redundant allow |}
  end.

Definition path_permits (s : PathScope) (path : string) : bool :=
  match normalize path with
  | Err _ => false
  | Ok candidate => set_any (λ a, path_contains a candidate) (ps_paths s)
  end.

Definition permits_nothing (s : PathScope) : bool := bool_decide (ps_paths s = ∅).

Definition path_intersect (a b : PathScope) : PathScope :=
  let mine := filter (λ e, set_any (λ x, path_contains x e) (ps_paths b) = true) (ps_paths a) in
  let theirs := filter (λ e, set_any (λ x, path_contains x e) (ps_paths a) = true) (ps_paths b) in
  {| ps_paths := prune_redundant (mine ∪ theirs) |}.

Record FilesystemPolicy := {
  fp_read : option PathScope;
  fp_write : option PathScope;
}.

Definition fs_is_stated (f : FilesystemPolicy) : bool :=
  match fp_read f, fp_write f with None, None => false | _, _ => true end.

Definition intersect_verb (a b : option PathScope) : option PathScope :=
  match a, b with
  | None, None => None
  | Some scope, None | None, Some scope => Some scope
  | Some x, Some y => Some (path_intersect x y)
  end.

Definition fs_intersect (a b : FilesystemPolicy) : FilesystemPolicy :=
  {| fp_read := intersect_verb (fp_read a) (fp_read b);
     fp_write := intersect_verb (fp_write a) (fp_write b) |}.

(** ** Paths as component lists *)

Definition component_wf (c : string) : bool :=
  negb (String.eqb c "") && negb (String.eqb c ".") && negb (String.eqb c "..") && lacks "/" c.

Fixpoint slashed (cs : list string) : string :=
  match cs with [] => EmptyString | c :: cs' => String "/" (String.append c (slashed cs')) end.

Definition path_text (cs : list string) : string :=
  match cs with [] => "/"%string | _ => slashed cs end.

Definition is_path (p : string) : Prop :=
  ∃ cs, Forall (λ c, component_wf c = true) cs ∧ p = path_text cs.

Lemma slashed_join c cs : slashed (c :: cs) = String "/" (join "/" (c :: cs)).
Proof.
  revert c. induction cs as [|d cs IH]; intros c.
  - simpl. by rewrite append_nil_r.
  - change (slashed (c :: d :: cs)) with (String "/" (String.append c (slashed (d :: cs)))).
    by rewrite IH.
Qed.

Lemma normalize_loop_Ok t acc parts cs :
  Forall (λ p, lacks "/" p = true) parts → Forall (λ c, component_wf c = true) acc →
  normalize_loop t acc parts = Ok cs → Forall (λ c, component_wf c = true) cs.
Proof.
  revert acc. induction parts as [|p parts IH]; intros acc Hp Hacc H; simpl in H; [by simplify_eq|].
  inversion Hp; subst.
  destruct (String.eqb p "") eqn:E1; [by apply (IH acc)|].
  destruct (String.eqb p ".") eqn:E2; [by apply (IH acc)|].
  destruct (String.eqb p "..") eqn:E3; [done|].
  apply (IH (acc ++ [p])); [done| |done]. apply Forall_app. split; [done|].
  constructor; [|constructor]. unfold component_wf. rewrite E1, E2, E3. done.
Qed.

Lemma normalize_is_path raw p : normalize raw = Ok p → is_path p.
Proof.
  unfold normalize. destruct (is_empty _); [done|]. destruct (negb _); [done|].
  destruct (negb _); [done|].
  destruct (normalize_loop _ _ _) as [cs|] eqn:Hn; [|done].
  apply normalize_loop_Ok in Hn; [|apply split_on_lacks|constructor].
  intros H. exists cs. split; [done|]. destruct cs as [|c cs]; injection H as <-; [done|].
  change (path_text (c :: cs)) with (slashed (c :: cs)). by rewrite slashed_join.
Qed.

(** What may follow a component: nothing, or a separator. *)
Definition at_boundary (s : string) : bool :=
  match s with EmptyString => true | String c _ => if ascii_dec c "/" then true else false end.

Lemma component_split c d x y :
  lacks "/" c = true → lacks "/" d = true → at_boundary x = true → at_boundary y = true →
  String.append c x = String.append d y → c = d ∧ x = y.
Proof.
  unfold lacks. revert d. induction c as [|a c IH]; intros [|b d] Hc Hd Hx Hy H; simpl in *; subst.
  - done.
  - simpl in Hx. destruct (ascii_dec b "/"); [|congruence]. done.
  - simpl in Hy. destruct (ascii_dec a "/"); [|congruence]. done.
  - injection H as -> H. apply andb_true_iff in Hc as [_ Hc]. apply andb_true_iff in Hd as [_ Hd].
    apply (IH d) in H as [-> ->]; done.
Qed.

Lemma slashed_boundary cs : at_boundary (slashed cs) = true.
Proof. by destruct cs. Qed.

Lemma component_wf_lacks c : component_wf c = true → lacks "/" c = true.
Proof. unfold component_wf. by intros [_ H]%andb_true_iff. Qed.

Lemma slashed_app cs ds : slashed (cs ++ ds) = String.append (slashed cs) (slashed ds).
Proof. induction cs as [|c cs IH]; simpl; [done|]. by rewrite IH, append_assoc. Qed.

Lemma slashed_prefix cs ds r :
  Forall (λ c, component_wf c = true) cs → Forall (λ c, component_wf c = true) ds →
  at_boundary r = true → slashed ds = String.append (slashed cs) r → cs `prefix_of` ds.
Proof.
  revert ds. induction cs as [|c cs IH]; intros ds Hcs Hds Hr H; [apply prefix_nil|].
  destruct ds as [|d ds]; [done|]. inversion Hcs; inversion Hds; subst. simpl in H.
  injection H as H. rewrite append_assoc in H.
  apply component_split in H as [-> H]; auto using component_wf_lacks, slashed_boundary.
  - by apply prefix_cons, IH.
  - destruct cs; done.
Qed.

Lemma get_append s c t : String.get (String.length s) (String.append s (String c t)) = Some c.
Proof. induction s; simpl; done. Qed.

Lemma starts_with_append s p : starts_with s p = true ↔ ∃ t, s = String.append p t.
Proof.
  rewrite starts_with_strip. split.
  - destruct (strip_prefix s p) as [t|] eqn:H; [|done]. intros _. exists t. by apply strip_prefix_Some.
  - intros [t ->]. by rewrite strip_prefix_app.
Qed.

(** Textual containment is an ancestor followed by nothing or a separator. *)
Lemma path_contains_text a p :
  path_contains a p = true ↔
    a = "/"%string ∨ ∃ r, at_boundary r = true ∧ p = String.append a r.
Proof.
  unfold path_contains. destruct (String.eqb_spec a "/"); [by split; [left|]|].
  destruct (String.eqb_spec p a) as [->|Hne].
  { split; [|done]. intros _. right. exists EmptyString. by rewrite append_nil_r. }
  rewrite !andb_true_iff, Nat.ltb_lt, starts_with_append. split.
  - intros [[Hlen [t ->]] Hg]. right. exists t. split; [|done].
    destruct t as [|c t]; [by rewrite append_nil_r in Hne|]. by rewrite get_append in Hg.
  - intros [?|(r & Hr & ->)]; [done|]. destruct r as [|c r]; [by rewrite append_nil_r in Hne|].
    rewrite append_length, get_append. simpl. split; [|done]. split; [lia|by eexists].
Qed.

Lemma path_text_boundary c cs r :
  Forall (λ c, component_wf c = true) (c :: cs) → String.append (slashed (c :: cs)) r ≠ "/"%string.
Proof. intros H. inversion H; subst. destruct c; [done|]. simpl. done. Qed.

Lemma contains_components cs ds :
  Forall (λ c, component_wf c = true) cs → Forall (λ c, component_wf c = true) ds →
  path_contains (path_text cs) (path_text ds) = true ↔ cs `prefix_of` ds.
Proof.
  intros Hcs Hds. rewrite path_contains_text. destruct cs as [|c cs].
  { split; [intros _; apply prefix_nil|by left]. }
  assert (path_text (c :: cs) ≠ "/"%string) as Hroot.
  { pose proof (path_text_boundary c cs EmptyString Hcs) as H. by rewrite append_nil_r in H. }
  split.
  - intros [?|(r & Hr & H)]; [done|]. destruct ds as [|d ds].
    + by apply eq_sym, path_text_boundary in H.
    + by apply (slashed_prefix _ _ r).
  - intros [k Hk]. right. exists (slashed k). rewrite Hk.
    split; [apply slashed_boundary|]. apply slashed_app.
Qed.

Lemma contains_trans a b c :
  is_path a → is_path b → is_path c →
  path_contains a b = true → path_contains b c = true → path_contains a c = true.
Proof.
  intros (x & Hx & ->) (y & Hy & ->) (z & Hz & ->). rewrite !contains_components by done.
  by intros ? ?; etrans.
Qed.

Lemma contains_total a b c :
  is_path a → is_path b → is_path c →
  path_contains a c = true → path_contains b c = true →
  path_contains a b = true ∨ path_contains b a = true.
Proof.
  intros (x & Hx & ->) (y & Hy & ->) (z & Hz & ->). rewrite !contains_components by done.
  apply prefix_weak_total.
Qed.

Lemma contains_refl a : path_contains a a = true.
Proof. unfold path_contains. rewrite String.eqb_refl. by destruct (String.eqb a "/"). Qed.

Lemma contains_strict a b :
  is_path b → a ≠ b → path_contains a b = true → (String.length a < String.length b)%nat.
Proof.
  intros (y & Hy & ->) Hne [-> |(r & Hr & Hb)]%path_contains_text.
  - destruct y as [|c y]; [done|]. inversion Hy; subst. destruct c; [done|]. simpl. lia.
  - rewrite Hb in *. destruct r; [by rewrite append_nil_r in Hne|]. rewrite append_length. simpl. lia.
Qed.

(** ** Scopes *)

Definition scope_wf (s : gset string) : Prop := ∀ e, e ∈ s → is_path e.

(** The abstract meaning of a set of entries: the subtrees it covers. *)
Definition covers (s : gset string) (p : string) : Prop := ∃ a, a ∈ s ∧ path_contains a p = true.

Lemma set_any_true f s : set_any f s = true ↔ ∃ x, x ∈ s ∧ f x = true.
Proof.
  unfold set_any. rewrite existsb_exists. setoid_rewrite <- list_elem_of_In.
  by setoid_rewrite elem_of_elements.
Qed.

Lemma set_any_false f s : set_any f s = false ↔ ∀ x, x ∈ s → f x = false.
Proof.
  rewrite <- not_true_iff_false, set_any_true. split.
  - intros H x Hx. apply not_true_iff_false. eauto.
  - intros H (x & Hx & Hf). by rewrite (H x Hx) in Hf.
Qed.

Lemma elem_of_prune s e :
  e ∈ prune_redundant s ↔ e ∈ s ∧ ∀ o, o ∈ s → o ≠ e → path_contains o e = false.
Proof.
  unfold prune_redundant. rewrite elem_of_filter, set_any_false.
  split; intros [H1 H2]; split; try done; intros o Ho.
  - intros Hne. specialize (H1 o Ho). destruct (String.eqb_spec o e); [done|]. done.
  - destruct (String.eqb_spec o e); [done|]. by apply H2.
Qed.

Lemma prune_covers s p : scope_wf s → is_path p → covers (prune_redundant s) p ↔ covers s p.
Proof.
  intros Hwf Hp. split.
  { intros (a & [Ha _]%elem_of_prune & Hc). by exists a. }
  intros (a & Ha & Hc). remember (String.length a) as n eqn:Hn.
  revert a Ha Hc Hn. induction n as [n IH] using lt_wf_ind. intros a Ha Hc ->.
  destruct (set_any (λ o, negb (String.eqb o a) && path_contains o a) s) eqn:Hany.
  - apply set_any_true in Hany as (o & Ho & [Hne Hoa]%andb_true_iff).
    apply negb_true_iff, String.eqb_neq in Hne.
    apply (IH (String.length o)) with (a := o); auto using contains_strict.
    eapply (contains_trans o a p); auto.
  - exists a. split; [|done]. apply elem_of_prune. split; [done|]. intros o Ho Hne.
    rewrite set_any_false in Hany. specialize (Hany o Ho).
    destruct (String.eqb_spec o a); done.
Qed.

Lemma scope_wf_prune s : scope_wf s → scope_wf (prune_redundant s).
Proof. intros Hs e [He _]%elem_of_prune. by apply Hs. Qed.

Lemma path_permits_covers s p :
  path_permits s p = true ↔ ∃ c, normalize p = Ok c ∧ covers (ps_paths s) c.
Proof.
  unfold path_permits. destruct (normalize p) as [c|e].
  - rewrite set_any_true. split; [intros H; by exists c|]. by intros (? & [= <-] & H).
  - split; [done|]. by intros (? & ? & _).
Qed.

Lemma intersect_covers a b p :
  scope_wf (ps_paths a) → scope_wf (ps_paths b) → is_path p →
  covers (ps_paths (path_intersect a b)) p ↔ covers (ps_paths a) p ∧ covers (ps_paths b) p.
Proof.
  intros Ha Hb Hp. unfold path_intersect. cbn [ps_paths]. rewrite prune_covers; [|..|done].
  2: { intros e [[_ He]%elem_of_filter|[_ He]%elem_of_filter]%elem_of_union; auto. }
  unfold covers. split.
  - intros (e & [[(x & Hx & Hxe)%set_any_true He]%elem_of_filter|
                 [(x & Hx & Hxe)%set_any_true He]%elem_of_filter]%elem_of_union & Hep).
    + split; [by exists e|]. exists x. split; [done|]. apply (contains_trans x e p); auto.
    + split; [|by exists e]. exists x. split; [done|]. apply (contains_trans x e p); auto.
  - intros [(x & Hx & Hxp) (y & Hy & Hyp)].
    destruct (contains_total x y p) as [Hxy|Hyx]; auto.
    + exists y. split; [|done]. apply elem_of_union. right. apply elem_of_filter. split; [|done].
      apply set_any_true. eauto.
    + exists x. split; [|done]. apply elem_of_union. left. apply elem_of_filter. split; [|done].
      apply set_any_true. eauto.
Qed.

Lemma from_paths_loop_Ok allow paths s :
  from_paths_loop allow paths = Ok s →
  ∀ e, e ∈ s ↔ e ∈ allow ∨ ∃ raw, raw ∈ paths ∧ normalize raw = Ok e.
Proof.
  revert allow. induction paths as [|raw paths IH]; intros allow H e; simpl in H.
  - simplify_eq. split; [by left|]. intros [?|(? & Hn & _)]; [done|]. by apply not_elem_of_nil in Hn.
  - destruct (normalize raw) as [p|] eqn:Hn; [|done]. rewrite (IH _ H).
    rewrite elem_of_union, elem_of_singleton. setoid_rewrite elem_of_cons. split.
    + intros [[-> |?]|(r & Hr & Hp)]; eauto.
    + intros [?|(r & [-> |Hr] & Hp)]; [eauto| |eauto]. rewrite Hn in Hp. simplify_eq. eauto.
Qed.

(** A scope built from authored paths is well formed. *)
Lemma from_paths_wf paths s : from_paths paths = Ok s → scope_wf (ps_paths s).
Proof.
  unfold from_paths. destruct (from_paths_loop _ _) as [allow|] eqn:H; [|done]. intros [= <-].
  apply scope_wf_prune. intros e He. apply (from_paths_loop_Ok _ _ _ H) in He as [He|(r & _ & Hr)].
  - by apply elem_of_empty in He.
  - by apply normalize_is_path in Hr.
Qed.

Lemma intersect_wf a b :
  scope_wf (ps_paths a) → scope_wf (ps_paths b) → scope_wf (ps_paths (path_intersect a b)).
Proof.
  intros Ha Hb. apply scope_wf_prune.
  intros e [[_ He]%elem_of_filter|[_ He]%elem_of_filter]%elem_of_union; auto.
Qed.

(** ** Theorems *)

(** Containment of normalised paths is prefix on their components: no path
    contains a sibling whose name merely extends its own. *)
Theorem contains_is_component_prefix cs ds :
  Forall (λ c, component_wf c = true) cs → Forall (λ c, component_wf c = true) ds →
  path_contains (path_text cs) (path_text ds) = true ↔ cs `prefix_of` ds.
Proof. apply contains_components. Qed.

Lemma from_paths_permits_lemma paths s q :
  from_paths paths = Ok s →
  path_permits s q = true ↔
    ∃ raw p c, raw ∈ paths ∧ normalize raw = Ok p ∧ normalize q = Ok c ∧ path_contains p c = true.
Proof.
  intros Hs. rewrite path_permits_covers. unfold from_paths in Hs.
  destruct (from_paths_loop ∅ paths) as [allow|] eqn:H; [|done]. injection Hs as <-.
  pose proof (from_paths_loop_Ok _ _ _ H) as Hallow.
  assert (scope_wf allow) as Hwf.
  { intros e [He|(r & _ & Hr)]%Hallow; [by apply elem_of_empty in He|]. by apply normalize_is_path in Hr. }
  cbn [ps_paths]. split.
  - intros (c & Hc & Hcov). apply (prune_covers allow c Hwf (normalize_is_path _ _ Hc)) in Hcov.
    destruct Hcov as (a & [Ha|(raw & Hraw & Hn)]%Hallow & Hac); [by apply elem_of_empty in Ha|].
    exists raw, a, c. done.
  - intros (raw & p & c & Hraw & Hp & Hc & Hpc). exists c. split; [done|].
    apply prune_covers; eauto using normalize_is_path. exists p. split; [|done].
    apply Hallow. right. eauto.
Qed.

(** A scope built from authored paths permits exactly the paths that normalise
    into a subtree some authored path names: pruning redundant entries loses nothing,
    and a query that does not normalise is refused. *)
Theorem from_paths_permits paths s q :
  from_paths paths = Ok s →
  path_permits s q = true ↔
    ∃ raw p c, raw ∈ paths ∧ normalize raw = Ok p ∧ normalize q = Ok c ∧ path_contains p c = true.
Proof. apply from_paths_permits_lemma. Qed.

Lemma intersect_permits a b q :
  scope_wf (ps_paths a) → scope_wf (ps_paths b) →
  path_permits (path_intersect a b) q = path_permits a q && path_permits b q.
Proof.
  intros Ha Hb. apply eq_bool_prop_intro.
  rewrite !Is_true_true, andb_true_iff, !path_permits_covers. split.
  - intros (c & Hc & Hcov).
    apply (intersect_covers a b c Ha Hb (normalize_is_path _ _ Hc)) in Hcov as [? ?]. split; eauto.
  - intros [(c & Hc & Hac) (c' & Hc' & Hbc)]. rewrite Hc in Hc'. simplify_eq.
    exists c'. split; [done|]. apply intersect_covers; eauto using normalize_is_path.
Qed.

(** The merge of two authored path scopes permits exactly what both permit,
    disjoint scopes collapsing to deny-all. *)
Theorem path_intersect_permits xs ys a b :
  from_paths xs = Ok a → from_paths ys = Ok b →
  ∀ q, path_permits (path_intersect a b) q = path_permits a q && path_permits b q.
Proof. intros Ha%from_paths_wf Hb%from_paths_wf q. by apply intersect_permits. Qed.

(** What a verb of the filesystem node permits; an unstated verb restricts nothing. *)
Definition verb_permits (v : option PathScope) (q : string) : bool :=
  match v with None => true | Some s => path_permits s q end.

Definition verb_wf (v : option PathScope) : Prop :=
  match v with None => True | Some s => scope_wf (ps_paths s) end.

Lemma intersect_verb_permits a b q :
  verb_wf a → verb_wf b → verb_permits (intersect_verb a b) q = verb_permits a q && verb_permits b q.
Proof.
  destruct a, b; simpl; intros Ha Hb; rewrite ?andb_true_r; try done. by apply intersect_permits.
Qed.

(** The merge of two filesystem nodes restricts each verb to what both sides
    permit: a verb one side leaves unstated never widens the other's scope. *)
Lemma fs_intersect_permits a b q :
  verb_wf (fp_read a) → verb_wf (fp_write a) → verb_wf (fp_read b) → verb_wf (fp_write b) →
  verb_permits (fp_read (fs_intersect a b)) q =
    verb_permits (fp_read a) q && verb_permits (fp_read b) q ∧
  verb_permits (fp_write (fs_intersect a b)) q =
    verb_permits (fp_write a) q && verb_permits (fp_write b) q.
Proof. intros. split; by apply intersect_verb_permits. Qed.

(** ** Normalisation is stable *)

(** The last character is not white space, so that [str::trim] keeps it. *)
Definition no_trailing_blank (s : string) : bool := String.eqb (trim_end s) s.

Lemma split_on_slashed cs :
  Forall (λ c, component_wf c = true) cs → split_on "/" (slashed cs) = EmptyString :: cs.
Proof.
  induction cs as [|c cs IH]; intros H; [done|]. inversion H; subst. simpl.
  f_equal. destruct cs as [|d cs].
  - simpl. rewrite append_nil_r. by apply split_on_lone, component_wf_lacks.
  - change (slashed (d :: cs)) with (String "/" (String.append d (slashed cs))) in *.
    rewrite split_on_app by (by apply component_wf_lacks).
    specialize (IH ltac:(done)). simpl in IH. by injection IH as ->.
Qed.

Lemma normalize_loop_wf t acc cs :
  Forall (λ c, component_wf c = true) cs → normalize_loop t acc cs = Ok (acc ++ cs).
Proof.
  revert acc. induction cs as [|c cs IH]; intros acc H; simpl; [by rewrite app_nil_r|].
  inversion H as [|? ? Hc Hcs]; subst. unfold component_wf in Hc.
  apply andb_true_iff in Hc as [[[H1 H2]%andb_true_iff H3]%andb_true_iff _].
  apply negb_true_iff in H1, H2, H3. rewrite H1, H2, H3. simpl.
  rewrite IH by done. by rewrite <- app_assoc.
Qed.

(** The text of normal components is a fixed point of normalisation, and
    normalisation only produces such texts: scopes compare canonical forms. *)
Theorem normalize_stable cs :
  Forall (λ c, component_wf c = true) cs →
  lacks nul_c (path_text cs) = true → no_trailing_blank (path_text cs) = true →
  normalize (path_text cs) = Ok (path_text cs) ∧ (∀ raw p, normalize raw = Ok p → is_path p).
Proof.
  intros Hcs Hnul Hblank. split; [|exact normalize_is_path].
  assert (trim (path_text cs) = path_text cs) as Htrim.
  { unfold trim. apply String.eqb_eq in Hblank. destruct cs; exact Hblank. }
  unfold normalize. rewrite Htrim, Hnul. destruct cs as [|c cs]; [done|].
  change (path_text (c :: cs)) with (slashed (c :: cs)).
  rewrite split_on_slashed by done.
  assert (starts_with (slashed (c :: cs)) "/" = true) as -> by (by destruct (String.append c (slashed cs)) eqn:E; simpl; rewrite E).
  change (normalize_loop ?t [] (EmptyString :: ?l)) with (normalize_loop t [] l).
  rewrite normalize_loop_wf by done. rewrite slashed_join. done.
Qed.

(** ** Witnesses *)

Lemma contains_is_component_prefix_witness :
  path_contains (path_text ["workspace"%string]) (path_text ["workspace"; "src"]%string) = true.
Proof.
  apply contains_is_component_prefix; [repeat constructor..|].
  by exists ["src"%string].
Defined.

Definition scope_of (l : list string) : PathScope :=
  match from_paths l with Ok s => s | Err _ => {| ps_paths := ∅ |} end.

Lemma path_intersect_permits_witness :
  path_permits (path_intersect (scope_of ["/workspace"; "/tmp"]%string)
                               (scope_of ["/workspace/src"]%string)) "/workspace/src/a.rs"
  = true.
Proof.
  rewrite (path_intersect_permits ["/workspace"; "/tmp"]%string ["/workspace/src"]%string);
    vm_compute; reflexivity.
Defined.

Lemma from_paths_permits_witness :
  path_permits (scope_of ["/workspace"; "/workspace/src"]%string) "/workspace/./src/a.rs" = true.
Proof.
  apply (from_paths_permits ["/workspace"; "/workspace/src"]%string); [vm_compute; reflexivity|].
  exists "/workspace"%string, "/workspace"%string, "/workspace/src/a.rs"%string.
  split; [left|]. vm_compute. done.
Defined.

Lemma normalize_stable_witness :
  normalize (path_text ["workspace"; "src"]%string) = Ok "/workspace/src"%string.
Proof.
  apply (normalize_stable ["workspace"; "src"]%string); repeat constructor; vm_compute; reflexivity.
Defined.
