(* ===== verification/PolicyDocument.v ===== *)
(** * PolicyDocument: the validated policy document and its vocabulary

    aa-policy/src/document.rs, aa-policy/src/scope.rs and
    aa-security/src/policy/syscall.rs.  A validated document is data: one record
    per struct, one inductive per enum.  The scopes and the small vocabularies
    have textual forms, which round-trip. *)

From stdpp Require Import base gmap strings list countable sets.
From Stdlib Require Import ZArith Lia Bool Ascii String.
From S2P Require Import Prelude.
From S2P Require Import Text.
From S2P Require Import Float64.
From S2P Require Import CoreTypes.
From S2P Require Import External.
From S2P Require Import Capability.
From S2P Require Import PathScope.

Open Scope Z_scope.

(** ** Scopes *)

Module Scope.
Inductive PolicyScope :=
| Global
| Org (id : string)
| Team (id : string)
| Agent (id : AgentId)
| Tool (name : string).

#[global] Instance PolicyScope_eq_dec : EqDecision PolicyScope.
Proof. solve_decision. Defined.

Definition encode (s : PolicyScope) : unit + (string + (string + (AgentId + string))) :=
  match s with
  | Global => inl ()
  | Org id => inr (inl id)
  | Team id => inr (inr (inl id))
  | Agent id => inr (inr (inr (inl id)))
  | Tool n => inr (inr (inr (inr n)))
  end.

Definition decode (x : unit + (string + (string + (AgentId + string)))) : PolicyScope :=
  match x with
  | inl _ => Global
  | inr (inl id) => Org id
  | inr (inr (inl id)) => Team id
  | inr (inr (inr (inl id))) => Agent id
  | inr (inr (inr (inr n))) => Tool n
  end.

#[global] Instance PolicyScope_countable : Countable PolicyScope.
Proof. apply (inj_countable' encode decode). by intros []. Defined.
End Scope.

Abbreviation PolicyScope := Scope.PolicyScope.

(** [PolicyParseError::InvalidScope] carries the raw text and a reason. *)
Inductive ScopeReason :=
| ExpectedKindAndId
| EmptyIdentifier
| InvalidUuid (e : string)
| UnknownKind (kind : string).

Record InvalidScope := { is_raw : string; is_reason : ScopeReason }.

Section ScopeText.
Context {U : UuidLib}.

Definition scope_display (s : PolicyScope) : string :=
  match s with
  | Scope.Global => "global"
  | Scope.Org id => String.append "org:" id
  | Scope.Team id => String.append "team:" id
  | Scope.Agent id => String.append "agent:" (uuid_display id)
  | Scope.Tool name => String.append "tool:" name
  end.

Definition scope_from_str (s : string) : result PolicyScope InvalidScope :=
  let invalid reason := Err {| is_raw := s; is_reason := reason |} in
  if String.eqb s "global" then Ok Scope.Global
  else match split_once ":"%char s with
       | None => invalid ExpectedKindAndId
       | Some (kind, value) =>
           if is_empty value then invalid EmptyIdentifier
           else if String.eqb kind "org" then Ok (Scope.Org value)
           else if String.eqb kind "team" then Ok (Scope.Team value)
           else if String.eqb kind "agent" then
             match uuid_parse value with
             | Ok uuid => Ok (Scope.Agent uuid)
             | Err e => invalid (InvalidUuid e)
             end
           else if String.eqb kind "tool" then Ok (Scope.Tool value)
           else invalid (UnknownKind kind)
       end.
End ScopeText.

(** ** Sections of a document *)

Record NetworkPolicy := { np_allowlist : list string }.

Record ActiveHours := { ah_start : string; ah_end : string; ah_timezone : string }.

Record SchedulePolicy := { sp_active_hours : option ActiveHours }.

Module Exceed.
Inductive ActionOnExceed := Deny | Suspend.
End Exceed.
Abbreviation ActionOnExceed := Exceed.ActionOnExceed.

Record BudgetPolicy := {
  bp_daily_limit_usd : option f64;
  bp_monthly_limit_usd : option f64;
  bp_team_daily_limit_usd : option f64;
  bp_team_monthly_limit_usd : option f64;
  bp_org_daily_limit_usd : option f64;
  bp_org_monthly_limit_usd : option f64;
  bp_timezone : option string;
  bp_action_on_exceed : ActionOnExceed;
  bp_window : option Z;
}.

Inductive CredentialAction := Block | RedactOnly | AlertOnly | AlertAndRedact.

#[export] Instance CredentialAction_eq_dec : EqDecision CredentialAction.
Proof. solve_decision. Defined.

Definition credential_action_default : CredentialAction := RedactOnly.

Record DataPolicy := {
  dp_sensitive_patterns : list string;
  dp_credential_action : CredentialAction;
  dp_locale_packs : list string;
}.

Record ApprovalPolicy := {
  ap_timeout_seconds : option Z;
  ap_escalation_role : option string;
}.

(** ** Vocabularies *)

Module Egress.
Inductive EgressPosture := NotRequired | BrokerRequired.

Definition parse (name : string) : option EgressPosture :=
  if String.eqb name "not_required" then Some NotRequired
  else if String.eqb name "broker_required" then Some BrokerRequired
  else None.

Definition as_str (p : EgressPosture) : string :=
  match p with NotRequired => "not_required" | BrokerRequired => "broker_required" end.
End Egress.

Module Brokerage.
Inductive CredentialBrokeragePosture := NotRequired | BrokerRequired.

Definition parse (name : string) : option CredentialBrokeragePosture :=
  if String.eqb name "not_required" then Some NotRequired
  else if String.eqb name "broker_required" then Some BrokerRequired
  else None.

Definition as_str (p : CredentialBrokeragePosture) : string :=
  match p with NotRequired => "not_required" | BrokerRequired => "broker_required" end.
End Brokerage.

Module Lease.
Inductive LeaseDomain :=
| FilesystemRead | FilesystemWrite | NetworkEgress | NameResolution | Syscall
| ProcessCreation | Ipc | Credential | Resource | WorkspaceTransaction.

Definition parse (name : string) : option LeaseDomain :=
  if String.eqb name "filesystem_read" then Some FilesystemRead
  else if String.eqb name "filesystem_write" then Some FilesystemWrite
  else if String.eqb name "network_egress" then Some NetworkEgress
  else if String.eqb name "name_resolution" then Some NameResolution
  else if String.eqb name "syscall" then Some Syscall
  else if String.eqb name "process_creation" then Some ProcessCreation
  else if String.eqb name "ipc" then Some Ipc
  else if String.eqb name "credential" then Some Credential
  else if String.eqb name "resource" then Some Resource
  else if String.eqb name "workspace_transaction" then Some WorkspaceTransaction
  else None.

Definition as_str (d : LeaseDomain) : string :=
  match d with
  | FilesystemRead => "filesystem_read"
  | FilesystemWrite => "filesystem_write"
  | NetworkEgress => "network_egress"
  | NameResolution => "name_resolution"
  | Syscall => "syscall"
  | ProcessCreation => "process_creation"
  | Ipc => "ipc"
  | Credential => "credential"
  | Resource => "resource"
  | WorkspaceTransaction => "workspace_transaction"
  end.

Inductive ToolCapability := NoAuthority | Domain (d : LeaseDomain).

Definition tool_capability_parse (name : string) : option ToolCapability :=
  if String.eqb name "none" then Some NoAuthority
  else option_map Domain (parse name).

Definition tool_capability_as_str (c : ToolCapability) : string :=
  match c with NoAuthority => "none" | Domain d => as_str d end.

Inductive LeaseScope := Whole | Selectors (l : list string).

Record LeaseGrant := {
  lg_domain : LeaseDomain;
  lg_scope : LeaseScope;
  lg_max_count : option Z;
  lg_ttl_seconds : option Z;
  lg_delegable : bool;
  lg_issuer : option string;
  lg_policy_rule : option string;
  lg_approval_ref : option string;
  lg_reason : string;
}.
End Lease.

Module Sys.
Inductive Syscall :=
| Read | Write | Close | Openat | Fstat | Lseek | Mmap | Munmap | Brk | RtSigaction
| RtSigprocmask | Exit | ExitGroup | ClockGettime | Getrandom.

#[export] Instance Syscall_eq_dec : EqDecision Syscall.
Proof. solve_decision. Defined.

Definition number (s : Syscall) : Z :=
  match s with
  | Read => 0 | Write => 1 | Close => 3 | Fstat => 5 | Lseek => 8 | Mmap => 9 | Munmap => 11
  | Brk => 12 | RtSigaction => 13 | RtSigprocmask => 14 | Openat => 257 | ClockGettime => 228
  | ExitGroup => 231 | Exit => 60 | Getrandom => 318
  end.

Definition name (s : Syscall) : string :=
  match s with
  | Read => "read" | Write => "write" | Close => "close" | Openat => "openat"
  | Fstat => "fstat" | Lseek => "lseek" | Mmap => "mmap" | Munmap => "munmap" | Brk => "brk"
  | RtSigaction => "rt_sigaction" | RtSigprocmask => "rt_sigprocmask" | Exit => "exit"
  | ExitGroup => "exit_group" | ClockGettime => "clock_gettime" | Getrandom => "getrandom"
  end.

Definition from_str (s : string) : result Syscall string :=
  if String.eqb s "read" then Ok Read
  else if String.eqb s "write" then Ok Write
  else if String.eqb s "close" then Ok Close
  else if String.eqb s "openat" then Ok Openat
  else if String.eqb s "fstat" then Ok Fstat
  else if String.eqb s "lseek" then Ok Lseek
  else if String.eqb s "mmap" then Ok Mmap
  else if String.eqb s "munmap" then Ok Munmap
  else if String.eqb s "brk" then Ok Brk
  else if String.eqb s "rt_sigaction" then Ok RtSigaction
  else if String.eqb s "rt_sigprocmask" then Ok RtSigprocmask
  else if String.eqb s "exit" then Ok Exit
  else if String.eqb s "exit_group" then Ok ExitGroup
  else if String.eqb s "clock_gettime" then Ok ClockGettime
  else if String.eqb s "getrandom" then Ok Getrandom
  else Err (String.append "unknown syscall: '" (String.append s "'")).

(** The permitted syscalls; the code observes membership and emptiness only. *)
Record SyscallAllowlist := { sa_syscalls : list Syscall }.

Fixpoint from_names_loop (acc : list Syscall) (names : list string)
  : result (list Syscall) string :=
  match names with
  | [] => Ok acc
  | n :: names' =>
      match from_str n with
      | Err e => Err e
      | Ok s => from_names_loop (if bool_decide (s ∈ acc) then acc else s :: acc) names'
      end
  end.

Definition from_names (names : list string) : result SyscallAllowlist string :=
  match from_names_loop [] names with
  | Err e => Err e
  | Ok l => Ok {| sa_syscalls := l |}
  end.

Definition permits (a : SyscallAllowlist) (s : Syscall) : bool := bool_decide (s ∈ sa_syscalls a).

Definition permits_nothing (a : SyscallAllowlist) : bool :=
  match sa_syscalls a with [] => true | _ => false end.
End Sys.

Record ToolPolicy := {
  tp_allow : bool;
  tp_limit_per_hour : option Z;
  tp_requires_approval_if : option string;
  tp_capabilities : option (list Lease.ToolCapability);
}.

(** ** The document *)

Record PolicyDocument := {
  pd_name : option string;
  pd_policy_version : option string;
  pd_version : option string;
  pd_scope : PolicyScope;
  pd_network : option NetworkPolicy;
  pd_schedule : option SchedulePolicy;
  pd_budget : option BudgetPolicy;
  pd_data : option DataPolicy;
  pd_approval_timeout_secs : Z;
  pd_approval_policy : option ApprovalPolicy;
  pd_tools : gmap string ToolPolicy;
  pd_capabilities : option CapabilitySet;
  pd_filesystem : option FilesystemPolicy;
  pd_syscall_allowlist : option Sys.SyscallAllowlist;
  pd_leases : list Lease.LeaseGrant;
  pd_egress : Egress.EgressPosture;
  pd_credentials : Brokerage.CredentialBrokeragePosture;
}.

(** A document that states nothing, under a scope. *)
Definition empty_document (scope : PolicyScope) : PolicyDocument := {|
  pd_name := None; pd_policy_version := None; pd_version := None; pd_scope := scope;
  pd_network := None; pd_schedule := None; pd_budget := None; pd_data := None;
  pd_approval_timeout_secs := 300; pd_approval_policy := None; pd_tools := ∅;
  pd_capabilities := None; pd_filesystem := None; pd_syscall_allowlist := None;
  pd_leases := []; pd_egress := Egress.NotRequired; pd_credentials := Brokerage.NotRequired;
|}.

(** ** Round trips *)

(** Scopes that have a textual form: the identifier is not empty. *)
Definition policy_scope_wf (s : PolicyScope) : bool :=
  match s with
  | Scope.Org id | Scope.Team id | Scope.Tool id => negb (is_empty id)
  | Scope.Global | Scope.Agent _ => true
  end.

Section ScopeRoundTrip.
Context {U : UuidLib} {UL : UuidLaws U}.

Lemma scope_from_display s : policy_scope_wf s = true → scope_from_str (scope_display s) = Ok s.
Proof.
  destruct s as [|id|id|id|id]; simpl; try done; try (by destruct id).
  intros _. pose proof (uuid_display_ne id) as Hne. pose proof (uuid_parse_display id) as Hp.
  unfold scope_from_str. simpl. destruct (uuid_display id) as [|c t]; [done|].
  simpl. by rewrite Hp.
Qed.

Lemma scope_from_str_Ok s sc :
  scope_from_str s = Ok sc →
  policy_scope_wf sc = true ∧
  (scope_display sc = s ∨ ∃ id t, sc = Scope.Agent id ∧ s = String.append "agent:" t ∧ uuid_parse t = Ok id).
Proof.
  unfold scope_from_str. destruct (String.eqb_spec s "global") as [->|_]; [intros [= <-]; eauto|].
  destruct (split_once ":"%char s) as [[kind v]|] eqn:Hs; [|done]. apply split_once_Some in Hs as ->.
  destruct (is_empty v) eqn:Hv; [done|].
  destruct (String.eqb_spec kind "org") as [->|_]; [intros [= <-]; simpl; rewrite Hv; eauto|].
  destruct (String.eqb_spec kind "team") as [->|_]; [intros [= <-]; simpl; rewrite Hv; eauto|].
  destruct (String.eqb_spec kind "agent") as [->|_].
  { destruct (uuid_parse v) as [id|] eqn:Hu; [|done]. intros [= <-]. split; [done|]. right.
    by exists id, v. }
  destruct (String.eqb_spec kind "tool") as [->|_]; [intros [= <-]; simpl; rewrite Hv; eauto|].
  done.
Qed.

(** Every scope with a non-empty identifier is read back from its printed form,
    whatever characters the identifier has, and a text the parser accepts is the
    printed form of what it reads, up to the spelling of a UUID. *)
Theorem scope_round_trip :
  (∀ s, policy_scope_wf s = true → scope_from_str (scope_display s) = Ok s) ∧
  (∀ s sc, scope_from_str s = Ok sc → policy_scope_wf sc = true ∧
     (scope_display sc = s ∨
      ∃ id t, sc = Scope.Agent id ∧ s = String.append "agent:" t ∧ uuid_parse t = Ok id)).
Proof. split; [apply scope_from_display|apply scope_from_str_Ok]. Qed.
End ScopeRoundTrip.

Lemma scope_round_trip_witness :
  @scope_from_str binary_uuid (@scope_display binary_uuid (Scope.Agent 5%N)) = Ok (Scope.Agent 5%N).
Proof.
  apply (proj1 (@scope_round_trip binary_uuid binary_uuid_laws)). reflexivity.
Defined.

(** A chain of string comparisons that returned a word compared equal to it. *)
Ltac word_table :=
  intros H; repeat (case_match; [by simplify_eq; apply eq_sym, String.eqb_eq|]); done.

Lemma vocabulary_words w :
  (∀ p, Egress.parse w = Some p ↔ Egress.as_str p = w) ∧
  (∀ p, Brokerage.parse w = Some p ↔ Brokerage.as_str p = w) ∧
  (∀ d, Lease.parse w = Some d ↔ Lease.as_str d = w) ∧
  (∀ c, Lease.tool_capability_parse w = Some c ↔ Lease.tool_capability_as_str c = w) ∧
  (∀ s, Sys.from_str w = Ok s ↔ Sys.name s = w).
Proof.
  assert (∀ d, Lease.parse w = Some d ↔ Lease.as_str d = w) as Hd.
  { intros d. split; [|by intros <-; destruct d].
    unfold Lease.parse. word_table. }
  split; [|split; [|split; [done|split]]].
  - intros p. split; [|by intros <-; destruct p].
    unfold Egress.parse. word_table.
  - intros p. split; [|by intros <-; destruct p].
    unfold Brokerage.parse. word_table.
  - intros c. split.
    + unfold Lease.tool_capability_parse. case_match eqn:E.
      { intros [= <-]. by apply eq_sym, String.eqb_eq. }
      destruct (Lease.parse w) as [d|] eqn:Ed; [|done]. intros [= <-]. by apply Hd.
    + intros <-. destruct c as [|[]]; done.
  - intros s. split; [|by intros <-; destruct s].
    unfold Sys.from_str. word_table.
Qed.

Lemma from_names_loop_Ok acc names l :
  Sys.from_names_loop acc names = Ok l →
  ∀ s, s ∈ l ↔ s ∈ acc ∨ Sys.name s ∈ names.
Proof.
  revert acc. induction names as [|n names IH]; intros acc H s; simpl in H.
  - simplify_eq. rewrite elem_of_nil. tauto.
  - destruct (Sys.from_str n) as [x|] eqn:Hx; [|done]. rewrite (IH _ H), elem_of_cons.
    destruct (vocabulary_words n) as (_ & _ & _ & _ & Hv). apply Hv in Hx as <-.
    assert (Sys.name s = Sys.name x ↔ s = x) as Hinj by (split; [by destruct s, x|by intros ->]).
    rewrite Hinj. case_bool_decide; [split; [tauto|intros [?|[->|?]]; auto]|]. rewrite elem_of_cons. tauto.
Qed.

(** The syscalls an allowlist permits are those its authored names spell. *)
Lemma from_names_permits names a s :
  Sys.from_names names = Ok a → Sys.permits a s = true ↔ Sys.name s ∈ names.
Proof.
  unfold Sys.from_names, Sys.permits. destruct (Sys.from_names_loop [] names) as [l|] eqn:H; [|done].
  intros [= <-]. rewrite bool_decide_eq_true. cbn [Sys.sa_syscalls].
  rewrite (from_names_loop_Ok _ _ _ H), elem_of_nil. tauto.
Qed.

(** The words of the document's vocabularies are read back from their printed
    forms and nothing else is accepted: egress and credential postures, lease
    domains, tool capabilities and syscalls. *)
Theorem vocabulary_round_trip w :
  (∀ p, Egress.parse w = Some p ↔ Egress.as_str p = w) ∧
  (∀ p, Brokerage.parse w = Some p ↔ Brokerage.as_str p = w) ∧
  (∀ d, Lease.parse w = Some d ↔ Lease.as_str d = w) ∧
  (∀ c, Lease.tool_capability_parse w = Some c ↔ Lease.tool_capability_as_str c = w) ∧
  (∀ s, Sys.from_str w = Ok s ↔ Sys.name s = w).
Proof. apply vocabulary_words. Qed.
