(* ===== verification/ScopeIndex.v ===== *)
(** * ScopeIndex: loaded policies, indexed by scope

    aa-gateway/src/engine/scope_index.rs.  The index keeps two collections in
    step; the invariant below is the one its documentation states, and every
    operation preserves it. *)

From stdpp Require Import base gmap strings list sorting fin_maps.
From Stdlib Require Import ZArith Lia Bool.
From S2P Require Import Prelude.
From S2P Require Import PolicyDocument.

Open Scope Z_scope.

Definition PolicyId : Type := Z.

#[export] Instance PolicyId_eq_dec : EqDecision PolicyId := Z.eq_dec.
#[export] Instance PolicyId_countable : Countable PolicyId := Z_countable.

Record ScopeIndex := {
  si_policies : gmap PolicyId PolicyDocument;
  si_by_scope : gmap PolicyScope (list PolicyId);
  si_next_id : Z;
}.

Definition new : ScopeIndex := {| si_policies := ∅; si_by_scope := ∅; si_next_id := 0 |}.

(** [next_id += 1] on a [u64]. *)
Definition insert (ix : ScopeIndex) (doc : PolicyDocument) : ScopeIndex * PolicyId :=
  let id := si_next_id ix in
  let bucket := default [] (si_by_scope ix !! pd_scope doc) in
  ({| si_policies := <[id := doc]> (si_policies ix);
      si_by_scope := <[pd_scope doc := bucket ++ [id]]> (si_by_scope ix);
      si_next_id := wrap64 (id + 1) |}, id).

Definition policy (ix : ScopeIndex) (id : PolicyId) : option PolicyDocument :=
  si_policies ix !! id.

Definition remove (ix : ScopeIndex) (id : PolicyId) : ScopeIndex * option PolicyDocument :=
  match si_policies ix !! id with
  | None => (ix, None)
  | Some doc =>
      let by_scope :=
        match si_by_scope ix !! pd_scope doc with
        | None => si_by_scope ix
        | Some bucket =>
            let bucket' := filter (λ existing, existing ≠ id) bucket in
            match bucket' with
            | [] => delete (pd_scope doc) (si_by_scope ix)
            | _ => <[pd_scope doc := bucket']> (si_by_scope ix)
            end
        end in
      ({| si_policies := delete id (si_policies ix); si_by_scope := by_scope;
          si_next_id := si_next_id ix |}, Some doc)
  end.

Definition len (ix : ScopeIndex) : nat := size (si_policies ix).

Definition is_empty (ix : ScopeIndex) : bool := bool_decide (si_policies ix = ∅).

Definition policies_for_scope (ix : ScopeIndex) (scope : PolicyScope) : list PolicyId :=
  default [] (si_by_scope ix !! scope).

(** ** The invariant *)

(** A bucket lists, in insertion order, exactly the ids of the live documents
    declared under its scope, and no empty bucket is kept. *)
Record index_inv (ix : ScopeIndex) : Prop := {
  inv_members scope id :
    id ∈ policies_for_scope ix scope ↔ ∃ doc, policy ix id = Some doc ∧ pd_scope doc = scope;
  inv_no_empty scope : si_by_scope ix !! scope ≠ Some [];
  inv_order scope : StronglySorted Z.lt (policies_for_scope ix scope);
  inv_next id : is_Some (policy ix id) → 0 ≤ id < si_next_id ix;
  inv_next_pos : 0 ≤ si_next_id ix;
}.

Lemma policy_new id : policy new id = None.
Proof. apply lookup_empty. Qed.

Lemma new_inv : index_inv new.
Proof.
  split.
  - intros scope id. rewrite policy_new. unfold policies_for_scope. simpl. rewrite lookup_empty, elem_of_nil.
    split; [done|]. by intros (? & ? & _).
  - intros scope. simpl. by rewrite lookup_empty.
  - intros scope. unfold policies_for_scope. simpl. rewrite lookup_empty. constructor.
  - intros id. rewrite policy_new. by intros [].
  - done.
Qed.

Lemma bucket_insert ix doc scope :
  policies_for_scope (fst (insert ix doc)) scope =
    if decide (pd_scope doc = scope) then policies_for_scope ix scope ++ [si_next_id ix]
    else policies_for_scope ix scope.
Proof.
  unfold policies_for_scope, insert. simpl. case_decide; subst.
  - by rewrite lookup_insert_eq.
  - by rewrite lookup_insert_ne.
Qed.

Lemma policy_insert ix doc id :
  policy (fst (insert ix doc)) id = if decide (id = si_next_id ix) then Some doc else policy ix id.
Proof.
  unfold policy, insert. simpl. case_decide; subst; [by rewrite lookup_insert_eq|].
  by rewrite lookup_insert_ne.
Qed.

Lemma sorted_snoc (l : list Z) (n : Z) :
  StronglySorted Z.lt l → (∀ x, x ∈ l → x < n) → StronglySorted Z.lt (l ++ [n]).
Proof.
  induction 1 as [|x l Hs IH Hx]; intros Hn; simpl; [by repeat constructor|].
  constructor.
  - apply IH. intros y Hy. apply Hn. by right.
  - apply Forall_app. split; [done|]. constructor; [|constructor]. apply Hn. left.
Qed.

Lemma sorted_filter (P : Z → Prop) `{!∀ x, Decision (P x)} l :
  StronglySorted Z.lt l → StronglySorted Z.lt (filter P l).
Proof.
  induction 1 as [|x l Hs IH Hx]; [constructor|]. rewrite filter_cons. case_decide; [|done].
  constructor; [done|]. rewrite Forall_forall in *. intros y [_ Hy]%list_elem_of_filter. by apply Hx.
Qed.

Lemma member_lt ix scope id : index_inv ix → id ∈ policies_for_scope ix scope → id < si_next_id ix.
Proof. intros Hi (doc & Hd & _)%(inv_members _ Hi). by destruct (inv_next _ Hi id ltac:(eauto)). Qed.

Lemma insert_inv ix doc : index_inv ix → si_next_id ix < u64_max → index_inv (fst (insert ix doc)).
Proof.
  intros Hi Hmax. pose proof (inv_next_pos _ Hi) as Hpos.
  assert (policy ix (si_next_id ix) = None) as Hfresh.
  { destruct (policy ix (si_next_id ix)) eqn:E; [|done].
    destruct (inv_next _ Hi (si_next_id ix) ltac:(eauto)). lia. }
  assert (wrap64 (si_next_id ix + 1) = si_next_id ix + 1) as Hw.
  { apply wrap64_id. unfold in_u64. lia. }
  split.
  - intros scope id. rewrite bucket_insert, policy_insert. case_decide; subst.
    + rewrite elem_of_app, list_elem_of_singleton, (inv_members _ Hi). case_decide; subst.
      * split; [intros _; eauto|by right].
      * split; [by intros [?|?]|by left].
    + rewrite (inv_members _ Hi). case_decide; subst; [|done].
      rewrite Hfresh. split; [by intros (? & ? & _)|]. by intros (d & [= <-] & ?).
  - intros scope. unfold insert. simpl. destruct (decide (pd_scope doc = scope)) as [<-|].
    + rewrite lookup_insert_eq. by destruct (default [] _).
    + rewrite lookup_insert_ne by done. apply (inv_no_empty _ Hi).
  - intros scope. rewrite bucket_insert. case_decide; [|apply (inv_order _ Hi)].
    apply sorted_snoc; [apply (inv_order _ Hi)|]. intros x Hx. by eapply member_lt.
  - intros id. rewrite policy_insert. simpl. rewrite Hw. case_decide; subst; [lia|].
    intros Hsome%(inv_next _ Hi). lia.
  - simpl. lia.
Qed.

Lemma policy_remove ix id id' :
  policy (fst (remove ix id)) id' = if decide (id' = id) then None else policy ix id'.
Proof.
  unfold remove, policy. destruct (si_policies ix !! id) as [doc|] eqn:E; simpl; case_decide; subst; try done.
  - apply lookup_delete_eq.
  - by apply lookup_delete_ne.
Qed.

Lemma bucket_remove ix id scope :
  index_inv ix →
  policies_for_scope (fst (remove ix id)) scope = filter (λ x, x ≠ id) (policies_for_scope ix scope).
Proof.
  intros Hi.
  assert (∀ l : list PolicyId, id ∉ l → filter (λ x, x ≠ id) l = l) as Hid.
  { intros l Hl. apply list_filter_all. intros x Hx ->. done. }
  unfold remove. destruct (si_policies ix !! id) as [doc|] eqn:E; simpl.
  - destruct (decide (pd_scope doc = scope)) as [<-|Hne].
    + unfold policies_for_scope. simpl. destruct (si_by_scope ix !! pd_scope doc) as [b|] eqn:Eb; simpl.
      * destruct (filter _ b) eqn:Ef; [by rewrite lookup_delete_eq|by rewrite lookup_insert_eq].
      * by rewrite Eb.
    + rewrite Hid.
      * unfold policies_for_scope. simpl. destruct (si_by_scope ix !! pd_scope doc) as [b|]; [|done].
        destruct (filter _ b); [by rewrite lookup_delete_ne|by rewrite lookup_insert_ne].
      * intros (doc' & Hd & Hs)%(inv_members _ Hi). unfold policy in Hd. congruence.
  - rewrite Hid; [done|]. intros (doc' & Hd & _)%(inv_members _ Hi). unfold policy in Hd. congruence.
Qed.

Lemma remove_no_empty ix id scope :
  index_inv ix → si_by_scope (fst (remove ix id)) !! scope ≠ Some [].
Proof.
  intros Hi. unfold remove. destruct (si_policies ix !! id) as [doc|]; simpl; [|apply (inv_no_empty _ Hi)].
  destruct (si_by_scope ix !! pd_scope doc) as [b|] eqn:Eb; simpl; [|apply (inv_no_empty _ Hi)].
  destruct (decide (pd_scope doc = scope)) as [<-|].
  - destruct (filter _ b); [by rewrite lookup_delete_eq|by rewrite lookup_insert_eq].
  - destruct (filter _ b); [rewrite lookup_delete_ne by done|rewrite lookup_insert_ne by done];
      apply (inv_no_empty _ Hi).
Qed.

Lemma remove_next ix id : si_next_id (fst (remove ix id)) = si_next_id ix.
Proof. unfold remove. by destruct (si_policies ix !! id). Qed.

Lemma remove_inv ix id : index_inv ix → index_inv (fst (remove ix id)).
Proof.
  intros Hi. split.
  - intros scope x. rewrite bucket_remove by done. rewrite list_elem_of_filter, (inv_members _ Hi), policy_remove.
    case_decide; subst; [|tauto]. split; [by intros [? _]|by intros (? & ? & _)].
  - intros scope. by apply remove_no_empty.
  - intros scope. rewrite bucket_remove by done. apply sorted_filter, (inv_order _ Hi).
  - intros x. rewrite policy_remove, remove_next. case_decide; [by intros []|]. apply (inv_next _ Hi).
  - rewrite remove_next. apply (inv_next_pos _ Hi).
Qed.

(** ** The index as a state machine *)

Inductive op := Insert (doc : PolicyDocument) | Remove (id : PolicyId).

Definition apply_op (ix : ScopeIndex) (o : op) : ScopeIndex :=
  match o with Insert doc => fst (insert ix doc) | Remove id => fst (remove ix id) end.

Definition run (ops : list op) : ScopeIndex := fold_left apply_op ops new.

Lemma apply_next ix o :
  0 ≤ si_next_id ix < u64_max → 0 ≤ si_next_id (apply_op ix o) ≤ si_next_id ix + 1.
Proof.
  destruct o; simpl; [|rewrite remove_next; lia].
  intros H. rewrite wrap64_id; [lia|]. unfold in_u64. lia.
Qed.

Lemma fold_inv ops ix :
  index_inv ix → si_next_id ix + Z.of_nat (length ops) ≤ u64_max →
  index_inv (fold_left apply_op ops ix).
Proof.
  revert ix. induction ops as [|o ops IH]; intros ix Hi Hn; simpl in *; [done|].
  pose proof (inv_next_pos _ Hi). pose proof (apply_next ix o ltac:(lia)).
  apply IH; [|lia]. destruct o; simpl; [apply insert_inv; [done|lia]|by apply remove_inv].
Qed.

(** After any sequence of inserts and removals the two collections agree: a
    scope's bucket lists, in insertion order and without repetition, exactly the
    live documents declared under that scope, and no empty bucket is kept. *)
Theorem index_invariant ops :
  Z.of_nat (length ops) ≤ u64_max → index_inv (run ops).
Proof. intros H. apply fold_inv; [apply new_inv|done]. Qed.

(** Inserting appends the new id to its scope's bucket and touches no other;
    removing takes the id out of every bucket and leaves the other ids in order. *)
Theorem insert_remove_lookup ix doc id :
  index_inv ix →
  let '(ix', new_id) := insert ix doc in
  policy ix' new_id = Some doc ∧
  policies_for_scope ix' (pd_scope doc) = policies_for_scope ix (pd_scope doc) ++ [new_id] ∧
  (∀ scope, scope ≠ pd_scope doc → policies_for_scope ix' scope = policies_for_scope ix scope) ∧
  (∀ scope, policies_for_scope (fst (remove ix id)) scope =
              filter (λ x, x ≠ id) (policies_for_scope ix scope)) ∧
  snd (remove ix id) = policy ix id.
Proof.
  intros Hi. change (insert ix doc) with (fst (insert ix doc), si_next_id ix). cbn iota beta.
  rewrite policy_insert, decide_True by done. rewrite bucket_insert, decide_True by done.
  split; [done|]. split; [done|]. split.
  { intros scope Hne. by rewrite bucket_insert, decide_False. }
  split; [intros scope; by apply bucket_remove|].
  unfold remove, policy. by destruct (si_policies ix !! id).
Qed.

Definition sample_ops : list op :=
  [Insert (empty_document Scope.Global); Insert (empty_document (Scope.Team "core"));
   Insert (empty_document Scope.Global); Remove 0].

Lemma index_invariant_witness :
  index_inv (run sample_ops) ∧ policies_for_scope (run sample_ops) Scope.Global = [2].
Proof. split; [apply index_invariant; done | vm_compute; reflexivity]. Defined.

Lemma insert_remove_lookup_witness :
  policies_for_scope (fst (insert new (empty_document Scope.Global))) Scope.Global = [0].
Proof.
  pose proof (insert_remove_lookup new (empty_document Scope.Global) 0 new_inv) as H.
  destruct H as (_ & H & _). exact H.
Defined.
