(* ===== verification/EgressHost.v ===== *)
(** * EgressHost: which host a request reaches, and whether it may

    aa-core/src/policy.rs (the egress allowlist matcher) and
    aa-policy/src/network.rs.  The theorems state what the host extraction
    promises: the host of a URL built from its RFC 3986 parts, a host syntax that
    carries no URL punctuation, and the exact language of allowlist patterns. *)

From stdpp Require Import base strings list.
From Stdlib Require Import ZArith Lia Bool Ascii String.
From S2P Require Import Prelude.
From S2P Require Import Text.
From S2P Require Import PolicyDocument.

#[local] Arguments ascii_dec : simpl never.

Definition is_plain_char (c : ascii) : bool :=
  is_ascii_alphanumeric c || (code c =? 46)%Z || (code c =? 45)%Z || (code c =? 95)%Z.

Definition is_plain_hostname (host : string) : bool := str_forallb is_plain_char host.

Definition egress_pattern_matches (pattern host_lower : string) : bool :=
  let pattern_lower := to_ascii_lowercase pattern in
  if String.eqb pattern_lower "*" then true
  else match strip_prefix pattern_lower "*." with
       | Some suffix =>
           let required_suffix := String "." suffix in
           ends_with host_lower required_suffix
           && (String.length required_suffix <? String.length host_lower)%nat
           && is_plain_hostname host_lower
       | None => String.eqb pattern_lower host_lower
       end.

Definition is_host_allowed_by_egress_allowlist (host : string) (allowlist : list string) : bool :=
  match allowlist with
  | [] => true
  | _ => existsb (λ p, egress_pattern_matches p (to_ascii_lowercase host)) allowlist
  end.

Definition is_host_allowed_by_egress_allowlist_fail_closed (host : string) (allowlist : list string)
  : bool :=
  match allowlist with
  | [] => false
  | _ => is_host_allowed_by_egress_allowlist host allowlist
  end.

Definition is_ipv6_char (c : ascii) : bool :=
  is_ascii_hexdigit c || (code c =? 58)%Z || (code c =? 46)%Z || (code c =? 37)%Z.

(** What follows the host: nothing, or a colon and digits. *)
Definition is_port_suffix (after : string) : bool :=
  match after with
  | EmptyString => true
  | String c digits => (if ascii_dec c ":" then true else false) && str_forallb is_ascii_digit digits
  end.

(** The host text of a [host:port] before its trailing dot is dropped. *)
Definition host_port_split (host_port : string) : option string :=
  match host_port with
  | String "[" rest =>
      match split_once "]" rest with
      | None => None
      | Some (inner, after) =>
          if lacks ":" inner || negb (str_forallb is_ipv6_char inner) then None
          else if negb (is_port_suffix after) then None
          else Some (String "[" (String.append inner "]"))
      end
  | _ =>
      match rsplit_once ":" host_port with
      | Some (h, port) => if str_forallb is_ascii_digit port then Some h else None
      | None => Some host_port
      end
  end.

Definition host_from_host_port (host_port : string) : option string :=
  match host_port_split host_port with
  | None => None
  | Some host =>
      let host := default host (strip_suffix_char "." host) in
      if is_empty host || negb (starts_with host "[" || is_plain_hostname host) then None
      else Some (to_ascii_lowercase host)
  end.

Definition is_authority_end (c : ascii) : bool :=
  (if ascii_dec c "/" then true else false) || (if ascii_dec c "?" then true else false)
  || (if ascii_dec c "#" then true else false).

Definition is_ambiguous_char (c : ascii) : bool :=
  is_whitespace c || is_control c || (if ascii_dec c backslash_c then true else false).

Definition is_scheme_char (c : ascii) : bool :=
  is_ascii_alphanumeric c || (code c =? 43)%Z || (code c =? 46)%Z || (code c =? 45)%Z.

Definition is_scheme (scheme : string) : bool :=
  match scheme with
  | EmptyString => false
  | String c rest => is_ascii_alphabetic c && str_forallb is_scheme_char rest
  end.

Definition egress_host_from_url (url : string) : option string :=
  match split_once_str "://" url with
  | None => None
  | Some (scheme, rest) =>
      if negb (is_scheme scheme) then None
      else
        let authority := fst (take_while (λ c, negb (is_authority_end c)) rest) in
        if negb (str_forallb (λ c, negb (is_ambiguous_char c)) authority) then None
        else
          let host_port := match rsplit_once "@" authority with
                           | Some (_, hp) => hp
                           | None => authority
                           end in
          host_from_host_port host_port
  end.

Definition egress_host_from_authority (authority : string) : option string :=
  if negb (str_forallb
       (λ c, negb (is_ambiguous_char c || is_authority_end c || (if ascii_dec c "@" then true else false)))
       authority)
  then None
  else host_from_host_port authority.

Record EgressDecision := { ed_allowed : bool; ed_reason : string }.

(** The pattern count in the reason is rendered by [count_text]. *)
Definition check_network_egress (count_text : nat → string) (host : string)
  (policy : option NetworkPolicy) : EgressDecision :=
  match policy with
  | None => {| ed_allowed := true; ed_reason := "no network policy configured" |}
  | Some np =>
      match np_allowlist np with
      | [] => {| ed_allowed := false; ed_reason := "network allowlist empty (deny all egress)" |}
      | _ =>
          let n := String.append "network allowlist ("
                     (String.append (count_text (List.length (np_allowlist np))) " pattern(s))") in
          if is_host_allowed_by_egress_allowlist_fail_closed host (np_allowlist np)
          then {| ed_allowed := true; ed_reason := String.append "host matches " n |}
          else {| ed_allowed := false; ed_reason := String.append "host not in " n |}
      end
  end.

(** ** Lemmas *)

Lemma is_plain_char_lower c : is_plain_char (lower_char c) = is_plain_char c.
Proof. by destruct c as [[] [] [] [] [] [] [] []]. Qed.

Lemma plain_lower h : is_plain_hostname (to_ascii_lowercase h) = is_plain_hostname h.
Proof. apply str_forallb_lower, is_plain_char_lower. Qed.

Lemma plain_not_special c :
  is_plain_char c = true →
  is_ambiguous_char c = false ∧ is_authority_end c = false ∧ c ≠ "@"%char ∧ c ≠ ":"%char ∧ c ≠ "["%char.
Proof. by destruct c as [[] [] [] [] [] [] [] []]. Qed.

Lemma ipv6_not_special c :
  is_ipv6_char c = true →
  is_ambiguous_char c = false ∧ is_authority_end c = false ∧ c ≠ "@"%char ∧ c ≠ "]"%char ∧ c ≠ "["%char.
Proof. by destruct c as [[] [] [] [] [] [] [] []]. Qed.

(** The host syntaxes that are unambiguous: a plain name, or an IPv6 literal in
    brackets. *)
Definition host_syntax (h : string) : Prop :=
  (h ≠ EmptyString ∧ is_plain_hostname h = true) ∨
  (∃ inner, h = String "[" (String.append inner "]") ∧ str_forallb is_ipv6_char inner = true ∧
     lacks ":" inner = false).

Lemma strip_suffix_bracket inner :
  strip_suffix_char "." (String "[" (String.append inner "]")) = None.
Proof.
  destruct (strip_suffix_char _ _) as [t|] eqn:E; [|done]. apply strip_suffix_char_Some in E.
  assert (∀ a b x y, x ≠ y → String.append a (String x "") ≠ String.append b (String y "")) as Hlast.
  { clear. intros a. induction a as [|c a IH]; intros [|d b] x y Hxy H; simpl in H.
    - congruence. - injection H as _ H. by destruct b. - injection H as _ H. by destruct a.
    - injection H as _ H. by apply (IH b x y Hxy). }
  exfalso. by apply (Hlast (String "[" inner) t "]"%char "."%char).
Qed.

Lemma ipv6_char_lower c :
  is_ipv6_char (lower_char c) = is_ipv6_char c ∧
  ((if ascii_dec (lower_char c) ":" then false else true) = (if ascii_dec c ":" then false else true)).
Proof. by destruct c as [[] [] [] [] [] [] [] []]. Qed.

Lemma lower_append s t :
  to_ascii_lowercase (String.append s t) = String.append (to_ascii_lowercase s) (to_ascii_lowercase t).
Proof. induction s as [|c s IH]; simpl; [done|]. by rewrite IH. Qed.

Lemma host_syntax_lower h : host_syntax h → host_syntax (to_ascii_lowercase h).
Proof.
  intros [[Hne Hp]|(inner & -> & Hi & Hc)].
  - left. rewrite plain_lower. split; [by destruct h|done].
  - right. exists (to_ascii_lowercase inner). simpl. rewrite lower_append. split; [done|].
    unfold lacks. rewrite !str_forallb_lower; [done| |]; intros c; apply ipv6_char_lower.
Qed.

(** A host text that is neither empty nor bracketed passes the final filter only
    as a plain name. *)
Lemma host_filter_syntax host :
  starts_with host "[" = false →
  is_empty host || negb (starts_with host "[" || is_plain_hostname host) = false → host_syntax host.
Proof.
  intros ->. intros [He Hp]%orb_false_iff. left. split; [by destruct host|].
  by apply negb_false_iff in Hp.
Qed.

Lemma starts_with_app_false h t : starts_with (String.append h t) "[" = false → starts_with h "[" = false.
Proof.
  destruct h as [|c h]; simpl; [done|].
  destruct (ascii_dec "[" c); simpl; [|done]. by destruct (String.append h t), h.
Qed.

Lemma host_port_split_cases hp host :
  host_port_split hp = Some host →
  (starts_with host "[" = false) ∨
  (∃ inner, host = String "[" (String.append inner "]") ∧ str_forallb is_ipv6_char inner = true ∧
     lacks ":" inner = false).
Proof.
  unfold host_port_split. intros H.
  assert (starts_with hp "[" = false ∨ ∃ rest, hp = String "[" rest) as [Hb|[rest ->]].
  { destruct hp as [|c hp]; [by left|]. simpl. destruct (ascii_dec "[" c) as [<-|]; [right; eauto|by left]. }
  - left. assert (match rsplit_once ":" hp with
      | Some (h, port) => if str_forallb is_ascii_digit port then Some h else None
      | None => Some hp end = Some host) as H'.
    { destruct hp as [|c hp]; [done|]. simpl in Hb.
      destruct c as [[] [] [] [] [] [] [] []]; try exact H. by destruct hp. }
    destruct (rsplit_once ":" hp) as [[h port]|] eqn:E; [|by simplify_eq].
    apply rsplit_once_Some in E as [-> _]. destruct (str_forallb _ port); simplify_eq.
    by apply starts_with_app_false in Hb.
  - right. destruct (split_once "]" rest) as [[inner after]|]; [|done].
    destruct (lacks ":" inner) eqn:Hl; [done|].
    destruct (str_forallb is_ipv6_char inner) eqn:Hi; [|done]. simpl in H.
    destruct (negb (is_port_suffix after)); simplify_eq. eauto.
Qed.

Lemma host_from_host_port_syntax hp h :
  host_from_host_port hp = Some h → host_syntax h ∧ to_ascii_lowercase h = h.
Proof.
  unfold host_from_host_port. destruct (host_port_split hp) as [host|] eqn:E; [|done].
  destruct (is_empty _ || _) eqn:Hf; [done|]. intros [= <-].
  split; [|apply to_ascii_lowercase_idemp]. apply host_syntax_lower.
  apply host_port_split_cases in E as [Hb|(inner & -> & Hi)].
  - apply host_filter_syntax; [|done].
    destruct (strip_suffix_char "." host) as [t|] eqn:Es; simpl; [|done].
    apply strip_suffix_char_Some in Es as ->. by apply starts_with_app_false in Hb.
  - right. rewrite strip_suffix_bracket. eauto.
Qed.

(** Whatever URL or authority is presented, the host it is judged by is a
    lower-case plain name, or a bracketed IPv6 literal: it carries no user
    information, port, path, query, white space, control character or backslash. *)
Theorem egress_host_is_unambiguous text h :
  egress_host_from_url text = Some h ∨ egress_host_from_authority text = Some h →
  host_syntax h ∧ to_ascii_lowercase h = h.
Proof.
  intros [H|H].
  - unfold egress_host_from_url in H. destruct (split_once_str _ _) as [[scheme rest]|]; [|done].
    destruct (negb _); [done|]. destruct (negb _); [done|]. by apply host_from_host_port_syntax in H.
  - unfold egress_host_from_authority in H. destruct (negb _); [done|].
    by apply host_from_host_port_syntax in H.
Qed.

(** ** The host of a URL built from its parts *)

Definition url_text (scheme : string) (userinfo : option string) (host : string)
  (port : option string) (tail : string) : string :=
  String.append scheme (String.append "://" (String.append
    (match userinfo with Some u => String.append u "@" | None => EmptyString end)
    (String.append host (String.append
      (match port with Some p => String ":" p | None => EmptyString end) tail)))).

Definition is_userinfo_char (c : ascii) : bool := negb (is_authority_end c) && negb (is_ambiguous_char c).

Record url_parts (scheme : string) (userinfo : option string) (host : string)
  (port : option string) (tail : string) : Prop := {
  up_scheme : is_scheme scheme = true;
  up_userinfo : match userinfo with Some u => str_forallb is_userinfo_char u = true | None => True end;
  up_host : host_syntax host;
  up_no_dot : strip_suffix_char "." host = None;
  up_port : match port with Some p => str_forallb is_ascii_digit p = true | None => True end;
  up_tail : match tail with EmptyString => True | String c _ => is_authority_end c = true end;
}.

Lemma split_once_str_scheme a r :
  lacks ":" a = true → split_once_str "://" (String.append a (String.append "://" r)) = Some (a, r).
Proof.
  unfold lacks. induction a as [|c a IH].
  - intros _. by destruct r.
  - cbn [str_forallb]. intros [Hc Ha]%andb_true_iff.
    change (String.append (String c a) ?x) with (String c (String.append a x)).
    cbn [split_once_str]. simpl (strip_prefix (String c _) _).
    destruct (ascii_dec ":" c) as [<-|]; [done|]. by rewrite (IH Ha).
Qed.

Lemma scheme_lacks_colon s : is_scheme s = true → lacks ":" s = true.
Proof.
  assert (∀ c, is_ascii_alphabetic c = true ∨ is_scheme_char c = true → c ≠ ":"%char) as Hc.
  { intros c [H|H] ->; discriminate. }
  destruct s as [|c s]; [done|]. unfold is_scheme, lacks. cbn [str_forallb]. intros [H1 H2]%andb_true_iff.
  destruct (ascii_dec c ":"); [naive_solver|]. simpl. by apply (lacks_class is_scheme_char).
Qed.

Lemma take_while_authority a tail :
  str_forallb (λ c, negb (is_authority_end c)) a = true →
  match tail with EmptyString => True | String c _ => is_authority_end c = true end →
  take_while (λ c, negb (is_authority_end c)) (String.append a tail) = (a, tail).
Proof.
  intros Ha Ht. apply take_while_app; [done|]. destruct tail; [done|]. by rewrite Ht.
Qed.

(** The characters of a host and port: none ends or blurs an authority. *)
Definition is_host_port_char (c : ascii) : bool :=
  is_userinfo_char c && (if ascii_dec c "@" then false else true).

Lemma host_port_char_class c :
  is_plain_char c = true ∨ is_ipv6_char c = true ∨ is_ascii_digit c = true ∨
    c = "["%char ∨ c = "]"%char ∨ c = ":"%char →
  is_host_port_char c = true.
Proof.
  intros [H|[H|[H|[->|[->| ->]]]]]; try reflexivity; revert H;
    by destruct c as [[] [] [] [] [] [] [] []].
Qed.

Lemma host_chars h : host_syntax h → str_forallb is_host_port_char h = true.
Proof.
  intros [[_ Hp]|(inner & -> & Hi & _)].
  - revert Hp. apply str_forallb_mono. auto using host_port_char_class.
  - cbn [str_forallb]. rewrite str_forallb_app. cbn [str_forallb].
    rewrite !host_port_char_class by auto. rewrite andb_true_r. simpl.
    revert Hi. apply str_forallb_mono. auto using host_port_char_class.
Qed.

Definition port_text (port : option string) : string :=
  match port with Some p => String ":" p | None => EmptyString end.

Lemma port_chars port :
  match port with Some p => str_forallb is_ascii_digit p = true | None => True end →
  str_forallb is_host_port_char (port_text port) = true.
Proof.
  destruct port as [p|]; [|done]. cbn [port_text str_forallb].
  rewrite host_port_char_class by auto 8. simpl. apply str_forallb_mono. auto 8 using host_port_char_class.
Qed.

(** The generic branch of [host_port_split], for a text with no leading bracket. *)
Lemma host_port_split_plain hp :
  starts_with hp "[" = false →
  host_port_split hp =
    match rsplit_once ":" hp with
    | Some (h, port) => if str_forallb is_ascii_digit port then Some h else None
    | None => Some hp
    end.
Proof.
  destruct hp as [|c hp]; [done|]. simpl (starts_with _ _). intros Hb.
  assert (c ≠ "["%char) as Hc.
  { intros ->. destruct (ascii_dec "[" "["); [|done]. by destruct hp. }
  destruct c as [[] [] [] [] [] [] [] []]; try done.
Qed.

Lemma plain_no_bracket h t :
  h ≠ EmptyString → is_plain_hostname h = true → starts_with (String.append h t) "[" = false.
Proof.
  destruct h as [|c h]; [done|]. intros _. unfold is_plain_hostname. cbn [str_forallb].
  intros [Hc _]%andb_true_iff. cbn. destruct (ascii_dec "[" c) as [<-|]; [discriminate|done].
Qed.

Lemma host_port_split_syntax h port :
  host_syntax h →
  match port with Some p => str_forallb is_ascii_digit p = true | None => True end →
  host_port_split (String.append h (port_text port)) = Some h.
Proof.
  intros [[Hne Hp]|(inner & -> & Hi & Hc)] Hport.
  - rewrite host_port_split_plain by (by apply plain_no_bracket).
    assert (lacks ":" h = true) as Hl by (by apply (lacks_class is_plain_char)).
    destruct port as [p|]; cbn [port_text].
    + rewrite rsplit_once_app by (by apply (lacks_class is_ascii_digit)). by rewrite Hport.
    + rewrite append_nil_r. by rewrite rsplit_once_None.
  - assert (String.append (String "[" (String.append inner "]")) (port_text port) =
            String "[" (String.append inner (String "]" (port_text port)))) as ->.
    { simpl. by rewrite append_assoc. }
    unfold host_port_split.
    rewrite split_once_app by (by apply (lacks_class is_ipv6_char)).
    rewrite Hc, Hi. by destruct port as [p|]; simpl; rewrite ?Hport.
Qed.

Lemma host_syntax_ne h : host_syntax h → is_empty h = false.
Proof. intros [[Hne _]|(inner & -> & _)]; [by destruct h|done]. Qed.

Lemma host_syntax_accepted h : host_syntax h → starts_with h "[" || is_plain_hostname h = true.
Proof.
  intros [[_ ->]|(inner & -> & _)]; [apply orb_true_r|]. simpl. by destruct (String.append inner "]").
Qed.

Lemma host_from_host_port_built h port :
  host_syntax h → strip_suffix_char "." h = None →
  match port with Some p => str_forallb is_ascii_digit p = true | None => True end →
  host_from_host_port (String.append h (port_text port)) = Some (to_ascii_lowercase h).
Proof.
  intros Hh Hdot Hport. unfold host_from_host_port. rewrite host_port_split_syntax by done.
  rewrite Hdot. simpl. by rewrite host_syntax_ne, host_syntax_accepted.
Qed.

(** The host extracted from a URL is the one a client dials: for a URL made of
    a scheme, optional user information, a host, an optional port and an optional
    path, query or fragment, it is that host in lower case. *)
Theorem egress_host_from_url_correct scheme userinfo host port tail :
  url_parts scheme userinfo host port tail →
  egress_host_from_url (url_text scheme userinfo host port tail) = Some (to_ascii_lowercase host).
Proof.
  intros [Hs Hu Hh Hd Hp Ht]. unfold egress_host_from_url, url_text.
  rewrite split_once_str_scheme by (by apply scheme_lacks_colon). rewrite Hs. cbn [negb].
  fold (port_text port).
  set (prefix := match userinfo with Some u => String.append u "@" | None => EmptyString end).
  rewrite <- (append_assoc host), <- (append_assoc prefix).
  set (hp := String.append host (port_text port)).
  assert (str_forallb is_host_port_char hp = true) as Hhp.
  { unfold hp. rewrite str_forallb_app, host_chars, port_chars by done. done. }
  assert (str_forallb is_userinfo_char (String.append prefix hp) = true) as Hauth.
  { rewrite str_forallb_app. apply andb_true_iff. split.
    - unfold prefix. destruct userinfo as [u|]; [|done]. rewrite str_forallb_app, Hu. done.
    - revert Hhp. apply str_forallb_mono. by intros c [? _]%andb_true_iff. }
  rewrite take_while_authority; [|revert Hauth; apply str_forallb_mono; by intros c [? _]%andb_true_iff|done].
  cbn [fst].
  rewrite (str_forallb_mono is_userinfo_char); [|by intros c [_ ?]%andb_true_iff|done]. cbn [negb].
  assert (lacks "@" hp = true) as Hat by (by apply (lacks_class is_host_port_char)).
  destruct userinfo as [u|]; unfold prefix.
  - change (String.append u "@") with (String.append u (String "@" "")). rewrite append_assoc. simpl.
    rewrite rsplit_once_app by done. by apply host_from_host_port_built.
  - simpl. rewrite rsplit_once_None by done. by apply host_from_host_port_built.
Qed.

(** ** Patterns *)

Lemma wildcard_matches suffix h :
  egress_pattern_matches (String.append "*." suffix) h = true ↔
  is_plain_hostname h = true ∧
  ∃ label, label ≠ EmptyString ∧ h = String.append label (String "." (to_ascii_lowercase suffix)).
Proof.
  unfold egress_pattern_matches. rewrite lower_append.
  change (to_ascii_lowercase "*.") with "*."%string.
  assert (String.eqb (String.append "*." (to_ascii_lowercase suffix)) "*" = false) as -> by done.
  rewrite strip_prefix_app.
  rewrite !andb_true_iff, ends_with_true, Nat.ltb_lt. split.
  - intros [[[l ->] Hlen] Hp]. split; [done|]. exists l. split; [|done].
    intros ->. simpl in Hlen. lia.
  - intros [Hp (l & Hl & ->)]. repeat split; [by exists l| |done].
    rewrite append_length. destruct l; [done|]. simpl. lia.
Qed.

Lemma allowed_iff host allowlist :
  is_host_allowed_by_egress_allowlist_fail_closed host allowlist = true ↔
  ∃ p, p ∈ allowlist ∧ egress_pattern_matches p (to_ascii_lowercase host) = true.
Proof.
  destruct allowlist as [|p0 l].
  - split; [done|]. intros (p & Hp & _). by apply not_elem_of_nil in Hp.
  - unfold is_host_allowed_by_egress_allowlist_fail_closed, is_host_allowed_by_egress_allowlist.
    rewrite existsb_exists. by setoid_rewrite <- list_elem_of_In.
Qed.

(** A leftmost-label wildcard admits exactly the plain host names that end in
    the suffix after at least one more character of label, case aside: neither the
    bare suffix nor a host that carries URL punctuation. *)
Theorem wildcard_admits_subdomains_only suffix host :
  is_host_allowed_by_egress_allowlist_fail_closed host [String.append "*." suffix] = true ↔
  is_plain_hostname host = true ∧
  ∃ label, label ≠ EmptyString ∧
    to_ascii_lowercase host = String.append label (String "." (to_ascii_lowercase suffix)).
Proof.
  rewrite allowed_iff. setoid_rewrite list_elem_of_singleton. split.
  - intros (p & -> & H). apply wildcard_matches in H. by rewrite plain_lower in H.
  - intros H. eexists. split; [done|]. apply wildcard_matches. by rewrite plain_lower.
Qed.

(** Extending an allowlist never revokes a host, the empty allowlist admits
    none, and the verdict does not depend on the case of the host. *)
Theorem allowlist_monotone host l l' :
  (∀ p, p ∈ l → p ∈ l') →
  (is_host_allowed_by_egress_allowlist_fail_closed host l = true →
   is_host_allowed_by_egress_allowlist_fail_closed host l' = true) ∧
  is_host_allowed_by_egress_allowlist_fail_closed host [] = false ∧
  is_host_allowed_by_egress_allowlist_fail_closed (to_ascii_lowercase host) l =
    is_host_allowed_by_egress_allowlist_fail_closed host l.
Proof.
  intros Hl. split; [|split; [done|]].
  - rewrite !allowed_iff. intros (p & Hp & Hm). eauto.
  - destruct l; [done|]. unfold is_host_allowed_by_egress_allowlist_fail_closed, is_host_allowed_by_egress_allowlist.
    by rewrite to_ascii_lowercase_idemp.
Qed.

(** ** Witnesses *)

Lemma egress_host_is_unambiguous_witness :
  host_syntax "api.openai.com" ∧ to_ascii_lowercase "api.openai.com" = "api.openai.com"%string.
Proof.
  apply (egress_host_is_unambiguous "https://user@API.OpenAI.com.:8443/v1"). left.
  vm_compute. reflexivity.
Defined.

Lemma sample_url_parts :
  url_parts "https" (Some "evil.com"%string) "API.openai.com" (Some "443"%string) "/v1?x=1".
Proof. split; try (vm_compute; reflexivity). left. split; [done|vm_compute; reflexivity]. Qed.

Lemma egress_host_from_url_correct_witness :
  egress_host_from_url "https://evil.com@API.openai.com:443/v1?x=1" = Some "api.openai.com"%string.
Proof.
  apply (egress_host_from_url_correct "https" (Some "evil.com"%string) "API.openai.com"
           (Some "443"%string) "/v1?x=1").
  exact sample_url_parts.
Defined.

Lemma allowlist_monotone_witness :
  is_host_allowed_by_egress_allowlist_fail_closed "API.openai.com" ["x.org"; "*.openai.com"]%string
    = true.
Proof.
  refine (proj1 (allowlist_monotone "API.openai.com" ["*.openai.com"%string]
                   ["x.org"; "*.openai.com"]%string _) _).
  - intros p Hp. by right.
  - vm_compute. reflexivity.
Defined.
