(* ===== verification/Decision.v ===== *)
(** * Decision: the per-document stages and their merge over a cascade

    aa-gateway/src/engine/decision.rs.  A stage returns [Some] decision when it
    fires; [evaluate_single_doc] runs the cacheable stages of one document,
    [merge_decisions_attributed] folds them over the cascade, most restrictive
    verdict first. *)

From stdpp Require Import base gmap strings list.
From Stdlib Require Import ZArith Lia Bool Ascii String.
From S2P Require Import Prelude.
From S2P Require Import Text.
From S2P Require Import CoreTypes.
From S2P Require Import External.
From S2P Require Import ExprEval.
From S2P Require Import ExprProps.
From S2P Require Import Capability.
From S2P Require Import PolicyDocument.
From S2P Require Import EgressHost.

Open Scope Z_scope.
Open Scope aasm_scope.

Module PD.
Inductive PolicyDecision :=
| Allow
| RequireApproval (reason : string) (timeout_secs : Z)
| Deny (reason : string) (source_scope : PolicyScope).

Definition into_policy_result (d : PolicyDecision) : PolicyResult :=
  match d with
  | Allow => CoreTypes.Allow
  | RequireApproval _ timeout_secs => CoreTypes.RequiresApproval timeout_secs
  | Deny reason _ => CoreTypes.Deny reason
  end.
End PD.

Abbreviation PolicyDecision := PD.PolicyDecision.

(** ** Stage 1: schedule *)

(** [format!("{:02}")] for a number below one hundred. *)
Definition digit_char (d : Z) : ascii := ascii_of_nat (48 + Z.to_nat d).

Definition two_digits (n : Z) (k : string) : string :=
  String (digit_char (n / 10)) (String (digit_char (n mod 10)) k).

Definition hhmm (hour minute : Z) : string := two_digits hour (String ":" (two_digits minute "")).

Section Schedule.
Context {C : ChronoLib}.

Definition stage_schedule_at (doc : PolicyDocument) (now : Z) : option PolicyDecision :=
  match pd_schedule doc ≫= sp_active_hours with
  | None => None
  | Some ah =>
      match tz_parse (ah_timezone ah) with
      | None => Some (PD.Deny (String.append "invalid schedule timezone: " (ah_timezone ah)) (pd_scope doc))
      | Some zone =>
          let '(hour, minute) := local_hour_minute zone now in
          let current_hhmm := hhmm hour minute in
          if str_ltb current_hhmm (ah_start ah) || negb (str_ltb current_hhmm (ah_end ah))
          then Some (PD.Deny "outside active hours" (pd_scope doc))
          else None
      end
  end.

Fixpoint find_map {A B} (f : A → option B) (l : list A) : option B :=
  match l with
  | [] => None
  | x :: l' => match f x with Some b => Some b | None => find_map f l' end
  end.

Definition evaluate_schedule_cascade (cascade : list PolicyDocument) (now : Z) : option PolicyDecision :=
  find_map (λ doc, stage_schedule_at doc now) cascade.
End Schedule.

(** ** Stages 2 to 3.5 *)

Definition network_request_url_allowed (url : string) (np : NetworkPolicy) : bool :=
  match egress_host_from_url url with
  | Some host => is_host_allowed_by_egress_allowlist_fail_closed host (np_allowlist np)
  | None => false
  end.

Definition stage_network (doc : PolicyDocument) (action : GovernanceAction) : option PolicyDecision :=
  match action with
  | NetworkRequest url _ =>
      match pd_network doc with
      | None => None
      | Some np =>
          if negb (network_request_url_allowed url np)
          then Some (PD.Deny "host not in network allowlist" (pd_scope doc))
          else None
      end
  | _ => None
  end.

(** An exact entry of the tools map, or the wildcard entry. *)
Definition tool_policy_for (tools : gmap string ToolPolicy) (name : string) : option ToolPolicy :=
  match tools !! name with Some tp => Some tp | None => tools !! "*"%string end.

Definition stage_tool_allow (doc : PolicyDocument) (action : GovernanceAction) : option PolicyDecision :=
  match action with
  | ToolCall name _ =>
      match tool_policy_for (pd_tools doc) name with
      | None => None
      | Some tp =>
          if negb (tp_allow tp) then Some (PD.Deny "tool denied by policy" (pd_scope doc)) else None
      end
  | _ => None
  end.

Definition stage_capability (doc : PolicyDocument) (action : GovernanceAction) : option PolicyDecision :=
  match pd_capabilities doc, action_to_capability action with
  | Some caps, Some cap =>
      if capability_is_denied (cs_deny caps) cap
      then Some (PD.Deny "capability denied by policy" (pd_scope doc))
      else if allow_is_restricted caps && negb (set_contains (cs_allow caps) cap)
      then Some (PD.Deny "capability not in allow list" (pd_scope doc))
      else None
  | _, _ => None
  end.

(** ** Stage 5: approval *)

Section Approval.
Context {JS : JsonLib} {HT : HumantimeLib}.
Implicit Types (ctx : AgentContext) (policy_ctx : option PolicyContext).

Definition approval_condition_met (tool_policy : option ToolPolicy) ctx (action : GovernanceAction)
  policy_ctx : E bool :=
  match tool_policy ≫= tp_requires_approval_if with
  | None => w_ret false
  | Some expr =>
      if is_empty expr then w_ret false
      else evaluate_clause expr action (Some (ac_governance_level ctx)) policy_ctx Clause.RequireApproval
  end.

Definition stage_approval (doc : PolicyDocument) ctx (action : GovernanceAction) policy_ctx
  : E (option PolicyDecision) :=
  match action with
  | ToolCall name _ =>
      let* met := approval_condition_met (tool_policy_for (pd_tools doc) name) ctx action policy_ctx in
      w_ret (if met
             then Some (PD.RequireApproval
                          (String.append "approval required for tool '" (String.append name "'"))
                          (pd_approval_timeout_secs doc))
             else None)
  | SendMessage _ _ _ =>
      let* met := approval_condition_met (pd_tools doc !! "message"%string) ctx action policy_ctx in
      w_ret (if met
             then Some (PD.RequireApproval "approval required: cross-team channel policy"
                          (pd_approval_timeout_secs doc))
             else None)
  | _ => w_ret None
  end.

Definition evaluate_single_doc (doc : PolicyDocument) ctx (action : GovernanceAction) policy_ctx
  : E PolicyDecision :=
  match stage_network doc action with
  | Some d => w_ret d
  | None =>
      match stage_tool_allow doc action with
      | Some d => w_ret d
      | None =>
          match stage_capability doc action with
          | Some d => w_ret d
          | None =>
              let* o := stage_approval doc ctx action policy_ctx in
              w_ret (default PD.Allow o)
          end
      end
  end.

(** ** Merging a cascade *)

Context (content_digest : PolicyDocument → string).

Fixpoint merge_loop (running : PolicyDecision) (decided_by : PolicyDocument)
  (docs : list PolicyDocument) ctx (action : GovernanceAction) policy_ctx
  : E (PolicyDecision * option string) :=
  match docs with
  | [] => w_ret (running, Some (content_digest decided_by))
  | doc :: docs' =>
      let* verdict := evaluate_single_doc doc ctx action policy_ctx in
      match verdict with
      | PD.Deny _ _ => w_ret (verdict, Some (content_digest doc))
      | PD.RequireApproval _ _ => merge_loop verdict doc docs' ctx action policy_ctx
      | PD.Allow =>
          let decided_by := match running with PD.Allow => doc | _ => decided_by end in
          merge_loop running decided_by docs' ctx action policy_ctx
      end
  end.

Definition merge_decisions_attributed (cascade : list PolicyDocument) ctx (action : GovernanceAction)
  policy_ctx : E (PolicyDecision * option string) :=
  match cascade with
  | [] => w_ret (PD.Deny "no policy — fail-closed" Scope.Global, None)
  | doc0 :: _ => merge_loop PD.Allow doc0 cascade ctx action policy_ctx
  end.

Definition merge_decisions_audited (cascade : list PolicyDocument) ctx (action : GovernanceAction)
  policy_ctx : E PolicyDecision :=
  let* r := merge_decisions_attributed cascade ctx action policy_ctx in w_ret (fst r).

Definition merge_decisions (cascade : list PolicyDocument) ctx (action : GovernanceAction) policy_ctx
  : PolicyDecision :=
  fst (merge_decisions_audited cascade ctx action policy_ctx).
End Approval.

(** ** The merge as a maximum *)

Definition rank (d : PolicyDecision) : Z :=
  match d with PD.Allow => 0 | PD.RequireApproval _ _ => 1 | PD.Deny _ _ => 2 end.

Definition is_deny (d : PolicyDecision) : bool := match d with PD.Deny _ _ => true | _ => false end.
Definition is_approval (d : PolicyDecision) : bool :=
  match d with PD.RequireApproval _ _ => true | _ => false end.

(** The reference merge: the first deny, else the last approval, else allow. *)
Definition most_restrictive (vs : list PolicyDecision) : PolicyDecision :=
  match List.find is_deny vs with
  | Some d => d
  | None => default PD.Allow (List.find is_approval (rev vs))
  end.

Definition max_rank (vs : list PolicyDecision) : Z := foldr (λ v n, Z.max (rank v) n) 0 vs.

Lemma rank_range d : 0 ≤ rank d ≤ 2.
Proof. destruct d; simpl; lia. Qed.

Lemma max_rank_bounds vs : 0 ≤ max_rank vs ≤ 2.
Proof. induction vs as [|v vs IH]; simpl; [lia|]. pose proof (rank_range v). lia. Qed.

Lemma max_rank_ge vs v : v ∈ vs → rank v ≤ max_rank vs.
Proof. induction 1; simpl; lia. Qed.

Lemma max_rank_le vs n : 0 ≤ n → (∀ v, v ∈ vs → rank v ≤ n) → max_rank vs ≤ n.
Proof.
  intros Hn. induction vs as [|v vs IH]; intros H; simpl; [done|].
  pose proof (H v ltac:(left)). assert (max_rank vs ≤ n) by (apply IH; intros; apply H; by right). lia.
Qed.

Lemma find_true {A} (f : A → bool) l x : List.find f l = Some x → x ∈ l ∧ f x = true.
Proof. intros [? ?]%List.find_some. split; [by apply list_elem_of_In|done]. Qed.

Lemma find_none_false {A} (f : A → bool) l x : List.find f l = None → x ∈ l → f x = false.
Proof. intros H Hx. eapply List.find_none; [done|]. by apply list_elem_of_In. Qed.

Lemma most_restrictive_rank vs : rank (most_restrictive vs) = max_rank vs.
Proof.
  unfold most_restrictive. pose proof (max_rank_bounds vs).
  destruct (List.find is_deny vs) as [d|] eqn:Hd.
  { apply find_true in Hd as [Hd%max_rank_ge Hdeny]. destruct d; simpl in *; lia. }
  assert (∀ v, v ∈ vs → rank v ≤ 1) as Hle.
  { intros v Hv. pose proof (find_none_false _ _ v Hd Hv). by destruct v. }
  destruct (List.find is_approval (rev vs)) as [a|] eqn:Ha; simpl.
  - apply find_true in Ha as [Ha Happ]. apply list_elem_of_In, in_rev, list_elem_of_In in Ha.
    pose proof (max_rank_ge _ _ Ha). pose proof (max_rank_le vs 1 ltac:(lia) Hle). destruct a; simpl in *; lia.
  - pose proof (max_rank_le vs 0 ltac:(lia)) as Hz. apply eq_sym, Z.le_antisymm; [|lia]. apply Hz.
    intros v Hv. pose proof (find_none_false _ _ v Hd Hv).
    pose proof (find_none_false _ _ v Ha ltac:(by apply list_elem_of_In, in_rev; rewrite rev_involutive; apply list_elem_of_In)).
    by destruct v.
Qed.

Lemma max_rank_subset vs ws : (∀ v, v ∈ vs → v ∈ ws) → max_rank vs ≤ max_rank ws.
Proof.
  intros H. apply max_rank_le; [apply max_rank_bounds|]. intros v Hv. by apply max_rank_ge, H.
Qed.

Section MergeProps.
Context {JS : JsonLib} {HT : HumantimeLib} (content_digest : PolicyDocument → string).
Implicit Types (ctx : AgentContext) (a : GovernanceAction) (policy_ctx : option PolicyContext).

Definition doc_verdict ctx a policy_ctx (doc : PolicyDocument) : PolicyDecision :=
  fst (evaluate_single_doc doc ctx a policy_ctx).

Lemma merge_loop_verdict running by_doc docs ctx a policy_ctx :
  fst (fst (merge_loop content_digest running by_doc docs ctx a policy_ctx)) =
    let vs := map (doc_verdict ctx a policy_ctx) docs in
    match List.find is_deny vs with
    | Some d => d
    | None => default running (List.find is_approval (rev vs))
    end.
Proof.
  revert running by_doc. induction docs as [|doc docs IH]; intros running by_doc; [done|]. simpl.
  assert (doc_verdict ctx a policy_ctx doc = fst (evaluate_single_doc doc ctx a policy_ctx)) as -> by done.
  destruct (evaluate_single_doc doc ctx a policy_ctx) as [v r]. simpl.
  assert (∀ l x, List.find is_approval (l ++ [x]) =
            match List.find is_approval l with Some y => Some y | None => if is_approval x then Some x else None end)
    as Hfind by (intros l x; induction l as [|y l IHl]; simpl; [done|]; by destruct (is_approval y)).
  rewrite Hfind.
  destruct v; simpl; [..|done];
    match goal with |- context [merge_loop _ ?run ?d docs _ _ _] => specialize (IH run d) end;
    destruct (merge_loop _ _ _ docs _ _ _) as [[x y] z]; simpl in *; rewrite IH;
    destruct (List.find is_deny _); try done; by destruct (List.find is_approval _).
Qed.

Lemma merge_decisions_spec cascade ctx a policy_ctx :
  merge_decisions content_digest cascade ctx a policy_ctx =
    match cascade with
    | [] => PD.Deny "no policy — fail-closed" Scope.Global
    | _ => most_restrictive (map (doc_verdict ctx a policy_ctx) cascade)
    end.
Proof.
  unfold merge_decisions, merge_decisions_audited, merge_decisions_attributed.
  destruct cascade as [|doc docs]; [done|].
  pose proof (merge_loop_verdict PD.Allow doc (doc :: docs) ctx a policy_ctx) as H.
  destruct (merge_loop _ _ _ _ _ _ _) as [[x y] z]. by simpl in *.
Qed.

(** The cascade merge returns the first deny of any document, or else the
    approval of the most specific document that requires one, or else allow; an
    empty cascade is denied. *)
Theorem merge_most_restrictive cascade ctx a policy_ctx :
  merge_decisions content_digest cascade ctx a policy_ctx =
    match cascade with
    | [] => PD.Deny "no policy — fail-closed" Scope.Global
    | _ => most_restrictive (map (doc_verdict ctx a policy_ctx) cascade)
    end.
Proof. apply merge_decisions_spec. Qed.

Lemma merge_decisions_rank cascade ctx a policy_ctx :
  cascade ≠ [] →
  rank (merge_decisions content_digest cascade ctx a policy_ctx) =
    max_rank (map (doc_verdict ctx a policy_ctx) cascade).
Proof.
  intros Hne. rewrite merge_decisions_spec. destruct cascade as [|d l]; [done|]. apply most_restrictive_rank.
Qed.

(** Attaching further documents to a cascade, in any order and at any scope,
    never loosens its verdict. *)
Theorem merge_monotone cascade cascade' ctx a policy_ctx :
  cascade ≠ [] → (∀ d, d ∈ cascade → d ∈ cascade') →
  rank (merge_decisions content_digest cascade ctx a policy_ctx) ≤
  rank (merge_decisions content_digest cascade' ctx a policy_ctx).
Proof.
  intros Hne Hsub.
  assert (cascade' ≠ []) as Hne'.
  { destruct cascade as [|d l]; [done|]. intros ->. by apply (not_elem_of_nil d), Hsub; left. }
  rewrite !merge_decisions_rank by done. apply max_rank_subset.
  intros v (d & -> & Hd)%list_elem_of_fmap. apply list_elem_of_fmap. eauto.
Qed.

(** [by_doc] accounts for [running]. *)
Lemma merge_loop_attributed running by_doc docs ctx a policy_ctx d id :
  doc_verdict ctx a policy_ctx by_doc = running →
  fst (merge_loop content_digest running by_doc docs ctx a policy_ctx) = (d, id) →
  ∃ doc, doc ∈ by_doc :: docs ∧ id = Some (content_digest doc) ∧ doc_verdict ctx a policy_ctx doc = d.
Proof.
  revert running by_doc. induction docs as [|doc docs IH]; intros running by_doc Hrun H; simpl in H.
  { simplify_eq. exists by_doc. split; [left|done]. }
  destruct (evaluate_single_doc doc ctx a policy_ctx) as [v r] eqn:Ev. simpl in H.
  assert (doc_verdict ctx a policy_ctx doc = v) as Hv by (unfold doc_verdict; by rewrite Ev).
  destruct v as [|reason t|reason sc].
  - destruct (merge_loop _ _ _ _ _ _ _) as [p r'] eqn:Em in H. simpl in H. subst p.
    set (by_doc' := match running with PD.Allow => doc | _ => by_doc end) in *.
    assert (doc_verdict ctx a policy_ctx by_doc' = running) as Hb
      by (unfold by_doc'; destruct running; done).
    destruct (IH running by_doc' Hb) as (x & Hx & ?); [by rewrite Em|]. exists x. split; [|done].
    unfold by_doc' in Hx. destruct running; rewrite !elem_of_cons in *; tauto.
  - destruct (merge_loop _ _ _ _ _ _ _) as [p r'] eqn:Em in H. simpl in H. subst p.
    destruct (IH _ doc Hv) as (x & Hx & ?); [by rewrite Em|]. exists x. split; [by right|done].
  - simpl in H. simplify_eq. exists doc. split; [right; left|done].
Qed.

(** The document a verdict is attributed to is one of the cascade, and it
    produced that very verdict by itself; only the empty cascade has no
    attribution. *)
Theorem merge_attribution cascade ctx a policy_ctx d id :
  fst (merge_decisions_attributed content_digest cascade ctx a policy_ctx) = (d, id) →
  match cascade with
  | [] => id = None
  | _ => ∃ doc, doc ∈ cascade ∧ id = Some (content_digest doc) ∧ doc_verdict ctx a policy_ctx doc = d
  end.
Proof.
  destruct cascade as [|doc docs]; simpl; [by intros [= _ <-]|]. intros H.
  destruct (evaluate_single_doc doc ctx a policy_ctx) as [v r] eqn:Ev. simpl in H.
  assert (doc_verdict ctx a policy_ctx doc = v) as Hv by (unfold doc_verdict; by rewrite Ev).
  destruct v as [|reason t|reason sc].
  - destruct (merge_loop _ _ _ docs _ _ _) as [p r'] eqn:Em. simpl in H. subst p.
    eapply merge_loop_attributed; [done|by rewrite Em].
  - destruct (merge_loop _ _ _ docs _ _ _) as [p r'] eqn:Em. simpl in H. subst p.
    eapply merge_loop_attributed; [done|by rewrite Em].
  - simpl in H. simplify_eq. exists doc. split; [left|done].
Qed.

(** ** Degraded context *)

Lemma approval_condition_safer tp ctx a c c' :
  ctx_refines c c' →
  fst (approval_condition_met tp ctx a (Some c')) = true →
  fst (approval_condition_met tp ctx a (Some c)) = true.
Proof.
  intros Hc. unfold approval_condition_met. destruct (tp ≫= tp_requires_approval_if) as [expr|]; [|done].
  destruct (Text.is_empty expr); [done|].
  exact (evaluate_clause_safer expr a (Some (ac_governance_level ctx)) c c' Clause.RequireApproval Hc).
Qed.

Lemma stage_approval_rank doc ctx a c c' :
  ctx_refines c c' →
  rank (default PD.Allow (fst (stage_approval doc ctx a (Some c')))) ≤
  rank (default PD.Allow (fst (stage_approval doc ctx a (Some c)))).
Proof.
  intros Hc. destruct a; simpl; try lia;
    match goal with |- context [approval_condition_met ?tp ctx ?act (Some c')] =>
      pose proof (approval_condition_safer tp ctx act c c' Hc) as H;
      destruct (approval_condition_met tp ctx act (Some c')) as [[] r'];
      destruct (approval_condition_met tp ctx act (Some c)) as [[] r]; simpl in *; try lia;
      by specialize (H eq_refl)
    end.
Qed.

Lemma doc_verdict_safer doc ctx a c c' :
  ctx_refines c c' →
  rank (doc_verdict ctx a (Some c') doc) ≤ rank (doc_verdict ctx a (Some c) doc).
Proof.
  intros Hc. unfold doc_verdict, evaluate_single_doc.
  destruct (stage_network doc a); [simpl; lia|]. destruct (stage_tool_allow doc a); [simpl; lia|].
  destruct (stage_capability doc a); [simpl; lia|].
  pose proof (stage_approval_rank doc ctx a c c' Hc) as H.
  destruct (stage_approval doc ctx a (Some c')), (stage_approval doc ctx a (Some c)). exact H.
Qed.

(** Losing part of the live context never loosens a cascade's verdict: with a
    context that answers fewer lookups the merged decision is at least as
    restrictive. *)
Theorem merge_degraded_context cascade ctx a c c' :
  ctx_refines c c' →
  rank (merge_decisions content_digest cascade ctx a (Some c')) ≤
  rank (merge_decisions content_digest cascade ctx a (Some c)).
Proof.
  intros Hc. destruct cascade as [|d0 l0]; [done|]. rewrite !merge_decisions_rank by done.
  generalize (d0 :: l0). intros l. induction l as [|d l IH]; simpl; [lia|].
  pose proof (doc_verdict_safer d ctx a c c' Hc). lia.
Qed.

Lemma doc_verdict_permits doc ctx a policy_ctx caps cap :
  pd_capabilities doc = Some caps → action_to_capability a = Some cap →
  is_deny (doc_verdict ctx a policy_ctx doc) = false → permits caps cap = true.
Proof.
  intros Hcaps Hcap. unfold doc_verdict, evaluate_single_doc, permits.
  destruct (stage_network doc a) as [d|] eqn:Hn.
  { assert (is_deny d = true) as Hd by (destruct a; simplify_eq/=; repeat case_match; by simplify_eq).
    simpl. by rewrite Hd. }
  destruct (stage_tool_allow doc a) as [d|] eqn:Ht.
  { assert (is_deny d = true) as Hd by (destruct a; simplify_eq/=; repeat case_match; by simplify_eq).
    simpl. by rewrite Hd. }
  unfold stage_capability. rewrite Hcaps, Hcap.
  destruct (capability_is_denied (cs_deny caps) cap); [done|].
  destruct (allow_is_restricted caps); simpl; [|done].
  by destruct (set_contains (cs_allow caps) cap).
Qed.

(** An action the cascade does not deny exercises a capability that every
    document of the cascade that states capabilities permits. *)
Theorem merge_respects_capabilities cascade ctx a policy_ctx doc caps cap :
  is_deny (merge_decisions content_digest cascade ctx a policy_ctx) = false →
  doc ∈ cascade → pd_capabilities doc = Some caps → action_to_capability a = Some cap →
  permits caps cap = true.
Proof.
  intros Hm Hdoc Hcaps Hcap. apply (doc_verdict_permits doc ctx a policy_ctx); try done.
  assert (cascade ≠ []) as Hne by (intros ->; by apply not_elem_of_nil in Hdoc).
  pose proof (merge_decisions_rank cascade ctx a policy_ctx Hne) as Hr.
  pose proof (max_rank_ge (map (doc_verdict ctx a policy_ctx) cascade) (doc_verdict ctx a policy_ctx doc)
    ltac:(apply list_elem_of_fmap; eauto)).
  destruct (merge_decisions _ _ _ _ _); simpl in *; try done; destruct (doc_verdict _ _ _ doc); simpl in *; done || lia.
Qed.
End MergeProps.

(** ** The active-hours window *)

Lemma code_digit_char d : 0 ≤ d < 10 → code (digit_char d) = 48 + d.
Proof.
  intros H. unfold code, digit_char, ascii_of_nat. rewrite N_ascii_embedding by lia. lia.
Qed.

Lemma two_digits_ltb n m k k' :
  0 ≤ n < 100 → 0 ≤ m < 100 →
  str_ltb (two_digits n k) (two_digits m k') = (n <? m) || ((n =? m) && str_ltb k k').
Proof.
  intros Hn Hm. pose proof (Z.div_mod n 10 ltac:(lia)). pose proof (Z.div_mod m 10 ltac:(lia)).
  pose proof (Z.mod_pos_bound n 10 ltac:(lia)). pose proof (Z.mod_pos_bound m 10 ltac:(lia)).
  unfold two_digits. cbn [str_ltb]. rewrite !code_digit_char by lia.
  destruct (str_ltb k k'); rewrite ?andb_true_r, ?andb_false_r, ?orb_false_r;
    apply eq_bool_prop_intro; rewrite !Is_true_true, ?orb_true_iff, ?andb_true_iff, ?orb_true_iff,
      ?andb_true_iff, !Z.ltb_lt, ?Z.eqb_eq; lia.
Qed.

Lemma hhmm_ltb h m h' m' :
  0 ≤ h < 100 → 0 ≤ m < 60 → 0 ≤ h' < 100 → 0 ≤ m' < 60 →
  str_ltb (hhmm h m) (hhmm h' m') = (60 * h + m <? 60 * h' + m').
Proof.
  intros Hh Hm Hh' Hm'. unfold hhmm. rewrite two_digits_ltb by lia.
  change (str_ltb (String ":" ?x) (String ":" ?y)) with (str_ltb x y).
  rewrite two_digits_ltb by lia. simpl (str_ltb "" ""). rewrite andb_false_r, orb_false_r.
  apply eq_bool_prop_intro. rewrite !Is_true_true, orb_true_iff, andb_true_iff, !Z.ltb_lt, Z.eqb_eq. lia.
Qed.

(** With active hours written as two-digit hours and minutes, the schedule stage
    lets a request through exactly when the local minute of the day is in the
    half-open window from start to end; a window whose end is not after its start
    admits no instant. *)
Theorem schedule_window {C : ChronoLib} {CL : ChronoLaws C} doc ah zone now h1 m1 h2 m2 :
  pd_schedule doc = Some {| sp_active_hours := Some ah |} →
  tz_parse (ah_timezone ah) = Some zone →
  ah_start ah = hhmm h1 m1 → ah_end ah = hhmm h2 m2 →
  0 ≤ h1 < 24 → 0 ≤ m1 < 60 → 0 ≤ h2 < 24 → 0 ≤ m2 < 60 →
  let '(h, m) := local_hour_minute zone now in
  stage_schedule_at doc now = None ↔ 60 * h1 + m1 ≤ 60 * h + m < 60 * h2 + m2.
Proof.
  intros Hs Hz Hst Hen ? ? ? ?. unfold stage_schedule_at. rewrite Hs. cbn [mbind option_bind sp_active_hours].
  rewrite Hz. pose proof (local_hour_bound zone now). pose proof (local_minute_bound zone now).
  destruct (local_hour_minute zone now) as [h m]. cbn [fst snd] in *. rewrite Hst, Hen, !hhmm_ltb by lia.
  destruct (Z.ltb_spec (60 * h + m) (60 * h1 + m1)), (Z.ltb_spec (60 * h + m) (60 * h2 + m2)); cbn [orb negb];
    split; intros; try done; lia.
Qed.

Lemma find_map_none {A B} (f : A → option B) l : find_map f l = None ↔ ∀ x, x ∈ l → f x = None.
Proof.
  induction l as [|x l IH]; simpl.
  - split; [|done]. intros _ x Hx. by apply not_elem_of_nil in Hx.
  - setoid_rewrite elem_of_cons. destruct (f x) eqn:E.
    + split; [done|]. intros H. by rewrite (H x (or_introl eq_refl)) in E.
    + rewrite IH. split; [|auto]. intros H y [->|Hy]; auto.
Qed.

(** The schedule of a cascade lets a request through when every document's does. *)
Lemma schedule_cascade_none {C : ChronoLib} cascade now :
  evaluate_schedule_cascade cascade now = None ↔
  ∀ doc, doc ∈ cascade → stage_schedule_at doc now = None.
Proof. apply find_map_none. Qed.

(** ** Witnesses *)

Definition sample_agent : AgentContext := {|
  ac_agent_id := 1%N; ac_session_id := 1%N; ac_pid := 7; ac_started_at := 0; ac_metadata := ∅;
  ac_governance_level := L2Enforce; ac_parent_agent_id := None; ac_team_id := None; ac_depth := 0;
  ac_delegation_reason := None; ac_spawned_by_tool := None; ac_root_agent_id := None;
|}.

Definition office_hours : ActiveHours :=
  {| ah_start := "09:00"; ah_end := "17:30"; ah_timezone := "UTC" |}.

Definition set_schedule (d : PolicyDocument) (s : SchedulePolicy) : PolicyDocument := {|
  pd_name := pd_name d; pd_policy_version := pd_policy_version d; pd_version := pd_version d;
  pd_scope := pd_scope d; pd_network := pd_network d; pd_schedule := Some s; pd_budget := pd_budget d;
  pd_data := pd_data d; pd_approval_timeout_secs := pd_approval_timeout_secs d;
  pd_approval_policy := pd_approval_policy d; pd_tools := pd_tools d;
  pd_capabilities := pd_capabilities d; pd_filesystem := pd_filesystem d;
  pd_syscall_allowlist := pd_syscall_allowlist d; pd_leases := pd_leases d; pd_egress := pd_egress d;
  pd_credentials := pd_credentials d |}.

Definition set_tools (d : PolicyDocument) (tools : gmap string ToolPolicy) : PolicyDocument := {|
  pd_name := pd_name d; pd_policy_version := pd_policy_version d; pd_version := pd_version d;
  pd_scope := pd_scope d; pd_network := pd_network d; pd_schedule := pd_schedule d;
  pd_budget := pd_budget d; pd_data := pd_data d;
  pd_approval_timeout_secs := pd_approval_timeout_secs d;
  pd_approval_policy := pd_approval_policy d; pd_tools := tools;
  pd_capabilities := pd_capabilities d; pd_filesystem := pd_filesystem d;
  pd_syscall_allowlist := pd_syscall_allowlist d; pd_leases := pd_leases d; pd_egress := pd_egress d;
  pd_credentials := pd_credentials d |}.

Definition set_capabilities (d : PolicyDocument) (c : CapabilitySet) : PolicyDocument := {|
  pd_name := pd_name d; pd_policy_version := pd_policy_version d; pd_version := pd_version d;
  pd_scope := pd_scope d; pd_network := pd_network d; pd_schedule := pd_schedule d;
  pd_budget := pd_budget d; pd_data := pd_data d;
  pd_approval_timeout_secs := pd_approval_timeout_secs d;
  pd_approval_policy := pd_approval_policy d; pd_tools := pd_tools d;
  pd_capabilities := Some c; pd_filesystem := pd_filesystem d;
  pd_syscall_allowlist := pd_syscall_allowlist d; pd_leases := pd_leases d; pd_egress := pd_egress d;
  pd_credentials := pd_credentials d |}.

Definition approval_tool (expr : string) : ToolPolicy :=
  {| tp_allow := true; tp_limit_per_hour := None; tp_requires_approval_if := Some expr;
     tp_capabilities := None |}.

Definition global_doc : PolicyDocument := empty_document Scope.Global.
Definition guarded_doc : PolicyDocument :=
  set_tools (empty_document (Scope.Team "core"))
    {[ "*"%string := approval_tool "agent.depth > 1" ]}.
Definition reader_doc : PolicyDocument := set_capabilities global_doc (allow_only FileRead).

Definition no_digest (d : PolicyDocument) : string := scope_display (U := binary_uuid) (pd_scope d).

Lemma schedule_window_witness :
  stage_schedule_at (C := utc_only)
    (set_schedule global_doc {| sp_active_hours := Some office_hours |}) (17 * 3600000000000 + 29 * 60000000000) = None.
Proof.
  apply (schedule_window (C := utc_only) (CL := utc_only_laws)
    (set_schedule global_doc {| sp_active_hours := Some office_hours |}) office_hours tt
    (17 * 3600000000000 + 29 * 60000000000) 9 0 17 30); try reflexivity; try lia.
  vm_compute. split; [discriminate|reflexivity].
Defined.

Lemma merge_monotone_witness :
  rank (merge_decisions (JS := text_json) (HT := no_durations) no_digest [global_doc] sample_agent
          (ToolCall "bash" "") (Some up_context)) ≤
  rank (merge_decisions (JS := text_json) (HT := no_durations) no_digest [guarded_doc; global_doc]
          sample_agent (ToolCall "bash" "") (Some up_context)).
Proof.
  apply merge_monotone; [discriminate|]. intros d Hd. by right.
Defined.

Lemma merge_attribution_witness :
  ∃ doc, doc ∈ [guarded_doc; global_doc] ∧ Some "team:core"%string = Some (no_digest doc) ∧
    doc_verdict (JS := text_json) (HT := no_durations) sample_agent (ToolCall "bash" "")
      (Some up_context) doc = PD.RequireApproval "approval required for tool 'bash'" 300.
Proof.
  apply (merge_attribution (JS := text_json) (HT := no_durations) no_digest [guarded_doc; global_doc]
           sample_agent (ToolCall "bash" "") (Some up_context)).
  vm_compute. reflexivity.
Defined.

Lemma merge_degraded_context_witness :
  rank (merge_decisions (JS := text_json) (HT := no_durations) no_digest [guarded_doc] sample_agent
          (ToolCall "bash" "") (Some up_context)) ≤
  rank (merge_decisions (JS := text_json) (HT := no_durations) no_digest [guarded_doc] sample_agent
          (ToolCall "bash" "") (Some down_context)).
Proof. apply merge_degraded_context, down_refines_up. Defined.

Lemma merge_respects_capabilities_witness : permits (allow_only FileRead) FileRead = true.
Proof.
  apply (merge_respects_capabilities (JS := text_json) (HT := no_durations) no_digest
           [global_doc; reader_doc] sample_agent (FileAccess "/x" Read) None reader_doc);
    [vm_compute; reflexivity|right; left|reflexivity|reflexivity].
Defined.
