(* ===== verification/Budget.v ===== *)
(** * Budget: spend windows and prices

    aa-gateway/src/budget/types.rs (spend states and their window resets),
    aa-gateway/src/budget/pricing.rs (the pricing table) and aa-core/src/llm.rs
    (model inference).  Clock readings are arguments; amounts are decimals. *)

From stdpp Require Import base gmap strings list.
From Stdlib Require Import ZArith QArith Lia Bool String.
From S2P Require Import Prelude.
From S2P Require Import Text.
From S2P Require Import Float64.
From S2P Require Import CoreTypes.
From S2P Require Import External.

Open Scope Z_scope.

Inductive BudgetKind := Daily | Monthly | Global.

#[export] Instance BudgetKind_eq_dec : EqDecision BudgetKind.
Proof. solve_decision. Defined.

Module Window.
(** The interval of a [Duration] window, in nanoseconds. *)
Inductive BudgetWindow := Daily | Duration (interval : Z).
End Window.
Abbreviation BudgetWindow := Window.BudgetWindow.

Inductive BudgetError :=
| AncestorBudgetExhausted (ancestor_id : AgentId) (kind : BudgetKind)
| SelfBudgetExhausted (kind : BudgetKind)
| TenantBudgetExhausted (tier : string) (kind : BudgetKind)
| StateUnavailable.

#[export] Instance BudgetError_eq_dec : EqDecision BudgetError.
Proof. solve_decision. Defined.

Inductive BudgetStatus :=
| WithinBudget (spent_usd remaining_usd : f64)
| ThresholdAlert (pct : Z)
| LimitExceeded.

Record BudgetAlert := {
  al_agent_id : AgentId;
  al_team_id : option string;
  al_threshold_pct : Z;
  al_spent_usd : f64;
  al_limit_usd : f64;
}.

Section Windows.
Context {D : DecimalLib} {C : ChronoLib}.

Record BudgetState := {
  bs_spent_usd : dec;
  bs_date : Z;
  bs_month : Z;
  bs_monthly_spent_usd : option dec;
  bs_last_reset_at : option Z;
}.

Record SubtreeSpend := {
  ss_tokens : Z;
  ss_usd : dec;
  ss_agents_counted : nat;
}.

Definition month_tag (date : Z) : Z := date_year date * 100 + date_month date.

Definition new_for_date (date : Z) : BudgetState := {|
  bs_spent_usd := dec_zero; bs_date := date; bs_month := month_tag date;
  bs_monthly_spent_usd := None; bs_last_reset_at := None |}.

Definition new_today (now : Z) : BudgetState := new_for_date (local_date tz_utc now).

(** The month half of the resets: zero the monthly total when the month changed. *)
Definition reset_month (s : BudgetState) (today : Z) : BudgetState :=
  let current_month := month_tag today in
  if current_month =? bs_month s then s
  else {| bs_spent_usd := bs_spent_usd s; bs_date := bs_date s; bs_month := current_month;
          bs_monthly_spent_usd := option_map (λ _, dec_zero) (bs_monthly_spent_usd s);
          bs_last_reset_at := bs_last_reset_at s |}.

Definition maybe_reset (s : BudgetState) (today : Z) : BudgetState :=
  let s := reset_month s today in
  if bs_date s <? today
  then {| bs_spent_usd := dec_zero; bs_date := today; bs_month := bs_month s;
          bs_monthly_spent_usd := bs_monthly_spent_usd s; bs_last_reset_at := bs_last_reset_at s |}
  else s.

(** [signed_duration_since(..).to_std().unwrap_or(ZERO)]: a negative difference is
    read as zero. *)
Definition elapsed_since (now anchor : Z) : Z := Z.max 0 (now - anchor).

Definition maybe_reset_window (s : BudgetState) (now : Z) (window : BudgetWindow) (zone : tz)
  : BudgetState :=
  match window with
  | Window.Daily => maybe_reset s (local_date zone now)
  | Window.Duration interval =>
      let today := local_date zone now in
      let s := reset_month s today in
      match bs_last_reset_at s with
      | None =>
          {| bs_spent_usd := bs_spent_usd s; bs_date := bs_date s; bs_month := bs_month s;
             bs_monthly_spent_usd := bs_monthly_spent_usd s; bs_last_reset_at := Some now |}
      | Some anchor =>
          if interval <=? elapsed_since now anchor
          then {| bs_spent_usd := dec_zero; bs_date := today; bs_month := bs_month s;
                  bs_monthly_spent_usd := bs_monthly_spent_usd s; bs_last_reset_at := Some now |}
          else s
      end
  end.

(** ** Window lemmas *)

Lemma reset_month_idemp s d : reset_month (reset_month s d) d = reset_month s d.
Proof.
  unfold reset_month. destruct (month_tag d =? bs_month s) eqn:E; simpl; [by rewrite E|].
  by rewrite Z.eqb_refl.
Qed.

Lemma reset_month_fields s d :
  bs_date (reset_month s d) = bs_date s ∧ bs_spent_usd (reset_month s d) = bs_spent_usd s ∧
  bs_last_reset_at (reset_month s d) = bs_last_reset_at s ∧ bs_month (reset_month s d) = month_tag d.
Proof.
  unfold reset_month. destruct (Z.eqb_spec (month_tag d) (bs_month s)); simpl; by subst.
Qed.

Lemma reset_month_same s d : bs_month s = month_tag d → reset_month s d = s.
Proof. intros H. unfold reset_month. by rewrite H, Z.eqb_refl. Qed.

(** A window reset is idempotent at an instant: repeating it before more spend
    is recorded changes nothing, whatever the rollover strategy, provided a
    duration window has a positive length. *)
Theorem window_reset_idempotent s now window zone :
  match window with Window.Daily => True | Window.Duration i => 0 < i end →
  maybe_reset_window (maybe_reset_window s now window zone) now window zone =
    maybe_reset_window s now window zone.
Proof.
  intros Hi. set (d := local_date zone now).
  destruct (reset_month_fields s d) as (Hdate & _ & Hlast & Hmonth).
  destruct window as [|i]; simpl; fold d.
  - unfold maybe_reset. destruct (bs_date (reset_month s d) <? d) eqn:E.
    + rewrite reset_month_same by done. simpl. by rewrite Z.ltb_irrefl.
    + rewrite reset_month_same by done. by rewrite E.
  - destruct (bs_last_reset_at (reset_month s d)) as [anchor|] eqn:Ea.
    + destruct (i <=? elapsed_since now anchor) eqn:E.
      * rewrite reset_month_same by done. simpl.
        assert ((i <=? elapsed_since now now) = false) as -> by (apply Z.leb_gt; unfold elapsed_since; lia). done.
      * rewrite reset_month_same by done. by rewrite Ea, E.
    + rewrite reset_month_same by done. simpl.
      assert ((i <=? elapsed_since now now) = false) as -> by (apply Z.leb_gt; unfold elapsed_since; lia). done.
Qed.

(** What a daily reset leaves: today's spend is kept within the stored day or
    when the clock stepped back, and zeroed on a later day. *)
Lemma maybe_reset_spent s today :
  bs_spent_usd (maybe_reset s today) = (if bs_date s <? today then dec_zero else bs_spent_usd s) ∧
  bs_monthly_spent_usd (maybe_reset s today) =
    (if month_tag today =? bs_month s then bs_monthly_spent_usd s
     else option_map (λ _, dec_zero) (bs_monthly_spent_usd s)).
Proof.
  unfold maybe_reset. destruct (reset_month_fields s today) as (-> & Hs & _ & _).
  unfold reset_month in *. destruct (bs_date s <? today), (month_tag today =? bs_month s); done.
Qed.
End Windows.

Lemma window_reset_idempotent_witness :
  let s := {| bs_spent_usd := (1 # 1)%Q : @dec rational; bs_date := 3; bs_month := 197001;
              bs_monthly_spent_usd := None; bs_last_reset_at := Some 0 |} in
  @maybe_reset_window rational utc_only
    (@maybe_reset_window rational utc_only s 500 (Window.Duration 200) tt) 500 (Window.Duration 200) tt
  = @maybe_reset_window rational utc_only s 500 (Window.Duration 200) tt.
Proof. apply window_reset_idempotent. reflexivity. Defined.

(** ** Models and prices *)

Inductive Provider := OpenAi | Anthropic | Cohere.
Inductive LlmModel :=
| Gpt4o | Gpt4 | Gpt35Turbo | Claude3Opus | Claude3Sonnet | Claude3Haiku | CommandRPlus | CommandR.

#[export] Instance Provider_eq_dec : EqDecision Provider.
Proof. solve_decision. Defined.
#[export] Instance LlmModel_eq_dec : EqDecision LlmModel.
Proof. solve_decision. Defined.

Definition infer_from_name (name : string) : option (Provider * LlmModel) :=
  let n := to_ascii_lowercase name in
  if contains n "gpt-4o" || contains n "gpt4o" then Some (OpenAi, Gpt4o)
  else if contains n "gpt-3.5" || contains n "gpt35" || contains n "gpt-35" then Some (OpenAi, Gpt35Turbo)
  else if contains n "gpt-4" || contains n "gpt4" then Some (OpenAi, Gpt4)
  else if contains n "opus" then Some (Anthropic, Claude3Opus)
  else if contains n "sonnet" then Some (Anthropic, Claude3Sonnet)
  else if contains n "haiku" then Some (Anthropic, Claude3Haiku)
  else if contains n "command-r-plus" || contains n "command-r+" then Some (Cohere, CommandRPlus)
  else if contains n "command-r" then Some (Cohere, CommandR)
  else None.

Section Pricing.
Context {D : DecimalLib}.

Record PricingEntry := { pe_input_per_1k_usd : dec; pe_output_per_1k_usd : dec }.

(** The entries as an association list: later bindings are found first. *)
Record PricingTable := {
  pt_entries : list ((Provider * LlmModel) * PricingEntry);
  pt_fallback : PricingEntry;
}.

Fixpoint entry_lookup (key : Provider * LlmModel) (l : list ((Provider * LlmModel) * PricingEntry))
  : option PricingEntry :=
  match l with
  | [] => None
  | (k, e) :: l' => if decide (k = key) then Some e else entry_lookup key l'
  end.

Definition pricing_row p m (inp out : Z * Z) : (Provider * LlmModel) * PricingEntry :=
  ((p, m), {| pe_input_per_1k_usd := dec_new (fst inp) (snd inp);
              pe_output_per_1k_usd := dec_new (fst out) (snd out) |}).

Definition default_table : PricingTable := {|
  pt_entries :=
    [ pricing_row OpenAi Gpt4o (5, 3) (15, 3);
      pricing_row OpenAi Gpt4 (3, 2) (6, 2);
      pricing_row OpenAi Gpt35Turbo (5, 4) (15, 4);
      pricing_row Anthropic Claude3Opus (15, 3) (75, 3);
      pricing_row Anthropic Claude3Sonnet (3, 3) (15, 3);
      pricing_row Anthropic Claude3Haiku (25, 5) (125, 5);
      pricing_row Cohere CommandRPlus (3, 3) (15, 3);
      pricing_row Cohere CommandR (5, 4) (15, 4) ];
  pt_fallback := {| pe_input_per_1k_usd := dec_new 15 3; pe_output_per_1k_usd := dec_new 75 3 |};
|}.

(** [load_from_json_str] after the JSON rows are decoded: overrides on the
    defaults. *)
Definition with_overrides (rows : list ((Provider * LlmModel) * PricingEntry)) : PricingTable := {|
  pt_entries := rev rows ++ pt_entries default_table;
  pt_fallback := pt_fallback default_table |}.

Definition entry_cost (e : PricingEntry) (input_tokens output_tokens : Z) : dec :=
  let input_cost := dec_div (dec_mul (pe_input_per_1k_usd e) (dec_of_Z input_tokens)) (dec_of_Z 1000) in
  let output_cost := dec_div (dec_mul (pe_output_per_1k_usd e) (dec_of_Z output_tokens)) (dec_of_Z 1000) in
  dec_add input_cost output_cost.

Definition fallback_cost_usd (t : PricingTable) (input_tokens output_tokens : Z) : dec :=
  entry_cost (pt_fallback t) input_tokens output_tokens.

Definition cost_usd (t : PricingTable) (provider : Provider) (model : LlmModel)
  (input_tokens output_tokens : Z) : dec :=
  match entry_lookup (provider, model) (pt_entries t) with
  | Some e => entry_cost e input_tokens output_tokens
  | None => fallback_cost_usd t input_tokens output_tokens
  end.

Definition pricing_entry (t : PricingTable) (provider : Provider) (model : LlmModel)
  : option PricingEntry := entry_lookup (provider, model) (pt_entries t).

Context {L : DecimalLaws D}.

Lemma representable_fraction q m s :
  Z.abs m < 2 ^ 96 → 0 ≤ s ≤ 28 → (q == inject_Z m / inject_Z (10 ^ s))%Q → representable q.
Proof. intros. by exists m, s. Qed.

Lemma ten_pow_neq s : 0 ≤ s → ¬ (inject_Z (10 ^ s) == 0)%Q.
Proof. intros Hs H. pose proof (Z.pow_pos_nonneg 10 s). unfold Qeq, inject_Z in H. simpl in H. lia. Qed.

Lemma ten_pow_three s : 0 ≤ s → (inject_Z (10 ^ (s + 3)) == inject_Z (10 ^ s) * 1000)%Q.
Proof. intros Hs. rewrite Z.pow_add_r by lia. by rewrite inject_Z_mult. Qed.

(** The cost of the input tokens at a rate of the tables, which is exact for any [u64]. *)
Lemma rate_val m s tokens :
  0 ≤ m < 128 → 0 ≤ s ≤ 25 → 0 ≤ tokens < 2 ^ 64 →
  (dec_val (dec_div (dec_mul (dec_new m s) (dec_of_Z tokens)) (dec_of_Z 1000)) ==
   inject_Z (m * tokens) / inject_Z (10 ^ (s + 3)))%Q.
Proof.
  intros Hm Hs Ht. pose proof (ten_pow_neq s ltac:(lia)) as Hne. pose proof (ten_pow_three s ltac:(lia)) as H3.
  assert (Z.abs (m * tokens) < 2 ^ 96) as Hb by nia.
  assert (dec_val (dec_new m s) * dec_val (dec_of_Z tokens) == inject_Z (m * tokens) / inject_Z (10 ^ s))%Q as Hmul.
  { rewrite dec_val_new, dec_val_of_Z, inject_Z_mult by lia. field. done. }
  assert (dec_val (dec_mul (dec_new m s) (dec_of_Z tokens)) == inject_Z (m * tokens) / inject_Z (10 ^ s))%Q as Hmv.
  { rewrite dec_val_mul; [done|]. apply (representable_fraction _ (m * tokens) s); [lia..|done]. }
  assert (dec_val (dec_of_Z 1000) == 1000)%Q as Hk by (rewrite dec_val_of_Z by lia; reflexivity).
  assert (dec_val (dec_mul (dec_new m s) (dec_of_Z tokens)) / dec_val (dec_of_Z 1000) ==
          inject_Z (m * tokens) / inject_Z (10 ^ (s + 3)))%Q as Hdiv by (rewrite Hmv, Hk, H3; field; done).
  rewrite dec_val_div; [done|rewrite Hk; done|].
  apply (representable_fraction _ (m * tokens) (s + 3)); [lia..|done].
Qed.

Lemma input_cost_val m s m' s' tokens :
  0 ≤ m < 128 → 0 ≤ s ≤ 25 → 0 ≤ m' < 128 → 0 ≤ s' ≤ 25 → 0 ≤ tokens < 2 ^ 64 →
  (dec_val (entry_cost {| pe_input_per_1k_usd := dec_new m s; pe_output_per_1k_usd := dec_new m' s' |} tokens 0) ==
   inject_Z (m * tokens) / inject_Z (10 ^ (s + 3)))%Q.
Proof.
  intros Hm Hs Hm' Hs' Ht. unfold entry_cost. cbn [pe_input_per_1k_usd pe_output_per_1k_usd].
  pose proof (rate_val m s tokens Hm Hs Ht) as Hin. pose proof (rate_val m' s' 0 Hm' Hs' ltac:(lia)) as Hout.
  pose proof (ten_pow_neq (s' + 3) ltac:(lia)) as Hne'.
  match goal with |- (dec_val (dec_add ?x ?y) == ?q)%Q => assert (dec_val x + dec_val y == q)%Q as Hsum end.
  { assert (inject_Z 0 / inject_Z (10 ^ (s' + 3)) == 0)%Q as H0 by (change (inject_Z 0) with 0%Q; field; done).
    rewrite Hin, Hout, Z.mul_0_r, H0. apply Qplus_0_r. }
  rewrite dec_val_add; [done|]. apply (representable_fraction _ (m * tokens) (s + 3)); [nia|lia|done].
Qed.

(** The fallback rate for unrecognised models is not the costliest known rate:
    whatever number of input tokens is charged, with no output tokens, GPT-4 of the
    default table costs twice the fallback. *)
Theorem gpt4_input_dearer_than_fallback tokens :
  0 < tokens < 2 ^ 64 →
  (dec_val (cost_usd default_table OpenAi Gpt4 tokens 0) ==
     2 * dec_val (fallback_cost_usd default_table tokens 0))%Q ∧
  dec_leb (cost_usd default_table OpenAi Gpt4 tokens 0)
          (fallback_cost_usd default_table tokens 0) = false.
Proof.
  intros Ht.
  assert (dec_val (cost_usd default_table OpenAi Gpt4 tokens 0) == inject_Z (3 * tokens) / inject_Z (10 ^ (2 + 3)))%Q as Hg.
  { unfold cost_usd. simpl. apply input_cost_val; lia. }
  assert (dec_val (fallback_cost_usd default_table tokens 0) == inject_Z (15 * tokens) / inject_Z (10 ^ (3 + 3)))%Q as Hf.
  { unfold fallback_cost_usd. apply input_cost_val; lia. }
  rewrite inject_Z_mult in Hg, Hf. change (inject_Z (10 ^ (2 + 3))) with (100000%Q) in Hg.
  change (inject_Z (10 ^ (3 + 3))) with (1000000%Q) in Hf. change (inject_Z 3) with 3%Q in Hg. change (inject_Z 15) with 15%Q in Hf.
  split; [rewrite Hg, Hf; field|].
  apply not_true_iff_false. rewrite dec_leb_val, Hg, Hf. apply Qlt_not_le.
  unfold Qlt, Qdiv, Qmult, Qinv, inject_Z. simpl. lia.
Qed.
End Pricing.

Lemma gpt4_input_dearer_than_fallback_witness :
  @dec_leb rational (@cost_usd rational default_table OpenAi Gpt4 1000 0)
    (@fallback_cost_usd rational default_table 1000 0) = false.
Proof.
  apply (@gpt4_input_dearer_than_fallback rational rational_laws 1000). split; reflexivity.
Defined.
