(* ===== verification/BudgetTracker.v ===== *)
(** * BudgetTracker: spend accounting across agents, teams and organisations

    aa-gateway/src/budget/tracker.rs and rollup.rs.  The tracker is its
    configuration and its ledger; an operation takes the ledger and gives the new
    one.  The alerts an operation broadcasts are the records of the writer [W].
    Every read of the wall clock is an argument.  The mutexes serialise the
    operations, which are therefore steps on the ledger here. *)

From stdpp Require Import base gmap strings list fin_maps.
From Stdlib Require Import ZArith QArith Lqa Lia Bool String.
From S2P Require Import Prelude.
From S2P Require Import Text.
From S2P Require Import Float64.
From S2P Require Import CoreTypes.
From S2P Require Import External.
From S2P Require Import Budget.

Open Scope Z_scope.
Open Scope aasm_scope.

Definition ALERT_PCT_HIGH : Z := 95.
Definition ALERT_PCT_LOW : Z := 80.

Section Tracker.
Context {D : DecimalLib} {C : ChronoLib}.

Definition dec_geb (x y : dec) : bool := dec_leb y x.
Definition dec_gtb (x y : dec) : bool := negb (dec_leb x y).
Definition dec_max (x y : dec) : dec := if dec_leb x y then y else x.
Definition f64_or_zero (x : dec) : f64 := default (f64_of_Z 0) (dec_to_f64 x).

Record AgentLimit := { lim_daily_usd : option dec; lim_monthly_usd : option dec }.

(** The fields of the tracker no operation changes. *)
Record Config := {
  cf_pricing : PricingTable;
  cf_daily_limit_usd : option dec;
  cf_monthly_limit_usd : option dec;
  cf_team_daily_limit_usd : option dec;
  cf_team_monthly_limit_usd : option dec;
  cf_org_daily_limit_usd : option dec;
  cf_org_monthly_limit_usd : option dec;
  cf_agent_limits : gmap AgentId AgentLimit;
  cf_timezone : tz;
  cf_window : BudgetWindow;
  cf_degraded : bool;
}.

(** The fields it does. *)
Record Ledger := {
  lg_per_agent : gmap AgentId BudgetState;
  lg_team_budgets : gmap string BudgetState;
  lg_org_budgets : gmap string BudgetState;
  lg_global : BudgetState;
  lg_spend_history : gmap AgentId (gmap Z dec);
}.

Implicit Types (cfg : Config) (lg : Ledger).

Definition new_ledger (zone : tz) (now : Z) : Ledger := {|
  lg_per_agent := ∅; lg_team_budgets := ∅; lg_org_budgets := ∅;
  lg_global := new_for_date (local_date zone now); lg_spend_history := ∅ |}.

Definition compute_status (spent limit : dec) : BudgetStatus :=
  if dec_geb spent limit then LimitExceeded
  else
    let pct := default 100 (dec_to_u8 (dec_round0 (dec_mul (dec_div spent limit) (dec_of_Z 100)))) in
    let spent_f := f64_or_zero spent in
    let limit_f := f64_or_zero limit in
    if ALERT_PCT_HIGH <=? pct then ThresholdAlert ALERT_PCT_HIGH
    else if ALERT_PCT_LOW <=? pct then ThresholdAlert ALERT_PCT_LOW
    else WithinBudget spent_f (f64_sub limit_f spent_f).

(** Add to a spend state whose window was brought up to date. *)
Definition add_spend (s : BudgetState) (cost : dec) : BudgetState := {|
  bs_spent_usd := dec_add (bs_spent_usd s) cost; bs_date := bs_date s; bs_month := bs_month s;
  bs_monthly_spent_usd := option_map (λ m, dec_add m cost) (bs_monthly_spent_usd s);
  bs_last_reset_at := bs_last_reset_at s |}.

(** The state [or_insert_with] creates. *)
Definition fresh_spend (cost : dec) (has_monthly : bool) (now today : Z) (window : BudgetWindow)
  : BudgetState := {|
  bs_spent_usd := dec_add dec_zero cost; bs_date := today; bs_month := month_tag today;
  bs_monthly_spent_usd := if has_monthly then Some cost else None;
  bs_last_reset_at := match window with Window.Duration _ => Some now | Window.Daily => None end |}.

Definition accumulate_spend {K} `{Countable K} (budgets : gmap K BudgetState) (key : K) (cost : dec)
  (has_monthly : bool) (now today : Z) (window : BudgetWindow) (zone : tz) : gmap K BudgetState :=
  match budgets !! key with
  | Some s => <[key := add_spend (maybe_reset_window s now window zone) cost]> budgets
  | None => <[key := fresh_spend cost has_monthly now today window]> budgets
  end.

Definition resolve_limit cfg (agent_id : AgentId) (kind : BudgetKind) : option dec :=
  let own (f : AgentLimit → option dec) := cf_agent_limits cfg !! agent_id ≫= f in
  match kind with
  | Daily => match own lim_daily_usd with Some l => Some l | None => cf_daily_limit_usd cfg end
  | Monthly => match own lim_monthly_usd with Some l => Some l | None => cf_monthly_limit_usd cfg end
  | Global => None
  end.

(** ** Read checks; they write the reset state back *)

Definition reset_agent cfg lg (agent_id : AgentId) (now : Z) : option BudgetState * Ledger :=
  match lg_per_agent lg !! agent_id with
  | None => (None, lg)
  | Some s =>
      let s' := maybe_reset_window s now (cf_window cfg) (cf_timezone cfg) in
      (Some s', {| lg_per_agent := <[agent_id := s']> (lg_per_agent lg);
                   lg_team_budgets := lg_team_budgets lg; lg_org_budgets := lg_org_budgets lg;
                   lg_global := lg_global lg; lg_spend_history := lg_spend_history lg |})
  end.

Definition check_daily cfg lg (agent_id : AgentId) (limit : dec) (now : Z) : Ledger * bool :=
  if cf_degraded cfg then (lg, true)
  else match reset_agent cfg lg agent_id now with
       | (Some s, lg') => (lg', dec_geb (bs_spent_usd s) limit)
       | (None, lg') => (lg', false)
       end.

Definition check_monthly cfg lg (agent_id : AgentId) (limit : dec) (now : Z) : Ledger * bool :=
  if cf_degraded cfg then (lg, true)
  else match reset_agent cfg lg agent_id now with
       | (Some s, lg') =>
           (lg', match bs_monthly_spent_usd s with Some m => dec_geb m limit | None => false end)
       | (None, lg') => (lg', false)
       end.

(** ** Recording a cost *)

Definition check_limit_and_alert (agent_id : AgentId) (team_id : option string) (spent limit : dec)
  : W BudgetAlert BudgetStatus :=
  let status := compute_status spent limit in
  (status,
   match status with
   | ThresholdAlert pct =>
       [ {| al_agent_id := agent_id; al_team_id := team_id; al_threshold_pct := pct;
            al_spent_usd := f64_or_zero spent; al_limit_usd := f64_or_zero limit |} ]
   | _ => []
   end).

Definition is_exceeded (s : BudgetStatus) : bool :=
  match s with LimitExceeded => true | _ => false end.

Definition spend_exceeds (agent_id : AgentId) (alert_team_id : option string) (spent limit : dec)
  : W BudgetAlert bool :=
  let* status := check_limit_and_alert agent_id alert_team_id spent limit in
  w_ret (is_exceeded status).

Definition tier_limit_exceeded (budgets : gmap string BudgetState) (key : string) (agent_id : AgentId)
  (alert_team_id : option string) (monthly_limit daily_limit : option dec) : W BudgetAlert bool :=
  let* monthly := match monthly_limit, budgets !! key ≫= bs_monthly_spent_usd with
                  | Some limit, Some spent => spend_exceeds agent_id alert_team_id spent limit
                  | _, _ => w_ret false
                  end in
  if monthly then w_ret true
  else match daily_limit, budgets !! key with
       | Some limit, Some s => spend_exceeds agent_id alert_team_id (bs_spent_usd s) limit
       | _, _ => w_ret false
       end.

Definition has_monthly cfg : bool :=
  match cf_monthly_limit_usd cfg, cf_team_monthly_limit_usd cfg, cf_org_monthly_limit_usd cfg with
  | None, None, None => false
  | _, _, _ => true
  end.

Definition set_agents lg m : Ledger := {|
  lg_per_agent := m; lg_team_budgets := lg_team_budgets lg; lg_org_budgets := lg_org_budgets lg;
  lg_global := lg_global lg; lg_spend_history := lg_spend_history lg |}.
Definition set_teams lg m : Ledger := {|
  lg_per_agent := lg_per_agent lg; lg_team_budgets := m; lg_org_budgets := lg_org_budgets lg;
  lg_global := lg_global lg; lg_spend_history := lg_spend_history lg |}.
Definition set_orgs lg m : Ledger := {|
  lg_per_agent := lg_per_agent lg; lg_team_budgets := lg_team_budgets lg; lg_org_budgets := m;
  lg_global := lg_global lg; lg_spend_history := lg_spend_history lg |}.
Definition set_global lg s : Ledger := {|
  lg_per_agent := lg_per_agent lg; lg_team_budgets := lg_team_budgets lg;
  lg_org_budgets := lg_org_budgets lg; lg_global := s; lg_spend_history := lg_spend_history lg |}.
Definition set_history lg h : Ledger := {|
  lg_per_agent := lg_per_agent lg; lg_team_budgets := lg_team_budgets lg;
  lg_org_budgets := lg_org_budgets lg; lg_global := lg_global lg; lg_spend_history := h |}.

Definition append_history (h : gmap AgentId (gmap Z dec)) (agent_id : AgentId) (today : Z) (cost : dec)
  : gmap AgentId (gmap Z dec) :=
  let days := default ∅ (h !! agent_id) in
  let v := match days !! today with Some v => dec_add v cost | None => cost end in
  <[agent_id := <[today := v]> days]> h.

(** The global accumulator adds to the daily total only. *)
Definition add_global cfg (g : BudgetState) (cost : dec) (now : Z) : BudgetState :=
  let g := maybe_reset_window g now (cf_window cfg) (cf_timezone cfg) in
  {| bs_spent_usd := dec_add (bs_spent_usd g) cost; bs_date := bs_date g; bs_month := bs_month g;
     bs_monthly_spent_usd := bs_monthly_spent_usd g; bs_last_reset_at := bs_last_reset_at g |}.

(** The team and org blocks of [record_cost]: accumulate, then enforce. *)
Definition record_team cfg lg (agent_id : AgentId) (team_id : option string) (cost : dec) (now today : Z)
  : W BudgetAlert (Ledger * bool) :=
  match team_id with
  | None => w_ret (lg, false)
  | Some tid =>
      let lg := set_teams lg (accumulate_spend (lg_team_budgets lg) tid cost (has_monthly cfg) now today
                                (cf_window cfg) (cf_timezone cfg)) in
      let* over := tier_limit_exceeded (lg_team_budgets lg) tid agent_id (Some tid)
                     (cf_team_monthly_limit_usd cfg) (cf_team_daily_limit_usd cfg) in
      w_ret (lg, over)
  end.

Definition record_org cfg lg (agent_id : AgentId) (org_id : option string) (cost : dec) (now today : Z)
  : W BudgetAlert (Ledger * bool) :=
  match org_id with
  | None => w_ret (lg, false)
  | Some oid =>
      let lg := set_orgs lg (accumulate_spend (lg_org_budgets lg) oid cost (has_monthly cfg) now today
                               (cf_window cfg) (cf_timezone cfg)) in
      let* over := tier_limit_exceeded (lg_org_budgets lg) oid agent_id None
                     (cf_org_monthly_limit_usd cfg) (cf_org_daily_limit_usd cfg) in
      w_ret (lg, over)
  end.

(** The agent's own verdict, monthly first. *)
Definition agent_status cfg (agent_id : AgentId) (spent : dec) (monthly_spent : option dec)
  : W BudgetAlert BudgetStatus :=
  let* over := match cf_monthly_limit_usd cfg, monthly_spent with
               | Some limit, Some m_spent =>
                   let* status := check_limit_and_alert agent_id None m_spent limit in
                   w_ret (is_exceeded status)
               | _, _ => w_ret false
               end in
  if over then w_ret LimitExceeded
  else match cf_daily_limit_usd cfg with
       | None => w_ret (WithinBudget (f64_or_zero spent) f64_infinity)
       | Some limit => check_limit_and_alert agent_id None spent limit
       end.

Definition record_cost cfg lg (agent_id : AgentId) (team_id org_id : option string) (cost : dec)
  (now today_at : Z) : W BudgetAlert (Ledger * BudgetStatus) :=
  if cf_degraded cfg then w_ret (lg, LimitExceeded)
  else
    let today := local_date (cf_timezone cfg) today_at in
    let lg := set_agents lg (accumulate_spend (lg_per_agent lg) agent_id cost (has_monthly cfg) now today
                               (cf_window cfg) (cf_timezone cfg)) in
    let lg := set_history lg (append_history (lg_spend_history lg) agent_id today cost) in
    let* (lg, team_over) := record_team cfg lg agent_id team_id cost now today in
    if team_over : bool then w_ret (lg, LimitExceeded)
    else
      let* (lg, org_over) := record_org cfg lg agent_id org_id cost now today in
      if org_over : bool then w_ret (lg, LimitExceeded)
      else
        let '(spent, monthly_spent) :=
          match lg_per_agent lg !! agent_id with
          | Some s => (bs_spent_usd s, bs_monthly_spent_usd s)
          | None => (cost, None)
          end in
        let lg := set_global lg (add_global cfg (lg_global lg) cost now) in
        let* status := agent_status cfg agent_id spent monthly_spent in
        w_ret (lg, status).

Definition record_raw_spend cfg lg agent_id team_id org_id (amount_usd : dec) (now today_at : Z) :=
  record_cost cfg lg agent_id team_id org_id (dec_max amount_usd dec_zero) now today_at.

Definition record_usage cfg lg agent_id team_id org_id provider model (input_tokens output_tokens : Z)
  (now today_at : Z) :=
  record_cost cfg lg agent_id team_id org_id
    (dec_max (cost_usd (cf_pricing cfg) provider model input_tokens output_tokens) dec_zero) now today_at.

(** ** Two-phase reservation *)

(** The spend of a state as the preflight checks see it, on a reset copy. *)
Definition window_spend cfg (o : option BudgetState) (now : Z) : dec * dec :=
  match o with
  | Some s =>
      let copy := maybe_reset_window s now (cf_window cfg) (cf_timezone cfg) in
      (bs_spent_usd copy, default dec_zero (bs_monthly_spent_usd copy))
  | None => (dec_zero, dec_zero)
  end.

Definition over_limit (limit : option dec) (exceeded : dec → bool) : bool :=
  match limit with Some l => exceeded l | None => false end.

Fixpoint preflight_ancestors cfg lg (ancestors : list AgentId) (amount : dec) (now : Z)
  : result unit BudgetError :=
  match ancestors with
  | [] => Ok tt
  | ancestor_id :: ancestors' =>
      let '(daily_spent, monthly_spent) := window_spend cfg (lg_per_agent lg !! ancestor_id) now in
      if over_limit (resolve_limit cfg ancestor_id Monthly) (dec_gtb (dec_add monthly_spent amount))
      then Err (AncestorBudgetExhausted ancestor_id Monthly)
      else if over_limit (resolve_limit cfg ancestor_id Daily) (dec_gtb (dec_add daily_spent amount))
      then Err (AncestorBudgetExhausted ancestor_id Daily)
      else preflight_ancestors cfg lg ancestors' amount now
  end.

Definition preflight_tenant cfg (budgets : gmap string BudgetState) (key tier : string)
  (monthly_limit daily_limit : option dec) (now : Z) : result unit BudgetError :=
  let '(daily_spent, monthly_spent) := window_spend cfg (budgets !! key) now in
  if over_limit monthly_limit (dec_geb monthly_spent) then Err (TenantBudgetExhausted tier Monthly)
  else if over_limit daily_limit (dec_geb daily_spent) then Err (TenantBudgetExhausted tier Daily)
  else Ok tt.

Definition preflight_self cfg lg (agent_id : AgentId) (now : Z) : result unit BudgetError :=
  let '(agent_daily, agent_monthly) := window_spend cfg (lg_per_agent lg !! agent_id) now in
  if over_limit (resolve_limit cfg agent_id Monthly) (dec_geb agent_monthly)
  then Err (SelfBudgetExhausted Monthly)
  else if over_limit (resolve_limit cfg agent_id Daily) (dec_geb agent_daily)
  then Err (SelfBudgetExhausted Daily)
  else Ok tt.

(** [check_and_decrement] writes the daily total only. *)
Definition decrement_one (m : gmap AgentId BudgetState) (id : AgentId) (amount : dec) (now today : Z)
  (window : BudgetWindow) (zone : tz) : gmap AgentId BudgetState :=
  match m !! id with
  | Some s =>
      let s := maybe_reset_window s now window zone in
      <[id := {| bs_spent_usd := dec_add (bs_spent_usd s) amount; bs_date := bs_date s;
                 bs_month := bs_month s; bs_monthly_spent_usd := bs_monthly_spent_usd s;
                 bs_last_reset_at := bs_last_reset_at s |}]> m
  | None =>
      <[id := {| bs_spent_usd := amount; bs_date := today; bs_month := month_tag today;
                 bs_monthly_spent_usd := None;
                 bs_last_reset_at := match window with Window.Duration _ => Some now
                                     | Window.Daily => None end |}]> m
  end.

Definition check_and_decrement cfg lg (agent_id : AgentId) (ancestors : list AgentId) (amount : dec)
  (preflight_now now today_at : Z) : Ledger * result unit BudgetError :=
  if cf_degraded cfg then (lg, Err StateUnavailable)
  else match preflight_ancestors cfg lg ancestors amount preflight_now with
       | Err e => (lg, Err e)
       | Ok _ =>
           let today := local_date (cf_timezone cfg) today_at in
           let dec1 m id := decrement_one m id amount now today (cf_window cfg) (cf_timezone cfg) in
           (set_agents lg (fold_left dec1 ancestors (dec1 (lg_per_agent lg) agent_id)), Ok tt)
       end.

(** The five clock readings of a reservation, in the order they are made. *)
Record Readings := {
  rd_now : Z; rd_preflight : Z; rd_cost_now : Z; rd_cost_today : Z; rd_today : Z;
}.

Definition accumulate_ancestors cfg (m : gmap AgentId BudgetState) (ancestors : list AgentId)
  (amount : dec) (now today : Z) : gmap AgentId BudgetState :=
  fold_left (λ m id, accumulate_spend m id amount (has_monthly cfg) now today (cf_window cfg) (cf_timezone cfg))
    ancestors m.

Definition reserve_preflight cfg lg (agent_id : AgentId) (ancestors : list AgentId)
  (team_id org_id : option string) (amount : dec) (rd : Readings) : result unit BudgetError :=
  let? _ := preflight_self cfg lg agent_id (rd_now rd) in
  let? _ := preflight_ancestors cfg lg ancestors amount (rd_preflight rd) in
  let? _ := match team_id with
            | Some tid => preflight_tenant cfg (lg_team_budgets lg) tid "team"
                            (cf_team_monthly_limit_usd cfg) (cf_team_daily_limit_usd cfg) (rd_now rd)
            | None => Ok tt
            end in
  match org_id with
  | Some oid => preflight_tenant cfg (lg_org_budgets lg) oid "org"
                  (cf_org_monthly_limit_usd cfg) (cf_org_daily_limit_usd cfg) (rd_now rd)
  | None => Ok tt
  end.

Definition reserve_spend cfg lg (agent_id : AgentId) (ancestors : list AgentId)
  (team_id org_id : option string) (amount : dec) (rd : Readings)
  : W BudgetAlert (Ledger * result unit BudgetError) :=
  if cf_degraded cfg then w_ret (lg, Err StateUnavailable)
  else match reserve_preflight cfg lg agent_id ancestors team_id org_id amount rd with
       | Err e => w_ret (lg, Err e)
       | Ok _ =>
           let* (lg, _) := record_cost cfg lg agent_id team_id org_id amount (rd_cost_now rd) (rd_cost_today rd) in
           let today := local_date (cf_timezone cfg) (rd_today rd) in
           w_ret (set_agents lg (accumulate_ancestors cfg (lg_per_agent lg) ancestors amount (rd_now rd) today),
                  Ok tt)
       end.

(** ** Reports *)

Fixpoint subtree_loop cfg lg (ids : list AgentId) (now : Z) (total_usd : dec) (agents_counted : nat)
  : SubtreeSpend :=
  match ids with
  | [] => {| ss_tokens := 0; ss_usd := total_usd; ss_agents_counted := agents_counted |}
  | id :: ids' =>
      match lg_per_agent lg !! id with
      | None => subtree_loop cfg lg ids' now total_usd agents_counted
      | Some state =>
          let copy := maybe_reset_window state now (cf_window cfg) (cf_timezone cfg) in
          if dec_gtb (bs_spent_usd copy) dec_zero
          then subtree_loop cfg lg ids' now (dec_add total_usd (bs_spent_usd copy)) (S agents_counted)
          else subtree_loop cfg lg ids' now total_usd agents_counted
      end
  end.

Definition subtree_spend cfg lg (agent_id : AgentId) (descendants : list AgentId) (now : Z)
  : SubtreeSpend := subtree_loop cfg lg (agent_id :: descendants) now dec_zero 0.

Definition team_state lg (team_id : string) : option BudgetState := lg_team_budgets lg !! team_id.
Definition org_state lg (org_id : string) : option BudgetState := lg_org_budgets lg !! org_id.
Definition agent_state lg (agent_id : AgentId) : option BudgetState := lg_per_agent lg !! agent_id.
Definition global_state lg : BudgetState := lg_global lg.

(** The dense axis of the last [days] dates, oldest first. *)
Definition date_axis (today : Z) (days : nat) : list Z :=
  map (λ d, today - (Z.of_nat days - 1) + Z.of_nat d) (seq 0 days).

Definition agent_spend_history cfg lg (agent_id : AgentId) (days : nat) (today_at : Z)
  : list (Z * dec) :=
  let today := local_date (cf_timezone cfg) today_at in
  let history := lg_spend_history lg !! agent_id in
  map (λ date, (date, default dec_zero (history ≫= (λ m : gmap Z dec, m !! date)))) (date_axis today days).

Definition add_history_row (history : gmap Z dec) (row : Z * dec) : Z * dec :=
  let '(date, amount) := row in
  (date, match history !! date with Some v => dec_add amount v | None => amount end).

Definition spend_history_totals_for cfg lg (agent_ids : list AgentId) (days : nat) (today_at : Z)
  : list (Z * dec) :=
  let today := local_date (cf_timezone cfg) today_at in
  fold_left
    (λ series agent_id, match lg_spend_history lg !! agent_id with
                        | Some history => map (add_history_row history) series
                        | None => series
                        end)
    agent_ids (map (λ date, (date, dec_zero)) (date_axis today days)).

(** The periodic flush resets the agents, the teams and the global state. *)
Definition flush_window cfg lg (now : Z) : Ledger :=
  let reset s := maybe_reset_window s now (cf_window cfg) (cf_timezone cfg) in
  {| lg_per_agent := reset <$> lg_per_agent lg; lg_team_budgets := reset <$> lg_team_budgets lg;
     lg_org_budgets := lg_org_budgets lg; lg_global := reset (lg_global lg);
     lg_spend_history := lg_spend_history lg |}.

Record BudgetRow := {
  br_scope : string; br_period : string; br_spent_usd : dec; br_limit_usd : option dec;
  br_remaining_usd : option dec; br_percent_used : option f64;
}.

(** [pct.to_string().parse::<f64>().ok()], on the percentage. *)
Context (dec_display_f64 : dec → option f64).

Definition make_row (scope period : string) (spent_usd : dec) (limit_usd : option dec) : BudgetRow :=
  let '(remaining_usd, percent_used) :=
    match limit_usd with
    | Some limit =>
        if dec_gtb limit dec_zero
        then (Some (dec_max (dec_sub limit spent_usd) dec_zero),
              dec_display_f64 (dec_mul (dec_div spent_usd limit) (dec_of_Z 100)))
        else (None, None)
    | None => (None, None)
    end in
  {| br_scope := scope; br_period := period; br_spent_usd := spent_usd; br_limit_usd := limit_usd;
     br_remaining_usd := remaining_usd; br_percent_used := percent_used |}.

Definition or_limit (o fallback : option dec) : option dec :=
  match o with Some l => Some l | None => fallback end.

Definition compute_budget_rollup cfg lg (agent_id : AgentId) (team_id : option string)
  (descendants : list AgentId) (global_daily global_monthly : option dec) (now : Z) : list BudgetRow :=
  let agent_daily_limit := or_limit global_daily (cf_daily_limit_usd cfg) in
  let agent_monthly_limit := or_limit global_monthly (cf_monthly_limit_usd cfg) in
  let monthly_row scope (m : option dec) limit :=
    match m with Some monthly => [make_row scope "monthly" monthly limit] | None => [] end in
  let agent_rows :=
    match agent_state lg agent_id with
    | Some state => make_row "agent" "daily" (bs_spent_usd state) agent_daily_limit
                    :: monthly_row "agent"%string (bs_monthly_spent_usd state) agent_monthly_limit
    | None => [ make_row "agent" "daily" dec_zero agent_daily_limit;
                make_row "agent" "monthly" dec_zero agent_monthly_limit ]
    end in
  let team_rows :=
    match team_id with
    | None => []
    | Some team =>
        match team_state lg team with
        | None => []
        | Some state =>
            let scope := String.append "team:" team in
            make_row scope "daily" (bs_spent_usd state) None
            :: monthly_row scope (bs_monthly_spent_usd state) None
        end
    end in
  let global := global_state lg in
  let org_rows := make_row "org" "daily" (bs_spent_usd global) agent_daily_limit
                  :: monthly_row "org"%string (bs_monthly_spent_usd global) agent_monthly_limit in
  let subtree_rows :=
    match descendants with
    | [] => []
    | _ => [make_row "subtree" "today" (ss_usd (subtree_spend cfg lg agent_id descendants now)) None]
    end in
  agent_rows ++ team_rows ++ org_rows ++ subtree_rows.
End Tracker.
