(* ===== verification/BudgetProps.v ===== *)
(** * BudgetProps: correctness of the spend tracker

    Reservations are atomic and keep ancestors within their caps, accrual never
    reopens headroom, a degraded tracker denies everything; and what the tiers do
    not do: a tenant overflow skips the wider rollups, and a per-agent monthly cap
    alone is never enforced. *)

From stdpp Require Import base gmap strings list fin_maps.
From Stdlib Require Import ZArith QArith Lqa Lia Bool String.
From S2P Require Import Prelude.
From S2P Require Import Text.
From S2P Require Import Float64.
From S2P Require Import CoreTypes.
From S2P Require Import External.
From S2P Require Import Budget.
From S2P Require Import BudgetTracker.

Open Scope Z_scope.

#[local] Arguments resolve_limit : simpl never.

(** ** The ledger after an operation *)

Section Ledgers.
Context {D : DecimalLib} {C : ChronoLib}.
Implicit Types (cfg : Config) (lg : Ledger) (amount cost : dec).

(** The state [accumulate_spend] leaves under its key. *)
Definition accumulated cfg (o : option BudgetState) cost (now today : Z) : BudgetState :=
  match o with
  | Some s => add_spend (maybe_reset_window s now (cf_window cfg) (cf_timezone cfg)) cost
  | None => fresh_spend cost (has_monthly cfg) now today (cf_window cfg)
  end.

Lemma accumulate_insert {K} `{Countable K} cfg (m : gmap K BudgetState) key cost now today :
  accumulate_spend m key cost (has_monthly cfg) now today (cf_window cfg) (cf_timezone cfg) =
    <[key := accumulated cfg (m !! key) cost now today]> m.
Proof. unfold accumulate_spend, accumulated. by destruct (m !! key). Qed.

Lemma accumulate_ancestors_notin cfg m l amount now today id :
  id ∉ l → accumulate_ancestors cfg m l amount now today !! id = m !! id.
Proof.
  revert m. induction l as [|x l IH]; intros m Hid; [done|].
  apply not_elem_of_cons in Hid as [Hx Hl]. unfold accumulate_ancestors in *. simpl.
  rewrite IH by done. rewrite accumulate_insert. by rewrite lookup_insert_ne.
Qed.

Lemma accumulate_ancestors_in cfg m l amount now today id :
  NoDup l → id ∈ l →
  accumulate_ancestors cfg m l amount now today !! id =
    Some (accumulated cfg (m !! id) amount now today).
Proof.
  revert m. induction l as [|x l IH]; intros m Hnd Hid; [by apply not_elem_of_nil in Hid|].
  apply NoDup_cons in Hnd as [Hx Hnd]. unfold accumulate_ancestors in *. simpl. rewrite accumulate_insert.
  destruct (decide (id = x)) as [->|Hne].
  - pose proof (accumulate_ancestors_notin cfg
      (<[x := accumulated cfg (m !! x) amount now today]> m) l amount now today x Hx) as H.
    unfold accumulate_ancestors in H. rewrite H. by rewrite lookup_insert_eq.
  - apply elem_of_cons in Hid as [?|Hid]; [done|]. rewrite IH by done.
    by rewrite lookup_insert_ne.
Qed.

(** The team and org blocks touch their own accumulator only. *)
Lemma record_team_ledger cfg lg id team cost now today :
  fst (fst (record_team cfg lg id team cost now today)) =
    match team with
    | Some t => set_teams lg (<[t := accumulated cfg (lg_team_budgets lg !! t) cost now today]> (lg_team_budgets lg))
    | None => lg
    end.
Proof.
  destruct team as [t|]; [|done]. unfold record_team. rewrite accumulate_insert.
  by destruct (tier_limit_exceeded _ _ _ _ _ _).
Qed.

Lemma record_org_ledger cfg lg id org cost now today :
  fst (fst (record_org cfg lg id org cost now today)) =
    match org with
    | Some o => set_orgs lg (<[o := accumulated cfg (lg_org_budgets lg !! o) cost now today]> (lg_org_budgets lg))
    | None => lg
    end.
Proof.
  destruct org as [t|]; [|done]. unfold record_org. rewrite accumulate_insert.
  by destruct (tier_limit_exceeded _ _ _ _ _ _).
Qed.

(** The ledger after the agent tier, which every recorded cost reaches. *)
Definition after_agent cfg lg (id : AgentId) cost (now today : Z) : Ledger :=
  set_history
    (set_agents lg (<[id := accumulated cfg (lg_per_agent lg !! id) cost now today]> (lg_per_agent lg)))
    (append_history (lg_spend_history lg) id today cost).

Definition team_over cfg lg id team cost now today : bool :=
  snd (fst (record_team cfg (after_agent cfg lg id cost now today) id team cost now today)).

Lemma record_cost_cases cfg lg id team org cost now today_at :
  cf_degraded cfg = false →
  let today := local_date (cf_timezone cfg) today_at in
  let lg1 := after_agent cfg lg id cost now today in
  let lg2 := fst (fst (record_team cfg lg1 id team cost now today)) in
  let lg3 := fst (fst (record_org cfg lg2 id org cost now today)) in
  let '(lg', status) := fst (record_cost cfg lg id team org cost now today_at) in
  if team_over cfg lg id team cost now today then lg' = lg2 ∧ status = LimitExceeded
  else if snd (fst (record_org cfg lg2 id org cost now today)) then lg' = lg3 ∧ status = LimitExceeded
  else lg' = set_global lg3 (add_global cfg (lg_global lg) cost now).
Proof.
  intros Hd today lg1 lg2 lg3. unfold record_cost, team_over. rewrite Hd, accumulate_insert.
  fold today. change (set_history _ _) with lg1. fold lg1. unfold lg3, lg2.
  pose proof (record_team_ledger cfg lg1 id team cost now today) as Ht.
  destruct (record_team cfg lg1 id team cost now today) as [[l2 over] a2]. simpl in *.
  destruct over; [done|].
  pose proof (record_org_ledger cfg l2 id org cost now today) as Ho.
  destruct (record_org cfg l2 id org cost now today) as [[l3 over'] a3]. simpl in *.
  destruct over'; [done|].
  assert (lg_global l3 = lg_global lg) as <- by (subst; by destruct team, org).
  destruct (lg_per_agent l3 !! id); by destruct (agent_status _ _ _ _).
Qed.

Lemma record_cost_agents cfg lg id team org cost now today_at :
  cf_degraded cfg = false →
  lg_per_agent (fst (fst (record_cost cfg lg id team org cost now today_at))) =
    <[id := accumulated cfg (lg_per_agent lg !! id) cost now (local_date (cf_timezone cfg) today_at)]>
      (lg_per_agent lg).
Proof.
  intros Hd. pose proof (record_cost_cases cfg lg id team org cost now today_at Hd) as H.
  destruct (record_cost cfg lg id team org cost now today_at) as [[lg' st] al]. simpl in *.
  rewrite record_org_ledger, !record_team_ledger in H.
  destruct (team_over _ _ _ _ _ _ _); [|destruct (snd _)]; 
    destruct team, org; first [by subst | by destruct H as [-> _]].
Qed.

(** ** Reservations *)

(** A reservation that is refused commits nothing: the ledger of every tier is
    untouched and no alert is sent. *)
Theorem reserve_atomic cfg lg id ancestors team org amount rd lg' e alerts :
  reserve_spend cfg lg id ancestors team org amount rd = ((lg', Err e), alerts) → lg' = lg ∧ alerts = [].
Proof.
  unfold reserve_spend. destruct (cf_degraded cfg); [by intros [= <- _ <-]|].
  destruct (reserve_preflight _ _ _ _ _ _ _ _); [|by intros [= <- _ <-]].
  destruct (record_cost _ _ _ _ _ _ _ _) as [[l st] al]. done.
Qed.

Lemma reserve_Ok cfg lg id ancestors team org amount rd lg' :
  fst (reserve_spend cfg lg id ancestors team org amount rd) = (lg', Ok tt) →
  cf_degraded cfg = false ∧
  preflight_self cfg lg id (rd_now rd) = Ok tt ∧
  preflight_ancestors cfg lg ancestors amount (rd_preflight rd) = Ok tt ∧
  lg_per_agent lg' =
    accumulate_ancestors cfg
      (<[id := accumulated cfg (lg_per_agent lg !! id) amount (rd_cost_now rd)
                 (local_date (cf_timezone cfg) (rd_cost_today rd))]> (lg_per_agent lg))
      ancestors amount (rd_now rd) (local_date (cf_timezone cfg) (rd_today rd)).
Proof.
  unfold reserve_spend. destruct (cf_degraded cfg) eqn:Hd; [done|].
  unfold reserve_preflight. destruct (preflight_self _ _ _ _) as [[]|]; [|done]. simpl.
  destruct (preflight_ancestors _ _ _ _ _) as [[]|]; [|done]. simpl.
  destruct (match team with Some _ => _ | None => _ end) as [[]|]; [|done]. simpl.
  destruct (match org with Some _ => _ | None => _ end) as [[]|]; [|done].
  pose proof (record_cost_agents cfg lg id team org amount (rd_cost_now rd) (rd_cost_today rd) Hd) as Hag.
  destruct (record_cost _ _ _ _ _ _ _ _) as [[l st] al]. simpl in *. intros [= <-]. by rewrite <- Hag.
Qed.

Lemma preflight_ancestors_in cfg lg ancestors amount now a :
  preflight_ancestors cfg lg ancestors amount now = Ok tt → a ∈ ancestors →
  let '(daily, monthly) := window_spend cfg (lg_per_agent lg !! a) now in
  over_limit (resolve_limit cfg a Monthly) (dec_gtb (dec_add monthly amount)) = false ∧
  over_limit (resolve_limit cfg a Daily) (dec_gtb (dec_add daily amount)) = false.
Proof.
  induction ancestors as [|x l IH]; intros Hp Ha; [by apply not_elem_of_nil in Ha|]. simpl in Hp.
  destruct (window_spend cfg (lg_per_agent lg !! x) now) as [d m] eqn:Ew.
  destruct (over_limit _ _) eqn:Em; [done|]. destruct (over_limit _ (dec_gtb (dec_add d amount))) eqn:Ed; [done|].
  apply elem_of_cons in Ha as [->|Ha]; [by rewrite Ew|]. by apply IH.
Qed.

(** A single instant for every clock reading of a reservation. *)
Definition at_instant (t : Z) : Readings :=
  {| rd_now := t; rd_preflight := t; rd_cost_now := t; rd_cost_today := t; rd_today := t |}.

Context {L : DecimalLaws D}.

Lemma dec_gtb_false x y : dec_gtb x y = false → (dec_val x <= dec_val y)%Q.
Proof. unfold dec_gtb. rewrite negb_false_iff. apply dec_leb_val. Qed.

Lemma dec_geb_false x y : dec_geb x y = false → (dec_val x < dec_val y)%Q.
Proof.
  unfold dec_geb. rewrite <- not_true_iff_false, dec_leb_val. apply Qnot_le_lt.
Qed.

Lemma accumulated_daily cfg o amount now today :
  bs_spent_usd (accumulated cfg o amount now today) = dec_add (fst (window_spend cfg o now)) amount.
Proof. by destruct o. Qed.

Lemma accumulated_monthly cfg o amount now today m :
  bs_monthly_spent_usd (accumulated cfg o amount now today) = Some m →
  (dec_val m == dec_val (dec_add (snd (window_spend cfg o now)) amount))%Q.
Proof.
  destruct o as [s|]; simpl.
  - destruct (bs_monthly_spent_usd (maybe_reset_window s now _ _)); simpl; [|done]. by intros [= <-].
  - destruct (has_monthly cfg); [|done]. intros [= <-]. by rewrite dec_val_add_zero.
Qed.

(** No budget window of the state ends between the clock readings of a reservation. *)
Definition one_window cfg (o : option BudgetState) (rd : Readings) : Prop :=
  window_spend cfg o (rd_preflight rd) = window_spend cfg o (rd_now rd) ∧
  window_spend cfg o (rd_cost_now rd) = window_spend cfg o (rd_now rd).

(** C34: after a successful reservation, for ancestors that are distinct and do not include
    the agent and with no budget window ending between the clock readings of the reservation,
    every ancestor's recorded total is within its daily cap and, where its month is tracked,
    its monthly cap, by the comparison the code makes; the spending agent's total is what it
    had spent in its window, which was below its own daily cap, with the amount added, so
    that where the sum is a number a decimal can hold it is above the cap by less than the
    amount. *)
Theorem reserve_respects_caps cfg lg id ancestors team org amount rd lg' :
  NoDup (id :: ancestors) → (∀ a, a ∈ id :: ancestors → one_window cfg (lg_per_agent lg !! a) rd) →
  fst (reserve_spend cfg lg id ancestors team org amount rd) = (lg', Ok tt) →
  (∀ a, a ∈ ancestors → ∃ s, lg_per_agent lg' !! a = Some s ∧
     (∀ limit, resolve_limit cfg a Daily = Some limit → dec_leb (bs_spent_usd s) limit = true) ∧
     (∀ limit m, resolve_limit cfg a Monthly = Some limit → bs_monthly_spent_usd s = Some m →
        dec_leb m limit = true)) ∧
  (∃ s, lg_per_agent lg' !! id = Some s ∧
     let before := fst (window_spend cfg (lg_per_agent lg !! id) (rd_now rd)) in
     bs_spent_usd s = dec_add before amount ∧
     ∀ limit, resolve_limit cfg id Daily = Some limit →
       dec_geb before limit = false ∧
       (representable (dec_val before + dec_val amount) →
        (dec_val (bs_spent_usd s) < dec_val limit + dec_val amount)%Q)).
Proof.
  intros [Hid Hnd]%NoDup_cons Hwin (Hd & Hself & Hanc & Hag)%reserve_Ok. rewrite Hag. split.
  - intros a Ha. rewrite accumulate_ancestors_in by done.
    rewrite lookup_insert_ne by (by intros ->). eexists. split; [done|].
    pose proof (preflight_ancestors_in _ _ _ _ _ _ Hanc Ha) as Hpre.
    rewrite (proj1 (Hwin a ltac:(by right))) in Hpre.
    destruct (window_spend cfg (lg_per_agent lg !! a) (rd_now rd)) as [d m] eqn:Ew.
    destruct Hpre as [Hm Hdl]. split.
    + intros limit Hl. rewrite Hl in Hdl. simpl in Hdl. rewrite accumulated_daily, Ew.
      by apply negb_false_iff in Hdl.
    + intros limit m' Hl Hm'. rewrite Hl in Hm. simpl in Hm. apply accumulated_monthly in Hm'.
      rewrite Ew in Hm'. apply dec_leb_val. rewrite Hm'. by apply dec_gtb_false.
  - rewrite accumulate_ancestors_notin by done. rewrite lookup_insert_eq. eexists. split; [done|].
    unfold preflight_self in Hself. rewrite accumulated_daily, (proj2 (Hwin id ltac:(by left))).
    destruct (window_spend cfg (lg_per_agent lg !! id) (rd_now rd)) as [d m]. cbn [fst].
    split; [done|]. intros limit Hl.
    destruct (over_limit (resolve_limit cfg id Monthly) _); [done|]. rewrite Hl in Hself. simpl in Hself.
    destruct (dec_geb d limit) eqn:Hg; [done|]. split; [done|]. intros Hrep. apply dec_geb_false in Hg.
    rewrite dec_val_add by done. lra.
Qed.

(** ** Accrual is monotone *)

Lemma dec_max_nonneg x : (0 <= dec_val (dec_max x dec_zero))%Q.
Proof.
  unfold dec_max. destruct (dec_leb x dec_zero) eqn:E.
  - rewrite dec_val_zero. apply Qle_refl.
  - apply not_true_iff_false in E. rewrite dec_leb_val, dec_val_zero in E. by apply Qlt_le_weak, Qnot_le_lt.
Qed.

(** Recording a spend, whatever amount the caller passes, never lowers the
    agent's total below its window-reset total, where the new total is a number a decimal
    can hold: a negative amount cannot reopen headroom. *)
Theorem raw_spend_never_reopens_headroom cfg lg id team org amount now today_at :
  cf_degraded cfg = false →
  representable (dec_val (fst (window_spend cfg (lg_per_agent lg !! id) now)) + dec_val (dec_max amount dec_zero)) →
  ∃ s, lg_per_agent (fst (fst (record_raw_spend cfg lg id team org amount now today_at))) !! id = Some s ∧
    dec_leb (fst (window_spend cfg (lg_per_agent lg !! id) now)) (bs_spent_usd s) = true.
Proof.
  intros Hd Hrep. unfold record_raw_spend. rewrite record_cost_agents by done. rewrite lookup_insert_eq.
  eexists. split; [done|]. rewrite accumulated_daily. apply dec_leb_val. rewrite dec_val_add by done.
  pose proof (dec_max_nonneg amount). lra.
Qed.

(** A tracker whose persisted state could not be read denies at every entry
    point and changes no ledger, until it is rebuilt. *)
Theorem degraded_denies cfg lg id ancestors team org amount limit now now' rd :
  cf_degraded cfg = true →
  check_daily cfg lg id limit now = (lg, true) ∧
  check_monthly cfg lg id limit now = (lg, true) ∧
  record_raw_spend cfg lg id team org amount now now' = ((lg, LimitExceeded), []) ∧
  check_and_decrement cfg lg id ancestors amount now now' now = (lg, Err StateUnavailable) ∧
  reserve_spend cfg lg id ancestors team org amount rd = ((lg, Err StateUnavailable), []).
Proof.
  intros Hd. unfold check_daily, check_monthly, record_raw_spend, record_cost, check_and_decrement,
    reserve_spend. by rewrite Hd.
Qed.

(** A reservation that itself takes a team to its cap succeeds and charges the
    agent, but the organisation and global totals do not include it. *)
Theorem team_overflow_skips_rollup cfg lg id ancestors team org amount rd lg' :
  fst (reserve_spend cfg lg id ancestors team org amount rd) = (lg', Ok tt) →
  team_over cfg lg id team amount (rd_cost_now rd) (local_date (cf_timezone cfg) (rd_cost_today rd)) = true →
  lg_global lg' = lg_global lg ∧ lg_org_budgets lg' = lg_org_budgets lg ∧
  (id ∉ ancestors → ∃ s, lg_per_agent lg' !! id = Some s ∧
     bs_spent_usd s = dec_add (fst (window_spend cfg (lg_per_agent lg !! id) (rd_cost_now rd))) amount).
Proof.
  intros Hres Hover. pose proof (reserve_Ok _ _ _ _ _ _ _ _ _ Hres) as (Hd & _ & _ & Hag).
  pose proof (record_cost_cases cfg lg id team org amount (rd_cost_now rd) (rd_cost_today rd) Hd) as Hc.
  cbv zeta in Hc. rewrite Hover in Hc. unfold reserve_spend in Hres. rewrite Hd in Hres.
  destruct (reserve_preflight _ _ _ _ _ _ _ _); [|done].
  destruct (record_cost _ _ _ _ _ _ _ _) as [[l st] al]. simpl in *. injection Hres as <-.
  destruct Hc as [-> _]. rewrite record_team_ledger in *. simpl. do 2 (split; [by destruct team|]).
  intros Hid. simpl in Hag. rewrite Hag, accumulate_ancestors_notin by done. rewrite lookup_insert_eq.
  eexists. split; [done|]. apply accumulated_daily.
Qed.

(** ** The monthly window *)

Definition no_monthly lg : Prop :=
  ∀ id s, lg_per_agent lg !! id = Some s → bs_monthly_spent_usd s = None.

Lemma reset_no_monthly s now window zone :
  bs_monthly_spent_usd s = None → bs_monthly_spent_usd (maybe_reset_window s now window zone) = None.
Proof.
  intros H. assert (∀ d, bs_monthly_spent_usd (reset_month s d) = None) as Hr.
  { intros d. unfold reset_month. destruct (_ =? _); simpl; by rewrite ?H. }
  destruct window as [|i]; simpl; unfold maybe_reset; repeat (case_match; simpl; auto).
Qed.

Lemma accumulated_no_monthly cfg o cost now today :
  has_monthly cfg = false → (∀ s, o = Some s → bs_monthly_spent_usd s = None) →
  bs_monthly_spent_usd (accumulated cfg o cost now today) = None.
Proof.
  intros Hm Ho. destruct o as [s|]; simpl; [|by rewrite Hm].
  by rewrite (reset_no_monthly s _ _ _ (Ho s eq_refl)).
Qed.

Definition agents_ok (m : gmap AgentId BudgetState) : Prop :=
  ∀ id s, m !! id = Some s → bs_monthly_spent_usd s = None.

Lemma agents_ok_insert m id s :
  agents_ok m → bs_monthly_spent_usd s = None → agents_ok (<[id := s]> m).
Proof.
  intros Hm Hs x y. destruct (decide (id = x)) as [<-|].
  - rewrite lookup_insert_eq. by intros [= <-].
  - rewrite lookup_insert_ne by done. apply Hm.
Qed.

Lemma agents_ok_ancestors cfg m l amount now today :
  has_monthly cfg = false → agents_ok m → agents_ok (accumulate_ancestors cfg m l amount now today).
Proof.
  intros Hh. revert m. induction l as [|x l IH]; intros m Hm; [done|].
  unfold accumulate_ancestors in *. simpl. rewrite accumulate_insert. apply IH, agents_ok_insert; [done|].
  apply accumulated_no_monthly; [done|]. intros s Hs. by apply (Hm x).
Qed.

Lemma agents_ok_decrement m id amount now today window zone :
  agents_ok m → agents_ok (decrement_one m id amount now today window zone).
Proof.
  intros Hm. unfold decrement_one. destruct (m !! id) as [s|] eqn:E; apply agents_ok_insert; try done.
  simpl. apply reset_no_monthly. by apply (Hm id).
Qed.

(** The operations on a tracker. *)
Inductive tracker_op :=
| OpReserve (id : AgentId) (ancestors : list AgentId) (team org : option string) (amount : dec) (rd : Readings)
| OpRawSpend (id : AgentId) (team org : option string) (amount : dec) (now today_at : Z)
| OpDecrement (id : AgentId) (ancestors : list AgentId) (amount : dec) (preflight now today_at : Z)
| OpCheckDaily (id : AgentId) (limit : dec) (now : Z)
| OpCheckMonthly (id : AgentId) (limit : dec) (now : Z)
| OpFlush (now : Z).

Definition step cfg lg (o : tracker_op) : Ledger :=
  match o with
  | OpReserve id anc team org amount rd => fst (fst (reserve_spend cfg lg id anc team org amount rd))
  | OpRawSpend id team org amount now today_at =>
      fst (fst (record_raw_spend cfg lg id team org amount now today_at))
  | OpDecrement id anc amount pre now today_at =>
      fst (check_and_decrement cfg lg id anc amount pre now today_at)
  | OpCheckDaily id limit now => fst (check_daily cfg lg id limit now)
  | OpCheckMonthly id limit now => fst (check_monthly cfg lg id limit now)
  | OpFlush now => flush_window cfg lg now
  end.

Lemma record_cost_no_monthly cfg lg id team org cost now today_at :
  has_monthly cfg = false → no_monthly lg →
  no_monthly (fst (fst (record_cost cfg lg id team org cost now today_at))).
Proof.
  intros Hh Hlg. destruct (cf_degraded cfg) eqn:Hd.
  { unfold record_cost. by rewrite Hd. }
  unfold no_monthly. rewrite record_cost_agents by done.
  apply agents_ok_insert; [done|]. apply accumulated_no_monthly; [done|]. intros s. apply Hlg.
Qed.

Lemma reset_agent_no_monthly cfg lg id now : no_monthly lg → no_monthly (snd (reset_agent cfg lg id now)).
Proof.
  intros Hlg. unfold reset_agent. destruct (lg_per_agent lg !! id) as [s|] eqn:E; [|done].
  apply agents_ok_insert; [done|]. apply reset_no_monthly. by apply (Hlg id).
Qed.

Lemma step_no_monthly cfg lg o : has_monthly cfg = false → no_monthly lg → no_monthly (step cfg lg o).
Proof.
  intros Hh Hlg. destruct o as [id anc team org amount rd| |id anc amount pre now tat|id l now|id l now|now]; simpl.
  - unfold reserve_spend. destruct (cf_degraded cfg); [done|]. destruct (reserve_preflight _ _ _ _ _ _ _ _); [|done].
    pose proof (record_cost_no_monthly cfg lg id team org amount (rd_cost_now rd) (rd_cost_today rd) Hh Hlg) as H.
    destruct (record_cost _ _ _ _ _ _ _ _) as [[l st] al]. simpl in *. by apply agents_ok_ancestors.
  - by apply record_cost_no_monthly.
  - unfold check_and_decrement. destruct (cf_degraded cfg); [done|].
    destruct (preflight_ancestors _ _ _ _ _); [|done]. simpl.
    assert (∀ l m, agents_ok m → agents_ok (fold_left (λ m0 id0, decrement_one m0 id0 amount now
      (local_date (cf_timezone cfg) tat) (cf_window cfg) (cf_timezone cfg)) l m)) as Hfold.
    { induction l as [|x l IH]; intros m Hm; [done|]. simpl. by apply IH, agents_ok_decrement. }
    by apply Hfold, agents_ok_decrement.
  - unfold check_daily. destruct (cf_degraded cfg); [done|].
    pose proof (reset_agent_no_monthly cfg lg id now Hlg) as H. by destruct (reset_agent _ _ _ _) as [[]].
  - unfold check_monthly. destruct (cf_degraded cfg); [done|].
    pose proof (reset_agent_no_monthly cfg lg id now Hlg) as H. by destruct (reset_agent _ _ _ _) as [[]].
  - intros id s. simpl. rewrite lookup_fmap. intros (s0 & Hs & ->)%fmap_Some. by apply reset_no_monthly, (Hlg id).
Qed.

Lemma preflight_ancestors_error cfg lg l amount now k :
  preflight_ancestors cfg lg l amount now ≠ Err (SelfBudgetExhausted k).
Proof.
  induction l as [|x l IH]; simpl; [done|]. destruct (window_spend _ _ _). repeat (case_match; try done).
Qed.

Lemma preflight_tenant_error cfg b key tier ml dl now k :
  preflight_tenant cfg b key tier ml dl now ≠ Err (SelfBudgetExhausted k).
Proof. unfold preflight_tenant. destruct (window_spend _ _ _). repeat (case_match; try done). Qed.

(** Only the agent's own preflight reports its own exhaustion. *)
Lemma reserve_self_error cfg lg id ancestors team org amount rd k :
  snd (fst (reserve_spend cfg lg id ancestors team org amount rd)) = Err (SelfBudgetExhausted k) →
  preflight_self cfg lg id (rd_now rd) = Err (SelfBudgetExhausted k).
Proof.
  unfold reserve_spend. destruct (cf_degraded cfg); [done|]. unfold reserve_preflight, result_bind.
  destruct (preflight_self cfg lg id (rd_now rd)) as [[]|e]; [|by intros [= ->]].
  pose proof (preflight_ancestors_error cfg lg ancestors amount (rd_preflight rd) k) as Ha.
  destruct (preflight_ancestors _ _ _ _ _) as [[]|e]; [|intros [= ->]; done].
  destruct team as [t|];
    [pose proof (preflight_tenant_error cfg (lg_team_budgets lg) t "team" (cf_team_monthly_limit_usd cfg)
       (cf_team_daily_limit_usd cfg) (rd_now rd) k);
     destruct (preflight_tenant cfg (lg_team_budgets lg) t _ _ _ _) as [[]|]; [|intros [= ->]; done]|];
  (destruct org as [o|];
    [pose proof (preflight_tenant_error cfg (lg_org_budgets lg) o "org" (cf_org_monthly_limit_usd cfg)
       (cf_org_daily_limit_usd cfg) (rd_now rd) k);
     destruct (preflight_tenant cfg (lg_org_budgets lg) o _ _ _ _) as [[]|]; [|intros [= ->]; done]|]);
  by destruct (record_cost _ _ _ _ _ _ _ _) as [[]].
Qed.

Lemma run_no_monthly cfg ops lg :
  has_monthly cfg = false → no_monthly lg → no_monthly (fold_left (step cfg) ops lg).
Proof.
  intros Hh. revert lg. induction ops as [|o l IH]; intros lg Hlg; [done|]. simpl.
  by apply IH, step_no_monthly.
Qed.

(** When monthly limits are set for individual agents only, no sequence of
    operations ever makes one bind: a reservation is never refused because the
    agent's positive monthly cap is exhausted. *)
Theorem agent_monthly_cap_inert cfg ops zone now id ancestors team org amount rd limit :
  has_monthly cfg = false →
  resolve_limit cfg id Monthly = Some limit → (0 < dec_val limit)%Q →
  snd (fst (reserve_spend cfg (fold_left (step cfg) ops (new_ledger zone now)) id ancestors team org amount rd))
    ≠ Err (SelfBudgetExhausted Monthly).
Proof.
  intros Hh Hl Hpos Herr%reserve_self_error.
  assert (no_monthly (new_ledger zone now)) as Hnew by (intros x s; simpl; by rewrite lookup_empty).
  pose proof (run_no_monthly cfg ops _ Hh Hnew) as Hrun.
  set (lg := fold_left (step cfg) ops (new_ledger zone now)) in *. unfold preflight_self in Herr.
  destruct (window_spend cfg (lg_per_agent lg !! id) (rd_now rd)) as [d m] eqn:Ew.
  assert (m = dec_zero) as ->.
  { destruct (lg_per_agent lg !! id) as [s|] eqn:E; simpl in Ew; [|by simplify_eq].
    rewrite (reset_no_monthly s _ _ _ (Hrun id s E)) in Ew. by simplify_eq. }
  rewrite Hl in Herr. simpl in Herr.
  assert (dec_geb dec_zero limit = false) as Hz.
  { unfold dec_geb. apply not_true_iff_false. rewrite dec_leb_val, dec_val_zero. by apply Qlt_not_le. }
  rewrite Hz in Herr. by destruct (over_limit _ _).
Qed.

(** An agent below its own cap may reserve any amount at all: the check looks at
    what is already spent, so the recorded total can exceed the cap by as much as
    one reservation asks for. *)
Theorem self_cap_overshoot cfg lg id amount rd :
  cf_degraded cfg = false → preflight_self cfg lg id (rd_now rd) = Ok tt →
  let '(lg', r) := fst (reserve_spend cfg lg id [] None None amount rd) in
  r = Ok tt ∧ ∃ s, lg_per_agent lg' !! id = Some s ∧
    bs_spent_usd s = dec_add (fst (window_spend cfg (lg_per_agent lg !! id) (rd_cost_now rd))) amount.
Proof.
  intros Hd Hself. unfold reserve_spend, reserve_preflight. rewrite Hd, Hself. simpl.
  pose proof (record_cost_agents cfg lg id None None amount (rd_cost_now rd) (rd_cost_today rd) Hd) as Hag.
  destruct (record_cost _ _ _ _ _ _ _ _) as [[l st] al]. simpl in *. split; [done|].
  rewrite Hag, lookup_insert_eq. eexists. split; [done|]. apply accumulated_daily.
Qed.

(** ** Histories *)

(** The spend of one agent on one date. *)
Definition spent_on lg (date : Z) (acc : dec) (id : AgentId) : dec :=
  match lg_spend_history lg !! id ≫= (λ m : gmap Z dec, m !! date) with
  | Some v => dec_add acc v
  | None => acc
  end.

(** The aggregated history, computed agent by agent, is for each date of the
    requested range, oldest first and without gaps, the sum over the agents of
    their spend on that date. *)
Theorem history_totals_by_date cfg lg ids days today_at :
  spend_history_totals_for cfg lg ids days today_at =
    map (λ date, (date, fold_left (spent_on lg date) ids dec_zero))
      (date_axis (local_date (cf_timezone cfg) today_at) days).
Proof.
  unfold spend_history_totals_for. set (axis := date_axis _ _). clearbody axis.
  assert (∀ acc, fold_left (λ series id, match lg_spend_history lg !! id with
      | Some history => map (add_history_row history) series | None => series end) ids
      (map (λ date, (date, acc date)) axis) =
    map (λ date, (date, fold_left (spent_on lg date) ids (acc date))) axis) as H; [|apply (H (λ _, dec_zero))].
  induction ids as [|id ids IH]; intros acc; [done|]. simpl. rewrite <- IH. f_equal.
  unfold spent_on. destruct (lg_spend_history lg !! id) as [h|]; simpl; [|done].
  rewrite map_map. apply map_ext. intros date. simpl. by destruct (h !! date).
Qed.
End Ledgers.

(** ** Witnesses *)

Definition usd (n : Z) : @dec rational := inject_Z n.

Definition sample_config (team_daily : option (@dec rational)) : @Config rational utc_only := {|
  cf_pricing := default_table; cf_daily_limit_usd := Some (usd 10); cf_monthly_limit_usd := None;
  cf_team_daily_limit_usd := team_daily; cf_team_monthly_limit_usd := None;
  cf_org_daily_limit_usd := None; cf_org_monthly_limit_usd := None;
  cf_agent_limits := {[ 1%N := {| lim_daily_usd := None; lim_monthly_usd := Some (usd 5) |} ]};
  cf_timezone := @tz_utc utc_only; cf_window := Window.Daily; cf_degraded := false |}.

Definition sample_degraded : @Config rational utc_only := {|
  cf_pricing := default_table; cf_daily_limit_usd := None; cf_monthly_limit_usd := None;
  cf_team_daily_limit_usd := None; cf_team_monthly_limit_usd := None;
  cf_org_daily_limit_usd := None; cf_org_monthly_limit_usd := None; cf_agent_limits := ∅;
  cf_timezone := @tz_utc utc_only; cf_window := Window.Daily; cf_degraded := true |}.

Definition empty_ledger : @Ledger rational := @new_ledger rational utc_only tt 0.

(** The result of a reservation by agent 1 under agent 2, for team [core]. *)
Definition sample_reserve (team_daily : option (@dec rational)) (amount : @dec rational) :=
  @reserve_spend rational utc_only (sample_config team_daily) empty_ledger 1%N [2%N]
    (Some "core"%string) None amount (at_instant 0).

Lemma pair_with_snd {A B} (p : A * B) b : snd p = b → p = (fst p, b).
Proof. destruct p. by intros <-. Qed.

Lemma triple_eta {A B E} (p : A * B * E) b e : snd (fst p) = b → snd p = e → p = ((fst (fst p), b), e).
Proof. destruct p as [[]]. by intros <- <-. Qed.

Lemma reserve_atomic_witness :
  fst (fst (sample_reserve None (usd 11))) = empty_ledger.
Proof.
  apply (@reserve_atomic rational utc_only (sample_config None) empty_ledger 1%N [2%N] (Some "core"%string)
    None (usd 11) (at_instant 0) (fst (fst (sample_reserve None (usd 11))))
    (AncestorBudgetExhausted 2%N Daily) []).
  apply triple_eta; vm_compute; reflexivity.
Defined.

Lemma reserve_respects_caps_witness :
  ∃ s, lg_per_agent (fst (fst (sample_reserve None (usd 7)))) !! 2%N = Some s ∧
    (∀ limit, @resolve_limit rational utc_only (sample_config None) 2%N Daily = Some limit →
       @dec_leb rational (bs_spent_usd s) limit = true) ∧
    (∀ limit m, @resolve_limit rational utc_only (sample_config None) 2%N Monthly = Some limit →
       bs_monthly_spent_usd s = Some m → @dec_leb rational m limit = true).
Proof.
  apply (@reserve_respects_caps rational utc_only rational_laws (sample_config None) empty_ledger 1%N [2%N]
    (Some "core"%string) None (usd 7) (at_instant 0)).
  - apply NoDup_cons. split; [|apply NoDup_singleton]. by rewrite list_elem_of_singleton.
  - by split.
  - apply pair_with_snd. vm_compute. reflexivity.
  - left.
Defined.

Lemma raw_spend_never_reopens_headroom_witness :
  ∃ s, lg_per_agent (fst (fst (@record_raw_spend rational utc_only (sample_config None) empty_ledger 1%N
         None None (usd (-5)) 0 0))) !! 1%N = Some s ∧ @dec_leb rational (usd 0) (bs_spent_usd s) = true.
Proof.
  apply (@raw_spend_never_reopens_headroom rational utc_only rational_laws (sample_config None) empty_ledger
    1%N None None (usd (-5)) 0 0); [reflexivity|]. exists 0, 0. split; [reflexivity|]. split; [lia|reflexivity].
Defined.

Lemma degraded_denies_witness :
  @check_daily rational utc_only sample_degraded empty_ledger 1%N (usd 9) 0 = (empty_ledger, true).
Proof.
  apply (@degraded_denies rational utc_only sample_degraded empty_ledger 1%N [] None None (usd 1)
    (usd 9) 0 0 (at_instant 0)). reflexivity.
Defined.

Lemma team_overflow_skips_rollup_witness :
  snd (fst (sample_reserve (Some (usd 3)) (usd 7))) = Ok tt ∧
  lg_global (fst (fst (sample_reserve (Some (usd 3)) (usd 7)))) = lg_global empty_ledger.
Proof.
  split; [vm_compute; reflexivity|].
  apply (@team_overflow_skips_rollup rational utc_only (sample_config (Some (usd 3))) empty_ledger 1%N
    [2%N] (Some "core"%string) None (usd 7) (at_instant 0));
    [apply pair_with_snd|]; vm_compute; reflexivity.
Defined.

Lemma agent_monthly_cap_inert_witness :
  snd (fst (@reserve_spend rational utc_only (sample_config None)
    (fold_left (@step rational utc_only (sample_config None))
       [OpRawSpend 1%N None None (usd 900) 0 0] empty_ledger) 1%N [] None None (usd 1)
    (at_instant 86400000000000)))
  ≠ Err (SelfBudgetExhausted Monthly).
Proof.
  apply (@agent_monthly_cap_inert rational utc_only rational_laws (sample_config None)
    [OpRawSpend 1%N None None (usd 900) 0 0] tt 0 1%N [] None None (usd 1)
    (at_instant 86400000000000) (usd 5)); vm_compute; reflexivity.
Defined.

Lemma self_cap_overshoot_witness :
  snd (fst (@reserve_spend rational utc_only (sample_config None) empty_ledger 1%N [] None None
    (usd 1000) (at_instant 0))) = Ok tt.
Proof.
  pose proof (@self_cap_overshoot rational utc_only (sample_config None) empty_ledger 1%N (usd 1000)
    (at_instant 0) eq_refl ltac:(vm_compute; reflexivity)) as H.
  destruct (fst (reserve_spend _ _ _ _ _ _ _ _)) as [l r]. exact (proj1 H).
Defined.
