(* ===== verification/Findings.v ===== *)
(** * Findings: what the detectors report, and how a payload is redacted

    The finding vocabulary and the redaction primitives of aa-security:
    scanner.rs (detector kinds, [CredentialFinding], [ScanResult::redact]) and
    canonical/ (the provider-neutral categories, the lift of a scanner finding,
    [redact_findings]).  The detectors themselves are not here: a finding is data
    that names a byte span of the scanned text.

    The payload is its UTF-8 bytes, one [ascii] each, because findings and the
    splices work on byte offsets.  Offsets are [nat]: the code only compares them
    and takes maxima. *)

From stdpp Require Import base strings list.
From Stdlib Require Import ZArith Lia Bool Ascii String Sorted.
From S2P Require Import Prelude.
From S2P Require Import Text.

Open Scope nat_scope.

(** ** Detector kinds (scanner.rs) *)

Module Kind.
Inductive CredentialKind :=
| AnthropicKey | AwsAccessKey | GcpServiceAccount | OpenAiKey
| AzureConnectionString
| GitHubAppToken | GitHubOAuthToken | GitHubPat | GitHubRefreshToken | GitHubUserToken
| SlackAppToken | SlackBotToken | SlackOAuthToken | SlackRefreshToken | SlackUserToken
| MongodbUrl | MysqlUrl | PostgresUrl
| EcPrivateKey | OpensshPrivateKey | PgpPrivateKey | PrivateKey | RsaPrivateKey
| CreditCardLuhn | EmailAddress | SsnPattern
| GenericHighEntropy
| Custom.

#[global] Instance CredentialKind_eq_dec : EqDecision CredentialKind.
Proof. solve_decision. Defined.

Definition ALL : list CredentialKind :=
  [AnthropicKey; AwsAccessKey; GcpServiceAccount; OpenAiKey; AzureConnectionString;
   GitHubAppToken; GitHubOAuthToken; GitHubPat; GitHubRefreshToken; GitHubUserToken;
   SlackAppToken; SlackBotToken; SlackOAuthToken; SlackRefreshToken; SlackUserToken;
   MongodbUrl; MysqlUrl; PostgresUrl;
   EcPrivateKey; OpensshPrivateKey; PgpPrivateKey; PrivateKey; RsaPrivateKey;
   CreditCardLuhn; EmailAddress; SsnPattern; GenericHighEntropy].

Definition category (k : CredentialKind) : string :=
  match k with
  | AnthropicKey | OpenAiKey => "api_key"
  | AwsAccessKey | GcpServiceAccount | AzureConnectionString => "cloud_credential"
  | GitHubAppToken | GitHubOAuthToken | GitHubPat | GitHubRefreshToken | GitHubUserToken
  | SlackAppToken | SlackBotToken | SlackOAuthToken | SlackRefreshToken | SlackUserToken => "auth_token"
  | MongodbUrl | MysqlUrl | PostgresUrl => "database_url"
  | EcPrivateKey | OpensshPrivateKey | PgpPrivateKey | PrivateKey | RsaPrivateKey => "private_key"
  | CreditCardLuhn | EmailAddress | SsnPattern => "pii"
  | GenericHighEntropy => "generic"
  | Custom => "custom"
  end.

Definition severity (k : CredentialKind) : string :=
  match k with
  | AnthropicKey | OpenAiKey | AwsAccessKey | GcpServiceAccount | AzureConnectionString
  | GitHubAppToken | GitHubOAuthToken | GitHubPat | GitHubRefreshToken | GitHubUserToken
  | SlackAppToken | SlackBotToken | SlackOAuthToken | SlackRefreshToken | SlackUserToken
  | EcPrivateKey | OpensshPrivateKey | PgpPrivateKey | PrivateKey | RsaPrivateKey
  | CreditCardLuhn | SsnPattern => "critical"
  | MongodbUrl | MysqlUrl | PostgresUrl => "high"
  | EmailAddress => "medium"
  | GenericHighEntropy => "low"
  | Custom => "high"
  end.

Definition as_str (k : CredentialKind) : string :=
  match k with
  | AnthropicKey => "AnthropicKey"
  | AwsAccessKey => "AwsAccessKey"
  | AzureConnectionString => "AzureConnectionString"
  | CreditCardLuhn => "CreditCardLuhn"
  | EcPrivateKey => "EcPrivateKey"
  | EmailAddress => "EmailAddress"
  | GcpServiceAccount => "GcpServiceAccount"
  | GenericHighEntropy => "GenericHighEntropy"
  | GitHubAppToken => "GitHubAppToken"
  | GitHubOAuthToken => "GitHubOAuthToken"
  | GitHubPat => "GitHubPat"
  | GitHubRefreshToken => "GitHubRefreshToken"
  | GitHubUserToken => "GitHubUserToken"
  | MongodbUrl => "MongodbUrl"
  | MysqlUrl => "MysqlUrl"
  | OpenAiKey => "OpenAiKey"
  | OpensshPrivateKey => "OpensshPrivateKey"
  | PgpPrivateKey => "PgpPrivateKey"
  | PostgresUrl => "PostgresUrl"
  | PrivateKey => "PrivateKey"
  | RsaPrivateKey => "RsaPrivateKey"
  | SlackAppToken => "SlackAppToken"
  | SlackBotToken => "SlackBotToken"
  | SlackOAuthToken => "SlackOAuthToken"
  | SlackRefreshToken => "SlackRefreshToken"
  | SlackUserToken => "SlackUserToken"
  | SsnPattern => "SsnPattern"
  | Custom => "Custom"
  end.

Definition priority (k : CredentialKind) : nat :=
  match k with
  | GenericHighEntropy => 0
  | EmailAddress => 1
  | _ => 2
  end.
End Kind.

Abbreviation CredentialKind := Kind.CredentialKind.

Definition redacted_kind_label (k : CredentialKind) : string :=
  String.append "[REDACTED:" (String.append (Kind.as_str k) "]").

(** ** Scanner findings *)

Record CredentialFinding := {
  cf_kind : CredentialKind;
  cf_offset : nat;
  cf_matched : string;
  cf_end : nat;
}.

#[export] Instance CredentialFinding_eq_dec : EqDecision CredentialFinding.
Proof. solve_decision. Defined.

Definition cf_new (kind : CredentialKind) (offset fin : nat) : CredentialFinding :=
  {| cf_kind := kind; cf_offset := offset; cf_matched := redacted_kind_label kind; cf_end := fin |}.

Definition from_regex_match (offset fin : nat) : CredentialFinding := cf_new Kind.Custom offset fin.

(** ** Splicing

    A span to replace: start, end, replacement.  The loops of [ScanResult::redact]
    and [redact_findings] walk the merged spans in reverse, so earlier offsets
    stay valid, and give up the whole text on a span that cannot be spliced. *)

Definition bytes (s : string) : list ascii := list_ascii_of_string s.
Definition text_of (l : list ascii) : string := string_of_list_ascii l.

(** [str::is_char_boundary]: not inside a UTF-8 sequence, and not past the end. *)
Definition is_char_boundary (s : list ascii) (i : nat) : bool :=
  if i =? 0 then true
  else match s !! i with
       | None => i =? List.length s
       | Some c => negb (in_range 128 191 c)
       end.

Definition replace_range (s : list ascii) (start fin : nat) (label : string) : list ascii :=
  take start s ++ bytes label ++ drop fin s.

Definition span : Type := nat * nat * string.
Definition span_start (x : span) : nat := x.1.1.
Definition span_end (x : span) : nat := x.1.2.
Definition span_label (x : span) : string := x.2.

Definition opaque_label : string := "[REDACTED]".

Definition can_splice (result : list ascii) (x : span) : bool :=
  (span_end x <=? List.length result) && (span_start x <=? span_end x) &&
  is_char_boundary result (span_start x) && is_char_boundary result (span_end x).

Fixpoint splice_loop (spans : list span) (result : list ascii) : list ascii :=
  match spans with
  | [] => result
  | x :: rest =>
      if can_splice result x
      then splice_loop rest (replace_range result (span_start x) (span_end x) (span_label x))
      else bytes opaque_label
  end.

(** ** [ScanResult::redact] *)

Record MergedSpan := {
  ms_offset : nat;
  ms_end : nat;
  ms_label : string;
  ms_kind : CredentialKind;
}.

Definition pair_leb (a b : nat * nat) : bool := (a.1 <? b.1) || ((a.1 =? b.1) && (a.2 <=? b.2)).

Definition finding_leb (f g : CredentialFinding) : bool :=
  pair_leb (cf_offset f, cf_end f) (cf_offset g, cf_end g).

(** The merged spans are kept last first, the [Vec] of the code reversed. *)
Definition coalesce_step (merged : list MergedSpan) (f : CredentialFinding) : list MergedSpan :=
  let fresh := {| ms_offset := cf_offset f; ms_end := cf_end f;
                  ms_label := cf_matched f; ms_kind := cf_kind f |} in
  match merged with
  | last :: rest =>
      if cf_offset f <? ms_end last
      then let higher := Kind.priority (ms_kind last) <? Kind.priority (cf_kind f) in
           {| ms_offset := ms_offset last; ms_end := ms_end last `max` cf_end f;
              ms_label := if higher then cf_matched f else ms_label last;
              ms_kind := if higher then cf_kind f else ms_kind last |} :: rest
      else fresh :: merged
  | [] => [fresh]
  end.

Definition coalesce_findings (findings : list CredentialFinding) : list MergedSpan :=
  rev (foldl coalesce_step [] (stable_sort finding_leb findings)).

Definition merged_span (m : MergedSpan) : span := (ms_offset m, ms_end m, ms_label m).

Definition redact (findings : list CredentialFinding) (text : string) : string :=
  text_of (splice_loop (map merged_span (rev (coalesce_findings findings))) (bytes text)).

(** ** Canonical categories (canonical/category.rs, canonical/mapping.rs) *)

Module Base.
Inductive CategoryBase :=
| ApiKey | CloudAccessKey | CloudServiceAccountKey | CloudConnectionString | AccessToken
| DatabaseConnectionUri | PrivateKey | PaymentCardNumber | EmailAddress | NationalId
| TaxIdentifier | PhoneNumber | HighEntropySecret | PolicyDefinedMatch.

#[global] Instance CategoryBase_eq_dec : EqDecision CategoryBase.
Proof. solve_decision. Defined.

Definition as_str (b : CategoryBase) : string :=
  match b with
  | ApiKey => "API_KEY"
  | CloudAccessKey => "CLOUD_ACCESS_KEY"
  | CloudServiceAccountKey => "CLOUD_SERVICE_ACCOUNT_KEY"
  | CloudConnectionString => "CLOUD_CONNECTION_STRING"
  | AccessToken => "ACCESS_TOKEN"
  | DatabaseConnectionUri => "DATABASE_CONNECTION_URI"
  | PrivateKey => "PRIVATE_KEY"
  | PaymentCardNumber => "PAYMENT_CARD_NUMBER"
  | EmailAddress => "EMAIL_ADDRESS"
  | NationalId => "NATIONAL_ID"
  | TaxIdentifier => "TAX_IDENTIFIER"
  | PhoneNumber => "PHONE_NUMBER"
  | HighEntropySecret => "HIGH_ENTROPY_SECRET"
  | PolicyDefinedMatch => "POLICY_DEFINED_MATCH"
  end.
End Base.

Module Qual.
Inductive CategoryQualifier :=
| Locale (tag variant : string)
| Scheme (scheme variant : string).

#[global] Instance CategoryQualifier_eq_dec : EqDecision CategoryQualifier.
Proof. solve_decision. Defined.

Definition display (q : CategoryQualifier) : string :=
  match q with
  | Locale tag variant => String.append tag (String.append "/" variant)
  | Scheme scheme variant => String.append scheme (String.append ":" variant)
  end.
End Qual.

Record CanonicalCategory := {
  cc_base : Base.CategoryBase;
  cc_qualifier : option Qual.CategoryQualifier;
}.

#[export] Instance CanonicalCategory_eq_dec : EqDecision CanonicalCategory.
Proof. solve_decision. Defined.

Definition unqualified (b : Base.CategoryBase) : CanonicalCategory :=
  {| cc_base := b; cc_qualifier := None |}.

(** [assert!(is_well_formed_field(..))] guards both constructors in the code; every
    call below is a constant that satisfies it. *)
Definition with_locale (b : Base.CategoryBase) (tag variant : string) : CanonicalCategory :=
  {| cc_base := b; cc_qualifier := Some (Qual.Locale tag variant) |}.

Definition with_scheme (b : Base.CategoryBase) (scheme variant : string) : CanonicalCategory :=
  {| cc_base := b; cc_qualifier := Some (Qual.Scheme scheme variant) |}.

Definition category_display (c : CanonicalCategory) : string :=
  match cc_qualifier c with
  | Some q => String.append (Base.as_str (cc_base c))
                (String.append "[" (String.append (Qual.display q) "]"))
  | None => Base.as_str (cc_base c)
  end.

Definition category_ALL : list CanonicalCategory :=
  [with_scheme Base.ApiKey "anthropic" "key";
   with_scheme Base.ApiKey "openai" "key";
   with_scheme Base.CloudAccessKey "aws" "access_key_id";
   with_scheme Base.CloudServiceAccountKey "gcp" "service_account_json";
   with_scheme Base.CloudConnectionString "azure" "storage";
   with_scheme Base.AccessToken "github" "app_installation";
   with_scheme Base.AccessToken "github" "oauth";
   with_scheme Base.AccessToken "github" "personal_access";
   with_scheme Base.AccessToken "github" "refresh";
   with_scheme Base.AccessToken "github" "user_to_server";
   with_scheme Base.AccessToken "slack" "app_level";
   with_scheme Base.AccessToken "slack" "bot";
   with_scheme Base.AccessToken "slack" "oauth";
   with_scheme Base.AccessToken "slack" "refresh";
   with_scheme Base.AccessToken "slack" "user";
   with_scheme Base.DatabaseConnectionUri "mongodb" "uri";
   with_scheme Base.DatabaseConnectionUri "mysql" "uri";
   with_scheme Base.DatabaseConnectionUri "postgresql" "uri";
   with_scheme Base.PrivateKey "pem" "ec";
   with_scheme Base.PrivateKey "pem" "openssh";
   with_scheme Base.PrivateKey "pem" "pgp";
   with_scheme Base.PrivateKey "pem" "pkcs8";
   with_scheme Base.PrivateKey "pem" "rsa";
   unqualified Base.PaymentCardNumber;
   unqualified Base.EmailAddress;
   with_locale Base.NationalId "en-US" "ssn";
   unqualified Base.HighEntropySecret;
   unqualified Base.PolicyDefinedMatch;
   with_locale Base.NationalId "zh-TW" "national_id";
   with_locale Base.NationalId "zh-TW" "arc_new";
   with_locale Base.NationalId "zh-TW" "arc_legacy";
   with_locale Base.TaxIdentifier "zh-TW" "business_id";
   with_locale Base.PhoneNumber "zh-TW" "mobile";
   with_locale Base.PhoneNumber "zh-TW" "landline"].

Definition from_credential_kind (k : CredentialKind) : CanonicalCategory :=
  match k with
  | Kind.AnthropicKey => with_scheme Base.ApiKey "anthropic" "key"
  | Kind.OpenAiKey => with_scheme Base.ApiKey "openai" "key"
  | Kind.AwsAccessKey => with_scheme Base.CloudAccessKey "aws" "access_key_id"
  | Kind.GcpServiceAccount => with_scheme Base.CloudServiceAccountKey "gcp" "service_account_json"
  | Kind.AzureConnectionString => with_scheme Base.CloudConnectionString "azure" "storage"
  | Kind.GitHubAppToken => with_scheme Base.AccessToken "github" "app_installation"
  | Kind.GitHubOAuthToken => with_scheme Base.AccessToken "github" "oauth"
  | Kind.GitHubPat => with_scheme Base.AccessToken "github" "personal_access"
  | Kind.GitHubRefreshToken => with_scheme Base.AccessToken "github" "refresh"
  | Kind.GitHubUserToken => with_scheme Base.AccessToken "github" "user_to_server"
  | Kind.SlackAppToken => with_scheme Base.AccessToken "slack" "app_level"
  | Kind.SlackBotToken => with_scheme Base.AccessToken "slack" "bot"
  | Kind.SlackOAuthToken => with_scheme Base.AccessToken "slack" "oauth"
  | Kind.SlackRefreshToken => with_scheme Base.AccessToken "slack" "refresh"
  | Kind.SlackUserToken => with_scheme Base.AccessToken "slack" "user"
  | Kind.MongodbUrl => with_scheme Base.DatabaseConnectionUri "mongodb" "uri"
  | Kind.MysqlUrl => with_scheme Base.DatabaseConnectionUri "mysql" "uri"
  | Kind.PostgresUrl => with_scheme Base.DatabaseConnectionUri "postgresql" "uri"
  | Kind.EcPrivateKey => with_scheme Base.PrivateKey "pem" "ec"
  | Kind.OpensshPrivateKey => with_scheme Base.PrivateKey "pem" "openssh"
  | Kind.PgpPrivateKey => with_scheme Base.PrivateKey "pem" "pgp"
  | Kind.PrivateKey => with_scheme Base.PrivateKey "pem" "pkcs8"
  | Kind.RsaPrivateKey => with_scheme Base.PrivateKey "pem" "rsa"
  | Kind.CreditCardLuhn => unqualified Base.PaymentCardNumber
  | Kind.EmailAddress => unqualified Base.EmailAddress
  | Kind.SsnPattern => with_locale Base.NationalId "en-US" "ssn"
  | Kind.GenericHighEntropy => unqualified Base.HighEntropySecret
  | Kind.Custom => unqualified Base.PolicyDefinedMatch
  end.

(** A [match] on string literals: the first listed literal that is equal. *)
Fixpoint match_str {A} (s : string) (arms : list (string * A)) : option A :=
  match arms with
  | [] => None
  | (lit, a) :: arms' => if String.eqb s lit then Some a else match_str s arms'
  end.

Definition to_credential_kind (c : CanonicalCategory) : option CredentialKind :=
  match cc_base c, cc_qualifier c with
  | Base.ApiKey, Some (Qual.Scheme scheme variant) =>
      if String.eqb variant "key"
      then match_str scheme [("anthropic"%string, Kind.AnthropicKey); ("openai"%string, Kind.OpenAiKey)]
      else None
  | Base.CloudAccessKey, Some (Qual.Scheme scheme variant) =>
      if String.eqb scheme "aws" && String.eqb variant "access_key_id" then Some Kind.AwsAccessKey else None
  | Base.CloudServiceAccountKey, Some (Qual.Scheme scheme variant) =>
      if String.eqb scheme "gcp" && String.eqb variant "service_account_json"
      then Some Kind.GcpServiceAccount else None
  | Base.CloudConnectionString, Some (Qual.Scheme scheme variant) =>
      if String.eqb scheme "azure" && String.eqb variant "storage"
      then Some Kind.AzureConnectionString else None
  | Base.AccessToken, Some (Qual.Scheme scheme variant) =>
      if String.eqb scheme "github"
      then match_str variant
             [("app_installation"%string, Kind.GitHubAppToken); ("oauth"%string, Kind.GitHubOAuthToken);
              ("personal_access"%string, Kind.GitHubPat); ("refresh"%string, Kind.GitHubRefreshToken);
              ("user_to_server"%string, Kind.GitHubUserToken)]
      else if String.eqb scheme "slack"
      then match_str variant
             [("app_level"%string, Kind.SlackAppToken); ("bot"%string, Kind.SlackBotToken);
              ("oauth"%string, Kind.SlackOAuthToken); ("refresh"%string, Kind.SlackRefreshToken);
              ("user"%string, Kind.SlackUserToken)]
      else None
  | Base.DatabaseConnectionUri, Some (Qual.Scheme scheme variant) =>
      if String.eqb variant "uri"
      then match_str scheme
             [("mongodb"%string, Kind.MongodbUrl); ("mysql"%string, Kind.MysqlUrl);
              ("postgresql"%string, Kind.PostgresUrl)]
      else None
  | Base.PrivateKey, Some (Qual.Scheme scheme variant) =>
      if String.eqb scheme "pem"
      then match_str variant
             [("ec"%string, Kind.EcPrivateKey); ("openssh"%string, Kind.OpensshPrivateKey);
              ("pgp"%string, Kind.PgpPrivateKey); ("pkcs8"%string, Kind.PrivateKey);
              ("rsa"%string, Kind.RsaPrivateKey)]
      else None
  | Base.PaymentCardNumber, None => Some Kind.CreditCardLuhn
  | Base.EmailAddress, None => Some Kind.EmailAddress
  | Base.NationalId, Some (Qual.Locale tag variant) =>
      if String.eqb tag "en-US" && String.eqb variant "ssn" then Some Kind.SsnPattern else None
  | Base.HighEntropySecret, None => Some Kind.GenericHighEntropy
  | Base.PolicyDefinedMatch, None => Some Kind.Custom
  | _, _ => None
  end.

Definition redaction_label (c : CanonicalCategory) : string :=
  match to_credential_kind c with
  | Some kind => redacted_kind_label kind
  | None => opaque_label
  end.

(** [renders_as] consumes the candidate fragment by fragment and accepts it when
    every fragment of the rendering, and nothing else, was consumed. *)
Definition category_fragments (c : CanonicalCategory) : list string :=
  match cc_qualifier c with
  | Some (Qual.Locale tag variant) => [Base.as_str (cc_base c); "["; tag; "/"; variant; "]"]%string
  | Some (Qual.Scheme scheme variant) => [Base.as_str (cc_base c); "["; scheme; ":"; variant; "]"]%string
  | None => [Base.as_str (cc_base c)]
  end.

Fixpoint probe (fragments : list string) (expected : string) : option string :=
  match fragments with
  | [] => Some expected
  | s :: rest =>
      match strip_prefix expected s with
      | Some expected' => probe rest expected'
      | None => None
      end
  end.

Definition renders_as (c : CanonicalCategory) (candidate : string) : bool :=
  match probe (category_fragments c) candidate with
  | Some rest => is_empty rest
  | None => false
  end.

Definition category_from_str (s : string) : option CanonicalCategory :=
  List.find (λ c, renders_as c s) category_ALL.

(** ** Canonical findings (canonical/finding.rs, canonical/lift.rs) *)

Module Severity.
Inductive Severity := Critical | High | Medium | Low.

Definition as_str (s : Severity) : string :=
  match s with Critical => "critical" | High => "high" | Medium => "medium" | Low => "low" end.

Definition from_label (label : string) : option Severity :=
  match_str label [("critical"%string, Critical); ("high"%string, High);
                   ("medium"%string, Medium); ("low"%string, Low)].

Definition for_credential_kind (k : CredentialKind) : Severity :=
  default Critical (from_label (Kind.severity k)).
End Severity.

Module Confidence.
Inductive ConfidenceBand := High | Medium | Low.

Definition for_credential_kind (k : CredentialKind) : ConfidenceBand :=
  match k with
  | Kind.GenericHighEntropy => Low
  | Kind.EmailAddress | Kind.CreditCardLuhn | Kind.SsnPattern => Medium
  | _ => High
  end.
End Confidence.

Module Method.
Inductive DetectionMethod := Deterministic | Heuristic | Nlp | PolicyDefined.

Definition for_credential_kind (k : CredentialKind) : DetectionMethod :=
  match k with
  | Kind.GenericHighEntropy => Heuristic
  | Kind.EmailAddress => Heuristic
  | Kind.Custom => PolicyDefined
  | _ => Deterministic
  end.
End Method.

Inductive FindingStatus := Confirmed | Suspected | ProviderDisagreement | NeedsReview | Dismissed.

Inductive Recognizer := BuiltinScanner | PolicyRegex | ZhTwLocalePack.

(** [Provenance]: a recognizer and the version text of the crate, a build constant. *)
Record Provenance := { pv_recognizer : Recognizer; pv_version : string }.

Record CanonicalFinding := {
  kf_category : CanonicalCategory;
  kf_severity : Severity.Severity;
  kf_confidence : Confidence.ConfidenceBand;
  kf_start : nat;
  kf_end : nat;
  kf_method : Method.DetectionMethod;
  kf_provenance : Provenance;
  kf_status : FindingStatus;
}.

Inductive LiftError := MalformedSpan (offset fin : nat).

(** [CanonicalFinding::new]: a finding covers at least one byte. *)
Definition canonical_new category severity confidence (start fin : nat) method provenance status
  : result CanonicalFinding LiftError :=
  if fin <=? start then Err (MalformedSpan start fin)
  else Ok {| kf_category := category; kf_severity := severity; kf_confidence := confidence;
             kf_start := start; kf_end := fin; kf_method := method; kf_provenance := provenance;
             kf_status := status |}.

Section Lift.
Context (pkg_version : string).

Definition provenance_for (k : CredentialKind) : Provenance :=
  match k with
  | Kind.Custom => {| pv_recognizer := PolicyRegex; pv_version := pkg_version |}
  | _ => {| pv_recognizer := BuiltinScanner; pv_version := pkg_version |}
  end.

Definition canonical_try_from (f : CredentialFinding) : result CanonicalFinding LiftError :=
  if cf_end f <=? cf_offset f then Err (MalformedSpan (cf_offset f) (cf_end f))
  else
    let confidence := Confidence.for_credential_kind (cf_kind f) in
    canonical_new (from_credential_kind (cf_kind f)) (Severity.for_credential_kind (cf_kind f)) confidence
      (cf_offset f) (cf_end f) (Method.for_credential_kind (cf_kind f)) (provenance_for (cf_kind f))
      (match confidence with
       | Confidence.High => Confirmed
       | Confidence.Medium | Confidence.Low => Suspected
       end).
End Lift.

(** ** [redact_findings] (canonical/redact.rs) *)

Record CanonicalSpan := {
  cs_start : nat;
  cs_end : nat;
  cs_category : option CanonicalCategory;
}.

Definition span_label_of (m : CanonicalSpan) : string :=
  match cs_category m with Some category => redaction_label category | None => opaque_label end.

Definition canonical_leb (f g : CanonicalFinding) : bool :=
  pair_leb (kf_start f, kf_end f) (kf_start g, kf_end g).

Definition merge_canonical_step (merged : list CanonicalSpan) (f : CanonicalFinding) : list CanonicalSpan :=
  let fresh := {| cs_start := kf_start f; cs_end := kf_end f; cs_category := Some (kf_category f) |} in
  match merged with
  | last :: rest =>
      if kf_start f <? cs_end last
      then {| cs_start := cs_start last; cs_end := cs_end last `max` kf_end f;
              cs_category := if decide (cs_category last = Some (kf_category f))
                             then cs_category last else None |} :: rest
      else fresh :: merged
  | [] => [fresh]
  end.

Definition merge_canonical (findings : list CanonicalFinding) : list CanonicalSpan :=
  rev (foldl merge_canonical_step [] (stable_sort canonical_leb findings)).

Definition canonical_span (m : CanonicalSpan) : span := (cs_start m, cs_end m, span_label_of m).

Definition redact_findings (text : string) (findings : list CanonicalFinding) : string :=
  text_of (splice_loop (map canonical_span (rev (merge_canonical findings))) (bytes text)).
