(* ===== verification/Redaction.v ===== *)
(** * Redaction: no flagged byte survives

    The splice loop shared by [ScanResult::redact] and [redact_findings] against
    a direct specification: the output is the text with every covered byte
    removed and a label for every run of overlapping findings, or the opaque
    label alone when a finding does not fit the text. *)

From stdpp Require Import base strings list.
From Stdlib Require Import ZArith Lia Bool Ascii String Sorted.
From S2P Require Import Prelude.
From S2P Require Import Text.
From S2P Require Import Findings.

Open Scope nat_scope.

(** ** Specification *)

Inductive chunk := Kept (l : list ascii) | Label (s : string).

Definition chunk_bytes (c : chunk) : list ascii :=
  match c with Kept l => l | Label s => bytes s end.

Definition flatten (cs : list chunk) : list ascii := List.concat (map chunk_bytes cs).

Definition kept_bytes (c : chunk) : list ascii := match c with Kept l => l | Label _ => [] end.

Definition kept (cs : list chunk) : list ascii := List.concat (map kept_bytes cs).

Definition labels (cs : list chunk) : list string :=
  omap (λ c, match c with Label s => Some s | Kept _ => None end) cs.

(** The bytes of a text at the positions a predicate does not cover. *)
Fixpoint uncovered (covers : nat → bool) (i : nat) (s : list ascii) : list ascii :=
  match s with
  | [] => []
  | c :: s' => if covers i then uncovered covers (S i) s' else c :: uncovered covers (S i) s'
  end.

Definition in_interval (i : nat) (x : nat * nat) : bool := (x.1 <=? i) && (i <? x.2).
Definition covered (xs : list (nat * nat)) (i : nat) : bool := existsb (in_interval i) xs.

Lemma covered_cons x xs i : covered (x :: xs) i = in_interval i x || covered xs i.
Proof. done. Qed.

#[local] Arguments covered : simpl never.

(** ** Uncovered bytes *)

Lemma uncovered_app p i l k : uncovered p i (l ++ k) = uncovered p i l ++ uncovered p (i + List.length l) k.
Proof.
  revert i; induction l as [|c l IH]; intros i; simpl; [by rewrite Nat.add_0_r|].
  rewrite IH, <- Nat.add_succ_comm. by destruct (p i).
Qed.

Lemma uncovered_ext p q i l :
  (∀ j, i ≤ j < i + List.length l → p j = q j) → uncovered p i l = uncovered q i l.
Proof.
  revert i; induction l as [|c l IH]; intros i Hpq; simpl in *; [done|].
  rewrite (Hpq i) by lia. rewrite (IH (S i)); [done|]. intros j Hj. apply Hpq. lia.
Qed.

Lemma uncovered_none p i l :
  (∀ j, i ≤ j < i + List.length l → p j = false) → uncovered p i l = l.
Proof.
  intros Hp. rewrite (uncovered_ext p (λ _, false)) by done.
  clear. revert i; induction l as [|c l IH]; intros i; simpl; [done|]. by rewrite IH.
Qed.

Lemma uncovered_all p i l :
  (∀ j, i ≤ j < i + List.length l → p j = true) → uncovered p i l = [].
Proof.
  intros Hp. rewrite (uncovered_ext p (λ _, true)) by done.
  clear. revert i; induction l as [|c l IH]; intros i; simpl; [done|]. by rewrite IH.
Qed.

(** ** The splice loop *)

Definition span_interval (x : span) : nat * nat := (span_start x, span_end x).

(** The loop over the reversed spans, read from the first span. *)
Fixpoint splice_up (spans : list span) (text : list ascii) : option (list ascii) :=
  match spans with
  | [] => Some text
  | x :: rest =>
      match splice_up rest text with
      | Some result =>
          if can_splice result x
          then Some (replace_range result (span_start x) (span_end x) (span_label x)) else None
      | None => None
      end
  end.

Lemma splice_up_snoc xs x text :
  splice_up (xs ++ [x]) text =
    if can_splice text x
    then splice_up xs (replace_range text (span_start x) (span_end x) (span_label x)) else None.
Proof.
  induction xs as [|y xs IH]; simpl; [done|]. rewrite IH. by destruct (can_splice text x).
Qed.

Lemma splice_loop_up spans text :
  splice_loop (rev spans) text = default (bytes opaque_label) (splice_up spans text).
Proof.
  revert text. induction spans as [|x spans IH] using rev_ind; intros text; simpl; [done|].
  rewrite rev_app_distr, splice_up_snoc. simpl. destruct (can_splice text x); [apply IH|done].
Qed.

Fixpoint pieces (text : list ascii) (pos : nat) (spans : list span) : list chunk :=
  match spans with
  | [] => [Kept (drop pos text)]
  | x :: rest =>
      Kept (take (span_start x - pos) (drop pos text)) :: Label (span_label x) ::
      pieces text (span_end x) rest
  end.

(** Spans in order, each starting at or after the end of the one before. *)
Inductive chain : nat → list span → Prop :=
| chain_nil pos : chain pos []
| chain_cons pos x rest : pos ≤ span_start x → chain (span_end x) rest → chain pos (x :: rest).

Definition fits (text : list ascii) (x : span) : Prop :=
  span_start x ≤ span_end x ≤ List.length text.

Lemma can_splice_fits r x : can_splice r x = true → fits r x.
Proof. unfold can_splice, fits. rewrite !andb_true_iff, !Nat.leb_le. tauto. Qed.

Lemma splice_up_pieces text spans r :
  chain 0 spans → splice_up spans text = Some r →
  r = flatten (pieces text 0 spans) ∧ Forall (fits text) spans.
Proof.
  intros Hc Hs.
  cut (match spans with
       | [] => r = text
       | x :: rest => r = take (span_start x) text ++ bytes (span_label x) ++ flatten (pieces text (span_end x) rest)
       end ∧ Forall (fits text) spans).
  { intros [Hr Hf]. split; [|done]. destruct spans as [|x rest]; simpl in *; subst.
    - unfold flatten; simpl. by rewrite app_nil_r.
    - unfold flatten; simpl. by rewrite Nat.sub_0_r. }
  revert r Hs Hc. generalize 0. induction spans as [|x rest IH]; intros pos r Hs Hc; simpl in *; [by simplify_eq|].
  inversion Hc as [|? ? ? Hpos Hrest]; subst.
  destruct (splice_up rest text) as [r0|] eqn:E; [|done]. destruct (can_splice r0 x) eqn:Ec; [|done].
  apply can_splice_fits in Ec. simplify_eq. destruct (IH _ _ eq_refl Hrest) as [Hr0 Hf]. unfold replace_range.
  unfold fits in Ec. destruct rest as [|y rest].
  - subst r0. split; [|constructor; [unfold fits; lia|constructor]]. unfold flatten; simpl. by rewrite app_nil_r.
  - inversion Hrest as [|? ? ? Hxy _]; subst. apply Forall_cons in Hf as Hf'. destruct Hf' as [Hy _]. unfold fits in Hy.
    rewrite !take_app_le by (rewrite length_take; lia). rewrite take_take, Nat.min_l by lia.
    rewrite drop_app_le by (rewrite length_take; lia). split.
    + unfold flatten; simpl. by rewrite take_drop_commute, Nat.add_comm, Nat.sub_add by lia.
    + constructor; [|done]. unfold fits. lia.
Qed.

Lemma labels_pieces text pos spans : labels (pieces text pos spans) = map span_label spans.
Proof. revert pos; induction spans as [|x rest IH]; intros pos; simpl; [done|]. unfold labels in *. simpl. by rewrite IH. Qed.

Lemma chain_covered pos spans i : chain pos spans → i < pos → Forall (λ x, span_start x ≤ span_end x) spans →
  covered (map span_interval spans) i = false.
Proof.
  induction 1 as [|pos x rest Hpos Hc IH]; intros Hi Hf; simpl; [done|]. inversion Hf; subst.
  rewrite covered_cons, IH by (done || lia). unfold in_interval. simpl.
  by rewrite (proj2 (Nat.leb_gt _ _)) by lia.
Qed.

Lemma kept_pieces text pos spans :
  chain pos spans → Forall (fits text) spans → pos ≤ List.length text →
  kept (pieces text pos spans) = uncovered (covered (map span_interval spans)) pos (drop pos text).
Proof.
  intros Hc. induction Hc as [pos|pos x rest Hpos Hc IH]; intros Hf Hlen; unfold kept in *; simpl in *.
  { rewrite app_nil_r. by rewrite uncovered_none by done. }
  inversion Hf as [|? ? Hx Hrest]; subst. unfold fits in Hx. rewrite IH by (done || lia).
  assert (Forall (λ x, span_start x ≤ span_end x) rest) as Hord.
  { eapply Forall_impl; [exact Hrest|]. unfold fits. simpl. lia. }
  rewrite <- (take_drop (span_start x - pos) (drop pos text)) at 2. rewrite uncovered_app.
  rewrite drop_drop, length_take, length_drop, Nat.min_l by lia.
  replace (pos + (span_start x - pos)) with (span_start x) by lia. f_equal.
  { rewrite uncovered_none; [done|]. intros j Hj. rewrite length_take, length_drop in Hj. rewrite covered_cons.
    rewrite (chain_covered (span_end x) rest) by (done || lia).
    unfold in_interval; simpl. by rewrite (proj2 (Nat.leb_gt _ _)) by lia. }
  rewrite <- (take_drop (span_end x - span_start x) (drop (span_start x) text)). rewrite uncovered_app.
  rewrite drop_drop, length_take, length_drop, Nat.min_l by lia.
  replace (span_start x + (span_end x - span_start x)) with (span_end x) by lia.
  rewrite (uncovered_all _ (span_start x)); simpl.
  - apply uncovered_ext. intros j Hj. rewrite covered_cons. unfold in_interval. simpl.
    by rewrite (proj2 (Nat.ltb_ge j (span_end x))), andb_false_r by lia.
  - intros j Hj. rewrite length_take, length_drop in Hj. rewrite covered_cons. unfold in_interval. simpl.
    by rewrite (proj2 (Nat.leb_le _ _)), (proj2 (Nat.ltb_lt _ _)) by lia.
Qed.

(** ** Spans that fit are always spliced *)

Definition label_ok (s : string) : Prop := head (bytes s) = Some "["%char.

Definition placed (text : list ascii) (x : nat * nat) : Prop :=
  x.1 ≤ x.2 ≤ List.length text ∧ is_char_boundary text x.1 = true ∧ is_char_boundary text x.2 = true.

Lemma boundary_prefix text q l i :
  q ≤ List.length text → head l = Some "["%char → i ≤ q → is_char_boundary text i = true →
  is_char_boundary (take q text ++ l) i = true.
Proof.
  intros Hq Hl Hi. unfold is_char_boundary. destruct (i =? 0) eqn:E; [done|].
  destruct (decide (i = q)) as [->|].
  - intros _. rewrite lookup_app_r by (rewrite length_take; lia). rewrite length_take, Nat.min_l, Nat.sub_diag by lia.
    destruct l as [|c l]; simpl in *; [done|]. by simplify_eq.
  - rewrite lookup_app_l by (rewrite length_take; lia). rewrite lookup_take_lt by lia.
    destruct (text !! i) eqn:El; [done|]. apply lookup_ge_None in El. lia.
Qed.

Lemma splice_up_placed text spans :
  chain 0 spans → Forall (λ x, placed text (span_interval x)) spans → Forall (label_ok ∘ span_label) spans →
  is_Some (splice_up spans text).
Proof.
  intros Hc Hp Hl.
  cut (∃ r, splice_up spans text = Some r ∧
            match spans with
            | [] => r = text
            | x :: _ => ∃ tl, r = take (span_start x) text ++ tl ∧ head tl = Some "["%char
            end).
  { intros (r & -> & _). by eexists. }
  revert Hc. generalize 0. induction spans as [|x rest IH]; intros pos Hc; simpl; [by exists text|].
  inversion Hc as [|? ? ? Hpos Hrest]; inversion Hp as [|? ? [Hx [Hb1 Hb2]] Hp']; inversion Hl as [|? ? Hlx Hl']; subst.
  simpl in *. destruct (IH Hp' Hl' _ Hrest) as (r & -> & Hr).
  assert (can_splice r x = true ∧ span_start x ≤ List.length r ∧ take (span_start x) r = take (span_start x) text)
    as (Hcs & Hle & Ht).
  { unfold can_splice. rewrite !andb_true_iff, !Nat.leb_le. destruct rest as [|y rest].
    - subst r. repeat split; (done || lia).
    - destruct Hr as (tl & -> & Hhd). inversion Hrest as [|? ? ? Hxy _]; inversion Hp' as [|? ? [Hy _] _]; subst.
      simpl in *. assert (1 ≤ List.length tl) by (destruct tl; simpl in *; [done|lia]).
      rewrite length_app, length_take. repeat split; try lia;
        try (apply boundary_prefix; (done || lia)).
      rewrite take_app_le by (rewrite length_take; lia). by rewrite take_take, Nat.min_l by lia. }
  rewrite Hcs. eexists; split; [done|]. exists (bytes (span_label x) ++ drop (span_end x) r). unfold replace_range.
  rewrite Ht. split; [done|]. unfold label_ok in Hlx. simpl in Hlx. by destruct (bytes (span_label x)).
Qed.

(** ** Coalescing intervals *)

(** Both coalescing loops, on the intervals alone (last merged interval first). *)
Definition merge_interval (merged : list (nat * nat)) (f : nat * nat) : list (nat * nat) :=
  match merged with
  | last :: rest => if f.1 <? last.2 then (last.1, last.2 `max` f.2) :: rest else f :: merged
  | [] => [f]
  end.

Fixpoint chain_rev (bound : nat) (merged : list (nat * nat)) : Prop :=
  match merged with
  | [] => True
  | x :: rest => x.2 ≤ bound ∧ chain_rev x.1 rest
  end.

(** Starts do not decrease, and none lies before a merged start. *)
Fixpoint ascending (low : nat) (fs : list (nat * nat)) : Prop :=
  match fs with [] => True | f :: fs' => low ≤ f.1 ∧ ascending f.1 fs' end.

Definition last_start (merged : list (nat * nat)) : nat := match merged with [] => 0 | x :: _ => x.1 end.

Definition chained (merged : list (nat * nat)) : Prop :=
  match merged with [] => True | x :: rest => chain_rev x.1 rest end.

Section MergeIntervals.
(** A property of intervals that the union of two overlapping ones keeps. *)
Context (R : nat * nat → Prop) (HR : ∀ x f, R x → R f → R (x.1, x.2 `max` f.2)).

Lemma merge_interval_inv merged f :
  last_start merged ≤ f.1 → chained merged → Forall R merged → R f →
  chained (merge_interval merged f) ∧ Forall R (merge_interval merged f) ∧
  last_start (merge_interval merged f) ≤ f.1 ∧
  ∀ i, covered (merge_interval merged f) i = in_interval i f || covered merged i.
Proof.
  intros Hlow Hc HP Hf. destruct merged as [|x rest]; simpl in *; [by repeat split; auto|].
  inversion HP as [|? ? Hx Hrest]; subst. destruct (f.1 <? x.2) eqn:E; simpl.
  - apply Nat.ltb_lt in E. repeat split; try done.
    + constructor; [|done]. by apply HR.
    + intros i. rewrite !covered_cons, orb_assoc. f_equal. unfold in_interval. simpl.
      apply eq_bool_prop_intro. rewrite !Is_true_true, orb_true_iff, !andb_true_iff, !Nat.leb_le, !Nat.ltb_lt. lia.
  - apply Nat.ltb_ge in E. repeat split; try done. constructor; [done|]. by constructor.
Qed.

Lemma merge_intervals fs merged :
  ascending (last_start merged) fs → chained merged → Forall R merged → Forall R fs →
  let out := foldl merge_interval merged fs in
  chained out ∧ Forall R out ∧ ∀ i, covered out i = covered fs i || covered merged i.
Proof.
  revert merged. induction fs as [|f fs IH]; intros merged Ha Hc HP Hf; simpl in *; [done|].
  inversion Hf as [|? ? Hf0 Hfs]; subst. destruct Ha as [Hlow Ha].
  destruct (merge_interval_inv merged f) as (Hc' & HP' & Hl' & Hcov); [done..|].
  destruct (IH (merge_interval merged f)) as (Hc2 & HP2 & Hcov2); try done.
  { destruct fs; simpl in *; [done|]. destruct Ha. split; [lia|done]. }
  repeat split; try done. intros i. rewrite Hcov2, Hcov, covered_cons.
  by rewrite orb_assoc, (orb_comm (covered fs i)).
Qed.
End MergeIntervals.

Lemma placed_merge text x f : placed text x → placed text f → placed text (x.1, x.2 `max` f.2).
Proof.
  intros (Hx & Hx1 & Hx2) (Hf & Hf1 & Hf2). unfold placed. simpl. repeat split; [lia|lia|done|].
  by destruct (Nat.max_spec x.2 f.2) as [[_ ->]|[_ ->]].
Qed.

Lemma chain_of_rev spans bound :
  chain_rev bound (map span_interval (rev spans)) → ∀ rest, chain bound rest → chain 0 (spans ++ rest).
Proof.
  revert bound. induction spans as [|x spans IH] using rev_ind; intros bound; simpl.
  - intros _ rest Hrest. destruct Hrest; constructor; (done || lia).
  - rewrite rev_app_distr. simpl. intros [Hx Hc] rest Hrest. rewrite <- app_assoc. simpl.
    eapply IH; [exact Hc|]. constructor; [done|].
    destruct Hrest; constructor; [|done]. unfold span_interval in Hx. simpl in Hx. lia.
Qed.

Lemma chain_of_chained spans : chained (map span_interval (rev spans)) → chain 0 spans.
Proof.
  destruct spans as [|x spans _] using rev_ind; [constructor|]. rewrite rev_app_distr. simpl. intros Hc.
  eapply chain_of_rev; [exact Hc|]. repeat constructor.
Qed.

(** ** The two redaction primitives *)

Lemma covered_perm xs ys i : (∀ x, x ∈ xs ↔ x ∈ ys) → covered xs i = covered ys i.
Proof.
  intros Hxy. unfold covered. apply eq_bool_prop_intro. rewrite !Is_true_true, !existsb_exists.
  split; intros (x & Hx & Hi); exists x; (split; [|done]);
    apply list_elem_of_In, Hxy, list_elem_of_In; done.
Qed.

(** What a redaction of [text] may return for findings with the given intervals:
    the bytes no finding covers, in order, between labels that satisfy [L]; or
    the opaque label alone, when a finding is not [good]. *)
Definition redacts {F} (interval : F → nat * nat) (L : string → Prop) (good : F → Prop)
  (fs : list F) (text out : string) : Prop :=
  (∃ cs, out = text_of (flatten cs) ∧
         kept cs = uncovered (covered (map interval fs)) 0 (bytes text) ∧ Forall L (labels cs)) ∨
  (out = opaque_label ∧ ∃ f, f ∈ fs ∧ ¬ good f).

Lemma redacts_good {F} (interval : F → nat * nat) L (good good' : F → Prop) fs text out :
  (∀ f, good' f → good f) → redacts interval L good fs text out → redacts interval L good' fs text out.
Proof. intros Hg [?|(? & f & ? & ?)]; [by left|]. right. split; [done|]. exists f. auto. Qed.

#[export] Instance placed_dec text x : Decision (placed text x).
Proof. unfold placed. apply _. Defined.

Lemma pair_leb_ascending {F} (interval : F → nat * nat) fs :
  StronglySorted (λ f g, (interval f).1 ≤ (interval g).1) fs → ascending 0 (map interval fs).
Proof.
  cut (∀ low, Forall (λ g, low ≤ (interval g).1) fs → StronglySorted (λ f g, (interval f).1 ≤ (interval g).1) fs →
              ascending low (map interval fs)).
  { intros H. apply H. apply Forall_forall. intros. lia. }
  intros low Hlow Hs. revert low Hlow. induction Hs as [|f fs Hs IH Hf]; intros low Hlow; simpl; [done|].
  inversion Hlow; subst. split; [done|]. by apply IH.
Qed.

Section Primitive.
Context {F M : Type} (interval : F → nat * nat) (leb : F → F → bool).
Context (to_span : M → span) (step : list M → F → list M) (fs : list F).
Context (ok : F → Prop) `{!∀ f, Decision (ok f)} (L : string → Prop).
Context (Hleb : ∀ f g, leb f g = pair_leb (interval f) (interval g)).
Context (Hstep : ∀ ms f, map (span_interval ∘ to_span) (step ms f) =
                         merge_interval (map (span_interval ∘ to_span) ms) (interval f)).
Context (HstepL : ∀ ms f, f ∈ fs → Forall (L ∘ span_label ∘ to_span) ms →
                          Forall (L ∘ span_label ∘ to_span) (step ms f)).
Context (Hstep_ok : ∀ ms f, ok f → Forall (label_ok ∘ span_label ∘ to_span) ms →
                            Forall (label_ok ∘ span_label ∘ to_span) (step ms f)).

Lemma step_all (P : M → Prop) (Q : F → Prop) gs ms :
  (∀ ms f, Q f → Forall P ms → Forall P (step ms f)) → Forall P ms → Forall Q gs →
  Forall P (foldl step ms gs).
Proof.
  intros Hs HP HQ. revert ms HP. induction HQ as [|g gs Hg HQ IH]; intros ms HP; simpl; [done|].
  apply IH. by apply Hs.
Qed.

Lemma foldl_intervals gs ms :
  map (span_interval ∘ to_span) (foldl step ms gs) =
    foldl merge_interval (map (span_interval ∘ to_span) ms) (map interval gs).
Proof. revert ms; induction gs as [|g gs IH]; intros ms; simpl; [done|]. by rewrite IH, Hstep. Qed.

Lemma sorted_ascending : ascending 0 (map interval (stable_sort leb fs)).
Proof.
  apply pair_leb_ascending, stable_sort_sorted.
  - intros f g h. lia.
  - intros f g. rewrite Hleb. unfold pair_leb. rewrite orb_true_iff, andb_true_iff, Nat.ltb_lt, Nat.eqb_eq. lia.
  - intros f g. rewrite Hleb. unfold pair_leb. rewrite orb_false_iff, Nat.ltb_ge. lia.
Qed.

Lemma redact_loop_redacts text :
  redacts interval L (λ f, placed (bytes text) (interval f) ∧ ok f) fs text
    (text_of (splice_loop (map to_span (foldl step [] (stable_sort leb fs))) (bytes text))).
Proof.
  set (sorted := stable_sort leb fs). set (ms := foldl step [] sorted). set (spans := rev (map to_span ms)).
  assert (Hms : map span_interval (rev spans) = foldl merge_interval [] (map interval sorted)).
  { unfold spans, ms. rewrite rev_involutive, map_map. apply foldl_intervals. }
  assert (Hin : ∀ f, f ∈ sorted ↔ f ∈ fs) by (intros f; apply elem_of_stable_sort).
  assert (Hmerge : ∀ R : nat * nat → Prop, (∀ x f, R x → R f → R (x.1, x.2 `max` f.2)) →
            (∀ f, f ∈ fs → R (interval f)) →
            chain 0 spans ∧ Forall (λ x, R (span_interval x)) spans ∧
            ∀ i, covered (map span_interval spans) i = covered (map interval fs) i).
  { intros R HR Hfs. destruct (merge_intervals R HR (map interval sorted) []) as (Hc & HF & Hcov); simpl;
      [apply sorted_ascending|done|done| |].
    - apply Forall_forall. intros x [f [-> Hf]]%list_elem_of_fmap. apply Hfs. by apply Hin.
    - rewrite <- Hms in *. split; [by apply chain_of_chained|]. split.
      + rewrite Forall_map in HF. rewrite <- Forall_rev_iff. exact HF.
      + intros i. rewrite <- (covered_perm (map span_interval (rev spans))).
        * rewrite Hcov. unfold covered at 2. simpl. rewrite orb_false_r. apply covered_perm. intros x.
          rewrite !list_elem_of_fmap. by setoid_rewrite Hin.
        * intros x. by rewrite map_rev, elem_of_rev. }
  rewrite <- (rev_involutive (map to_span ms)). fold spans. rewrite splice_loop_up.
  destruct (splice_up spans (bytes text)) as [r|] eqn:E; simpl.
  - left. exists (pieces (bytes text) 0 spans).
    destruct (Hmerge (λ _, True)) as (Hc & _ & Hcov); [done..|].
    destruct (splice_up_pieces _ _ _ Hc E) as [-> Hf]. split; [done|]. split.
    + rewrite kept_pieces by (done || lia). simpl. apply uncovered_ext. intros j _. apply Hcov.
    + rewrite labels_pieces. unfold spans. rewrite map_rev, map_map. apply Forall_rev_iff, Forall_map.
      apply (step_all _ (.∈ fs)); [done|constructor|]. apply Forall_forall. intros f Hf'. by apply Hin.
  - right. split; [done|]. destruct (decide (Forall (λ f, placed (bytes text) (interval f) ∧ ok f) fs)) as [Hg|Hg].
    + exfalso. rewrite Forall_forall in Hg.
      destruct (Hmerge (placed (bytes text))) as (Hc & Hp & _); [apply placed_merge|intros f Hf; by apply Hg|].
      destruct (splice_up_placed (bytes text) spans) as [r Hr]; [done|done| |by rewrite Hr in E].
      unfold spans. apply Forall_rev_iff, Forall_map. apply (step_all _ ok); [done|constructor|].
      apply Forall_forall. intros f Hf. by apply Hg, Hin.
    + apply not_Forall_Exists in Hg; [|apply _]. by apply Exists_exists in Hg.
Qed.
End Primitive.

(** ** [ScanResult::redact] *)

Definition finding_interval (f : CredentialFinding) : nat * nat := (cf_offset f, cf_end f).

#[export] Instance label_ok_dec s : Decision (label_ok s).
Proof. unfold label_ok. apply _. Defined.

Lemma coalesce_step_interval ms f :
  map (span_interval ∘ merged_span) (coalesce_step ms f) =
    merge_interval (map (span_interval ∘ merged_span) ms) (finding_interval f).
Proof.
  destruct ms as [|m ms]; [done|]. unfold coalesce_step. cbn [map merge_interval].
  change ((finding_interval f).1 <? ((span_interval ∘ merged_span) m).2) with (cf_offset f <? ms_end m). by destruct (cf_offset f <? ms_end m).
Qed.

Lemma coalesce_step_label (P : string → Prop) ms f :
  P (cf_matched f) → Forall (P ∘ span_label ∘ merged_span) ms →
  Forall (P ∘ span_label ∘ merged_span) (coalesce_step ms f).
Proof.
  intros Hf Hms. destruct ms as [|m ms]; simpl; [by repeat constructor|].
  inversion Hms; subst. destruct (cf_offset f <? ms_end m); [|by repeat constructor].
  constructor; [|done]. simpl. by destruct (_ <? _).
Qed.

(** C36: Redacting a payload for the scanner's findings returns the
    payload's bytes that no finding covers, in their order, with nothing between
    them but labels of the findings; or, when some finding lies outside the payload,
    splits a UTF-8 character or carries a label not of the published form, the opaque
    label alone.  In no case does a byte of a flagged region survive, and no byte
    outside every flagged region is lost from a payload whose findings fit it. *)
Theorem redact_exact findings text :
  redacts finding_interval (λ s, ∃ f, f ∈ findings ∧ s = cf_matched f)
    (λ f, placed (bytes text) (finding_interval f) ∧ label_ok (cf_matched f))
    findings text (redact findings text).
Proof.
  unfold redact, coalesce_findings. rewrite rev_involutive.
  apply (redact_loop_redacts finding_interval finding_leb merged_span coalesce_step
           findings (λ f, label_ok (cf_matched f))).
  - done.
  - apply coalesce_step_interval.
  - intros ms f Hf. apply coalesce_step_label. by exists f.
  - intros ms f. apply coalesce_step_label.
Qed.

(** ** [redact_findings] *)

Definition canonical_interval (f : CanonicalFinding) : nat * nat := (kf_start f, kf_end f).

Lemma merge_canonical_step_interval ms f :
  map (span_interval ∘ canonical_span) (merge_canonical_step ms f) =
    merge_interval (map (span_interval ∘ canonical_span) ms) (canonical_interval f).
Proof.
  destruct ms as [|m ms]; [done|]. unfold merge_canonical_step. cbn [map merge_interval].
  change ((canonical_interval f).1 <? ((span_interval ∘ canonical_span) m).2) with (kf_start f <? cs_end m). by destruct (kf_start f <? cs_end m).
Qed.

Lemma merge_canonical_step_label (P : string → Prop) ms f :
  P opaque_label → P (redaction_label (kf_category f)) → Forall (P ∘ span_label ∘ canonical_span) ms →
  Forall (P ∘ span_label ∘ canonical_span) (merge_canonical_step ms f).
Proof.
  intros Ho Hf Hms. destruct ms as [|m ms]; simpl; [by repeat constructor|].
  inversion Hms; subst. destruct (kf_start f <? cs_end m); [|by repeat constructor].
  constructor; [|done]. simpl. unfold span_label_of. simpl. by case_decide.
Qed.

Lemma redaction_label_ok c : label_ok (redaction_label c).
Proof. unfold redaction_label. by destruct (to_credential_kind c). Qed.

(** Redacting by canonical findings, the primitive used
    as soon as a locale pack reported something, gives the same guarantee: the bytes
    no finding covers, between category labels (or the opaque label where findings of
    different categories overlap), and the opaque label alone exactly when a span
    does not fit the payload. *)
Theorem redact_findings_exact findings text :
  redacts canonical_interval (λ s, s = opaque_label ∨ ∃ f, f ∈ findings ∧ s = redaction_label (kf_category f))
    (λ f, placed (bytes text) (canonical_interval f))
    findings text (redact_findings text findings).
Proof.
  unfold redact_findings, merge_canonical. rewrite rev_involutive.
  apply (redacts_good _ _ (λ f, placed (bytes text) (canonical_interval f) ∧ True)); [done|].
  apply (redact_loop_redacts canonical_interval canonical_leb canonical_span merge_canonical_step
           findings (λ _, True)).
  - done.
  - apply merge_canonical_step_interval.
  - intros ms f Hf. apply merge_canonical_step_label; [by left|]. right. by exists f.
  - intros ms f _. apply merge_canonical_step_label; [done|]. apply redaction_label_ok.
Qed.

(** ** The taxonomy *)

(** The canonical taxonomy loses nothing: every detector
    kind maps to a category that maps back to it and redacts to the label the kind
    publishes, and the rendered form of every category of the catalogue parses back
    to that category. *)
Theorem taxonomy_lossless :
  (∀ k, to_credential_kind (from_credential_kind k) = Some k ∧
        redaction_label (from_credential_kind k) = cf_matched (cf_new k 0 0) ∧
        category_from_str (category_display (from_credential_kind k)) = Some (from_credential_kind k)) ∧
  Forall (λ c, category_from_str (category_display c) = Some c) category_ALL.
Proof.
  split; [intros k; destruct k; repeat split; vm_compute; reflexivity|].
  repeat (constructor; [vm_compute; reflexivity|]). constructor.
Qed.
