(* ===== verification/Detection.v ===== *)
(** * Detection: the gateway's Stage 6 detection port

    aa-gateway/src/engine/detection.rs: the detection passes, how a run merges
    their findings, and how the merged findings split into the enforcement list
    and the canonical list.  The detectors proper (the Aho-Corasick scanner, the
    regex engine, the zh-TW recognisers) are an interface. *)

From stdpp Require Import base strings list gmap.
From Stdlib Require Import ZArith Lia Bool String.
From S2P Require Import Prelude.
From S2P Require Import Text.
From S2P Require Import Findings.
From S2P Require Import PolicyDocument.

Open Scope aasm_scope.

(** The detectors: [CredentialScanner::scan], the regex crate ([Regex::new] and the
    byte bounds [find_iter] yields), [locale::zh_tw::scan], and the version the
    aa-security crate was built with. *)
Class Detectors := {
  scanner_scan : string → list CredentialFinding;
  regex : Type;
  regex_new : string → option regex;
  find_iter : regex → string → list (nat * nat);
  zh_tw_scan : string → list CanonicalFinding;
  security_version : string;
}.

Inductive LocalePack := ZhTw.

#[export] Instance LocalePack_eq_dec : EqDecision LocalePack.
Proof. solve_decision. Defined.

Definition LocalePack_ALL : list LocalePack := [ZhTw].

Definition pack_tag (p : LocalePack) : string := match p with ZhTw => "zh-TW" end.

Definition from_tag (tag : string) : option LocalePack :=
  List.find (λ p, eq_ignore_ascii_case (pack_tag p) tag) LocalePack_ALL.

Inductive DetectionError := UnknownLocalePack (tag : string).

Definition detection_error_display (e : DetectionError) : string :=
  match e with
  | UnknownLocalePack tag =>
      String.append "policy names locale pack '"
        (String.append tag "', which this build does not contain")
  end.

Fixpoint resolve_locale_packs (tags : list string) : result (list LocalePack) DetectionError :=
  match tags with
  | [] => Ok []
  | tag :: rest =>
      match from_tag tag with
      | None => Err (UnknownLocalePack tag)
      | Some p => let? ps := resolve_locale_packs rest in Ok (p :: ps)
      end
  end.

(** Both fields absent at once cannot be built by the two constructors below. *)
Record DetectedFinding := {
  df_canonical : option CanonicalFinding;
  df_credential : option CredentialFinding;
}.

Section Detection.
Context {DT : Detectors}.

Definition from_credential (c : CredentialFinding) : DetectedFinding :=
  {| df_canonical := match canonical_try_from security_version c with Ok k => Some k | Err _ => None end;
     df_credential := Some c |}.

Definition from_canonical (k : CanonicalFinding) : DetectedFinding :=
  {| df_canonical := Some k; df_credential := None |}.

Inductive DetectionPass :=
| BuiltinScannerPass
| CompiledRegexPass (patterns : list regex)
| CascadeRegexPass (cascade : list PolicyDocument)
| LocalePackPass (pack : LocalePack).

Definition recognizer (p : DetectionPass) : Recognizer :=
  match p with
  | BuiltinScannerPass => BuiltinScanner
  | CompiledRegexPass _ | CascadeRegexPass _ => PolicyRegex
  | LocalePackPass ZhTw => ZhTwLocalePack
  end.

Definition push_regex_matches (re : regex) (text : string) (out : list DetectedFinding)
  : list DetectedFinding :=
  out ++ map (λ m, from_credential (from_regex_match m.1 m.2)) (find_iter re text).

Definition document_patterns (doc : PolicyDocument) : list string :=
  match pd_data doc with Some dp => dp_sensitive_patterns dp | None => [] end.

Definition detect (p : DetectionPass) (text : string) (out : list DetectedFinding)
  : result (list DetectedFinding) DetectionError :=
  match p with
  | BuiltinScannerPass => Ok (out ++ map from_credential (scanner_scan text))
  | CompiledRegexPass patterns => Ok (foldl (λ acc re, push_regex_matches re text acc) out patterns)
  | CascadeRegexPass cascade =>
      Ok (foldl (λ acc doc,
             foldl (λ acc pattern,
                      match regex_new pattern with
                      | Some re => push_regex_matches re text acc
                      | None => acc
                      end) acc (document_patterns doc)) out cascade)
  | LocalePackPass ZhTw => Ok (out ++ map from_canonical (zh_tw_scan text))
  end.

(** [run]: the passes in order over one shared buffer, stopping at the first error. *)
Fixpoint run_passes (text : string) (passes : list DetectionPass) (findings : list DetectedFinding)
  : result (list DetectedFinding) DetectionError :=
  match passes with
  | [] => Ok findings
  | p :: rest => let? findings' := detect p text findings in run_passes text rest findings'
  end.

Definition run (text : string) (passes : list DetectionPass) : result (list DetectedFinding) DetectionError :=
  run_passes text passes [].

Definition has_canonical_only (findings : list DetectedFinding) : bool :=
  existsb (λ f, match df_credential f with None => true | Some _ => false end) findings.

Definition into_parts (findings : list DetectedFinding) : list CredentialFinding * list CanonicalFinding :=
  (omap df_credential findings, stable_sort canonical_leb (omap df_canonical findings)).

(** [PolicyEngine::run_detection] (engine/mod.rs): the two lists of Stage 6 and
    whether a finding has no enforcement-tier counterpart. *)
Definition run_detection (text : string) (passes : list DetectionPass)
  : result (list CredentialFinding * list CanonicalFinding * bool) DetectionError :=
  let? outcome := run text passes in
  let '(credential, canonical) := into_parts outcome in
  Ok (credential, canonical, has_canonical_only outcome).

(** ** What a pass contributes *)

Definition contribution (p : DetectionPass) (text : string) : list DetectedFinding :=
  let matches re := map (λ m, from_credential (from_regex_match m.1 m.2)) (find_iter re text) in
  match p with
  | BuiltinScannerPass => map from_credential (scanner_scan text)
  | CompiledRegexPass patterns => patterns ≫= matches
  | CascadeRegexPass cascade => cascade ≫= λ doc, omap regex_new (document_patterns doc) ≫= matches
  | LocalePackPass ZhTw => map from_canonical (zh_tw_scan text)
  end.

Lemma foldl_append {A B} (f : list B → A → list B) (g : A → list B) l out :
  (∀ acc x, f acc x = acc ++ g x) → foldl f out l = out ++ (l ≫= g).
Proof.
  intros Hf. revert out. induction l as [|x l IH]; intros out; simpl; [by rewrite app_nil_r|].
  by rewrite IH, Hf, <- app_assoc.
Qed.

Lemma bind_omap {A B C} (f : A → option B) (g : B → list C) (l : list A) :
  (l ≫= λ x, match f x with Some y => g y | None => [] end) = omap f l ≫= g.
Proof. induction l as [|x l IH]; csimpl; [done|]. rewrite IH. by destruct (f x). Qed.

Lemma detect_contribution p text out : detect p text out = Ok (out ++ contribution p text).
Proof.
  destruct p as [|patterns|cascade|[]]; simpl; [done| |  |done]; f_equal.
  - by apply foldl_append.
  - apply foldl_append. intros acc doc. rewrite (foldl_append _ (λ pattern,
      match regex_new pattern with
      | Some re => map (λ m, from_credential (from_regex_match m.1 m.2)) (find_iter re text)
      | None => [] end)).
    + by rewrite bind_omap.
    + intros acc' q. destruct (regex_new q); [done|]. by rewrite app_nil_r.
Qed.

Lemma run_contributions text passes : run text passes = Ok (passes ≫= λ p, contribution p text).
Proof.
  unfold run. change (passes ≫= λ p, contribution p text) with ([] ++ (passes ≫= λ p, contribution p text)).
  generalize (@nil DetectedFinding). induction passes as [|p rest IH]; intros out; simpl; [by rewrite app_nil_r|].
  rewrite detect_contribution. simpl. by rewrite IH, <- app_assoc.
Qed.

(** A finding of either tier is represented in at least one list. *)
Definition visible (f : DetectedFinding) : Prop := is_Some (df_canonical f) ∨ is_Some (df_credential f).

Lemma contribution_visible p text f : f ∈ contribution p text → visible f.
Proof.
  assert (∀ re f', f' ∈ map (λ m, from_credential (from_regex_match m.1 m.2)) (find_iter re text) → visible f') as Hre.
  { intros re f' (m & -> & _)%list_elem_of_fmap. right. by eexists. }
  destruct p as [|patterns|cascade|[]]; simpl.
  - intros (c & -> & _)%list_elem_of_fmap. right. by eexists.
  - intros (re & Hf & _)%list_elem_of_bind. by eapply Hre.
  - intros (doc & (re & Hf & _)%list_elem_of_bind & _)%list_elem_of_bind. by eapply Hre.
  - intros (c & -> & _)%list_elem_of_fmap. left. by eexists.
Qed.

Lemma run_detection_parts text passes :
  ∃ fs, run text passes = Ok fs ∧ Forall visible fs ∧
        run_detection text passes =
          Ok (omap df_credential fs, stable_sort canonical_leb (omap df_canonical fs), has_canonical_only fs).
Proof.
  rewrite run_contributions. eexists; split; [done|]. split.
  - apply Forall_forall. intros f (p & Hf & _)%list_elem_of_bind. by eapply contribution_visible.
  - unfold run_detection. by rewrite run_contributions.
Qed.

Lemma stable_sort_nil {A} (leb : A → A → bool) l : stable_sort leb l = [] → l = [].
Proof.
  intros H. destruct l as [|x l]; [done|]. assert (x ∈ stable_sort leb (x :: l)) as Hx.
  { apply elem_of_stable_sort. left. } rewrite H in Hx. by apply elem_of_nil in Hx.
Qed.

(** Stage 6 sees nothing only when no pass found anything. *)
Lemma run_detection_clean text passes credential canonical only :
  run_detection text passes = Ok (credential, canonical, only) →
  credential = [] → canonical = [] →
  ∀ p, p ∈ passes → contribution p text = [].
Proof.
  intros Hr -> -> p Hp. destruct (run_detection_parts text passes) as (fs & Hrun & Hv & Hd).
  rewrite Hd in Hr. simplify_eq. match goal with H : stable_sort _ _ = [] |- _ => apply stable_sort_nil in H end.
  assert (fs = []) as ->.
  { destruct fs as [|f fs]; [done|]. inversion Hv as [|? ? [[k Hk]|[c Hc]] ?]; subst; simpl in *;
      [by rewrite Hk in *|by rewrite Hc in *]. }
  rewrite run_contributions in Hrun.
  destruct (contribution p text) as [|f l] eqn:E; [done|].
  assert (f ∈ (passes ≫= λ p, contribution p text)) as Hf.
  { apply list_elem_of_bind. exists p. rewrite E. split; [left|done]. }
  injection Hrun as Hnil. rewrite Hnil in Hf. by apply elem_of_nil in Hf.
Qed.
End Detection.
