(* ===== verification/Registry.v ===== *)
(** * Registry: the agent hierarchy

    aa-gateway/src/registry (store.rs, mod.rs, orphan.rs, lineage.rs): the records
    of the registered agents, the secondary indexes, registration with its cycle and
    depth checks, deregistration under the three orphan policies, reparenting,
    suspension and its cascade.

    The loops and recursions over the hierarchy take fuel and answer [None] when it
    runs out; RegistryProps proves for which of them enough fuel always exists. *)

From stdpp Require Import base gmap strings list sets.
From Stdlib Require Import ZArith Lia Bool String.
From S2P Require Import Prelude.
From S2P Require Import Text.
From S2P Require Import CoreTypes.
From S2P Require Import External.

Open Scope Z_scope.
Open Scope aasm_scope.

(** ** Data *)

Definition MAX_ACTIVE_SESSIONS : nat := 50.
Definition DEFAULT_MAX_AGENT_DEPTH : Z := 10.

Module Suspend.
Inductive SuspendReason :=
| BudgetExceeded
| Manual
| ParentSuspended (parent_agent_id : AgentId)
| ParentDeregistered.

#[global] Instance SuspendReason_eq_dec : EqDecision SuspendReason.
Proof. solve_decision. Defined.
End Suspend.

Abbreviation SuspendReason := Suspend.SuspendReason.

Inductive AgentStatus := Active | Suspended (reason : SuspendReason) | Deregistered.

#[export] Instance AgentStatus_eq_dec : EqDecision AgentStatus.
Proof. solve_decision. Defined.

Record ActiveSession := {
  as_session_id : string;
  as_started_at : Z;
  as_status : string;
  as_actions_count : Z;
}.

(** The fields of [AgentRecord] the registry never changes after registration. *)
Record AgentProfile := {
  ap_name : string;
  ap_framework : string;
  ap_version : string;
  ap_risk_tier : Z;
  ap_tool_names : list string;
  ap_public_key : string;
  ap_credential_token : string;
  ap_metadata : gmap string string;
  ap_registered_at : Z;
  ap_pid : option Z;
  ap_layer : option string;
  ap_governance_level : GovernanceLevel;
  ap_team_id : option string;
  ap_org_id : option string;
  ap_delegation_reason : option string;
  ap_spawned_by_tool : option string;
}.

(** [AgentRecord]: the profile and the mutable fields. *)
Record AgentRecord := {
  ar_agent_id : AgentId;
  ar_profile : AgentProfile;
  ar_last_heartbeat : Z;
  ar_status : AgentStatus;
  ar_session_count : Z;
  ar_active_sessions : list ActiveSession;
  ar_parent_agent_id : option string;
  ar_depth : Z;
  ar_root_agent_id : option AgentId;
  ar_children : list AgentId;
  ar_parent_key : option AgentId;
  ar_enforcement_mode : option EnforcementMode;
  ar_enforcement_mode_expires_at : option Z;
}.

Definition ar_team_id (r : AgentRecord) := ap_team_id (ar_profile r).
Definition ar_org_id (r : AgentRecord) := ap_org_id (ar_profile r).
Definition ar_credential_token (r : AgentRecord) := ap_credential_token (ar_profile r).

Module LErr.
Inductive LineageError :=
| CircularDelegation (cycle : list AgentId)
| MaxDepthExceeded (depth max : Z).
End LErr.

Module RErr.
Inductive RegistryError :=
| AlreadyRegistered (id : AgentId)
| NotFound (id : AgentId)
| Lineage (e : LErr.LineageError)
| Storage (e : string)
| InvalidTenantId (field : string)
| UncappedShadowWindow (mode : EnforcementMode).
End RErr.

Abbreviation RegistryError := RErr.RegistryError.

Module Orphan.
Inductive OrphanMode := Suspend | PromoteToRoot | CascadeDeregister.
End Orphan.

Abbreviation OrphanMode := Orphan.OrphanMode.

(** [old_status] is the status itself; the code keeps its [Debug] text. *)
Record OrphanEffect := {
  oe_agent_key : AgentId;
  oe_agent_id_str : string;
  oe_action : string;
  oe_old_status : AgentStatus;
  oe_new_status : string;
}.

Record AgentStatusChanged := {
  sc_agent_id : AgentId;
  sc_new_status : AgentStatus;
  sc_suspend_reason : SuspendReason;
}.

Record Lineage := {
  ln_org_id : option string;
  ln_team_id : option string;
  ln_root_agent_id : option AgentId;
  ln_parent_agent_id : option AgentId;
  ln_depth : option Z;
  ln_delegation_reason : option string;
  ln_spawned_by_tool : option string;
}.

Definition lineage_default : Lineage := {|
  ln_org_id := None; ln_team_id := None; ln_root_agent_id := None; ln_parent_agent_id := None;
  ln_depth := None; ln_delegation_reason := None; ln_spawned_by_tool := None;
|}.

Record AgentRegistry := {
  rg_agents : gmap AgentId AgentRecord;
  rg_control_senders : gset AgentId;
  rg_team_index : gmap string (gset AgentId);
  rg_org_index : gmap string (gset AgentId);
  rg_credential_index : gmap string AgentId;
  rg_suspend_reasons : gmap AgentId (list SuspendReason);
  rg_team_max_age_secs : gmap string Z;
}.

Definition new_registry : AgentRegistry := {|
  rg_agents := ∅; rg_control_senders := ∅; rg_team_index := ∅; rg_org_index := ∅;
  rg_credential_index := ∅; rg_suspend_reasons := ∅; rg_team_max_age_secs := ∅;
|}.

(** ** Field updates *)

Definition set_tree (r : AgentRecord) (parent_id : option string) (depth : Z) (root : option AgentId)
  (children : list AgentId) (parent : option AgentId) : AgentRecord := {|
  ar_agent_id := ar_agent_id r; ar_profile := ar_profile r; ar_last_heartbeat := ar_last_heartbeat r;
  ar_status := ar_status r; ar_session_count := ar_session_count r;
  ar_active_sessions := ar_active_sessions r; ar_parent_agent_id := parent_id; ar_depth := depth;
  ar_root_agent_id := root; ar_children := children; ar_parent_key := parent;
  ar_enforcement_mode := ar_enforcement_mode r;
  ar_enforcement_mode_expires_at := ar_enforcement_mode_expires_at r;
|}.

Definition set_children (r : AgentRecord) (cs : list AgentId) : AgentRecord :=
  set_tree r (ar_parent_agent_id r) (ar_depth r) (ar_root_agent_id r) cs (ar_parent_key r).

Definition set_depth (r : AgentRecord) (depth : Z) : AgentRecord :=
  set_tree r (ar_parent_agent_id r) depth (ar_root_agent_id r) (ar_children r) (ar_parent_key r).

Definition set_root (r : AgentRecord) (root : option AgentId) : AgentRecord :=
  set_tree r (ar_parent_agent_id r) (ar_depth r) root (ar_children r) (ar_parent_key r).

Definition set_live (r : AgentRecord) (heartbeat : Z) (status : AgentStatus) (count : Z)
  (sessions : list ActiveSession) (mode : option EnforcementMode) (expires : option Z) : AgentRecord := {|
  ar_agent_id := ar_agent_id r; ar_profile := ar_profile r; ar_last_heartbeat := heartbeat;
  ar_status := status; ar_session_count := count; ar_active_sessions := sessions;
  ar_parent_agent_id := ar_parent_agent_id r; ar_depth := ar_depth r;
  ar_root_agent_id := ar_root_agent_id r; ar_children := ar_children r; ar_parent_key := ar_parent_key r;
  ar_enforcement_mode := mode; ar_enforcement_mode_expires_at := expires;
|}.

Definition set_status (r : AgentRecord) (status : AgentStatus) : AgentRecord :=
  set_live r (ar_last_heartbeat r) status (ar_session_count r) (ar_active_sessions r)
    (ar_enforcement_mode r) (ar_enforcement_mode_expires_at r).

Definition with_agents (g : AgentRegistry) (agents : gmap AgentId AgentRecord) : AgentRegistry := {|
  rg_agents := agents; rg_control_senders := rg_control_senders g; rg_team_index := rg_team_index g;
  rg_org_index := rg_org_index g; rg_credential_index := rg_credential_index g;
  rg_suspend_reasons := rg_suspend_reasons g; rg_team_max_age_secs := rg_team_max_age_secs g;
|}.

Definition with_indexes (g : AgentRegistry) (senders : gset AgentId) (teams orgs : gmap string (gset AgentId))
  (creds : gmap string AgentId) : AgentRegistry := {|
  rg_agents := rg_agents g; rg_control_senders := senders; rg_team_index := teams;
  rg_org_index := orgs; rg_credential_index := creds;
  rg_suspend_reasons := rg_suspend_reasons g; rg_team_max_age_secs := rg_team_max_age_secs g;
|}.

Definition with_reasons (g : AgentRegistry) (reasons : gmap AgentId (list SuspendReason)) : AgentRegistry := {|
  rg_agents := rg_agents g; rg_control_senders := rg_control_senders g; rg_team_index := rg_team_index g;
  rg_org_index := rg_org_index g; rg_credential_index := rg_credential_index g;
  rg_suspend_reasons := reasons; rg_team_max_age_secs := rg_team_max_age_secs g;
|}.

Definition set_team_max_age (g : AgentRegistry) (team_id : string) (max_secs : Z) : AgentRegistry := {|
  rg_agents := rg_agents g; rg_control_senders := rg_control_senders g; rg_team_index := rg_team_index g;
  rg_org_index := rg_org_index g; rg_credential_index := rg_credential_index g;
  rg_suspend_reasons := rg_suspend_reasons g;
  rg_team_max_age_secs := <[team_id := max_secs]> (rg_team_max_age_secs g);
|}.

(** [DashMap::get_mut] followed by an assignment: a missing key changes nothing. *)
Definition alter_agent (f : AgentRecord → AgentRecord) (id : AgentId) (g : AgentRegistry) : AgentRegistry :=
  with_agents g (alter f id (rg_agents g)).

(** ** Queries *)

Definition get (g : AgentRegistry) (id : AgentId) : option AgentRecord := rg_agents g !! id.

Definition children_of (g : AgentRegistry) (id : AgentId) : list AgentId :=
  match get g id with Some r => ar_children r | None => [] end.

Definition agent_depth (g : AgentRegistry) (id : AgentId) : option Z := ar_depth <$> get g id.

Definition parent_of (g : AgentRegistry) (id : AgentId) : option AgentId := get g id ≫= ar_parent_key.

Fixpoint ancestor_walk (fuel : nat) (g : AgentRegistry) (current : option AgentId) : option (list AgentId) :=
  match current with
  | None => Some []
  | Some pk =>
      match fuel with
      | O => None
      | S fuel' => (pk ::.) <$> ancestor_walk fuel' g (parent_of g pk)
      end
  end.

Definition ancestors_of (fuel : nat) (g : AgentRegistry) (id : AgentId) : option (list AgentId) :=
  match get g id with
  | None => Some []
  | Some r => ancestor_walk fuel g (ar_parent_key r)
  end.

(** The breadth-first walk over the queue of agents still to visit. *)
Fixpoint bfs (fuel : nat) (g : AgentRegistry) (queue : list AgentId) : option (list AgentId) :=
  match queue with
  | [] => Some []
  | current :: rest =>
      match fuel with
      | O => None
      | S fuel' => (current ::.) <$> bfs fuel' g (rest ++ children_of g current)
      end
  end.

Definition descendants_of (fuel : nat) (g : AgentRegistry) (id : AgentId) : option (list AgentId) :=
  bfs fuel g (children_of g id).

Definition team_members (g : AgentRegistry) (team_id : string) : gset AgentId :=
  default ∅ (rg_team_index g !! team_id).

Definition org_members (g : AgentRegistry) (org_id : string) : gset AgentId :=
  default ∅ (rg_org_index g !! org_id).

Definition find_by_credential_token (g : AgentRegistry) (token : string) : option AgentId :=
  rg_credential_index g !! token.

Definition get_suspend_reasons (g : AgentRegistry) (id : AgentId) : list SuspendReason :=
  default [] (rg_suspend_reasons g !! id).

Definition lineage (g : AgentRegistry) (id : AgentId) : option Lineage :=
  r ← get g id;
  Some {| ln_org_id := ar_org_id r;
          ln_team_id := match ar_team_id r with
                        | Some t => Some t
                        | None => ap_metadata (ar_profile r) !! "team_id"%string
                        end;
          ln_root_agent_id := ar_root_agent_id r;
          ln_parent_agent_id := ar_parent_key r;
          ln_depth := Some (ar_depth r);
          ln_delegation_reason := ap_delegation_reason (ar_profile r);
          ln_spawned_by_tool := ap_spawned_by_tool (ar_profile r) |}.

(** ** Registration *)

Fixpoint cycle_walk (fuel : nat) (g : AgentRegistry) (agent_id : AgentId) (cycle : list AgentId)
  (current : option AgentId) : option (result unit LErr.LineageError) :=
  match current with
  | None => Some (Ok ())
  | Some pk =>
      match fuel with
      | O => None
      | S fuel' =>
          if decide (pk = agent_id) then Some (Err (LErr.CircularDelegation (cycle ++ [pk])))
          else cycle_walk fuel' g agent_id (cycle ++ [pk]) (parent_of g pk)
      end
  end.

Definition validate_lineage (fuel : nat) (g : AgentRegistry) (agent_id parent_key : AgentId) (max_depth : Z)
  : option (result unit LErr.LineageError) :=
  let parent_depth := default 0 (agent_depth g parent_key) in
  let new_depth := parent_depth + 1 in
  if max_depth <=? new_depth then Some (Err (LErr.MaxDepthExceeded new_depth max_depth))
  else if decide (parent_key = agent_id)
  then Some (Err (LErr.CircularDelegation [agent_id; parent_key]))
  else cycle_walk fuel g agent_id [agent_id; parent_key] (parent_of g parent_key).

Definition validate_tenant_id (id : option string) (field : string) : result unit RegistryError :=
  match id with
  | Some s => if str_forallb (λ c, negb (is_control c)) s then Ok () else Err (RErr.InvalidTenantId field)
  | None => Ok ()
  end.

Definition index_insert (m : gmap string (gset AgentId)) (key : option string) (id : AgentId)
  : gmap string (gset AgentId) :=
  match key with Some k => <[k := default ∅ (m !! k) ∪ {[id]}]> m | None => m end.

Definition index_remove (m : gmap string (gset AgentId)) (key : option string) (id : AgentId)
  : gmap string (gset AgentId) :=
  match key with Some k => alter (.∖ {[id]}) k m | None => m end.

(** The insertion and what follows it: the parent's list and the indexes. *)
Definition insert_agent (g : AgentRegistry) (record : AgentRecord) : AgentRegistry :=
  let id := ar_agent_id record in
  let g := with_agents g (<[id := record]> (rg_agents g)) in
  let g := match ar_parent_key record with
           | Some pk => alter_agent (λ p, set_children p (ar_children p ++ [id])) pk g
           | None => g
           end in
  with_indexes g (rg_control_senders g) (index_insert (rg_team_index g) (ar_team_id record) id)
    (index_insert (rg_org_index g) (ar_org_id record) id)
    (if is_empty (ar_credential_token record) then rg_credential_index g
     else <[ar_credential_token record := id]> (rg_credential_index g)).

Definition register (fuel : nat) (g : AgentRegistry) (record : AgentRecord)
  : option (result AgentRegistry RegistryError) :=
  match validate_tenant_id (ar_team_id record) "team_id" with
  | Err e => Some (Err e)
  | Ok _ =>
      match validate_tenant_id (ar_org_id record) "org_id" with
      | Err e => Some (Err e)
      | Ok _ =>
          let checked := match ar_parent_key record with
                         | Some pk => validate_lineage fuel g (ar_agent_id record) pk DEFAULT_MAX_AGENT_DEPTH
                         | None => Some (Ok ())
                         end in
          match checked with
          | None => None
          | Some (Err e) => Some (Err (RErr.Lineage e))
          | Some (Ok _) =>
              match get g (ar_agent_id record) with
              | Some _ => Some (Err (RErr.AlreadyRegistered (ar_agent_id record)))
              | None => Some (Ok (insert_agent g record))
              end
          end
      end
  end.

(** ** Depth recomputation *)

Fixpoint recalculate_depth_recursive (fuel : nat) (g : AgentRegistry) (parent_key : AgentId) (parent_depth : Z)
  : option AgentRegistry :=
  match fuel with
  | O => None
  | S fuel' =>
      (fix go (children : list AgentId) (g : AgentRegistry) : option AgentRegistry :=
         match children with
         | [] => Some g
         | ck :: rest =>
             let g := alter_agent (λ r, set_depth r (parent_depth + 1)) ck g in
             g' ← recalculate_depth_recursive fuel' g ck (parent_depth + 1);
             go rest g'
         end) (children_of g parent_key) g
  end.

(** ** Orphans *)

Section Registry.
Context {U : UuidLib}.

Definition orphan_effect (key : AgentId) (action : string) (old : AgentStatus) (new_status : string)
  : OrphanEffect :=
  {| oe_agent_key := key; oe_agent_id_str := uuid_display key; oe_action := action;
     oe_old_status := old; oe_new_status := new_status |}.

Definition orphan_promote_to_root (fuel : nat) (g : AgentRegistry) (child_key : AgentId)
  (effects : list OrphanEffect) : option (AgentRegistry * list OrphanEffect) :=
  let effects := match get g child_key with
                 | Some r => effects ++ [orphan_effect child_key "promoted_to_root" (ar_status r) "active:root"]
                 | None => effects
                 end in
  let g := alter_agent (λ r, set_tree r None 0 None (ar_children r) None) child_key g in
  g' ← recalculate_depth_recursive fuel g child_key 0;
  Some (g', effects).

(** The removal at the end of the cascade arm: the agent's record, its control
    stream and its team index entry. *)
Definition cascade_remove (g : AgentRegistry) (child_key : AgentId) (effects : list OrphanEffect)
  : AgentRegistry * list OrphanEffect :=
  let g := with_indexes g (rg_control_senders g ∖ {[child_key]}) (rg_team_index g) (rg_org_index g)
             (rg_credential_index g) in
  match get g child_key with
  | None => (g, effects)
  | Some r =>
      let g := with_agents g (delete child_key (rg_agents g)) in
      let g := with_indexes g (rg_control_senders g) (index_remove (rg_team_index g) (ar_team_id r) child_key)
                 (rg_org_index g) (rg_credential_index g) in
      (g, effects ++ [orphan_effect child_key "deregistered" (ar_status r) "deregistered"])
  end.

Definition suspend_orphan (g : AgentRegistry) (child_key : AgentId) (effects : list OrphanEffect)
  : AgentRegistry * list OrphanEffect :=
  match get g child_key with
  | None => (g, effects)
  | Some r =>
      (alter_agent (λ r, set_status r (Suspended Suspend.ParentDeregistered)) child_key g,
       effects ++ [orphan_effect child_key "suspended" (ar_status r) "suspended:parent_deregistered"])
  end.

Fixpoint apply_orphan_mode_recursive (fuel : nat) (g : AgentRegistry) (child_key : AgentId) (mode : OrphanMode)
  (effects : list OrphanEffect) : option (AgentRegistry * list OrphanEffect) :=
  match fuel with
  | O => None
  | S fuel' =>
      let go := fix go (keys : list AgentId) (g : AgentRegistry) (effects : list OrphanEffect)
                    : option (AgentRegistry * list OrphanEffect) :=
        match keys with
        | [] => Some (g, effects)
        | gk :: rest =>
            match apply_orphan_mode_recursive fuel' g gk mode effects with
            | Some (g', effects') => go rest g' effects'
            | None => None
            end
        end in
      match mode with
      | Orphan.Suspend =>
          let grandchildren := children_of g child_key in
          let '(g', effects') := suspend_orphan g child_key effects in
          go grandchildren g' effects'
      | Orphan.PromoteToRoot => orphan_promote_to_root fuel' g child_key effects
      | Orphan.CascadeDeregister =>
          match go (children_of g child_key) g effects with
          | Some (g', effects') => Some (cascade_remove g' child_key effects')
          | None => None
          end
      end
  end.

(** The loop of [deregister] over the direct children. *)
Fixpoint orphan_children (fuel : nat) (g : AgentRegistry) (keys : list AgentId) (mode : OrphanMode)
  (effects : list OrphanEffect) : option (AgentRegistry * list OrphanEffect) :=
  match keys with
  | [] => Some (g, effects)
  | k :: rest =>
      match apply_orphan_mode_recursive fuel g k mode effects with
      | Some (g', effects') => orphan_children fuel g' rest mode effects'
      | None => None
      end
  end.

(** Unlinking a registered agent: its record, its place in the parent's list and in
    every index. *)
Definition remove_agent (g : AgentRegistry) (agent_id : AgentId) (record : AgentRecord) : AgentRegistry :=
  let g := with_agents g (delete agent_id (rg_agents g)) in
  let g := match ar_parent_key record with
           | Some pk => alter_agent (λ p, set_children p (filter (.≠ agent_id) (ar_children p))) pk g
           | None => g
           end in
  with_indexes g (rg_control_senders g) (index_remove (rg_team_index g) (ar_team_id record) agent_id)
    (index_remove (rg_org_index g) (ar_org_id record) agent_id)
    (if is_empty (ar_credential_token record) then rg_credential_index g
     else delete (ar_credential_token record) (rg_credential_index g)).

Definition deregister (fuel : nat) (g : AgentRegistry) (agent_id : AgentId) (mode : OrphanMode)
  : option (AgentRegistry * result (AgentRecord * list OrphanEffect) RegistryError) :=
  let child_keys := children_of g agent_id in
  let g := with_indexes g (rg_control_senders g ∖ {[agent_id]}) (rg_team_index g) (rg_org_index g)
             (rg_credential_index g) in
  match get g agent_id with
  | None => Some (g, Err (RErr.NotFound agent_id))
  | Some record =>
      match orphan_children fuel (remove_agent g agent_id record) child_keys mode [] with
      | Some (g', effects) => Some (g', Ok (record, effects))
      | None => None
      end
  end.

(** ** Reparenting *)

Record ReparentPlan := { rp_old_parent_key : option AgentId; rp_new_child_depth : Z }.

Fixpoint max_depth_of (depths : list Z) : option Z :=
  match depths with
  | [] => None
  | d :: rest => Some (match max_depth_of rest with Some m => Z.max d m | None => d end)
  end.

Definition validate_reparent (fuel : nat) (g : AgentRegistry) (child new_parent : AgentId)
  : option (result (option ReparentPlan) RegistryError) :=
  match get g child with
  | None => Some (Err (RErr.NotFound child))
  | Some r =>
      if decide (ar_parent_key r = Some new_parent) then Some (Ok None)
      else match get g new_parent with
      | None => Some (Err (RErr.NotFound new_parent))
      | Some np =>
          let circular := Some (Err (RErr.Lineage (LErr.CircularDelegation [child; new_parent]))) in
          if decide (new_parent = child) then circular
          else match descendants_of fuel g child with
          | None => None
          | Some descendants =>
              if decide (new_parent ∈ descendants) then circular
              else
                let new_child_depth := ar_depth np + 1 in
                let max_descendant_depth :=
                  default (ar_depth r) (max_depth_of (omap (agent_depth g) descendants)) in
                let depth_delta := new_child_depth - ar_depth r in
                let projected_deepest := (max_descendant_depth + depth_delta) mod 2 ^ 32 in
                if DEFAULT_MAX_AGENT_DEPTH <=? projected_deepest
                then Some (Err (RErr.Lineage (LErr.MaxDepthExceeded projected_deepest DEFAULT_MAX_AGENT_DEPTH)))
                else Some (Ok (Some {| rp_old_parent_key := ar_parent_key r;
                                       rp_new_child_depth := new_child_depth |}))
          end
      end
  end.

Definition relink (g : AgentRegistry) (child new_parent : AgentId) (plan : ReparentPlan)
  (new_root_agent_id : option AgentId) : AgentRegistry :=
  let g := match rp_old_parent_key plan with
           | Some opk => alter_agent (λ p, set_children p (filter (.≠ child) (ar_children p))) opk g
           | None => g
           end in
  let g := alter_agent (λ np, if decide (child ∈ ar_children np) then np
                              else set_children np (ar_children np ++ [child])) new_parent g in
  alter_agent (λ c, set_tree c (Some (uuid_display new_parent)) (rp_new_child_depth plan) new_root_agent_id
                      (ar_children c) (Some new_parent)) child g.

Definition propagate_root (g : AgentRegistry) (root : AgentId) (ids : list AgentId) : AgentRegistry :=
  foldl (λ g d, alter_agent (λ r, set_root r (Some root)) d g) g ids.

Definition reparent (fuel : nat) (g : AgentRegistry) (child new_parent : AgentId)
  : option (AgentRegistry * result unit RegistryError) :=
  match validate_reparent fuel g child new_parent with
  | None => None
  | Some (Err e) => Some (g, Err e)
  | Some (Ok None) => Some (g, Ok ())
  | Some (Ok (Some plan)) =>
      let new_root_agent_id := r ← get g new_parent; Some (default (ar_agent_id r) (ar_root_agent_id r)) in
      let g := relink g child new_parent plan new_root_agent_id in
      match recalculate_depth_recursive fuel g child (rp_new_child_depth plan) with
      | None => None
      | Some g =>
          match new_root_agent_id with
          | None => Some (g, Ok ())
          | Some root =>
              match descendants_of fuel g child with
              | None => None
              | Some ds => Some (propagate_root g root ds, Ok ())
              end
          end
      end
  end.

(** ** Liveness, sessions and control streams *)

Definition update_heartbeat (g : AgentRegistry) (id : AgentId) (now : Z) : result AgentRegistry RegistryError :=
  match get g id with
  | None => Err (RErr.NotFound id)
  | Some _ => Ok (alter_agent (λ r, set_live r now (ar_status r) (ar_session_count r) (ar_active_sessions r)
                                      (ar_enforcement_mode r) (ar_enforcement_mode_expires_at r)) id g)
  end.

Definition saturating_inc_u32 (n : Z) : Z := if n <? u32_max then n + 1 else u32_max.

Fixpoint bump_session (session_id : string) (ss : list ActiveSession) : option (list ActiveSession * Z) :=
  match ss with
  | [] => None
  | s :: rest =>
      if String.eqb (as_session_id s) session_id
      then let n := saturating_inc_u32 (as_actions_count s) in
           Some ({| as_session_id := as_session_id s; as_started_at := as_started_at s;
                    as_status := as_status s; as_actions_count := n |} :: rest, n)
      else '(rest', n) ← bump_session session_id rest; Some (s :: rest', n)
  end.

(** [min_by_key] keeps the first of several minima; [remove] drops that index. *)
Fixpoint earliest (best : ActiveSession) (ss : list ActiveSession) : ActiveSession :=
  match ss with
  | [] => best
  | s :: rest => earliest (if as_started_at s <? as_started_at best then s else best) rest
  end.

Fixpoint remove_first_at (started_at : Z) (ss : list ActiveSession) : list ActiveSession :=
  match ss with
  | [] => []
  | s :: rest => if as_started_at s =? started_at then rest else s :: remove_first_at started_at rest
  end.

Definition evict_oldest (ss : list ActiveSession) : list ActiveSession :=
  match ss with
  | [] => []
  | s :: rest => remove_first_at (as_started_at (earliest s rest)) ss
  end.

Definition with_sessions (r : AgentRecord) (count : Z) (ss : list ActiveSession) : AgentRecord :=
  set_live r (ar_last_heartbeat r) (ar_status r) count ss (ar_enforcement_mode r)
    (ar_enforcement_mode_expires_at r).

Definition record_session_activity (g : AgentRegistry) (id : AgentId) (session_id : string) (now : Z)
  : result (AgentRegistry * Z) RegistryError :=
  match get g id with
  | None => Err (RErr.NotFound id)
  | Some r =>
      match bump_session session_id (ar_active_sessions r) with
      | Some (ss, n) => Ok (alter_agent (λ r, with_sessions r (ar_session_count r) ss) id g, n)
      | None =>
          let ss := ar_active_sessions r ++
                    [{| as_session_id := session_id; as_started_at := now; as_status := "running";
                        as_actions_count := 1 |}] in
          let ss := if Nat.ltb MAX_ACTIVE_SESSIONS (List.length ss) then evict_oldest ss else ss in
          Ok (alter_agent (λ r, with_sessions r (saturating_inc_u32 (ar_session_count r)) ss) id g, 1)
      end
  end.

Definition close_session (g : AgentRegistry) (id : AgentId) (session_id : string)
  : result (AgentRegistry * bool) RegistryError :=
  match get g id with
  | None => Err (RErr.NotFound id)
  | Some r =>
      let ss := filter (λ s, as_session_id s ≠ session_id) (ar_active_sessions r) in
      Ok (alter_agent (λ r, with_sessions r (ar_session_count r) ss) id g,
          negb (Nat.eqb (List.length ss) (List.length (ar_active_sessions r))))
  end.

Definition open_control_stream (g : AgentRegistry) (id : AgentId) : result AgentRegistry RegistryError :=
  match get g id with
  | None => Err (RErr.NotFound id)
  | Some _ => Ok (with_indexes g (rg_control_senders g ∪ {[id]}) (rg_team_index g) (rg_org_index g)
                    (rg_credential_index g))
  end.

(** ** Suspension *)

Definition suspend_agent (g : AgentRegistry) (id : AgentId) (reason : SuspendReason)
  : AgentRegistry * result unit RegistryError :=
  let reasons := get_suspend_reasons g id in
  let g := with_reasons g (<[id := if decide (reason ∈ reasons) then reasons else reasons ++ [reason]]>
                             (rg_suspend_reasons g)) in
  match get g id with
  | None => (g, Err (RErr.NotFound id))
  | Some _ => (alter_agent (λ r, set_status r (Suspended reason)) id g, Ok ())
  end.

Definition resume_agent (g : AgentRegistry) (id : AgentId) : AgentRegistry * result unit RegistryError :=
  let g := with_reasons g (delete id (rg_suspend_reasons g)) in
  match get g id with
  | None => (g, Err (RErr.NotFound id))
  | Some _ => (alter_agent (λ r, set_status r Active) id g, Ok ())
  end.

Definition apply_suspend_reason (g : AgentRegistry) (id : AgentId) (reason : SuspendReason)
  : AgentRegistry * result (option AgentStatusChanged) RegistryError :=
  match get g id with
  | None => (g, Err (RErr.NotFound id))
  | Some _ =>
      let reasons := get_suspend_reasons g id in
      if decide (reason ∈ reasons)
      then (with_reasons g (<[id := reasons]> (rg_suspend_reasons g)), Ok None)
      else
        let g := with_reasons g (<[id := reasons ++ [reason]]> (rg_suspend_reasons g)) in
        match reasons with
        | [] => (alter_agent (λ r, set_status r (Suspended reason)) id g,
                 Ok (Some {| sc_agent_id := id; sc_new_status := Suspended reason;
                             sc_suspend_reason := reason |}))
        | _ => (g, Ok None)
        end
  end.

Fixpoint cascade_walk (fuel : nat) (root : AgentId) (g : AgentRegistry) (queue : list AgentId)
  (events : list AgentStatusChanged) : option (AgentRegistry * list AgentStatusChanged) :=
  match queue with
  | [] => Some (g, events)
  | descendant_id :: rest =>
      match fuel with
      | O => None
      | S fuel' =>
          let direct_parent := default root (parent_of g descendant_id) in
          let '(g', outcome) := apply_suspend_reason g descendant_id (Suspend.ParentSuspended direct_parent) in
          let events' := match outcome with Ok (Some event) => events ++ [event] | _ => events end in
          cascade_walk fuel' root g' (rest ++ children_of g' descendant_id) events'
      end
  end.

Definition suspend_with_cascade (fuel : nat) (g : AgentRegistry) (id : AgentId) (reason : SuspendReason)
  : option (AgentRegistry * result (list AgentStatusChanged) RegistryError) :=
  let '(g', outcome) := apply_suspend_reason g id reason in
  match outcome with
  | Err e => Some (g', Err e)
  | Ok o =>
      let events := match o with Some event => [event] | None => [] end in
      match cascade_walk fuel id g' (children_of g' id) events with
      | Some (g'', events') => Some (g'', Ok events')
      | None => None
      end
  end.

(** ** Aged agents *)

Definition is_aged (g : AgentRegistry) (now_secs : Z) (r : AgentRecord) : bool :=
  match ar_status r with
  | Active =>
      match ar_team_id r with
      | None => false
      | Some team_id =>
          match rg_team_max_age_secs g !! team_id with
          | None => false
          | Some max_secs => max_secs <? Z.max 0 (now_secs - wrap64 (ap_registered_at (ar_profile r)))
          end
      end
  | _ => false
  end.

(** The keys in the map's own order: the code's order is that of the shards. *)
Definition sweep_aged_agents (g : AgentRegistry) (now_secs : Z) : AgentRegistry * list AgentId :=
  let evicted := (filter (λ kr, is_aged g now_secs kr.2 = true) (map_to_list (rg_agents g))).*1 in
  (foldl (λ g k, alter_agent (λ r, set_status r Deregistered) k g) g evicted, evicted).

(** ** Enforcement-mode overrides *)

(** [storage] is what the durable write answers: [None] when no backend is attached. *)
Definition set_enforcement_mode_persisted (g : AgentRegistry) (id : AgentId) (mode : option EnforcementMode)
  (expires_at : option Z) (storage : option (result unit string)) : AgentRegistry * result unit RegistryError :=
  match expires_at, mode with
  | None, Some (Observe as m) | None, Some (Disabled as m) => (g, Err (RErr.UncappedShadowWindow m))
  | _, _ =>
      match get g id with
      | None => (g, Err (RErr.NotFound id))
      | Some prior =>
          let put mode expires := alter_agent (λ r, set_live r (ar_last_heartbeat r) (ar_status r)
            (ar_session_count r) (ar_active_sessions r) mode expires) id in
          let g' := put mode expires_at g in
          match storage with
          | Some (Err e) =>
              (put (ar_enforcement_mode prior) (ar_enforcement_mode_expires_at prior) g', Err (RErr.Storage e))
          | _ => (g', Ok ())
          end
      end
  end.

Definition shadow_expired (now : Z) (r : AgentRecord) : bool :=
  match ar_enforcement_mode r, ar_enforcement_mode_expires_at r with
  | Some Observe, Some t => t <=? now
  | _, _ => false
  end.

Definition agents_with_expired_shadow (g : AgentRegistry) (now : Z) : list AgentId :=
  (filter (λ kr, shadow_expired now kr.2 = true) (map_to_list (rg_agents g))).*1.

(** ** Write-through variants *)

Definition register_persisted (fuel : nat) (g : AgentRegistry) (record : AgentRecord)
  (storage : option (result unit string)) : option (AgentRegistry * result unit RegistryError) :=
  match register fuel g record with
  | None => None
  | Some (Err e) => Some (g, Err e)
  | Some (Ok g') =>
      match storage with
      | Some (Err e) =>
          match deregister fuel g' (ar_agent_id record) Orphan.Suspend with
          | Some (g'', _) => Some (g'', Err (RErr.Storage e))
          | None => None
          end
      | _ => Some (g', Ok ())
      end
  end.

(** [StorageError::NotFound] from the delete counts as success. *)
Inductive DeleteOutcome := Deleted | RowNotFound | DeleteFailed (e : string).

Definition deregister_persisted (fuel : nat) (g : AgentRegistry) (id : AgentId) (mode : OrphanMode)
  (storage : option DeleteOutcome) : option (AgentRegistry * result (AgentRecord * list OrphanEffect) RegistryError) :=
  match storage with
  | None => deregister fuel g id mode
  | Some outcome =>
      match get g id with
      | None => Some (g, Err (RErr.NotFound id))
      | Some _ =>
          match outcome with
          | Deleted | RowNotFound => deregister fuel g id mode
          | DeleteFailed e => Some (g, Err (RErr.Storage e))
          end
      end
  end.
End Registry.
