(* ===== verification/RegistryProps.v ===== *)
(** * RegistryProps: the hierarchy stays a forest

    The children lists of every reachable registry form a forest, so the walks over
    them end and find exactly the descendants; cascading suspension reaches every
    one of them.  The parent links do not enjoy the same protection, and
    three behaviours that contradict the documentation are exhibited. *)

From stdpp Require Import base gmap strings list sets relations.
From Stdlib Require Import ZArith Lia Bool String.
From S2P Require Import Prelude.
From S2P Require Import Text.
From S2P Require Import CoreTypes.
From S2P Require Import External.
From S2P Require Import Registry.

Open Scope Z_scope.

(** ** The tree underlying a registry *)

Abbreviation node := (option AgentId * list AgentId)%type.
Abbreviation Tree := (gmap AgentId node).

Definition shape (r : AgentRecord) : node := (ar_parent_key r, ar_children r).
Definition tree (g : AgentRegistry) : Tree := shape <$> rg_agents g.

Definition lists (t : Tree) (p c : AgentId) : Prop := ∃ s, t !! p = Some s ∧ c ∈ s.2.

(** Every child a node outside [D] lists is present and names it as its parent; no
    list repeats a child; and the lists are ranked by [h], hence acyclic. *)
Record wf_by (h : AgentId → nat) (D : gset AgentId) (t : Tree) : Prop := {
  wf_linked p c : p ∉ D → lists t p c → ∃ s, t !! c = Some s ∧ s.1 = Some p;
  wf_nodup p s : t !! p = Some s → NoDup s.2;
  wf_ranked p c : lists t p c → (h c < h p)%nat;
}.

Definition wf (t : Tree) : Prop := ∃ h, wf_by h ∅ t.

(** No node outside [D] lists [c]. *)
Definition unlisted (D : gset AgentId) (t : Tree) (c : AgentId) : Prop := ∀ p, p ∉ D → ¬ lists t p c.

Lemma lists_subseteq t t' p c : t ⊆ t' → lists t p c → lists t' p c.
Proof. intros Hs (s & Hp & Hc). exists s. split; [by eapply lookup_weaken|done]. Qed.

Lemma unlisted_subseteq D t t' c : t ⊆ t' → unlisted D t' c → unlisted D t c.
Proof. intros Hs Hu p Hp Hl. eapply Hu; [done|]. by eapply lists_subseteq. Qed.

Lemma lists_alter f t k p c :
  (∀ s, c ∈ (f s).2 → c ∈ s.2) → lists (alter f k t) p c → lists t p c.
Proof.
  intros Hf (s & Hp & Hc). apply lookup_alter_Some in Hp as [(-> & s' & ? & ->)|[? ?]]; eexists; eauto.
Qed.

(** ** Updates that keep the forest *)

(** Dropping a node nobody outside [D] lists. *)
Lemma wf_delete h D t c :
  wf_by h (D ∪ {[c]}) t → unlisted D t c → wf_by h D (delete c t).
Proof.
  intros [Hl Hn Hr] Hu. split.
  - intros p x Hp (s & Hs & Hx). apply lookup_delete_Some in Hs as [Hne Hs].
    assert (lists t p x) as Hpx by by exists s.
    destruct (Hl p x) as (sx & Hsx & ?); [|done|].
    { rewrite not_elem_of_union, not_elem_of_singleton. done. }
    exists sx. split; [|done]. apply lookup_delete_Some. split; [|done]. intros <-. by eapply Hu.
  - intros p s Hs. apply lookup_delete_Some in Hs as [_ Hs]. by eapply Hn.
  - intros p x Hpx. apply Hr. eapply lists_subseteq; [apply delete_subseteq|done].
Qed.

Lemma wf_grow h D D' t : D ⊆ D' → wf_by h D t → wf_by h D' t.
Proof. intros HD [Hl Hn Hr]. split; [|done..]. intros p c Hp. apply Hl. set_solver. Qed.

(** Clearing the parent link of a node nobody lists. *)
Lemma wf_detach h t c :
  wf_by h ∅ t → unlisted ∅ t c → wf_by h ∅ (alter (λ s : node, (None, s.2)) c t).
Proof.
  intros [Hl Hn Hr] Hu.
  assert (∀ p x, lists (alter (λ s : node, (None, s.2)) c t) p x → lists t p x) as Hsub.
  { intros p x. by apply lists_alter. }
  split.
  - intros p x Hp Hpx%Hsub. destruct (Hl p x) as (sx & Hsx & ?); [done..|]. exists sx. split; [|done].
    rewrite lookup_alter_ne; [done|]. intros <-. by eapply Hu.
  - intros p s Hs. apply lookup_alter_Some in Hs as [(-> & s' & Hs' & ->)|[_ Hs]];
      [exact (Hn _ _ Hs')|exact (Hn _ _ Hs)].
  - intros p x Hpx%Hsub. by apply Hr.
Qed.

(** Removing a child from its parent's list, after or before its node is gone. *)
Definition unlist (c : AgentId) (s : node) : node := (s.1, filter (.≠ c) s.2).

Lemma wf_unlist h D t c p : wf_by h D t → wf_by h D (alter (unlist c) p t).
Proof.
  intros [Hl Hn Hr].
  assert (∀ q x, lists (alter (unlist c) p t) q x → lists t q x) as Hsub.
  { intros q x. apply lists_alter. intros s. simpl. rewrite list_elem_of_filter. tauto. }
  split.
  - intros q x Hq Hqx%Hsub. destruct (Hl q x) as (sx & Hsx & Hsx1); [done..|].
    destruct (decide (p = x)) as [->|].
    + exists (unlist c sx). by rewrite lookup_alter_eq, Hsx.
    + exists sx. by rewrite lookup_alter_ne.
  - intros q s Hs. apply lookup_alter_Some in Hs as [(-> & s' & Hs' & ->)|[_ Hs]]; [|by eapply Hn].
    apply NoDup_filter. exact (Hn _ _ Hs').
  - intros q x Hqx%Hsub. by apply Hr.
Qed.

Lemma unlist_unlisted D t c p :
  (∀ q, q ∉ D → q ≠ p → ¬ lists t q c) → unlisted D (alter (unlist c) p t) c.
Proof.
  intros Hq q HqD (s & Hs & Hc). apply lookup_alter_Some in Hs as [(-> & s' & Hs' & ->)|[Hne Hs]].
  - simpl in Hc. apply list_elem_of_filter in Hc. tauto.
  - eapply (Hq q); [done|done|]. by exists s.
Qed.

(** Removing a registered node from the forest. *)
Definition prune (c : AgentId) (s : node) (t : Tree) : Tree :=
  match s.1 with Some p => alter (unlist c) p (delete c t) | None => delete c t end.

Lemma wf_prune h t c s : wf_by h ∅ t → t !! c = Some s → wf_by h ∅ (prune c s t).
Proof.
  intros Hwf Hc.
  assert (∀ q, lists t q c → s.1 = Some q) as Honly.
  { intros q Hq. destruct (wf_linked _ _ _ Hwf q c) as (s' & ? & ?); [apply not_elem_of_empty|done|]. by simplify_eq. }
  unfold prune. destruct s.1 as [p|] eqn:Es.
  - assert (delete c (alter (unlist c) p t) = alter (unlist c) p (delete c t)) as <-.
    { destruct (decide (p = c)) as [->|Hne].
      - rewrite delete_alter_eq, (alter_id _ (delete c t)); [done|]. intros x. by rewrite lookup_delete_eq.
      - by rewrite delete_alter_ne. }
    apply wf_delete; [eapply wf_grow, wf_unlist, Hwf; apply empty_subseteq|].
    apply unlist_unlisted. intros q _ Hne Hq. apply Honly in Hq. by simplify_eq.
  - apply wf_delete; [eapply wf_grow, Hwf; apply empty_subseteq|]. intros q _ Hq%Honly. done.
Qed.

(** Adding a leaf under a parent, which may be absent. *)
Definition enlist (c : AgentId) (s : node) : node := (s.1, s.2 ++ [c]).

Definition graft (c : AgentId) (parent : option AgentId) (t : Tree) : Tree :=
  match parent with
  | Some p => alter (enlist c) p (<[c := (Some p, [])]> t)
  | None => <[c := (None, [])]> t
  end.

Lemma wf_leaf h t c parent :
  wf_by h ∅ t → t !! c = None → wf_by (λ x, if decide (x = c) then 0%nat else S (h x)) ∅ (<[c := (parent, [])]> t).
Proof.
  intros [Hl Hn Hr] Hc.
  assert (∀ p x, lists (<[c := (parent, [])]> t) p x → p ≠ c ∧ x ≠ c ∧ lists t p x) as Hsub.
  { intros p x (s & Hs & Hx). apply lookup_insert_Some in Hs as [[-> <-]|[Hne Hs]]; [by apply elem_of_nil in Hx|].
    assert (lists t p x) as Hpx by by exists s. split; [done|]. split; [|done].
    destruct (Hl p x) as (sx & Hsx & _); [apply not_elem_of_empty|done|]. congruence. }
  split.
  - intros p x Hp (_ & Hne & Hpx)%Hsub. destruct (Hl p x) as (sx & ? & ?); [done..|]. exists sx.
    by rewrite lookup_insert_ne.
  - intros p s Hs. apply lookup_insert_Some in Hs as [[_ <-]|[_ Hs]]; [apply NoDup_nil_2|exact (Hn _ _ Hs)].
  - intros p x (Hp & Hx & Hpx)%Hsub. rewrite !decide_False by done. apply Hr in Hpx. lia.
Qed.

Lemma wf_enlist h t c p :
  wf_by h ∅ t → (∃ s, t !! c = Some s ∧ s.1 = Some p) → unlisted ∅ t c → (h c < h p)%nat →
  wf_by h ∅ (alter (enlist c) p t).
Proof.
  intros [Hl Hn Hr] (sc & Hsc & Hpar) Hu Hh.
  assert (∀ q x, lists (alter (enlist c) p t) q x → lists t q x ∨ q = p ∧ x = c) as Hsub.
  { intros q x (s & Hs & Hx). apply lookup_alter_Some in Hs as [(-> & s' & Hs' & ->)|[? Hs]].
    - simpl in Hx. rewrite elem_of_app, list_elem_of_singleton in Hx. destruct Hx as [Hx| ->]; [left|by right].
      by exists s'.
    - left. by exists s. }
  assert (∀ x s, t !! x = Some s → ∃ s', alter (enlist c) p t !! x = Some s' ∧ s'.1 = s.1) as Hkeep.
  { intros x s Hx. destruct (decide (p = x)) as [->|].
    - exists (enlist c s). by rewrite lookup_alter_eq, Hx.
    - exists s. by rewrite lookup_alter_ne. }
  split.
  - intros q x Hq [Hqx|[-> ->]]%Hsub.
    + destruct (Hl q x) as (sx & Hsx & <-); [done..|]. by apply Hkeep.
    + destruct (Hkeep _ _ Hsc) as (s' & ? & Hs'). exists s'. by rewrite Hs'.
  - intros q s Hs. apply lookup_alter_Some in Hs as [(-> & s' & Hs' & ->)|[_ Hs]]; [|exact (Hn _ _ Hs)].
    simpl. apply NoDup_app. split; [exact (Hn _ _ Hs')|]. split; [|apply NoDup_singleton].
    intros x Hx ->%list_elem_of_singleton. eapply Hu; [apply not_elem_of_empty|]. by exists s'.
  - intros q x [Hqx|[-> ->]]%Hsub; [by apply Hr|done].
Qed.

Lemma leaf_unlisted h t c parent :
  wf_by h ∅ t → t !! c = None → unlisted ∅ (<[c := (parent, [])]> t) c.
Proof.
  intros Hwf Hc p _ (s & Hs & Hx). apply lookup_insert_Some in Hs as [[-> <-]|[Hne Hs]]; [by apply elem_of_nil in Hx|].
  destruct (wf_linked _ _ _ Hwf p c) as (sx & Hsx & _); [apply not_elem_of_empty|by exists s|]. congruence.
Qed.

Lemma wf_graft t c parent : wf t → t !! c = None → parent ≠ Some c → wf (graft c parent t).
Proof.
  intros [h Hwf] Hc Hp. unfold graft. destruct parent as [p|].
  - eexists. apply wf_enlist; [by apply wf_leaf| | |].
    + eexists. by rewrite lookup_insert_eq.
    + by eapply leaf_unlisted.
    + cbv beta. rewrite decide_True by done. rewrite decide_False by congruence. lia.
  - eexists. by apply wf_leaf.
Qed.

(** Moving a node below a node that is not below it. *)
Definition reparented (p : AgentId) (s : node) : node := (Some p, s.2).

Definition move (c : AgentId) (old : option AgentId) (p : AgentId) (t : Tree) : Tree :=
  let t := match old with Some o => alter (unlist c) o t | None => t end in
  alter (enlist c) p (alter (reparented p) c t).

(** A set of nodes closed under the children lists. *)
Definition closed (t : Tree) (S : gset AgentId) : Prop := ∀ p x, p ∈ S → lists t p x → x ∈ S.

Lemma wf_rerank h t c (S : gset AgentId) :
  wf_by h ∅ t → closed t S → c ∈ S →
  ∃ h', wf_by h' ∅ t ∧ ∀ p, p ∉ S → (h' c < h' p)%nat.
Proof.
  intros [Hl Hn Hr] HS Hc. exists (λ x, if decide (x ∈ S) then h x else h x + h c + 1)%nat. split; [split; try done|].
  - intros p x Hpx. pose proof (Hr _ _ Hpx). destruct (decide (p ∈ S)).
    + by rewrite decide_True by (by eapply HS).
    + case_decide; lia.
  - intros p Hp. rewrite decide_True, decide_False by done. lia.
Qed.

Lemma wf_reparented h t c p :
  wf_by h ∅ t → unlisted ∅ t c → wf_by h ∅ (alter (reparented p) c t).
Proof.
  intros [Hl Hn Hr] Hu.
  assert (∀ q x, lists (alter (reparented p) c t) q x → lists t q x) as Hsub.
  { intros q x. by apply lists_alter. }
  split.
  - intros q x Hq Hqx%Hsub. destruct (Hl q x) as (sx & Hsx & ?); [done..|]. exists sx. split; [|done].
    rewrite lookup_alter_ne; [done|]. intros <-. by eapply Hu.
  - intros q s Hs. apply lookup_alter_Some in Hs as [(-> & s' & Hs' & ->)|[_ Hs]];
      [exact (Hn _ _ Hs')|exact (Hn _ _ Hs)].
  - intros q x Hqx%Hsub. by apply Hr.
Qed.

Lemma wf_move t c s p (S : gset AgentId) :
  wf t → t !! c = Some s → closed t S → c ∈ S → p ∉ S → wf (move c s.1 p t).
Proof.
  intros [h0 Hwf0] Hc HS HcS Hp. destruct (wf_rerank h0 t c S) as (h & Hwf & Hh); [done..|].
  assert (∀ q, lists t q c → s.1 = Some q) as Honly.
  { intros q Hq. destruct (wf_linked _ _ _ Hwf q c) as (s' & ? & ?); [apply not_elem_of_empty|done|]. by simplify_eq. }
  unfold move. set (t1 := match s.1 with Some o => alter (unlist c) o t | None => t end).
  assert (wf_by h ∅ t1 ∧ unlisted ∅ t1 c ∧ is_Some (t1 !! c)) as (Hwf1 & Hu1 & sc & Hsc).
  { unfold t1. destruct s.1 as [o|] eqn:Es.
    - split; [by apply wf_unlist|]. split.
      + apply unlist_unlisted. intros q _ Hne Hq%Honly. by simplify_eq.
      + apply lookup_alter_is_Some. by rewrite Hc.
    - split; [done|]. split; [|by rewrite Hc]. by intros q _ Hq%Honly. }
  exists h. apply wf_enlist; [by apply wf_reparented| | |by apply Hh].
  - exists (reparented p sc). by rewrite lookup_alter_eq, Hsc.
  - intros q _ Hq. eapply (Hu1 q); [apply not_elem_of_empty|]. eapply lists_alter; [|exact Hq]. done.
Qed.

(** ** The operations on the tree *)

Lemma tree_alter (f : AgentRecord → AgentRecord) (f' : node → node) id g :
  (∀ r, shape (f r) = f' (shape r)) → tree (alter_agent f id g) = alter f' id (tree g).
Proof.
  intros Hf. unfold tree. simpl. apply map_eq. intros k. destruct (decide (id = k)) as [->|Hne].
  - rewrite lookup_alter_eq, !lookup_fmap, lookup_alter_eq. destruct (rg_agents g !! k); simpl; [|done].
    by rewrite Hf.
  - by rewrite lookup_alter_ne, !lookup_fmap, lookup_alter_ne.
Qed.

Lemma tree_alter_same (f : AgentRecord → AgentRecord) id g :
  (∀ r, shape (f r) = shape r) → tree (alter_agent f id g) = tree g.
Proof.
  intros Hf. rewrite (tree_alter _ (λ s, s)) by done. apply map_eq. intros k.
  destruct (decide (id = k)) as [->|]; [|by rewrite lookup_alter_ne].
  rewrite lookup_alter_eq. by destruct (tree g !! k).
Qed.

Lemma tree_lookup g id : tree g !! id = shape <$> get g id.
Proof. unfold tree, get. apply lookup_fmap. Qed.

Lemma lists_children g p c : lists (tree g) p c ↔ c ∈ children_of g p.
Proof.
  unfold lists, children_of. setoid_rewrite tree_lookup. destruct (get g p) as [r|]; simpl.
  - split; [by intros (s & [= <-] & ?)|]. intros. by eexists.
  - split; [by intros (s & ? & _)|]. by intros ?%elem_of_nil.
Qed.

Lemma recalculate_depth_tree fuel g p d g' :
  recalculate_depth_recursive fuel g p d = Some g' → tree g' = tree g.
Proof.
  revert g p d g'. induction fuel as [|fuel IH]; intros g p d g'; simpl; [done|].
  generalize (children_of g p). intros cs. revert g. induction cs as [|c cs IHc]; intros g; simpl; [by intros [= ->]|].
  destruct (recalculate_depth_recursive fuel _ c _) as [g1|] eqn:E; simpl; [|done].
  apply IH in E. rewrite tree_alter_same in E by done. intros H%IHc. congruence.
Qed.

Section Operations.
Context {U : UuidLib}.

Lemma insert_agent_tree g record :
  ar_children record = [] →
  tree (insert_agent g record) = graft (ar_agent_id record) (ar_parent_key record) (tree g).
Proof.
  intros Hc.
  assert (tree (with_agents g (<[ar_agent_id record := record]> (rg_agents g))) =
          <[ar_agent_id record := (ar_parent_key record, [])]> (tree g)) as Hi.
  { unfold tree. simpl. rewrite fmap_insert. unfold shape at 1. by rewrite Hc. }
  unfold insert_agent, graft. destruct (ar_parent_key record) as [pk|]; [|exact Hi].
  rewrite <- Hi. change (tree (with_indexes ?x _ _ _ _)) with (tree x).
  by apply tree_alter.
Qed.

Lemma remove_agent_tree g id record :
  get g id = Some record → tree (remove_agent g id record) = prune id (shape record) (tree g).
Proof.
  intros Hg. unfold remove_agent, prune. simpl.
  assert (tree (with_agents g (delete id (rg_agents g))) = delete id (tree g)) as Hd.
  { unfold tree. simpl. by rewrite fmap_delete. }
  change (tree (with_indexes ?x _ _ _ _)) with (tree x).
  destruct (ar_parent_key record) as [pk|]; [|exact Hd]. rewrite <- Hd. by apply tree_alter.
Qed.

Lemma suspend_orphan_tree g k eff : tree (suspend_orphan g k eff).1 = tree g.
Proof. unfold suspend_orphan. destruct (get g k); simpl; [by apply tree_alter_same|done]. Qed.

Lemma orphan_suspend_tree fuel g k eff g' eff' :
  apply_orphan_mode_recursive fuel g k Orphan.Suspend eff = Some (g', eff') → tree g' = tree g.
Proof.
  revert g k eff g' eff'. induction fuel as [|fuel IH]; intros g k eff g' eff'; [done|]. simpl.
  pose proof (suspend_orphan_tree g k eff) as Hs. destruct (suspend_orphan g k eff) as [g1 eff1]. simpl in Hs.
  rewrite <- Hs. clear Hs. generalize (children_of g k). intros cs. revert g1 eff1.
  induction cs as [|c cs IHc]; intros g1 eff1; [by intros [= -> ->]|]. simpl.
  destruct (apply_orphan_mode_recursive fuel g1 c Orphan.Suspend eff1) as [[g2 eff2]|] eqn:E; [|done].
  apply IH in E. intros H%IHc. congruence.
Qed.

Lemma orphan_promote_tree fuel g k eff g' eff' :
  apply_orphan_mode_recursive fuel g k Orphan.PromoteToRoot eff = Some (g', eff') →
  tree g' = alter (λ s : node, (None, s.2)) k (tree g).
Proof.
  destruct fuel as [|fuel]; [done|]. simpl. unfold orphan_promote_to_root.
  destruct (recalculate_depth_recursive fuel _ k 0) as [g1|] eqn:E; simpl; [|done]. intros [= <- _].
  rewrite (recalculate_depth_tree _ _ _ _ _ E). by apply tree_alter.
Qed.

Lemma cascade_remove_tree g k eff : tree (cascade_remove g k eff).1 = delete k (tree g).
Proof.
  unfold cascade_remove. set (g1 := with_indexes g _ _ _ _). change (tree g) with (tree g1).
  destruct (get g1 k) as [r|] eqn:E; simpl.
  - unfold tree. simpl. by rewrite fmap_delete.
  - rewrite delete_id; [done|]. rewrite tree_lookup. by rewrite E.
Qed.

(** Deregistering an unlisted subtree keeps the forest, whatever else is being torn
    down above it. *)
Lemma orphan_cascade_tree h fuel g k eff g' eff' :
  apply_orphan_mode_recursive fuel g k Orphan.CascadeDeregister eff = Some (g', eff') →
  ∀ D, wf_by h D (tree g) → unlisted D (tree g) k → (∀ d, d ∈ D → h k < h d)%nat →
  wf_by h D (tree g') ∧ tree g' ⊆ tree g.
Proof.
  revert g k eff g' eff'. induction fuel as [|fuel IH]; intros g k eff g' eff'; [done|]. simpl.
  intros Hgo D Hwf Hu HD.
  set (go := fix go (keys : list AgentId) (g : AgentRegistry) (effects : list OrphanEffect)
                  : option (AgentRegistry * list OrphanEffect) :=
        match keys with
        | [] => Some (g, effects)
        | gk :: rest =>
            match apply_orphan_mode_recursive fuel g gk Orphan.CascadeDeregister effects with
            | Some (g', effects') => go rest g' effects'
            | None => None
            end
        end) in *.
  assert (∀ cs g1 eff1 g2 eff2, go cs g1 eff1 = Some (g2, eff2) →
            wf_by h (D ∪ {[k]}) (tree g1) →
            Forall (λ c, unlisted (D ∪ {[k]}) (tree g1) c ∧ (h c < h k)%nat) cs →
            wf_by h (D ∪ {[k]}) (tree g2) ∧ tree g2 ⊆ tree g1) as Hloop.
  { induction cs as [|c cs IHc]; intros g1 eff1 g2 eff2 H1 Hwf1 Hcs; simpl in H1; [by simplify_eq|].
    inversion Hcs as [|? ? [Huc Hhc] Hcs']; subst.
    destruct (apply_orphan_mode_recursive fuel g1 c _ eff1) as [[g3 eff3]|] eqn:E; [|done].
    destruct (IH _ _ _ _ _ E (D ∪ {[k]})) as [Hwf3 Hsub3]; [done|done| |].
    { intros d [Hd| ->%elem_of_singleton]%elem_of_union; [|done]. apply HD in Hd. lia. }
    destruct (IHc g3 eff3 g2 eff2 H1 Hwf3) as [Hwf2 Hsub2].
    - eapply Forall_impl; [exact Hcs'|]. intros x [Hx ?]. split; [|done]. by eapply unlisted_subseteq.
    - split; [done|]. by transitivity (tree g3). }
  destruct (go (children_of g k) g eff) as [[g1 eff1]|] eqn:E; [|done].
  assert (k ∉ D) as HkD by (intros Hk; apply HD in Hk; lia).
  destruct (Hloop _ _ _ _ _ E) as [Hwf1 Hsub1].
  { eapply wf_grow, Hwf. apply union_subseteq_l. }
  { apply Forall_forall. intros c Hc%lists_children. split; [|by eapply wf_ranked].
    intros p [Hp Hpk]%not_elem_of_union Hpc. destruct (wf_linked _ _ _ Hwf k c) as (s & Hs & Hsk); [done..|].
    destruct (wf_linked _ _ _ Hwf p c) as (s' & Hs' & Hsp); [done..|]. apply Hpk, elem_of_singleton. congruence. }
  pose proof (cascade_remove_tree g1 k eff1) as Ht. destruct (cascade_remove g1 k eff1) as [g2 eff2].
  injection Hgo as <- <-. simpl in Ht. rewrite Ht. split.
  - apply wf_delete; [done|]. by eapply unlisted_subseteq.
  - etransitivity; [apply delete_subseteq|done].
Qed.

Lemma orphan_children_wf h fuel g ks mode eff g' eff' :
  orphan_children fuel g ks mode eff = Some (g', eff') → wf_by h ∅ (tree g) →
  Forall (unlisted ∅ (tree g)) ks → wf_by h ∅ (tree g').
Proof.
  revert g eff. induction ks as [|k ks IH]; intros g eff; simpl; [by intros [= -> ->]|].
  destruct (apply_orphan_mode_recursive fuel g k mode eff) as [[g1 eff1]|] eqn:E; [|done].
  intros H1 Hwf Hks. inversion Hks as [|? ? Hk Hks']; subst.
  assert (wf_by h ∅ (tree g1) ∧ ∀ c, unlisted ∅ (tree g) c → unlisted ∅ (tree g1) c) as [Hwf1 Hun].
  { destruct mode.
    - by rewrite (orphan_suspend_tree _ _ _ _ _ _ E).
    - rewrite (orphan_promote_tree _ _ _ _ _ _ E). split; [by apply wf_detach|].
      intros c Hc p Hp Hpc. eapply (Hc p); [done|]. eapply lists_alter; [|exact Hpc]. done.
    - destruct (orphan_cascade_tree h _ _ _ _ _ _ E ∅) as [? ?]; [done|done|by intros ? ?%not_elem_of_empty|].
      split; [done|]. intros c Hc. by eapply unlisted_subseteq. }
  apply (IH g1 eff1); [done|done|]. eapply Forall_impl; [exact Hks'|]. done.
Qed.

Lemma deregister_wf fuel g id mode g' out :
  deregister fuel g id mode = Some (g', out) → wf (tree g) → wf (tree g').
Proof.
  unfold deregister. set (g0 := with_indexes g _ _ _ _). change (tree g) with (tree g0).
  change (children_of g id) with (children_of g0 id). destruct (get g0 id) as [record|] eqn:Eg; [|by intros [= <- _]].
  destruct (orphan_children fuel _ _ _ _) as [[g1 eff]|] eqn:E; [|done]. intros [= <- _] [h Hwf]. exists h.
  assert (tree g0 !! id = Some (shape record)) as Hid by by rewrite tree_lookup, Eg.
  pose proof (wf_prune h _ _ _ Hwf Hid) as Hp. rewrite <- (remove_agent_tree _ _ _ Eg) in Hp.
  eapply orphan_children_wf; [exact E|exact Hp|]. apply Forall_forall. intros c Hc%lists_children p _ Hpc.
  destruct (wf_linked _ _ _ Hwf id c) as (s & Hs & Hsp); [apply not_elem_of_empty|done|].
  assert (p ≠ id ∧ lists (tree g0) p c) as [Hne Hpc0].
  { rewrite (remove_agent_tree _ _ _ Eg) in Hpc. unfold prune in Hpc. simpl in Hpc.
    assert (lists (delete id (tree g0)) p c) as (s' & Hs' & Hc').
    { destruct (ar_parent_key record); [|done]. eapply lists_alter; [|exact Hpc].
      intros s'. simpl. rewrite list_elem_of_filter. tauto. }
    apply lookup_delete_Some in Hs' as [? ?]. split; [done|]. by exists s'. }
  destruct (wf_linked _ _ _ Hwf p c) as (s' & Hs' & Hsp'); [apply not_elem_of_empty|done|]. congruence.
Qed.

Lemma register_wf fuel g record g' :
  ar_children record = [] → register fuel g record = Some (Ok g') → wf (tree g) → wf (tree g').
Proof.
  intros Hc. unfold register. destruct (validate_tenant_id _ _); [|done]. destruct (validate_tenant_id _ _); [|done].
  set (checked := match ar_parent_key record with Some _ => _ | None => _ end).
  destruct checked as [[[]|e]|] eqn:E; [|done..]. destruct (get g (ar_agent_id record)) eqn:Eg; [done|].
  intros [= <-] Hwf. rewrite insert_agent_tree by done. apply wf_graft; [done|by rewrite tree_lookup, Eg|].
  intros Hp. unfold checked in E. rewrite Hp in E. unfold validate_lineage in E.
  rewrite decide_True in E by done. by destruct (_ <=? _).
Qed.

(** ** Walking the children *)

Definition child_rel (g : AgentRegistry) (p c : AgentId) : Prop := c ∈ children_of g p.

Lemma bfs_spec fuel g queue ds :
  bfs fuel g queue = Some ds → ∀ x, x ∈ ds ↔ ∃ q, q ∈ queue ∧ rtc (child_rel g) q x.
Proof.
  revert queue ds. induction fuel as [|fuel IH]; intros [|c rest] ds; simpl; try done;
    [intros [= <-] x; split; [by intros ?%elem_of_nil|by intros (? & ?%elem_of_nil & _)]..|].
  destruct (bfs fuel g (rest ++ children_of g c)) as [ds'|] eqn:E; [|done]. intros [= <-] x.
  rewrite elem_of_cons, (IH _ _ E). setoid_rewrite elem_of_app. setoid_rewrite elem_of_cons. split.
  - intros [->|(q & [Hq|Hq] & Hx)]; [exists c; split; [by left|apply rtc_refl]|exists q; auto|].
    exists c. split; [by left|]. by eapply rtc_l.
  - intros (q & [->|Hq] & Hx); [|right; exists q; auto]. inversion Hx as [|? y ? Hy Hyx]; subst; [by left|].
    right. exists y. auto.
Qed.

Lemma descendants_spec fuel g id ds :
  descendants_of fuel g id = Some ds → ∀ x, x ∈ ds ↔ tc (child_rel g) id x.
Proof.
  intros H x. rewrite (bfs_spec _ _ _ _ H). split.
  - intros (q & Hq & Hx). by eapply tc_rtc_r; [apply tc_once|].
  - intros Hx. inversion Hx as [|? y ? Hy Hyx]; subst; [exists x|exists y]; (split; [done|]).
    + apply rtc_refl.
    + by apply tc_rtc.
Qed.

(** The number of visits a walk below a node needs. *)
Fixpoint weight (n : nat) (g : AgentRegistry) (a : AgentId) : nat :=
  match n with O => 1%nat | S n' => S (sum_list (map (weight n' g) (children_of g a))) end.

Lemma weight_stable h g n m a :
  wf_by h ∅ (tree g) → (h a ≤ n)%nat → (h a ≤ m)%nat → weight n g a = weight m g a.
Proof.
  intros Hwf. revert m a. induction n as [|n IH]; intros m a Hn Hm.
  - destruct m as [|m]; [done|]. simpl. destruct (children_of g a) as [|c cs] eqn:E; [done|].
    assert (lists (tree g) a c) as Hc by (rewrite lists_children, E; left). apply (wf_ranked _ _ _ Hwf) in Hc. lia.
  - assert (∀ c, c ∈ children_of g a → (h c < h a)%nat) as Hc.
    { intros c Hc. apply (wf_ranked _ _ _ Hwf). by apply lists_children. }
    destruct m as [|m]; simpl.
    + destruct (children_of g a) as [|c cs]; [done|]. specialize (Hc c ltac:(left)). lia.
    + do 2 f_equal. apply list_fmap_ext. intros i c Hi%list_elem_of_lookup_2. apply Hc in Hi. apply IH; lia.
Qed.

Lemma bfs_total h g fuel queue :
  wf_by h ∅ (tree g) → (sum_list (map (λ a, weight (h a) g a) queue) ≤ fuel)%nat → is_Some (bfs fuel g queue).
Proof.
  intros Hwf. revert queue. induction fuel as [|fuel IH]; intros [|c rest] Hle; simpl in *; try by eexists.
  - destruct (h c); simpl in Hle; lia.
  - destruct (IH (rest ++ children_of g c)) as [ds Hds]; [|rewrite Hds; by eexists].
    assert (weight (h c) g c = S (sum_list (map (λ a, weight (h a) g a) (children_of g c)))) as Hw.
    { rewrite (weight_stable h g (h c) (S (h c)) c) by (done || lia). simpl. do 2 f_equal. apply list_fmap_ext.
      intros i x Hx%list_elem_of_lookup_2. assert (h x < h c)%nat by (apply (wf_ranked _ _ _ Hwf), lists_children; done).
      apply (weight_stable h); (done || lia). }
    rewrite map_app, sum_list_with_app. rewrite Hw in Hle. simpl in Hle. lia.
Qed.

Lemma relink_tree g child p plan root s :
  tree g !! child = Some s → p ≠ child → rp_old_parent_key plan = s.1 → wf (tree g) →
  tree (relink g child p plan root) = move child s.1 p (tree g).
Proof.
  intros Hc Hp Hold [h Hwf]. unfold relink, move. rewrite Hold. clear Hold.
  set (g1 := match s.1 with Some _ => _ | None => _ end).
  assert (tree g1 = match s.1 with Some o => alter (unlist child) o (tree g) | None => tree g end) as <-.
  { unfold g1. destruct s.1 as [o|]; [|done]. by apply tree_alter. }
  assert (unlisted ∅ (tree g1) child) as Hu.
  { assert (∀ q, lists (tree g) q child → s.1 = Some q) as Honly.
    { intros q Hq. destruct (wf_linked _ _ _ Hwf q child) as (s' & ? & ?); [apply not_elem_of_empty|done|].
      by simplify_eq. }
    unfold g1. destruct s.1 as [o|] eqn:Es; [|by intros q _ Hq%Honly].
    rewrite (tree_alter _ (unlist child)) by done. apply unlist_unlisted. intros q _ Hne Hq%Honly. by simplify_eq. }
  rewrite (tree_alter _ (reparented p)) by done.
  rewrite (tree_alter _ (λ s : node, if decide (child ∈ s.2) then s else enlist child s)).
  2: { intros r. simpl. by case_decide. }
  rewrite alter_alter_ne by done. apply alter_ext. intros n Hn.
  rewrite lookup_alter_ne in Hn by done. rewrite decide_False; [done|].
  intros Hin. eapply (Hu p); [apply not_elem_of_empty|]. by exists n.
Qed.

Lemma reparent_wf fuel g child p g' out :
  reparent fuel g child p = Some (g', out) → wf (tree g) → wf (tree g').
Proof.
  unfold reparent. destruct (validate_reparent fuel g child p) as [[[plan|]|e]|] eqn:Ev;
    [|by intros [= <- _]|by intros [= <- _]|done].
  unfold validate_reparent in Ev. destruct (get g child) as [r|] eqn:Ec; [|done].
  case_decide; [done|]. destruct (get g p) as [np|] eqn:Ep; [|done]. case_decide as Hne; [done|].
  destruct (descendants_of fuel g child) as [ds|] eqn:Ed; [|done]. case_decide as Hds; [done|].
  cbv zeta in Ev. destruct (_ <=? _); [done|]. injection Ev as <-. simpl. intros Hrun Hwf.
  set (plan := {| rp_old_parent_key := _ |}) in *.
  assert (wf (tree (relink g child p plan (Some (default (ar_agent_id np) (ar_root_agent_id np)))))) as Hwf'.
  { assert (tree g !! child = Some (shape r)) as Ht by by rewrite tree_lookup, Ec.
    rewrite (relink_tree _ _ _ _ _ _ Ht) by done. eapply (wf_move _ _ _ _ (list_to_set (child :: ds))); try done.
    - intros q x Hq Hqx. rewrite elem_of_list_to_set, elem_of_cons in *. right.
      apply (descendants_spec _ _ _ _ Ed). rewrite lists_children in Hqx.
      destruct Hq as [->|Hq]; [by apply tc_once|]. apply (descendants_spec _ _ _ _ Ed) in Hq. by eapply tc_r.
    - rewrite elem_of_list_to_set. left.
    - rewrite elem_of_list_to_set, elem_of_cons. tauto. }
  destruct (recalculate_depth_recursive fuel _ child _) as [g1|] eqn:Er; [|done].
  apply recalculate_depth_tree in Er. rewrite <- Er in Hwf'.
  destruct (descendants_of fuel g1 child) as [ds'|]; [|done]. injection Hrun as <- _.
  cut (tree (propagate_root g1 (default (ar_agent_id np) (ar_root_agent_id np)) ds') = tree g1); [by intros ->|].
  clear. generalize (default (ar_agent_id np) (ar_root_agent_id np)). intros root. revert g1.
  induction ds' as [|d ds' IH]; intros g1; [done|]. simpl. rewrite IH. by apply tree_alter_same.
Qed.

(** ** Reachable registries *)

Inductive registry_op :=
| OpRegister (record : AgentRecord)
| OpDeregister (id : AgentId) (mode : OrphanMode)
| OpReparent (child new_parent : AgentId)
| OpHeartbeat (id : AgentId) (now : Z)
| OpSession (id : AgentId) (session_id : string) (now : Z)
| OpCloseSession (id : AgentId) (session_id : string)
| OpOpenStream (id : AgentId)
| OpSuspend (id : AgentId) (reason : SuspendReason)
| OpResume (id : AgentId)
| OpSuspendCascade (id : AgentId) (reason : SuspendReason)
| OpSweep (now_secs : Z)
| OpTeamMaxAge (team_id : string) (max_secs : Z)
| OpEnforcementMode (id : AgentId) (mode : option EnforcementMode) (expires_at : option Z)
    (storage : option (result unit string)).

Definition or_same {A} (g : AgentRegistry) (f : A → AgentRegistry) (r : result A RegistryError) : AgentRegistry :=
  match r with Ok a => f a | Err _ => g end.

(** The registry after an operation, failed or not; [None] when it does not end
    within the fuel. *)
Definition apply_registry_op (fuel : nat) (g : AgentRegistry) (o : registry_op) : option AgentRegistry :=
  match o with
  | OpRegister record => or_same g id <$> register fuel g record
  | OpDeregister id mode => fst <$> deregister fuel g id mode
  | OpReparent child p => fst <$> reparent fuel g child p
  | OpHeartbeat id now => Some (or_same g (λ g', g') (update_heartbeat g id now))
  | OpSession id s now => Some (or_same g fst (record_session_activity g id s now))
  | OpCloseSession id s => Some (or_same g fst (close_session g id s))
  | OpOpenStream id => Some (or_same g (λ g', g') (open_control_stream g id))
  | OpSuspend id reason => Some (suspend_agent g id reason).1
  | OpResume id => Some (resume_agent g id).1
  | OpSuspendCascade id reason => fst <$> suspend_with_cascade fuel g id reason
  | OpSweep now => Some (sweep_aged_agents g now).1
  | OpTeamMaxAge t n => Some (set_team_max_age g t n)
  | OpEnforcementMode id m e st => Some (set_enforcement_mode_persisted g id m e st).1
  end.

(** The callers of [register] build records without children. *)
Definition op_ok (o : registry_op) : Prop :=
  match o with OpRegister record => ar_children record = [] | _ => True end.

Inductive reachable : AgentRegistry → Prop :=
| reachable_new : reachable new_registry
| reachable_step g fuel o g' :
    reachable g → op_ok o → apply_registry_op fuel g o = Some g' → reachable g'.

Lemma tree_foldl_alter {A} (f : A → AgentId * (AgentRecord → AgentRecord)) l g :
  (∀ x r, shape ((f x).2 r) = shape r) →
  tree (foldl (λ g x, alter_agent (f x).2 (f x).1 g) g l) = tree g.
Proof.
  intros Hf. revert g. induction l as [|x l IH]; intros g; simpl; [done|]. rewrite IH. by apply tree_alter_same.
Qed.

Lemma apply_suspend_reason_tree g id reason : tree (apply_suspend_reason g id reason).1 = tree g.
Proof.
  unfold apply_suspend_reason. destruct (get g id); [|done]. case_decide; [done|].
  destruct (get_suspend_reasons g id); simpl; [|done]. by rewrite tree_alter_same.
Qed.

Lemma cascade_walk_tree fuel root g queue ev g' ev' :
  cascade_walk fuel root g queue ev = Some (g', ev') → tree g' = tree g.
Proof.
  revert g queue ev. induction fuel as [|fuel IH]; intros g [|d rest] ev; simpl; try (by intros [= <- _]).
  pose proof (apply_suspend_reason_tree g d (Suspend.ParentSuspended (default root (parent_of g d)))) as Ht.
  destruct (apply_suspend_reason g d _) as [g1 o]. simpl in Ht. rewrite <- Ht. apply IH.
Qed.

Lemma op_tree_same fuel g o g' :
  match o with OpRegister _ | OpDeregister _ _ | OpReparent _ _ => False | _ => True end →
  apply_registry_op fuel g o = Some g' → tree g' = tree g.
Proof.
  destruct o; simpl; intros Hno; try done.
  - intros [= <-]. unfold update_heartbeat. destruct (get g id); simpl; [by apply tree_alter_same|done].
  - intros [= <-]. unfold record_session_activity. destruct (get g id); simpl; [|done].
    destruct (bump_session _ _) as [[]|]; simpl; by apply tree_alter_same.
  - intros [= <-]. unfold close_session. destruct (get g id); simpl; [by apply tree_alter_same|done].
  - intros [= <-]. unfold open_control_stream. by destruct (get g id).
  - intros [= <-]. unfold suspend_agent. set (g1 := with_reasons g _). change (tree g) with (tree g1).
    destruct (get g1 id); simpl; [by apply tree_alter_same|done].
  - intros [= <-]. unfold resume_agent. set (g1 := with_reasons g _). change (tree g) with (tree g1).
    destruct (get g1 id); simpl; [by apply tree_alter_same|done].
  - unfold suspend_with_cascade. pose proof (apply_suspend_reason_tree g id reason) as Ht.
    destruct (apply_suspend_reason g id reason) as [g1 [o|e]]; simpl in Ht; [|intros [= <-]; done].
    destruct (cascade_walk _ _ _ _ _) as [[g2 ev]|] eqn:E; [|done]. intros [= <-]. simpl.
    apply cascade_walk_tree in E. congruence.
  - intros [= <-]. unfold sweep_aged_agents. simpl.
    by apply (tree_foldl_alter (λ k, (k, λ r, set_status r Deregistered))).
  - by intros [= <-].
  - intros [= <-]. unfold set_enforcement_mode_persisted.
    destruct expires_at, mode as [[]|]; try done; (destruct (get g id); [|done]);
      destruct storage as [[]|]; simpl; rewrite ?tree_alter_same; done.
Qed.

Lemma step_wf fuel g o g' :
  op_ok o → apply_registry_op fuel g o = Some g' → wf (tree g) → wf (tree g').
Proof.
  intros Hok Ha Hwf. destruct o; try (erewrite op_tree_same; [exact Hwf| |exact Ha]; exact I); simpl in Ha.
  - destruct (register fuel g record) as [[g1|e]|] eqn:E; simplify_eq/=; [|done]. by eapply register_wf.
  - destruct (deregister fuel g id mode) as [[g1 out]|] eqn:E; simplify_eq/=. by eapply deregister_wf.
  - destruct (reparent fuel g child new_parent) as [[g1 out]|] eqn:E; simplify_eq/=. by eapply reparent_wf.
Qed.

Lemma wf_empty : wf (tree new_registry).
Proof.
  exists (λ _, 0%nat). split.
  - intros p c _ Hl. exfalso. destruct Hl as (s & Hs & _). done.
  - by intros p s Hs.
  - intros p c (s & Hs & _). done.
Qed.

Lemma reachable_wf g : reachable g → wf (tree g).
Proof. induction 1 as [|g fuel o g' _ IH Hok Ha]; [apply wf_empty|]. by eapply step_wf. Qed.

(** C31: In every registry reachable by the operations of the
    store, the children lists form a forest: each listed child is registered and
    names the lister as its parent, no list repeats a child, and a rank decreases
    from parent to child, so no agent is its own descendant.  Registration,
    deregistration under each orphan policy and reparenting all keep this, whatever
    their arguments. *)
Theorem registry_forest g :
  reachable g →
  ∃ h : AgentId → nat,
    ∀ p r c, get g p = Some r → c ∈ ar_children r →
      NoDup (ar_children r) ∧ (h c < h p)%nat ∧
      ∃ rc, get g c = Some rc ∧ ar_parent_key rc = Some p.
Proof.
  intros [h Hwf]%reachable_wf. exists h. intros p r c Hp Hc.
  assert (tree g !! p = Some (shape r)) as Ht by by rewrite tree_lookup, Hp.
  assert (lists (tree g) p c) as Hl by by exists (shape r).
  split; [exact (wf_nodup _ _ _ Hwf _ _ Ht)|]. split; [by apply (wf_ranked _ _ _ Hwf)|].
  destruct (wf_linked _ _ _ Hwf p c) as (s & Hs & Hsp); [apply not_elem_of_empty|done|].
  rewrite tree_lookup in Hs. destruct (get g c) as [rc|] eqn:E; simplify_eq/=. by exists rc.
Qed.

(** C33: [descendants_of] ends on every reachable registry and
    returns exactly the agents reachable through the children lists; the agent itself
    is not among them. *)
Theorem descendants_complete g a :
  reachable g →
  ∃ n, ∀ fuel, (n ≤ fuel)%nat →
    ∃ ds, descendants_of fuel g a = Some ds ∧ (∀ x, x ∈ ds ↔ tc (child_rel g) a x) ∧ a ∉ ds.
Proof.
  intros [h Hwf]%reachable_wf. eexists. intros fuel Hf.
  destruct (bfs_total h g fuel (children_of g a) Hwf Hf) as [ds Hds]. exists ds.
  pose proof (descendants_spec fuel g a ds Hds) as Hspec. split; [done|]. split; [done|].
  intros Ha%Hspec. assert (∀ x y, tc (child_rel g) x y → (h y < h x)%nat) as Hrank.
  { induction 1 as [x y Hxy|x y z Hxy _ IH]; apply lists_children in Hxy;
      apply (wf_ranked _ _ _ Hwf) in Hxy; lia. }
  apply Hrank in Ha. lia.
Qed.

(** ** Cascading suspension *)

Definition is_suspended (g : AgentRegistry) (x : AgentId) : Prop :=
  ∃ r s, get g x = Some r ∧ ar_status r = Suspended s.

(** The agent has no recorded reason unless it is suspended. *)
Definition coherent (g : AgentRegistry) (x : AgentId) : Prop := get_suspend_reasons g x = [] ∨ is_suspended g x.

(** What suspending the agents of [X] may change. *)
Record suspends (X : AgentId → Prop) (g g' : AgentRegistry) : Prop := {
  sus_coherent x : is_Some (get g x) → coherent g x → coherent g' x;
  sus_done x : coherent g x → X x → is_Some (get g x) → is_suspended g' x;
  sus_kept x : is_suspended g x → is_suspended g' x;
  sus_reasons x rs : rs ∈ get_suspend_reasons g x → rs ∈ get_suspend_reasons g' x;
  sus_recorded x : get_suspend_reasons g x ≠ [] → get g' x = get g x;
  sus_others x : ¬ X x → get g' x = get g x;
  sus_tree : tree g' = tree g;
}.

Lemma suspends_refl g : suspends (λ _, False) g g.
Proof. by split. Qed.

Lemma tree_registered g g' x : tree g' = tree g → is_Some (get g x) → is_Some (get g' x).
Proof.
  intros Ht [r Hr]. assert (tree g' !! x = Some (shape r)) as H by by rewrite Ht, tree_lookup, Hr.
  rewrite tree_lookup in H. by destruct (get g' x).
Qed.

Lemma suspends_trans X Y g1 g2 g3 :
  suspends X g1 g2 → suspends Y g2 g3 → suspends (λ x, X x ∨ Y x) g1 g3.
Proof.
  intros H1 H2. split.
  - intros x Hr Hc. apply (sus_coherent _ _ _ H2); [|by apply (sus_coherent _ _ _ H1)].
    eapply tree_registered; [apply (sus_tree _ _ _ H1)|done].
  - intros x Hc [Hx|Hx] Hr.
    + apply (sus_kept _ _ _ H2). by apply (sus_done _ _ _ H1).
    + apply (sus_done _ _ _ H2); [by apply (sus_coherent _ _ _ H1)|done|].
      eapply tree_registered; [apply (sus_tree _ _ _ H1)|done].
  - intros x Hx. by apply (sus_kept _ _ _ H2), (sus_kept _ _ _ H1).
  - intros x rs Hx. by apply (sus_reasons _ _ _ H2), (sus_reasons _ _ _ H1).
  - intros x Hx. rewrite (sus_recorded _ _ _ H2), (sus_recorded _ _ _ H1); [done..|].
    destruct (get_suspend_reasons g1 x) as [|r rs] eqn:E; [done|]. intros Hn.
    pose proof (sus_reasons _ _ _ H1 x r) as Hin. rewrite E, Hn in Hin. by apply (not_elem_of_nil r), Hin; left.
  - intros x Hx. rewrite (sus_others _ _ _ H2), (sus_others _ _ _ H1); tauto.
  - by rewrite (sus_tree _ _ _ H2), (sus_tree _ _ _ H1).
Qed.

Lemma suspends_ext X Y g g' : (∀ x, X x ↔ Y x) → suspends X g g' → suspends Y g g'.
Proof. intros HXY [H1 H2 H3 H4 H5 H6 H7]. split; try done; intros x; rewrite <- HXY; [apply H2|apply H6]. Qed.

Lemma get_alter f k g x :
  get (alter_agent f k g) x = if decide (x = k) then f <$> get g x else get g x.
Proof.
  unfold get, alter_agent. simpl. case_decide as E; [subst; apply lookup_alter_eq|].
  by apply lookup_alter_ne.
Qed.

Lemma get_suspend_reasons_put g k rs x :
  get_suspend_reasons (with_reasons g (<[k := rs]> (rg_suspend_reasons g))) x =
    if decide (x = k) then rs else get_suspend_reasons g x.
Proof.
  unfold get_suspend_reasons. simpl. case_decide as E; [subst; by rewrite lookup_insert_eq|].
  by rewrite lookup_insert_ne.
Qed.

Lemma apply_suspend_reason_suspends g k reason : suspends (.= k) g (apply_suspend_reason g k reason).1.
Proof.
  pose proof (apply_suspend_reason_tree g k reason) as Ht. unfold apply_suspend_reason in *.
  destruct (get g k) as [r|] eqn:Ek.
  2: { split; try done. intros x _ -> [? ?]. congruence. }
  case_decide as Hin; cbn [fst] in *.
  - split; [| | | |done..].
    + intros x Hx [Hr|Hs]; [left|by right]. rewrite get_suspend_reasons_put. by case_decide; subst.
    + intros x [Hr|Hs] -> Hx; [|exact Hs]. rewrite Hr in Hin. by apply elem_of_nil in Hin.
    + done.
    + intros x rs Hx. rewrite get_suspend_reasons_put. by case_decide; subst.
  - destruct (get_suspend_reasons g k) as [|r0 rest] eqn:Er; simpl in *.
    + set (g1 := with_reasons g _) in *.
      assert (∀ x, is_suspended g x ∨ x = k → is_suspended (alter_agent (λ r, set_status r (Suspended reason)) k g1) x)
        as Hsus.
      { intros x Hx. unfold is_suspended. setoid_rewrite get_alter. change (get g1) with (get g). case_decide as E.
        - subst. rewrite Ek. simpl. by do 2 eexists.
        - destruct Hx as [Hx|Hx]; done. }
      split.
      * intros x Hx [Hr|Hs]; [|right; apply Hsus; by left].
        destruct (decide (x = k)) as [E|E]; [right; apply Hsus; by right|left].
        change (get_suspend_reasons g1 x = []). unfold g1. rewrite get_suspend_reasons_put. by rewrite decide_False.
      * intros x _ -> _. apply Hsus. by right.
      * intros x Hx. apply Hsus. by left.
      * intros x rs Hx. change (rs ∈ get_suspend_reasons g1 x). unfold g1. rewrite get_suspend_reasons_put.
        case_decide; subst; [|done]. rewrite Er in Hx. by apply elem_of_nil in Hx.
      * intros x Hx. rewrite get_alter. rewrite decide_False; [done|]. by intros ->.
      * intros x Hx. rewrite get_alter. by rewrite decide_False.
      * done.
    + split; [| | | |done..].
      * intros x Hx [Hr|Hs]; [|by right]. left. rewrite get_suspend_reasons_put.
        case_decide; subst; [congruence|done].
      * intros x [Hr|Hs] -> Hx; [congruence|exact Hs].
      * done.
      * intros x rs Hx. rewrite get_suspend_reasons_put. case_decide; subst; [|done]. rewrite Er in Hx.
        change (r0 :: rest ++ [reason]) with ((r0 :: rest) ++ [reason]). apply elem_of_app. by left.
Qed.

Lemma children_of_tree g g' x : tree g' = tree g → children_of g' x = children_of g x.
Proof.
  intros Ht. assert (tree g' !! x = tree g !! x) as H by by rewrite Ht. rewrite !tree_lookup in H.
  unfold children_of. destruct (get g' x), (get g x); simplify_eq/=; done.
Qed.

Lemma bfs_tree fuel g g' queue : tree g' = tree g → bfs fuel g' queue = bfs fuel g queue.
Proof.
  intros Ht. revert queue. induction fuel as [|fuel IH]; intros [|c rest]; simpl; try done.
  by rewrite (children_of_tree g g'), IH.
Qed.

Lemma cascade_walk_suspends fuel root g queue ev ds :
  bfs fuel g queue = Some ds →
  ∃ g' ev', cascade_walk fuel root g queue ev = Some (g', ev') ∧ suspends (.∈ ds) g g'.
Proof.
  revert g queue ev ds. induction fuel as [|fuel IH]; intros g [|d rest] ev ds; simpl; try done;
    [intros [= <-]; exists g, ev; split; [done|];
     eapply suspends_ext, suspends_refl; intros x; rewrite elem_of_nil; tauto..|].
  pose proof (apply_suspend_reason_suspends g d (Suspend.ParentSuspended (default root (parent_of g d)))) as Hs.
  destruct (apply_suspend_reason g d _) as [g1 o]. simpl in Hs. pose proof (sus_tree _ _ _ Hs) as Ht.
  destruct (bfs fuel g (rest ++ children_of g d)) as [ds'|] eqn:E; [|done]. intros [= <-].
  rewrite (children_of_tree g g1) by done. rewrite <- (bfs_tree _ g g1) in E by done.
  destruct (IH g1 _ (match o with Ok (Some event) => ev ++ [event] | _ => ev end) _ E) as (g' & ev' & -> & Hs').
  exists g', ev'. split; [done|]. eapply suspends_ext; [|by eapply suspends_trans]. intros x. simpl.
  by rewrite elem_of_cons.
Qed.

Lemma tc_last {A} (R : relation A) x y : tc R x y → ∃ z, R z y.
Proof. induction 1 as [x y Hxy|x y z _ _ IH]; [by exists x|done]. Qed.

(** C32: Suspending with cascade ends and succeeds on every registered agent of a registry
    the operations can build.  Of the agent and all its descendants, each that had no recorded
    reason of suspension, or was suspended already, is suspended afterwards; each that had a
    recorded reason keeps its record as it was, so that one with a reason left over from an
    earlier registration stays as it is.  No reason recorded before is lost, and no agent
    outside the subtree is touched. *)
Theorem cascade_suspends_subtree g a reason :
  reachable g → is_Some (get g a) →
  ∃ n, ∀ fuel, (n ≤ fuel)%nat →
    ∃ g' events, suspend_with_cascade fuel g a reason = Some (g', Ok events) ∧
      (∀ x, x = a ∨ tc (child_rel g) a x → coherent g x → is_suspended g' x) ∧
      (∀ x, get_suspend_reasons g x ≠ [] → get g' x = get g x) ∧
      (∀ x rs, rs ∈ get_suspend_reasons g x → rs ∈ get_suspend_reasons g' x) ∧
      (∀ x, x ≠ a → ¬ tc (child_rel g) a x → get g' x = get g x).
Proof.
  intros [h Hwf]%reachable_wf Ha. eexists. intros fuel Hf.
  pose proof (apply_suspend_reason_suspends g a reason) as Hs. unfold suspend_with_cascade.
  assert (∃ o, (apply_suspend_reason g a reason).2 = Ok o) as [o Ho].
  { unfold apply_suspend_reason. destruct Ha as [r ->]. case_decide; [by eexists|].
    destruct (get_suspend_reasons g a); by eexists. }
  destruct (apply_suspend_reason g a reason) as [g1 o']. simpl in *. subst o'. pose proof (sus_tree _ _ _ Hs) as Ht.
  destruct (bfs_total h g fuel (children_of g a) Hwf Hf) as [ds Hds].
  pose proof (descendants_spec fuel g a ds Hds) as Hspec.
  rewrite (children_of_tree g g1) by done. rewrite <- (bfs_tree _ g g1) in Hds by done.
  destruct (cascade_walk_suspends fuel a g1 _ (match o with Some event => [event] | None => [] end) _ Hds)
    as (g' & ev' & -> & Hs').
  exists g', ev'. split; [done|]. pose proof (suspends_trans _ _ _ _ _ Hs Hs') as H.
  split; [|split; [apply (sus_recorded _ _ _ H)|split; [apply (sus_reasons _ _ _ H)|]]].
  - intros x Hx Hc. apply (sus_done _ _ _ H); [done|by rewrite Hspec|]. destruct Hx as [->|Hx]; [done|].
    apply tc_last in Hx as [y Hy]. apply lists_children in Hy.
    destruct (wf_linked _ _ _ Hwf y x) as (s & Hs1 & _); [apply not_elem_of_empty|done|].
    rewrite tree_lookup in Hs1. by destruct (get g x).
  - intros x Hne Hx. apply (sus_others _ _ _ H). rewrite Hspec. tauto.
Qed.

(** ** What deregistration leaves behind *)

(** The parts of the registry the orphan policies do not touch. *)
Definition residue (g : AgentRegistry) := (rg_suspend_reasons g, rg_org_index g, rg_credential_index g).

Lemma recalculate_depth_residue fuel g p d g' :
  recalculate_depth_recursive fuel g p d = Some g' → residue g' = residue g.
Proof.
  revert g p d g'. induction fuel as [|fuel IH]; intros g p d g'; simpl; [done|].
  generalize (children_of g p). intros cs. revert g. induction cs as [|c cs IHc]; intros g; simpl; [by intros [= ->]|].
  destruct (recalculate_depth_recursive fuel _ c _) as [g1|] eqn:E; simpl; [|done].
  apply IH in E. intros H%IHc. by rewrite H, E.
Qed.

Lemma orphan_residue fuel g k mode eff g' eff' :
  apply_orphan_mode_recursive fuel g k mode eff = Some (g', eff') → residue g' = residue g.
Proof.
  revert g k eff g' eff'. induction fuel as [|fuel IH]; intros g k eff g' eff'; [done|].
  cbn [apply_orphan_mode_recursive].
  set (go := fix go (keys : list AgentId) (g : AgentRegistry) (effects : list OrphanEffect)
                  : option (AgentRegistry * list OrphanEffect) := _).
  assert (∀ cs g1 eff1 g2 eff2, go cs g1 eff1 = Some (g2, eff2) → residue g2 = residue g1) as Hgo.
  { induction cs as [|c cs IHc]; intros g1 eff1 g2 eff2; [by intros [= -> ->]|]. simpl.
    destruct (apply_orphan_mode_recursive fuel g1 c mode eff1) as [[g3 eff3]|] eqn:E; [|done].
    apply IH in E. intros H%IHc. by rewrite H. }
  destruct mode.
  - unfold suspend_orphan. destruct (get g k); intros H%Hgo; by rewrite H.
  - unfold orphan_promote_to_root. destruct (recalculate_depth_recursive fuel _ k 0) as [g1|] eqn:E; simpl; [|done].
    intros [= <- _]. apply recalculate_depth_residue in E. by rewrite E.
  - destruct (go _ g eff) as [[g1 eff1]|] eqn:E; [|done]. apply Hgo in E. rewrite <- E.
    unfold cascade_remove. cbv zeta. destruct (get _ k); by intros [= <- _].
Qed.

Lemma orphan_children_residue fuel g ks mode eff g' eff' :
  orphan_children fuel g ks mode eff = Some (g', eff') → residue g' = residue g.
Proof.
  revert g eff. induction ks as [|k ks IH]; intros g eff; simpl; [by intros [= -> ->]|].
  destruct (apply_orphan_mode_recursive fuel g k mode eff) as [[g1 eff1]|] eqn:E; [|done].
  apply orphan_residue in E. intros H%IH. by rewrite H.
Qed.

Lemma deregister_residue fuel g id mode g' record effects :
  deregister fuel g id mode = Some (g', Ok (record, effects)) →
  rg_suspend_reasons g' = rg_suspend_reasons g ∧
  rg_org_index g' = index_remove (rg_org_index g) (ar_org_id record) id ∧
  rg_credential_index g' = (if is_empty (ar_credential_token record) then rg_credential_index g
                            else delete (ar_credential_token record) (rg_credential_index g)).
Proof.
  unfold deregister. set (g0 := with_indexes g _ _ _ _). destruct (get g0 id) as [r|] eqn:Eg; [|done].
  destruct (orphan_children fuel _ _ _ _) as [[g1 eff]|] eqn:E; [|done]. intros [= <- <- _].
  apply orphan_children_residue in E. unfold residue in E. injection E as -> -> ->. unfold remove_agent.
  by destruct (ar_parent_key r).
Qed.

(** Deregistering an agent under the cascade
    policy removes its descendants but not their credentials: every token of another
    agent still resolves to its owner, and every other member of an organisation is
    still listed there, also when that agent was just torn down. *)
Theorem cascade_deregister_keeps_tokens fuel g id g' record effects :
  deregister fuel g id Orphan.CascadeDeregister = Some (g', Ok (record, effects)) →
  (∀ token k, token ≠ ar_credential_token record → find_by_credential_token g token = Some k →
              find_by_credential_token g' token = Some k) ∧
  (∀ org k, k ≠ id → k ∈ org_members g org → k ∈ org_members g' org).
Proof.
  intros (_ & Horg & Hcred)%deregister_residue. unfold find_by_credential_token, org_members. rewrite Horg, Hcred. split.
  - intros token k Hne Hk. destruct (is_empty _); [done|]. by rewrite lookup_delete_ne.
  - intros org k Hne Hk. unfold index_remove. destruct (ar_org_id record) as [o|]; [|done].
    destruct (decide (o = org)) as [->|]; [|by rewrite lookup_alter_ne].
    rewrite lookup_alter_eq. destruct (rg_org_index g !! org) as [X|]; simpl in *; [|done].
    apply elem_of_difference. by rewrite elem_of_singleton.
Qed.

(** Deregistration does not clear the
    recorded suspension reasons, so an agent that was suspended, deregistered and
    registered again as active is not suspended by a later cascade: the call succeeds,
    reports no change, and the agent stays active. *)
Theorem reregistered_agent_resists_suspension fuel g mode g1 out record g2 reason :
  get_suspend_reasons g (ar_agent_id record) ≠ [] →
  deregister fuel g (ar_agent_id record) mode = Some (g1, Ok out) →
  register fuel g1 record = Some (Ok g2) →
  ar_status record = Active → ar_children record = [] → ar_parent_key record = None →
  ∃ g3 r, suspend_with_cascade fuel g2 (ar_agent_id record) reason = Some (g3, Ok []) ∧
          get g3 (ar_agent_id record) = Some r ∧ ar_status r = Active.
Proof.
  intros Hr Hd Hreg Hact Hch Hpar. destruct out as [old effects]. apply deregister_residue in Hd as (Hreas & _).
  assert (g2 = insert_agent g1 record) as ->.
  { unfold register in Hreg. rewrite Hpar in Hreg. destruct (validate_tenant_id _ _); [|done].
    destruct (validate_tenant_id _ _); [|done]. destruct (get g1 _); [done|]. by simplify_eq. }
  set (g2 := insert_agent g1 record). set (a := ar_agent_id record) in *.
  assert (get g2 a = Some record) as Hg2.
  { unfold g2, insert_agent. rewrite Hpar. unfold get. simpl. apply lookup_insert_eq. }
  assert (get_suspend_reasons g2 a = get_suspend_reasons g a) as Hre.
  { unfold get_suspend_reasons. rewrite <- Hreas. unfold g2, insert_agent. by rewrite Hpar. }
  assert (∃ g3, apply_suspend_reason g2 a reason = (g3, Ok None) ∧ get g3 a = Some record) as (g3 & Happ & Hg3).
  { unfold apply_suspend_reason. rewrite Hg2, Hre. case_decide; [by eexists|].
    destruct (get_suspend_reasons g a); [done|]. by eexists. }
  exists g3, record. split; [|done]. unfold suspend_with_cascade. rewrite Happ.
  assert (children_of g3 a = []) as -> by (unfold children_of; by rewrite Hg3). by destruct fuel.
Qed.

(** ** A parent cycle *)

Lemma cyclic_walk g a b n : parent_of g a = Some b → parent_of g b = Some a →
  ancestor_walk n g (Some a) = None ∧ ancestor_walk n g (Some b) = None.
Proof.
  intros Ha Hb. induction n as [|n [IHa IHb]]; [done|]. simpl. rewrite Ha, Hb, IHa, IHb. done.
Qed.

(** Reparenting checks for cycles through the children
    lists only.  An agent whose parent was deregistered and registered again still
    names that parent, which no longer lists it; moving the parent below it is
    accepted, and from then on the ancestor walk of either agent never ends, whatever
    its fuel. *)
Theorem reparent_closes_cycle fuel g a b ra rb :
  get g a = Some ra → get g b = Some rb → a ≠ b →
  ar_parent_key ra = None → ar_children ra = [] → ar_parent_key rb = Some a →
  0 ≤ ar_depth rb < DEFAULT_MAX_AGENT_DEPTH - 1 → (1 ≤ fuel)%nat →
  ∃ g', reparent fuel g a b = Some (g', Ok ()) ∧
        ∀ n, ancestors_of n g' a = None ∧ ancestors_of n g' b = None.
Proof.
  intros Ha Hb Hne Hpa Hca Hpb Hdep Hfuel. destruct fuel as [|fuel]; [lia|].
  assert (children_of g a = []) as Hch by (unfold children_of; by rewrite Ha).
  unfold reparent, validate_reparent. rewrite Ha, Hb, decide_False by congruence.
  rewrite decide_False by done. unfold descendants_of at 1. rewrite Hch. simpl.
  replace (ar_depth ra + (ar_depth rb + 1 - ar_depth ra)) with (ar_depth rb + 1) by lia.
  unfold DEFAULT_MAX_AGENT_DEPTH in *. rewrite Z.mod_small by lia. rewrite (proj2 (Z.leb_gt _ _)) by lia. simpl.
  set (g1 := relink g a b _ _).
  assert (get g1 a = Some (set_tree ra (Some (uuid_display b)) (ar_depth rb + 1)
            (Some (default (ar_agent_id rb) (ar_root_agent_id rb))) [] (Some b))) as Ha1.
  { unfold g1, relink. simpl. rewrite Hpa, get_alter, decide_True by done. rewrite get_alter, decide_False by done.
    rewrite Ha. simpl. by rewrite Hca. }
  assert (∃ rb', get g1 b = Some rb' ∧ ar_parent_key rb' = Some a) as (rb' & Hb1 & Hpb').
  { unfold g1, relink. simpl. rewrite Hpa, get_alter, decide_False by done. rewrite get_alter, decide_True by done.
    rewrite Hb. simpl. eexists. split; [done|]. by case_decide. }
  assert (children_of g1 a = []) as Hch1 by (unfold children_of; by rewrite Ha1). rewrite Hch1. simpl.
  unfold descendants_of. rewrite Hch1. simpl. eexists. split; [done|]. intros n.
  assert (parent_of g1 a = Some b) as Hp1 by (unfold parent_of; by rewrite Ha1).
  assert (parent_of g1 b = Some a) as Hp2 by (unfold parent_of; by rewrite Hb1).
  destruct (cyclic_walk g1 a b n Hp1 Hp2) as [Hw1 Hw2]. unfold ancestors_of. rewrite Ha1, Hb1. simpl.
  rewrite Hpb'. done.
Qed.
End Operations.

(** ** Examples *)

Section Runs.
Context {U : UuidLib}.

Fixpoint run_ops (fuel : nat) (g : AgentRegistry) (ops : list registry_op) : option AgentRegistry :=
  match ops with
  | [] => Some g
  | o :: rest => g' ← apply_registry_op fuel g o; run_ops fuel g' rest
  end.

Lemma run_ops_reachable fuel g ops g' :
  reachable g → Forall op_ok ops → run_ops fuel g ops = Some g' → reachable g'.
Proof.
  intros Hg Hok. revert g Hg. induction Hok as [|o ops Ho Hok IH]; intros g Hg; simpl; [by intros [= <-]|].
  destruct (apply_registry_op fuel g o) as [g1|] eqn:E; simpl; [|done]. apply IH. by eapply reachable_step.
Qed.
End Runs.

Definition sample_profile (token : string) : AgentProfile := {|
  ap_name := "worker"; ap_framework := "custom"; ap_version := "1.0"; ap_risk_tier := 1;
  ap_tool_names := ["bash"%string]; ap_public_key := ""; ap_credential_token := token; ap_metadata := ∅;
  ap_registered_at := 0; ap_pid := None; ap_layer := None; ap_governance_level := L1Observe;
  ap_team_id := Some "red"%string; ap_org_id := Some "acme"%string; ap_delegation_reason := None;
  ap_spawned_by_tool := None;
|}.

Definition sample_record (id : AgentId) (token : string) (parent : option AgentId) (depth : Z) : AgentRecord := {|
  ar_agent_id := id; ar_profile := sample_profile token; ar_last_heartbeat := 0; ar_status := Active;
  ar_session_count := 0; ar_active_sessions := []; ar_parent_agent_id := None; ar_depth := depth;
  ar_root_agent_id := Some 1%N; ar_children := []; ar_parent_key := parent; ar_enforcement_mode := None;
  ar_enforcement_mode_expires_at := None;
|}.

(** An agent, its child and its grandchild. *)
Definition lineage_ops : list registry_op :=
  [OpRegister (sample_record 1%N "t1" None 0); OpRegister (sample_record 2%N "t2" (Some 1%N) 1);
   OpRegister (sample_record 3%N "t3" (Some 2%N) 2)].

Definition lineage_registry : AgentRegistry :=
  default new_registry (run_ops (U := binary_uuid) 10 new_registry lineage_ops).

Lemma lineage_reachable : reachable (U := binary_uuid) lineage_registry.
Proof.
  apply (run_ops_reachable (U := binary_uuid) 10 new_registry lineage_ops); [constructor|by repeat constructor|].
  vm_compute. reflexivity.
Qed.

Lemma registry_forest_witness :
  ∃ h : AgentId → nat,
    ∀ p r c, get lineage_registry p = Some r → c ∈ ar_children r →
      NoDup (ar_children r) ∧ (h c < h p)%nat ∧
      ∃ rc, get lineage_registry c = Some rc ∧ ar_parent_key rc = Some p.
Proof. apply (registry_forest (U := binary_uuid) lineage_registry). apply lineage_reachable. Defined.

Lemma descendants_complete_witness :
  ∃ n, ∀ fuel, (n ≤ fuel)%nat →
    ∃ ds, descendants_of fuel lineage_registry 1%N = Some ds ∧
          (∀ x, x ∈ ds ↔ tc (child_rel lineage_registry) 1%N x) ∧ 1%N ∉ ds.
Proof. apply (descendants_complete (U := binary_uuid) lineage_registry 1%N). apply lineage_reachable. Defined.

Lemma lineage_coherent x : coherent lineage_registry x.
Proof. left. unfold get_suspend_reasons. replace (rg_suspend_reasons lineage_registry) with
  (∅ : gmap AgentId (list SuspendReason)) by (vm_compute; reflexivity). by rewrite lookup_empty. Qed.

Lemma cascade_suspends_subtree_witness :
  ∃ n, ∀ fuel, (n ≤ fuel)%nat →
    ∃ g' events, suspend_with_cascade fuel lineage_registry 1%N Suspend.Manual = Some (g', Ok events) ∧
      (∀ x, x = 1%N ∨ tc (child_rel lineage_registry) 1%N x → is_suspended g' x) ∧
      (∀ x, x ≠ 1%N → ¬ tc (child_rel lineage_registry) 1%N x → get g' x = get lineage_registry x).
Proof.
  destruct (cascade_suspends_subtree (U := binary_uuid) lineage_registry 1%N Suspend.Manual) as [n Hn].
  - apply lineage_reachable.
  - eexists. vm_compute. reflexivity.
  - exists n. intros fuel Hf. destruct (Hn fuel Hf) as (g' & events & Hrun & Hsus & _ & _ & Hother).
    exists g', events. split; [exact Hrun|]. split; [|exact Hother]. intros x Hx. apply Hsus; [exact Hx|apply lineage_coherent].
Defined.

Definition after_cascade : option (AgentRegistry * result (AgentRecord * list OrphanEffect) RegistryError) :=
  deregister (U := binary_uuid) 10 lineage_registry 1%N Orphan.CascadeDeregister.

Definition torn_down : AgentRegistry := match after_cascade with Some (g, _) => g | None => new_registry end.

Lemma cascade_deregister_keeps_tokens_witness :
  get torn_down 2%N = None ∧ find_by_credential_token torn_down "t2" = Some 2%N ∧
  2%N ∈ org_members torn_down "acme".
Proof.
  assert (∃ record effects, after_cascade = Some (torn_down, Ok (record, effects)) ∧
                            ar_credential_token record = "t1"%string) as (record & effects & Hd & Ht).
  { unfold torn_down. destruct after_cascade as [[g [[record effects]|e]]|] eqn:E; [|vm_compute in E; discriminate..].
    exists record, effects. split; [done|]. vm_compute in E. by injection E as <- <- <-. }
  destruct (cascade_deregister_keeps_tokens (U := binary_uuid) 10 lineage_registry 1%N torn_down record effects)
    as [Hc Ho]; [exact Hd|].
  split; [vm_compute; reflexivity|]. split.
  - apply Hc; [rewrite Ht; discriminate|]. vm_compute. reflexivity.
  - apply Ho; [discriminate|]. apply (bool_decide_eq_true_1 _). vm_compute. reflexivity.
Defined.

(** Suspended for its budget, then deregistered. *)
Definition suspended_registry : AgentRegistry :=
  default new_registry
    (run_ops (U := binary_uuid) 10 new_registry
       [OpRegister (sample_record 1%N "t1" None 0); OpSuspend 1%N Suspend.BudgetExceeded]).

Definition deregistered_registry : AgentRegistry :=
  match deregister (U := binary_uuid) 10 suspended_registry 1%N Orphan.Suspend with
  | Some (g, _) => g | None => new_registry end.

Definition reregistered_registry : AgentRegistry :=
  match register 10 deregistered_registry (sample_record 1%N "t9" None 0) with
  | Some (Ok g) => g | _ => new_registry end.

Lemma reregistered_agent_resists_suspension_witness :
  ∃ g3 r, suspend_with_cascade 10 reregistered_registry 1%N Suspend.Manual = Some (g3, Ok []) ∧
          get g3 1%N = Some r ∧ ar_status r = Active.
Proof.
  assert (∃ out, deregister (U := binary_uuid) 10 suspended_registry 1%N Orphan.Suspend =
                   Some (deregistered_registry, Ok out)) as [out Hd].
  { unfold deregistered_registry.
    destruct (deregister (U := binary_uuid) 10 suspended_registry 1%N Orphan.Suspend) as [[g [out|e]]|] eqn:E;
      [by exists out|vm_compute in E; discriminate..]. }
  apply (reregistered_agent_resists_suspension (U := binary_uuid) 10 suspended_registry Orphan.Suspend
           deregistered_registry out (sample_record 1%N "t9" None 0)).
  - vm_compute. discriminate.
  - exact Hd.
  - unfold reregistered_registry.
    destruct (register 10 deregistered_registry (sample_record 1%N "t9" None 0)) as [[g|e]|] eqn:E;
      [done|vm_compute in E; discriminate..].
  - reflexivity.
  - reflexivity.
  - reflexivity.
Defined.

(** A parent that was deregistered and registered again. *)
Definition returned_parent_registry : AgentRegistry :=
  default new_registry
    (run_ops (U := binary_uuid) 10 new_registry
       [OpRegister (sample_record 1%N "t1" None 0); OpRegister (sample_record 2%N "t2" (Some 1%N) 1);
        OpDeregister 1%N Orphan.Suspend; OpRegister (sample_record 1%N "t1" None 0)]).

Lemma reparent_closes_cycle_witness :
  ∃ g', reparent (U := binary_uuid) 10 returned_parent_registry 1%N 2%N = Some (g', Ok ()) ∧
        ∀ n, ancestors_of n g' 1%N = None ∧ ancestors_of n g' 2%N = None.
Proof.
  destruct (get returned_parent_registry 1%N) as [ra|] eqn:Ea; [|vm_compute in Ea; discriminate].
  destruct (get returned_parent_registry 2%N) as [rb|] eqn:Eb; [|vm_compute in Eb; discriminate].
  apply (reparent_closes_cycle (U := binary_uuid) 10 returned_parent_registry 1%N 2%N ra rb).
  - exact Ea.
  - exact Eb.
  - discriminate.
  - vm_compute in Ea. by injection Ea as <-.
  - vm_compute in Ea. by injection Ea as <-.
  - vm_compute in Eb. by injection Eb as <-.
  - vm_compute in Eb. injection Eb as <-. vm_compute. split; [discriminate|reflexivity].
  - lia.
Defined.
