(* ===== verification/RateLimit.v ===== *)
(** * RateLimit: the token bucket of a tool's hourly limit

    aa-gateway/src/engine/rate_limit.rs.  Tokens are [f64]; instants are
    nanoseconds of a monotonic clock. *)

From stdpp Require Import base list.
From Stdlib Require Import ZArith Lia Bool.
From Stdlib Require Import Floats.SpecFloat.
From S2P Require Import Prelude.
From S2P Require Import Float64.

Open Scope Z_scope.

Record TokenBucket := {
  tb_capacity : Z;
  tb_tokens : f64;
  tb_last_refill : Z;
}.

Definition bucket_new (capacity now : Z) : TokenBucket :=
  {| tb_capacity := capacity; tb_tokens := f64_of_Z capacity; tb_last_refill := now |}.

(** [f64::min]: the other operand when one is NaN. *)
Definition f64_min (a b : f64) : f64 :=
  if SFltb a b then a else if SFeqb a a then (if SFltb b a then b else a) else b.

Definition f64_add (a b : f64) : f64 := SFadd prec emax a b.
Definition f64_mul (a b : f64) : f64 := SFmul prec emax a b.
Definition f64_div (a b : f64) : f64 := SFdiv prec emax a b.
Definition f64_one : f64 := f64_of_Z 1.

(** [Duration::as_secs_f64]: whole seconds plus the nanosecond fraction. *)
Definition as_secs_f64 (nanos : Z) : f64 :=
  f64_add (f64_of_Z (nanos / 1000000000)) (f64_div (f64_of_Z (nanos mod 1000000000)) (f64_of_Z 1000000000)).

Definition tighten (b : TokenBucket) (limit : Z) : TokenBucket :=
  if limit <? tb_capacity b
  then {| tb_capacity := limit; tb_tokens := f64_min (tb_tokens b) (f64_of_Z limit);
          tb_last_refill := tb_last_refill b |}
  else b.

(** The refill.  [Instant] subtraction saturates at zero. *)
Definition refill (b : TokenBucket) (now : Z) : TokenBucket :=
  let elapsed_secs := as_secs_f64 (Z.max 0 (now - tb_last_refill b)) in
  {| tb_capacity := tb_capacity b;
     tb_tokens := f64_min (f64_of_Z (tb_capacity b))
                    (f64_add (tb_tokens b)
                       (f64_div (f64_mul (f64_of_Z (tb_capacity b)) elapsed_secs) (f64_of_Z 3600)));
     tb_last_refill := now |}.

Definition try_consume_with_limit (b : TokenBucket) (limit now : Z) : TokenBucket * bool :=
  let b := refill (tighten b limit) now in
  if SFleb f64_one (tb_tokens b)
  then ({| tb_capacity := tb_capacity b; tb_tokens := f64_sub (tb_tokens b) f64_one;
           tb_last_refill := tb_last_refill b |}, true)
  else (b, false).

Definition try_consume (b : TokenBucket) (now : Z) : TokenBucket * bool :=
  try_consume_with_limit b (tb_capacity b) now.

(** ** Properties *)

(** A minimum with an ordered number lies below it. *)
Lemma f64_min_leb a b : SFeqb a a = true → SFleb (f64_min a b) a = true.
Proof.
  intros Ha. unfold f64_min. rewrite Ha.
  assert (SFleb a a = true) as Haa by (unfold SFleb, SFeqb in *; by destruct (SFcompare a a) as [[]|]).
  destruct (SFltb a b); [done|]. destruct (SFltb b a) eqn:E; [|done].
  unfold SFltb, SFleb in *. by destruct (SFcompare b a) as [[]|].
Qed.

Lemma below_zero x : SFleb x (f64_of_Z 0) = true → SFleb f64_one x = false.
Proof. destruct x as [[]|[]| |[] m e]; done. Qed.

(** The sequence of calls on one bucket. *)
Fixpoint consume_all (b : TokenBucket) (calls : list (Z * Z)) : TokenBucket * list bool :=
  match calls with
  | [] => (b, [])
  | (limit, now) :: rest =>
      let '(b1, ok) := try_consume_with_limit b limit now in
      let '(b2, oks) := consume_all b1 rest in
      (b2, ok :: oks)
  end.

Lemma consume_capacity b limit now :
  tb_capacity (fst (try_consume_with_limit b limit now)) = Z.min (tb_capacity b) limit.
Proof.
  unfold try_consume_with_limit, refill, tighten. cbv zeta.
  destruct (limit <? tb_capacity b) eqn:E; simpl; case_match; simpl; lia.
Qed.

Lemma consume_zero b limit now :
  Z.min (tb_capacity b) limit = 0 → snd (try_consume_with_limit b limit now) = false.
Proof.
  intros H0. unfold try_consume_with_limit. cbv zeta. set (b1 := tighten b limit).
  assert (tb_capacity b1 = 0) as Hc.
  { unfold b1, tighten. destruct (limit <? tb_capacity b) eqn:E; simpl; lia. }
  unfold refill. rewrite Hc. cbn [tb_tokens].
  rewrite below_zero; [done|]. by apply f64_min_leb.
Qed.

Lemma consume_all_cons b limit now calls :
  consume_all b ((limit, now) :: calls) =
    (fst (consume_all (fst (try_consume_with_limit b limit now)) calls),
     snd (try_consume_with_limit b limit now) ::
     snd (consume_all (fst (try_consume_with_limit b limit now)) calls)).
Proof. simpl. destruct (try_consume_with_limit b limit now) as [b1 ok]. simpl. by destruct (consume_all b1 calls). Qed.

Lemma consume_all_shut b calls i :
  tb_capacity b = 0 → Forall (λ call, 0 ≤ call.1) calls → (i < length calls)%nat →
  snd (consume_all b calls) !! i = Some false.
Proof.
  revert b i. induction calls as [|[limit now] calls IH]; intros b i Hb Hall Hi; [simpl in Hi; lia|].
  inversion Hall as [|? ? Hl Hall']; subst. simpl in Hl, Hi. rewrite consume_all_cons. destruct i as [|i]; simpl.
  - f_equal. apply consume_zero. lia.
  - apply IH; [|done|lia]. rewrite consume_capacity. lia.
Qed.

(** Along any sequence of calls on a bucket its capacity is
    the smallest limit ever asked for, never a larger one, so a looser policy cannot
    reopen a bucket a stricter one tightened; and from the first call with a limit of
    zero on, every call is refused, however much time passes. *)
Theorem bucket_never_loosens b calls :
  tb_capacity (fst (consume_all b calls)) = foldl (λ c call, Z.min c call.1) (tb_capacity b) calls ∧
  (0 ≤ tb_capacity b → Forall (λ call, 0 ≤ call.1) calls →
   ∀ i j, (j ≤ i < length calls)%nat → fst <$> calls !! j = Some 0 →
          snd (consume_all b calls) !! i = Some false).
Proof.
  split.
  - revert b. induction calls as [|[limit now] calls IH]; intros b; [done|].
    rewrite consume_all_cons. simpl. by rewrite IH, consume_capacity.
  - intros Hb Hall i j. revert b i j Hb. induction Hall as [|[limit now] calls Hl Hall IH]; intros b i j Hb Hij Hz;
      [done|]. simpl in Hl, Hij. rewrite consume_all_cons. destruct i as [|i]; simpl.
    + assert (j = 0%nat) as -> by lia. simpl in Hz. simplify_eq. f_equal. apply consume_zero. lia.
    + destruct j as [|j]; simpl in Hz.
      * simplify_eq. apply consume_all_shut; [|done|lia]. rewrite consume_capacity. lia.
      * apply (IH _ i j); [|lia|done]. rewrite consume_capacity. lia.
Qed.

Lemma bucket_never_loosens_witness :
  let calls := [(5, 0); (0, 1000); (100, 7200000000000)] in
  tb_capacity (fst (consume_all (bucket_new 10 0) calls)) = 0 ∧
  snd (consume_all (bucket_new 10 0) calls) !! 2%nat = Some false.
Proof.
  intros calls. destruct (bucket_never_loosens (bucket_new 10 0) calls) as [Hc Hz]. split; [exact Hc|].
  apply (Hz ltac:(simpl; lia) ltac:(repeat constructor; simpl; lia) 2%nat 1%nat); [simpl; lia|reflexivity].
Defined.
