(* ===== verification/Engine.v ===== *)
(** * Engine: the policy engine's evaluation pipeline

    aa-gateway/src/engine/mod.rs (the single-document and the cascade pipelines and
    everything they call), engine/effective_mode.rs, engine/cache.rs,
    aa-gateway/src/policy/context.rs, and the tenancy and suspension steps of
    aa-gateway/src/service/policy_service.rs.

    The engine's shared state is the record [Engine]; an operation that reads or
    changes it is a state-passing function.  The audit lines it emits are the
    [en_audit] field. *)

From stdpp Require Import base gmap strings list.
From Stdlib Require Import ZArith Lia Bool Ascii String.
From S2P Require Import Prelude.
From S2P Require Import Text.
From S2P Require Import Float64.
From S2P Require Import CoreTypes.
From S2P Require Import External.
From S2P Require Import ExprEval.
From S2P Require Import Capability.
From S2P Require Import PolicyDocument.
From S2P Require Import ScopeIndex.
From S2P Require Import EgressHost.
From S2P Require Import Decision.
From S2P Require Import Budget.
From S2P Require Import BudgetTracker.
From S2P Require Import Findings.
From S2P Require Import Detection.
From S2P Require Import Registry.
From S2P Require Import RateLimit.

Open Scope Z_scope.
Open Scope aasm_scope.

(** ** Results *)

Module DA.
Inductive DenyAction := Block | SuspendAgent.

#[global] Instance DenyAction_eq_dec : EqDecision DenyAction.
Proof. solve_decision. Defined.
End DA.

Record EvaluationResult := {
  er_decision : PolicyResult;
  er_redacted_payload : option string;
  er_credential_findings : list CredentialFinding;
  er_canonical_findings : list CanonicalFinding;
  er_deny_action : option DA.DenyAction;
  er_policy_doc_id : option string;
  er_policy_scope : option string;
  er_narrowed : bool;
}.

Definition er_deny_with (reason : string) (redacted_payload : option string)
  (credential_findings : list CredentialFinding) (canonical_findings : list CanonicalFinding)
  (deny_action : option DA.DenyAction) : EvaluationResult := {|
  er_decision := Deny reason; er_redacted_payload := redacted_payload;
  er_credential_findings := credential_findings; er_canonical_findings := canonical_findings;
  er_deny_action := deny_action; er_policy_doc_id := None; er_policy_scope := None; er_narrowed := false;
|}.

Definition er_deny (reason : string) : EvaluationResult := er_deny_with reason None [] [] None.

Definition er_deny_scoped (reason scope : string) : EvaluationResult := {|
  er_decision := Deny reason; er_redacted_payload := None; er_credential_findings := [];
  er_canonical_findings := []; er_deny_action := None; er_policy_doc_id := None;
  er_policy_scope := Some scope; er_narrowed := false;
|}.

(** A denial of the cascade, attributed to a document and a scope. *)
Definition er_deny_attributed (reason : string) (doc_id : option string) (scope : string) : EvaluationResult := {|
  er_decision := Deny reason; er_redacted_payload := None; er_credential_findings := [];
  er_canonical_findings := []; er_deny_action := None; er_policy_doc_id := doc_id;
  er_policy_scope := Some scope; er_narrowed := false;
|}.

Definition er_approval (timeout_secs : Z) : EvaluationResult := {|
  er_decision := RequiresApproval timeout_secs; er_redacted_payload := None; er_credential_findings := [];
  er_canonical_findings := []; er_deny_action := None; er_policy_doc_id := None; er_policy_scope := None;
  er_narrowed := false;
|}.

(** ** Enforcement modes (effective_mode.rs) *)

(** The private newtypes: a default mode, and a resolved one. *)
Inductive PolicyDefaultMode := DefaultMode (m : EnforcementMode).
Inductive EffectiveMode := Effective (m : EnforcementMode).

Definition default_enforce : PolicyDefaultMode := DefaultMode Enforce.

(** [PolicyDefaultMode::personal_observe]: the grant is a proof token without content. *)
Definition personal_observe (grant : unit) : PolicyDefaultMode := DefaultMode Observe.

Definition mode_get (m : EffectiveMode) : EnforcementMode := match m with Effective m => m end.

Definition resolve_enforcement_mode (agent_override : option EnforcementMode) (policy_default : PolicyDefaultMode)
  : EffectiveMode :=
  match policy_default with DefaultMode d => Effective (default d agent_override) end.

Record ShadowEvent := { sh_decision : string; sh_reason : string }.

Definition transform_for_observe_mode (result : EvaluationResult) (mode : EffectiveMode)
  : EvaluationResult * option ShadowEvent :=
  if decide (mode_get mode = Observe) then
    let masked shadow :=
      ({| er_decision := Allow; er_redacted_payload := None;
          er_credential_findings := er_credential_findings result; er_canonical_findings := [];
          er_deny_action := None; er_policy_doc_id := er_policy_doc_id result;
          er_policy_scope := er_policy_scope result; er_narrowed := false |}, Some shadow) in
    match er_decision result with
    | Allow => (result, None)
    | Deny reason => masked {| sh_decision := "deny"; sh_reason := reason |}
    | RequiresApproval _ => masked {| sh_decision := "pending"; sh_reason := "" |}
    end
  else (result, None).

(** ** Actions *)

Definition action_tool_name (action : GovernanceAction) : option string :=
  match action with
  | ToolCall name _ => Some name
  | ToolResult tool_name _ => Some tool_name
  | FileAccess _ _ | NetworkRequest _ _ | ProcessExec _ | SendMessage _ _ _ => None
  end.

Definition action_scan_text (action : GovernanceAction) : string :=
  match action with
  | ToolCall _ args => args
  | ToolResult _ result => result
  | FileAccess path _ => path
  | NetworkRequest url _ => url
  | ProcessExec command => command
  | SendMessage _ _ _ => ""
  end.

(** ** Capability guard *)

Definition capability_guard (caps : CapabilitySet) (action : GovernanceAction) : option EvaluationResult :=
  match action_to_capability action with
  | None => None
  | Some cap =>
      if capability_is_denied (cs_deny caps) cap then Some (er_deny "capability denied by policy")
      else if allow_is_restricted caps && negb (set_contains (cs_allow caps) cap)
      then Some (er_deny "capability not in allow list")
      else None
  end.

Definition capability_narrowed (caps : CapabilitySet) (action : GovernanceAction) : bool :=
  match action_to_capability action with
  | None => false
  | Some cap => allow_is_restricted caps && set_contains (cs_allow caps) cap
  end.

Definition collect_merged_capabilities (cascade : list PolicyDocument) : CapabilitySet :=
  foldl (λ acc doc, match pd_capabilities doc with
                    | Some caps => merge_capabilities acc caps
                    | None => acc
                    end) capability_set_default cascade.

Definition cascade_capability_guard (cascade : list PolicyDocument) (action : GovernanceAction)
  : option EvaluationResult :=
  capability_guard (collect_merged_capabilities cascade) action.

(** ** Budget policies *)

Definition budget_deny_action (bp : BudgetPolicy) : option DA.DenyAction :=
  match bp_action_on_exceed bp with
  | Exceed.Suspend => Some DA.SuspendAgent
  | Exceed.Deny => None
  end.

(** ** Stage 6: the credential decision *)

Definition action_rank (a : CredentialAction) : nat :=
  match a with Block => 3 | RedactOnly => 2 | AlertAndRedact => 1 | AlertOnly => 0 end.

(** [max_by_key]: the last of several maxima. *)
Fixpoint max_action (best : CredentialAction) (l : list CredentialAction) : CredentialAction :=
  match l with
  | [] => best
  | a :: l' => max_action (if Nat.ltb (action_rank a) (action_rank best) then best else a) l'
  end.

Definition cascade_credential_action (cascade : list PolicyDocument) : CredentialAction :=
  match omap (λ d, dp_credential_action <$> pd_data d) cascade with
  | [] => credential_action_default
  | a :: l => max_action a l
  end.

Inductive CredentialScanOutcome :=
| ScanBlock (result : EvaluationResult)
| ScanContinue (redacted : option string) (findings : list CredentialFinding)
    (canonical : list CanonicalFinding).

Definition offset_leb (f g : CredentialFinding) : bool := Nat.leb (cf_offset f) (cf_offset g).

Definition apply_credential_scan (text : string) (all_findings : list CredentialFinding)
  (canonical_findings : list CanonicalFinding) (canonical_only_present : bool) (action : CredentialAction)
  : CredentialScanOutcome :=
  let clean := match all_findings, canonical_findings with [], [] => true | _, _ => false end in
  let sorted := stable_sort offset_leb all_findings in
  if bool_decide (action = Block) && negb clean then
    ScanBlock (er_deny_with "credential detected" None sorted canonical_findings None)
  else if clean then ScanContinue None [] []
  else match action with
       | AlertOnly => ScanContinue None sorted canonical_findings
       | _ =>
           let redacted := if canonical_only_present then redact_findings text canonical_findings
                           else redact sorted text in
           ScanContinue (Some redacted) sorted canonical_findings
       end.

Definition document_locale_packs (data : option DataPolicy) : result (list LocalePack) DetectionError :=
  match data with
  | None => Ok []
  | Some dp => resolve_locale_packs (dp_locale_packs dp)
  end.

Definition add_pack (packs : list LocalePack) (p : LocalePack) : list LocalePack :=
  if decide (p ∈ packs) then packs else packs ++ [p].

Fixpoint locale_packs_loop (packs : list LocalePack) (cascade : list PolicyDocument)
  : result (list LocalePack) DetectionError :=
  match cascade with
  | [] => Ok packs
  | doc :: rest =>
      let? found := document_locale_packs (pd_data doc) in
      locale_packs_loop (foldl add_pack packs found) rest
  end.

Definition cascade_locale_packs (cascade : list PolicyDocument) : result (list LocalePack) DetectionError :=
  locale_packs_loop [] cascade.

Definition detection_unavailable_deny (e : DetectionError) : EvaluationResult :=
  er_deny (String.append "sensitive-data detection unavailable: " (detection_error_display e)).

(** ** State *)

Record CacheKey := { ck_agent_id : AgentId; ck_policy_epoch : Z; ck_action_hash : Z }.

#[export] Instance CacheKey_eq_dec : EqDecision CacheKey.
Proof. solve_decision. Defined.

#[export] Instance CacheKey_countable : Countable CacheKey.
Proof.
  refine (inj_countable' (λ k, (ck_agent_id k, ck_policy_epoch k, ck_action_hash k))
            (λ t, {| ck_agent_id := t.1.1; ck_policy_epoch := t.1.2; ck_action_hash := t.2 |}) _).
  by intros [].
Defined.

Definition CachedVerdict : Type := PolicyDecision * option string.

(** The clock readings of one evaluation, and whether the bounded cache still holds
    the entry it was given: eviction and expiry are the cache library's business. *)
Record Request := {
  rq_schedule_now : Z;
  rq_now_secs : Z;
  rq_instant : Z;
  rq_budget_now : Z;
  rq_cache_holds : bool;
}.

Section Engine.
Context {JS : JsonLib} {HT : HumantimeLib} {U : UuidLib} {C : ChronoLib} {D : DecimalLib} {DT : Detectors}.
(** The document digest (sha256), the 64-bit hash of an action (ahash), and
    [Decimal::try_from] of an [f64]. *)
Context (content_digest : PolicyDocument → string).
Context (action_discriminant : GovernanceAction → Z).
Context (dec_of_f64 : f64 → option dec).

Record CascadeState := {
  ca_scope_index : ScopeIndex;
  ca_compiled_patterns : list regex;
}.

Record Engine := {
  en_policy : PolicyDocument;
  en_rate_state : gmap string TokenBucket;
  en_budget : Config;
  en_ledger : Ledger;
  en_cascade : CascadeState;
  en_registry : option AgentRegistry;
  en_policy_epoch : Z;
  en_cache : gmap CacheKey CachedVerdict;
  en_cache_hits : Z;
  en_cache_misses : Z;
  en_audit : list ResolutionFailure;
}.

Implicit Types (en : Engine) (ctx : AgentContext) (action : GovernanceAction) (rq : Request).

Definition set_rate en (m : gmap string TokenBucket) : Engine := {|
  en_policy := en_policy en; en_rate_state := m; en_budget := en_budget en; en_ledger := en_ledger en;
  en_cascade := en_cascade en; en_registry := en_registry en; en_policy_epoch := en_policy_epoch en;
  en_cache := en_cache en; en_cache_hits := en_cache_hits en; en_cache_misses := en_cache_misses en;
  en_audit := en_audit en |}.

Definition set_ledger en (lg : Ledger) : Engine := {|
  en_policy := en_policy en; en_rate_state := en_rate_state en; en_budget := en_budget en; en_ledger := lg;
  en_cascade := en_cascade en; en_registry := en_registry en; en_policy_epoch := en_policy_epoch en;
  en_cache := en_cache en; en_cache_hits := en_cache_hits en; en_cache_misses := en_cache_misses en;
  en_audit := en_audit en |}.

Definition set_cache en (m : gmap CacheKey CachedVerdict) (hits misses : Z) : Engine := {|
  en_policy := en_policy en; en_rate_state := en_rate_state en; en_budget := en_budget en;
  en_ledger := en_ledger en; en_cascade := en_cascade en; en_registry := en_registry en;
  en_policy_epoch := en_policy_epoch en; en_cache := m; en_cache_hits := hits; en_cache_misses := misses;
  en_audit := en_audit en |}.

Definition set_policies en (doc : PolicyDocument) (cs : CascadeState) (epoch : Z) : Engine := {|
  en_policy := doc; en_rate_state := en_rate_state en; en_budget := en_budget en;
  en_ledger := en_ledger en; en_cascade := cs; en_registry := en_registry en;
  en_policy_epoch := epoch; en_cache := en_cache en; en_cache_hits := en_cache_hits en;
  en_cache_misses := en_cache_misses en; en_audit := en_audit en |}.

Definition emit_resolution_failures en (failures : list ResolutionFailure) : Engine := {|
  en_policy := en_policy en; en_rate_state := en_rate_state en; en_budget := en_budget en;
  en_ledger := en_ledger en; en_cascade := en_cascade en; en_registry := en_registry en;
  en_policy_epoch := en_policy_epoch en; en_cache := en_cache en; en_cache_hits := en_cache_hits en;
  en_cache_misses := en_cache_misses en; en_audit := en_audit en ++ failures |}.

(** ** The policy context (policy/context.rs) *)

Definition team_budget_remaining_of (cfg : Config) (lg : Ledger) (team_id : option string) : option f64 :=
  team ← team_id;
  state ← team_state lg team;
  limit ← cf_monthly_limit_usd cfg;
  let spent := default (bs_spent_usd state) (bs_monthly_spent_usd state) in
  let remaining := dec_max (dec_sub limit spent) dec_zero in
  dec_to_f64 remaining.

Definition production_context (registry : AgentRegistry) (cfg : Config) (lg : Ledger) (agent_key : AgentId)
  (team_id : option string) (now_secs : Z) : PolicyContext := {|
  ExprEval.agent_depth := Ok (ar_depth <$> get registry agent_key);
  team_active_agents := Ok ((λ t, Z.of_nat (size (team_members registry t))) <$> team_id);
  team_budget_remaining := Ok (team_budget_remaining_of cfg lg team_id);
  child_tools := Ok (children_of registry agent_key ≫= λ key,
                       match get registry key with Some r => ap_tool_names (ar_profile r) | None => [] end);
  agent_risk_tier := Ok (r ← get registry agent_key; risk_tier_from_proto_i32 (ap_risk_tier (ar_profile r)));
  parent_risk_tier := Ok (r ← get registry agent_key; pk ← ar_parent_key r; p ← get registry pk;
                          risk_tier_from_proto_i32 (ap_risk_tier (ar_profile p)));
  child_risk_tier := Ok None;
  agent_age_secs := Ok ((λ r, Z.max 0 (now_secs - wrap64 (ap_registered_at (ar_profile r)))) <$>
                        get registry agent_key);
  agent_parent_id := Ok (get registry agent_key ≫= ar_parent_agent_id);
  agent_team_id := Ok team_id;
  agent_children_count := Ok ((λ r, Z.of_nat (List.length (ar_children r)) mod 2 ^ 32) <$> get registry agent_key);
|}.

Definition engine_context en ctx rq : option PolicyContext :=
  (λ reg, production_context reg (en_budget en) (en_ledger en) (ac_agent_id ctx) (ac_team_id ctx)
            (wrap64 (rq_now_secs rq))) <$> en_registry en.

(** ** Tenancy *)

Definition authoritative_tenancy en ctx : option string * option string :=
  match en_registry en ≫= λ reg, get reg (ac_agent_id ctx) with
  | Some record => (ar_team_id record, ar_org_id record)
  | None => (ac_team_id ctx, ac_metadata ctx !! "org_id"%string)
  end.

Definition authoritative_lineage en ctx : Lineage :=
  match en_registry en ≫= λ reg, lineage reg (ac_agent_id ctx) with
  | Some l => l
  | None => {| ln_org_id := ac_metadata ctx !! "org_id"%string;
               ln_team_id := match ac_team_id ctx with
                             | Some t => Some t
                             | None => ac_metadata ctx !! "team_id"%string
                             end;
               ln_root_agent_id := None; ln_parent_agent_id := None; ln_depth := None;
               ln_delegation_reason := None; ln_spawned_by_tool := None |}
  end.

(** ** Rate limits *)

Definition hex_digit (n : N) : ascii :=
  ascii_of_N (if (n <? 10)%N then 48 + n else 87 + n)%N.

(** The sixteen bytes in hexadecimal, two lowercase digits each, first byte first. *)
Fixpoint hex_digits (count : nat) (n : N) (k : string) : string :=
  match count with
  | O => k
  | S count' => hex_digits count' (n / 16)%N (String (hex_digit (n mod 16)%N) k)
  end.

Definition hex_id (id : AgentId) : string := hex_digits 32 id "".

Definition rate_scope en ctx : string :=
  let is_registered := match en_registry en ≫= λ reg, get reg (ac_agent_id ctx) with
                       | Some _ => true | None => false end in
  match fst (authoritative_tenancy en ctx) with
  | Some team => String.append "team:" team
  | None => if is_registered then String.append "agent:" (hex_id (ac_agent_id ctx)) else "anon"
  end.

Definition soh : ascii := ascii_of_nat 1.

Definition rate_key (scope name : string) : string := String.append scope (String soh name).

Definition try_consume_rate en (scope name : string) (limit now : Z) : Engine * bool :=
  let key := rate_key scope name in
  let bucket := default (bucket_new limit now) (en_rate_state en !! key) in
  let '(bucket', ok) := try_consume_with_limit bucket limit now in
  (set_rate en (<[key := bucket']> (en_rate_state en)), ok).

Fixpoint min_limit (l : list Z) : option Z :=
  match l with
  | [] => None
  | x :: l' => Some (match min_limit l' with Some m => Z.min x m | None => x end)
  end.

Definition cascade_rate_limit en (cascade : list PolicyDocument) ctx action rq : Engine * option EvaluationResult :=
  match action with
  | ToolCall name _ =>
      match min_limit (omap (λ doc, tool_policy_for (pd_tools doc) name ≫= tp_limit_per_hour) cascade) with
      | None => (en, None)
      | Some limit =>
          let '(en, ok) := try_consume_rate en (rate_scope en ctx) name limit (rq_instant rq) in
          (en, if ok then None else Some (er_deny "rate limit exceeded"))
      end
  | _ => (en, None)
  end.

(** ** Budget stage *)

Definition budget_exceeded_reason en (bp : BudgetPolicy) (agent_id : AgentId) (now : Z) : Engine * option string :=
  let '(lg, monthly) :=
    match bp_monthly_limit_usd bp ≫= dec_of_f64 with
    | Some limit => check_monthly (en_budget en) (en_ledger en) agent_id limit now
    | None => (en_ledger en, false)
    end in
  if monthly then (set_ledger en lg, Some "monthly budget exceeded"%string)
  else
    let '(lg, daily) :=
      match bp_daily_limit_usd bp ≫= dec_of_f64 with
      | Some limit => check_daily (en_budget en) lg agent_id limit now
      | None => (lg, false)
      end in
    (set_ledger en lg, if daily then Some "daily budget exceeded"%string else None).

Fixpoint check_cascade_budget en (cascade : list PolicyDocument) (agent_id : AgentId) (now : Z)
  (redacted : option string) (findings : list CredentialFinding) (canonical : list CanonicalFinding)
  : Engine * option EvaluationResult :=
  match cascade with
  | [] => (en, None)
  | doc :: rest =>
      match pd_budget doc with
      | None => check_cascade_budget en rest agent_id now redacted findings canonical
      | Some bp =>
          let '(en, reason) := budget_exceeded_reason en bp agent_id now in
          match reason with
          | Some r => (en, Some (er_deny_with r redacted findings canonical (budget_deny_action bp)))
          | None => check_cascade_budget en rest agent_id now redacted findings canonical
          end
      end
  end.

(** ** Single-document pipeline *)

Definition eval_schedule_stage (policy : PolicyDocument) (now : Z) : option EvaluationResult :=
  match pd_schedule policy ≫= sp_active_hours with
  | None => None
  | Some ah =>
      match tz_parse (ah_timezone ah) with
      | None => Some (er_deny (String.append "invalid schedule timezone: " (ah_timezone ah)))
      | Some zone =>
          let '(hour, minute) := local_hour_minute zone now in
          let current_hhmm := hhmm hour minute in
          if str_ltb current_hhmm (ah_start ah) || negb (str_ltb current_hhmm (ah_end ah))
          then Some (er_deny "outside active hours")
          else None
      end
  end.

Definition eval_network_stage (policy : PolicyDocument) action : option EvaluationResult :=
  match action with
  | NetworkRequest url _ =>
      match pd_network policy with
      | None => None
      | Some np =>
          if negb (network_request_url_allowed url np) then Some (er_deny "host not in network allowlist") else None
      end
  | _ => None
  end.

Definition eval_approval_condition en (policy : PolicyDocument) (tool_policy : option ToolPolicy) ctx action rq
  : Engine * option EvaluationResult :=
  match tool_policy ≫= tp_requires_approval_if with
  | None => (en, None)
  | Some expr =>
      if Text.is_empty expr then (en, None)
      else
        let '(fired, failures) := evaluate_clause expr action (Some (ac_governance_level ctx))
                                    (engine_context en ctx rq) Clause.RequireApproval in
        let en := emit_resolution_failures en failures in
        (en, if fired then Some (er_approval (pd_approval_timeout_secs policy)) else None)
  end.

Definition eval_toolcall_stages en (policy : PolicyDocument) ctx (name : string) action rq
  : Engine * option EvaluationResult :=
  let tool_policy := tool_policy_for (pd_tools policy) name in
  let denied := match tool_policy with Some tp => negb (tp_allow tp) | None => false end in
  if denied then (en, Some (er_deny_scoped "tool denied by policy" (String.append "tool:" name)))
  else
    let '(en, limited) :=
      match tool_policy ≫= tp_limit_per_hour with
      | Some limit =>
          let '(en, ok) := try_consume_rate en (rate_scope en ctx) name limit (rq_instant rq) in (en, negb ok)
      | None => (en, false)
      end in
    if limited then (en, Some (er_deny "rate limit exceeded"))
    else eval_approval_condition en policy tool_policy ctx action rq.

Definition eval_tool_stages en (policy : PolicyDocument) ctx action rq : Engine * option EvaluationResult :=
  match action with
  | ToolCall name _ => eval_toolcall_stages en policy ctx name action rq
  | SendMessage _ _ _ => eval_approval_condition en policy (pd_tools policy !! "message"%string) ctx action rq
  | _ => (en, None)
  end.

(** The last stages of the single-document pipeline, once the detection passes ran. *)
Definition primary_tail en (policy : PolicyDocument) ctx action rq
  (detected : list CredentialFinding * list CanonicalFinding * bool) : Engine * EvaluationResult :=
  let '(all_findings, canonical, canonical_only) := detected in
  let credential_action := match pd_data policy with
                           | Some d => dp_credential_action d
                           | None => credential_action_default
                           end in
  match apply_credential_scan (action_scan_text action) all_findings canonical canonical_only credential_action with
  | ScanBlock result => (en, result)
  | ScanContinue redacted findings canonical =>
      let '(en, exceeded) := match pd_budget policy with
                             | Some bp =>
                                 let '(en, r) := budget_exceeded_reason en bp (ac_agent_id ctx) (rq_budget_now rq) in
                                 (en, (λ reason, (reason, budget_deny_action bp)) <$> r)
                             | None => (en, None)
                             end in
      match exceeded with
      | Some (reason, deny_action) => (en, er_deny_with reason redacted findings canonical deny_action)
      | None =>
          (en, {| er_decision := Allow; er_redacted_payload := redacted; er_credential_findings := findings;
                  er_canonical_findings := canonical; er_deny_action := None; er_policy_doc_id := None;
                  er_policy_scope := None;
                  er_narrowed := match pd_capabilities policy with
                                 | Some caps => capability_narrowed caps action
                                 | None => false
                                 end |})
      end
  end.

Definition evaluate_primary en ctx action rq : Engine * EvaluationResult :=
  let policy := en_policy en in
  match eval_schedule_stage policy (rq_schedule_now rq) with
  | Some r => (en, r)
  | None =>
  match eval_network_stage policy action with
  | Some r => (en, r)
  | None =>
  match pd_capabilities policy ≫= λ caps, capability_guard caps action with
  | Some r => (en, r)
  | None =>
  let '(en, o) := eval_tool_stages en policy ctx action rq in
  match o with
  | Some r => (en, r)
  | None =>
  match document_locale_packs (pd_data policy) with
  | Err e => (en, detection_unavailable_deny e)
  | Ok packs =>
  match run_detection (action_scan_text action)
          (BuiltinScannerPass :: CompiledRegexPass (ca_compiled_patterns (en_cascade en)) ::
           map LocalePackPass packs) with
  | Err e => (en, detection_unavailable_deny e)
  | Ok detected => primary_tail en policy ctx action rq detected
  end end end end end end.

(** ** Cascade pipeline *)

Definition has_live_context_approval (doc : PolicyDocument) : bool :=
  existsb (λ kt, match tp_requires_approval_if kt.2 with
                 | Some expr => references_live_context expr
                 | None => false
                 end) (map_to_list (pd_tools doc)).

Definition cascade_has_live_context_approval (cascade : list PolicyDocument) : bool :=
  existsb has_live_context_approval cascade.

Definition cache_key en ctx action : CacheKey :=
  {| ck_agent_id := ac_agent_id ctx; ck_policy_epoch := en_policy_epoch en;
     ck_action_hash := action_discriminant action |}.

Definition cache_get en (key : CacheKey) rq : Engine * option CachedVerdict :=
  match (if rq_cache_holds rq then en_cache en !! key else None) with
  | Some v => (set_cache en (en_cache en) (wrap64 (en_cache_hits en + 1)) (en_cache_misses en), Some v)
  | None => (set_cache en (en_cache en) (en_cache_hits en) (wrap64 (en_cache_misses en + 1)), None)
  end.

Definition cache_insert en (key : CacheKey) (v : CachedVerdict) : Engine :=
  set_cache en (<[key := v]> (en_cache en)) (en_cache_hits en) (en_cache_misses en).

Definition invalidate_all en : Engine := set_cache en ∅ (en_cache_hits en) (en_cache_misses en).

Definition resolve_merge_verdict en (cascade : list PolicyDocument) ctx action (key : CacheKey)
  (policy_ctx : option PolicyContext) rq : Engine * CachedVerdict :=
  let '(fresh, failures) := merge_decisions_attributed content_digest cascade ctx action policy_ctx in
  if cascade_has_live_context_approval cascade then (emit_resolution_failures en failures, fresh)
  else
    let '(en, cached) := cache_get en key rq in
    match cached with
    | Some v => (en, v)
    | None => (cache_insert en key fresh, fresh)
    end.

(** The stages after the merge: Stage 6, Stage 7 and the final result. *)
Definition cascade_tail en (cascade : list PolicyDocument) ctx action rq (verdict : CachedVerdict)
  (detected : list CredentialFinding * list CanonicalFinding * bool) : Engine * EvaluationResult :=
  let '(all_findings, canonical, canonical_only) := detected in
  match apply_credential_scan (action_scan_text action) all_findings canonical canonical_only
          (cascade_credential_action cascade) with
  | ScanBlock result => (en, result)
  | ScanContinue redacted findings canonical =>
      let '(en, exceeded) := check_cascade_budget en cascade (ac_agent_id ctx) (rq_budget_now rq)
                               redacted findings canonical in
      match exceeded with
      | Some r => (en, r)
      | None =>
          let decision := PD.into_policy_result (fst verdict) in
          (en, {| er_decision := decision; er_redacted_payload := redacted; er_credential_findings := findings;
                  er_canonical_findings := canonical;
                  er_deny_action := last (omap (λ doc, pd_budget doc ≫= budget_deny_action) cascade);
                  er_policy_doc_id := snd verdict; er_policy_scope := None;
                  er_narrowed := match decision with
                                 | Allow => capability_narrowed (collect_merged_capabilities cascade) action
                                 | _ => false
                                 end |})
      end
  end.

Definition evaluate_with_cascade en (cascade : list PolicyDocument) ctx action rq : Engine * EvaluationResult :=
  match evaluate_schedule_cascade cascade (rq_schedule_now rq) with
  | Some (PD.Deny reason source_scope) => (en, er_deny_attributed reason None (scope_display source_scope))
  | _ =>
  let key := cache_key en ctx action in
  let '(en, verdict) := resolve_merge_verdict en cascade ctx action key (engine_context en ctx rq) rq in
  match fst verdict with
  | PD.Deny reason source_scope =>
      (en, er_deny_attributed reason (snd verdict) (scope_display source_scope))
  | _ =>
  match cascade_capability_guard cascade action with
  | Some r => (en, r)
  | None =>
  let '(en, limited) := cascade_rate_limit en cascade ctx action rq in
  match limited with
  | Some r => (en, r)
  | None =>
  match cascade_locale_packs cascade with
  | Err e => (en, detection_unavailable_deny e)
  | Ok packs =>
  match run_detection (action_scan_text action)
          (BuiltinScannerPass :: CascadeRegexPass cascade :: map LocalePackPass packs) with
  | Err e => (en, detection_unavailable_deny e)
  | Ok detected => cascade_tail en cascade ctx action rq verdict detected
  end end end end end end.

(** ** Collecting the cascade *)

Definition scope_policies en (scope : PolicyScope) : list PolicyDocument :=
  let ix := ca_scope_index (en_cascade en) in
  omap (ScopeIndex.policy ix) (ScopeIndex.policies_for_scope ix scope).

Definition collect_cascade_with_lineage en (agent_id : AgentId) (l : Lineage) : list PolicyDocument :=
  scope_policies en Scope.Global ++
  match ln_org_id l with Some org_id => scope_policies en (Scope.Org org_id) | None => [] end ++
  match ln_team_id l with Some team_id => scope_policies en (Scope.Team team_id) | None => [] end ++
  scope_policies en (Scope.Agent agent_id).

Definition collect_cascade en (agent_id : AgentId) : list PolicyDocument :=
  collect_cascade_with_lineage en agent_id
    (default lineage_default (en_registry en ≫= λ reg, lineage reg agent_id)).

Definition request_cascade en ctx action : list PolicyDocument :=
  collect_cascade_with_lineage en (ac_agent_id ctx) (authoritative_lineage en ctx) ++
  match action_tool_name action with
  | Some tool_name => scope_policies en (Scope.Tool tool_name)
  | None => []
  end.

Definition evaluate en ctx action rq : Engine * EvaluationResult :=
  match request_cascade en ctx action with
  | [] => evaluate_primary en ctx action rq
  | cascade => evaluate_with_cascade en cascade ctx action rq
  end.

Definition effective_permissions en (agent_id : AgentId) : EffectivePermissions :=
  let cascade := collect_cascade en agent_id in
  {| ep_merged := collect_merged_capabilities cascade;
     ep_sources := omap (λ doc, (λ caps, {| ps_scope := scope_display (pd_scope doc); ps_allow := cs_allow caps;
                                            ps_deny := cs_deny caps |}) <$> pd_capabilities doc) cascade |}.

(** ** Loading policies *)

Definition load_policy en (doc : PolicyDocument) : Engine * PolicyId :=
  let '(ix, id) := ScopeIndex.insert (ca_scope_index (en_cascade en)) doc in
  (set_policies en (en_policy en)
     {| ca_scope_index := ix; ca_compiled_patterns := ca_compiled_patterns (en_cascade en) |}
     (wrap64 (en_policy_epoch en + 1)), id).

Definition remove_policy en (id : PolicyId) : Engine * option PolicyDocument :=
  let '(ix, removed) := ScopeIndex.remove (ca_scope_index (en_cascade en)) id in
  (match removed with
   | Some _ => set_policies en (en_policy en)
                 {| ca_scope_index := ix; ca_compiled_patterns := ca_compiled_patterns (en_cascade en) |}
                 (en_policy_epoch en)
   | None => en
   end, removed).

Definition swap_primary en (document : PolicyDocument) : Engine :=
  set_policies en document (en_cascade en) (wrap64 (en_policy_epoch en + 1)).

(** ** Spend *)

Definition record_spend en ctx (amount_usd : f64) (now today_at : Z) : W BudgetAlert Engine :=
  match dec_of_f64 amount_usd with
  | None => w_ret en
  | Some amount =>
      let '(team_id, org_id) := authoritative_tenancy en ctx in
      let* (lg, _) := record_raw_spend (en_budget en) (en_ledger en) (ac_agent_id ctx) team_id org_id amount
                        now today_at in
      w_ret (set_ledger en lg)
  end.

Definition spend_refusal (err : BudgetError) : string :=
  match err with
  | StateUnavailable => "budget state unavailable — degraded on a corrupt or unreadable state file"
  | SelfBudgetExhausted kind | AncestorBudgetExhausted _ kind | TenantBudgetExhausted _ kind =>
      match kind with Monthly => "monthly budget exceeded" | _ => "daily budget exceeded" end
  end.

(** [None] when the walk over the ancestors does not end within the fuel. *)
Definition check_and_accrue_llm_spend (fuel : nat) en ctx (amount_usd : f64) (rd : Readings)
  : option (W BudgetAlert (Engine * option string)) :=
  match dec_of_f64 amount_usd with
  | None => Some (w_ret (en, None))
  | Some amount =>
      if negb (dec_gtb amount dec_zero) then Some (w_ret (en, None))
      else
        let '(team_id, org_id) := authoritative_tenancy en ctx in
        ancestors ← match en_registry en with
                    | Some reg => ancestors_of fuel reg (ac_agent_id ctx)
                    | None => Some []
                    end;
        Some (let* (lg, outcome) := reserve_spend (en_budget en) (en_ledger en) (ac_agent_id ctx) ancestors
                                      team_id org_id amount rd in
              w_ret (set_ledger en lg,
                     match outcome with Ok _ => None | Err err => Some (spend_refusal err) end))
  end.

Definition llm_call_cost_usd en (model_name : string) (input_tokens output_tokens : Z) : f64 :=
  let pricing := cf_pricing (en_budget en) in
  let cost := match infer_from_name model_name with
              | Some (provider, model) => cost_usd pricing provider model input_tokens output_tokens
              | None => fallback_cost_usd pricing input_tokens output_tokens
              end in
  default (f64_of_Z 0) (dec_to_f64 cost).

Definition is_within_budget en (agent_id : AgentId) (now : Z) : Engine * bool :=
  match pd_budget (en_policy en) with
  | None => (en, true)
  | Some bp =>
      let '(lg, daily) := match bp_daily_limit_usd bp ≫= dec_of_f64 with
                          | Some limit => check_daily (en_budget en) (en_ledger en) agent_id limit now
                          | None => (en_ledger en, false)
                          end in
      if daily then (set_ledger en lg, false)
      else
        let '(lg, monthly) := match bp_monthly_limit_usd bp ≫= dec_of_f64 with
                              | Some limit => check_monthly (en_budget en) lg agent_id limit now
                              | None => (lg, false)
                              end in
        (set_ledger en lg, negb monthly)
  end.

(** ** The side effect of the service (service/policy_service.rs) *)

Definition set_registry en (reg : AgentRegistry) : Engine := {|
  en_policy := en_policy en; en_rate_state := en_rate_state en; en_budget := en_budget en;
  en_ledger := en_ledger en; en_cascade := en_cascade en; en_registry := Some reg;
  en_policy_epoch := en_policy_epoch en; en_cache := en_cache en; en_cache_hits := en_cache_hits en;
  en_cache_misses := en_cache_misses en; en_audit := en_audit en |}.

(** The fields of a context that the service overwrites. *)
Definition with_tenancy ctx (level : GovernanceLevel) (team_id : option string) (metadata : gmap string string)
  : AgentContext := {|
  ac_agent_id := ac_agent_id ctx; ac_session_id := ac_session_id ctx; ac_pid := ac_pid ctx;
  ac_started_at := ac_started_at ctx; ac_metadata := metadata; ac_governance_level := level;
  ac_parent_agent_id := ac_parent_agent_id ctx; ac_team_id := team_id; ac_depth := ac_depth ctx;
  ac_delegation_reason := ac_delegation_reason ctx; ac_spawned_by_tool := ac_spawned_by_tool ctx;
  ac_root_agent_id := ac_root_agent_id ctx |}.

(** [apply_authoritative_tenancy]: the registered owner of the presented credential
    token, or an anonymous tenant. *)
Definition apply_authoritative_tenancy (registry : option AgentRegistry) (credential_token : string) ctx
  : AgentContext :=
  match registry with
  | None => ctx
  | Some reg =>
      let record := if Text.is_empty credential_token then None
                    else find_by_credential_token reg credential_token ≫= get reg in
      match record with
      | Some record =>
          let metadata := partial_alter (λ _, ar_org_id record) "org_id"%string (ac_metadata ctx) in
          with_tenancy ctx (ap_governance_level (ar_profile record)) (ar_team_id record)
            (partial_alter (λ _, ar_team_id record) "team_id"%string metadata)
      | None =>
          with_tenancy ctx (ac_governance_level ctx) None
            (delete "team_id"%string (delete "org_id"%string (ac_metadata ctx)))
      end
  end.

(** [maybe_suspend_agent]: [agent_key] is the authenticated owner of the request, if
    it has one; the command pushed on the control stream is not state. *)
Definition maybe_suspend_agent en (agent_key : option AgentId) (deny_action : option DA.DenyAction) : Engine :=
  if decide (deny_action = Some DA.SuspendAgent) then
    match en_registry en, agent_key with
    | Some reg, Some key => set_registry en (fst (suspend_agent reg key Suspend.BudgetExceeded))
    | _, _ => en
    end
  else en.
End Engine.
