(* ===== verification/EngineProps.v ===== *)
(** * EngineProps: what the evaluation pipeline guarantees

    Both pipelines are characterised stage by stage: when they allow, which part of a
    request and of the state they read, and that they agree on one document.  From
    this follow the independence of forged tenancy and the transparency of the
    decision cache.  Two behaviours that contradict the documentation are exhibited:
    the removal of a policy that leaves its cached verdicts in force, and the
    suspension of an agent whose request was allowed. *)

From stdpp Require Import base gmap strings list.
From Stdlib Require Import ZArith Lia Bool Ascii String.
From S2P Require Import Prelude.
From S2P Require Import Text.
From S2P Require Import Float64.
From S2P Require Import CoreTypes.
From S2P Require Import External.
From S2P Require Import ExprEval.
From S2P Require Import ExprProps.
From S2P Require Import Capability.
From S2P Require Import PolicyDocument.
From S2P Require Import ScopeIndex.
From S2P Require Import EgressHost.
From S2P Require Import Decision.
From S2P Require Import Budget.
From S2P Require Import BudgetTracker.
From S2P Require Import BudgetProps.
From S2P Require Import Findings.
From S2P Require Import Redaction.
From S2P Require Import Detection.
From S2P Require Import Registry.
From S2P Require Import RegistryProps.
From S2P Require Import RateLimit.
From S2P Require Import Engine.

Open Scope Z_scope.
Open Scope aasm_scope.

(** ** Frames *)

Section Frames.
Context {C : ChronoLib} {D : DecimalLib} {DT : Detectors}.
Implicit Types (en : Engine).

(** What an evaluation leaves alone: the policies, the registry, the epoch. *)
Definition same_policies en en' : Prop :=
  en_policy en' = en_policy en ∧ en_cascade en' = en_cascade en ∧ en_registry en' = en_registry en ∧
  en_policy_epoch en' = en_policy_epoch en.

Definition same_cache en en' : Prop := same_policies en en' ∧ en_cache en' = en_cache en.

#[global] Instance same_cache_preorder : PreOrder same_cache.
Proof.
  split; [by repeat split|]. intros en1 en2 en3. unfold same_cache, same_policies. intros. intuition congruence.
Qed.

Lemma same_cache_refl en : same_cache en en.
Proof. reflexivity. Qed.

Lemma same_cache_rate en en' m : same_cache en en' → same_cache en (set_rate en' m).
Proof. intros. by etrans. Qed.

Lemma same_cache_ledger en en' lg : same_cache en en' → same_cache en (set_ledger en' lg).
Proof. intros. by etrans. Qed.

Lemma same_cache_audit en en' fs : same_cache en en' → same_cache en (emit_resolution_failures en' fs).
Proof. intros. by etrans. Qed.
End Frames.

#[export] Hint Resolve same_cache_refl same_cache_rate same_cache_ledger same_cache_audit : aasm.

(** Closes a frame goal over a concrete state update. *)
Ltac framed := simpl; solve [auto with aasm].

Section Props.
Context {JS : JsonLib} {HT : HumantimeLib} {U : UuidLib} {C : ChronoLib} {D : DecimalLib} {DT : Detectors}.
Context (content_digest : PolicyDocument → string) (action_discriminant : GovernanceAction → Z).
Context (dec_of_f64 : f64 → option dec).
Implicit Types (en : Engine) (ctx : AgentContext) (action : GovernanceAction) (rq : Request)
  (cascade : list PolicyDocument) (doc : PolicyDocument).

(** ** Documents whose approvals read no live context *)

Lemma tool_not_live doc k tp expr :
  has_live_context_approval doc = false → pd_tools doc !! k = Some tp →
  tp_requires_approval_if tp = Some expr → references_live_context expr = false.
Proof.
  intros Hl Hk He. unfold has_live_context_approval in Hl.
  destruct (references_live_context expr) eqn:E; [|done]. exfalso. apply not_true_iff_false in Hl. apply Hl.
  apply existsb_exists. exists (k, tp). split; [by apply list_elem_of_In, elem_of_map_to_list|]. simpl. by rewrite He.
Qed.

Lemma tool_policy_for_Some tools name tp :
  tool_policy_for tools name = Some tp → ∃ k, tools !! k = Some tp.
Proof. unfold tool_policy_for. destruct (tools !! name) eqn:E; [intros [= <-]|]; eauto. Qed.

Lemma approval_not_live doc o ctx ctx' action pc pc' :
  has_live_context_approval doc = false → (∀ tp, o = Some tp → ∃ k, pd_tools doc !! k = Some tp) →
  ac_governance_level ctx' = ac_governance_level ctx →
  approval_condition_met o ctx' action pc' = approval_condition_met o ctx action pc.
Proof.
  intros Hl Ho Hg. unfold approval_condition_met. destruct o as [tp|]; simpl; [|done].
  destruct (tp_requires_approval_if tp) as [expr|] eqn:E; [|done]. destruct (Text.is_empty expr); [done|].
  destruct (Ho tp eq_refl) as [k Hk]. rewrite Hg. apply evaluate_clause_not_live. by eapply tool_not_live.
Qed.

Lemma single_doc_not_live doc ctx ctx' action pc pc' :
  has_live_context_approval doc = false → ac_governance_level ctx' = ac_governance_level ctx →
  evaluate_single_doc doc ctx' action pc' = evaluate_single_doc doc ctx action pc.
Proof.
  intros Hl Hg. unfold evaluate_single_doc. destruct (stage_network doc action); [done|].
  destruct (stage_tool_allow doc action); [done|]. destruct (stage_capability doc action); [done|].
  assert (stage_approval doc ctx' action pc' = stage_approval doc ctx action pc) as ->; [|done].
  unfold stage_approval. destruct action; try done; f_equal; eapply approval_not_live; try done; intros tp.
  - apply tool_policy_for_Some.
  - eauto.
Qed.

Lemma merge_loop_not_live running d docs ctx ctx' action pc pc' :
  cascade_has_live_context_approval docs = false → ac_governance_level ctx' = ac_governance_level ctx →
  merge_loop content_digest running d docs ctx' action pc' = merge_loop content_digest running d docs ctx action pc.
Proof.
  intros Hl Hg. revert running d. induction docs as [|doc docs IH]; intros running d; simpl; [done|].
  unfold cascade_has_live_context_approval in Hl. simpl in Hl. apply orb_false_iff in Hl as [Hd Hl].
  rewrite (single_doc_not_live doc ctx ctx' action pc pc') by done.
  destruct (evaluate_single_doc doc ctx action pc) as [[] r]; simpl; rewrite ?IH; done.
Qed.

Lemma merge_not_live cascade ctx ctx' action pc pc' :
  cascade_has_live_context_approval cascade = false → ac_governance_level ctx' = ac_governance_level ctx →
  merge_decisions_attributed content_digest cascade ctx' action pc' =
  merge_decisions_attributed content_digest cascade ctx action pc.
Proof. intros. destruct cascade as [|d l]; [done|]. unfold merge_decisions_attributed. by apply merge_loop_not_live. Qed.

(** ** The verdict of a cascade *)

Definition fresh_verdict cascade ctx action (pc : option PolicyContext) : CachedVerdict :=
  fst (merge_decisions_attributed content_digest cascade ctx action pc).

Lemma fresh_verdict_allow cascade ctx action pc :
  fst (fresh_verdict cascade ctx action pc) = PD.Allow ↔
  cascade ≠ [] ∧ Forall (λ doc, doc_verdict ctx action pc doc = PD.Allow) cascade.
Proof.
  assert (fst (fresh_verdict cascade ctx action pc) = merge_decisions content_digest cascade ctx action pc) as ->.
  { unfold fresh_verdict, merge_decisions, merge_decisions_audited.
    by destruct (merge_decisions_attributed _ _ _ _ _) as [[? ?] ?]. }
  assert (∀ d, d = PD.Allow ↔ rank d = 0) as Hz by (intros []; simpl; split; (done || lia)).
  destruct cascade as [|d l]; [split; [done|by intros [? _]]|].
  rewrite Hz, merge_decisions_rank by done. split.
  - intros Hm. split; [done|]. apply Forall_forall. intros x Hx. apply Hz.
    pose proof (rank_range (doc_verdict ctx action pc x)).
    pose proof (max_rank_ge (map (doc_verdict ctx action pc) (d :: l)) (doc_verdict ctx action pc x)) as Hr.
    rewrite Hm in Hr. assert (rank (doc_verdict ctx action pc x) ≤ 0); [|lia].
    apply Hr, list_elem_of_fmap. eauto.
  - intros [_ Hf]. rewrite Forall_forall in Hf. pose proof (max_rank_bounds (map (doc_verdict ctx action pc) (d :: l))).
    apply Z.le_antisymm; [|lia]. apply max_rank_le; [lia|].
    intros v (x & -> & Hx)%list_elem_of_fmap. rewrite (Hf x Hx). simpl. lia.
Qed.

(** The requests that do not read the cache. *)
Definition cache_unused en cascade (key : CacheKey) rq : Prop :=
  cascade_has_live_context_approval cascade = true ∨ rq_cache_holds rq = false ∨ en_cache en !! key = None.

Lemma resolve_fresh en cascade ctx action key pc rq :
  cache_unused en cascade key rq →
  snd (resolve_merge_verdict content_digest en cascade ctx action key pc rq) = fresh_verdict cascade ctx action pc.
Proof.
  intros Hu. unfold resolve_merge_verdict, fresh_verdict.
  destruct (merge_decisions_attributed content_digest cascade ctx action pc) as [fresh failures].
  destruct (cascade_has_live_context_approval cascade) eqn:El; [done|].
  assert ((if rq_cache_holds rq then en_cache en !! key else None) = None) as Hn.
  { destruct Hu as [Hu|[Hu|Hu]]; [by rewrite El in Hu|by rewrite Hu|]. rewrite Hu. by destruct (rq_cache_holds rq). }
  unfold cache_get. rewrite Hn. done.
Qed.

Lemma resolve_hit en cascade ctx action key pc rq (v : CachedVerdict) :
  cascade_has_live_context_approval cascade = false → rq_cache_holds rq = true → en_cache en !! key = Some v →
  snd (resolve_merge_verdict content_digest en cascade ctx action key pc rq) = v.
Proof.
  intros Hlive Hh Hl. unfold resolve_merge_verdict, cache_get. rewrite Hlive, Hh, Hl.
  by destruct (merge_decisions_attributed _ _ _ _ _).
Qed.

(** The verdict a request is served from the cache, if it is served one: the cascade has
    no rule on the live context and an entry for its key has not been evicted. *)
Definition served_verdict en cascade (key : CacheKey) rq : option CachedVerdict :=
  if cascade_has_live_context_approval cascade then None
  else if rq_cache_holds rq then en_cache en !! key else None.

Lemma resolve_served en cascade ctx action key pc rq :
  snd (resolve_merge_verdict content_digest en cascade ctx action key pc rq) =
  default (fresh_verdict cascade ctx action pc) (served_verdict en cascade key rq).
Proof.
  unfold served_verdict. destruct (cascade_has_live_context_approval cascade) eqn:El;
    [apply resolve_fresh; by left|].
  destruct (rq_cache_holds rq) eqn:Eh; [|apply resolve_fresh; right; by left].
  destruct (en_cache en !! key) as [v|] eqn:Ek; [by apply resolve_hit|apply resolve_fresh; by right; right].
Qed.

(** Everything but the cache and the audit log is as before. *)
Definition same_core en en' : Prop :=
  en_rate_state en' = en_rate_state en ∧ en_budget en' = en_budget en ∧ en_ledger en' = en_ledger en ∧
  en_registry en' = en_registry en ∧ en_cascade en' = en_cascade en ∧ en_policy en' = en_policy en.

Lemma resolve_same_core en cascade ctx action key pc rq :
  same_core en (fst (resolve_merge_verdict content_digest en cascade ctx action key pc rq)).
Proof.
  unfold resolve_merge_verdict.
  destruct (merge_decisions_attributed content_digest cascade ctx action pc) as [fresh failures].
  destruct (cascade_has_live_context_approval cascade); [by repeat split|].
  unfold cache_get. destruct (if rq_cache_holds rq then _ else _); by repeat split.
Qed.


(** ** State that the stages do not read *)

Lemma rate_limit_same_core en en' cascade ctx action rq :
  same_core en en' →
  snd (cascade_rate_limit en' cascade ctx action rq) = snd (cascade_rate_limit en cascade ctx action rq).
Proof.
  intros (Hr & _ & _ & Hg & _). unfold cascade_rate_limit. destruct action; try done.
  destruct (min_limit _); [|done]. unfold try_consume_rate, rate_scope, authoritative_tenancy. rewrite Hr, Hg.
  by destruct (try_consume_with_limit _ _ _).
Qed.

Lemma rate_limit_keeps en cascade ctx action rq :
  let en' := fst (cascade_rate_limit en cascade ctx action rq) in
  en_budget en' = en_budget en ∧ en_ledger en' = en_ledger en.
Proof.
  unfold cascade_rate_limit, try_consume_rate. destruct action; try done. destruct (min_limit _); [|done].
  by destruct (try_consume_with_limit _ _ _).
Qed.

Lemma budget_reason_congr en en' bp agent now :
  en_budget en' = en_budget en → en_ledger en' = en_ledger en →
  snd (budget_exceeded_reason dec_of_f64 en' bp agent now) = snd (budget_exceeded_reason dec_of_f64 en bp agent now) ∧
  en_budget (fst (budget_exceeded_reason dec_of_f64 en' bp agent now)) =
    en_budget (fst (budget_exceeded_reason dec_of_f64 en bp agent now)) ∧
  en_ledger (fst (budget_exceeded_reason dec_of_f64 en' bp agent now)) =
    en_ledger (fst (budget_exceeded_reason dec_of_f64 en bp agent now)).
Proof.
  intros Hb Hl. unfold budget_exceeded_reason. rewrite Hb, Hl.
  destruct (bp_monthly_limit_usd bp ≫= dec_of_f64); [destruct (check_monthly _ _ _ _ _) as [? []]|];
    destruct (bp_daily_limit_usd bp ≫= dec_of_f64); simpl; try done; destruct (check_daily _ _ _ _ _); done.
Qed.

Lemma cascade_budget_congr en en' cascade agent now r f k r' f' k' :
  en_budget en' = en_budget en → en_ledger en' = en_ledger en →
  snd (check_cascade_budget dec_of_f64 en' cascade agent now r f k) = None ↔
  snd (check_cascade_budget dec_of_f64 en cascade agent now r' f' k') = None.
Proof.
  revert en en'. induction cascade as [|doc rest IH]; intros en en' Hb Hl; simpl; [done|].
  destruct (pd_budget doc) as [bp|]; [|by apply IH].
  destruct (budget_reason_congr en en' bp agent now Hb Hl) as (Hr & Hb' & Hl').
  destruct (budget_exceeded_reason dec_of_f64 en' bp agent now) as [en1' o'],
    (budget_exceeded_reason dec_of_f64 en bp agent now) as [en1 o]. simpl in *. subst o'.
  destruct o; simpl; [done|]. by apply IH.
Qed.

(** ** When Stage 6 lets a request through *)


Lemma scan_continues text f k only a :
  (∃ r f' k', apply_credential_scan text f k only a = ScanContinue r f' k') ↔ (a = Block → f = [] ∧ k = []).
Proof.
  unfold apply_credential_scan. destruct (decide (a = Block)) as [->|Hn].
  - rewrite bool_decide_true by done. simpl. split.
    + intros (r & f' & k' & H) _. by destruct f, k.
    + intros H. destruct (H eq_refl) as [-> ->]. simpl. eauto.
  - rewrite bool_decide_false by done. simpl. split; [done|]. intros _.
    destruct f, k, a; eauto.
Qed.

Lemma scan_block_denies text f k only a r :
  apply_credential_scan text f k only a = ScanBlock r → er_decision r ≠ Allow.
Proof.
  unfold apply_credential_scan. destruct (bool_decide _ && _); [by intros [= <-]|].
  destruct f, k; simpl; try done; destruct a; done.
Qed.

(** What the passes find on a request: nothing, when the run succeeds and both lists
    are empty. *)
Definition detects_nothing (passes : list DetectionPass) (text : string) : Prop :=
  ∀ p, p ∈ passes → contribution p text = [].

Lemma run_detection_total text passes : ∃ d, run_detection text passes = Ok d.
Proof. destruct (run_detection_parts text passes) as (fs & _ & _ & H). eauto. Qed.

Lemma bind_nil {A B} (f : A → list B) l : (∀ x, x ∈ l → f x = []) → l ≫= f = [].
Proof.
  induction l as [|x l IH]; intros H; csimpl; [done|]. rewrite (H x) by left. apply IH. intros y Hy. apply H. by right.
Qed.

Lemma run_detection_nothing text passes f k only :
  run_detection text passes = Ok (f, k, only) → (f = [] ∧ k = []) ↔ detects_nothing passes text.
Proof.
  intros H. split; [intros [-> ->] p Hp; by eapply run_detection_clean|].
  intros Hn. unfold run_detection in H. rewrite run_contributions in H.
  rewrite (bind_nil (λ p, contribution p text) passes) in H by done. by simplify_eq/=.
Qed.

(** ** The cascade allows exactly what every stage passes *)

Definition cascade_passes (cascade : list PolicyDocument) (packs : list LocalePack) : list DetectionPass :=
  BuiltinScannerPass :: CascadeRegexPass cascade :: map LocalePackPass packs.

(** Stages 1, 3 and 4, 6 and 7 of the cascade pipeline, as read off the documents. *)
Definition cascade_cleared en cascade ctx action rq : Prop :=
  (∀ doc, doc ∈ cascade → stage_schedule_at doc (rq_schedule_now rq) = None) ∧
  cascade_capability_guard cascade action = None ∧
  snd (cascade_rate_limit en cascade ctx action rq) = None ∧
  (∃ packs, cascade_locale_packs cascade = Ok packs ∧
            (cascade_credential_action cascade = Block →
             detects_nothing (cascade_passes cascade packs) (action_scan_text action))) ∧
  snd (check_cascade_budget dec_of_f64 en cascade (ac_agent_id ctx) (rq_budget_now rq) None [] []) = None.

Lemma stage_schedule_denies doc now d : stage_schedule_at doc now = Some d → ∃ reason, d = PD.Deny reason (pd_scope doc).
Proof.
  unfold stage_schedule_at. destruct (pd_schedule doc ≫= sp_active_hours) as [ah|]; [|done].
  destruct (tz_parse (ah_timezone ah)) as [zone|]; [|intros [= <-]; eauto].
  destruct (local_hour_minute zone now) as [h m]. destruct (str_ltb _ _ || _); [|done]. intros [= <-]. eauto.
Qed.

Lemma schedule_cascade_denies cascade now d :
  evaluate_schedule_cascade cascade now = Some d → ∃ reason scope, d = PD.Deny reason scope.
Proof.
  unfold evaluate_schedule_cascade. induction cascade as [|doc l IH]; simpl; [done|].
  destruct (stage_schedule_at doc now) eqn:E; [|done]. intros [= <-].
  destruct (stage_schedule_denies _ _ _ E) as [? ->]. eauto.
Qed.

Lemma guard_denies caps action r : capability_guard caps action = Some r → er_decision r ≠ Allow.
Proof.
  unfold capability_guard. destruct (action_to_capability action) as [cap|]; [|done].
  destruct (capability_is_denied _ _); [by intros [= <-]|]. destruct (_ && _); [by intros [= <-]|done].
Qed.

Lemma rate_limit_denies en cascade ctx action rq r :
  snd (cascade_rate_limit en cascade ctx action rq) = Some r → er_decision r ≠ Allow.
Proof.
  unfold cascade_rate_limit. destruct action; try done. destruct (min_limit _); [|done].
  destruct (try_consume_rate _ _ _ _ _) as [? []]; intros H; by simplify_eq/=.
Qed.

Lemma cascade_budget_denies en cascade agent now r f k res :
  snd (check_cascade_budget dec_of_f64 en cascade agent now r f k) = Some res → er_decision res ≠ Allow.
Proof.
  revert en. induction cascade as [|doc rest IH]; intros en; simpl; [done|].
  destruct (pd_budget doc) as [bp|]; [|apply IH]. destruct (budget_exceeded_reason _ _ _ _ _) as [en' []]; [|apply IH].
  intros H. by simplify_eq/=.
Qed.

(** The last two stages: Stage 6 continues and no budget is exceeded. *)
Lemma cascade_tail_allow en cascade ctx action rq verdict f k only :
  er_decision (snd (cascade_tail dec_of_f64 en cascade ctx action rq verdict (f, k, only))) = Allow ↔
  (cascade_credential_action cascade = Block → f = [] ∧ k = []) ∧ fst verdict = PD.Allow ∧
  snd (check_cascade_budget dec_of_f64 en cascade (ac_agent_id ctx) (rq_budget_now rq) None [] []) = None.
Proof.
  unfold cascade_tail. rewrite <- (scan_continues (action_scan_text action) f k only).
  destruct (apply_credential_scan _ _ _ _ _) as [r|r f' k'] eqn:E.
  - simpl. split; [by intros H%(scan_block_denies _ _ _ _ _ _ E)|]. by intros [(? & ? & ? & ?) _].
  - rewrite <- (cascade_budget_congr en en cascade _ _ r f' k' None [] []) by done.
    pose proof (cascade_budget_denies en cascade (ac_agent_id ctx) (rq_budget_now rq) r f' k') as Hd.
    destruct (check_cascade_budget _ _ _ _ _ _ _ _) as [en' [res|]]; simpl in *.
    + split; [by intros H%(Hd res eq_refl)|]. by intros (_ & _ & ?).
    + split; [|intros (_ & -> & _); done]. intros H. split; [by eauto|]. split; [|done].
      by destruct (fst verdict).
Qed.

Abbreviation eval_cascade := (evaluate_with_cascade content_digest action_discriminant dec_of_f64).
Abbreviation eval_primary := (evaluate_primary dec_of_f64).
Abbreviation eval := (evaluate content_digest action_discriminant dec_of_f64).
Abbreviation key_of := (cache_key action_discriminant).

Lemma cascade_stages_allow en cascade ctx action rq :
  er_decision (snd (eval_cascade en cascade ctx action rq)) = Allow ↔
  cascade_cleared en cascade ctx action rq ∧
  fst (snd (resolve_merge_verdict content_digest en cascade ctx action (key_of en ctx action)
              (engine_context en ctx rq) rq)) = PD.Allow.
Proof.
  unfold evaluate_with_cascade, cascade_cleared. rewrite <- schedule_cascade_none.
  destruct (evaluate_schedule_cascade cascade (rq_schedule_now rq)) as [d|] eqn:Es.
  { destruct (schedule_cascade_denies _ _ _ Es) as (reason & scope & ->). split; [done|]. by intros [[? _] _]. }
  pose proof (resolve_same_core en cascade ctx action (key_of en ctx action) (engine_context en ctx rq) rq) as Hc.
  destruct (resolve_merge_verdict _ _ _ _ _ _ _ _) as [en1 verdict]. simpl in *.
  destruct (fst verdict) as [| |reason scope] eqn:Ev; [| |by split; [|intros [_ ?]]]; cycle 1.
  all: destruct (cascade_capability_guard cascade action) as [r|] eqn:Eg;
    [split; [by intros ?%(guard_denies _ _ _ Eg)|by intros [(_ & ? & _) _]]|].
  all: pose proof (rate_limit_same_core en en1 cascade ctx action rq Hc) as Hr;
    pose proof (rate_limit_keeps en1 cascade ctx action rq) as [Hb Hl]; destruct Hc as (_ & Hb' & Hl' & _);
    rewrite <- Hr; destruct (cascade_rate_limit en1 cascade ctx action rq) as [en2 [r|]] eqn:Er; simpl in *;
    [split; [intros H; exfalso; revert H; eapply (rate_limit_denies en1 cascade ctx action rq); by rewrite Er
            |by intros [(_ & _ & ? & _) _]]|].
  all: destruct (cascade_locale_packs cascade) as [packs|e];
    [|split; [done|by intros [(_ & _ & _ & (? & ? & _) & _) _]]].
  all: destruct (run_detection_total (action_scan_text action) (cascade_passes cascade packs)) as [[[f k] only] Hd];
    pose proof (run_detection_nothing _ _ _ _ _ Hd) as Hn; unfold cascade_passes in Hd; rewrite Hd, cascade_tail_allow,
      (cascade_budget_congr en en2 cascade _ _ None [] [] None [] []), Ev by congruence.
  - split; [by intros (_ & ? & _)|by intros [_ ?]].
  - split.
    + intros (Hs & _ & Hbud). repeat split; try done. exists packs. split; [done|]. intros Hb1. by apply Hn, Hs.
    + intros [(_ & _ & _ & (packs' & [= <-] & Hs) & Hbud) _]. repeat split; try done; intros; by apply Hn, Hs.
Qed.

(** C1: the cascade pipeline allows a request exactly when every document's schedule is
    open, the merged capabilities admit the action, the tightest rate limit has a token,
    every locale pack resolves, no pass finds anything if the strictest credential action
    is to block, no document's budget is exceeded, and the merged verdict is allow: the
    verdict cached for the request where one is served from the cache (no rule reads the
    live context and the entry is there), and otherwise that of a cascade with at least
    one document each of whose own verdict is allow. *)
Theorem cascade_allow_iff en cascade ctx action rq :
  er_decision (snd (eval_cascade en cascade ctx action rq)) = Allow ↔
  cascade_cleared en cascade ctx action rq ∧
  match served_verdict en cascade (key_of en ctx action) rq with
  | Some cached => fst cached = PD.Allow
  | None => cascade ≠ [] ∧
            Forall (λ doc, doc_verdict ctx action (engine_context en ctx rq) doc = PD.Allow) cascade
  end.
Proof.
  rewrite cascade_stages_allow, resolve_served.
  destruct (served_verdict _ _ _ _); [done|]. simpl. by rewrite fresh_verdict_allow.
Qed.

(** ** The part of a context that the engine reads *)

(** The agent, its level, and the tenancy the request claims. *)
Definition ctx_equiv ctx ctx' : Prop :=
  ac_agent_id ctx' = ac_agent_id ctx ∧ ac_governance_level ctx' = ac_governance_level ctx ∧
  ac_team_id ctx' = ac_team_id ctx ∧
  ac_metadata ctx' !! "org_id"%string = ac_metadata ctx !! "org_id"%string ∧
  ac_metadata ctx' !! "team_id"%string = ac_metadata ctx !! "team_id"%string.

#[local] Instance ctx_equiv_equivalence : Equivalence ctx_equiv.
Proof.
  split.
  - done.
  - intros x y (? & ? & ? & ? & ?). by repeat split.
  - intros x y z (? & ? & ? & ? & ?) (? & ? & ? & ? & ?). repeat split; by etrans.
Qed.

#[local] Instance engine_context_proper en : Proper (ctx_equiv ==> eq ==> eq) (engine_context en).
Proof. intros c c' (Ha & _ & Ht & _) rq ? <-. unfold engine_context. by rewrite Ha, Ht. Qed.

#[local] Instance tenancy_proper en : Proper (ctx_equiv ==> eq) (authoritative_tenancy en).
Proof. intros c c' (Ha & _ & Ht & Ho & _). unfold authoritative_tenancy. by rewrite Ha, Ht, Ho. Qed.

#[local] Instance lineage_proper en : Proper (ctx_equiv ==> eq) (authoritative_lineage en).
Proof. intros c c' (Ha & _ & Ht & Ho & Hm). unfold authoritative_lineage. by rewrite Ha, Ht, Ho, Hm. Qed.

#[local] Instance rate_scope_proper en : Proper (ctx_equiv ==> eq) (rate_scope en).
Proof.
  intros c c' Hc. unfold rate_scope. rewrite <- (tenancy_proper en c c' Hc). destruct Hc as (Ha & _). by rewrite Ha.
Qed.

Lemma request_cascade_ctx en ctx ctx' action :
  ctx_equiv ctx ctx' → request_cascade en ctx' action = request_cascade en ctx action.
Proof.
  intros Hc. unfold request_cascade. rewrite <- (lineage_proper en ctx ctx' Hc). destruct Hc as (Ha & _). by rewrite Ha.
Qed.

Lemma merge_ctx cascade ctx ctx' action pc :
  ac_governance_level ctx' = ac_governance_level ctx →
  merge_decisions_attributed content_digest cascade ctx' action pc =
  merge_decisions_attributed content_digest cascade ctx action pc.
Proof.
  intros Hg. assert (∀ o, approval_condition_met o ctx' action pc = approval_condition_met o ctx action pc) as Ha.
  { intros o. unfold approval_condition_met. by rewrite Hg. }
  assert (∀ doc, evaluate_single_doc doc ctx' action pc = evaluate_single_doc doc ctx action pc) as Hd.
  { intros doc. unfold evaluate_single_doc, stage_approval. destruct action; by rewrite ?Ha. }
  destruct cascade as [|d0 l]; [done|]. unfold merge_decisions_attributed. generalize PD.Allow. generalize d0 at 1 3.
  induction (d0 :: l) as [|doc docs IH]; intros d r; simpl; [done|]. rewrite Hd.
  destruct (evaluate_single_doc doc ctx action pc) as [[] f]; simpl; by rewrite ?IH.
Qed.

Lemma resolve_ctx en cascade ctx ctx' action rq :
  ctx_equiv ctx ctx' →
  resolve_merge_verdict content_digest en cascade ctx' action (key_of en ctx' action) (engine_context en ctx' rq) rq =
  resolve_merge_verdict content_digest en cascade ctx action (key_of en ctx action) (engine_context en ctx rq) rq.
Proof.
  intros Hc. unfold resolve_merge_verdict. rewrite <- (engine_context_proper en ctx ctx' Hc rq rq eq_refl).
  destruct Hc as (Ha & Hg & _). rewrite (merge_ctx cascade ctx ctx') by done. unfold cache_key. by rewrite Ha.
Qed.

Lemma rate_limit_ctx en cascade ctx ctx' action rq :
  ctx_equiv ctx ctx' → cascade_rate_limit en cascade ctx' action rq = cascade_rate_limit en cascade ctx action rq.
Proof. intros Hc. unfold cascade_rate_limit. by rewrite <- (rate_scope_proper en ctx ctx' Hc). Qed.

Lemma eval_cascade_ctx en cascade ctx ctx' action rq :
  ctx_equiv ctx ctx' → eval_cascade en cascade ctx' action rq = eval_cascade en cascade ctx action rq.
Proof.
  intros Hc. unfold evaluate_with_cascade. rewrite (resolve_ctx en cascade ctx ctx') by done.
  destruct (resolve_merge_verdict _ _ _ _ _ _ _ _) as [en1 verdict]. rewrite (rate_limit_ctx en1 cascade ctx ctx') by done.
  destruct (cascade_rate_limit en1 cascade ctx action rq) as [en2 limited].
  unfold cascade_tail. destruct Hc as (Ha & _). by rewrite Ha.
Qed.

Lemma approval_ctx en policy tp ctx ctx' action rq :
  ctx_equiv ctx ctx' →
  eval_approval_condition en policy tp ctx' action rq = eval_approval_condition en policy tp ctx action rq.
Proof.
  intros Hc. unfold eval_approval_condition. rewrite <- (engine_context_proper en ctx ctx' Hc rq rq eq_refl).
  destruct Hc as (_ & Hg & _). by rewrite Hg.
Qed.

Lemma eval_primary_ctx en ctx ctx' action rq :
  ctx_equiv ctx ctx' → eval_primary en ctx' action rq = eval_primary en ctx action rq.
Proof.
  intros Hc. unfold evaluate_primary.
  assert (eval_tool_stages en (en_policy en) ctx' action rq = eval_tool_stages en (en_policy en) ctx action rq) as ->.
  { destruct action; simpl; try done; [|by apply approval_ctx].
    unfold eval_toolcall_stages. rewrite <- (rate_scope_proper en ctx ctx' Hc).
    destruct (match tool_policy_for _ _ with Some _ => _ | None => _ end); [done|].
    destruct (match _ ≫= tp_limit_per_hour with Some _ => _ | None => _ end) as [en' []]; [done|]. by apply approval_ctx. }
  destruct (eval_tool_stages en (en_policy en) ctx action rq) as [en' o]. unfold primary_tail.
  destruct Hc as (Ha & _). by rewrite Ha.
Qed.

Lemma eval_ctx en ctx ctx' action rq : ctx_equiv ctx ctx' → eval en ctx' action rq = eval en ctx action rq.
Proof.
  intros Hc. unfold evaluate. rewrite (request_cascade_ctx en ctx ctx') by done.
  destruct (request_cascade en ctx action); [by apply eval_primary_ctx|by apply eval_cascade_ctx].
Qed.

Lemma apply_tenancy_equiv reg token ctx ctx' :
  ac_agent_id ctx' = ac_agent_id ctx → ac_governance_level ctx' = ac_governance_level ctx →
  ctx_equiv (apply_authoritative_tenancy (Some reg) token ctx) (apply_authoritative_tenancy (Some reg) token ctx').
Proof.
  intros Ha Hg. unfold apply_authoritative_tenancy.
  destruct (if Text.is_empty token then _ else _) as [r|]; unfold ctx_equiv; simpl; split_and!; try done.
  - rewrite !(lookup_partial_alter_ne _ _ "team_id"%string) by done. by rewrite !lookup_partial_alter_eq.
  - by rewrite !lookup_partial_alter_eq.
  - rewrite !(lookup_delete_ne _ "team_id"%string) by done. by rewrite !lookup_delete_eq.
  - by rewrite !lookup_delete_eq.
Qed.

(** C4: with a registry attached, the tenancy a request
    claims for itself has no effect: once the service has resolved the tenancy from
    the credential token, two requests of one agent that differ in the claimed
    organisation, team and other metadata get the same result and leave the same
    engine behind. *)
Theorem forged_tenancy_ignored en reg token ctx ctx' action rq :
  en_registry en = Some reg →
  ac_agent_id ctx' = ac_agent_id ctx → ac_governance_level ctx' = ac_governance_level ctx →
  eval en (apply_authoritative_tenancy (en_registry en) token ctx') action rq =
  eval en (apply_authoritative_tenancy (en_registry en) token ctx) action rq.
Proof. intros -> Ha Hg. by apply eval_ctx, apply_tenancy_equiv. Qed.

(** ** The single-document pipeline *)

Definition primary_passes en (packs : list LocalePack) : list DetectionPass :=
  BuiltinScannerPass :: CompiledRegexPass (ca_compiled_patterns (en_cascade en)) :: map LocalePackPass packs.

Definition credential_action_of doc : CredentialAction :=
  match pd_data doc with Some d => dp_credential_action d | None => credential_action_default end.

Definition budget_open en doc (agent : AgentId) (now : Z) : Prop :=
  ∀ bp, pd_budget doc = Some bp → snd (budget_exceeded_reason dec_of_f64 en bp agent now) = None.

Lemma primary_tail_allow en policy ctx action rq f k only :
  er_decision (snd (primary_tail dec_of_f64 en policy ctx action rq (f, k, only))) = Allow ↔
  (credential_action_of policy = Block → f = [] ∧ k = []) ∧
  budget_open en policy (ac_agent_id ctx) (rq_budget_now rq).
Proof.
  unfold primary_tail, budget_open. fold (credential_action_of policy).
  rewrite <- (scan_continues (action_scan_text action) f k only).
  destruct (apply_credential_scan _ _ _ _ _) as [r|r f' k'] eqn:E.
  { simpl. split; [by intros H%(scan_block_denies _ _ _ _ _ _ E)|]. by intros [(? & ? & ? & ?) _]. }
  destruct (pd_budget policy) as [bp|]; [|by split; [intros _; split; [eauto|]|]].
  destruct (budget_exceeded_reason dec_of_f64 en bp (ac_agent_id ctx) (rq_budget_now rq)) as [en' o] eqn:Eb.
  destruct o as [reason|]; simpl.
  - split; [done|]. intros [_ H]. specialize (H bp eq_refl). by rewrite Eb in H.
  - split; [|done]. intros _. split; [by eauto|]. intros bp' [= <-]. by rewrite Eb.
Qed.

(** Every early return of the pipeline is a denial or an approval. *)
Lemma tool_stages_not_allow en policy ctx action rq r :
  snd (eval_tool_stages en policy ctx action rq) = Some r → er_decision r ≠ Allow.
Proof.
  assert (∀ en tp, snd (eval_approval_condition en policy tp ctx action rq) = Some r → er_decision r ≠ Allow) as Ha.
  { intros en' tp. unfold eval_approval_condition. destruct (tp ≫= _); [|done]. destruct (Text.is_empty _); [done|].
    destruct (evaluate_clause _ _ _ _ _) as [[] fs]; simpl; intros H; by simplify_eq. }
  unfold eval_tool_stages. destruct action; try done; [|apply Ha]. unfold eval_toolcall_stages.
  destruct (match tool_policy_for _ _ with Some _ => _ | None => _ end); [intros H; by simplify_eq/=|].
  destruct (match _ ≫= tp_limit_per_hour with Some _ => _ | None => _ end) as [en' []];
    [intros H; by simplify_eq/=|apply Ha].
Qed.

Lemma tool_stages_keep en policy ctx action rq :
  let en' := fst (eval_tool_stages en policy ctx action rq) in
  en_budget en' = en_budget en ∧ en_ledger en' = en_ledger en ∧ en_cascade en' = en_cascade en.
Proof.
  assert (∀ en tp, let en' := fst (eval_approval_condition en policy tp ctx action rq) in
    en_budget en' = en_budget en ∧ en_ledger en' = en_ledger en ∧ en_cascade en' = en_cascade en) as Ha.
  { intros en' tp. unfold eval_approval_condition. destruct (tp ≫= _); [|done]. destruct (Text.is_empty _); [done|].
    by destruct (evaluate_clause _ _ _ _ _) as [[] fs]. }
  unfold eval_tool_stages. destruct action; try (by repeat split); [|apply Ha]. unfold eval_toolcall_stages, try_consume_rate.
  destruct (match tool_policy_for _ _ with Some _ => _ | None => _ end); [done|].
  destruct (tool_policy_for _ _ ≫= tp_limit_per_hour); [|apply Ha].
  destruct (try_consume_with_limit _ _ _) as [b []]; [apply (Ha (set_rate en _))|done].
Qed.

Lemma schedule_stage_not_allow policy now r : eval_schedule_stage policy now = Some r → er_decision r ≠ Allow.
Proof.
  unfold eval_schedule_stage. destruct (pd_schedule policy ≫= sp_active_hours) as [ah|]; [|done].
  destruct (tz_parse (ah_timezone ah)) as [zone|]; [|by intros [= <-]].
  destruct (local_hour_minute zone now) as [h m]. destruct (str_ltb _ _ || _); [by intros [= <-]|done].
Qed.

Lemma network_stage_not_allow policy action r : eval_network_stage policy action = Some r → er_decision r ≠ Allow.
Proof.
  unfold eval_network_stage. destruct action; try done. destruct (pd_network policy); [|done].
  destruct (negb _); [by intros [= <-]|done].
Qed.

Lemma bind_guard_denies policy action r :
  (pd_capabilities policy ≫= λ caps, capability_guard caps action) = Some r → er_decision r ≠ Allow.
Proof. destruct (pd_capabilities policy); [apply guard_denies|done]. Qed.

Lemma budget_open_congr en en' doc agent now :
  en_budget en' = en_budget en → en_ledger en' = en_ledger en → budget_open en' doc agent now ↔ budget_open en doc agent now.
Proof.
  intros Hb Hl. unfold budget_open. split; intros H bp Hp; specialize (H bp Hp);
    destruct (budget_reason_congr en en' bp agent now Hb Hl) as [Hr _]; congruence.
Qed.

Definition primary_cleared en ctx action rq : Prop :=
  let policy := en_policy en in
  eval_schedule_stage policy (rq_schedule_now rq) = None ∧ eval_network_stage policy action = None ∧
  (pd_capabilities policy ≫= λ caps, capability_guard caps action) = None ∧
  snd (eval_tool_stages en policy ctx action rq) = None ∧
  (∃ packs, document_locale_packs (pd_data policy) = Ok packs ∧
            (credential_action_of policy = Block → detects_nothing (primary_passes en packs) (action_scan_text action))) ∧
  budget_open en policy (ac_agent_id ctx) (rq_budget_now rq).

Lemma primary_stages_allow en ctx action rq :
  er_decision (snd (eval_primary en ctx action rq)) = Allow ↔ primary_cleared en ctx action rq.
Proof.
  unfold evaluate_primary, primary_cleared.
  destruct (eval_schedule_stage _ _) as [r|] eqn:E1.
  { split; [by intros H%(schedule_stage_not_allow _ _ _ E1)|by intros [? _]]. }
  destruct (eval_network_stage _ _) as [r|] eqn:E2.
  { split; [by intros H%(network_stage_not_allow _ _ _ E2)|by intros (_ & ? & _)]. }
  destruct (pd_capabilities _ ≫= _) as [r|] eqn:E3.
  { split; [by intros H%(bind_guard_denies _ _ _ E3)|by intros (_ & _ & ? & _)]. }
  destruct (tool_stages_keep en (en_policy en) ctx action rq) as (Hb & Hl & Hc).
  pose proof (tool_stages_not_allow en (en_policy en) ctx action rq) as Ht.
  destruct (eval_tool_stages en (en_policy en) ctx action rq) as [en' [r|]]; simpl in *.
  { split; [by intros H%(Ht r eq_refl)|by intros (_ & _ & _ & ? & _)]. }
  destruct (document_locale_packs _) as [packs|e]; [|split; [done|by intros (_ & _ & _ & _ & (? & ? & _) & _)]].
  rewrite Hc.
  destruct (run_detection_total (action_scan_text action) (primary_passes en packs)) as [[[f k] only] Hd].
  pose proof (run_detection_nothing _ _ _ _ _ Hd) as Hn. unfold primary_passes in Hd.
  rewrite Hd, primary_tail_allow, (budget_open_congr en en') by done. split.
  - intros [Hs Hbud]. repeat split; try done. exists packs. split; [done|]. intros Hk. by apply Hn, Hs.
  - intros (_ & _ & _ & _ & (packs' & [= <-] & Hs) & Hbud). split; [|done]. intros Hk. by apply Hn, Hs.
Qed.

(** ** One document, two pipelines *)

Lemma schedule_stages_agree doc now : eval_schedule_stage doc now = None ↔ stage_schedule_at doc now = None.
Proof.
  unfold eval_schedule_stage, stage_schedule_at. destruct (pd_schedule doc ≫= sp_active_hours) as [ah|]; [|done].
  destruct (tz_parse (ah_timezone ah)) as [zone|]; [|done].
  destruct (local_hour_minute zone now). by destruct (str_ltb _ _ || _).
Qed.

Lemma network_stages_agree doc action : eval_network_stage doc action = None ↔ stage_network doc action = None.
Proof.
  unfold eval_network_stage, stage_network. destruct action; try done. destruct (pd_network doc); [|done]. by destruct (negb _).
Qed.

Lemma capability_stages_agree doc action :
  (pd_capabilities doc ≫= λ caps, capability_guard caps action) = None ↔ stage_capability doc action = None.
Proof.
  unfold stage_capability, capability_guard. destruct (pd_capabilities doc); [|done]. simpl.
  destruct (action_to_capability action); [|done]. destruct (capability_is_denied _ _); [done|]. by destruct (_ && _).
Qed.

Lemma guard_permits caps action :
  capability_guard caps action = None ↔ ∀ cap, action_to_capability action = Some cap → permits caps cap = true.
Proof.
  unfold capability_guard. destruct (action_to_capability action) as [cap|]; [|done].
  trans (permits caps cap = true); [|by split; [intros H ? [= <-]|intros H; apply H]]. unfold permits.
  destruct (capability_is_denied (cs_deny caps) cap), (allow_is_restricted caps), (set_contains (cs_allow caps) cap); done.
Qed.

Lemma collapsed_permits_nothing caps cap : collapsed caps = true → permits caps cap = false.
Proof.
  unfold collapsed, permits, allow_is_restricted, set_is_empty, set_contains. intros [-> He%bool_decide_eq_true]%andb_true_iff.
  rewrite He. rewrite (bool_decide_false (cap ∈ ∅)) by apply not_elem_of_empty. by rewrite andb_false_r.
Qed.

Lemma permits_default cap : permits capability_set_default cap = true.
Proof. by destruct cap. Qed.

(** A single document's own guard implies the guard over the merge of it alone. *)
Lemma single_guard doc action :
  (pd_capabilities doc ≫= λ caps, capability_guard caps action) = None → cascade_capability_guard [doc] action = None.
Proof.
  unfold cascade_capability_guard, collect_merged_capabilities. simpl. destruct (pd_capabilities doc) as [caps|]; simpl.
  - rewrite !guard_permits. intros H cap Hc. specialize (H cap Hc).
    destruct (collapsed caps) eqn:Ek; [by rewrite collapsed_permits_nothing in H|].
    by rewrite merge_permits_step, permits_default, H.
  - intros _. apply guard_permits. intros cap _. apply permits_default.
Qed.

Lemma verdict_allow_stages doc ctx action pc :
  doc_verdict ctx action pc doc = PD.Allow ↔
  stage_network doc action = None ∧ stage_tool_allow doc action = None ∧ stage_capability doc action = None ∧
  fst (stage_approval doc ctx action pc) = None.
Proof.
  unfold doc_verdict, evaluate_single_doc.
  destruct (stage_network doc action) as [d|] eqn:E1.
  { split; [|by intros [? _]]. simpl. intros ->. unfold stage_network in E1. destruct action; try done.
    destruct (pd_network doc); [|done]. by destruct (negb _). }
  destruct (stage_tool_allow doc action) as [d|] eqn:E2.
  { split; [|by intros (_ & ? & _)]. simpl. intros ->. unfold stage_tool_allow in E2. destruct action; try done.
    destruct (tool_policy_for _ _); [|done]. by destruct (negb _). }
  destruct (stage_capability doc action) as [d|] eqn:E3.
  { split; [|by intros (_ & _ & ? & _)]. simpl. intros ->. unfold stage_capability in E3.
    destruct (pd_capabilities doc), (action_to_capability action); try done.
    destruct (capability_is_denied _ _); [done|]. by destruct (_ && _). }
  split; [|intros (_ & _ & _ & H); by destruct (stage_approval doc ctx action pc) as [o r]; simpl in *; subst].
  intros H. repeat split. unfold stage_approval in *. destruct action; try done.
  all: destruct (approval_condition_met _ _ _ _) as [[] fs]; done.
Qed.

Lemma approval_agrees en policy tp ctx action rq :
  snd (eval_approval_condition en policy tp ctx action rq) = None ↔
  fst (approval_condition_met tp ctx action (engine_context en ctx rq)) = false.
Proof.
  unfold eval_approval_condition, approval_condition_met. destruct (tp ≫= _); [|done]. destruct (Text.is_empty _); [done|].
  by destruct (evaluate_clause _ _ _ _ _) as [[] fs].
Qed.

Lemma tool_stages_agree en doc ctx action rq :
  snd (eval_tool_stages en doc ctx action rq) = None ↔
  stage_tool_allow doc action = None ∧ snd (cascade_rate_limit en [doc] ctx action rq) = None ∧
  fst (stage_approval doc ctx action (engine_context en ctx rq)) = None.
Proof.
  assert (∀ A (e : E bool) (v : A), fst (let* met := e in w_ret (if met then Some v else None)) = None ↔ fst e = false) as Hw.
  { intros A [[] fs] v; done. }
  destruct action; try done; unfold eval_tool_stages, stage_tool_allow, cascade_rate_limit, stage_approval.
  - rewrite Hw. unfold eval_toolcall_stages. simpl.
    destruct (tool_policy_for (pd_tools doc) name) as [tp|]; simpl; [|by repeat split].
    destruct (tp_allow tp); simpl; [|by split; [|intros [? _]]].
    destruct (tp_limit_per_hour tp) as [limit|]; simpl; [|rewrite approval_agrees; tauto].
    unfold try_consume_rate. destruct (try_consume_with_limit _ _ _) as [b []]; simpl; [|by split; [|intros (_ & ? & _)]].
    rewrite approval_agrees. tauto.
  - rewrite Hw, approval_agrees. tauto.
Qed.

Lemma elem_of_add_packs packs found p : p ∈ foldl add_pack packs found ↔ p ∈ packs ∨ p ∈ found.
Proof.
  revert packs. induction found as [|q l IH]; intros packs; simpl; [rewrite elem_of_nil; tauto|].
  rewrite IH. unfold add_pack. rewrite elem_of_cons. destruct (decide (q ∈ packs)) as [Hq|_].
  { split; [tauto|]. intros [?|[->|?]]; tauto. }
  rewrite elem_of_app, list_elem_of_singleton. tauto.
Qed.

Lemma single_cascade_budget en doc agent now :
  snd (check_cascade_budget dec_of_f64 en [doc] agent now None [] []) = None ↔ budget_open en doc agent now.
Proof.
  simpl. unfold budget_open. destruct (pd_budget doc) as [bp|]; [|done].
  destruct (budget_exceeded_reason dec_of_f64 en bp agent now) as [en' o] eqn:E. split.
  - intros H bp' [= <-]. rewrite E. by destruct o.
  - intros H. specialize (H bp eq_refl). rewrite E in H. simpl in H. by subst.
Qed.

Lemma single_credential_action doc : cascade_credential_action [doc] = credential_action_of doc.
Proof. unfold cascade_credential_action, credential_action_of. simpl. by destruct (pd_data doc). Qed.

Lemma regex_passes_agree en doc text :
  ca_compiled_patterns (en_cascade en) = omap regex_new (document_patterns doc) →
  contribution (CascadeRegexPass [doc]) text = contribution (CompiledRegexPass (ca_compiled_patterns (en_cascade en))) text.
Proof. intros ->. simpl. by rewrite app_nil_r. Qed.

Lemma packs_agree en doc packs text :
  ca_compiled_patterns (en_cascade en) = omap regex_new (document_patterns doc) →
  detects_nothing (cascade_passes [doc] (foldl add_pack [] packs)) text ↔ detects_nothing (primary_passes en packs) text.
Proof.
  intros Hp. unfold detects_nothing, cascade_passes, primary_passes.
  pose proof (regex_passes_agree en doc text Hp) as Hr.
  split; intros H p [->|[->|(q & -> & Hq)%list_elem_of_fmap]%elem_of_cons]%elem_of_cons.
  - apply H. left.
  - rewrite <- Hr. apply H. right. left.
  - apply H. do 2 right. apply list_elem_of_fmap. exists q. split; [done|]. apply elem_of_add_packs. by right.
  - apply H. left.
  - rewrite Hr. apply H. right. left.
  - apply H. do 2 right. apply list_elem_of_fmap. exists q. split; [done|].
    by apply elem_of_add_packs in Hq as [?%elem_of_nil|?].
Qed.

Lemma single_locale_packs en doc text :
  ca_compiled_patterns (en_cascade en) = omap regex_new (document_patterns doc) →
  (∃ packs, cascade_locale_packs [doc] = Ok packs ∧
     (credential_action_of doc = Block → detects_nothing (cascade_passes [doc] packs) text)) ↔
  (∃ packs, document_locale_packs (pd_data doc) = Ok packs ∧
     (credential_action_of doc = Block → detects_nothing (primary_passes en packs) text)).
Proof.
  intros Hp. unfold cascade_locale_packs. simpl. destruct (document_locale_packs (pd_data doc)) as [found|e]; simpl.
  - split; intros (packs & [= <-] & H); eexists; (split; [done|]); intros Hb; by apply (packs_agree en doc), H.
  - split; by intros (? & ? & _).
Qed.

(** A cascade of one document and the single-document
    pipeline over the same document allow the same requests, although they run their
    stages in a different order. *)
Theorem single_document_agrees en ctx action rq :
  ca_compiled_patterns (en_cascade en) = omap regex_new (document_patterns (en_policy en)) →
  cache_unused en [en_policy en] (key_of en ctx action) rq →
  er_decision (snd (eval_cascade en [en_policy en] ctx action rq)) = Allow ↔
  er_decision (snd (eval_primary en ctx action rq)) = Allow.
Proof.
  intros Hp Hu. rewrite cascade_stages_allow, resolve_fresh, fresh_verdict_allow, primary_stages_allow by done.
  unfold cascade_cleared, primary_cleared. generalize dependent (en_policy en). intros doc Hp Hu.
  rewrite schedule_stages_agree, network_stages_agree, tool_stages_agree, single_cascade_budget,
    single_credential_action, (single_locale_packs en) by done.
  rewrite Forall_singleton, verdict_allow_stages, capability_stages_agree.
  pose proof (single_guard doc action) as Hg. rewrite capability_stages_agree in Hg.
  assert ((∀ d, d ∈ [doc] → stage_schedule_at d (rq_schedule_now rq) = None) ↔
          stage_schedule_at doc (rq_schedule_now rq) = None) as ->.
  { split; [intros H; apply H; left|]. by intros H d ->%list_elem_of_singleton. }
  assert ([doc] ≠ []) by done. tauto.
Qed.

(** ** The decision cache *)

Lemma rate_same_cache en cascade ctx action rq : same_cache en (fst (cascade_rate_limit en cascade ctx action rq)).
Proof.
  unfold cascade_rate_limit, try_consume_rate. destruct action; try framed. destruct (min_limit _); [|framed].
  destruct (try_consume_with_limit _ _ _); framed.
Qed.

Lemma budget_same_cache en bp agent now : same_cache en (fst (budget_exceeded_reason dec_of_f64 en bp agent now)).
Proof.
  unfold budget_exceeded_reason.
  destruct (bp_monthly_limit_usd bp ≫= dec_of_f64); [destruct (check_monthly _ _ _ _ _) as [? []]|];
    destruct (bp_daily_limit_usd bp ≫= dec_of_f64); simpl; try framed; destruct (check_daily _ _ _ _ _);
    framed.
Qed.

Lemma cascade_budget_same_cache en cascade agent now r f k :
  same_cache en (fst (check_cascade_budget dec_of_f64 en cascade agent now r f k)).
Proof.
  revert en. induction cascade as [|doc rest IH]; intros en; simpl; [framed|].
  destruct (pd_budget doc) as [bp|]; [|apply IH]. pose proof (budget_same_cache en bp agent now) as H.
  destruct (budget_exceeded_reason _ _ _ _ _) as [en' []]; [done|]. by etrans.
Qed.

Lemma tool_stages_same_cache en policy ctx action rq : same_cache en (fst (eval_tool_stages en policy ctx action rq)).
Proof.
  assert (∀ en tp, same_cache en (fst (eval_approval_condition en policy tp ctx action rq))) as Ha.
  { intros en' tp. unfold eval_approval_condition. destruct (tp ≫= _); [|framed].
    destruct (Text.is_empty _); [framed|]. destruct (evaluate_clause _ _ _ _ _) as [[] fs]; framed. }
  unfold eval_tool_stages. destruct action; try framed.
  unfold eval_toolcall_stages, try_consume_rate.
  destruct (match tool_policy_for _ _ with Some _ => _ | None => _ end); [framed|].
  destruct (tool_policy_for _ _ ≫= tp_limit_per_hour); [|apply Ha].
  destruct (try_consume_with_limit _ _ _) as [b []]; [apply (Ha (set_rate en _))|framed].
Qed.

Lemma primary_same_cache en ctx action rq : same_cache en (fst (eval_primary en ctx action rq)).
Proof.
  unfold evaluate_primary. destruct (eval_schedule_stage _ _); [framed|].
  destruct (eval_network_stage _ _); [framed|]. destruct (pd_capabilities _ ≫= _); [framed|].
  pose proof (tool_stages_same_cache en (en_policy en) ctx action rq) as Ht.
  destruct (eval_tool_stages _ _ _ _ _) as [en' []]; [done|]. destruct (document_locale_packs _); [|done].
  destruct (run_detection _ _) as [[[f k] only]|]; [|done]. unfold primary_tail.
  destruct (apply_credential_scan _ _ _ _ _); [done|]. destruct (pd_budget _) as [bp|]; [|done].
  pose proof (budget_same_cache en' bp (ac_agent_id ctx) (rq_budget_now rq)) as Hb.
  destruct (budget_exceeded_reason _ _ _ _ _) as [en2 []]; by etrans.
Qed.

(** The cascade pipeline changes the cache where it resolves the verdict, and only there. *)
Lemma cascade_same_cache en cascade ctx action rq :
  let resolved := fst (resolve_merge_verdict content_digest en cascade ctx action (key_of en ctx action)
                         (engine_context en ctx rq) rq) in
  let en' := fst (eval_cascade en cascade ctx action rq) in
  same_cache en en' ∨ same_cache resolved en'.
Proof.
  unfold evaluate_with_cascade.
  destruct (evaluate_schedule_cascade cascade (rq_schedule_now rq)) as [d|] eqn:Es.
  { destruct (schedule_cascade_denies _ _ _ Es) as (reason & scope & ->). left. framed. }
  destruct (resolve_merge_verdict _ _ _ _ _ _ _ _) as [en1 verdict]. simpl. right.
  destruct (fst verdict); try framed.
  all: destruct (cascade_capability_guard cascade action); [framed|];
    pose proof (rate_same_cache en1 cascade ctx action rq) as Hr;
    destruct (cascade_rate_limit en1 cascade ctx action rq) as [en2 []]; [done|];
    destruct (cascade_locale_packs cascade); [|done];
    destruct (run_detection _ _) as [[[f k] only]|]; [|done]; unfold cascade_tail;
    destruct (apply_credential_scan _ _ _ _ _) as [|r0 f0 k0]; [done|];
    pose proof (cascade_budget_same_cache en2 cascade (ac_agent_id ctx) (rq_budget_now rq) r0 f0 k0) as Hb;
    destruct (check_cascade_budget _ _ _ _ _ _ _ _) as [en3 []]; by etrans.
Qed.

(** The result of the pipeline depends on the verdict, not on where it came from. *)
Lemma cascade_budget_result en en' cascade agent now r f k :
  en_budget en' = en_budget en → en_ledger en' = en_ledger en →
  snd (check_cascade_budget dec_of_f64 en' cascade agent now r f k) =
  snd (check_cascade_budget dec_of_f64 en cascade agent now r f k).
Proof.
  revert en en'. induction cascade as [|doc rest IH]; intros en en' Hb Hl; simpl; [done|].
  destruct (pd_budget doc) as [bp|]; [|by apply IH].
  destruct (budget_reason_congr en en' bp agent now Hb Hl) as (Hr & Hb' & Hl').
  destruct (budget_exceeded_reason dec_of_f64 en' bp agent now) as [en1' o'],
    (budget_exceeded_reason dec_of_f64 en bp agent now) as [en1 o]. simpl in *. subst o'.
  destruct o; simpl; [done|]. by apply IH.
Qed.

Lemma cascade_tail_result en en' cascade ctx action rq verdict d :
  en_budget en' = en_budget en → en_ledger en' = en_ledger en →
  snd (cascade_tail dec_of_f64 en' cascade ctx action rq verdict d) =
  snd (cascade_tail dec_of_f64 en cascade ctx action rq verdict d).
Proof.
  intros Hb Hl. destruct d as [[f k] only]. unfold cascade_tail. destruct (apply_credential_scan _ _ _ _ _) as [|r f' k']; [done|].
  pose proof (cascade_budget_result en en' cascade (ac_agent_id ctx) (rq_budget_now rq) r f' k' Hb Hl) as H.
  destruct (check_cascade_budget dec_of_f64 en' _ _ _ _ _ _) as [? o'], (check_cascade_budget dec_of_f64 en _ _ _ _ _ _) as [? o].
  simpl in H. subst o'. by destruct o.
Qed.

Lemma cascade_result en en' cascade ctx action rq :
  same_core en en' →
  snd (resolve_merge_verdict content_digest en' cascade ctx action (key_of en' ctx action) (engine_context en' ctx rq) rq) =
  snd (resolve_merge_verdict content_digest en cascade ctx action (key_of en ctx action) (engine_context en ctx rq) rq) →
  snd (eval_cascade en' cascade ctx action rq) = snd (eval_cascade en cascade ctx action rq).
Proof.
  intros Hc Hv. unfold evaluate_with_cascade. destruct (evaluate_schedule_cascade cascade (rq_schedule_now rq)) as [d|] eqn:Es.
  { by destruct (schedule_cascade_denies _ _ _ Es) as (reason & scope & ->). }
  pose proof (resolve_same_core en' cascade ctx action (key_of en' ctx action) (engine_context en' ctx rq) rq) as Hc'.
  pose proof (resolve_same_core en cascade ctx action (key_of en ctx action) (engine_context en ctx rq) rq) as Hc1.
  destruct (resolve_merge_verdict _ en' _ _ _ _ _ _) as [en1' v'], (resolve_merge_verdict _ en _ _ _ _ _ _) as [en1 v].
  simpl in *. subst v'. assert (same_core en1 en1') as Hs.
  { unfold same_core in *. intuition congruence. }
  destruct (fst v); try done; (destruct (cascade_capability_guard cascade action); [done|]).
  all: pose proof (rate_limit_same_core en1 en1' cascade ctx action rq Hs) as Hr;
    pose proof (rate_limit_keeps en1 cascade ctx action rq) as [Hb1 Hl1];
    pose proof (rate_limit_keeps en1' cascade ctx action rq) as [Hb1' Hl1']; destruct Hs as (_ & Hb & Hl & _);
    destruct (cascade_rate_limit en1' cascade ctx action rq) as [en2' o'], (cascade_rate_limit en1 cascade ctx action rq)
      as [en2 o]; simpl in *; subst o'; destruct o; [done|];
    destruct (cascade_locale_packs cascade); [|done]; destruct (run_detection _ _) as [d|]; [|done];
    apply cascade_tail_result; congruence.
Qed.

Lemma tool_stages_result en en' policy ctx action rq :
  same_core en en' →
  snd (eval_tool_stages en' policy ctx action rq) = snd (eval_tool_stages en policy ctx action rq).
Proof.
  intros (Hr & Hb & Hl & Hg & _).
  assert (∀ e1 e2 tp, engine_context e1 ctx rq = engine_context e2 ctx rq →
    snd (eval_approval_condition e1 policy tp ctx action rq) = snd (eval_approval_condition e2 policy tp ctx action rq)) as Ha.
  { intros e1 e2 tp He. unfold eval_approval_condition. rewrite He. destruct (tp ≫= _); [|done].
    destruct (Text.is_empty _); [done|]. by destruct (evaluate_clause _ _ _ _ _). }
  assert (engine_context en' ctx rq = engine_context en ctx rq) as He by (unfold engine_context; by rewrite Hb, Hl, Hg).
  unfold eval_tool_stages. destruct action; try done; [|by apply Ha].
  unfold eval_toolcall_stages, try_consume_rate, rate_scope, authoritative_tenancy. rewrite Hr, Hg.
  destruct (match tool_policy_for _ _ with Some _ => _ | None => _ end); [done|].
  destruct (tool_policy_for _ _ ≫= tp_limit_per_hour); [|by apply Ha].
  destruct (try_consume_with_limit _ _ _) as [b []]; [|done]. by apply (Ha (set_rate en' _) (set_rate en _)).
Qed.

Lemma primary_result en en' ctx action rq :
  same_core en en' → snd (eval_primary en' ctx action rq) = snd (eval_primary en ctx action rq).
Proof.
  intros Hc. pose proof (tool_stages_result en en' (en_policy en) ctx action rq Hc) as Ht.
  destruct Hc as (_ & Hb & Hl & _ & Hca & Hp). unfold evaluate_primary. rewrite Hp.
  destruct (eval_schedule_stage _ _); [done|]. destruct (eval_network_stage _ _); [done|].
  destruct (pd_capabilities _ ≫= _); [done|].
  destruct (tool_stages_keep en (en_policy en) ctx action rq) as (Hb1 & Hl1 & Hc1),
    (tool_stages_keep en' (en_policy en) ctx action rq) as (Hb2 & Hl2 & Hc2).
  destruct (eval_tool_stages en' _ _ _ _) as [e2 o'], (eval_tool_stages en _ _ _ _) as [e1 o]. simpl in *. subst o'.
  destruct o; [done|]. destruct (document_locale_packs _); [|done]. rewrite Hc2, Hca, Hc1.
  destruct (run_detection _ _) as [[[f k] only]|]; [|done]. unfold primary_tail.
  destruct (apply_credential_scan _ _ _ _ _); [done|]. destruct (pd_budget _) as [bp|]; [|done].
  destruct (budget_reason_congr e1 e2 bp (ac_agent_id ctx) (rq_budget_now rq)) as [Hr _]; [congruence..|].
  destruct (budget_exceeded_reason _ e2 _ _ _) as [? o'], (budget_exceeded_reason _ e1 _ _ _) as [? o].
  simpl in Hr. subst o'. by destruct o.
Qed.

Definition registered en (agent : AgentId) : Prop :=
  ∃ reg r, en_registry en = Some reg ∧ get reg agent = Some r.

Lemma registered_cascade en ctx ctx' action :
  registered en (ac_agent_id ctx) → ac_agent_id ctx' = ac_agent_id ctx →
  request_cascade en ctx' action = request_cascade en ctx action.
Proof.
  intros (reg & r & Hreg & Hr) Ha. unfold request_cascade, authoritative_lineage, lineage. rewrite Ha, Hreg. simpl.
  by rewrite Hr.
Qed.

(** [level] is the governance level each agent is evaluated at, and [observed] the
    actions in play, on which the 64-bit action hash has no collision. *)
Context (level : AgentId → GovernanceLevel) (observed : GovernanceAction → Prop).

Definition request_ok en ctx action : Prop :=
  registered en (ac_agent_id ctx) ∧ ac_governance_level ctx = level (ac_agent_id ctx) ∧ observed action.

(** Every entry of the current epoch is what a fresh merge would return. *)
Definition cache_valid en : Prop :=
  ∀ ctx action v, request_ok en ctx action → en_cache en !! key_of en ctx action = Some v →
    cascade_has_live_context_approval (request_cascade en ctx action) = false →
    v = fresh_verdict (request_cascade en ctx action) ctx action None.

Lemma cold_cache_valid en : en_cache en = ∅ → cache_valid en.
Proof. intros He ctx action v _ Hv. by rewrite He, lookup_empty in Hv. Qed.

Lemma same_policies_request en en' ctx action :
  same_policies en en' →
  request_cascade en' ctx action = request_cascade en ctx action ∧ key_of en' ctx action = key_of en ctx action ∧
  (request_ok en' ctx action ↔ request_ok en ctx action).
Proof.
  intros (_ & Hc & Hr & He). split_and!.
  - unfold request_cascade, authoritative_lineage, collect_cascade_with_lineage, scope_policies. by rewrite Hc, Hr.
  - unfold cache_key. by rewrite He.
  - unfold request_ok, registered. by rewrite Hr.
Qed.

Lemma cache_valid_same en en' : same_cache en en' → cache_valid en → cache_valid en'.
Proof.
  intros [Hp Hc] Hv ctx action v Hok Hl Hlive. destruct (same_policies_request en en' ctx action Hp) as (Hr & Hk & Ho).
  rewrite Hr in *. rewrite Hc, Hk in Hl. apply Hv; [by apply Ho|done|done].
Qed.

Lemma fresh_not_live cascade ctx ctx' action pc pc' :
  cascade_has_live_context_approval cascade = false → ac_governance_level ctx' = ac_governance_level ctx →
  fresh_verdict cascade ctx' action pc' = fresh_verdict cascade ctx action pc.
Proof. intros. unfold fresh_verdict. by rewrite (merge_not_live cascade ctx ctx' action pc pc'). Qed.

Lemma resolve_keeps_policies en cascade ctx action key pc rq :
  same_policies en (fst (resolve_merge_verdict content_digest en cascade ctx action key pc rq)).
Proof.
  unfold resolve_merge_verdict.
  destruct (merge_decisions_attributed content_digest cascade ctx action pc) as [fresh failures].
  destruct (cascade_has_live_context_approval cascade); [by repeat split|].
  unfold cache_get. destruct (if rq_cache_holds rq then _ else _); by repeat split.
Qed.

(** The cache after resolving: as before, or with the fresh verdict at the key. *)
Lemma resolve_cache en cascade ctx action key pc rq :
  let en' := fst (resolve_merge_verdict content_digest en cascade ctx action key pc rq) in
  en_cache en' = en_cache en ∨
  cascade_has_live_context_approval cascade = false ∧
  en_cache en' = <[key := fresh_verdict cascade ctx action pc]> (en_cache en).
Proof.
  unfold resolve_merge_verdict, fresh_verdict.
  destruct (merge_decisions_attributed content_digest cascade ctx action pc) as [fresh failures].
  destruct (cascade_has_live_context_approval cascade); [by left|].
  unfold cache_get. destruct (if rq_cache_holds rq then _ else _); [by left|by right].
Qed.

Definition collision_free : Prop :=
  ∀ a b, observed a → observed b → action_discriminant a = action_discriminant b → a = b.

Lemma resolve_valid en ctx action rq :
  collision_free → request_ok en ctx action → cache_valid en →
  cache_valid (fst (resolve_merge_verdict content_digest en (request_cascade en ctx action) ctx action
                      (key_of en ctx action) (engine_context en ctx rq) rq)).
Proof.
  intros Hinj Hok Hv. set (cascade := request_cascade en ctx action).
  pose proof (resolve_keeps_policies en cascade ctx action (key_of en ctx action) (engine_context en ctx rq) rq) as Hp.
  destruct (resolve_cache en cascade ctx action (key_of en ctx action) (engine_context en ctx rq) rq) as [Hc|[Hlive Hc]].
  { apply (cache_valid_same en); [by split|done]. }
  set (en' := fst _) in *. intros ctx2 action2 v Hok2 Hl Hlive2.
  destruct (same_policies_request en en' ctx2 action2 Hp) as (Hr & Hk & Ho).
  apply Ho in Hok2. rewrite Hr in *. rewrite Hc, Hk, lookup_insert in Hl.
  destruct (decide (key_of en ctx action = key_of en ctx2 action2)) as [[= Ha Hh]|_]; [|by apply Hv].
  destruct Hok as (Hreg & Hg & Hobs), Hok2 as (Hreg2 & Hg2 & Hobs2).
  assert (action2 = action) as -> by (symmetry; by apply Hinj). injection Hl as <-.
  rewrite (registered_cascade en ctx ctx2) by done. apply fresh_not_live; [done|congruence].
Qed.

Lemma resolve_valid_verdict en ctx action rq :
  request_ok en ctx action → cache_valid en →
  snd (resolve_merge_verdict content_digest en (request_cascade en ctx action) ctx action
         (key_of en ctx action) (engine_context en ctx rq) rq) =
  fresh_verdict (request_cascade en ctx action) ctx action (engine_context en ctx rq).
Proof.
  intros Hok Hv. set (cascade := request_cascade en ctx action).
  destruct (cascade_has_live_context_approval cascade) eqn:Hlive; [by apply resolve_fresh; left|].
  destruct (rq_cache_holds rq) eqn:Hh; [|by apply resolve_fresh; right; left].
  destruct (en_cache en !! key_of en ctx action) as [v|] eqn:Hl; [|by apply resolve_fresh; right; right].
  rewrite (resolve_hit en cascade ctx action _ _ rq v), (Hv ctx action v Hok Hl Hlive) by done. by apply fresh_not_live.
Qed.

(** C9: for registered agents evaluated at a fixed level, and
    actions whose hashes do not collide, the decision cache is invisible: an
    evaluation keeps every cached verdict equal to what a fresh merge returns, and its
    result is the one of an engine with an empty cache. *)
Theorem cache_transparent en ctx action rq :
  collision_free → cache_valid en → request_ok en ctx action →
  cache_valid (fst (eval en ctx action rq)) ∧
  snd (eval en ctx action rq) = snd (eval (invalidate_all en) ctx action rq).
Proof.
  intros Hinj Hv Hok. unfold evaluate at 1 2. split.
  - pose proof (resolve_valid en ctx action rq Hinj Hok Hv) as Hr.
    destruct (request_cascade en ctx action) as [|d l] eqn:Ec.
    + by eapply cache_valid_same; [apply primary_same_cache|].
    + destruct (cascade_same_cache en (d :: l) ctx action rq) as [H|H]; by eapply cache_valid_same.
  - unfold evaluate. destruct (same_policies_request en (invalidate_all en) ctx action) as (-> & Hk & _); [by repeat split|].
    pose proof (resolve_valid_verdict en ctx action rq Hok Hv) as Hr.
    destruct (request_cascade en ctx action) as [|d l] eqn:Ec; [symmetry; by apply primary_result|]. symmetry.
    apply cascade_result; [by repeat split|]. rewrite Hr. apply resolve_fresh. by right; right.
Qed.

(** ** Loading and removing policies *)

(** Entries are written at the epoch of their evaluation. *)
Definition epochs_past en : Prop := ∀ k v, en_cache en !! k = Some v → ck_policy_epoch k ≤ en_policy_epoch en.

(** Loading a policy makes every cached verdict
    unreachable: the next evaluation of any request merges afresh. *)
Theorem load_policy_invalidates en doc ctx action rq cascade :
  epochs_past en → 0 ≤ en_policy_epoch en < 2 ^ 64 - 1 →
  let en' := fst (load_policy en doc) in
  snd (resolve_merge_verdict content_digest en' cascade ctx action (key_of en' ctx action) (engine_context en' ctx rq) rq) =
  fresh_verdict cascade ctx action (engine_context en' ctx rq).
Proof.
  intros Hp He en'. apply resolve_fresh. right; right. unfold en', load_policy.
  destruct (ScopeIndex.insert _ doc) as [ix id]. simpl.
  destruct (en_cache en !! _) as [v|] eqn:Hl; [|done]. exfalso. apply Hp in Hl. simpl in Hl.
  unfold wrap64 in Hl. rewrite Z.mod_small in Hl by lia. lia.
Qed.

(** Removing a policy leaves the epoch as it is, so a
    denial cached before the removal is still the result of the request, whatever the
    remaining documents say of it. *)
Theorem removed_policy_still_denies en id doc ctx action rq reason scope digest :
  snd (remove_policy en id) = Some doc →
  en_cache en !! key_of en ctx action = Some (PD.Deny reason scope, digest) → rq_cache_holds rq = true →
  let en' := fst (remove_policy en id) in
  let cascade := request_cascade en' ctx action in
  cascade ≠ [] → cascade_has_live_context_approval cascade = false →
  evaluate_schedule_cascade cascade (rq_schedule_now rq) = None →
  er_decision (snd (eval en' ctx action rq)) = Deny reason.
Proof.
  intros Hr Hc Hh en' cascade Hne Hlive Hs.
  assert (en_cache en' !! key_of en' ctx action = Some (PD.Deny reason scope, digest)) as Hc'.
  { unfold en', remove_policy in *. destruct (ScopeIndex.remove _ id) as [ix removed]. simpl in Hr. by subst. }
  clearbody en'. unfold evaluate. fold cascade. clearbody cascade. destruct cascade as [|d l]; [done|].
  unfold evaluate_with_cascade. rewrite Hs.
  pose proof (resolve_hit en' (d :: l) ctx action _ (engine_context en' ctx rq) rq _ Hlive Hh Hc') as Hv.
  destruct (resolve_merge_verdict _ _ _ _ _ _ _ _) as [en1 verdict]. simpl in Hv. by subst.
Qed.

(** ** The suspension side effect *)

Definition budgets_deny_action cascade : option DA.DenyAction :=
  last (omap (λ doc, pd_budget doc ≫= budget_deny_action) cascade).

Lemma allow_carries_deny_action en cascade ctx action rq :
  er_decision (snd (eval_cascade en cascade ctx action rq)) = Allow →
  er_deny_action (snd (eval_cascade en cascade ctx action rq)) = budgets_deny_action cascade.
Proof.
  intros Ha. pose proof (proj1 (cascade_stages_allow en cascade ctx action rq) Ha)
    as [(Hs%schedule_cascade_none & Hg & Hr & (packs & Hp & _) & _) Hv]. revert Ha.
  unfold evaluate_with_cascade. rewrite Hs.
  pose proof (resolve_same_core en cascade ctx action (key_of en ctx action) (engine_context en ctx rq) rq) as Hc.
  destruct (resolve_merge_verdict _ _ _ _ _ _ _ _) as [en1 verdict]. simpl in *. rewrite Hv, Hg.
  rewrite <- (rate_limit_same_core en en1) in Hr by done.
  destruct (cascade_rate_limit en1 cascade ctx action rq) as [en2 o]. simpl in Hr. subst o. rewrite Hp.
  destruct (run_detection _ _) as [[[f k] only]|]; [|done]. unfold cascade_tail.
  destruct (apply_credential_scan _ _ _ _ _) as [r|r0 f0 k0] eqn:Eb; [by intros H%(scan_block_denies _ _ _ _ _ _ Eb)|].
  pose proof (cascade_budget_denies en2 cascade (ac_agent_id ctx) (rq_budget_now rq) r0 f0 k0) as Hd.
  destruct (check_cascade_budget _ _ _ _ _ _ _ _) as [en3 [res|]]; simpl; [by intros H%(Hd res eq_refl)|done].
Qed.

Lemma eval_cascade_registry en cascade ctx action rq :
  en_registry (fst (eval_cascade en cascade ctx action rq)) = en_registry en.
Proof.
  pose proof (resolve_same_core en cascade ctx action (key_of en ctx action) (engine_context en ctx rq) rq) as (_ & _ & _ & H & _).
  destruct (cascade_same_cache en cascade ctx action rq) as [[(_ & _ & -> & _) _]|[(_ & _ & -> & _) _]]; done.
Qed.

(** An agent whose request the cascade allows, under a
    policy whose budget says to suspend on exceed, is suspended for an exceeded budget
    although no budget is exceeded: the allowed result carries the deny action of the
    last budget, and the service acts on it whatever the decision. *)
Theorem allow_suspends_agent en cascade ctx action rq mode key :
  er_decision (snd (eval_cascade en cascade ctx action rq)) = Allow →
  budgets_deny_action cascade = Some DA.SuspendAgent → registered en key →
  let '(en', res) := eval_cascade en cascade ctx action rq in
  let res' := fst (transform_for_observe_mode res mode) in
  er_decision res' = Allow ∧
  ∃ reg r, en_registry (maybe_suspend_agent en' (Some key) (er_deny_action res')) = Some reg ∧
           get reg key = Some r ∧ ar_status r = Suspended Suspend.BudgetExceeded.
Proof.
  intros Ha Hd (reg & r & Hreg & Hr). pose proof (allow_carries_deny_action en cascade ctx action rq Ha) as Hx.
  pose proof (eval_cascade_registry en cascade ctx action rq) as Hg.
  destruct (eval_cascade en cascade ctx action rq) as [en' res]. simpl in *. rewrite Hreg in Hg. rewrite Hd in Hx.
  assert (fst (transform_for_observe_mode res mode) = res) as ->.
  { unfold transform_for_observe_mode. destruct (decide _); [|done]. by rewrite Ha. }
  split; [done|]. unfold maybe_suspend_agent. rewrite Hx, decide_True by done. rewrite Hg. simpl.
  unfold suspend_agent, get. simpl. unfold get in Hr. rewrite Hr. simpl.
  eexists _, (set_status r (Suspended Suspend.BudgetExceeded)). split; [done|]. split; [|done].
  unfold alter_agent. simpl. by rewrite lookup_alter_eq, Hr.
Qed.
End Props.

(** ** Witnesses *)

Section Witnesses.
(** A scanner that flags a payload starting with a key prefix, no regexes, no locale
    recognisers. *)
#[local] Instance plain_detectors : Detectors := {|
  scanner_scan text := if String.prefix "AKIA" text then [cf_new Kind.AwsAccessKey 0 4] else [];
  regex := string;
  regex_new pattern := Some pattern;
  find_iter _ _ := [];
  zh_tw_scan _ := [];
  security_version := "1.0";
|}.
#[local] Existing Instances text_json no_durations binary_uuid utc_only rational.

Definition whole_dollars (x : f64) : option dec := match x with SpecFloat.S754_finite _ _ _ => Some (dec_of_Z 1) | _ => None end.
Definition coarse_hash (action : GovernanceAction) : Z := match action with ToolCall _ _ => 1 | _ => 2 end.

Definition denied_bash : ToolPolicy :=
  {| tp_allow := false; tp_limit_per_hour := None; tp_requires_approval_if := None; tp_capabilities := None |}.
Definition deny_bash_doc : PolicyDocument := set_tools global_doc {[ "bash"%string := denied_bash ]}.

Definition sample_engine (docs : list PolicyDocument) : Engine := {|
  en_policy := global_doc; en_rate_state := ∅; en_budget := sample_config None; en_ledger := empty_ledger;
  en_cascade := {| ca_scope_index := foldl (λ ix doc, fst (ScopeIndex.insert ix doc)) ScopeIndex.new docs;
                   ca_compiled_patterns := [] |};
  en_registry := Some lineage_registry; en_policy_epoch := 0; en_cache := ∅; en_cache_hits := 0;
  en_cache_misses := 0; en_audit := [] |}.

Definition sample_request : Request :=
  {| rq_schedule_now := 0; rq_now_secs := 0; rq_instant := 0; rq_budget_now := 0; rq_cache_holds := true |}.

Lemma agent_registered docs : registered (sample_engine docs) 1%N.
Proof. eexists lineage_registry, _. split; [done|]. vm_compute. reflexivity. Qed.

Lemma forged_tenancy_ignored_witness :
  evaluate no_digest coarse_hash whole_dollars (sample_engine [global_doc])
    (apply_authoritative_tenancy (en_registry (sample_engine [global_doc])) "t2"
       (with_tenancy sample_agent L2Enforce (Some "victim"%string) {[ "org_id"%string := "other"%string ]}))
    (ToolCall "bash" "") sample_request =
  evaluate no_digest coarse_hash whole_dollars (sample_engine [global_doc])
    (apply_authoritative_tenancy (en_registry (sample_engine [global_doc])) "t2" sample_agent)
    (ToolCall "bash" "") sample_request.
Proof. by apply (forged_tenancy_ignored no_digest coarse_hash whole_dollars _ lineage_registry). Defined.

Abbreviation sample_eval := (evaluate no_digest coarse_hash whole_dollars).
Abbreviation sample_cascade := (evaluate_with_cascade no_digest coarse_hash whole_dollars).

Lemma single_document_agrees_witness :
  er_decision (snd (sample_cascade (sample_engine []) [global_doc] sample_agent (ToolCall "bash" "ls") sample_request)) =
  Allow.
Proof.
  apply (proj2 (single_document_agrees no_digest coarse_hash whole_dollars (sample_engine []) sample_agent
    (ToolCall "bash" "ls") sample_request eq_refl (or_intror (or_intror eq_refl)))).
  vm_compute. reflexivity.
Defined.

Definition only_bash (action : GovernanceAction) : Prop := action = ToolCall "bash" "".

Lemma sample_request_ok docs : request_ok (λ _, L2Enforce) only_bash (sample_engine docs) sample_agent (ToolCall "bash" "").
Proof. split_and!; [apply agent_registered|done|done]. Qed.

(** The engine after one evaluation, the cache filled. *)
Definition warm_engine : Engine :=
  fst (sample_eval (sample_engine [deny_bash_doc; global_doc]) sample_agent (ToolCall "bash" "") sample_request).

Lemma cache_transparent_witness :
  snd (sample_eval warm_engine sample_agent (ToolCall "bash" "") sample_request) =
  snd (sample_eval (invalidate_all warm_engine) sample_agent (ToolCall "bash" "") sample_request) ∧
  size (en_cache warm_engine) = 1%nat.
Proof.
  assert (collision_free coarse_hash only_bash) as Hc by (intros a b -> ->; done).
  split; [|vm_compute; reflexivity].
  apply (cache_transparent no_digest coarse_hash whole_dollars (λ _, L2Enforce) only_bash); [done| |].
  - apply (cache_transparent no_digest coarse_hash whole_dollars (λ _, L2Enforce) only_bash); [done| |apply sample_request_ok].
    by apply cold_cache_valid.
  - split_and!; [|done|done]. eexists lineage_registry, _. split; vm_compute; reflexivity.
Defined.

Lemma load_policy_invalidates_witness :
  let en' := fst (load_policy warm_engine global_doc) in
  snd (resolve_merge_verdict no_digest en' [global_doc] sample_agent (ToolCall "bash" "")
         (cache_key coarse_hash en' sample_agent (ToolCall "bash" "")) (engine_context en' sample_agent sample_request)
         sample_request) =
  fresh_verdict no_digest [global_doc] sample_agent (ToolCall "bash" "") (engine_context en' sample_agent sample_request).
Proof.
  apply (load_policy_invalidates no_digest coarse_hash); [|vm_compute; split; [discriminate|reflexivity]].
  assert (map_Forall (λ k _, ck_policy_epoch k ≤ en_policy_epoch warm_engine) (en_cache warm_engine)) as Hall.
  { eapply bool_decide_unpack. vm_compute. exact I. }
  exact Hall.
Defined.

(** The denying document is removed; a fresh merge allows the call. *)
Lemma removed_policy_still_denies_witness :
  er_decision (snd (sample_eval (fst (remove_policy warm_engine 0)) sample_agent (ToolCall "bash" "") sample_request)) =
    Deny "tool denied by policy" ∧
  er_decision (snd (sample_eval (invalidate_all (fst (remove_policy warm_engine 0))) sample_agent (ToolCall "bash" "")
    sample_request)) = Allow.
Proof.
  split; [|vm_compute; reflexivity].
  apply (removed_policy_still_denies no_digest coarse_hash whole_dollars warm_engine 0 deny_bash_doc sample_agent
           (ToolCall "bash" "") sample_request _ Scope.Global (Some "global"%string));
    try (vm_compute; reflexivity). vm_compute. discriminate.
Defined.

Definition suspend_budget : BudgetPolicy := {|
  bp_daily_limit_usd := Some (f64_of_Z 10); bp_monthly_limit_usd := None; bp_team_daily_limit_usd := None;
  bp_team_monthly_limit_usd := None; bp_org_daily_limit_usd := None; bp_org_monthly_limit_usd := None;
  bp_timezone := None; bp_action_on_exceed := Exceed.Suspend; bp_window := None |}.

Definition budget_doc : PolicyDocument := {|
  pd_name := None; pd_policy_version := None; pd_version := None; pd_scope := Scope.Global; pd_network := None;
  pd_schedule := None; pd_budget := Some suspend_budget; pd_data := None; pd_approval_timeout_secs := 300;
  pd_approval_policy := pd_approval_policy global_doc; pd_tools := ∅; pd_capabilities := None;
  pd_filesystem := None; pd_syscall_allowlist := None; pd_leases := pd_leases global_doc;
  pd_egress := pd_egress global_doc; pd_credentials := pd_credentials global_doc |}.

(** An agent that spent nothing of its ten dollars. *)
Lemma allow_suspends_agent_witness :
  let '(en', res) := sample_cascade (sample_engine []) [budget_doc] sample_agent (ToolCall "bash" "") sample_request in
  let res' := fst (transform_for_observe_mode res (Effective Enforce)) in
  er_decision res' = Allow ∧
  ∃ reg r, en_registry (maybe_suspend_agent en' (Some 1%N) (er_deny_action res')) = Some reg ∧
           get reg 1%N = Some r ∧ ar_status r = Suspended Suspend.BudgetExceeded.
Proof.
  apply allow_suspends_agent; [vm_compute; reflexivity|reflexivity|apply agent_registered].
Defined.
End Witnesses.
