(* ===== verification/Leases.v ===== *)
(** * Leases: capability leases and the specification they are checked against

    aa-isolation/src/spec.rs (identities, limits, scopes, requirements, the launch
    specification), capability.rs (the domains) and lease.rs (the lease, its validity
    and coverage, and the derivation of a child lease).

    A [SystemTime] is an integer; only its order is used.  A [LeaseId] is its string.
    Enums whose variants share names are modules named after the enum, so that
    [Denied.Wider] and [ScopeOrdering.Wider] read as in the source. *)

From stdpp Require Import base gmap strings list.
From Stdlib Require Import ZArith Lia Bool String.
From S2P Require Import Prelude.
From S2P Require Import Text.

Open Scope Z_scope.
Open Scope aasm_scope.

(** ** Domains *)

Inductive CapabilityDomain :=
| FilesystemRead | FilesystemWrite | NetworkEgress | NameResolution | Syscall
| ProcessCreation | Ipc | Credential | Resource | WorkspaceTransaction.

#[export] Instance CapabilityDomain_eq_dec : EqDecision CapabilityDomain.
Proof. solve_decision. Defined.

Definition domain_ALL : list CapabilityDomain :=
  [FilesystemRead; FilesystemWrite; NetworkEgress; NameResolution; Syscall;
   ProcessCreation; Ipc; Credential; Resource; WorkspaceTransaction].

Definition domain_as_str (d : CapabilityDomain) : string :=
  match d with
  | FilesystemRead => "filesystem_read"
  | FilesystemWrite => "filesystem_write"
  | NetworkEgress => "network_egress"
  | NameResolution => "name_resolution"
  | Syscall => "syscall"
  | ProcessCreation => "process_creation"
  | Ipc => "ipc"
  | Credential => "credential"
  | Resource => "resource"
  | WorkspaceTransaction => "workspace_transaction"
  end.

Lemma domain_ALL_total d : d ∈ domain_ALL.
Proof. destruct d; apply (bool_decide_unpack _); vm_compute; exact I. Qed.

Lemma domain_as_str_inj d d' : domain_as_str d = domain_as_str d' → d = d'.
Proof. destruct d, d'; vm_compute; congruence. Qed.

(** ** Identities, limits, scopes *)

Record IdentityRef := {
  agent_id : string;
  team_id : option string;
  lineage : list string;
}.

#[export] Instance IdentityRef_eq_dec : EqDecision IdentityRef.
Proof. solve_decision. Defined.

Definition identity_root (a : string) : IdentityRef :=
  {| agent_id := a; team_id := None; lineage := [] |}.

Definition with_team (i : IdentityRef) (t : string) : IdentityRef :=
  {| agent_id := agent_id i; team_id := Some t; lineage := lineage i |}.

Definition with_ancestor (i : IdentityRef) (a : string) : IdentityRef :=
  {| agent_id := agent_id i; team_id := team_id i; lineage := lineage i ++ [a] |}.

Definition identity_depth (i : IdentityRef) : nat := List.length (lineage i).

Record ResourceLimits := {
  max_memory_bytes : option Z;
  max_cpu_seconds : option Z;
  max_pids : option Z;
  max_wall_clock_seconds : option Z;
  max_file_size_bytes : option Z;
  max_open_files : option Z;
}.

#[export] Instance ResourceLimits_eq_dec : EqDecision ResourceLimits.
Proof. solve_decision. Defined.

(** [ResourceLimits::default()]. *)
Definition no_limits : ResourceLimits :=
  {| max_memory_bytes := None; max_cpu_seconds := None; max_pids := None;
     max_wall_clock_seconds := None; max_file_size_bytes := None; max_open_files := None |}.

Definition limits_is_empty (l : ResourceLimits) : bool := bool_decide (l = no_limits).

Inductive RequirementScope :=
| Whole
| Selectors (s : list string)
| Limits (l : ResourceLimits).

#[export] Instance RequirementScope_eq_dec : EqDecision RequirementScope.
Proof. solve_decision. Defined.

(** ** Requirements and launch specifications *)

Module RequirementIntent.
Inductive t := PreventBeforeEffect | Observe.
#[global] Instance t_eq_dec : EqDecision t.
Proof. solve_decision. Defined.
End RequirementIntent.

Module RequirementPosture.
Inductive t := Required | Optional | DegradeIfUnavailable.
#[global] Instance t_eq_dec : EqDecision t.
Proof. solve_decision. Defined.
End RequirementPosture.

Definition refuses_on_failure (p : RequirementPosture.t) : bool :=
  bool_decide (p = RequirementPosture.Required).

Module DescendantRequirement.
Inductive t := ProcessTree | TargetProcessOnly.
#[global] Instance t_eq_dec : EqDecision t.
Proof. solve_decision. Defined.
End DescendantRequirement.

Record ControlRequirement := {
  cr_domain : CapabilityDomain;
  cr_intent : RequirementIntent.t;
  cr_posture : RequirementPosture.t;
  cr_descendants : DescendantRequirement.t;
  cr_scope : RequirementScope;
}.

#[export] Instance ControlRequirement_eq_dec : EqDecision ControlRequirement.
Proof. solve_decision. Defined.

Definition requirement_prevent (d : CapabilityDomain) : ControlRequirement :=
  {| cr_domain := d; cr_intent := RequirementIntent.PreventBeforeEffect;
     cr_posture := RequirementPosture.Required;
     cr_descendants := DescendantRequirement.ProcessTree; cr_scope := Whole |}.

Definition requirement_observe (d : CapabilityDomain) : ControlRequirement :=
  {| cr_domain := d; cr_intent := RequirementIntent.Observe;
     cr_posture := RequirementPosture.Required;
     cr_descendants := DescendantRequirement.ProcessTree; cr_scope := Whole |}.

Definition with_posture (r : ControlRequirement) (p : RequirementPosture.t) : ControlRequirement :=
  {| cr_domain := cr_domain r; cr_intent := cr_intent r; cr_posture := p;
     cr_descendants := cr_descendants r; cr_scope := cr_scope r |}.

Definition with_descendants (r : ControlRequirement) (d : DescendantRequirement.t) : ControlRequirement :=
  {| cr_domain := cr_domain r; cr_intent := cr_intent r; cr_posture := cr_posture r;
     cr_descendants := d; cr_scope := cr_scope r |}.

Definition with_scope (r : ControlRequirement) (s : RequirementScope) : ControlRequirement :=
  {| cr_domain := cr_domain r; cr_intent := cr_intent r; cr_posture := cr_posture r;
     cr_descendants := cr_descendants r; cr_scope := s |}.

Record CredentialPosture := {
  cp_removed : list string;
  cp_delegated : list string;
  cp_ambient_unremoved : list string;
}.

Definition no_credentials : CredentialPosture :=
  {| cp_removed := []; cp_delegated := []; cp_ambient_unremoved := [] |}.

Definition has_unremoved_ambient_authority (c : CredentialPosture) : bool :=
  match cp_ambient_unremoved c with [] => false | _ => true end.

(** ** Leases *)

Definition LEASE_SCHEMA_VERSION : Z := 1.

Abbreviation LeaseId := string (only parsing).

Inductive DelegationRule := NotDelegable | DelegableWithNarrowerScope.

#[export] Instance DelegationRule_eq_dec : EqDecision DelegationRule.
Proof. solve_decision. Defined.

Inductive RevocationState :=
| Active (generation : Z)
| Revoked (generation : Z) (reason : string).

#[export] Instance RevocationState_eq_dec : EqDecision RevocationState.
Proof. solve_decision. Defined.

Definition is_active (s : RevocationState) : bool :=
  match s with Active _ => true | Revoked _ _ => false end.

Record LeaseBasis := {
  issuer : IdentityRef;
  policy_rule : option string;
  approval_ref : option string;
  basis_reason : string;
}.

#[export] Instance LeaseBasis_eq_dec : EqDecision LeaseBasis.
Proof. solve_decision. Defined.

Definition basis_new (i : IdentityRef) (reason : string) : LeaseBasis :=
  {| issuer := i; policy_rule := None; approval_ref := None; basis_reason := reason |}.

Definition with_policy_rule (b : LeaseBasis) (r : string) : LeaseBasis :=
  {| issuer := issuer b; policy_rule := Some r; approval_ref := approval_ref b;
     basis_reason := basis_reason b |}.

Definition with_approval_ref (b : LeaseBasis) (r : string) : LeaseBasis :=
  {| issuer := issuer b; policy_rule := policy_rule b; approval_ref := Some r;
     basis_reason := basis_reason b |}.

Module LeaseInvalid.
Inductive t :=
| SchemaVersionMismatch (found expected : Z)
| NotYetValid (not_before : Z)
| Expired (expires_at : Z)
| Revoked (reason : string).
End LeaseInvalid.

Module Denied.
Inductive t :=
| NotDelegable
| Incomparable
| Wider
| ModeForbidsInheritance
| NotADerivation
| ModeRequiresEqualScope
| DelegationRightsExceedParent
| LimitsExceedParent (field : string)
| ParentRevoked
| DuplicateLeaseId
| AncestryUnverifiable
| ContentMismatch
| UntrustedIssuer.
End Denied.

Module InheritanceMode.
Inductive t := None | Same | Narrower | IndependentlyApproved.
#[global] Instance t_eq_dec : EqDecision t.
Proof. solve_decision. Defined.
End InheritanceMode.

Module ScopeOrdering.
Inductive t := Narrower | Equal | Wider | Incomparable.
#[global] Instance t_eq_dec : EqDecision t.
Proof. solve_decision. Defined.
End ScopeOrdering.

Record DelegationProvenance := {
  pv_parent_lease : LeaseId;
  pv_parent_subject : IdentityRef;
  pv_inheritance_mode : InheritanceMode.t;
  pv_parent_delegation : DelegationRule;
  pv_parent_generation : Z;
}.

#[export] Instance DelegationProvenance_eq_dec : EqDecision DelegationProvenance.
Proof. solve_decision. Defined.

Record ChildLeaseRequest := {
  rq_child_id : LeaseId;
  rq_child_subject : IdentityRef;
  rq_child_scope : RequirementScope;
  rq_child_expires_at : Z;
  rq_mode : InheritanceMode.t;
  rq_child_delegation : DelegationRule;
  rq_child_limits : option ResourceLimits;
}.

Record CapabilityLease := {
  l_id : LeaseId;
  l_schema_version : Z;
  l_subject : IdentityRef;
  l_domain : CapabilityDomain;
  l_scope : RequirementScope;
  l_issued_at : Z;
  l_not_before : Z;
  l_expires_at : Z;
  l_limits : option ResourceLimits;
  l_delegation : DelegationRule;
  l_revocation : RevocationState;
  l_basis : LeaseBasis;
  l_provenance : option DelegationProvenance;
}.

Record ExecutionSpec := {
  es_program : string;
  es_args : list string;
  es_working_dir : option string;
  es_identity : IdentityRef;
  es_requirements : list ControlRequirement;
  es_credentials : CredentialPosture;
  es_leases : list CapabilityLease;
}.

(** [Vec::dedup]: of equal neighbours the first is kept. *)
Fixpoint dedup (l : list string) : list string :=
  match l with
  | [] => []
  | x :: l' => match dedup l' with
               | y :: r => if String.eqb x y then y :: r else x :: y :: r
               | [] => [x]
               end
  end.

(** [CredentialPosture::contradictions]: the removed names another list claims, sorted
    and without duplicates. *)
Definition contradictions (c : CredentialPosture) : list string :=
  dedup (stable_sort (λ a b, negb (str_ltb b a))
    (filter (λ name, bool_decide (name ∈ cp_ambient_unremoved c) || bool_decide (name ∈ cp_delegated c) = true)
       (cp_removed c))).

Definition spec_new (program : string) (i : IdentityRef) : ExecutionSpec :=
  {| es_program := program; es_args := []; es_working_dir := None; es_identity := i;
     es_requirements := []; es_credentials := no_credentials; es_leases := [] |}.

Definition with_args (s : ExecutionSpec) (a : list string) : ExecutionSpec :=
  {| es_program := es_program s; es_args := a; es_working_dir := es_working_dir s;
     es_identity := es_identity s; es_requirements := es_requirements s;
     es_credentials := es_credentials s; es_leases := es_leases s |}.

Definition with_working_dir (s : ExecutionSpec) (d : string) : ExecutionSpec :=
  {| es_program := es_program s; es_args := es_args s; es_working_dir := Some d;
     es_identity := es_identity s; es_requirements := es_requirements s;
     es_credentials := es_credentials s; es_leases := es_leases s |}.

Definition with_requirement (s : ExecutionSpec) (r : ControlRequirement) : ExecutionSpec :=
  {| es_program := es_program s; es_args := es_args s; es_working_dir := es_working_dir s;
     es_identity := es_identity s; es_requirements := es_requirements s ++ [r];
     es_credentials := es_credentials s; es_leases := es_leases s |}.

Definition with_credentials (s : ExecutionSpec) (c : CredentialPosture) : ExecutionSpec :=
  {| es_program := es_program s; es_args := es_args s; es_working_dir := es_working_dir s;
     es_identity := es_identity s; es_requirements := es_requirements s;
     es_credentials := c; es_leases := es_leases s |}.

Definition with_lease (s : ExecutionSpec) (l : CapabilityLease) : ExecutionSpec :=
  {| es_program := es_program s; es_args := es_args s; es_working_dir := es_working_dir s;
     es_identity := es_identity s; es_requirements := es_requirements s;
     es_credentials := es_credentials s; es_leases := es_leases s ++ [l] |}.

Definition spec_required (s : ExecutionSpec) : list ControlRequirement :=
  filter (λ r, refuses_on_failure (cr_posture r) = true) (es_requirements s).

(** *** Construction *)

Definition lease_new (id : LeaseId) (subject : IdentityRef) (d : CapabilityDomain)
    (scope : RequirementScope) (issued_at expires_at : Z) (basis : LeaseBasis) : CapabilityLease :=
  {| l_id := id; l_schema_version := LEASE_SCHEMA_VERSION; l_subject := subject; l_domain := d;
     l_scope := scope; l_issued_at := issued_at; l_not_before := issued_at;
     l_expires_at := expires_at; l_limits := None; l_delegation := NotDelegable;
     l_revocation := Active 0; l_basis := basis; l_provenance := None |}.

(** The fields the [with_*] builders replace, all others kept. *)
Definition lease_update (l : CapabilityLease) (version not_before : Z) (limits : option ResourceLimits)
    (delegation : DelegationRule) (revocation : RevocationState)
    (provenance : option DelegationProvenance) : CapabilityLease :=
  {| l_id := l_id l; l_schema_version := version; l_subject := l_subject l;
     l_domain := l_domain l; l_scope := l_scope l; l_issued_at := l_issued_at l;
     l_not_before := not_before; l_expires_at := l_expires_at l; l_limits := limits;
     l_delegation := delegation; l_revocation := revocation; l_basis := l_basis l;
     l_provenance := provenance |}.

Definition with_schema_version (l : CapabilityLease) (v : Z) : CapabilityLease :=
  lease_update l v (l_not_before l) (l_limits l) (l_delegation l) (l_revocation l) (l_provenance l).

Definition with_not_before (l : CapabilityLease) (t : Z) : CapabilityLease :=
  lease_update l (l_schema_version l) t (l_limits l) (l_delegation l) (l_revocation l) (l_provenance l).

Definition with_limits (l : CapabilityLease) (r : ResourceLimits) : CapabilityLease :=
  lease_update l (l_schema_version l) (l_not_before l) (Some r) (l_delegation l) (l_revocation l)
    (l_provenance l).

Definition with_delegation (l : CapabilityLease) (d : DelegationRule) : CapabilityLease :=
  lease_update l (l_schema_version l) (l_not_before l) (l_limits l) d (l_revocation l) (l_provenance l).

Definition with_revocation (l : CapabilityLease) (r : RevocationState) : CapabilityLease :=
  lease_update l (l_schema_version l) (l_not_before l) (l_limits l) (l_delegation l) r (l_provenance l).

Definition with_provenance_generation (l : CapabilityLease) (g : Z) : CapabilityLease :=
  match l_provenance l with
  | None => l
  | Some p =>
      lease_update l (l_schema_version l) (l_not_before l) (l_limits l) (l_delegation l)
        (l_revocation l)
        (Some {| pv_parent_lease := pv_parent_lease p; pv_parent_subject := pv_parent_subject p;
                 pv_inheritance_mode := pv_inheritance_mode p;
                 pv_parent_delegation := pv_parent_delegation p; pv_parent_generation := g |})
  end.

(** Everything but the revocation state. *)
Definition same_content (a b : CapabilityLease) : bool :=
  bool_decide (l_id a = l_id b)
  && bool_decide (l_schema_version a = l_schema_version b)
  && bool_decide (l_subject a = l_subject b)
  && bool_decide (l_domain a = l_domain b)
  && bool_decide (l_scope a = l_scope b)
  && bool_decide (l_issued_at a = l_issued_at b)
  && bool_decide (l_not_before a = l_not_before b)
  && bool_decide (l_expires_at a = l_expires_at b)
  && bool_decide (l_limits a = l_limits b)
  && bool_decide (l_delegation a = l_delegation b)
  && bool_decide (l_basis a = l_basis b)
  && bool_decide (l_provenance a = l_provenance b).

(** *** Validity and coverage *)

Definition validate_at (l : CapabilityLease) (now : Z) : result unit LeaseInvalid.t :=
  if negb (l_schema_version l =? LEASE_SCHEMA_VERSION)
  then Err (LeaseInvalid.SchemaVersionMismatch (l_schema_version l) LEASE_SCHEMA_VERSION)
  else match l_revocation l with
       | Revoked _ reason => Err (LeaseInvalid.Revoked reason)
       | Active _ =>
           if now <? l_not_before l then Err (LeaseInvalid.NotYetValid (l_not_before l))
           else if l_expires_at l <=? now then Err (LeaseInvalid.Expired (l_expires_at l))
           else Ok tt
       end.

Definition field_covers (granted wanted : option Z) : bool :=
  match granted, wanted with
  | _, None => true
  | None, Some _ => false
  | Some g, Some w => w <=? g
  end.

Definition limits_cover (granted wanted : ResourceLimits) : bool :=
  field_covers (max_memory_bytes granted) (max_memory_bytes wanted)
  && field_covers (max_cpu_seconds granted) (max_cpu_seconds wanted)
  && field_covers (max_pids granted) (max_pids wanted)
  && field_covers (max_wall_clock_seconds granted) (max_wall_clock_seconds wanted)
  && field_covers (max_file_size_bytes granted) (max_file_size_bytes wanted)
  && field_covers (max_open_files granted) (max_open_files wanted).

Definition lease_covers (l : CapabilityLease) (requested : RequirementScope) : bool :=
  match l_scope l, requested with
  | Whole, Whole => true
  | Selectors granted, Selectors wanted => forallb (λ w, bool_decide (w ∈ granted)) wanted
  | Limits granted, Limits wanted => limits_cover granted wanted
  | _, _ => false
  end.

Definition field_narrower (parent child : option Z) : bool :=
  match parent, child with
  | None, _ => true
  | Some _, None => false
  | Some p, Some c => c <=? p
  end.

Definition limits_narrower_or_equal (parent child : ResourceLimits) : bool :=
  field_narrower (max_memory_bytes parent) (max_memory_bytes child)
  && field_narrower (max_cpu_seconds parent) (max_cpu_seconds child)
  && field_narrower (max_pids parent) (max_pids child)
  && field_narrower (max_wall_clock_seconds parent) (max_wall_clock_seconds child)
  && field_narrower (max_file_size_bytes parent) (max_file_size_bytes child)
  && field_narrower (max_open_files parent) (max_open_files child).

Definition field_exceeds (parent child : option Z) : bool :=
  match parent, child with
  | Some _, None => true
  | Some p, Some c => p <? c
  | None, _ => false
  end.

Definition first_exceeding_limit_field (parent child : ResourceLimits) : option string :=
  if field_exceeds (max_memory_bytes parent) (max_memory_bytes child)
  then Some "max_memory_bytes"%string
  else if field_exceeds (max_cpu_seconds parent) (max_cpu_seconds child)
  then Some "max_cpu_seconds"%string
  else if field_exceeds (max_pids parent) (max_pids child)
  then Some "max_pids"%string
  else if field_exceeds (max_wall_clock_seconds parent) (max_wall_clock_seconds child)
  then Some "max_wall_clock_seconds"%string
  else if field_exceeds (max_file_size_bytes parent) (max_file_size_bytes child)
  then Some "max_file_size_bytes"%string
  else if field_exceeds (max_open_files parent) (max_open_files child)
  then Some "max_open_files"%string
  else None.

Definition revocation_generation (s : RevocationState) : Z :=
  match s with Active g | Revoked g _ => g end.

(** *** Derivation

    The [ScopeOrder] trait: a comparator per domain, seen from the parent. *)

Class ScopeOrder := { compare : RequirementScope → RequirementScope → ScopeOrdering.t }.

Definition UndefinedScopeOrder : ScopeOrder := {| compare _ _ := ScopeOrdering.Incomparable |}.

Definition lease_derive_child (parent : CapabilityLease) (request : ChildLeaseRequest)
    (order : ScopeOrder) (issued_at : Z) : result CapabilityLease Denied.t :=
  if negb (bool_decide (l_delegation parent = DelegableWithNarrowerScope))
  then Err Denied.NotDelegable
  else if bool_decide (rq_mode request = InheritanceMode.None)
  then Err Denied.ModeForbidsInheritance
  else if bool_decide (rq_mode request = InheritanceMode.IndependentlyApproved)
  then Err Denied.NotADerivation
  else
    let? _ :=
      match compare (l_scope parent) (rq_child_scope request) with
      | ScopeOrdering.Wider => Err Denied.Wider
      | ScopeOrdering.Incomparable => Err Denied.Incomparable
      | ScopeOrdering.Equal => Ok tt
      | ScopeOrdering.Narrower =>
          if bool_decide (rq_mode request = InheritanceMode.Same)
          then Err Denied.ModeRequiresEqualScope else Ok tt
      end in
    if bool_decide (rq_child_delegation request = DelegableWithNarrowerScope)
       && negb (bool_decide (l_delegation parent = DelegableWithNarrowerScope))
    then Err Denied.DelegationRightsExceedParent
    else
      let? _ :=
        match rq_child_limits request with
        | None => Ok tt
        | Some child_limits =>
            let parent_limits := default no_limits (l_limits parent) in
            if limits_narrower_or_equal parent_limits child_limits then Ok tt
            else Err (Denied.LimitsExceedParent
                        (default "unknown"%string
                           (first_exceeding_limit_field parent_limits child_limits)))
        end in
      Ok {| l_id := rq_child_id request;
            l_schema_version := LEASE_SCHEMA_VERSION;
            l_subject := rq_child_subject request;
            l_domain := l_domain parent;
            l_scope := rq_child_scope request;
            l_issued_at := issued_at;
            l_not_before := Z.max issued_at (l_not_before parent);
            l_expires_at := Z.min (rq_child_expires_at request) (l_expires_at parent);
            l_limits := match rq_child_limits request with
                        | Some c => Some c
                        | None => l_limits parent
                        end;
            l_delegation := rq_child_delegation request;
            l_revocation := Active 0;
            l_basis := basis_new (issuer (l_basis parent))
              ("delegated from lease `" ++ l_id parent ++ "`: " ++ basis_reason (l_basis parent))%string;
            l_provenance := Some
              {| pv_parent_lease := l_id parent;
                 pv_parent_subject := l_subject parent;
                 pv_inheritance_mode := rq_mode request;
                 pv_parent_delegation := rq_child_delegation request;
                 pv_parent_generation := revocation_generation (l_revocation parent) |} |}.

(** ** Lemmas *)

(** What a lease says apart from its revocation state. *)
Definition content_eq (a b : CapabilityLease) : Prop :=
  with_revocation a (Active 0) = with_revocation b (Active 0).

Lemma same_content_spec a b : same_content a b = true ↔ content_eq a b.
Proof.
  unfold same_content, content_eq. rewrite !andb_true_iff, !bool_decide_eq_true.
  unfold with_revocation, lease_update. split.
  - intros H. destruct_and!. congruence.
  - intros H. injection H. intros. tauto.
Qed.

#[export] Instance content_eq_equivalence : Equivalence content_eq.
Proof. split; unfold content_eq; repeat intro; congruence. Qed.

(** The fields of two leases with the same content. *)
Lemma content_eq_fields a b :
  content_eq a b →
  l_id a = l_id b ∧ l_domain a = l_domain b ∧ l_scope a = l_scope b ∧
  l_not_before a = l_not_before b ∧ l_expires_at a = l_expires_at b ∧
  l_limits a = l_limits b ∧ l_delegation a = l_delegation b ∧ l_basis a = l_basis b ∧
  l_provenance a = l_provenance b ∧ l_subject a = l_subject b ∧
  l_schema_version a = l_schema_version b.
Proof. unfold content_eq, with_revocation, lease_update. intros H. injection H. tauto. Qed.

Lemma validate_at_Ok l now :
  validate_at l now = Ok tt ↔
  l_schema_version l = LEASE_SCHEMA_VERSION ∧ is_active (l_revocation l) = true ∧
  l_not_before l ≤ now < l_expires_at l.
Proof.
  unfold validate_at.
  destruct (Z.eqb_spec (l_schema_version l) LEASE_SCHEMA_VERSION); simpl; [|split; [done|tauto]].
  destruct (l_revocation l); simpl; [|by split; [|intros (_ & ? & _)]].
  destruct (Z.ltb_spec now (l_not_before l)); [split; [done|lia]|].
  destruct (Z.leb_spec (l_expires_at l) now); [split; [done|lia]|].
  split; [|done]. intros _. lia.
Qed.

Lemma field_narrower_refl f : field_narrower f f = true.
Proof. destruct f; simpl; [apply Z.leb_refl|done]. Qed.

Lemma field_narrower_trans f g h :
  field_narrower f g = true → field_narrower g h = true → field_narrower f h = true.
Proof. destruct f, g, h; simpl; try done. rewrite !Z.leb_le. lia. Qed.

Lemma field_exceeds_narrower p c : field_exceeds p c = negb (field_narrower p c).
Proof. destruct p, c; simpl; try done. by rewrite <- Z.ltb_antisym. Qed.

Lemma limits_narrower_refl l : limits_narrower_or_equal l l = true.
Proof. unfold limits_narrower_or_equal. by rewrite !field_narrower_refl. Qed.

Lemma limits_narrower_trans a b c :
  limits_narrower_or_equal a b = true → limits_narrower_or_equal b c = true →
  limits_narrower_or_equal a c = true.
Proof.
  unfold limits_narrower_or_equal. rewrite !andb_true_iff. intros H H'. destruct_and!.
  repeat split; eapply field_narrower_trans; eauto.
Qed.

(** The field named in the refusal is found exactly when the limits are not narrower,
    so the fallback name is never used. *)
Lemma first_exceeding_None p c :
  first_exceeding_limit_field p c = None ↔ limits_narrower_or_equal p c = true.
Proof.
  unfold first_exceeding_limit_field, limits_narrower_or_equal.
  rewrite !field_exceeds_narrower, !andb_true_iff.
  repeat match goal with |- context [negb ?b] => destruct b; simpl end; tauto || (split; intros; by destruct_and?).
Qed.

(** The child a derivation produces, field by field, and what had to hold. *)
Record derives (order : ScopeOrder) (now : Z) (parent : CapabilityLease)
    (request : ChildLeaseRequest) (child : CapabilityLease) : Prop := {
  dv_delegable : l_delegation parent = DelegableWithNarrowerScope;
  dv_mode : rq_mode request = InheritanceMode.Same ∨ rq_mode request = InheritanceMode.Narrower;
  dv_order : compare (l_scope parent) (rq_child_scope request) = ScopeOrdering.Equal ∨
             compare (l_scope parent) (rq_child_scope request) = ScopeOrdering.Narrower ∧
             rq_mode request = InheritanceMode.Narrower;
  dv_limits : limits_narrower_or_equal (default no_limits (l_limits parent))
                (default no_limits (l_limits child)) = true;
  dv_domain : l_domain child = l_domain parent;
  dv_id : l_id child = rq_child_id request;
  dv_scope : l_scope child = rq_child_scope request;
  dv_schema : l_schema_version child = LEASE_SCHEMA_VERSION;
  dv_subject : l_subject child = rq_child_subject request;
  dv_from : l_not_before child = Z.max now (l_not_before parent);
  dv_until : l_expires_at child = Z.min (rq_child_expires_at request) (l_expires_at parent);
  dv_state : l_revocation child = Active 0;
  dv_issuer : issuer (l_basis child) = issuer (l_basis parent);
  dv_unapproved : approval_ref (l_basis child) = None ∧ policy_rule (l_basis child) = None;
  dv_provenance : ∃ pv, l_provenance child = Some pv ∧ pv_parent_lease pv = l_id parent ∧
                        pv_parent_delegation pv = l_delegation child;
}.

Lemma lease_derive_child_Ok parent request order now child :
  lease_derive_child parent request order now = Ok child → derives order now parent request child.
Proof.
  unfold lease_derive_child, result_bind.
  case_bool_decide as Hd; simpl; [|done].
  case_bool_decide as H1; simpl; [done|]. case_bool_decide as H2; simpl; [done|].
  rewrite andb_false_r.
  destruct (compare (l_scope parent) (rq_child_scope request)) eqn:Hc; try done;
    [case_bool_decide as H3; [done|]|];
    (destruct (rq_child_limits request) as [cl|] eqn:Hl;
       [destruct (limits_narrower_or_equal _ cl) eqn:Hn; [|done]|]);
    intros [= <-]; split; simpl; eauto using limits_narrower_refl;
    try (destruct (rq_mode request); eauto; done).
Qed.
