(* ===== verification/ScopeOrder.v ===== *)
(** * ScopeOrder: when one lease scope is inside another

    aa-isolation/src/scope_order.rs, one comparator per domain family, with the selector
    grammar of lowering.rs it reads.  [admits] gives a scope its meaning in a domain
    through the matchers that enforce it; a comparator that answers narrower or equal is
    shown to compare those meanings. *)

From stdpp Require Import base gmap strings list sets.
From Stdlib Require Import ZArith Lia Bool Ascii String.
From S2P Require Import Prelude.
From S2P Require Import Text.
From S2P Require Import PathScope.
From S2P Require Import EgressHost.
From S2P Require Import Leases.

Open Scope Z_scope.

(** ** Selectors *)

Definition PERMIT_ONLY_SELECTOR : string := "permit-only:".

Definition permit_only_selector (name : string) : string := (PERMIT_ONLY_SELECTOR ++ name)%string.

Definition permitted_selector (selector : string) : option string :=
  strip_prefix selector PERMIT_ONLY_SELECTOR.

(** [map(permitted_selector).collect::<Option<Vec<_>>>()]. *)
Definition strip_permit_only (selectors : list string) : option (list string) :=
  mapM permitted_selector selectors.

(** ** Comparators *)

(** The shape the selector comparators share: what is whole, and a comparison of two
    selector lists. *)
Definition compare_scopes (selectors : list string → list string → ScopeOrdering.t)
    (parent child : RequirementScope) : ScopeOrdering.t :=
  match parent, child with
  | Whole, Whole => ScopeOrdering.Equal
  | Whole, Selectors _ => ScopeOrdering.Narrower
  | Selectors _, Whole => ScopeOrdering.Wider
  | Selectors p, Selectors c => selectors p c
  | _, _ => ScopeOrdering.Incomparable
  end.

Definition compare_path_selectors (parent child : list string) : ScopeOrdering.t :=
  match strip_permit_only parent, strip_permit_only child with
  | Some parent_raw, Some child_raw =>
      match from_paths parent_raw, from_paths child_raw with
      | Ok parent_scope, Ok child_scope =>
          if bool_decide (ps_paths parent_scope = ps_paths child_scope) then ScopeOrdering.Equal
          else if bool_decide (ps_paths (path_intersect parent_scope child_scope) = ps_paths child_scope)
          then ScopeOrdering.Narrower else ScopeOrdering.Wider
      | _, _ => ScopeOrdering.Incomparable
      end
  | _, _ => ScopeOrdering.Incomparable
  end.

Definition PathPrefixOrder : ScopeOrder := {| compare := compare_scopes compare_path_selectors |}.

Definition has_glob (s : string) : bool := negb (lacks "*" s) || negb (lacks "?" s).

Definition is_valid_host_pattern (pattern : string) : bool :=
  if String.eqb pattern "*" then true
  else match strip_prefix pattern "*." with
       | Some suffix => negb (is_empty suffix) && negb (has_glob suffix)
       | None => negb (has_glob pattern)
       end.

Definition host_pattern_covered (child parent : string) : bool :=
  if String.eqb child parent || String.eqb parent "*" then true
  else match strip_prefix parent "*." with
       | None => false
       | Some p_suffix =>
           match strip_prefix child "*." with
           | Some c_suffix =>
               negb (String.eqb c_suffix p_suffix) && ends_with c_suffix (String "." p_suffix)
           | None => is_host_allowed_by_egress_allowlist child [parent]
           end
       end.

Definition compare_host_selectors (parent child : list string) : ScopeOrdering.t :=
  match strip_permit_only parent, strip_permit_only child with
  | Some parent_patterns, Some child_patterns =>
      if negb (forallb is_valid_host_pattern (parent_patterns ++ child_patterns))
      then ScopeOrdering.Incomparable
      else if bool_decide (list_to_set (C := gset string) parent_patterns = list_to_set child_patterns)
      then ScopeOrdering.Equal
      else if forallb (λ c, existsb (host_pattern_covered c) parent_patterns) child_patterns
      then ScopeOrdering.Narrower else ScopeOrdering.Wider
  | _, _ => ScopeOrdering.Incomparable
  end.

Definition HostPatternOrder : ScopeOrder := {| compare := compare_scopes compare_host_selectors |}.

Definition compare_token_selectors (parent child : list string) : ScopeOrdering.t :=
  match strip_permit_only parent, strip_permit_only child with
  | Some parent_raw, Some child_raw =>
      let parent_set : gset string := list_to_set parent_raw in
      let child_set : gset string := list_to_set child_raw in
      if bool_decide (parent_set = child_set) then ScopeOrdering.Equal
      else if bool_decide (child_set ⊆ parent_set) then ScopeOrdering.Narrower
      else ScopeOrdering.Wider
  | _, _ => ScopeOrdering.Incomparable
  end.

Definition ExactTokenOrder : ScopeOrder := {| compare := compare_scopes compare_token_selectors |}.

Definition compare_limits (parent child : RequirementScope) : ScopeOrdering.t :=
  match parent, child with
  | Limits p, Limits c =>
      if bool_decide (p = c) then ScopeOrdering.Equal
      else if limits_narrower_or_equal p c then ScopeOrdering.Narrower
      else ScopeOrdering.Wider
  | _, _ => ScopeOrdering.Incomparable
  end.

Definition ResourceCeilingOrder : ScopeOrder := {| compare := compare_limits |}.

Definition order_for (d : CapabilityDomain) : ScopeOrder :=
  match d with
  | FilesystemRead | FilesystemWrite => PathPrefixOrder
  | NetworkEgress | NameResolution => HostPatternOrder
  | Syscall | Credential => ExactTokenOrder
  | Resource => ResourceCeilingOrder
  | ProcessCreation | Ipc | WorkspaceTransaction => UndefinedScopeOrder
  end.

(** ** What a scope admits

    An access names an item of the domain (a path, a host, a call name) or states the
    resources in use. *)

Record Usage := {
  used_memory_bytes : Z;
  used_cpu_seconds : Z;
  used_pids : Z;
  used_wall_clock_seconds : Z;
  used_file_size_bytes : Z;
  used_open_files : Z;
}.

Inductive Access := Item (name : string) | Use (u : Usage).

Definition within (limit : option Z) (used : Z) : bool :=
  match limit with None => true | Some m => used <=? m end.

Definition limits_admit (l : ResourceLimits) (u : Usage) : bool :=
  within (max_memory_bytes l) (used_memory_bytes u)
  && within (max_cpu_seconds l) (used_cpu_seconds u)
  && within (max_pids l) (used_pids u)
  && within (max_wall_clock_seconds l) (used_wall_clock_seconds u)
  && within (max_file_size_bytes l) (used_file_size_bytes u)
  && within (max_open_files l) (used_open_files u).

(** One permitted name against one item, by the matcher of the domain. *)
Definition name_admits (d : CapabilityDomain) (name item : string) : bool :=
  match d with
  | FilesystemRead | FilesystemWrite =>
      match normalize name, normalize item with
      | Ok p, Ok q => path_contains p q
      | _, _ => false
      end
  | NetworkEgress | NameResolution => egress_pattern_matches name (to_ascii_lowercase item)
  | _ => String.eqb name item
  end.

Definition selector_admits (d : CapabilityDomain) (item selector : string) : bool :=
  match permitted_selector selector with
  | Some name => name_admits d name item
  | None => false
  end.

Definition admits (d : CapabilityDomain) (s : RequirementScope) (a : Access) : bool :=
  match s, a with
  | Whole, _ => true
  | Selectors l, Item x => existsb (selector_admits d x) l
  | Limits l, Use u => limits_admit l u
  | _, _ => false
  end.

(** ** Lemmas *)

Lemma strip_permit_only_Some l names :
  strip_permit_only l = Some names →
  (∀ n, n ∈ names ↔ ∃ s, s ∈ l ∧ permitted_selector s = Some n).
Proof.
  unfold strip_permit_only. intros H%mapM_Some_1 n.
  rewrite !list_elem_of_lookup. split.
  - intros [i Hi]. destruct (Forall2_lookup_r _ _ _ _ _ H Hi) as (s & Hs & Hp).
    exists s. rewrite list_elem_of_lookup. eauto.
  - intros (s & [i Hi]%list_elem_of_lookup & Hp).
    destruct (Forall2_lookup_l _ _ _ _ _ H Hi) as (m & Hm & Hp'). exists i. congruence.
Qed.

(** A selector list admits what one of its permitted names admits. *)
Lemma selectors_admit d l names x :
  strip_permit_only l = Some names →
  existsb (selector_admits d x) l = existsb (λ n, name_admits d n x) names.
Proof.
  intros H. pose proof (strip_permit_only_Some _ _ H) as Hn. apply eq_true_iff_eq.
  rewrite !existsb_exists. setoid_rewrite <- list_elem_of_In. split.
  - intros (s & Hs & Ha). unfold selector_admits in Ha.
    destruct (permitted_selector s) as [n|] eqn:E; [|done]. exists n. split; [|done]. apply Hn. eauto.
  - intros (n & (s & Hs & Hp)%Hn & Ha). exists s. split; [done|]. unfold selector_admits. by rewrite Hp.
Qed.

Lemma is_path_domain_admits names s x d :
  d = FilesystemRead ∨ d = FilesystemWrite → from_paths names = Ok s →
  existsb (λ n, name_admits d n x) names = path_permits s x.
Proof.
  intros Hd Hs. apply eq_true_iff_eq. rewrite (from_paths_permits_lemma names s x Hs).
  rewrite existsb_exists. setoid_rewrite <- list_elem_of_In. split.
  - intros (n & Hn & Ha). destruct Hd as [-> | ->]; cbn [name_admits] in Ha;
      destruct (normalize n) as [p|] eqn:E; try done; destruct (normalize x) as [q|] eqn:E'; try done;
      by exists n, p, q.
  - intros (n & p & q & Hn & Hp & Hq & Hc). exists n. split; [done|].
    destruct Hd as [-> | ->]; cbn [name_admits]; by rewrite Hp, Hq.
Qed.

Definition no_wider (o : ScopeOrdering.t) : bool :=
  match o with ScopeOrdering.Narrower | ScopeOrdering.Equal => true | _ => false end.

(** One pattern inside another: every host the first matches, the second matches. *)
Lemma host_pattern_covered_sound child parent host :
  host_pattern_covered child parent = true →
  egress_pattern_matches child host = true → egress_pattern_matches parent host = true.
Proof.
  unfold host_pattern_covered.
  destruct (String.eqb_spec child parent) as [->|_]; [done|].
  destruct (String.eqb_spec parent "*") as [->|_]; [done|]. simpl.
  destruct (strip_prefix parent "*.") as [p|] eqn:Hp; [|done].
  apply strip_prefix_Some in Hp as ->.
  destruct (strip_prefix child "*.") as [c|] eqn:Hc.
  - apply strip_prefix_Some in Hc as ->. rewrite andb_true_iff, ends_with_true.
    intros [_ [u ->]] (Hplain & label & Hne & ->)%wildcard_matches. apply wildcard_matches.
    split; [done|]. exists (label ++ "." ++ to_ascii_lowercase u)%string.
    split; [by destruct label|]. by rewrite lower_append, !append_assoc.
  - intros Hm Hh. unfold egress_pattern_matches in Hh. unfold is_host_allowed_by_egress_allowlist in Hm.
    cbn [existsb] in Hm. rewrite orb_false_r in Hm.
    destruct (String.eqb_spec (to_ascii_lowercase child) "*") as [Hs|_].
    { rewrite Hs in Hm. apply wildcard_matches in Hm as [Hpl _]. by vm_compute in Hpl. }
    destruct (strip_prefix (to_ascii_lowercase child) "*.") as [r|] eqn:Hr.
    { apply strip_prefix_Some in Hr. rewrite Hr in Hm. apply wildcard_matches in Hm as [Hpl _].
      unfold is_plain_hostname in Hpl. rewrite str_forallb_app, andb_true_iff in Hpl.
      by destruct Hpl as [Hpl _]; vm_compute in Hpl. }
    apply String.eqb_eq in Hh as <-. done.
Qed.

Lemma compare_path_sound d p c x :
  d = FilesystemRead ∨ d = FilesystemWrite →
  no_wider (compare_path_selectors p c) = true →
  existsb (selector_admits d x) c = true → existsb (selector_admits d x) p = true.
Proof.
  intros Hd. unfold compare_path_selectors.
  destruct (strip_permit_only p) as [pr|] eqn:Hp; [|done].
  destruct (strip_permit_only c) as [cr|] eqn:Hc; [|done].
  destruct (from_paths pr) as [ps|] eqn:Hps; [|done].
  destruct (from_paths cr) as [cs|] eqn:Hcs; [|done].
  rewrite (selectors_admit _ _ _ _ Hp), (selectors_admit _ _ _ _ Hc).
  rewrite !(is_path_domain_admits _ _ x d Hd Hps), !(is_path_domain_admits _ _ x d Hd Hcs).
  case_bool_decide as He.
  { intros _. destruct ps, cs. simpl in He. by subst. }
  case_bool_decide as Hi; [|done]. intros _ Hperm.
  pose proof (intersect_permits ps cs x (from_paths_wf _ _ Hps) (from_paths_wf _ _ Hcs)) as Hip.
  assert (path_intersect ps cs = cs) as E.
  { destruct cs, (path_intersect ps _). simpl in Hi. by subst. }
  rewrite E, Hperm in Hip. by destruct (path_permits ps x).
Qed.

Lemma list_to_set_sub (l l' : list string) :
  list_to_set (C := gset string) l = list_to_set l' → ∀ x, x ∈ l' → x ∈ l.
Proof. intros H x. rewrite <- !(elem_of_list_to_set (C := gset string)). by rewrite H. Qed.

Lemma compare_host_sound d p c x :
  d = NetworkEgress ∨ d = NameResolution →
  no_wider (compare_host_selectors p c) = true →
  existsb (selector_admits d x) c = true → existsb (selector_admits d x) p = true.
Proof.
  intros Hd. unfold compare_host_selectors.
  destruct (strip_permit_only p) as [pr|] eqn:Hp; [|done].
  destruct (strip_permit_only c) as [cr|] eqn:Hc; [|done].
  rewrite (selectors_admit _ _ _ _ Hp), (selectors_admit _ _ _ _ Hc).
  destruct (negb _); [done|].
  rewrite !existsb_exists. setoid_rewrite <- list_elem_of_In.
  case_bool_decide as He.
  { intros _ (n & Hn & Ha). exists n. split; [|done]. by apply (list_to_set_sub _ _ He). }
  destruct (forallb _ cr) eqn:Hf; [|done]. intros _ (n & Hn & Ha).
  rewrite forallb_forall in Hf. apply list_elem_of_In in Hn. apply Hf in Hn.
  apply existsb_exists in Hn as (q & Hq%list_elem_of_In & Hcov). exists q. split; [done|].
  destruct Hd as [-> | ->]; cbn [name_admits] in *; eauto using host_pattern_covered_sound.
Qed.

Lemma compare_token_sound d p c x :
  no_wider (compare_token_selectors p c) = true →
  existsb (selector_admits d x) c = true → existsb (selector_admits d x) p = true.
Proof.
  unfold compare_token_selectors.
  destruct (strip_permit_only p) as [pr|] eqn:Hp; [|done].
  destruct (strip_permit_only c) as [cr|] eqn:Hc; [|done].
  rewrite (selectors_admit _ _ _ _ Hp), (selectors_admit _ _ _ _ Hc).
  rewrite !existsb_exists. setoid_rewrite <- list_elem_of_In.
  intros H (n & Hn & Ha). exists n. split; [|done]. revert H. cbv zeta.
  case_bool_decide as He; [intros _; by apply (list_to_set_sub _ _ He)|].
  case_bool_decide as Hs; [intros _|done].
  rewrite <- (elem_of_list_to_set (C := gset string)). apply Hs. by rewrite elem_of_list_to_set.
Qed.

Lemma within_narrower p c u : field_narrower p c = true → within c u = true → within p u = true.
Proof. destruct p, c; simpl; try done. rewrite !Z.leb_le. lia. Qed.

Lemma limits_narrower_admit p c u :
  limits_narrower_or_equal p c = true → limits_admit c u = true → limits_admit p u = true.
Proof.
  unfold limits_narrower_or_equal, limits_admit. rewrite !andb_true_iff. intros H H'. destruct_and!.
  repeat split; eapply within_narrower; eauto.
Qed.

Lemma compare_scopes_sound d selectors p c a :
  (∀ l l' x, no_wider (selectors l l') = true →
     existsb (selector_admits d x) l' = true → existsb (selector_admits d x) l = true) →
  no_wider (compare_scopes selectors p c) = true → admits d c a = true → admits d p a = true.
Proof. intros H. destruct p, c, a; simpl; try done. apply H. Qed.

Lemma order_for_sound d p c a :
  no_wider (compare (ScopeOrder := order_for d) p c) = true → admits d c a = true → admits d p a = true.
Proof.
  destruct d; cbn [order_for compare PathPrefixOrder HostPatternOrder ExactTokenOrder
                   ResourceCeilingOrder UndefinedScopeOrder]; try done;
    try (apply compare_scopes_sound; intros; eauto using compare_path_sound, compare_host_sound,
           compare_token_sound; fail).
  destruct p as [| |pl], c as [| |cl]; try done. simpl.
  case_bool_decide as He; [by subst|]. destruct (limits_narrower_or_equal pl cl) eqn:Hn; [|done].
  intros _. destruct a; [done|]. by apply limits_narrower_admit.
Qed.

(** ** Theorems *)

(** A comparator that calls a child scope narrower or equal is
    right: whatever path, host, name or resource use the child scope admits in the
    domain, by the matchers that enforce it, the parent scope admits too. *)
Theorem scope_order_sound d p c a :
  compare (ScopeOrder := order_for d) p c = ScopeOrdering.Narrower ∨
  compare (ScopeOrder := order_for d) p c = ScopeOrdering.Equal →
  admits d c a = true → admits d p a = true.
Proof. intros [H|H]; apply order_for_sound; by rewrite H. Qed.

Lemma scope_order_sound_witness :
  admits NetworkEgress (Selectors ["permit-only:*.internal.example.com"; "permit-only:a.org"])
    (Item "DB.internal.example.com") = true ∧
  admits NetworkEgress (Selectors ["permit-only:*.example.com"; "permit-only:*.org"; "permit-only:a.org"])
    (Item "DB.internal.example.com") = true.
Proof.
  assert (admits NetworkEgress (Selectors ["permit-only:*.internal.example.com"; "permit-only:a.org"])
            (Item "DB.internal.example.com") = true) as H by (vm_compute; reflexivity).
  split; [exact H|]. revert H. apply scope_order_sound. left. vm_compute. reflexivity.
Defined.
