(* ===== verification/Ledger.v ===== *)
(** * Ledger: the delegation ledger and what revocation means in it

    aa-isolation/src/attenuation.rs, [DelegationLedger]: registration of root leases,
    derivation of child leases, revocation, and the verification of a lease's chain of
    ancestors.  Each operation holds the ledger's mutex from its first read to its last
    write, so it is one step; a ledger the code can reach is one built from the empty
    ledger by these steps, in any order and with any arguments.

    [chain_active] is the specification of a chain; [verify_chain] walks it within a
    bound taken from the number of entries, and is shown to decide it. *)

From stdpp Require Import base gmap strings list relations.
From Stdlib Require Import ZArith Lia Bool String.
From S2P Require Import Prelude.
From S2P Require Import Leases.
From S2P Require Import ScopeOrder.

Open Scope Z_scope.
Open Scope aasm_scope.

(** ** State *)

Module Link.
Inductive t := Root | Parent (lease : LeaseId) | Unlinked.
#[global] Instance t_eq_dec : EqDecision t.
Proof. solve_decision. Defined.
End Link.

Module ChainFault.
Inductive t := Revoked (lease : LeaseId) (reason : string) | Unverifiable (lease : LeaseId).
End ChainFault.

Record LedgerEntry := {
  en_state : RevocationState;
  en_link : Link.t;
  en_content : option CapabilityLease;
}.

Record DelegationLedger := {
  dl_entries : gmap string LedgerEntry;
  dl_trusted_issuer : option string;
}.

(** ** Operations *)

Definition ledger_new : DelegationLedger := {| dl_entries := ∅; dl_trusted_issuer := None |}.

Definition with_trusted_issuer (L : DelegationLedger) (i : string) : DelegationLedger :=
  {| dl_entries := dl_entries L; dl_trusted_issuer := Some i |}.

Definition ledger_insert (L : DelegationLedger) (k : LeaseId) (e : LedgerEntry) : DelegationLedger :=
  {| dl_entries := <[k := e]> (dl_entries L); dl_trusted_issuer := dl_trusted_issuer L |}.

Definition knows (L : DelegationLedger) (k : LeaseId) : bool := bool_decide (is_Some (dl_entries L !! k)).

Definition register_parent (L : DelegationLedger) (lease : CapabilityLease)
  : result DelegationLedger Denied.t :=
  if knows L (l_id lease) then Err Denied.DuplicateLeaseId
  else if bool_decide (is_Some (l_provenance lease)) then Err Denied.AncestryUnverifiable
  else if match dl_trusted_issuer L with
          | Some trusted => negb (String.eqb (agent_id (issuer (l_basis lease))) trusted)
          | None => false
          end then Err Denied.UntrustedIssuer
  else Ok (ledger_insert L (l_id lease)
             {| en_state := l_revocation lease; en_link := Link.Root; en_content := Some lease |}).

Definition ledger_revoke (L : DelegationLedger) (lease : LeaseId) (generation : Z) (reason : string)
  : DelegationLedger :=
  let state := Revoked generation reason in
  ledger_insert L lease
    (match dl_entries L !! lease with
     | Some e => {| en_state := state; en_link := en_link e; en_content := en_content e |}
     | None => {| en_state := state; en_link := Link.Unlinked; en_content := None |}
     end).

Definition content_matches (L : DelegationLedger) (lease : CapabilityLease) : bool :=
  match dl_entries L !! l_id lease with
  | Some e => match en_content e with
              | Some recorded => same_content recorded lease
              | None => false
              end
  | None => false
  end.

Definition revoked_reason (L : DelegationLedger) (lease : LeaseId) : option string :=
  match dl_entries L !! lease with
  | Some e => match en_state e with Revoked _ reason => Some reason | Active _ => None end
  | None => None
  end.

(** The loop of [verify_chain_locked]; [start] is what the exhausted bound reports. *)
Fixpoint verify_loop (entries : gmap string LedgerEntry) (start : LeaseId) (bound : nat)
    (current : LeaseId) : result unit ChainFault.t :=
  match bound with
  | O => Err (ChainFault.Unverifiable start)
  | S bound' =>
      match entries !! current with
      | None => Err (ChainFault.Unverifiable current)
      | Some entry =>
          match en_state entry with
          | Revoked _ reason => Err (ChainFault.Revoked current reason)
          | Active _ =>
              match en_link entry with
              | Link.Root => Ok tt
              | Link.Parent parent => verify_loop entries start bound' parent
              | Link.Unlinked => Err (ChainFault.Unverifiable current)
              end
          end
      end
  end.

(** [for _ in 0..=entries.len()]: one round more than there are entries. *)
Definition verify_chain_locked (entries : gmap string LedgerEntry) (start : LeaseId)
  : result unit ChainFault.t :=
  verify_loop entries start (S (size entries)) start.

Definition verify_chain (L : DelegationLedger) (lease : LeaseId) : result unit ChainFault.t :=
  verify_chain_locked (dl_entries L) lease.

Definition ledger_derive_child (L : DelegationLedger) (parent : CapabilityLease)
    (request : ChildLeaseRequest) (issued_at : Z)
  : result (CapabilityLease * DelegationLedger) Denied.t :=
  match dl_entries L !! l_id parent with
  | None => Err Denied.AncestryUnverifiable
  | Some entry =>
      if negb (match en_content entry with Some c => same_content c parent | None => false end)
      then Err Denied.ContentMismatch
      else match verify_chain_locked (dl_entries L) (l_id parent) with
           | Err (ChainFault.Revoked _ _) => Err Denied.ParentRevoked
           | Err (ChainFault.Unverifiable _) => Err Denied.AncestryUnverifiable
           | Ok _ =>
               if knows L (rq_child_id request) then Err Denied.DuplicateLeaseId
               else
                 let generation := revocation_generation (en_state entry) in
                 let? derived := lease_derive_child parent request (order_for (l_domain parent)) issued_at in
                 let child := with_provenance_generation derived generation in
                 Ok (child, ledger_insert L (l_id child)
                              {| en_state := l_revocation child;
                                 en_link := Link.Parent (l_id parent);
                                 en_content := Some child |})
           end
  end.

(** ** Steps *)

Inductive ledger_step : DelegationLedger → DelegationLedger → Prop :=
| step_register L L' lease : register_parent L lease = Ok L' → ledger_step L L'
| step_revoke L lease g reason : ledger_step L (ledger_revoke L lease g reason)
| step_derive L L' parent request now child :
    ledger_derive_child L parent request now = Ok (child, L') → ledger_step L L'.

Definition initial (L : DelegationLedger) : Prop := dl_entries L = ∅.

Definition ledger_reachable (L : DelegationLedger) : Prop :=
  ∃ L0, initial L0 ∧ rtc ledger_step L0 L.

(** ** Specification

    A chain is active when every lease from the start up to a root is known and not
    revoked. *)

Inductive chain_active (entries : gmap string LedgerEntry) : LeaseId → Prop :=
| chain_root k e :
    entries !! k = Some e → is_active (en_state e) = true → en_link e = Link.Root →
    chain_active entries k
| chain_parent k e p :
    entries !! k = Some e → is_active (en_state e) = true → en_link e = Link.Parent p →
    chain_active entries p → chain_active entries k.

(** [above entries k a]: [a] is [k] or one of its recorded ancestors. *)
Inductive above (entries : gmap string LedgerEntry) : LeaseId → LeaseId → Prop :=
| above_self k : above entries k k
| above_up k e p a :
    entries !! k = Some e → en_link e = Link.Parent p → above entries p a → above entries k a.

#[export] Hint Constructors chain_active above : aasm.
