(* ===== verification/LedgerProps.v ===== *)
(** * LedgerProps: delegation attenuates, verification is exact, revocation is final

    The invariant of every reachable delegation ledger and the theorems about it. *)

From stdpp Require Import base gmap strings list relations.
From Stdlib Require Import ZArith Lia Bool String.
From S2P Require Import Prelude.
From S2P Require Import Leases.
From S2P Require Import ScopeOrder.
From S2P Require Import Ledger.

Open Scope Z_scope.
Open Scope aasm_scope.

(** ** Attenuation

    One lease is within another: same domain and issuer, and no wider in scope, lifetime
    or limits. *)

Record attenuates (p c : CapabilityLease) : Prop := {
  at_domain : l_domain c = l_domain p;
  at_issuer : issuer (l_basis c) = issuer (l_basis p);
  at_scope a : admits (l_domain p) (l_scope c) a = true → admits (l_domain p) (l_scope p) a = true;
  at_from : l_not_before p ≤ l_not_before c;
  at_until : l_expires_at c ≤ l_expires_at p;
  at_limits : limits_narrower_or_equal (default no_limits (l_limits p))
                (default no_limits (l_limits c)) = true;
}.

#[export] Instance attenuates_preorder : PreOrder attenuates.
Proof.
  split.
  - intros x. split; try done; auto using limits_narrower_refl.
  - intros x y z [] []. split; try lia; try congruence; eauto using limits_narrower_trans.
    intros a Ha. apply at_scope0. rewrite <- at_domain0. apply at_scope1.
    by rewrite at_domain0.
Qed.

#[export] Instance attenuates_proper : Proper (content_eq ==> content_eq ==> iff) attenuates.
Proof.
  assert (∀ p p' c c', content_eq p p' → content_eq c c' → attenuates p c → attenuates p' c') as H.
  { intros p p' c c' Hp%content_eq_fields Hc%content_eq_fields []. destruct_and!.
    split; congruence || lia || idtac.
    intros a. replace (l_domain p') with (l_domain p) by done.
    replace (l_scope c') with (l_scope c) by done. replace (l_scope p') with (l_scope p) by done. auto. }
  intros p p' Hp c c' Hc. split; apply H; done || by symmetry.
Qed.

Lemma derives_attenuates now parent request child :
  derives (order_for (l_domain parent)) now parent request child → attenuates parent child.
Proof.
  intros []. split; try done; try lia.
  intros a. apply order_for_sound. rewrite dv_scope.
  by destruct dv_order as [-> | [-> _]].
Qed.

(** The generation stamp touches neither the content that attenuation reads nor the
    identity of the child. *)
Lemma stamp_fields l g :
  let l' := with_provenance_generation l g in
  l_id l' = l_id l ∧ l_domain l' = l_domain l ∧ l_scope l' = l_scope l ∧
  l_not_before l' = l_not_before l ∧ l_expires_at l' = l_expires_at l ∧ l_limits l' = l_limits l ∧
  l_basis l' = l_basis l ∧ l_revocation l' = l_revocation l ∧ l_delegation l' = l_delegation l ∧
  l_subject l' = l_subject l ∧ l_schema_version l' = l_schema_version l ∧
  (∀ pv, l_provenance l = Some pv → ∃ pv', l_provenance l' = Some pv' ∧
     pv_parent_lease pv' = pv_parent_lease pv ∧ pv_parent_delegation pv' = pv_parent_delegation pv ∧
     pv_parent_generation pv' = g).
Proof.
  cbv zeta. unfold with_provenance_generation. destruct (l_provenance l) eqn:E; simpl.
  - repeat split. intros ? [= <-]. eexists. eauto.
  - repeat split; done.
Qed.

Lemma attenuates_stamp p c g : attenuates p c → attenuates p (with_provenance_generation c g).
Proof.
  pose proof (stamp_fields c g) as H. cbv zeta in H. destruct_and!. intros []. split; try congruence.
  intros a. replace (l_scope (with_provenance_generation c g)) with (l_scope c) by done. auto.
Qed.

(** ** The invariant *)

Definition issuer_trusted (L : DelegationLedger) (c : CapabilityLease) : Prop :=
  ∀ i, dl_trusted_issuer L = Some i → agent_id (issuer (l_basis c)) = i.

Record entry_ok (L : DelegationLedger) (k : LeaseId) (e : LedgerEntry) : Prop := {
  eo_id c : en_content e = Some c → l_id c = k;
  eo_root : en_link e = Link.Root →
    ∃ c, en_content e = Some c ∧ l_provenance c = None ∧ issuer_trusted L c;
  eo_parent p : en_link e = Link.Parent p →
    ∃ c pv ep pc, en_content e = Some c ∧
      l_provenance c = Some pv ∧ pv_parent_lease pv = p ∧ pv_parent_delegation pv = l_delegation c ∧
      approval_ref (l_basis c) = None ∧ policy_rule (l_basis c) = None ∧
      dl_entries L !! p = Some ep ∧ en_content ep = Some pc ∧ attenuates pc c;
  eo_unlinked : en_link e = Link.Unlinked → en_content e = None ∧ is_active (en_state e) = false;
}.

(** Parent links go down a rank bounded by the number of entries. *)
Definition ranked (entries : gmap string LedgerEntry) (rank : string → nat) : Prop :=
  ∀ k e, entries !! k = Some e →
    (rank k < size entries)%nat ∧ ∀ p, en_link e = Link.Parent p → (rank p < rank k)%nat.

Record ledger_ok (L : DelegationLedger) : Prop := {
  lo_entries k e : dl_entries L !! k = Some e → entry_ok L k e;
  lo_ranked : ∃ rank, ranked (dl_entries L) rank;
}.

(** Nothing recorded is forgotten, re-linked or revived. *)
Definition ledger_grows (L L' : DelegationLedger) : Prop :=
  dl_trusted_issuer L' = dl_trusted_issuer L ∧
  ∀ k e, dl_entries L !! k = Some e →
    ∃ e', dl_entries L' !! k = Some e' ∧ en_link e' = en_link e ∧ en_content e' = en_content e ∧
          (is_active (en_state e') = true → is_active (en_state e) = true).

#[export] Instance ledger_grows_preorder : PreOrder ledger_grows.
Proof.
  split.
  - intros L. split; [done|]. intros k e He. exists e. done.
  - intros L1 L2 L3 [Ht1 H1] [Ht2 H2]. split; [congruence|]. intros k e He.
    destruct (H1 _ _ He) as (e' & He' & Hl & Hc & Ha).
    destruct (H2 _ _ He') as (e'' & He'' & Hl' & Hc' & Ha'). exists e''.
    repeat split; try congruence; auto.
Qed.

(** Adding an entry under a fresh key. *)
Lemma insert_fresh_grows L k e : dl_entries L !! k = None → ledger_grows L (ledger_insert L k e).
Proof.
  intros Hk. split; [done|]. intros j ej Hj. exists ej. simpl. rewrite lookup_insert_ne by (intros ->; by rewrite Hk in Hj). done.
Qed.

Lemma entry_ok_grows L L' k e : ledger_grows L L' → entry_ok L k e → entry_ok L' k e.
Proof.
  intros [Ht Hg] [Hid Hr Hp Hu]. split; [done| | |done].
  - intros Hl. destruct (Hr Hl) as (c & ? & ? & Hi). exists c. unfold issuer_trusted in *. rewrite Ht. done.
  - intros p Hl. destruct (Hp p Hl) as (c & pv & ep & pc & Hc & Hpv & Hpl & Hpd & Ha & Hr' & Hep & Hpc & Hat).
    destruct (Hg _ _ Hep) as (ep' & Hep' & _ & Hc' & _). exists c, pv, ep', pc. rewrite Hc'. done.
Qed.

Lemma insert_fresh_ok L k e :
  ledger_ok L → dl_entries L !! k = None →
  (∀ p, en_link e = Link.Parent p → is_Some (dl_entries L !! p)) →
  entry_ok L k e → ledger_ok (ledger_insert L k e).
Proof.
  intros [He [rank Hr]] Hk Hp Hek. pose proof (insert_fresh_grows L k e Hk) as Hg. split.
  - intros j ej. simpl. destruct (decide (j = k)) as [->|Hne].
    + rewrite lookup_insert_eq. intros [= <-]. by eapply entry_ok_grows.
    + rewrite lookup_insert_ne by done. intros Hj. eapply entry_ok_grows; eauto.
  - exists (λ j, if decide (j = k) then size (dl_entries L) else rank j).
    intros j ej. simpl. rewrite map_size_insert_None by done.
    destruct (decide (j = k)) as [->|Hne].
    + rewrite lookup_insert_eq. intros [= ->]. split; [lia|]. intros p Hl.
      destruct (Hp p Hl) as [ep Hep]. rewrite decide_False by (intros ->; by rewrite Hk in Hep). by destruct (Hr _ _ Hep).
    + rewrite lookup_insert_ne by done. intros Hj. destruct (Hr _ _ Hj) as [Hlt Hup].
      split; [lia|]. intros p Hl.
      destruct (eo_parent _ _ _ (He _ _ Hj) p Hl) as (_ & _ & ep & _ & _ & _ & _ & _ & _ & _ & Hep & _).
      rewrite decide_False by (intros ->; by rewrite Hk in Hep). by apply Hup.
Qed.

(** Replacing only the state of a known entry by a revoked one. *)
Lemma revoke_known_grows L k e g r :
  dl_entries L !! k = Some e → ledger_grows L (ledger_revoke L k g r).
Proof.
  intros Hk. unfold ledger_revoke. rewrite Hk. split; [done|]. intros j ej Hj. simpl.
  destruct (decide (j = k)) as [->|Hne].
  - rewrite lookup_insert_eq. eexists. split; [done|]. simplify_eq. done.
  - rewrite lookup_insert_ne by done. exists ej. done.
Qed.

Lemma ledger_revoke_ok L k g r :
  ledger_ok L → ledger_grows L (ledger_revoke L k g r) ∧ ledger_ok (ledger_revoke L k g r).
Proof.
  intros Hok. destruct (dl_entries L !! k) as [e|] eqn:Hk.
  - pose proof (revoke_known_grows L k e g r Hk) as Hg. split; [done|].
    destruct Hok as [He [rank Hr]]. unfold ledger_revoke in *. rewrite Hk in *. split.
    + intros j ej. simpl. destruct (decide (j = k)) as [->|Hne].
      * rewrite lookup_insert_eq. intros [= <-].
        destruct (entry_ok_grows _ _ _ _ Hg (He _ _ Hk)) as [Hid Hro Hpa Hun].
        split; simpl; [done|done|done|]. intros Hu. by destruct (Hun Hu).
      * rewrite lookup_insert_ne by done. intros Hj. eapply entry_ok_grows; eauto.
    + exists rank. intros j ej. simpl. rewrite map_size_insert_Some by done.
      destruct (decide (j = k)) as [->|Hne].
      * rewrite lookup_insert_eq. intros [= <-]. simpl. by apply (Hr _ _ Hk).
      * rewrite lookup_insert_ne by done. apply Hr.
  - unfold ledger_revoke. rewrite Hk. split; [by apply insert_fresh_grows|].
    by apply insert_fresh_ok.
Qed.

Lemma knows_false L k : knows L k = false → dl_entries L !! k = None.
Proof. unfold knows. rewrite bool_decide_eq_false. apply eq_None_not_Some. Qed.

Lemma register_parent_ok L lease L' :
  ledger_ok L → register_parent L lease = Ok L' → ledger_grows L L' ∧ ledger_ok L'.
Proof.
  intros Hok. unfold register_parent.
  destruct (knows L (l_id lease)) eqn:Hk; [done|]. apply knows_false in Hk.
  case_bool_decide as Hpv; [done|]. apply eq_None_not_Some in Hpv.
  destruct (match dl_trusted_issuer L with Some _ => _ | None => _ end) eqn:Ht; [done|].
  intros [= <-]. split; [by apply insert_fresh_grows|]. apply insert_fresh_ok; try done.
  split; simpl; try done. { by intros c [= <-]. } intros _. exists lease. split; [done|]. split; [done|].
  intros i Hi. rewrite Hi in Ht. apply negb_false_iff, String.eqb_eq in Ht. done.
Qed.

(** What a successful derivation saw and recorded. *)
Lemma ledger_derive_child_Ok L parent request now child L' :
  ledger_derive_child L parent request now = Ok (child, L') →
  ∃ entry recorded derived,
    dl_entries L !! l_id parent = Some entry ∧ en_content entry = Some recorded ∧
    content_eq recorded parent ∧ verify_chain L (l_id parent) = Ok tt ∧
    dl_entries L !! rq_child_id request = None ∧
    derives (order_for (l_domain parent)) now parent request derived ∧
    child = with_provenance_generation derived (revocation_generation (en_state entry)) ∧
    L' = ledger_insert L (l_id child) {| en_state := l_revocation child;
           en_link := Link.Parent (l_id parent); en_content := Some child |}.
Proof.
  unfold ledger_derive_child. destruct (dl_entries L !! l_id parent) as [entry|] eqn:He; [|done].
  destruct (en_content entry) as [rec|] eqn:Hc; [|done].
  destruct (same_content rec parent) eqn:Hs; [|done]. simpl. apply same_content_spec in Hs.
  unfold verify_chain. destruct (verify_chain_locked (dl_entries L) (l_id parent)) as [[]|[]]; try done.
  destruct (knows L (rq_child_id request)) eqn:Hk; [done|]. apply knows_false in Hk.
  destruct (lease_derive_child parent request (order_for (l_domain parent)) now) as [d|] eqn:Hd; [|done].
  apply lease_derive_child_Ok in Hd. simpl. intros [= <- <-].
  by exists entry, rec, d.
Qed.

Lemma ledger_derive_ok L parent request now child L' :
  ledger_ok L → ledger_derive_child L parent request now = Ok (child, L') →
  ledger_grows L L' ∧ ledger_ok L'.
Proof.
  intros Hok (entry & rec & d & He & Hc & Hs & _ & Hfresh & Hd & Hchild & ->)%ledger_derive_child_Ok.
  pose proof (stamp_fields d (revocation_generation (en_state entry))) as Hst. cbv zeta in Hst.
  rewrite <- Hchild in Hst.
  assert (dl_entries L !! l_id child = None) as Hk by (destruct_and!; destruct Hd; congruence).
  split; [by apply insert_fresh_grows|]. apply insert_fresh_ok; try done; simpl.
  { intros p [= <-]. by exists entry. }
  split; simpl; try done. { by intros c [= <-]. } intros p [= <-].
  destruct (dv_provenance _ _ _ _ _ Hd) as (pv & Hpv & Hpl & Hpd).
  destruct_and!. destruct (dv_unapproved _ _ _ _ _ Hd) as [Ha Hr].
  match goal with H : ∀ pv, _ → _ |- _ => destruct (H _ Hpv) as (pv' & Hpv' & ? & ? & ?) end.
  exists child, pv', entry, rec. split_and!; try congruence.
  apply (attenuates_proper _ _ Hs _ _ (reflexivity child)). rewrite Hchild. apply attenuates_stamp. by eapply derives_attenuates.
Qed.

Lemma ledger_step_ok L L' : ledger_ok L → ledger_step L L' → ledger_grows L L' ∧ ledger_ok L'.
Proof.
  intros Hok Hs. destruct Hs as [? ? ? H|? ? ? ?|? ? ? ? ? ? H];
    [exact (register_parent_ok _ _ _ Hok H)|by apply ledger_revoke_ok|exact (ledger_derive_ok _ _ _ _ _ _ Hok H)].
Qed.

Lemma ledger_steps_ok L L' : ledger_ok L → rtc ledger_step L L' → ledger_grows L L' ∧ ledger_ok L'.
Proof.
  intros Hok Hs. revert Hok. induction Hs as [L|L1 L2 L3 H12 _ IH]; intros Hok; [by split|].
  destruct (ledger_step_ok _ _ Hok H12) as [Hg Hok2]. destruct (IH Hok2) as [Hg' ?].
  split; [|done]. by transitivity L2.
Qed.

Lemma reachable_ok L : ledger_reachable L → ledger_ok L.
Proof.
  intros (L0 & H0 & Hs). apply (ledger_steps_ok L0 L); [|done]. split.
  - intros k e. by rewrite H0, lookup_empty.
  - exists (λ _, 0%nat). intros k e. by rewrite H0, lookup_empty.
Qed.

#[export] Hint Resolve reachable_ok : aasm.

(** ** Verification decides the chain *)

(** The first fault met on the way up from a lease. *)
Inductive chain_faulty (entries : gmap string LedgerEntry) : LeaseId → ChainFault.t → Prop :=
| fault_unknown k : entries !! k = None → chain_faulty entries k (ChainFault.Unverifiable k)
| fault_revoked k e g reason :
    entries !! k = Some e → en_state e = Revoked g reason →
    chain_faulty entries k (ChainFault.Revoked k reason)
| fault_unlinked k e :
    entries !! k = Some e → is_active (en_state e) = true → en_link e = Link.Unlinked →
    chain_faulty entries k (ChainFault.Unverifiable k)
| fault_up k e p f :
    entries !! k = Some e → is_active (en_state e) = true → en_link e = Link.Parent p →
    chain_faulty entries p f → chain_faulty entries k f.

#[export] Hint Constructors chain_faulty : aasm.

Definition chain_verdict (entries : gmap string LedgerEntry) (k : LeaseId)
    (r : result unit ChainFault.t) : Prop :=
  match r with Ok _ => chain_active entries k | Err f => chain_faulty entries k f end.

Lemma verify_loop_verdict entries rank start n k :
  ranked entries rank → (rank k < n ∨ entries !! k = None ∧ 0 < n)%nat →
  chain_verdict entries k (verify_loop entries start n k).
Proof.
  intros Hr. revert k. induction n as [|n IH]; intros k Hk; [lia|]. simpl.
  destruct (entries !! k) as [e|] eqn:He; [|by constructor].
  destruct (en_state e) as [g|g reason] eqn:Hs; [|simpl; eauto with aasm].
  assert (is_active (en_state e) = true) as Ha by by rewrite Hs.
  destruct (en_link e) as [|p|] eqn:Hl; simpl; [eauto with aasm| |eauto with aasm].
  assert (rank p < n)%nat as Hp. { destruct (Hr _ _ He) as [_ Hup]. specialize (Hup p Hl).
    destruct Hk as [?|[? _]]; [lia|done]. }
  specialize (IH p (or_introl Hp)). destruct (verify_loop entries start n p); simpl in *; eauto with aasm.
Qed.

Lemma verify_chain_verdict L k : ledger_ok L → chain_verdict (dl_entries L) k (verify_chain L k).
Proof.
  intros [_ [rank Hr]]. apply (verify_loop_verdict _ rank); [done|].
  destruct (dl_entries L !! k) as [e|] eqn:He; [|right; split; [done|lia]].
  left. destruct (Hr _ _ He). lia.
Qed.

Lemma active_not_faulty entries k f : chain_active entries k → ¬ chain_faulty entries k f.
Proof.
  induction 1 as [k e He Ha Hl|k e p He Ha Hl _ IH]; inversion 1; simplify_eq; try congruence.
  - match goal with H : en_state e = _ |- _ => by rewrite H in Ha end.
  - match goal with H : en_state e = _ |- _ => by rewrite H in Ha end.
Qed.

Lemma faulty_unique entries k f f' : chain_faulty entries k f → chain_faulty entries k f' → f = f'.
Proof.
  intros H. revert f'. induction H as [k He|k e g r He Hs|k e He Ha Hl|k e p f He Ha Hl _ IH];
    intros f'; inversion 1; simplify_eq; try congruence;
    try match goal with H : en_state ?e = _, H' : is_active (en_state ?e) = _ |- _ =>
      by rewrite H in H' end.
  apply IH. congruence.
Qed.

Lemma verify_chain_Ok_iff L k : ledger_ok L → verify_chain L k = Ok tt ↔ chain_active (dl_entries L) k.
Proof.
  intros Hok. pose proof (verify_chain_verdict L k Hok) as H.
  destruct (verify_chain L k) as [[]|f]; simpl in H; split; try done.
  intros Ha. by destruct (active_not_faulty _ _ f Ha).
Qed.

Lemma verify_chain_Err_iff L k f :
  ledger_ok L → verify_chain L k = Err f ↔ chain_faulty (dl_entries L) k f.
Proof.
  intros Hok. pose proof (verify_chain_verdict L k Hok) as H.
  destruct (verify_chain L k) as [[]|f']; simpl in H; split; try done.
  - intros Hf. by destruct (active_not_faulty _ _ f H).
  - by intros [= <-].
  - intros Hf. f_equal. by eapply faulty_unique.
Qed.

(** C5: on every ledger the operations can build, the bounded
    walk decides the unbounded specification: it succeeds exactly when every lease from
    the given one up to a registered root is known and unrevoked, and otherwise reports
    the first fault on the way up.  The bound on the number of rounds never decides. *)
Theorem verify_chain_refines L k :
  ledger_reachable L →
  (verify_chain L k = Ok tt ↔ chain_active (dl_entries L) k) ∧
  ∀ f, verify_chain L k = Err f ↔ chain_faulty (dl_entries L) k f.
Proof.
  intros Hok%reachable_ok. split; [by apply verify_chain_Ok_iff|]. intros f. by apply verify_chain_Err_iff.
Qed.

(** ** Authority only narrows *)

Lemma attenuates_root L rank k e c :
  ledger_ok L → ranked (dl_entries L) rank →
  dl_entries L !! k = Some e → en_content e = Some c →
  ∃ r er root, above (dl_entries L) k r ∧ dl_entries L !! r = Some er ∧ en_link er = Link.Root ∧
    en_content er = Some root ∧ attenuates root c ∧ issuer_trusted L c.
Proof.
  intros Hok Hr. remember (rank k) as n eqn:Hn. revert k e c Hn.
  induction n as [n IH] using lt_wf_ind. intros k e c -> He Hc.
  destruct (lo_entries _ Hok _ _ He) as [_ Hroot Hparent Hun].
  destruct (en_link e) as [|p|] eqn:Hl.
  - destruct (Hroot eq_refl) as (c' & Hc' & _ & Hi). exists k, e, c'. simplify_eq.
    split_and!; try done; constructor.
  - destruct (Hparent p eq_refl) as (c' & pv & ep & pc & Hc' & _ & _ & _ & _ & _ & Hep & Hpc & Hat).
    simplify_eq. destruct (Hr _ _ He) as [_ Hup].
    destruct (IH _ (Hup p Hl) p ep pc eq_refl Hep Hpc) as (r & er & root & Hab & Her & Hlr & Hcr & Hat' & Hi).
    exists r, er, root. split_and!; try done; [by econstructor|by transitivity pc|].
    intros i Ht. rewrite (at_issuer _ _ Hat). by apply Hi.
  - destruct (Hun eq_refl). congruence.
Qed.

(** C6: in every ledger the operations can build, each
    recorded lease descends from a registered root lease and is within it, however long
    the chain: same domain, no access the root does not admit, a lifetime inside the
    root's, limits no looser on any field, and the same issuer, which is the trusted one
    when the ledger names one. *)
Theorem delegation_never_amplifies L k e c :
  ledger_reachable L → dl_entries L !! k = Some e → en_content e = Some c →
  ∃ r er root, above (dl_entries L) k r ∧ dl_entries L !! r = Some er ∧ en_link er = Link.Root ∧
    en_content er = Some root ∧ attenuates root c ∧ issuer_trusted L c.
Proof.
  intros Hok%reachable_ok. destruct (lo_ranked _ Hok) as [rank Hr]. by apply (attenuates_root L rank).
Qed.

(** ** Revocation is final *)

Lemma above_grows L L' k a :
  ledger_grows L L' → above (dl_entries L) k a → above (dl_entries L') k a.
Proof.
  intros [_ Hg]. induction 1 as [k|k e p a He Hl _ IH]; [constructor|].
  destruct (Hg _ _ He) as (e' & He' & Hl' & _). econstructor; eauto. congruence.
Qed.

Lemma revoked_above_inactive entries k a e :
  above entries k a → entries !! a = Some e → is_active (en_state e) = false → ¬ chain_active entries k.
Proof.
  induction 1 as [k|k e' p a He' Hl _ IH]; intros Ha Hs Hc; inversion Hc; simplify_eq; try congruence.
  apply IH; try done. congruence.
Qed.

Lemma revoke_marks L k g r :
  ∃ e, dl_entries (ledger_revoke L k g r) !! k = Some e ∧ is_active (en_state e) = false.
Proof.
  unfold ledger_revoke. simpl. rewrite lookup_insert_eq. eexists. split; [done|].
  by destruct (dl_entries L !! k).
Qed.

Lemma revoked_stays L k g r L' d :
  ledger_ok L → rtc ledger_step (ledger_revoke L k g r) L' →
  above (dl_entries L) d k ∨ above (dl_entries L') d k → ¬ chain_active (dl_entries L') d.
Proof.
  intros Hok Hs Hd. destruct (ledger_revoke_ok L k g r Hok) as [Hg Hok'].
  destruct (ledger_steps_ok _ _ Hok' Hs) as [Hg' _].
  destruct (revoke_marks L k g r) as (e & He & Hi).
  destruct Hg' as [Ht Hg']. destruct (Hg' _ _ He) as (e' & He' & _ & _ & Ha).
  apply (revoked_above_inactive _ d k e'); [|done|].
  - destruct Hd as [Hd|Hd]; [|done]. eapply above_grows; [|exact Hd].
    transitivity (ledger_revoke L k g r); [done|]. by split.
  - destruct (is_active (en_state e')); [|done]. by rewrite Hi in Ha; specialize (Ha eq_refl).
Qed.

Lemma inactive_no_derive L d lease request now :
  ledger_ok L → l_id lease = d → ¬ chain_active (dl_entries L) d →
  is_ok (ledger_derive_child L lease request now) = false.
Proof.
  intros Hok <- Hn. destruct (ledger_derive_child L lease request now) as [[child L']|] eqn:H; [|done].
  apply ledger_derive_child_Ok in H as (? & ? & ? & _ & _ & _ & Hv & _).
  by apply verify_chain_Ok_iff in Hv.
Qed.

(** Once a lease is revoked, no sequence of later operations
    brings it or a descendant of it back, whether derived before or after: its chain
    never verifies again and nothing can be derived from it. *)
Theorem revocation_is_final L k g r L' d :
  ledger_reachable L → rtc ledger_step (ledger_revoke L k g r) L' →
  above (dl_entries L) d k ∨ above (dl_entries L') d k →
  is_ok (verify_chain L' d) = false ∧
  ∀ lease request now, l_id lease = d → is_ok (ledger_derive_child L' lease request now) = false.
Proof.
  intros Hok%reachable_ok Hs Hd. pose proof (revoked_stays _ _ _ _ _ _ Hok Hs Hd) as Hn.
  destruct (ledger_revoke_ok L k g r Hok) as [_ Hok1].
  destruct (ledger_steps_ok _ _ Hok1 Hs) as [_ Hok'].
  split; [|intros; by eapply inactive_no_derive].
  destruct (verify_chain L' d) as [[]|] eqn:H; [|done]. by apply verify_chain_Ok_iff in H.
Qed.

(** ** Witnesses: a root, a child derived from it, and the root revoked *)

Definition sample_root : CapabilityLease :=
  with_delegation
    (lease_new "lease-root" (identity_root "planner") FilesystemRead
       (Selectors ["permit-only:/workspace"%string]) 0 100
       (basis_new (identity_root "operator") "ticket"))
    DelegableWithNarrowerScope.

Definition sample_request : ChildLeaseRequest :=
  {| rq_child_id := "lease-child"; rq_child_subject := identity_root "coder";
     rq_child_scope := Selectors ["permit-only:/workspace/src"%string];
     rq_child_expires_at := 500; rq_mode := InheritanceMode.Narrower;
     rq_child_delegation := NotDelegable; rq_child_limits := None |}.

Definition sample_ledger : DelegationLedger :=
  match register_parent (with_trusted_issuer ledger_new "operator") sample_root with
  | Ok L => match ledger_derive_child L sample_root sample_request 10 with
            | Ok (_, L') => L'
            | Err _ => ledger_new
            end
  | Err _ => ledger_new
  end.

Lemma sample_reachable : ledger_reachable sample_ledger.
Proof.
  exists (with_trusted_issuer ledger_new "operator"). split; [reflexivity|].
  destruct (register_parent (with_trusted_issuer ledger_new "operator") sample_root) as [L|] eqn:H1;
    [|by vm_compute in H1].
  destruct (ledger_derive_child L sample_root sample_request 10) as [[c L']|] eqn:H2.
  - unfold sample_ledger. rewrite H1, H2. eapply rtc_l; [by eapply step_register|].
    apply rtc_once. by eapply step_derive.
  - vm_compute in H1. injection H1 as <-. by vm_compute in H2.
Qed.

Definition sample_child : CapabilityLease :=
  match dl_entries sample_ledger !! "lease-child"%string with
  | Some {| en_content := Some c |} => c
  | _ => sample_root
  end.

Definition sample_child_entry : LedgerEntry :=
  {| en_state := Active 0; en_link := Link.Parent "lease-root"; en_content := Some sample_child |}.

Lemma sample_child_recorded : dl_entries sample_ledger !! "lease-child"%string = Some sample_child_entry.
Proof. vm_compute. reflexivity. Qed.

Lemma sample_child_above : above (dl_entries sample_ledger) "lease-child" "lease-root".
Proof. eapply above_up; [exact sample_child_recorded|reflexivity|constructor]. Qed.

Lemma verify_chain_refines_witness : chain_active (dl_entries sample_ledger) "lease-child".
Proof.
  apply (proj1 (verify_chain_refines sample_ledger "lease-child" sample_reachable)).
  vm_compute. reflexivity.
Defined.

Lemma delegation_never_amplifies_witness :
  l_expires_at sample_child = 100 ∧
  ∃ r er root, above (dl_entries sample_ledger) "lease-child" r ∧
    dl_entries sample_ledger !! r = Some er ∧ en_link er = Link.Root ∧
    en_content er = Some root ∧ attenuates root sample_child ∧ issuer_trusted sample_ledger sample_child.
Proof.
  split; [vm_compute; reflexivity|].
  apply (delegation_never_amplifies sample_ledger "lease-child" sample_child_entry sample_child);
    [exact sample_reachable|exact sample_child_recorded|reflexivity].
Defined.

Lemma revocation_is_final_witness :
  is_ok (verify_chain (ledger_revoke sample_ledger "lease-root" 1 "leaked") "lease-child") = false.
Proof.
  apply (revocation_is_final sample_ledger "lease-root" 1 "leaked"
           (ledger_revoke sample_ledger "lease-root" 1 "leaked") "lease-child");
    [exact sample_reachable|constructor|left; exact sample_child_above].
Defined.
