(* ===== verification/Authority.v ===== *)
(** * Authority: the gate every launch passes

    aa-isolation/src/authority.rs: the effective authority of a launch specification, the
    admission of a requirement under a lease, and the check that a child launch stays
    within its parent.  [ParentAuthority] of attenuation.rs holds a shared handle to the
    delegation ledger; the gate's definitions take the ledger it reaches as an argument,
    as it stands when the gate runs.

    [authority_gate] is characterised by what an admitted launch is guaranteed. *)

From stdpp Require Import base gmap strings list.
From Stdlib Require Import ZArith Lia Bool String.
From S2P Require Import Prelude.
From S2P Require Import Leases.
From S2P Require Import ScopeOrder.
From S2P Require Import Ledger.
From S2P Require Import LedgerProps.

Open Scope Z_scope.
Open Scope aasm_scope.

(** ** Data *)

Module AuthorityState.
Inductive t := Denied | Leased (lease : CapabilityLease) | CompatibilityResidual.
End AuthorityState.

Definition is_granted (s : AuthorityState.t) : bool :=
  match s with AuthorityState.Denied => false | _ => true end.

Definition state_as_str (s : AuthorityState.t) : string :=
  match s with
  | AuthorityState.Denied => "denied"
  | AuthorityState.Leased _ => "leased"
  | AuthorityState.CompatibilityResidual => "compatibility_residual"
  end.

Record EffectiveAuthority := { ea_states : list (CapabilityDomain * AuthorityState.t) }.

Inductive AuthorityBuildError := DuplicateLeaseDomain (d : CapabilityDomain).

Definition build_error_display (e : AuthorityBuildError) : string :=
  match e with
  | DuplicateLeaseDomain d => ("spec carries two leases for domain `" ++ domain_as_str d ++ "`")%string
  end.

Record ParentAuthority := {
  pa_identity : IdentityRef;
  pa_authority : EffectiveAuthority;
  pa_credentials : CredentialPosture;
}.

Module Ancestry.
Inductive t :=
| Root
| Parent (p : ParentAuthority)
| UnresolvedParent (claimed_ancestor detail : string).
End Ancestry.

Module Refusal.
Inductive t :=
| NoExplicitGrant (d : CapabilityDomain)
| LeaseInvalid (d : CapabilityDomain) (reason : LeaseInvalid.t)
| LeaseScopeInsufficient (d : CapabilityDomain)
| Malformed (e : AuthorityBuildError)
| AncestryUnresolved (claimed_ancestor detail : string)
| AncestryMismatch (claimed_ancestor : string)
| ChildExceedsParent (d : CapabilityDomain)
| AttenuationIncomparable (d : CapabilityDomain)
| ChildExtendsExpiry (d : CapabilityDomain)
| ChildExceedsLimits (d : CapabilityDomain)
| ProvenanceMismatch (d : CapabilityDomain)
| DelegationRightsExceedParent (d : CapabilityDomain)
| StaleParentGeneration (d : CapabilityDomain)
| EscalationNotIndependentlyApproved (d : CapabilityDomain)
| LeaseSubjectMismatch (d : CapabilityDomain) (lease_subject : string)
| RevokedInLedger (d : CapabilityDomain) (lease : LeaseId) (reason : string)
| LedgerUnverifiable (d : CapabilityDomain) (lease : LeaseId)
| LedgerContentMismatch (d : CapabilityDomain) (lease : LeaseId)
| ChildMustBeLeaseAware (d : CapabilityDomain).
End Refusal.

Definition refusal_domain (r : Refusal.t) : option CapabilityDomain :=
  match r with
  | Refusal.NoExplicitGrant d | Refusal.LeaseInvalid d _ | Refusal.LeaseScopeInsufficient d
  | Refusal.ChildExceedsParent d | Refusal.AttenuationIncomparable d | Refusal.ChildExtendsExpiry d
  | Refusal.ChildExceedsLimits d | Refusal.ProvenanceMismatch d
  | Refusal.DelegationRightsExceedParent d | Refusal.StaleParentGeneration d
  | Refusal.EscalationNotIndependentlyApproved d | Refusal.LeaseSubjectMismatch d _
  | Refusal.RevokedInLedger d _ _ | Refusal.LedgerUnverifiable d _
  | Refusal.LedgerContentMismatch d _ | Refusal.ChildMustBeLeaseAware d => Some d
  | Refusal.Malformed (DuplicateLeaseDomain d) => Some d
  | Refusal.AncestryUnresolved _ _ | Refusal.AncestryMismatch _ => None
  end.

(** ** Effective authority *)

Definition deny_all : EffectiveAuthority :=
  {| ea_states := map (λ d, (d, AuthorityState.Denied)) domain_ALL |}.

(** The first entry of the domain is overwritten; none is added. *)
Fixpoint set_first (d : CapabilityDomain) (s : AuthorityState.t)
    (l : list (CapabilityDomain * AuthorityState.t)) : list (CapabilityDomain * AuthorityState.t) :=
  match l with
  | [] => []
  | (d', s') :: l' => if decide (d' = d) then (d', s) :: l' else (d', s') :: set_first d s l'
  end.

Definition authority_set (a : EffectiveAuthority) (d : CapabilityDomain) (s : AuthorityState.t)
  : EffectiveAuthority := {| ea_states := set_first d s (ea_states a) |}.

(** [None] is the panic of [expect]. *)
Definition authority_state (a : EffectiveAuthority) (d : CapabilityDomain) : option AuthorityState.t :=
  snd <$> find (λ e, bool_decide (fst e = d)) (ea_states a).

Definition is_lease_aware (s : ExecutionSpec) : bool :=
  match es_leases s with [] => false | _ => true end.

(** The loop of [from_leases]: [seen] is [leases[..index]]. *)
Fixpoint from_leases_loop (a : EffectiveAuthority) (seen rest : list CapabilityLease)
  : result EffectiveAuthority AuthorityBuildError :=
  match rest with
  | [] => Ok a
  | lease :: rest' =>
      if existsb (λ l, bool_decide (l_domain l = l_domain lease)) seen
      then Err (DuplicateLeaseDomain (l_domain lease))
      else from_leases_loop (authority_set a (l_domain lease) (AuthorityState.Leased lease))
             (seen ++ [lease]) rest'
  end.

Definition from_leases (leases : list CapabilityLease) : result EffectiveAuthority AuthorityBuildError :=
  from_leases_loop deny_all [] leases.

Definition from_spec (s : ExecutionSpec) : result EffectiveAuthority AuthorityBuildError :=
  if negb (is_lease_aware s)
  then Ok (foldl (λ a r, authority_set a (cr_domain r) AuthorityState.CompatibilityResidual)
             deny_all (es_requirements s))
  else from_leases (es_leases s).

Definition effective_authority_for_report (s : ExecutionSpec) : EffectiveAuthority :=
  match from_spec s with Ok a => a | Err _ => deny_all end.

Definition from_gated_spec (s : ExecutionSpec) : ParentAuthority :=
  {| pa_identity := es_identity s; pa_authority := effective_authority_for_report s;
     pa_credentials := es_credentials s |}.

(** The outer [None] is the panic of [authority_state]. *)
Definition lease_for (p : ParentAuthority) (d : CapabilityDomain) : option (option CapabilityLease) :=
  match authority_state (pa_authority p) d with
  | None => None
  | Some (AuthorityState.Leased lease) => Some (Some lease)
  | Some _ => Some None
  end.

(** ** The gate *)

Definition covered (state : AuthorityState.t) (d : CapabilityDomain) (scope : RequirementScope)
  : result unit Refusal.t :=
  match state with
  | AuthorityState.Denied => Err (Refusal.NoExplicitGrant d)
  | AuthorityState.CompatibilityResidual => Ok tt
  | AuthorityState.Leased lease =>
      let order_covers :=
        match compare (ScopeOrder := order_for d) (l_scope lease) scope with
        | ScopeOrdering.Narrower | ScopeOrdering.Equal => true
        | _ => false
        end in
      if lease_covers lease scope || order_covers then Ok tt
      else Err (Refusal.LeaseScopeInsufficient d)
  end.

Definition admit_lease (state : AuthorityState.t) (subject : string) (d : CapabilityDomain)
    (scope : RequirementScope) (now : Z) : result unit Refusal.t :=
  let? _ :=
    match state with
    | AuthorityState.Leased lease =>
        match validate_at lease now with
        | Err reason => Err (Refusal.LeaseInvalid d reason)
        | Ok _ =>
            if negb (String.eqb (agent_id (l_subject lease)) subject)
            then Err (Refusal.LeaseSubjectMismatch d (agent_id (l_subject lease)))
            else Ok tt
        end
    | _ => Ok tt
    end in
  covered state d scope.

Definition attenuation_applies (s : ExecutionSpec) (ancestry : Ancestry.t) : bool :=
  match ancestry with
  | Ancestry.Parent _ | Ancestry.UnresolvedParent _ _ => true
  | Ancestry.Root =>
      negb (match lineage (es_identity s) with [] => true | _ => false end) && is_lease_aware s
  end.

Definition delegation_rank (r : DelegationRule) : Z :=
  match r with NotDelegable => 0 | DelegableWithNarrowerScope => 1 end.

Definition is_independently_attributable (b : LeaseBasis) (child_subject parent_subject : IdentityRef)
  : bool :=
  (bool_decide (is_Some (approval_ref b)) || bool_decide (is_Some (policy_rule b)))
  && negb (String.eqb (agent_id (issuer b)) (agent_id child_subject))
  && negb (String.eqb (agent_id (issuer b)) (agent_id parent_subject)).

(** The parent's own lease: valid now, on an active chain, and the one recorded. *)
Definition check_parent_lease (L : DelegationLedger) (d : CapabilityDomain)
    (parent_lease : option CapabilityLease) (now : Z) : result unit Refusal.t :=
  match parent_lease with
  | None => Ok tt
  | Some pl =>
      match validate_at pl now with
      | Err reason => Err (Refusal.LeaseInvalid d reason)
      | Ok _ =>
          match verify_chain L (l_id pl) with
          | Err (ChainFault.Revoked lease reason) => Err (Refusal.RevokedInLedger d lease reason)
          | Err (ChainFault.Unverifiable lease) => Err (Refusal.LedgerUnverifiable d lease)
          | Ok _ =>
              if negb (content_matches L pl) then Err (Refusal.LedgerContentMismatch d (l_id pl))
              else Ok tt
          end
      end
  end.

(** What the ledger knows of the child's lease. *)
Definition check_child_recorded (L : DelegationLedger) (d : CapabilityDomain)
    (child_lease : CapabilityLease) : result unit Refusal.t :=
  if knows L (l_id child_lease) && negb (content_matches L child_lease)
  then Err (Refusal.LedgerContentMismatch d (l_id child_lease))
  else match revoked_reason L (l_id child_lease) with
       | Some reason => Err (Refusal.RevokedInLedger d (l_id child_lease) reason)
       | None => Ok tt
       end.

(** The first way in which the child's lease exceeds the parent's. *)
Definition attenuation_violation (d : CapabilityDomain) (parent_lease : option CapabilityLease)
    (child_lease : CapabilityLease) : option Refusal.t :=
  match parent_lease with
  | None => Some (Refusal.ChildExceedsParent d)
  | Some pl =>
      match compare (ScopeOrder := order_for d) (l_scope pl) (l_scope child_lease) with
      | ScopeOrdering.Wider => Some (Refusal.ChildExceedsParent d)
      | ScopeOrdering.Incomparable => Some (Refusal.AttenuationIncomparable d)
      | ScopeOrdering.Narrower | ScopeOrdering.Equal =>
          if l_expires_at pl <? l_expires_at child_lease then Some (Refusal.ChildExtendsExpiry d)
          else if limits_narrower_or_equal (default no_limits (l_limits pl))
                    (default no_limits (l_limits child_lease))
          then None else Some (Refusal.ChildExceedsLimits d)
      end
  end.

(** A child that exceeds its parent is admitted only as a recorded, independently
    approved grant. *)
Definition check_escalation (L : DelegationLedger) (parent : ParentAuthority) (d : CapabilityDomain)
    (child_lease : CapabilityLease) (child_identity : IdentityRef) (refusal : Refusal.t)
  : result unit Refusal.t :=
  let b := l_basis child_lease in
  if negb (bool_decide (is_Some (approval_ref b)) || bool_decide (is_Some (policy_rule b)))
  then Err refusal
  else if is_independently_attributable b child_identity (pa_identity parent)
          && knows L (l_id child_lease) && content_matches L child_lease
  then Ok tt
  else Err (Refusal.EscalationNotIndependentlyApproved d).

Definition check_provenance (d : CapabilityDomain) (parent_lease : option CapabilityLease)
    (child_lease : CapabilityLease) : result unit Refusal.t :=
  match parent_lease, l_provenance child_lease with
  | Some pl, Some pv =>
      if negb (String.eqb (pv_parent_lease pv) (l_id pl)) then Err (Refusal.ProvenanceMismatch d)
      else if delegation_rank (pv_parent_delegation pv) <? delegation_rank (l_delegation child_lease)
      then Err (Refusal.DelegationRightsExceedParent d)
      else if negb (pv_parent_generation pv =? revocation_generation (l_revocation pl))
      then Err (Refusal.StaleParentGeneration d)
      else Ok tt
  | _, _ => Ok tt
  end.

(** The lease of the child beside the lease its parent has for the domain. *)
Definition check_child_lease (L : DelegationLedger) (parent : ParentAuthority) (d : CapabilityDomain)
    (parent_lease : option CapabilityLease) (child_lease : CapabilityLease) (child_identity : IdentityRef) (now : Z)
  : result unit Refusal.t :=
  let? _ := check_parent_lease L d parent_lease now in
  let? _ := check_child_recorded L d child_lease in
  match attenuation_violation d parent_lease child_lease with
  | Some refusal => check_escalation L parent d child_lease child_identity refusal
  | None => check_provenance d parent_lease child_lease
  end.

(** The outer [None] is the panic of [lease_for]. *)
Definition check_attenuation (L : DelegationLedger) (parent : ParentAuthority) (d : CapabilityDomain)
    (state : AuthorityState.t) (child_identity : IdentityRef) (now : Z) : option (result unit Refusal.t) :=
  match state with
  | AuthorityState.CompatibilityResidual => Some (Err (Refusal.ChildMustBeLeaseAware d))
  | AuthorityState.Denied => Some (Err (Refusal.NoExplicitGrant d))
  | AuthorityState.Leased child_lease =>
      match lease_for parent d with
      | None => None
      | Some parent_lease => Some (check_child_lease L parent d parent_lease child_lease child_identity now)
      end
  end.

(** The parent the launch is checked against, or why it cannot be. *)
Definition resolve_parent (s : ExecutionSpec) (ancestry : Ancestry.t)
  : result (option ParentAuthority) Refusal.t :=
  if attenuation_applies s ancestry then
    match ancestry with
    | Ancestry.Parent parent => Ok (Some parent)
    | Ancestry.Root =>
        Err (Refusal.AncestryUnresolved (default ""%string (last (lineage (es_identity s))))
               "this spec claims lineage but no parent authority was resolved for it")
    | Ancestry.UnresolvedParent claimed_ancestor detail =>
        Err (Refusal.AncestryUnresolved claimed_ancestor detail)
    end
  else Ok None.

Definition check_lineage (s : ExecutionSpec) (parent : option ParentAuthority) : result unit Refusal.t :=
  match parent with
  | Some p =>
      if negb (match lineage (es_identity s) with [] => true | _ => false end)
         && negb (existsb (λ a, String.eqb a (agent_id (pa_identity p))) (lineage (es_identity s)))
      then Err (Refusal.AncestryMismatch (agent_id (pa_identity p)))
      else Ok tt
  | None => Ok tt
  end.

(** The loop over the requirements.  The outer [None] is the panic of [authority_state], of
    the launch's own authority or of its parent's. *)
Fixpoint check_requirements (L : DelegationLedger) (s : ExecutionSpec) (a : EffectiveAuthority)
    (parent : option ParentAuthority) (now : Z) (rs : list ControlRequirement)
  : option (result unit Refusal.t) :=
  match rs with
  | [] => Some (Ok tt)
  | r :: rs' =>
      let d := cr_domain r in
      match authority_state a d with
      | None => None
      | Some state =>
          match admit_lease state (agent_id (es_identity s)) d (cr_scope r) now with
          | Err e => Some (Err e)
          | Ok _ =>
              match match parent with
                    | Some p => check_attenuation L p d state (es_identity s) now
                    | None => Some (Ok tt)
                    end with
              | None => None
              | Some (Err e) => Some (Err e)
              | Some (Ok _) => check_requirements L s a parent now rs'
              end
          end
      end
  end.

Definition authority_gate (L : DelegationLedger) (s : ExecutionSpec) (ancestry : Ancestry.t) (now : Z)
  : option (result unit Refusal.t) :=
  match from_spec s with
  | Err e => Some (Err (Refusal.Malformed e))
  | Ok a =>
      match resolve_parent s ancestry with
      | Err e => Some (Err e)
      | Ok parent =>
          match check_lineage s parent with
          | Err e => Some (Err e)
          | Ok _ => check_requirements L s a parent now (es_requirements s)
          end
      end
  end.
