(* ===== verification/AuthorityProps.v ===== *)
(** * AuthorityProps: what an admitted launch is guaranteed

    The gate never panics, holds every requirement to a lease of the launch's own, and
    under a parent holds that lease to the parent's authority and to the ledger. *)

From stdpp Require Import base gmap strings list relations.
From Stdlib Require Import ZArith Lia Bool String.
From S2P Require Import Prelude.
From S2P Require Import Leases.
From S2P Require Import ScopeOrder.
From S2P Require Import Ledger.
From S2P Require Import LedgerProps.
From S2P Require Import Authority.

Open Scope Z_scope.
Open Scope aasm_scope.

(** ** Effective authority *)

Definition total (a : EffectiveAuthority) : Prop := map fst (ea_states a) = domain_ALL.

Lemma total_deny_all : total deny_all.
Proof. reflexivity. Qed.

Lemma total_set a d s : total a → total (authority_set a d s).
Proof.
  unfold total. simpl. intros <-. induction (ea_states a) as [|[d' s'] l IH]; simpl; [done|].
  destruct (decide (d' = d)); simpl; [done|]. by rewrite IH.
Qed.

Lemma find_first (l : list (CapabilityDomain * AuthorityState.t)) d :
  d ∈ map fst l → ∃ s, find (λ e, bool_decide (fst e = d)) l = Some (d, s).
Proof.
  induction l as [|[d' s'] l IH]; simpl; [by intros ?%not_elem_of_nil|].
  case_bool_decide as E; simpl in E; [subst; eauto|].
  intros [->|H]%elem_of_cons; [done|]. by apply IH.
Qed.

Lemma total_state a d : total a → is_Some (authority_state a d).
Proof.
  intros H. unfold authority_state. destruct (find_first (ea_states a) d) as [s ->]; [|by eexists].
  rewrite H. apply domain_ALL_total.
Qed.

Lemma authority_state_set a d s d' :
  total a → authority_state (authority_set a d s) d' = if decide (d' = d) then Some s else authority_state a d'.
Proof.
  intros H. assert (d ∈ map fst (ea_states a)) as Hd by (rewrite H; apply domain_ALL_total). clear H.
  unfold authority_state. simpl. induction (ea_states a) as [|[d0 s0] l IH]; simpl in *.
  { by apply not_elem_of_nil in Hd. }
  destruct (decide (d0 = d)) as [->|Hne]; simpl.
  - destruct (decide (d' = d)) as [->|Hd']; [by rewrite bool_decide_true|].
    by rewrite !bool_decide_false by (intros E; by symmetry in E).
  - apply elem_of_cons in Hd as [->|Hd]; [done|]. case_bool_decide as E; simpl in E.
    + subst d0. by rewrite decide_False.
    + by apply IH.
Qed.

Lemma deny_all_state d : authority_state deny_all d = Some AuthorityState.Denied.
Proof. by destruct d. Qed.

(** What the loop leaves in place: the lease of a domain once seen, and the previous
    answer for a domain without one. *)
Lemma from_leases_loop_Ok a seen rest a' :
  total a → from_leases_loop a seen rest = Ok a' →
  total a' ∧
  (∀ l, l ∈ rest → authority_state a' (l_domain l) = Some (AuthorityState.Leased l)) ∧
  (∀ d, (∀ l, l ∈ rest → l_domain l ≠ d) → authority_state a' d = authority_state a d) ∧
  (∀ l l', l ∈ seen → l' ∈ rest → l_domain l ≠ l_domain l').
Proof.
  revert a seen. induction rest as [|x rest IH]; intros a seen Ht; simpl.
  { intros [= <-]. split; [done|]. split; [by intros l ?%not_elem_of_nil|]. split; [done|].
    by intros ? ? _ ?%not_elem_of_nil. }
  destruct (existsb _ seen) eqn:Hseen; [done|]. intros H.
  destruct (IH _ _ (total_set _ _ _ Ht) H) as (Ht' & Hin & Hout & Hdis). split; [done|].
  assert (∀ l, l ∈ rest → l_domain l ≠ l_domain x) as Hx.
  { intros l Hl Heq. apply (Hdis x l); [|done|done]. apply elem_of_app. right. by left. }
  split_and!.
  - intros l [->|Hl]%elem_of_cons; [|by apply Hin].
    rewrite Hout by done. rewrite authority_state_set by done. by rewrite decide_True.
  - intros d Hd. rewrite Hout by (intros l Hl; apply Hd; by right).
    rewrite authority_state_set by done. rewrite decide_False; [done|].
    intros ->. by apply (Hd x); [left|].
  - intros l l' Hl [->|Hl']%elem_of_cons.
    + intros Heq. apply not_true_iff_false in Hseen. apply Hseen, existsb_exists.
      exists l. rewrite <- list_elem_of_In. split; [done|]. by apply bool_decide_eq_true.
    + apply Hdis; [|done]. apply elem_of_app. by left.
Qed.

Lemma from_leases_state leases a d :
  from_leases leases = Ok a →
  total a ∧
  ∀ s, authority_state a d = Some s →
    (∃ l, s = AuthorityState.Leased l ∧ l ∈ leases ∧ l_domain l = d) ∨
    s = AuthorityState.Denied ∧ ∀ l, l ∈ leases → l_domain l ≠ d.
Proof.
  intros (Ht & Hin & Hout & _)%(from_leases_loop_Ok _ _ _ _ total_deny_all). split; [done|].
  intros s Hs. destruct (decide (Exists (λ l, l_domain l = d) leases)) as [He|Hn].
  - apply Exists_exists in He as (l & Hl & <-). left. exists l. rewrite Hin in Hs by done. by simplify_eq.
  - right. assert (∀ l, l ∈ leases → l_domain l ≠ d) as Hnot.
    { intros l Hl Heq. apply Hn, Exists_exists. eauto. }
    rewrite Hout in Hs by done. rewrite deny_all_state in Hs. by simplify_eq.
Qed.

Lemma residual_fold_state rs a d s :
  total a → authority_state (foldl (λ a r, authority_set a (cr_domain r) AuthorityState.CompatibilityResidual)
                               a rs) d = Some s →
  (s = AuthorityState.CompatibilityResidual ∨ authority_state a d = Some s) ∧
  total (foldl (λ a r, authority_set a (cr_domain r) AuthorityState.CompatibilityResidual) a rs).
Proof.
  revert a. induction rs as [|r rs IH]; intros a Ht; simpl; [by auto|].
  intros [Hs Ht']%(IH _ (total_set _ _ _ Ht)). split; [|done].
  destruct Hs as [->|Hs]; [by left|]. rewrite authority_state_set in Hs by done.
  case_decide; simplify_eq; auto.
Qed.

Lemma from_spec_total s a : from_spec s = Ok a → total a.
Proof.
  unfold from_spec. destruct (negb _).
  - intros [= <-]. generalize total_deny_all. generalize deny_all.
    induction (es_requirements s) as [|r rs IH]; intros a Ht; simpl; [done|]. by apply IH, total_set.
  - intros H. by destruct (from_leases_state _ _ FilesystemRead H).
Qed.

(** What a requirement's domain is granted, by the kind of specification. *)
Lemma from_spec_leased s a d st :
  from_spec s = Ok a → authority_state a d = Some st →
  match st with
  | AuthorityState.Leased l => l ∈ es_leases s ∧ l_domain l = d
  | AuthorityState.CompatibilityResidual => es_leases s = []
  | AuthorityState.Denied => ∀ l, l ∈ es_leases s → l_domain l ≠ d
  end.
Proof.
  unfold from_spec, is_lease_aware. destruct (es_leases s) as [|l0 ls]; simpl.
  - intros [= <-] [[->|H] _]%(residual_fold_state _ _ _ _ total_deny_all); [done|].
    rewrite deny_all_state in H. simplify_eq. by intros ? ?%not_elem_of_nil.
  - intros [_ H]%(from_leases_state _ _ d) Hst.
    destruct (H _ Hst) as [(l & -> & Hl & Hd)|[-> Hn]]; [by split|done].
Qed.

(** ** Admission under a lease *)

(** What a lease's scope grants a requirement: either everything the requirement's
    scope admits, or each stated ceiling. *)
Definition grants (d : CapabilityDomain) (lease : CapabilityLease) (wanted : RequirementScope) : Prop :=
  (∀ a, admits d wanted a = true → admits d (l_scope lease) a = true) ∨
  ∃ g w, l_scope lease = Limits g ∧ wanted = Limits w ∧ limits_cover g w = true.

Lemma lease_covers_grants d lease wanted : lease_covers lease wanted = true → grants d lease wanted.
Proof.
  unfold lease_covers, grants. destruct (l_scope lease) as [|g|g] eqn:Hs, wanted as [|w|w]; try done;
    [by left| |right; eauto]. rewrite forallb_forall. intros H. left. intros []; [|done]. cbn [admits].
  rewrite !existsb_exists. intros (s & Hin & Ha). exists s. split; [|done].
  apply H in Hin. apply bool_decide_eq_true in Hin. by apply list_elem_of_In.
Qed.

Lemma admit_lease_leased lease subject d scope now :
  admit_lease (AuthorityState.Leased lease) subject d scope now = Ok tt →
  validate_at lease now = Ok tt ∧ agent_id (l_subject lease) = subject ∧ grants d lease scope.
Proof.
  unfold admit_lease, result_bind, covered.
  destruct (validate_at lease now) as [[]|]; [|done].
  destruct (String.eqb_spec (agent_id (l_subject lease)) subject) as [<-|]; [|done]. simpl.
  destruct (lease_covers lease scope) eqn:Hc; simpl.
  - intros _. split_and!; try done. by apply lease_covers_grants.
  - intros H. split_and!; try done. left. intros a. apply order_for_sound.
    by destruct (compare (ScopeOrder := order_for d) (l_scope lease) scope).
Qed.

Lemma admit_lease_denied subject d scope now :
  admit_lease AuthorityState.Denied subject d scope now = Err (Refusal.NoExplicitGrant d).
Proof. done. Qed.

(** What the loop over the requirements established for each of them. *)
Definition requirement_checked (L : DelegationLedger) (s : ExecutionSpec) (a : EffectiveAuthority)
    (parent : option ParentAuthority) (now : Z) (r : ControlRequirement) : Prop :=
  ∃ st, authority_state a (cr_domain r) = Some st ∧
    admit_lease st (agent_id (es_identity s)) (cr_domain r) (cr_scope r) now = Ok tt ∧
    ∀ p, parent = Some p → check_attenuation L p (cr_domain r) st (es_identity s) now = Some (Ok tt).

Lemma check_requirements_Ok L s a parent now rs :
  check_requirements L s a parent now rs = Some (Ok tt) →
  ∀ r, r ∈ rs → requirement_checked L s a parent now r.
Proof.
  induction rs as [|r0 rs IH]; simpl; [by intros _ r ?%not_elem_of_nil|].
  destruct (authority_state a (cr_domain r0)) as [st|] eqn:Hst; [|done].
  destruct (admit_lease st _ _ _ now) as [[]|] eqn:Had; [|done].
  destruct (match parent with Some _ => _ | None => _ end) as [[[]|]|] eqn:Hat; [|done..].
  intros H r [->|Hr]%elem_of_cons; [|by apply IH].
  exists st. split_and!; try done. by intros p ->.
Qed.

Lemma authority_gate_Ok L s ancestry now :
  authority_gate L s ancestry now = Some (Ok tt) →
  ∃ a parent, from_spec s = Ok a ∧ resolve_parent s ancestry = Ok parent ∧
    check_lineage s parent = Ok tt ∧
    ∀ r, r ∈ es_requirements s → requirement_checked L s a parent now r.
Proof.
  unfold authority_gate. destruct (from_spec s) as [a|]; [|done].
  destruct (resolve_parent s ancestry) as [parent|]; [|done].
  destruct (check_lineage s parent) as [[]|] eqn:Hl; [|done].
  intros H. exists a, parent. eauto using check_requirements_Ok.
Qed.

(** The authority of a parent is that of a specification. *)
Lemma gated_parent_total s : total (pa_authority (from_gated_spec s)).
Proof.
  cbn [from_gated_spec pa_authority]. unfold effective_authority_for_report.
  destruct (from_spec s) as [a|] eqn:Ha; [by eapply from_spec_total|apply total_deny_all].
Qed.

Lemma check_attenuation_total L p d st child now :
  total (pa_authority p) → is_Some (check_attenuation L p d st child now).
Proof.
  intros Ht. unfold check_attenuation, lease_for. destruct st; [by eexists| |by eexists].
  destruct (total_state _ d Ht) as [st ->]. destruct st; by eexists.
Qed.

Lemma check_requirements_total L s a parent now rs :
  total a → (∀ p, parent = Some p → total (pa_authority p)) → is_Some (check_requirements L s a parent now rs).
Proof.
  intros Ht Hp. induction rs as [|r rs IH]; simpl; [by eexists|].
  destruct (total_state a (cr_domain r) Ht) as [st ->].
  destruct (admit_lease st _ _ _ now); [|by eexists]. destruct parent as [p|]; [|done].
  destruct (check_attenuation_total L p (cr_domain r) st (es_identity s) now (Hp p eq_refl)) as [[] ->]; [done|by eexists].
Qed.

(** C30: the gate always answers, whatever the specification and the ledger, for every
    ancestry that can be made: a parent's authority is only ever built from the specification
    of the parent.  The authority of the launch and that of its parent have an entry for every
    domain, so neither of the two lookups that the code expects to succeed panics. *)
Theorem authority_gate_total L s ancestry now :
  (∀ p, ancestry = Ancestry.Parent p → ∃ parent_spec, p = from_gated_spec parent_spec) →
  ∃ r, authority_gate L s ancestry now = Some r.
Proof.
  intros Hp. unfold authority_gate. destruct (from_spec s) as [a|] eqn:Ha; [|by eexists].
  destruct (resolve_parent s ancestry) as [parent|] eqn:Hr; [|by eexists].
  destruct (check_lineage s parent); [|by eexists].
  apply check_requirements_total; [by eapply from_spec_total|]. intros p ->.
  destruct (Hp p) as [ps ->]; [|apply gated_parent_total].
  unfold resolve_parent in Hr. destruct (attenuation_applies _ _); [|done]. by destruct ancestry; simplify_eq.
Qed.

(** With a record that lacks a domain in place of the parent's authority the gate would panic. *)
Lemma partial_parent_panics L s p r lease now :
  pa_authority p = {| ea_states := [] |} → es_requirements s = [r] → es_leases s = [lease] →
  l_domain lease = cr_domain r → lineage (es_identity s) = [] →
  admit_lease (AuthorityState.Leased lease) (agent_id (es_identity s)) (cr_domain r) (cr_scope r) now = Ok tt →
  authority_gate L s (Ancestry.Parent p) now = None.
Proof.
  intros Hp Hr Hl Hd Hlin Had. unfold authority_gate, from_spec, is_lease_aware, check_lineage.
  rewrite Hl, Hr, Hlin. cbn [negb from_leases from_leases_loop existsb resolve_parent attenuation_applies andb check_requirements].
  rewrite Hd. destruct (total_state _ (cr_domain r) (total_set _ (cr_domain r) (AuthorityState.Leased lease) total_deny_all)) as [st Hst].
  assert (st = AuthorityState.Leased lease) as -> by (revert Hst; clear; destruct (cr_domain r); by intros [= <-]).
  unfold check_attenuation, lease_for. rewrite Hst, Had, Hp. done.
Qed.

(** A launch that carries leases and is admitted
    holds, for each of its requirements, a lease of its own for that domain that is
    valid at that instant, names the launching agent as its subject, and grants what the
    requirement asks: every access its scope admits, or each ceiling it states.  An
    admitted launch that claims ancestors was checked against a resolved parent among
    them. *)
Theorem authority_gate_least_authority L s ancestry now :
  authority_gate L s ancestry now = Some (Ok tt) → is_lease_aware s = true →
  (∀ r, r ∈ es_requirements s →
     ∃ lease, lease ∈ es_leases s ∧ l_domain lease = cr_domain r ∧ validate_at lease now = Ok tt ∧
       agent_id (l_subject lease) = agent_id (es_identity s) ∧ grants (cr_domain r) lease (cr_scope r)) ∧
  (lineage (es_identity s) ≠ [] →
     ∃ p, ancestry = Ancestry.Parent p ∧ agent_id (pa_identity p) ∈ lineage (es_identity s)).
Proof.
  intros (a & parent & Ha & Hp & Hl & Hr)%authority_gate_Ok Haware. split.
  - intros r (st & Hst & Had & _)%Hr. pose proof (from_spec_leased _ _ _ _ Ha Hst) as Hfrom.
    destruct st as [|lease|].
    + by rewrite admit_lease_denied in Had.
    + apply admit_lease_leased in Had. exists lease. tauto.
    + unfold is_lease_aware in Haware. by rewrite Hfrom in Haware.
  - intros Hne. unfold resolve_parent in Hp. destruct ancestry as [|p|]; simpl in Hp.
    + rewrite Haware in Hp. by destruct (lineage (es_identity s)).
    + exists p. split; [done|]. injection Hp as <-. unfold check_lineage in Hl.
      destruct (lineage (es_identity s)) as [|x l] eqn:Hlin; [done|].
      destruct (existsb _ (x :: l)) eqn:He; [|done]. apply existsb_exists in He as (y & Hy & Heq).
      apply String.eqb_eq in Heq as <-. by apply list_elem_of_In.
    + done.
Qed.

(** ** Admission under a parent *)

Lemma content_matches_spec L lease :
  content_matches L lease = true →
  ∃ e c, dl_entries L !! l_id lease = Some e ∧ en_content e = Some c ∧ content_eq c lease.
Proof.
  unfold content_matches. destruct (dl_entries L !! l_id lease) as [e|]; [|done].
  destruct (en_content e) as [c|] eqn:Hc; [|done]. intros H%same_content_spec. by exists e, c.
Qed.

(** The lease is within a lease the parent holds, which is itself in force. *)
Definition bounded_by_parent (L : DelegationLedger) (p : ParentAuthority) (d : CapabilityDomain)
    (now : Z) (lease : CapabilityLease) : Prop :=
  ∃ pl, lease_for p d = Some (Some pl) ∧ validate_at pl now = Ok tt ∧
    chain_active (dl_entries L) (l_id pl) ∧ content_matches L pl = true ∧
    (∀ a, admits d (l_scope lease) a = true → admits d (l_scope pl) a = true) ∧
    l_expires_at lease ≤ l_expires_at pl ∧
    limits_narrower_or_equal (default no_limits (l_limits pl)) (default no_limits (l_limits lease)) = true.

(** The lease is a registered root grant of an issuer other than both launches. *)
Definition independently_granted (L : DelegationLedger) (p : ParentAuthority) (child : IdentityRef)
    (lease : CapabilityLease) : Prop :=
  (∃ e c, dl_entries L !! l_id lease = Some e ∧ en_link e = Link.Root ∧
          en_content e = Some c ∧ content_eq c lease) ∧
  issuer_trusted L lease ∧
  (is_Some (approval_ref (l_basis lease)) ∨ is_Some (policy_rule (l_basis lease))) ∧
  agent_id (issuer (l_basis lease)) ≠ agent_id child ∧
  agent_id (issuer (l_basis lease)) ≠ agent_id (pa_identity p).

Lemma check_parent_lease_Ok L d pl now :
  ledger_ok L → check_parent_lease L d (Some pl) now = Ok tt →
  validate_at pl now = Ok tt ∧ chain_active (dl_entries L) (l_id pl) ∧ content_matches L pl = true.
Proof.
  intros Hok. unfold check_parent_lease. destruct (validate_at pl now) as [[]|]; [|done].
  destruct (verify_chain L (l_id pl)) as [[]|[]] eqn:Hv; try done.
  apply verify_chain_Ok_iff in Hv; [|done]. by destruct (content_matches L pl).
Qed.

Lemma attenuation_violation_None d parent_lease lease :
  attenuation_violation d parent_lease lease = None →
  ∃ pl, parent_lease = Some pl ∧
    (∀ a, admits d (l_scope lease) a = true → admits d (l_scope pl) a = true) ∧
    l_expires_at lease ≤ l_expires_at pl ∧
    limits_narrower_or_equal (default no_limits (l_limits pl)) (default no_limits (l_limits lease)) = true.
Proof.
  unfold attenuation_violation. destruct parent_lease as [pl|]; [|done]. intros H. exists pl.
  split; [done|].
  assert (no_wider (compare (ScopeOrder := order_for d) (l_scope pl) (l_scope lease)) = true) as Hw.
  { by destruct (compare (ScopeOrder := order_for d) (l_scope pl) (l_scope lease)). }
  split; [intros a; by apply order_for_sound|].
  destruct (Z.ltb_spec (l_expires_at pl) (l_expires_at lease));
    [by destruct (compare (ScopeOrder := order_for d) (l_scope pl) (l_scope lease))|].
  split; [done|]. destruct (limits_narrower_or_equal _ _); [done|].
  by destruct (compare (ScopeOrder := order_for d) (l_scope pl) (l_scope lease)).
Qed.

(** Derived leases carry no approval, so a recorded lease that does is a root. *)
Lemma recorded_approved_is_root L lease :
  ledger_ok L → content_matches L lease = true →
  is_Some (approval_ref (l_basis lease)) ∨ is_Some (policy_rule (l_basis lease)) →
  ∃ e c, dl_entries L !! l_id lease = Some e ∧ en_link e = Link.Root ∧
         en_content e = Some c ∧ content_eq c lease ∧ issuer_trusted L lease.
Proof.
  intros Hok (e & c & He & Hc & Heq)%content_matches_spec Happ. exists e, c.
  pose proof (content_eq_fields _ _ Heq) as Hf. destruct_and!.
  destruct (lo_entries _ Hok _ _ He) as [_ Hroot Hpar Hun]. destruct (en_link e) as [|p|] eqn:Hl.
  - destruct (Hroot eq_refl) as (c' & Hc' & _ & Ht). simplify_eq.
    split_and!; try done. unfold issuer_trusted in *. by replace (l_basis lease) with (l_basis c).
  - destruct (Hpar p eq_refl) as (c' & _ & _ & _ & Hc' & _ & _ & _ & Ha & Hr & _). simplify_eq.
    replace (l_basis lease) with (l_basis c) in Happ by done. rewrite Ha, Hr in Happ.
    by destruct Happ as [[? ?]|[? ?]].
  - destruct (Hun eq_refl). congruence.
Qed.

Lemma check_escalation_Ok L p d lease child refusal :
  ledger_ok L → check_escalation L p d lease child refusal = Ok tt →
  independently_granted L p child lease.
Proof.
  intros Hok. unfold check_escalation, is_independently_attributable.
  destruct (bool_decide (is_Some (approval_ref (l_basis lease)))
            || bool_decide (is_Some (policy_rule (l_basis lease)))) eqn:Happ; [|done]. cbn [negb andb].
  destruct (String.eqb_spec (agent_id (issuer (l_basis lease))) (agent_id child)); [done|].
  destruct (String.eqb_spec (agent_id (issuer (l_basis lease))) (agent_id (pa_identity p))); [done|].
  simpl. destruct (knows L (l_id lease)); [|done]. destruct (content_matches L lease) eqn:Hm; [|done].
  intros _. rewrite orb_true_iff, !bool_decide_eq_true in Happ.
  destruct (recorded_approved_is_root L lease Hok Hm Happ) as (e & c & ? & ? & ? & ? & ?).
  split; [by exists e, c|]. done.
Qed.

(** A recorded child the ledger has not revoked is on an active chain when its claimed
    parent's chain is. *)
Lemma check_child_recorded_Ok L d lease :
  check_child_recorded L d lease = Ok tt → knows L (l_id lease) = true →
  ∃ e, dl_entries L !! l_id lease = Some e ∧ is_active (en_state e) = true ∧ content_matches L lease = true.
Proof.
  unfold check_child_recorded. intros H Hk. rewrite Hk in H.
  destruct (content_matches L lease) eqn:Hm; [|done]. simpl in H. unfold revoked_reason in H.
  apply bool_decide_eq_true in Hk as [e He]. rewrite He in H. exists e. by destruct (en_state e).
Qed.

Lemma check_attenuation_Ok L p d st child now :
  ledger_ok L → check_attenuation L p d st child now = Some (Ok tt) →
  ∃ lease, st = AuthorityState.Leased lease ∧
    (bounded_by_parent L p d now lease ∨ independently_granted L p child lease) ∧
    (knows L (l_id lease) = true → chain_active (dl_entries L) (l_id lease)).
Proof.
  intros Hok. unfold check_attenuation. destruct st as [|lease|]; try done.
  destruct (lease_for p d) as [held|] eqn:Hheld; [|done]. intros [= H]. exists lease. split; [done|].
  unfold check_child_lease, result_bind in H.
  destruct (check_parent_lease L d held now) as [[]|] eqn:Hp; [|done].
  destruct (check_child_recorded L d lease) as [[]|] eqn:Hc; [|done].
  destruct (attenuation_violation d held lease) as [refusal|] eqn:Hv.
  - apply check_escalation_Ok in H; [|done]. split; [by right|]. intros Hk.
    destruct (check_child_recorded_Ok _ _ _ Hc Hk) as (e & He & Ha & _).
    destruct H as [(e' & c & He' & Hl & _) _]. simplify_eq. by eapply chain_root.
  - apply attenuation_violation_None in Hv as (pl & -> & Hs & Hx & Hlim).
    apply check_parent_lease_Ok in Hp as (Hvalid & Hchain & Hcm); [|done].
    split; [left; by exists pl|]. intros Hk.
    destruct (check_child_recorded_Ok _ _ _ Hc Hk) as (e & He & Ha & Hm).
    apply content_matches_spec in Hm as (e' & c & He' & Hce & Heq). simplify_eq.
    destruct (lo_entries _ Hok _ _ He) as [_ _ Hpar Hun]. destruct (en_link e) as [|q|] eqn:Hl.
    + by eapply chain_root.
    + destruct (Hpar q eq_refl) as (c' & pv & _ & _ & Hc' & Hpv & Hq & _). simplify_eq.
      eapply chain_parent; [done..|]. pose proof (content_eq_fields _ _ Heq) as Hf. destruct_and!.
      unfold check_provenance in H. replace (l_provenance lease) with (Some pv) in H by congruence.
      destruct (String.eqb_spec (pv_parent_lease pv) (l_id pl)) as [->|]; done.
    + destruct (Hun eq_refl). congruence.
Qed.

(** C10: a launch admitted under a resolved parent holds,
    for each requirement, a lease that is bounded by one the parent itself holds (valid
    now, recorded with that content, every ancestor unrevoked; no wider in access,
    expiry or limits), or is a registered root grant approved by an issuer that is
    neither the launch nor its parent.  A launch without leases is not admitted. *)
Theorem authority_gate_attenuates L s p now :
  ledger_reachable L → authority_gate L s (Ancestry.Parent p) now = Some (Ok tt) →
  ∀ r, r ∈ es_requirements s →
  ∃ lease, lease ∈ es_leases s ∧ l_domain lease = cr_domain r ∧
    (bounded_by_parent L p (cr_domain r) now lease ∨ independently_granted L p (es_identity s) lease).
Proof.
  intros Hok%reachable_ok (a & parent & Ha & Hp & _ & Hr)%authority_gate_Ok r Hin.
  injection Hp as <-. destruct (Hr _ Hin) as (st & Hst & _ & Hat).
  destruct (check_attenuation_Ok _ _ _ _ _ _ Hok (Hat p eq_refl)) as (lease & -> & Hb & _).
  destruct (from_spec_leased _ _ _ _ Ha Hst). exists lease. done.
Qed.

Lemma above_known entries d k e : above entries d k → entries !! k = Some e → is_Some (entries !! d).
Proof. destruct 1; eauto. Qed.

(** Revocation reaches every launch below it: after a
    lease is revoked and whatever the ledger has recorded since, no launch under a parent
    is admitted while one of its requirements relies on the revoked lease or a lease
    derived from it at any depth. *)
Theorem revoked_launch_refused L k g reason L' s p now r lease :
  ledger_reachable L → rtc ledger_step (ledger_revoke L k g reason) L' →
  r ∈ es_requirements s → lease ∈ es_leases s → l_domain lease = cr_domain r →
  above (dl_entries L') (l_id lease) k →
  authority_gate L' s (Ancestry.Parent p) now ≠ Some (Ok tt).
Proof.
  intros Hok%reachable_ok Hs Hr Hl Hd Hab (a & parent & Ha & Hp & _ & Hreq)%authority_gate_Ok.
  destruct (ledger_revoke_ok L k g reason Hok) as [_ Hok1].
  destruct (ledger_steps_ok _ _ Hok1 Hs) as [Hg Hok'].
  injection Hp as <-. destruct (Hreq _ Hr) as (st & Hst & _ & Hat).
  destruct (check_attenuation_Ok _ _ _ _ _ _ Hok' (Hat p eq_refl)) as (lease' & -> & _ & Hchain).
  assert (lease' = lease) as ->.
  { unfold from_spec in Ha. destruct (is_lease_aware s) eqn:Haw.
    - apply (from_leases_loop_Ok _ _ _ _ total_deny_all) in Ha as (_ & Hin & _).
      specialize (Hin _ Hl). rewrite Hd in Hin. congruence.
    - unfold is_lease_aware in Haw. destruct (es_leases s); [|done]. by apply not_elem_of_nil in Hl. }
  apply (revoked_stays L k g reason L' (l_id lease) Hok Hs); [by right|]. apply Hchain.
  apply bool_decide_eq_true. destruct (revoke_marks L k g reason) as (e & He & _).
  destruct Hg as [_ Hg]. destruct (Hg _ _ He) as (e' & He' & _). by eapply above_known.
Qed.

(** ** Witnesses: the planner's launch and the coder it delegates to *)

Definition sample_parent : ParentAuthority :=
  from_gated_spec (with_lease (spec_new "plan" (identity_root "planner")) sample_root).

Definition sample_requirement : ControlRequirement :=
  with_scope (requirement_observe FilesystemRead) (Selectors ["permit-only:/workspace/src/lib"%string]).

Definition sample_spec : ExecutionSpec :=
  with_requirement
    (with_lease (spec_new "code" (with_ancestor (identity_root "coder") "planner")) sample_child)
    sample_requirement.

Lemma sample_admitted :
  authority_gate sample_ledger sample_spec (Ancestry.Parent sample_parent) 50 = Some (Ok tt).
Proof. vm_compute. reflexivity. Qed.

Lemma sample_required : sample_requirement ∈ es_requirements sample_spec.
Proof. left. Qed.

Lemma authority_gate_least_authority_witness :
  ∃ lease, lease ∈ es_leases sample_spec ∧ l_domain lease = cr_domain sample_requirement ∧
    validate_at lease 50 = Ok tt ∧ agent_id (l_subject lease) = "coder"%string ∧
    grants FilesystemRead lease (cr_scope sample_requirement).
Proof.
  apply (proj1 (authority_gate_least_authority _ _ _ _ sample_admitted eq_refl) sample_requirement).
  exact sample_required.
Defined.

Lemma authority_gate_total_witness :
  ∃ r, authority_gate sample_ledger sample_spec (Ancestry.Parent sample_parent) 50 = Some r.
Proof. apply authority_gate_total. intros p [= <-]. eexists. reflexivity. Defined.

Lemma authority_gate_attenuates_witness :
  ∃ lease, lease ∈ es_leases sample_spec ∧ l_domain lease = FilesystemRead ∧
    (bounded_by_parent sample_ledger sample_parent FilesystemRead 50 lease ∨
     independently_granted sample_ledger sample_parent (es_identity sample_spec) lease).
Proof.
  apply (authority_gate_attenuates sample_ledger sample_spec sample_parent 50 sample_reachable
           sample_admitted sample_requirement).
  exact sample_required.
Defined.

Lemma revoked_launch_refused_witness :
  authority_gate (ledger_revoke sample_ledger "lease-root" 1 "leaked") sample_spec
    (Ancestry.Parent sample_parent) 50 ≠ Some (Ok tt).
Proof.
  refine (revoked_launch_refused sample_ledger "lease-root" 1 "leaked" _ sample_spec sample_parent 50
            sample_requirement sample_child sample_reachable (rtc_refl _ _) sample_required _ _ _).
  - left.
  - vm_compute. reflexivity.
  - eapply above_up; [vm_compute; reflexivity|vm_compute; reflexivity|constructor].
Defined.
