(* ===== verification/Resolve.v ===== *)
(** * Resolve: from a validated document to the policy a launch runs under

    aa-policy/src/canonical.rs (the projection onto the AST of aa-security/src/policy)
    and aa-policy/src/resolve.rs (the four resolution states).  [classify] starts from
    what the YAML validator returned; the digest of the document is an argument. *)

From stdpp Require Import base gmap strings list.
From Stdlib Require Import ZArith Lia Bool String.
From S2P Require Import Prelude.
From S2P Require Import Text.
From S2P Require Import CoreTypes.
From S2P Require Import Capability.
From S2P Require Import PathScope.
From S2P Require Import PolicyDocument.

Open Scope Z_scope.

(** ** The canonical AST: aa-security/src/policy/capability.rs and document.rs *)

Module Canon.
Inductive Capability :=
| FileRead | FileWrite | FileDelete | NetworkOutbound | NetworkInbound | TerminalExec
| McpTool (name : string)
| Model (name : string)
| AgentSpawn.

#[global] Instance Capability_eq_dec : EqDecision Capability.
Proof. solve_decision. Defined.

Definition from_str (s : string) : result Capability string :=
  if String.eqb s "file_read" then Ok FileRead
  else if String.eqb s "file_write" then Ok FileWrite
  else if String.eqb s "file_delete" then Ok FileDelete
  else if String.eqb s "network_outbound" then Ok NetworkOutbound
  else if String.eqb s "network_inbound" then Ok NetworkInbound
  else if String.eqb s "terminal_exec" then Ok TerminalExec
  else if String.eqb s "agent_spawn" then Ok AgentSpawn
  else match strip_prefix s "mcp_tool:" with
       | Some name =>
           if is_empty name then Err "mcp_tool: name must not be empty"%string else Ok (McpTool name)
       | None =>
           match strip_prefix s "model:" with
           | Some name =>
               if is_empty name then Err "model: name must not be empty"%string else Ok (Model name)
           | None => Err ("unknown capability: '" ++ s ++ "'")%string
           end
       end.

Definition display (c : Capability) : string :=
  match c with
  | FileRead => "file_read"
  | FileWrite => "file_write"
  | FileDelete => "file_delete"
  | NetworkOutbound => "network_outbound"
  | NetworkInbound => "network_inbound"
  | TerminalExec => "terminal_exec"
  | AgentSpawn => "agent_spawn"
  | McpTool name => "mcp_tool:" ++ name
  | Model name => "model:" ++ name
  end%string.

(** The derived [Ord]: the order of the variants, then the name. *)
Definition rank (c : Capability) : Z :=
  match c with
  | FileRead => 0 | FileWrite => 1 | FileDelete => 2 | NetworkOutbound => 3 | NetworkInbound => 4
  | TerminalExec => 5 | McpTool _ => 6 | Model _ => 7 | AgentSpawn => 8
  end.

Definition name_of (c : Capability) : string :=
  match c with McpTool n | Model n => n | _ => EmptyString end.

Definition ltb (a b : Capability) : bool :=
  (rank a <? rank b) || ((rank a =? rank b) && str_ltb (name_of a) (name_of b)).

(** A [BTreeSet] in iteration order. *)
Fixpoint set_insert (c : Capability) (l : list Capability) : list Capability :=
  match l with
  | [] => [c]
  | x :: l' => if decide (c = x) then l else if ltb c x then c :: l else x :: set_insert c l'
  end.

Record CapabilitySet := { allow : list Capability; deny : list Capability }.

Definition default_set : CapabilitySet := {| allow := []; deny := [] |}.

Record ToolRule := { tr_name : string; tr_allow : bool; tr_requires_approval_if : option string }.

Record PolicyDocument := {
  name : option string;
  network : option (list string);
  capabilities : option CapabilitySet;
  tools : list ToolRule;
  syscall_allowlist : option Sys.SyscallAllowlist;
  filesystem : option FilesystemPolicy;
}.

Definition default_document : PolicyDocument :=
  {| name := None; network := None; capabilities := None; tools := [];
     syscall_allowlist := None; filesystem := None |}.

Definition denied_capabilities (d : PolicyDocument) : list Capability :=
  match capabilities d with Some c => deny c | None => [] end.

Definition egress_allowlist (d : PolicyDocument) : list string := default [] (network d).

Lemma elem_of_canon_insert c x l : x ∈ set_insert c l ↔ x = c ∨ x ∈ l.
Proof.
  induction l as [|y l IH]; simpl; [by rewrite list_elem_of_singleton; split; [left|intros [?|?%not_elem_of_nil]]|].
  destruct (decide (c = y)) as [->|]; [rewrite elem_of_cons; tauto|].
  destruct (ltb c y); rewrite !elem_of_cons; [tauto|]. rewrite IH. tauto.
Qed.
End Canon.

(** ** Projection onto the canonical AST *)

Definition to_canon_capability (c : Capability) : Canon.Capability :=
  match c with
  | FileRead => Canon.FileRead
  | FileWrite => Canon.FileWrite
  | FileDelete => Canon.FileDelete
  | NetworkOutbound => Canon.NetworkOutbound
  | NetworkInbound => Canon.NetworkInbound
  | TerminalExec => Canon.TerminalExec
  | McpTool n => Canon.McpTool n
  | Model n => Canon.Model n
  | AgentSpawn => Canon.AgentSpawn
  end.

Definition canon_set (caps : gset Capability) : list Canon.Capability :=
  foldl (λ s c, Canon.set_insert (to_canon_capability c) s) [] (elements caps).

Definition by_name_leb (a b : Canon.ToolRule) : bool := negb (str_ltb (Canon.tr_name b) (Canon.tr_name a)).

Definition to_canonical (d : PolicyDocument) : Canon.PolicyDocument :=
  {| Canon.name := pd_name d;
     Canon.network := np_allowlist <$> pd_network d;
     Canon.capabilities :=
       (λ caps, {| Canon.allow := canon_set (cs_allow caps); Canon.deny := canon_set (cs_deny caps) |})
         <$> pd_capabilities d;
     Canon.tools := stable_sort by_name_leb
       (map (λ '(n, t), {| Canon.tr_name := n; Canon.tr_allow := tp_allow t;
                           Canon.tr_requires_approval_if := tp_requires_approval_if t |})
          (map_to_list (pd_tools d)));
     Canon.syscall_allowlist := pd_syscall_allowlist d;
     Canon.filesystem := pd_filesystem d |}.

(** [CanonicalLeaseGrant] has the fields of [LeaseGrant], copied one by one. *)
Definition CanonicalLeaseGrant : Type := Lease.LeaseGrant.

Definition to_canonical_leases (d : PolicyDocument) : list CanonicalLeaseGrant :=
  map (λ g, {| Lease.lg_domain := Lease.lg_domain g; Lease.lg_scope := Lease.lg_scope g;
               Lease.lg_max_count := Lease.lg_max_count g; Lease.lg_ttl_seconds := Lease.lg_ttl_seconds g;
               Lease.lg_delegable := Lease.lg_delegable g; Lease.lg_issuer := Lease.lg_issuer g;
               Lease.lg_policy_rule := Lease.lg_policy_rule g;
               Lease.lg_approval_ref := Lease.lg_approval_ref g; Lease.lg_reason := Lease.lg_reason g |})
    (pd_leases d).

(** ** Rules for a dev-tool adapter: aa-core's [PolicyDocument] *)

Module Rule.
Inductive PolicyDecision := Allow | Deny | RequireApproval.
#[global] Instance PolicyDecision_eq_dec : EqDecision PolicyDecision.
Proof. solve_decision. Defined.

Record PolicyRule := { action_pattern : string; decision : PolicyDecision }.

Record PolicyDocument := {
  version : Z;
  name : string;
  rules : list PolicyRule;
  enforcement_mode : EnforcementMode;
}.
End Rule.

Definition rule_decision (t : ToolPolicy) : Rule.PolicyDecision :=
  match tp_allow t, tp_requires_approval_if t with
  | true, Some _ => Rule.RequireApproval
  | true, None => Rule.Allow
  | false, _ => Rule.Deny
  end.

Definition by_pattern_leb (a b : Rule.PolicyRule) : bool :=
  negb (str_ltb (Rule.action_pattern b) (Rule.action_pattern a)).

Definition project_rules (d : PolicyDocument) : Rule.PolicyDocument :=
  {| Rule.version := 1;
     Rule.name := default "policy"%string (pd_name d);
     Rule.rules := stable_sort by_pattern_leb
       (map (λ '(n, t), {| Rule.action_pattern := n; Rule.decision := rule_decision t |})
          (map_to_list (pd_tools d)));
     Rule.enforcement_mode := Enforce |}.

(** ** Resolution *)

Definition ToolCapabilityMap : Type := gmap string (list Lease.ToolCapability).

(** The fields the two launching states share. *)
Record Resolved := {
  rs_source : string;
  rs_document : Rule.PolicyDocument;
  rs_canonical : Canon.PolicyDocument;
  rs_egress : Egress.EgressPosture;
  rs_credentials : Brokerage.CredentialBrokeragePosture;
  rs_leases : list CanonicalLeaseGrant;
  rs_tool_capabilities : ToolCapabilityMap;
  rs_content_digest : string;
  rs_credential_action : CredentialAction;
}.

Inductive Unconfigured := NoSource (searched : list string) | EmptyDocument (source : string).

Inductive PolicyResolution :=
| Enforced (r : Resolved)
| Permissive (r : Resolved)
| UnconfiguredPolicy (u : Unconfigured)
| LoadFailed (source detail : string).

Definition is_explicit_allow_all (d : PolicyDocument) : bool :=
  (bool_decide (size (pd_tools d) = 1%nat)
   && match pd_tools d !! "*"%string with
      | Some t => tp_allow t && negb (bool_decide (is_Some (tp_requires_approval_if t)))
                  && negb (bool_decide (is_Some (tp_limit_per_hour t)))
      | None => false
      end)
  && negb (bool_decide (is_Some (pd_network d)))
  && negb (bool_decide (is_Some (pd_schedule d)))
  && negb (bool_decide (is_Some (pd_budget d)))
  && negb (bool_decide (is_Some (pd_capabilities d)))
  && match pd_data d with
     | Some data => match dp_sensitive_patterns data with [] => true | _ => false end
     | None => true
     end
  && match pd_egress d with Egress.NotRequired => true | _ => false end
  && match pd_credentials d with Brokerage.NotRequired => true | _ => false end.

Definition states_launch_constraint (d : PolicyDocument) : bool :=
  match pd_egress d with Egress.NotRequired => false | _ => true end
  || match pd_credentials d with Brokerage.NotRequired => false | _ => true end
  || match pd_leases d with [] => false | _ => true end.

Definition classify (content_digest : PolicyDocument → string) (source : string)
    (validated : result PolicyDocument (list string)) : PolicyResolution :=
  match validated with
  | Err errors => LoadFailed source (join "; " errors)
  | Ok d =>
      let document := project_rules d in
      if match Rule.rules document with [] => true | _ => false end && negb (states_launch_constraint d)
      then UnconfiguredPolicy (EmptyDocument source)
      else
        let r := {| rs_source := source; rs_document := document; rs_canonical := to_canonical d;
                    rs_egress := pd_egress d; rs_credentials := pd_credentials d;
                    rs_leases := to_canonical_leases d;
                    rs_tool_capabilities := omap tp_capabilities (pd_tools d);
                    rs_content_digest := content_digest d;
                    rs_credential_action :=
                      match pd_data d with
                      | Some data => dp_credential_action data
                      | None => credential_action_default
                      end |} in
        if is_explicit_allow_all d then Permissive r else Enforced r
  end.

Definition state_token (p : PolicyResolution) : string :=
  match p with
  | Enforced _ => "enforced"
  | Permissive _ => "permissive"
  | UnconfiguredPolicy _ => "unconfigured"
  | LoadFailed _ _ => "load_failed"
  end.

(** The launching states, which alone carry a document. *)
Definition resolved (p : PolicyResolution) : option Resolved :=
  match p with Enforced r | Permissive r => Some r | _ => None end.

Definition resolution_source (p : PolicyResolution) : option string :=
  match p with
  | Enforced r | Permissive r => Some (rs_source r)
  | LoadFailed source _ | UnconfiguredPolicy (EmptyDocument source) => Some source
  | UnconfiguredPolicy (NoSource _) => None
  end.

Definition canonical (p : PolicyResolution) : option Canon.PolicyDocument := rs_canonical <$> resolved p.

Definition egress_posture (p : PolicyResolution) : Egress.EgressPosture :=
  match resolved p with Some r => rs_egress r | None => Egress.NotRequired end.

Definition credentials_posture (p : PolicyResolution) : Brokerage.CredentialBrokeragePosture :=
  match resolved p with Some r => rs_credentials r | None => Brokerage.NotRequired end.

Definition resolution_credential_action (p : PolicyResolution) : CredentialAction :=
  match resolved p with Some r => rs_credential_action r | None => credential_action_default end.

Definition lease_grants (p : PolicyResolution) : list CanonicalLeaseGrant :=
  match resolved p with Some r => rs_leases r | None => [] end.

Definition tool_capabilities (p : PolicyResolution) : option ToolCapabilityMap :=
  rs_tool_capabilities <$> resolved p.

Definition resolution_content_digest (p : PolicyResolution) : option string :=
  rs_content_digest <$> resolved p.

(** The document to launch under, or the state that refuses. *)
Definition into_enforceable (p : PolicyResolution) : result Rule.PolicyDocument PolicyResolution :=
  match p with
  | Enforced r | Permissive r => Ok (rs_document r)
  | _ => Err p
  end.
