(* ===== verification/Lowering.v ===== *)
(** * Lowering: from a canonical policy to execution requirements

    aa-isolation/src/lowering.rs, [lower_policy]: one requirement per domain the policy
    restricts, and an account of every domain.  The prose constants of the source that
    explain a gap are named here, not spelled. *)

From stdpp Require Import base gmap strings list.
From Stdlib Require Import ZArith Lia Bool String.
From S2P Require Import Prelude.
From S2P Require Import Text.
From S2P Require Import PathScope.
From S2P Require Import PolicyDocument.
From S2P Require Import EgressHost.
From S2P Require Import Resolve.
From S2P Require Import Leases.
From S2P Require Import ScopeOrder.

Open Scope Z_scope.

(** ** Data *)

Inductive ScopeGranularity := Enumerated | WholeDomainOnly.

(** The source's text constants. *)
Inductive Gap :=
| FILESYSTEM_PATH_SCOPE_GAP | FILESYSTEM_PREFIX_SEMANTICS_GAP | FILESYSTEM_BACKEND_DEFAULTS_GAP
| FILESYSTEM_VERB_GAP | NETWORK_PORT_PROTOCOL_GAP | NETWORK_NAME_RESOLUTION_GAP
| SYSCALL_VOCABULARY_GAP | SYSCALL_FAILURE_SEMANTICS_GAP | PROCESS_DESCENDANT_CEILING_GAP
| NAME_RESOLUTION_GAP | IPC_GAP | CREDENTIAL_GAP | RESOURCE_GAP | WORKSPACE_TRANSACTION_GAP.

Inductive AbsentMeaning :=
| CAPABILITY_ABSENT_MEANING | FILESYSTEM_ABSENT_MEANING | NETWORK_ABSENT_MEANING
| SYSCALL_ABSENT_MEANING.

Definition CAPABILITY_NODE : string := "capabilities.deny / capabilities.allow".
Definition NETWORK_NODE : string := "network.allowlist".
Definition SYSCALL_NODE : string := "syscalls.allow".

Module DomainCoverage.
Inductive t :=
| Lowered (granularity : ScopeGranularity) (sourced_from : list string)
| NotStated (node : string) (schema_default : AbsentMeaning)
| PolicyCannotExpress (detail : Gap).
End DomainCoverage.

Definition expresses_requirement (c : DomainCoverage.t) : bool :=
  match c with DomainCoverage.Lowered _ _ => true | _ => false end.

Definition is_unrepresentable (c : DomainCoverage.t) : bool :=
  match c with DomainCoverage.PolicyCannotExpress _ => true | _ => false end.

Definition coverage_as_str (c : DomainCoverage.t) : string :=
  match c with
  | DomainCoverage.Lowered _ _ => "lowered"
  | DomainCoverage.NotStated _ _ => "not_stated"
  | DomainCoverage.PolicyCannotExpress _ => "policy_cannot_express"
  end.

Record DomainLowering := {
  dl_domain : CapabilityDomain;
  dl_coverage : DomainCoverage.t;
  dl_residual_gaps : list Gap;
}.

Definition lowering_is_complete (d : DomainLowering) : bool :=
  expresses_requirement (dl_coverage d)
  && match dl_residual_gaps d with [] => true | _ => false end.

(** A [BTreeMap] from domains; the options only insert and look up. *)
Definition LoweringOptions : Type := CapabilityDomain → option RequirementPosture.t.

Definition strict : LoweringOptions := λ _, None.

Definition options_with_posture (o : LoweringOptions) (d : CapabilityDomain) (p : RequirementPosture.t)
  : LoweringOptions := λ d', if decide (d' = d) then Some p else o d'.

Definition posture_for (o : LoweringOptions) (d : CapabilityDomain) : RequirementPosture.t :=
  default RequirementPosture.Required (o d).

Record PolicyLowering := {
  pl_requirements : list ControlRequirement;
  pl_domains : list DomainLowering;
  pl_unmapped : list string;
}.

(** ** Per-domain lowering *)

Definition DomainResult : Type := (DomainCoverage.t * option RequirementScope * list Gap)%type.

(** Why a capability restricts a domain, if it does. *)
Definition capability_sources (set : Canon.CapabilitySet) (c : Canon.Capability) : list string :=
  if bool_decide (c ∈ Canon.deny set)
  then [("capabilities.deny[" ++ Canon.display c ++ "]")%string]
  else if negb (match Canon.allow set with [] => true | _ => false end)
          && negb (bool_decide (c ∈ Canon.allow set))
  then [("capabilities.allow omits " ++ Canon.display c
         ++ " (an allow-list restriction is in force)")%string]
  else [].

Definition restriction_sources (policy : Canon.PolicyDocument) (capabilities : list Canon.Capability)
  : option (list string) :=
  match Canon.capabilities policy with
  | None => None
  | Some set =>
      match mjoin (map (capability_sources set) capabilities) with
      | [] => None
      | sources => Some sources
      end
  end.

(** [PathScope::iter]: a [BTreeSet<String>] in order. *)
Definition scope_iter (s : PathScope) : list string :=
  stable_sort (λ a b, negb (str_ltb b a)) (elements (ps_paths s)).

Definition count_text (n : nat) : string := decimal (N.of_nat n).

Definition filesystem (policy : Canon.PolicyDocument) (capabilities : list Canon.Capability)
    (scope : option PathScope) (node : string) (extra_gaps : list Gap) : DomainResult :=
  let whole_domain_gaps := FILESYSTEM_PATH_SCOPE_GAP :: FILESYSTEM_BACKEND_DEFAULTS_GAP :: extra_gaps in
  let scoped_gaps := FILESYSTEM_PREFIX_SEMANTICS_GAP :: FILESYSTEM_BACKEND_DEFAULTS_GAP :: extra_gaps in
  match restriction_sources policy capabilities with
  | Some sourced_from =>
      (DomainCoverage.Lowered WholeDomainOnly sourced_from, Some Whole, whole_domain_gaps)
  | None =>
      match scope with
      | None =>
          (DomainCoverage.NotStated (CAPABILITY_NODE ++ " / " ++ node)%string FILESYSTEM_ABSENT_MEANING,
           None, whole_domain_gaps)
      | Some scope =>
          if permits_nothing scope then
            (DomainCoverage.Lowered WholeDomainOnly [(node ++ " is in force and permits no path")%string],
             Some Whole, whole_domain_gaps)
          else
            (DomainCoverage.Lowered Enumerated
               [(node ++ " (" ++ count_text (size (ps_paths scope)) ++ " path prefix(es))")%string],
             Some (Selectors (map permit_only_selector (scope_iter scope))), scoped_gaps)
      end
  end.

Definition filesystem_read (policy : Canon.PolicyDocument) : DomainResult :=
  filesystem policy [Canon.FileRead] (Canon.filesystem policy ≫= fp_read) "filesystem.read.allow" [].

Definition filesystem_write (policy : Canon.PolicyDocument) : DomainResult :=
  filesystem policy [Canon.FileWrite; Canon.FileDelete] (Canon.filesystem policy ≫= fp_write)
    "filesystem.write.allow" [FILESYSTEM_VERB_GAP].

Definition process_creation (policy : Canon.PolicyDocument) : DomainResult :=
  let gaps := [PROCESS_DESCENDANT_CEILING_GAP] in
  let sources :=
    match Canon.capabilities policy with
    | None => []
    | Some set =>
        map (λ c, ("capabilities.deny[" ++ Canon.display c ++ "]")%string)
          (filter (λ c, c ∈ Canon.deny set) [Canon.AgentSpawn; Canon.TerminalExec])
        ++ (if negb (match Canon.allow set with [] => true | _ => false end)
               && negb (bool_decide (Canon.TerminalExec ∈ Canon.allow set))
            then ["capabilities.allow omits terminal_exec (an allow-list restriction is in force)"%string]
            else [])
    end in
  match sources with
  | [] => (DomainCoverage.NotStated CAPABILITY_NODE CAPABILITY_ABSENT_MEANING, None, gaps)
  | _ => (DomainCoverage.Lowered WholeDomainOnly sources, Some Whole, gaps)
  end.

Definition network_egress (policy : Canon.PolicyDocument) : DomainResult :=
  let gaps := [NETWORK_PORT_PROTOCOL_GAP; NETWORK_NAME_RESOLUTION_GAP] in
  match restriction_sources policy [Canon.NetworkOutbound] with
  | Some sourced_from => (DomainCoverage.Lowered WholeDomainOnly sourced_from, Some Whole, gaps)
  | None =>
      match Canon.egress_allowlist policy with
      | [] => (DomainCoverage.NotStated NETWORK_NODE NETWORK_ABSENT_MEANING, None, gaps)
      | allowlist =>
          (DomainCoverage.Lowered Enumerated
             [("network.allowlist (" ++ count_text (List.length allowlist) ++ " host pattern(s))")%string],
           Some (Selectors (map permit_only_selector allowlist)), gaps)
      end
  end.

(** The closed vocabulary in the order of the derived [Ord]. *)
Definition syscall_order : list Sys.Syscall :=
  [Sys.Read; Sys.Write; Sys.Close; Sys.Openat; Sys.Fstat; Sys.Lseek; Sys.Mmap; Sys.Munmap; Sys.Brk;
   Sys.RtSigaction; Sys.RtSigprocmask; Sys.Exit; Sys.ExitGroup; Sys.ClockGettime; Sys.Getrandom].

Definition syscall_iter (a : Sys.SyscallAllowlist) : list Sys.Syscall :=
  filter (λ s, Sys.permits a s = true) syscall_order.

Definition syscall (policy : Canon.PolicyDocument) : DomainResult :=
  let gaps := [SYSCALL_VOCABULARY_GAP; SYSCALL_FAILURE_SEMANTICS_GAP] in
  match Canon.syscall_allowlist policy with
  | None => (DomainCoverage.NotStated SYSCALL_NODE SYSCALL_ABSENT_MEANING, None, gaps)
  | Some allowlist =>
      if Sys.permits_nothing allowlist then
        (DomainCoverage.Lowered WholeDomainOnly
           [(SYSCALL_NODE ++ " is in force and permits no syscall")%string], Some Whole, gaps)
      else
        (DomainCoverage.Lowered Enumerated
           [("syscalls.allow (" ++ count_text (List.length (syscall_iter allowlist)) ++ " syscall(s))")%string],
         Some (Selectors (map (λ c, permit_only_selector (Sys.name c)) (syscall_iter allowlist))), gaps)
  end.

Definition unmapped_statements (policy : Canon.PolicyDocument) : list string :=
  let denied :=
    match Canon.capabilities policy with
    | None => []
    | Some set =>
        mjoin (map (λ c,
          match c with
          | Canon.NetworkInbound | Canon.McpTool _ | Canon.Model _ =>
              [("capabilities.deny[" ++ Canon.display c ++ "] has no execution capability domain; it is "
                ++ "governed at the control plane, not by this boundary")%string]
          | _ => []
          end) (Canon.deny set))
    end in
  let denied_tools := List.length (filter (λ t, Canon.tr_allow t = false) (Canon.tools policy)) in
  denied ++
  (if (0 <? denied_tools)%nat
   then [(count_text denied_tools ++ " tool rule(s) deny a named tool; tool identity has no execution "
          ++ "capability domain and is governed at the control plane")%string]
   else []).

(** ** The lowering *)

Definition lower_domain (policy : Canon.PolicyDocument) (d : CapabilityDomain) : DomainResult :=
  match d with
  | FilesystemRead => filesystem_read policy
  | FilesystemWrite => filesystem_write policy
  | NetworkEgress => network_egress policy
  | NameResolution => (DomainCoverage.PolicyCannotExpress NAME_RESOLUTION_GAP, None, [])
  | Syscall => syscall policy
  | ProcessCreation => process_creation policy
  | Ipc => (DomainCoverage.PolicyCannotExpress IPC_GAP, None, [])
  | Credential => (DomainCoverage.PolicyCannotExpress CREDENTIAL_GAP, None, [])
  | Resource => (DomainCoverage.PolicyCannotExpress RESOURCE_GAP, None, [])
  | WorkspaceTransaction => (DomainCoverage.PolicyCannotExpress WORKSPACE_TRANSACTION_GAP, None, [])
  end.

Definition lower_policy (policy : Canon.PolicyDocument) (options : LoweringOptions) : PolicyLowering :=
  {| pl_requirements :=
       omap (λ d, match lower_domain policy d with
                  | (_, Some scope, _) =>
                      Some (with_scope (with_posture (requirement_prevent d) (posture_for options d)) scope)
                  | (_, None, _) => None
                  end) domain_ALL;
     pl_domains :=
       map (λ d, let '(coverage, _, gaps) := lower_domain policy d in
                 {| dl_domain := d; dl_coverage := coverage; dl_residual_gaps := gaps |}) domain_ALL;
     pl_unmapped := unmapped_statements policy |}.

Definition lowering_coverage (l : PolicyLowering) (d : CapabilityDomain) : option DomainLowering :=
  find (λ e, bool_decide (dl_domain e = d)) (pl_domains l).

Definition lowering_unrepresentable (l : PolicyLowering) : list DomainLowering :=
  filter (λ d, is_unrepresentable (dl_coverage d) = true) (pl_domains l).

Record NoRequirementsLowered := { nr_domains : list DomainLowering }.

Definition apply_to (l : PolicyLowering) (spec : ExecutionSpec)
  : result ExecutionSpec NoRequirementsLowered :=
  match pl_requirements l with
  | [] => Err {| nr_domains := pl_domains l |}
  | requirements => Ok (foldl with_requirement spec requirements)
  end.
