(* ===== verification/Plan.v ===== *)
(** * Plan: negotiating a launch with a backend, and selecting the backend

    aa-isolation/src/capability.rs (what a backend reports), plan.rs ([negotiate], the
    single decision point of a launch), requirements.rs and planner.rs (evidence
    minimums and the walk over candidate backends).

    The backend's own rendering of a requirement, the [lower] callback, is an argument. *)

From stdpp Require Import base gmap strings list.
From Stdlib Require Import ZArith Lia Bool String.
From S2P Require Import Prelude.
From S2P Require Import Text.
From S2P Require Import Leases.

Open Scope Z_scope.
Open Scope aasm_scope.

(** ** What a backend reports *)

Module Mediation.
Inductive t := Enforce | Observe | None.
#[global] Instance t_eq_dec : EqDecision t.
Proof. solve_decision. Defined.
End Mediation.

Module DecisionTiming.
Inductive t := Pre | InLine | Post | None.
#[global] Instance t_eq_dec : EqDecision t.
Proof. solve_decision. Defined.
End DecisionTiming.

Module Synchrony.
Inductive t := Sync | BestEffort | None.
#[global] Instance t_eq_dec : EqDecision t.
Proof. solve_decision. Defined.
End Synchrony.

Module FailurePosture.
Inductive t := FailClosed | FailOpen | FailOpenSilent | SilentTruncation | NotApplicable.
#[global] Instance t_eq_dec : EqDecision t.
Proof. solve_decision. Defined.
End FailurePosture.

Module DescendantCoverage.
Inductive t := ProcessTree | TargetProcessOnly | Unmeasured.
#[global] Instance t_eq_dec : EqDecision t.
Proof. solve_decision. Defined.
End DescendantCoverage.

Module SupportLevel.
Inductive t := Full | Partial (limitations : list string) | Unsupported (reason : string).
End SupportLevel.

Definition support_is_available (s : SupportLevel.t) : bool :=
  match s with SupportLevel.Unsupported _ => false | _ => true end.

Module PrerequisiteStatus.
Inductive t := Satisfied | Unsatisfied (detail : string) | Unchecked.
End PrerequisiteStatus.

Record Prerequisite := { pq_requirement : string; pq_status : PrerequisiteStatus.t }.

Definition is_satisfied (p : Prerequisite) : bool :=
  match pq_status p with PrerequisiteStatus.Satisfied => true | _ => false end.

Module PlatformBoundary.
Inductive t := SharedHostKernel | UserspaceKernel | GuestKernel.
End PlatformBoundary.

Record CapabilityReport := {
  rp_domain : CapabilityDomain;
  rp_mediation : Mediation.t;
  rp_timing : DecisionTiming.t;
  rp_synchrony : Synchrony.t;
  rp_failure_posture : FailurePosture.t;
  rp_descendants : DescendantCoverage.t;
  rp_support : SupportLevel.t;
  rp_prerequisites : list Prerequisite;
}.

Definition report_new (d : CapabilityDomain) (m : Mediation.t) (t : DecisionTiming.t) (s : Synchrony.t)
  : CapabilityReport :=
  {| rp_domain := d; rp_mediation := m; rp_timing := t; rp_synchrony := s;
     rp_failure_posture := FailurePosture.NotApplicable;
     rp_descendants := DescendantCoverage.Unmeasured; rp_support := SupportLevel.Full;
     rp_prerequisites := [] |}.

Definition report_unsupported (d : CapabilityDomain) (reason : string) : CapabilityReport :=
  {| rp_domain := d; rp_mediation := Mediation.None; rp_timing := DecisionTiming.None;
     rp_synchrony := Synchrony.None; rp_failure_posture := FailurePosture.NotApplicable;
     rp_descendants := DescendantCoverage.Unmeasured; rp_support := SupportLevel.Unsupported reason;
     rp_prerequisites := [] |}.

Definition report_with (r : CapabilityReport) (fp : FailurePosture.t) (d : DescendantCoverage.t)
    (s : SupportLevel.t) (ps : list Prerequisite) : CapabilityReport :=
  {| rp_domain := rp_domain r; rp_mediation := rp_mediation r; rp_timing := rp_timing r;
     rp_synchrony := rp_synchrony r; rp_failure_posture := fp; rp_descendants := d;
     rp_support := s; rp_prerequisites := ps |}.

Definition with_failure_posture (r : CapabilityReport) (fp : FailurePosture.t) : CapabilityReport :=
  report_with r fp (rp_descendants r) (rp_support r) (rp_prerequisites r).

Definition with_coverage (r : CapabilityReport) (d : DescendantCoverage.t) : CapabilityReport :=
  report_with r (rp_failure_posture r) d (rp_support r) (rp_prerequisites r).

Definition with_support (r : CapabilityReport) (s : SupportLevel.t) : CapabilityReport :=
  report_with r (rp_failure_posture r) (rp_descendants r) s (rp_prerequisites r).

Definition with_prerequisite (r : CapabilityReport) (p : Prerequisite) : CapabilityReport :=
  report_with r (rp_failure_posture r) (rp_descendants r) (rp_support r) (rp_prerequisites r ++ [p]).

Definition unsatisfied_prerequisite (r : CapabilityReport) : option Prerequisite :=
  find (λ p, negb (is_satisfied p)) (rp_prerequisites r).

Definition can_prevent (r : CapabilityReport) : bool :=
  bool_decide (rp_mediation r = Mediation.Enforce)
  && bool_decide (rp_timing r = DecisionTiming.Pre)
  && bool_decide (rp_synchrony r = Synchrony.Sync)
  && support_is_available (rp_support r)
  && match unsatisfied_prerequisite r with None => true | Some _ => false end.

Definition can_observe (r : CapabilityReport) : bool :=
  support_is_available (rp_support r)
  && match rp_mediation r with Mediation.Enforce | Mediation.Observe => true | _ => false end
  && negb (bool_decide (rp_timing r = DecisionTiming.None)).

Module ClaimTerm.
Inductive t := DeniedBeforeExecution | Observed | Degraded | Unmeasured | Unsupported.
End ClaimTerm.

Definition report_claim_ceiling (r : CapabilityReport) : ClaimTerm.t :=
  if negb (support_is_available (rp_support r)) then ClaimTerm.Unsupported
  else if can_prevent r then ClaimTerm.DeniedBeforeExecution
  else match rp_mediation r with
       | Mediation.Enforce | Mediation.Observe => ClaimTerm.Observed
       | Mediation.None => ClaimTerm.Unmeasured
       end.

Module BackendAvailability.
Inductive t := Available | Unavailable (reason : string).
End BackendAvailability.

Record BackendCapabilities := {
  bc_availability : BackendAvailability.t;
  bc_platform_boundary : PlatformBoundary.t;
  bc_reports : list CapabilityReport;
}.

Fixpoint duplicate_report (seen rest : list CapabilityReport) : option CapabilityDomain :=
  match rest with
  | [] => None
  | r :: rest' =>
      if existsb (λ s, bool_decide (rp_domain s = rp_domain r)) seen then Some (rp_domain r)
      else duplicate_report (seen ++ [r]) rest'
  end.

Definition capabilities_new (a : BackendAvailability.t) (b : PlatformBoundary.t)
    (reports : list CapabilityReport) : result BackendCapabilities CapabilityDomain :=
  match duplicate_report [] reports with
  | Some d => Err d
  | None => Ok {| bc_availability := a; bc_platform_boundary := b; bc_reports := reports |}
  end.

Definition report_for (c : BackendCapabilities) (d : CapabilityDomain) : option CapabilityReport :=
  find (λ r, bool_decide (rp_domain r = d)) (bc_reports c).

Definition unreported_domains (c : BackendCapabilities) : list CapabilityDomain :=
  filter (λ d, report_for c d = None) domain_ALL.

(** ** Negotiation *)

Record BackendIdentity := {
  bi_id : string;
  bi_version : string;
  bi_source : string;
  bi_license : string;
  bi_modified : bool;
}.

Module RefusalReason.
Inductive t :=
| BackendUnavailable (reason : string)
| NoCapabilityReported (d : CapabilityDomain)
| DomainUnsupported (d : CapabilityDomain) (reason : string)
| ObserveOnlyForPreventionRequirement (d : CapabilityDomain) (m : Mediation.t)
| DecisionTooLate (d : CapabilityDomain) (t : DecisionTiming.t)
| DecisionNotSynchronous (d : CapabilityDomain) (s : Synchrony.t)
| NoEvidenceProduced (d : CapabilityDomain)
| DescendantCoverageInsufficient (d : CapabilityDomain) (offered : DescendantCoverage.t)
| PrerequisiteUnsatisfied (d : CapabilityDomain) (requirement : string)
| EvidenceQualityBelowMinimum (d : CapabilityDomain)
    (required_failure_posture : option FailurePosture.t) (required_full_support : bool)
    (actual_failure_posture : FailurePosture.t) (actual_support : SupportLevel.t)
| AuthorityNotGranted (d : CapabilityDomain) (detail : string).
End RefusalReason.

Definition reason_domain (r : RefusalReason.t) : option CapabilityDomain :=
  match r with
  | RefusalReason.BackendUnavailable _ => None
  | RefusalReason.NoCapabilityReported d | RefusalReason.DomainUnsupported d _
  | RefusalReason.ObserveOnlyForPreventionRequirement d _ | RefusalReason.DecisionTooLate d _
  | RefusalReason.DecisionNotSynchronous d _ | RefusalReason.NoEvidenceProduced d
  | RefusalReason.DescendantCoverageInsufficient d _ | RefusalReason.PrerequisiteUnsatisfied d _
  | RefusalReason.EvidenceQualityBelowMinimum d _ _ _ _ | RefusalReason.AuthorityNotGranted d _ => Some d
  end.

Module AchievedControl.
Inductive t := Observed (timing : DecisionTiming.t) (descendants : DescendantCoverage.t) | None.
End AchievedControl.

Module Outcome.
Inductive t :=
| Enforced (timing : DecisionTiming.t) (descendants : DescendantCoverage.t)
| Observed (timing : DecisionTiming.t) (descendants : DescendantCoverage.t)
| Degraded (planned : RequirementIntent.t) (achieved : AchievedControl.t) (reason : RefusalReason.t)
| Unmet (reason : RefusalReason.t).
End Outcome.

Definition is_prevention (o : Outcome.t) : bool :=
  match o with Outcome.Enforced _ _ => true | _ => false end.

Definition is_shortfall (o : Outcome.t) : bool :=
  match o with Outcome.Degraded _ _ _ | Outcome.Unmet _ => true | _ => false end.

Definition outcome_claim_ceiling (o : Outcome.t) : ClaimTerm.t :=
  match o with
  | Outcome.Enforced _ _ => ClaimTerm.DeniedBeforeExecution
  | Outcome.Observed _ _ => ClaimTerm.Observed
  | Outcome.Degraded _ _ _ => ClaimTerm.Degraded
  | Outcome.Unmet _ => ClaimTerm.Unmeasured
  end.

(** [Lowering]: the backend's rendering of a requirement, as steps. *)
Definition Steps : Type := list string.

Record PlannedRequirement := {
  pr_requirement : ControlRequirement;
  pr_outcome : Outcome.t;
  pr_lowering : Steps;
}.

Module LaunchPosture.
Inductive t := Ready | Degraded | Refused.
End LaunchPosture.

Record PlanRefusal := {
  rf_backend : BackendIdentity;
  rf_backend_unavailable : option string;
  rf_unmet : list (ControlRequirement * RefusalReason.t);
}.

Definition refusal_from_unmet (b : BackendIdentity) (unmet : list (ControlRequirement * RefusalReason.t))
  : PlanRefusal := {| rf_backend := b; rf_backend_unavailable := None; rf_unmet := unmet |}.

Definition refusal_reasons (r : PlanRefusal) : list RefusalReason.t :=
  match rf_backend_unavailable r with
  | Some reason => [RefusalReason.BackendUnavailable reason]
  | None => []
  end ++ map snd (rf_unmet r).

Definition refusal_display (r : PlanRefusal) : string :=
  ("backend `" ++ bi_id (rf_backend r) ++ "` refused the launch ("
   ++ decimal (N.of_nat (List.length (rf_unmet r))) ++ " unmet requirement(s))")%string.

Record EnforcementPlan := {
  ep_backend : BackendIdentity;
  ep_spec : ExecutionSpec;
  ep_planned : list PlannedRequirement;
  ep_posture : LaunchPosture.t;
}.

Definition shortfalls (p : EnforcementPlan) : list PlannedRequirement :=
  filter (λ r, is_shortfall (pr_outcome r) = true) (ep_planned p).

Definition prevented_domains (p : EnforcementPlan) : list CapabilityDomain :=
  map (λ r, cr_domain (pr_requirement r))
    (filter (λ r, is_prevention (pr_outcome r) = true) (ep_planned p)).

Definition check_descendants (r : ControlRequirement) (report : CapabilityReport)
  : result unit RefusalReason.t :=
  if bool_decide (cr_descendants r = DescendantRequirement.ProcessTree)
     && negb (bool_decide (rp_descendants report = DescendantCoverage.ProcessTree))
  then Err (RefusalReason.DescendantCoverageInsufficient (cr_domain r) (rp_descendants report))
  else Ok tt.

Definition evaluate (r : ControlRequirement) (report : option CapabilityReport)
  : result Outcome.t RefusalReason.t :=
  let d := cr_domain r in
  match report with
  | None => Err (RefusalReason.NoCapabilityReported d)
  | Some report =>
      match rp_support report with
      | SupportLevel.Unsupported reason => Err (RefusalReason.DomainUnsupported d reason)
      | _ =>
          match cr_intent r with
          | RequirementIntent.PreventBeforeEffect =>
              if negb (bool_decide (rp_mediation report = Mediation.Enforce))
              then Err (RefusalReason.ObserveOnlyForPreventionRequirement d (rp_mediation report))
              else if negb (bool_decide (rp_timing report = DecisionTiming.Pre))
              then Err (RefusalReason.DecisionTooLate d (rp_timing report))
              else if negb (bool_decide (rp_synchrony report = Synchrony.Sync))
              then Err (RefusalReason.DecisionNotSynchronous d (rp_synchrony report))
              else match unsatisfied_prerequisite report with
                   | Some p => Err (RefusalReason.PrerequisiteUnsatisfied d (pq_requirement p))
                   | None =>
                       let? _ := check_descendants r report in
                       Ok (Outcome.Enforced (rp_timing report) (rp_descendants report))
                   end
          | RequirementIntent.Observe =>
              if negb (can_observe report) then Err (RefusalReason.NoEvidenceProduced d)
              else let? _ := check_descendants r report in
                   Ok (Outcome.Observed (rp_timing report) (rp_descendants report))
          end
      end
  end.

Definition achieved (report : option CapabilityReport) : AchievedControl.t :=
  match report with
  | Some r => if can_observe r then AchievedControl.Observed (rp_timing r) (rp_descendants r)
              else AchievedControl.None
  | None => AchievedControl.None
  end.

Section Negotiate.
Context (lower : ControlRequirement → Outcome.t → Steps).

(** One round of the loop: a planned outcome, or an entry of the unmet list. *)
Definition plan_one (c : BackendCapabilities) (r : ControlRequirement)
  : PlannedRequirement + (ControlRequirement * RefusalReason.t) :=
  let report := report_for c (cr_domain r) in
  let planned o := inl {| pr_requirement := r; pr_outcome := o; pr_lowering := lower r o |} in
  match evaluate r report with
  | Ok outcome => planned outcome
  | Err reason =>
      match cr_posture r with
      | RequirementPosture.Required => inr (r, reason)
      | RequirementPosture.DegradeIfUnavailable =>
          planned (Outcome.Degraded (cr_intent r) (achieved report) reason)
      | RequirementPosture.Optional => planned (Outcome.Unmet reason)
      end
  end.

Definition lefts {A B} (l : list (A + B)) : list A :=
  omap (λ x, match x with inl a => Some a | inr _ => None end) l.

Definition rights {A B} (l : list (A + B)) : list B :=
  omap (λ x, match x with inl _ => None | inr b => Some b end) l.

Definition negotiate (spec : ExecutionSpec) (backend : BackendIdentity) (c : BackendCapabilities)
  : result EnforcementPlan PlanRefusal :=
  match bc_availability c with
  | BackendAvailability.Unavailable reason =>
      Err {| rf_backend := backend; rf_backend_unavailable := Some reason; rf_unmet := [] |}
  | BackendAvailability.Available =>
      let rounds := map (plan_one c) (es_requirements spec) in
      let planned := lefts rounds in
      match rights rounds with
      | [] =>
          Ok {| ep_backend := backend; ep_spec := spec; ep_planned := planned;
                ep_posture := if existsb (λ p, is_shortfall (pr_outcome p)) planned
                              then LaunchPosture.Degraded else LaunchPosture.Ready |}
      | unmet => Err {| rf_backend := backend; rf_backend_unavailable := None; rf_unmet := unmet |}
      end
  end.
End Negotiate.

(** ** Runtime requirements and selection *)

Record EvidenceMinimum := {
  em_min_failure_posture : option FailurePosture.t;
  em_require_full_support : bool;
}.

Definition minimum_is_none (m : EvidenceMinimum) : bool :=
  match em_min_failure_posture m with None => negb (em_require_full_support m) | Some _ => false end.

(** The requirement set; the minimums are a [BTreeMap], here an association list in key
    order with one entry per domain.  The contracts with egress and credential brokers
    are recorded and not evaluated by this component. *)
Record RuntimeRequirements := {
  rr_confinement : list ControlRequirement;
  rr_resource_limits : ResourceLimits;
  rr_min_evidence : list (CapabilityDomain * EvidenceMinimum);
  rr_allowed_platform_boundaries : option (list PlatformBoundary.t);
  rr_transactional_workspace_required : bool;
}.

Definition probe_spec (r : RuntimeRequirements) : ExecutionSpec :=
  foldl with_requirement (spec_new "probe" (identity_root "probe")) (rr_confinement r).

Record Candidate := { cd_identity : BackendIdentity; cd_capabilities : BackendCapabilities }.

Definition meets_failure_posture_minimum (actual minimum : FailurePosture.t) : bool :=
  match minimum with
  | FailurePosture.FailClosed => bool_decide (actual = FailurePosture.FailClosed)
  | FailurePosture.FailOpen =>
      match actual with FailurePosture.FailClosed | FailurePosture.FailOpen => true | _ => false end
  | FailurePosture.SilentTruncation =>
      match actual with
      | FailurePosture.FailClosed | FailurePosture.FailOpen | FailurePosture.SilentTruncation => true
      | _ => false
      end
  | FailurePosture.FailOpenSilent => negb (bool_decide (actual = FailurePosture.NotApplicable))
  | FailurePosture.NotApplicable => bool_decide (actual = FailurePosture.NotApplicable)
  end.

Definition unmet_minimum (c : BackendCapabilities) (e : CapabilityDomain * EvidenceMinimum)
  : option (CapabilityDomain * RefusalReason.t) :=
  let '(d, minimum) := e in
  match report_for c d with
  | None => Some (d, RefusalReason.NoCapabilityReported d)
  | Some report =>
      let failure_ok :=
        match em_min_failure_posture minimum with
        | None => true
        | Some required => meets_failure_posture_minimum (rp_failure_posture report) required
        end in
      let support_ok :=
        negb (em_require_full_support minimum)
        || match rp_support report with SupportLevel.Full => true | _ => false end in
      if negb failure_ok || negb support_ok
      then Some (d, RefusalReason.EvidenceQualityBelowMinimum d (em_min_failure_posture minimum)
                      (em_require_full_support minimum) (rp_failure_posture report) (rp_support report))
      else None
  end.

Definition unmet_evidence_minimums (r : RuntimeRequirements) (c : BackendCapabilities)
  : list (CapabilityDomain * RefusalReason.t) := omap (unmet_minimum c) (rr_min_evidence r).

Definition no_steps (r : ControlRequirement) (o : Outcome.t) : Steps := [].

Definition evaluate_candidate (r : RuntimeRequirements) (candidate : Candidate)
  : result EnforcementPlan PlanRefusal :=
  let probe := probe_spec r in
  let? plan := negotiate no_steps probe (cd_identity candidate) (cd_capabilities candidate) in
  match unmet_evidence_minimums r (cd_capabilities candidate) with
  | [] => Ok plan
  | unmet =>
      Err (refusal_from_unmet (cd_identity candidate)
             (map (λ '(d, reason),
                (default (requirement_observe d)
                   (find (λ q, bool_decide (cr_domain q = d)) (es_requirements probe)), reason)) unmet))
  end.

Module CandidateVerdict.
Inductive t := Selected | RejectedUnavailable | RejectedRequirementsUnmet.
End CandidateVerdict.

Record ConsideredBackend := {
  cb_id : string;
  cb_verdict : CandidateVerdict.t;
  cb_detail : string;
  cb_unmet_domains : list CapabilityDomain;
}.

Inductive Selection := Selected (identity : BackendIdentity) (plan : EnforcementPlan) | SelectionRefused.

(** The walk, with what it has considered so far. *)
Fixpoint select_loop (r : RuntimeRequirements) (considered : list ConsideredBackend)
    (candidates : list Candidate) : Selection * list ConsideredBackend :=
  match candidates with
  | [] => (SelectionRefused, considered)
  | c :: rest =>
      let id := bi_id (cd_identity c) in
      match bc_availability (cd_capabilities c) with
      | BackendAvailability.Unavailable reason =>
          select_loop r (considered ++
            [{| cb_id := id; cb_verdict := CandidateVerdict.RejectedUnavailable;
                cb_detail := ("the backend cannot be selected on this host — " ++ reason)%string;
                cb_unmet_domains := [] |}]) rest
      | BackendAvailability.Available =>
          match evaluate_candidate r c with
          | Ok plan =>
              (Selected (cd_identity c) plan,
               considered ++
                 [{| cb_id := id; cb_verdict := CandidateVerdict.Selected;
                     cb_detail := "this candidate satisfied every stated runtime requirement";
                     cb_unmet_domains := [] |}])
          | Err refusal =>
              select_loop r (considered ++
                [{| cb_id := id; cb_verdict := CandidateVerdict.RejectedRequirementsUnmet;
                    cb_detail := refusal_display refusal;
                    cb_unmet_domains := omap (λ u, reason_domain (snd u)) (rf_unmet refusal) |}]) rest
          end
      end
  end.

Definition select (r : RuntimeRequirements) (candidates : list Candidate)
  : Selection * list ConsideredBackend := select_loop r [] candidates.
