(* ===== verification/PlanProps.v ===== *)
(** * PlanProps: a launch is planned only with its restrictions in force

    The meaning of a lowered policy, the exact condition under which negotiation
    succeeds, the two composed, and the selection of a backend. *)

From stdpp Require Import base gmap strings list.
From Stdlib Require Import ZArith Lia Bool String.
From S2P Require Import Prelude.
From S2P Require Import Text.
From S2P Require Import PathScope.
From S2P Require Import PolicyDocument.
From S2P Require Import EgressHost.
From S2P Require Import Resolve.
From S2P Require Import Leases.
From S2P Require Import ScopeOrder.
From S2P Require Import Lowering.
From S2P Require Import Plan.

Open Scope Z_scope.
Open Scope aasm_scope.

(** ** Negotiation *)

Definition descendants_met (r : ControlRequirement) (report : CapabilityReport) : bool :=
  match cr_descendants r with
  | DescendantRequirement.ProcessTree =>
      bool_decide (rp_descendants report = DescendantCoverage.ProcessTree)
  | DescendantRequirement.TargetProcessOnly => true
  end.

(** What a requirement asks of a backend's report on its domain. *)
Definition report_meets (r : ControlRequirement) (report : CapabilityReport) : bool :=
  support_is_available (rp_support report)
  && match cr_intent r with
     | RequirementIntent.PreventBeforeEffect => can_prevent report
     | RequirementIntent.Observe => can_observe report
     end
  && descendants_met r report.

Definition meets (c : BackendCapabilities) (r : ControlRequirement) : bool :=
  match report_for c (cr_domain r) with Some report => report_meets r report | None => false end.

Definition met_outcome (r : ControlRequirement) (report : CapabilityReport) : Outcome.t :=
  match cr_intent r with
  | RequirementIntent.PreventBeforeEffect => Outcome.Enforced (rp_timing report) (rp_descendants report)
  | RequirementIntent.Observe => Outcome.Observed (rp_timing report) (rp_descendants report)
  end.

Lemma check_descendants_spec r report :
  check_descendants r report =
  if descendants_met r report then Ok tt
  else Err (RefusalReason.DescendantCoverageInsufficient (cr_domain r) (rp_descendants report)).
Proof.
  unfold check_descendants, descendants_met. destruct (cr_descendants r); simpl; [|done].
  by case_bool_decide.
Qed.

(** Evaluation succeeds exactly when the report meets the requirement, and then says
    what the report offers. *)
Lemma evaluate_spec r report :
  match evaluate r (Some report) with
  | Ok o => report_meets r report = true ∧ o = met_outcome r report
  | Err _ => report_meets r report = false
  end.
Proof.
  unfold evaluate, report_meets, met_outcome, result_bind. rewrite check_descendants_spec.
  destruct (rp_support report) eqn:Hsup; simpl; try done;
    (destruct (cr_intent r);
     [unfold can_prevent; rewrite Hsup; simpl;
      repeat case_bool_decide; simpl; try done;
      destruct (unsatisfied_prerequisite report); simpl; try done
     |destruct (can_observe report); simpl; try done];
     by destruct (descendants_met r report)).
Qed.

Lemma evaluate_Ok_iff c r o :
  evaluate r (report_for c (cr_domain r)) = Ok o →
  meets c r = true ∧ ∃ report, report_for c (cr_domain r) = Some report ∧ o = met_outcome r report.
Proof.
  unfold meets. destruct (report_for c (cr_domain r)) as [report|]; [|done].
  pose proof (evaluate_spec r report) as He. intros E. rewrite E in He. destruct He. eauto.
Qed.

Lemma evaluate_Err_iff c r :
  is_ok (evaluate r (report_for c (cr_domain r))) = meets c r.
Proof.
  unfold meets. destruct (report_for c (cr_domain r)) as [report|]; [|done].
  pose proof (evaluate_spec r report) as He. destruct (evaluate r (Some report)); simpl; [|done].
  by destruct He as [-> _].
Qed.

Section NegotiateProps.
Context (lower : ControlRequirement → Outcome.t → Steps).

Lemma plan_one_inr c r x :
  plan_one lower c r = inr x → cr_posture r = RequirementPosture.Required ∧ meets c r = false ∧ fst x = r.
Proof.
  unfold plan_one. rewrite <- (evaluate_Err_iff c r).
  destruct (evaluate r (report_for c (cr_domain r))); [done|].
  destruct (cr_posture r); try done. by intros [= <-].
Qed.

(** The outcome planned for a requirement, by whether the backend meets it. *)
Lemma plan_one_inl c r p :
  plan_one lower c r = inl p →
  pr_requirement p = r ∧ pr_lowering p = lower r (pr_outcome p) ∧
  is_shortfall (pr_outcome p) = negb (meets c r) ∧
  (is_prevention (pr_outcome p) = true ↔
     cr_intent r = RequirementIntent.PreventBeforeEffect ∧ meets c r = true).
Proof.
  unfold plan_one. destruct (evaluate r (report_for c (cr_domain r))) as [o|e] eqn:E.
  - intros [= <-]. simpl. apply evaluate_Ok_iff in E as [Hm (report & _ & ->)]. rewrite Hm.
    unfold met_outcome. destruct (cr_intent r); simpl; split_and!; try done; by split; [|intros [? _]].
  - pose proof (evaluate_Err_iff c r) as Hm. rewrite E in Hm. simpl in Hm.
    destruct (cr_posture r); try done; intros [= <-]; simpl; rewrite <- Hm; split_and!; try done;
      by split; [|intros [_ ?]].
Qed.

Lemma rights_nil (c : BackendCapabilities) rs :
  rights (map (plan_one lower c) rs) = [] ↔
  ∀ r, r ∈ rs → refuses_on_failure (cr_posture r) = true → meets c r = true.
Proof.
  induction rs as [|r rs IH]; simpl; [by split; [intros _ ? ?%not_elem_of_nil|]|].
  unfold rights in *. simpl. destruct (plan_one lower c r) as [p|x] eqn:Hp; simpl.
  - rewrite IH. split.
    + intros H q [->|Hq]%elem_of_cons; [|by apply H]. intros Href.
      unfold plan_one in Hp. rewrite <- (evaluate_Err_iff c r). unfold refuses_on_failure in Href.
      apply bool_decide_eq_true in Href. rewrite Href in Hp.
      by destruct (evaluate r (report_for c (cr_domain r))).
    + intros H q Hq. apply H. by right.
  - split; [done|]. intros H. apply plan_one_inr in Hp as (Hpost & Hm & _).
    rewrite H in Hm; [done|left|]. unfold refuses_on_failure. by rewrite Hpost.
Qed.

Lemma lefts_all (c : BackendCapabilities) rs :
  rights (map (plan_one lower c) rs) = [] →
  Forall2 (λ r p, plan_one lower c r = inl p) rs (lefts (map (plan_one lower c) rs)).
Proof.
  induction rs as [|r rs IH]; simpl; [constructor|]. unfold rights, lefts in *. simpl.
  destruct (plan_one lower c r) as [p|x] eqn:Hp; simpl; [|done].
  intros H. constructor; [done|]. by apply IH.
Qed.

Lemma negotiate_Ok spec b c plan :
  negotiate lower spec b c = Ok plan →
  bc_availability c = BackendAvailability.Available ∧ ep_spec plan = spec ∧ ep_backend plan = b ∧
  (∀ r, r ∈ es_requirements spec → refuses_on_failure (cr_posture r) = true → meets c r = true) ∧
  Forall2 (λ r p, plan_one lower c r = inl p) (es_requirements spec) (ep_planned plan) ∧
  (ep_posture plan = LaunchPosture.Ready ↔ shortfalls plan = []).
Proof.
  unfold negotiate. destruct (bc_availability c); [|done].
  destruct (rights (map (plan_one lower c) (es_requirements spec))) as [|x l] eqn:Hr; [|done].
  intros [= <-]. simpl. split_and!; try done.
  - by apply rights_nil.
  - by apply lefts_all.
  - unfold shortfalls. simpl.
    destruct (existsb _ _) eqn:He.
    + split; [done|]. apply existsb_exists in He as (p & Hin & Hs). intros Hf.
      assert (p ∈ filter (λ r, is_shortfall (pr_outcome r) = true)
                    (lefts (map (plan_one lower c) (es_requirements spec)))) as Hp
        by (apply list_elem_of_filter; split; [done|by apply list_elem_of_In]).
      rewrite Hf in Hp. by apply not_elem_of_nil in Hp.
    + split; [|done]. intros _. apply elem_of_nil_inv. intros p [Hs Hin]%list_elem_of_filter.
      assert (existsb (λ p, is_shortfall (pr_outcome p))
                (lefts (map (plan_one lower c) (es_requirements spec))) = true); [|congruence].
      apply existsb_exists. exists p. split; [by apply list_elem_of_In|done].
Qed.
End NegotiateProps.

(** Negotiation is exact.  It plans a launch if and only if the
    backend is available and meets every required control; a plan lists every requirement
    in order, marks as prevented exactly the requirements to prevent that the backend's
    report meets (an enforcing, synchronous decision before the effect, with every
    prerequisite satisfied and the descendants covered), marks the others it does not
    meet as shortfalls, and is ready exactly when there is none. *)
Theorem negotiate_exact lower spec b c :
  (is_ok (negotiate lower spec b c) = true ↔
     bc_availability c = BackendAvailability.Available ∧
     ∀ r, r ∈ es_requirements spec → refuses_on_failure (cr_posture r) = true → meets c r = true) ∧
  ∀ plan, negotiate lower spec b c = Ok plan →
    map pr_requirement (ep_planned plan) = es_requirements spec ∧
    (∀ p, p ∈ ep_planned plan →
       (is_prevention (pr_outcome p) = true ↔
          cr_intent (pr_requirement p) = RequirementIntent.PreventBeforeEffect ∧
          meets c (pr_requirement p) = true) ∧
       is_shortfall (pr_outcome p) = negb (meets c (pr_requirement p))) ∧
    (ep_posture plan = LaunchPosture.Ready ↔ shortfalls plan = []).
Proof.
  split.
  - split.
    + destruct (negotiate lower spec b c) as [plan|] eqn:H; [|done]. intros _.
      apply negotiate_Ok in H. tauto.
    + intros [Ha H]. unfold negotiate. rewrite Ha. apply (rights_nil lower) in H. by rewrite H.
  - intros plan (_ & _ & _ & _ & Hf & Hpost)%negotiate_Ok. split_and!; [| |done].
    + clear Hpost. induction Hf as [|r p rs ps Hp _ IH]; simpl; [done|].
      apply plan_one_inl in Hp as (-> & _). by rewrite IH.
    + intros p Hin. apply list_elem_of_lookup in Hin as [i Hi].
      destruct (Forall2_lookup_r _ _ _ _ _ Hf Hi) as (r & _ & Hp).
      apply plan_one_inl in Hp as (-> & _ & ? & ?). done.
Qed.

(** ** What a lowered policy means *)

(** A domain is restricted when the capability node withholds it, or a node that scopes
    it is stated. *)
Definition capability_withheld (policy : Canon.PolicyDocument) (c : Canon.Capability) : bool :=
  match Canon.capabilities policy with
  | None => false
  | Some set =>
      bool_decide (c ∈ Canon.deny set)
      || (negb (match Canon.allow set with [] => true | _ => false end)
          && negb (bool_decide (c ∈ Canon.allow set)))
  end.

Definition capability_denied (policy : Canon.PolicyDocument) (c : Canon.Capability) : bool :=
  match Canon.capabilities policy with
  | None => false
  | Some set => bool_decide (c ∈ Canon.deny set)
  end.

(** What the policy permits in a domain, read from its own nodes: [None] when it states
    nothing there. *)
Definition policy_permits (policy : Canon.PolicyDocument) (d : CapabilityDomain) : option (string → bool) :=
  let scoped (withheld : bool) (scope : option PathScope) :=
    if withheld then Some (λ _, false)
    else (λ s q, path_permits s q) <$> scope in
  match d with
  | FilesystemRead =>
      scoped (capability_withheld policy Canon.FileRead) (Canon.filesystem policy ≫= fp_read)
  | FilesystemWrite =>
      scoped (capability_withheld policy Canon.FileWrite || capability_withheld policy Canon.FileDelete)
        (Canon.filesystem policy ≫= fp_write)
  | NetworkEgress =>
      if capability_withheld policy Canon.NetworkOutbound then Some (λ _, false)
      else match Canon.egress_allowlist policy with
           | [] => None
           | l => Some (λ host, is_host_allowed_by_egress_allowlist_fail_closed host l)
           end
  | Syscall =>
      (λ a name, existsb (λ s, String.eqb (Sys.name s) name) (syscall_iter a))
        <$> Canon.syscall_allowlist policy
  | ProcessCreation =>
      if capability_denied policy Canon.AgentSpawn || capability_withheld policy Canon.TerminalExec
      then Some (λ _, false) else None
  | _ => None
  end.

(** What a requirement to prevent leaves open: its permitted selectors, and nothing when
    the whole domain is prevented. *)
Definition requirement_leaves (r : ControlRequirement) (item : string) : bool :=
  match cr_scope r with
  | Whole => false
  | s => admits (cr_domain r) s (Item item)
  end.

(** Scopes built by the source: every entry is a normalised path. *)
Definition policy_wf (policy : Canon.PolicyDocument) : Prop :=
  ∀ s, (Canon.filesystem policy ≫= fp_read) = Some s ∨ (Canon.filesystem policy ≫= fp_write) = Some s →
  ∀ e, e ∈ ps_paths s → normalize e = Ok e.

Lemma capability_sources_nil policy c set :
  Canon.capabilities policy = Some set →
  (capability_sources set c = [] ↔ capability_withheld policy c = false).
Proof.
  intros Hs. unfold capability_sources, capability_withheld. rewrite Hs.
  destruct (bool_decide (c ∈ Canon.deny set)); simpl; [by split|].
  by destruct (negb _ && negb _).
Qed.

Lemma restriction_sources_None policy cs :
  restriction_sources policy cs = None ↔ existsb (capability_withheld policy) cs = false.
Proof.
  unfold restriction_sources. destruct (Canon.capabilities policy) as [set|] eqn:Hs.
  - assert (mjoin (map (capability_sources set) cs) = [] ↔ existsb (capability_withheld policy) cs = false) as H.
    { induction cs as [|c cs IH]; simpl; [done|].
      rewrite app_nil, orb_false_iff, IH. by rewrite (capability_sources_nil policy). }
    rewrite <- H. by destruct (mjoin _).
  - split; [|done]. intros _. induction cs as [|c cs IH]; simpl; [done|].
    rewrite IH. unfold capability_withheld. by rewrite Hs.
Qed.

Lemma permitted_permit_only n : permitted_selector (permit_only_selector n) = Some n.
Proof. apply strip_prefix_app. Qed.

Lemma admits_permit_only d l x :
  admits d (Selectors (map permit_only_selector l)) (Item x) = existsb (λ n, name_admits d n x) l.
Proof.
  simpl. induction l as [|n l IH]; simpl; [done|]. rewrite IH. unfold selector_admits.
  by rewrite permitted_permit_only.
Qed.

Lemma elem_of_scope_iter s e : e ∈ scope_iter s ↔ e ∈ ps_paths s.
Proof. unfold scope_iter. by rewrite elem_of_stable_sort, elem_of_elements. Qed.

(** The path selectors admit exactly what the scope permits. *)
Lemma path_selectors_permit s d x :
  d = FilesystemRead ∨ d = FilesystemWrite → (∀ e, e ∈ ps_paths s → normalize e = Ok e) →
  admits d (Selectors (map permit_only_selector (scope_iter s))) (Item x) = path_permits s x.
Proof.
  intros Hd Hwf. rewrite admits_permit_only. unfold path_permits.
  apply eq_true_iff_eq. rewrite existsb_exists. setoid_rewrite <- list_elem_of_In.
  setoid_rewrite elem_of_scope_iter. destruct (normalize x) as [q|err] eqn:Hq.
  - rewrite set_any_true. split.
    + intros (e & He & Ha). exists e. split; [done|]. pose proof (Hwf _ He) as Hn.
      destruct Hd as [-> | ->]; cbn [name_admits] in Ha; by rewrite Hn, Hq in Ha.
    + intros (e & He & Ha). exists e. split; [done|]. pose proof (Hwf _ He) as Hn.
      destruct Hd as [-> | ->]; cbn [name_admits]; by rewrite Hn, Hq.
  - split; [|done]. intros (e & He & Ha).
    destruct Hd as [-> | ->]; cbn [name_admits] in Ha; destruct (normalize e); by rewrite ?Hq in Ha.
Qed.

Lemma empty_scope_permits s x : permits_nothing s = true → path_permits s x = false.
Proof.
  unfold permits_nothing. rewrite bool_decide_eq_true. intros He. unfold path_permits.
  destruct (normalize x); [|done]. apply set_any_false. intros y. by rewrite He, elem_of_empty.
Qed.

(** The scope a domain lowers to agrees with what the policy permits there. *)
Definition scope_agrees (d : CapabilityDomain) (permits : option (string → bool))
    (scope : option RequirementScope) : Prop :=
  match permits, scope with
  | None, None => True
  | Some f, Some Whole => ∀ x, f x = false
  | Some f, Some s => ∀ x, admits d s (Item x) = f x
  | _, _ => False
  end.

Lemma filesystem_agrees policy d cs scope node gaps :
  d = FilesystemRead ∨ d = FilesystemWrite →
  (∀ s, scope = Some s → ∀ e, e ∈ ps_paths s → normalize e = Ok e) →
  scope_agrees d
    (if existsb (capability_withheld policy) cs then Some (λ _, false) else (λ s q, path_permits s q) <$> scope)
    (snd (fst (filesystem policy cs scope node gaps))).
Proof.
  intros Hd Hwf. unfold filesystem.
  destruct (restriction_sources policy cs) as [l|] eqn:Hr.
  - destruct (existsb (capability_withheld policy) cs) eqn:He; [done|].
    apply restriction_sources_None in He. congruence.
  - apply restriction_sources_None in Hr. rewrite Hr. destruct scope as [s|]; simpl; [|done].
    destruct (permits_nothing s) eqn:Hn; simpl.
    + intros x. by apply empty_scope_permits.
    + intros x. apply path_selectors_permit; [done|]. by apply Hwf.
Qed.

Lemma network_agrees policy :
  scope_agrees NetworkEgress (policy_permits policy NetworkEgress) (snd (fst (network_egress policy))).
Proof.
  unfold network_egress, policy_permits.
  pose proof (restriction_sources_None policy [Canon.NetworkOutbound]) as Hr. cbn [existsb] in Hr.
  rewrite orb_false_r in Hr. destruct (restriction_sources policy [Canon.NetworkOutbound]) as [l|].
  - destruct (capability_withheld policy Canon.NetworkOutbound); [done|].
    discriminate (proj2 Hr eq_refl).
  - rewrite (proj1 Hr eq_refl). destruct (Canon.egress_allowlist policy) as [|h l]; [done|].
    cbn [fst snd scope_agrees]. intros x. rewrite admits_permit_only.
    apply eq_true_iff_eq. rewrite allowed_iff, existsb_exists. by setoid_rewrite <- list_elem_of_In.
Qed.

Lemma syscall_agrees policy :
  scope_agrees Syscall (policy_permits policy Syscall) (snd (fst (syscall policy))).
Proof.
  unfold syscall, policy_permits. destruct (Canon.syscall_allowlist policy) as [a|]; [|done].
  destruct (Sys.permits_nothing a) eqn:Hn; cbn [fst snd scope_agrees fmap option_fmap option_map]; intros x.
  - unfold Sys.permits_nothing in Hn. unfold syscall_iter, Sys.permits.
    destruct (Sys.sa_syscalls a); [|done]. done.
  - rewrite <- (map_map Sys.name permit_only_selector). rewrite admits_permit_only.
    induction (syscall_iter a) as [|s l IH]; [done|]. cbn [map existsb]. by rewrite IH.
Qed.

Lemma process_agrees policy :
  scope_agrees ProcessCreation (policy_permits policy ProcessCreation) (snd (fst (process_creation policy))).
Proof.
  unfold process_creation, policy_permits, capability_denied, capability_withheld.
  destruct (Canon.capabilities policy) as [set|]; [|done].
  rewrite !filter_cons, filter_nil. unfold bool_decide.
  repeat case_decide; simpl; destruct (Canon.allow set); simpl; try done;
    repeat case_decide; simpl; done.
Qed.

Lemma lower_domain_agrees policy d :
  policy_wf policy → scope_agrees d (policy_permits policy d) (snd (fst (lower_domain policy d))).
Proof.
  intros Hwf. destruct d; [| |apply network_agrees|exact I|apply syscall_agrees|apply process_agrees|exact I..].
  - pose proof (filesystem_agrees policy FilesystemRead [Canon.FileRead]
                  (Canon.filesystem policy ≫= fp_read) "filesystem.read.allow" []) as H.
    cbn [existsb] in H. rewrite orb_false_r in H. apply H; [by left|]. intros s Hs. apply Hwf. by left.
  - pose proof (filesystem_agrees policy FilesystemWrite [Canon.FileWrite; Canon.FileDelete]
                  (Canon.filesystem policy ≫= fp_write) "filesystem.write.allow" [FILESYSTEM_VERB_GAP]) as H.
    cbn [existsb] in H. rewrite orb_false_r in H. apply H; [by right|]. intros s Hs. apply Hwf. by right.
Qed.

Lemma lowered_requirement policy options r :
  r ∈ pl_requirements (lower_policy policy options) ↔
  ∃ scope, snd (fst (lower_domain policy (cr_domain r))) = Some scope ∧
    r = with_scope (with_posture (requirement_prevent (cr_domain r)) (posture_for options (cr_domain r))) scope.
Proof.
  unfold lower_policy. cbn [pl_requirements]. rewrite list_elem_of_omap. split.
  - intros (d & _ & H). destruct (lower_domain policy d) as [[cov [scope|]] gaps] eqn:Hd; [|done].
    injection H as <-. cbn. rewrite Hd. by exists scope.
  - intros (scope & Hs & Hr). exists (cr_domain r). split; [apply domain_ALL_total|].
    destruct (lower_domain policy (cr_domain r)) as [[cov sc] gaps]. simpl in Hs. subst sc. by rewrite <- Hr.
Qed.

(** The requirement a lowered domain yields leaves open exactly what the policy permits. *)
Lemma requirement_agrees policy r scope :
  policy_wf policy → snd (fst (lower_domain policy (cr_domain r))) = Some scope → cr_scope r = scope →
  ∃ f, policy_permits policy (cr_domain r) = Some f ∧ ∀ x, requirement_leaves r x = f x.
Proof.
  intros Hwf Hs Hr. pose proof (lower_domain_agrees policy (cr_domain r) Hwf) as Ha. rewrite Hs in Ha.
  unfold scope_agrees in Ha. destruct (policy_permits policy (cr_domain r)) as [f|]; [|by destruct scope].
  exists f. split; [done|]. intros x. unfold requirement_leaves. rewrite Hr.
  destruct scope; [by rewrite Ha|apply Ha|apply Ha].
Qed.

(** Lowering a policy neither drops nor invents a restriction: a
    domain gets a requirement exactly when the policy states something about it, the
    requirement is to prevent over the whole process tree, and what it leaves open is
    exactly what the policy's own nodes permit: the paths its scope permits, the hosts its
    allowlist matches, the calls it lists, nothing when the capability is withheld.  Every
    domain is accounted for once. *)
Theorem lowering_exact policy options d :
  policy_wf policy →
  (is_Some (policy_permits policy d) ↔
     ∃ r, r ∈ pl_requirements (lower_policy policy options) ∧ cr_domain r = d) ∧
  (∀ r, r ∈ pl_requirements (lower_policy policy options) → cr_domain r = d →
     cr_intent r = RequirementIntent.PreventBeforeEffect ∧
     cr_descendants r = DescendantRequirement.ProcessTree ∧ cr_posture r = posture_for options d ∧
     ∃ f, policy_permits policy d = Some f ∧ ∀ x, requirement_leaves r x = f x) ∧
  map dl_domain (pl_domains (lower_policy policy options)) = domain_ALL.
Proof.
  intros Hwf. split_and!.
  - pose proof (lower_domain_agrees policy d Hwf) as Ha. split.
    + intros [f Hf]. rewrite Hf in Ha. unfold scope_agrees in Ha.
      destruct (snd (fst (lower_domain policy d))) as [scope|] eqn:Hs; [|done].
      exists (with_scope (with_posture (requirement_prevent d) (posture_for options d)) scope).
      split; [|done]. apply lowered_requirement. by exists scope.
    + intros (r & (scope & Hs & Hr)%lowered_requirement & <-).
      destruct (requirement_agrees policy r scope Hwf Hs) as (f & -> & _); [by rewrite Hr|]. by eexists.
  - intros r (scope & Hs & Hr)%lowered_requirement Hd.
    destruct (requirement_agrees policy r scope Hwf Hs) as (f & Hf & Hx); [by rewrite Hr|]. rewrite Hd in *.
    split_and!; [by rewrite Hr..|]. by exists f.
  - unfold lower_policy. cbn [pl_domains]. rewrite map_map. rewrite <- (map_id domain_ALL) at 2.
    apply map_ext. intros d'. by destruct (lower_domain policy d') as [[? ?] ?].
Qed.

Lemma foldl_with_requirement rs spec :
  es_requirements (foldl with_requirement spec rs) = es_requirements spec ++ rs.
Proof.
  revert spec. induction rs as [|r rs IH]; intros spec; simpl; [by rewrite app_nil_r|].
  rewrite IH. simpl. by rewrite <- app_assoc.
Qed.

Lemma apply_to_Ok l spec spec' :
  apply_to l spec = Ok spec' → pl_requirements l ≠ [] ∧
  es_requirements spec' = es_requirements spec ++ pl_requirements l.
Proof.
  unfold apply_to. destruct (pl_requirements l) as [|r rs] eqn:Hl; [done|]. intros H. injection H as <-.
  split; [done|]. exact (foldl_with_requirement (r :: rs) spec).
Qed.

(** C25: end to end, a policy lowered strictly and planned is a
    policy enforced: if the lowered specification negotiates at all, then every domain the
    policy restricts is planned as enforced before the effect over the whole process tree,
    leaving open exactly what the policy permits.  A policy that restricts nothing yields
    no launch specification. *)
Theorem strict_launch_enforces lower policy spec spec' b c plan d f :
  policy_wf policy →
  apply_to (lower_policy policy strict) spec = Ok spec' →
  negotiate lower spec' b c = Ok plan →
  policy_permits policy d = Some f →
  ∃ p, p ∈ ep_planned plan ∧ cr_domain (pr_requirement p) = d ∧
    pr_outcome p = Outcome.Enforced DecisionTiming.Pre DescendantCoverage.ProcessTree ∧
    (∀ x, requirement_leaves (pr_requirement p) x = f x) ∧ d ∈ prevented_domains plan.
Proof.
  intros Hwf [_ Happ]%apply_to_Ok (_ & _ & _ & Hreq & Hf2 & _)%negotiate_Ok Hf.
  pose proof (lower_domain_agrees policy d Hwf) as Ha. rewrite Hf in Ha. unfold scope_agrees in Ha.
  destruct (snd (fst (lower_domain policy d))) as [scope|] eqn:Hs; [|done].
  set (r := with_scope (with_posture (requirement_prevent d) (posture_for strict d)) scope).
  assert (r ∈ es_requirements spec') as Hr.
  { rewrite Happ. apply elem_of_app. right. apply lowered_requirement. by exists scope. }
  specialize (Hreq r Hr eq_refl). apply list_elem_of_lookup in Hr as [i Hi].
  destruct (Forall2_lookup_l _ _ _ _ _ Hf2 Hi) as (p & Hp & Hone).
  assert (pr_requirement p = r ∧ pr_outcome p = Outcome.Enforced DecisionTiming.Pre DescendantCoverage.ProcessTree)
    as [Hpr Ho].
  { split; [by destruct (plan_one_inl _ _ _ _ Hone)|]. unfold plan_one in Hone.
    pose proof (evaluate_Err_iff c r) as He. rewrite Hreq in He.
    destruct (evaluate r (report_for c (cr_domain r))) as [o|] eqn:Hev; [|done]. injection Hone as <-. simpl.
    apply evaluate_Ok_iff in Hev as [Hm (report & Hrep & ->)]. unfold meets in Hm. rewrite Hrep in Hm.
    unfold report_meets, descendants_met, can_prevent in Hm. simpl in Hm.
    rewrite !andb_true_iff, !bool_decide_eq_true in Hm. destruct_and!. unfold met_outcome. simpl. congruence. }
  assert (p ∈ ep_planned plan) as Hin by (apply list_elem_of_lookup; eauto).
  exists p. rewrite Hpr. split_and!; try done.
  - destruct (requirement_agrees policy r scope Hwf Hs eq_refl) as (g & Hg & Hx). simpl in Hg. congruence.
  - unfold prevented_domains. apply list_elem_of_fmap. exists p. rewrite Hpr. split; [done|].
    apply list_elem_of_filter. by rewrite Ho.
Qed.

(** ** Selection *)

(** A candidate is eligible when it is available, meets every required control, and its
    reports reach the evidence minimums. *)
Definition minimum_met (c : BackendCapabilities) (e : CapabilityDomain * EvidenceMinimum) : bool :=
  match report_for c (fst e) with
  | None => false
  | Some report =>
      match em_min_failure_posture (snd e) with
      | None => true
      | Some required => meets_failure_posture_minimum (rp_failure_posture report) required
      end
      && (negb (em_require_full_support (snd e))
          || match rp_support report with SupportLevel.Full => true | _ => false end)
  end.

Definition eligible (r : RuntimeRequirements) (c : Candidate) : Prop :=
  bc_availability (cd_capabilities c) = BackendAvailability.Available ∧
  (∀ q, q ∈ rr_confinement r → refuses_on_failure (cr_posture q) = true → meets (cd_capabilities c) q = true) ∧
  ∀ e, e ∈ rr_min_evidence r → minimum_met (cd_capabilities c) e = true.

Lemma unmet_minimum_None c e : unmet_minimum c e = None ↔ minimum_met c e = true.
Proof.
  destruct e as [d m]. unfold unmet_minimum, minimum_met. simpl.
  destruct (report_for c d) as [report|]; [|done].
  destruct (match em_min_failure_posture m with Some _ => _ | None => _ end); simpl;
    destruct (negb (em_require_full_support m)); simpl; try done;
    destruct (rp_support report); done.
Qed.

Lemma unmet_evidence_nil r c :
  unmet_evidence_minimums r c = [] ↔ ∀ e, e ∈ rr_min_evidence r → minimum_met c e = true.
Proof.
  unfold unmet_evidence_minimums. induction (rr_min_evidence r) as [|e l IH]; simpl.
  { by split; [intros _ ? ?%not_elem_of_nil|]. }
  destruct (unmet_minimum c e) as [x|] eqn:He.
  - split; [done|]. intros H. specialize (H e ltac:(left)). apply unmet_minimum_None in H. congruence.
  - rewrite IH. apply unmet_minimum_None in He. split.
    + intros H x [->|Hx]%elem_of_cons; auto.
    + intros H x Hx. apply H. by right.
Qed.

Lemma probe_requirements r : es_requirements (probe_spec r) = rr_confinement r.
Proof. unfold probe_spec. by rewrite foldl_with_requirement. Qed.

Lemma evaluate_candidate_eligible r c : is_ok (evaluate_candidate r c) = true ↔ eligible r c.
Proof.
  unfold evaluate_candidate, eligible, result_bind. rewrite <- unmet_evidence_nil.
  destruct (negotiate no_steps (probe_spec r) (cd_identity c) (cd_capabilities c)) as [plan|] eqn:Hn.
  - apply negotiate_Ok in Hn as (Ha & _ & _ & Hm & _). rewrite probe_requirements in Hm.
    destruct (unmet_evidence_minimums r (cd_capabilities c)); simpl; split; try done. by intros (_ & _ & ?).
  - split; [done|]. intros (Ha & Hm & _). unfold negotiate in Hn. rewrite Ha in Hn.
    rewrite probe_requirements in Hn. apply (rights_nil no_steps) in Hm. by rewrite Hm in Hn.
Qed.

Lemma select_loop_spec r considered cands :
  match select_loop r considered cands with
  | (Selected i plan, seen) =>
      ∃ pre c post, cands = pre ++ c :: post ∧ i = cd_identity c ∧ evaluate_candidate r c = Ok plan ∧
        eligible r c ∧ (∀ x, x ∈ pre → ¬ eligible r x) ∧
        List.length seen = (List.length considered + List.length pre + 1)%nat
  | (SelectionRefused, seen) =>
      (∀ x, x ∈ cands → ¬ eligible r x) ∧
      List.length seen = (List.length considered + List.length cands)%nat
  end.
Proof.
  revert considered. induction cands as [|c rest IH]; intros considered; simpl.
  { split; [by intros ? ?%not_elem_of_nil|lia]. }
  assert (∀ cb, ¬ eligible r c →
    match select_loop r (considered ++ [cb]) rest with
    | (Selected i plan, seen) =>
        ∃ pre c0 post, c :: rest = pre ++ c0 :: post ∧ i = cd_identity c0 ∧
          evaluate_candidate r c0 = Ok plan ∧ eligible r c0 ∧ (∀ x, x ∈ pre → ¬ eligible r x) ∧
          List.length seen = (List.length considered + List.length pre + 1)%nat
    | (SelectionRefused, seen) =>
        (∀ x, x ∈ c :: rest → ¬ eligible r x) ∧
        List.length seen = (List.length considered + S (List.length rest))%nat
    end) as Hskip.
  { intros cb Hne. specialize (IH (considered ++ [cb])). rewrite length_app in IH. simpl in IH.
    destruct (select_loop r (considered ++ [cb]) rest) as [[i plan|] seen].
    - destruct IH as (pre & c0 & post & -> & Hi & He & Hel & Hpre & Hlen).
      exists (c :: pre), c0, post. simpl. split_and!; try done; [|lia].
      intros x [->|Hx]%elem_of_cons; auto.
    - destruct IH as [Hn Hlen]. split; [|lia]. intros x [->|Hx]%elem_of_cons; auto. }
  destruct (bc_availability (cd_capabilities c)) eqn:Ha.
  - destruct (evaluate_candidate r c) as [plan|] eqn:He.
    + exists [], c, rest. simpl. split_and!; try done.
      * apply evaluate_candidate_eligible. by rewrite He.
      * by intros ? ?%not_elem_of_nil.
      * rewrite length_app. simpl. lia.
    + apply Hskip. rewrite <- evaluate_candidate_eligible. by rewrite He.
  - apply Hskip. intros [Ha' _]. congruence.
Qed.

(** Automatic selection picks the first candidate, in the
    declared order, that is available, meets every required control and reaches every
    evidence minimum, and refuses exactly when none does; it reports one verdict per
    candidate considered. *)
Theorem select_first_eligible r cands :
  match select r cands with
  | (Selected i plan, seen) =>
      ∃ pre c post, cands = pre ++ c :: post ∧ i = cd_identity c ∧ evaluate_candidate r c = Ok plan ∧
        eligible r c ∧ (∀ x, x ∈ pre → ¬ eligible r x) ∧ List.length seen = (List.length pre + 1)%nat
  | (SelectionRefused, seen) =>
      (∀ x, x ∈ cands → ¬ eligible r x) ∧ List.length seen = List.length cands
  end.
Proof. exact (select_loop_spec r [] cands). Qed.

(** ** The permissive label *)

(** The allow-all artifact with one more node: a write scope. *)
Definition allow_all_with_paths (write : PathScope) : PolicyDocument := {|
  pd_name := None; pd_policy_version := None; pd_version := None; pd_scope := Scope.Global;
  pd_network := None; pd_schedule := None; pd_budget := None; pd_data := None;
  pd_approval_timeout_secs := 300; pd_approval_policy := None;
  pd_tools := {[ "*"%string := {| tp_allow := true; tp_limit_per_hour := None;
                                 tp_requires_approval_if := None; tp_capabilities := None |} ]};
  pd_capabilities := None; pd_filesystem := Some {| fp_read := None; fp_write := Some write |};
  pd_syscall_allowlist := None; pd_leases := []; pd_egress := Egress.NotRequired;
  pd_credentials := Brokerage.NotRequired;
|}.

(** A document that allows every tool and states a
    filesystem scope is classified permissive, the state documented as having nothing left
    to enforce, whatever the scope; its lowering still restricts writes to that scope. *)
Theorem permissive_hides_path_scope digest source write :
  ∃ r, classify digest source (Ok (allow_all_with_paths write)) = Permissive r ∧
    policy_permits (rs_canonical r) FilesystemWrite = Some (path_permits write).
Proof. eexists. split; [vm_compute; reflexivity|reflexivity]. Qed.

(** ** Witnesses *)

Definition sample_policy : Canon.PolicyDocument :=
  {| Canon.name := None; Canon.network := Some ["*.example.com"%string];
     Canon.capabilities := Some {| Canon.allow := []; Canon.deny := [Canon.AgentSpawn] |};
     Canon.tools := []; Canon.syscall_allowlist := None;
     Canon.filesystem := Some {| fp_read := None; fp_write := Some {| ps_paths := {[ "/workspace"%string ]} |} |} |}.

Lemma sample_policy_wf : policy_wf sample_policy.
Proof.
  intros s [Hs|Hs]; [done|]. injection Hs as <-. simpl. intros e ->%elem_of_singleton.
  vm_compute. reflexivity.
Qed.

Definition enforcing (d : CapabilityDomain) : CapabilityReport :=
  with_coverage (report_new d Mediation.Enforce DecisionTiming.Pre Synchrony.Sync) DescendantCoverage.ProcessTree.

Definition sample_capabilities : BackendCapabilities :=
  {| bc_availability := BackendAvailability.Available;
     bc_platform_boundary := PlatformBoundary.SharedHostKernel;
     bc_reports := map enforcing [FilesystemWrite; NetworkEgress; ProcessCreation] |}.

Definition sample_backend : BackendIdentity :=
  {| bi_id := "landlock"; bi_version := "1"; bi_source := "in-tree"; bi_license := "Apache-2.0";
     bi_modified := false |}.

Definition sample_launch : ExecutionSpec :=
  match apply_to (lower_policy sample_policy strict) (spec_new "agent" (identity_root "a")) with
  | Ok s => s
  | Err _ => spec_new "agent" (identity_root "a")
  end.

Definition sample_plan : EnforcementPlan :=
  match negotiate no_steps sample_launch sample_backend sample_capabilities with
  | Ok p => p
  | Err _ => {| ep_backend := sample_backend; ep_spec := sample_launch; ep_planned := [];
                ep_posture := LaunchPosture.Refused |}
  end.

Lemma lowering_exact_witness :
  ∃ r, r ∈ pl_requirements (lower_policy sample_policy strict) ∧ cr_domain r = ProcessCreation.
Proof.
  apply (proj1 (lowering_exact sample_policy strict ProcessCreation sample_policy_wf)).
  vm_compute. eexists. reflexivity.
Defined.

Lemma strict_launch_enforces_witness :
  ∃ p, p ∈ ep_planned sample_plan ∧ cr_domain (pr_requirement p) = FilesystemWrite ∧
    pr_outcome p = Outcome.Enforced DecisionTiming.Pre DescendantCoverage.ProcessTree ∧
    (∀ x, requirement_leaves (pr_requirement p) x
          = path_permits {| ps_paths := {[ "/workspace"%string ]} |} x) ∧
    FilesystemWrite ∈ prevented_domains sample_plan.
Proof.
  apply (strict_launch_enforces no_steps sample_policy (spec_new "agent" (identity_root "a"))
           sample_launch sample_backend sample_capabilities sample_plan FilesystemWrite).
  - exact sample_policy_wf.
  - vm_compute. reflexivity.
  - vm_compute. reflexivity.
  - reflexivity.
Defined.
