(* ===== verification/LeaseRecord.v ===== *)
(** * LeaseRecord: the persisted revocation record of a governed run

    aa-runtime/src/lease/state.rs: the record, its validation, revocation, the identity
    of a lease within a run, and the monotonicity a reload insists on.  The JSON text of a
    record is the library's; only its length matters here, so it is an argument.  The
    filesystem (locks, permissions, atomic replacement) is not modelled.

    A [BTreeSet<String>] collected back into a [Vec] is a strictly sorted list. *)

From stdpp Require Import base gmap strings list sorting.
From Stdlib Require Import ZArith Lia Bool Ascii String.
From S2P Require Import Prelude.
From S2P Require Import Text.

Open Scope Z_scope.
Open Scope aasm_scope.

(** ** Order on strings *)

Lemma code_inj a b : code a = code b → a = b.
Proof.
  unfold code. intros H%N2Z.inj. rewrite <- (ascii_N_embedding a), <- (ascii_N_embedding b). by rewrite H.
Qed.

Lemma str_ltb_trans a b c : str_ltb a b = true → str_ltb b c = true → str_ltb a c = true.
Proof.
  revert b c. induction a as [|x a IH]; intros [|y b] [|z c]; simpl; try done.
  destruct (Z.ltb_spec (code x) (code y)), (Z.ltb_spec (code y) (code z)), (Z.ltb_spec (code x) (code z));
    try done; try lia; destruct (Z.eqb_spec (code x) (code y)), (Z.eqb_spec (code y) (code z)),
    (Z.eqb_spec (code x) (code z)); try done; try lia. apply IH.
Qed.

Lemma str_ltb_total a b : str_ltb a b = false → str_ltb b a = false → a = b.
Proof.
  revert b. induction a as [|x a IH]; intros [|y b]; simpl; try done.
  destruct (Z.ltb_spec (code x) (code y)), (Z.ltb_spec (code y) (code x)); try done; try lia.
  assert (code x = code y) as Hc by lia. rewrite Hc, Z.eqb_refl. intros H1 H2.
  f_equal; [by apply code_inj|by apply IH].
Qed.

(** ** Data *)

Definition STATE_VERSION : Z := 1.
Definition MAX_RECORD_BYTES : Z := 1024 * 1024.
Definition MAX_SUBJECT_LEN : Z := 512.
Definition MAX_ID_LEN : Z := 1024.
Definition DIGEST_MIN_LEN : Z := 12.
Definition DIGEST_MAX_LEN : Z := 128.
Definition DIGEST_PREFIX_LEN : nat := 12.
Definition MAX_REVOKED : Z := 10000.
Definition RUN_ID_LEN : Z := 32.
Definition MAX_DOMAIN_LEN : Z := 64.

Module StateError.
Inductive t :=
| Missing (path : string)
| Corrupt (why : string)
| VersionUnsupported (v : Z)
| Io (why : string)
| Invalid (why : string)
| AlreadyExists (path : string)
| InsecureTarget (why : string)
| NotMonotonic (why : string)
| Mismatch (why : string).
End StateError.

Record LeaseState := {
  ls_version : Z;
  ls_subject : string;
  ls_policy_digest : string;
  ls_run_id : string;
  ls_issued_at : Z;
  ls_generation : Z;
  ls_revoked : list string;
}.

#[export] Instance LeaseState_eq_dec : EqDecision LeaseState.
Proof. solve_decision. Defined.

(** ** Field checks *)

Definition check_text (what s : string) (max : Z) : result unit string :=
  if is_empty (trim s) then Err (what ++ " is empty")%string
  else if max <? utf8_len s then Err (what ++ " exceeds " ++ decimal (Z.to_N max) ++ " bytes")%string
  else if negb (str_forallb (λ c, negb (is_control c)) s)
  then Err (what ++ " contains a control character")%string
  else Ok tt.

Definition check_subject (s : string) : result unit string :=
  let? _ := check_text "subject" s MAX_SUBJECT_LEN in
  if negb (str_forallb (λ c, negb (is_whitespace c)) s) then Err "subject contains whitespace"%string
  else Ok tt.

Definition is_lower_hex (c : ascii) : bool := is_ascii_digit c || in_range 97 102 c.

Definition check_run_id (r : string) : result unit string :=
  if negb (utf8_len r =? RUN_ID_LEN) || negb (str_forallb is_lower_hex r)
  then Err "run_id must be 32 lowercase hex characters"%string else Ok tt.

Definition is_domain_char (c : ascii) : bool :=
  in_range 97 122 c || is_ascii_digit c || (code c =? 95) || (code c =? 45).

Definition check_domain (d : string) : result unit string :=
  if is_empty d || (MAX_DOMAIN_LEN <? utf8_len d) || negb (str_forallb is_domain_char d)
  then Err "domain must be 1..=64 characters of [a-z0-9_-]"%string else Ok tt.

Definition check_digest (d : string) : result unit string :=
  if (utf8_len d <? DIGEST_MIN_LEN) || (DIGEST_MAX_LEN <? utf8_len d)
  then Err "policy_digest must be 12..=128 lowercase hex characters"%string
  else if negb (str_forallb is_lower_hex d) then Err "policy_digest must be lowercase hex"%string
  else Ok tt.

(** [str::replace] of one character by a string. *)
Fixpoint replace_with (from : ascii) (into s : string) : string :=
  match s with
  | EmptyString => EmptyString
  | String c s' =>
      String.append (if ascii_dec c from then into else String c EmptyString) (replace_with from into s')
  end.

Definition encode_subject (subject : string) : string :=
  replace_with ":" "%3A" (replace_with "%" "%25" subject).

(** [chars().take(n)]. *)
Fixpoint take_chars (n : nat) (s : string) : string :=
  match n, s with
  | S n', String c s' => String c (take_chars n' s')
  | _, _ => EmptyString
  end.

(** [windows(2).all(|w| w[0] < w[1])]. *)
Fixpoint strictly_sorted (l : list string) : bool :=
  match l with
  | x :: (y :: _) as l' => str_ltb x y && strictly_sorted l'
  | _ => true
  end.

Fixpoint check_all (f : string → result unit string) (l : list string) : result unit string :=
  match l with
  | [] => Ok tt
  | x :: l' => let? _ := f x in check_all f l'
  end.

Definition validate (s : LeaseState) : result unit string :=
  if negb (ls_version s =? STATE_VERSION)
  then Err ("version " ++ decimal (Z.to_N (ls_version s)) ++ " is not 1")%string
  else
    let? _ := check_subject (ls_subject s) in
    let? _ := check_digest (ls_policy_digest s) in
    let? _ := check_run_id (ls_run_id s) in
    if ls_issued_at s =? 0 then Err "issued_at must be a positive unix time"%string
    else if ls_generation s =? 0 then Err "generation must be at least 1"%string
    else if MAX_REVOKED <? Z.of_nat (List.length (ls_revoked s))
    then Err "revoked holds more than 10000 ids"%string
    else
      let? _ := check_all (λ id, check_text "revoked id" id MAX_ID_LEN) (ls_revoked s) in
      if negb (strictly_sorted (ls_revoked s))
      then Err "revoked must be sorted and free of duplicates"%string
      else Ok tt.

(** ** Operations *)

Definition map_invalid {A} (r : result A string) : result A StateError.t :=
  match r with Ok a => Ok a | Err why => Err (StateError.Invalid why) end.

(** The random run id is an argument, as in [new_run_with_id]. *)
Definition new_run_with_id (subject policy_digest run_id : string) (now : Z)
  : result LeaseState StateError.t :=
  let s := {| ls_version := STATE_VERSION; ls_subject := subject; ls_policy_digest := policy_digest;
              ls_run_id := run_id; ls_issued_at := now; ls_generation := 1; ls_revoked := [] |} in
  let? _ := map_invalid (validate s) in Ok s.

(** [<[T]>::binary_search_by] of the standard library: halve the range, then compare
    once. *)
Definition str_compare (a b : string) : comparison :=
  if str_ltb a b then Lt else if str_ltb b a then Gt else Eq.

Fixpoint search_base (fuel : nat) (l : list string) (key : string) (base size : nat) : nat :=
  match fuel with
  | O => base
  | S fuel' =>
      if (size <=? 1)%nat then base
      else
        let half := (size / 2)%nat in
        let mid := (base + half)%nat in
        let base' := match str_compare (nth mid l EmptyString) key with Gt => base | _ => mid end in
        search_base fuel' l key base' (size - half)
  end.

Definition is_revoked (s : LeaseState) (id : string) : bool :=
  match ls_revoked s with
  | [] => false
  | l => let base := search_base (List.length l) l id 0 (List.length l) in
         match str_compare (nth base l EmptyString) id with Eq => true | _ => false end
  end.

Definition id_text (subject policy_digest run_id : string) (issued_at : Z) : string :=
  (encode_subject subject ++ ":" ++ take_chars DIGEST_PREFIX_LEN policy_digest ++ ":" ++ run_id ++ ":"
   ++ decimal (Z.to_N issued_at) ++ ":")%string.

Definition lease_id_prefix (s : LeaseState) : string :=
  id_text (ls_subject s) (ls_policy_digest s) (ls_run_id s) (ls_issued_at s).

Definition lease_id (subject policy_digest run_id : string) (issued_at : Z) (domain : string)
  : result string StateError.t :=
  let? _ := map_invalid (check_subject subject) in
  let? _ := map_invalid (check_digest policy_digest) in
  let? _ := map_invalid (check_run_id run_id) in
  let? _ := map_invalid (check_domain domain) in
  Ok (id_text subject policy_digest run_id issued_at ++ domain)%string.

Definition state_lease_id (s : LeaseState) (domain : string) : result string StateError.t :=
  lease_id (ls_subject s) (ls_policy_digest s) (ls_run_id s) (ls_issued_at s) domain.

Definition is_issuable_id (s : LeaseState) (id : string) : bool :=
  match strip_prefix id (lease_id_prefix s) with
  | Some domain => is_ok (check_domain domain)
  | None => false
  end.

(** [BTreeSet::insert] on the set in order. *)
Fixpoint set_insert (x : string) (l : list string) : list string :=
  match l with
  | [] => [x]
  | y :: l' => if String.eqb x y then l else if str_ltb x y then x :: l else y :: set_insert x l'
  end.

(** The loop of [revoke] over the ids. *)
Fixpoint revoke_loop (set ids : list string) : result (list string) StateError.t :=
  match ids with
  | [] => Ok set
  | id :: ids' =>
      let? _ := map_invalid (check_text "revoked id" id MAX_ID_LEN) in
      revoke_loop (set_insert id set) ids'
  end.

Section Encoded.
(** The length of the record's JSON text, newline included. *)
Context (record_len : LeaseState → Z).

(** The new state and whether it changed. *)
Definition revoke (s : LeaseState) (ids : list string) : result (LeaseState * bool) StateError.t :=
  let set := foldl (λ set id, set_insert id set) [] (ls_revoked s) in
  let? set' := revoke_loop set ids in
  if (List.length set' =? List.length set)%nat then Ok (s, false)
  else if u64_max <? ls_generation s + 1 then Err (StateError.Invalid "generation overflow")
  else
    let candidate :=
      {| ls_version := ls_version s; ls_subject := ls_subject s;
         ls_policy_digest := ls_policy_digest s; ls_run_id := ls_run_id s;
         ls_issued_at := ls_issued_at s; ls_generation := ls_generation s + 1; ls_revoked := set' |} in
    let? _ := map_invalid (validate candidate) in
    if MAX_RECORD_BYTES <? record_len candidate
    then Err (StateError.Invalid "revocation set would make the record larger than 1048576 bytes")
    else Ok (candidate, true).

Definition check_monotonic (old new : LeaseState) : result unit StateError.t :=
  let bad why := Err (StateError.NotMonotonic why) in
  if negb (ls_version old =? ls_version new) then bad "version changed"%string
  else if negb (String.eqb (ls_subject old) (ls_subject new)) then bad "subject changed"%string
  else if negb (String.eqb (ls_policy_digest old) (ls_policy_digest new)) then bad "policy digest changed"%string
  else if negb (String.eqb (ls_run_id old) (ls_run_id new)) then bad "run_id changed"%string
  else if negb (ls_issued_at old =? ls_issued_at new) then bad "issued_at (run anchor) changed"%string
  else if ls_generation new <? ls_generation old then bad "generation went backwards"%string
  else if negb (forallb (λ id, bool_decide (id ∈ ls_revoked new)) (ls_revoked old))
  then bad "revocation set shrank"%string
  else if (ls_generation new =? ls_generation old) && negb (bool_decide (ls_revoked new = ls_revoked old))
  then bad "revocation set changed without a generation bump"%string
  else Ok tt.

(** [revoke_checked] from the loaded record on: what it returns, and what it writes.
    The refusal's text is shortened to its first clause. *)
Definition revoke_checked (stored : LeaseState) (ids : list string) (issued_only : bool)
  : result (LeaseState * option LeaseState) StateError.t :=
  let? _ := map_invalid (check_all (λ id, check_text "revoked id" id MAX_ID_LEN) ids) in
  let? _ :=
    match find (λ id, negb (is_revoked stored id) && negb (is_issuable_id stored id)) ids with
    | Some bad =>
        if issued_only
        then Err (StateError.Invalid (bad ++ " is not a lease id of this run; ids look like "
                    ++ lease_id_prefix stored ++ "<domain>")%string)
        else Ok tt
    | None => Ok tt
    end in
  let? r := revoke stored ids in
  let '(state, changed) := r in
  if changed then let? _ := check_monotonic stored state in Ok (state, Some state)
  else Ok (state, None).

(** [load_expected] from the loaded record on; the texts end before the two values. *)
Definition load_expected (stored : LeaseState) (subject policy_digest : string)
  : result LeaseState StateError.t :=
  if negb (String.eqb (ls_subject stored) subject)
  then Err (StateError.Mismatch "subject differs from the record")
  else if negb (String.eqb (ls_policy_digest stored) policy_digest)
  then Err (StateError.Mismatch "policy digest differs from the record")
  else Ok stored.
End Encoded.

(** ** Sorted sets *)

Definition str_lt (a b : string) : Prop := str_ltb a b = true.

#[export] Instance str_lt_trans : Transitive str_lt.
Proof. intros a b c. apply str_ltb_trans. Qed.

Lemma strictly_sorted_spec l : strictly_sorted l = true ↔ StronglySorted str_lt l.
Proof.
  induction l as [|x l IH]; [split; [constructor|done]|].
  destruct l as [|y l]; [split; [intros _; repeat constructor|done]|].
  change (str_ltb x y && strictly_sorted (y :: l) = true ↔ StronglySorted str_lt (x :: y :: l)).
  rewrite andb_true_iff, IH. split.
  - intros [Hxy Hs]. constructor; [done|]. constructor; [done|].
    inversion Hs as [|? ? _ Hall]; subst. eapply Forall_impl; [exact Hall|]. intros z Hz. by transitivity y.
  - inversion 1 as [|? ? Hs Hall]; subst. inversion Hall; subst. done.
Qed.

Lemma elem_of_set_insert x y l : y ∈ set_insert x l ↔ y = x ∨ y ∈ l.
Proof.
  induction l as [|z l IH]; simpl.
  { rewrite list_elem_of_singleton, elem_of_nil. tauto. }
  destruct (String.eqb_spec x z) as [->|]; [rewrite elem_of_cons; tauto|].
  destruct (str_ltb x z); rewrite !elem_of_cons; [tauto|]. rewrite IH. tauto.
Qed.

Lemma set_insert_sorted x l : StronglySorted str_lt l → StronglySorted str_lt (set_insert x l).
Proof.
  induction 1 as [|y l Hl IH Hy]; simpl; [by repeat constructor|].
  destruct (String.eqb_spec x y) as [->|Hne]; [by constructor|].
  destruct (str_ltb x y) eqn:E.
  - constructor; [by constructor|]. constructor; [done|].
    eapply Forall_impl; [exact Hy|]. intros z Hz. by transitivity y.
  - constructor; [done|]. apply Forall_forall. intros z [->|Hz]%elem_of_set_insert.
    + unfold str_lt. destruct (str_ltb y x) eqn:E'; [done|]. by destruct Hne; apply str_ltb_total.
    + rewrite Forall_forall in Hy. by apply Hy.
Qed.

(** Inserting either finds the element or lengthens the list by one. *)
Lemma set_insert_length x l :
  set_insert x l = l ∧ x ∈ l ∨ List.length (set_insert x l) = S (List.length l).
Proof.
  induction l as [|y l IH]; simpl; [by right|].
  destruct (String.eqb_spec x y) as [->|]; [left; split; [done|left]|].
  destruct (str_ltb x y); [by right|]. simpl.
  destruct IH as [[-> Hx]|IH]; [left; split; [done|by right]|right; lia].
Qed.

Lemma foldl_insert_sorted acc l :
  StronglySorted str_lt (acc ++ l) → foldl (λ set id, set_insert id set) acc l = acc ++ l.
Proof.
  revert acc. induction l as [|x l IH]; intros acc Hs; simpl; [by rewrite app_nil_r|].
  assert (set_insert x acc = acc ++ [x]) as ->.
  { clear IH. induction acc as [|y acc IHa]; simpl in *; [done|].
    inversion Hs as [|? ? Hs' Hall]; subst. apply Forall_app in Hall as [_ Hall].
    inversion Hall as [|? ? Hyx _]; subst. unfold str_lt in Hyx.
    destruct (String.eqb_spec x y) as [->|]; [by rewrite str_ltb_irrefl in Hyx|].
    destruct (str_ltb x y) eqn:E; [|by rewrite IHa].
    pose proof (str_ltb_trans _ _ _ Hyx E) as Hi. by rewrite str_ltb_irrefl in Hi. }
  rewrite IH by (by rewrite <- app_assoc). by rewrite <- app_assoc.
Qed.

Lemma check_all_Ok f l : check_all f l = Ok tt ↔ ∀ x, x ∈ l → f x = Ok tt.
Proof.
  induction l as [|x l IH]; simpl; [by split; [intros _ ? ?%not_elem_of_nil|]|].
  unfold result_bind. destruct (f x) as [[]|] eqn:Hf.
  - rewrite IH. split; [intros H y [->|Hy]%elem_of_cons; auto|]. intros H y Hy. apply H. by right.
  - split; [done|]. intros H. specialize (H x ltac:(left)). congruence.
Qed.

Lemma revoke_loop_Ok set ids set' :
  StronglySorted str_lt set → revoke_loop set ids = Ok set' →
  StronglySorted str_lt set' ∧ (∀ x, x ∈ set' ↔ x ∈ set ∨ x ∈ ids) ∧
  (set' = set ∨ List.length set < List.length set')%nat.
Proof.
  revert set. induction ids as [|id ids IH]; intros set Hs; simpl.
  { intros [= <-]. split_and!; [done| |by left]. intros x. rewrite elem_of_nil. tauto. }
  unfold result_bind, map_invalid. destruct (check_text _ id MAX_ID_LEN); [|done]. intros H.
  destruct (IH _ (set_insert_sorted id set Hs) H) as (Hs' & Hin & Hlen). split_and!; [done| |].
  - intros x. rewrite Hin, elem_of_set_insert, elem_of_cons. tauto.
  - destruct (set_insert_length id set) as [[Heq _]|Hl]; [by rewrite Heq in Hlen|].
    right. destruct Hlen as [->|Hlen]; lia.
Qed.

(** ** The invariant of a record *)

Definition valid (s : LeaseState) : Prop := validate s = Ok tt.

Lemma valid_fields s :
  valid s ↔
  ls_version s = STATE_VERSION ∧ check_subject (ls_subject s) = Ok tt ∧
  check_digest (ls_policy_digest s) = Ok tt ∧ check_run_id (ls_run_id s) = Ok tt ∧
  ls_issued_at s ≠ 0 ∧ ls_generation s ≠ 0 ∧ Z.of_nat (List.length (ls_revoked s)) ≤ MAX_REVOKED ∧
  (∀ id, id ∈ ls_revoked s → check_text "revoked id" id MAX_ID_LEN = Ok tt) ∧
  StronglySorted str_lt (ls_revoked s).
Proof.
  unfold valid, validate, result_bind.
  rewrite <- strictly_sorted_spec, <- (check_all_Ok (λ id, check_text "revoked id" id MAX_ID_LEN)).
  destruct (Z.eqb_spec (ls_version s) STATE_VERSION); simpl; [|by split; [|intros (? & _)]].
  destruct (check_subject (ls_subject s)) as [[]|]; [|by split; [|intros (_ & ? & _)]].
  destruct (check_digest (ls_policy_digest s)) as [[]|]; [|by split; [|intros (_ & _ & ? & _)]].
  destruct (check_run_id (ls_run_id s)) as [[]|]; [|by split; [|intros (_ & _ & _ & ? & _)]].
  destruct (Z.eqb_spec (ls_issued_at s) 0); [split; [done|tauto]|].
  destruct (Z.eqb_spec (ls_generation s) 0); [split; [done|tauto]|].
  destruct (Z.ltb_spec MAX_REVOKED (Z.of_nat (List.length (ls_revoked s)))); [split; [done|lia]|].
  destruct (check_all _ (ls_revoked s)) as [[]|]; [|split; [done|by intros (_ & _ & _ & _ & _ & _ & _ & ? & _)]].
  destruct (strictly_sorted (ls_revoked s)); simpl; split; try done; try tauto.
  by intros (_ & _ & _ & _ & _ & _ & _ & _ & ?).
Qed.

#[local] Arguments Nat.div : simpl never.

(** The search answers membership on a sorted list: the index of a present key never
    leaves the range. *)
Lemma str_compare_Eq a b : str_compare a b = Eq ↔ a = b.
Proof.
  unfold str_compare. destruct (str_ltb a b) eqn:H1.
  - split; [done|]. intros ->. by rewrite str_ltb_irrefl in H1.
  - destruct (str_ltb b a) eqn:H2; [|split; [by intros _; apply str_ltb_total|done]].
    split; [done|]. intros ->. by rewrite str_ltb_irrefl in H2.
Qed.

Lemma sorted_nth l i j :
  StronglySorted str_lt l → (i < j < List.length l)%nat →
  str_ltb (nth i l EmptyString) (nth j l EmptyString) = true.
Proof.
  intros Hs. revert i j. induction Hs as [|x l Hs IH Hx]; intros i j Hij; simpl in *; [lia|].
  destruct j as [|j]; [lia|]. destruct i as [|i].
  - rewrite Forall_forall in Hx. apply Hx. apply list_elem_of_In, nth_In. lia.
  - apply IH. lia.
Qed.

Lemma search_base_range fuel l key base size :
  StronglySorted str_lt l → (0 < size)%nat → (base + size ≤ List.length l)%nat → (size ≤ fuel + 1)%nat →
  (∀ j, (j < List.length l)%nat → nth j l EmptyString = key → (base ≤ j < base + size)%nat) →
  ∀ j, (j < List.length l)%nat → nth j l EmptyString = key → search_base fuel l key base size = j.
Proof.
  intros Hs. revert base size. induction fuel as [|fuel IH]; intros base size Hpos Hle Hfuel Hin j Hj Hk; simpl.
  { specialize (Hin j Hj Hk). lia. }
  destruct (Nat.leb_spec size 1); [specialize (Hin j Hj Hk); lia|].
  assert (0 < size / 2 < size)%nat as Hhalf.
  { split; [by apply Nat.div_str_pos; lia|apply Nat.div_lt; lia]. }
  assert (base + size / 2 < List.length l)%nat as Hmid by lia.
  assert (2 * (size / 2) ≤ size ≤ 2 * (size / 2) + 1)%nat as Hodd.
  { pose proof (Nat.div_mod_eq size 2). pose proof (Nat.mod_upper_bound size 2 ltac:(lia)). lia. }
  apply IH; try lia; try done.
  - case_match; lia.
  - intros i Hi Hki. specialize (Hin i Hi Hki). unfold str_compare.
    destruct (str_ltb (nth (base + size / 2) l EmptyString) key) eqn:H1.
    + destruct (decide (i < base + size / 2)%nat) as [Hlt|]; [|lia].
      pose proof (sorted_nth l i (base + size / 2) Hs ltac:(lia)) as Hx. rewrite Hki in Hx.
      pose proof (str_ltb_trans _ _ _ Hx H1) as Hr. by rewrite str_ltb_irrefl in Hr.
    + destruct (str_ltb key (nth (base + size / 2) l EmptyString)) eqn:H2.
      * destruct (decide (base + size / 2 ≤ i)%nat) as [Hge|]; [|lia].
        destruct (decide (i = base + size / 2)%nat) as [->|].
        { rewrite Hki in H2. by rewrite str_ltb_irrefl in H2. }
        pose proof (sorted_nth l (base + size / 2) i Hs ltac:(lia)) as Hx. rewrite Hki in Hx.
        pose proof (str_ltb_trans _ _ _ Hx H2) as Hr. by rewrite str_ltb_irrefl in Hr.
      * destruct (decide (i < base + size / 2)%nat) as [Hlt|]; [|lia].
        pose proof (sorted_nth l i (base + size / 2) Hs ltac:(lia)) as Hx. rewrite Hki in Hx. congruence.
Qed.

Lemma is_revoked_elem s id : valid s → is_revoked s id = bool_decide (id ∈ ls_revoked s).
Proof.
  intros Hv%valid_fields. destruct_and!. unfold is_revoked.
  destruct (ls_revoked s) as [|x l0] eqn:Hl; [done|].
  match goal with H : StronglySorted _ _ |- _ => rename H into Hs end. rewrite <- Hl in *.
  set (l := ls_revoked s) in *.
  assert (0 < List.length l)%nat as Hpos by (rewrite Hl; simpl; lia).
  case_bool_decide as Hin.
  - apply list_elem_of_In, (In_nth _ _ EmptyString) in Hin as (j & Hj & Hk).
    rewrite (search_base_range (List.length l) l id 0 (List.length l) Hs Hpos ltac:(lia) ltac:(lia)
               ltac:(intros; lia) j Hj Hk).
    rewrite (proj2 (str_compare_Eq _ _) Hk). done.
  - case_match eqn:E; try done. apply str_compare_Eq in E. destruct Hin.
    rewrite <- E. apply list_elem_of_In.
    destruct (Nat.lt_ge_cases (search_base (List.length l) l id 0 (List.length l)) (List.length l)) as [Hlt|Hge].
    + by apply nth_In.
    + exfalso. revert Hge. clear -Hpos.
      assert (∀ f b n, (b + n ≤ List.length l)%nat → (0 < n)%nat →
                (search_base f l id b n < List.length l)%nat) as H.
      { induction f as [|f IH]; intros b n Hb Hn; simpl; [lia|].
        destruct (Nat.leb_spec n 1); [lia|].
        assert (0 < n / 2 < n)%nat by (split; [apply Nat.div_str_pos; lia|apply Nat.div_lt; lia]).
        apply IH; [|lia]. case_match; lia. }
      specialize (H (List.length l) 0%nat (List.length l) ltac:(lia) Hpos). lia.
Qed.

(** ** Revocation *)

Lemma check_monotonic_refl s : check_monotonic s s = Ok tt.
Proof.
  unfold check_monotonic. rewrite !Z.eqb_refl, !String.eqb_refl, Z.ltb_irrefl. simpl.
  assert (forallb (λ id, bool_decide (id ∈ ls_revoked s)) (ls_revoked s) = true) as ->.
  { apply forallb_forall. intros x Hx%list_elem_of_In. by apply bool_decide_eq_true. }
  by rewrite bool_decide_true.
Qed.

(** What an accepted change of record guarantees. *)
Lemma check_monotonic_Ok old new :
  check_monotonic old new = Ok tt →
  ls_subject new = ls_subject old ∧ ls_policy_digest new = ls_policy_digest old ∧
  ls_run_id new = ls_run_id old ∧ ls_issued_at new = ls_issued_at old ∧
  ls_generation old ≤ ls_generation new ∧ (∀ id, id ∈ ls_revoked old → id ∈ ls_revoked new).
Proof.
  unfold check_monotonic.
  destruct (ls_version old =? ls_version new); [|done].
  destruct (String.eqb_spec (ls_subject old) (ls_subject new)); [|done].
  destruct (String.eqb_spec (ls_policy_digest old) (ls_policy_digest new)); [|done].
  destruct (String.eqb_spec (ls_run_id old) (ls_run_id new)); [|done].
  destruct (Z.eqb_spec (ls_issued_at old) (ls_issued_at new)); [|done].
  destruct (Z.ltb_spec (ls_generation new) (ls_generation old)); [done|]. simpl.
  destruct (forallb _ (ls_revoked old)) eqn:Hf; [|done]. intros _. split_and!; try done.
  intros id Hid. rewrite forallb_forall in Hf. apply list_elem_of_In, Hf in Hid.
  by apply bool_decide_eq_true in Hid.
Qed.

Section Revoke.
Context (record_len : LeaseState → Z).

Lemma revoke_Ok s ids s' changed :
  valid s → revoke record_len s ids = Ok (s', changed) →
  valid s' ∧ (∀ id, id ∈ ls_revoked s' ↔ id ∈ ls_revoked s ∨ id ∈ ids) ∧ check_monotonic s s' = Ok tt ∧
  ls_generation s' = ls_generation s + (if changed then 1 else 0) ∧ (changed = false → s' = s) ∧
  (changed = true → record_len s' ≤ MAX_RECORD_BYTES).
Proof.
  intros Hv. pose proof Hv as Hv'. apply valid_fields in Hv' as (_ & _ & _ & _ & _ & _ & _ & _ & Hs).
  unfold revoke. rewrite (foldl_insert_sorted [] (ls_revoked s) Hs). simpl. unfold result_bind.
  destruct (revoke_loop (ls_revoked s) ids) as [set'|] eqn:Hl; [|done].
  destruct (revoke_loop_Ok _ _ _ Hs Hl) as (Hs' & Hin & Hlen).
  destruct (Nat.eqb_spec (List.length set') (List.length (ls_revoked s))) as [Heq|Hne].
  - intros [= <- <-]. destruct Hlen as [->|]; [|lia].
    split_and!; try done; [apply check_monotonic_refl|lia].
  - destruct (u64_max <? ls_generation s + 1); [done|].
    destruct (validate _) as [[]|] eqn:Hval; simpl; [|done].
    destruct (Z.ltb_spec MAX_RECORD_BYTES (record_len
      {| ls_version := ls_version s; ls_subject := ls_subject s; ls_policy_digest := ls_policy_digest s;
         ls_run_id := ls_run_id s; ls_issued_at := ls_issued_at s; ls_generation := ls_generation s + 1;
         ls_revoked := set' |})); [done|].
    intros [= <- <-]. simpl. split_and!; try done.
    unfold check_monotonic. simpl. rewrite !Z.eqb_refl, !String.eqb_refl. simpl.
    destruct (Z.ltb_spec (ls_generation s + 1) (ls_generation s)); [lia|].
    assert (forallb (λ id, bool_decide (id ∈ set')) (ls_revoked s) = true) as ->.
    { apply forallb_forall. intros x Hx%list_elem_of_In. apply bool_decide_eq_true, Hin. by left. }
    simpl. by destruct (Z.eqb_spec (ls_generation s + 1) (ls_generation s)); [lia|].
Qed.

(** Revoking ids in a valid record yields a valid record that fits
    the size limit, in which exactly the old and the given ids are revoked as the
    runtime's search answers it, with the generation advanced by one when the set grew and
    the record untouched otherwise; the change is one the reload accepts. *)
Theorem record_revoke s ids s' changed :
  valid s → revoke record_len s ids = Ok (s', changed) →
  valid s' ∧
  (∀ id, is_revoked s' id = true ↔ is_revoked s id = true ∨ id ∈ ids) ∧
  check_monotonic s s' = Ok tt ∧
  ls_generation s' = ls_generation s + (if changed then 1 else 0) ∧ (changed = false → s' = s) ∧
  (changed = true → record_len s' ≤ MAX_RECORD_BYTES).
Proof.
  intros Hv Hr. destruct (revoke_Ok _ _ _ _ Hv Hr) as (Hv' & Hin & Hm & Hg & Hu & Hb).
  split_and!; try done. intros id. rewrite !is_revoked_elem, !bool_decide_eq_true by done. apply Hin.
Qed.
End Revoke.

(** ** Lease identities *)

(** What one character of the subject contributes. *)
Definition encode_char (c : ascii) : string :=
  if ascii_dec c "%" then "%25"%string
  else if ascii_dec c ":" then "%3A"%string
  else String c EmptyString.

Lemma replace_with_app from into s t :
  replace_with from into (String.append s t) = String.append (replace_with from into s) (replace_with from into t).
Proof. induction s as [|c s IH]; simpl; [done|]. rewrite IH. by rewrite append_assoc. Qed.

Lemma encode_subject_cons c s : encode_subject (String c s) = String.append (encode_char c) (encode_subject s).
Proof.
  unfold encode_subject. cbn [replace_with]. rewrite replace_with_app. f_equal.
  unfold encode_char. destruct (ascii_dec c "%") as [->|Hp]; [reflexivity|]. cbn [replace_with].
  by destruct (ascii_dec c ":").
Qed.

Lemma encode_subject_lacks s : lacks ":" (encode_subject s) = true.
Proof.
  induction s as [|c s IH]; [done|]. rewrite encode_subject_cons, lacks_app, IH, andb_true_r.
  unfold encode_char. destruct (ascii_dec c "%"); [done|]. destruct (ascii_dec c ":") as [->|Hc]; [done|].
  unfold lacks. simpl. by destruct (ascii_dec c ":").
Qed.

Lemma encode_char_inj c c' r r' :
  String.append (encode_char c) r = String.append (encode_char c') r' → c = c' ∧ r = r'.
Proof.
  unfold encode_char.
  destruct (ascii_dec c "%") as [->|], (ascii_dec c' "%") as [->|];
    try destruct (ascii_dec c ":") as [->|]; try destruct (ascii_dec c' ":") as [->|]; simpl; intros H;
    injection H; intros; subst; done.
Qed.

Lemma encode_subject_inj s t : encode_subject s = encode_subject t → s = t.
Proof.
  revert t. induction s as [|c s IH]; intros [|c' t]; rewrite ?encode_subject_cons; intros H.
  - done.
  - exfalso. revert H. unfold encode_subject at 1, encode_char. simpl. by repeat case_match.
  - exfalso. revert H. unfold encode_subject at 2, encode_char. simpl. by repeat case_match.
  - apply encode_char_inj in H as [-> H]. by rewrite (IH t H).
Qed.

(** Texts without the separator, joined by it, can be taken apart again. *)
Lemma colon_split a b x y :
  lacks ":" a = true → lacks ":" b = true →
  String.append a (String ":" x) = String.append b (String ":" y) → a = b ∧ x = y.
Proof.
  intros Ha Hb H. pose proof (split_once_app ":" a x Ha) as H1. rewrite H in H1.
  rewrite (split_once_app ":" b y Hb) in H1. by injection H1 as -> ->.
Qed.

Lemma lower_hex_lacks s : str_forallb is_lower_hex s = true → lacks ":" s = true.
Proof. by apply lacks_class. Qed.

Lemma take_chars_forallb p n s : str_forallb p s = true → str_forallb p (take_chars n s) = true.
Proof.
  revert s. induction n as [|n IH]; intros [|c s]; simpl; try done.
  rewrite !andb_true_iff. intros [Hc Hs]. split; [done|by apply IH].
Qed.

Lemma check_run_id_hex r : check_run_id r = Ok tt → str_forallb is_lower_hex r = true.
Proof.
  unfold check_run_id. destruct (negb (utf8_len r =? RUN_ID_LEN)); [done|]. simpl.
  by destruct (str_forallb is_lower_hex r).
Qed.

Lemma check_digest_hex d : check_digest d = Ok tt → str_forallb is_lower_hex d = true.
Proof.
  unfold check_digest. destruct ((utf8_len d <? DIGEST_MIN_LEN) || (DIGEST_MAX_LEN <? utf8_len d)); [done|].
  by destruct (str_forallb is_lower_hex d).
Qed.

Lemma lease_id_Ok subject digest run issued domain x :
  lease_id subject digest run issued domain = Ok x ↔
  check_subject subject = Ok tt ∧ check_digest digest = Ok tt ∧ check_run_id run = Ok tt ∧
  check_domain domain = Ok tt ∧ x = String.append (id_text subject digest run issued) domain.
Proof.
  unfold lease_id, result_bind, map_invalid.
  destruct (check_subject subject) as [[]|]; [|by split; [|intros (? & _)]].
  destruct (check_digest digest) as [[]|]; [|by split; [|intros (_ & ? & _)]].
  destruct (check_run_id run) as [[]|]; [|by split; [|intros (_ & _ & ? & _)]].
  destruct (check_domain domain) as [[]|]; [|by split; [|intros (_ & _ & _ & ? & _)]].
  split; [by intros [= <-]|]. by intros (_ & _ & _ & _ & ->).
Qed.

Lemma id_text_shape subject digest run issued domain :
  String.append (id_text subject digest run issued) domain =
  String.append (encode_subject subject) (String ":"
    (String.append (take_chars DIGEST_PREFIX_LEN digest) (String ":"
      (String.append run (String ":" (String.append (decimal (Z.to_N issued)) (String ":" domain))))))).
Proof. unfold id_text. rewrite !append_assoc. done. Qed.

(** Only ids of this run are accepted as issued. *)
Lemma issuable_is_issued s id :
  valid s → is_issuable_id s id = true ↔ ∃ domain, state_lease_id s domain = Ok id.
Proof.
  intros Hv%valid_fields. destruct_and!. unfold is_issuable_id, state_lease_id. split.
  - destruct (strip_prefix id (lease_id_prefix s)) as [domain|] eqn:Hp; [|done].
    apply strip_prefix_Some in Hp. intros Hok. exists domain. apply lease_id_Ok. split_and!; try done.
    destruct (check_domain domain) as [[]|]; done.
  - intros (domain & (_ & _ & _ & Hd & ->)%lease_id_Ok). unfold lease_id_prefix. rewrite strip_prefix_app.
    by rewrite Hd.
Qed.

(** A lease id names one lease: two ids that are equal as
    text come from the same subject, digest prefix, run, issue time and domain, whatever
    colons and percent signs the subject contains; and the ids a record accepts as its own
    are exactly those it can issue for some domain. *)
Theorem lease_id_unambiguous subject digest run issued domain subject' digest' run' issued' domain' x :
  0 ≤ issued → 0 ≤ issued' →
  lease_id subject digest run issued domain = Ok x →
  lease_id subject' digest' run' issued' domain' = Ok x →
  subject = subject' ∧
  take_chars DIGEST_PREFIX_LEN digest = take_chars DIGEST_PREFIX_LEN digest' ∧
  run = run' ∧ issued = issued' ∧ domain = domain' ∧
  ∀ s id, valid s → (is_issuable_id s id = true ↔ ∃ d, state_lease_id s d = Ok id).
Proof.
  intros Hi Hi' (_ & Hd & Hr & _ & ->)%lease_id_Ok (_ & Hd' & Hr' & _ & He)%lease_id_Ok.
  rewrite !id_text_shape in He.
  apply colon_split in He as [Hsub He]; [|apply encode_subject_lacks..].
  apply colon_split in He as [Hdig He];
    [|apply lower_hex_lacks, take_chars_forallb; eauto using check_digest_hex..].
  apply colon_split in He as [Hrun He]; [|apply lower_hex_lacks; eauto using check_run_id_hex..].
  apply colon_split in He as [Hiss He]; [|apply decimal_lacks..].
  apply encode_subject_inj in Hsub. apply decimal_inj in Hiss. split_and!; try done; [lia|].
  intros s id. by apply issuable_is_issued.
Qed.


(** ** Witnesses *)

Definition sample_record : LeaseState :=
  {| ls_version := 1; ls_subject := "team:a%1"; ls_policy_digest := "0123456789abcdef";
     ls_run_id := "00112233445566778899aabbccddeeff"; ls_issued_at := 5; ls_generation := 1;
     ls_revoked := ["b"; "d"]%string |}.

Lemma sample_record_valid : valid sample_record.
Proof. vm_compute. reflexivity. Qed.

(** Sixty bytes of frame and forty for each id. *)
Definition sample_len (s : LeaseState) : Z := 60 + 40 * Z.of_nat (List.length (ls_revoked s)).

Definition sample_revoked : LeaseState :=
  match revoke sample_len sample_record ["c"; "b"]%string with Ok (s, _) => s | Err _ => sample_record end.

Lemma record_revoke_witness : valid sample_revoked ∧ is_revoked sample_revoked "c" = true.
Proof.
  destruct (record_revoke sample_len sample_record ["c"; "b"]%string sample_revoked true) as (Hv & Hr & _).
  - exact sample_record_valid.
  - vm_compute. reflexivity.
  - split; [exact Hv|]. apply Hr. right. left.
Defined.

Definition sample_id : string := "team%3Aa%251:0123456789ab:00112233445566778899aabbccddeeff:5:ipc".

Lemma lease_id_unambiguous_witness : is_issuable_id sample_record sample_id = true.
Proof.
  apply (lease_id_unambiguous "team:a%1" "0123456789abcdef" "00112233445566778899aabbccddeeff" 5 "ipc"
           "team:a%1" "0123456789abcdef" "00112233445566778899aabbccddeeff" 5 "ipc" sample_id).
  - done.
  - done.
  - vm_compute. reflexivity.
  - vm_compute. reflexivity.
  - exact sample_record_valid.
  - exists "ipc"%string. vm_compute. reflexivity.
Defined.
