(* ===== verification/Governed.v ===== *)
(** * Governed: admitting tool calls under leases, and reloading revocations

    aa-isolation/src/lease_lowering.rs (leases from authored grants), and of
    aa-runtime/src/lease: authored.rs, decide.rs (the decision), gate.rs (the snapshot the
    decision is taken from) and governed.rs (the loop that reloads the record).

    The loop is a state machine: one step per reading of the record, and one for the end of
    the reload task.  A refusal's prose is named by a constructor with its arguments.  The
    panic isolation of pipeline/lease_gate.rs is the refusal of a gate that cannot answer. *)

From stdpp Require Import base gmap strings list relations.
From Stdlib Require Import ZArith Lia Bool Ascii String.
From S2P Require Import Prelude.
From S2P Require Import Text.
From S2P Require Import PolicyDocument.
From S2P Require Import Resolve.
From S2P Require Import Leases.
From S2P Require Import ScopeOrder.
From S2P Require Import Authority.
From S2P Require Import LeaseRecord.

Open Scope Z_scope.
Open Scope aasm_scope.

(** ** Leases from authored grants *)

Record AuthoredLease := {
  al_domain : CapabilityDomain;
  al_scope : RequirementScope;
  al_max_count : option Z;
  al_ttl_seconds : option Z;
  al_delegable : bool;
  al_issuer : option string;
  al_policy_rule : option string;
  al_approval_ref : option string;
  al_reason : string;
}.

Record LeaseIssuance := {
  li_subject : IdentityRef;
  li_default_issuer : IdentityRef;
  li_issued_at : Z;
  li_default_ttl_seconds : Z;
  li_id_prefix : string;
}.

Module LoweringError.
Inductive t :=
| UnrepresentableMaxCount (index : nat) (max_count : Z)
| AmbiguousScope (index : nat) (d : CapabilityDomain)
| TtlOverflow (index : nat) (ttl_seconds : Z).
End LoweringError.

Module GovernanceError.
Inductive t :=
| EmptySubject
| NotEnforced (state : string)
| Lowering (e : LoweringError.t)
| Authority (e : AuthorityBuildError)
| DuplicateLeaseId (id : string)
| StateSubjectMismatch
| StateDigestMismatch
| LeaseId (domain : string) (e : StateError.t).
End GovernanceError.

Section Lower.
(** The largest representable instant of the platform's [SystemTime], in seconds. *)
Context (time_max : Z).

Definition checked_add (t seconds : Z) : option Z :=
  if time_max <? t + seconds then None else Some (t + seconds).

Definition scope_is_representable (g : AuthoredLease) : bool :=
  match al_scope g, al_domain g with
  | Limits _, _ => false
  | Selectors _, Resource => false
  | _, _ => true
  end.

Definition basis_of (g : AuthoredLease) (issuance : LeaseIssuance) : LeaseBasis :=
  let issuer := match al_issuer g with
                | Some name => identity_root name
                | None => li_default_issuer issuance
                end in
  let b := basis_new issuer (al_reason g) in
  let b := match al_policy_rule g with Some r => with_policy_rule b r | None => b end in
  match al_approval_ref g with Some r => with_approval_ref b r | None => b end.

Definition lower_lease (index : nat) (g : AuthoredLease) (issuance : LeaseIssuance)
  : result CapabilityLease LoweringError.t :=
  match al_max_count g with
  | Some max_count => Err (LoweringError.UnrepresentableMaxCount index max_count)
  | None =>
      if negb (scope_is_representable g) then Err (LoweringError.AmbiguousScope index (al_domain g))
      else
        let ttl_seconds := default (li_default_ttl_seconds issuance) (al_ttl_seconds g) in
        match checked_add (li_issued_at issuance) ttl_seconds with
        | None => Err (LoweringError.TtlOverflow index ttl_seconds)
        | Some expires_at =>
            Ok (with_delegation
                  (lease_new (li_id_prefix issuance ++ "-" ++ decimal (N.of_nat index))%string
                     (li_subject issuance) (al_domain g) (al_scope g) (li_issued_at issuance)
                     expires_at (basis_of g issuance))
                  (if al_delegable g then DelegableWithNarrowerScope else NotDelegable))
        end
  end.

Fixpoint lower_leases_from (index : nat) (grants : list AuthoredLease) (issuance : LeaseIssuance)
  : result (list CapabilityLease) LoweringError.t :=
  match grants with
  | [] => Ok []
  | g :: grants' =>
      let? lease := lower_lease index g issuance in
      let? rest := lower_leases_from (S index) grants' issuance in
      Ok (lease :: rest)
  end.

Definition lower_leases (grants : list AuthoredLease) (issuance : LeaseIssuance)
  : result (list CapabilityLease) LoweringError.t := lower_leases_from 0 grants issuance.

Definition capability_domain_from (d : Lease.LeaseDomain) : CapabilityDomain :=
  match d with
  | Lease.FilesystemRead => FilesystemRead
  | Lease.FilesystemWrite => FilesystemWrite
  | Lease.NetworkEgress => NetworkEgress
  | Lease.NameResolution => NameResolution
  | Lease.Syscall => Syscall
  | Lease.ProcessCreation => ProcessCreation
  | Lease.Ipc => Ipc
  | Lease.Credential => Credential
  | Lease.Resource => Resource
  | Lease.WorkspaceTransaction => WorkspaceTransaction
  end.

Definition authored_lease_from (g : CanonicalLeaseGrant) : AuthoredLease :=
  {| al_domain := capability_domain_from (Lease.lg_domain g);
     al_scope := match Lease.lg_scope g with
                 | Lease.Whole => Whole
                 | Lease.Selectors l => Selectors (map permit_only_selector l)
                 end;
     al_max_count := Lease.lg_max_count g;
     al_ttl_seconds := Lease.lg_ttl_seconds g;
     al_delegable := Lease.lg_delegable g;
     al_issuer := Lease.lg_issuer g;
     al_policy_rule := Lease.lg_policy_rule g;
     al_approval_ref := Lease.lg_approval_ref g;
     al_reason := Lease.lg_reason g |}.

(** ** Governance *)

Record ToolRequirement := { tq_allow : bool; tq_capabilities : list Lease.ToolCapability }.

Record LeaseGovernance := {
  gv_subject : string;
  gv_tools : gmap string ToolRequirement;
  gv_authority : EffectiveAuthority;
  gv_leased : list (CapabilityLease * string);
  gv_policy_digest : string;
}.

(** The first id seen twice. *)
Fixpoint duplicate_id (seen : list string) (ids : list string) : option string :=
  match ids with
  | [] => None
  | id :: ids' => if bool_decide (id ∈ seen) then Some id else duplicate_id (id :: seen) ids'
  end.

Definition from_parts (subject : string) (tools : gmap string ToolRequirement)
    (leased : list (CapabilityLease * string)) (policy_digest : string)
  : result LeaseGovernance GovernanceError.t :=
  if is_empty subject then Err GovernanceError.EmptySubject
  else match duplicate_id [] (map snd leased) with
       | Some dup => Err (GovernanceError.DuplicateLeaseId dup)
       | None =>
           match from_leases (map fst leased) with
           | Err e => Err (GovernanceError.Authority e)
           | Ok authority =>
               Ok {| gv_subject := subject; gv_tools := tools; gv_authority := authority;
                     gv_leased := leased; gv_policy_digest := policy_digest |}
           end
       end.

(** [allow] is read back from the projected rules: some rule of the tool's name that is
    not a deny. *)
Definition tool_requirement (document : Rule.PolicyDocument) (name : string)
    (capabilities : list Lease.ToolCapability) : ToolRequirement :=
  {| tq_allow := existsb (λ r, String.eqb (Rule.action_pattern r) name
                               && negb (bool_decide (Rule.decision r = Rule.Deny))) (Rule.rules document);
     tq_capabilities := capabilities |}.

Fixpoint attach_ids (lease_id : string → result string StateError.t)
    (leases : list CapabilityLease) (grants : list CanonicalLeaseGrant)
  : result (list (CapabilityLease * string)) GovernanceError.t :=
  match leases, grants with
  | lease :: leases', grant :: grants' =>
      let word := Lease.as_str (Lease.lg_domain grant) in
      match lease_id word with
      | Err e => Err (GovernanceError.LeaseId word e)
      | Ok id => let? rest := attach_ids lease_id leases' grants' in Ok ((lease, id) :: rest)
      end
  | _, _ => Ok []
  end.

Definition from_resolution (resolution : PolicyResolution) (subject : string)
    (issued_at default_ttl_seconds : Z) (default_issuer : string)
    (lease_id : string → result string StateError.t) : result LeaseGovernance GovernanceError.t :=
  match resolution with
  | Enforced r =>
      if is_empty subject then Err GovernanceError.EmptySubject
      else
        let issuance := {| li_subject := identity_root subject;
                           li_default_issuer := identity_root default_issuer;
                           li_issued_at := issued_at; li_default_ttl_seconds := default_ttl_seconds;
                           li_id_prefix := "governed" |} in
        match lower_leases (map authored_lease_from (lease_grants resolution)) issuance with
        | Err e => Err (GovernanceError.Lowering e)
        | Ok leases =>
            let? leased := attach_ids lease_id leases (lease_grants resolution) in
            from_parts subject (map_imap (λ n c, Some (tool_requirement (rs_document r) n c))
                                  (rs_tool_capabilities r))
              leased (rs_content_digest r)
        end
  | _ => Err (GovernanceError.NotEnforced (state_token resolution))
  end.

Definition strip_digest (d : string) : string := default d (strip_prefix d "sha256:").

Definition from_state (resolution : PolicyResolution) (subject : string) (default_ttl_seconds : Z)
    (default_issuer : string) (state : LeaseState) : result LeaseGovernance GovernanceError.t :=
  if negb (String.eqb (ls_subject state) subject) then Err GovernanceError.StateSubjectMismatch
  else if negb (bool_decide (strip_digest <$> resolution_content_digest resolution
                             = Some (ls_policy_digest state)))
  then Err GovernanceError.StateDigestMismatch
  else from_resolution resolution subject (ls_issued_at state) default_ttl_seconds default_issuer
         (state_lease_id state).
End Lower.

Definition lease_id_for (g : LeaseGovernance) (lease : CapabilityLease) : option string :=
  snd <$> find (λ e, String.eqb (l_id (fst e)) (l_id lease)) (gv_leased g).

(** ** The decision *)

(** Why the gate was latched: the record could not be read, a change of it was refused,
    or the task that reads it ended. *)
Inductive LatchReason :=
| StateUnreadable (e : StateError.t)
| ChangeRefused (e : StateError.t)
| TaskEnded (why : string).

Module Deny.
Inductive t :=
| ActionTypeNotAdmitted (action_type : Z)
| UnknownActionType (action_type : Z)
| NoToolContext
| NamesNoTool
| DeclaresNoCapabilities (tool : string)
| NotAllowedByPolicy (tool : string)
| EmptyDeclaration (tool : string)
| MixesNone (tool : string)
| Unbounded (tool : string) (d : CapabilityDomain)
| NotPerCall (tool : string) (d : CapabilityDomain)
| NoLease (tool : string) (d : CapabilityDomain)
| NoLeaseId (tool : string) (d : CapabilityDomain)
| LeaseRevoked (tool : string) (d : CapabilityDomain)
| DoesNotAdmit (tool : string) (d : CapabilityDomain) (why : Refusal.t)
| AuthorityMissing (tool : string) (d : CapabilityDomain)
| DenyingAll (reason : LatchReason)
| OtherSubject
| StateUnavailable.
End Deny.

Inductive LeaseVerdict := Permit | DenyWith (reason : Deny.t).

(** The query: its action type on the wire and the tool named by its context, when the
    context carries a tool call. *)
Record CheckActionRequest := { ca_action_type : Z; ca_tool_call : option string }.

Definition TOOL_CALL : Z := 2.

(** [ActionType::try_from]: the codes of common.proto, 0 to 7. *)
Definition action_type_known (t : Z) : bool := (0 <=? t) && (t <=? 7).

Definition MAX_NAME_IN_REASON : nat := 64.

Definition per_call (d : CapabilityDomain) : option bool :=
  match d with
  | ProcessCreation | Syscall => None
  | FilesystemRead | FilesystemWrite | NetworkEgress | NameResolution | Ipc | Credential => Some true
  | Resource | WorkspaceTransaction => Some false
  end.

Definition admit_class (g : LeaseGovernance) (revoked : string → bool) (tool : string)
    (d : CapabilityDomain) (now : Z) : result unit Deny.t :=
  match per_call d with
  | None => Err (Deny.Unbounded tool d)
  | Some false => Err (Deny.NotPerCall tool d)
  | Some true =>
      match authority_state (gv_authority g) d with
      | None => Err (Deny.AuthorityMissing tool d)
      | Some (AuthorityState.Leased lease as state) =>
          match lease_id_for g lease with
          | None => Err (Deny.NoLeaseId tool d)
          | Some id =>
              if revoked id then Err (Deny.LeaseRevoked tool d)
              else match admit_lease state (gv_subject g) d Whole now with
                   | Ok _ => Ok tt
                   | Err why => Err (Deny.DoesNotAdmit tool d why)
                   end
          end
      | Some _ => Err (Deny.NoLease tool d)
      end
  end.

Fixpoint admit_classes (g : LeaseGovernance) (revoked : string → bool) (tool : string)
    (classes : list Lease.ToolCapability) (now : Z) : LeaseVerdict :=
  match classes with
  | [] => Permit
  | Lease.Domain d :: rest =>
      match admit_class g revoked tool (capability_domain_from d) now with
      | Err reason => DenyWith reason
      | Ok _ => admit_classes g revoked tool rest now
      end
  | Lease.NoAuthority :: _ => DenyWith (Deny.MixesNone tool)
  end.

Definition is_none (c : Lease.ToolCapability) : bool :=
  match c with Lease.NoAuthority => true | Lease.Domain _ => false end.

Definition decide_tool (g : LeaseGovernance) (revoked : string → bool) (req : CheckActionRequest) (now : Z)
  : LeaseVerdict :=
  match ca_tool_call req with
  | None => DenyWith Deny.NoToolContext
  | Some name =>
      if is_empty name then DenyWith Deny.NamesNoTool
      else
        let shown := take_chars MAX_NAME_IN_REASON name in
        match gv_tools g !! name with
        | None => DenyWith (Deny.DeclaresNoCapabilities shown)
        | Some requirement =>
            if negb (tq_allow requirement) then DenyWith (Deny.NotAllowedByPolicy shown)
            else
              match tq_capabilities requirement with
              | [] => DenyWith (Deny.EmptyDeclaration shown)
              | classes =>
                  if existsb is_none classes
                  then if (List.length classes =? 1)%nat then Permit else DenyWith (Deny.MixesNone shown)
                  else admit_classes g revoked shown classes now
              end
        end
  end.

Definition decide_call (g : LeaseGovernance) (revoked : string → bool) (req : CheckActionRequest) (now : Z)
  : LeaseVerdict :=
  if ca_action_type req =? TOOL_CALL then decide_tool g revoked req now
  else if action_type_known (ca_action_type req)
  then DenyWith (Deny.ActionTypeNotAdmitted (ca_action_type req))
  else DenyWith (Deny.UnknownActionType (ca_action_type req)).

(** ** The gate *)

Module Mode.
Inductive t := Governed (g : LeaseGovernance) (revoked : LeaseState) | DenyAll (reason : LatchReason).
End Mode.

Record Snapshot := { sn_mode : Mode.t; sn_generation : Z }.

Definition verdict (s : Snapshot) (subject : string) (req : CheckActionRequest) (now : Z) : LeaseVerdict :=
  match sn_mode s with
  | Mode.DenyAll reason => DenyWith (Deny.DenyingAll reason)
  | Mode.Governed g revoked =>
      if negb (String.eqb (gv_subject g) subject) then DenyWith Deny.OtherSubject
      else decide_call g (is_revoked revoked) req now
  end.

(** [None] is a poisoned lock. *)
Definition PolicyLeaseGate : Type := option Snapshot.

Definition install (g : PolicyLeaseGate) (s : Snapshot) : result PolicyLeaseGate unit :=
  match g with Some _ => Ok (Some s) | None => Err tt end.

Definition gate_check (g : PolicyLeaseGate) (subject : string) (req : CheckActionRequest) (now : Z)
  : LeaseVerdict :=
  match g with
  | Some s => verdict s subject req now
  | None => DenyWith Deny.StateUnavailable
  end.

(** ** Reloading *)

Module Reload.
Inductive t := Unchanged | Install (new : LeaseState) | Trip (why : LatchReason).
End Reload.

Definition reload_step (current : LeaseState) (loaded : result LeaseState StateError.t) : Reload.t :=
  match loaded with
  | Err e => Reload.Trip (StateUnreadable e)
  | Ok new =>
      if bool_decide (new = current) then Reload.Unchanged
      else match check_monotonic current new with
           | Ok _ => Reload.Install new
           | Err e => Reload.Trip (ChangeRefused e)
           end
  end.

Record LeaseStatus := { st_generation : Z; st_denied_all : bool }.

(** The runtime as the reload task sees it; [rt_current] is [None] once the task has
    ended. *)
Record GovernedRuntime := {
  rt_gate : PolicyLeaseGate;
  rt_status : LeaseStatus;
  rt_governance : LeaseGovernance;
  rt_current : option LeaseState;
}.

Definition saturating_succ (g : Z) : Z := Z.min u64_max (g + 1).

Definition latch_denied (rt : GovernedRuntime) (reason : LatchReason) : GovernedRuntime :=
  let generation := saturating_succ (st_generation (rt_status rt)) in
  {| rt_gate := match install (rt_gate rt) {| sn_mode := Mode.DenyAll reason; sn_generation := generation |} with
                | Ok g => g
                | Err _ => rt_gate rt
                end;
     rt_status := {| st_generation := generation; st_denied_all := true |};
     rt_governance := rt_governance rt;
     rt_current := None |}.

(** One round of the loop, after a reading of the record. *)
Definition reload_round (rt : GovernedRuntime) (current : LeaseState)
    (loaded : result LeaseState StateError.t) : GovernedRuntime :=
  match reload_step current loaded with
  | Reload.Unchanged => rt
  | Reload.Install new =>
      let generation := ls_generation new in
      match install (rt_gate rt) {| sn_mode := Mode.Governed (rt_governance rt) new; sn_generation := generation |} with
      | Ok g =>
          {| rt_gate := g; rt_status := {| st_generation := generation; st_denied_all := false |};
             rt_governance := rt_governance rt; rt_current := Some new |}
      | Err _ =>
          {| rt_gate := rt_gate rt; rt_status := {| st_generation := generation; st_denied_all := true |};
             rt_governance := rt_governance rt; rt_current := None |}
      end
  | Reload.Trip reason => latch_denied rt reason
  end.

(** [prepare], from the loaded record and the governance built from it. *)
Definition prepare (g : LeaseGovernance) (s : LeaseState) : GovernedRuntime :=
  {| rt_gate := Some {| sn_mode := Mode.Governed g s; sn_generation := ls_generation s |};
     rt_status := {| st_generation := ls_generation s; st_denied_all := false |};
     rt_governance := g; rt_current := Some s |}.

(** What happens to the runtime: a round with whatever was read (a record that loads has
    passed validation, which runs inside deserialisation), the reload task dying or
    stopping without shutdown (which the supervisor latches), shutdown, or the gate's lock
    being poisoned by a panic of a writer. *)
Inductive rt_step : GovernedRuntime → GovernedRuntime → Prop :=
| step_round rt current loaded :
    rt_current rt = Some current → (∀ new, loaded = Ok new → valid new) → rt_step rt (reload_round rt current loaded)
| step_task_died rt why : rt_current rt ≠ None → rt_step rt (latch_denied rt (TaskEnded why))
| step_shutdown rt :
    rt_step rt {| rt_gate := rt_gate rt; rt_status := rt_status rt;
                  rt_governance := rt_governance rt; rt_current := None |}
| step_poisoned rt :
    rt_step rt {| rt_gate := None; rt_status := rt_status rt;
                  rt_governance := rt_governance rt; rt_current := rt_current rt |}.
