(* ===== verification/GovernedProps.v ===== *)
(** * GovernedProps: what a permitted call had, and what a revocation takes away

    The exact condition of a permit, and the guarantees of the reload machine: revocations
    are never undone, an anomaly latches the gate for good, and an operator's revocation
    takes effect at the next reading. *)

From stdpp Require Import base gmap strings list relations.
From Stdlib Require Import ZArith Lia Bool Ascii String.
From S2P Require Import Prelude.
From S2P Require Import Text.
From S2P Require Import PolicyDocument.
From S2P Require Import Resolve.
From S2P Require Import Leases.
From S2P Require Import ScopeOrder.
From S2P Require Import Authority.
From S2P Require Import AuthorityProps.
From S2P Require Import LeaseRecord.
From S2P Require Import Governed.

Open Scope Z_scope.
Open Scope aasm_scope.

(** ** Permits *)

(** A domain class is admitted by a whole-scope lease of the governed subject that is
    valid now and not revoked. *)
Definition class_admitted (g : LeaseGovernance) (revoked : string → bool) (d : CapabilityDomain) (now : Z)
  : Prop :=
  per_call d = Some true ∧
  ∃ lease id, authority_state (gv_authority g) d = Some (AuthorityState.Leased lease) ∧
    lease_id_for g lease = Some id ∧ revoked id = false ∧ validate_at lease now = Ok tt ∧
    agent_id (l_subject lease) = gv_subject g ∧ l_scope lease = Whole.

Lemma whole_covered lease d :
  lease_covers lease Whole || match compare (ScopeOrder := order_for d) (l_scope lease) Whole with
                              | ScopeOrdering.Narrower | ScopeOrdering.Equal => true | _ => false end
  = bool_decide (l_scope lease = Whole).
Proof.
  unfold lease_covers. destruct (l_scope lease); [by rewrite bool_decide_true|..];
    (rewrite bool_decide_false by done); by destruct d.
Qed.

Lemma admit_class_Ok g revoked tool d now :
  admit_class g revoked tool d now = Ok tt ↔ class_admitted g revoked d now.
Proof.
  unfold admit_class, class_admitted.
  destruct (per_call d) as [[]|]; [|by split; [|intros [? _]]..].
  destruct (authority_state (gv_authority g) d) as [[|lease|]|];
    try (split; [done|by intros (_ & ? & ? & ? & _)]).
  destruct (lease_id_for g lease) as [id|] eqn:Hid;
    [|split; [done|by intros (_ & ? & ? & [= <-] & ? & _); congruence]].
  destruct (revoked id) eqn:Hrev.
  { split; [done|]. intros (_ & ? & ? & [= <-] & Hid' & Hr & _). congruence. }
  unfold admit_lease, covered, result_bind. cbv zeta. rewrite whole_covered.
  destruct (validate_at lease now) as [[]|] eqn:Hv;
    [|split; [done|by intros (_ & ? & ? & [= <-] & _ & _ & ? & _); congruence]].
  destruct (String.eqb_spec (agent_id (l_subject lease)) (gv_subject g)) as [Hs|Hs]; simpl.
  - case_bool_decide as Hw; simpl.
    + split; [intros _; split; [done|]|done]. by exists lease, id.
    + split; [done|]. by intros (_ & ? & ? & [= <-] & _ & _ & _ & _ & ?).
  - split; [done|]. by intros (_ & ? & ? & [= <-] & _ & _ & _ & ? & _).
Qed.

Lemma admit_classes_Permit g revoked tool cs now :
  existsb is_none cs = false →
  admit_classes g revoked tool cs now = Permit ↔
  ∀ c, c ∈ cs → ∃ d, c = Lease.Domain d ∧ class_admitted g revoked (capability_domain_from d) now.
Proof.
  induction cs as [|c cs IH]; simpl; [by split; [intros _ ? ?%not_elem_of_nil|]|].
  destruct c as [|d]; simpl; [done|]. intros Hn.
  pose proof (admit_class_Ok g revoked tool (capability_domain_from d) now) as Hd.
  destruct (admit_class g revoked tool (capability_domain_from d) now) as [[]|].
  - rewrite IH by done. split.
    + intros H c [->|Hc]%elem_of_cons; [exists d; split; [done|by apply Hd]|by apply H].
    + intros H c Hc. apply H. by right.
  - split; [done|]. intros H. destruct (H (Lease.Domain d) ltac:(left)) as (d' & [= <-] & Hc).
    by apply Hd in Hc.
Qed.

(** What a declaration needs at an instant. *)
Definition declaration_admitted (g : LeaseGovernance) (revoked : string → bool)
    (cs : list Lease.ToolCapability) (now : Z) : Prop :=
  cs = [Lease.NoAuthority] ∨
  cs ≠ [] ∧ ∀ c, c ∈ cs → ∃ d, c = Lease.Domain d ∧ class_admitted g revoked (capability_domain_from d) now.

Lemma decide_tool_Permit g revoked req now :
  decide_tool g revoked req now = Permit ↔
  ∃ name tq, ca_tool_call req = Some name ∧ name ≠ EmptyString ∧ gv_tools g !! name = Some tq ∧
    tq_allow tq = true ∧ declaration_admitted g revoked (tq_capabilities tq) now.
Proof.
  unfold decide_tool, declaration_admitted.
  destruct (ca_tool_call req) as [name|]; [|split; [done|by intros (? & ? & ? & _)]].
  destruct (is_empty name) eqn:He.
  { destruct name; [|done]. split; [done|]. by intros (? & ? & [= <-] & ? & _). }
  destruct (gv_tools g !! name) as [tq|] eqn:Ht;
    [|split; [done|intros (? & ? & [= <-] & _ & ? & _); congruence]].
  destruct (tq_allow tq) eqn:Ha; cbn [negb];
    [|split; [done|intros (? & ? & [= <-] & _ & ? & ? & _); congruence]].
  assert (name ≠ EmptyString) as Hne by (by destruct name).
  assert (∀ (P : Prop), (∃ name0 tq0, Some name = Some name0 ∧ name0 ≠ EmptyString ∧ gv_tools g !! name0 = Some tq0 ∧
           tq_allow tq0 = true ∧ declaration_admitted g revoked (tq_capabilities tq0) now) ↔
          declaration_admitted g revoked (tq_capabilities tq) now) as Hred.
  { intros _. split; [intros (? & tq0 & [= <-] & _ & Ht0 & _ & H); by rewrite Ht in Ht0; injection Ht0 as <-|].
    intros H. by exists name, tq. }
  unfold declaration_admitted in Hred. rewrite (Hred True). clear Hred.
  destruct (tq_capabilities tq) as [|c cs]; [split; [done|]; by intros [?|[? _]]|].
  destruct (existsb is_none (c :: cs)) eqn:Hn.
  - destruct cs as [|c' cs]; simpl.
    + destruct c; [|done]. split; [by left|done].
    + split; [done|]. intros [?|[_ H]]; [done|].
      apply existsb_exists in Hn as (x & Hx & Hxn). apply list_elem_of_In, H in Hx as (d & -> & _). done.
  - rewrite admit_classes_Permit by done. split; [by right|]. intros [H|[_ H]]; [|done].
    injection H as -> ->. done.
Qed.

(** C11: governed mode permits a query exactly when it is a tool call
    naming a tool that policy allows and that declares its authority, and the declaration
    is the lone word none, or every class it lists is a per-call domain held by a
    whole-scope lease of the governed agent, valid at that instant, whose id is known and
    not revoked.  Every other query is denied. *)
Theorem governed_permit_iff g revoked req now :
  decide_call g revoked req now = Permit ↔
  ca_action_type req = TOOL_CALL ∧
  ∃ name tq, ca_tool_call req = Some name ∧ name ≠ EmptyString ∧ gv_tools g !! name = Some tq ∧
    tq_allow tq = true ∧ declaration_admitted g revoked (tq_capabilities tq) now.
Proof.
  unfold decide_call. destruct (Z.eqb_spec (ca_action_type req) TOOL_CALL) as [Ht|Ht].
  - rewrite decide_tool_Permit. tauto.
  - destruct (action_type_known _); split; try done; by intros [? _].
Qed.

(** ** The reload machine *)

Definition gate_closed (g : PolicyLeaseGate) : Prop :=
  match g with Some s => match sn_mode s with Mode.DenyAll _ => True | _ => False end | None => True end.

(** The gate denies whatever relies on the id: it knows the id revoked, or is closed. *)
Definition gate_revokes (g : PolicyLeaseGate) (id : string) : Prop :=
  match g with
  | Some s => match sn_mode s with
              | Mode.DenyAll _ => True
              | Mode.Governed _ st => is_revoked st id = true
              end
  | None => True
  end.

Record rt_ok (g : LeaseGovernance) (rt : GovernedRuntime) : Prop := {
  ro_governance : rt_governance rt = g;
  ro_current cur : rt_current rt = Some cur → valid cur;
  ro_gate sn : rt_gate rt = Some sn →
    match sn_mode sn with
    | Mode.DenyAll _ => rt_current rt = None
    | Mode.Governed g' st => g' = g ∧ valid st ∧ ∀ cur, rt_current rt = Some cur → cur = st
    end;
}.

Lemma prepare_ok g s : valid s → rt_ok g (prepare g s).
Proof. intros Hv. split; [done|by intros ? [= <-]|]. intros sn [= <-]. simpl. by split_and!; [..|intros ? [= <-]]. Qed.

Lemma reload_step_Install cur loaded new :
  reload_step cur loaded = Reload.Install new → loaded = Ok new ∧ check_monotonic cur new = Ok tt.
Proof.
  unfold reload_step. destruct loaded as [l|]; [|done]. case_bool_decide; [done|].
  destruct (check_monotonic cur l) as [[]|] eqn:Hm; [|done]. intros [= <-]. done.
Qed.

Lemma latch_gate rt reason : gate_closed (rt_gate (latch_denied rt reason)).
Proof. unfold latch_denied, gate_closed. simpl. by destruct (rt_gate rt). Qed.

Lemma latch_ok g rt reason : rt_ok g rt → rt_ok g (latch_denied rt reason).
Proof.
  intros [Hg _ _]. split; [done|done|]. unfold latch_denied. simpl. destruct (rt_gate rt); simpl; [|done].
  by intros sn [= <-].
Qed.

Lemma closed_revokes g id : gate_closed g → gate_revokes g id.
Proof. unfold gate_closed, gate_revokes. destruct g as [s|]; [|done]. by destruct (sn_mode s). Qed.

(** A round that installs keeps every revocation. *)
Lemma round_keeps g rt cur loaded id :
  rt_ok g rt → rt_current rt = Some cur → (∀ new, loaded = Ok new → valid new) →
  rt_ok g (reload_round rt cur loaded) ∧
  (gate_revokes (rt_gate rt) id → gate_revokes (rt_gate (reload_round rt cur loaded)) id) ∧
  (gate_closed (rt_gate rt) → gate_closed (rt_gate (reload_round rt cur loaded))).
Proof.
  intros Hok Hcur Hval. unfold reload_round.
  destruct (reload_step cur loaded) as [|new|reason] eqn:Hs; [done| |].
  - apply reload_step_Install in Hs as [-> Hm]. specialize (Hval new eq_refl).
    destruct Hok as [Hg Hc Hgate]. destruct (rt_gate rt) as [sn|] eqn:Hr; simpl.
    + specialize (Hgate sn eq_refl). split_and!.
      * split; simpl; [done|by intros ? [= <-]|]. intros ? [= <-]. simpl.
        by split_and!; [..|intros ? [= <-]].
      * simpl. destruct (sn_mode sn) as [g' st|]; [|congruence]. destruct Hgate as (-> & Hst & Heq).
        rewrite <- (Heq cur Hcur). rewrite !is_revoked_elem, !bool_decide_eq_true by eauto.
        apply check_monotonic_Ok in Hm as (_ & _ & _ & _ & _ & Hm). apply Hm.
      * simpl. destruct (sn_mode sn); [done|congruence].
    + split_and!; [|done..]. split; simpl; done.
  - split_and!; [by apply latch_ok|intros _; apply closed_revokes|intros _]; apply latch_gate.
Qed.

Lemma rt_step_keeps g rt rt' id :
  rt_ok g rt → rt_step rt rt' →
  rt_ok g rt' ∧ (gate_revokes (rt_gate rt) id → gate_revokes (rt_gate rt') id) ∧
  (gate_closed (rt_gate rt) → gate_closed (rt_gate rt')).
Proof.
  intros Hok Hs. destruct Hs as [rt cur loaded Hc Hv|rt why _|rt|rt].
  - by apply round_keeps.
  - split_and!; [by apply latch_ok|intros _; apply closed_revokes|intros _]; apply latch_gate.
  - destruct Hok as [Hg Hc Hgate]. split_and!; [|done..]. split; simpl; [done|done|].
    intros sn Hsn. specialize (Hgate sn Hsn). destruct (sn_mode sn); [|done].
    destruct Hgate as (-> & Hst & _). by split_and!.
  - destruct Hok as [Hg Hc Hgate]. split_and!; [|done..]. by split.
Qed.

Lemma rt_steps_keep g rt rt' id :
  rt_ok g rt → rtc rt_step rt rt' →
  rt_ok g rt' ∧ (gate_revokes (rt_gate rt) id → gate_revokes (rt_gate rt') id) ∧
  (gate_closed (rt_gate rt) → gate_closed (rt_gate rt')).
Proof.
  intros Hok Hs. revert Hok. induction Hs as [rt|rt1 rt2 rt3 H12 _ IH]; intros Hok; [done|].
  destruct (rt_step_keeps _ _ _ id Hok H12) as (Hok2 & Hr & Hc).
  destruct (IH Hok2) as (Hok3 & Hr' & Hc'). split_and!; [done|tauto..].
Qed.

(** The query's tool needs the lease of this id. *)
Definition relies_on (g : LeaseGovernance) (req : CheckActionRequest) (id : string) : Prop :=
  ∃ name tq d lease, ca_tool_call req = Some name ∧ gv_tools g !! name = Some tq ∧
    Lease.Domain d ∈ tq_capabilities tq ∧
    authority_state (gv_authority g) (capability_domain_from d) = Some (AuthorityState.Leased lease) ∧
    lease_id_for g lease = Some id.

Lemma revoked_denied g rt subject req now id :
  rt_ok g rt → gate_revokes (rt_gate rt) id → relies_on g req id →
  gate_check (rt_gate rt) subject req now ≠ Permit.
Proof.
  intros [_ _ Hgate] Hrev (name & tq & d & lease & Hn & Ht & Hd & Ha & Hid).
  unfold gate_check. destruct (rt_gate rt) as [sn|]; [|done]. specialize (Hgate sn eq_refl).
  simpl in Hrev. unfold verdict. destruct (sn_mode sn) as [g' st|]; [|done].
  destruct Hgate as (-> & _). destruct (negb _); [done|]. unfold decide_call.
  destruct (ca_action_type req =? TOOL_CALL); [|by destruct (action_type_known _)].
  intros (name' & tq' & Hn' & _ & Ht' & _ & Hdecl)%decide_tool_Permit.
  rewrite Hn in Hn'. injection Hn' as <-. rewrite Ht in Ht'. injection Ht' as <-.
  destruct Hdecl as [Hdecl|[_ Hdecl]].
  - rewrite Hdecl in Hd. by apply list_elem_of_singleton in Hd.
  - destruct (Hdecl _ Hd) as (d' & [= <-] & _ & lease' & id' & Ha' & Hid' & Hr & _).
    rewrite Ha in Ha'. injection Ha' as <-. rewrite Hid in Hid'. injection Hid' as <-. congruence.
Qed.

Lemma closed_denies gate subject req now : gate_closed gate → gate_check gate subject req now ≠ Permit.
Proof.
  unfold gate_closed, gate_check, verdict. destruct gate as [s|]; [|done]. by destruct (sn_mode s).
Qed.

(** No sequence of readings, task failures or poisoned locks undoes
    a revocation: once the gate knows an id revoked, every later query that relies on it is
    denied until a restart; and once the gate has latched on an anomaly, every query is. *)
Theorem revocation_sticks g s rt rt' id subject req now :
  valid s → rtc rt_step (prepare g s) rt → rtc rt_step rt rt' →
  (gate_revokes (rt_gate rt) id → relies_on g req id →
     gate_check (rt_gate rt') subject req now ≠ Permit) ∧
  (gate_closed (rt_gate rt) → gate_check (rt_gate rt') subject req now ≠ Permit).
Proof.
  intros Hv H1 H2. destruct (rt_steps_keep g _ _ id (prepare_ok g s Hv) H1) as (Hok & _).
  destruct (rt_steps_keep g _ _ id Hok H2) as (Hok' & Hr & Hc). split.
  - intros Hrev. apply revoked_denied; auto.
  - intros Hcl. apply closed_denies. auto.
Qed.

(** ** From an operator's revocation to the next reading *)

Lemma capability_domain_from_inj d d' : capability_domain_from d = capability_domain_from d' → d = d'.
Proof. by destruct d, d'. Qed.

Section Effect.
Context (time_max : Z).

(** A grant's lease has the grant's domain and an id made of its position. *)
Lemma lower_lease_Ok index g issuance lease :
  lower_lease time_max index g issuance = Ok lease →
  l_domain lease = al_domain g ∧
  l_id lease = String.append (li_id_prefix issuance) (String "-" (decimal (N.of_nat index))).
Proof.
  unfold lower_lease. destruct (al_max_count g); [done|]. destruct (negb _); [done|].
  destruct (checked_add _ _ _); [|done]. by intros [= <-].
Qed.

(** Pairs of a lease and the id of its domain, in the order of the grants. *)
Inductive paired (lease_id : string → result string StateError.t) (issuance : LeaseIssuance)
  : nat → list (CapabilityLease * string) → Prop :=
| paired_nil n : paired lease_id issuance n []
| paired_cons n lease id d rest :
    l_domain lease = capability_domain_from d →
    l_id lease = String.append (li_id_prefix issuance) (String "-" (decimal (N.of_nat n))) →
    lease_id (Lease.as_str d) = Ok id → paired lease_id issuance (S n) rest →
    paired lease_id issuance n ((lease, id) :: rest).

Lemma attach_ids_paired lease_id issuance n grants leases leased :
  lower_leases_from time_max n (map authored_lease_from grants) issuance = Ok leases →
  attach_ids lease_id leases grants = Ok leased → paired lease_id issuance n leased.
Proof.
  revert n leases leased. induction grants as [|g grants IH]; intros n leases leased; simpl.
  { intros [= <-] [= <-]. constructor. }
  unfold result_bind. destruct (lower_lease _ _ _ _) as [lease|] eqn:Hl; [|done].
  destruct (lower_leases_from _ _ _ _) as [rest|] eqn:Hr; [|done]. intros [= <-]. simpl. unfold result_bind.
  destruct (lease_id _) as [id|] eqn:Hid; [|done].
  destruct (attach_ids lease_id rest grants) as [ps|] eqn:Hp; [|done]. intros [= <-].
  apply lower_lease_Ok in Hl as [Hd Hi]. apply (paired_cons _ _ _ _ _ (Lease.lg_domain g)); eauto.
Qed.

(** Positions distinguish the leases, so the search by lease id finds the pair itself. *)
Lemma paired_find lease_id issuance n leased lease id :
  paired lease_id issuance n leased → lease ∈ map fst leased →
  snd <$> find (λ e, String.eqb (l_id (fst e)) (l_id lease)) leased = Some id →
  ∃ d, l_domain lease = capability_domain_from d ∧ lease_id (Lease.as_str d) = Ok id.
Proof.
  assert (∀ m l, paired lease_id issuance m l → ∀ x, x ∈ map fst l → ∃ k, (m ≤ k)%nat ∧
    l_id x = String.append (li_id_prefix issuance) (String "-" (decimal (N.of_nat k)))) as Hpos.
  { induction 1 as [|m l0 id0 d rest _ Hi _ _ IH]; simpl; [by intros ? ?%not_elem_of_nil|].
    intros x [->|Hx]%elem_of_cons; [by exists m|]. destruct (IH x Hx) as (k & ? & ?). exists k. by split; [lia|]. }
  induction 1 as [|m l0 id0 d rest Hd Hi Hok Hrest IH]; simpl; [by intros ?%not_elem_of_nil|].
  intros [->|Hin]%elem_of_cons.
  - rewrite String.eqb_refl. intros [= <-]. by exists d.
  - destruct (String.eqb_spec (l_id l0) (l_id lease)) as [He|]; [|by apply IH].
    destruct (Hpos _ _ Hrest lease Hin) as (k & Hk & Hid). rewrite Hi, Hid in He.
    apply append_inj_l in He. injection He as He. apply decimal_inj in He. lia.
Qed.

Lemma from_state_lease_id resolution subject ttl issuer s g d lease id :
  from_state time_max resolution subject ttl issuer s = Ok g →
  authority_state (gv_authority g) (capability_domain_from d) = Some (AuthorityState.Leased lease) →
  lease_id_for g lease = Some id → state_lease_id s (Lease.as_str d) = Ok id.
Proof.
  unfold from_state. destruct (negb _); [done|]. destruct (negb _); [done|].
  unfold from_resolution. destruct resolution as [r|?|?|?]; try done. destruct (is_empty subject) eqn:He; [done|].
  unfold lower_leases. destruct (lower_leases_from _ _ _ _) as [leases|] eqn:Hl; [|done].
  unfold result_bind. destruct (attach_ids _ _ _) as [leased|] eqn:Ha; [|done].
  pose proof (attach_ids_paired _ _ _ _ _ _ Hl Ha) as Hp.
  unfold from_parts. rewrite He. destruct (duplicate_id _ _); [done|].
  destruct (from_leases _) as [a|] eqn:Hf; [|done]. intros [= <-]. simpl. intros Hst Hid.
  destruct (from_leases_state _ _ (capability_domain_from d) Hf) as [_ Hs].
  destruct (Hs _ Hst) as [(l & [= <-] & Hin & Hd)|[? _]]; [|done].
  destruct (paired_find _ _ _ _ _ _ Hp Hin Hid) as (d' & Hd' & Hok).
  rewrite Hd in Hd'. by apply capability_domain_from_inj in Hd' as <-.
Qed.

(** The query names a tool that declares the class. *)
Definition declares (g : LeaseGovernance) (req : CheckActionRequest) (d : Lease.LeaseDomain) : Prop :=
  ∃ name tq, ca_tool_call req = Some name ∧ gv_tools g !! name = Some tq ∧ Lease.Domain d ∈ tq_capabilities tq.

(** A gate that knows the id of a domain's lease revoked permits no call of that class. *)
Lemma declared_denied resolution subject ttl issuer s g rt who req now d id :
  from_state time_max resolution subject ttl issuer s = Ok g → state_lease_id s (Lease.as_str d) = Ok id →
  rt_ok g rt → gate_revokes (rt_gate rt) id → declares g req d →
  gate_check (rt_gate rt) who req now ≠ Permit.
Proof.
  intros Hg Hid [_ _ Hgate] Hrev (name & tq & Hn & Ht & Hd).
  unfold gate_check. destruct (rt_gate rt) as [sn|]; [|done]. specialize (Hgate sn eq_refl).
  simpl in Hrev. unfold verdict. destruct (sn_mode sn) as [g' st|]; [|done].
  destruct Hgate as (-> & _). destruct (negb _); [done|]. unfold decide_call.
  destruct (ca_action_type req =? TOOL_CALL); [|by destruct (action_type_known _)].
  intros (name' & tq' & Hn' & _ & Ht' & _ & Hdecl)%decide_tool_Permit.
  rewrite Hn in Hn'. injection Hn' as <-. rewrite Ht in Ht'. injection Ht' as <-.
  destruct Hdecl as [Hdecl|[_ Hdecl]].
  - rewrite Hdecl in Hd. by apply list_elem_of_singleton in Hd.
  - destruct (Hdecl _ Hd) as (d' & [= <-] & _ & lease & id' & Ha & Hid' & Hr & _).
    rewrite (from_state_lease_id _ _ _ _ _ _ _ _ _ Hg Ha Hid') in Hid. injection Hid as ->. congruence.
Qed.

(** A reading that finds the id revoked, or fails, leaves a gate that denies it. *)
Lemma round_revokes g rt cur loaded id :
  rt_ok g rt → rt_current rt = Some cur →
  (∀ new, loaded = Ok new → valid new ∧ is_revoked new id = true) →
  gate_revokes (rt_gate (reload_round rt cur loaded)) id.
Proof.
  intros [_ _ Hgate] Hcur Hload. unfold reload_round, reload_step.
  destruct loaded as [new|e]; [|apply closed_revokes, latch_gate].
  destruct (Hload new eq_refl) as [_ Hrev]. case_bool_decide as Heq.
  - subst new. unfold gate_revokes. destruct (rt_gate rt) as [sn|]; [|done]. specialize (Hgate sn eq_refl).
    destruct (sn_mode sn) as [g' st|]; [|done]. destruct Hgate as (_ & _ & Hst). by rewrite <- (Hst cur Hcur).
  - destruct (check_monotonic cur new); [|apply closed_revokes, latch_gate].
    unfold install. by destruct (rt_gate rt).
Qed.

(** C12: an operator's revocation of a domain's lease takes
    effect at the next reading of the record and lasts: whatever happened to the runtime
    before, once the reload task reads the revoked record, or fails to read it, no later
    call of a tool that declares the domain is permitted, for any caller, at any instant,
    whatever happens to the runtime afterwards. *)
Theorem revocation_takes_effect record_len resolution subject ttl issuer s g d id disk ids disk' changed
    rt cur loaded rt' who req now :
  from_state time_max resolution subject ttl issuer s = Ok g → valid s →
  state_lease_id s (Lease.as_str d) = Ok id → id ∈ ids →
  valid disk → revoke record_len disk ids = Ok (disk', changed) →
  rtc rt_step (prepare g s) rt → rt_current rt = Some cur →
  loaded = Ok disk' ∨ (∃ e, loaded = Err e) →
  rtc rt_step (reload_round rt cur loaded) rt' →
  declares g req d → gate_check (rt_gate rt') who req now ≠ Permit.
Proof.
  intros Hg Hv Hid Hin Hvd Hr H1 Hcur Hload H2 Hdecl.
  destruct (rt_steps_keep g _ _ id (prepare_ok g s Hv) H1) as (Hok & _).
  destruct (revoke_Ok _ _ _ _ _ Hvd Hr) as (Hvd' & Hmem & _).
  assert (∀ new, loaded = Ok new → valid new ∧ is_revoked new id = true) as Hl.
  { intros new Hn. destruct Hload as [->|[e ->]]; [|done]. injection Hn as <-. split; [done|].
    rewrite is_revoked_elem, bool_decide_eq_true by done. apply Hmem. by right. }
  destruct (round_keeps g rt cur loaded id Hok Hcur) as (Hok2 & _ & _); [by intros new [? _]%Hl|].
  destruct (rt_steps_keep g _ _ id Hok2 H2) as (Hok3 & Hrev & _).
  eapply declared_denied; eauto using round_revokes.
Qed.
End Effect.

(** ** Witnesses *)

Definition sample_grant : CanonicalLeaseGrant :=
  {| Lease.lg_domain := Lease.NetworkEgress; Lease.lg_scope := Lease.Whole; Lease.lg_max_count := None;
     Lease.lg_ttl_seconds := None; Lease.lg_delegable := false; Lease.lg_issuer := None;
     Lease.lg_policy_rule := None; Lease.lg_approval_ref := None; Lease.lg_reason := "fetch pages" |}.

Definition sample_resolution : PolicyResolution :=
  Enforced
    {| rs_source := "policy.yaml";
       rs_document := {| Rule.version := 1; Rule.name := "policy";
                         Rule.rules := [{| Rule.action_pattern := "fetch"; Rule.decision := Rule.Allow |}];
                         Rule.enforcement_mode := CoreTypes.Enforce |};
       rs_canonical := {| Canon.name := None; Canon.network := None; Canon.capabilities := None;
                          Canon.tools := []; Canon.syscall_allowlist := None; Canon.filesystem := None |};
       rs_egress := Egress.NotRequired; rs_credentials := Brokerage.NotRequired;
       rs_leases := [sample_grant];
       rs_tool_capabilities := {[ "fetch"%string := [Lease.Domain Lease.NetworkEgress] ]};
       rs_content_digest := "sha256:0123456789abcdef"; rs_credential_action := Block |}.

Definition fetch_record : LeaseState :=
  {| ls_version := 1; ls_subject := "agent-1"; ls_policy_digest := "0123456789abcdef";
     ls_run_id := "00112233445566778899aabbccddeeff"; ls_issued_at := 1000; ls_generation := 1;
     ls_revoked := [] |}.

Definition fetch_governance : LeaseGovernance :=
  match from_state 1000000 sample_resolution "agent-1" 600 "operator" fetch_record with
  | Ok g => g
  | Err _ => {| gv_subject := ""; gv_tools := ∅; gv_authority := deny_all; gv_leased := [];
                gv_policy_digest := "" |}
  end.

Definition fetch_id : string := "agent-1:0123456789ab:00112233445566778899aabbccddeeff:1000:network_egress".

Definition fetch_revoked : LeaseState :=
  match revoke sample_len fetch_record [fetch_id] with Ok (s, _) => s | Err _ => fetch_record end.

Definition fetch_call : CheckActionRequest := {| ca_action_type := TOOL_CALL; ca_tool_call := Some "fetch"%string |}.

Definition fetch_reloaded : GovernedRuntime :=
  reload_round (prepare fetch_governance fetch_record) fetch_record (Ok fetch_revoked).

(** Before the revocation the call is permitted. *)
Lemma fetch_permitted :
  gate_check (rt_gate (prepare fetch_governance fetch_record)) "agent-1" fetch_call 1100 = Permit.
Proof. vm_compute. reflexivity. Qed.

Lemma fetch_declares : declares fetch_governance fetch_call Lease.NetworkEgress.
Proof.
  exists "fetch"%string. eexists. split; [reflexivity|]. split; [vm_compute; reflexivity|]. left.
Qed.

Lemma revocation_takes_effect_witness :
  gate_check (rt_gate (prepare fetch_governance fetch_record)) "agent-1" fetch_call 1100 = Permit ∧
  gate_check (rt_gate fetch_reloaded) "agent-1" fetch_call 1100 ≠ Permit.
Proof.
  split; [exact fetch_permitted|].
  apply (revocation_takes_effect 1000000 sample_len sample_resolution "agent-1" 600 "operator" fetch_record
           fetch_governance Lease.NetworkEgress fetch_id fetch_record [fetch_id] fetch_revoked true
           (prepare fetch_governance fetch_record) fetch_record (Ok fetch_revoked)).
  - vm_compute. reflexivity.
  - vm_compute. reflexivity.
  - vm_compute. reflexivity.
  - left.
  - vm_compute. reflexivity.
  - vm_compute. reflexivity.
  - apply rtc_refl.
  - reflexivity.
  - left. reflexivity.
  - apply rtc_refl.
  - exact fetch_declares.
Defined.

(** A reading that drops the revocation again latches the gate. *)
Definition fetch_rolled_back : GovernedRuntime := reload_round fetch_reloaded fetch_revoked (Ok fetch_record).

Lemma fetch_record_loads : ∀ new, @Ok LeaseState StateError.t fetch_record = Ok new → valid new.
Proof. intros new [= <-]. vm_compute. reflexivity. Qed.

Lemma fetch_revoked_loads : ∀ new, @Ok LeaseState StateError.t fetch_revoked = Ok new → valid new.
Proof. intros new [= <-]. vm_compute. reflexivity. Qed.

Lemma revocation_sticks_witness :
  gate_check (rt_gate fetch_rolled_back) "agent-1" fetch_call 1100 ≠ Permit.
Proof.
  apply (proj1 (revocation_sticks fetch_governance fetch_record fetch_reloaded fetch_rolled_back fetch_id
           "agent-1" fetch_call 1100 ltac:(vm_compute; reflexivity)
           (rtc_once _ _ (step_round (prepare fetch_governance fetch_record) fetch_record (Ok fetch_revoked)
              eq_refl fetch_revoked_loads))
           (rtc_once _ _ (step_round fetch_reloaded fetch_revoked (Ok fetch_record)
              ltac:(vm_compute; reflexivity) fetch_record_loads)))).
  - vm_compute. reflexivity.
  - exists "fetch"%string. eexists. exists Lease.NetworkEgress. eexists.
    split; [reflexivity|]. split; [vm_compute; reflexivity|]. split; [left|].
    split; [vm_compute; reflexivity|vm_compute; reflexivity].
Defined.
