(* ===== verification/OpControl.v ===== *)
(** * OpControl: live operations and the operator's kill switch

    aa-gateway/src/ops: mod.rs (the registry of in-flight operations), publisher.rs (the
    broadcast of control signals) and nats.rs (subjects and the bridge between processes);
    the ingestion and the stream of aa-gateway/src/service/policy_service.rs; and
    aa-runtime/src/op_control.rs with the halt check of pipeline/mod.rs.

    The broadcast channel is the log of what was sent; a subscriber sees what it receives.
    RFC 3339 stamps are the chrono library's: printing and parsing are arguments. *)

From stdpp Require Import base gmap strings list.
From Stdlib Require Import ZArith Lia Bool Ascii String.
From S2P Require Import Prelude.
From S2P Require Import Text.

Open Scope Z_scope.
Open Scope aasm_scope.

(** ** Wire types *)

(** [AgentId] of common.proto: the composite identity. *)
Record ProtoAgentId := { pa_org_id : string; pa_team_id : string; pa_agent_id : string }.

#[export] Instance ProtoAgentId_eq_dec : EqDecision ProtoAgentId.
Proof. solve_decision. Defined.

Definition default_agent_id : ProtoAgentId := {| pa_org_id := ""; pa_team_id := ""; pa_agent_id := "" |}.

Module Signal.
Inductive t := Unspecified | Pause | Resume | Terminate.

#[global] Instance t_eq_dec : EqDecision t.
Proof. solve_decision. Defined.

Definition to_i32 (s : t) : Z :=
  match s with Unspecified => 0 | Pause => 1 | Resume => 2 | Terminate => 3 end.

Definition try_from (z : Z) : option t :=
  if z =? 0 then Some Unspecified else if z =? 1 then Some Pause
  else if z =? 2 then Some Resume else if z =? 3 then Some Terminate else None.

(** [OpControlMessage::signal]: an unknown code reads as the default. *)
Definition read (z : Z) : t := default Unspecified (try_from z).
End Signal.

Record OpControlMessage := { om_op_id : string; om_signal : Z; om_sequence : Z }.

Record OpControlEnvelope := { oe_agent_id : ProtoAgentId; oe_message : OpControlMessage; oe_global : bool }.

(** ** The runtime's store *)

Definition GLOBAL_HALT_OP_ID : string := "*".

Definition agent_halt_op_id (agent_id : string) : string := ("agent:" ++ agent_id)%string.

Module Halt.
Inductive OpState := Paused | Terminated.

#[global] Instance OpState_eq_dec : EqDecision OpState.
Proof. solve_decision. Defined.
End Halt.

Abbreviation OpControlStore := (gmap string Halt.OpState).

Definition store_apply (st : OpControlStore) (op_id : string) (signal : Signal.t)
  : OpControlStore * option Halt.OpState :=
  match signal with
  | Signal.Terminate => (<[op_id := Halt.Terminated]> st, Some Halt.Terminated)
  | Signal.Pause =>
      match st !! op_id with
      | Some Halt.Terminated => (st, Some Halt.Terminated)
      | _ => (<[op_id := Halt.Paused]> st, Some Halt.Paused)
      end
  | Signal.Resume =>
      match st !! op_id with
      | Some Halt.Terminated => (st, Some Halt.Terminated)
      | _ => (delete op_id st, None)
      end
  | Signal.Unspecified => (st, st !! op_id)
  end.

(** The loop of [subscribe_once] over the messages of one connection. *)
Definition receive (st : OpControlStore) (messages : list OpControlMessage) : OpControlStore :=
  foldl (λ st m, fst (store_apply st (om_op_id m) (Signal.read (om_signal m)))) st messages.

(** ** The halt check *)

Module Scan.
Inductive t := Halted (op_id : string) | Waiting (op_id : string) | Runnable.
End Scan.

(** One pass over the keys: the first terminated one, or else the first paused one. *)
Fixpoint halt_scan (st : OpControlStore) (paused : option string) (op_ids : list string) : Scan.t :=
  match op_ids with
  | [] => match paused with Some op_id => Scan.Waiting op_id | None => Scan.Runnable end
  | op_id :: rest =>
      match st !! op_id with
      | Some Halt.Terminated => Scan.Halted op_id
      | Some Halt.Paused =>
          halt_scan st (match paused with None => Some op_id | Some _ => paused end) rest
      | None => halt_scan st paused rest
      end
  end.

(** The loop: [stores] are the contents of the store at each wake-up.  [None] is a check
    that still waits. *)
Fixpoint op_control_halts (stores : list OpControlStore) (op_ids : list string) : option bool :=
  match stores with
  | [] => None
  | st :: rest =>
      match halt_scan st None op_ids with
      | Scan.Halted _ => Some true
      | Scan.Waiting _ => op_control_halts rest op_ids
      | Scan.Runnable => Some false
      end
  end.

(** The keys of a request: the two reserved ones, and its own when it names a trace. *)
Definition halt_op_ids (agent_id trace_id span_id : string) : list string :=
  [GLOBAL_HALT_OP_ID; agent_halt_op_id agent_id]
  ++ (if is_empty trace_id then [] else [(trace_id ++ ":" ++ span_id)%string]).

(** ** The identities of a runtime *)

(** The part of [RuntimeConfig] that names the runtime. *)
Record RuntimeIdentity := {
  rc_agent_id : string;
  rc_agent_org_id : string;
  rc_agent_team_id : string;
  rc_gateway_endpoint : option string;
  rc_gateway_credential_token : option string;
  rc_gateway_agent_id : option string;
}.

(** [spawn_op_control]: the identity the runtime subscribes under and the credential it
    presents; nothing without an endpoint. *)
Definition spawn_op_control (cfg : RuntimeIdentity) : option (ProtoAgentId * option string) :=
  match rc_gateway_endpoint cfg with
  | None => None
  | Some _ =>
      Some match rc_gateway_credential_token cfg, rc_gateway_agent_id cfg with
           | Some token, Some gateway_agent_id =>
               ({| pa_org_id := rc_agent_org_id cfg; pa_team_id := rc_agent_team_id cfg;
                   pa_agent_id := gateway_agent_id |}, Some token)
           | _, _ =>
               ({| pa_org_id := rc_agent_org_id cfg; pa_team_id := rc_agent_team_id cfg;
                   pa_agent_id := rc_agent_id cfg |}, None)
           end
  end.

(** ** The publisher *)

(** [ocp_sent] is everything sent, oldest first. *)
Record OpControlPublisher := { ocp_sequence : Z; ocp_sent : list OpControlEnvelope }.

Definition publisher_new : OpControlPublisher := {| ocp_sequence := 0; ocp_sent := [] |}.

(** [fetch_add] returns the old value and wraps around. *)
Definition send_envelope (p : OpControlPublisher) (agent : ProtoAgentId) (op_id : string)
    (signal : Signal.t) (global : bool) : OpControlPublisher :=
  {| ocp_sequence := wrap64 (ocp_sequence p + 1);
     ocp_sent := ocp_sent p ++
       [{| oe_agent_id := agent;
           oe_message := {| om_op_id := op_id; om_signal := Signal.to_i32 signal;
                            om_sequence := ocp_sequence p |};
           oe_global := global |}] |}.

Definition publish (p : OpControlPublisher) (agent : ProtoAgentId) (op_id : string) (signal : Signal.t)
  : OpControlPublisher := send_envelope p agent op_id signal false.

Definition publish_agent_halt (p : OpControlPublisher) (agent : ProtoAgentId) (signal : Signal.t)
  : OpControlPublisher := publish p agent (agent_halt_op_id (pa_agent_id agent)) signal.

Definition publish_global_halt (p : OpControlPublisher) (signal : Signal.t) : OpControlPublisher :=
  send_envelope p default_agent_id GLOBAL_HALT_OP_ID signal true.

(** The filter of [op_control_stream], on the envelopes a subscriber receives. *)
Definition stream_admits (target : ProtoAgentId) (e : OpControlEnvelope) : bool :=
  oe_global e
  || (String.eqb (pa_agent_id (oe_agent_id e)) (pa_agent_id target)
      && String.eqb (pa_team_id (oe_agent_id e)) (pa_team_id target)
      && String.eqb (pa_org_id (oe_agent_id e)) (pa_org_id target)).

Definition op_control_stream (target : ProtoAgentId) (received : list OpControlEnvelope)
  : list OpControlMessage :=
  map oe_message (filter (λ e, stream_admits target e = true) received).

(** ** The registry of operations *)

Module Live.
Inductive OpState := Pending | Running | Paused | Completing | Terminated.

#[global] Instance OpState_eq_dec : EqDecision OpState.
Proof. solve_decision. Defined.
End Live.

Record OpRecord := { or_op_id : string; or_state : Live.OpState; or_registered_at : string; or_updated_at : string }.

Inductive OpsError := NotFound | InvalidTransition.

(** What publishing through the other process answers. *)
Definition NatsPublisher : Type := ProtoAgentId → string → Signal.t → bool → result unit string.

Record OpsRegistry := {
  og_ops : gmap string OpRecord;
  og_agents : gmap string ProtoAgentId;
  og_publisher : option OpControlPublisher;
  og_nats : option NatsPublisher;
}.

Definition registry_new : OpsRegistry :=
  {| og_ops := ∅; og_agents := ∅; og_publisher := None; og_nats := None |}.

Definition with_publisher (g : OpsRegistry) (p : OpControlPublisher) : OpsRegistry :=
  {| og_ops := og_ops g; og_agents := og_agents g; og_publisher := Some p; og_nats := og_nats g |}.

Definition with_nats_publisher (g : OpsRegistry) (n : NatsPublisher) : OpsRegistry :=
  {| og_ops := og_ops g; og_agents := og_agents g; og_publisher := og_publisher g; og_nats := Some n |}.

Definition set_ops (g : OpsRegistry) (m : gmap string OpRecord) : OpsRegistry :=
  {| og_ops := m; og_agents := og_agents g; og_publisher := og_publisher g; og_nats := og_nats g |}.

Definition set_agents (g : OpsRegistry) (m : gmap string ProtoAgentId) : OpsRegistry :=
  {| og_ops := og_ops g; og_agents := m; og_publisher := og_publisher g; og_nats := og_nats g |}.

Definition maybe_publish (g : OpsRegistry) (op_id : string) (signal : Signal.t) : OpsRegistry :=
  match og_publisher g, og_agents g !! op_id with
  | Some p, Some agent => with_publisher g (publish p agent op_id signal)
  | _, _ => g
  end.

Section Registry.
Context (to_rfc3339 : Z → string) (parse_rfc3339 : string → option Z).

(** [register] and [ingest] differ in the first state. *)
Definition admit_op (state : Live.OpState) (g : OpsRegistry) (op_id : string) (now : Z) : OpsRegistry * OpRecord :=
  match og_ops g !! op_id with
  | Some existing => (g, existing)
  | None =>
      let stamp := to_rfc3339 now in
      let record := {| or_op_id := op_id; or_state := state; or_registered_at := stamp; or_updated_at := stamp |} in
      (set_ops g (<[op_id := record]> (og_ops g)), record)
  end.

Definition register (g : OpsRegistry) (op_id : string) (now : Z) : OpsRegistry * OpRecord :=
  admit_op Live.Running g op_id now.

Definition ingest (g : OpsRegistry) (op_id : string) (now : Z) : OpsRegistry * OpRecord :=
  admit_op Live.Pending g op_id now.

Definition ingest_with_agent (g : OpsRegistry) (op_id : string) (agent : ProtoAgentId) (now : Z)
  : OpsRegistry * OpRecord :=
  ingest (set_agents g (<[op_id := agent]> (og_agents g))) op_id now.

(** The record with its state changed and stamped. *)
Definition moved (r : OpRecord) (state : Live.OpState) (now : Z) : OpRecord :=
  {| or_op_id := or_op_id r; or_state := state; or_registered_at := or_registered_at r;
     or_updated_at := to_rfc3339 now |}.

Definition put (g : OpsRegistry) (op_id : string) (r : OpRecord) : OpsRegistry :=
  set_ops g (<[op_id := r]> (og_ops g)).

Definition allow (g : OpsRegistry) (op_id : string) (now : Z) : OpsRegistry * result OpRecord OpsError :=
  match og_ops g !! op_id with
  | None => (g, Err NotFound)
  | Some r =>
      match or_state r with
      | Live.Pending => let r' := moved r Live.Running now in (put g op_id r', Ok r')
      | _ => (g, Err InvalidTransition)
      end
  end.

Definition pause (g : OpsRegistry) (op_id : string) (now : Z) : OpsRegistry * result OpRecord OpsError :=
  match og_ops g !! op_id with
  | None => (g, Err NotFound)
  | Some r =>
      match or_state r with
      | Live.Running =>
          let r' := moved r Live.Paused now in (maybe_publish (put g op_id r') op_id Signal.Pause, Ok r')
      | _ => (g, Err InvalidTransition)
      end
  end.

Definition resume (g : OpsRegistry) (op_id : string) (now : Z) : OpsRegistry * result OpRecord OpsError :=
  match og_ops g !! op_id with
  | None => (g, Err NotFound)
  | Some r =>
      match or_state r with
      | Live.Paused =>
          let r' := moved r Live.Running now in (maybe_publish (put g op_id r') op_id Signal.Resume, Ok r')
      | _ => (g, Err InvalidTransition)
      end
  end.

Definition complete (g : OpsRegistry) (op_id : string) (now : Z) : OpsRegistry * result OpRecord OpsError :=
  match og_ops g !! op_id with
  | None => (g, Err NotFound)
  | Some r =>
      match or_state r with
      | Live.Running => let r' := moved r Live.Completing now in (put g op_id r', Ok r')
      | _ => (g, Err InvalidTransition)
      end
  end.

Definition terminate (g : OpsRegistry) (op_id : string) (now : Z) : OpsRegistry * result OpRecord OpsError :=
  match og_ops g !! op_id with
  | None => (g, Err NotFound)
  | Some r =>
      match or_state r with
      | Live.Pending | Live.Running | Live.Paused =>
          let r' := moved r Live.Terminated now in
          (maybe_publish (put g op_id r') op_id Signal.Terminate, Ok r')
      | Live.Completing | Live.Terminated => (g, Ok r)
      end
  end.

Definition is_drained (s : Live.OpState) : bool :=
  match s with Live.Completing | Live.Terminated => true | _ => false end.

(** [Duration::num_seconds] truncates; instants are nanoseconds. *)
Definition too_old (r : OpRecord) (now ttl_seconds : Z) : bool :=
  match parse_rfc3339 (or_updated_at r) with
  | Some ts => ttl_seconds <=? Z.quot (now - ts) 1000000000
  | None => false
  end.

Definition sweep_one (now ttl_seconds : Z) (acc : OpsRegistry * nat) (op_id : string) : OpsRegistry * nat :=
  let '(g, removed) := acc in
  match og_ops g !! op_id with
  | Some r =>
      if too_old r now ttl_seconds
      then (set_agents (set_ops g (delete op_id (og_ops g))) (delete op_id (og_agents g)), S removed)
      else acc
  | None => acc
  end.

Definition drained_keys (g : OpsRegistry) : list string :=
  map (λ e, or_op_id (snd e)) (filter (λ e, is_drained (or_state (snd e)) = true) (map_to_list (og_ops g))).

Definition sweep (g : OpsRegistry) (now ttl_seconds : Z) : OpsRegistry * nat :=
  foldl (sweep_one now ttl_seconds) (g, 0%nat) (drained_keys g).

(** ** Halts *)

Definition halt_agent (g : OpsRegistry) (agent : ProtoAgentId) (signal : Signal.t) : OpsRegistry * bool :=
  match og_publisher g with
  | Some p => (with_publisher g (publish_agent_halt p agent signal), true)
  | None => (g, false)
  end.

Definition halt_global (g : OpsRegistry) (signal : Signal.t) : OpsRegistry * bool :=
  match og_publisher g with
  | Some p => (with_publisher g (publish_global_halt p signal), true)
  | None => (g, false)
  end.

Inductive HaltDelivery := Delivered | NotConfigured | ChannelError (why : string).

Definition halt_agent_delivery (g : OpsRegistry) (agent : ProtoAgentId) (signal : Signal.t)
  : OpsRegistry * HaltDelivery :=
  match og_nats g with
  | Some nats =>
      (g, match nats agent (agent_halt_op_id (pa_agent_id agent)) signal false with
          | Ok _ => Delivered
          | Err why => ChannelError why
          end)
  | None => let '(g', sent) := halt_agent g agent signal in (g', if sent then Delivered else NotConfigured)
  end.

Definition halt_global_delivery (g : OpsRegistry) (signal : Signal.t) : OpsRegistry * HaltDelivery :=
  match og_nats g with
  | Some nats =>
      (g, match nats default_agent_id GLOBAL_HALT_OP_ID signal true with
          | Ok _ => Delivered
          | Err why => ChannelError why
          end)
  | None => let '(g', sent) := halt_global g signal in (g', if sent then Delivered else NotConfigured)
  end.

(** ** The policy service's part *)

(** The trace and span of a check, and the identity it carries. *)
Record OpRequest := { oq_trace_id : string; oq_span_id : string; oq_agent_id : option ProtoAgentId }.

Definition ingest_op (g : OpsRegistry) (req : OpRequest) (now : Z) : OpsRegistry * option string :=
  if is_empty (oq_trace_id req) then (g, None)
  else
    let op_id := (oq_trace_id req ++ ":" ++ oq_span_id req)%string in
    (fst (match oq_agent_id req with
          | Some agent => ingest_with_agent g op_id agent now
          | None => ingest g op_id now
          end), Some op_id).

Definition DECISION_ALLOW : Z := 1.
Definition DECISION_DENY : Z := 2.
Definition DECISION_PENDING : Z := 3.

(** The transition after the decision, errors swallowed. *)
Definition settle_op (g : OpsRegistry) (op_id : option string) (decision : Z) (now : Z) : OpsRegistry :=
  match op_id with
  | None => g
  | Some op_id =>
      if decision =? DECISION_ALLOW then fst (allow g op_id now)
      else if decision =? DECISION_DENY then fst (terminate g op_id now)
      else g
  end.

(** The registry side of one policy check. *)
Definition check_op (g : OpsRegistry) (req : OpRequest) (decision now : Z) : OpsRegistry :=
  let '(g', op_id) := ingest_op g req now in settle_op g' op_id decision now.
End Registry.

(** ** Between processes *)

Definition SUBJECT_PREFIX : string := "assembly.opcontrol".
Definition GLOBAL_SUBJECT : string := "assembly.opcontrol.global".
Definition UNKNOWN_TENANT : string := "default".
Definition UNKNOWN_AGENT : string := "unknown".

Record OpControlWireEnvelope := {
  ow_org_id : string;
  ow_team_id : string;
  ow_agent_id : string;
  ow_op_id : string;
  ow_signal : Z;
  ow_global : bool;
}.

(** [{:02X}] of a byte. *)
Definition upper_hex_digit (n : Z) : ascii :=
  ascii_of_N (Z.to_N (if n <? 10 then 48 + n else 55 + n)).

Definition passes (b : Z) : bool :=
  (48 <=? b) && (b <=? 57) || (65 <=? b) && (b <=? 90) || (97 <=? b) && (b <=? 122) || (b =? 45).

Definition sanitize_byte (b : Z) : string :=
  if passes b then String (ascii_of_N (Z.to_N b)) EmptyString
  else String "_" (String (upper_hex_digit (b / 16)) (String (upper_hex_digit (b mod 16)) EmptyString)).

Definition sanitize_token (raw : string) : string :=
  foldr (λ b out, (sanitize_byte b ++ out)%string) EmptyString (utf8_bytes raw).

Definition subject_tenant (e : OpControlWireEnvelope) : string :=
  let org := sanitize_token (ow_org_id e) in
  let team := sanitize_token (ow_team_id e) in
  if negb (is_empty org) then org else if negb (is_empty team) then team else UNKNOWN_TENANT.

Definition subject_agent (e : OpControlWireEnvelope) : string :=
  let token := sanitize_token (ow_agent_id e) in
  if is_empty token then UNKNOWN_AGENT else token.

Definition subject_for (e : OpControlWireEnvelope) : string :=
  if ow_global e then GLOBAL_SUBJECT
  else (SUBJECT_PREFIX ++ "." ++ subject_tenant e ++ "." ++ subject_agent e)%string.

Definition subject_authorizes_envelope (subject : string) (e : OpControlWireEnvelope) : bool :=
  if ow_global e then String.eqb subject GLOBAL_SUBJECT else String.eqb (subject_for e) subject.

Definition forward_to_broadcast (p : OpControlPublisher) (e : OpControlWireEnvelope) : OpControlPublisher :=
  match Signal.try_from (ow_signal e) with
  | None | Some Signal.Unspecified => p
  | Some signal =>
      if ow_global e then publish_global_halt p signal
      else publish p {| pa_org_id := ow_org_id e; pa_team_id := ow_team_id e; pa_agent_id := ow_agent_id e |}
             (ow_op_id e) signal
  end.

(** The envelopes [OpControlNatsPublisher] sends. *)
Definition wire_agent_halt (agent : ProtoAgentId) (signal : Signal.t) : OpControlWireEnvelope :=
  {| ow_org_id := pa_org_id agent; ow_team_id := pa_team_id agent; ow_agent_id := pa_agent_id agent;
     ow_op_id := agent_halt_op_id (pa_agent_id agent); ow_signal := Signal.to_i32 signal; ow_global := false |}.

Definition wire_global_halt (signal : Signal.t) : OpControlWireEnvelope :=
  {| ow_org_id := ""; ow_team_id := ""; ow_agent_id := ""; ow_op_id := GLOBAL_HALT_OP_ID;
     ow_signal := Signal.to_i32 signal; ow_global := true |}.

(** A stored message: its subject and its payload when it decodes. *)
Record StoredMessage := { sm_subject : string; sm_payload : option OpControlWireEnvelope }.

Definition bridge_message (p : OpControlPublisher) (m : StoredMessage) : OpControlPublisher :=
  match sm_payload m with
  | Some e => if subject_authorizes_envelope (sm_subject m) e then forward_to_broadcast p e else p
  | None => p
  end.

(** A connection of the bridge delivers every message the stream still holds. *)
Definition bridge_once (p : OpControlPublisher) (stream : list StoredMessage) : OpControlPublisher :=
  foldl bridge_message p stream.

(** What one publish stores. *)
Definition store_message (e : OpControlWireEnvelope) : StoredMessage :=
  {| sm_subject := subject_for e; sm_payload := Some e |}.
