(* ===== verification/RuntimeQuery.v ===== *)
(** * RuntimeQuery: how the runtime answers a policy query

    [handle_policy_query] of aa-runtime/src/pipeline/mod.rs with the lease seam of
    pipeline/lease_gate.rs and the local rules of policy.rs.  What the gateway answered,
    the lease gate and the identifier drawn for an approval are arguments; a panicking gate
    is a gate without an answer.  Logging, metrics and the violation event are left out. *)

From stdpp Require Import base gmap strings list.
From Stdlib Require Import ZArith Lia Bool Ascii String.
From S2P Require Import Prelude.
From S2P Require Import Text.
From S2P Require Import Governed.
From S2P Require Import OpControl.

Open Scope Z_scope.
Open Scope aasm_scope.

(** ** Data *)

Module LocalRule.
Record PolicyRule := {
  name : string;
  blocked_actions : list string;
  requires_approval_actions : list string;
  approval_timeout_secs : Z;
}.
End LocalRule.

Record PolicyRules := { rules : list LocalRule.PolicyRule }.

(** The request: its trace, the identity it claims, and what the lease gate reads. *)
Record Query := {
  qy_trace_id : string;
  qy_span_id : string;
  qy_agent_id : option string;
  qy_action : CheckActionRequest;
}.

Record CheckActionResponse := {
  cr_decision : Z;
  cr_reason : string;
  cr_policy_rule : string;
  cr_approval_id : string;
}.

Definition respond (decision : Z) (reason : string) : CheckActionResponse :=
  {| cr_decision := decision; cr_reason := reason; cr_policy_rule := ""; cr_approval_id := "" |}.

(** What is asked of the approval queue. *)
Record ApprovalSubmission := {
  as_agent_id : string;
  as_action : string;
  as_condition_triggered : string;
  as_timeout_secs : Z;
}.

Inductive QueryOutcome :=
| Answered (r : CheckActionResponse)
| Held (r : CheckActionResponse) (submitted : ApprovalSubmission)
| Waiting.

(** ** The lease seam *)

(** [check] of an installed gate; [None] is a panic. *)
Definition LeaseGate : Type := string → CheckActionRequest → Z → option LeaseVerdict.

Definition enforce (gate : LeaseGate) (subject : string) (req : CheckActionRequest) (now : Z) : result unit unit :=
  if is_empty subject then Err tt
  else match gate subject req now with
       | Some Permit => Ok tt
       | _ => Err tt
       end.

(** ** The gateway *)

(** The answer of the call, or why there is none. *)
Inductive GatewayCall := NoClient | CallFailed | Replied (r : CheckActionResponse).

Definition normalize_gateway_decision (r : CheckActionResponse) : CheckActionResponse :=
  if (cr_decision r =? DECISION_ALLOW) || (cr_decision r =? DECISION_DENY) || (cr_decision r =? DECISION_PENDING)
  then r
  else {| cr_decision := DECISION_DENY; cr_reason := cr_reason r; cr_policy_rule := cr_policy_rule r;
          cr_approval_id := cr_approval_id r |}.

(** ** Local rules *)

(** [ActionType::as_str_name], the names of common.proto. *)
Definition action_type_name (t : Z) : option string :=
  nth_error ["ACTION_UNSPECIFIED"; "LLM_CALL"; "TOOL_CALL"; "FILE_OPERATION"; "NETWORK_CALL";
             "PROCESS_EXEC"; "AGENT_SPAWN"; "TOOL_RESULT"]%string (Z.to_nat t).

Definition action_str (t : Z) : string :=
  if t <? 0 then EmptyString else default EmptyString (action_type_name t).

Definition listed (action : string) (l : list string) : bool := existsb (String.eqb action) l.

Definition try_local_approval (ps : PolicyRules) (action agent_id rid : string) : option QueryOutcome :=
  match find (λ r, listed action (LocalRule.requires_approval_actions r)) (rules ps) with
  | None => None
  | Some rule =>
      Some (Held {| cr_decision := DECISION_PENDING; cr_reason := ""; cr_policy_rule := LocalRule.name rule;
                    cr_approval_id := rid |}
              {| as_agent_id := agent_id; as_action := action; as_condition_triggered := LocalRule.name rule;
                 as_timeout_secs := LocalRule.approval_timeout_secs rule |})
  end.

Definition evaluate_local (ps : PolicyRules) (q : Query) (rid : string) : QueryOutcome :=
  let action := action_str (ca_action_type (qy_action q)) in
  match try_local_approval ps action (default EmptyString (qy_agent_id q)) rid with
  | Some held => held
  | None =>
      match find (λ r, listed action (LocalRule.blocked_actions r)) (rules ps) with
      | Some rule =>
          Answered {| cr_decision := DECISION_DENY;
                      cr_reason := ("blocked by rule: " ++ LocalRule.name rule)%string;
                      cr_policy_rule := LocalRule.name rule; cr_approval_id := "" |}
      | None => Answered (respond DECISION_ALLOW "")
      end
  end.

(** ** The query *)

Definition handle_policy_query (stores : list OpControlStore) (gate : option LeaseGate) (call : GatewayCall)
    (fail_closed : bool) (ps : PolicyRules) (agent_id : string) (q : Query) (now : Z) (rid : string)
  : QueryOutcome :=
  match op_control_halts stores (halt_op_ids agent_id (qy_trace_id q) (qy_span_id q)) with
  | None => Waiting
  | Some true =>
      Answered (respond DECISION_DENY "OpTerminatedError: operator terminated this op via the live kill switch")
  | Some false =>
      match match gate with Some g => enforce g agent_id (qy_action q) now | None => Ok tt end with
      | Err _ => Answered (respond DECISION_DENY "capability lease required")
      | Ok _ =>
          match call with
          | Replied r => Answered (normalize_gateway_decision r)
          | CallFailed =>
              if fail_closed
              then Answered (respond DECISION_DENY "gateway unreachable; denied by fail-closed policy")
              else evaluate_local ps q rid
          | NoClient => evaluate_local ps q rid
          end
      end
  end.

(** The gate governed mode installs. *)
Definition governed_gate (g : PolicyLeaseGate) : LeaseGate := λ subject req now, Some (gate_check g subject req now).
