(* ===== verification/OpControlProps.v ===== *)
(** * OpControlProps: what an operator's signal achieves

    The kill switch from the operator's call to the answer of the runtime, the simulation
    between the gateway's registry and the runtime's store, the binding of control messages
    to the subject they arrive on, and three places where the routing gives way. *)

From stdpp Require Import base gmap strings list relations.
From Stdlib Require Import ZArith Lia Bool Ascii String.
From S2P Require Import Prelude.
From S2P Require Import Text.
From S2P Require Import Governed.
From S2P Require Import OpControl.
From S2P Require Import RuntimeQuery.

Open Scope Z_scope.
Open Scope aasm_scope.

(** ** The store *)

Lemma read_to_i32 s : Signal.read (Signal.to_i32 s) = s.
Proof. by destruct s. Qed.

Lemma try_from_to_i32 s : Signal.try_from (Signal.to_i32 s) = Some s.
Proof. by destruct s. Qed.

Lemma store_apply_other st k k' s : k ≠ k' → fst (store_apply st k s) !! k' = st !! k'.
Proof.
  intros Hne. destruct s; simpl; repeat case_match; simpl; simplify_map_eq; done.
Qed.

Lemma store_apply_same st k s :
  fst (store_apply st k s) !! k =
  match s, st !! k with
  | Signal.Unspecified, x => x
  | _, Some Halt.Terminated | Signal.Terminate, _ => Some Halt.Terminated
  | Signal.Pause, _ => Some Halt.Paused
  | Signal.Resume, _ => None
  end.
Proof. destruct s; simpl; destruct (st !! k) as [[]|] eqn:E; simpl; simplify_map_eq; done. Qed.

Lemma receive_app st l l' : receive st (l ++ l') = receive (receive st l) l'.
Proof. unfold receive. by rewrite foldl_app. Qed.

Lemma receive_cons st m l :
  receive st (m :: l) = receive (fst (store_apply st (om_op_id m) (Signal.read (om_signal m)))) l.
Proof. done. Qed.

(** A termination is never undone. *)
Lemma receive_terminated st l k : st !! k = Some Halt.Terminated → receive st l !! k = Some Halt.Terminated.
Proof.
  revert st. induction l as [|m l IH]; intros st Hk; [done|]. rewrite receive_cons. apply IH.
  destruct (decide (om_op_id m = k)) as [<-|Hne]; [|by rewrite store_apply_other].
  rewrite store_apply_same, Hk. by destruct (Signal.read (om_signal m)).
Qed.

Lemma receive_terminates st l m :
  m ∈ l → om_signal m = Signal.to_i32 Signal.Terminate → receive st l !! om_op_id m = Some Halt.Terminated.
Proof.
  intros (l1 & l2 & ->)%list_elem_of_split Hs. rewrite receive_app, receive_cons.
  apply receive_terminated. rewrite store_apply_same, Hs. by destruct (_ !! _) as [[]|].
Qed.

(** ** The check *)

Lemma halt_scan_spec st paused ids :
  match halt_scan st paused ids with
  | Scan.Halted k => k ∈ ids ∧ st !! k = Some Halt.Terminated
  | Scan.Waiting k => (∀ i, i ∈ ids → st !! i ≠ Some Halt.Terminated) ∧
                      (paused = Some k ∨ k ∈ ids ∧ st !! k = Some Halt.Paused)
  | Scan.Runnable => paused = None ∧ ∀ i, i ∈ ids → st !! i = None
  end.
Proof.
  revert paused. induction ids as [|i ids IH]; intros paused; simpl.
  { destruct paused; simpl; [split; [by intros ? ?%not_elem_of_nil|by left]|].
    split; [done|]. by intros ? ?%not_elem_of_nil. }
  destruct (st !! i) as [[]|] eqn:Hi.
  - specialize (IH (match paused with None => Some i | Some _ => paused end)).
    destruct (halt_scan _ _ _).
    + destruct IH. by split; [right|].
    + destruct IH as [Hn Hk]. split.
      * intros j [->|Hj]%elem_of_cons; [congruence|by apply Hn].
      * destruct Hk as [Hk|[? ?]]; [|by right; split; [right|]].
        destruct paused; [by left|]. injection Hk as <-. right. by split; [left|].
    + destruct IH as [? _]. by destruct paused.
  - by split; [left|].
  - specialize (IH paused). destruct (halt_scan _ _ _).
    + destruct IH. by split; [right|].
    + destruct IH as [Hn Hk]. split.
      * intros j [->|Hj]%elem_of_cons; [congruence|by apply Hn].
      * destruct Hk as [Hk|[? ?]]; [by left|]. right. by split; [right|].
    + destruct IH as [-> Hn]. split; [done|]. intros j [->|Hj]%elem_of_cons; [done|by apply Hn].
Qed.

Lemma terminated_halts st stores ids k :
  k ∈ ids → st !! k = Some Halt.Terminated → op_control_halts (st :: stores) ids = Some true.
Proof.
  intros Hk Ht. simpl. pose proof (halt_scan_spec st None ids) as H. destruct (halt_scan st None ids).
  - done.
  - destruct H as [Hn _]. by destruct (Hn k Hk).
  - destruct H as [_ Hn]. rewrite Hn in Ht by done. done.
Qed.

(** A check proceeds exactly when, at the first wake-up without a paused key, no key has a
    signal. *)
Lemma op_control_halts_false stores ids :
  op_control_halts stores ids = Some false → ∃ st, st ∈ stores ∧ ∀ k, k ∈ ids → st !! k = None.
Proof.
  induction stores as [|st stores IH]; simpl; [done|].
  pose proof (halt_scan_spec st None ids) as H. destruct (halt_scan st None ids); [done| |].
  - intros (st' & ? & ?)%IH. exists st'. by split; [right|].
  - intros _. exists st. by split; [left|apply H].
Qed.

(** ** The kill switch *)

(** A halt is for one agent or, without a target, for the whole fleet. *)
Definition is_halt (target : option ProtoAgentId) (signal : Signal.t) (e : OpControlEnvelope) : Prop :=
  om_signal (oe_message e) = Signal.to_i32 signal ∧
  match target with
  | Some agent => oe_agent_id e = agent ∧ om_op_id (oe_message e) = agent_halt_op_id (pa_agent_id agent)
  | None => oe_global e = true ∧ om_op_id (oe_message e) = GLOBAL_HALT_OP_ID
  end.

(** The halts that concern a runtime which subscribes as [subscriber] and calls itself [me]. *)
Definition concerns (subscriber : ProtoAgentId) (me : string) (target : option ProtoAgentId) : Prop :=
  match target with Some agent => agent = subscriber ∧ pa_agent_id agent = me | None => True end.

Lemma halt_admitted subscriber me target signal e :
  concerns subscriber me target → is_halt target signal e → stream_admits subscriber e = true.
Proof.
  unfold stream_admits. destruct target as [agent|]; intros Hc [_ [Ha _]]; [|by rewrite Ha].
  destruct Hc as [-> _]. rewrite Ha, !String.eqb_refl. apply orb_true_r.
Qed.

Lemma halt_key subscriber me target signal e trace span :
  concerns subscriber me target → is_halt target signal e →
  om_op_id (oe_message e) ∈ halt_op_ids me trace span.
Proof.
  unfold halt_op_ids. destruct target as [agent|]; intros Hc [_ [_ ->]]; [|left].
  destruct Hc as [_ ->]. right. left.
Qed.

(** Whoever received the halt answers every later query with a refusal. *)
Lemma received_halt_denies subscriber me target e received st0 stores gate call fail_closed ps q now rid :
  e ∈ received → concerns subscriber me target → is_halt target Signal.Terminate e →
  ∃ reason,
    handle_policy_query (receive st0 (op_control_stream subscriber received) :: stores) gate call fail_closed ps
      me q now rid = Answered (respond DECISION_DENY reason).
Proof.
  intros Hin Hc He. eexists. unfold handle_policy_query.
  rewrite (terminated_halts _ _ _ (om_op_id (oe_message e))); [reflexivity|by eapply halt_key|].
  apply receive_terminates; [|by destruct He]. unfold op_control_stream.
  apply list_elem_of_In, in_map, list_elem_of_In, list_elem_of_filter. split; [by eapply halt_admitted|done].
Qed.

Lemma send_sent p agent op_id s global : ∃ e, ocp_sent (send_envelope p agent op_id s global) = ocp_sent p ++ [e] ∧
  oe_agent_id e = agent ∧ om_op_id (oe_message e) = op_id ∧ om_signal (oe_message e) = Signal.to_i32 s ∧
  oe_global e = global.
Proof. by eexists. Qed.

(** The bridge only ever adds to what was sent, and forwards what the publisher stored. *)
Lemma bridge_message_grows p m e : e ∈ ocp_sent p → e ∈ ocp_sent (bridge_message p m).
Proof.
  intros H. unfold bridge_message, forward_to_broadcast, publish_global_halt, publish.
  repeat case_match; simpl; try done; apply elem_of_app; by left.
Qed.

Lemma bridge_grows p stream e : e ∈ ocp_sent p → e ∈ ocp_sent (bridge_once p stream).
Proof.
  unfold bridge_once. revert p. induction stream as [|m l IH]; intros p H; simpl; [done|].
  by apply IH, bridge_message_grows.
Qed.

Lemma authorizes_own e : subject_authorizes_envelope (subject_for e) e = true.
Proof. unfold subject_authorizes_envelope. destruct (ow_global e) eqn:Hg; [|by rewrite String.eqb_refl].
  unfold subject_for. rewrite Hg. by rewrite String.eqb_refl. Qed.

Definition wire_halt (target : option ProtoAgentId) (signal : Signal.t) : OpControlWireEnvelope :=
  match target with Some agent => wire_agent_halt agent signal | None => wire_global_halt signal end.

Lemma bridge_forwards p stream target signal :
  signal ≠ Signal.Unspecified → store_message (wire_halt target signal) ∈ stream →
  ∃ e, e ∈ ocp_sent (bridge_once p stream) ∧ is_halt target signal e.
Proof.
  intros Hs (l1 & l2 & ->)%list_elem_of_split. unfold bridge_once. rewrite foldl_app. simpl.
  set (p1 := foldl bridge_message p l1).
  assert (∃ e, e ∈ ocp_sent (bridge_message p1 (store_message (wire_halt target signal))) ∧ is_halt target signal e)
    as (e & He & Hh).
  { unfold bridge_message, store_message. simpl. rewrite authorizes_own. unfold forward_to_broadcast.
    assert (ow_signal (wire_halt target signal) = Signal.to_i32 signal) as -> by (by destruct target).
    rewrite try_from_to_i32. destruct target as [[]|], signal; try done;
      (eexists; split; [apply elem_of_app; right; left|by split]). }
  exists e. split; [by apply bridge_grows|done].
Qed.

(** An operator's halt was delivered: the registry's own broadcast took it, or it is in the
    stream that the bridge of the process has read. *)
Definition halt_delivered (g : OpsRegistry) (target : option ProtoAgentId) (signal : Signal.t)
    (p : OpControlPublisher) : Prop :=
  og_nats g = None ∧
    match target with
    | Some agent => halt_agent_delivery g agent signal
    | None => halt_global_delivery g signal
    end = (with_publisher g p, Delivered) ∨
  ∃ p0 stream, store_message (wire_halt target signal) ∈ stream ∧ p = bridge_once p0 stream.

Lemma delivered_sent g target signal p :
  signal ≠ Signal.Unspecified → halt_delivered g target signal p → ∃ e, e ∈ ocp_sent p ∧ is_halt target signal e.
Proof.
  intros Hs [[Hn Hd]|(p0 & stream & Hin & ->)]; [|by apply bridge_forwards].
  unfold halt_agent_delivery, halt_global_delivery, halt_agent, halt_global in Hd. rewrite Hn in Hd.
  destruct (og_publisher g) as [p1|]; [|by destruct target].
  destruct target; injection Hd as <-; simpl; (eexists; split; [apply elem_of_app; right; left|by split]).
Qed.

(** Whether the runtime subscribes under the id it was given for itself. *)
Lemma subscribed_id cfg subscriber credential :
  spawn_op_control cfg = Some (subscriber, credential) →
  pa_agent_id subscriber = rc_agent_id cfg ↔ credential = None ∨ rc_gateway_agent_id cfg = Some (rc_agent_id cfg).
Proof.
  unfold spawn_op_control. destruct (rc_gateway_endpoint cfg); [|done].
  destruct (rc_gateway_credential_token cfg), (rc_gateway_agent_id cfg); intros [= <- <-]; simpl;
    split; first [by intros; left | by intros [?|[= ->]] | by intros ->; right | done].
Qed.

(** C13: a termination that was delivered, over the in-process broadcast or through the other
    process's stream and the bridge, ends the runtimes it concerns: a global one every
    runtime, and an agent-wide one the runtime that subscribes under that identity, provided
    it subscribes without a credential or with a credential issued for the id the runtime was
    given for itself.  Once such a runtime has received what was sent, the
    answer to every query is a refusal, whatever trace the query claims, whatever was
    received besides, and whatever the lease gate, the gateway and the local rules say. *)
Theorem kill_switch_reaches_agent g cfg subscriber credential target p received st0 stores gate call fail_closed ps q now rid :
  spawn_op_control cfg = Some (subscriber, credential) →
  (∀ agent, target = Some agent →
     agent = subscriber ∧ (credential = None ∨ rc_gateway_agent_id cfg = Some (rc_agent_id cfg))) →
  halt_delivered g target Signal.Terminate p → (∀ e, e ∈ ocp_sent p → e ∈ received) →
  ∃ reason,
    handle_policy_query (receive st0 (op_control_stream subscriber received) :: stores) gate call fail_closed ps
      (rc_agent_id cfg) q now rid = Answered (respond DECISION_DENY reason).
Proof.
  intros Hspawn Hc (e & He & Hh)%delivered_sent Hrec; [|done]. eapply received_halt_denies; [by apply Hrec| |done].
  destruct target as [agent|]; [|done]. destruct (Hc agent eq_refl) as [-> Hid]. split; [done|].
  by apply (subscribed_id cfg subscriber credential).
Qed.

(** ** The registry and the store *)

(** The ids the halts use. *)
Definition reserved (op_id : string) : bool := String.eqb op_id GLOBAL_HALT_OP_ID || starts_with op_id "agent:".

Definition op_id_of (trace span : string) : string := (trace ++ ":" ++ span)%string.

(** How much a recorded state asks of the runtime. *)
Definition restricts (s : Live.OpState) (held : option Halt.OpState) : Prop :=
  match s with
  | Live.Terminated => held = Some Halt.Terminated
  | Live.Paused => held ≠ None
  | _ => True
  end.

(** The store of an agent's runtime that received everything sent so far. *)
Definition runtime_store (agent : ProtoAgentId) (p : OpControlPublisher) : OpControlStore :=
  receive ∅ (op_control_stream agent (ocp_sent p)).

Lemma runtime_store_send agent p to op_id s global k :
  runtime_store agent (send_envelope p to op_id s global) !! k =
  if decide (op_id = k ∧ stream_admits agent {| oe_agent_id := to;
       oe_message := {| om_op_id := op_id; om_signal := Signal.to_i32 s; om_sequence := ocp_sequence p |};
       oe_global := global |} = true)
  then fst (store_apply (runtime_store agent p) k s) !! k
  else runtime_store agent p !! k.
Proof.
  unfold runtime_store, op_control_stream, send_envelope. simpl. rewrite filter_app, map_app, receive_app.
  set (e := {| oe_agent_id := to; oe_message := _; oe_global := global |}).
  destruct (decide (stream_admits agent e = true)) as [Ha|Ha].
  - rewrite (filter_cons_True _ e) by done. simpl. rewrite read_to_i32.
    case_decide as Hd; [by destruct Hd as [-> _]|].
    apply store_apply_other. intros ->. by apply Hd.
  - rewrite (filter_cons_False _ e) by done. simpl. rewrite decide_False; [done|]. by intros [_ ?].
Qed.

Section Mirror.
Context (to_rfc3339 : Z → string) (parse_rfc3339 : string → option Z).
(** The agent that each operation belongs to. *)
Context (owner : string → ProtoAgentId).

Abbreviation check_op := (check_op to_rfc3339).
Abbreviation allow := (allow to_rfc3339).
Abbreviation pause := (pause to_rfc3339).
Abbreviation resume := (resume to_rfc3339).
Abbreviation complete := (complete to_rfc3339).
Abbreviation terminate := (terminate to_rfc3339).
Abbreviation sweep := (sweep parse_rfc3339).

(** What happens to the registry when every check of an operation comes from its owner. *)
Inductive ops_step (g : OpsRegistry) : OpsRegistry → Prop :=
| step_check req decision now :
    oq_agent_id req = Some (owner (op_id_of (oq_trace_id req) (oq_span_id req))) →
    ops_step g (check_op g req decision now)
| step_pause op_id now : ops_step g (fst (pause g op_id now))
| step_resume op_id now : ops_step g (fst (resume g op_id now))
| step_complete op_id now : ops_step g (fst (complete g op_id now))
| step_terminate op_id now : ops_step g (fst (terminate g op_id now))
| step_sweep now ttl : ops_step g (fst (sweep g now ttl))
| step_halt_agent agent signal : ops_step g (fst (halt_agent g agent signal))
| step_halt_global signal : ops_step g (fst (halt_global g signal)).

Definition op_mirrored (g : OpsRegistry) (p : OpControlPublisher) (op_id : string) (r : OpRecord) : Prop :=
  og_agents g !! op_id = Some (owner op_id) ∧
  (reserved op_id = false → restricts (or_state r) (runtime_store (owner op_id) p !! op_id)).

Definition mirrored (g : OpsRegistry) : Prop :=
  ∃ p, og_publisher g = Some p ∧ ∀ op_id r, og_ops g !! op_id = Some r → op_mirrored g p op_id r.

(** A new state that asks nothing leaves the mirror. *)
Lemma mirrored_put g op_id r :
  mirrored g → og_agents g !! op_id = Some (owner op_id) →
  (or_state r ≠ Live.Terminated ∧ or_state r ≠ Live.Paused) → mirrored (put g op_id r).
Proof.
  intros (p & Hp & Hm) Ha [Ht Hpa]. exists p. split; [done|]. intros k r' Hk. simpl in Hk.
  destruct (decide (op_id = k)) as [<-|Hne].
  - rewrite lookup_insert_eq in Hk. injection Hk as <-. split; [done|]. intros _. by destruct (or_state r).
  - rewrite lookup_insert_ne in Hk by done. apply (Hm k r' Hk).
Qed.

(** Sending under an id that is not the operation's own, or to whom it belongs, keeps
    every mirror but that operation's. *)
Lemma mirrored_send g p to op_id s global r :
  og_publisher g = Some p →
  (∀ k r', k ≠ op_id → og_ops g !! k = Some r' → op_mirrored g p k r') →
  (og_ops g !! op_id = Some r → og_agents g !! op_id = Some (owner op_id) ∧
     (reserved op_id = false → to = owner op_id ∧
        restricts (or_state r) (fst (store_apply (runtime_store (owner op_id) p) op_id s) !! op_id))) →
  (og_ops g !! op_id = None ∨ og_ops g !! op_id = Some r) →
  mirrored (with_publisher g (send_envelope p to op_id s global)).
Proof.
  intros Hp Hother Hown Hr. eexists. split; [done|]. simpl. intros k r' Hk.
  destruct (decide (op_id = k)) as [<-|Hne].
  - destruct Hr as [Hr|Hr]; [congruence|]. rewrite Hr in Hk. injection Hk as <-.
    destruct (Hown Hr) as [Ha Hres]. split; [done|]. intros Hv. destruct (Hres Hv) as [-> Hx].
    rewrite runtime_store_send, decide_True; [done|]. split; [done|].
    unfold stream_admits. simpl. rewrite !String.eqb_refl. apply orb_true_r.
  - destruct (Hother k r' ltac:(done) Hk) as [Ha Hres]. split; [done|]. intros Hv.
    rewrite runtime_store_send, decide_False; [by apply Hres|]. by intros [? _].
Qed.

(** The move of an operation with its signal. *)
Lemma mirrored_move g op_id r s signal now :
  mirrored g → og_ops g !! op_id = Some r →
  (∀ held, restricts s (match signal, held with
     | Signal.Unspecified, x => x
     | _, Some Halt.Terminated | Signal.Terminate, _ => Some Halt.Terminated
     | Signal.Pause, _ => Some Halt.Paused
     | Signal.Resume, _ => None
     end)) →
  mirrored (maybe_publish (put g op_id (moved to_rfc3339 r s now)) op_id signal).
Proof.
  intros (p & Hp & Hm) Hr Hs. destruct (Hm op_id r Hr) as [Ha _]. unfold maybe_publish, put. simpl.
  rewrite Hp, Ha. eapply (mirrored_send _ _ _ _ _ _ (moved to_rfc3339 r s now)); simpl.
  - done.
  - intros k r' Hne Hk. rewrite lookup_insert_ne in Hk by done. apply (Hm k r' Hk).
  - intros _. split; [done|]. intros _. split; [done|]. rewrite store_apply_same. apply Hs.
  - right. by rewrite lookup_insert_eq.
Qed.

Lemma mirrored_terminate g op_id now : mirrored g → mirrored (fst (terminate g op_id now)).
Proof.
  intros Hm. unfold OpControl.terminate. destruct (og_ops g !! op_id) as [r|] eqn:Hr; [|done].
  destruct (or_state r); simpl; try done; by eapply mirrored_move; [done..|intros [[]|]].
Qed.

Lemma mirrored_allow g op_id now : mirrored g → mirrored (fst (allow g op_id now)).
Proof.
  intros Hm. unfold OpControl.allow. destruct (og_ops g !! op_id) as [r|] eqn:Hr; [|done].
  destruct (or_state r); simpl; try done. apply mirrored_put; [done| |done].
  destruct Hm as (p & _ & Hm). apply (Hm op_id r Hr).
Qed.

Lemma mirrored_ingest g op_id now :
  mirrored g → mirrored (fst (ingest_with_agent to_rfc3339 g op_id (owner op_id) now)).
Proof.
  intros (p & Hp & Hm). unfold ingest_with_agent, ingest, admit_op. simpl.
  assert (mirrored (set_agents g (<[op_id := owner op_id]> (og_agents g)))) as Hm'.
  { exists p. split; [done|]. simpl. intros k r Hk. destruct (Hm k r Hk) as [Ha Hres]. split; [|done]. simpl.
    destruct (decide (op_id = k)) as [<-|]; [by rewrite lookup_insert_eq|by rewrite lookup_insert_ne]. }
  destruct (og_ops g !! op_id); simpl; [done|]. apply (mirrored_put (set_agents g (<[op_id := owner op_id]> (og_agents g))) op_id); [done| |done].
  simpl. by rewrite lookup_insert_eq.
Qed.

Lemma mirrored_sweep_one now ttl acc op_id :
  mirrored (fst acc) → mirrored (fst (sweep_one parse_rfc3339 now ttl acc op_id)).
Proof.
  destruct acc as [g n]. simpl. intros (p & Hp & Hm). destruct (og_ops g !! op_id) as [r|] eqn:Hr; [|by exists p].
  destruct (too_old _ _ _ _); [|by exists p]. exists p. split; [done|]. simpl. intros k r' Hk.
  apply lookup_delete_Some in Hk as [Hne Hk]. destruct (Hm k r' Hk) as [Ha Hres]. split; [|done]. simpl.
  by rewrite lookup_delete_ne.
Qed.

Lemma mirrored_sweep now ttl acc keys :
  mirrored (fst acc) → mirrored (fst (foldl (sweep_one parse_rfc3339 now ttl) acc keys)).
Proof.
  revert acc. induction keys as [|k keys IH]; intros acc Hm; simpl; [done|].
  by apply IH, mirrored_sweep_one.
Qed.

Lemma reserved_agent a : reserved (agent_halt_op_id a) = true.
Proof.
  unfold reserved, agent_halt_op_id. rewrite (starts_with_app "agent:" a). apply orb_true_r.
Qed.

Lemma mirrored_halt g p to op_id s global :
  reserved op_id = true → og_publisher g = Some p → mirrored g →
  mirrored (with_publisher g (send_envelope p to op_id s global)).
Proof.
  intros Hv Hp (p' & Hp' & Hm). rewrite Hp in Hp'. injection Hp' as <-.
  destruct (og_ops g !! op_id) as [r|] eqn:Hr.
  - apply (mirrored_send g p to op_id s global r); [done|by intros; apply Hm| |by right].
    intros _. split; [by apply (Hm op_id r Hr)|]. by rewrite Hv.
  - apply (mirrored_send g p to op_id s global
             {| or_op_id := op_id; or_state := Live.Running; or_registered_at := ""; or_updated_at := "" |});
      [done|by intros; apply Hm|congruence|by left].
Qed.

Lemma mirrored_step g g' : mirrored g → ops_step g g' → mirrored g'.
Proof.
  intros Hm Hs. destruct Hs as [req decision now Ha|op_id now|op_id now|op_id now|op_id now|now ttl|agent s|s].
  - unfold OpControl.check_op, ingest_op. destruct (is_empty (oq_trace_id req)); [done|]. rewrite Ha.
    change (oq_trace_id req ++ ":" ++ oq_span_id req)%string with (op_id_of (oq_trace_id req) (oq_span_id req)).
    pose proof (mirrored_ingest g (op_id_of (oq_trace_id req) (oq_span_id req)) now Hm) as Hi.
    unfold settle_op. repeat case_match; auto using mirrored_allow, mirrored_terminate.
  - unfold OpControl.pause. destruct (og_ops g !! op_id) as [r|] eqn:Hr; [|done].
    destruct (or_state r); simpl; try done. by eapply mirrored_move; [done..|intros [[]|]].
  - unfold OpControl.resume. destruct (og_ops g !! op_id) as [r|] eqn:Hr; [|done].
    destruct (or_state r); simpl; try done. by eapply mirrored_move; [done..|intros [[]|]].
  - unfold OpControl.complete. destruct (og_ops g !! op_id) as [r|] eqn:Hr; [|done].
    destruct (or_state r); simpl; try done. apply mirrored_put; [done| |done].
    destruct Hm as (p & _ & Hm). apply (Hm op_id r Hr).
  - by apply mirrored_terminate.
  - by apply (mirrored_sweep now ttl (g, 0%nat)).
  - unfold halt_agent. destruct (og_publisher g) as [p|] eqn:Hp; [|done].
    apply mirrored_halt; [apply reserved_agent|done|done].
  - unfold halt_global. destruct (og_publisher g) as [p|] eqn:Hp; [|done]. by apply mirrored_halt.
Qed.

Definition fresh_registry : OpsRegistry := with_publisher registry_new publisher_new.

Lemma mirrored_reachable g : rtc ops_step fresh_registry g → mirrored g.
Proof.
  intros H. assert (mirrored fresh_registry) as Hi.
  { eexists. split; [done|]. intros k r Hk. simpl in Hk. by rewrite lookup_empty in Hk. }
  revert Hi. induction H as [|g1 g2 g3 H12 _ IH]; [done|]. intros Hm. apply IH. by eapply mirrored_step.
Qed.

(** C14: along any sequence of checks, each by the owner of its operation, operator
    transitions, sweeps and halts, a runtime that subscribes as the owner of an operation and
    has received what was sent is at least as restrictive as the registry, whatever id it
    uses for itself: a query that names the trace and span of an operation the registry holds
    terminated is refused, and one of an operation it holds paused is refused or waits.  The
    trace is not empty, and the operation's id is not one the halts use: not the star and
    without the prefix agent and a colon. *)
Theorem runtime_mirrors_registry g p trace span r gate call fail_closed ps me q now rid :
  rtc ops_step fresh_registry g → og_publisher g = Some p →
  og_ops g !! op_id_of trace span = Some r → reserved (op_id_of trace span) = false →
  is_empty trace = false → qy_trace_id q = trace → qy_span_id q = span →
  let agent := owner (op_id_of trace span) in
  let answer := handle_policy_query [runtime_store agent p] gate call fail_closed ps me q now rid in
  let refused := ∃ reason, answer = Answered (respond DECISION_DENY reason) in
  (or_state r = Live.Terminated → refused) ∧ (or_state r = Live.Paused → refused ∨ answer = Waiting).
Proof.
  intros Hreach Hp Hr Hv Ht <- <-. simpl.
  destruct (mirrored_reachable g Hreach) as (p' & Hp' & Hm). rewrite Hp in Hp'. injection Hp' as <-.
  destruct (Hm _ r Hr) as [_ Hres]. specialize (Hres Hv).
  set (agent := owner (op_id_of (qy_trace_id q) (qy_span_id q))) in *.
  assert (op_id_of (qy_trace_id q) (qy_span_id q) ∈
            halt_op_ids me (qy_trace_id q) (qy_span_id q)) as Hin.
  { unfold halt_op_ids. rewrite Ht. right. right. left. }
  unfold handle_policy_query. cbn [op_control_halts].
  pose proof (halt_scan_spec (runtime_store agent p) None
                (halt_op_ids me (qy_trace_id q) (qy_span_id q))) as Hscan.
  destruct (halt_scan _ _ _); (split; intros Hst; rewrite Hst in Hres; simpl in Hres).
  - by eexists.
  - left. by eexists.
  - destruct Hscan as [Hn _]. by destruct (Hn _ Hin).
  - by right.
  - destruct Hscan as [_ Hn]. by rewrite (Hn _ Hin) in Hres.
  - destruct Hscan as [_ Hn]. by rewrite (Hn _ Hin) in Hres.
Qed.
End Mirror.

(** ** Subjects *)

Lemma byte_char_inj b b' :
  0 ≤ b < 256 → 0 ≤ b' < 256 → ascii_of_N (Z.to_N b) = ascii_of_N (Z.to_N b') → b = b'.
Proof.
  intros Hb Hb' H%(f_equal N_of_ascii). rewrite !N_ascii_embedding in H by lia. lia.
Qed.

Lemma code_of_byte b : 0 ≤ b < 256 → code (ascii_of_N (Z.to_N b)) = b.
Proof. intros Hb. unfold code. rewrite N_ascii_embedding by lia. lia. Qed.

Lemma upper_hex_inj n m : 0 ≤ n < 16 → 0 ≤ m < 16 → upper_hex_digit n = upper_hex_digit m → n = m.
Proof.
  intros Hn Hm H. unfold upper_hex_digit in H.
  destruct (Z.ltb_spec n 10), (Z.ltb_spec m 10); apply byte_char_inj in H; lia.
Qed.

(** A byte's token can be told apart from what follows it. *)
Lemma sanitize_byte_inj b b' r r' :
  0 ≤ b < 256 → 0 ≤ b' < 256 →
  String.append (sanitize_byte b) r = String.append (sanitize_byte b') r' → b = b' ∧ r = r'.
Proof.
  intros Hb Hb'. unfold sanitize_byte.
  assert (∀ x, 0 ≤ x < 256 → passes x = true → ascii_of_N (Z.to_N x) ≠ "_"%char) as Hu.
  { intros x Hx Hp He%(f_equal code). rewrite code_of_byte in He by done. change (code "_") with 95 in He. by subst. }
  destruct (passes b) eqn:Hp, (passes b') eqn:Hp'; simpl; intros H; injection H.
  - intros -> Hc. split; [|done]. by apply byte_char_inj.
  - intros _ Hc. by destruct (Hu b Hb Hp).
  - intros _ Hc. by destruct (Hu b' Hb' Hp').
  - assert (∀ x, 0 ≤ x < 256 → 0 ≤ x / 16 < 16 ∧ 0 ≤ x mod 16 < 16) as Hr.
    { intros x Hx. split; [split; [apply Z.div_pos; lia|apply Z.div_lt_upper_bound; lia]|].
      apply Z.mod_pos_bound. lia. }
    destruct (Hr b Hb), (Hr b' Hb'). intros -> Hl Hh. apply upper_hex_inj in Hl; [|done..].
    apply upper_hex_inj in Hh; [|done..].
    split; [|done]. rewrite (Z.div_mod b 16), (Z.div_mod b' 16) by lia. lia.
Qed.

(** Distinct identifiers have distinct tokens. *)
Lemma sanitize_token_inj s t : sanitize_token s = sanitize_token t → s = t.
Proof.
  intros H. apply utf8_bytes_inj. unfold sanitize_token in H.
  pose proof (utf8_bytes_range s) as Hs. pose proof (utf8_bytes_range t) as Ht.
  revert H Hs Ht. generalize (utf8_bytes s) (utf8_bytes t). clear.
  intros l. induction l as [|b l IH]; intros [|b' l']; simpl; intros H Hs Ht; try done.
  - exfalso. revert H. unfold sanitize_byte. by destruct (passes b').
  - exfalso. revert H. unfold sanitize_byte. by destruct (passes b).
  - apply sanitize_byte_inj in H as [-> H]; [|apply Hs; left|apply Ht; left].
    f_equal. apply IH; [done|intros; apply Hs; by right|intros; apply Ht; by right].
Qed.

Lemma sanitize_token_empty s : is_empty (sanitize_token s) = is_empty s.
Proof.
  destruct s as [|c s]; [done|]. unfold sanitize_token. simpl.
  destruct (code c <? 128); simpl; unfold sanitize_byte; by destruct (passes _).
Qed.

Lemma upper_hex_not_dot n : 0 ≤ n < 16 → upper_hex_digit n ≠ "."%char.
Proof.
  intros Hn He%(f_equal code). unfold upper_hex_digit in He. change (code ".") with 46 in He.
  destruct (Z.ltb_spec n 10); rewrite code_of_byte in He; lia.
Qed.

Lemma lacks_cons c c' s : lacks c (String c' s) = (if ascii_dec c' c then false else true) && lacks c s.
Proof. done. Qed.

Lemma sanitize_token_lacks s : lacks "." (sanitize_token s) = true.
Proof.
  unfold sanitize_token. pose proof (utf8_bytes_range s) as Hs. revert Hs. generalize (utf8_bytes s). clear.
  induction l as [|b l IH]; intros Hs; [done|]. simpl. rewrite lacks_app, IH by (intros; apply Hs; by right).
  rewrite andb_true_r. specialize (Hs b ltac:(left)).
  unfold sanitize_byte. destruct (passes b) eqn:Hp; rewrite !lacks_cons.
  - destruct (ascii_dec _ _) as [He%(f_equal code)|]; [|done]. rewrite code_of_byte in He by done.
    change (code ".") with 46 in He. by subst.
  - pose proof (Z.mod_pos_bound b 16 ltac:(lia)).
    assert (0 ≤ b / 16 < 16) by (split; [apply Z.div_pos; lia|apply Z.div_lt_upper_bound; lia]).
    destruct (ascii_dec (upper_hex_digit (b / 16)) "."); [by destruct (upper_hex_not_dot (b / 16))|].
    destruct (ascii_dec (upper_hex_digit (b mod 16)) "."); [by destruct (upper_hex_not_dot (b mod 16))|]. done.
Qed.

Lemma subject_tenant_lacks e : lacks "." (subject_tenant e) = true.
Proof. unfold subject_tenant. repeat case_match; first [apply sanitize_token_lacks|done]. Qed.

(** The subject of an agent's message determines its two parts. *)
Lemma subject_parts e e' :
  ow_global e = false → ow_global e' = false → subject_for e = subject_for e' →
  subject_tenant e = subject_tenant e' ∧ subject_agent e = subject_agent e'.
Proof.
  unfold subject_for. intros -> ->. intros H. apply append_inj_l in H. simpl in H. injection H as H.
  pose proof (split_once_app "." (subject_tenant e) (subject_agent e) (subject_tenant_lacks e)) as H1.
  rewrite H in H1. rewrite (split_once_app "." _ _ (subject_tenant_lacks e')) in H1. by injection H1 as -> ->.
Qed.

Lemma subject_not_global e : ow_global e = false → subject_for e ≠ GLOBAL_SUBJECT.
Proof.
  unfold subject_for. intros ->.
  change GLOBAL_SUBJECT with (String.append SUBJECT_PREFIX (String "." "global")).
  intros H%append_inj_l. simpl in H. injection H as H.
  pose proof (split_once_app "." (subject_tenant e) (subject_agent e) (subject_tenant_lacks e)) as H1.
  by rewrite H in H1.
Qed.

(** The subject a control message arrives on bounds what the
    bridge lets it do: a fleet-wide halt is forwarded from the global subject only and
    nothing else is forwarded from it, and two messages forwarded from one subject, of
    agents with an organisation, name the same organisation and the same agent. *)
Theorem subject_binds_target subject e e' :
  subject_authorizes_envelope subject e = true → subject_authorizes_envelope subject e' = true →
  (ow_global e = true ↔ subject = GLOBAL_SUBJECT) ∧ ow_global e = ow_global e' ∧
  (ow_global e = false → ow_org_id e ≠ EmptyString → ow_org_id e' ≠ EmptyString →
   ow_agent_id e ≠ EmptyString → ow_agent_id e' ≠ EmptyString →
   ow_org_id e = ow_org_id e' ∧ ow_agent_id e = ow_agent_id e').
Proof.
  intros H H'.
  assert (∀ x, subject_authorizes_envelope subject x = true →
            (ow_global x = true ↔ subject = GLOBAL_SUBJECT) ∧ (ow_global x = false → subject_for x = subject)) as Hx.
  { intros x. unfold subject_authorizes_envelope. destruct (ow_global x) eqn:Hg; intros He%String.eqb_eq; [done|].
    split; [|done]. split; [done|]. intros Hs. destruct (subject_not_global x Hg). congruence. }
  destruct (Hx e H) as [Hg Hf], (Hx e' H') as [Hg' Hf']. split; [done|].
  assert (ow_global e = ow_global e') as Heq by (apply eq_true_iff_eq; tauto). split; [done|].
  intros Hne Ho Ho' Ha Ha'.
  assert (ow_global e' = false) as Hne' by congruence.
  destruct (subject_parts e e' Hne Hne' ltac:(by rewrite Hf, Hf')) as [Ht Hag].
  assert (∀ s, s ≠ EmptyString → is_empty s = false) as Hemp by (by intros []).
  unfold subject_tenant in Ht. unfold subject_agent in Hag.
  rewrite !sanitize_token_empty, (Hemp _ Ho), (Hemp _ Ho') in Ht.
  rewrite !sanitize_token_empty, (Hemp _ Ha), (Hemp _ Ha') in Hag.
  simpl in Ht. split; by apply sanitize_token_inj.
Qed.

(** Teams are not part of the boundary, and an agent without an organisation shares the
    subjects of the organisation named like its team: the bridge forwards either. *)
Lemma subject_shares_tenant org team team' agent op_id signal :
  org ≠ EmptyString →
  let e := {| ow_org_id := org; ow_team_id := team; ow_agent_id := agent; ow_op_id := op_id;
              ow_signal := signal; ow_global := false |} in
  let of_team := {| ow_org_id := org; ow_team_id := team'; ow_agent_id := agent; ow_op_id := op_id;
                    ow_signal := signal; ow_global := false |} in
  let without_org := {| ow_org_id := ""; ow_team_id := org; ow_agent_id := agent; ow_op_id := op_id;
                        ow_signal := signal; ow_global := false |} in
  subject_authorizes_envelope (subject_for e) of_team = true ∧
  subject_authorizes_envelope (subject_for e) without_org = true.
Proof.
  intros Ho. unfold subject_authorizes_envelope, subject_for, subject_tenant, subject_agent. simpl.
  rewrite sanitize_token_empty. destruct org; [done|]. simpl. by rewrite !String.eqb_refl.
Qed.

(** ** Where the routing gives way *)

Lemma runtime_store_unaddressed agent p to op_id s :
  to ≠ agent → runtime_store agent (send_envelope p to op_id s false) = runtime_store agent p.
Proof.
  intros Hne. apply map_eq. intros k. rewrite runtime_store_send, decide_False; [done|].
  intros [_ Ha]. apply Hne. unfold stream_admits in Ha. simpl in Ha. rewrite !andb_true_iff, !String.eqb_eq in Ha.
  destruct to, agent; simpl in *. by destruct Ha as [[-> ->] ->].
Qed.

(** Any agent can take over the routing of an operation
    by sending a check that names its trace and span: the registry keeps the record but
    records the sender as the owner, so that a later termination succeeds and its signal
    goes to the sender only, and the runtime of the agent that runs the operation hears
    nothing. *)
Theorem reingest_reroutes_signals to_rfc3339 g p r req intruder agent decision now now' :
  og_publisher g = Some p → is_empty (oq_trace_id req) = false →
  let op_id := op_id_of (oq_trace_id req) (oq_span_id req) in
  og_ops g !! op_id = Some r → or_state r = Live.Running →
  oq_agent_id req = Some intruder → intruder ≠ agent → decision ≠ DECISION_DENY →
  ∃ g' p', terminate to_rfc3339 (check_op to_rfc3339 g req decision now) op_id now' =
             (g', Ok (moved to_rfc3339 r Live.Terminated now')) ∧
           og_publisher g' = Some p' ∧ runtime_store agent p' = runtime_store agent p.
Proof.
  intros Hp Ht op_id Hr Hs Ha Hne Hd. unfold check_op, ingest_op. rewrite Ht, Ha.
  change (oq_trace_id req ++ ":" ++ oq_span_id req)%string with op_id.
  unfold ingest_with_agent, ingest, admit_op. simpl. rewrite Hr. cbn [fst].
  set (g1 := set_agents g _).
  assert ((if decision =? DECISION_ALLOW then fst (allow to_rfc3339 g1 op_id now)
           else if decision =? DECISION_DENY then fst (terminate to_rfc3339 g1 op_id now) else g1) = g1) as ->.
  { unfold allow. replace (og_ops g1 !! op_id) with (Some r) by (by rewrite <- Hr). rewrite Hs.
    destruct (decision =? DECISION_ALLOW); [done|]. by destruct (Z.eqb_spec decision DECISION_DENY). }
  unfold terminate. replace (og_ops g1 !! op_id) with (Some r) by (by rewrite <- Hr). rewrite Hs.
  unfold maybe_publish. simpl. rewrite Hp, lookup_insert_eq. do 2 eexists. split; [done|]. split; [done|].
  by apply runtime_store_unaddressed.
Qed.

Lemma agent_halt_op_id_inj a b : agent_halt_op_id a = agent_halt_op_id b → a = b.
Proof. unfold agent_halt_op_id. cbn [String.append]. by intros [= ->]. Qed.

Lemma halt_scan_congr st st' paused ids :
  (∀ k, k ∈ ids → st' !! k = st !! k) → halt_scan st' paused ids = halt_scan st paused ids.
Proof.
  revert paused. induction ids as [|i ids IH]; intros paused Hk; simpl; [done|].
  rewrite (Hk i) by left. assert (∀ k, k ∈ ids → st' !! k = st !! k) as Hk' by (intros; apply Hk; by right).
  destruct (st !! i) as [[]|]; auto.
Qed.

(** A runtime that subscribes with a credential for another id than the one it was given for
    itself is not reached by any agent-wide halt: the halt of its registered identity is
    stored under an id it does not look up, and the halt of the id it does look up is not
    sent to it.  Its answers are those it would have given without the halt. *)
Theorem credentialed_runtime_misses_halt cfg subscriber token agent signal p stores gate call fail_closed ps q now rid :
  spawn_op_control cfg = Some (subscriber, Some token) → rc_gateway_agent_id cfg ≠ Some (rc_agent_id cfg) →
  qy_trace_id q = EmptyString →
  handle_policy_query (runtime_store subscriber (publish_agent_halt p agent signal) :: stores) gate call fail_closed ps
    (rc_agent_id cfg) q now rid =
  handle_policy_query (runtime_store subscriber p :: stores) gate call fail_closed ps (rc_agent_id cfg) q now rid.
Proof.
  intros Hspawn Hid Ht. assert (pa_agent_id subscriber ≠ rc_agent_id cfg) as Hne.
  { rewrite (subscribed_id _ _ _ Hspawn). by intros [?|?]. }
  unfold handle_policy_query. cbn [op_control_halts].
  rewrite (halt_scan_congr (runtime_store subscriber p) (runtime_store subscriber (publish_agent_halt p agent signal)));
    [done|].
  rewrite Ht. intros k Hk. unfold publish_agent_halt, publish. rewrite runtime_store_send, decide_False; [done|].
  intros [<- Ha]. unfold stream_admits in Ha. simpl in Ha. rewrite !andb_true_iff, !String.eqb_eq in Ha.
  destruct Ha as [[Ha _] _]. apply Hne. rewrite <-Ha. unfold halt_op_ids in Hk. cbn [is_empty app] in Hk.
  apply elem_of_cons in Hk as [Hk|Hk]; [done|]. apply list_elem_of_singleton in Hk. by apply agent_halt_op_id_inj.
Qed.

(** The successive contents of the store while messages arrive. *)
Fixpoint store_trace (st : OpControlStore) (messages : list OpControlMessage) : list OpControlStore :=
  match messages with
  | [] => []
  | m :: rest =>
      let st' := fst (store_apply st (om_op_id m) (Signal.read (om_signal m))) in st' :: store_trace st' rest
  end.

(** The stored messages of agent-wide halts. *)
Definition agent_halts (agent : ProtoAgentId) (signals : list Signal.t) : list StoredMessage :=
  map (λ s, store_message (wire_agent_halt agent s)) signals.

Lemma bridge_halt p agent s :
  s ≠ Signal.Unspecified →
  bridge_message p (store_message (wire_agent_halt agent s)) = publish_agent_halt p agent s.
Proof.
  intros Hs. unfold bridge_message, store_message. simpl. rewrite authorizes_own.
  unfold forward_to_broadcast. simpl. rewrite try_from_to_i32. destruct agent. by destruct s.
Qed.


Lemma bridge_halts p agent signals :
  Forall (λ s, s ≠ Signal.Unspecified) signals →
  bridge_once p (agent_halts agent signals) = foldl (λ p s, publish_agent_halt p agent s) p signals.
Proof.
  unfold bridge_once, agent_halts. intros H. revert p. induction H as [|s l Hs _ IH]; intros p; simpl; [done|].
  by rewrite bridge_halt, IH.
Qed.

Lemma stream_admits_self agent m : stream_admits agent {| oe_agent_id := agent; oe_message := m; oe_global := false |} = true.
Proof. unfold stream_admits. simpl. by rewrite !String.eqb_refl. Qed.

Lemma runtime_store_halt agent p s :
  runtime_store agent (publish_agent_halt p agent s) =
  fst (store_apply (runtime_store agent p) (agent_halt_op_id (pa_agent_id agent)) s).
Proof.
  apply map_eq. intros k. unfold publish_agent_halt, publish. rewrite runtime_store_send, stream_admits_self.
  case_decide as Hd; [by destruct Hd as [-> _]|]. rewrite store_apply_other; [done|]. intros Hk. by apply Hd.
Qed.

(** A paused agent does not stay paused across a
    reconnection of the bridge: when the stream still holds a pause, its resume and a
    second pause, the agent is paused before and after the replay, but a check that waits
    on the pause wakes on the replayed resume and proceeds. *)
Theorem replay_releases_paused_check agent :
  let stream := agent_halts agent [Signal.Pause; Signal.Resume; Signal.Pause] in
  let p := bridge_once publisher_new stream in
  let p' := bridge_once p stream in
  let replayed := op_control_stream agent (drop (List.length (ocp_sent p)) (ocp_sent p')) in
  let key := agent_halt_op_id (pa_agent_id agent) in
  runtime_store agent p !! key = Some Halt.Paused ∧ runtime_store agent p' !! key = Some Halt.Paused ∧
  op_control_halts (runtime_store agent p :: store_trace (runtime_store agent p) replayed)
    (halt_op_ids (pa_agent_id agent) "" "") = Some false.
Proof.
  intros stream p p' replayed key.
  assert (∀ q, bridge_once q stream = publish_agent_halt (publish_agent_halt
            (publish_agent_halt q agent Signal.Pause) agent Signal.Resume) agent Signal.Pause) as Hb.
  { intros q. apply bridge_halts. by repeat constructor. }
  set (paused := {[key := Halt.Paused]} : OpControlStore).
  assert (delete key paused = ∅) as Hdel by apply delete_singleton_eq.
  assert (store_apply ∅ key Signal.Pause = (paused, Some Halt.Paused)) as Ha1 by done.
  assert (store_apply paused key Signal.Resume = (∅, None)) as Ha2.
  { unfold store_apply, paused. rewrite lookup_singleton_eq. by f_equal. }
  assert (store_apply paused key Signal.Pause = (paused, Some Halt.Paused)) as Ha3.
  { unfold store_apply, paused. rewrite lookup_singleton_eq. f_equal. apply insert_singleton_eq. }
  assert (runtime_store agent p = paused) as Hst.
  { unfold p. rewrite Hb, !runtime_store_halt. fold key. change (runtime_store agent publisher_new) with (∅ : OpControlStore).
    by rewrite Ha1; cbn [fst]; rewrite Ha2; cbn [fst]; rewrite Ha1. }
  assert (runtime_store agent p' = paused) as Hst'.
  { unfold p'. rewrite Hb, !runtime_store_halt, Hst. fold key.
    by rewrite Ha3; cbn [fst]; rewrite Ha2; cbn [fst]; rewrite Ha1. }
  assert (store_trace paused replayed = [paused; ∅; paused]) as Htr.
  { unfold replayed, p', op_control_stream. rewrite Hb. unfold publish_agent_halt, publish, send_envelope.
    cbn [ocp_sent]. rewrite <- !app_assoc, drop_app_length. cbn [app].
    repeat (rewrite filter_cons_True by apply stream_admits_self). rewrite filter_nil.
    cbn [map oe_message store_trace om_op_id om_signal]. rewrite !read_to_i32. fold key.
    by rewrite Ha3; cbn [fst]; rewrite Ha2; cbn [fst]; rewrite Ha1. }
  rewrite Hst, Hst', Htr. split; [apply lookup_singleton_eq|]. split; [apply lookup_singleton_eq|].
  assert (paused !! GLOBAL_HALT_OP_ID = None) as Hg by (by apply lookup_singleton_ne).
  assert (paused !! key = Some Halt.Paused) as Hk by apply lookup_singleton_eq.
  unfold halt_op_ids. cbn [is_empty app op_control_halts halt_scan]. fold key. by rewrite Hg, Hk, !lookup_empty.
Qed.

(** The reserved key of an agent is also the id of an
    operation: a check whose trace is the word agent and whose span is the agent's id is
    recorded under it, so that when policy denies that one action every later query of
    the agent is refused. *)
Theorem op_id_can_be_reserved to_rfc3339 p agent now stores gate call fail_closed ps q now' rid :
  let req := {| oq_trace_id := "agent"; oq_span_id := pa_agent_id agent; oq_agent_id := Some agent |} in
  let g := check_op to_rfc3339 (with_publisher registry_new p) req DECISION_DENY now in
  ∃ p' reason, og_publisher g = Some p' ∧
    handle_policy_query (runtime_store agent p' :: stores) gate call fail_closed ps
      (pa_agent_id agent) q now' rid = Answered (respond DECISION_DENY reason).
Proof.
  intros req g. unfold g, req, check_op, ingest_op. cbn [is_empty oq_trace_id oq_span_id oq_agent_id].
  change ("agent" ++ ":" ++ pa_agent_id agent)%string with (agent_halt_op_id (pa_agent_id agent)).
  unfold ingest_with_agent, ingest, admit_op. cbn [og_ops set_agents with_publisher registry_new og_agents].
  rewrite lookup_empty. unfold settle_op, terminate. cbn [fst og_ops set_ops Z.eqb DECISION_ALLOW DECISION_DENY Pos.eqb].
  rewrite lookup_insert_eq. unfold maybe_publish. cbn [or_state fst put og_publisher set_ops og_agents set_agents].
  rewrite lookup_insert_eq. cbn [with_publisher og_publisher]. eexists.
  destruct (received_halt_denies agent (pa_agent_id agent) (Some agent)
    {| oe_agent_id := agent; oe_message := {| om_op_id := agent_halt_op_id (pa_agent_id agent);
         om_signal := Signal.to_i32 Signal.Terminate; om_sequence := ocp_sequence p |}; oe_global := false |}
    (ocp_sent (publish_agent_halt p agent Signal.Terminate)) ∅ stores gate call fail_closed ps q now' rid) as [reason H].
  - simpl. apply elem_of_app. right. left.
  - done.
  - done.
  - exists reason. by split.
Qed.

(** ** Witnesses *)

Definition stamp (now : Z) : string := decimal (Z.to_N now).

Definition worker : ProtoAgentId := {| pa_org_id := "acme"; pa_team_id := "core"; pa_agent_id := "worker-1" |}.
Definition other_worker : ProtoAgentId := {| pa_org_id := "acme"; pa_team_id := "core"; pa_agent_id := "worker-2" |}.

Definition open_query (trace span : string) : Query :=
  {| qy_trace_id := trace; qy_span_id := span; qy_agent_id := None;
     qy_action := {| ca_action_type := TOOL_CALL; ca_tool_call := None |} |}.

Definition no_rules : PolicyRules := {| rules := [] |}.

(** The configuration of the runtime of [worker], with a credential or without. *)
Definition worker_identity (registered_as : option string) : RuntimeIdentity :=
  {| rc_agent_id := "worker-1"; rc_agent_org_id := "acme"; rc_agent_team_id := "core";
     rc_gateway_endpoint := Some "http://gateway"%string;
     rc_gateway_credential_token := option_map (λ _, "tok"%string) registered_as;
     rc_gateway_agent_id := registered_as |}.

(** Without a signal the query is allowed; after the halt it is refused, although it claims
    no trace. *)
Lemma kill_switch_reaches_agent_witness :
  handle_policy_query [∅] None NoClient true no_rules "worker-1" (open_query "" "") 0 "" =
    Answered (respond DECISION_ALLOW "") ∧
  ∃ reason,
    handle_policy_query [receive ∅ (op_control_stream worker
                           (ocp_sent (publish_agent_halt publisher_new worker Signal.Terminate)))]
      None NoClient true no_rules "worker-1" (open_query "" "") 0 "" = Answered (respond DECISION_DENY reason).
Proof.
  split; [vm_compute; reflexivity|].
  apply (kill_switch_reaches_agent fresh_registry (worker_identity None) worker None (Some worker)
           (publish_agent_halt publisher_new worker Signal.Terminate)
           (ocp_sent (publish_agent_halt publisher_new worker Signal.Terminate)) ∅ [] None NoClient true no_rules
           (open_query "" "") 0 "").
  - reflexivity.
  - intros agent [= <-]. split; [reflexivity|left; reflexivity].
  - left. split; [reflexivity|vm_compute; reflexivity].
  - intros e He. exact He.
Defined.

(** The same halt of the same runtime with a credential, sent to its registered identity: the
    query is still allowed. *)
Lemma credentialed_runtime_misses_halt_witness :
  let registered := {| pa_org_id := "acme"; pa_team_id := "core"; pa_agent_id := "did:key:z6Mk" |} in
  handle_policy_query [runtime_store registered (publish_agent_halt publisher_new registered Signal.Terminate)]
    None NoClient true no_rules "worker-1" (open_query "" "") 0 "" = Answered (respond DECISION_ALLOW "").
Proof.
  intros registered.
  etrans; [apply (credentialed_runtime_misses_halt (worker_identity (Some "did:key:z6Mk"%string)) registered "tok")|];
    [reflexivity|discriminate|reflexivity|vm_compute; reflexivity].
Defined.

Definition work_request : OpRequest :=
  {| oq_trace_id := "t"; oq_span_id := "s"; oq_agent_id := Some worker |}.

Definition running_registry : OpsRegistry := check_op stamp fresh_registry work_request DECISION_ALLOW 1.
Definition stopped_registry : OpsRegistry := fst (terminate stamp running_registry "t:s" 2).

Definition stopped_record : OpRecord :=
  {| or_op_id := "t:s"; or_state := Live.Terminated; or_registered_at := stamp 1; or_updated_at := stamp 2 |}.

Lemma runtime_mirrors_registry_witness :
  ∃ reason,
    handle_policy_query [runtime_store worker (publish publisher_new worker "t:s" Signal.Terminate)]
      None NoClient true no_rules "worker-1" (open_query "t" "s") 0 "" = Answered (respond DECISION_DENY reason).
Proof.
  apply (runtime_mirrors_registry stamp (λ _, None) (λ _, worker) stopped_registry
           (publish publisher_new worker "t:s" Signal.Terminate) "t" "s" stopped_record
           None NoClient true no_rules "worker-1" (open_query "t" "s") 0 "").
  - eapply rtc_l; [apply (step_check _ _ (λ _, worker) fresh_registry work_request DECISION_ALLOW 1); reflexivity|].
    apply rtc_once. apply (step_terminate _ _ _ running_registry "t:s" 2).
  - vm_compute. reflexivity.
  - vm_compute. reflexivity.
  - vm_compute. reflexivity.
  - reflexivity.
  - reflexivity.
  - reflexivity.
  - reflexivity.
Defined.

Lemma subject_binds_target_witness :
  ow_global (wire_agent_halt worker Signal.Pause) = ow_global (wire_agent_halt worker Signal.Terminate).
Proof.
  apply (subject_binds_target "assembly.opcontrol.acme.worker-1"
           (wire_agent_halt worker Signal.Pause) (wire_agent_halt worker Signal.Terminate)).
  - vm_compute. reflexivity.
  - vm_compute. reflexivity.
Defined.

Definition intruding_request : OpRequest :=
  {| oq_trace_id := "t"; oq_span_id := "s"; oq_agent_id := Some other_worker |}.

Definition running_record : OpRecord :=
  {| or_op_id := "t:s"; or_state := Live.Running; or_registered_at := stamp 1; or_updated_at := stamp 1 |}.

Lemma reingest_reroutes_signals_witness :
  ∃ g' p', terminate stamp (check_op stamp running_registry intruding_request DECISION_PENDING 2) "t:s" 3 =
             (g', Ok (moved stamp running_record Live.Terminated 3)) ∧
           og_publisher g' = Some p' ∧ runtime_store worker p' = runtime_store worker publisher_new.
Proof.
  apply (reingest_reroutes_signals stamp running_registry publisher_new running_record intruding_request
           other_worker worker DECISION_PENDING 2 3).
  - vm_compute. reflexivity.
  - reflexivity.
  - vm_compute. reflexivity.
  - reflexivity.
  - reflexivity.
  - discriminate.
  - discriminate.
Defined.
