(* ===== verification/AuditChain.v ===== *)
(** * AuditChain: hash-chained audit entries, their log and their file

    aa-core/src/audit.rs (entries, the canonical hash input, the session log) and
    aa-gateway/src/audit.rs (the shared chain head, the writer, the verification of a
    file).  SHA-256 is an argument; JSON text is the library's, so a line of the file is
    what it decodes to.  The lineage and redaction fields of an entry are kept together as
    the records the constructors take.  Storage backends are not modelled. *)

From stdpp Require Import base gmap strings list.
From Stdlib Require Import ZArith Lia Bool Ascii String.
From S2P Require Import Prelude.
From S2P Require Import Text.
From S2P Require Import CoreTypes.
From S2P Require Import Findings.

Open Scope Z_scope.
Open Scope aasm_scope.

(** ** Data *)

Module Event.
Inductive AuditEventType :=
| ToolCallIntercepted | PolicyViolation | CredentialLeakBlocked | ApprovalRequested | ApprovalGranted
| ApprovalDenied | BudgetLimitApproached | BudgetLimitExceeded | ApprovalTimedOut | ApprovalRouted
| ApprovalEscalated | AgentForceDeregistered | MessageBlocked | ToolDispatched | A2ACallIntercepted
| A2AImpersonationAttempted | SandboxStarted | SandboxFilesystemBlocked | SandboxCpuTimeout
| SandboxOomKilled | SandboxTerminated | SandboxHostFnRateLimited | GovernanceMutation.

#[global] Instance AuditEventType_eq_dec : EqDecision AuditEventType.
Proof. solve_decision. Defined.

(** The discriminant of the [repr(u32)] enum. *)
Definition discriminant (e : AuditEventType) : Z :=
  match e with
  | ToolCallIntercepted => 0 | PolicyViolation => 1 | CredentialLeakBlocked => 2 | ApprovalRequested => 3
  | ApprovalGranted => 4 | ApprovalDenied => 5 | BudgetLimitApproached => 6 | BudgetLimitExceeded => 7
  | ApprovalTimedOut => 8 | ApprovalRouted => 9 | ApprovalEscalated => 10 | AgentForceDeregistered => 11
  | MessageBlocked => 12 | ToolDispatched => 13 | A2ACallIntercepted => 14 | A2AImpersonationAttempted => 15
  | SandboxStarted => 16 | SandboxFilesystemBlocked => 17 | SandboxCpuTimeout => 18 | SandboxOomKilled => 19
  | SandboxTerminated => 20 | SandboxHostFnRateLimited => 21 | GovernanceMutation => 22
  end.
End Event.

Record Lineage := {
  ln_root_agent_id : option AgentId;
  ln_parent_agent_id : option AgentId;
  ln_team_id : option string;
  ln_org_id : option string;
  ln_delegation_reason : option string;
  ln_spawned_by_tool : option string;
  ln_depth : option Z;
}.

Definition no_lineage : Lineage :=
  {| ln_root_agent_id := None; ln_parent_agent_id := None; ln_team_id := None; ln_org_id := None;
     ln_delegation_reason := None; ln_spawned_by_tool := None; ln_depth := None |}.

Record AuditRedaction := { rd_credential_findings : list CredentialFinding; rd_redacted_payload : option string }.

Definition no_redaction : AuditRedaction := {| rd_credential_findings := []; rd_redacted_payload := None |}.

(** A digest is its bytes. *)
Abbreviation Digest := (list Z).

Definition ZERO_HASH : Digest := repeat 0 32.

Record AuditEntry := {
  ae_seq : Z;
  ae_timestamp_ns : Z;
  ae_event_type : Event.AuditEventType;
  ae_agent_id : AgentId;
  ae_session_id : SessionId;
  ae_payload : string;
  ae_previous_hash : Digest;
  ae_entry_hash : Digest;
  ae_lineage : Lineage;
  ae_redaction : AuditRedaction;
  ae_policy_doc_id : option string;
  ae_decision_id : option string;
}.

(** ** The hash input *)

(** [to_be_bytes] of an [n]-byte integer. *)
Fixpoint be_bytes (n : nat) (z : Z) : list Z :=
  match n with
  | O => []
  | S n' => be_bytes n' (z / 256) ++ [z mod 256]
  end.

Definition id_bytes (id : N) : list Z := be_bytes 16 (Z.of_N id).

(** The length as a [u32], then the bytes. *)
Definition prefixed (s : string) : list Z :=
  be_bytes 4 (Z.of_nat (List.length (utf8_bytes s)) mod 2 ^ 32) ++ utf8_bytes s.

(** A field that contributes nothing when absent. *)
Definition if_some {A} (f : A → list Z) (x : option A) : list Z := match x with Some a => f a | None => [] end.

Definition lineage_bytes (l : Lineage) : list Z :=
  if_some id_bytes (ln_root_agent_id l) ++ if_some id_bytes (ln_parent_agent_id l)
  ++ if_some prefixed (ln_team_id l) ++ if_some prefixed (ln_delegation_reason l)
  ++ if_some prefixed (ln_spawned_by_tool l) ++ if_some (be_bytes 4) (ln_depth l)
  ++ if_some prefixed (ln_org_id l).

Definition finding_bytes (f : CredentialFinding) : list Z :=
  be_bytes 8 (Z.of_nat (cf_offset f)) ++ prefixed (cf_matched f).

Definition redaction_bytes (r : AuditRedaction) : list Z :=
  match rd_credential_findings r, rd_redacted_payload r with
  | [], None => []
  | fs, payload =>
      be_bytes 4 (Z.of_nat (List.length fs) mod 2 ^ 32) ++ mjoin (map finding_bytes fs)
      ++ match payload with Some s => 1 :: prefixed s | None => [0] end
  end.

Definition hash_input (seq timestamp_ns : Z) (event_type : Event.AuditEventType) (agent_id : AgentId)
    (session_id : SessionId) (previous_hash : Digest) (payload : string) (lineage : Lineage)
    (redaction : AuditRedaction) (policy_doc_id decision_id : option string) : list Z :=
  be_bytes 8 seq ++ be_bytes 8 timestamp_ns ++ be_bytes 4 (Event.discriminant event_type)
  ++ id_bytes agent_id ++ id_bytes session_id ++ previous_hash ++ utf8_bytes payload
  ++ lineage_bytes lineage ++ redaction_bytes redaction
  ++ if_some prefixed policy_doc_id ++ if_some prefixed decision_id.

Definition entry_input (e : AuditEntry) : list Z :=
  hash_input (ae_seq e) (ae_timestamp_ns e) (ae_event_type e) (ae_agent_id e) (ae_session_id e)
    (ae_previous_hash e) (ae_payload e) (ae_lineage e) (ae_redaction e) (ae_policy_doc_id e) (ae_decision_id e).

Section Hash.
Context (sha256 : list Z → Digest).

(** ** Constructors and integrity *)

Definition new_with_lineage_redaction_and_attribution (seq timestamp_ns : Z)
    (event_type : Event.AuditEventType) (agent_id : AgentId) (session_id : SessionId) (payload : string)
    (previous_hash : Digest) (lineage : Lineage) (redaction : AuditRedaction)
    (policy_doc_id decision_id : option string) : AuditEntry :=
  {| ae_seq := seq; ae_timestamp_ns := timestamp_ns; ae_event_type := event_type; ae_agent_id := agent_id;
     ae_session_id := session_id; ae_payload := payload; ae_previous_hash := previous_hash;
     ae_entry_hash := sha256 (hash_input seq timestamp_ns event_type agent_id session_id previous_hash payload
                                lineage redaction policy_doc_id decision_id);
     ae_lineage := lineage; ae_redaction := redaction;
     ae_policy_doc_id := policy_doc_id; ae_decision_id := decision_id |}.

Definition new_with_lineage_and_redaction (seq timestamp_ns : Z) (event_type : Event.AuditEventType)
    (agent_id : AgentId) (session_id : SessionId) (payload : string) (previous_hash : Digest)
    (lineage : Lineage) (redaction : AuditRedaction) : AuditEntry :=
  new_with_lineage_redaction_and_attribution seq timestamp_ns event_type agent_id session_id payload
    previous_hash lineage redaction None None.

Definition new_with_lineage (seq timestamp_ns : Z) (event_type : Event.AuditEventType) (agent_id : AgentId)
    (session_id : SessionId) (payload : string) (previous_hash : Digest) (lineage : Lineage) : AuditEntry :=
  new_with_lineage_and_redaction seq timestamp_ns event_type agent_id session_id payload previous_hash
    lineage no_redaction.

Definition entry_new (seq timestamp_ns : Z) (event_type : Event.AuditEventType) (agent_id : AgentId)
    (session_id : SessionId) (payload : string) (previous_hash : Digest) : AuditEntry :=
  new_with_lineage seq timestamp_ns event_type agent_id session_id payload previous_hash no_lineage.

Definition verify_integrity (e : AuditEntry) : bool := bool_decide (sha256 (entry_input e) = ae_entry_hash e).

(** ** The session log *)

Inductive AuditLogError := SequenceGap (expected got : Z) | HashChainBroken (at_seq : Z).

Record AuditLog := {
  al_agent_id : AgentId;
  al_session_id : SessionId;
  al_entries : list AuditEntry;
  al_next_seq : Z;
  al_last_hash : Digest;
}.

Definition log_new (agent_id : AgentId) (session_id : SessionId) : AuditLog :=
  {| al_agent_id := agent_id; al_session_id := session_id; al_entries := []; al_next_seq := 0;
     al_last_hash := ZERO_HASH |}.

Definition log_push (l : AuditLog) (e : AuditEntry) : AuditLog * result unit AuditLogError :=
  if negb (ae_seq e =? al_next_seq l) then (l, Err (SequenceGap (al_next_seq l) (ae_seq e)))
  else if negb (bool_decide (ae_previous_hash e = al_last_hash l)) then (l, Err (HashChainBroken (ae_seq e)))
  else ({| al_agent_id := al_agent_id l; al_session_id := al_session_id l;
           al_entries := al_entries l ++ [e]; al_next_seq := al_next_seq l + 1;
           al_last_hash := ae_entry_hash e |}, Ok tt).

(** [None] is the panic of a push that fails. *)
Definition next_entry_with_lineage (l : AuditLog) (event_type : Event.AuditEventType) (timestamp_ns : Z)
    (payload : string) (lineage : Lineage) : option (AuditLog * AuditEntry) :=
  let e := new_with_lineage (al_next_seq l) timestamp_ns event_type (al_agent_id l) (al_session_id l) payload
             (al_last_hash l) lineage in
  match log_push l e with
  | (l', Ok _) => match last (al_entries l') with Some e' => Some (l', e') | None => None end
  | (_, Err _) => None
  end.

Definition next_entry (l : AuditLog) (event_type : Event.AuditEventType) (timestamp_ns : Z) (payload : string)
  : option (AuditLog * AuditEntry) := next_entry_with_lineage l event_type timestamp_ns payload no_lineage.

Fixpoint verify_log_from (expected_seq : Z) (expected_prev_hash : Digest) (es : list AuditEntry) : bool :=
  match es with
  | [] => true
  | e :: rest =>
      if negb (verify_integrity e) then false
      else if negb (ae_seq e =? expected_seq) then false
      else if negb (bool_decide (ae_previous_hash e = expected_prev_hash)) then false
      else verify_log_from (expected_seq + 1) (ae_entry_hash e) rest
  end.

Definition verify_log (l : AuditLog) : bool := verify_log_from 0 ZERO_HASH (al_entries l).

(** ** The shared chain head *)

Record ChainState := { cs_next_seq : Z; cs_last_hash : Digest }.

(** What the bounded channel does with an entry. *)
Inductive ChannelOutcome := Accepted | Full | ChannelClosed.

Inductive EmitOutcome := Sent (seq : Z) | Dropped (seq : Z) | Closed (seq : Z).

(** The sequence number is a [u64] of the code, which a process does not exhaust; here it is
    unbounded. *)
Definition emit (s : ChainState) (build : Z → Digest → AuditEntry) (channel : ChannelOutcome)
  : ChainState * EmitOutcome * option AuditEntry :=
  let seq := cs_next_seq s in
  let e := build seq (cs_last_hash s) in
  match channel with
  | Accepted => ({| cs_next_seq := seq + 1; cs_last_hash := ae_entry_hash e |}, Sent seq, Some e)
  | Full => ({| cs_next_seq := seq + 1; cs_last_hash := cs_last_hash s |}, Dropped seq, None)
  | ChannelClosed => ({| cs_next_seq := seq + 1; cs_last_hash := cs_last_hash s |}, Closed seq, None)
  end.

(** The entries that reach the channel when emissions follow one another. *)
Fixpoint emissions (s : ChainState) (es : list ((Z → Digest → AuditEntry) * ChannelOutcome)) : list AuditEntry :=
  match es with
  | [] => []
  | (build, channel) :: rest =>
      let '(s', _, sent) := emit s build channel in
      match sent with Some e => e :: emissions s' rest | None => emissions s' rest end
  end.

(** ** The file *)

(** A line: blank, an entry, or text that does not decode. *)
Inductive Line := Blank | Undecodable | LineOf (e : AuditEntry).

(** The writer appends each entry it receives; [written] says which appends succeed. *)
Fixpoint writer_run (received : list AuditEntry) (written : list bool) : list Line :=
  match received, written with
  | e :: rest, ok :: written' => (if ok then [LineOf e] else []) ++ writer_run rest written'
  | _, _ => []
  end.

Inductive VerifyOutcome := Verified | Incomplete | Tampered.

#[export] Instance VerifyOutcome_eq_dec : EqDecision VerifyOutcome.
Proof. solve_decision. Defined.

Record VerifyResult := {
  vr_outcome : VerifyOutcome;
  vr_is_valid : bool;
  vr_entries_checked : Z;
  vr_first_invalid : option Z;
  vr_missing_seq_ranges : list (Z * Z);
  vr_missing_entries : Z;
}.

(** The line number of a decoding error. *)
Inductive AuditError := Deserialize (line : Z).

Definition missing_seq_ranges_total (ranges : list (Z * Z)) : Z :=
  foldr (λ r n, (snd r - fst r + 1) + n) 0 ranges.

Definition tampered_at (checked : Z) (missing : list (Z * Z)) : VerifyResult :=
  {| vr_outcome := Tampered; vr_is_valid := false; vr_entries_checked := checked;
     vr_first_invalid := Some checked; vr_missing_seq_ranges := missing;
     vr_missing_entries := missing_seq_ranges_total missing |}.

Fixpoint verify_lines (checked : Z) (previous : option (Digest * Z)) (missing : list (Z * Z)) (lines : list Line)
  : result VerifyResult AuditError :=
  match lines with
  | [] =>
      let total := missing_seq_ranges_total missing in
      let outcome := if 0 <? total then Incomplete else Verified in
      Ok {| vr_outcome := outcome; vr_is_valid := bool_decide (outcome = Verified);
            vr_entries_checked := checked; vr_first_invalid := None;
            vr_missing_seq_ranges := missing; vr_missing_entries := total |}
  | Blank :: rest => verify_lines checked previous missing rest
  | Undecodable :: _ => Err (Deserialize checked)
  | LineOf e :: rest =>
      if negb (verify_integrity e) then Ok (tampered_at checked missing)
      else if match previous with
              | Some (expected, _) => negb (bool_decide (ae_previous_hash e = expected))
              | None => false
              end then Ok (tampered_at checked missing)
      else
        let missing' :=
          match previous with
          | Some (_, prev) => if prev + 1 <? ae_seq e then missing ++ [(prev + 1, ae_seq e - 1)] else missing
          | None => missing
          end in
        verify_lines (checked + 1) (Some (ae_entry_hash e, ae_seq e)) missing' rest
  end.

Definition verify_chain (lines : list Line) : result VerifyResult AuditError := verify_lines 0 None [] lines.

(** The last entry that decodes. *)
Definition last_entry (lines : list Line) : option AuditEntry :=
  foldl (λ acc l, match l with LineOf e => Some e | _ => acc end) None lines.

Definition read_last_hash (lines : list Line) : option Digest := ae_entry_hash <$> last_entry lines.
Definition read_last_seq (lines : list Line) : option Z := ae_seq <$> last_entry lines.

(** The chain a restart continues from. *)
Definition chain_resumed (lines : list Line) : ChainState :=
  {| cs_next_seq := match read_last_seq lines with Some s => s + 1 | None => 0 end;
     cs_last_hash := default ZERO_HASH (read_last_hash lines) |}.
End Hash.
