(* ===== verification/AuditProps.v ===== *)
(** * AuditProps: what the hash chain shows, and what it does not

    The head of a chain commits to the history behind it; emissions under backpressure and
    restarts leave a file that verifies, with the loss counted; and two limits: the hash
    input does not say which optional field a value belongs to, and an append that fails
    reads as tampering. *)

From stdpp Require Import base gmap strings list.
From Stdlib Require Import ZArith Lia Bool Ascii String.
From S2P Require Import Prelude.
From S2P Require Import Text.
From S2P Require Import CoreTypes.
From S2P Require Import Findings.
From S2P Require Import AuditChain.

Open Scope Z_scope.
Open Scope aasm_scope.

(** ** Bytes *)

Lemma be_bytes_length n z : List.length (be_bytes n z) = n.
Proof. revert z. induction n as [|n IH]; intros z; simpl; [done|]. rewrite length_app, IH. simpl. lia. Qed.

Lemma be_bytes_inj n z z' :
  0 ≤ z < 256 ^ Z.of_nat n → 0 ≤ z' < 256 ^ Z.of_nat n → be_bytes n z = be_bytes n z' → z = z'.
Proof.
  revert z z'. induction n as [|n IH]; intros z z' Hz Hz'; [simpl in *; lia|].
  rewrite Nat2Z.inj_succ, Z.pow_succ_r in Hz, Hz' by lia. simpl. intros [Hd Hm]%app_inj_tail.
  assert (z / 256 = z' / 256) as Hq.
  { apply IH; [| |done]; split; try (apply Z.div_pos; lia); apply Z.div_lt_upper_bound; lia. }
  rewrite (Z.div_mod z 256), (Z.div_mod z' 256) by lia. lia.
Qed.

Lemma discriminant_inj e e' : Event.discriminant e = Event.discriminant e' → e = e'.
Proof. by destruct e, e'. Qed.

(** The fields fit their machine widths. *)
Definition in_width (e : AuditEntry) : Prop :=
  in_u64 (ae_seq e) ∧ in_u64 (ae_timestamp_ns e) ∧
  (ae_agent_id e < 2 ^ 128)%N ∧ (ae_session_id e < 2 ^ 128)%N.

(** What the fixed part of the input determines. *)
Lemma entry_input_header e e' :
  in_width e → in_width e' →
  List.length (ae_previous_hash e) = 32%nat → List.length (ae_previous_hash e') = 32%nat →
  entry_input e = entry_input e' →
  ae_seq e = ae_seq e' ∧ ae_timestamp_ns e = ae_timestamp_ns e' ∧ ae_event_type e = ae_event_type e' ∧
  ae_agent_id e = ae_agent_id e' ∧ ae_session_id e = ae_session_id e' ∧
  ae_previous_hash e = ae_previous_hash e' ∧
  utf8_bytes (ae_payload e) ++ lineage_bytes (ae_lineage e) ++ redaction_bytes (ae_redaction e)
    ++ if_some prefixed (ae_policy_doc_id e) ++ if_some prefixed (ae_decision_id e) =
  utf8_bytes (ae_payload e') ++ lineage_bytes (ae_lineage e') ++ redaction_bytes (ae_redaction e')
    ++ if_some prefixed (ae_policy_doc_id e') ++ if_some prefixed (ae_decision_id e').
Proof.
  intros (Hs & Ht & Ha & Hss) (Hs' & Ht' & Ha' & Hss') Hp Hp'. unfold entry_input, hash_input.
  unfold in_u64, u64_max in *.
  intros [H1 H]%app_inj_1; [|by rewrite !be_bytes_length].
  apply app_inj_1 in H as [H2 H]; [|by rewrite !be_bytes_length].
  apply app_inj_1 in H as [H3 H]; [|by rewrite !be_bytes_length].
  apply app_inj_1 in H as [H4 H]; [|unfold id_bytes; by rewrite !be_bytes_length].
  apply app_inj_1 in H as [H5 H]; [|unfold id_bytes; by rewrite !be_bytes_length].
  apply app_inj_1 in H as [H6 H]; [|by rewrite Hp, Hp'].
  apply be_bytes_inj in H1; [|simpl; lia..]. apply be_bytes_inj in H2; [|simpl; lia..].
  apply be_bytes_inj in H3; [|by destruct (ae_event_type e)|by destruct (ae_event_type e')].
  apply discriminant_inj in H3.
  unfold id_bytes in H4, H5. apply be_bytes_inj in H4; [|simpl; lia..]. apply be_bytes_inj in H5; [|simpl; lia..].
  split_and!; try done; lia.
Qed.

(** An entry without any optional field. *)
Definition plain (e : AuditEntry) : Prop :=
  ae_lineage e = no_lineage ∧ ae_redaction e = no_redaction ∧ ae_policy_doc_id e = None ∧ ae_decision_id e = None.

Section Props.
Context (sha256 : list Z → Digest).

Abbreviation verify_integrity := (verify_integrity sha256).
Abbreviation verify_log_from := (verify_log_from sha256).
Abbreviation verify_lines := (verify_lines sha256).
Abbreviation verify_chain := (verify_chain sha256).

Lemma plain_eq e e' :
  in_width e → in_width e' →
  List.length (ae_previous_hash e) = 32%nat → List.length (ae_previous_hash e') = 32%nat →
  plain e → plain e' → verify_integrity e = true → verify_integrity e' = true →
  entry_input e = entry_input e' → e = e'.
Proof.
  intros Hw Hw' Hp Hp' (Hl & Hr & Hd & Hi) (Hl' & Hr' & Hd' & Hi') Hv%bool_decide_eq_true Hv'%bool_decide_eq_true H.
  destruct (entry_input_header e e' Hw Hw' Hp Hp' H) as (? & ? & ? & ? & ? & ? & Hb).
  rewrite H in Hv. rewrite Hv in Hv'. rewrite Hl, Hr, Hd, Hi, Hl', Hr', Hd', Hi' in Hb.
  unfold lineage_bytes, redaction_bytes in Hb. simpl in Hb. rewrite !app_nil_r in Hb. apply utf8_bytes_inj in Hb.
  clear H Hv Hw Hw' Hp Hp'. destruct e, e'; simpl in *. by subst.
Qed.

(** ** The log *)

Definition last_hash (h : Digest) (es : list AuditEntry) : Digest :=
  match last es with Some e => ae_entry_hash e | None => h end.

Lemma last_hash_cons h e es : last_hash h (e :: es) = last_hash (ae_entry_hash e) es.
Proof. unfold last_hash. rewrite last_cons. by destruct (last es). Qed.

Lemma verify_log_snoc n h es e :
  verify_log_from n h (es ++ [e]) = true ↔
  verify_log_from n h es = true ∧ verify_integrity e = true ∧ ae_seq e = n + Z.of_nat (List.length es) ∧
  ae_previous_hash e = last_hash h es.
Proof.
  revert n h. induction es as [|x es IH]; intros n h; simpl.
  - unfold last_hash. simpl. destruct (verify_integrity e); simpl; [|by split; [|intros (? & ? & ?)]].
    destruct (Z.eqb_spec (ae_seq e) n); simpl; [|split; [done|]; intros (? & ? & ? & ?); lia].
    case_bool_decide; simpl; [|by split; [|intros (? & ? & ? & ?)]]. split; [|done]. intros _. split_and!; try done; lia.
  - rewrite last_hash_cons. destruct (verify_integrity x); simpl; [|by split; [|intros [? _]]].
    destruct (ae_seq x =? n); simpl; [|by split; [|intros [? _]]].
    case_bool_decide; simpl; [|by split; [|intros [? _]]]. rewrite IH.
    replace (n + 1 + Z.of_nat (List.length es)) with (n + Z.of_nat (S (List.length es))) by lia. done.
Qed.

Section Commit.
Context (Hlen : ∀ x, List.length (sha256 x) = 32%nat).

Lemma integrity_length e : verify_integrity e = true → List.length (ae_entry_hash e) = 32%nat.
Proof. intros H%bool_decide_eq_true. by rewrite <- H. Qed.

Lemma last_hash_length n es :
  verify_log_from n ZERO_HASH es = true → List.length (last_hash ZERO_HASH es) = 32%nat.
Proof.
  induction es as [|e es _] using rev_ind; [done|]. intros (_ & Hv & _)%verify_log_snoc.
  unfold last_hash. rewrite last_snoc. by apply integrity_length.
Qed.

Lemma last_hash_snoc h es e : last_hash h (es ++ [e]) = ae_entry_hash e.
Proof. unfold last_hash. by rewrite last_snoc. Qed.

(** Two verified ends with the same hash have the same input, hence the same place and
    the same predecessor. *)
Lemma ends_agree es es' e e' :
  (sha256 (entry_input e) = sha256 (entry_input e') → entry_input e = entry_input e') →
  in_width e → in_width e' →
  verify_log_from 0 ZERO_HASH (es ++ [e]) = true → verify_log_from 0 ZERO_HASH (es' ++ [e']) = true →
  ae_entry_hash e = ae_entry_hash e' →
  entry_input e = entry_input e' ∧ List.length es = List.length es' ∧
  last_hash ZERO_HASH es = last_hash ZERO_HASH es' ∧ (plain e → plain e' → e = e').
Proof.
  intros Hc Hw Hw' (Hes & Hv & Hs & Hp)%verify_log_snoc (Hes' & Hv' & Hs' & Hp')%verify_log_snoc Hh.
  assert (entry_input e = entry_input e') as Hi.
  { apply Hc. apply bool_decide_eq_true in Hv, Hv'. congruence. }
  apply last_hash_length in Hes, Hes'. rewrite <- Hp in Hes. rewrite <- Hp' in Hes'.
  destruct (entry_input_header e e' Hw Hw' Hes Hes' Hi) as (Hse & _ & _ & _ & _ & Hpr & _).
  split_and!; [done|lia|congruence|]. intros. by apply plain_eq.
Qed.

Lemma heads_agree n es es' :
  List.length es = n → List.length es' = n →
  (∀ x y, x ∈ es ++ es' → y ∈ es ++ es' → sha256 (entry_input x) = sha256 (entry_input y) →
     entry_input x = entry_input y) →
  (∀ x, x ∈ es ++ es' → in_width x) →
  verify_log_from 0 ZERO_HASH es = true → verify_log_from 0 ZERO_HASH es' = true →
  last_hash ZERO_HASH es = last_hash ZERO_HASH es' →
  map entry_input es = map entry_input es' ∧ map ae_entry_hash es = map ae_entry_hash es' ∧
  ((∀ x, x ∈ es ++ es' → plain x) → es = es').
Proof.
  revert es es'. induction n as [|n IH]; intros es es' Hn Hn' Hc Hw Hv Hv' Hh.
  { destruct es, es'; try done. }
  destruct es as [|e es _] using rev_ind; [done|]. destruct es' as [|e' es' _] using rev_ind; [done|].
  rewrite length_app in Hn, Hn'. simpl in Hn, Hn'. rewrite !last_hash_snoc in Hh.
  assert (e ∈ (es ++ [e]) ++ es' ++ [e'] ∧ e' ∈ (es ++ [e]) ++ es' ++ [e']) as [Hin Hin'].
  { rewrite !elem_of_app, !list_elem_of_singleton. tauto. }
  assert (∀ x, x ∈ es ++ es' → x ∈ (es ++ [e]) ++ es' ++ [e']) as Hsub.
  { intros x. rewrite !elem_of_app. tauto. }
  destruct (ends_agree es es' e e') as (Hi & _ & Hl & Hp); auto.
  apply verify_log_snoc in Hv as [Hv _]. apply verify_log_snoc in Hv' as [Hv' _].
  destruct (IH es es') as (Hm & Hm' & Hq); auto; [lia..|]. rewrite !map_app. simpl.
  split_and!; [by rewrite Hm, Hi|by rewrite Hm', Hh|]. intros Hpl. rewrite Hq, Hp; auto.
Qed.
End Commit.

(** C26: the hash at the head of a verified log commits to the
    whole log: two logs that verify and end in the same hash have, entry by entry, the
    same hash input and the same hash, unless SHA-256 collides on them; and if their
    entries carry no optional field they are the same log. *)
Theorem head_commits_to_history es es' e e' :
  (∀ x, List.length (sha256 x) = 32%nat) →
  (∀ x y, x ∈ es ++ es' → y ∈ es ++ es' → sha256 (entry_input x) = sha256 (entry_input y) →
     entry_input x = entry_input y) →
  (∀ x, x ∈ es ++ es' → in_width x) →
  verify_log_from 0 ZERO_HASH es = true → verify_log_from 0 ZERO_HASH es' = true →
  last es = Some e → last es' = Some e' → ae_entry_hash e = ae_entry_hash e' →
  map entry_input es = map entry_input es' ∧ map ae_entry_hash es = map ae_entry_hash es' ∧
  ((∀ x, x ∈ es ++ es' → plain x) → es = es').
Proof.
  intros Hlen Hc Hw Hv Hv' (es0 & ->)%last_Some (es0' & ->)%last_Some Hh.
  destruct (ends_agree Hlen es0 es0' e e') as (_ & Hl & _); auto.
  - apply Hc; rewrite !elem_of_app, !list_elem_of_singleton; tauto.
  - apply Hw. rewrite !elem_of_app, !list_elem_of_singleton. tauto.
  - apply Hw. rewrite !elem_of_app, !list_elem_of_singleton. tauto.
  - eapply heads_agree; eauto.
    + rewrite !length_app. simpl. lia.
    + by rewrite !last_hash_snoc.
Qed.

(** ** Building a log *)

Definition log_ok (l : AuditLog) : Prop :=
  al_next_seq l = Z.of_nat (List.length (al_entries l)) ∧ al_last_hash l = last_hash ZERO_HASH (al_entries l) ∧
  verify_log sha256 l = true.

Lemma log_push_Ok l e l' :
  log_push l e = (l', Ok tt) →
  ae_seq e = al_next_seq l ∧ ae_previous_hash e = al_last_hash l ∧ al_entries l' = al_entries l ++ [e] ∧
  al_next_seq l' = al_next_seq l + 1 ∧ al_last_hash l' = ae_entry_hash e.
Proof.
  unfold log_push. destruct (Z.eqb_spec (ae_seq e) (al_next_seq l)); [|done]. simpl.
  case_bool_decide; [|done]. by intros [= <-].
Qed.

Lemma push_integrity l e l' :
  log_ok l → log_push l e = (l', Ok tt) → log_ok l' ↔ verify_integrity e = true.
Proof.
  intros (Hn & Hh & Hv) (Hs & Hp & He & Hn' & Hh')%log_push_Ok. unfold log_ok, verify_log in *.
  rewrite He, Hn', Hh', last_hash_snoc, length_app, verify_log_snoc. simpl.
  split; [tauto|]. intros Hi. split_and!; try done; [lia|lia|congruence].
Qed.

(** Appending through the log always succeeds and keeps it
    verified: on any log built from the empty one by appending, building the next entry
    cannot panic, and the new log, one longer, passes verification; a prepared entry is
    accepted only with the next sequence number and the current head, and the log then
    verifies exactly when the entry's own hash does. *)
Theorem log_append_total l event_type timestamp_ns payload lineage :
  log_ok l →
  (∃ l' e, next_entry_with_lineage sha256 l event_type timestamp_ns payload lineage = Some (l', e) ∧
     log_ok l' ∧ al_entries l' = al_entries l ++ [e] ∧ ae_payload e = payload ∧ ae_lineage e = lineage) ∧
  ∀ e, (∃ l', log_push l e = (l', Ok tt) ∧ (log_ok l' ↔ verify_integrity e = true)) ∨
       (∃ err, log_push l e = (l, Err err) ∧
          (ae_seq e ≠ al_next_seq l ∨ ae_previous_hash e ≠ al_last_hash l)).
Proof.
  intros Hok. split.
  - unfold next_entry_with_lineage. set (e := new_with_lineage _ _ _ _ _ _ _ _ _).
    destruct (log_push l e) as [l' [[]|err]] eqn:Hp.
    + pose proof Hp as (_ & _ & He & _)%log_push_Ok. rewrite He, last_snoc. exists l', e.
      split_and!; try done. apply (push_integrity l e l' Hok Hp). by apply bool_decide_eq_true.
    + exfalso. revert Hp. unfold log_push. simpl. rewrite Z.eqb_refl. simpl. by rewrite bool_decide_true.
  - intros e. destruct (log_push l e) as [l' [[]|err]] eqn:Hp.
    + left. exists l'. split; [done|]. by apply (push_integrity l).
    + right. revert Hp. unfold log_push. destruct (Z.eqb_spec (ae_seq e) (al_next_seq l)); simpl.
      * case_bool_decide; [done|]. intros [= <- <-]. eauto.
      * intros [= <- <-]. eauto.
Qed.

(** ** The file *)

(** What the emitters build. *)
Definition honest (build : Z → Digest → AuditEntry) : Prop :=
  ∀ seq prev, ae_seq (build seq prev) = seq ∧ ae_previous_hash (build seq prev) = prev ∧
    verify_integrity (build seq prev) = true.

(** The losses the file can show: those between two entries that arrived. *)
Fixpoint lost (started : bool) (pending : Z) (os : list ChannelOutcome) : Z :=
  match os with
  | [] => 0
  | Accepted :: rest => (if started then pending else 0) + lost true 0 rest
  | _ :: rest => lost started (pending + 1) rest
  end.

Lemma total_app l r : missing_seq_ranges_total (l ++ [r]) = missing_seq_ranges_total l + (snd r - fst r + 1).
Proof. unfold missing_seq_ranges_total. induction l as [|x l IH]; simpl; [lia|]. rewrite IH. lia. Qed.

(** The verifier's state after a good part of a file. *)
Lemma verify_lines_app c p m l1 l2 r :
  verify_lines c p m l1 = Ok r → vr_outcome r ≠ Tampered →
  ∃ c', verify_lines c p m (l1 ++ l2) =
        verify_lines c' (match last_entry l1 with Some e => Some (ae_entry_hash e, ae_seq e) | None => p end)
          (vr_missing_seq_ranges r) l2 ∧
        vr_missing_entries r = missing_seq_ranges_total (vr_missing_seq_ranges r).
Proof.
  assert (∀ l acc, foldl (λ a x, match x with LineOf e => Some e | _ => a end) acc l =
            match last_entry l with Some e => Some e | None => acc end) as Hfold.
  { intros l. unfold last_entry. induction l as [|x l IH]; intros acc; simpl; [done|].
    destruct x as [| |e]; [apply IH..|]. rewrite (IH (Some e)). by destruct (foldl _ None l). }
  revert c p m. induction l1 as [|x l1 IH]; intros c p m; simpl.
  { intros [= <-] _. simpl. by exists c. }
  unfold last_entry. simpl. rewrite Hfold. destruct x as [| |e].
  - intros H Ht. destruct (IH c p m H Ht) as (c' & -> & Hm). exists c'. by destruct (last_entry l1).
  - done.
  - destruct (negb (verify_integrity e)); [by intros [= <-]|].
    destruct (match p with Some (expected, _) => _ | None => false end); [by intros [= <-]|].
    intros H Ht. destruct (IH _ _ _ H Ht) as (c' & -> & Hm). exists c'. by destruct (last_entry l1).
Qed.

(** Emissions after an entry that arrived. *)
Lemma emissions_verify s es c prev m :
  Forall (λ b, honest (fst b)) es → prev < cs_next_seq s →
  ∃ r, verify_lines c (Some (cs_last_hash s, prev)) m (map LineOf (emissions s es)) = Ok r ∧
    vr_missing_entries r = missing_seq_ranges_total m + lost true (cs_next_seq s - prev - 1) (map snd es) ∧
    vr_outcome r = (if 0 <? vr_missing_entries r then Incomplete else Verified).
Proof.
  revert s c prev m. induction es as [|[build o] es IH]; intros s c prev m Hh Hlt; simpl.
  { eexists. split; [done|]. simpl. split; [lia|done]. }
  apply Forall_cons in Hh as [Hb Hh]. simpl in Hb.
  destruct (Hb (cs_next_seq s) (cs_last_hash s)) as (Hs & Hp & Hv).
  destruct o; simpl.
  - rewrite Hv, Hs, Hp. simpl. rewrite bool_decide_true by done. simpl.
    edestruct (IH {| cs_next_seq := cs_next_seq s + 1; cs_last_hash := ae_entry_hash (build (cs_next_seq s) (cs_last_hash s)) |}
                 (c + 1) (cs_next_seq s)) as (r & Hr & Hm & Ho); [done|simpl; lia|].
    exists r. split; [exact Hr|]. split; [|done]. rewrite Hm. simpl.
    replace (cs_next_seq s + 1 - cs_next_seq s - 1) with 0 by lia.
    destruct (Z.ltb_spec (prev + 1) (cs_next_seq s)); [rewrite total_app; simpl; lia|lia].
  - edestruct (IH {| cs_next_seq := cs_next_seq s + 1; cs_last_hash := cs_last_hash s |} c prev m)
      as (r & Hr & Hm & Ho); [done|simpl; lia|].
    exists r. split; [exact Hr|]. split; [|done]. rewrite Hm. simpl. do 2 f_equal. lia.
  - edestruct (IH {| cs_next_seq := cs_next_seq s + 1; cs_last_hash := cs_last_hash s |} c prev m)
      as (r & Hr & Hm & Ho); [done|simpl; lia|].
    exists r. split; [exact Hr|]. split; [|done]. rewrite Hm. simpl. do 2 f_equal. lia.
Qed.

(** Emissions into a file without entries. *)
Lemma emissions_verify_first s es c m pending :
  Forall (λ b, honest (fst b)) es →
  ∃ r, verify_lines c None m (map LineOf (emissions s es)) = Ok r ∧
    vr_missing_entries r = missing_seq_ranges_total m + lost false pending (map snd es) ∧
    vr_outcome r = (if 0 <? vr_missing_entries r then Incomplete else Verified).
Proof.
  revert s pending. induction es as [|[build o] es IH]; intros s pending Hh; simpl.
  { eexists. split; [done|]. simpl. split; [lia|done]. }
  apply Forall_cons in Hh as [Hb Hh]. simpl in Hb.
  destruct (Hb (cs_next_seq s) (cs_last_hash s)) as (Hs & Hp & Hv).
  destruct o; simpl; [|by apply IH..]. rewrite Hv, Hs. simpl.
  edestruct (emissions_verify {| cs_next_seq := cs_next_seq s + 1;
                                 cs_last_hash := ae_entry_hash (build (cs_next_seq s) (cs_last_hash s)) |}
               es (c + 1) (cs_next_seq s) m) as (r & Hr & Hm & Ho); [done|simpl; lia|].
  exists r. split; [exact Hr|]. split; [|done]. rewrite Hm. simpl.
  by replace (cs_next_seq s + 1 - cs_next_seq s - 1) with 0 by lia.
Qed.

(** C27: backpressure and restarts never look like tampering: when
    the emitters of one chain continue from a file that verifies, the file with their
    entries appended verifies too, whatever the channel dropped; it is reported complete
    or incomplete, never tampered, and the missing entries it reports are exactly those
    of before and the losses that lie between two entries that arrived. *)
Theorem emission_verifies lines r0 es :
  verify_chain lines = Ok r0 → vr_outcome r0 ≠ Tampered → Forall (λ b, honest (fst b)) es →
  ∃ r, verify_chain (lines ++ map LineOf (emissions (chain_resumed lines) es)) = Ok r ∧
    vr_missing_entries r =
      vr_missing_entries r0 + lost (bool_decide (is_Some (last_entry lines))) 0 (map snd es) ∧
    vr_outcome r = (if 0 <? vr_missing_entries r then Incomplete else Verified).
Proof.
  intros H0 Ht Hh. unfold AuditChain.verify_chain in *.
  destruct (verify_lines_app _ _ _ _ (map LineOf (emissions (chain_resumed lines) es)) _ H0 Ht) as (c' & -> & ->).
  unfold chain_resumed, read_last_hash, read_last_seq. destruct (last_entry lines) as [e|]; simpl.
  - edestruct (emissions_verify {| cs_next_seq := ae_seq e + 1; cs_last_hash := ae_entry_hash e |}
                 es c' (ae_seq e) (vr_missing_seq_ranges r0)) as (r & Hr & Hm & Ho); [done|simpl; lia|].
    exists r. split; [exact Hr|]. split; [|done]. rewrite Hm. simpl.
    by replace (ae_seq e + 1 - ae_seq e - 1) with 0 by lia.
  - by apply emissions_verify_first.
Qed.

(** A failed append is not reported as a loss: when
    the writer loses an entry between two it writes, the chain head has already moved on,
    and the file is reported tampered at the later entry although no entry was altered. *)
Theorem failed_append_reads_as_tampered s b1 b2 b3 :
  honest b1 → honest b2 → honest b3 →
  let sent := emissions s [(b1, Accepted); (b2, Accepted); (b3, Accepted)] in
  ae_entry_hash (b1 (cs_next_seq s) (cs_last_hash s)) ≠
    ae_entry_hash (b2 (cs_next_seq s + 1) (ae_entry_hash (b1 (cs_next_seq s) (cs_last_hash s)))) →
  verify_chain (writer_run sent [true; false; true]) = Ok (tampered_at 1 []).
Proof.
  intros H1 H2 H3 sent Hne. unfold sent. simpl. unfold AuditChain.verify_chain. simpl.
  destruct (H1 (cs_next_seq s) (cs_last_hash s)) as (_ & _ & ->). simpl.
  set (h1 := ae_entry_hash (b1 _ _)) in *.
  destruct (H2 (cs_next_seq s + 1) h1) as (_ & _ & _). set (h2 := ae_entry_hash (b2 _ _)) in *.
  destruct (H3 (cs_next_seq s + 1 + 1) h2) as (_ & -> & ->). simpl. by rewrite bool_decide_false.
Qed.

(** ** What the hash does not cover *)

(** The entry with its lineage, redaction or attribution replaced, its hash kept. *)
Definition with_optional (e : AuditEntry) (l : Lineage) (r : AuditRedaction) (policy_doc_id decision_id : option string)
  : AuditEntry :=
  {| ae_seq := ae_seq e; ae_timestamp_ns := ae_timestamp_ns e; ae_event_type := ae_event_type e;
     ae_agent_id := ae_agent_id e; ae_session_id := ae_session_id e; ae_payload := ae_payload e;
     ae_previous_hash := ae_previous_hash e; ae_entry_hash := ae_entry_hash e; ae_lineage := l;
     ae_redaction := r; ae_policy_doc_id := policy_doc_id; ae_decision_id := decision_id |}.

Definition only_root (id : AgentId) : Lineage :=
  {| ln_root_agent_id := Some id; ln_parent_agent_id := None; ln_team_id := None; ln_org_id := None;
     ln_delegation_reason := None; ln_spawned_by_tool := None; ln_depth := None |}.

Definition only_parent (id : AgentId) : Lineage :=
  {| ln_root_agent_id := None; ln_parent_agent_id := Some id; ln_team_id := None; ln_org_id := None;
     ln_delegation_reason := None; ln_spawned_by_tool := None; ln_depth := None |}.

Definition only_team (s : string) : Lineage :=
  {| ln_root_agent_id := None; ln_parent_agent_id := None; ln_team_id := Some s; ln_org_id := None;
     ln_delegation_reason := None; ln_spawned_by_tool := None; ln_depth := None |}.

Definition only_org (s : string) : Lineage :=
  {| ln_root_agent_id := None; ln_parent_agent_id := None; ln_team_id := None; ln_org_id := Some s;
     ln_delegation_reason := None; ln_spawned_by_tool := None; ln_depth := None |}.

Definition one_finding (kind : CredentialKind) (offset stop : nat) (matched : string) : AuditRedaction :=
  {| rd_credential_findings := [{| cf_kind := kind; cf_offset := offset; cf_matched := matched; cf_end := stop |}];
     rd_redacted_payload := None |}.

(** Some alterations of an entry are not detected, whatever
    the hash function: an optional field contributes its value without its name, so an
    entry passes verification exactly when the one with the root agent moved to the parent
    agent, the team to the organisation, or the policy document to the decision does; and
    the kind and the end of a finding are not hashed at all. *)
Theorem relabelled_fields_verify e id s kind kind' offset stop stop' matched :
  verify_integrity (with_optional e (only_root id) no_redaction None None) =
    verify_integrity (with_optional e (only_parent id) no_redaction None None) ∧
  verify_integrity (with_optional e (only_team s) no_redaction None None) =
    verify_integrity (with_optional e (only_org s) no_redaction None None) ∧
  verify_integrity (with_optional e no_lineage no_redaction (Some s) None) =
    verify_integrity (with_optional e no_lineage no_redaction None (Some s)) ∧
  verify_integrity (with_optional e no_lineage (one_finding kind offset stop matched) None None) =
    verify_integrity (with_optional e no_lineage (one_finding kind' offset stop' matched) None None).
Proof.
  assert (∀ x y, entry_input x = entry_input y → ae_entry_hash x = ae_entry_hash y →
            verify_integrity x = verify_integrity y) as Heq.
  { intros x y Hi Hh. unfold AuditChain.verify_integrity. by rewrite Hi, Hh. }
  split_and!; apply Heq; try done; unfold entry_input, hash_input, lineage_bytes; simpl; by rewrite ?app_nil_r.
Qed.
End Props.

(** ** Witnesses *)

(** A 32-byte mixing function. *)
Definition toy_hash (x : list Z) : Digest := be_bytes 32 (foldl (λ a b, a * 257 + b + 1) 7 x).

Lemma toy_hash_length x : List.length (toy_hash x) = 32%nat.
Proof. apply be_bytes_length. Qed.

Definition toy_build (payload : string) (seq : Z) (prev : Digest) : AuditEntry :=
  entry_new toy_hash seq 5 Event.ToolDispatched 1%N 2%N payload prev.

Lemma toy_build_honest payload : honest toy_hash (toy_build payload).
Proof. intros seq prev. split; [reflexivity|]. split; [reflexivity|]. by apply bool_decide_eq_true. Qed.

Definition toy_log : list AuditEntry :=
  emissions {| cs_next_seq := 0; cs_last_hash := ZERO_HASH |} [(toy_build "a", Accepted); (toy_build "b", Accepted)].

Definition toy_last : AuditEntry := toy_build "b" 1 (ae_entry_hash (toy_build "a" 0 ZERO_HASH)).

Lemma toy_log_elem x : x ∈ toy_log ++ toy_log → x = toy_build "a" 0 ZERO_HASH ∨ x = toy_last.
Proof.
  assert (toy_log = [toy_build "a" 0 ZERO_HASH; toy_last]) as -> by reflexivity.
  rewrite !elem_of_app, !elem_of_cons, !elem_of_nil. tauto.
Qed.

Lemma toy_differ : toy_hash (entry_input (toy_build "a" 0 ZERO_HASH)) ≠ toy_hash (entry_input toy_last).
Proof. apply (bool_decide_eq_false_1 _). vm_compute. reflexivity. Qed.

Lemma toy_no_collision x y :
  x ∈ toy_log ++ toy_log → y ∈ toy_log ++ toy_log →
  toy_hash (entry_input x) = toy_hash (entry_input y) → entry_input x = entry_input y.
Proof.
  intros [-> | ->]%toy_log_elem [-> | ->]%toy_log_elem H; [reflexivity|exfalso|exfalso|reflexivity].
  - by apply toy_differ.
  - symmetry in H. by apply toy_differ.
Qed.

Lemma toy_in_width x : x ∈ toy_log ++ toy_log → in_width x.
Proof. intros [-> | ->]%toy_log_elem; vm_compute; repeat split; discriminate. Qed.

Lemma head_commits_to_history_witness : map entry_input toy_log = map entry_input toy_log.
Proof.
  apply (head_commits_to_history toy_hash toy_log toy_log toy_last toy_last).
  - exact toy_hash_length.
  - exact toy_no_collision.
  - exact toy_in_width.
  - vm_compute. reflexivity.
  - vm_compute. reflexivity.
  - reflexivity.
  - reflexivity.
  - reflexivity.
Defined.

Lemma log_append_total_witness :
  ∃ l' e, next_entry_with_lineage toy_hash (log_new 1%N 2%N) Event.GovernanceMutation 9 "p" no_lineage = Some (l', e) ∧
    log_ok toy_hash l'.
Proof.
  destruct (log_append_total toy_hash (log_new 1%N 2%N) Event.GovernanceMutation 9 "p" no_lineage)
    as [(l' & e & H & Hok & _) _].
  - split; [reflexivity|]. split; [reflexivity|]. vm_compute. reflexivity.
  - exists l', e. split; [exact H|exact Hok].
Defined.

(** One entry lost between two that arrive, in a fresh file. *)
Definition toy_emissions : list ((Z → Digest → AuditEntry) * ChannelOutcome) :=
  [(toy_build "a", Accepted); (toy_build "b", Full); (toy_build "c", Accepted)].

Definition empty_result : VerifyResult :=
  {| vr_outcome := Verified; vr_is_valid := true; vr_entries_checked := 0; vr_first_invalid := None;
     vr_missing_seq_ranges := []; vr_missing_entries := 0 |}.

Lemma toy_emissions_honest : Forall (λ b, honest toy_hash (fst b)) toy_emissions.
Proof. repeat constructor; apply toy_build_honest. Qed.

Lemma emission_verifies_witness :
  ∃ r, verify_chain toy_hash (map LineOf (emissions (chain_resumed []) toy_emissions)) = Ok r ∧
    vr_missing_entries r = 1 ∧ vr_outcome r = Incomplete.
Proof.
  destruct (emission_verifies toy_hash [] empty_result toy_emissions) as (r & Hr & Hm & Ho).
  - reflexivity.
  - discriminate.
  - exact toy_emissions_honest.
  - exists r. split; [exact Hr|]. split; [exact Hm|]. rewrite Ho, Hm. reflexivity.
Defined.

Lemma failed_append_reads_as_tampered_witness :
  verify_chain toy_hash
    (writer_run (emissions {| cs_next_seq := 0; cs_last_hash := ZERO_HASH |}
                   [(toy_build "a", Accepted); (toy_build "b", Accepted); (toy_build "c", Accepted)])
       [true; false; true]) = Ok (tampered_at 1 []).
Proof.
  apply (failed_append_reads_as_tampered toy_hash {| cs_next_seq := 0; cs_last_hash := ZERO_HASH |}
           (toy_build "a") (toy_build "b") (toy_build "c")).
  - apply toy_build_honest.
  - apply toy_build_honest.
  - apply toy_build_honest.
  - vm_compute. discriminate.
Defined.
