(* ===== verification/Approval.v ===== *)
(** * Approval: the queue of actions waiting for a human

    aa-runtime/src/approval.rs, and the table of aa-gateway/src/storage/approval.rs that
    processes share.  A [oneshot] sender is a ticket, and [q_settled] holds what each
    receiver was sent; an ingested request has no ticket, since its receiver is dropped at
    once.  A request id stands for its hyphenated text.  The spawned timeout of a request
    is the call of [fire_timeout] with the fallback it captured.  Broadcasts are the lists of
    what was sent; clocks and the outcome of the audit channel are arguments; the audit
    payload is the JSON library's, an argument of [emit_audit].  Locks do not fail. *)

From stdpp Require Import base gmap strings list.
From Stdlib Require Import ZArith Lia Bool Ascii String.
From S2P Require Import Prelude.
From S2P Require Import Text.
From S2P Require Import CoreTypes.
From S2P Require Import AuditChain.

Open Scope Z_scope.
Open Scope aasm_scope.

Abbreviation ApprovalRequestId := N.

Record ApprovalRequest := {
  aq_request_id : ApprovalRequestId;
  aq_agent_id : string;
  aq_action : string;
  aq_condition_triggered : string;
  aq_submitted_at : Z;
  aq_timeout_secs : Z;
  aq_fallback : PolicyResult;
  aq_team_id : option string;
  aq_timeout_override_secs : option Z;
  aq_escalation_role_override : option string;
}.

Module Verdict.
Inductive ApprovalDecision :=
| Approved (by_ : string) (reason : option string) (conditions : list string)
| Rejected (by_ reason : string)
| TimedOut (fallback : PolicyResult).
End Verdict.

Abbreviation ApprovalDecision := Verdict.ApprovalDecision.

Record ResolvedRecord := {
  rr_request_id : ApprovalRequestId;
  rr_agent_id : string;
  rr_action : string;
  rr_condition_triggered : string;
  rr_submitted_at : Z;
  rr_decided_at : Z;
  rr_status : string;
  rr_decided_by : string;
  rr_decision_reason : option string;
  rr_decision_conditions : list string;
  rr_team_id : option string;
}.

Record RoutingHistoryEntry := { rh_at : Z; rh_action : string; rh_from_role : option string; rh_to_role : string }.

Record RoutingMeta := {
  rm_status : string;
  rm_target_role : option string;
  rm_routed_at : option Z;
  rm_escalate_at : option Z;
  rm_history : list RoutingHistoryEntry;
}.

Inductive ApprovalError := NotFound | AlreadyDecided.

Definition DEFAULT_RESOLVED_HISTORY_CAP : nat := 1000.

Abbreviation Ticket := nat.

Record ApprovalQueue := {
  q_pending : gmap ApprovalRequestId (ApprovalRequest * option Ticket);
  q_routing_meta : gmap ApprovalRequestId RoutingMeta;
  q_resolved_history : list ResolvedRecord;
  q_resolved_history_cap : nat;
  q_audit : option ChainState;
  q_audit_sent : list AuditEntry;
  q_events : list ApprovalRequest;
  q_expirations : list ApprovalRequest;
  q_notified : list (ApprovalRequestId * ApprovalDecision * option string);
  q_settled : gmap Ticket ApprovalDecision;
  q_ingested : gset ApprovalRequestId;
  q_next_ticket : Ticket;
}.

Definition queue_with (audit : option ChainState) (cap : nat) : ApprovalQueue :=
  {| q_pending := ∅; q_routing_meta := ∅; q_resolved_history := []; q_resolved_history_cap := cap;
     q_audit := audit; q_audit_sent := []; q_events := []; q_expirations := []; q_notified := [];
     q_settled := ∅; q_ingested := ∅; q_next_ticket := 0%nat |}.

Definition queue_new : ApprovalQueue := queue_with None DEFAULT_RESOLVED_HISTORY_CAP.

(** [with_audit]. *)
Definition queue_with_audit (initial_hash : Digest) : ApprovalQueue :=
  queue_with (Some {| cs_next_seq := 0; cs_last_hash := initial_hash |}) DEFAULT_RESOLVED_HISTORY_CAP.

(** The verdict's status, author, reason and conditions. *)
Definition status_of (d : ApprovalDecision) : string :=
  match d with
  | Verdict.Approved _ _ _ => "approved"
  | Verdict.Rejected _ _ => "rejected"
  | Verdict.TimedOut _ => "timed_out"
  end.

Definition decided_by_of (d : ApprovalDecision) : string :=
  match d with
  | Verdict.Approved by_ _ _ => by_
  | Verdict.Rejected by_ _ => by_
  | Verdict.TimedOut _ => "timeout"
  end.

Definition reason_of (d : ApprovalDecision) : option string :=
  match d with
  | Verdict.Approved _ reason _ => reason
  | Verdict.Rejected _ reason => Some reason
  | Verdict.TimedOut _ => None
  end.

Definition conditions_of (d : ApprovalDecision) : list string :=
  match d with Verdict.Approved _ _ conditions => conditions | _ => [] end.

Definition event_of (d : ApprovalDecision) : Event.AuditEventType :=
  match d with
  | Verdict.Approved _ _ _ => Event.ApprovalGranted
  | Verdict.Rejected _ _ => Event.ApprovalDenied
  | Verdict.TimedOut _ => Event.ApprovalTimedOut
  end.

Definition is_timeout (d : ApprovalDecision) : bool := match d with Verdict.TimedOut _ => true | _ => false end.

(** What an operation reads from its surroundings: the clock, and what the audit channel
    does with the entry of each sequence number. *)
Record Ambient := { am_now : Z; am_timestamp_ns : Z; am_channel : Z → ChannelOutcome }.

Section Queue.
Context (sha256 : list Z → Digest).
(** [hash_to_16], and the JSON payload of an audit entry. *)
Context (hash_to_16 : string → N) (id_text : ApprovalRequestId → string).
Context (payload_of : ApprovalRequest → option string → string).

Definition record_resolution (q : ApprovalQueue) (req : ApprovalRequest) (d : ApprovalDecision) (now : Z)
  : list ResolvedRecord :=
  let record :=
    {| rr_request_id := aq_request_id req; rr_agent_id := aq_agent_id req; rr_action := aq_action req;
       rr_condition_triggered := aq_condition_triggered req; rr_submitted_at := aq_submitted_at req;
       rr_decided_at := now; rr_status := status_of d; rr_decided_by := decided_by_of d;
       rr_decision_reason := reason_of d; rr_decision_conditions := conditions_of d;
       rr_team_id := aq_team_id req |} in
  (if (q_resolved_history_cap q <=? List.length (q_resolved_history q))%nat
   then tl (q_resolved_history q) else q_resolved_history q) ++ [record].

(** The audit entry of a submission or a resolution: the sequence number is consumed in any
    case, the head advances only with the entry. *)
Definition emit_audit (q : ApprovalQueue) (event_type : Event.AuditEventType) (req : ApprovalRequest)
    (decided_by : option string) (am : Ambient) : option ChainState * list AuditEntry :=
  match q_audit q with
  | None => (None, q_audit_sent q)
  | Some chain =>
      let build seq prev :=
        entry_new sha256 seq (am_timestamp_ns am) event_type (hash_to_16 (aq_agent_id req))
          (hash_to_16 (id_text (aq_request_id req))) (payload_of req decided_by) prev in
      let '(chain', _, sent) := emit chain build (am_channel am (cs_next_seq chain)) in
      (Some chain', q_audit_sent q ++ match sent with Some e => [e] | None => [] end)
  end.

Definition resolve (q : ApprovalQueue) (id : ApprovalRequestId) (d : ApprovalDecision) (am : Ambient)
  : ApprovalQueue * bool :=
  let routing := delete id (q_routing_meta q) in
  match q_pending q !! id with
  | None =>
      ({| q_pending := q_pending q; q_routing_meta := routing; q_resolved_history := q_resolved_history q;
          q_resolved_history_cap := q_resolved_history_cap q; q_audit := q_audit q;
          q_audit_sent := q_audit_sent q; q_events := q_events q; q_expirations := q_expirations q;
          q_notified := q_notified q; q_settled := q_settled q; q_ingested := q_ingested q;
          q_next_ticket := q_next_ticket q |}, false)
  | Some (req, ticket) =>
      let '(audit, sent) := emit_audit q (event_of d) req (Some (decided_by_of d)) am in
      ({| q_pending := delete id (q_pending q);
          q_routing_meta := routing;
          q_resolved_history := record_resolution q req d (am_now am);
          q_resolved_history_cap := q_resolved_history_cap q;
          q_audit := audit;
          q_audit_sent := sent;
          q_events := q_events q;
          q_expirations := if is_timeout d then q_expirations q ++ [req] else q_expirations q;
          q_notified := q_notified q ++ [(aq_request_id req, d, aq_team_id req)];
          q_settled := match ticket with Some t => <[t := d]> (q_settled q) | None => q_settled q end;
          q_ingested := q_ingested q;
          q_next_ticket := q_next_ticket q |}, true)
  end.

Definition decide (q : ApprovalQueue) (id : ApprovalRequestId) (d : ApprovalDecision) (am : Ambient)
  : ApprovalQueue * result unit ApprovalError :=
  let '(q', applied) := resolve q id d am in
  (q', if applied then Ok tt
       else if existsb (λ r, (rr_request_id r =? id)%N) (q_resolved_history q') then Err AlreadyDecided
       else Err NotFound).

(** The state with a request added, and its ticket. *)
Definition submit (q : ApprovalQueue) (req : ApprovalRequest) (am : Ambient) : ApprovalQueue * Ticket :=
  let '(audit, sent) := emit_audit q Event.ApprovalRequested req None am in
  let t := q_next_ticket q in
  ({| q_pending := <[aq_request_id req := (req, Some t)]> (q_pending q);
      q_routing_meta := q_routing_meta q; q_resolved_history := q_resolved_history q;
      q_resolved_history_cap := q_resolved_history_cap q; q_audit := audit; q_audit_sent := sent;
      q_events := q_events q ++ [req]; q_expirations := q_expirations q; q_notified := q_notified q;
      q_settled := q_settled q; q_ingested := q_ingested q; q_next_ticket := S t |}, t).

(** The timeout task spawned by [submit]. *)
Definition fire_timeout (q : ApprovalQueue) (id : ApprovalRequestId) (fallback : PolicyResult) (am : Ambient)
  : ApprovalQueue := fst (resolve q id (Verdict.TimedOut fallback) am).

Definition set_routing (q : ApprovalQueue) (m : gmap ApprovalRequestId RoutingMeta) : ApprovalQueue :=
  {| q_pending := q_pending q; q_routing_meta := m; q_resolved_history := q_resolved_history q;
     q_resolved_history_cap := q_resolved_history_cap q; q_audit := q_audit q; q_audit_sent := q_audit_sent q;
     q_events := q_events q; q_expirations := q_expirations q; q_notified := q_notified q;
     q_settled := q_settled q; q_ingested := q_ingested q; q_next_ticket := q_next_ticket q |}.

Definition or_keep {A} (x old : option A) : option A := match x with Some _ => x | None => old end.

Definition record_routing (q : ApprovalQueue) (id : ApprovalRequestId) (status : string)
    (target_role : option string) (routed_at escalate_at : option Z) (entry : option RoutingHistoryEntry)
  : ApprovalQueue * bool :=
  match q_pending q !! id with
  | None => (q, false)
  | Some _ =>
      let m :=
        match q_routing_meta q !! id with
        | Some m =>
            {| rm_status := status; rm_target_role := or_keep target_role (rm_target_role m);
               rm_routed_at := or_keep routed_at (rm_routed_at m);
               rm_escalate_at := or_keep escalate_at (rm_escalate_at m);
               rm_history := rm_history m ++ match entry with Some e => [e] | None => [] end |}
        | None =>
            {| rm_status := status; rm_target_role := target_role; rm_routed_at := routed_at;
               rm_escalate_at := escalate_at; rm_history := match entry with Some e => [e] | None => [] end |}
        end in
      (set_routing q (<[id := m]> (q_routing_meta q)), true)
  end.

Definition current_role (q : ApprovalQueue) (id : ApprovalRequestId) : option string :=
  match q_routing_meta q !! id with Some m => rm_target_role m | None => None end.

Definition update_routing_status (q : ApprovalQueue) (id : ApprovalRequestId) (status : string) (now : Z)
  : ApprovalQueue * bool :=
  let action := if starts_with status "escalated" then "escalated" else "routed" in
  record_routing q id status None None None
    (Some {| rh_at := now; rh_action := action; rh_from_role := current_role q id; rh_to_role := status |}).

Definition forward (q : ApprovalQueue) (id : ApprovalRequestId) (to : string) (now : Z) : ApprovalQueue * bool :=
  record_routing q id ("forwarded_to_" ++ to)%string (Some to) None None
    (Some {| rh_at := now; rh_action := "forwarded"; rh_from_role := current_role q id; rh_to_role := to |}).

Record PendingApprovalRequest := {
  pa_request_id : ApprovalRequestId;
  pa_agent_id : string;
  pa_action : string;
  pa_condition_triggered : string;
  pa_submitted_at : Z;
  pa_timeout_secs : Z;
  pa_team_id : option string;
  pa_routing_status : option string;
  pa_target_role : option string;
  pa_routed_at : option Z;
  pa_escalate_at : option Z;
  pa_routing_history : list RoutingHistoryEntry;
}.

Definition pending_view (q : ApprovalQueue) (req : ApprovalRequest) : PendingApprovalRequest :=
  let meta := q_routing_meta q !! aq_request_id req in
  {| pa_request_id := aq_request_id req; pa_agent_id := aq_agent_id req; pa_action := aq_action req;
     pa_condition_triggered := aq_condition_triggered req; pa_submitted_at := aq_submitted_at req;
     pa_timeout_secs := aq_timeout_secs req; pa_team_id := aq_team_id req;
     pa_routing_status := rm_status <$> meta; pa_target_role := meta ≫= rm_target_role;
     pa_routed_at := meta ≫= rm_routed_at; pa_escalate_at := meta ≫= rm_escalate_at;
     pa_routing_history := default [] (rm_history <$> meta) |}.

(** [list]: the pending requests, in the order of the map. *)
Definition list_requests (q : ApprovalQueue) : list PendingApprovalRequest :=
  map (λ e, pending_view q (fst (snd e))) (map_to_list (q_pending q)).

Definition list_resolved (q : ApprovalQueue) (status_filter agent_filter : option string) : list ResolvedRecord :=
  List.filter (λ r, match agent_filter with Some a => String.eqb (rr_agent_id r) a | None => true end)
    (List.filter (λ r, match status_filter with Some s => String.eqb (rr_status r) s | None => true end)
       (q_resolved_history q)).

Inductive ApprovalLookup := PendingRequest (p : PendingApprovalRequest) | ResolvedRequest (r : ResolvedRecord).

Definition get_by_id (q : ApprovalQueue) (id : ApprovalRequestId) : option ApprovalLookup :=
  match q_pending q !! id with
  | Some _ => PendingRequest <$> find (λ p, (pa_request_id p =? id)%N) (list_requests q)
  | None => ResolvedRequest <$> find (λ r, (rr_request_id r =? id)%N) (rev (q_resolved_history q))
  end.

(** ** The shared table *)

(** The persisted request; the fallback is absent when its text does not decode. *)
Record ApprovalRecord := {
  ap_agent_id : string;
  ap_action : string;
  ap_condition_triggered : string;
  ap_submitted_at : Z;
  ap_timeout_secs : Z;
  ap_team_id : option string;
  ap_fallback : option PolicyResult;
}.

Record ApprovalDecisionRow := {
  dr_status : string;
  dr_decided_at : Z;
  dr_decided_by : string;
  dr_decision_reason : option string;
  dr_decision_conditions : list string;
}.

(** A row: the request, and the decision once its status is no longer pending. *)
Abbreviation ApprovalTable := (gmap ApprovalRequestId (ApprovalRecord * option ApprovalDecisionRow)).

Definition insert_pending (t : ApprovalTable) (id : ApprovalRequestId) (r : ApprovalRecord) : ApprovalTable :=
  <[id := (r, None)]> t.

(** The update [WHERE status = 'pending'], and whether it changed a row. *)
Definition record_decision (t : ApprovalTable) (id : ApprovalRequestId) (d : ApprovalDecisionRow)
  : ApprovalTable * bool :=
  match t !! id with
  | Some (r, None) => (<[id := (r, Some d)]> t, true)
  | _ => (t, false)
  end.

Definition list_pending (t : ApprovalTable) : list (ApprovalRequestId * ApprovalRecord) :=
  omap (λ e, match snd (snd e) with None => Some (fst e, fst (snd e)) | Some _ => None end) (map_to_list t).

Definition list_resolved_for (t : ApprovalTable) (ids : list ApprovalRequestId)
  : list (ApprovalRequestId * ApprovalDecisionRow) :=
  omap (λ id, match t !! id with Some (_, Some d) => Some (id, d) | _ => None end) ids.

Definition decision_row (d : ApprovalDecision) (now : Z) : ApprovalDecisionRow :=
  {| dr_status := status_of d; dr_decided_at := now; dr_decided_by := decided_by_of d;
     dr_decision_reason := reason_of d; dr_decision_conditions := conditions_of d |}.

Definition record_of (req : ApprovalRequest) : ApprovalRecord :=
  {| ap_agent_id := aq_agent_id req; ap_action := aq_action req;
     ap_condition_triggered := aq_condition_triggered req; ap_submitted_at := aq_submitted_at req;
     ap_timeout_secs := aq_timeout_secs req; ap_team_id := aq_team_id req;
     ap_fallback := Some (aq_fallback req) |}.

Definition submit_persisted (q : ApprovalQueue) (t : ApprovalTable) (req : ApprovalRequest) (am : Ambient)
  : ApprovalQueue * ApprovalTable * Ticket :=
  let '(q', ticket) := submit q req am in (q', insert_pending t (aq_request_id req) (record_of req), ticket).

Definition decide_persisted (q : ApprovalQueue) (t : ApprovalTable) (id : ApprovalRequestId) (d : ApprovalDecision)
    (am : Ambient) : ApprovalQueue * ApprovalTable * result unit ApprovalError :=
  let '(q', r) := decide q id d am in
  (q', if is_ok r then fst (record_decision t id (decision_row d (am_now am))) else t, r).

Definition ingest_row (q : ApprovalQueue) (id : ApprovalRequestId) (r : ApprovalRecord) : ApprovalQueue :=
  match q_pending q !! id with
  | Some _ => q
  | None =>
      let req :=
        {| aq_request_id := id; aq_agent_id := ap_agent_id r; aq_action := ap_action r;
           aq_condition_triggered := ap_condition_triggered r; aq_submitted_at := ap_submitted_at r;
           aq_timeout_secs := ap_timeout_secs r;
           aq_fallback := default (Deny "corrupt persisted fallback") (ap_fallback r);
           aq_team_id := ap_team_id r; aq_timeout_override_secs := None; aq_escalation_role_override := None |} in
      {| q_pending := <[id := (req, None)]> (q_pending q); q_routing_meta := q_routing_meta q;
         q_resolved_history := q_resolved_history q; q_resolved_history_cap := q_resolved_history_cap q;
         q_audit := q_audit q; q_audit_sent := q_audit_sent q; q_events := q_events q ++ [req];
         q_expirations := q_expirations q; q_notified := q_notified q; q_settled := q_settled q;
         q_ingested := {[id]} ∪ q_ingested q; q_next_ticket := q_next_ticket q |}
  end.

Definition ingest_all (q : ApprovalQueue) (rows : list (ApprovalRequestId * ApprovalRecord)) : ApprovalQueue :=
  foldl (λ q r, ingest_row q (fst r) (snd r)) q rows.

Definition rehydrate_from_storage (q : ApprovalQueue) (t : ApprovalTable) : ApprovalQueue :=
  ingest_all q (list_pending t).

(** The verdict a row states for a request held here. *)
Definition decision_of_row (q : ApprovalQueue) (id : ApprovalRequestId) (d : ApprovalDecisionRow)
  : option ApprovalDecision :=
  if String.eqb (dr_status d) "approved"
  then Some (Verdict.Approved (dr_decided_by d) (dr_decision_reason d) (dr_decision_conditions d))
  else if String.eqb (dr_status d) "rejected"
  then Some (Verdict.Rejected (dr_decided_by d) (default EmptyString (dr_decision_reason d)))
  else if String.eqb (dr_status d) "timed_out"
  then (λ e, Verdict.TimedOut (aq_fallback (fst e))) <$> q_pending q !! id
  else None.

Definition apply_row (am : Ambient) (q : ApprovalQueue) (row : ApprovalRequestId * ApprovalDecisionRow)
  : ApprovalQueue :=
  match decision_of_row q (fst row) (snd row) with
  | Some d => fst (resolve q (fst row) d am)
  | None => q
  end.

Definition has_expired (now : Z) (req : ApprovalRequest) : bool :=
  Z.min u64_max (aq_submitted_at req + aq_timeout_secs req) <=? now.

Definition sweep_one (am : Ambient) (acc : ApprovalQueue * ApprovalTable) (e : ApprovalRequestId * ApprovalRequest)
  : ApprovalQueue * ApprovalTable :=
  let '(q, t) := acc in
  let d := Verdict.TimedOut (aq_fallback (snd e)) in
  (fst (resolve q (fst e) d am), fst (record_decision t (fst e) (decision_row d (am_now am)))).

Definition expired_of (q : ApprovalQueue) (now : Z) : list (ApprovalRequestId * ApprovalRequest) :=
  omap (λ e, if has_expired now (fst (snd e)) then Some (fst e, fst (snd e)) else None) (map_to_list (q_pending q)).

Definition sync_with_storage (q : ApprovalQueue) (t : ApprovalTable) (am : Ambient) : ApprovalQueue * ApprovalTable :=
  let q1 := ingest_all q (list_pending t) in
  let q2 := foldl (apply_row am) q1 (list_resolved_for t (map fst (map_to_list (q_pending q1)))) in
  foldl (sweep_one am) (q2, t) (expired_of q2 (am_now am)).
End Queue.
