(* ===== verification/ApprovalProps.v ===== *)
(** * ApprovalProps: one answer per request, and the limits of the shared table

    The operations of a queue refine a machine with three moves, a request asked, a request
    answered, and a move that changes neither; the invariant and the theorems on answers are
    proved on that machine.  The entries a queue sends to the audit channel are emissions of
    one chain, so the file they leave verifies.  Two limits of the polling of the shared table
    are proved with the code's own operations. *)

From stdpp Require Import base gmap strings list relations.
From Stdlib Require Import ZArith Lia Bool Ascii String.
From S2P Require Import Prelude.
From S2P Require Import Text.
From S2P Require Import CoreTypes.
From S2P Require Import AuditChain.
From S2P Require Import AuditProps.
From S2P Require Import Approval.

Open Scope Z_scope.
Open Scope aasm_scope.

Create HintDb approval.

Lemma history_cap_above n : (n < 10)%nat → (DEFAULT_RESOLVED_HISTORY_CAP <=? n)%nat = false.
Proof. intros Hn. unfold DEFAULT_RESOLVED_HISTORY_CAP. apply Nat.leb_gt. lia. Qed.

#[local] Opaque DEFAULT_RESOLVED_HISTORY_CAP.

(** ** The abstract machine *)

Record Board := {
  bd_open : gmap ApprovalRequestId (ApprovalRequest * option Ticket);
  bd_answers : gmap Ticket ApprovalDecision;
  bd_next : Ticket;
}.

Inductive board_step : Board → Board → Prop :=
| board_ask b req :
    bd_open b !! aq_request_id req = None →
    board_step b {| bd_open := <[aq_request_id req := (req, Some (bd_next b))]> (bd_open b);
                    bd_answers := bd_answers b; bd_next := S (bd_next b) |}
| board_learn b req :
    bd_open b !! aq_request_id req = None →
    board_step b {| bd_open := <[aq_request_id req := (req, None)]> (bd_open b);
                    bd_answers := bd_answers b; bd_next := bd_next b |}
| board_answer b id req ticket d :
    bd_open b !! id = Some (req, ticket) →
    board_step b {| bd_open := delete id (bd_open b);
                    bd_answers := match ticket with Some t => <[t := d]> (bd_answers b) | None => bd_answers b end;
                    bd_next := bd_next b |}
| board_idle b : board_step b b.

#[export] Hint Constructors board_step : approval.

Record board_ok (b : Board) : Prop := {
  bo_id : ∀ id req ticket, bd_open b !! id = Some (req, ticket) → aq_request_id req = id;
  bo_waiting : ∀ id req t, bd_open b !! id = Some (req, Some t) → (t < bd_next b)%nat ∧ bd_answers b !! t = None;
  bo_unique : ∀ i j r r' t, bd_open b !! i = Some (r, Some t) → bd_open b !! j = Some (r', Some t) → i = j;
  bo_answered : ∀ t d, bd_answers b !! t = Some d → (t < bd_next b)%nat;
}.

Lemma board_step_ok b b' : board_ok b → board_step b b' → board_ok b'.
Proof.
  intros [Hi Hw Hu Ha] Hs.
  destruct Hs as [b req Hnew|b req Hnew|b id req ticket d Hid|b]; [| | |by split].
  - split; simpl.
    + intros id r t [[<- [= <- <-]]|[_ ?]]%lookup_insert_Some; eauto.
    + intros id r t [[<- [= <- <-]]|[_ H]]%lookup_insert_Some; [|apply Hw in H as [? ?]; split; [lia|done]].
      split; [lia|]. destruct (bd_answers b !! bd_next b) eqn:E; [apply Ha in E; lia|done].
    + intros i j r r' t [[<- [= <- <-]]|[? Hx]]%lookup_insert_Some [[<- [= <-]]|[? Hy]]%lookup_insert_Some; eauto.
      * apply Hw in Hy. lia.
      * apply Hw in Hx. lia.
    + intros t d Hd. apply Ha in Hd. lia.
  - split; simpl; [| | |done].
    + intros id r t [[<- [= <- <-]]|[_ ?]]%lookup_insert_Some; eauto.
    + intros id r t [[_ [=]]|[_ ?]]%lookup_insert_Some; eauto.
    + intros i j r r' t [[_ [=]]|[_ ?]]%lookup_insert_Some [[_ [=]]|[_ ?]]%lookup_insert_Some; eauto.
  - split; simpl.
    + intros i r t [_ ?]%lookup_delete_Some; eauto.
    + intros i r t [Hne Hx]%lookup_delete_Some. pose proof (Hw _ _ _ Hx) as [? ?]. split; [done|].
      destruct ticket as [t'|]; [|done]. rewrite lookup_insert_ne; [done|]. intros ->. eauto.
    + intros i j r r' t [_ ?]%lookup_delete_Some [_ ?]%lookup_delete_Some; eauto.
    + intros t d'. destruct ticket as [t'|]; [|apply Ha].
      intros [[<- _]|[_ ?]]%lookup_insert_Some; [by apply Hw in Hid as [? _]|eauto].
Qed.

(** An answer given stays as it is. *)
Lemma board_answer_final b b' t d :
  board_ok b → board_step b b' → bd_answers b !! t = Some d → bd_answers b' !! t = Some d.
Proof.
  intros Hok Hs Ht. destruct Hs as [| |b id req [t'|] d' Hid|]; simpl; try done.
  rewrite lookup_insert_ne; [done|]. intros ->. apply (bo_waiting _ Hok) in Hid as [_ ?]. congruence.
Qed.

(** A waiter waits on its request, or has its answer. *)
Definition served (id : ApprovalRequestId) (t : Ticket) (b : Board) : Prop :=
  (∃ req, bd_open b !! id = Some (req, Some t)) ∨ is_Some (bd_answers b !! t).

Lemma board_step_served id t b b' : board_ok b → board_step b b' → served id t b → served id t b'.
Proof.
  intros Hok Hs [[r Hr]|[d Hd]]; [|right; exists d; by apply (board_answer_final b)].
  destruct Hs as [b req Hnew|b req Hnew|b id' req ticket d Hid|b]; [| | |by left; eauto].
  - left. exists r. simpl. rewrite lookup_insert_ne by congruence. done.
  - left. exists r. simpl. rewrite lookup_insert_ne by congruence. done.
  - destruct (base.decide (id' = id)) as [->|Hne].
    + right. simplify_eq. simpl. rewrite lookup_insert_eq. eauto.
    + left. exists r. simpl. by rewrite lookup_delete_ne.
Qed.

Lemma board_steps_ok b b' : board_ok b → rtc board_step b b' → board_ok b'.
Proof. intros Hok Hs. induction Hs; eauto using board_step_ok. Qed.

Lemma board_answers_grow b b' t d :
  board_ok b → rtc board_step b b' → bd_answers b !! t = Some d → bd_answers b' !! t = Some d.
Proof. intros Hok Hs. induction Hs; eauto using board_step_ok, board_answer_final. Qed.

Lemma board_steps_served id t b b' : board_ok b → rtc board_step b b' → served id t b → served id t b'.
Proof. intros Hok Hs. induction Hs; eauto using board_step_ok, board_step_served. Qed.

(** ** The queue *)

Definition board_of (q : ApprovalQueue) : Board :=
  {| bd_open := q_pending q; bd_answers := q_settled q; bd_next := q_next_ticket q |}.

Definition queue_ok (q : ApprovalQueue) : Prop :=
  board_ok (board_of q) ∧ (List.length (q_resolved_history q) ≤ Nat.max 1 (q_resolved_history_cap q))%nat.

Section Props.
Context (sha256 : list Z → Digest).
Context (hash_to_16 : string → N) (id_text : ApprovalRequestId → string).
Context (payload_of : ApprovalRequest → option string → string).

Abbreviation resolve := (resolve sha256 hash_to_16 id_text payload_of).
Abbreviation decide_ := (decide sha256 hash_to_16 id_text payload_of).
Abbreviation submit := (submit sha256 hash_to_16 id_text payload_of).
Abbreviation fire_timeout := (fire_timeout sha256 hash_to_16 id_text payload_of).
Abbreviation sync_with_storage := (sync_with_storage sha256 hash_to_16 id_text payload_of).
Abbreviation emit_audit := (emit_audit sha256 hash_to_16 id_text payload_of).

(** A step of the queue: one operation of its interface, of a timeout task or of a poll;
    a submission brings a new id. *)
Inductive queue_step : ApprovalQueue → ApprovalQueue → Prop :=
| step_submit q req am : q_pending q !! aq_request_id req = None → queue_step q (fst (submit q req am))
| step_decide q id d am : queue_step q (fst (decide_ q id d am))
| step_timeout q id fallback am : queue_step q (fire_timeout q id fallback am)
| step_resolve q id d am : queue_step q (fst (resolve q id d am))
| step_record q id status role routed escalate entry :
    queue_step q (fst (record_routing q id status role routed escalate entry))
| step_status q id status now : queue_step q (fst (update_routing_status q id status now))
| step_forward q id to now : queue_step q (fst (forward q id to now))
| step_ingest q id r : queue_step q (ingest_row q id r).

Lemma decide_state q id d am : fst (decide_ q id d am) = fst (resolve q id d am).
Proof. unfold decide. by destruct (Approval.resolve _ _ _ _ q id d am). Qed.

Lemma resolve_pending q id d am req ticket :
  q_pending q !! id = Some (req, ticket) →
  let q' := fst (resolve q id d am) in
  snd (resolve q id d am) = true ∧ q_pending q' = delete id (q_pending q) ∧
  q_settled q' = match ticket with Some t => <[t := d]> (q_settled q) | None => q_settled q end ∧
  q_next_ticket q' = q_next_ticket q ∧
  q_resolved_history q' = record_resolution q req d (am_now am) ∧
  q_resolved_history_cap q' = q_resolved_history_cap q ∧
  (q_audit q', q_audit_sent q') = emit_audit q (event_of d) req (Some (decided_by_of d)) am.
Proof.
  intros Hp. unfold Approval.resolve. rewrite Hp. by destruct (Approval.emit_audit _ _ _ _ _ _ _ _ _).
Qed.

Lemma resolve_unknown q id d am :
  q_pending q !! id = None →
  resolve q id d am = (set_routing q (delete id (q_routing_meta q)), false).
Proof. intros Hp. unfold Approval.resolve. by rewrite Hp. Qed.

Lemma resolve_board q id d am : board_step (board_of q) (board_of (fst (resolve q id d am))).
Proof.
  destruct (q_pending q !! id) as [[req ticket]|] eqn:Hp.
  - destruct (resolve_pending q id d am req ticket Hp) as (_ & Hd & Hs & Hn & _).
    unfold board_of at 2. rewrite Hd, Hs, Hn. by apply (board_answer (board_of q) id req ticket d).
  - rewrite resolve_unknown by done. apply board_idle.
Qed.

Lemma record_routing_board q id status role routed escalate entry :
  let q' := fst (record_routing q id status role routed escalate entry) in
  board_of q' = board_of q ∧ q_resolved_history q' = q_resolved_history q ∧
  q_resolved_history_cap q' = q_resolved_history_cap q ∧
  q_audit q' = q_audit q ∧ q_audit_sent q' = q_audit_sent q.
Proof. unfold record_routing. by destruct (q_pending q !! id). Qed.

Lemma submit_fields q req am :
  let q' := fst (submit q req am) in
  snd (submit q req am) = q_next_ticket q ∧
  board_of q' = {| bd_open := <[aq_request_id req := (req, Some (q_next_ticket q))]> (q_pending q);
                   bd_answers := q_settled q; bd_next := S (q_next_ticket q) |} ∧
  q_resolved_history q' = q_resolved_history q ∧ q_resolved_history_cap q' = q_resolved_history_cap q ∧
  (q_audit q', q_audit_sent q') = emit_audit q Event.ApprovalRequested req None am.
Proof. unfold Approval.submit. by destruct (Approval.emit_audit _ _ _ _ _ _ _ _ _). Qed.

Lemma ingest_fields q id r :
  let q' := ingest_row q id r in
  board_step (board_of q) (board_of q') ∧
  q_resolved_history q' = q_resolved_history q ∧ q_resolved_history_cap q' = q_resolved_history_cap q ∧
  q_audit q' = q_audit q ∧ q_audit_sent q' = q_audit_sent q.
Proof.
  unfold ingest_row. destruct (q_pending q !! id) eqn:Hp; [eauto with approval|].
  split; [|done]. apply (board_learn (board_of q)). done.
Qed.

(** Every operation of the queue is a move of the machine. *)
Lemma queue_step_board q q' : queue_step q q' → board_step (board_of q) (board_of q').
Proof.
  destruct 1; rewrite ?decide_state; try apply resolve_board.
  - destruct (submit_fields q req am) as (_ & -> & _). by apply (board_ask (board_of q)).
  - rewrite (proj1 (record_routing_board _ _ _ _ _ _ _)). apply board_idle.
  - unfold update_routing_status. rewrite (proj1 (record_routing_board _ _ _ _ _ _ _)). apply board_idle.
  - unfold forward. rewrite (proj1 (record_routing_board _ _ _ _ _ _ _)). apply board_idle.
  - apply ingest_fields.
Qed.

Lemma record_resolution_length q req d now :
  (List.length (q_resolved_history q) ≤ Nat.max 1 (q_resolved_history_cap q))%nat →
  (List.length (record_resolution q req d now) ≤ Nat.max 1 (q_resolved_history_cap q))%nat.
Proof.
  unfold record_resolution. intros Hl. rewrite length_app. simpl.
  destruct (Nat.leb_spec (q_resolved_history_cap q) (List.length (q_resolved_history q))); [|lia].
  destruct (q_resolved_history q); simpl in *; lia.
Qed.

(** What an operation does besides its move: it may resolve one request, send one entry, or
    leave history and audit as they are. *)
Inductive bookkeeping (q q' : ApprovalQueue) : Prop :=
| books_same :
    q_resolved_history q' = q_resolved_history q → q_resolved_history_cap q' = q_resolved_history_cap q →
    q_audit q' = q_audit q → q_audit_sent q' = q_audit_sent q → bookkeeping q q'
| books_entry event_type req by_ am :
    q_resolved_history q' = q_resolved_history q ∨
      (∃ d, q_resolved_history q' = record_resolution q req d (am_now am)) →
    q_resolved_history_cap q' = q_resolved_history_cap q →
    (q_audit q', q_audit_sent q') = emit_audit q event_type req by_ am → bookkeeping q q'.

Lemma resolve_books q id d am : bookkeeping q (fst (resolve q id d am)).
Proof.
  destruct (q_pending q !! id) as [[req ticket]|] eqn:Hp.
  - destruct (resolve_pending q id d am req ticket Hp) as (_ & _ & _ & _ & Hh & Hc & Ha).
    eapply books_entry; [right; by exists d|done|exact Ha].
  - rewrite resolve_unknown by done. by apply books_same.
Qed.

Lemma routing_books q id status role routed escalate entry :
  bookkeeping q (fst (record_routing q id status role routed escalate entry)).
Proof.
  destruct (record_routing_board q id status role routed escalate entry) as (_ & ? & ? & ? & ?). by apply books_same.
Qed.

Lemma queue_step_books q q' : queue_step q q' → bookkeeping q q'.
Proof.
  destruct 1; rewrite ?decide_state; try apply resolve_books; try apply routing_books.
  - destruct (submit_fields q req am) as (_ & _ & ? & ? & Ha). eapply books_entry; [by left|done|exact Ha].
  - destruct (ingest_fields q id r) as (_ & ? & ? & ? & ?). by apply books_same.
Qed.

Lemma queue_step_ok q q' : queue_ok q → queue_step q q' → queue_ok q'.
Proof.
  intros [Hb Hl] Hs. split; [by eapply board_step_ok, queue_step_board|].
  destruct (queue_step_books _ _ Hs) as [-> -> _ _|et req by_ am [->|[d ->]] -> _]; [done|done|].
  by apply record_resolution_length.
Qed.

Lemma queue_steps_ok q q' : queue_ok q → rtc queue_step q q' → queue_ok q'.
Proof. intros Hok Hs. induction Hs; eauto using queue_step_ok. Qed.

Lemma queue_steps_board q q' : rtc queue_step q q' → rtc board_step (board_of q) (board_of q').
Proof. induction 1; [done|]. eapply rtc_l; [by apply queue_step_board|done]. Qed.

Lemma queue_with_ok audit cap : queue_ok (queue_with audit cap).
Proof. split; [|simpl; lia]. split; simpl; intros *; rewrite ?lookup_empty; done. Qed.

(** A poll of the shared table is a sequence of steps. *)
Lemma ingest_all_steps q rows : rtc queue_step q (ingest_all q rows).
Proof.
  unfold ingest_all. revert q. induction rows as [|r rows IH]; intros q; simpl; [done|].
  eapply rtc_l; [apply step_ingest|apply IH].
Qed.

Lemma sync_steps q t am : rtc queue_step q (fst (sync_with_storage q t am)).
Proof.
  unfold Approval.sync_with_storage. set (q1 := ingest_all q _). set (ids := list_resolved_for _ _).
  set (q2 := foldl _ q1 ids).
  assert (rtc queue_step q1 q2) as H2.
  { unfold q2. clearbody q1 ids. clear q2. revert q1. induction ids as [|row ids IH]; intros q1; simpl; [done|].
    etransitivity; [|apply IH]. unfold apply_row. destruct (decision_of_row _ _ _); [|done].
    apply rtc_once, step_resolve. }
  etransitivity; [apply (ingest_all_steps q (list_pending t))|].
  etransitivity; [exact H2|]. generalize (expired_of q2 (am_now am)). clearbody q2. clear.
  intros es. revert q2 t. induction es as [|e es IH]; intros q t; simpl; [done|].
  eapply rtc_l; [|apply IH]. apply step_resolve.
Qed.

(** ** Answers *)

Lemma decide_after q id d am req ticket :
  queue_ok q → q_pending q !! id = Some (req, ticket) →
  let q1 := fst (decide_ q id d am) in
  snd (decide_ q id d am) = Ok tt ∧ q_pending q1 !! id = None ∧
  ∃ r, q_resolved_history q1 = removelast (q_resolved_history q1) ++ [r] ∧ rr_request_id r = id ∧
    rr_status r = status_of d ∧ rr_decided_by r = decided_by_of d ∧ rr_decision_conditions r = conditions_of d.
Proof.
  intros [Hb _] Hp. rewrite decide_state. unfold decide.
  destruct (resolve_pending q id d am req ticket Hp) as (Hr & Hd & _ & _ & Hh & _).
  destruct (Approval.resolve _ _ _ _ q id d am) as [q1 ok]. simpl in *. subst ok. rewrite Hd, lookup_delete_eq.
  split_and!; [done..|]. rewrite Hh. unfold record_resolution. rewrite removelast_last. eexists. split; [done|].
  simpl. split_and!; [|done..]. by apply (bo_id _ Hb id req ticket).
Qed.

Lemma decide_settles q id req t d am :
  q_pending q !! id = Some (req, Some t) → q_settled (fst (decide_ q id d am)) !! t = Some d.
Proof.
  intros Hp. rewrite decide_state. destruct (resolve_pending q id d am req (Some t) Hp) as (_ & _ & -> & _).
  by rewrite lookup_insert_eq.
Qed.

Lemma answers_persist q q' t d :
  queue_ok q → rtc queue_step q q' → q_settled q !! t = Some d → q_settled q' !! t = Some d.
Proof. intros Hok Hs%queue_steps_board. by apply (board_answers_grow (board_of q) (board_of q')); [apply Hok|]. Qed.

(** The record of a resolution is in the history with at most [n] after it. *)
Definition remembered (n : nat) (r : ResolvedRecord) (q : ApprovalQueue) : Prop :=
  ∃ pre suf, q_resolved_history q = pre ++ r :: suf ∧ (List.length suf ≤ n)%nat.

Lemma step_remembers n r q q' :
  queue_step q q' → (S n < q_resolved_history_cap q)%nat → remembered n r q → remembered (S n) r q'.
Proof.
  intros Hs Hcap (pre & suf & Hh & Hn). unfold remembered.
  destruct (queue_step_books _ _ Hs) as [-> _ _ _|et req by_ am [->|[d ->]] _ _]; [exists pre, suf; split; [done|lia]..|].
  unfold record_resolution. rewrite Hh.
  destruct (Nat.leb_spec (q_resolved_history_cap q) (List.length (pre ++ r :: suf))) as [Hc|].
  - destruct pre as [|x pre]; [cbn [app List.length] in Hc; lia|]. eexists pre, (suf ++ [_]). cbn [app tl].
    split; [by rewrite <-app_assoc|]. rewrite length_app. cbn [List.length]. lia.
  - eexists pre, (suf ++ [_]). split; [by rewrite <-app_assoc|]. rewrite length_app. cbn [List.length]. lia.
Qed.

Lemma step_keeps_cap q q' : queue_step q q' → q_resolved_history_cap q' = q_resolved_history_cap q.
Proof. by intros [_ -> _ _|? ? ? ? _ -> _]%queue_step_books. Qed.

Lemma steps_remember n m r q q' :
  nsteps queue_step m q q' → (n + m < q_resolved_history_cap q)%nat → remembered n r q → remembered (n + m) r q'.
Proof.
  intros Hs. revert n. induction Hs as [q|m q q1 q2 H1 _ IH]; intros n Hc Hr; [by rewrite Nat.add_0_r|].
  rewrite <-Nat.add_succ_comm in *. apply IH; [by rewrite (step_keeps_cap _ _ H1)|]. apply (step_remembers n r q); [done|lia|done].
Qed.

(** Deciding what is not pending is refused, as already decided while the record is there. *)
Lemma decide_absent q id d am :
  q_pending q !! id = None →
  ∃ e, snd (decide_ q id d am) = Err e ∧ ∀ n r, remembered n r q → rr_request_id r = id → e = AlreadyDecided.
Proof.
  intros Hn. unfold decide. rewrite resolve_unknown by done. cbn [fst snd set_routing q_resolved_history].
  destruct (existsb _ _) eqn:He; [by eexists|]. eexists. split; [done|]. intros n r (pre & suf & Hh & _) Hid. exfalso.
  apply not_true_iff_false in He. apply He. rewrite Hh, existsb_app. cbn [existsb]. by rewrite Hid, N.eqb_refl, orb_true_r.
Qed.

(** C21: a request is answered once: deciding a request that waits succeeds, hands exactly
    that decision to its waiter and makes it the record the lookup returns; a decision on the
    id right after is refused as already decided; and no sequence of submissions, decisions,
    timeouts, routing changes and polls of the shared table ever changes the answer the waiter
    was given.  After any such sequence, while the id is not pending again (a poll may learn
    its row again), a decision on it is refused, and as already decided while the sequence is
    shorter than the bound on the history; later the record may be gone and the answer is that
    the id is not found. *)
Theorem approval_decision_final q id req t d am :
  queue_ok q → q_pending q !! id = Some (req, Some t) →
  let q1 := fst (decide_ q id d am) in
  snd (decide_ q id d am) = Ok tt ∧ q_settled q1 !! t = Some d ∧
  (∃ r, get_by_id q1 id = Some (ResolvedRequest r) ∧ rr_status r = status_of d ∧ rr_decided_by r = decided_by_of d) ∧
  (∀ d' am', snd (decide_ q1 id d' am') = Err AlreadyDecided) ∧
  ∀ n q2, nsteps queue_step n q1 q2 →
    q_settled q2 !! t = Some d ∧
    (q_pending q2 !! id = None → ∀ d' am', ∃ e, snd (decide_ q2 id d' am') = Err e ∧
       ((n < q_resolved_history_cap q)%nat → e = AlreadyDecided)).
Proof.
  intros Hok Hp q1.
  destruct (decide_after q id d am req (Some t) Hok Hp) as (Hr & Hn & r & Hh & Hid & Hs & Hby & _). fold q1 in Hn, Hh.
  pose proof (decide_settles q id req t d am Hp) as Ht.
  assert (remembered 0 r q1) as Hrem by (by exists (removelast (q_resolved_history q1)), []).
  assert (queue_step q q1) as Hstep by apply step_decide.
  split_and!; [done|done| | |].
  - exists r. unfold get_by_id. rewrite Hn, Hh, rev_unit. simpl. rewrite Hid, N.eqb_refl. done.
  - intros d' am'. destruct (decide_absent q1 id d' am' Hn) as (e & -> & He). by rewrite (He 0%nat r).
  - intros n q2 Hs2. split.
    + apply (answers_persist q1 q2 t d); [by apply (queue_step_ok q q1)|by eapply rtc_nsteps_2|done].
    + intros Hn2 d' am'. destruct (decide_absent q2 id d' am' Hn2) as (e & -> & He). exists e. split; [done|]. intros Hlt.
      apply (He n r); [|done]. apply (steps_remember 0 n r q1); [done| |done]. by rewrite (step_keeps_cap _ _ Hstep).
Qed.

(** C22: no waiter is left hanging: whatever happens between a
    submission and the moment its timeout fires, the waiter has an answer afterwards; it is
    the request's own fallback exactly when nobody decided before. *)
Theorem approval_always_answered q req am q' am' :
  queue_ok q → q_pending q !! aq_request_id req = None →
  let t := snd (submit q req am) in
  rtc queue_step (fst (submit q req am)) q' →
  q_settled (fire_timeout q' (aq_request_id req) (aq_fallback req) am') !! t =
    Some (default (Verdict.TimedOut (aq_fallback req)) (q_settled q' !! t)).
Proof.
  intros Hok Hnew t Hs.
  pose proof (queue_step_ok _ _ Hok (step_submit q req am Hnew)) as Hok1.
  destruct (submit_fields q req am) as (Ht & Hbd & _). fold t in Ht.
  pose proof (queue_steps_ok _ _ Hok1 Hs) as Hok'.
  assert (served (aq_request_id req) t (board_of q')) as Hserved.
  { apply (board_steps_served _ _ (board_of (fst (submit q req am)))); [apply Hok1|by apply queue_steps_board|].
    left. exists req. rewrite Hbd, Ht. simpl. by rewrite lookup_insert_eq. }
  unfold Approval.fire_timeout. destruct Hserved as [[r Hr]|[d Hd]]; simpl in *.
  - destruct (resolve_pending q' (aq_request_id req) (Verdict.TimedOut (aq_fallback req)) am' r (Some t) Hr)
      as (_ & _ & -> & _).
    destruct (bo_waiting _ (proj1 Hok') _ _ _ Hr) as [_ Hnone]. simpl in Hnone. by rewrite lookup_insert_eq, Hnone.
  - rewrite Hd. simpl.
    apply (board_answer_final (board_of q') (board_of (fst (resolve q' _ _ am'))) t d); [apply Hok'|apply resolve_board|done].
Qed.

(** ** The audit entries of a queue *)

Definition chain_after (s : ChainState) (es : list ((Z → Digest → AuditEntry) * ChannelOutcome)) : ChainState :=
  foldl (λ s e, fst (fst (emit s (fst e) (snd e)))) s es.

Lemma emissions_snoc s es b o :
  emissions s (es ++ [(b, o)]) =
  emissions s es ++ match snd (emit (chain_after s es) b o) with Some e => [e] | None => [] end.
Proof.
  unfold chain_after. revert s. induction es as [|[b' o'] es IH]; intros s.
  - simpl. by destruct o.
  - cbn [emissions List.app foldl fst snd]. destruct (emit s b' o') as [[s' x] [e|]]; cbn [fst]; by rewrite IH.
Qed.

Definition audited (s0 : ChainState) (q : ApprovalQueue) : Prop :=
  ∃ es, Forall (λ b, honest sha256 (fst b)) es ∧ q_audit q = Some (chain_after s0 es) ∧
    q_audit_sent q = emissions s0 es.

Lemma queue_step_audited s0 q q' : queue_step q q' → audited s0 q → audited s0 q'.
Proof.
  intros [_ _ Ha Hs|et req by_ am _ _ He]%queue_step_books (es & Hh & Hc & Hsent).
  { exists es. by rewrite Ha, Hs. }
  revert He. unfold Approval.emit_audit. rewrite Hc, Hsent. set (build := λ seq prev, _).
  set (o := am_channel am _). intros He. exists (es ++ [(build, o)]). split_and!.
  - apply Forall_app. split; [done|]. apply Forall_singleton. intros seq prev. simpl. split_and!; [done..|].
    by apply bool_decide_eq_true.
  - unfold chain_after. rewrite foldl_app. simpl. fold (chain_after s0 es).
    destruct (emit (chain_after s0 es) build o) as [[s' x] sent]. by simplify_eq.
  - rewrite emissions_snoc. destruct (emit (chain_after s0 es) build o) as [[s' x] sent]. by simplify_eq.
Qed.

(** Whatever a queue goes through, the audit entries it hands to
    its channel form a file that verifies: it is reported verified or, when the channel lost
    entries in between, incomplete, and never tampered. *)
Theorem queue_audit_verifies initial_hash q :
  rtc queue_step (queue_with_audit initial_hash) q →
  ∃ r, verify_chain sha256 (map LineOf (q_audit_sent q)) = Ok r ∧
    vr_outcome r = (if 0 <? vr_missing_entries r then Incomplete else Verified).
Proof.
  intros Hs. set (s0 := {| cs_next_seq := 0; cs_last_hash := initial_hash |}).
  assert (audited s0 q) as (es & Hh & _ & ->).
  { assert (audited s0 (queue_with_audit initial_hash)) as H0 by (by exists []).
    revert H0. induction Hs; eauto using queue_step_audited. }
  destruct (emissions_verify_first sha256 s0 es 0 [] 0 Hh) as (r & Hr & _ & Ho). exists r. by split.
Qed.

(** ** Two processes on one table *)

Abbreviation submit_persisted := (submit_persisted sha256 hash_to_16 id_text payload_of).
Abbreviation decide_persisted := (decide_persisted sha256 hash_to_16 id_text payload_of).

Lemma list_pending_singleton id r : list_pending {[id := (r, None)]} = [(id, r)].
Proof. unfold list_pending. by rewrite map_to_list_singleton. Qed.

Lemma ingest_new q id r :
  q_pending q !! id = None →
  ∃ req, q_pending (ingest_row q id r) = <[id := (req, None)]> (q_pending q) ∧
    aq_request_id req = id ∧ q_events (ingest_row q id r) = q_events q ++ [req] ∧
    aq_submitted_at req = ap_submitted_at r ∧ aq_timeout_secs req = ap_timeout_secs r ∧
    (ap_fallback r = Some (aq_fallback req) ∨ ap_fallback r = None) ∧
    q_resolved_history (ingest_row q id r) = q_resolved_history q ∧
    q_expirations (ingest_row q id r) = q_expirations q ∧
    q_resolved_history_cap (ingest_row q id r) = q_resolved_history_cap q.
Proof.
  intros Hn. unfold ingest_row. rewrite Hn. eexists. split; [done|]. simpl. split_and!; try done.
  destruct (ap_fallback r); eauto.
Qed.

Lemma resolve_logs q id d am req ticket :
  q_pending q !! id = Some (req, ticket) →
  let q' := fst (resolve q id d am) in
  q_events q' = q_events q ∧
  q_expirations q' = (if is_timeout d then q_expirations q ++ [req] else q_expirations q).
Proof. intros Hp. unfold Approval.resolve. rewrite Hp. by destruct (Approval.emit_audit _ _ _ _ _ _ _ _ _). Qed.

(** Two processes can decide one request differently: when the
    process that did not submit the request rejects it, and the submitter approves it
    before its next poll, both are told their decision was applied; the agent waiting on
    the submitter is let through, the shared table says rejected, and no later poll by the
    submitter changes what it was told. *)
Theorem split_decision req am1 am2 am3 am4 no yes why :
  let '(p1, table, t) := submit_persisted queue_new ∅ req am1 in
  let p2 := rehydrate_from_storage queue_new table in
  let '(_, table', r2) := decide_persisted p2 table (aq_request_id req) (Verdict.Rejected no why) am2 in
  let '(p1', table'', r1) := decide_persisted p1 table' (aq_request_id req) (Verdict.Approved yes None []) am3 in
  r2 = Ok tt ∧ r1 = Ok tt ∧ table'' = table' ∧
  (snd <$> table'' !! aq_request_id req) = Some (Some (decision_row (Verdict.Rejected no why) (am_now am2))) ∧
  q_settled (fst (sync_with_storage p1' table'' am4)) !! t = Some (Verdict.Approved yes None []).
Proof.
  unfold Approval.submit_persisted. destruct (submit_fields queue_new req am1) as (Ht & Hb & _).
  pose proof (queue_step_ok queue_new (fst (submit queue_new req am1)) (queue_with_ok _ _)
                (step_submit queue_new req am1 eq_refl)) as Hok1.
  destruct (Approval.submit _ _ _ _ queue_new req am1) as [p1 t]. simpl in Ht, Hb, Hok1. subst t.
  injection Hb as Hp1 _ _. unfold rehydrate_from_storage, insert_pending. rewrite insert_empty, list_pending_singleton.
  unfold ingest_all. simpl foldl. set (p2 := ingest_row _ _ _).
  assert (∃ r2, q_pending p2 !! aq_request_id req = Some (r2, None)) as [r2 Hp2].
  { destruct (ingest_new queue_new (aq_request_id req) (record_of req) eq_refl) as (r2 & Hr & _).
    exists r2. unfold p2. by rewrite Hr, lookup_insert_eq. }
  assert (queue_ok p2) as Hok2 by (apply (queue_step_ok queue_new), step_ingest; apply queue_with_ok).
  unfold Approval.decide_persisted.
  pose proof (decide_after p2 _ (Verdict.Rejected no why) am2 _ _ Hok2 Hp2) as (Hr2 & _).
  destruct (Approval.decide _ _ _ _ p2 _ _ am2) as [p2' r]. simpl in Hr2. subst r.
  assert (q_pending p1 !! aq_request_id req = Some (req, Some 0%nat)) as Hq1 by (by rewrite Hp1, lookup_insert_eq).
  set (d := Verdict.Approved yes None []).
  pose proof (decide_after p1 _ d am3 _ _ Hok1 Hq1) as (Hr1 & _).
  pose proof (decide_settles p1 _ req 0%nat d am3 Hq1) as Hd.
  pose proof (queue_step_ok _ _ Hok1 (step_decide p1 (aq_request_id req) d am3)) as Hok1'.
  destruct (Approval.decide _ _ _ _ p1 _ _ am3) as [p1' r]. simpl in Hr1, Hd, Hok1'. subst r.
  cbn [is_ok]. unfold record_decision. rewrite lookup_singleton_eq. cbn [fst snd]. rewrite lookup_insert_eq.
  cbn [fst snd]. split_and!; try done; [by rewrite lookup_insert_eq|]. by apply (answers_persist p1'), Hd; [|apply sync_steps].
Qed.

Lemma sync_alone q table am id r :
  q_pending q = ∅ → table = {[id := (r, None)]} →
  has_expired (am_now am) {| aq_request_id := id; aq_agent_id := ap_agent_id r; aq_action := ap_action r;
    aq_condition_triggered := ap_condition_triggered r; aq_submitted_at := ap_submitted_at r;
    aq_timeout_secs := ap_timeout_secs r; aq_fallback := default (Deny "corrupt persisted fallback") (ap_fallback r);
    aq_team_id := ap_team_id r; aq_timeout_override_secs := None; aq_escalation_role_override := None |} = true →
  ∃ req, aq_request_id req = id ∧
    fst (sync_with_storage q table am) =
      fst (resolve (ingest_row q id r) id (Verdict.TimedOut (aq_fallback req)) am) ∧
    q_pending (ingest_row q id r) !! id = Some (req, None) ∧
    q_events (ingest_row q id r) = q_events q ++ [req] ∧
    q_resolved_history (ingest_row q id r) = q_resolved_history q ∧
    q_resolved_history_cap (ingest_row q id r) = q_resolved_history_cap q ∧
    q_expirations (ingest_row q id r) = q_expirations q.
Proof.
  intros Hq -> Hx. unfold Approval.sync_with_storage. rewrite list_pending_singleton.
  unfold ingest_all. cbn [foldl fst snd].
  unfold ingest_row. rewrite Hq, lookup_empty. match goal with H : has_expired _ ?r = true |- _ => set (req := r) in * end.
  exists req. cbn [q_pending q_events q_resolved_history q_resolved_history_cap q_expirations].
  rewrite insert_empty, map_to_list_singleton. cbn [map fst]. unfold list_resolved_for. cbn [omap list_omap].
  rewrite lookup_singleton_eq. cbn [foldl]. unfold expired_of.
  cbn [q_pending]. rewrite map_to_list_singleton. cbn [omap list_omap fst snd]. rewrite Hx. cbn [foldl sweep_one fst snd].
  rewrite lookup_singleton_eq. done.
Qed.

(** A timeout that fires in the submitting process is not
    written to the shared table, and the next poll takes the row for a new request: it is
    announced a second time, resolved a second time and broadcast as expired a second time,
    with a second record in the history. *)
Theorem timeout_is_ingested_again req am0 am1 am2 :
  has_expired (am_now am2) req = true →
  let '(q0, table, _) := submit_persisted queue_new ∅ req am0 in
  let q1 := fire_timeout q0 (aq_request_id req) (aq_fallback req) am1 in
  let q2 := fst (sync_with_storage q1 table am2) in
  map aq_request_id (q_events q2) = [aq_request_id req; aq_request_id req] ∧
  map aq_request_id (q_expirations q2) = [aq_request_id req; aq_request_id req] ∧
  map (λ r, (rr_request_id r, rr_status r)) (q_resolved_history q2) =
    [(aq_request_id req, "timed_out"%string); (aq_request_id req, "timed_out"%string)].
Proof.
  intros Hx. unfold Approval.submit_persisted.
  destruct (submit_fields queue_new req am0) as (_ & Hb & Hh & Hc & _).
  assert (q_events (fst (submit queue_new req am0)) = [req] ∧ q_expirations (fst (submit queue_new req am0)) = [])
    as [He Hxp] by done.
  destruct (Approval.submit _ _ _ _ queue_new req am0) as [q0 t]. cbn [fst snd] in *. injection Hb as Hp _ _.
  unfold insert_pending, Approval.fire_timeout. rewrite insert_empty.
  change (q_pending queue_new) with (∅ : gmap ApprovalRequestId (ApprovalRequest * option Ticket)) in Hp.
  rewrite insert_empty in Hp.
  assert (q_pending q0 !! aq_request_id req = Some (req, Some (q_next_ticket queue_new))) as Hq0
    by (by rewrite Hp, lookup_singleton_eq).
  set (d1 := Verdict.TimedOut _).
  destruct (resolve_pending q0 _ d1 am1 _ _ Hq0) as (_ & Hp1 & _ & _ & Hh1 & Hc1 & _).
  destruct (resolve_logs q0 _ d1 am1 _ _ Hq0) as [He1 Hx1].
  set (q1 := fst (resolve q0 _ d1 am1)) in *. rewrite Hp, delete_singleton_eq in Hp1.
  destruct (sync_alone q1 _ am2 (aq_request_id req) (record_of req) Hp1 eq_refl Hx)
    as (r2 & Hid & -> & Hr2 & He2 & Hh2 & Hc2 & Hx2).
  set (q2 := ingest_row q1 _ _) in *. set (d2 := Verdict.TimedOut (aq_fallback r2)).
  destruct (resolve_pending q2 _ d2 am2 _ _ Hr2) as (_ & _ & _ & _ & -> & _).
  destruct (resolve_logs q2 _ d2 am2 _ _ Hr2) as [-> ->].
  unfold record_resolution. rewrite He2, Hx2, Hh2, Hc2, Hh1, Hc1, He1, Hx1, He, Hxp.
  unfold record_resolution. rewrite Hh, Hc. cbn [is_timeout d1 d2 q_resolved_history q_resolved_history_cap queue_new queue_with].
  rewrite (history_cap_above (List.length (@nil ResolvedRecord))) by (simpl; lia).
  rewrite history_cap_above by (simpl; lia). simpl. by rewrite Hid.
Qed.
End Props.

(** ** Concrete runs *)

Definition demo_request : ApprovalRequest :=
  {| aq_request_id := 7%N; aq_agent_id := "agent-1"; aq_action := "read_file /etc/passwd";
     aq_condition_triggered := "sensitive-file-access"; aq_submitted_at := 100; aq_timeout_secs := 30;
     aq_fallback := Deny "timed out"; aq_team_id := Some "team"; aq_timeout_override_secs := None;
     aq_escalation_role_override := None |}.

Definition demo_ambient (now : Z) (o : ChannelOutcome) : Ambient :=
  {| am_now := now; am_timestamp_ns := now; am_channel := λ _, o |}.

Definition demo_payload (r : ApprovalRequest) (by_ : option string) : string := default (aq_action r) by_.

Definition demo_id (_ : ApprovalRequestId) : string := "7".

Definition demo_submitted : ApprovalQueue :=
  fst (submit toy_hash (λ _, 1%N) demo_id demo_payload (queue_with_audit ZERO_HASH) demo_request (demo_ambient 100 Accepted)).

Lemma demo_submitted_ok : queue_ok demo_submitted.
Proof.
  apply (queue_step_ok toy_hash (λ _, 1%N) demo_id demo_payload (queue_with_audit ZERO_HASH)).
  - apply queue_with_ok.
  - by apply step_submit.
Qed.

Lemma approval_decision_final_witness :
  q_settled (fst (decide toy_hash (λ _, 1%N) demo_id demo_payload demo_submitted 7%N
                    (Verdict.Rejected "op" "no") (demo_ambient 110 Full))) !! 0%nat = Some (Verdict.Rejected "op" "no").
Proof.
  destruct (approval_decision_final toy_hash (λ _, 1%N) demo_id demo_payload demo_submitted 7%N demo_request 0%nat
              (Verdict.Rejected "op" "no") (demo_ambient 110 Full)) as (_ & H & _).
  - exact demo_submitted_ok.
  - vm_compute. reflexivity.
  - exact H.
Defined.

Lemma approval_always_answered_witness :
  q_settled (fire_timeout toy_hash (λ _, 1%N) demo_id demo_payload demo_submitted 7%N (Deny "timed out")
               (demo_ambient 130 Accepted)) !! 0%nat = Some (Verdict.TimedOut (Deny "timed out")).
Proof.
  refine (eq_trans (approval_always_answered toy_hash (λ _, 1%N) demo_id demo_payload (queue_with_audit ZERO_HASH)
            demo_request (demo_ambient 100 Accepted) demo_submitted (demo_ambient 130 Accepted) _ _ _) _).
  - apply queue_with_ok.
  - vm_compute. reflexivity.
  - apply rtc_refl.
  - vm_compute. reflexivity.
Defined.

Lemma queue_audit_verifies_witness :
  ∃ r, verify_chain toy_hash (map LineOf (q_audit_sent demo_submitted)) = Ok r ∧ vr_outcome r = Verified.
Proof.
  destruct (queue_audit_verifies toy_hash (λ _, 1%N) demo_id demo_payload ZERO_HASH demo_submitted) as (r & Hr & Ho).
  - apply rtc_once, step_submit. vm_compute. reflexivity.
  - exists r. split; [exact Hr|]. revert Hr. rewrite Ho. vm_compute. intros [= <-]. reflexivity.
Defined.

Lemma timeout_is_ingested_again_witness :
  has_expired 140 demo_request = true ∧
  let '(q0, table, _) :=
    submit_persisted toy_hash (λ _, 1%N) demo_id demo_payload queue_new ∅ demo_request (demo_ambient 100 Accepted) in
  let q1 := fire_timeout toy_hash (λ _, 1%N) demo_id demo_payload q0 7%N (Deny "timed out") (demo_ambient 130 Accepted) in
  map aq_request_id
    (q_expirations (fst (sync_with_storage toy_hash (λ _, 1%N) demo_id demo_payload q1 table (demo_ambient 140 Accepted))))
    = [7%N; 7%N].
Proof.
  split; [reflexivity|].
  exact (proj1 (proj2 (timeout_is_ingested_again toy_hash (λ _, 1%N) demo_id demo_payload demo_request
           (demo_ambient 100 Accepted) (demo_ambient 130 Accepted) (demo_ambient 140 Accepted) eq_refl))).
Defined.
