(* ===== verification/FileTree.v ===== *)
(** * FileTree: directory trees, their measurement, and fallible file operations

    The part of a file system that aa-workspace-tx works on.  A tree maps the components of
    a path below its root to an inode; the root itself is a directory that exists.  Every
    call into the system may fail: [fails] says which ones do, by their number, so that a
    statement for every [fails] covers every error and, with a [fails] that answers true
    from some number on, a crash at that point.  A change that would follow a symbolic link
    answers [OutsideTree] and is recorded in [dk_escaped], whatever it does out there.

    aa-workspace-tx/src/manifest.rs and materialize.rs, and the manifest types of
    aa-isolation/src/tx.rs. *)

From stdpp Require Import base gmap strings list.
From Stdlib Require Import ZArith Lia Bool Ascii String.
From S2P Require Import Prelude.
From S2P Require Import Text.

Open Scope Z_scope.
Open Scope aasm_scope.

(** ** Trees *)

Module Node.
Inductive Content := File (bytes : string) | Directory | Symlink (target : string).

#[global] Instance Content_eq_dec : EqDecision Content.
Proof. solve_decision. Defined.
End Node.

(** Device and inode number identify a file. *)
Record Inode := { i_content : Node.Content; i_mode : Z; i_id : Z * Z }.

Abbreviation Components := (list string).
Abbreviation Tree := (gmap (list string) Inode).

Inductive IoError :=
| Fault | NotFound | AlreadyExists | NotADirectory | IsADirectory | DirectoryNotEmpty | OutsideTree | InvalidInput.

(** What the system answers beside the tree: which calls fail, the names of temporary files
    and the inodes of new ones (by the number of the call), what a path that follows a link
    names (nothing, a directory, another thing), SHA-256 in hexadecimal, and the folding of
    names by the Unicode library. *)
Class Host := {
  fails : nat → bool;
  tmp_name : nat → string;
  new_inode : nat → Z * Z;
  follow : Tree → Components → option bool;
  digest : string → string;
  fold : string → string;
}.

Definition slash_c : ascii := "/"%char.

(** [Path::components], root and current directory left out. *)
Definition components (path : string) : Components :=
  List.filter (λ n, negb (is_empty n) && negb (String.eqb n ".")) (split_on slash_c path).

(** Every proper ancestor is a directory. *)
Fixpoint reach (t : Tree) (pre rest : Components) : result unit IoError :=
  match rest with
  | [] | [_] => Ok tt
  | n :: rest' =>
      match t !! (pre ++ [n]) with
      | None => Err NotFound
      | Some i =>
          match i_content i with
          | Node.Directory => reach t (pre ++ [n]) rest'
          | Node.Symlink _ => Err OutsideTree
          | Node.File _ => Err NotADirectory
          end
      end
  end.

(** [symlink_metadata]. *)
Definition stat (t : Tree) (p : Components) : result Inode IoError :=
  let? _ := reach t [] p in match t !! p with Some i => Ok i | None => Err NotFound end.

(** The one component of [p] below [dir]. *)
Fixpoint child_of (dir p : Components) : option string :=
  match dir, p with
  | [], [n] => Some n
  | a :: dir', b :: p' => if String.eqb a b then child_of dir' p' else None
  | _, _ => None
  end.

Definition str_leb (a b : string) : bool := negb (str_ltb b a).

(** The names in a directory, sorted. *)
Definition names_in (t : Tree) (dir : Components) : list string :=
  stable_sort str_leb (omap (child_of dir) (map fst (map_to_list t))).

Definition read_dir (t : Tree) (dir : Components) : result (list string) IoError :=
  match dir with
  | [] => Ok (names_in t [])
  | _ =>
      let? i := stat t dir in
      match i_content i with
      | Node.Directory => Ok (names_in t dir)
      | Node.Symlink _ => Err OutsideTree
      | Node.File _ => Err NotADirectory
      end
  end.

Section Queries.
Context `{Host}.

(** [Path::is_dir] and [Path::exists], which follow links. *)
Definition is_dir (t : Tree) (p : Components) : bool :=
  match stat t p with
  | Ok i =>
      match i_content i with
      | Node.Directory => true
      | Node.Symlink _ => default false (follow t p)
      | Node.File _ => false
      end
  | Err OutsideTree => default false (follow t p)
  | Err _ => false
  end.

Definition exists_ (t : Tree) (p : Components) : bool :=
  match stat t p with
  | Ok i => match i_content i with Node.Symlink _ => bool_decide (is_Some (follow t p)) | _ => true end
  | Err OutsideTree => bool_decide (is_Some (follow t p))
  | Err _ => false
  end.
End Queries.

(** Operations that change a tree; an error leaves it as it is. *)

(** The mode of a new directory is not looked at. *)
Definition mkdir (id : Z * Z) (p : Components) (t : Tree) : result Tree IoError :=
  let? _ := reach t [] p in
  match t !! p with
  | Some _ => Err AlreadyExists
  | None => Ok (<[p := {| i_content := Node.Directory; i_mode := 511; i_id := id |}]> t)
  end.

(** [create_new] and [symlink]. *)
Definition create (node : Inode) (p : Components) (t : Tree) : result Tree IoError :=
  let? _ := reach t [] p in
  match t !! p with
  | Some _ => Err AlreadyExists
  | None => Ok (<[p := node]> t)
  end.

Definition update (f : Inode → Inode) (p : Components) (t : Tree) : result Tree IoError :=
  let? i := stat t p in Ok (<[p := f i]> t).

Definition rename (src dst : Components) (t : Tree) : result Tree IoError :=
  let? i := stat t src in
  let? _ := reach t [] dst in
  match t !! dst with
  | Some {| i_content := Node.Directory |} => Err IsADirectory
  | _ => if bool_decide (src = dst) then Ok t else Ok (<[dst := i]> (delete src t))
  end.

Definition remove_file (p : Components) (t : Tree) : result Tree IoError :=
  let? i := stat t p in
  match i_content i with Node.Directory => Err IsADirectory | _ => Ok (delete p t) end.

Definition remove_dir (p : Components) (t : Tree) : result Tree IoError :=
  let? i := stat t p in
  match i_content i with
  | Node.Directory => match names_in t p with [] => Ok (delete p t) | _ => Err DirectoryNotEmpty end
  | _ => Err NotADirectory
  end.

(** ** Manifests *)

Inductive EntryKind := KFile | KDirectory | KSymlink.

#[export] Instance EntryKind_eq_dec : EqDecision EntryKind.
Proof. solve_decision. Defined.

Record ManifestEntry := {
  me_path : string;
  me_kind : EntryKind;
  me_digest : option string;
  me_symlink_target : option string;
}.

#[export] Instance ManifestEntry_eq_dec : EqDecision ManifestEntry.
Proof. solve_decision. Defined.

Record BaseManifest := {
  bm_surface_root : string;
  bm_exclusions : list string;
  bm_entries : list ManifestEntry;
}.

Definition manifest_entry (m : BaseManifest) (path : string) : option ManifestEntry :=
  find (λ e, String.eqb (me_path e) path) (bm_entries m).

Definition is_excluded (rel : string) (exclusions : list string) : bool :=
  existsb (λ ex, String.eqb rel ex || starts_with rel (ex ++ "/")%string) exclusions.

(** [relative]: the path below the root as text. *)
Definition relative (p : Components) : string := replace_char backslash_c slash_c (join "/" p).

Definition entries_equal (a b : ManifestEntry) : bool :=
  bool_decide (me_kind a = me_kind b) && bool_decide (me_digest a = me_digest b)
  && bool_decide (me_symlink_target a = me_symlink_target b).

(** The longest path of a tree. *)
Definition depth (t : Tree) : nat := foldr Nat.max 0%nat (map (λ e, List.length (fst e)) (map_to_list t)).

Section Measure.
Context `{Host}.

Definition entry_of (p : Components) (i : Inode) : ManifestEntry :=
  match i_content i with
  | Node.File bytes =>
      {| me_path := relative p; me_kind := KFile; me_digest := Some (digest bytes); me_symlink_target := None |}
  | Node.Directory =>
      {| me_path := relative p; me_kind := KDirectory; me_digest := None; me_symlink_target := None |}
  | Node.Symlink target =>
      {| me_path := relative p; me_kind := KSymlink; me_digest := None; me_symlink_target := Some target |}
  end.

(** One round of the fuel per level. *)
Fixpoint walk (fuel : nat) (t : Tree) (exclusions : list string) (dir : Components) : list ManifestEntry :=
  match fuel with
  | O => []
  | S fuel' =>
      flat_map (λ n,
        let p := dir ++ [n] in
        if is_excluded (relative p) exclusions then []
        else match t !! p with
             | None => []
             | Some i =>
                 entry_of p i ::
                 match i_content i with Node.Directory => walk fuel' t exclusions p | _ => [] end
             end) (names_in t dir)
  end.

Definition measure_tree (root : string) (t : Tree) (exclusions : list string) : BaseManifest :=
  {| bm_surface_root := root; bm_exclusions := exclusions; bm_entries := walk (S (depth t)) t exclusions [] |}.

(** [sort] and [dedup]. *)
Fixpoint dedup (l : list string) : list string :=
  match l with
  | a :: (b :: _) as rest => if String.eqb a b then dedup rest else a :: dedup rest
  | _ => l
  end.

Definition drifted_paths (before after : BaseManifest) : list string :=
  dedup (stable_sort str_leb
    (omap (λ e, match manifest_entry after (me_path e) with
                | None => Some (me_path e)
                | Some now => if negb (entries_equal e now) then Some (me_path e) else None
                end) (bm_entries before)
     ++ omap (λ e, match manifest_entry before (me_path e) with None => Some (me_path e) | Some _ => None end)
          (bm_entries after))).

(** The bytes the aggregate digest hashes; a zero byte ends each part. *)
Definition zero : string := String (ascii_of_nat 0) EmptyString.

Definition aggregate_digest (m : BaseManifest) : string :=
  let sorted := stable_sort (λ a b, str_leb (me_path a) (me_path b)) (bm_entries m) in
  digest (foldr (λ e rest,
    (me_path e ++ zero ++
     match me_kind e with
     | KFile => "f" ++ default EmptyString (me_digest e)
     | KDirectory => "d"
     | KSymlink => "s" ++ default EmptyString (me_symlink_target e)
     end ++ zero ++ rest)%string) EmptyString sorted).
End Measure.

(** ** The disk: a base tree and the private directories of transactions *)

Record TxDir := {
  td_private : bool;
  td_locked : bool;
  td_staged : option Tree;
  td_journal : option string;
}.

Record Disk := { dk_base : Tree; dk_dirs : gmap string TxDir; dk_ops : nat; dk_escaped : bool }.

Definition Io (A : Type) : Type := Disk → Disk * result A IoError.

Definition io_ret {A} (a : A) : Io A := λ d, (d, Ok a).

Definition io_bind {A B} (m : Io A) (k : A → Io B) : Io B :=
  λ d, let '(d', r) := m d in match r with Ok a => k a d' | Err e => (d', Err e) end.

(** The result of a call as a value. *)
Definition io_catch {A B} (m : Io A) (k : result A IoError → Io B) : Io B :=
  λ d, let '(d', r) := m d in k r d'.

Notation "'let!' x ':=' m 'in' k" := (io_bind m (λ x, k))
  (at level 10, x pattern, m at level 100, k at level 200) : aasm_scope.

Definition tick (d : Disk) : Disk :=
  {| dk_base := dk_base d; dk_dirs := dk_dirs d; dk_ops := S (dk_ops d); dk_escaped := dk_escaped d |}.

Definition set_base (d : Disk) (t : Tree) : Disk :=
  {| dk_base := t; dk_dirs := dk_dirs d; dk_ops := dk_ops d; dk_escaped := dk_escaped d |}.

Definition set_dir (d : Disk) (id : string) (x : TxDir) : Disk :=
  {| dk_base := dk_base d; dk_dirs := <[id := x]> (dk_dirs d); dk_ops := dk_ops d; dk_escaped := dk_escaped d |}.

Definition escape (d : Disk) : Disk :=
  {| dk_base := dk_base d; dk_dirs := dk_dirs d; dk_ops := dk_ops d; dk_escaped := true |}.

(** Where a tree is. *)
Inductive Place := Base | Staged (id : string).

Definition staged_of (d : Disk) (id : string) : Tree := default ∅ (dk_dirs d !! id ≫= td_staged).

Definition tree_at (d : Disk) (w : Place) : Tree :=
  match w with Base => dk_base d | Staged id => staged_of d id end.

Definition with_staged (x : TxDir) (t : option Tree) : TxDir :=
  {| td_private := td_private x; td_locked := td_locked x; td_staged := t; td_journal := td_journal x |}.

Definition set_tree (d : Disk) (w : Place) (t : Tree) : Disk :=
  match w with
  | Base => set_base d t
  | Staged id => match dk_dirs d !! id with Some x => set_dir d id (with_staged x (Some t)) | None => d end
  end.

Section Calls.
Context `{Host}.

(** A call that may fail before it does anything. *)
Definition call {A} (f : Disk → Disk * result A IoError) : Io A :=
  λ d, if fails (dk_ops d) then (tick d, Err Fault) else f (tick d).

(** A call that reads. *)
Definition reads {A} (f : Disk → result A IoError) : Io A := call (λ d, (d, f d)).

(** A call that changes a tree, given its own number. *)
Definition changes (w : Place) (f : nat → Tree → result Tree IoError) : Io unit :=
  λ d, call (λ d', match f (dk_ops d) (tree_at d' w) with
                   | Ok t => (set_tree d' w t, Ok tt)
                   | Err OutsideTree => (escape d', Err OutsideTree)
                   | Err e => (d', Err e)
                   end) d.

(** [create_dir_all] on the reversed components. *)
Definition make_dir (w : Place) (p : Components) : Io unit := changes w (λ k, mkdir (new_inode k) p).

(** A failed [mkdir] of what is a directory already. *)
Definition or_dir (w : Place) (p : Components) (r : result unit IoError) : Io unit :=
  λ d, match r with
       | Ok _ => (d, Ok tt)
       | Err e => if is_dir (tree_at d w) p then (d, Ok tt) else (d, Err e)
       end.

Fixpoint create_dir_all_rev (w : Place) (rp : Components) : Io unit :=
  match rp with
  | [] => io_ret tt
  | n :: rq =>
      let p := rev rp in
      io_catch (make_dir w p) (λ r,
        match r with
        | Err NotFound => let! _ := create_dir_all_rev w rq in io_catch (make_dir w p) (or_dir w p)
        | _ => or_dir w p r
        end)
  end.

Definition create_dir_all (w : Place) (p : Components) : Io unit := create_dir_all_rev w (rev p).

Definition parent (p : Components) : Components := removelast p.

(** The temporary file of call number [k], beside [dest]. *)
Definition tmp_path (k : nat) (dest : Components) : Components := parent dest ++ [tmp_name k].

Definition permission_bits (mode : Z) : Z := Z.land mode 511.

Definition temp_create_mode (final_mode : option Z) : Z :=
  match final_mode with Some m => Z.land m 384 | None => 384 end.

Definition set_bytes (bytes : string) (i : Inode) : Inode :=
  {| i_content := Node.File bytes; i_mode := i_mode i; i_id := i_id i |}.

Definition set_mode (mode : Z) (i : Inode) : Inode :=
  {| i_content := i_content i; i_mode := mode; i_id := i_id i |}.

Definition write_via_temp_inner (w : Place) (dest : Components) (bytes : string) (mode : option Z) : Io unit :=
  match dest with
  | [] => λ d, (d, Err InvalidInput)
  | _ => λ d,
      let tmp := tmp_path (dk_ops d) dest in
      (let! _ := changes w (λ k, create {| i_content := Node.File EmptyString; i_mode := temp_create_mode mode;
                                           i_id := new_inode k |} tmp) in
       let! _ := changes w (λ _, update (set_bytes bytes) tmp) in
       let! _ := match mode with Some m => changes w (λ _, update (set_mode m) tmp) | None => io_ret tt end in
       changes w (λ _, rename tmp dest)) d
  end.

Definition write_via_temp_with_mode (w : Place) (dest : Components) (bytes : string) (mode : Z) : Io unit :=
  write_via_temp_inner w dest bytes (Some (permission_bits mode)).

Definition create_symlink_via_temp (w : Place) (target : string) (dest : Components) : Io unit :=
  match dest with
  | [] => λ d, (d, Err InvalidInput)
  | _ => λ d,
      let tmp := tmp_path (dk_ops d) dest in
      (let! _ := changes w (λ k, create {| i_content := Node.Symlink target; i_mode := 511; i_id := new_inode k |} tmp) in
       changes w (λ _, rename tmp dest)) d
  end.

(** [fs::read] of a regular file. *)
Definition read_file (t : Tree) (p : Components) : result string IoError :=
  let? i := stat t p in
  match i_content i with
  | Node.File bytes => Ok bytes
  | Node.Directory => Err IsADirectory
  | Node.Symlink _ => Err OutsideTree
  end.

Definition copy_file_never_hardlink (src_place : Place) (src : Components) (w : Place) (dest : Components) : Io unit :=
  let! bytes := reads (λ d, read_file (tree_at d src_place) src) in
  let! i := reads (λ d, stat (tree_at d src_place) src) in
  write_via_temp_with_mode w dest bytes (permission_bits (i_mode i)).

Definition copy_entry (w : Place) (e : ManifestEntry) : Io unit :=
  let dest := components (me_path e) in
  match me_kind e with
  | KDirectory => create_dir_all w dest
  | KFile =>
      let! _ := create_dir_all w (parent dest) in copy_file_never_hardlink Base dest w dest
  | KSymlink =>
      let! _ := create_dir_all w (parent dest) in
      create_symlink_via_temp w (default EmptyString (me_symlink_target e)) dest
  end.

Fixpoint io_each {A} (f : A → Io unit) (l : list A) : Io unit :=
  match l with
  | [] => io_ret tt
  | x :: l' => let! _ := f x in io_each f l'
  end.

Definition copy_surface (w : Place) (m : BaseManifest) : Io unit := io_each (copy_entry w) (bm_entries m).

Definition measure (w : Place) (root : string) (exclusions : list string) : Io BaseManifest :=
  reads (λ d, Ok (measure_tree root (tree_at d w) exclusions)).

Definition shares_inode (staged base : Tree) (p : Components) : result bool IoError :=
  if negb (exists_ base p) then Ok false
  else
    let? a := stat staged p in
    let? b := stat base p in
    Ok (bool_decide (i_id a = i_id b)).
End Calls.

(** ** What a measurement says, and what the file operations do

    On a tree whose entries have plain names and lie in directories, the text of a path and
    its components determine each other, and a manifest lists exactly the entries that are
    not excluded.  Each operation of a transaction changes the base at its own path and
    creates missing directories above it, nothing else, and stays inside the tree when no
    ancestor of its path is a symbolic link. *)

(** ** Names and paths *)

Definition good_name (n : string) : Prop :=
  n ≠ EmptyString ∧ n ≠ "."%string ∧ n ≠ ".."%string ∧ lacks slash_c n = true ∧ lacks backslash_c n = true.

Definition dir_at (t : Tree) (p : Components) : Prop :=
  match t !! p with Some i => i_content i = Node.Directory | None => False end.

Definition link_at (t : Tree) (p : Components) : Prop :=
  match t !! p with Some i => match i_content i with Node.Symlink _ => True | _ => False end | None => False end.

(** [q] is a proper, non-empty part of [p] from the root. *)
Definition above (q p : Components) : Prop := q ≠ [] ∧ ∃ n rest, p = q ++ n :: rest.

(** Plain names, and every entry in a directory. *)
Definition tree_ok (t : Tree) : Prop :=
  ∀ p i, t !! p = Some i → p ≠ [] ∧ Forall good_name p ∧ ∀ q, above q p → dir_at t q.

Lemma above_trans q p r : above q p → above p r → above q r.
Proof.
  intros [Hq (n & x & ->)] [_ (m & y & ->)]. split; [done|]. exists n, (x ++ m :: y). by rewrite <-app_assoc.
Qed.

Lemma above_irrefl p : ¬ above p p.
Proof. intros [_ (n & x & H)]. apply (f_equal List.length) in H. rewrite length_app in H. simpl in H. lia. Qed.

Lemma above_snoc q p n : above q (p ++ [n]) ↔ q ≠ [] ∧ (q = p ∨ above q p).
Proof.
  split.
  - intros [Hq (m & x & Hx)]. split; [done|]. destruct x as [|y x] using rev_ind.
    + apply app_inj_tail in Hx as [-> _]. by left.
    + right. split; [done|]. exists m, x. rewrite app_comm_cons, app_assoc in Hx. by apply app_inj_tail in Hx as [-> _].
  - intros [Hq [->|[_ (m & x & ->)]]]; (split; [done|]); [by exists n, []|].
    exists m, (x ++ [n]). by rewrite <-app_assoc.
Qed.

Lemma replace_char_lacks a b s : lacks a s = true → replace_char a b s = s.
Proof.
  unfold lacks. induction s as [|c s IH]; simpl; [done|]. destruct (ascii_dec c a); [done|]. simpl. intros H. by rewrite IH.
Qed.

Lemma join_cons sep n m p : join sep (n :: m :: p) = (n ++ sep ++ join sep (m :: p))%string.
Proof. done. Qed.

Lemma lacks_join sep a p : lacks a sep = true → Forall (λ n, lacks a n = true) p → lacks a (join sep p) = true.
Proof.
  intros Hs. induction 1 as [|n p Hn Hp IH]; [done|]. destruct p as [|m p]; [done|].
  rewrite join_cons, !lacks_app, Hn, Hs. exact IH.
Qed.

Lemma relative_join p : Forall good_name p → relative p = join "/" p.
Proof.
  intros Hp. apply replace_char_lacks, lacks_join; [done|]. eapply Forall_impl; [exact Hp|]. by intros n (_ & _ & _ & _ & ?).
Qed.

Lemma split_join p : p ≠ [] → Forall good_name p → split_on slash_c (join "/" p) = p.
Proof.
  intros Hne Hp. induction Hp as [|n p (_ & _ & _ & Hn & _) Hp IH]; [done|]. destruct p as [|m p].
  - by apply split_on_lone.
  - rewrite join_cons. change ("/" ++ join "/" (m :: p))%string with (String slash_c (join "/" (m :: p))).
    rewrite split_on_app by done. by rewrite IH.
Qed.

Lemma components_relative p : Forall good_name p → components (relative p) = p.
Proof.
  intros Hp. rewrite relative_join by done. unfold components. destruct p as [|n p]; [done|].
  rewrite split_join by done. induction Hp as [|m q (Hm & Hd & _) Hq IH]; [done|].
  cbn [List.filter]. destruct m as [|c m]; [done|]. simpl negb at 1. cbn [andb].
  destruct (String.eqb_spec (String c m) "."); [done|]. cbn [negb]. by rewrite IH.
Qed.

Lemma relative_inj p q : Forall good_name p → Forall good_name q → relative p = relative q → p = q.
Proof. intros Hp Hq H. by rewrite <-(components_relative p), <-(components_relative q), H. Qed.

Lemma join_app p q : p ≠ [] → q ≠ [] → join "/" (p ++ q) = (join "/" p ++ "/" ++ join "/" q)%string.
Proof.
  intros Hp Hq. induction p as [|n p IH]; [done|]. destruct p as [|m p].
  - destruct q; [done|]. done.
  - change ((n :: m :: p) ++ q) with (n :: m :: (p ++ q)). rewrite !join_cons. change (m :: p ++ q) with ((m :: p) ++ q).
    rewrite IH by done. by rewrite !append_assoc.
Qed.

(** What lies below an excluded path is excluded. *)
Lemma excluded_below q p exclusions :
  Forall good_name p → above q p → is_excluded (relative q) exclusions = true →
  is_excluded (relative p) exclusions = true.
Proof.
  intros Hp [Hq (n & x & ->)]. apply Forall_app in Hp as Hp'. destruct Hp' as [Hgq _].
  rewrite !relative_join by done. rewrite join_app by done. unfold is_excluded.
  intros [ex [Hin Hex]]%existsb_exists. apply existsb_exists. exists ex. split; [done|].
  apply orb_true_iff. right. apply orb_true_iff in Hex as [->%String.eqb_eq|Hex].
  - rewrite <-append_assoc. apply starts_with_app.
  - rewrite starts_with_strip in Hex. destruct (strip_prefix _ _) eqn:E; [|done].
    apply strip_prefix_Some in E. rewrite E, append_assoc. apply starts_with_app.
Qed.

(** ** Directories *)

Lemma child_of_Some dir p n : child_of dir p = Some n ↔ p = dir ++ [n].
Proof.
  revert p. induction dir as [|a dir IH]; intros [|b p]; simpl; try (split; [done|by intros [=]]).
  - split; [|by intros [= -> ->]]. destruct p; [by intros [= ->]|done].
  - split.
    + destruct (String.eqb_spec a b) as [->|]; [|done]. by intros ->%IH.
    + intros [= -> ->]. rewrite String.eqb_refl. by apply IH.
Qed.

Lemma elem_of_names_in t dir n : n ∈ names_in t dir ↔ is_Some (t !! (dir ++ [n])).
Proof.
  unfold names_in. rewrite elem_of_stable_sort, list_elem_of_omap. split.
  - intros (p & Hp & Hc%child_of_Some). apply list_elem_of_In, in_map_iff in Hp as ([p' i] & <- & Hin).
    simpl in Hc. subst p'. exists i. by apply elem_of_map_to_list, list_elem_of_In.
  - intros [i Hi]. exists (dir ++ [n]). split; [|by apply child_of_Some].
    apply list_elem_of_In, in_map_iff. exists (dir ++ [n], i). split; [done|].
    by apply list_elem_of_In, elem_of_map_to_list.
Qed.

Lemma depth_bound t p i : t !! p = Some i → (List.length p ≤ depth t)%nat.
Proof.
  intros Hp. unfold depth. apply elem_of_map_to_list in Hp. revert Hp.
  generalize (map_to_list t). intros l. induction l as [|e l IH]; simpl.
  - by intros ?%elem_of_nil.
  - intros [<-|Hin]%elem_of_cons; simpl; [lia|]. apply IH in Hin. lia.
Qed.

(** ** Manifests *)

Section Manifests.
Context `{Host}.

Lemma entry_of_path p i : me_path (entry_of p i) = relative p.
Proof. unfold entry_of. by destruct (i_content i). Qed.

Lemma walk_spec fuel t exclusions dir e :
  tree_ok t → (depth t < List.length dir + fuel)%nat →
  e ∈ walk fuel t exclusions dir ↔
  ∃ n rest i, t !! (dir ++ n :: rest) = Some i ∧ is_excluded (relative (dir ++ n :: rest)) exclusions = false ∧
    e = entry_of (dir ++ n :: rest) i.
Proof.
  intros Hok. revert dir. induction fuel as [|fuel IH]; intros dir Hd; simpl.
  { split; [by intros ?%elem_of_nil|]. intros (n & rest & i & Hi & _). apply depth_bound in Hi.
    rewrite length_app in Hi. simpl in Hi. lia. }
  rewrite list_elem_of_In, in_flat_map. setoid_rewrite <-list_elem_of_In. split.
  - intros (n & [i Hi]%elem_of_names_in & Hin). rewrite Hi in Hin.
    destruct (is_excluded (relative (dir ++ [n])) exclusions) eqn:Hx; [by apply elem_of_nil in Hin|].
    apply elem_of_cons in Hin as [->|Hin]; [by exists n, [], i|].
    destruct (i_content i) eqn:Hc; [by apply elem_of_nil in Hin| |by apply elem_of_nil in Hin].
    apply IH in Hin as (m & rest & j & Hj & Hxj & ->); [|rewrite length_app; simpl; lia].
    exists n, (m :: rest), j. rewrite <-app_assoc in *. done.
  - intros (n & rest & i & Hi & Hx & ->). exists n.
    destruct rest as [|m rest].
    + split; [apply elem_of_names_in; by exists i|]. rewrite Hi, Hx. left.
    + destruct (Hok _ _ Hi) as (_ & Hgood & Hdirs).
      assert (above (dir ++ [n]) (dir ++ n :: m :: rest)) as Hab.
      { split; [by destruct dir|]. exists m, rest. by rewrite <-app_assoc. }
      pose proof (Hdirs _ Hab) as Hdir. unfold dir_at in Hdir.
      destruct (t !! (dir ++ [n])) as [j|] eqn:Hj; [|done]. split; [apply elem_of_names_in; by exists j|].
      destruct (is_excluded (relative (dir ++ [n])) exclusions) eqn:Hxn.
      { rewrite (excluded_below _ _ _ Hgood Hab Hxn) in Hx. done. }
      rewrite Hdir. right. apply IH; [rewrite length_app; simpl; lia|].
      exists m, rest, i. rewrite <-app_assoc. done.
Qed.

Lemma measure_spec root t exclusions e :
  tree_ok t →
  e ∈ bm_entries (measure_tree root t exclusions) ↔
  ∃ p i, t !! p = Some i ∧ is_excluded (relative p) exclusions = false ∧ e = entry_of p i.
Proof.
  intros Hok. unfold measure_tree. cbn [bm_entries]. rewrite walk_spec by (try done; simpl; lia). split.
  - intros (n & rest & i & Hi). by exists (n :: rest), i.
  - intros (p & i & Hi & Hx & ->). destruct (Hok _ _ Hi) as [Hne _]. destruct p as [|n rest]; [done|].
    by exists n, rest, i.
Qed.

Lemma manifest_lookup root t exclusions p :
  tree_ok t → Forall good_name p →
  manifest_entry (measure_tree root t exclusions) (relative p) =
    if is_excluded (relative p) exclusions then None else entry_of p <$> t !! p.
Proof.
  intros Hok Hp. unfold manifest_entry.
  destruct (find _ _) as [e|] eqn:E.
  - apply find_some in E as [Hin He%String.eqb_eq]. apply list_elem_of_In, measure_spec in Hin as (q & i & Hi & Hx & ->); [|done].
    rewrite entry_of_path in He. destruct (Hok _ _ Hi) as (_ & Hq & _).
    apply relative_inj in He as ->; [|done..]. by rewrite Hx, Hi.
  - destruct (is_excluded _ _) eqn:Hx; [done|]. destruct (t !! p) as [i|] eqn:Hi; [|done]. exfalso.
    assert ((me_path (entry_of p i) =? relative p)%string = false) as Hno;
      [|by rewrite entry_of_path, String.eqb_refl in Hno].
    apply (find_none _ _ E). apply list_elem_of_In, measure_spec; [done|]. by exists p, i.
Qed.
End Manifests.

(** ** Staying inside the tree *)

(** No ancestor of the path is a symbolic link. *)
Definition unlinked (t : Tree) (p : Components) : Prop := ∀ q, above q p → ¬ link_at t q.

Lemma reach_outside t pre rest :
  reach t pre rest = Err OutsideTree → ∃ x n y, rest = x ++ n :: y ∧ x ≠ [] ∧ link_at t (pre ++ x).
Proof.
  revert pre. induction rest as [|n rest IH]; intros pre; [done|]. destruct rest as [|m rest]; [done|].
  cbn [reach]. destruct (t !! (pre ++ [n])) as [i|] eqn:Hi; [|done].
  destruct (i_content i) as [| |target] eqn:Hc; [done| |].
  - intros (x & k & y & -> & Hx & Hl)%IH. exists (n :: x), k, y. rewrite <-app_assoc in Hl. done.
  - intros _. exists [n], m, rest. split_and!; [done..|]. unfold link_at. by rewrite Hi, Hc.
Qed.

Lemma reach_unlinked t p : unlinked t p → reach t [] p ≠ Err OutsideTree.
Proof.
  intros Hu (x & n & y & -> & Hx & Hl)%reach_outside. apply (Hu x); [|done]. split; [done|]. by exists n, y.
Qed.

Lemma stat_unlinked t p : unlinked t p → stat t p ≠ Err OutsideTree.
Proof.
  intros Hu. unfold stat. pose proof (reach_unlinked t p Hu). destruct (reach t [] p) as [|[]]; try done; simpl.
  by destruct (t !! p).
Qed.

Lemma stat_Ok t p i : stat t p = Ok i → t !! p = Some i.
Proof. unfold stat. destruct (reach t [] p); simpl; [|done]. destruct (t !! p); [by intros [= ->]|done]. Qed.

Lemma unlinked_insert t p n m i : unlinked t (p ++ [n]) → unlinked (<[p ++ [m] := i]> t) (p ++ [n]).
Proof.
  intros Hu q Hq Hl. apply (Hu q Hq). unfold link_at in *. rewrite lookup_insert_ne in Hl; [done|].
  intros <-. destruct Hq as [_ (k & y & He)]. apply (f_equal List.length) in He.
  rewrite !length_app in He. simpl in He. lia.
Qed.

Lemma unlinked_sibling t p n m : unlinked t (p ++ [n]) → unlinked t (p ++ [m]).
Proof. intros Hu q Hq%above_snoc. apply Hu. by apply above_snoc. Qed.

Lemma unlinked_above t q p : above q p → unlinked t p → unlinked t q.
Proof. intros Hq Hu x Hx. apply Hu. by eapply above_trans. Qed.

(** ** Effects of the operations on the base *)

Section Effects.
Context `{Host}.

(** A program that leaves the transactions' directories alone. *)
Definition base_only {A} (m : Io A) : Prop := ∀ d, dk_dirs (fst (m d)) = dk_dirs d.

Lemma changes_cases f d :
  let '(d', r) := changes Base f d in
  dk_dirs d' = dk_dirs d ∧
  ((r = Ok tt ∧ f (dk_ops d) (dk_base d) = Ok (dk_base d') ∧ dk_escaped d' = dk_escaped d) ∨
   (∃ e, r = Err e ∧ dk_base d' = dk_base d ∧
      (f (dk_ops d) (dk_base d) ≠ Err OutsideTree → dk_escaped d' = dk_escaped d))).
Proof.
  unfold changes, call. destruct (fails (dk_ops d)); [split; [done|right; eauto]|].
  cbn [tree_at tick dk_base]. destruct (f (dk_ops d) (dk_base d)) as [t|e] eqn:E; [by split; [|left]|].
  destruct e; (split; [done|right]); eexists; split_and!; try done; congruence.
Qed.

Lemma reads_cases {A} (f : Disk → result A IoError) d :
  let '(d', r) := reads f d in
  dk_dirs d' = dk_dirs d ∧ dk_base d' = dk_base d ∧ dk_escaped d' = dk_escaped d ∧
  (r = Err Fault ∨ r = f (tick d)).
Proof. unfold reads, call. destruct (fails (dk_ops d)); split_and!; eauto. Qed.

Lemma base_only_bind {A B} (m : Io A) (k : A → Io B) :
  base_only m → (∀ a, base_only (k a)) → base_only (io_bind m k).
Proof.
  intros Hm Hk d. unfold io_bind. specialize (Hm d). destruct (m d) as [d' [a|e]]; simpl in *; [|done].
  by rewrite (Hk a d').
Qed.

Lemma base_only_catch {A B} (m : Io A) (k : result A IoError → Io B) :
  base_only m → (∀ r, base_only (k r)) → base_only (io_catch m k).
Proof.
  intros Hm Hk d. unfold io_catch. specialize (Hm d). destruct (m d) as [d' r]; simpl in *. by rewrite (Hk r d').
Qed.

Lemma base_only_reads {A} (f : Disk → result A IoError) : base_only (reads f).
Proof. intros d. pose proof (reads_cases f d) as Hr. destruct (reads f d). by destruct Hr. Qed.

Lemma base_only_changes f : base_only (changes Base f).
Proof. intros d. pose proof (changes_cases f d) as Hc. destruct (changes Base f d). by destruct Hc. Qed.

Lemma base_only_each {A} (f : A → Io unit) l : (∀ x, base_only (f x)) → base_only (io_each f l).
Proof. intros Hf. induction l as [|x l IH]; simpl; [done|]. by apply base_only_bind. Qed.

(** Missing directories above and at a path may have been created, nothing else changed. *)
Definition grows (p : Components) (b b' : Tree) : Prop :=
  ∀ q, b' !! q = b !! q ∨ (b !! q = None ∧ dir_at b' q ∧ q ≠ [] ∧ (q = p ∨ above q p)).

Lemma grows_refl p b : grows p b b.
Proof. intros q. by left. Qed.

Lemma grows_trans p b b1 b2 : grows p b b1 → grows p b1 b2 → grows p b b2.
Proof.
  intros H1 H2 q. unfold dir_at. destruct (H1 q) as [<-|(Hn & Hd & Hq)]; [apply H2|]. right.
  unfold dir_at in Hd. destruct (H2 q) as [->|(Hn' & _)]; [done|]. by rewrite Hn' in Hd.
Qed.

Lemma grows_unlinked p b b' r : grows p b b' → unlinked b r → unlinked b' r.
Proof.
  intros Hg Hu q Hq Hl. unfold link_at, dir_at in *.
  destruct (Hg q) as [He|(_ & Hd & _)]; [rewrite He in Hl; by apply (Hu q)|].
  unfold dir_at in Hd. destruct (b' !! q) as [i|]; [|done]. by rewrite Hd in Hl.
Qed.

Lemma mkdir_cases id p b :
  (∃ i, mkdir id p b = Ok (<[p := i]> b) ∧ i_content i = Node.Directory ∧ b !! p = None) ∨
  (∃ e, mkdir id p b = Err e ∧ (unlinked b p → e ≠ OutsideTree)).
Proof.
  unfold mkdir. destruct (reach b [] p) as [|e] eqn:Hr; simpl.
  - destruct (b !! p); [right; eauto|left; eauto].
  - right. exists e. split; [done|]. intros Hu ->. by apply (reach_unlinked b p).
Qed.

Lemma make_dir_spec p d :
  p ≠ [] →
  let '(d', r) := make_dir Base p d in
  dk_dirs d' = dk_dirs d ∧ grows p (dk_base d) (dk_base d') ∧
  (unlinked (dk_base d) p → dk_escaped d' = dk_escaped d) ∧
  match r with Ok _ => dir_at (dk_base d') p | Err _ => dk_base d' = dk_base d end.
Proof.
  intros Hp. unfold make_dir. pose proof (changes_cases (λ k, mkdir (new_inode k) p) d) as Hc.
  destruct (changes Base _ d) as [d' r]. destruct Hc as (Hd & [(-> & Hf & He)|(e & -> & Hb & He)]).
  - destruct (mkdir_cases (new_inode (dk_ops d)) p (dk_base d)) as [(i & Hi & Hdir & Hn)|(e & Hi & _)]; [|congruence].
    rewrite Hf in Hi. injection Hi as ->. split_and!; [done| |done|].
    + intros q. destruct (decide (q = p)) as [->|Hne]; [|left; by rewrite lookup_insert_ne].
      right. unfold dir_at. rewrite lookup_insert_eq. auto.
    + unfold dir_at. by rewrite lookup_insert_eq.
  - split_and!; [done|rewrite Hb; apply grows_refl| |done]. intros Hu. apply He.
    destruct (mkdir_cases (new_inode (dk_ops d)) p (dk_base d)) as [(i & Hi & _)|(e' & Hi & Ho)]; [congruence|].
    rewrite Hi. intros [= ->]. by apply Ho.
Qed.

(** A directory, or a link that leads to one. *)
Definition dirish (b : Tree) (p : Components) : Prop := dir_at b p ∨ link_at b p.

Lemma is_dir_dirish b p : unlinked b p → is_dir b p = true → dirish b p.
Proof.
  intros Hu. unfold is_dir. pose proof (stat_unlinked b p Hu) as Ho.
  destruct (stat b p) as [i|e] eqn:Hs; [|by destruct e].
  apply stat_Ok in Hs. unfold dirish, dir_at, link_at. rewrite Hs. destruct (i_content i); [done|auto|auto].
Qed.

(** What [create_dir_all] does, whether it succeeds or not. *)
Definition made_dirs (p : Components) (d d' : Disk) (r : result unit IoError) : Prop :=
  dk_dirs d' = dk_dirs d ∧ grows p (dk_base d) (dk_base d') ∧
  (unlinked (dk_base d) p → dk_escaped d' = dk_escaped d ∧ (is_ok r = true → p = [] ∨ dirish (dk_base d') p)).

Lemma or_dir_spec p d d1 (r : result unit IoError) :
  dk_dirs d1 = dk_dirs d → grows p (dk_base d) (dk_base d1) →
  (unlinked (dk_base d) p → dk_escaped d1 = dk_escaped d) →
  match r with Ok _ => dir_at (dk_base d1) p | Err _ => True end →
  let '(d', r') := or_dir Base p r d1 in made_dirs p d d' r'.
Proof.
  intros Hd Hg He Hr. unfold or_dir. destruct r as [|e].
  - split_and!; [done..|]. intros Hu. split; [auto|]. intros _. right. by left.
  - destruct (is_dir (tree_at d1 Base) p) eqn:Hi; split_and!; try done; intros Hu; (split; [auto|]); [|done].
    intros _. right. apply is_dir_dirish; [|done]. by eapply grows_unlinked.
Qed.

Lemma unlinked_parent b n rq : unlinked b (rev (n :: rq)) → unlinked b (rev rq).
Proof. intros Hu q Hq. apply Hu. cbn [rev]. apply above_snoc. split; [by destruct Hq|auto]. Qed.

Lemma grows_parent n rq b b' : grows (rev rq) b b' → grows (rev (n :: rq)) b b'.
Proof.
  intros Hg q. destruct (Hg q) as [|(Hn & Hd & Hne & Hq)]; [by left|]. cbn [rev].
  right. split_and!; [done..|]. right. apply above_snoc. tauto.
Qed.

Lemma create_dir_all_rev_spec rp d : let '(d', r) := create_dir_all_rev Base rp d in made_dirs (rev rp) d d' r.
Proof.
  revert d. induction rp as [|n rq IH]; intros d.
  { simpl. split_and!; [done|apply grows_refl|auto]. }
  assert (rev (n :: rq) ≠ []) as Hne by (simpl; by destruct (rev rq)).
  cbn [create_dir_all_rev]. unfold io_catch at 1.
  pose proof (make_dir_spec (rev (n :: rq)) d Hne) as H1. destruct (make_dir Base (rev (n :: rq)) d) as [d1 r1].
  destruct H1 as (Hd1 & Hg1 & He1 & Hr1).
  destruct r1 as [|e1]; [by apply or_dir_spec|]. destruct e1; try (by apply or_dir_spec).
  unfold io_bind. specialize (IH d1). destruct (create_dir_all_rev Base rq d1) as [d2 r2].
  destruct IH as (Hd2 & Hg2%(grows_parent n) & He2). set (p := rev (n :: rq)) in *.
  assert (unlinked (dk_base d) p → dk_escaped d2 = dk_escaped d) as He2'.
  { intros Hu. rewrite <-He1 by done. apply He2. rewrite Hr1. by apply (unlinked_parent _ n). }
  assert (grows p (dk_base d) (dk_base d2)) as Hg by (by eapply grows_trans).
  destruct r2 as [|e2]; [|split_and!; [congruence|done|]; intros Hu; split; [auto|done]].
  unfold io_catch. pose proof (make_dir_spec p d2 Hne) as H3. destruct (make_dir Base p d2) as [d3 r3].
  destruct H3 as (Hd3 & Hg3 & He3 & Hr3). apply or_dir_spec.
  - congruence.
  - by eapply grows_trans.
  - intros Hu. rewrite He3; [auto|]. by eapply grows_unlinked.
  - by destruct r3.
Qed.

Lemma create_dir_all_spec p d : let '(d', r) := create_dir_all Base p d in made_dirs p d d' r.
Proof.
  unfold create_dir_all. pose proof (create_dir_all_rev_spec (rev p) d) as Hs. by rewrite rev_involutive in Hs.
Qed.

(** A file or link put at [dest], through a temporary one beside it. *)
Definition placed_at (good : Inode → Prop) (dest : Components) (d d' : Disk) (r : result unit IoError) : Prop :=
  dk_dirs d' = dk_dirs d ∧
  (unlinked (dk_base d) dest → dk_escaped d' = dk_escaped d) ∧
  (is_ok r = true →
     ¬ dir_at (dk_base d) dest ∧ ∃ i, good i ∧ dk_base d' = <[dest := i]> (dk_base d)).

Lemma create_cases node p b :
  (create node p b = Ok (<[p := node]> b) ∧ b !! p = None) ∨
  (∃ e, create node p b = Err e ∧ (unlinked b p → e ≠ OutsideTree)).
Proof.
  unfold create. destruct (reach b [] p) as [|e] eqn:Hr; simpl.
  - destruct (b !! p); [right; eauto|left; eauto].
  - right. exists e. split; [done|]. intros Hu ->. by apply (reach_unlinked b p).
Qed.

Lemma update_cases f p b :
  (∃ i, update f p b = Ok (<[p := f i]> b) ∧ b !! p = Some i) ∨
  (∃ e, update f p b = Err e ∧ (unlinked b p → e ≠ OutsideTree)).
Proof.
  unfold update. destruct (stat b p) as [i|e] eqn:Hs; simpl.
  - left. exists i. split; [done|]. by apply stat_Ok.
  - right. exists e. split; [done|]. intros Hu ->. by apply (stat_unlinked b p).
Qed.

Lemma rename_cases src dst b :
  (∃ i b', rename src dst b = Ok b' ∧ b !! src = Some i ∧ ¬ dir_at b dst ∧
     b' = <[dst := i]> (if bool_decide (src = dst) then b else delete src b)) ∨
  (∃ e, rename src dst b = Err e ∧ (unlinked b src → unlinked b dst → e ≠ OutsideTree)).
Proof.
  unfold rename. destruct (stat b src) as [i|e] eqn:Hs; simpl.
  2: { right. exists e. split; [done|]. intros Hu _ ->. by apply (stat_unlinked b src). }
  destruct (reach b [] dst) as [|e] eqn:Hr; simpl.
  2: { right. exists e. split; [done|]. intros _ Hu ->. by apply (reach_unlinked b dst). }
  apply stat_Ok in Hs. unfold dir_at. destruct (b !! dst) as [[[] m x]|] eqn:Hd; try (right; by eexists); left; exists i.
  all: case_bool_decide as He; [subst|]; eexists; split_and!; try done.
  all: first [by rewrite insert_id|by intros []].
Qed.

(** On the way: the temporary file [tmp] is there, and nothing else has changed. *)
Definition on_way (P : Inode → Prop) (tmp dest : Components) (d0 d : Disk) : Prop :=
  (∃ i, P i ∧ dk_base d = <[tmp := i]> (dk_base d0)) ∧ dk_base d0 !! tmp = None ∧ dk_dirs d = dk_dirs d0 ∧
  (unlinked (dk_base d0) dest → dk_escaped d = dk_escaped d0).

(** Given up: only the directories and the escape flag matter. *)
Definition given_up (dest : Components) (d0 d : Disk) : Prop :=
  dk_dirs d = dk_dirs d0 ∧ (unlinked (dk_base d0) dest → dk_escaped d = dk_escaped d0).

Lemma given_up_placed good dest d0 d e : given_up dest d0 d → placed_at good dest d0 d (Err e).
Proof. intros [Hd He]. by split_and!. Qed.

Section Sibling.
Context (p : Components) (n m : string).
Let dest := p ++ [n].
Let tmp := p ++ [m].

Lemma temp_create (node : nat → Inode) (P : Inode → Prop) d :
  (∀ k, P (node k)) →
  let '(d', r) := changes Base (λ k, create (node k) tmp) d in
  if is_ok r then on_way P tmp dest d d' else given_up dest d d'.
Proof.
  intros HP. pose proof (changes_cases (λ k, create (node k) tmp) d) as Hc.
  destruct (changes Base _ d) as [d' r]. destruct Hc as (Hd & [(-> & Hf & He)|(e & -> & Hb & He)]);
    destruct (create_cases (node (dk_ops d)) tmp (dk_base d)) as [[Hc Hn]|(e' & Hc & Ho)]; simpl; try congruence.
  - rewrite Hf in Hc. injection Hc as Hc. split_and!; try done. by exists (node (dk_ops d)).
  - split; [done|]. intros _. apply He. congruence.
  - split; [done|]. intros Hu. apply He. rewrite Hc. intros [= ->].
    by apply Ho; [apply (unlinked_sibling _ p n)|].
Qed.

Lemma temp_update f (P Q : Inode → Prop) d0 d :
  (∀ i, P i → Q (f i)) → on_way P tmp dest d0 d →
  let '(d', r) := changes Base (λ _, update f tmp) d in
  if is_ok r then on_way Q tmp dest d0 d' else given_up dest d0 d'.
Proof.
  intros HPQ ([i [Hi Hb0]] & Hn & Hd0 & He0). pose proof (changes_cases (λ _, update f tmp) d) as Hc.
  destruct (changes Base _ d) as [d' r]. destruct Hc as (Hd & [(-> & Hf & He)|(e & -> & Hb & He)]);
    destruct (update_cases f tmp (dk_base d)) as [(j & Hc & Hj)|(e' & Hc & Ho)]; simpl; try congruence.
  - rewrite Hf in Hc. injection Hc as Hc. rewrite Hb0, lookup_insert_eq in Hj. injection Hj as <-.
    rewrite Hb0, insert_insert_eq in Hc. split_and!; [by exists (f i); auto|done|congruence|].
    intros Hu. rewrite He. auto.
  - split; [congruence|]. intros Hu. rewrite He by congruence. auto.
  - split; [congruence|]. intros Hu. rewrite He; [auto|]. rewrite Hc. intros [= ->].
    apply Ho; [|done]. rewrite Hb0. by apply unlinked_insert, (unlinked_sibling _ p n).
Qed.

Lemma temp_rename (P : Inode → Prop) d0 d :
  on_way P tmp dest d0 d →
  let '(d', r) := changes Base (λ _, rename tmp dest) d in placed_at P dest d0 d' r.
Proof.
  intros ([i [Hi Hb0]] & Hn & Hd0 & He0). pose proof (changes_cases (λ _, rename tmp dest) d) as Hc.
  destruct (changes Base _ d) as [d' r]. destruct Hc as (Hd & [(-> & Hf & He)|(e & -> & Hb & He)]);
    destruct (rename_cases tmp dest (dk_base d)) as [(j & b' & Hc & Hj & Hnd & Hb')|(e' & Hc & Ho)]; try congruence.
  - rewrite Hf in Hc. injection Hc as Hc. rewrite Hb0, lookup_insert_eq in Hj. injection Hj as <-.
    split_and!; [congruence|intros Hu; rewrite He; auto|]. intros _. rewrite Hc, Hb', Hb0. split.
    + intros Hdir. apply Hnd. rewrite Hb0. unfold dir_at in *. destruct (decide (dest = tmp)) as [He'|Hne].
      * rewrite He', Hn in Hdir. done.
      * by rewrite lookup_insert_ne.
    + exists i. split; [done|]. case_bool_decide as He'.
      * rewrite He'. by rewrite insert_insert_eq.
      * by rewrite delete_insert_id.
  - split_and!; [congruence| |done]. intros Hu. rewrite He by congruence. auto.
  - split_and!; [congruence| |done]. intros Hu. rewrite He; [auto|]. rewrite Hc. intros [= ->].
    apply Ho; [| |done]; rewrite Hb0; apply unlinked_insert; [|done]. by apply (unlinked_sibling _ p n).
Qed.
End Sibling.

Lemma tmp_path_snoc k p n : tmp_path k (p ++ [n]) = p ++ [tmp_name k].
Proof. unfold tmp_path, parent. by rewrite removelast_last. Qed.

Lemma write_spec dest bytes mode d :
  let '(d', r) := write_via_temp_inner Base dest bytes mode d in
  placed_at (λ i, i_content i = Node.File bytes) dest d d' r.
Proof.
  destruct dest as [|n p _] using rev_ind; [by split_and!|].
  unfold write_via_temp_inner.
  destruct (p ++ [n]) eqn:Hpn; [by destruct p|]. rewrite <-Hpn, tmp_path_snoc. clear Hpn.
  unfold io_bind. set (tmp := tmp_name (dk_ops d)).
  pose proof (temp_create p n tmp (λ k, {| i_content := Node.File EmptyString; i_mode := temp_create_mode mode;
                                         i_id := new_inode k |}) (λ _, True) d (λ _, I)) as H1.
  destruct (changes Base _ d) as [d1 [u1|e1]]; [|by apply given_up_placed]. cbn [is_ok] in H1.
  pose proof (temp_update p n tmp (set_bytes bytes) _ (λ i, i_content i = Node.File bytes) d d1 (λ _ _, eq_refl) H1) as H2.
  destruct (changes Base _ d1) as [d2 [u2|e2]]; [|by apply given_up_placed]. cbn [is_ok] in H2.
  destruct mode as [m|]; [|by apply temp_rename].
  pose proof (temp_update p n tmp (set_mode m) _ (λ i, i_content i = Node.File bytes) d d2 (λ i Hi, Hi) H2) as H3.
  destruct (changes Base _ d2) as [d3 [u3|e3]]; [|by apply given_up_placed]. by apply temp_rename.
Qed.

Lemma symlink_spec target dest d :
  let '(d', r) := create_symlink_via_temp Base target dest d in
  placed_at (λ i, i_content i = Node.Symlink target) dest d d' r.
Proof.
  destruct dest as [|n p _] using rev_ind; [by split_and!|].
  unfold create_symlink_via_temp. destruct (p ++ [n]) eqn:Hpn; [by destruct p|]. rewrite <-Hpn, tmp_path_snoc. clear Hpn.
  unfold io_bind. set (tmp := tmp_name (dk_ops d)).
  pose proof (temp_create p n tmp (λ k, {| i_content := Node.Symlink target; i_mode := 511; i_id := new_inode k |})
                (λ i, i_content i = Node.Symlink target) d (λ _, eq_refl)) as H1.
  destruct (changes Base _ d) as [d1 [u1|e1]]; [|by apply given_up_placed]. by apply temp_rename.
Qed.
End Effects.

(** ** Checking a tree *)

Definition good_nameb (n : string) : bool :=
  negb (is_empty n) && negb (String.eqb n ".") && negb (String.eqb n "..") && lacks slash_c n && lacks backslash_c n.

Definition dir_atb (t : Tree) (p : Components) : bool :=
  match t !! p with Some i => bool_decide (i_content i = Node.Directory) | None => false end.

Definition tree_okb (t : Tree) : bool :=
  forallb (λ e, let p := fst e in
    negb (bool_decide (p = [])) && forallb good_nameb p && (bool_decide (parent p = []) || dir_atb t (parent p)))
    (map_to_list t).

Lemma good_nameb_sound n : good_nameb n = true → good_name n.
Proof.
  unfold good_nameb, good_name. rewrite !andb_true_iff, !negb_true_iff, !String.eqb_neq.
  intros ((((Hn & ?) & ?) & ?) & ?). split_and!; try done. by intros ->.
Qed.

Lemma tree_okb_sound t : tree_okb t = true → tree_ok t.
Proof.
  intros Hall.
  assert (∀ p i, t !! p = Some i → p ≠ [] ∧ Forall good_name p ∧ (parent p = [] ∨ dir_at t (parent p))) as Hone.
  { intros p i Hi. unfold tree_okb in Hall. rewrite forallb_forall in Hall. specialize (Hall (p, i)).
    rewrite <-list_elem_of_In, elem_of_map_to_list in Hall. specialize (Hall Hi). cbn in Hall.
    rewrite !andb_true_iff, orb_true_iff, negb_true_iff, bool_decide_eq_false, bool_decide_eq_true in Hall.
    destruct Hall as ((Hne & Hg) & Hp). split_and!; [done| |].
    - rewrite forallb_forall in Hg. apply Forall_forall. intros n Hn. by apply good_nameb_sound, Hg, list_elem_of_In.
    - destruct Hp as [|Hd]; [by left|right]. unfold dir_atb in Hd. unfold dir_at, parent.
      destruct (t !! removelast p) as [j|]; [|done].
      by apply bool_decide_eq_true in Hd. }
  intros p. induction p as [|n p IH] using rev_ind; intros i Hi; destruct (Hone _ _ Hi) as (Hne & Hg & Hp); [done|].
  split_and!; [done..|]. unfold parent in Hp. rewrite removelast_last in Hp. intros q [Hq Hqp]%above_snoc.
  destruct Hp as [->|Hd].
  - destruct Hqp as [->|[? (k & x & Heq)]]; [done|]. by destruct q.
  - destruct Hqp as [->|Ha]; [done|]. unfold dir_at in Hd. destruct (t !! p) as [j|] eqn:Hj; [|done].
    destruct (IH j eq_refl) as (_ & _ & Hup). auto.
Qed.
