(* ===== verification/WorkspaceTx.v ===== *)
(** * WorkspaceTx: staged changes folded back onto a base tree

    aa-workspace-tx: lib.rs (the transaction), state.rs (its private directory and the
    search for an unfinished apply), commit.rs (the refusal checks, the journal and the
    apply), with the vocabulary of aa-isolation/src/tx.rs.

    A journal is named by the transaction whose directory holds it, and its text is kept.
    The canonical text of the base directory is an argument, as is the order in which
    directories are read.  [sync_all] and [fsync_dir] order writes on the device, which the
    disk of the model does anyway; a call to them may fail where the code looks at the
    result. *)

From stdpp Require Import base gmap strings list.
From Stdlib Require Import ZArith Lia Bool Ascii String.
From S2P Require Import Prelude.
From S2P Require Import Text.
From S2P Require Import FileTree.

Open Scope Z_scope.
Open Scope aasm_scope.

(** ** Vocabulary *)

Abbreviation TransactionId := string.

Module Change.
Inductive ChangeEntry := Added (path : string) | Modified (path : string) | Deleted (path : string).

Definition path (e : ChangeEntry) : string :=
  match e with Added p => p | Modified p => p | Deleted p => p end.

(** The path of an addition or a modification. *)
Definition written_path (e : ChangeEntry) : option string :=
  match e with Added p => Some p | Modified p => Some p | Deleted _ => None end.
End Change.

Record ChangeSet := { cs_entries : list Change.ChangeEntry }.

Definition paths (c : ChangeSet) : gset string := list_to_set (map Change.path (cs_entries c)).

(** The set in its order. *)
Definition sorted_paths (c : ChangeSet) : list string := stable_sort str_leb (elements (paths c)).

Module TxStatus.
Inductive TransactionStatus :=
| Open
| Closed
| Committed
| Discarded
| ConflictRefused (refusal : CommitRefusal)
| InterruptedApply
with CommitRefusal :=
| BaseDrift (paths : list string)
| ProtectedPathNotApproved (selectors : list string)
| BoundaryEscape (path : string)
| HardlinkToBase (path : string)
| NotClosed (observed : TransactionStatus)
| LockUnavailable (detail : IoError)
| ApplyInterrupted (journal : string) (detail : IoError).

Definition is_terminal (s : TransactionStatus) : bool :=
  match s with Committed | Discarded | ConflictRefused _ => true | _ => false end.
End TxStatus.

Import TxStatus.

Record CommitOutcome := {
  co_transaction : TransactionId;
  co_base_digest : string;
  co_result_digest : string;
  co_applied : ChangeSet;
}.

(** Paths and texts of the errors are left out. *)
Module StateError.
Inductive t :=
| RootUnavailable
| NotPrivate
| CreateFailed
| LockUnavailable
| Io (e : IoError).
End StateError.

Module TxError.
Inductive TransactionError :=
| State (e : StateError.t)
| Materialize (e : IoError)
| Manifest (e : IoError)
| InterruptedApply (journal : TransactionId).
End TxError.

(** ** The change set *)

Definition diff (base staged : BaseManifest) : ChangeSet :=
  {| cs_entries :=
       omap (λ e, match manifest_entry base (me_path e) with
                  | None => Some (Change.Added (me_path e))
                  | Some before =>
                      if negb (entries_equal before e) then Some (Change.Modified (me_path e)) else None
                  end) (bm_entries staged)
       ++ omap (λ e, match manifest_entry staged (me_path e) with
                     | None => Some (Change.Deleted (me_path e))
                     | Some _ => None
                     end) (bm_entries base) |}.

(** ** The checks *)

(** Every component is a normal one: no root, no parent, no leading current directory. *)
Definition is_normal_relative (path : string) : bool :=
  negb (is_empty path) && negb (starts_with path "/")
  && match split_on slash_c path with n :: _ => negb (String.eqb n ".") | [] => true end
  && forallb (λ n, negb (String.eqb n "..")) (split_on slash_c path).

Fixpoint symlink_on_way (t : Tree) (pre rest : Components) : result bool IoError :=
  match rest with
  | [] | [_] => Ok false
  | n :: rest' =>
      match stat t (pre ++ [n]) with
      | Ok i => match i_content i with Node.Symlink _ => Ok true | _ => symlink_on_way t (pre ++ [n]) rest' end
      | Err NotFound => Ok false
      | Err e => Err e
      end
  end.

Definition ancestor_is_symlink (t : Tree) (path : string) : result bool IoError :=
  symlink_on_way t [] (components path).

Section Workspace.
Context `{Host}.

Definition protects (selector path : string) : bool :=
  String.eqb (fold path) (fold selector) || starts_with (fold path) (fold selector ++ "/")%string.

Definition hit_selectors (protected : list string) (changed : gset string) : list string :=
  List.filter (λ s, existsb (protects s) (elements changed)) protected.

(** The spellings met so far, by their folded form. *)
Fixpoint spell_path (seen : gmap string string) (folded exact : string) (comps : list string)
  : gmap string string + string :=
  match comps with
  | [] => inl seen
  | c :: rest =>
      let sep := (if is_empty folded then "" else "/")%string in
      let folded' := (folded ++ sep ++ fold c)%string in
      let exact' := (exact ++ sep ++ c)%string in
      match seen !! folded' with
      | Some prev => if String.eqb prev exact' then spell_path seen folded' exact' rest else inr prev
      | None => spell_path (<[folded' := exact']> seen) folded' exact' rest
      end
  end.

Fixpoint spelling_collision (seen : gmap string string) (es : list Change.ChangeEntry) : option string :=
  match es with
  | [] => None
  | e :: rest =>
      match spell_path seen EmptyString EmptyString (split_on slash_c (Change.path e)) with
      | inr prev =>
          Some (Change.path e ++ " (case/normalization collision with " ++ prev ++ "; not a boundary escape)")%string
      | inl seen' => spelling_collision seen' rest
      end
  end.

Fixpoint base_collision (t : Tree) (path : string) (current : Components) (comps : list string)
  : result (option string) IoError :=
  match comps with
  | [] => Ok None
  | c :: rest =>
      match read_dir t current with
      | Err NotFound => Ok None
      | Err e => Err e
      | Ok names =>
          if existsb (String.eqb c) names then base_collision t path (current ++ [c]) rest
          else match find (λ n, String.eqb (fold n) (fold c)) names with
               | Some other =>
                   Ok (Some (path ++ " (case/normalization collision with existing base entry " ++ other
                             ++ "; not a boundary escape)")%string)
               | None => Ok None
               end
      end
  end.

Fixpoint base_collisions (t : Tree) (es : list Change.ChangeEntry) : result (option string) IoError :=
  match es with
  | [] => Ok None
  | Change.Added path :: rest =>
      let? found := base_collision t path [] (split_on slash_c path) in
      match found with Some detail => Ok (Some detail) | None => base_collisions t rest end
  | _ :: rest => base_collisions t rest
  end.

Definition fold_collision (t : Tree) (c : ChangeSet) : result (option string) IoError :=
  match spelling_collision ∅ (cs_entries c) with
  | Some detail => Ok (Some detail)
  | None => base_collisions t (cs_entries c)
  end.

(** ** The journal *)

Definition newline : string := String (ascii_of_nat 10) EmptyString.
Definition JOURNAL_BASE_PREFIX : string := "BASE ".

Definition journal_body (key : string) (c : ChangeSet) : string :=
  (JOURNAL_BASE_PREFIX ++ key ++ newline ++
   foldr (λ e rest,
     (match e with Change.Added _ => "ADD" | Change.Modified _ => "MOD" | Change.Deleted _ => "DEL" end
      ++ " " ++ Change.path e ++ newline ++ rest)%string) EmptyString (cs_entries c))%string.

Definition with_journal (x : TxDir) (j : option string) : TxDir :=
  {| td_private := td_private x; td_locked := td_locked x; td_staged := td_staged x; td_journal := j |}.

Definition set_journal (d : Disk) (id : TransactionId) (j : option string) : Disk :=
  match dk_dirs d !! id with Some x => set_dir d id (with_journal x j) | None => d end.

(** Create and fill the temporary file, rename it, open the journal and sync it. *)
Definition write_journal (id : TransactionId) (body : string) : Io unit :=
  let! _ := reads (λ _, Ok tt) in
  let! _ := reads (λ _, Ok tt) in
  let! _ := call (λ d, (set_journal d id (Some body), Ok tt)) in
  let! _ := reads (λ _, Ok tt) in
  reads (λ _, Ok tt).

(** [str::lines]: the first line, without its end. *)
Definition first_line (body : string) : option string :=
  if is_empty body then None
  else let line := match split_once (ascii_of_nat 10) body with Some (l, _) => l | None => body end in
       Some (match strip_suffix_char (ascii_of_nat 13) line with
             | Some l => if bool_decide (is_Some (split_once (ascii_of_nat 10) body)) then l else line
             | None => line
             end).

(** [None] is a journal that cannot be read. *)
Definition scoped_elsewhere (key : string) (body : option string) : bool :=
  match body with
  | Some b =>
      match first_line b with
      | Some line =>
          match strip_prefix line JOURNAL_BASE_PREFIX with
          | Some journal_base => negb (String.eqb journal_base key)
          | None => false
          end
      | None => false
      end
  | None => false
  end.

Fixpoint find_journal (key : string) (ids : list TransactionId) : Io (option TransactionId) :=
  match ids with
  | [] => io_ret None
  | id :: rest =>
      let! _ := reads (λ _, Ok tt) in
      io_catch (reads (λ d, match dk_dirs d !! id ≫= td_journal with Some _ => Ok tt | None => Err NotFound end)) (λ found,
        match found with
        | Err _ => find_journal key rest
        | Ok _ =>
            io_catch (reads (λ d, match dk_dirs d !! id ≫= td_journal with Some b => Ok b | None => Err NotFound end)) (λ r,
              if scoped_elsewhere key (match r with Ok b => Some b | Err _ => None end)
              then find_journal key rest else io_ret (Some id))
        end)
  end.

Definition find_unresolved_journal (key : string) : Io (option TransactionId) :=
  let! ids := reads (λ d, Ok (map fst (map_to_list (dk_dirs d)))) in find_journal key ids.

(** ** The apply *)

Definition add_directory (staged : BaseManifest) (e : Change.ChangeEntry) : Io unit :=
  match Change.written_path e with
  | Some path =>
      match manifest_entry staged path with
      | Some s => if bool_decide (me_kind s = KDirectory) then create_dir_all Base (components path) else io_ret tt
      | None => io_ret tt
      end
  | None => io_ret tt
  end.

(** The mode of the written file: the base file's, or else the staged one's. *)
Definition apply_mode (id : TransactionId) (p : Components) : Io Z :=
  io_catch (reads (λ d, stat (dk_base d) p)) (λ r,
    match r with
    | Ok {| i_content := Node.File _; i_mode := m |} => io_ret (permission_bits m)
    | _ => let! i := reads (λ d, stat (staged_of d id) p) in io_ret (permission_bits (i_mode i))
    end).

Definition write_change (id : TransactionId) (staged : BaseManifest) (e : Change.ChangeEntry) : Io unit :=
  match Change.written_path e with
  | Some path =>
      match manifest_entry staged path with
      | None => io_ret tt
      | Some s =>
          let dest := components path in
          match me_kind s with
          | KDirectory => io_ret tt
          | KFile =>
              let! _ := create_dir_all Base (parent dest) in
              let! content := reads (λ d, read_file (staged_of d id) dest) in
              let! mode := apply_mode id dest in
              write_via_temp_with_mode Base dest content mode
          | KSymlink =>
              let! _ := create_dir_all Base (parent dest) in
              let! _ := λ d,
                (if exists_ (dk_base d) dest || is_ok (stat (dk_base d) dest)
                 then io_catch (changes Base (λ _, remove_file dest)) (λ _, io_ret tt)
                 else io_ret tt) d in
              create_symlink_via_temp Base (default EmptyString (me_symlink_target s)) dest
          end
      end
  | None => io_ret tt
  end.

Fixpoint count_slashes (s : string) : nat :=
  match s with
  | EmptyString => 0
  | String c s' => (if ascii_dec c slash_c then 1 else 0) + count_slashes s'
  end%nat.

(** The deepest first. *)
Definition deletions (c : ChangeSet) : list string :=
  stable_sort (λ a b, (count_slashes b <=? count_slashes a)%nat)
    (omap (λ e, match e with Change.Deleted p => Some p | _ => None end) (cs_entries c)).

Definition delete_path (path : string) : Io unit :=
  let target := components path in
  let! i := reads (λ d, stat (dk_base d) target) in
  match i_content i with
  | Node.Directory => changes Base (λ _, remove_dir target)
  | _ => changes Base (λ _, remove_file target)
  end.

Definition apply (id : TransactionId) (staged : BaseManifest) (c : ChangeSet) : Io unit :=
  let! _ := io_each (add_directory staged) (cs_entries c) in
  let! _ := io_each (write_change id staged) (cs_entries c) in
  io_each delete_path (deletions c).

(** ** The commit *)

(** A call whose error is a refusal, and the rest of the commit. *)
Definition or_refuse {A B} (m : Io A) (k : A → Disk → Disk * result B CommitRefusal)
  : Disk → Disk * result B CommitRefusal :=
  λ d, let '(d', r) := m d in match r with Ok a => k a d' | Err e => (d', Err (LockUnavailable e)) end.

(** The first path for which the check answers. *)
Fixpoint first_hit (check : string → Io bool) (ps : list string) : Io (option string) :=
  match ps with
  | [] => io_ret None
  | p :: rest => let! hit := check p in if hit then io_ret (Some p) else first_hit check rest
  end.

Definition hardlinked (id : TransactionId) (e : Change.ChangeEntry) : Io bool :=
  match Change.written_path e with
  | Some path => reads (λ d, shares_inode (staged_of d id) (dk_base d) (components path))
  | None => io_ret false
  end.

Fixpoint first_hardlink (id : TransactionId) (es : list Change.ChangeEntry) : Io (option string) :=
  match es with
  | [] => io_ret None
  | e :: rest => let! hit := hardlinked id e in if hit then io_ret (Some (Change.path e)) else first_hardlink id rest
  end.

(** The part after the checks. *)
Definition commit_apply (id : TransactionId) (key root : string) (exclusions : list string)
    (current_base staged : BaseManifest) (c : ChangeSet) : Disk → Disk * result CommitOutcome CommitRefusal :=
  or_refuse (write_journal id (journal_body key c)) (λ _ d,
    match apply id staged c d with
    | (d1, Err e) => (d1, Err (ApplyInterrupted id e))
    | (d1, Ok _) =>
        let d2 := fst (call (λ d, (set_journal d id None, Ok tt)) d1) in
        or_refuse (measure Base root exclusions) (λ after d3,
          (d3, Ok {| co_transaction := id; co_base_digest := aggregate_digest current_base;
                     co_result_digest := aggregate_digest after; co_applied := c |})) d2
    end).

Definition run_commit (id : TransactionId) (key root : string) (exclusions : list string) (opened : BaseManifest)
    (protected : list string) (approved : bool) : Disk → Disk * result CommitOutcome CommitRefusal :=
  or_refuse (measure Base root exclusions) (λ current_base,
  or_refuse (measure (Staged id) id []) (λ staged d,
    let c := diff opened staged in
    let changed := paths c in
    let drift := List.filter (λ p, bool_decide (p ∈ changed)) (drifted_paths opened current_base) in
    match drift with
    | _ :: _ => (d, Err (BaseDrift drift))
    | [] =>
        let hits := hit_selectors protected changed in
        if negb (match hits with [] => true | _ => false end) && negb approved
        then (d, Err (ProtectedPathNotApproved hits))
        else match find (λ p, negb (is_normal_relative p)) (sorted_paths c) with
             | Some p => (d, Err (BoundaryEscape p))
             | None =>
                 or_refuse (first_hit (λ p, reads (λ d, ancestor_is_symlink (dk_base d) p)) (sorted_paths c)) (λ link d,
                   match link with
                   | Some p => (d, Err (BoundaryEscape p))
                   | None =>
                       or_refuse (reads (λ d, fold_collision (dk_base d) c)) (λ collision d,
                         match collision with
                         | Some detail => (d, Err (BoundaryEscape detail))
                         | None =>
                             or_refuse (first_hardlink id (cs_entries c)) (λ hard d,
                               match hard with
                               | Some p => (d, Err (HardlinkToBase p))
                               | None => commit_apply id key root exclusions current_base staged c d
                               end) d
                         end) d
                   end) d
             end
    end)).

(** ** The transaction *)

Record WorkspaceTransaction := {
  wt_id : TransactionId;
  wt_base_key : string;
  wt_base_root : string;
  wt_exclusions : list string;
  wt_base_manifest : BaseManifest;
  wt_status : TransactionStatus;
}.

Definition set_lock (d : Disk) (id : TransactionId) (locked : bool) : Disk :=
  match dk_dirs d !! id with
  | Some x => set_dir d id {| td_private := td_private x; td_locked := locked;
                              td_staged := td_staged x; td_journal := td_journal x |}
  | None => d
  end.

(** The directory is made before it is made private. *)
Definition new_dir (private : bool) : TxDir :=
  {| td_private := private; td_locked := false; td_staged := None; td_journal := None |}.

(** A call that succeeds unless it fails. *)
Definition attempt : Io unit := call (λ d, (d, Ok tt)).

(** [create_dir] with its permissions, or the check of the directory that is there. *)
Definition own_dir (id : TransactionId) (d : Disk) : Disk * result unit StateError.t :=
  match attempt d with
  | (d, Err _) => (d, Err StateError.CreateFailed)
  | (d, Ok _) =>
      match dk_dirs d !! id with
      | None =>
          match (let! _ := attempt in attempt) (set_dir d id (new_dir false)) with
          | (d, Err e) => (d, Err (StateError.Io e))
          | (d, Ok _) => (set_dir d id (new_dir true), Ok tt)
          end
      | Some x =>
          match attempt d with
          | (d, Err _) => (d, Err StateError.NotPrivate)
          | (d, Ok _) => if td_private x then (d, Ok tt) else (d, Err StateError.NotPrivate)
          end
      end
  end.

(** Opening the lock file and taking the lock. *)
Definition acquire_exclusive_lock (id : TransactionId) (d : Disk) : Disk * result unit StateError.t :=
  match attempt d with
  | (d, Err _) => (d, Err StateError.LockUnavailable)
  | (d, Ok _) =>
      match attempt d with
      | (d, Err _) => (d, Err StateError.LockUnavailable)
      | (d, Ok _) =>
          match dk_dirs d !! id with
          | Some x => if td_locked x then (d, Err StateError.LockUnavailable) else (set_lock d id true, Ok tt)
          | None => (d, Ok tt)
          end
      end
  end.

(** A staged directory that is there is used as it is. *)
Definition ensure_staged (id : TransactionId) (d : Disk) : Disk * result unit StateError.t :=
  match dk_dirs d !! id with
  | Some x =>
      match td_staged x with
      | Some _ => (d, Ok tt)
      | None =>
          match attempt d with
          | (d, Err e) => (set_lock d id false, Err (StateError.Io e))
          | (d, Ok _) => (set_dir d id (with_staged x (Some ∅)), Ok tt)
          end
      end
  | None => (d, Ok tt)
  end.

(** [StateDir::create]; the first call makes sure of the state root. *)
Definition state_create (id : TransactionId) (d : Disk) : Disk * result unit StateError.t :=
  match attempt d with
  | (d, Err _) => (d, Err StateError.RootUnavailable)
  | (d, Ok _) =>
      match own_dir id d with
      | (d, Err e) => (d, Err e)
      | (d, Ok _) =>
          match acquire_exclusive_lock id d with
          | (d, Err e) => (d, Err e)
          | (d, Ok _) => ensure_staged id d
          end
      end
  end.

Definition open (id : TransactionId) (key root : string) (exclusions : list string) (d : Disk)
  : Disk * result WorkspaceTransaction TxError.TransactionError :=
  match find_unresolved_journal key d with
  | (d1, Err e) => (d1, Err (TxError.State (StateError.Io e)))
  | (d1, Ok (Some journal)) => (d1, Err (TxError.InterruptedApply journal))
  | (d1, Ok None) =>
      match state_create id d1 with
      | (d2, Err e) => (d2, Err (TxError.State e))
      | (d2, Ok _) =>
          match measure Base root exclusions d2 with
          | (d3, Err e) => (set_lock d3 id false, Err (TxError.Manifest e))
          | (d3, Ok m) =>
              match copy_surface (Staged id) m d3 with
              | (d4, Err e) => (set_lock d4 id false, Err (TxError.Materialize e))
              | (d4, Ok _) =>
                  (d4, Ok {| wt_id := id; wt_base_key := key; wt_base_root := root; wt_exclusions := exclusions;
                             wt_base_manifest := m; wt_status := Open |})
              end
          end
      end
  end.

Definition with_status (tx : WorkspaceTransaction) (s : TransactionStatus) : WorkspaceTransaction :=
  {| wt_id := wt_id tx; wt_base_key := wt_base_key tx; wt_base_root := wt_base_root tx;
     wt_exclusions := wt_exclusions tx; wt_base_manifest := wt_base_manifest tx; wt_status := s |}.

Definition close (tx : WorkspaceTransaction) : WorkspaceTransaction :=
  match wt_status tx with Open => with_status tx Closed | _ => tx end.

(** The transaction and its lock end here. *)
Definition discard (tx : WorkspaceTransaction) (d : Disk) : Disk * result unit IoError :=
  let '(d', r) := call (λ d, (match dk_dirs d !! wt_id tx with
                              | Some x => set_dir d (wt_id tx) (with_staged x None)
                              | None => d
                              end, Ok tt)) d in
  (set_lock d' (wt_id tx) false, r).

(** The outcome, and the status the transaction ends with. *)
Definition commit (tx : WorkspaceTransaction) (protected : list string) (approved : bool) (d : Disk)
  : Disk * result CommitOutcome CommitRefusal * TransactionStatus :=
  match wt_status tx with
  | Closed =>
      let '(d', r) :=
        run_commit (wt_id tx) (wt_base_key tx) (wt_base_root tx) (wt_exclusions tx) (wt_base_manifest tx)
          protected approved d in
      (set_lock d' (wt_id tx) false, r,
       match r with
       | Ok _ => Committed
       | Err (ApplyInterrupted _ _) => InterruptedApply
       | Err refusal => ConflictRefused refusal
       end)
  | observed => (set_lock d (wt_id tx) false, Err (NotClosed observed), ConflictRefused (NotClosed observed))
  end.
End Workspace.
