(* ===== verification/WorkspaceProps.v ===== *)
(** * WorkspaceProps: a commit applies everything or says so

    A successful commit leaves in the base exactly the staged entries of the change set; a
    refusal leaves the base as it was; an apply that stops part-way, for whatever reason and
    at whatever call, leaves a journal that keeps later transactions off the base; and no
    call follows a symbolic link out of the base.  Then the cases in which the documented
    contract does not hold. *)

From stdpp Require Import base gmap strings list.
From Stdlib Require Import ZArith Lia Bool Ascii String.
From S2P Require Import Prelude.
From S2P Require Import Text.
From S2P Require Import FileTree.
From S2P Require Import WorkspaceTx.

Open Scope Z_scope.
Open Scope aasm_scope.

Import TxStatus.

(** ** The change set on trees *)

Section Changes.
Context `{Host}.

(** The path is in the change set. *)
Definition changed (c : ChangeSet) (p : Components) : Prop := Forall good_name p ∧ relative p ∈ paths c.

Lemma elem_of_paths c x : x ∈ paths c ↔ ∃ e, e ∈ cs_entries c ∧ Change.path e = x.
Proof.
  unfold paths. rewrite elem_of_list_to_set, list_elem_of_fmap. split; intros (e & ? & ?); eauto.
Qed.

Section Trees.
Context (root0 root1 : string) (t0 s : Tree) (exclusions : list string).
Context (Ht0 : tree_ok t0) (Hs : tree_ok s).
Let opened := measure_tree root0 t0 exclusions.
Let staged := measure_tree root1 s [].
Let c := diff opened staged.

Lemma staged_lookup p : Forall good_name p → manifest_entry staged (relative p) = entry_of p <$> s !! p.
Proof. intros Hp. unfold staged. by rewrite manifest_lookup. Qed.

Lemma diff_entry e :
  e ∈ cs_entries c →
  ∃ p, Change.path e = relative p ∧ Forall good_name p ∧ p ≠ [] ∧
    match e with
    | Change.Deleted _ => s !! p = None ∧ is_Some (t0 !! p) ∧ is_excluded (relative p) exclusions = false
    | _ => is_Some (s !! p)
    end.
Proof.
  unfold c, diff. cbn [cs_entries]. rewrite elem_of_app, !list_elem_of_omap. intros [(m & Hm & He)|(m & Hm & He)].
  - apply measure_spec in Hm as (p & i & Hi & _ & ->); [|done]. destruct (Hs _ _ Hi) as (Hne & Hp & _). exists p.
    rewrite entry_of_path in He. destruct (manifest_entry opened (relative p)) as [m|].
    + destruct (negb _); [|done]. injection He as <-. eauto.
    + injection He as <-. eauto.
  - apply measure_spec in Hm as (p & i & Hi & Hx & ->); [|done]. destruct (Ht0 _ _ Hi) as (Hne & Hp & _). exists p.
    rewrite entry_of_path in He. destruct (manifest_entry staged (relative p)) eqn:E; [done|]. injection He as <-.
    rewrite staged_lookup in E by done. split_and!; eauto. by destruct (s !! p).
Qed.

Lemma changed_entry p :
  changed c p →
  ∃ e, e ∈ cs_entries c ∧ Change.path e = relative p ∧
    match e with
    | Change.Deleted _ => s !! p = None ∧ is_Some (t0 !! p) ∧ is_excluded (relative p) exclusions = false
    | _ => is_Some (s !! p)
    end.
Proof.
  intros [Hp (e & He & Hpath)%elem_of_paths]. exists e. split_and!; [done..|].
  destruct (diff_entry e He) as (q & Hq & Hgq & _ & Hcase). rewrite Hpath in Hq.
  by apply relative_inj in Hq as ->.
Qed.
End Trees.
End Changes.

(** ** Applying *)

Section Apply.
Context `{Host} (id : TransactionId) (root1 : string) (s : Tree) (Hs : tree_ok s) (c : ChangeSet).
Context (dirs : gmap string TxDir) (Hdirs : default ∅ (dirs !! id ≫= td_staged) = s).
Let staged := measure_tree root1 s [].

(** The entries of the change set name paths: of the staged tree, or of what was there. *)
Context (Hnamed : ∀ e, e ∈ cs_entries c →
  ∃ p, Change.path e = relative p ∧ Forall good_name p ∧ p ≠ [] ∧
    match e with Change.Deleted _ => s !! p = None | _ => is_Some (s !! p) end).

Definition written (p : Components) : Prop := changed c p ∧ is_Some (s !! p).
Definition removed (p : Components) : Prop := changed c p ∧ s !! p = None.

(** What one operation at [p] may do to the base: change [p], create missing directories
    above it, never replace a directory, and add a link only where the staged tree has one. *)
Record advance (p : Components) (b b' : Tree) : Prop := {
  ad_only : ∀ q, q ≠ p → b' !! q = b !! q ∨ (b !! q = None ∧ dir_at b' q ∧ above q p);
  ad_dirs : ∀ q, dir_at b q → dir_at b' q;
  ad_links : ∀ q, link_at b' q → link_at b q ∨ (q = p ∧ link_at s p);
}.

(** The invariant between operations. *)
Record going (d : Disk) : Prop := {
  go_dirs : dk_dirs d = dirs;
  go_written : ∀ p, written p → unlinked (dk_base d) p;
  go_removed : ∀ p, removed p → ∀ q, above q p → dir_at (dk_base d) q;
}.

Lemma going_advance p d d' :
  going d → dk_dirs d' = dk_dirs d → advance p (dk_base d) (dk_base d') → going d'.
Proof.
  intros [Hd Hw Hr] Hd' [_ Hdir Hlink]. split; [congruence| |eauto].
  intros q [Hq [i Hi]] x Hx [Hl|[-> Hl]]%Hlink; [by apply (Hw q (conj Hq (ex_intro _ i Hi)) x)|].
  destruct (Hs _ _ Hi) as (_ & _ & Hup). specialize (Hup _ Hx). unfold dir_at, link_at in *.
  destruct (s !! p) as [j|]; [|done]. by rewrite Hup in Hl.
Qed.

(** The staged entry is at its place; a link that leads to a directory passes for one. *)
Definition in_place (p : Components) (b' : Tree) : Prop :=
  ∃ i i', s !! p = Some i ∧ b' !! p = Some i' ∧
    (i_content i' = i_content i ∨ (i_content i = Node.Directory ∧ link_at b' p)).

(** The outcome of an operation at [p]. *)
Definition outcome (p : Components) (d d' : Disk) (r : result unit IoError) : Prop :=
  dk_escaped d' = dk_escaped d ∧
  (is_ok r = true → dk_dirs d' = dk_dirs d ∧ advance p (dk_base d) (dk_base d') ∧ in_place p (dk_base d')).

Lemma grows_advance p b b' : grows p b b' → p ≠ [] → advance p b b'.
Proof.
  intros Hg Hp. split.
  - intros q Hq. destruct (Hg q) as [|(? & ? & _ & [?|?])]; auto. done.
  - intros q Hd. unfold dir_at in *. destruct (Hg q) as [->|(Hn & _)]; [done|]. by rewrite Hn in Hd.
  - intros q Hl. left. unfold link_at in *. destruct (Hg q) as [<-|(_ & Hd & _)]; [done|].
    unfold dir_at in Hd. destruct (b' !! q) as [i|]; [|done]. by rewrite Hd in Hl.
Qed.

(** Missing parents first, then a file or a link at the path. *)
Lemma placed_advance p n b b1 b2 i :
  (∀ target, i_content i = Node.Symlink target → link_at s (p ++ [n])) →
  grows p b b1 → ¬ dir_at b1 (p ++ [n]) →
  (∀ q, q ≠ p ++ [n] → b2 !! q = b1 !! q) →
  advance (p ++ [n]) b (<[p ++ [n] := i]> b2).
Proof.
  intros Hlink Hg Hnd Hb2. split.
  - intros q Hq. rewrite lookup_insert_ne by done. rewrite Hb2 by done.
    destruct (Hg q) as [|(Hn & Hd & Hne & Hq')]; [by left|]. right. split_and!; [done| |by apply above_snoc].
    unfold dir_at in *. by rewrite lookup_insert_ne, Hb2.
  - intros q Hd. destruct (decide (q = p ++ [n])) as [->|Hne].
    + exfalso. apply Hnd. unfold dir_at in *. destruct (Hg (p ++ [n])) as [->|(Hn & _)]; [done|]. by rewrite Hn in Hd.
    + unfold dir_at in *. rewrite lookup_insert_ne, Hb2 by done. destruct (Hg q) as [->|(Hn & _)]; [done|].
      by rewrite Hn in Hd.
  - intros q Hl. destruct (decide (q = p ++ [n])) as [->|Hne].
    + right. split; [done|]. unfold link_at in Hl. rewrite lookup_insert_eq in Hl.
      destruct (i_content i) eqn:Hc; [done..|]. by eapply Hlink.
    + left. unfold link_at in *. rewrite lookup_insert_ne, Hb2 in Hl by done.
      destruct (Hg q) as [<-|(_ & Hd & _)]; [done|]. unfold dir_at in Hd. destruct (b1 !! q) as [j|]; [|done].
      by rewrite Hd in Hl.
Qed.

(** An entry to write names a path of the staged tree, and an entry to delete does not. *)
Lemma written_entry e path :
  e ∈ cs_entries c → Change.written_path e = Some path →
  ∃ p i, path = relative p ∧ written p ∧ p ≠ [] ∧ s !! p = Some i ∧ manifest_entry staged path = Some (entry_of p i).
Proof.
  intros He Hw. destruct (Hnamed e He) as (p & Hp & Hgood & Hne & Hcase).
  assert (Change.path e = path ∧ is_Some (s !! p)) as [<- [i Hi]] by (by destruct e; simplify_eq/=).
  exists p, i. split_and!; try done.
  - split; [|by exists i]. split; [done|]. apply elem_of_paths. eauto.
  - rewrite Hp. unfold staged. rewrite staged_lookup by done. by rewrite Hi.
Qed.

Lemma entry_kind_dir p i : me_kind (entry_of p i) = KDirectory ↔ i_content i = Node.Directory.
Proof. unfold entry_of. by destruct (i_content i). Qed.

(** An operation either does nothing and has nothing to do, or ends at its path. *)
Definition handled (todo : Components → Prop) (e : Change.ChangeEntry) (d d' : Disk) (r : result unit IoError) : Prop :=
  (d' = d ∧ r = Ok tt ∧ ∀ p, Change.written_path e = Some (relative p) → Forall good_name p → ¬ todo p) ∨
  (∃ p, Change.written_path e = Some (relative p) ∧ written p ∧ todo p ∧ outcome p d d' r).

Lemma handled_none todo e d : Change.written_path e = None → handled todo e d d (Ok tt).
Proof. intros He. left. rewrite He. done. Qed.

Lemma handled_skip todo e d p :
  Change.written_path e = Some (relative p) → Forall good_name p → ¬ todo p → handled todo e d d (Ok tt).
Proof.
  intros He Hp Ht. left. split_and!; [done..|]. rewrite He. intros q [= Hq] Hgq.
  by apply relative_inj in Hq as <-.
Qed.

Lemma add_directory_spec e d :
  e ∈ cs_entries c → going d →
  let '(d', r) := add_directory staged e d in handled (dir_at s) e d d' r.
Proof.
  intros He [Hd Hw _]. unfold add_directory. destruct (Change.written_path e) as [path|] eqn:Hpath; [|by apply handled_none].
  destruct (written_entry e path He Hpath) as (p & i & -> & Hwp & Hne & Hi & ->). pose proof Hwp as [[Hgood _] _].
  case_bool_decide as Hk; rewrite entry_kind_dir in Hk.
  2: { eapply handled_skip; [done..|]. unfold dir_at. by rewrite Hi. }
  rewrite components_relative by done.
  pose proof (create_dir_all_spec p d) as Hm. destruct (create_dir_all Base p d) as [d' r].
  destruct Hm as (Hd' & Hg & He'). destruct (He' (Hw p Hwp)) as [Hesc Hok].
  right. exists p. split_and!; [done..|unfold dir_at; by rewrite Hi|]. split; [done|].
  intros Hr. split_and!; [done|by apply grows_advance|].
  destruct (Hok Hr) as [->|Hdl]; [done|]. unfold in_place, dirish, dir_at, link_at in *.
  destruct (dk_base d' !! p) as [i'|] eqn:Hi'; [|by destruct Hdl]. exists i, i'. split_and!; [done..|].
  rewrite Hk. destruct Hdl; auto.
Qed.

(** Calls that only read. *)
Definition quiet {A} (m : Io A) : Prop :=
  ∀ d, dk_dirs (fst (m d)) = dk_dirs d ∧ dk_base (fst (m d)) = dk_base d ∧ dk_escaped (fst (m d)) = dk_escaped d.

Lemma quiet_reads {A} (f : Disk → result A IoError) : quiet (reads f).
Proof. intros d. pose proof (reads_cases f d) as Hr. destruct (reads f d). by destruct Hr as (? & ? & ? & _). Qed.

Lemma quiet_ret {A} (a : A) : quiet (io_ret a).
Proof. by intros d. Qed.

Lemma quiet_bind {A B} (m : Io A) (k : A → Io B) : quiet m → (∀ a, quiet (k a)) → quiet (io_bind m k).
Proof.
  intros Hm Hk d. unfold io_bind. specialize (Hm d). destruct (m d) as [d' [a|e]]; simpl in *; [|done].
  destruct (Hk a d') as (-> & -> & ->). done.
Qed.

Lemma quiet_catch {A B} (m : Io A) (k : result A IoError → Io B) : quiet m → (∀ r, quiet (k r)) → quiet (io_catch m k).
Proof.
  intros Hm Hk d. unfold io_catch. specialize (Hm d). destruct (m d) as [d' r]; simpl in *.
  destruct (Hk r d') as (-> & -> & ->). done.
Qed.

Lemma quiet_apply_mode p : quiet (apply_mode id p).
Proof.
  apply quiet_catch; [apply quiet_reads|]. intros [[[] m x]|e]; try apply quiet_ret;
    (apply quiet_bind; [apply quiet_reads|intros; apply quiet_ret]).
Qed.

(** The end of both cases of [write_change]: the parents are there, the rest happened at the
    path. *)
Lemma outcome_placed p n d d1 d2 d' r content :
  going d → written (p ++ [n]) → (∃ i, s !! (p ++ [n]) = Some i ∧ i_content i = content) →
  content ≠ Node.Directory →
  made_dirs p d d1 (Ok tt) → dk_dirs d2 = dk_dirs d1 → dk_escaped d2 = dk_escaped d1 →
  (∀ q, q ≠ p ++ [n] → dk_base d2 !! q = dk_base d1 !! q) →
  (dir_at (dk_base d1) (p ++ [n]) → dir_at (dk_base d2) (p ++ [n])) →
  placed_at (λ i, i_content i = content) (p ++ [n]) d2 d' r →
  outcome (p ++ [n]) d d' r.
Proof.
  intros [_ Hw _] Hwp (i & Hi & Hc) Hnd (Hd1 & Hg & He1) Hd2 He2 Hb2 Hdir (Hd' & He' & Hr).
  pose proof (Hw _ Hwp) as Hu.
  assert (unlinked (dk_base d) p) as Hup.
  { intros q Hq. apply Hu. apply above_snoc. split; [by destruct Hq|auto]. }
  destruct (He1 Hup) as [He1' _].
  assert (unlinked (dk_base d2) (p ++ [n])) as Hu2.
  { intros q Hq Hl. pose proof (grows_unlinked _ _ _ _ Hg Hu q Hq) as Hn. apply Hn. unfold link_at in *.
    rewrite Hb2 in Hl; [done|]. intros ->. by apply above_irrefl in Hq. }
  split; [rewrite He', He2 by done; done|]. intros [Hndir (i' & Hi' & Hb')]%Hr.
  split_and!; [congruence| |].
  - rewrite Hb'. apply (placed_advance p n (dk_base d) (dk_base d1) (dk_base d2)); [|done|tauto|done].
    intros target Ht. unfold link_at. rewrite Hi. by rewrite Hc, <-Hi', Ht.
  - exists i, i'. rewrite Hb', lookup_insert_eq. split_and!; [done..|]. left. congruence.
Qed.

Lemma read_staged d p bytes :
  dk_dirs d = dirs → read_file (staged_of d id) p = Ok bytes → ∃ i, s !! p = Some i ∧ i_content i = Node.File bytes.
Proof.
  intros Hd. unfold read_file, staged_of. rewrite Hd, Hdirs. destruct (stat s p) as [i|] eqn:E; simpl; [|done].
  apply stat_Ok in E. destruct (i_content i) eqn:Hc; [intros [= ->]; eauto|done..].
Qed.

Lemma unlinked_dir b p n : unlinked b (p ++ [n]) → unlinked b p.
Proof. intros Hu q Hq. apply Hu, above_snoc. split; [by destruct Hq|auto]. Qed.

Lemma made_dirs_escaped p n d d1 r :
  going d → written (p ++ [n]) → made_dirs p d d1 r → dk_escaped d1 = dk_escaped d.
Proof. intros [_ Hw _] Hwp (_ & _ & He). apply He. by apply (unlinked_dir _ _ n), Hw. Qed.

Lemma write_file_spec p n d :
  going d → written (p ++ [n]) →
  (∀ i, s !! (p ++ [n]) = Some i → i_content i ≠ Node.Directory) →
  let '(d', r) := (let! _ := create_dir_all Base p in
                   let! content := reads (λ d, read_file (staged_of d id) (p ++ [n])) in
                   let! mode := apply_mode id (p ++ [n]) in
                   write_via_temp_with_mode Base (p ++ [n]) content mode) d in
  outcome (p ++ [n]) d d' r.
Proof.
  intros Hgo Hwp Hnd. unfold io_bind.
  pose proof (create_dir_all_spec p d) as H1. destruct (create_dir_all Base p d) as [d1 [[]|e1]].
  2: { split; [|done]. by eapply made_dirs_escaped. }
  pose proof (made_dirs_escaped _ _ _ _ _ Hgo Hwp H1) as He1.
  pose proof (reads_cases (λ d, read_file (staged_of d id) (p ++ [n])) d1) as H2.
  destruct (reads _ d1) as [d2 [content|e2]]; destruct H2 as (Hd2 & Hb2 & He2 & Hr2); [|by split; [congruence|]].
  destruct Hr2 as [?|Hr2]; [done|]. symmetry in Hr2. apply read_staged in Hr2.
  2: { cbn. destruct H1 as (-> & _). apply (go_dirs _ Hgo). }
  pose proof (quiet_apply_mode (p ++ [n]) d2) as H3. destruct (apply_mode id (p ++ [n]) d2) as [d3 [mode|e3]];
    destruct H3 as (Hd3 & Hb3 & He3); simpl in Hd3, Hb3, He3; [|by split; [congruence|]].
  pose proof (write_spec (p ++ [n]) content (Some (permission_bits mode)) d3) as H4.
  unfold write_via_temp_with_mode. destruct (write_via_temp_inner Base _ _ _ d3) as [d4 r4].
  eapply (outcome_placed p n d d1 d3 d4 r4 (Node.File content)); try done; try congruence; rewrite Hb3, Hb2; auto.
Qed.

Lemma write_symlink_spec p n target d :
  going d → written (p ++ [n]) → (∃ i, s !! (p ++ [n]) = Some i ∧ i_content i = Node.Symlink target) →
  let '(d', r) := (let! _ := create_dir_all Base p in
                   let! _ := λ d, (if exists_ (dk_base d) (p ++ [n]) || is_ok (stat (dk_base d) (p ++ [n]))
                                   then io_catch (changes Base (λ _, remove_file (p ++ [n]))) (λ _, io_ret tt)
                                   else io_ret tt) d in
                   create_symlink_via_temp Base target (p ++ [n])) d in
  outcome (p ++ [n]) d d' r.
Proof.
  intros Hgo Hwp Hsym. unfold io_bind.
  pose proof (create_dir_all_spec p d) as H1. destruct (create_dir_all Base p d) as [d1 [[]|e1]].
  2: { split; [|done]. by eapply made_dirs_escaped. }
  pose proof (made_dirs_escaped _ _ _ _ _ Hgo Hwp H1) as He1.
  assert (unlinked (dk_base d1) (p ++ [n])) as Hu1.
  { destruct H1 as (_ & Hg & _). eapply grows_unlinked; [exact Hg|]. by apply Hgo. }
  set (m := if _ || _ then _ else _).
  assert (∃ d2, m d1 = (d2, Ok tt) ∧ dk_dirs d2 = dk_dirs d1 ∧ dk_escaped d2 = dk_escaped d1 ∧
            (∀ q, q ≠ p ++ [n] → dk_base d2 !! q = dk_base d1 !! q) ∧
            (dir_at (dk_base d1) (p ++ [n]) → dir_at (dk_base d2) (p ++ [n]))) as (d2 & -> & Hd2 & He2 & Hb2 & Hdir2).
  { unfold m. destruct (_ || _); [|by eexists]. unfold io_catch.
    pose proof (changes_cases (λ _, remove_file (p ++ [n])) d1) as H2. destruct (changes Base _ d1) as [d2 r2].
    exists d2. destruct H2 as (Hd2 & [(-> & Hf & He2)|(e & -> & Hb2 & He2)]).
    - unfold remove_file in Hf. destruct (stat (dk_base d1) (p ++ [n])) as [i|] eqn:Hst; [|done]. simpl in Hf.
      apply stat_Ok in Hst. destruct (i_content i) eqn:Hc; [|done|]; injection Hf as Hf; split_and!; try done.
      1,3: intros q Hq; rewrite <-Hf, lookup_delete_ne by done; done.
      all: unfold dir_at; rewrite Hst; congruence.
    - split_and!; try done; rewrite ?Hb2; auto. apply He2. unfold remove_file.
      pose proof (stat_unlinked _ _ Hu1). destruct (stat (dk_base d1) (p ++ [n])) as [i|];
        simpl; [by destruct (i_content i)|congruence]. }
  pose proof (symlink_spec target (p ++ [n]) d2) as H3. destruct (create_symlink_via_temp Base _ _ d2) as [d3 r3].
  by eapply (outcome_placed p n d d1 d2 d3 r3 (Node.Symlink target)).
Qed.

Lemma write_change_spec e d :
  e ∈ cs_entries c → going d →
  let '(d', r) := write_change id staged e d in handled (λ p, ¬ dir_at s p) e d d' r.
Proof.
  intros He Hgo. unfold write_change. destruct (Change.written_path e) as [path|] eqn:Hpath; [|by apply handled_none].
  destruct (written_entry e path He Hpath) as (p & i & -> & Hwp & Hne & Hi & ->). pose proof Hwp as [[Hgood _] _].
  rewrite components_relative by done.
  destruct p as [|n p _] using rev_ind; [done|]. unfold parent. rewrite removelast_last.
  destruct (i_content i) as [bytes| |target] eqn:Hc; unfold entry_of; rewrite Hc; cbn [me_kind me_symlink_target default].
  - pose proof (write_file_spec p n d Hgo Hwp) as Hsp. rewrite Hi in Hsp.
    specialize (Hsp ltac:(intros j [= <-]; congruence)).
    match goal with |- context [let '(_, _) := ?m in _] => destruct m as [d' r] end.
    right. exists (p ++ [n]). split_and!; [done..| |done]. unfold dir_at. rewrite Hi. congruence.
  - eapply handled_skip; [done..|]. unfold dir_at. rewrite Hi. tauto.
  - pose proof (write_symlink_spec p n target d Hgo Hwp ltac:(eauto)) as Hsp.
    match type of Hsp with let '(_, _) := ?m in _ =>
      match goal with |- let '(_, _) := ?g in _ => change g with m end; destruct m as [d' r] end.
    right. exists (p ++ [n]). split_and!; [done..| |done]. unfold dir_at. rewrite Hi. congruence.
Qed.

(** ** The phases *)

Lemma advance_in_place p' p b b' : advance p' b b' → in_place p' b' → in_place p b → in_place p b'.
Proof.
  intros [Ho _ _] Hp' (i & i' & Hi & Hi' & Hc). destruct (decide (p = p')) as [->|Hne]; [done|].
  assert (b' !! p = b !! p) as Hsame by (destruct (Ho p Hne) as [|(Hn & _)]; [done|congruence]).
  exists i, i'. unfold link_at in *. by rewrite Hsame.
Qed.

(** No directory is lost, and outside the paths to write, only missing directories above them
    appear. *)
Definition advances (b b' : Tree) : Prop :=
  (∀ q, dir_at b q → dir_at b' q) ∧
  ∀ q, ¬ written q → b' !! q = b !! q ∨ (b !! q = None ∧ dir_at b' q ∧ ∃ p, written p ∧ above q p).

Lemma advances_refl b : advances b b.
Proof. split; [done|]. by left. Qed.

Lemma advances_trans b b1 b2 : advances b b1 → advances b1 b2 → advances b b2.
Proof.
  intros [D1 H1] [D2 H2]. split; [auto|]. intros q Hq. destruct (H1 q Hq) as [<-|(Hn & Hd & Hp)]; [by apply H2|]. right.
  unfold dir_at in *. destruct (H2 q Hq) as [->|(Hn' & _)]; [done|]. by rewrite Hn' in Hd.
Qed.

Lemma advance_advances p b b' : written p → advance p b b' → advances b b'.
Proof.
  intros Hp [Ho Hd _]. split; [done|]. intros q Hq. assert (q ≠ p) as Hne by (by intros ->).
  destruct (Ho q Hne) as [|(? & ? & ?)]; [by left|right; eauto].
Qed.

Lemma each_handled (f : Change.ChangeEntry → Io unit) todo l d :
  (∀ e d, e ∈ l → going d → let '(d', r) := f e d in handled todo e d d' r) → going d →
  let '(d', r) := io_each f l d in
  dk_escaped d' = dk_escaped d ∧
  (is_ok r = true → going d' ∧ advances (dk_base d) (dk_base d') ∧
     (∀ p, in_place p (dk_base d) → in_place p (dk_base d')) ∧
     (∀ e p, e ∈ l → Change.written_path e = Some (relative p) → Forall good_name p → todo p → in_place p (dk_base d'))).
Proof.
  revert d. induction l as [|e l IH]; intros d Hf Hgo; simpl.
  { split; [done|]. intros _. split; [done|]. split; [apply advances_refl|]. split; [done|]. by intros e p ?%elem_of_nil. }
  unfold io_bind. pose proof (Hf e d ltac:(left) Hgo) as Hh. destruct (f e d) as [d1 r1].
  assert (∀ d, going d → let '(d', r) := io_each f l d in
            dk_escaped d' = dk_escaped d ∧
            (is_ok r = true → going d' ∧ advances (dk_base d) (dk_base d') ∧
               (∀ p, in_place p (dk_base d) → in_place p (dk_base d')) ∧
               (∀ e p, e ∈ l → Change.written_path e = Some (relative p) → Forall good_name p → todo p →
                  in_place p (dk_base d')))) as IH'.
  { intros d2 Hd2. apply IH; [|done]. intros e' d' Hin. apply Hf. by right. }
  clear IH. destruct Hh as [(-> & -> & Hno)|(p & Hp & Hwp & Ht & Hesc & Hok)].
  - specialize (IH' d Hgo). destruct (io_each f l d) as [d' r]. destruct IH' as [He Hr]. split; [done|].
    intros (? & ? & ? & Hdone)%Hr. do 3 (split; [done|]). intros e' q [->|Hin]%elem_of_cons Hq Hg; [|by eapply Hdone].
    intros Htq. by apply Hno in Htq.
  - destruct r1 as [[]|e1]; [|by split]. destruct (Hok eq_refl) as (Hd1 & Had & Hin1).
    pose proof (going_advance p d d1 Hgo Hd1 Had) as Hgo1. specialize (IH' d1 Hgo1).
    destruct (io_each f l d1) as [d' r]. destruct IH' as [He Hr]. split; [congruence|].
    intros (? & Hadv & Hkeep & Hdone)%Hr. split; [done|]. split; [|split].
    + eapply advances_trans; [by eapply advance_advances|done].
    + intros q Hq. apply Hkeep. by eapply (advance_in_place p).
    + intros e' q [->|Hin]%elem_of_cons Hq Hgq Htq; [|by eapply Hdone].
      rewrite Hp in Hq. injection Hq as Hq. apply relative_inj in Hq as <-; [auto|apply Hwp|done].
Qed.

Lemma delete_path_spec p d :
  Forall good_name p → unlinked (dk_base d) p →
  let '(d', r) := delete_path (relative p) d in
  dk_dirs d' = dk_dirs d ∧ dk_escaped d' = dk_escaped d ∧ (is_ok r = true → dk_base d' = delete p (dk_base d)).
Proof.
  intros Hp Hu. unfold delete_path. rewrite components_relative by done. unfold io_bind.
  pose proof (reads_cases (λ d, stat (dk_base d) p) d) as H1. destruct (reads _ d) as [d1 [i|e]];
    destruct H1 as (Hd1 & Hb1 & He1 & _); [|by split_and!].
  pose proof (stat_unlinked _ _ Hu) as Hst. rewrite <-Hb1 in Hst.
  assert (∀ f, (∀ t, f (dk_base d1) = Ok t → t = delete p (dk_base d1)) → f (dk_base d1) ≠ Err OutsideTree →
            let '(d', r) := changes Base (λ _, f) d1 in
            dk_dirs d' = dk_dirs d ∧ dk_escaped d' = dk_escaped d ∧ (is_ok r = true → dk_base d' = delete p (dk_base d)))
    as Hch.
  { intros f Hf Ho. pose proof (changes_cases (λ _, f) d1) as H2. destruct (changes Base _ d1) as [d2 r2].
    destruct H2 as (Hd2 & [(-> & Hok & He2)|(e & -> & Hb2 & He2)]).
    - split_and!; [congruence..|]. intros _. rewrite (Hf _ Hok). congruence.
    - split_and!; [congruence|rewrite He2 by done; congruence|done]. }
  destruct (i_content i); apply Hch; unfold remove_file, remove_dir;
    (destruct (stat (dk_base d1) p) as [j|]; simpl; [destruct (i_content j)|]); try done; try congruence; try (by intros t [= <-]).
  all: destruct (names_in (dk_base d1) p); try done; by intros t [= <-].
Qed.

Lemma each_delete l d :
  (∀ x, x ∈ l → ∃ p, x = relative p ∧ removed p) → (∀ p, removed p → unlinked (dk_base d) p) →
  let '(d', r) := io_each delete_path l d in
  dk_dirs d' = dk_dirs d ∧ dk_escaped d' = dk_escaped d ∧
  (is_ok r = true →
     (∀ q, ¬ removed q → dk_base d' !! q = dk_base d !! q) ∧ (∀ q, dk_base d !! q = None → dk_base d' !! q = None) ∧
     (∀ p, relative p ∈ l → Forall good_name p → dk_base d' !! p = None)).
Proof.
  revert d. induction l as [|x l IH]; intros d Hl Hu; simpl.
  { split_and!; [done..|]. intros _. split_and!; [done..|]. by intros p ?%elem_of_nil. }
  unfold io_bind. destruct (Hl x ltac:(left)) as (p & -> & Hrm). pose proof Hrm as [[Hp _] _].
  pose proof (delete_path_spec p d Hp (Hu p Hrm)) as H1. destruct (delete_path (relative p) d) as [d1 [[]|e]];
    destruct H1 as (Hd1 & He1 & Hb1); [|by split_and!]. specialize (Hb1 eq_refl).
  assert (let '(d', r) := io_each delete_path l d1 in
    dk_dirs d' = dk_dirs d1 ∧ dk_escaped d' = dk_escaped d1 ∧
    (is_ok r = true →
       (∀ q, ¬ removed q → dk_base d' !! q = dk_base d1 !! q) ∧ (∀ q, dk_base d1 !! q = None → dk_base d' !! q = None) ∧
       (∀ p, relative p ∈ l → Forall good_name p → dk_base d' !! p = None))) as IH'.
  { apply IH; [intros x Hx; apply Hl; by right|]. intros q Hq y Hy Hlk. apply (Hu q Hq y Hy).
    rewrite Hb1 in Hlk. unfold link_at in *. destruct (decide (p = y)) as [->|Hne].
    - by rewrite lookup_delete_eq in Hlk.
    - by rewrite lookup_delete_ne in Hlk. }
  destruct (io_each delete_path l d1) as [d' r]. destruct IH' as (Hd' & He' & Hr). split_and!; [congruence..|].
  intros (Hsame & Hnone & Hdone)%Hr. split_and!.
  - intros q Hq. rewrite Hsame by done. rewrite Hb1, lookup_delete_ne; [done|]. by intros ->.
  - intros q Hq. apply Hnone. rewrite Hb1. destruct (decide (p = q)) as [->|]; [by rewrite lookup_delete_eq|by rewrite lookup_delete_ne].
  - intros q [Hq|Hq]%elem_of_cons Hgq; [|by apply Hdone]. apply relative_inj in Hq as ->; [|done..].
    apply Hnone. by rewrite Hb1, lookup_delete_eq.
Qed.

(** The whole change set is on the base, and nothing else; no directory was replaced. *)
Definition folded_back (b b' : Tree) : Prop :=
  (∀ p, written p → in_place p b' ∧ (dir_at b p → dir_at b' p)) ∧ (∀ p, removed p → b' !! p = None) ∧
  (∀ p, ¬ changed c p → b' !! p = b !! p ∨ (b !! p = None ∧ dir_at b' p ∧ ∃ q, written q ∧ above p q)).

Lemma elem_of_deletions x : x ∈ deletions c ↔ Change.Deleted x ∈ cs_entries c.
Proof.
  unfold deletions. rewrite elem_of_stable_sort, list_elem_of_omap. split.
  - intros ([] & He & [=]); by subst.
  - intros He. eauto.
Qed.

Lemma changed_named p :
  changed c p →
  ∃ e, e ∈ cs_entries c ∧ Change.path e = relative p ∧
    match e with Change.Deleted _ => s !! p = None | _ => is_Some (s !! p) end.
Proof.
  intros [Hp (e & He & Hpath)%elem_of_paths]. exists e. split_and!; [done..|].
  destruct (Hnamed e He) as (q & Hq & Hgq & _ & Hcase). rewrite Hpath in Hq. by apply relative_inj in Hq as ->.
Qed.

Lemma written_named p : written p → ∃ e, e ∈ cs_entries c ∧ Change.written_path e = Some (relative p).
Proof.
  intros [(e & He & Hpath & Hcase)%changed_named [i Hi]]. exists e. split; [done|].
  destruct e; simpl in *; congruence.
Qed.

Lemma removed_named p : removed p → relative p ∈ deletions c.
Proof.
  intros [(e & He & Hpath & Hcase)%changed_named Hn]. apply elem_of_deletions.
  destruct e; simpl in *; [by destruct Hcase as [? ?]; congruence..|]. by subst.
Qed.

Lemma deletion_removed x : x ∈ deletions c → ∃ p, x = relative p ∧ removed p.
Proof.
  intros He%elem_of_deletions. destruct (Hnamed _ He) as (p & Hp & Hgood & _ & Hn). simpl in Hp. exists p.
  split; [done|]. split; [|done]. split; [done|]. apply elem_of_paths. eauto.
Qed.

Lemma base_only_create_dir_all p : base_only (create_dir_all Base p).
Proof. intros d. pose proof (create_dir_all_spec p d) as Hs'. destruct (create_dir_all Base p d). by destruct Hs'. Qed.

Lemma base_only_apply : base_only (apply id staged c).
Proof.
  apply base_only_bind; [|intros _; apply base_only_bind; [|intros _]]; try (apply base_only_each; intros e).
  - unfold add_directory. repeat case_match; [apply base_only_create_dir_all|done..].
  - unfold write_change. destruct (Change.written_path e) as [path|]; [|done].
    destruct (manifest_entry staged path) as [m|]; [|done]. destruct (me_kind m); [|done|].
    + apply base_only_bind; [apply base_only_create_dir_all|intros _].
      apply base_only_bind; [apply base_only_reads|intros content].
      apply base_only_bind; [intros d; apply quiet_apply_mode|intros mode d].
      pose proof (write_spec (components path) content (Some (permission_bits mode)) d) as Hw.
      unfold write_via_temp_with_mode. destruct (write_via_temp_inner _ _ _ _ d). by destruct Hw.
    + apply base_only_bind; [apply base_only_create_dir_all|intros _].
      apply base_only_bind.
      * intros d. destruct (_ || _); [|done]. by apply base_only_catch; [apply base_only_changes|].
      * intros _ d. set (target := default _ _). pose proof (symlink_spec target (components path) d) as Hw.
        destruct (create_symlink_via_temp _ _ _ d). by destruct Hw.
  - unfold delete_path. apply base_only_bind; [apply base_only_reads|]. intros i.
    destruct (i_content i); apply base_only_changes.
Qed.

Lemma apply_spec d :
  going d →
  let '(d', r) := apply id staged c d in
  dk_dirs d' = dk_dirs d ∧ dk_escaped d' = dk_escaped d ∧ (is_ok r = true → folded_back (dk_base d) (dk_base d')).
Proof.
  intros Hgo. pose proof (base_only_apply d) as Hdirs'. destruct (apply id staged c d) as [d' r] eqn:Happly.
  split; [done|]. clear Hdirs'. revert Happly. unfold apply, io_bind.
  pose proof (each_handled (add_directory staged) (dir_at s) (cs_entries c) d) as H1.
  specialize (H1 ltac:(intros; by apply add_directory_spec) Hgo).
  destruct (io_each (add_directory staged) (cs_entries c) d) as [d1 [[]|e1]]; destruct H1 as [He1 Hr1].
  2: { intros [= <- <-]. by split. }
  destruct (Hr1 eq_refl) as (Hgo1 & Hadv1 & _ & Hdone1). clear Hr1.
  pose proof (each_handled (write_change id staged) (λ p, ¬ dir_at s p) (cs_entries c) d1) as H2.
  specialize (H2 ltac:(intros; by apply write_change_spec) Hgo1).
  destruct (io_each (write_change id staged) (cs_entries c) d1) as [d2 [[]|e2]]; destruct H2 as [He2 Hr2].
  2: { intros [= <- <-]. split; [congruence|done]. }
  destruct (Hr2 eq_refl) as (Hgo2 & Hadv2 & Hkeep & Hdone2). clear Hr2.
  assert (∀ p, removed p → unlinked (dk_base d2) p) as Hu.
  { intros p Hp q Hq Hl. pose proof (go_removed _ Hgo2 p Hp q Hq) as Hd. unfold dir_at, link_at in *.
    destruct (dk_base d2 !! q) as [i|]; [|done]. by rewrite Hd in Hl. }
  pose proof (each_delete (deletions c) d2 deletion_removed Hu) as H3.
  destruct (io_each delete_path (deletions c) d2) as [d3 r3]. destruct H3 as (_ & He3 & Hr3).
  intros [= <- <-]. split; [congruence|]. intros (Hsame & Hnone & Hdone3)%Hr3. split_and!.
  - intros p Hp. destruct (written_named p Hp) as (e & He & Hpath).
    assert (in_place p (dk_base d2)) as (i & i' & Hi & Hi' & Hc).
    { destruct (s !! p) as [i|] eqn:Hi; [|by destruct Hp as [_ [? ?]]; congruence].
      destruct (decide (i_content i = Node.Directory)) as [Hc|Hc].
      - apply Hkeep. apply (Hdone1 e p He Hpath); [apply Hp|]. unfold dir_at. by rewrite Hi.
      - apply (Hdone2 e p He Hpath); [apply Hp|]. unfold dir_at. by rewrite Hi. }
    assert (dk_base d3 !! p = dk_base d2 !! p) as Hs3.
    { apply Hsame. intros [_ Hn]. congruence. }
    split; [exists i, i'; unfold link_at in *; by rewrite Hs3|].
    intros Hdir. apply (advances_trans _ _ _ Hadv1 Hadv2) in Hdir. unfold dir_at in *. by rewrite Hs3.
  - intros p Hp. apply Hdone3; [by apply removed_named|apply Hp].
  - intros p Hp. pose proof (proj2 (advances_trans _ _ _ Hadv1 Hadv2) p) as Ha.
    assert (dk_base d3 !! p = dk_base d2 !! p) as Hs3 by (apply Hsame; intros [? _]; done).
    unfold dir_at in *. rewrite Hs3. apply Ha. by intros [? _].
Qed.
End Apply.

(** ** The checks before the apply *)

Lemma stat_exists t p i : tree_ok t → t !! p = Some i → stat t p = Ok i.
Proof.
  intros Hok Hi. unfold stat.
  assert (∀ pre rest, p = pre ++ rest → reach t pre rest = Ok tt) as Hreach.
  { intros pre rest. revert pre. induction rest as [|n rest IH]; intros pre ->; [done|]. destruct rest as [|m rest]; [done|].
    cbn [reach]. destruct (Hok _ _ Hi) as (_ & _ & Hup). specialize (Hup (pre ++ [n])).
    assert (above (pre ++ [n]) (pre ++ n :: m :: rest)) as Hab.
    { split; [by destruct pre|]. exists m, rest. by rewrite <-app_assoc. }
    specialize (Hup Hab). unfold dir_at in Hup. destruct (t !! (pre ++ [n])) as [j|]; [|done]. rewrite Hup.
    apply IH. by rewrite <-app_assoc. }
  by rewrite (Hreach [] p eq_refl), Hi.
Qed.

Lemma symlink_on_way_false t pre rest :
  tree_ok t → symlink_on_way t pre rest = Ok false →
  ∀ x n y, rest = x ++ n :: y → x ≠ [] → ¬ link_at t (pre ++ x).
Proof.
  intros Hok. revert pre. induction rest as [|m rest IH]; intros pre Hs x n y Hr Hx Hl; [by destruct x|].
  destruct rest as [|m' rest]; [by destruct x as [|? [|? ?]]|].
  destruct x as [|m0 x]; [done|]. injection Hr as <- Hr. cbn [symlink_on_way] in Hs.
  assert (∃ i, t !! (pre ++ [m]) = Some i) as [i Hi].
  { destruct x as [|k x].
    - unfold link_at in Hl. destruct (t !! (pre ++ [m])); [eauto|done].
    - unfold link_at in Hl. destruct (t !! (pre ++ m :: k :: x)) as [j|] eqn:Hj; [|done].
      destruct (Hok _ _ Hj) as (_ & _ & Hup). specialize (Hup (pre ++ [m])).
      assert (above (pre ++ [m]) (pre ++ m :: k :: x)) as Hab.
      { split; [by destruct pre|]. exists k, x. by rewrite <-app_assoc. }
      specialize (Hup Hab). unfold dir_at in Hup. destruct (t !! (pre ++ [m])); [eauto|done]. }
  rewrite (stat_exists _ _ _ Hok Hi) in Hs. destruct x as [|k x].
  - unfold link_at in Hl. rewrite Hi in Hl. by destruct (i_content i).
  - destruct (i_content i); [|  |done]; (eapply (IH (pre ++ [m]) Hs (k :: x) n y Hr); [done|]);
      by rewrite <-app_assoc.
Qed.

Lemma ancestors_unlinked t p :
  tree_ok t → Forall good_name p → ancestor_is_symlink t (relative p) = Ok false → unlinked t p.
Proof.
  intros Hok Hp. unfold ancestor_is_symlink. rewrite components_relative by done.
  intros Hs q [Hq (n & y & ->)]. by eapply (symlink_on_way_false t [] _ Hok Hs q n y).
Qed.

Lemma dedup_cons a b l : dedup (a :: b :: l) = if String.eqb a b then dedup (b :: l) else a :: dedup (b :: l).
Proof. done. Qed.

Lemma elem_of_dedup x l : x ∈ dedup l ↔ x ∈ l.
Proof.
  induction l as [|a l IH]; [done|]. destruct l as [|b l]; [done|]. rewrite dedup_cons.
  destruct (String.eqb_spec a b) as [->|].
  - rewrite IH, !elem_of_cons. tauto.
  - rewrite elem_of_cons, IH, !elem_of_cons. tauto.
Qed.

Section Commit.
Context `{Host}.

(** The same kind, digest and link target on both sides, or absent from both. *)
Definition same_entry (a b : option ManifestEntry) : Prop :=
  match a, b with
  | Some x, Some y => entries_equal x y = true
  | None, None => True
  | _, _ => False
  end.

Lemma not_drifted before after path :
  path ∉ drifted_paths before after → same_entry (manifest_entry before path) (manifest_entry after path).
Proof.
  unfold drifted_paths. rewrite elem_of_dedup, elem_of_stable_sort, elem_of_app, !list_elem_of_omap. intros Hno.
  unfold same_entry. destruct (manifest_entry before path) as [x|] eqn:Hb.
  - pose proof Hb as Hf. apply find_some in Hf as [Hin Hp%String.eqb_eq]. apply list_elem_of_In in Hin.
    destruct (manifest_entry after path) as [y|] eqn:Ha.
    + destruct (entries_equal x y) eqn:He; [done|]. destruct Hno. left. exists x. by rewrite Hp, Ha, He.
    + destruct Hno. left. exists x. by rewrite Hp, Ha.
  - destruct (manifest_entry after path) as [y|] eqn:Ha; [|done].
    pose proof Ha as Hf. apply find_some in Hf as [Hin Hp%String.eqb_eq]. apply list_elem_of_In in Hin.
    destruct Hno. right. exists y. by rewrite Hp, Hb.
Qed.

Lemma first_hit_none check ps d d' :
  (∀ p, quiet (check p)) → first_hit check ps d = (d', Ok None) →
  ∀ p, p ∈ ps → ∃ d1 d2, dk_base d1 = dk_base d ∧ dk_dirs d1 = dk_dirs d ∧ check p d1 = (d2, Ok false).
Proof.
  intros Hq. revert d. induction ps as [|x ps IH]; intros d Hf p Hin; [by apply elem_of_nil in Hin|].
  cbn [first_hit] in Hf. unfold io_bind in Hf. pose proof (Hq x d) as (Hd & Hb & _).
  destruct (check x d) as [d1 [[|]|e]] eqn:Hx; [done| |done]. simpl in Hd, Hb.
  apply elem_of_cons in Hin as [->|Hin]; [by exists d, d1|].
  destruct (IH d1 Hf p Hin) as (d2 & d3 & ? & ? & ?). exists d2, d3. split_and!; congruence.
Qed.

Lemma quiet_first_hit check ps : (∀ p, quiet (check p)) → quiet (first_hit check ps).
Proof.
  intros Hq. induction ps as [|x ps IH]; [apply quiet_ret|]. apply quiet_bind; [done|].
  intros [|]; [apply quiet_ret|done].
Qed.

Lemma quiet_first_hardlink id es : quiet (first_hardlink id es).
Proof.
  induction es as [|e es IH]; [apply quiet_ret|]. apply quiet_bind.
  - unfold hardlinked. destruct (Change.written_path e); [apply quiet_reads|apply quiet_ret].
  - intros [|]; [apply quiet_ret|done].
Qed.

(** Nothing but the number of calls has changed. *)
Definition unchanged (d d' : Disk) : Prop :=
  dk_dirs d' = dk_dirs d ∧ dk_base d' = dk_base d ∧ dk_escaped d' = dk_escaped d.

Lemma unchanged_trans d d1 d2 : unchanged d d1 → unchanged d1 d2 → unchanged d d2.
Proof. intros (? & ? & ?) (? & ? & ?). split_and!; congruence. Qed.

Lemma or_refuse_quiet {A B} (m : Io A) (k : A → Disk → Disk * result B CommitRefusal) d :
  quiet m →
  (∃ d' e, unchanged d d' ∧ or_refuse m k d = (d', Err (LockUnavailable e))) ∨
  (∃ d' a, m d = (d', Ok a) ∧ unchanged d d' ∧ or_refuse m k d = k a d').
Proof.
  intros Hq. unfold or_refuse. specialize (Hq d). destruct (m d) as [d' [a|e]]; [right|left]; eauto.
Qed.

(** What the checks establish. *)
Record cleared (c : ChangeSet) (opened current : BaseManifest) (protected : list string) (approved : bool) (b : Tree) : Prop := {
  cl_drift : ∀ x, x ∈ paths c → same_entry (manifest_entry opened x) (manifest_entry current x);
  cl_protected : approved = true ∨ ∀ sel x, sel ∈ protected → x ∈ paths c → protects sel x = false;
  cl_inside : ∀ x, x ∈ paths c → ancestor_is_symlink b x = Ok false;
}.

Definition refusal_before (d : Disk) (out : Disk * result CommitOutcome CommitRefusal) : Prop :=
  ∃ f, snd out = Err f ∧ unchanged d (fst out) ∧ ∀ j e, f ≠ ApplyInterrupted j e.

Lemma refused d d' f out :
  out = (d', Err f) → unchanged d d' → (∀ j e, f ≠ ApplyInterrupted j e) → refusal_before d out.
Proof. intros -> ? ?. by exists f. Qed.

Lemma hit_selectors_nil protected c sel x :
  hit_selectors protected (paths c) = [] → sel ∈ protected → x ∈ paths c → protects sel x = false.
Proof.
  intros Hn Hsel Hx. destruct (protects sel x) eqn:Hp; [|done]. exfalso.
  assert (sel ∈ hit_selectors protected (paths c)) as Hin; [|rewrite Hn in Hin; by apply elem_of_nil in Hin].
  unfold hit_selectors. apply list_elem_of_In, filter_In. split; [by apply list_elem_of_In|].
  apply existsb_exists. exists x. split; [|done]. by apply list_elem_of_In, elem_of_elements.
Qed.

Lemma drift_nil c opened current x :
  List.filter (λ p, bool_decide (p ∈ paths c)) (drifted_paths opened current) = [] → x ∈ paths c →
  same_entry (manifest_entry opened x) (manifest_entry current x).
Proof.
  intros Hn Hx. apply not_drifted. intros Hd.
  assert (x ∈ List.filter (λ p, bool_decide (p ∈ paths c)) (drifted_paths opened current)) as Hin;
    [|rewrite Hn in Hin; by apply elem_of_nil in Hin].
  apply list_elem_of_In, filter_In. split; [by apply list_elem_of_In|]. by apply bool_decide_eq_true.
Qed.

Lemma elem_of_sorted_paths c x : x ∈ sorted_paths c ↔ x ∈ paths c.
Proof. unfold sorted_paths. by rewrite elem_of_stable_sort, elem_of_elements. Qed.

(** One call of the checks: it refuses, or the checks go on with its answer. *)
Ltac next_call d' a Hm Hu quiet_proof :=
  match goal with
  | Hprev : unchanged ?d0 ?d |- context [or_refuse ?m ?k ?d] =>
      let Hn := fresh in let Ho := fresh in
      destruct (or_refuse_quiet m k d quiet_proof) as [(d' & ? & Hn & Ho)|(d' & a & Hm & Hn & Ho)];
      pose proof (unchanged_trans _ _ _ Hprev Hn) as Hu; clear Hn;
      [left; eapply refused; [exact Ho|exact Hu|done]|]; rewrite Ho; clear Ho
  end.

Lemma unchanged_refl d : unchanged d d.
Proof. done. Qed.

Lemma reads_Ok {A} (f : Disk → result A IoError) d d' a : reads f d = (d', Ok a) → f (tick d) = Ok a.
Proof. intros Hr. pose proof (reads_cases f d) as Hc. rewrite Hr in Hc. by destruct Hc as (_ & _ & _ & [|]). Qed.

Lemma run_commit_cases id key root exclusions opened protected approved d :
  let current := measure_tree root (dk_base d) exclusions in
  let staged := measure_tree id (staged_of d id) [] in
  let c := diff opened staged in
  let out := run_commit id key root exclusions opened protected approved d in
  refusal_before d out ∨
  (cleared c opened current protected approved (dk_base d) ∧
   ∃ d1, unchanged d d1 ∧ out = commit_apply id key root exclusions current staged c d1).
Proof.
  intros current staged c. unfold run_commit. pose proof (unchanged_refl d) as Hu0.
  next_call d1 m1 Hm1 Hu1 (quiet_reads (λ d, Ok (measure_tree root (tree_at d Base) exclusions))).
  apply reads_Ok in Hm1. injection Hm1 as Hm1. subst m1. cbn [tree_at tick dk_base]. fold current.
  next_call d2 m2 Hm2 Hu2 (quiet_reads (λ d, Ok (measure_tree id (tree_at d (Staged id)) []))).
  apply reads_Ok in Hm2. injection Hm2 as Hm2. subst m2.
  assert (staged_of (tick d1) id = staged_of d id) as ->.
  { unfold staged_of. cbn. by destruct Hu1 as (-> & _). }
  fold staged. fold c.
  destruct (List.filter _ _) as [|x xs] eqn:Hdrift; [|left; by eapply refused].
  destruct (negb _ && negb approved) eqn:Hprot; [left; by eapply refused|].
  destruct (find _ _) as [x|]; [left; by eapply refused|].
  set (check := λ p, reads (λ d, ancestor_is_symlink (dk_base d) p)).
  next_call d3 link Hlink Hu3 (quiet_first_hit check (sorted_paths c) (λ p, quiet_reads _)).
  destruct link as [x|]; [left; by eapply refused|].
  next_call d4 collision Hcol Hu4 (quiet_reads (λ d, fold_collision (dk_base d) c)).
  destruct collision as [x|]; [left; by eapply refused|].
  next_call d5 hard Hhard Hu5 (quiet_first_hardlink id (cs_entries c)).
  destruct hard as [x|]; [left; by eapply refused|].
  right. split; [|by exists d5]. split.
  - intros x Hx. by apply (drift_nil c opened current).
  - apply andb_false_iff in Hprot as [Hp|Hp]; [right|left; by destruct approved].
    intros sel x. apply hit_selectors_nil. by destruct (hit_selectors protected (paths c)).
  - intros x Hx%elem_of_sorted_paths.
    destruct (first_hit_none check _ _ _ (λ p, quiet_reads _) Hlink x Hx) as (e1 & e2 & Hb & _ & Hc).
    apply reads_Ok in Hc. cbn in Hc. rewrite Hb in Hc. by destruct Hu2 as (_ & <- & _).
Qed.

(** ** The journal and the apply *)

Lemma set_journal_frame d id j :
  dk_base (set_journal d id j) = dk_base d ∧ dk_escaped (set_journal d id j) = dk_escaped d ∧
  staged_of (set_journal d id j) id = staged_of d id.
Proof.
  unfold set_journal, staged_of. destruct (dk_dirs d !! id) as [x|] eqn:Hx; [|by rewrite Hx].
  cbn. by rewrite lookup_insert_eq.
Qed.

Lemma set_lock_frame d id locked :
  dk_base (set_lock d id locked) = dk_base d ∧ dk_escaped (set_lock d id locked) = dk_escaped d ∧
  ∀ x, dk_dirs (set_lock d id locked) !! x ≫= td_journal = dk_dirs d !! x ≫= td_journal.
Proof.
  unfold set_lock. destruct (dk_dirs d !! id) as [y|] eqn:Hy; [|done]. cbn. split_and!; [done..|].
  intros x. destruct (decide (id = x)) as [<-|Hne]; [by rewrite lookup_insert_eq, Hy|by rewrite lookup_insert_ne].
Qed.

Lemma set_journal_dirs d d' id j :
  dk_dirs d' = dk_dirs d → dk_dirs (set_journal d' id j) = dk_dirs (set_journal d id j).
Proof. unfold set_journal. intros Hd. rewrite Hd. destruct (dk_dirs d !! id); cbn; by rewrite ?Hd. Qed.

(** The journal is written or the directories are as they were; the base is as it was. *)
Lemma write_journal_spec id body d :
  let '(d', r) := write_journal id body d in
  let noted := dk_dirs (set_journal d id (Some body)) in
  dk_base d' = dk_base d ∧ dk_escaped d' = dk_escaped d ∧
  (dk_dirs d' = noted ∨ dk_dirs d' = dk_dirs d) ∧ (is_ok r = true → dk_dirs d' = noted).
Proof.
  unfold write_journal. set (before := reads (λ _, Ok tt)). unfold io_bind at 1.
  pose proof (quiet_reads (λ _, Ok tt) d) as H1. fold before in H1. destruct (before d) as [d1 [[]|]];
    cbn in H1; destruct H1 as (Hd1 & Hb1 & He1); [|by split_and!; [..|right|]].
  unfold io_bind at 1. pose proof (quiet_reads (λ _, Ok tt) d1) as H2. fold before in H2.
  destruct (before d1) as [d2 [[]|]]; cbn in H2; destruct H2 as (Hd2 & Hb2 & He2);
    [|split_and!; [congruence..|right; congruence|done]].
  assert (dk_dirs d2 = dk_dirs d) as Hd by congruence.
  unfold io_bind at 1, call at 1. destruct (fails (dk_ops d2)); [split_and!; [cbn; congruence..|by right|done]|].
  cbn beta iota zeta. set (d3 := set_journal (tick d2) id (Some body)).
  assert (quiet (let! _ := before in before)) as Hq by (apply quiet_bind; intros; apply quiet_reads).
  specialize (Hq d3). change (io_bind before (λ _, before)) with (let! _ := before in before).
  destruct ((let! _ := before in before) d3) as [d4 r]. cbn in Hq. destruct Hq as (Hd4 & Hb4 & He4).
  destruct (set_journal_frame (tick d2) id (Some body)) as (Hb3 & He3 & _). fold d3 in Hb3, He3.
  assert (dk_dirs d4 = dk_dirs (set_journal d id (Some body))) as Hnoted.
  { rewrite Hd4. by apply set_journal_dirs. }
  split_and!; [rewrite Hb4, Hb3; cbn; congruence|rewrite He4, He3; cbn; congruence|by left|done].
Qed.

End Commit.

Lemma attempt_cases `{Host} d : attempt d = (tick d, Ok tt) ∨ attempt d = (tick d, Err Fault).
Proof. unfold attempt, call. destruct (fails (dk_ops d)); auto. Qed.

(** Both answers of the calls that come next. *)
Ltac attempts :=
  repeat (unfold io_bind;
    match goal with
    | |- context [attempt ?d] => let Ha := fresh in destruct (attempt_cases d) as [Ha|Ha]; rewrite Ha; clear Ha; cbn
    end).

(** ** A journal keeps later transactions off the base *)

Section Later.
Context `{Host}.

(** A line of text. *)
Definition plain_key (key : string) : Prop :=
  lacks (ascii_of_nat 10) key = true ∧ strip_suffix_char (ascii_of_nat 13) key = None.

Lemma journal_names_base key c : plain_key key → scoped_elsewhere key (Some (journal_body key c)) = false.
Proof.
  intros [Hnl Hcr]. unfold scoped_elsewhere, first_line, journal_body.
  set (rest := foldr _ _ _).
  assert (split_once (ascii_of_nat 10) (JOURNAL_BASE_PREFIX ++ key ++ newline ++ rest)%string
          = Some ((JOURNAL_BASE_PREFIX ++ key)%string, rest)) as ->.
  { rewrite <-append_assoc. apply split_once_app. fold (lacks (ascii_of_nat 10) (JOURNAL_BASE_PREFIX ++ key)%string).
    by rewrite lacks_app, Hnl. }
  assert (strip_suffix_char (ascii_of_nat 13) (JOURNAL_BASE_PREFIX ++ key)%string = None) as ->.
  { unfold JOURNAL_BASE_PREFIX. cbn. destruct key as [|a key]; [done|]. by rewrite Hcr. }
  cbn [is_empty append JOURNAL_BASE_PREFIX]. 
  change (match strip_prefix (JOURNAL_BASE_PREFIX ++ key)%string JOURNAL_BASE_PREFIX with
          | Some journal_base => negb (String.eqb journal_base key) | None => false end = false).
  rewrite strip_prefix_app. by rewrite String.eqb_refl.
Qed.

Lemma find_journal_hit key ids d id body :
  (∀ k, fails k = false) → id ∈ ids → dk_dirs d !! id ≫= td_journal = Some body →
  scoped_elsewhere key (Some body) = false → ∃ j, snd (find_journal key ids d) = Ok (Some j).
Proof.
  intros Hf Hin Hj Hs. revert d Hj. induction ids as [|x ids IH]; intros d Hj; [by apply elem_of_nil in Hin|].
  cbn [find_journal]. unfold io_bind, io_catch, reads, call. rewrite !Hf. cbn [tick dk_dirs dk_ops].
  destruct (dk_dirs d !! x ≫= td_journal) as [b|] eqn:Hx.
  - rewrite !Hf. cbn [tick dk_dirs]. rewrite Hx. destruct (scoped_elsewhere key (Some b)) eqn:Hb; [|eauto].
    apply elem_of_cons in Hin as [->|Hin]; [congruence|]. by apply IH.
  - apply elem_of_cons in Hin as [->|Hin]; [congruence|]. by apply IH.
Qed.

(** A healthy system later on: every transaction over this base is refused. *)
Lemma open_refuses id key body d :
  (∀ k, fails k = false) → dk_dirs d !! id ≫= td_journal = Some body → scoped_elsewhere key (Some body) = false →
  ∀ new root exclusions, ∃ d' j, open new key root exclusions d = (d', Err (TxError.InterruptedApply j)).
Proof.
  intros Hf Hj Hs new root exclusions. unfold open, find_unresolved_journal, io_bind, reads at 1, call at 1.
  rewrite Hf. destruct (find_journal_hit key (map fst (map_to_list (dk_dirs (tick d)))) (tick d) id body) as [j Hfind];
    [done| |done..|].
  - destruct (dk_dirs d !! id) as [x|] eqn:Hx; [|done]. apply list_elem_of_fmap. exists (id, x).
    split; [done|]. by apply elem_of_map_to_list.
  - destruct (find_journal _ _ _) as [d' r]. cbn in Hfind. subst r. eauto.
Qed.

End Later.

(** ** From the checks to the apply *)

Section Committed.
Context `{Host}.

Section Fold.
Context (id key root : string) (exclusions : list string) (t0 s b : Tree).
Context (Ht0 : tree_ok t0) (Hs : tree_ok s) (Hb : tree_ok b).
Let opened := measure_tree root t0 exclusions.
Let current := measure_tree root b exclusions.
Let staged := measure_tree id s [].
Let c := diff opened staged.

Lemma diff_named e :
  e ∈ cs_entries c →
  ∃ p, Change.path e = relative p ∧ Forall good_name p ∧ p ≠ [] ∧
    match e with Change.Deleted _ => s !! p = None | _ => is_Some (s !! p) end.
Proof.
  intros He. destruct (diff_entry root id t0 s exclusions Ht0 Hs e He) as (p & ? & ? & ? & Hcase).
  exists p. split_and!; try done. by destruct e; [| |destruct Hcase].
Qed.

(** A path that is deleted is still in the base, as it has not drifted. *)
Lemma removed_present protected approved p :
  cleared c opened current protected approved b → removed s c p → is_Some (b !! p).
Proof.
  intros Hcl [Hch Hn]. pose proof Hch as [Hp Hin].
  destruct (changed_entry root id t0 s exclusions Ht0 Hs p Hch) as (e & _ & _ & Hcase).
  destruct e; [by rewrite Hn in Hcase; destruct Hcase..|]. destruct Hcase as (_ & [i Hi] & Hx).
  pose proof (cl_drift _ _ _ _ _ _ Hcl _ Hin) as Hsame. unfold opened, current in Hsame.
  rewrite !manifest_lookup, Hx, Hi in Hsame by done. by destruct (b !! p).
Qed.

Lemma cleared_going protected approved d dirs :
  cleared c opened current protected approved b → dk_base d = b → dk_dirs d = dirs → going s c dirs d.
Proof.
  intros Hcl Hbase Hd. split; [done| |].
  - intros p [[Hp Hin] _]. rewrite Hbase. apply ancestors_unlinked; [done..|].
    by apply (cl_inside _ _ _ _ _ _ Hcl).
  - intros p Hrm q Hq. rewrite Hbase. destruct (removed_present _ _ p Hcl Hrm) as [i Hi].
    destruct (Hb _ _ Hi) as (_ & _ & Hup). auto.
Qed.

(** What became of the base, given the answer. *)
Definition applied (d d' : Disk) (r : result CommitOutcome CommitRefusal) : Prop :=
  match r with
  | Ok o => co_applied o = c ∧ folded_back s c (dk_base d) (dk_base d')
  | Err (ApplyInterrupted j _) => j = id ∧ dk_dirs d' !! id ≫= td_journal = Some (journal_body key c)
  | Err (LockUnavailable _) => dk_base d' = dk_base d ∨ folded_back s c (dk_base d) (dk_base d')
  | Err _ => dk_base d' = dk_base d
  end.

Lemma noted_staged d d' body :
  dk_dirs d' = dk_dirs (set_journal d id (Some body)) → staged_of d id = s → is_Some (dk_dirs d !! id) →
  default ∅ (dk_dirs d' !! id ≫= td_staged) = s ∧ dk_dirs d' !! id ≫= td_journal = Some body.
Proof.
  intros -> Hst [x Hx]. split; [by destruct (set_journal_frame d id (Some body)) as (_ & _ & Hj); rewrite <-Hst, <-Hj|].
  unfold set_journal. rewrite Hx. cbn. by rewrite lookup_insert_eq.
Qed.

Lemma commit_apply_spec protected approved d :
  cleared c opened current protected approved b → dk_base d = b → staged_of d id = s → is_Some (dk_dirs d !! id) →
  let '(d', r) := commit_apply id key root exclusions current staged c d in
  dk_escaped d' = dk_escaped d ∧ applied d d' r.
Proof.
  intros Hcl Hbase Hst Hdir. unfold commit_apply, or_refuse at 1.
  pose proof (write_journal_spec id (journal_body key c) d) as Hj.
  destruct (write_journal _ _ d) as [d1 [[]|e]]; destruct Hj as (Hb1 & He1 & _ & Hd1); [|by split; [|left]].
  specialize (Hd1 eq_refl). destruct (noted_staged d d1 _ Hd1 Hst Hdir) as [Hst1 Hj1].
  pose proof (apply_spec id id s Hs c (dk_dirs d1) Hst1 diff_named d1
    (cleared_going _ _ d1 _ Hcl (eq_trans Hb1 Hbase) eq_refl)) as Ha.
  fold staged in Ha. destruct (apply id staged c d1) as [d2 [[]|e]]; destruct Ha as (Hd2 & He2 & Hfold);
    [|split; [congruence|split; [done|congruence]]].
  specialize (Hfold eq_refl). rewrite Hb1 in Hfold. set (clear := call _).
  assert (dk_base (fst (clear d2)) = dk_base d2 ∧ dk_escaped (fst (clear d2)) = dk_escaped d2) as [Hbc Hec].
  { unfold clear, call. destruct (fails (dk_ops d2)); [done|]. by destruct (set_journal_frame (tick d2) id None) as (? & ? & _). }
  unfold or_refuse. pose proof (quiet_reads (λ d, Ok (measure_tree root (tree_at d Base) exclusions)) (fst (clear d2))) as Hm.
  fold (measure Base root exclusions) in Hm.
  destruct (measure Base root exclusions (fst (clear d2))) as [d3 [after|e]]; cbn in Hm; destruct Hm as (_ & Hb3 & He3);
    cbn; rewrite Hb3, Hbc; (split; [congruence|]); auto.
Qed.
End Fold.

(** No transaction over the base starts once the system is healthy again. *)
Definition kept_off (key : string) (d : Disk) : Prop :=
  ∀ later : Host, (∀ k, @fails later k = false) →
  ∀ new root exclusions, ∃ d' j, @open later new key root exclusions d = (d', Err (TxError.InterruptedApply j)).

Lemma run_commit_spec id key root exclusions t0 protected approved d :
  let s := staged_of d id in
  let opened := measure_tree root t0 exclusions in
  let c := diff opened (measure_tree id s []) in
  tree_ok t0 → tree_ok (dk_base d) → tree_ok s → is_Some (dk_dirs d !! id) →
  let '(d', r) := run_commit id key root exclusions opened protected approved d in
  dk_escaped d' = dk_escaped d ∧ applied id key root exclusions t0 s d d' r ∧
  (dk_base d' ≠ dk_base d →
     cleared c opened (measure_tree root (dk_base d) exclusions) protected approved (dk_base d)).
Proof.
  intros s opened c Ht0 Hb Hs Hdir.
  pose proof (run_commit_cases id key root exclusions opened protected approved d) as Hcases. cbn zeta in Hcases.
  destruct (run_commit id key root exclusions opened protected approved d) as [d' r].
  destruct Hcases as [(f & Hf & (_ & Hb' & He') & Hno)|[Hcl (d1 & (Hd1 & Hb1 & He1) & Hout)]].
  - cbn in Hf, Hb', He'. subst r. split_and!; [done| |done]. unfold applied. destruct f; auto. by destruct (Hno journal detail).
  - assert (staged_of d1 id = s) as Hst by (unfold s, staged_of; by rewrite Hd1).
    pose proof (commit_apply_spec id key root exclusions t0 s (dk_base d) Ht0 Hs Hb protected approved d1) as Ha.
    specialize (Ha Hcl Hb1 Hst ltac:(by rewrite Hd1)). fold s in Hout. fold opened in Ha. rewrite <-Hout in Ha.
    destruct Ha as [He Ha]. split_and!; [congruence| |done]. unfold applied in *. by rewrite Hb1 in Ha.
Qed.

(** C20: Whatever calls into the file system fail, and wherever the process stops, a
    commit of a transaction over well-formed trees whose directory exists has one of these
    ends.  It reports success, and the base has every staged entry of the change set, lacks
    every deleted one and is otherwise as it was, up to missing parent directories; only where
    a directory was staged, a symbolic link may be in its place.
    It reports an interrupted apply, and has left a journal, which makes every later
    transaction over this base refuse if the base's path is one line (without a line feed and
    not ending in a carriage return).  It reports an I/O failure, and the base is as it was or
    has the whole change set in the same sense; or it reports another refusal, and the base is
    as it was.  In no case does it change anything through a symbolic link. *)
Theorem commit_all_or_nothing tx t0 protected approved d :
  let id := wt_id tx in
  let s := staged_of d id in
  let c := diff (wt_base_manifest tx) (measure_tree id s []) in
  tree_ok t0 → tree_ok (dk_base d) → tree_ok s → is_Some (dk_dirs d !! id) →
  wt_base_manifest tx = measure_tree (wt_base_root tx) t0 (wt_exclusions tx) →
  let '(d', r, status) := commit tx protected approved d in
  dk_escaped d' = dk_escaped d ∧
  match r with
  | Ok o => status = Committed ∧ co_applied o = c ∧ folded_back s c (dk_base d) (dk_base d')
  | Err (ApplyInterrupted j _) =>
      status = InterruptedApply ∧ j = id ∧ is_Some (dk_dirs d' !! id ≫= td_journal) ∧
      (plain_key (wt_base_key tx) → kept_off (wt_base_key tx) d')
  | Err (LockUnavailable e) =>
      status = ConflictRefused (LockUnavailable e) ∧
      (dk_base d' = dk_base d ∨ folded_back s c (dk_base d) (dk_base d'))
  | Err f => status = ConflictRefused f ∧ dk_base d' = dk_base d
  end.
Proof.
  intros id s c Ht0 Hb Hs Hdir Hopen. unfold commit.
  assert (∀ d, dk_base (set_lock d id false) = dk_base d ∧ dk_escaped (set_lock d id false) = dk_escaped d ∧
     ∀ x, dk_dirs (set_lock d id false) !! x ≫= td_journal = dk_dirs d !! x ≫= td_journal) as Hlock
    by (intros; apply set_lock_frame).
  destruct (wt_status tx); try (destruct (Hlock d) as (? & ? & _); by split_and!).
  pose proof (run_commit_spec id (wt_base_key tx) (wt_base_root tx) (wt_exclusions tx) t0 protected approved d
    Ht0 Hb Hs Hdir) as Hrun. rewrite <-Hopen in Hrun.
  destruct (run_commit _ _ _ _ _ _ _ d) as [d' r]. destruct Hrun as (He & Ha & _).
  destruct (Hlock d') as (Hb' & He' & Hj'). fold id. split; [congruence|]. unfold applied in Ha. rewrite <-Hopen in Ha. rewrite Hb'.
  destruct r as [o|[]]; try done; try (by split_and!).
  destruct Ha as [-> Hj]. split_and!; [done..|by rewrite Hj', Hj|]. intros Hkey later Hf. eapply (@open_refuses later id).
  - done.
  - rewrite Hj'. exact Hj.
  - by apply journal_names_base.
Qed.

(** A commit that changes the base in any way was of a closed transaction, found every path of
    the change set in the base as it was measured at the opening, and touched no protected
    selector unless it was approved. *)
Theorem commit_guards tx t0 protected approved d :
  let id := wt_id tx in
  let c := diff (wt_base_manifest tx) (measure_tree id (staged_of d id) []) in
  let current := measure_tree (wt_base_root tx) (dk_base d) (wt_exclusions tx) in
  tree_ok t0 → tree_ok (dk_base d) → tree_ok (staged_of d id) → is_Some (dk_dirs d !! id) →
  wt_base_manifest tx = measure_tree (wt_base_root tx) t0 (wt_exclusions tx) →
  dk_base (fst (fst (commit tx protected approved d))) ≠ dk_base d →
  wt_status tx = Closed ∧
  (∀ x, x ∈ paths c → same_entry (manifest_entry (wt_base_manifest tx) x) (manifest_entry current x)) ∧
  (approved = true ∨ ∀ sel x, sel ∈ protected → x ∈ paths c → protects sel x = false).
Proof.
  intros id c current Ht0 Hb Hs Hdir Hopen. unfold commit.
  destruct (wt_status tx); try (intros Hne; by destruct (set_lock_frame d id false) as (? & _)).
  pose proof (run_commit_spec id (wt_base_key tx) (wt_base_root tx) (wt_exclusions tx) t0 protected approved d
    Ht0 Hb Hs Hdir) as Hrun. rewrite <-Hopen in Hrun.
  destruct (run_commit _ _ _ _ _ _ _ d) as [d' r]. destruct Hrun as (_ & _ & Hcl). cbn.
  fold id. destruct (set_lock_frame d' id false) as (-> & _). intros [Hdrift Hprot _]%Hcl. by split_and!.
Qed.

(** A change set that puts a file or a link where the base has a directory is never
    committed, on whatever system: no check refuses it, and the apply cannot succeed. *)
Theorem directory_not_replaced tx t0 protected approved d p :
  let id := wt_id tx in
  let s := staged_of d id in
  let c := diff (wt_base_manifest tx) (measure_tree id s []) in
  tree_ok t0 → tree_ok (dk_base d) → tree_ok s → is_Some (dk_dirs d !! id) →
  wt_base_manifest tx = measure_tree (wt_base_root tx) t0 (wt_exclusions tx) →
  written s c p → dir_at (dk_base d) p → ¬ dir_at s p →
  is_ok (snd (fst (commit tx protected approved d))) = false.
Proof.
  intros id s c Ht0 Hb Hs Hdir Hopen Hp Hd Hnd. unfold commit. destruct (wt_status tx); try done.
  pose proof (run_commit_spec id (wt_base_key tx) (wt_base_root tx) (wt_exclusions tx) t0 protected approved d
    Ht0 Hb Hs Hdir) as Hrun. rewrite <-Hopen in Hrun. fold id.
  destruct (run_commit _ _ _ _ _ _ _ d) as [d' [o|]]; [|done]. destruct Hrun as (_ & Ha & _). exfalso.
  unfold applied in Ha. rewrite <-Hopen in Ha. destruct Ha as (_ & Hwritten & _).
  destruct (Hwritten p Hp) as [(i & i' & Hi & Hi' & Hc) Hkept]. specialize (Hkept Hd). fold s in Hi.
  unfold dir_at, link_at in *. rewrite Hi' in *. rewrite Hi in Hnd. destruct Hc as [Hc|[Hc _]]; congruence.
Qed.

(** A file written in the workspace below an excluded path is part of the change set as an
    addition, and the drift check never sees the path, whatever the base has there by then. *)
Theorem excluded_path_unguarded root0 root1 root2 t0 s b exclusions p :
  tree_ok t0 → tree_ok s → tree_ok b → is_Some (s !! p) → is_excluded (relative p) exclusions = true →
  let opened := measure_tree root0 t0 exclusions in
  Change.Added (relative p) ∈ cs_entries (diff opened (measure_tree root1 s [])) ∧
  relative p ∉ drifted_paths opened (measure_tree root2 b exclusions).
Proof.
  intros Ht0 Hs Hb [i Hi] Hx opened. destruct (Hs _ _ Hi) as (_ & Hp & _).
  assert (∀ root t, tree_ok t → manifest_entry (measure_tree root t exclusions) (relative p) = None) as Hnone.
  { intros root t Ht. by rewrite manifest_lookup, Hx. }
  split.
  - unfold diff. cbn [cs_entries]. apply elem_of_app. left. apply list_elem_of_omap. exists (entry_of p i).
    rewrite entry_of_path. unfold opened. rewrite Hnone by done. split; [|done]. apply measure_spec; [done|]. by exists p, i.
  - assert (∀ root t e, tree_ok t → e ∈ bm_entries (measure_tree root t exclusions) → me_path e ≠ relative p) as Hne.
    { intros root t e Ht (q & j & Hj & Hxq & ->)%measure_spec; [|done]. rewrite entry_of_path. intros Heq. congruence. }
    unfold drifted_paths. rewrite elem_of_dedup, elem_of_stable_sort, elem_of_app, !list_elem_of_omap.
    intros [(e & He & Hf)|(e & He & Hf)]; apply Hne in He; try done; repeat case_match; simplify_eq.
Qed.

(** ** Before the commit *)

Definition off_base {A} (m : Io A) : Prop := ∀ d, dk_base (fst (m d)) = dk_base d.

Lemma off_base_bind {A B} (m : Io A) (k : A → Io B) : off_base m → (∀ a, off_base (k a)) → off_base (io_bind m k).
Proof.
  intros Hm Hk d. unfold io_bind. specialize (Hm d). destruct (m d) as [d' [a|e]]; simpl in *; [|done]. by rewrite Hk.
Qed.

Lemma off_base_catch {A B} (m : Io A) (k : result A IoError → Io B) :
  off_base m → (∀ r, off_base (k r)) → off_base (io_catch m k).
Proof. intros Hm Hk d. unfold io_catch. specialize (Hm d). destruct (m d) as [d' r]; simpl in *. by rewrite Hk. Qed.

Lemma off_base_reads {A} (f : Disk → result A IoError) : off_base (reads f).
Proof. intros d. apply quiet_reads. Qed.

Lemma off_base_staged id f : off_base (changes (Staged id) f).
Proof.
  intros d. unfold changes, call. destruct (fails (dk_ops d)); [done|].
  destruct (f (dk_ops d) _) as [t|e]; [|by destruct e]. cbn. by destruct (dk_dirs d !! id).
Qed.

Lemma off_base_create_dir_all id rp : off_base (create_dir_all_rev (Staged id) rp).
Proof.
  assert (∀ p r, off_base (or_dir (Staged id) p r)) as Hor.
  { intros p [u|e] d; [done|]. cbn. by destruct (is_dir _ p). }
  induction rp as [|n rp IH]; [done|]. apply off_base_catch; [apply off_base_staged|].
  intros [u|[]]; try apply Hor. apply off_base_bind; [done|]. intros _. by apply off_base_catch; [apply off_base_staged|].
Qed.

Lemma off_base_write id dest bytes mode : off_base (write_via_temp_inner (Staged id) dest bytes mode).
Proof.
  unfold write_via_temp_inner. destruct dest as [|n dest]; [done|]. intros d.
  apply off_base_bind; [apply off_base_staged|intros _]. apply off_base_bind; [apply off_base_staged|intros _].
  apply off_base_bind; [destruct mode; [apply off_base_staged|done]|intros _]. apply off_base_staged.
Qed.

Lemma off_base_copy id m : off_base (copy_surface (Staged id) m).
Proof.
  unfold copy_surface. induction (bm_entries m) as [|e es IH]; [done|]. apply off_base_bind; [|done].
  unfold copy_entry. destruct (me_kind e).
  - apply off_base_bind; [apply off_base_create_dir_all|intros _].
    apply off_base_bind; [apply off_base_reads|intros bytes]. apply off_base_bind; [apply off_base_reads|intros i].
    apply off_base_write.
  - apply off_base_create_dir_all.
  - apply off_base_bind; [apply off_base_create_dir_all|intros _]. unfold create_symlink_via_temp.
    destruct (components (me_path e)); [done|]. intros d.
    apply off_base_bind; [apply off_base_staged|intros _]. apply off_base_staged.
Qed.

Lemma off_base_find key ids : off_base (find_journal key ids).
Proof.
  induction ids as [|id ids IH]; [done|]. apply off_base_bind; [apply off_base_reads|intros _].
  apply off_base_catch; [apply off_base_reads|]. intros [u|e]; [|done].
  apply off_base_catch; [apply off_base_reads|]. intros r. by destruct (scoped_elsewhere _ _).
Qed.

Lemma own_dir_base id d : dk_base (fst (own_dir id d)) = dk_base d.
Proof.
  unfold own_dir. attempts; try done; (destruct (dk_dirs d !! id) as [x|]; [|done]); by try destruct (td_private x).
Qed.

Lemma lock_base id d : dk_base (fst (acquire_exclusive_lock id d)) = dk_base d.
Proof.
  unfold acquire_exclusive_lock. attempts; try done. destruct (dk_dirs d !! id) as [x|]; [|done].
  destruct (td_locked x); [done|]. cbn. by destruct (set_lock_frame (tick (tick d)) id true) as (? & _).
Qed.

Lemma ensure_staged_base id d : dk_base (fst (ensure_staged id d)) = dk_base d.
Proof.
  unfold ensure_staged. destruct (dk_dirs d !! id) as [x|]; [|done]. destruct (td_staged x); [done|]. attempts; [done|].
  by destruct (set_lock_frame (tick d) id false) as (? & _).
Qed.

Lemma state_create_base id d : dk_base (fst (state_create id d)) = dk_base d.
Proof.
  unfold state_create. attempts; [|done]. pose proof (own_dir_base id (tick d)) as H1.
  destruct (own_dir id (tick d)) as [d1 [u|e]]; [|done]. pose proof (lock_base id d1) as H2.
  destruct (acquire_exclusive_lock id d1) as [d2 [v|e]]; cbn in *; [|congruence].
  rewrite ensure_staged_base. congruence.
Qed.

(** Opening and discarding a transaction leave the base as it was, whatever fails. *)
Theorem staging_leaves_base id key root exclusions tx d :
  dk_base (fst (open id key root exclusions d)) = dk_base d ∧
  dk_base (fst (discard tx d)) = dk_base d.
Proof.
  split.
  - unfold open. assert (off_base (find_unresolved_journal key)) as Hfind.
    { apply off_base_bind; [apply off_base_reads|intros; apply off_base_find]. }
    specialize (Hfind d). destruct (find_unresolved_journal key d) as [d1 [[j|]|e]]; simpl in Hfind; [done| |done].
    pose proof (state_create_base id d1) as Hst. destruct (state_create id d1) as [d2 [u|e]]; simpl in *; [|congruence].
    pose proof (off_base_reads (λ d, Ok (measure_tree root (tree_at d Base) exclusions)) d2) as Hm.
    fold (measure Base root exclusions) in Hm. destruct (measure Base root exclusions d2) as [d3 [m|e]]; simpl in *.
    + pose proof (off_base_copy id m d3) as Hc. destruct (copy_surface (Staged id) m d3) as [d4 [v|e]]; simpl in *;
        [congruence|]. destruct (set_lock_frame d4 id false) as (-> & _). congruence.
    + destruct (set_lock_frame d3 id false) as (-> & _). congruence.
  - unfold discard, call. destruct (fails (dk_ops d)); simpl.
    + by destruct (set_lock_frame (tick d) (wt_id tx) false) as (-> & _).
    + destruct (set_lock_frame (match dk_dirs d !! wt_id tx with
        | Some x => set_dir (tick d) (wt_id tx) (with_staged x None) | None => tick d end) (wt_id tx) false) as (-> & _).
      by destruct (dk_dirs d !! wt_id tx).
Qed.
End Committed.

(** ** Runs *)

Definition answers (stop : nat) (target : option bool) : Host :=
  {| fails := λ k, (stop <=? k)%nat; tmp_name := λ _, ".tmp"%string; new_inode := λ k, (1, Z.of_nat k + 1000);
     follow := λ _ _, target; digest := λ s, s; fold := λ s, s |}.

Definition run_file (bytes : string) (k : Z) : Inode := {| i_content := Node.File bytes; i_mode := 420; i_id := (1, k) |}.
Definition run_dir (k : Z) : Inode := {| i_content := Node.Directory; i_mode := 493; i_id := (1, k) |}.
Definition run_link (target : string) (k : Z) : Inode := {| i_content := Node.Symlink target; i_mode := 511; i_id := (1, k) |}.

Definition run_base : Tree :=
  {[ ["a"%string] := run_file "one" 1; ["d"%string] := run_dir 2; ["d"%string; "x"%string] := run_file "x" 3 ]}.
Definition run_staged : Tree :=
  {[ ["a"%string] := run_file "two" 11; ["n"%string] := run_dir 12; ["n"%string; "y"%string] := run_file "y" 13 ]}.

Definition run_disk (b s : Tree) : Disk :=
  {| dk_base := b;
     dk_dirs := {[ "tx"%string := {| td_private := true; td_locked := true; td_staged := Some s; td_journal := None |} ]};
     dk_ops := 0; dk_escaped := false |}.

Definition run_tx `{Host} (b : Tree) (exclusions : list string) : WorkspaceTransaction :=
  {| wt_id := "tx"; wt_base_key := "/base"; wt_base_root := "/base"; wt_exclusions := exclusions;
     wt_base_manifest := measure_tree "/base" b exclusions; wt_status := Closed |}.

Definition ran (stop : nat) (target : option bool) (b s : Tree) (exclusions : list string) :=
  let h := answers stop target in commit (run_tx b exclusions) ["secret"%string] false (run_disk b s).

Lemma run_base_ok : tree_ok run_base.
Proof. by apply tree_okb_sound. Qed.

Lemma run_staged_ok : tree_ok run_staged.
Proof. by apply tree_okb_sound. Qed.

Lemma run_key : plain_key "/base".
Proof. by split. Qed.

(** On the system that answers every call, the theorem gives the committed tree; on the one
    that stops at call 20, the journal that keeps later transactions off. *)
Lemma commit_all_or_nothing_witness :
  (∃ d' o, ran 1000 None run_base run_staged [] = (d', Ok o, Committed) ∧
     folded_back run_staged (co_applied o) run_base (dk_base d')) ∧
  (∃ d' e, ran 20 None run_base run_staged [] = (d', Err (ApplyInterrupted "tx" e), InterruptedApply) ∧
     kept_off "/base" d').
Proof.
  split.
  - pose proof (@commit_all_or_nothing (answers 1000 None) (@run_tx (answers 1000 None) run_base []) run_base
      ["secret"%string] false (run_disk run_base run_staged) run_base_ok run_base_ok run_staged_ok
      ltac:(eexists; reflexivity) eq_refl) as Hc.
    cbn zeta in Hc. unfold ran. cbn zeta. destruct (commit _ _ _ _) as [[d' r] st] eqn:Hrun. destruct Hc as [_ Hc].
    assert (is_ok (snd (fst (ran 1000 None run_base run_staged []))) = true) as Hr by (vm_compute; reflexivity).
    unfold ran in Hr. cbn zeta in Hr. rewrite Hrun in Hr. cbn [fst snd] in Hr.
    clear Hrun. destruct r as [o|]; [|done]. destruct Hc as (-> & Ho & Hfold). exists d', o. split; [done|]. by rewrite Ho.
  - pose proof (@commit_all_or_nothing (answers 20 None) (@run_tx (answers 20 None) run_base []) run_base
      ["secret"%string] false (run_disk run_base run_staged) run_base_ok run_base_ok run_staged_ok
      ltac:(eexists; reflexivity) eq_refl) as Hc.
    cbn zeta in Hc. unfold ran. cbn zeta. destruct (commit _ _ _ _) as [[d' r] st] eqn:Hrun. destruct Hc as [_ Hc].
    assert (snd (ran 20 None run_base run_staged []) = InterruptedApply) as Hr by (vm_compute; reflexivity).
    unfold ran in Hr. cbn zeta in Hr. rewrite Hrun in Hr. cbn [snd] in Hr. subst st.
    clear Hrun. destruct r as [o|[]]; try (destruct Hc as [Hst _]; discriminate Hst). destruct Hc as (_ & -> & _ & Hoff). exists d', detail. split; [done|]. apply Hoff, run_key.
Defined.

Lemma commit_guards_witness :
  wt_status (@run_tx (answers 1000 None) run_base []) = Closed ∧ @protects (answers 1000 None) "secret" "a" = false.
Proof.
  assert (dk_base (fst (fst (ran 1000 None run_base run_staged []))) !! ["n"%string] ≠ run_base !! ["n"%string]) as Hne
    by (vm_compute; discriminate).
  pose proof (@commit_guards (answers 1000 None) (@run_tx (answers 1000 None) run_base []) run_base
    ["secret"%string] false (run_disk run_base run_staged) run_base_ok run_base_ok run_staged_ok
    ltac:(eexists; reflexivity) eq_refl (λ Heq, Hne (f_equal (λ t : Tree, t !! ["n"%string]) Heq))) as Hg.
  cbn zeta in Hg. destruct Hg as (Hst & _ & [Hf|Hp]); [discriminate Hf|]. split; [exact Hst|].
  apply Hp; [left|]. apply elem_of_paths. exists (Change.Modified "a"). split; [left|reflexivity].
Defined.

(** A directory of the base, a file of the workspace. *)
Definition swap_base : Tree := {[ ["l"%string] := run_dir 5 ]}.
Definition swap_staged : Tree := {[ ["a"%string] := run_file "a" 7; ["l"%string] := run_file "x" 6 ]}.

Lemma directory_not_replaced_witness : is_ok (snd (fst (ran 1000 None swap_base swap_staged []))) = false.
Proof.
  refine (@directory_not_replaced (answers 1000 None) (@run_tx (answers 1000 None) swap_base []) swap_base
    ["secret"%string] false (run_disk swap_base swap_staged) ["l"%string] _ _ _ _ eq_refl _ _ _).
  1-3: by apply tree_okb_sound.
  - by eexists.
  - split; [split|]; [repeat constructor; done| |by eexists].
    apply elem_of_paths. exists (Change.Modified "l"). split; [|done]. right. left.
  - done.
  - by vm_compute.
Defined.

(** The apply stops with the other changes made. *)
Lemma directory_swap_interrupts :
  let '(d', _, status) := ran 1000 None swap_base swap_staged [] in
  status = InterruptedApply ∧ is_Some (dk_base d' !! ["a"%string]).
Proof. vm_compute. split; [done|by eexists]. Qed.

Lemma excluded_path_unguarded_witness :
  let h := answers 1000 None in
  let b := {[ ["k"%string] := run_file "now" 5 ]} in
  let s := {[ ["k"%string] := run_file "x" 6 ]} in
  Change.Added "k" ∈ cs_entries (diff (measure_tree "/base" ∅ ["k"%string]) (measure_tree "tx" s [])) ∧
  "k"%string ∉ drifted_paths (measure_tree "/base" ∅ ["k"%string]) (measure_tree "/base" b ["k"%string]).
Proof.
  intros h b s. apply (@excluded_path_unguarded h "/base" "tx" "/base" ∅ s b ["k"%string] ["k"%string]).
  1-3: by apply tree_okb_sound.
  - by eexists.
  - done.
Defined.

(** A link to a directory, replaced by a directory in the workspace: committed, and the link
    is still there. *)
Lemma linked_directory_kept :
  let b := {[ ["l"%string] := run_link "x" 5 ]} in
  let '(d', r, status) := ran 1000 (Some true) b {[ ["l"%string] := run_dir 6 ]} [] in
  status = Committed ∧ map_to_list (dk_base d') = map_to_list b.
Proof. vm_compute. done. Qed.

(** The last measurement fails: refused, with the changes made. *)
Lemma refused_after_apply :
  let '(d', r, status) := ran 36 None run_base run_staged [] in
  status = ConflictRefused (LockUnavailable Fault) ∧ i_content <$> dk_base d' !! ["a"%string] = Some (Node.File "two").
Proof. vm_compute. done. Qed.

(** The journal is in place but not synced: refused, the base as it was, and later
    transactions are kept off it all the same. *)
Lemma journal_left_behind :
  let '(d', r, status) := ran 15 None run_base run_staged [] in
  status = ConflictRefused (LockUnavailable Fault) ∧ map_to_list (dk_base d') = map_to_list run_base ∧
  is_Some (dk_dirs d' !! "tx"%string ≫= td_journal).
Proof. vm_compute. split_and!; [done..|by eexists]. Qed.

(** A base whose path has a line break is not recognised by its own journal. *)
Lemma journal_of_split_name c :
  let key := String.append "/a" (String.append newline "b") in scoped_elsewhere key (Some (journal_body key c)) = true.
Proof. by destruct c. Qed.

(** ** Opening a transaction stages exactly the declared surface

    The staged tree of a new transaction has the entries of the base that are not excluded
    and nothing else, so the change set is empty until the workspace is written to, and the
    hypotheses of the theorems on commits hold of it.

    An operation on the staged tree is the operation on the base of a disk that has the
    staged tree in its place, so its effects are those shown in FileTreeProps. *)

Import TxStatus.

Section Staging.
Context `{Host} (id : TransactionId).

(** The disk with the staged tree as its base. *)
Definition mirror (d : Disk) : Disk :=
  {| dk_base := staged_of d id; dk_dirs := ∅; dk_ops := dk_ops d; dk_escaped := dk_escaped d |}.

Definition staging (d : Disk) : Prop := is_Some (dk_dirs d !! id).

Definition mirrors {A} (m m0 : Io A) : Prop :=
  ∀ d, staging d →
    m0 (mirror d) = (mirror (fst (m d)), snd (m d)) ∧ staging (fst (m d)) ∧ dk_base (fst (m d)) = dk_base d.

Lemma mirrors_ret {A} (a : A) : mirrors (io_ret a) (io_ret a).
Proof. by intros d Hd. Qed.

Lemma mirrors_bind {A B} (m m0 : Io A) (k k0 : A → Io B) :
  mirrors m m0 → (∀ a, mirrors (k a) (k0 a)) → mirrors (io_bind m k) (io_bind m0 k0).
Proof.
  intros Hm Hk d Hd. unfold io_bind. destruct (Hm d Hd) as (-> & Hd1 & Hb1). destruct (m d) as [d1 [a|e]]; [|done].
  cbn in *. destruct (Hk a d1 Hd1) as (-> & Hd2 & Hb2). split_and!; [done..|congruence].
Qed.

Lemma mirrors_catch {A B} (m m0 : Io A) (k k0 : result A IoError → Io B) :
  mirrors m m0 → (∀ r, mirrors (k r) (k0 r)) → mirrors (io_catch m k) (io_catch m0 k0).
Proof.
  intros Hm Hk d Hd. unfold io_catch. destruct (Hm d Hd) as (-> & Hd1 & Hb1). destruct (m d) as [d1 r].
  cbn in *. destruct (Hk r d1 Hd1) as (-> & Hd2 & Hb2). split_and!; [done..|congruence].
Qed.

Lemma mirrors_changes f : mirrors (changes (Staged id) f) (changes Base f).
Proof.
  intros d Hd. unfold changes, call. cbn [mirror dk_ops]. destruct (fails (dk_ops d)); [done|].
  cbn [tree_at tick mirror dk_base]. change (staged_of (tick d) id) with (staged_of d id).
  destruct (f (dk_ops d) (staged_of d id)) as [t|e]; [|by destruct e]. destruct Hd as [x Hx].
  cbn [fst snd set_tree set_base tick dk_dirs]. rewrite Hx. split_and!; [|by exists (with_staged x (Some t)); apply lookup_insert_eq|done].
  unfold mirror, staged_of. cbn. by rewrite lookup_insert_eq.
Qed.

Lemma mirrors_or_dir p r : mirrors (or_dir (Staged id) p r) (or_dir Base p r).
Proof. intros d Hd. unfold or_dir. destruct r as [|e]; [done|]. cbn. by destruct (is_dir _ p). Qed.

Lemma mirrors_create_dir_all p : mirrors (create_dir_all (Staged id) p) (create_dir_all Base p).
Proof.
  unfold create_dir_all. induction (rev p) as [|n rp IH]; [apply mirrors_ret|].
  apply mirrors_catch; [apply mirrors_changes|]. intros [u|[]]; try apply mirrors_or_dir.
  apply mirrors_bind; [done|]. intros _. apply mirrors_catch; [apply mirrors_changes|apply mirrors_or_dir].
Qed.

Lemma mirrors_write dest bytes mode :
  mirrors (write_via_temp_with_mode (Staged id) dest bytes mode) (write_via_temp_with_mode Base dest bytes mode).
Proof.
  unfold write_via_temp_with_mode, write_via_temp_inner. destruct dest as [|n dest]; [by intros d Hd|].
  intros d Hd. cbn [mirror dk_ops].
  apply (mirrors_bind _ _ _ _ (mirrors_changes _) (λ _, mirrors_bind _ _ _ _ (mirrors_changes _)
    (λ _, mirrors_bind _ _ _ _ (mirrors_changes _) (λ _, mirrors_changes _))) d Hd).
Qed.

Lemma mirrors_symlink target dest :
  mirrors (create_symlink_via_temp (Staged id) target dest) (create_symlink_via_temp Base target dest).
Proof.
  unfold create_symlink_via_temp. destruct dest as [|n dest]; [by intros d Hd|].
  intros d Hd. cbn [mirror dk_ops].
  apply (mirrors_bind _ _ _ _ (mirrors_changes _) (λ _, mirrors_changes _) d Hd).
Qed.

(** ** Copying *)

Section Copy.
Context (t : Tree) (Ht : tree_ok t) (exclusions : list string).

Definition listed (p : Components) : Prop := is_Some (t !! p) ∧ is_excluded (relative p) exclusions = false.

(** Every staged entry is the base's, and on the surface. *)
Definition faithful (s : Tree) : Prop :=
  ∀ q j, s !! q = Some j → ∃ i, t !! q = Some i ∧ i_content j = i_content i ∧ is_excluded (relative q) exclusions = false.

Lemma listed_above q p : listed p → above q p → listed q ∧ dir_at t q.
Proof.
  intros [[i Hi] Hx] Hq. destruct (Ht _ _ Hi) as (_ & Hgood & Hup). pose proof (Hup q Hq) as Hd. split; [|done].
  split; [unfold dir_at in Hd; by destruct (t !! q)|].
  destruct (is_excluded (relative q) exclusions) eqn:E; [|done]. by rewrite (excluded_below q p exclusions) in Hx.
Qed.

Lemma faithful_unlinked s p : faithful s → listed p → unlinked s p.
Proof.
  intros Hf Hp q Hq Hl. destruct (listed_above q p Hp Hq) as [_ Hd]. unfold link_at, dir_at in *.
  destruct (s !! q) as [j|] eqn:Hj; [|done]. destruct (Hf _ _ Hj) as (i & Hi & Hc & _). rewrite Hi in Hd.
  by rewrite Hc, Hd in Hl.
Qed.

Lemma faithful_grows s s' p :
  faithful s → grows p s s' → (∀ q, q ≠ [] → q = p ∨ above q p → listed q ∧ dir_at t q) → faithful s'.
Proof.
  intros Hf Hg Hp q j Hj. destruct (Hg q) as [He|(_ & Hd & Hne & Hq)]; [rewrite He in Hj; by apply Hf|].
  destruct (Hp q Hne Hq) as [[_ Hx] Ht']. unfold dir_at in *. rewrite Hj in Hd. destruct (t !! q) as [i|]; [|done].
  exists i. split_and!; congruence.
Qed.

Lemma faithful_insert s p i j :
  faithful s → t !! p = Some i → is_excluded (relative p) exclusions = false → i_content j = i_content i →
  faithful (<[p := j]> s).
Proof.
  intros Hf Hi Hx Hc q k. destruct (decide (p = q)) as [<-|Hne].
  - rewrite lookup_insert_eq. intros [= <-]. eauto.
  - rewrite lookup_insert_ne by done. apply Hf.
Qed.

Definition includes (s s' : Tree) : Prop := ∀ q, is_Some (s !! q) → is_Some (s' !! q).

Lemma grows_includes p s s' : grows p s s' → includes s s'.
Proof. intros Hg q Hq. destruct (Hg q) as [->|(Hn & _)]; [done|]. rewrite Hn in Hq. by destruct Hq. Qed.

(** What the copy of one entry, or of many, keeps and adds. *)
Definition copied (ps : Components → Prop) (d d' : Disk) : Prop :=
  staging d' ∧ dk_base d' = dk_base d ∧ faithful (staged_of d' id) ∧
  includes (staged_of d id) (staged_of d' id) ∧ ∀ p, ps p → is_Some (staged_of d' id !! p).

Lemma made_staged p d d' u :
  staging d → faithful (staged_of d id) →
  (∀ q, q ≠ [] → q = p ∨ above q p → listed q ∧ dir_at t q) →
  create_dir_all (Staged id) p d = (d', Ok u) → copied (λ q, q = p ∧ p ≠ []) d d'.
Proof.
  intros Hd Hf Hp Hrun. destruct (mirrors_create_dir_all p d Hd) as (Hm & Hd' & Hb). rewrite Hrun in Hm, Hd', Hb.
  pose proof (create_dir_all_spec p (mirror d)) as Hs. rewrite Hm in Hs. destruct Hs as (_ & Hg & Hr). cbn in *.
  split_and!; [done|done|by eapply faithful_grows|by eapply grows_includes|].
  intros q [-> Hne]. assert (unlinked (staged_of d id) p) as Hu.
  { apply faithful_unlinked; [done|]. by apply Hp; [|left]. }
  destruct (Hr Hu) as [_ Hok]. destruct (Hok eq_refl) as [?|Hdl]; [done|]. unfold dirish, dir_at, link_at in Hdl.
  destruct (staged_of d' id !! p); [done|]. by destruct Hdl.
Qed.

(** The end of the copy of a file or a link. *)
Lemma placed_staged p i (m m0 : Io unit) d d' u :
  mirrors m m0 → listed p → t !! p = Some i → staging d → faithful (staged_of d id) →
  (∀ e r, m0 (mirror d) = (e, r) → placed_at (λ j, i_content j = i_content i) p (mirror d) e r) →
  m d = (d', Ok u) → copied (λ q, q = p) d d'.
Proof.
  intros Hmm [_ Hx] Hi Hd Hf Hplace Hrun. destruct (Hmm d Hd) as (Hm & Hd' & Hb). rewrite Hrun in Hm, Hd', Hb. cbn in *.
  destruct (Hplace _ _ Hm) as (_ & _ & Hok). destruct (Hok eq_refl) as [_ (j & Hj & Hs)]. cbn in Hs.
  split_and!; [done|done|rewrite Hs; by eapply faithful_insert| |].
  - intros q Hq. rewrite Hs. destruct (decide (p = q)) as [<-|]; [by rewrite lookup_insert_eq|by rewrite lookup_insert_ne].
  - intros q ->. rewrite Hs, lookup_insert_eq. eauto.
Qed.

Lemma copied_trans ps qs d d1 d2 : copied ps d d1 → copied qs d1 d2 → copied (λ p, ps p ∨ qs p) d d2.
Proof.
  intros (? & ? & ? & Hi1 & Hp) (? & ? & ? & Hi2 & Hq). split_and!; [done|congruence|done|intros q Hs; auto|].
  intros p [?|?]; auto.
Qed.

Lemma copied_weaken (ps qs : Components → Prop) d d' : copied ps d d' → (∀ p, qs p → ps p) → copied qs d d'.
Proof. intros (? & ? & ? & ? & Hp) Hq. split_and!; auto. Qed.

Lemma parent_listed p q : listed p → p ≠ [] → q ≠ [] → q = parent p ∨ above q (parent p) → listed q ∧ dir_at t q.
Proof.
  intros Hp Hne Hq Hr. apply (listed_above q p); [done|]. destruct p as [|n p _] using rev_ind; [done|].
  unfold parent in Hr. rewrite removelast_last in Hr. by apply above_snoc.
Qed.

(** Parents first, then the entry. *)
Lemma under_parents p d d' u (k : Io unit) :
  listed p → p ≠ [] → staging d → faithful (staged_of d id) →
  (∀ d1, staging d1 → dk_base d1 = dk_base d → faithful (staged_of d1 id) →
     k d1 = (d', Ok u) → copied (λ q, q = p) d1 d') →
  (let! _ := create_dir_all (Staged id) (parent p) in k) d = (d', Ok u) → copied (λ q, q = p) d d'.
Proof.
  intros Hp Hne Hd Hf Hk. unfold io_bind. destruct (create_dir_all (Staged id) (parent p) d) as [d1 [v|e]] eqn:H1; [|done].
  intros Hrun. pose proof (made_staged _ _ _ _ Hd Hf (λ q, parent_listed p q Hp Hne) H1) as Hc.
  pose proof Hc as (Hd1 & Hb1 & Hf1 & _). apply (copied_weaken (λ q, (q = parent p ∧ parent p ≠ []) ∨ q = p)); [|auto].
  eapply copied_trans; [exact Hc|]. by apply Hk.
Qed.

Lemma copy_entry_spec p i d d' u :
  t !! p = Some i → is_excluded (relative p) exclusions = false → staging d → dk_base d = t → faithful (staged_of d id) →
  copy_entry (Staged id) (entry_of p i) d = (d', Ok u) → copied (λ q, q = p) d d'.
Proof.
  intros Hi Hx Hd Hb Hf. destruct (Ht _ _ Hi) as (Hne & Hgood & _). assert (listed p) as Hp by (split; eauto).
  unfold copy_entry. rewrite entry_of_path, components_relative by done. unfold entry_of.
  destruct (i_content i) as [bytes| |target] eqn:Hc; cbn [me_kind me_symlink_target default].
  - apply under_parents; [done..|]. intros d1 Hd1 Hb1 Hf1. unfold copy_file_never_hardlink, io_bind.
    pose proof (reads_cases (λ d, read_file (tree_at d Base) p) d1) as H1.
    destruct (reads _ d1) as [d2 [content|e]]; [|done]. destruct H1 as (Hd2 & Hb2 & _ & [|Hr]); [done|].
    pose proof (reads_cases (λ d, stat (tree_at d Base) p) d2) as H2.
    destruct (reads _ d2) as [d3 [j|e]]; [|done]. destruct H2 as (Hd3 & Hb3 & _).
    assert (content = bytes) as ->.
    { cbn in Hr. unfold read_file in Hr. rewrite Hb1, Hb, (stat_exists _ _ _ Ht Hi) in Hr. cbn in Hr.
      rewrite Hc in Hr. congruence. }
    assert (staged_of d3 id = staged_of d1 id) as Hs3 by (unfold staged_of; congruence).
    intros Hrun. assert (copied (λ q, q = p) d3 d') as (? & ? & ? & ? & ?).
    { eapply (placed_staged p i _ _ d3 d' u (mirrors_write _ _ _) Hp Hi); [..|exact Hrun].
      - unfold staging. by rewrite Hd3, Hd2.
      - by rewrite Hs3.
      - intros e r He. pose proof (write_spec p bytes (Some (permission_bits (permission_bits (i_mode j)))) (mirror d3)) as Hw.
        unfold write_via_temp_with_mode in He. rewrite He in Hw. by rewrite Hc. }
    rewrite Hs3 in *. split_and!; [done|congruence|done..].
  - intros Hrun. eapply copied_weaken; [eapply made_staged; [done..| |exact Hrun]|]; [|done].
    intros q Hq [->|Ha]; [|by apply (listed_above q p)]. split; [done|]. unfold dir_at. by rewrite Hi.
  - apply under_parents; [done..|]. intros d1 Hd1 _ Hf1.
    apply (placed_staged p i _ _ d1 d' u (mirrors_symlink _ _) Hp Hi Hd1 Hf1). intros e r He. pose proof (symlink_spec target p (mirror d1)) as Hw.
    change (Datatypes.id target) with target in He. rewrite He in Hw. by rewrite Hc.
Qed.

Lemma copy_surface_spec root d d' u :
  staging d → dk_base d = t → faithful (staged_of d id) →
  copy_surface (Staged id) (measure_tree root t exclusions) d = (d', Ok u) → copied listed d d'.
Proof.
  intros Hd Hb Hf Hrun.
  assert (∀ es d, (∀ e, e ∈ es → ∃ p i, t !! p = Some i ∧ is_excluded (relative p) exclusions = false ∧ e = entry_of p i) →
    staging d → dk_base d = t → faithful (staged_of d id) → io_each (copy_entry (Staged id)) es d = (d', Ok u) →
    copied (λ p, ∃ i, t !! p = Some i ∧ entry_of p i ∈ es) d d') as Hall.
  { clear d Hd Hb Hf Hrun. induction es as [|e es IH]; intros d Hes Hd Hb Hf Hrun.
    - injection Hrun as <- _. split_and!; [done..|by intros q|]. by intros p (i & _ & ?%elem_of_nil).
    - cbn [io_each] in Hrun. unfold io_bind in Hrun. destruct (Hes e ltac:(left)) as (p & i & Hi & Hx & ->).
      destruct (copy_entry (Staged id) (entry_of p i) d) as [d1 [v|]] eqn:H1; [|done].
      pose proof (copy_entry_spec p i d d1 v Hi Hx Hd Hb Hf H1) as Hc. pose proof Hc as (Hd1 & Hb1 & Hf1 & _).
      eapply copied_weaken; [eapply copied_trans; [exact Hc|apply IH]|]; try done; [|congruence|].
      + intros e He. apply Hes. by right.
      + intros q (j & Hj & [Hq|Hq]%elem_of_cons); [|eauto]. left.
        apply (f_equal me_path) in Hq. rewrite !entry_of_path in Hq.
        destruct (Ht _ _ Hi) as (_ & ? & _). destruct (Ht _ _ Hj) as (_ & ? & _). by apply relative_inj. }
  apply Hall in Hrun; [|intros e He; by apply measure_spec in He|done..].
  eapply copied_weaken; [exact Hrun|]. intros p [[i Hi] Hx]. exists i. split; [done|]. apply measure_spec; eauto.
Qed.

(** ** The staged tree *)

Lemma entry_of_content p i j : i_content i = i_content j → entry_of p i = entry_of p j.
Proof. unfold entry_of. by intros ->. Qed.

Lemma entries_equal_refl e : entries_equal e e = true.
Proof. unfold entries_equal. by rewrite !bool_decide_eq_true_2. Qed.

Section Staged.
Context (s : Tree) (Hf : faithful s) (Hall : ∀ p, listed p → is_Some (s !! p)).

Lemma staged_tree_ok : tree_ok s.
Proof.
  intros p j Hj. destruct (Hf _ _ Hj) as (i & Hi & Hc & Hx). destruct (Ht _ _ Hi) as (Hne & Hgood & _).
  split_and!; [done..|]. intros q Hq. destruct (listed_above q p) as [Hl Hd]; [by split; eauto|done|].
  destruct (Hall q Hl) as [k Hk]. destruct (Hf _ _ Hk) as (i' & Hi' & Hc' & _). unfold dir_at in *.
  rewrite Hk. rewrite Hi' in Hd. congruence.
Qed.

Lemma staged_diff root : diff (measure_tree root t exclusions) (measure_tree id s []) = {| cs_entries := [] |}.
Proof.
  unfold diff. f_equal. apply elem_of_nil_inv. intros e. rewrite elem_of_app, !list_elem_of_omap.
  intros [(m & Hm & He)|(m & Hm & He)].
  - apply measure_spec in Hm as (p & j & Hj & _ & ->); [|apply staged_tree_ok]. rewrite entry_of_path in He.
    destruct (Hf _ _ Hj) as (i & Hi & Hc & Hx). destruct (Ht _ _ Hi) as (_ & Hgood & _).
    rewrite manifest_lookup, Hx, Hi in He by done. cbn in He.
    by rewrite (entry_of_content p j i Hc), entries_equal_refl in He.
  - apply measure_spec in Hm as (p & i & Hi & Hx & ->); [|done]. rewrite entry_of_path in He.
    destruct (Ht _ _ Hi) as (_ & Hgood & _). destruct (Hall p) as [j Hj]; [by split; eauto|].
    rewrite manifest_lookup, Hj in He; [done|apply staged_tree_ok|done].
Qed.
End Staged.
End Copy.

Lemma quiet_find_journal key ids : quiet (find_journal key ids).
Proof.
  induction ids as [|x ids IH]; [apply quiet_ret|]. apply quiet_bind; [apply quiet_reads|intros _].
  apply quiet_catch; [apply quiet_reads|]. intros [u|e]; [|done].
  apply quiet_catch; [apply quiet_reads|]. intros r. destruct (scoped_elsewhere _ _); [done|apply quiet_ret].
Qed.

Lemma state_create_fresh d d' u :
  dk_dirs d !! id = None → state_create id d = (d', Ok u) →
  staging d' ∧ dk_base d' = dk_base d ∧ staged_of d' id = ∅.
Proof.
  intros Hn Hrun. pose proof (state_create_base id d) as Hb. rewrite Hrun in Hb. cbn in Hb. revert Hrun.
  unfold state_create, own_dir. attempts; try done; rewrite Hn; cbn; try done.
  all: unfold acquire_exclusive_lock; attempts; try done; rewrite lookup_insert_eq; cbn; unfold set_lock; cbn.
  all: rewrite lookup_insert_eq; cbn; unfold ensure_staged; cbn; rewrite lookup_insert_eq; cbn; attempts; try done.
  all: intros [= <- _]; unfold staging, staged_of; cbn; rewrite lookup_insert_eq; split_and!; eauto.
Qed.

(** A transaction opened under a new identifier has staged exactly the surface: every entry of
    the base that is not excluded, with its content, and nothing else; the base is as it was, the
    recorded manifest is its measurement, and the change set is empty until the workspace is
    written to. *)
Theorem open_stages_surface key root exclusions d d' tx :
  tree_ok (dk_base d) → dk_dirs d !! id = None → open id key root exclusions d = (d', Ok tx) →
  wt_status tx = Open ∧ wt_base_manifest tx = measure_tree root (dk_base d) exclusions ∧ dk_base d' = dk_base d ∧
  tree_ok (staged_of d' id) ∧
  (∀ p i, staged_of d' id !! p = Some i →
     ∃ j, dk_base d !! p = Some j ∧ i_content i = i_content j ∧ is_excluded (relative p) exclusions = false) ∧
  (∀ p, is_Some (dk_base d !! p) → is_excluded (relative p) exclusions = false → is_Some (staged_of d' id !! p)) ∧
  diff (wt_base_manifest tx) (measure_tree id (staged_of d' id) []) = {| cs_entries := [] |}.
Proof.
  intros Hok Hn. unfold open. assert (quiet (find_unresolved_journal key)) as Hq.
  { apply quiet_bind; [apply quiet_reads|intros; apply quiet_find_journal]. }
  specialize (Hq d). destruct (find_unresolved_journal key d) as [d1 [[j|]|e]]; [done| |done].
  destruct Hq as (Hd1 & Hb1 & _). cbn in Hd1, Hb1.
  destruct (state_create id d1) as [d2 [u|e]] eqn:Hst; [|done].
  apply state_create_fresh in Hst as (Hd2 & Hb2 & Hs2); [|by rewrite Hd1].
  destruct (measure Base root exclusions d2) as [d3 [m|e]] eqn:Hm; [|done].
  pose proof (reads_cases (λ d, Ok (measure_tree root (tree_at d Base) exclusions)) d2) as Hr.
  fold (measure Base root exclusions) in Hr. rewrite Hm in Hr. destruct Hr as (Hd3 & Hb3 & _ & [|Hr]); [done|].
  injection Hr as Hr. cbn in Hr. assert (dk_base d2 = dk_base d) as Hb by congruence. rewrite Hb in Hr. subst m.
  destruct (copy_surface _ _ d3) as [d4 [v|e]] eqn:Hc; [|done]. intros [= <- <-]. cbn [wt_status wt_base_manifest].
  assert (staged_of d3 id = ∅) as Hs3 by (unfold staged_of; rewrite Hd3; exact Hs2).
  apply (copy_surface_spec _ Hok exclusions) in Hc as (_ & Hb4 & Hf & _ & Hall);
    [|by unfold staging; rewrite Hd3|congruence|by rewrite Hs3; intros q k; rewrite lookup_empty].
  split_and!; [done|done|congruence|by eapply staged_tree_ok|exact Hf| |by apply staged_diff].
  intros p Hp Hx. apply Hall. by split.
Qed.
End Staging.

(** On the disk of the runs, before any transaction. *)
Definition fresh_disk : Disk := {| dk_base := run_base; dk_dirs := ∅; dk_ops := 0; dk_escaped := false |}.

Lemma open_stages_surface_witness :
  ∃ d' tx, @open (answers 1000 None) "tx" "/base" "/base" ["d"%string] fresh_disk = (d', Ok tx) ∧
    diff (wt_base_manifest tx) (@measure_tree (answers 1000 None) "tx" (staged_of d' "tx") []) = {| cs_entries := [] |} ∧
    is_Some (staged_of d' "tx" !! ["a"%string]).
Proof.
  assert (is_ok (snd (@open (answers 1000 None) "tx" "/base" "/base" ["d"%string] fresh_disk)) = true) as Hok
    by (vm_compute; reflexivity).
  pose proof (λ d' tx, @open_stages_surface (answers 1000 None) "tx" "/base" "/base" ["d"%string] fresh_disk d' tx
    run_base_ok eq_refl) as Hst.
  destruct (@open (answers 1000 None) "tx" "/base" "/base" ["d"%string] fresh_disk) as [d' [tx|]]; [|discriminate Hok].
  destruct (Hst d' tx eq_refl) as (_ & _ & _ & _ & _ & Hall & Hdiff). exists d', tx. split; [reflexivity|]. split; [exact Hdiff|].
  apply Hall; [by eexists|reflexivity].
Defined.
