(* ===== verification/NetAddr.v ===== *)
(** * NetAddr: address literals, blocked ranges and host texts

    aa-core/src/net.rs, and of core::net what it uses: the classification of an IPv4
    address and the parsers of [IpAddr] and [Ipv6Addr].  An IPv4 address is a 32-bit
    integer, an IPv6 address its eight 16-bit segments. *)

From stdpp Require Import base strings list.
From Stdlib Require Import ZArith Lia Bool Ascii String Btauto.
From S2P Require Import Prelude.
From S2P Require Import Text.
From S2P Require Import EgressHost.

Open Scope Z_scope.
Open Scope aasm_scope.

#[local] Arguments ascii_dec : simpl never.

Module Ip.
Inductive IpAddr := V4 (a : Z) | V6 (segments : list Z).

#[global] Instance IpAddr_eq_dec : EqDecision IpAddr.
Proof. solve_decision. Defined.
End Ip.

(** [Ipv4Addr::UNSPECIFIED]. *)
Definition UNSPECIFIED : Z := 0.

(** ** The classification of [core::net] *)

(** [octets()[i]]. *)
Definition octet (a i : Z) : Z := Z.land (Z.shiftr a (8 * (3 - i))) 255.

Definition is_loopback (a : Z) : bool := octet a 0 =? 127.

Definition is_private (a : Z) : bool :=
  (octet a 0 =? 10)
  || (octet a 0 =? 172) && (16 <=? octet a 1) && (octet a 1 <=? 31)
  || (octet a 0 =? 192) && (octet a 1 =? 168).

Definition is_link_local (a : Z) : bool := (octet a 0 =? 169) && (octet a 1 =? 254).

Definition is_broadcast (a : Z) : bool := a =? 4294967295.

Definition is_documentation (a : Z) : bool :=
  (octet a 0 =? 192) && (octet a 1 =? 0) && (octet a 2 =? 2)
  || (octet a 0 =? 198) && (octet a 1 =? 51) && (octet a 2 =? 100)
  || (octet a 0 =? 203) && (octet a 1 =? 0) && (octet a 2 =? 113).

Definition is_unspecified (a : Z) : bool := a =? 0.

Definition segment (v6 : list Z) (i : nat) : Z := nth i v6 0.

(** The first [n] segments are zero. *)
Definition zero_segments (n : nat) (v6 : list Z) : bool := forallb (Z.eqb 0) (firstn n v6).

Definition to_ipv4_mapped (v6 : list Z) : option Z :=
  if zero_segments 5 v6 && (segment v6 5 =? 65535)
  then Some (segment v6 6 * 65536 + segment v6 7) else None.

(** ** The blocked ranges *)

Definition is_blocked_ipv4 (v4 : Z) : bool :=
  is_loopback v4
  || is_private v4
  || is_link_local v4
  || is_broadcast v4
  || is_documentation v4
  || is_unspecified v4
  || (octet v4 0 =? 100) && (Z.land (octet v4 1) 192 =? 64)
  || (octet v4 0 =? 0).

Definition is_blocked_ipv6 (v6 : list Z) : bool :=
  zero_segments 7 v6 && (segment v6 7 =? 1)
  || zero_segments 8 v6
  || (Z.land (segment v6 0) 65024 =? 64512)
  || (Z.land (segment v6 0) 65472 =? 65152)
  || (segment v6 0 =? 100) && (segment v6 1 =? 65435) && (segment v6 2 =? 0) && (segment v6 3 =? 0)
     && (segment v6 4 =? 0) && (segment v6 5 =? 0)
  || (segment v6 0 =? 8194)
  || zero_segments 6 v6.

Definition is_blocked_ip (ip : Ip.IpAddr) : bool :=
  match ip with
  | Ip.V4 v4 => is_blocked_ipv4 v4
  | Ip.V6 v6 => match to_ipv4_mapped v6 with Some v4 => is_blocked_ipv4 v4 | None => is_blocked_ipv6 v6 end
  end.

(** ** The parsers of [core::net] *)

(** [char::to_digit] for a radix of at most 16. *)
Definition to_digit (radix : Z) (c : ascii) : option Z :=
  let d := if is_ascii_digit c then code c - 48
           else if in_range 97 102 c then code c - 87
           else if in_range 65 70 c then code c - 55 else radix in
  if d <? radix then Some d else None.

(** The digits read so far make [result]; [None] when a digit too many follows or the value
    does not fit. *)
Fixpoint read_digits (radix limit : Z) (max_digits count : nat) (result : Z) (s : string) : option (Z * nat * string) :=
  match s with
  | String c rest =>
      match to_digit radix c with
      | Some d =>
          let result' := result * radix + d in
          if limit <=? result' then None
          else if (max_digits <? S count)%nat then None
          else read_digits radix limit max_digits (S count) result' rest
      | None => Some (result, count, s)
      end
  | EmptyString => Some (result, count, s)
  end.

Definition read_number (radix limit : Z) (max_digits : nat) (allow_zero_prefix : bool) (s : string)
  : option (Z * string) :=
  match read_digits radix limit max_digits 0 0 s with
  | Some (result, count, rest) =>
      if (count =? 0)%nat then None
      else if negb allow_zero_prefix && starts_with s "0" && (1 <? count)%nat then None
      else Some (result, rest)
  | None => None
  end.

Definition read_given_char (c : ascii) (s : string) : option string :=
  match s with String d rest => if ascii_dec d c then Some rest else None | EmptyString => None end.

(** A separator before every element but the first. *)
Definition read_separator {A} (sep : ascii) (index : nat) (inner : string → option (A * string)) (s : string)
  : option (A * string) :=
  match index with
  | O => inner s
  | S _ => match read_given_char sep s with Some rest => inner rest | None => None end
  end.

Definition read_octet (index : nat) (s : string) : option (Z * string) :=
  read_separator "." index (read_number 10 256 3 false) s.

Definition read_ipv4_addr (s : string) : option (Z * string) :=
  match read_octet 0 s with
  | None => None
  | Some (a, s1) =>
      match read_octet 1 s1 with
      | None => None
      | Some (b, s2) =>
          match read_octet 2 s2 with
          | None => None
          | Some (c, s3) =>
              match read_octet 3 s3 with
              | None => None
              | Some (d, s4) => Some (((a * 256 + b) * 256 + c) * 256 + d, s4)
              end
          end
      end
  end.

(** [read_groups]: the groups, whether they end in an IPv4 address, and the rest.  One round
    per group that is left. *)
Fixpoint read_groups (left index : nat) (s : string) : list Z * bool * string :=
  match left with
  | O => ([], false, s)
  | S left' =>
      let group :=
        match read_separator ":" index (read_number 16 65536 4 true) s with
        | Some (g, rest) =>
            let '(gs, v4, rest') := read_groups left' (S index) rest in (g :: gs, v4, rest')
        | None => ([], false, s)
        end in
      match left' with
      | O => group
      | S _ =>
          match read_separator ":" index read_ipv4_addr s with
          | Some (a, rest) => ([Z.shiftr a 16; Z.land a 65535], true, rest)
          | None => group
          end
      end
  end.

Definition read_ipv6_addr (s : string) : option (list Z * string) :=
  let '(head, head_ipv4, s1) := read_groups 8 0 s in
  if (List.length head =? 8)%nat then Some (head, s1)
  else if head_ipv4 then None
  else
    match read_given_char ":" s1 with
    | None => None
    | Some s2 =>
        match read_given_char ":" s2 with
        | None => None
        | Some s3 =>
            let '(tail, _, s4) := read_groups (8 - (List.length head + 1)) 0 s3 in
            Some (head ++ repeat 0 (8 - List.length head - List.length tail)%nat ++ tail, s4)
        end
    end.

(** [parse_with]: nothing may be left. *)
Definition parse_with {A} (inner : string → option (A * string)) (s : string) : option A :=
  match inner s with Some (a, EmptyString) => Some a | _ => None end.

Definition parse_ipv6 (s : string) : option (list Z) := parse_with read_ipv6_addr s.

Definition parse_ip (s : string) : option Ip.IpAddr :=
  parse_with (λ s,
    match read_ipv4_addr s with
    | Some (a, rest) => Some (Ip.V4 a, rest)
    | None => match read_ipv6_addr s with Some (v6, rest) => Some (Ip.V6 v6, rest) | None => None end
    end) s.

(** ** Legacy spellings *)

Module LeadingZero.
Inductive t := Octal | Decimal.
End LeadingZero.

Definition two64 : Z := 18446744073709551616.

(** The wrapped accumulator, and the exact value while it fits. *)
Fixpoint accumulate (radix : Z) (low : Z) (exact : option Z) (s : string) : option (Z * option Z) :=
  match s with
  | EmptyString => Some (low, exact)
  | String c rest =>
      match to_digit radix c with
      | None => None
      | Some d =>
          accumulate radix ((low * radix mod two64 + d) mod two64)
            (match exact with
             | Some e => if e * radix <? two64 then if e * radix + d <? two64 then Some (e * radix + d) else None else None
             | None => None
             end) rest
      end
  end.

Definition hex_part (part : string) : option string :=
  match strip_prefix part "0x" with Some hex => Some hex | None => strip_prefix part "0X" end.

Definition parse_numeric_part (part : string) (mode : LeadingZero.t) (is_last : bool) : option (Z * bool) :=
  let '(digits, radix) :=
    match hex_part part with
    | Some hex => (hex, 16)
    | None =>
        match part with
        | String c (String _ _ as rest) =>
            if ascii_dec c "0" then match mode with LeadingZero.Octal => (rest, 8) | LeadingZero.Decimal => (part, 10) end
            else (part, 10)
        | _ => (part, 10)
        end
    end in
  if is_empty digits then if (radix =? 16) && negb is_last then Some (0, false) else None
  else match accumulate radix 0 (Some 0) digits with
       | Some (low, exact) => Some (low, match exact with Some e => 4294967295 <? e | None => true end)
       | None => None
       end.

(** Every part, the last one marked. *)
Fixpoint parse_parts (mode : LeadingZero.t) (parts : list string) : option (list (Z * bool)) :=
  match parts with
  | [] => Some []
  | p :: rest =>
      match parse_numeric_part p mode (match rest with [] => true | _ => false end) with
      | None => None
      | Some v => match parse_parts mode rest with Some vs => Some (v :: vs) | None => None end
      end
  end.

Definition all_decimal (parts : list string) : bool :=
  forallb (λ p, negb (is_empty p) && str_forallb is_ascii_digit p) parts.

(** The leading parts shifted into place over the last. *)
Fixpoint place_parts (shift : Z) (leading : list (Z * bool)) (value : Z) : Z :=
  match leading with
  | [] => value
  | (p, _) :: rest => place_parts (shift - 8) rest (Z.lor value (Z.shiftl p shift))
  end.

Definition compose_ipv4 (host : string) (mode : LeadingZero.t) : option (Z * bool) :=
  let parts := split_on "." host in
  let total := List.length parts in
  if match mode with
     | LeadingZero.Decimal => negb (all_decimal parts && ((total =? 1)%nat || (total =? 4)%nat))
     | LeadingZero.Octal => false
     end then None
  else if (4 <? total)%nat then None
  else
    match parse_parts mode parts with
    | None => None
    | Some [(low, big)] => Some (low mod 4294967296, big)
    | Some vs =>
        let leading := removelast vs in
        let last := fst (List.last vs (0, false)) in
        if existsb (λ p, 255 <? fst p) leading || (Z.shiftl 1 (8 * (5 - Z.of_nat total)) <=? last) then None
        else Some (place_parts 24 leading last mod 4294967296, false)
    end.

Definition option_list {A} (o : option A) : list A := match o with Some a => [a] | None => [] end.

Definition legacy_ipv4 (host : string) : option Z :=
  let octal := compose_ipv4 host LeadingZero.Octal in
  let decimal := compose_ipv4 host LeadingZero.Decimal in
  let readings := map fst (option_list octal ++ option_list decimal) in
  let truncated := existsb snd (option_list octal ++ option_list decimal) in
  match readings with
  | [] => None
  | first :: _ =>
      match find is_blocked_ipv4 readings with
      | Some blocked => Some blocked
      | None =>
          let disagree := existsb (λ a, negb (a =? first)) readings in
          let decimal_only_lone := match octal with None => lacks "." host | Some _ => false end in
          if truncated || disagree || decimal_only_lone then Some UNSPECIFIED else Some first
      end
  end.

Definition looks_like_ipv6_text (s : string) : bool :=
  if lacks ":" s || negb (str_forallb (λ c, is_ascii_hexdigit c || (code c =? 58) || (code c =? 46)) s) then false
  else
    negb match split_on ":" s with
         | [_; port] => negb (is_empty port) && str_forallb is_ascii_digit port
         | _ => false
         end.

(** The part after the zone has been looked at. *)
Definition without_zone (host : string) : option Ip.IpAddr :=
  if negb (str_forallb (λ c, negb (is_whitespace c)) host) then
    let head := fst (take_while (λ c, negb (is_whitespace c)) host) in
    match legacy_ipv4 head with
    | Some a => if is_blocked_ipv4 a then Some (Ip.V4 a) else None
    | None => None
    end
  else
    match parse_ip host with
    | Some ip => Some ip
    | None =>
        if looks_like_ipv6_text host then Some (Ip.V4 UNSPECIFIED)
        else match legacy_ipv4 host with Some a => Some (Ip.V4 a) | None => None end
    end.

Definition parse_ip_literal_inner (host : string) : option Ip.IpAddr :=
  match split_once "%" host with
  | Some (addr, _) =>
      if negb (lacks ":" addr) then
        match parse_ipv6 addr with
        | Some v6 => Some (Ip.V6 v6)
        | None => if looks_like_ipv6_text addr then Some (Ip.V4 UNSPECIFIED) else without_zone host
        end
      else without_zone host
  | None => without_zone host
  end.

(** What is left of a host without white space around it and one trailing dot. *)
Definition bare (host : string) : string :=
  let trimmed := trim host in default trimmed (strip_suffix_char "." trimmed).

Definition parse_ip_literal (host : string) : option Ip.IpAddr :=
  let inner := bare host in
  let non_canonical := negb (String.length inner =? String.length host)%nat in
  match parse_ip_literal_inner inner with
  | None => None
  | Some ip => if non_canonical && negb (is_blocked_ip ip) then Some (Ip.V4 UNSPECIFIED) else Some ip
  end.

Definition blocked_ip_literal (host : string) : option bool :=
  match parse_ip_literal host with Some ip => Some (is_blocked_ip ip) | None => None end.

(** ** Host texts *)

Definition strip_host_port (host : string) : string :=
  let host := trim host in
  match strip_prefix host "[" with
  | Some rest => match split_once "]" rest with Some (inner, _) => inner | None => rest end
  | None =>
      match rsplit_once ":" host with
      | Some (before, _) => if lacks ":" before then before else host
      | None => host
      end
  end.

Definition canonical_host (host : string) : string :=
  let no_port := strip_host_port host in
  to_ascii_lowercase (default no_port (strip_suffix_char "." no_port)).

(** ** Address literals are judged by every way they can be read

    The blocked IPv4 ranges as networks; a host reported as a public address has no other
    reading; the host text the egress checks compare is the host of the authority.  Then
    the addresses the ranges leave out. *)

#[local] Arguments ascii_dec : simpl never.

(** ** The ranges as networks *)

Definition quad (a b c d : Z) : Z := ((a * 256 + b) * 256 + c) * 256 + d.

(** [a] is in the network of [net] with a prefix of [len] bits. *)
Definition in_net (a net len : Z) : bool := a / 2 ^ (32 - len) =? net / 2 ^ (32 - len).

Definition BLOCKED_NETS : list (Z * Z) :=
  [ (quad 0 0 0 0, 8); (quad 10 0 0 0, 8); (quad 100 64 0 0, 10); (quad 127 0 0 0, 8); (quad 169 254 0 0, 16);
    (quad 172 16 0 0, 12); (quad 192 0 2 0, 24); (quad 192 168 0 0, 16); (quad 198 51 100 0, 24);
    (quad 203 0 113 0, 24); (quad 255 255 255 255, 32) ].

Lemma octet_div a i : 0 ≤ i ≤ 3 → octet a i = (a / 2 ^ (8 * (3 - i))) mod 256.
Proof.
  intros Hi. unfold octet. rewrite Z.shiftr_div_pow2 by lia. change 255 with (Z.ones 8). by rewrite Z.land_ones by lia.
Qed.

Lemma land_192 b : 0 ≤ b < 256 → (Z.land b 192 =? 64) = (64 <=? b) && (b <? 128).
Proof.
  intros Hb.
  assert (forallb (λ n, Bool.eqb (Z.land (Z.of_nat n) 192 =? 64) ((64 <=? Z.of_nat n) && (Z.of_nat n <? 128)))
            (seq 0 256) = true) as Hall by (vm_compute; reflexivity).
  rewrite forallb_forall in Hall. specialize (Hall (Z.to_nat b)). rewrite Z2Nat.id in Hall by lia.
  apply eqb_prop, Hall, in_seq. lia.
Qed.

Lemma quad_octets a : 0 ≤ a < 2 ^ 32 →
  ∃ o0 o1 o2 o3, a = quad o0 o1 o2 o3 ∧ 0 ≤ o0 < 256 ∧ 0 ≤ o1 < 256 ∧ 0 ≤ o2 < 256 ∧ 0 ≤ o3 < 256.
Proof.
  intros Ha. exists (a / 16777216), (a / 65536 mod 256), (a / 256 mod 256), (a mod 256). unfold quad.
  Z.div_mod_to_equations. lia.
Qed.

Section Octets.
Context (o0 o1 o2 o3 : Z).
Context (H0 : 0 ≤ o0 < 256) (H1 : 0 ≤ o1 < 256) (H2 : 0 ≤ o2 < 256) (H3 : 0 ≤ o3 < 256).
Let a := quad o0 o1 o2 o3.

Lemma quad_octet :
  octet a 0 = o0 ∧ octet a 1 = o1 ∧ octet a 2 = o2 ∧ octet a 3 = o3.
Proof. rewrite !octet_div by lia. unfold a, quad. cbn -[Z.div Z.modulo Z.mul Z.add]. Z.div_mod_to_equations. lia. Qed.

Lemma quad_div :
  a / 2 ^ (32 - 8) = o0 ∧ a / 2 ^ (32 - 10) = o0 * 4 + o1 / 64 ∧ a / 2 ^ (32 - 12) = o0 * 16 + o1 / 16 ∧
  a / 2 ^ (32 - 16) = o0 * 256 + o1 ∧ a / 2 ^ (32 - 24) = (o0 * 256 + o1) * 256 + o2 ∧ a / 2 ^ (32 - 32) = a.
Proof. unfold a, quad. cbn -[Z.div Z.modulo Z.mul Z.add]. split_and!; Z.div_mod_to_equations; lia. Qed.
End Octets.

(** The IPv4 addresses that are refused are exactly those of eleven networks. *)
Theorem blocked_v4_exact a :
  0 ≤ a < 2 ^ 32 → is_blocked_ipv4 a = existsb (λ n, in_net a (fst n) (snd n)) BLOCKED_NETS.
Proof.
  intros Ha. destruct (quad_octets a Ha) as (o0 & o1 & o2 & o3 & -> & H0 & H1 & H2 & H3).
  destruct (quad_octet o0 o1 o2 o3 H0 H1 H2 H3) as (E0 & E1 & E2 & E3).
  destruct (quad_div o0 o1 o2 o3 H0 H1 H2 H3) as (D8 & D10 & D12 & D16 & D24 & D32).
  unfold is_blocked_ipv4, is_loopback, is_private, is_link_local, is_broadcast, is_documentation, is_unspecified.
  rewrite E0, E1, E2, land_192 by done. unfold in_net, BLOCKED_NETS. cbn [existsb fst snd].
  rewrite D8, D10, D12, D16, D24, D32. apply Bool.eq_iff_eq_true.
  rewrite !orb_true_iff, !andb_true_iff, !Z.eqb_eq, !Z.leb_le, !Z.ltb_lt.
  assert (quad o0 o1 o2 o3 = 0 → o0 = 0) as U by (unfold quad; lia).
  assert (0 ≤ o1 / 64 < 4 ∧ (o1 / 64 = 1 ↔ 64 ≤ o1 < 128)) as [R64 C64] by (Z.div_mod_to_equations; lia).
  assert (0 ≤ o1 / 16 < 16 ∧ (o1 / 16 = 1 ↔ 16 ≤ o1 ∧ o1 ≤ 31)) as [R16 C16] by (Z.div_mod_to_equations; lia).
  repeat match goal with
         | |- context [quad ?a ?b ?c ?d / 2 ^ (32 - ?l)] =>
             let v := eval vm_compute in (quad a b c d / 2 ^ (32 - l)) in change (quad a b c d / 2 ^ (32 - l)) with v
         end.
  assert (o0 * 4 + o1 / 64 = 401 ↔ o0 = 100 ∧ 64 ≤ o1 < 128) as -> by lia.
  assert (o0 * 16 + o1 / 16 = 2753 ↔ o0 = 172 ∧ 16 ≤ o1 ∧ o1 ≤ 31) as -> by lia.
  assert (o0 * 256 + o1 = 43518 ↔ o0 = 169 ∧ o1 = 254) as -> by lia.
  assert (o0 * 256 + o1 = 49320 ↔ o0 = 192 ∧ o1 = 168) as -> by lia.
  assert ((o0 * 256 + o1) * 256 + o2 = 12582914 ↔ (o0 = 192 ∧ o1 = 0) ∧ o2 = 2) as -> by lia.
  assert ((o0 * 256 + o1) * 256 + o2 = 12989284 ↔ (o0 = 198 ∧ o1 = 51) ∧ o2 = 100) as -> by lia.
  assert ((o0 * 256 + o1) * 256 + o2 = 13303921 ↔ (o0 = 203 ∧ o1 = 0) ∧ o2 = 113) as -> by lia.
  split; [tauto|]. intros Hin. decompose [or] Hin; try tauto; discriminate.
Qed.

(** The metadata address is blocked, the next network is not. *)
Lemma blocked_v4_exact_witness :
  is_blocked_ipv4 (quad 169 254 169 254) = existsb (λ n, in_net (quad 169 254 169 254) (fst n) (snd n)) BLOCKED_NETS ∧
  is_blocked_ipv4 (quad 169 255 0 0) = existsb (λ n, in_net (quad 169 255 0 0) (fst n) (snd n)) BLOCKED_NETS ∧
  is_blocked_ipv4 (quad 169 254 169 254) = true ∧ is_blocked_ipv4 (quad 169 255 0 0) = false.
Proof.
  split; [apply (blocked_v4_exact (quad 169 254 169 254)); vm_compute; split; congruence|].
  split; [apply (blocked_v4_exact (quad 169 255 0 0)); vm_compute; split; congruence|]. by vm_compute.
Defined.

(** ** What the parsers read *)

(** [s] is [rest] after characters of the class. *)
Definition eats (class : ascii → bool) (s rest : string) : Prop :=
  ∃ x, s = String.append x rest ∧ str_forallb class x = true.

Lemma eats_refl class s : eats class s s.
Proof. by exists EmptyString. Qed.

Lemma eats_trans class s s1 s2 : eats class s s1 → eats class s1 s2 → eats class s s2.
Proof.
  intros (x & -> & Hx) (y & -> & Hy). exists (String.append x y). by rewrite append_assoc, str_forallb_app, Hx, Hy.
Qed.

Lemma eats_cons class c s rest : class c = true → eats class s rest → eats class (String c s) rest.
Proof. intros Hc (x & -> & Hx). exists (String c x). cbn. by rewrite Hc, Hx. Qed.

Lemma eats_class (p q : ascii → bool) s rest : (∀ c, p c = true → q c = true) → eats p s rest → eats q s rest.
Proof. intros Hpq (x & -> & Hx). exists x. split; [done|]. by eapply str_forallb_mono. Qed.

Lemma eats_lacks class sep s rest : eats class s rest → lacks sep s = true → lacks sep rest = true.
Proof. intros (x & -> & _). rewrite lacks_app. by intros [_ ?]%andb_true_iff. Qed.

Lemma eats_all class s : eats class s EmptyString → str_forallb class s = true.
Proof. intros (x & -> & Hx). by rewrite append_nil_r. Qed.

Lemma in_range_spec lo hi c : in_range lo hi c = true ↔ lo ≤ code c ≤ hi.
Proof. unfold in_range. rewrite andb_true_iff, !Z.leb_le. done. Qed.

Lemma to_digit_Some radix c d :
  to_digit radix c = Some d →
  0 ≤ d < radix ∧ is_ascii_hexdigit c = true ∧ (radix ≤ 10 → is_ascii_digit c = true ∧ d = code c - 48).
Proof.
  unfold to_digit, is_ascii_hexdigit.
  destruct (is_ascii_digit c) eqn:H1; [|destruct (in_range 97 102 c) eqn:H2; [|destruct (in_range 65 70 c) eqn:H3]];
    destruct (_ <? _) eqn:Hlt; try discriminate; rewrite Z.ltb_lt in Hlt; intros [= <-].
  - unfold is_ascii_digit in H1. apply in_range_spec in H1. cbn. split_and!; try lia; done.
  - apply in_range_spec in H2. rewrite orb_true_r. split_and!; try done; lia.
  - apply in_range_spec in H3. rewrite !orb_true_r. split_and!; try done; lia.
  - lia.
Qed.

Definition addr_char (c : ascii) : bool := is_ascii_hexdigit c || (code c =? 58) || (code c =? 46).

Lemma hex_addr_char c : is_ascii_hexdigit c = true → addr_char c = true.
Proof. unfold addr_char. by intros ->. Qed.

Lemma read_digits_eats radix limit m n r s v k rest :
  read_digits radix limit m n r s = Some (v, k, rest) → eats is_ascii_hexdigit s rest.
Proof.
  revert n r. induction s as [|c s IH]; intros n r; cbn [read_digits].
  - intros [= <- <- <-]. apply eats_refl.
  - destruct (to_digit radix c) as [d|] eqn:Hd; [|intros [= <- <- <-]; apply eats_refl].
    destruct (limit <=? r * radix + d); [done|]. destruct (m <? S n)%nat; [done|].
    intros Hrec.
    apply to_digit_Some in Hd as (_ & Hx & _). apply eats_cons; [done|by eapply IH].
Qed.

Lemma read_number_eats radix limit m z s v rest :
  read_number radix limit m z s = Some (v, rest) → eats addr_char s rest.
Proof.
  unfold read_number. destruct (read_digits radix limit m 0 0 s) as [[[r k] rest']|] eqn:Hd; [|done].
  destruct (k =? 0)%nat; [done|]. destruct (_ && _); [done|]. intros [= <- <-].
  eapply eats_class; [apply hex_addr_char|]. by eapply read_digits_eats.
Qed.

Lemma read_given_char_eats class c s rest : class c = true → read_given_char c s = Some rest → eats class s rest.
Proof.
  intros Hc. destruct s as [|d s]; [done|]. cbn. destruct (ascii_dec d c) as [->|]; [|done]. intros [= ->].
  apply eats_cons; [done|apply eats_refl].
Qed.

Lemma read_separator_eats {A} class sep i (inner : string → option (A * string)) s a rest :
  class sep = true → (∀ s a rest, inner s = Some (a, rest) → eats class s rest) →
  read_separator sep i inner s = Some (a, rest) → eats class s rest.
Proof.
  intros Hsep Hin. destruct i; cbn; [apply Hin|]. destruct (read_given_char sep s) as [s'|] eqn:Hs; [|done].
  intros Ha. eapply eats_trans; [by eapply read_given_char_eats|by eapply Hin].
Qed.

Lemma read_octet_eats i s v rest : read_octet i s = Some (v, rest) → eats addr_char s rest.
Proof.
  apply read_separator_eats; [done|]. intros ? ? ?. by apply read_number_eats.
Qed.

Lemma read_ipv4_eats s a rest : read_ipv4_addr s = Some (a, rest) → eats addr_char s rest.
Proof.
  unfold read_ipv4_addr.
  destruct (read_octet 0 s) as [[x0 s0]|] eqn:H0; [|discriminate].
  destruct (read_octet 1 s0) as [[x1 s1]|] eqn:H1; [|discriminate].
  destruct (read_octet 2 s1) as [[x2 s2]|] eqn:H2; [|discriminate].
  destruct (read_octet 3 s2) as [[x3 s3]|] eqn:H3; [|discriminate].
  apply read_octet_eats in H0, H1, H2, H3. intros [= _ <-]. eauto using eats_trans.
Qed.

Lemma read_groups_eats n i s gs v4 rest : read_groups n i s = (gs, v4, rest) → eats addr_char s rest.
Proof.
  revert i s gs v4 rest. induction n as [|n IH]; intros i s gs v4 rest; cbn; [intros [= _ _ <-]; apply eats_refl|].
  assert (match read_separator ":" i (read_number 16 65536 4 true) s with
          | Some (g, rest) => let '(gs, v4, rest') := read_groups n (S i) rest in (g :: gs, v4, rest')
          | None => ([], false, s)
          end = (gs, v4, rest) → eats addr_char s rest) as Hgroup.
  { destruct (read_separator ":" i (read_number 16 65536 4 true) s) as [[g s1]|] eqn:Hg; [|intros [= _ _ <-]; apply eats_refl].
    destruct (read_groups n (S i) s1) as [[gs' v4'] s2] eqn:Hrec. intros [= _ _ <-].
    eapply eats_trans; [|by eapply IH]. eapply read_separator_eats; [| |exact Hg]; [done|].
    intros ? ? ?. by apply read_number_eats. }
  destruct n; [done|]. destruct (read_separator ":" i read_ipv4_addr s) as [[a s1]|] eqn:Ha; [|done].
  intros [= _ _ <-]. eapply read_separator_eats; [| |exact Ha]; [done|]. intros ? ? ?. apply read_ipv4_eats.
Qed.

Lemma read_ipv6_eats s v6 rest : read_ipv6_addr s = Some (v6, rest) → eats addr_char s rest.
Proof.
  unfold read_ipv6_addr. destruct (read_groups 8 0 s) as [[head h4] s1] eqn:H1. apply read_groups_eats in H1.
  destruct (_ =? _)%nat; [by intros [= _ <-]|]. destruct h4; [done|].
  destruct (read_given_char ":" s1) as [s2|] eqn:H2; [|done]. destruct (read_given_char ":" s2) as [s3|] eqn:H3; [|done].
  destruct (read_groups _ 0 s3) as [[tail t4] s4] eqn:H4. intros [= _ <-].
  eapply eats_trans; [exact H1|]. eapply eats_trans; [by eapply (read_given_char_eats addr_char ":")|].
  eapply eats_trans; [by eapply (read_given_char_eats addr_char ":")|]. by eapply read_groups_eats.
Qed.

Lemma parse_ip_chars s ip : parse_ip s = Some ip → str_forallb addr_char s = true.
Proof.
  unfold parse_ip, parse_with. destruct (read_ipv4_addr s) as [[a r]|] eqn:H4.
  - destruct r; [|done]. intros _. apply eats_all. by eapply read_ipv4_eats.
  - destruct (read_ipv6_addr s) as [[v r]|] eqn:H6; [|done]. destruct r; [|done]. intros _. apply eats_all. by eapply read_ipv6_eats.
Qed.

Lemma read_given_char_lacks c s : lacks c s = true → read_given_char c s = None.
Proof.
  unfold lacks. destruct s as [|d s]; [done|]. cbn. by destruct (ascii_dec d c).
Qed.

Lemma read_ipv6_colon s : lacks ":" s = true → read_ipv6_addr s = None.
Proof.
  intros Hs. assert (∀ n s, lacks ":" s = true → read_groups n 1 s = ([], false, s)) as Hone.
  { intros n t Ht. destruct n as [|n]; [done|]. cbn [read_groups read_separator].
    rewrite read_given_char_lacks by done. by destruct n. }
  assert (∃ gs v4 rest, read_groups 8 0 s = (gs, v4, rest) ∧ lacks ":" rest = true ∧ List.length gs ≠ 8%nat)
    as (gs & v4 & rest & Hg & Hr & Hl).
  { cbn [read_groups]. fold (read_groups 6 1). change (read_separator ":" 0 read_ipv4_addr s) with (read_ipv4_addr s).
    destruct (read_ipv4_addr s) as [[a s1]|] eqn:Ha.
    - do 3 eexists. split; [reflexivity|]. split; [|done]. eapply eats_lacks; [by eapply read_ipv4_eats|done].
    - change (read_separator ":" 0 (read_number 16 65536 4 true) s) with (read_number 16 65536 4 true s).
      destruct (read_number 16 65536 4 true s) as [[g s1]|] eqn:Hn; [|by exists [], false, s].
      assert (lacks ":" s1 = true) as Hs1 by (eapply eats_lacks; [by eapply read_number_eats|done]).
      pose proof (Hone 7%nat s1 Hs1) as H7. cbn [read_groups] in H7. rewrite H7. by exists [g], false, s1. }
  unfold read_ipv6_addr. rewrite Hg. destruct (Nat.eqb_spec (List.length gs) 8); [done|]. destruct v4; [done|].
  by rewrite read_given_char_lacks.
Qed.

(** ** The strict reading is one of the legacy readings *)

Definition small_digits (r : Z) (ds : string) (v : Z) : Prop :=
  accumulate 10 r (Some r) ds = Some (v, Some v) ∧ 0 ≤ v < 256.

Lemma read_digits_decimal m n r s v k rest :
  0 ≤ r < 256 → read_digits 10 256 m n r s = Some (v, k, rest) →
  ∃ ds, s = String.append ds rest ∧ str_forallb is_ascii_digit ds = true ∧
    (k = n + String.length ds)%nat ∧ small_digits r ds v.
Proof.
  revert n r. induction s as [|c s IH]; intros n r Hr; cbn [read_digits].
  - intros [= <- <- <-]. exists EmptyString. split_and!; [done..|cbn; lia|by split].
  - destruct (to_digit 10 c) as [d|] eqn:Hd.
    2: { intros [= <- <- <-]. exists EmptyString. split_and!; [done..|cbn; lia|by split]. }
    destruct (256 <=? r * 10 + d) eqn:Hlim; [done|]. destruct (m <? S n)%nat; [done|]. rewrite Z.leb_gt in Hlim.
    pose proof (to_digit_Some _ _ _ Hd) as (Hdr & _ & Hdig). destruct (Hdig ltac:(lia)) as [Hc _].
    intros (ds & -> & Hds & -> & Hacc & Hv)%IH; [|lia]. exists (String c ds). cbn [append str_forallb String.length].
    rewrite Hc, Hds. split_and!; [done..|lia|]. split; [|done]. cbn [accumulate]. rewrite Hd.
    unfold two64. rewrite !Z.mod_small by (rewrite ?Z.mod_small; lia).
    destruct (Z.ltb_spec (r * 10) 18446744073709551616); [|lia].
    destruct (Z.ltb_spec (r * 10 + d) 18446744073709551616); [|lia]. done.
Qed.

(** A decimal octet as the strict grammar has it. *)
Record octet_text (ds : string) (v : Z) : Prop := {
  ot_digits : str_forallb is_ascii_digit ds = true;
  ot_value : small_digits 0 ds v;
  ot_some : is_empty ds = false;
  ot_zero : starts_with ds "0" = true → String.length ds = 1%nat;
}.

Lemma starts_with_zero_app ds rest : is_empty ds = false → starts_with (String.append ds rest) "0" = starts_with ds "0".
Proof. destruct ds as [|c ds]; [done|]. intros _. cbn. by destruct (ascii_dec _ c), ds, rest. Qed.

Lemma read_number_octet s v rest :
  read_number 10 256 3 false s = Some (v, rest) → ∃ ds, s = String.append ds rest ∧ octet_text ds v.
Proof.
  unfold read_number. destruct (read_digits 10 256 3 0 0 s) as [[[r k] rest']|] eqn:Hd; [|done].
  apply read_digits_decimal in Hd as (ds & -> & Hds & -> & Hv); [|lia]. cbn [Nat.add].
  destruct (Nat.eqb_spec (String.length ds) 0) as [|Hne]; [done|].
  assert (is_empty ds = false) as He by (by destruct ds). rewrite starts_with_zero_app by done. cbn [negb andb].
  destruct (starts_with ds "0" && (1 <? String.length ds)%nat) eqn:Hz; [done|]. intros [= <- <-]. exists ds.
  split; [done|]. split; [done..|]. intros Hs. rewrite Hs in Hz. cbn [andb] in Hz. apply Nat.ltb_ge in Hz. lia.
Qed.

Lemma read_ipv4_text s a :
  read_ipv4_addr s = Some (a, EmptyString) →
  ∃ d0 d1 d2 d3 v0 v1 v2 v3, split_on "." s = [d0; d1; d2; d3] ∧ a = quad v0 v1 v2 v3 ∧
    octet_text d0 v0 ∧ octet_text d1 v1 ∧ octet_text d2 v2 ∧ octet_text d3 v3.
Proof.
  assert (∀ i s v rest, read_octet (S i) s = Some (v, rest) →
            ∃ ds, s = String "." (String.append ds rest) ∧ octet_text ds v) as Hnext.
  { intros i t v rest. unfold read_octet. cbn [read_separator]. destruct t as [|c t]; [done|]. cbn [read_given_char].
    destruct (ascii_dec c ".") as [->|]; [|done]. intros (ds & -> & Hds)%read_number_octet. by exists ds. }
  unfold read_ipv4_addr.
  destruct (read_octet 0 s) as [[x0 s0]|] eqn:H0; [|discriminate].
  destruct (read_octet 1 s0) as [[x1 s1]|] eqn:H1; [|discriminate].
  destruct (read_octet 2 s1) as [[x2 s2]|] eqn:H2; [|discriminate].
  destruct (read_octet 3 s2) as [[x3 s3]|] eqn:H3; [|discriminate]. intros [= <- ->].
  apply read_number_octet in H0 as (d0 & -> & O0).
  apply Hnext in H1 as (d1 & -> & O1). apply Hnext in H2 as (d2 & -> & O2). apply Hnext in H3 as (d3 & -> & O3).
  exists d0, d1, d2, d3, x0, x1, x2, x3. split_and!; try done.
  assert (∀ ds v, octet_text ds v → lacks "." ds = true) as Hlack.
  { intros ds v Ho. eapply (lacks_class is_ascii_digit); [done|apply Ho]. }
  rewrite append_nil_r. rewrite !split_on_app by eauto. by rewrite split_on_lone by eauto.
Qed.

Lemma numeric_octet ds v mode is_last : octet_text ds v → parse_numeric_part ds mode is_last = Some (v, false).
Proof.
  intros [Hd [Hacc Hv] He Hz]. unfold parse_numeric_part.
  assert (hex_part ds = None) as ->.
  { unfold hex_part. destruct (strip_prefix ds "0x") as [r|] eqn:H1.
    - apply strip_prefix_Some in H1 as ->. done.
    - destruct (strip_prefix ds "0X") as [r|] eqn:H2; [|done]. apply strip_prefix_Some in H2 as ->. done. }
  destruct ds as [|c [|c' ds]]; [done| |].
  - cbn [is_empty]. rewrite Hacc. destruct (Z.ltb_spec 4294967295 v); [lia|done].
  - destruct (ascii_dec c "0") as [->|Hc].
    + exfalso. assert (String.length (String "0" (String c' ds)) = 1%nat) as Hl by (by apply Hz). by cbn in Hl.
    + cbn [is_empty]. rewrite Hacc. destruct (Z.ltb_spec 4294967295 v); [lia|done].
Qed.

Lemma lor_high k hi lo : 0 ≤ k → 0 ≤ lo < 2 ^ k → Z.lor (Z.shiftl hi k) lo = hi * 2 ^ k + lo.
Proof.
  intros Hk Hlo. rewrite <-Z.shiftl_mul_pow2 by done.
  assert (Z.land (Z.shiftl hi k) lo = 0) as Hland.
  { apply Z.bits_inj'. intros n Hn. rewrite Z.land_spec, Z.bits_0, Z.shiftl_spec by done.
    destruct (Z.lt_ge_cases n k); [by rewrite Z.testbit_neg_r by lia|].
    rewrite <-(Z.mod_small lo (2 ^ k)) by done. rewrite Z.mod_pow2_bits_high by lia. apply andb_false_r. }
  rewrite <-Z.lxor_lor by done. by rewrite <-Z.add_nocarry_lxor.
Qed.

Lemma place_quad v0 v1 v2 v3 b0 b1 b2 :
  0 ≤ v1 < 256 → 0 ≤ v2 < 256 → 0 ≤ v3 < 256 →
  place_parts 24 [(v0, b0); (v1, b1); (v2, b2)] v3 = quad v0 v1 v2 v3.
Proof.
  intros H1 H2 H3. cbn [place_parts]. change (24 - 8) with 16. change (16 - 8) with 8.
  assert (∀ x y z w, Z.lor (Z.lor (Z.lor w x) y) z = Z.lor x (Z.lor y (Z.lor z w))) as ->
    by (intros; apply Z.bits_inj; intro; rewrite !Z.lor_spec; btauto).
  rewrite (lor_high 8) by lia. rewrite (lor_high 16) by lia. rewrite (lor_high 24) by lia. unfold quad. lia.
Qed.

Lemma quad_range v0 v1 v2 v3 :
  0 ≤ v0 < 256 → 0 ≤ v1 < 256 → 0 ≤ v2 < 256 → 0 ≤ v3 < 256 → 0 ≤ quad v0 v1 v2 v3 < 4294967296.
Proof. unfold quad. lia. Qed.

Lemma strict_is_legacy s a mode : read_ipv4_addr s = Some (a, EmptyString) → compose_ipv4 s mode = Some (a, false).
Proof.
  intros (d0 & d1 & d2 & d3 & v0 & v1 & v2 & v3 & Hs & -> & O0 & O1 & O2 & O3)%read_ipv4_text.
  unfold compose_ipv4. rewrite Hs. cbn [List.length].
  assert (all_decimal [d0; d1; d2; d3] = true) as Hall.
  { unfold all_decimal. cbn [forallb]. destruct O0, O1, O2, O3.
    repeat match goal with H : is_empty _ = false |- _ => rewrite H; clear H
           | H : str_forallb is_ascii_digit _ = true |- _ => rewrite H; clear H end. done. }
  rewrite Hall. cbn [parse_parts]. erewrite !numeric_octet by done.
  pose proof (ot_value _ _ O0) as [_ ?]. pose proof (ot_value _ _ O1) as [_ ?].
  pose proof (ot_value _ _ O2) as [_ ?]. pose proof (ot_value _ _ O3) as [_ ?].
  cbn [removelast List.last fst existsb andb orb negb Nat.eqb Nat.ltb Nat.leb].
  destruct (Z.ltb_spec 255 v0); [lia|]. destruct (Z.ltb_spec 255 v1); [lia|]. destruct (Z.ltb_spec 255 v2); [lia|].
  change (Z.shiftl 1 (8 * (5 - Z.of_nat 4))) with 256. destruct (Z.leb_spec 256 v3); [lia|].
  rewrite place_quad by done. rewrite Z.mod_small by (by apply quad_range). by destruct mode.
Qed.

(** ** The characters of a legacy spelling *)

Definition legacy_char (c : ascii) : bool := is_ascii_hexdigit c || (code c =? 120) || (code c =? 88) || (code c =? 46).

Lemma accumulate_chars radix low exact s r :
  accumulate radix low exact s = Some r → str_forallb legacy_char s = true.
Proof.
  revert low exact. induction s as [|c s IH]; intros low exact; cbn [accumulate]; [done|].
  destruct (to_digit radix c) as [d|] eqn:Hd; [|done]. intros Hr%IH. cbn. rewrite Hr, andb_true_r.
  apply to_digit_Some in Hd as (_ & Hx & _). unfold legacy_char. by rewrite Hx.
Qed.

Lemma numeric_part_chars part mode is_last v :
  parse_numeric_part part mode is_last = Some v → str_forallb legacy_char part = true.
Proof.
  assert (∀ digits radix (k : Z * option Z → option (Z * bool)) v,
    (if is_empty digits then if (radix =? 16) && negb is_last then Some (0, false) else None
     else match accumulate radix 0 (Some 0) digits with Some r => k r | None => None end) = Some v →
    str_forallb legacy_char digits = true) as Hdigits.
  { intros digits radix k w. destruct digits as [|c digits]; [done|]. cbn [is_empty].
    destruct (accumulate _ _ _ _) as [r|] eqn:Ha; [|done]. intros _. by eapply accumulate_chars. }
  unfold parse_numeric_part. set (k := λ r : Z * option Z, let '(low, exact) := r in
    Some (low, match exact with Some e => 4294967295 <? e | None => true end)).
  assert (∀ o : option (Z * option Z), match o with Some (low, exact) =>
    Some (low, match exact with Some e => 4294967295 <? e | None => true end) | None => None end
    = match o with Some r => k r | None => None end) as Hk by (by intros [[]|]).
  destruct (hex_part part) as [hex|] eqn:Hh.
  - rewrite Hk. intros Hd%Hdigits. unfold hex_part in Hh. destruct (strip_prefix part "0x") as [r|] eqn:H1.
    + apply strip_prefix_Some in H1. injection Hh as ->. subst part. cbn. by rewrite Hd.
    + apply strip_prefix_Some in Hh. subst part. cbn. by rewrite Hd.
  - destruct part as [|c [|c' rest]]; [done| |].
    + rewrite Hk. intros Hd. apply Hdigits in Hd. exact Hd.
    + destruct (ascii_dec c "0") as [->|]; [destruct mode|]; rewrite Hk; intros Hd; apply Hdigits in Hd; try exact Hd.
Qed.

Lemma parse_parts_chars mode parts vs :
  parse_parts mode parts = Some vs → Forall (λ p, str_forallb legacy_char p = true) parts.
Proof.
  revert vs. induction parts as [|p parts IH]; intros vs; cbn [parse_parts]; [by constructor|].
  destruct (parse_numeric_part p mode _) as [v|] eqn:Hv; [|done]. destruct (parse_parts mode parts) as [ws|]; [|done].
  intros _. constructor; [by eapply numeric_part_chars|by eapply IH].
Qed.

Lemma split_on_chars (p : ascii → bool) sep s :
  p sep = true → Forall (λ part, str_forallb p part = true) (split_on sep s) → str_forallb p s = true.
Proof.
  intros Hsep. induction s as [|c s IH]; [done|]. cbn [split_on]. destruct (ascii_dec c sep) as [->|].
  - intros Hf. inversion Hf; subst. cbn. rewrite Hsep. auto.
  - pose proof (split_on_ne sep s). destruct (split_on sep s) as [|x xs]; [done|]. intros Hf. inversion Hf as [|? ? Hx Hxs]; subst.
    cbn in Hx. apply andb_true_iff in Hx as [Hc Hx]. cbn. rewrite Hc. apply IH. by constructor.
Qed.

Lemma compose_chars host mode r : compose_ipv4 host mode = Some r → str_forallb legacy_char host = true.
Proof.
  unfold compose_ipv4. destruct (match mode with LeadingZero.Octal => false | _ => _ end); [done|].
  destruct (4 <? _)%nat; [done|]. destruct (parse_parts mode (split_on "." host)) as [vs|] eqn:Hp; [|done]. intros _.
  apply (split_on_chars _ "."); [done|]. by eapply parse_parts_chars.
Qed.

(** ** A trimmed text of the same length is the same text *)

Lemma trim_end_prefix s : ∃ t, s = String.append (trim_end s) t.
Proof.
  induction s as [|c s IH]; [by exists EmptyString|]. destruct IH as [t Ht]. cbn [trim_end].
  destruct (trim_end s) as [|d r].
  - cbn in Ht. destruct (is_whitespace c); [by exists (String c s)|]. by exists s.
  - exists t. cbn in *. by rewrite <-Ht.
Qed.

Lemma bare_part host : ∃ x y, host = String.append x (String.append (bare host) y).
Proof.
  unfold bare, trim. set (r := snd (take_while is_whitespace host)).
  assert (∃ x, host = String.append x r) as [x Hx].
  { clear. unfold r. induction host as [|c s IH]; [by exists EmptyString|]. cbn.
    destruct (is_whitespace c); [|by exists EmptyString]. destruct (take_while is_whitespace s) as [w rest] eqn:Hw.
    destruct IH as [x IH]. exists (String c x). cbn in *. by rewrite <-IH. }
  destruct (trim_end_prefix r) as [t Ht]. destruct (strip_suffix_char "." (trim_end r)) as [u|] eqn:Hu; cbn [default].
  - apply strip_suffix_char_Some in Hu. exists x, (String "." t). rewrite Hx at 1. rewrite Ht, Hu, append_assoc. done.
  - exists x, t. by rewrite <-Ht.
Qed.

Lemma bare_same_length host : String.length (bare host) = String.length host → bare host = host.
Proof.
  destruct (bare_part host) as (x & y & Hh). intros Hl. rewrite Hh in Hl at 2. rewrite !append_length in Hl.
  destruct x; [|cbn in Hl; lia]. destruct y; [|cbn in Hl; lia]. cbn in Hh. by rewrite append_nil_r in Hh.
Qed.

(** ** Every reading of a literal is judged *)

Lemma addr_char_plain c : addr_char c = true → negb (is_whitespace c) = true ∧ c ≠ "%"%char.
Proof. by destruct c as [[] [] [] [] [] [] [] []]. Qed.

Lemma legacy_char_plain c : legacy_char c = true → negb (is_whitespace c) = true ∧ c ≠ "%"%char ∧ c ≠ ":"%char.
Proof. by destruct c as [[] [] [] [] [] [] [] []]. Qed.

Lemma split_once_None sep s : lacks sep s = true → split_once sep s = None.
Proof.
  unfold lacks. induction s as [|c s IH]; [done|]. cbn [split_once str_forallb].
  destruct (ascii_dec c sep); [done|]. intros H. by rewrite IH.
Qed.

Lemma strict_read s ip : parse_ip s = Some ip → parse_ip_literal_inner s = Some ip.
Proof.
  intros Hp. pose proof (parse_ip_chars _ _ Hp) as Hc. unfold parse_ip_literal_inner.
  rewrite split_once_None by (by apply (lacks_class addr_char)). unfold without_zone.
  rewrite (str_forallb_mono addr_char) by (done || (intros c Hx; by apply addr_char_plain)). by rewrite Hp.
Qed.

Lemma legacy_has_reading s m r : compose_ipv4 s m = Some r →
  ∃ a, legacy_ipv4 s = Some a ∧ (is_blocked_ipv4 a = false → r = (a, false)).
Proof.
  intros Hr. unfold legacy_ipv4.
  destruct (compose_ipv4 s LeadingZero.Octal) as [[oa ot]|] eqn:Ho, (compose_ipv4 s LeadingZero.Decimal) as [[da dt]|] eqn:Hd;
    cbn [option_list app map fst snd existsb find]; destruct m; rewrite Hr in *; simplify_eq.
  all: repeat match goal with |- context [if is_blocked_ipv4 ?a then _ else _] =>
         destruct (is_blocked_ipv4 a) eqn:?; [by exists a; split; [done|congruence]|] end.
  all: match goal with |- context [if ?b then Some UNSPECIFIED else _] => destruct b eqn:Hb end;
       [by exists UNSPECIFIED|].
  all: eexists; split; [done|intros _]; repeat setoid_rewrite orb_false_iff in Hb;
       rewrite ?negb_false_iff, ?Z.eqb_eq in Hb; destruct_and? Hb; by subst.
Qed.

Lemma legacy_read s m a t : compose_ipv4 s m = Some (a, t) →
  ∃ ip, parse_ip_literal_inner s = Some ip ∧ (is_blocked_ip ip = false → ip = Ip.V4 a ∧ t = false).
Proof.
  intros Hr. pose proof (compose_chars _ _ _ Hr) as Hc. unfold parse_ip_literal_inner.
  assert (lacks ":" s = true) as Hcolon by (by apply (lacks_class legacy_char)).
  rewrite split_once_None by (by apply (lacks_class legacy_char)). unfold without_zone.
  rewrite (str_forallb_mono legacy_char) by (done || (intros c Hx; by apply legacy_char_plain)). cbn [negb].
  destruct (parse_ip s) as [ip|] eqn:Hp.
  - exists ip. split; [done|intros _]. unfold parse_ip, parse_with in Hp. rewrite (read_ipv6_colon _ Hcolon) in Hp.
    destruct (read_ipv4_addr s) as [[b [|]]|] eqn:H4; [|done..]. injection Hp as <-.
    rewrite (strict_is_legacy _ _ m H4) in Hr. by injection Hr as -> <-.
  - unfold looks_like_ipv6_text. rewrite Hcolon. cbn [orb]. destruct (legacy_has_reading _ _ _ Hr) as (b & -> & Hb).
    exists (Ip.V4 b). split; [done|]. intros Hn. apply Hb in Hn. by injection Hn as -> ->.
Qed.

(** A host that is not an address literal for the checks has no strict reading
    and no octal, hexadecimal, short or leading-zero decimal reading; a host that is a public literal is
    exactly the text that was given, and every such reading of it is that one address, with no digit lost. *)
Theorem literal_fail_closed host :
  match blocked_ip_literal host with
  | None => parse_ip (bare host) = None ∧ ∀ m, compose_ipv4 (bare host) m = None
  | Some true => True
  | Some false =>
      bare host = host ∧ ∃ ip, parse_ip_literal host = Some ip ∧ is_blocked_ip ip = false ∧
        (∀ ip', parse_ip host = Some ip' → ip' = ip) ∧
        ∀ m a t, compose_ipv4 host m = Some (a, t) → ip = Ip.V4 a ∧ t = false
  end.
Proof.
  unfold blocked_ip_literal, parse_ip_literal. destruct (parse_ip_literal_inner (bare host)) as [ip|] eqn:Hi.
  - destruct (Nat.eqb_spec (String.length (bare host)) (String.length host)) as [Hl|Hl]; cbn [negb andb].
    + apply bare_same_length in Hl. rewrite Hl in Hi |- *. destruct (is_blocked_ip ip) eqn:Hb; [done|].
      split; [done|]. exists ip. split_and!; [done..| |].
      * intros ip' Hp. apply strict_read in Hp. congruence.
      * intros m a t (ip' & Hp & Hu)%legacy_read. simplify_eq. by apply Hu.
    + destruct (is_blocked_ip ip) eqn:Hb; cbn [negb]; by rewrite ?Hb.
  - split.
    + destruct (parse_ip (bare host)) as [ip|] eqn:Hp; [|done]. apply strict_read in Hp. congruence.
    + intros m. destruct (compose_ipv4 (bare host) m) as [[a t]|] eqn:Hc; [|done].
      apply legacy_read in Hc as (ip & Hp & _). congruence.
Qed.

(** ** The authority and the host that is judged *)

Lemma trim_clean s : str_forallb (λ c, negb (is_whitespace c)) s = true → trim s = s.
Proof.
  intros Hs. unfold trim. assert (snd (take_while is_whitespace s) = s) as ->.
  { destruct s as [|c s]; [done|]. cbn in Hs |- *. by destruct (is_whitespace c). }
  induction s as [|c s IH]; [done|]. cbn in Hs. apply andb_true_iff in Hs as [Hc Hs]. cbn [trim_end]. rewrite IH by done.
  destruct s; [|done]. by destruct (is_whitespace c).
Qed.

Lemma plain_lacks_colon h : is_plain_hostname h = true → lacks ":" h = true ∧ starts_with h "[" = false.
Proof.
  intros Hp. split; [by apply (lacks_class is_plain_char)|]. destruct h as [|c h]; [done|]. cbn in Hp |- *.
  apply andb_true_iff in Hp as [Hc _]. destruct (ascii_dec "[" c) as [<-|]; [done|by destruct h].
Qed.

Lemma strip_prefix_bracket h : starts_with h "[" = false → strip_prefix h "[" = None.
Proof. intros Hs. destruct (strip_prefix h "[") as [r|] eqn:Hr; [|done]. apply strip_prefix_Some in Hr as ->. by rewrite starts_with_app in Hs. Qed.

Lemma plain_undotted h : is_plain_hostname (default h (strip_suffix_char "." h)) = true → is_plain_hostname h = true.
Proof.
  destruct (strip_suffix_char "." h) as [t|] eqn:Ht; cbn [default]; [|done]. apply strip_suffix_char_Some in Ht as ->.
  unfold is_plain_hostname, id. rewrite str_forallb_app. by intros ->.
Qed.

Lemma strip_plain_authority hp host :
  starts_with hp "[" = false → trim hp = hp → is_plain_hostname host = true →
  match rsplit_once ":" hp with
  | Some (h, port) => if str_forallb is_ascii_digit port then Some h else None
  | None => Some hp
  end = Some host → strip_host_port hp = host.
Proof.
  intros Hb Ht Hp. unfold strip_host_port. rewrite Ht, strip_prefix_bracket by done.
  destruct (rsplit_once ":" hp) as [[h port]|]; [|by intros [= ->]].
  destruct (str_forallb _ port); [|done]. intros [= ->]. destruct (plain_lacks_colon _ Hp) as [-> _]. done.
Qed.

(** What the egress checks are given for an authority that reads one way. *)
Lemma authority_host authority h :
  egress_host_from_authority authority = Some h →
  canonical_host authority = h ∧ starts_with h "[" = false ∨
  ∃ inner, h = String "[" (String.append (to_ascii_lowercase inner) "]") ∧ strip_host_port authority = inner.
Proof.
  unfold egress_host_from_authority. destruct (str_forallb _ authority) eqn:Hc; cbn [negb]; [|done].
  assert (trim authority = authority) as Ht.
  { apply trim_clean. eapply str_forallb_mono; [|exact Hc]. intros c. unfold is_ambiguous_char.
    by destruct (is_whitespace c). }
  unfold host_from_host_port. destruct (host_port_split authority) as [host|] eqn:Hs; [|done].
  destruct (is_empty _ || _) eqn:Hf; [done|]. intros [= <-]. apply orb_false_iff in Hf as [He Hf].
  apply negb_false_iff in Hf.
  assert (starts_with authority "[" = false ∨ ∃ rest, authority = String "[" rest) as [Hb|[rest ->]].
  { destruct authority as [|c s]; [by left|]. cbn. destruct (ascii_dec "[" c) as [<-|]; [right; eauto|by left]. }
  - left. pose proof (host_port_split_cases _ _ Hs) as [Hn|(inner & -> & _)].
    + assert (starts_with (default host (strip_suffix_char "." host)) "[" = false) as Hd.
      { destruct (strip_suffix_char "." host) as [t|] eqn:Es; [|done]. apply strip_suffix_char_Some in Es as ->.
        by apply starts_with_app_false in Hn. }
      rewrite Hd in Hf. cbn [orb] in Hf. pose proof (plain_undotted _ Hf) as Hp.
      split; [|by apply plain_lacks_colon; rewrite plain_lower]. unfold canonical_host.
      rewrite (strip_plain_authority _ host); [done..|]. unfold host_port_split in Hs.
      destruct authority as [|c s]; [done|]. cbn in Hb.
      destruct c as [[] [] [] [] [] [] [] []]; try exact Hs. by destruct s.
    + exfalso. unfold host_port_split in Hs. destruct authority as [|c s]; [done|]. cbn in Hb.
      assert (c ≠ "["%char) as Hne by (intros ->; by destruct s).
      assert (match rsplit_once ":" (String c s) with
        | Some (h, port) => if str_forallb is_ascii_digit port then Some h else None
        | None => Some (String c s) end = Some (String "[" (String.append inner "]"))) as Hs'.
      { destruct c as [[] [] [] [] [] [] [] []]; try exact Hs. by destruct s. }
      destruct (rsplit_once ":" (String c s)) as [[h port]|] eqn:Hr.
      * destruct (str_forallb _ port); [|done]. injection Hs' as ->. apply rsplit_once_Some in Hr as [Hr _].
        by injection Hr.
      * by injection Hs'.
  - right. cbn [host_port_split] in Hs. destruct (split_once "]" rest) as [[inner after]|] eqn:Hsp; [|done].
    destruct (lacks ":" inner || _); [done|]. destruct (negb (is_port_suffix after)); [done|]. injection Hs as <-.
    exists inner. split.
    + rewrite strip_suffix_bracket. cbn [default id]. cbn [to_ascii_lowercase]. rewrite lower_append. done.
    + unfold strip_host_port. rewrite Ht. change (String "[" rest) with (String.append "[" rest).
      by rewrite strip_prefix_app, Hsp.
Qed.

(** ** What the ranges leave out

    Reserved, benchmarking and multicast IPv4; multicast, site-local and documentation IPv6;
    the local-use NAT64 prefix over 10.0.0.1 and the translated form of 127.0.0.1. *)
Lemma special_purpose_not_blocked :
  map blocked_ip_literal
    ["240.0.0.1"; "198.18.0.1"; "224.0.0.1"; "ff02::1"; "fec0::1"; "2001:db8::1"; "64:ff9b:1::a00:1"; "::ffff:0:127.0.0.1"]
  = repeat (Some false) 8.
Proof. by vm_compute. Qed.
