(* ===== verification/HttpCodec.v ===== *)
(** * HttpCodec: the requests the proxy reads and the requests it sends

    aa-proxy/src/proxy/http.rs, the request side.  The wire is its bytes, one [ascii] each;
    a head line becomes a text when its bytes are UTF-8.  A line with a code point above
    U+00FF is refused like one that is not UTF-8. *)

From stdpp Require Import base strings list.
From Stdlib Require Import ZArith Lia Bool Ascii String.
From S2P Require Import Prelude.
From S2P Require Import Text.

Open Scope Z_scope.
Open Scope aasm_scope.

#[local] Arguments ascii_dec : simpl never.

Definition CR : ascii := ascii_of_nat 13.
Definition LF : ascii := ascii_of_nat 10.
Definition CRLF : string := String CR (String LF EmptyString).

Definition len (s : string) : Z := Z.of_nat (String.length s).

(** ** Bytes and texts *)

Definition chr (z : Z) : ascii := ascii_of_N (Z.to_N z).

(** [str::as_bytes]. *)
Fixpoint as_bytes (s : string) : string :=
  match s with
  | EmptyString => EmptyString
  | String c rest =>
      if code c <? 128 then String c (as_bytes rest)
      else String (chr (192 + code c / 64)) (String (chr (128 + code c mod 64)) (as_bytes rest))
  end.

(** [String::from_utf8], see the header. *)
Fixpoint from_utf8 (s : string) : option string :=
  match s with
  | EmptyString => Some EmptyString
  | String b rest =>
      if code b <? 128 then option_map (String b) (from_utf8 rest)
      else match rest with
           | String b2 rest2 =>
               if in_range 194 195 b && in_range 128 191 b2
               then option_map (String (chr ((code b - 192) * 64 + (code b2 - 128)))) (from_utf8 rest2)
               else None
           | EmptyString => None
           end
  end.

(** ** Errors: one per message *)

Module HttpError.
Inductive t :=
| LineTooLong (cap : Z)
| InvalidUtf8
| MalformedRequestLine
| MalformedHeader
| TooManyHeaders
| UnexpectedEof
| ChunkedNotInspectable
| BodyTooLong (content_length : Z)
| InvalidLength
| Io.
End HttpError.

(** ** Bounds *)

Definition MAX_BODY_LEN : Z := 64 * 1024 * 1024.
Definition MAX_HEADER_LINE_LEN : Z := 8 * 1024.
Definition MAX_HEADER_BYTES : Z := 64 * 1024.
Definition MAX_HEADER_COUNT : nat := 200.

(** ** Lines *)

(** The bytes up to and with the first line feed, and what follows. *)
Fixpoint break_line (s : string) : option (string * string) :=
  match s with
  | EmptyString => None
  | String c rest =>
      if ascii_dec c LF then Some (String c EmptyString, rest)
      else match break_line rest with
           | Some (line, rest') => Some (String c line, rest')
           | None => None
           end
  end.

(** The loop of [read_line_capped] over the buffers [fill_buf] yields, none of them empty
    before the end of the stream: the bytes of the line and what is left. *)
Fixpoint read_line_buffers (cap : Z) (line : string) (buffers : list string) : result (string * list string) HttpError.t :=
  match buffers with
  | [] => Ok (line, [])
  | available :: more =>
      let '(chunk, unread, done) :=
        match break_line available with
        | Some (chunk, unread) => (chunk, unread, true)
        | None => (available, EmptyString, false)
        end in
      if cap <? len line + len chunk then Err (HttpError.LineTooLong cap)
      else if done then Ok (String.append line chunk, if is_empty unread then more else unread :: more)
      else read_line_buffers cap (String.append line chunk) more
  end.

(** The same over the bytes as one sequence. *)
Definition read_line_bytes (cap : Z) (s : string) : result (string * string) HttpError.t :=
  let '(line, rest) := default (s, EmptyString) (break_line s) in
  if cap <? len line then Err (HttpError.LineTooLong cap) else Ok (line, rest).

Definition read_line_capped (max_line remaining : Z) (s : string) : result (string * Z * string) HttpError.t :=
  let? (line, rest) := read_line_bytes (Z.min max_line remaining) s in
  match from_utf8 line with
  | Some text => Ok (text, len line, rest)
  | None => Err HttpError.InvalidUtf8
  end.

(** [trim_end_matches] of CR and LF. *)
Fixpoint trim_line_end (s : string) : string :=
  match s with
  | EmptyString => EmptyString
  | String c rest =>
      match trim_line_end rest with
      | EmptyString => if ascii_dec c CR then EmptyString else if ascii_dec c LF then EmptyString else String c EmptyString
      | t => String c t
      end
  end.

(** [str::lines]: the pieces between line feeds, without a carriage return at their end, and
    without the empty piece after the last one. *)
Definition strip_cr (s : string) : string := default s (strip_suffix_char CR s).

Definition lines (text : string) : list string :=
  let pieces := split_on LF text in
  map strip_cr (if is_empty (List.last pieces EmptyString) then removelast pieces else pieces).

(** ** Requests *)

Record HttpRequest := {
  method : string;
  rq_target : string;
  version : string;
  headers : list (string * string);
  body : string;
}.

Definition header (req : HttpRequest) (name : string) : option string :=
  option_map snd (List.find (λ kv, eq_ignore_ascii_case (fst kv) name) (headers req)).

Definition joined_content_encoding (hs : list (string * string)) : option string :=
  match map (λ kv, trim (snd kv)) (List.filter (λ kv, eq_ignore_ascii_case (fst kv) "content-encoding") hs) with
  | [] => None
  | values => Some (join ", " values)
  end.

Definition content_encoding (req : HttpRequest) : option string := joined_content_encoding (headers req).

Definition parse_header_line (trimmed : string) : result (string * string) HttpError.t :=
  match split_once ":" trimmed with
  | Some (k, v) => Ok (trim k, trim v)
  | None => Err HttpError.MalformedHeader
  end.

Definition has_chunked_transfer_encoding (hs : list (string * string)) : bool :=
  existsb (λ kv, eq_ignore_ascii_case (fst kv) "transfer-encoding" && contains (to_ascii_lowercase (snd kv)) "chunked") hs.

Fixpoint digits_below (limit acc : Z) (s : string) : option Z :=
  match s with
  | EmptyString => Some acc
  | String c rest =>
      if is_ascii_digit c then
        let acc' := acc * 10 + (code c - 48) in
        if acc' <? limit then digits_below limit acc' rest else None
      else None
  end.

(** [str::parse] to an unsigned integer below [limit]. *)
Definition parse_unsigned (limit : Z) (s : string) : option Z :=
  let digits := default s (strip_prefix s "+") in
  if is_empty digits then None else digits_below limit 0 digits.

Definition usize_limit : Z := 18446744073709551616.

Definition extract_content_length (hs : list (string * string)) : result Z HttpError.t :=
  let content_length :=
    match List.find (λ kv, eq_ignore_ascii_case (fst kv) "content-length") hs with
    | Some (_, v) => default 0 (parse_unsigned usize_limit v)
    | None => 0
    end in
  if MAX_BODY_LEN <? content_length then Err (HttpError.BodyTooLong content_length) else Ok content_length.

(** The first bytes and the rest. *)
Fixpoint split_at (n : nat) (s : string) : string * string :=
  match n, s with
  | S n', String c rest => let '(a, b) := split_at n' rest in (String c a, b)
  | _, _ => (EmptyString, s)
  end.

(** [read_exact]. *)
Definition read_exact (n : Z) (s : string) : result (string * string) HttpError.t :=
  if len s <? n then Err HttpError.Io else Ok (split_at (Z.to_nat n) s).

(** [read_headers]: [room] header lines may still follow. *)
Fixpoint read_headers (room : nat) (head_budget : Z) (s : string)
  : result (list (string * string) * Z * string) HttpError.t :=
  let? (line, n, rest) := read_line_capped MAX_HEADER_LINE_LEN head_budget s in
  if n =? 0 then Err HttpError.UnexpectedEof
  else
    let trimmed := trim_line_end line in
    if is_empty trimmed then Ok ([], head_budget - n, rest)
    else
      match room with
      | O => Err HttpError.TooManyHeaders
      | S room' =>
          let? kv := parse_header_line trimmed in
          let? (kvs, budget, rest') := read_headers room' (head_budget - n) rest in
          Ok (kv :: kvs, budget, rest')
      end.

Definition request_line_parts (trimmed : string) : option (string * string * string) :=
  match split_once " " trimmed with
  | Some (m, rest) => match split_once " " rest with Some (t, v) => Some (m, t, v) | None => None end
  | None => None
  end.

(** The request and the bytes after it; no request at the end of the stream. *)
Definition read_http_request (s : string) : result (option (HttpRequest * string)) HttpError.t :=
  let? (line, n, rest) := read_line_capped MAX_HEADER_LINE_LEN MAX_HEADER_BYTES s in
  if n =? 0 then Ok None
  else
    match request_line_parts (trim_line_end line) with
    | None => Err HttpError.MalformedRequestLine
    | Some (m, t, v) =>
        let? (hs, _, rest1) := read_headers MAX_HEADER_COUNT (MAX_HEADER_BYTES - n) rest in
        if has_chunked_transfer_encoding hs then Err HttpError.ChunkedNotInspectable
        else
          let? content_length := extract_content_length hs in
          let? (b, rest2) := read_exact content_length rest1 in
          Ok (Some ({| method := m; rq_target := t; version := v; headers := hs; body := b |}, rest2))
    end.

(** ** What is sent upstream *)

Definition is_framing_header (k : string) : bool :=
  eq_ignore_ascii_case k "content-length" || eq_ignore_ascii_case k "transfer-encoding"
  || eq_ignore_ascii_case k "connection".

Definition is_credential_header (k : string) : bool :=
  eq_ignore_ascii_case k "authorization" || eq_ignore_ascii_case k "x-api-key".

(** The headers of the agent that are kept. *)
Definition kept_headers (injecting : bool) (hs : list (string * string)) : list (string * string) :=
  List.filter (λ kv, negb (is_framing_header (fst kv)) && negb (injecting && is_credential_header (fst kv))) hs.

Definition header_line (kv : string * string) : string :=
  String.append (fst kv) (String.append ": " (String.append (snd kv) CRLF)).

Fixpoint header_lines (hs : list (string * string)) : string :=
  match hs with [] => EmptyString | kv :: rest => String.append (as_bytes (header_line kv)) (header_lines rest) end.

Definition request_line (req : HttpRequest) : string :=
  String.append (method req) (String " " (String.append (rq_target req) (String " " (String.append (version req) CRLF)))).

(** The value of an injected header is bytes. *)
Definition injected_line (auth : option (string * string)) : string :=
  match auth with
  | Some (name, value) => String.append (as_bytes name) (String.append ": " (String.append value CRLF))
  | None => EmptyString
  end.

Definition serialize_http_request_with_auth (req : HttpRequest) (new_body : string) (auth : option (string * string))
  : string :=
  String.append (as_bytes (request_line req))
    (String.append (header_lines (kept_headers (bool_decide (is_Some auth)) (headers req)))
       (String.append (injected_line auth)
          (String.append (String.append "Connection: close" CRLF)
             (String.append (String.append "Content-Length: " (decimal (N.of_nat (String.length new_body))))
                (String.append CRLF (String.append CRLF new_body)))))).

Definition serialize_http_request (req : HttpRequest) (new_body : string) : string :=
  serialize_http_request_with_auth req new_body None.
