(* ===== verification/HttpProps.v ===== *)
(** * HttpProps: one request in, one request out

    Reading a line does not depend on how the bytes arrive; what a read request is; and
    the bytes that are sent upstream read back as exactly one request, with the headers
    that were judged, a length that is the body's, and nothing after it. *)

From stdpp Require Import base strings list.
From Stdlib Require Import ZArith Lia Bool Ascii String DecimalString DecimalN DecimalPos.
From S2P Require Import Prelude.
From S2P Require Import Text.
From S2P Require Import NetAddr.
From S2P Require Import HttpCodec.

Open Scope Z_scope.
Open Scope aasm_scope.

#[local] Arguments ascii_dec : simpl never.

Lemma len_append s t : len (String.append s t) = len s + len t.
Proof. unfold len. rewrite append_length. lia. Qed.

Lemma len_nonneg s : 0 ≤ len s.
Proof. unfold len. lia. Qed.

(** ** UTF-8 *)

Lemma code_chr z : 0 ≤ z < 256 → code (chr z) = z.
Proof. intros Hz. unfold code, chr. rewrite N_ascii_embedding by lia. lia. Qed.

Lemma chr_code c : chr (code c) = c.
Proof. unfold code, chr. rewrite N2Z.id. apply ascii_N_embedding. Qed.

Lemma high_code c : 128 ≤ code c → 2 ≤ code c / 64 < 4 ∧ 0 ≤ code c mod 64 < 64 ∧ code c = code c / 64 * 64 + code c mod 64.
Proof. intros Hc. pose proof (code_range c). Z.div_mod_to_equations. lia. Qed.

Lemma from_utf8_as_bytes s : from_utf8 (as_bytes s) = Some s.
Proof.
  induction s as [|c s IH]; [done|]. cbn [as_bytes]. destruct (code c <? 128) eqn:Hc; cbn [from_utf8].
  - by rewrite Hc, IH.
  - apply Z.ltb_ge, high_code in Hc as (Hd & Hm & Heq). rewrite !code_chr by lia.
    destruct (Z.ltb_spec (192 + code c / 64) 128); [lia|]. unfold in_range. rewrite !code_chr by lia.
    destruct (Z.leb_spec 194 (192 + code c / 64)), (Z.leb_spec (192 + code c / 64) 195),
      (Z.leb_spec 128 (128 + code c mod 64)), (Z.leb_spec (128 + code c mod 64) 191); try lia.
    cbn [andb]. rewrite IH. cbn [option_map]. do 2 f_equal.
    replace ((192 + code c / 64 - 192) * 64 + (128 + code c mod 64 - 128)) with (code c) by lia. apply chr_code.
Qed.

Lemma as_bytes_append s t : as_bytes (String.append s t) = String.append (as_bytes s) (as_bytes t).
Proof. induction s as [|c s IH]; [done|]. cbn. rewrite IH. by destruct (code c <? 128). Qed.

Lemma as_bytes_ascii s : str_forallb (λ c, code c <? 128) s = true → as_bytes s = s.
Proof. induction s as [|c s IH]; [done|]. cbn. intros [-> Hs]%andb_true_iff. by rewrite IH. Qed.

Lemma lf_code c : c = LF ↔ code c = 10.
Proof. split; [by intros ->|]. intros Hc. by rewrite <-(chr_code c), Hc. Qed.

Lemma as_bytes_lacks s : lacks LF s = true → lacks LF (as_bytes s) = true.
Proof.
  unfold lacks. induction s as [|c s IH]; [done|]. cbn [str_forallb as_bytes]. destruct (ascii_dec c LF) as [|Hc]; [done|].
  intros Hs%IH. destruct (code c <? 128) eqn:Hh; cbn [str_forallb].
  - by destruct (ascii_dec c LF).
  - apply Z.ltb_ge, high_code in Hh as (Hd & Hm & _).
    destruct (ascii_dec (chr (192 + code c / 64)) LF) as [He|]; [rewrite lf_code, code_chr in He by lia; lia|].
    destruct (ascii_dec (chr (128 + code c mod 64)) LF) as [He|]; [rewrite lf_code, code_chr in He by lia; lia|]. done.
Qed.

(** ** Lines *)

Lemma break_line_app s rest : lacks LF s = true → break_line (String.append s (String LF rest)) = Some (String.append s (String LF EmptyString), rest).
Proof.
  unfold lacks. induction s as [|c s IH]; cbn [String.append break_line str_forallb]; [done|].
  destruct (ascii_dec c LF); [done|]. intros Hs. by rewrite IH.
Qed.

Lemma break_line_None s : break_line s = None ↔ lacks LF s = true.
Proof.
  unfold lacks. induction s as [|c s IH]; [done|]. cbn [break_line str_forallb]. destruct (ascii_dec c LF); [done|]. cbn [andb].
  rewrite <-IH. destruct (break_line s) as [[]|]; done.
Qed.

Lemma break_line_Some s line rest :
  break_line s = Some (line, rest) →
  ∃ l, lacks LF l = true ∧ line = String.append l (String LF EmptyString) ∧ s = String.append line rest.
Proof.
  revert line rest. induction s as [|c s IH]; intros line rest; cbn [break_line]; [done|].
  destruct (ascii_dec c LF) as [->|Hc].
  - intros [= <- <-]. by exists EmptyString.
  - destruct (break_line s) as [[l1 r1]|] eqn:Hb; [|done]. intros [= <- <-].
    destruct (IH _ _ eq_refl) as (l & Hl & -> & ->). exists (String c l). unfold lacks in *. cbn [str_forallb].
    by destruct (ascii_dec c LF).
Qed.

Definition concat (buffers : list string) : string := foldr String.append EmptyString buffers.

Lemma break_line_concat s t :
  break_line (String.append s t) =
  match break_line s with
  | Some (l, r) => Some (l, String.append r t)
  | None => match break_line t with Some (l, r) => Some (String.append s l, r) | None => None end
  end.
Proof.
  induction s as [|c s IH]; cbn [String.append break_line]; [by destruct (break_line t) as [[]|]|].
  destruct (ascii_dec c LF); [done|]. rewrite IH. destruct (break_line s) as [[]|]; [done|].
  by destruct (break_line t) as [[]|].
Qed.

(** The outcomes agree: the same line, the same bytes left, or the same refusal. *)
Definition same_line (r : result (string * list string) HttpError.t) (f : result (string * string) HttpError.t) : Prop :=
  match r, f with
  | Ok (line, more), Ok (line', rest) => line = line' ∧ concat more = rest
  | Err e, Err e' => e = e'
  | _, _ => False
  end.

Lemma read_line_from cap line buffers :
  len line ≤ cap →
  same_line (read_line_buffers cap line buffers)
    (let '(l, rest) := default (concat buffers, EmptyString) (break_line (concat buffers)) in
     if cap <? len line + len l then Err (HttpError.LineTooLong cap) else Ok (String.append line l, rest)).
Proof.
  revert line. induction buffers as [|b more IH]; intros line Hl; cbn [concat foldr read_line_buffers].
  - cbn [break_line default]. change (len EmptyString) with 0. rewrite Z.add_0_r.
    destruct (Z.ltb_spec cap (len line)); [lia|]. by rewrite append_nil_r.
  - fold (concat more). rewrite break_line_concat. destruct (break_line b) as [[l r]|] eqn:Hb.
    + cbn [default id]. destruct (cap <? _); [done|]. split; [done|]. by destruct r.
    + destruct (Z.ltb_spec cap (len line + len b)) as [Hc|Hc].
      * destruct (break_line (concat more)) as [[l r]|] eqn:Hm; cbn [default id]; rewrite len_append;
          [pose proof (len_nonneg l)|pose proof (len_nonneg (concat more))];
          match goal with |- context [cap <? ?x] => destruct (Z.ltb_spec cap x); [done|lia] end.
      * specialize (IH (String.append line b)). rewrite len_append in IH. specialize (IH Hc).
        destruct (break_line (concat more)) as [[l r]|] eqn:Hm; cbn [default id] in *;
          rewrite len_append, Z.add_assoc, <-append_assoc; exact IH.
Qed.

(** However the bytes of a connection are cut into buffers, a line is read
    or refused as if they had come at once, and the same bytes stay for the next read. *)
Theorem line_any_buffering cap buffers :
  0 ≤ cap → same_line (read_line_buffers cap EmptyString buffers) (read_line_bytes cap (concat buffers)).
Proof. intros Hc. unfold read_line_bytes. exact (read_line_from cap EmptyString buffers Hc). Qed.

(** A line in three buffers, and one that is too long. *)
Lemma line_any_buffering_witness :
  same_line (read_line_buffers 10 "" ["GE"; "T"; String LF "x"]) (read_line_bytes 10 (concat ["GE"; "T"; String LF "x"])) ∧
  read_line_buffers 10 "" ["GE"; "T"; String LF "x"] = Ok (String.append "GET" (String LF ""), ["x"]) ∧
  read_line_buffers 3 "" ["GE"; "T"; String LF "x"] = Err (HttpError.LineTooLong 3).
Proof. split; [apply (line_any_buffering 10); lia|by vm_compute]. Defined.

(** ** Texts without line ends *)

Fixpoint ends_clean (s : string) : bool :=
  match s with
  | EmptyString => true
  | String c EmptyString => if ascii_dec c CR then false else if ascii_dec c LF then false else true
  | String _ rest => ends_clean rest
  end.

Lemma trim_line_end_clean s : ends_clean (trim_line_end s) = true ∧ ∃ t, s = String.append (trim_line_end s) t.
Proof.
  induction s as [|c s [IH [t Ht]]]; [split; [done|by exists EmptyString]|]. cbn [trim_line_end].
  destruct (trim_line_end s) as [|d r].
  - cbn in Ht. destruct (ascii_dec c CR); [split; [done|by exists (String c s)]|].
    destruct (ascii_dec c LF) eqn:Hc; [split; [done|by exists (String c s)]|]. split.
    + cbn. destruct (ascii_dec c CR); [done|]. by destruct (ascii_dec c LF).
    + by exists s.
  - split; [exact IH|]. exists t. cbn in *. by rewrite <-Ht.
Qed.

Lemma trim_line_end_id s : ends_clean s = true → trim_line_end s = s.
Proof.
  induction s as [|c s IH]; [done|]. cbn [ends_clean trim_line_end]. destruct s as [|d s].
  - cbn [trim_line_end]. destruct (ascii_dec c CR); [done|]. by destruct (ascii_dec c LF).
  - intros Hs. by rewrite IH.
Qed.

Lemma trim_line_end_crlf s : ends_clean s = true → trim_line_end (String.append s CRLF) = s.
Proof.
  induction s as [|c s IH]; [done|]. cbn [ends_clean]. destruct s as [|d s].
  - cbn [String.append trim_line_end]. destruct (ascii_dec c CR); [done|]. by destruct (ascii_dec c LF).
  - intros Hs. specialize (IH Hs). cbn [String.append] in IH |- *. cbn [trim_line_end] in IH |- *. by rewrite IH.
Qed.

Lemma ends_clean_app s t : is_empty t = false → ends_clean (String.append s t) = ends_clean t.
Proof.
  intros Ht. induction s as [|c s IH]; [done|]. cbn [String.append ends_clean].
  destruct (String.append s t) eqn:E; [|done]. by destruct s, t.
Qed.

Lemma ends_clean_suffix s t : ends_clean (String.append s t) = true → ends_clean t = true.
Proof. destruct t as [|c t]; [done|]. by rewrite ends_clean_app. Qed.

(** What follows a prefix. *)
Lemma lacks_parts sep s t : lacks sep (String.append s t) = true ↔ lacks sep s = true ∧ lacks sep t = true.
Proof. by rewrite lacks_app, andb_true_iff. Qed.

Lemma split_once_lacks sep s a b : split_once sep s = Some (a, b) → lacks sep a = true.
Proof.
  revert a b. unfold lacks. induction s as [|c s IH]; intros a b; cbn [split_once]; [done|].
  destruct (ascii_dec c sep) eqn:Hc; [by intros [= <- <-]|]. destruct (split_once sep s) as [[a' b']|]; [|done].
  intros [= <- <-]. cbn [str_forallb]. rewrite Hc. by apply (IH a' b').
Qed.

(** ** Trimming *)

Lemma trim_end_idemp s : trim_end (trim_end s) = trim_end s.
Proof.
  induction s as [|c s IH]; [done|]. cbn [trim_end]. destruct (trim_end s) as [|d r] eqn:Hs.
  - destruct (is_whitespace c) eqn:Hc; [done|]. cbn. by rewrite Hc.
  - change (trim_end (String c (String d r))) with
      (match trim_end (String d r) with
       | EmptyString => if is_whitespace c then EmptyString else String c EmptyString
       | t => String c t end). by rewrite IH.
Qed.

Lemma drop_space_start s : match snd (take_while is_whitespace s) with
  | String c _ => is_whitespace c = false | EmptyString => True end.
Proof.
  induction s as [|c s IH]; [done|]. cbn. destruct (is_whitespace c) eqn:Hc; [|done].
  by destruct (take_while is_whitespace s).
Qed.

Lemma trim_idemp s : trim (trim s) = trim s.
Proof.
  unfold trim. set (r := snd (take_while is_whitespace s)). pose proof (drop_space_start s) as Hr. fold r in Hr.
  assert (snd (take_while is_whitespace (trim_end r)) = trim_end r) as ->; [|apply trim_end_idemp].
  destruct (trim_end_prefix r) as [t Ht]. destruct (trim_end r) as [|c u] eqn:He; [done|].
  rewrite Ht in Hr. cbn in Hr |- *. by rewrite Hr.
Qed.

Lemma trim_space s : trim (String " " s) = trim s.
Proof. unfold trim. cbn. by destruct (take_while is_whitespace s). Qed.

Lemma trim_part s : ∃ x y, s = String.append x (String.append (trim s) y).
Proof.
  unfold trim. set (r := snd (take_while is_whitespace s)).
  assert (∃ x, s = String.append x r) as [x Hx].
  { unfold r. clear. induction s as [|c s IH]; [by exists EmptyString|]. cbn.
    destruct (is_whitespace c); [|by exists EmptyString]. destruct (take_while is_whitespace s) as [w rest].
    destruct IH as [x IH]. exists (String c x). cbn in *. by rewrite <-IH. }
  destruct (trim_end_prefix r) as [t Ht]. exists x, t. by rewrite <-Ht.
Qed.

Lemma trim_lacks sep s : lacks sep s = true → lacks sep (trim s) = true.
Proof. destruct (trim_part s) as (x & y & Hs). rewrite Hs at 1. rewrite !lacks_parts. tauto. Qed.

Lemma trimmed_ends_clean s : trim s = s → ends_clean s = true.
Proof.
  intros Hs. assert (trim_end s = s) as He.
  { rewrite <-Hs. unfold trim. apply trim_end_idemp. }
  clear Hs. induction s as [|c s IH]; [done|]. cbn [trim_end] in He. cbn [ends_clean].
  destruct s as [|d s].
  - cbn in He. destruct (is_whitespace c) eqn:Hc; [done|]. destruct (ascii_dec c CR) as [->|]; [done|].
    by destruct (ascii_dec c LF) as [->|].
  - apply IH. destruct (trim_end (String d s)) eqn:E; [|congruence]. by destruct (is_whitespace c).
Qed.

(** ** Lengths *)

Fixpoint digits_number (acc : Z) (s : string) : Z :=
  match s with EmptyString => acc | String c rest => digits_number (acc * 10 + (code c - 48)) rest end.

Lemma digits_number_grows s acc :
  0 ≤ acc → str_forallb is_ascii_digit s = true → acc ≤ digits_number acc s.
Proof.
  revert acc. induction s as [|c s IH]; intros acc Ha; cbn; [lia|]. intros [Hc Hs]%andb_true_iff.
  unfold is_ascii_digit in Hc. apply in_range_spec in Hc. specialize (IH (acc * 10 + (code c - 48)) ltac:(lia) Hs). lia.
Qed.

Lemma digits_below_number limit s acc :
  0 ≤ acc → str_forallb is_ascii_digit s = true → digits_number acc s < limit →
  digits_below limit acc s = Some (digits_number acc s).
Proof.
  revert acc. induction s as [|c s IH]; intros acc Ha; cbn [str_forallb digits_number digits_below]; [done|].
  intros [Hc Hs]%andb_true_iff Hl. rewrite Hc. unfold is_ascii_digit in Hc. apply in_range_spec in Hc.
  pose proof (digits_number_grows s (acc * 10 + (code c - 48)) ltac:(lia) Hs).
  destruct (Z.ltb_spec (acc * 10 + (code c - 48)) limit); [|lia]. apply IH; [lia|done..].
Qed.

Lemma digits_number_uint d p :
  digits_number (Z.pos p) (NilEmpty.string_of_uint d) = Z.pos (Pos.of_uint_acc d p).
Proof.
  revert p. induction d; intros p; cbn [NilEmpty.string_of_uint digits_number Pos.of_uint_acc]; [done|..];
    rewrite <-IHd; f_equal;
    match goal with |- context [code ?c] => let v := eval vm_compute in (code c) in change (code c) with v end; lia.
Qed.

Lemma digits_number_zero d : digits_number 0 (NilEmpty.string_of_uint d) = Z.of_N (N.of_uint d).
Proof.
  unfold N.of_uint. induction d; cbn [NilEmpty.string_of_uint digits_number Pos.of_uint]; [done|exact IHd|..];
    cbn -[digits_number]; apply digits_number_uint.
Qed.

Lemma decimal_number n : digits_number 0 (decimal n) = Z.of_N n.
Proof.
  unfold decimal. rewrite <-(DecimalN.Unsigned.of_to n) at 2. rewrite <-digits_number_zero.
  destruct (N.to_uint n) eqn:E; done.
Qed.

Lemma parse_unsigned_decimal limit n : Z.of_N n < limit → parse_unsigned limit (decimal n) = Some (Z.of_N n).
Proof.
  intros Hn. pose proof (decimal_digits n) as Hd.
  assert (is_empty (decimal n) = false) as He.
  { unfold decimal. destruct (N.to_uint n) eqn:E; done. }
  unfold parse_unsigned. assert (strip_prefix (decimal n) "+" = None) as ->.
  { destruct (strip_prefix (decimal n) "+") as [r|] eqn:Hp; [|done]. apply strip_prefix_Some in Hp. by rewrite Hp in Hd. }
  cbn [default]. rewrite He, digits_below_number; rewrite ?decimal_number; done.
Qed.

(** ** What a read request is *)

Record clean_header (kv : string * string) : Prop := {
  ch_name : trim (fst kv) = fst kv;
  ch_value : trim (snd kv) = snd kv;
  ch_colon : lacks ":" (fst kv) = true;
  ch_name_line : lacks LF (fst kv) = true;
  ch_value_line : lacks LF (snd kv) = true;
}.

Record clean_request (req : HttpRequest) : Prop := {
  cr_method : lacks " " (method req) = true;
  cr_target : lacks " " (rq_target req) = true;
  cr_version : ends_clean (version req) = true;
  cr_line : lacks LF (method req) = true ∧ lacks LF (rq_target req) = true ∧ lacks LF (version req) = true;
  cr_headers : Forall clean_header (headers req);
}.

Lemma from_utf8_lacks s t : from_utf8 s = Some t → lacks LF s = true → lacks LF t = true.
Proof.
  enough (∀ n s t, (String.length s ≤ n)%nat → from_utf8 s = Some t → lacks LF s = true → lacks LF t = true) as H
    by (by eapply H).
  clear. unfold lacks. induction n as [|n IH]; intros s t Hn; [destruct s; [by intros [= <-]|cbn in Hn; lia]|].
  destruct s as [|b s]; [by intros [= <-]|]. cbn [from_utf8 str_forallb String.length] in *.
  destruct (code b <? 128) eqn:Hb.
  - destruct (from_utf8 s) as [t'|] eqn:Hs; [|done]. intros [= <-]. cbn. destruct (ascii_dec b LF); [done|].
    cbn. apply (IH s); [lia|done].
  - destruct s as [|b2 s]; [done|]. cbn [String.length str_forallb] in *.
    destruct (in_range 194 195 b) eqn:H1; [|done]. destruct (in_range 128 191 b2) eqn:H2; [|done]. cbn [andb].
    apply in_range_spec in H1, H2. destruct (from_utf8 s) as [t'|] eqn:Hs; [|done]. intros [= <-]. cbn [str_forallb].
    destruct (ascii_dec b LF); [done|]. destruct (ascii_dec b2 LF); [done|]. cbn [andb]. intros Hl.
    destruct (ascii_dec (chr _) LF) as [He|]; [rewrite lf_code, code_chr in He by lia; lia|].
    apply (IH s); [lia|done..].
Qed.

Lemma from_utf8_snoc s t : from_utf8 (String.append s (String LF EmptyString)) = Some t → lacks LF s = true →
  ∃ u, t = String.append u (String LF EmptyString) ∧ lacks LF u = true.
Proof.
  enough (∀ n s t, (String.length s ≤ n)%nat → from_utf8 (String.append s (String LF EmptyString)) = Some t →
    ∃ u, t = String.append u (String LF EmptyString) ∧ from_utf8 s = Some u) as H.
  { intros Hf Hl. destruct (H _ s t (le_n _) Hf) as (u & -> & Hu). exists u. split; [done|]. by eapply from_utf8_lacks. }
  clear. induction n as [|n IH]; intros s t Hn; [destruct s; [intros [= <-]; by exists EmptyString|cbn in Hn; lia]|].
  destruct s as [|b s]; [intros [= <-]; by exists EmptyString|]. cbn [String.append from_utf8 String.length] in *.
  destruct (code b <? 128) eqn:Hb.
  - destruct (from_utf8 (String.append s _)) as [t'|] eqn:Hs; [|done]. intros [= <-].
    destruct (IH s t') as (u & -> & Hu); [lia|done|]. exists (String b u). by rewrite Hu.
  - destruct s as [|b2 s]; cbn [String.append String.length] in *.
    + by rewrite andb_false_r.
    + destruct (in_range 194 195 b && in_range 128 191 b2); [|done].
      destruct (from_utf8 (String.append s _)) as [t'|] eqn:Hs; [|done]. intros [= <-].
      destruct (IH s t') as (u & -> & Hu); [lia|done|]. eexists (String _ u). by rewrite Hu.
Qed.

Lemma read_line_text max_line remaining s text n rest :
  read_line_capped max_line remaining s = Ok (text, n, rest) → lacks LF (trim_line_end text) = true.
Proof.
  unfold read_line_capped, read_line_bytes. destruct (break_line s) as [[line rest']|] eqn:Hb; cbn [default id].
  - destruct (_ <? _); [done|]. cbn [result_bind]. destruct (from_utf8 line) as [t|] eqn:Hu; [|done]. intros [= -> _ _].
    apply break_line_Some in Hb as (l & Hl & -> & _). apply from_utf8_snoc in Hu as (u & -> & Hl'); [|done].
    destruct (trim_line_end_clean (String.append u (String LF EmptyString))) as [Hc [t Ht]].
    assert (∀ a, trim_line_end (String.append a (String LF EmptyString)) = trim_line_end a) as Hsnoc.
    { clear. induction a as [|c a IH]; [done|]. cbn [String.append trim_line_end]. by rewrite IH. }
    rewrite Hsnoc in *. destruct (trim_line_end_clean u) as [_ [v Hv]]. rewrite Hv in Hl'. by apply lacks_parts in Hl' as [? _].
  - destruct (_ <? _); [done|]. cbn [result_bind]. destruct (from_utf8 s) as [t|] eqn:Hu; [|done]. intros [= -> _ _].
    apply break_line_None in Hb. pose proof (from_utf8_lacks _ _ Hu Hb) as Hl.
    destruct (trim_line_end_clean text) as [_ [v Hv]]. rewrite Hv in Hl. by apply lacks_parts in Hl as [? _].
Qed.

Lemma parse_header_clean line kv : lacks LF line = true → parse_header_line line = Ok kv → clean_header kv.
Proof.
  intros Hl. unfold parse_header_line. destruct (split_once ":" line) as [[k v]|] eqn:Hs; [|done]. intros [= <-].
  pose proof (split_once_lacks _ _ _ _ Hs) as Hk. apply split_once_Some in Hs as ->. apply lacks_parts in Hl as [Hlk Hlv].
  change (String ":" v) with (String.append ":" v) in Hlv. apply lacks_parts in Hlv as [_ Hlv].
  split; cbn [fst snd]; auto using trim_idemp, trim_lacks.
Qed.

Lemma read_headers_clean room budget s hs budget' rest :
  read_headers room budget s = Ok (hs, budget', rest) → Forall clean_header hs.
Proof.
  revert budget s hs budget' rest. induction room as [|room IH]; intros budget s hs budget' rest; cbn [read_headers];
    destruct (read_line_capped _ _ s) as [[[line n] rest1]|e] eqn:Hl; cbn [result_bind]; try done;
    destruct (n =? 0); try done; destruct (is_empty (trim_line_end line)); try done; try (intros [= <- _ _]; constructor).
  destruct (parse_header_line (trim_line_end line)) as [kv|e] eqn:Hp; cbn [result_bind]; [|done].
  destruct (read_headers room _ rest1) as [[[kvs b] r]|e] eqn:Hr; cbn [result_bind]; [|done]. intros [= <- _ _].
  constructor; [|by eapply IH]. eapply parse_header_clean; [|exact Hp]. by eapply read_line_text.
Qed.

Lemma read_request_clean s req rest : read_http_request s = Ok (Some (req, rest)) → clean_request req.
Proof.
  unfold read_http_request. destruct (read_line_capped _ _ s) as [[[line n] rest1]|e] eqn:Hl; cbn [result_bind]; [|done].
  destruct (n =? 0); [done|]. destruct (request_line_parts (trim_line_end line)) as [[[m t] v]|] eqn:Hp; [|done].
  destruct (read_headers _ _ rest1) as [[[hs b] rest2]|e] eqn:Hh; cbn [result_bind]; [|done].
  destruct (has_chunked_transfer_encoding hs); [done|]. destruct (extract_content_length hs) as [cl|e]; cbn [result_bind]; [|done].
  destruct (read_exact cl rest2) as [[bd rest3]|e]; cbn [result_bind]; [|done]. intros [= <- _].
  apply read_headers_clean in Hh. apply read_line_text in Hl. destruct (trim_line_end_clean line) as [Hc _].
  unfold request_line_parts in Hp. destruct (split_once " " (trim_line_end line)) as [[m' r]|] eqn:H1; [|done].
  destruct (split_once " " r) as [[t' v']|] eqn:H2; [|done]. injection Hp as -> -> ->.
  pose proof (split_once_lacks _ _ _ _ H1). pose proof (split_once_lacks _ _ _ _ H2).
  apply split_once_Some in H1, H2. rewrite H1 in Hl, Hc. rewrite H2 in Hl, Hc.
  apply lacks_parts in Hl as [Hm Hl]. change (String " " (String.append t (String " " v))) with
    (String.append " " (String.append t (String.append " " v))) in Hl, Hc.
  rewrite !lacks_parts in Hl. split; cbn; try tauto; try done. by do 4 apply ends_clean_suffix in Hc.
Qed.

(** ** Reading back what was sent *)

(** A text line of at most [cap] bytes, followed by anything. *)
Lemma read_line_back text cap rest :
  lacks LF text = true → len (as_bytes (String.append text CRLF)) ≤ cap →
  read_line_bytes cap (String.append (as_bytes (String.append text CRLF)) rest) = Ok (as_bytes (String.append text CRLF), rest).
Proof.
  intros Hl Hc. unfold read_line_bytes.
  assert (as_bytes (String.append text CRLF) = String.append (String.append (as_bytes text) (String CR EmptyString)) (String LF EmptyString)) as Hb
    by (rewrite as_bytes_append, append_assoc; done).
  rewrite Hb at 1 2. rewrite append_assoc. cbn [String.append].
  rewrite break_line_app by (rewrite lacks_app, as_bytes_lacks by done; done). cbn [default id]. rewrite <-Hb.
  destruct (Z.ltb_spec cap (len (as_bytes (String.append text CRLF)))); [lia|done].
Qed.

Lemma read_text_back text max_line remaining rest :
  lacks LF text = true → len (as_bytes (String.append text CRLF)) ≤ max_line →
  len (as_bytes (String.append text CRLF)) ≤ remaining →
  read_line_capped max_line remaining (String.append (as_bytes (String.append text CRLF)) rest)
  = Ok (String.append text CRLF, len (as_bytes (String.append text CRLF)), rest).
Proof.
  intros Hl H1 H2. unfold read_line_capped. rewrite read_line_back by (done || lia). cbn [result_bind].
  by rewrite from_utf8_as_bytes.
Qed.

Definition header_text (kv : string * string) : string := String.append (fst kv) (String.append ": " (snd kv)).

Lemma header_line_text kv : header_line kv = String.append (header_text kv) CRLF.
Proof. unfold header_line, header_text. by rewrite !append_assoc. Qed.

Lemma header_text_back kv : clean_header kv →
  lacks LF (header_text kv) = true ∧ ends_clean (header_text kv) = true ∧ is_empty (header_text kv) = false ∧
  parse_header_line (header_text kv) = Ok kv.
Proof.
  intros [Hn Hv Hc Hln Hlv]. unfold header_text. split_and!.
  - rewrite !lacks_app. by rewrite Hln, Hlv.
  - destruct (snd kv) as [|c v] eqn:E; [by rewrite ends_clean_app|].
    rewrite !ends_clean_app by done. by apply trimmed_ends_clean.
  - by destruct (fst kv).
  - unfold parse_header_line. change (String.append ": " (snd kv)) with (String ":" (String " " (snd kv))).
    rewrite split_once_app by done. rewrite trim_space, Hn, Hv. by destruct kv.
Qed.

Definition header_size (kv : string * string) : Z := len (as_bytes (header_line kv)).
Definition headers_size (hs : list (string * string)) : Z := foldr (λ kv n, header_size kv + n) 0 hs.

Lemma headers_size_nonneg hs : 0 ≤ headers_size hs.
Proof.
  induction hs as [|kv hs IH]; [done|]. cbn [headers_size foldr]. fold (headers_size hs).
  pose proof (len_nonneg (as_bytes (header_line kv))). unfold header_size. lia.
Qed.

Lemma crlf_size s : 2 ≤ len (as_bytes (String.append s CRLF)).
Proof. rewrite as_bytes_append, len_append. pose proof (len_nonneg (as_bytes s)). change (len (as_bytes CRLF)) with 2. lia. Qed.

Lemma read_headers_back room budget hs rest :
  Forall clean_header hs → Forall (λ kv, header_size kv ≤ MAX_HEADER_LINE_LEN) hs → (List.length hs ≤ room)%nat →
  headers_size hs + 2 ≤ budget →
  read_headers room budget (String.append (header_lines hs) (String.append CRLF rest))
  = Ok (hs, budget - headers_size hs - 2, rest).
Proof.
  intros Hc Hf. revert room budget. induction hs as [|kv hs IH]; intros room budget Hr Hb.
  - assert (read_line_capped MAX_HEADER_LINE_LEN budget (String.append CRLF rest) = Ok (CRLF, 2, rest)) as Hline
      by (by apply (read_text_back EmptyString)).
    cbn [header_lines]. change (String.append EmptyString ?s) with s.
    destruct room; cbn [read_headers]; rewrite Hline; cbn [result_bind Z.eqb];
      change (trim_line_end CRLF) with EmptyString; cbn [is_empty headers_size foldr]; do 4 f_equal; lia.
  - apply Forall_cons in Hc as [Hkv Hc]. apply Forall_cons in Hf as [Hs Hf]. cbn [headers_size foldr] in *.
    fold (headers_size hs) in *. pose proof (headers_size_nonneg hs). destruct room as [|room]; [cbn in Hr; lia|].
    destruct (header_text_back kv Hkv) as (Hl & He & Hn & Hp). unfold header_size in *.
    cbn [header_lines read_headers]. rewrite append_assoc, header_line_text in *.
    pose proof (crlf_size (header_text kv)).
    rewrite read_text_back by (done || lia). cbn [result_bind].
    destruct (Z.eqb_spec (len (as_bytes (String.append (header_text kv) CRLF))) 0); [lia|].
    rewrite trim_line_end_crlf, Hn, Hp by done. cbn [result_bind].
    rewrite IH; [|done|done|cbn in Hr; lia|lia]. cbn [result_bind]. do 4 f_equal. lia.
Qed.

(** The headers of the request as it is sent. *)
Definition sent_headers (req : HttpRequest) (new_body : string) (auth : option (string * string)) : list (string * string) :=
  kept_headers (bool_decide (is_Some auth)) (headers req) ++ option_list auth ++
  [("Connection", "close"); ("Content-Length", decimal (N.of_nat (String.length new_body)))].

Definition sent_request (req : HttpRequest) (new_body : string) (auth : option (string * string)) : HttpRequest := {|
  method := method req; rq_target := rq_target req; version := version req;
  headers := sent_headers req new_body auth; body := new_body |}.

(** The injected value as bytes. *)
Definition auth_bytes (auth : option (string * string)) : option (string * string) :=
  option_map (λ nv, (fst nv, as_bytes (snd nv))) auth.

Lemma header_lines_app hs hs' : header_lines (hs ++ hs') = String.append (header_lines hs) (header_lines hs').
Proof. induction hs as [|kv hs IH]; [done|]. cbn. by rewrite IH, append_assoc. Qed.

Lemma decimal_ascii n : as_bytes (decimal n) = decimal n.
Proof.
  apply as_bytes_ascii. eapply str_forallb_mono; [|apply decimal_digits]. intros c Hc. unfold is_ascii_digit in Hc.
  apply in_range_spec in Hc. apply Z.ltb_lt. lia.
Qed.

Lemma serialize_lines req new_body auth :
  serialize_http_request_with_auth req new_body (auth_bytes auth) =
  String.append (as_bytes (request_line req))
    (String.append (header_lines (sent_headers req new_body auth)) (String.append CRLF new_body)).
Proof.
  unfold serialize_http_request_with_auth, sent_headers. f_equal. rewrite !header_lines_app, !append_assoc.
  assert (bool_decide (is_Some (auth_bytes auth)) = bool_decide (is_Some auth)) as ->.
  { apply bool_decide_ext. unfold auth_bytes. destruct auth; cbn; split; intros [x Hx]; eauto; done. }
  f_equal. assert (injected_line (auth_bytes auth) = header_lines (option_list auth)) as ->.
  { destruct auth as [[n v]|]; [|done]. cbn [option_list header_lines auth_bytes option_map injected_line fst snd].
    unfold header_line. cbn [fst snd]. rewrite append_nil_r, !as_bytes_append. done. }
  f_equal. cbn [header_lines]. unfold header_line. cbn [fst snd]. rewrite !as_bytes_append, decimal_ascii, !append_assoc.
  reflexivity.
Qed.

(** The request as it is sent is within the bounds of a reader like this one. *)
Record within_bounds (req : HttpRequest) : Prop := {
  wb_line : len (as_bytes (request_line req)) ≤ MAX_HEADER_LINE_LEN;
  wb_lines : Forall (λ kv, header_size kv ≤ MAX_HEADER_LINE_LEN) (headers req);
  wb_count : (List.length (headers req) ≤ MAX_HEADER_COUNT)%nat;
  wb_head : len (as_bytes (request_line req)) + headers_size (headers req) + 2 ≤ MAX_HEADER_BYTES;
  wb_body : len (body req) ≤ MAX_BODY_LEN;
}.

Definition good_auth (auth : option (string * string)) : Prop :=
  match auth with Some nv => clean_header nv ∧ is_credential_header (fst nv) = true | None => True end.

Lemma eq_case_trans a b c : eq_ignore_ascii_case a b = true → eq_ignore_ascii_case a c = eq_ignore_ascii_case b c.
Proof. unfold eq_ignore_ascii_case. intros Hab%String.eqb_eq. by rewrite Hab. Qed.

Lemma sent_clean req new_body auth : clean_request req → good_auth auth → Forall clean_header (sent_headers req new_body auth).
Proof.
  intros Hr Ha. unfold sent_headers. rewrite !Forall_app. split_and!.
  - apply Forall_forall. intros kv Hkv. unfold kept_headers in Hkv. apply list_elem_of_In, filter_In in Hkv as [Hkv _].
    pose proof (cr_headers _ Hr) as Hh. rewrite Forall_forall in Hh. by apply Hh, list_elem_of_In.
  - destruct auth as [nv|]; cbn; [|done]. constructor; [by apply Ha|done].
  - constructor; [by split|]. constructor; [|done].
    assert (str_forallb (λ c, negb (is_whitespace c)) (decimal (N.of_nat (String.length new_body))) = true) as Hd.
    { eapply str_forallb_mono; [|apply decimal_digits]. intros c Hc. unfold is_ascii_digit in Hc. apply in_range_spec in Hc.
      unfold is_whitespace, in_range. rewrite negb_true_iff, !orb_false_iff, andb_false_iff, !Z.leb_gt, !Z.eqb_neq. lia. }
    split; cbn [fst snd]; [done|by apply trim_clean|done..|]. by apply (lacks_class is_ascii_digit), decimal_digits.
Qed.

Definition not_framing (kv : string * string) : Prop := is_framing_header (fst kv) = false.

Lemma framing_names_not_injected nv : is_credential_header (fst nv) = true → not_framing nv.
Proof.
  unfold is_credential_header, not_framing, is_framing_header. intros [H|H]%orb_true_iff; by rewrite !(eq_case_trans _ _ _ H).
Qed.

Lemma sent_split req new_body auth : good_auth auth →
  ∃ front, sent_headers req new_body auth =
    front ++ [("Connection", "close"); ("Content-Length", decimal (N.of_nat (String.length new_body)))] ∧ Forall not_framing front.
Proof.
  intros Ha. exists (kept_headers (bool_decide (is_Some auth)) (headers req) ++ option_list auth). unfold sent_headers.
  rewrite <-app_assoc. split; [done|]. apply Forall_app. split.
  - apply Forall_forall. intros kv Hkv. unfold kept_headers in Hkv. apply list_elem_of_In, filter_In in Hkv as [_ Hkv].
    apply andb_true_iff in Hkv as [Hkv _]. by apply negb_true_iff in Hkv.
  - destruct auth as [nv|]; cbn; [|done]. constructor; [|done]. by apply framing_names_not_injected, Ha.
Qed.

Lemma find_skip {A} (p : A → bool) front back :
  Forall (λ x, p x = false) front → List.find p (front ++ back) = List.find p back.
Proof. induction 1 as [|x front Hx _ IH]; [done|]. cbn. by rewrite Hx. Qed.

Lemma sent_length req new_body auth :
  good_auth auth → len new_body ≤ MAX_BODY_LEN → extract_content_length (sent_headers req new_body auth) = Ok (len new_body).
Proof.
  intros Ha Hb. destruct (sent_split req new_body auth Ha) as (front & -> & Hf). unfold extract_content_length.
  rewrite find_skip.
  - cbn [List.find fst]. change (eq_ignore_ascii_case "Connection" "content-length") with false.
    change (eq_ignore_ascii_case "Content-Length" "content-length") with true. cbv iota beta.
    rewrite parse_unsigned_decimal by (unfold len, MAX_BODY_LEN, usize_limit in *; lia). cbn [default id].
    unfold len in *. rewrite nat_N_Z. destruct (Z.ltb_spec MAX_BODY_LEN (Z.of_nat (String.length new_body))); [lia|done].
  - eapply Forall_impl; [exact Hf|]. intros kv. unfold not_framing, is_framing_header. by intros [[? _]%orb_false_iff _]%orb_false_iff.
Qed.

Lemma sent_not_chunked req new_body auth : good_auth auth → has_chunked_transfer_encoding (sent_headers req new_body auth) = false.
Proof.
  intros Ha. destruct (sent_split req new_body auth Ha) as (front & -> & Hf). unfold has_chunked_transfer_encoding.
  rewrite existsb_app. apply orb_false_iff. split; [|done]. induction Hf as [|kv front Hkv _ IH]; [done|]. cbn.
  rewrite IH, orb_false_r. unfold not_framing, is_framing_header in Hkv. apply orb_false_iff in Hkv as [Hkv _].
  apply orb_false_iff in Hkv as [_ ->]. done.
Qed.

Lemma split_at_all s rest : split_at (String.length s) (String.append s rest) = (s, rest).
Proof. induction s as [|c s IH]; [by destruct rest|]. cbn. by rewrite IH. Qed.

(** C19: The bytes sent upstream for a request that was read read back as exactly
    one request: the same method, target and version, the headers that were kept with the
    injected credential, one length, which is the length of the body that is sent, and
    [Connection: close]; whatever follows them is not part of it.  This is for a credential,
    if one is injected, under one of the two credential headers and without line breaks or
    blanks at its ends, and for a request which, with the headers that are added, is within
    the bounds the reader has on lines, header lines, the head and the body. *)
Theorem sent_is_one_request s req rest new_body auth more :
  read_http_request s = Ok (Some (req, rest)) → good_auth auth → within_bounds (sent_request req new_body auth) →
  read_http_request (String.append (serialize_http_request_with_auth req new_body (auth_bytes auth)) more)
  = Ok (Some (sent_request req new_body auth, more)).
Proof.
  intros Hr%read_request_clean Ha [Hl Hls Hn Hh Hb]. cbn [sent_request headers body] in *.
  change (request_line (sent_request req new_body auth)) with (request_line req) in *.
  pose proof (headers_size_nonneg (sent_headers req new_body auth)). pose proof Hr as [Hm Ht Hv (Lm & Lt & Lv) Hc].
  set (text := String.append (method req) (String " " (String.append (rq_target req) (String " " (version req))))).
  assert (request_line req = String.append text CRLF) as Hline
    by (unfold request_line, text; rewrite append_assoc; cbn [String.append]; rewrite append_assoc; done).
  assert (lacks LF text = true ∧ ends_clean text = true) as [Hlf Hend].
  { unfold text. change (String " " (version req)) with (String.append " " (version req)).
    change (String " " (String.append ?a ?b)) with (String.append " " (String.append a b)).
    rewrite !lacks_app, Lm, Lt, Lv. split; [done|]. rewrite !ends_clean_app by (by destruct (rq_target req)).
    by destruct (version req). }
  rewrite serialize_lines, !append_assoc, Hline in *. unfold read_http_request.
  rewrite read_text_back by (done || lia). cbn [result_bind]. pose proof (crlf_size text).
  destruct (Z.eqb_spec (len (as_bytes (String.append text CRLF))) 0); [lia|]. rewrite trim_line_end_crlf by done.
  assert (request_line_parts text = Some (method req, rq_target req, version req)) as ->.
  { unfold request_line_parts, text. by rewrite !split_once_app by done. }
  rewrite read_headers_back by (done || lia || by apply sent_clean). cbn [result_bind].
  rewrite sent_not_chunked, sent_length by done. cbn [result_bind]. unfold read_exact.
  pose proof (len_append new_body more). pose proof (len_nonneg more).
  destruct (Z.ltb_spec (len (String.append new_body more)) (len new_body)); [lia|].
  unfold len at 1. rewrite Nat2Z.id, split_at_all. done.
Qed.

Definition sample_bytes : string :=
  String.append "POST /v1/chat HTTP/1.1" (String.append CRLF (String.append "Host: api.openai.com" (String.append CRLF
    (String.append "authorization: Bearer agent" (String.append CRLF (String.append "Content-Length: 4" (String.append CRLF
      (String.append CRLF "bodyGET /next HTTP/1.1")))))))).

Definition sample_request : HttpRequest := {|
  method := "POST"; rq_target := "/v1/chat"; version := "HTTP/1.1";
  headers := [("Host", "api.openai.com"); ("authorization", "Bearer agent"); ("Content-Length", "4")]; body := "body" |}.

Definition sample_auth : option (string * string) := Some ("Authorization", "Bearer real").

Lemma sample_read : read_http_request sample_bytes = Ok (Some (sample_request, "GET /next HTTP/1.1")).
Proof. by vm_compute. Qed.

(** The agent's pipelined second request is not in what is sent, nor is its credential. *)
Lemma sent_is_one_request_witness :
  read_http_request (String.append (serialize_http_request_with_auth sample_request "[x]" (auth_bytes sample_auth)) "more")
  = Ok (Some (sent_request sample_request "[x]" sample_auth, "more")) ∧
  headers (sent_request sample_request "[x]" sample_auth)
  = [("Host", "api.openai.com"); ("Authorization", "Bearer real"); ("Connection", "close"); ("Content-Length", "3")].
Proof.
  split; [|by vm_compute]. apply (sent_is_one_request _ _ _ _ _ _ sample_read).
  - split; [by split|done].
  - split; [by vm_compute| |by vm_compute; lia|by vm_compute|by vm_compute].
    repeat (apply Forall_cons; split; [by vm_compute|]). by apply Forall_nil.
Defined.

(** A header that is neither framing nor replaced is read the same. *)
Lemma sent_header_same req new_body auth name :
  good_auth auth → is_framing_header name = false → (auth = None ∨ is_credential_header name = false) →
  header (sent_request req new_body auth) name = header req name.
Proof.
  intros Ha Hf Hc. unfold header. f_equal. cbn [sent_request headers]. unfold sent_headers, kept_headers.
  assert (∀ (hs back : list (string * string)), Forall (λ kv, eq_ignore_ascii_case (fst kv) name = false) back →
    List.find (λ kv, eq_ignore_ascii_case (fst kv) name)
      (List.filter (λ kv, negb (is_framing_header (fst kv)) && negb (bool_decide (is_Some auth) && is_credential_header (fst kv))) hs ++ back)
    = List.find (λ kv, eq_ignore_ascii_case (fst kv) name) hs) as Hfind.
  { intros hs back Hback. induction hs as [|kv hs IH]; cbn [List.filter List.find].
    - cbn [app]. rewrite <-(app_nil_r back). by rewrite find_skip.
    - destruct (eq_ignore_ascii_case (fst kv) name) eqn:He.
      + assert (is_framing_header (fst kv) = false) as -> by (unfold is_framing_header in *; by rewrite !(eq_case_trans _ _ _ He)).
        assert (bool_decide (is_Some auth) && is_credential_header (fst kv) = false) as ->.
        { destruct Hc as [->|Hc]; [done|]. unfold is_credential_header in *. rewrite !(eq_case_trans _ _ _ He), Hc.
          apply andb_false_r. }
        cbn. by rewrite He.
      + destruct (negb _ && negb _); cbn [app List.find]; rewrite ?He; apply IH. }
  apply Hfind. apply Forall_app. split.
  - destruct auth as [nv|]; cbn; [|done]. constructor; [|done]. destruct Ha as [_ Ha]. destruct Hc as [|Hc]; [done|].
    destruct (eq_ignore_ascii_case (fst nv) name) eqn:He; [|done]. unfold is_credential_header in *.
    rewrite !(eq_case_trans _ _ _ He) in Ha. congruence.
  - unfold is_framing_header in Hf. apply orb_false_iff in Hf as [Hf H3]. apply orb_false_iff in Hf as [H1 H2].
    unfold eq_ignore_ascii_case in H1, H3 |- *. rewrite String.eqb_neq in H1, H3.
    constructor; [|constructor; [|done]]; cbn [fst]; apply String.eqb_neq; intros Hx;
      [apply H3|apply H1]; by rewrite <-Hx.
Qed.

(** ** Carriage returns inside a header

    A carriage return inside a value stays there when the request is sent, so a server that
    ends lines at it reads one header more than was judged. *)
Lemma bare_cr_is_forwarded :
  let s := String.append "GET / HTTP/1.1" (String.append CRLF (String.append "X: a" (String CR
             (String.append "Host: other.example" (String.append CRLF CRLF))))) in
  ∃ req, read_http_request s = Ok (Some (req, EmptyString)) ∧ header req "host" = None ∧
    contains (serialize_http_request req EmptyString) (String.append (String CR "Host: other.example") CRLF) = true.
Proof. eexists. split; [by vm_compute|]. by vm_compute. Qed.
