(* ===== verification/Intercept.v ===== *)
(** * Intercept: what the proxy does with a body, and what it records about it

    aa-core/src/types/sensitive_data/evidence.rs, aa-proxy/src/transmission_evidence.rs,
    the decision side of aa-proxy/src/intercept/mod.rs, decompress_content_encoding of
    aa-proxy/src/proxy/http.rs, aa-proxy/src/probe_adjudication.rs and the record of
    aa-proxy/src/audit_jsonl.rs.  A body is its bytes; the text that is scanned is its
    UTF-8 bytes. *)

From stdpp Require Import base strings list.
From Stdlib Require Import ZArith Lia Bool Ascii String.
From S2P Require Import Prelude.
From S2P Require Import Text.
From S2P Require Import CoreTypes.
From S2P Require Import Findings.
From S2P Require Import Detection.
From S2P Require Import HttpCodec.

Open Scope Z_scope.
Open Scope aasm_scope.

#[local] Arguments ascii_dec : simpl never.

(** ** Execution evidence *)

Module Point.
Inductive EnforcementPoint := PreTransmission | PostTransmission | NotRecorded.
End Point.

Module Sent.
Inductive TransmissionEvidence :=
| NotForwarded | ForwardedClean | ForwardedCarryingSensitiveValue | ForwardedNotInspected | NotRecorded.

#[global] Instance TransmissionEvidence_eq_dec : EqDecision TransmissionEvidence.
Proof. solve_decision. Defined.
End Sent.

Definition proves_transmission (t : Sent.TransmissionEvidence) : bool :=
  match t with
  | Sent.ForwardedClean | Sent.ForwardedCarryingSensitiveValue | Sent.ForwardedNotInspected => true
  | _ => false
  end.

Definition proves_non_transmission (t : Sent.TransmissionEvidence) : bool :=
  match t with Sent.NotForwarded => true | _ => false end.

Record ExecutionEvidence := {
  enforcement_point : Point.EnforcementPoint;
  transmission : Sent.TransmissionEvidence;
  ev_mode : EnforcementMode;
}.

Definition establishes_non_transmission (e : ExecutionEvidence) : bool :=
  match enforcement_point e with Point.PreTransmission => true | _ => false end
  && proves_non_transmission (transmission e)
  && match ev_mode e with Enforce => true | _ => false end.

(** ** Verdicts *)

Module OnFinding.
Inductive CredentialAction := Block | RedactOnly | AlertOnly.
End OnFinding.

Module Verdict.
Inductive VerdictDecision := Forward | ForwardRedacted | Block | AlertAndForward.

#[global] Instance VerdictDecision_eq_dec : EqDecision VerdictDecision.
Proof. solve_decision. Defined.
End Verdict.

Record InterceptVerdict := {
  iv_decision : Verdict.VerdictDecision;
  iv_findings : list CredentialFinding;
  iv_redacted_body : option string;
}.

Definition observed_mode (decision : Verdict.VerdictDecision) (action : OnFinding.CredentialAction) : EnforcementMode :=
  match decision with
  | Verdict.Block | Verdict.ForwardRedacted => Enforce
  | Verdict.AlertAndForward => Observe
  | Verdict.Forward => match action with OnFinding.Block | OnFinding.RedactOnly => Enforce | OnFinding.AlertOnly => Observe end
  end.

Definition not_forwarded (decision : Verdict.VerdictDecision) (action : OnFinding.CredentialAction) : ExecutionEvidence :=
  {| enforcement_point := Point.PreTransmission; transmission := Sent.NotForwarded; ev_mode := observed_mode decision action |}.

Definition not_forwarded_by_rule : ExecutionEvidence :=
  {| enforcement_point := Point.PreTransmission; transmission := Sent.NotForwarded; ev_mode := Enforce |}.

Definition terminated_by_probe_protocol (decision : Verdict.VerdictDecision) (action : OnFinding.CredentialAction)
  : ExecutionEvidence :=
  {| enforcement_point := Point.PreTransmission; transmission := Sent.NotRecorded; ev_mode := observed_mode decision action |}.

Definition forwarded (decision : Verdict.VerdictDecision) (action : OnFinding.CredentialAction) (reinspection : option bool)
  : ExecutionEvidence :=
  {| enforcement_point := Point.PreTransmission;
     transmission := match reinspection with
                     | Some true => Sent.ForwardedClean
                     | Some false => Sent.ForwardedCarryingSensitiveValue
                     | None => Sent.ForwardedNotInspected
                     end;
     ev_mode := observed_mode decision action |}.

(** ** Bodies as text *)

Definition is_cont (c : ascii) : bool := in_range 128 191 c.

(** The continuation bytes a first byte asks for, and the range of the second. *)
Definition utf8_lead (b : ascii) : option (nat * (Z * Z)) :=
  if in_range 194 223 b then Some (1%nat, (128, 191))
  else if code b =? 224 then Some (2%nat, (160, 191))
  else if code b =? 237 then Some (2%nat, (128, 159))
  else if in_range 225 239 b then Some (2%nat, (128, 191))
  else if code b =? 240 then Some (3%nat, (144, 191))
  else if in_range 241 243 b then Some (3%nat, (128, 191))
  else if code b =? 244 then Some (3%nat, (128, 143))
  else None.

(** The bytes after a lead byte that belong to it, whether they complete it, and the rest. *)
Fixpoint utf8_tail (wanted : nat) (range : Z * Z) (s : string) : string * bool * string :=
  match wanted with
  | O => (EmptyString, true, s)
  | S wanted' =>
      match s with
      | String c rest =>
          if in_range (fst range) (snd range) c
          then let '(t, ok, rest') := utf8_tail wanted' (128, 191) rest in (String c t, ok, rest')
          else (EmptyString, false, s)
      | EmptyString => (EmptyString, false, s)
      end
  end.

(** U+FFFD. *)
Definition replacement : string := String (chr 239) (String (chr 191) (String (chr 189) EmptyString)).

Fixpoint lossy (fuel : nat) (s : string) : string :=
  match fuel, s with
  | S fuel', String c rest =>
      if code c <? 128 then String c (lossy fuel' rest)
      else match utf8_lead c with
           | Some (wanted, range) =>
               let '(t, ok, rest') := utf8_tail wanted range rest in
               String.append (if ok then String c t else replacement) (lossy fuel' rest')
           | None => String.append replacement (lossy fuel' rest)
           end
  | _, _ => EmptyString
  end.

(** [String::from_utf8_lossy], as UTF-8 bytes; at least one byte is read per round. *)
Definition from_utf8_lossy (s : string) : string := lossy (String.length s) s.

(** ** Decompression

    The decoders of flate2: the output and what they left of the input. *)
Class Inflate := {
  multi_gz : string → option (string * string);
  zlib : string → option (string * string);
  raw_deflate : string → option (string * string);
}.

Section Decompress.
Context {IF : Inflate}.

Definition read_bounded (decoded : option (string * string)) : option (string * string) :=
  match decoded with
  | Some (out, unread) => if MAX_BODY_LEN <? len out then None else Some (out, unread)
  | None => None
  end.

Definition require_fully_consumed (r : string * string) : option string :=
  if is_empty (snd r) then Some (fst r) else None.

(** [None] is every refusal. *)
Definition decompress_content_encoding (encoding body : string) : option string :=
  let token := trim encoding in
  if negb (lacks "," token) then None
  else if eq_ignore_ascii_case token "gzip" || eq_ignore_ascii_case token "x-gzip" then
    match read_bounded (multi_gz body) with Some r => require_fully_consumed r | None => None end
  else if eq_ignore_ascii_case token "deflate" then
    match read_bounded (zlib body) with
    | Some r => require_fully_consumed r
    | None => match read_bounded (raw_deflate body) with Some r => require_fully_consumed r | None => None end
    end
  else None.

Inductive ScanSource := Plaintext (bytes : string) (encoded : bool) | Uninspectable.

Definition scan_source (body : string) (content_encoding : option string) : ScanSource :=
  match content_encoding with
  | None => Plaintext body false
  | Some enc =>
      let token := trim enc in
      if is_empty token || eq_ignore_ascii_case token "identity" then Plaintext body false
      else match decompress_content_encoding token body with
           | Some decoded => Plaintext decoded true
           | None => Uninspectable
           end
  end.
End Decompress.

(** ** The interceptor *)

Section Interceptor.
Context {DT : Detectors} {IF : Inflate}.

(** Whether scanning is enabled; the scanner itself is the detectors'. *)
Definition Scanner : Type := bool.

Definition is_clean (text : string) : bool := match scanner_scan text with [] => true | _ => false end.

Definition verdict (d : Verdict.VerdictDecision) (fs : list CredentialFinding) (b : option string) : InterceptVerdict :=
  {| iv_decision := d; iv_findings := fs; iv_redacted_body := b |}.

Definition intercept_request (scanner : Scanner) (body : string) (content_encoding : option string)
  (action : OnFinding.CredentialAction) : InterceptVerdict :=
  match scanner with
  | false => verdict Verdict.Forward [] None
  | true =>
      match scan_source body content_encoding with
      | Uninspectable => verdict Verdict.Block [] None
      | Plaintext bytes encoded =>
          let text := from_utf8_lossy bytes in
          let findings := scanner_scan text in
          if is_clean text then verdict Verdict.Forward [] None
          else match action with
               | OnFinding.Block => verdict Verdict.Block findings None
               | OnFinding.RedactOnly =>
                   if encoded then verdict Verdict.Block findings None
                   else
                     let redacted := redact findings text in
                     if negb (is_clean redacted) then verdict Verdict.Block findings None
                     else verdict Verdict.ForwardRedacted findings (Some redacted)
               | OnFinding.AlertOnly => verdict Verdict.AlertAndForward findings None
               end
      end
  end.

Definition inspects (scanner : Scanner) : bool := scanner.

Definition forwarded_payload_is_clean (scanner : Scanner) (bytes : string) : option bool :=
  if scanner then Some (is_clean (from_utf8_lossy bytes)) else None.

Definition redact_target (scanner : Scanner) (target : string) : string :=
  if scanner then redact (scanner_scan target) target else target.

(** What the proxy says of a request it resolved to forward. *)
Definition observe_forwarding (scanner : Scanner) (action : OnFinding.CredentialAction) (v : InterceptVerdict)
  : ExecutionEvidence :=
  let reinspection :=
    match iv_decision v with
    | Verdict.ForwardRedacted =>
        match iv_redacted_body v with Some bytes => forwarded_payload_is_clean scanner bytes | None => None end
    | Verdict.AlertAndForward => Some false
    | Verdict.Forward => if inspects scanner then Some true else None
    | Verdict.Block => None
    end in
  forwarded (iv_decision v) action reinspection.

Definition probe_execution_evidence (action : OnFinding.CredentialAction) (v : InterceptVerdict) : ExecutionEvidence :=
  match iv_decision v with
  | Verdict.Block => not_forwarded (iv_decision v) action
  | _ => terminated_by_probe_protocol (iv_decision v) action
  end.

(** The body that goes upstream. *)
Definition forward_body (v : InterceptVerdict) (body : string) : string :=
  match iv_decision v with Verdict.ForwardRedacted => default EmptyString (iv_redacted_body v) | _ => body end.
End Interceptor.

(** ** Probes *)

Definition PROBE_CORRELATION_HEADER : string := "x-agent-assembly-probe".

Definition ProbeCorrelation_parse (raw : string) : option string :=
  let trimmed := trim raw in
  if (String.length trimmed =? 32)%nat && str_forallb (λ c, is_ascii_digit c || in_range 97 102 c) trimmed
  then Some trimmed else None.

Module Probe.
Inductive ProbeDecision := Blocked | ForwardedRedacted | AlertedAndForwarded | Forwarded.
Inductive ForwardedPayload := NotForwarded | Clean | CarriesCredential | NotInspected.
End Probe.

Record ProbeAdjudication := {
  pa_correlation_id : string;
  pa_decision : Probe.ProbeDecision;
  pa_findings : nat;
  pa_forwarded_payload : Probe.ForwardedPayload;
}.

Definition payload (forwarded_is_clean : option bool) : Probe.ForwardedPayload :=
  match forwarded_is_clean with
  | Some true => Probe.Clean
  | Some false => Probe.CarriesCredential
  | None => Probe.NotInspected
  end.

Definition ProbeAdjudication_new (correlation : string) (v : InterceptVerdict) (forwarded : option bool) : ProbeAdjudication :=
  let '(d, p) :=
    match iv_decision v with
    | Verdict.Block => (Probe.Blocked, Probe.NotForwarded)
    | Verdict.ForwardRedacted => (Probe.ForwardedRedacted, payload forwarded)
    | Verdict.AlertAndForward => (Probe.AlertedAndForwarded, payload forwarded)
    | Verdict.Forward => (Probe.Forwarded, payload forwarded)
    end in
  {| pa_correlation_id := correlation; pa_decision := d; pa_findings := List.length (iv_findings v);
     pa_forwarded_payload := p |}.

(** ** The record *)

Module Audit.
Inductive ProxyAuditDecision := Forwarded | ForwardedRedacted | Blocked | AnsweredLocally | Allowed.

#[global] Instance ProxyAuditDecision_eq_dec : EqDecision ProxyAuditDecision.
Proof. solve_decision. Defined.
End Audit.

Module Rule.
Inductive RefusalRule :=
| EgressDenylist | EgressAllowlist | SsrfBlockedAddress | PlaintextLlmDowngrade | McpToolCall | GatewayEgressPolicy
| CredentialRevoked.
End Rule.

(** The finding without its offsets. *)
Record PersistedFinding := { pf_kind : CredentialKind; pf_matched : string }.

Definition project (f : CredentialFinding) : PersistedFinding :=
  {| pf_kind := cf_kind f; pf_matched := cf_matched f |}.

Definition MAX_PERSISTED_FINDINGS : nat := 256.

Definition bound_persisted_findings (findings : list CredentialFinding) : list PersistedFinding * Z :=
  let kept := map project (take MAX_PERSISTED_FINDINGS findings) in
  (kept, Z.of_nat (List.length findings - List.length kept) mod 4294967296).

Definition MAX_PERSISTED_BODY_BYTES : Z := 8 * 1024.

(** "…[truncated]", in UTF-8. *)
Definition BODY_TRUNCATION_MARKER : string :=
  String (chr 226) (String (chr 128) (String (chr 166) "[truncated]")).

(** The longest prefix of at most [n] bytes that ends before the start of a character. *)
Fixpoint char_prefix (n : nat) (s : string) : string * bool :=
  match s with
  | EmptyString => (EmptyString, true)
  | String c rest =>
      match n with
      | O => (EmptyString, negb (is_cont c))
      | S n' =>
          let '(p, ok) := char_prefix n' rest in
          if ok then (String c p, true) else (EmptyString, negb (is_cont c))
      end
  end.

Definition bound_persisted_body (body : string) : string :=
  if len body <=? MAX_PERSISTED_BODY_BYTES then body
  else String.append (fst (char_prefix (Z.to_nat MAX_PERSISTED_BODY_BYTES) body)) BODY_TRUNCATION_MARKER.

Record DecisionRecord := {
  dr_agent_id : option string;
  dr_host : string;
  dr_method : string;
  dr_path : string;
  dr_decision : Audit.ProxyAuditDecision;
  dr_refusal_rule : option Rule.RefusalRule;
  dr_findings : list CredentialFinding;
  dr_redacted_body : option string;
  dr_probe_correlation : option string;
}.

Record ProxyAuditEntry := {
  pe_ts_ms : Z;
  pe_agent_id : option string;
  pe_agent_unattributed : bool;
  pe_host : string;
  pe_method : string;
  pe_path : string;
  pe_decision : Audit.ProxyAuditDecision;
  pe_refusal_rule : option Rule.RefusalRule;
  pe_execution : ExecutionEvidence;
  pe_probe_correlation : option string;
  pe_credential_findings : list PersistedFinding;
  pe_findings_omitted : Z;
  pe_redacted_body : option string;
}.

(** [DecisionRecord::send], with the clock's reading. *)
Definition entry_of (now_ms : Z) (r : DecisionRecord) (execution : ExecutionEvidence) : ProxyAuditEntry :=
  let '(kept, omitted) := bound_persisted_findings (dr_findings r) in {|
  pe_ts_ms := now_ms;
  pe_agent_id := dr_agent_id r;
  pe_agent_unattributed := bool_decide (dr_decision r = Audit.Allowed) && bool_decide (dr_agent_id r = None);
  pe_host := dr_host r;
  pe_method := dr_method r;
  pe_path := dr_path r;
  pe_decision := dr_decision r;
  pe_refusal_rule := dr_refusal_rule r;
  pe_execution := execution;
  pe_probe_correlation := dr_probe_correlation r;
  pe_credential_findings := kept;
  pe_findings_omitted := omitted;
  pe_redacted_body := dr_redacted_body r |}.
