(* ===== verification/JsonText.v ===== *)
(** * JsonText: JSON documents and the texts they are written as

    The readings of a body in aa-proxy/src/intercept/mcp.rs that need no JSON-RPC: lenient
    texts, the lexical decoder of string tokens, the encoding a Python peer detects, and the
    folding of keys.  A text is its UTF-8 bytes, one [ascii] each.  serde_json is the class
    [Serde]; what its derived readers make of a document is defined here. *)

From stdpp Require Import base strings list.
From Stdlib Require Import ZArith Lia Bool Ascii String.
From S2P Require Import Prelude.
From S2P Require Import Text.
From S2P Require Import NetAddr.
From S2P Require Import HttpCodec.
From S2P Require Import Intercept.

Open Scope Z_scope.
Open Scope aasm_scope.

#[local] Arguments ascii_dec : simpl never.

(** ** Characters in UTF-8 *)

Definition byte2 (a b : Z) : string := String (chr a) (String (chr b) EmptyString).

(** [char::from_u32] or U+FFFD, written out. *)
Definition utf8_char (cp : Z) : string :=
  if cp <? 128 then String (chr cp) EmptyString
  else if cp <? 2048 then byte2 (192 + cp / 64) (128 + cp mod 64)
  else if (55296 <=? cp) && (cp <? 57344) then replacement
  else if cp <? 65536 then String (chr (224 + cp / 4096)) (byte2 (128 + cp / 64 mod 64) (128 + cp mod 64))
  else if cp <? 1114112 then
    String (chr (240 + cp / 262144)) (String (chr (128 + cp / 4096 mod 64)) (byte2 (128 + cp / 64 mod 64) (128 + cp mod 64)))
  else replacement.

(** White space of one, two and three bytes. *)
Definition ws1 (a : ascii) : bool := in_range 9 13 a || (code a =? 32).
Definition ws2 (a b : ascii) : bool := (code a =? 194) && ((code b =? 133) || (code b =? 160)).
Definition ws3 (a b c : ascii) : bool :=
  (code a =? 225) && (code b =? 154) && (code c =? 128)
  || (code a =? 226) && (code b =? 128) && (in_range 128 138 c || in_range 168 169 c || (code c =? 175))
  || (code a =? 226) && (code b =? 129) && (code c =? 159)
  || (code a =? 227) && (code b =? 128) && (code c =? 128).

(** [str::trim_start] of a text in UTF-8. *)
Fixpoint trim_start (s : string) : string :=
  match s with
  | String a r1 =>
      if ws1 a then trim_start r1
      else match r1 with
           | String b r2 =>
               if ws2 a b then trim_start r2
               else match r2 with
                    | String c r3 => if ws3 a b c then trim_start r3 else s
                    | EmptyString => s
                    end
           | EmptyString => s
           end
  | EmptyString => s
  end.

(** U+FEFF. *)
Definition BOM : string := String (chr 239) (byte2 187 191).

(** [trim_start_matches('\u{FEFF}')]; at least three bytes go in a round. *)
Fixpoint trim_boms (fuel : nat) (s : string) : string :=
  match fuel, strip_prefix s BOM with
  | S fuel', Some rest => trim_boms fuel' rest
  | _, _ => s
  end.

Definition lenient_json_text (bytes : string) : string := from_utf8_lossy (default bytes (strip_prefix bytes BOM)).

Definition looks_like_json_document (text : string) : bool :=
  match trim_start text with
  | String c _ => (code c =? 123) || (code c =? 91)
  | EmptyString => false
  end.

(** ** String tokens *)

Definition MAX_DECODED_JSON_STRINGS : Z := 64 * 1024 * 1024.

(** Four hexadecimal digits. *)
Definition hex4 (s : string) : option (Z * string) :=
  match s with
  | String a (String b (String c (String d rest))) =>
      match to_digit 16 a, to_digit 16 b, to_digit 16 c, to_digit 16 d with
      | Some x, Some y, Some z, Some w => Some (((x * 16 + y) * 16 + z) * 16 + w, rest)
      | _, _, _, _ => None
      end
  | _ => None
  end.

(** The second half of a surrogate pair. *)
Definition low_surrogate (s : string) : option (Z * string) :=
  match s with
  | String b (String u rest) =>
      if (code b =? 92) && (code u =? 117) then
        match hex4 rest with
        | Some (lo, rest') => if (56320 <=? lo) && (lo <=? 57343) then Some (lo, rest') else None
        | None => None
        end
      else None
  | _ => None
  end.

(** What stands for an escape, given its letter and the text after it. *)
Definition unescape (e : ascii) (rest : string) : string * string :=
  if code e =? 110 then (String LF EmptyString, rest)
  else if code e =? 116 then (String (chr 9) EmptyString, rest)
  else if code e =? 114 then (String CR EmptyString, rest)
  else if code e =? 98 then (String (chr 8) EmptyString, rest)
  else if code e =? 102 then (String (chr 12) EmptyString, rest)
  else if code e =? 117 then
    match hex4 rest with
    | None => (String e EmptyString, rest)
    | Some (hi, rest1) =>
        if (55296 <=? hi) && (hi <=? 56319) then
          match low_surrogate rest1 with
          | Some (lo, rest2) => (utf8_char (65536 + (hi - 55296) * 1024 + (lo - 56320)), rest2)
          | None => (replacement, rest1)
          end
        else (utf8_char hi, rest1)
    end
  else (String e EmptyString, rest).

(** The loops of [decode_json_strings_capped]: [written] bytes are out, and the next character
    is inside a string token or not.  Every round reads a character. *)
Fixpoint decode_loop (fuel : nat) (cap written : Z) (inside : bool) (s : string) : option string :=
  match fuel with
  | O => Some EmptyString
  | S fuel' =>
      if inside then
        if cap <? written then None
        else
          match s with
          | EmptyString => Some (String LF EmptyString)
          | String c rest =>
              if ascii_dec c quote_c then option_map (String LF) (decode_loop fuel' cap (written + 1) false rest)
              else if ascii_dec c backslash_c then
                match rest with
                | EmptyString => Some (String LF EmptyString)
                | String e rest1 =>
                    let '(t, rest2) := unescape e rest1 in
                    option_map (String.append t) (decode_loop fuel' cap (written + len t) true rest2)
                end
              else option_map (String c) (decode_loop fuel' cap (written + 1) true rest)
          end
      else
        match s with
        | EmptyString => Some EmptyString
        | String c rest => decode_loop fuel' cap written (if ascii_dec c quote_c then true else false) rest
        end
  end.

Definition decode_json_strings_capped (text : string) (cap : Z) : option string :=
  decode_loop (S (String.length text)) cap 0 false text.

Definition decode_json_strings (text : string) : option string :=
  decode_json_strings_capped text MAX_DECODED_JSON_STRINGS.

(** ** Keys *)

(** Lower case, with the long s and the Kelvin sign. *)
Fixpoint fold_key (key : string) : string :=
  match key with
  | EmptyString => EmptyString
  | String a r1 =>
      match r1 with
      | String b r2 =>
          if (code a =? 197) && (code b =? 191) then String "s" (fold_key r2)
          else match r2 with
               | String c r3 =>
                   if (code a =? 226) && (code b =? 132) && (code c =? 170) then String "k" (fold_key r3)
                   else String (lower_char a) (fold_key r1)
               | EmptyString => String (lower_char a) (fold_key r1)
               end
      | EmptyString => String (lower_char a) EmptyString
      end
  end.

(** ** Encodings *)

Inductive DetectedEncoding := Utf8 | Utf16 (little_endian : bool) | Utf32 (little_endian : bool).

#[global] Instance DetectedEncoding_eq_dec : EqDecision DetectedEncoding.
Proof. solve_decision. Defined.

Definition nul (c : ascii) : bool := code c =? 0.

Definition detect_json_encoding (b : string) : DetectedEncoding :=
  let bytes := foldr (λ z t, String (chr z) t) EmptyString in
  if starts_with b (bytes [255; 254; 0; 0]) then Utf32 true
  else if starts_with b (bytes [0; 0; 254; 255]) then Utf32 false
  else if starts_with b (bytes [255; 254]) then Utf16 true
  else if starts_with b (bytes [254; 255]) then Utf16 false
  else
    match b with
    | String b0 (String b1 (String b2 (String b3 _))) =>
        if nul b0 then (if negb (nul b1) then Utf16 false else Utf32 false)
        else if nul b1 then (if negb (nul b2) || negb (nul b3) then Utf16 true else Utf32 true)
        else Utf8
    | String b0 (String b1 EmptyString) => if nul b0 then Utf16 false else if nul b1 then Utf16 true else Utf8
    | _ => Utf8
    end.

Fixpoint units16 (le : bool) (s : string) : list Z :=
  match s with
  | String a (String b rest) => (if le then code b * 256 + code a else code a * 256 + code b) :: units16 le rest
  | _ => []
  end.

(** [char::decode_utf16], a lone surrogate as U+FFFD. *)
Fixpoint decode_utf16 (units : list Z) : string :=
  match units with
  | [] => EmptyString
  | u :: rest =>
      if (55296 <=? u) && (u <=? 56319) then
        match rest with
        | lo :: rest' =>
            if (56320 <=? lo) && (lo <=? 57343)
            then String.append (utf8_char (65536 + (u - 55296) * 1024 + (lo - 56320))) (decode_utf16 rest')
            else String.append replacement (decode_utf16 rest)
        | [] => replacement
        end
      else String.append (utf8_char u) (decode_utf16 rest)
  end.

Fixpoint units32 (le : bool) (s : string) : list Z :=
  match s with
  | String a (String b (String c (String d rest))) =>
      (if le then ((code d * 256 + code c) * 256 + code b) * 256 + code a
       else ((code a * 256 + code b) * 256 + code c) * 256 + code d) :: units32 le rest
  | _ => []
  end.

Definition decode_as (bytes : string) (enc : DetectedEncoding) : string :=
  let text :=
    match enc with
    | Utf8 => lenient_json_text bytes
    | Utf16 le => decode_utf16 (units16 le bytes)
    | Utf32 le => foldr (λ cp t, String.append (utf8_char cp) t) EmptyString (units32 le bytes)
    end in
  trim_boms (String.length text) text.

(** ** Documents

    A document keeps the members of an object as they are written, repeated ones too. *)
Inductive Json :=
| JNull
| JBool (b : bool)
| JNumber (text : string)
| JString (s : string)
| JArray (items : list Json)
| JObject (members : list (string * Json)).

(** Of the members of one name the last one stays. *)
Fixpoint last_wins {A} (members : list (string * A)) : list (string * A) :=
  match members with
  | [] => []
  | (k, v) :: rest => if existsb (λ m, String.eqb (fst m) k) rest then last_wins rest else (k, v) :: last_wins rest
  end.

(** [serde_json::Value]. *)
Fixpoint value_of (t : Json) : Json :=
  match t with
  | JArray items => JArray (map value_of items)
  | JObject members => JObject (last_wins (map (λ m, (fst m, value_of (snd m))) members))
  | _ => t
  end.

Definition as_str (v : Json) : option string := match v with JString s => Some s | _ => None end.

(** [Map::get]. *)
Definition get (members : list (string * Json)) (name : string) : option Json :=
  option_map snd (List.find (λ m, String.eqb (fst m) name) members).

(** ** Derived readers

    [#[derive(Deserialize)]]: a field at most once, unknown members skipped, a struct also
    from an array of its fields. *)

Definition read_field {A} (read : Json → option A) (missing : A) (name : string) (members : list (string * Json)) : option A :=
  match List.filter (λ m, String.eqb (fst m) name) members with
  | [] => Some missing
  | [m] => read (snd m)
  | _ => None
  end.

Definition read_opt_string (t : Json) : option (option string) :=
  match t with JNull => Some None | JString s => Some (Some s) | _ => None end.

Record Params := { pm_name : option string; pm_arguments : Json }.

Definition params_of (t : Json) : option Params :=
  match t with
  | JObject members =>
      match read_field read_opt_string None "name" members, read_field (Some ∘ value_of) JNull "arguments" members with
      | Some n, Some a => Some {| pm_name := n; pm_arguments := a |}
      | _, _ => None
      end
  | JArray [n] => option_map (λ n, {| pm_name := n; pm_arguments := JNull |}) (read_opt_string n)
  | JArray [n; a] => option_map (λ n, {| pm_name := n; pm_arguments := value_of a |}) (read_opt_string n)
  | _ => None
  end.

Definition read_opt_params (t : Json) : option (option Params) :=
  match t with JNull => Some None | _ => option_map Some (params_of t) end.

Record Envelope := { ev_jsonrpc : option string; ev_method : option string; ev_params : option Params }.

Definition envelope_of (t : Json) : option Envelope :=
  match t with
  | JObject members =>
      match read_field read_opt_string None "jsonrpc" members, read_field read_opt_string None "method" members,
            read_field read_opt_params None "params" members with
      | Some j, Some m, Some p => Some {| ev_jsonrpc := j; ev_method := m; ev_params := p |}
      | _, _, _ => None
      end
  | JArray [j; m; p] =>
      match read_opt_string j, read_opt_string m, read_opt_params p with
      | Some j, Some m, Some p => Some {| ev_jsonrpc := j; ev_method := m; ev_params := p |}
      | _, _, _ => None
      end
  | _ => None
  end.

(** serde_json: the document a text is written as, if it is one; the two readers, which also
    refuse for other reasons, such as depth; the writers. *)
Class Serde := {
  json_document : string → option Json;
  from_str_value : string → option Json;
  from_str_envelope : string → option Envelope;
  to_vec : Json → string;
  to_json_string : string → string;
}.
