(* ===== verification/Sse.v ===== *)
(** * Sse: the event parser

    aa-proxy/src/proxy/sse.rs: decoded bytes of a stream go in, in pieces, and the canonical
    forms of the events they complete come out. *)

From stdpp Require Import base strings list.
From Stdlib Require Import ZArith Lia Bool Ascii String.
From S2P Require Import Prelude.
From S2P Require Import Text.
From S2P Require Import HttpCodec.
From S2P Require Import Intercept.
From S2P Require Import JsonText.
From S2P Require Import HttpProps.

Open Scope Z_scope.
Open Scope aasm_scope.

#[local] Arguments ascii_dec : simpl never.

Definition MAX_EVENT_BYTES : Z := 1024 * 1024.

Definition KEEPALIVE : string := String ":" (String LF (String LF EmptyString)).

Module SseError.
Inductive t := EventTooLarge | NotUtf8.
End SseError.

(** [std::str::from_utf8] accepts; at least one byte is read per round. *)
Fixpoint utf8_ok (fuel : nat) (s : string) : bool :=
  match fuel, s with
  | S fuel', String c rest =>
      if code c <? 128 then utf8_ok fuel' rest
      else match utf8_lead c with
           | Some (wanted, range) => let '(_, ok, rest') := utf8_tail wanted range rest in ok && utf8_ok fuel' rest'
           | None => false
           end
  | _, _ => true
  end.

Definition valid_utf8 (s : string) : bool := utf8_ok (String.length s) s.

Record SseParser := {
  sp_buf : string;
  sp_pending_cr : bool;
  sp_seen_event : bool;
  sp_scanned : nat;
}.

Definition sse_new : SseParser :=
  {| sp_buf := EmptyString; sp_pending_cr := false; sp_seen_event := false; sp_scanned := 0 |}.

Definition has_partial (p : SseParser) : bool := negb (is_empty (sp_buf p)).

(** The first loop of [push]: what is appended to the buffer, and whether the last byte was a
    carriage return. *)
Fixpoint normalise (pending_cr : bool) (bytes : string) : string * bool :=
  match bytes with
  | EmptyString => (EmptyString, pending_cr)
  | String b rest =>
      if pending_cr && (if ascii_dec b LF then true else false) then normalise false rest
      else if ascii_dec b CR then let '(out, cr) := normalise true rest in (String LF out, cr)
      else let '(out, cr) := normalise false rest in (String b out, cr)
  end.

(** The position of the first two line feeds. *)
Fixpoint find_blank (s : string) : option nat :=
  match s with
  | EmptyString => None
  | String c rest =>
      match rest with
      | String d _ => if ascii_dec c LF then (if ascii_dec d LF then Some 0%nat else option_map S (find_blank rest))
                      else option_map S (find_blank rest)
      | EmptyString => None
      end
  end.

Definition is_field (name : string) : bool := existsb (String.eqb name) ["data"; "event"; "id"; "retry"].

(** The canonical form of one line; [None] when it is dropped. *)
Definition canonical_line (line : string) : option string :=
  let '(name, value) := default (line, EmptyString) (split_once ":" line) in
  let value := default value (strip_prefix value " ") in
  if negb (is_field name) then None
  else if String.eqb name "id" && negb (lacks (chr 0) value) then None
  else Some (String.append name (String.append ": " (String.append value (String LF EmptyString)))).

Definition is_comment (line : string) : bool := starts_with line ":".

(** The kept lines, and whether there was a comment. *)
Fixpoint canonical_lines (ls : list string) : string * bool :=
  match ls with
  | [] => (EmptyString, false)
  | line :: rest =>
      let '(out, comment) := canonical_lines rest in
      if is_empty line then (out, comment)
      else if is_comment line then (out, true)
      else (String.append (default EmptyString (canonical_line line)) out, comment)
  end.

Definition canonical_text (text : string) : option string :=
  let '(out, comment) := canonical_lines (split_on LF text) in
  if is_empty out then (if comment then Some KEEPALIVE else None)
  else Some (String.append out (String LF EmptyString)).

Definition canonicalise (seen_event : bool) (raw : string) : result (option string) SseError.t :=
  if negb (valid_utf8 raw) then Err SseError.NotUtf8
  else Ok (canonical_text (if seen_event then raw else default raw (strip_prefix raw BOM))).

Definition skip (n : nat) (s : string) : string := snd (split_at n s).

(** The second loop of [push]; every round takes at least two bytes from the buffer. *)
Fixpoint drain_events (fuel : nat) (buf : string) (seen : bool) (scanned : nat)
  : result (list string * string * bool * nat) SseError.t :=
  match fuel with
  | O => Ok ([], buf, seen, scanned)
  | S fuel' =>
      let from := (scanned - 1)%nat in
      match find_blank (skip from buf) with
      | None => Ok ([], buf, seen, String.length buf)
      | Some rel =>
          let '(raw, rest) := split_at (from + rel) buf in
          let? canonical := canonicalise seen raw in
          let? (events, buf', seen', scanned') := drain_events fuel' (skip 2 rest) true 0 in
          Ok (match canonical with Some e => e :: events | None => events end, buf', seen', scanned')
      end
  end.

Definition is_lf (c : ascii) : bool := if ascii_dec c LF then true else false.

Definition push (p : SseParser) (bytes : string) : result (list string * SseParser) SseError.t :=
  let '(more, cr) := normalise (sp_pending_cr p) bytes in
  let buf := String.append (sp_buf p) more in
  let? (out, buf, seen, scanned) := drain_events (S (String.length buf)) buf (sp_seen_event p) (sp_scanned p) in
  let '(blank, buf) := take_while is_lf buf in
  if MAX_EVENT_BYTES <? len buf then Err SseError.EventTooLarge
  else Ok (out, {| sp_buf := buf; sp_pending_cr := cr; sp_seen_event := seen; sp_scanned := scanned - String.length blank |}).

(** ** Events do not depend on packets, and read back as they are forwarded *)

#[local] Arguments ascii_dec : simpl never.

(** ** The first blank line *)

(** The text before the first two line feeds, and after. *)
Fixpoint cut_blank (s : string) : option (string * string) :=
  match s with
  | EmptyString => None
  | String c rest =>
      match rest with
      | String d rest' =>
          if ascii_dec c LF
          then (if ascii_dec d LF then Some (EmptyString, rest') else option_map (λ ab, (String c (fst ab), snd ab)) (cut_blank rest))
          else option_map (λ ab, (String c (fst ab), snd ab)) (cut_blank rest)
      | EmptyString => None
      end
  end.

Definition blank : string := String LF (String LF EmptyString).

Lemma find_cut s : find_blank s = option_map (λ ab, String.length (fst ab)) (cut_blank s).
Proof.
  induction s as [|c s IH]; [done|]. destruct s as [|d s]; [done|]. remember (String d s) as t eqn:Ht. cbn [find_blank cut_blank].
  rewrite IH, Ht. destruct (ascii_dec c LF); [destruct (ascii_dec d LF); [done|]|]; rewrite <-Ht; by destruct (cut_blank t) as [[]|].
Qed.

Lemma cut_cons c s :
  cut_blank (String c s) = None ∧ cut_blank s = None ∨
  (∃ rest, c = LF ∧ s = String LF rest ∧ cut_blank (String c s) = Some (EmptyString, rest)) ∨
  ∃ raw rest, cut_blank s = Some (raw, rest) ∧ cut_blank (String c s) = Some (String c raw, rest).
Proof.
  destruct s as [|d s]; [by left|]. remember (String d s) as t eqn:Ht. cbn [cut_blank]. rewrite Ht. cbv iota beta. rewrite <-Ht.
  destruct (ascii_dec c LF) as [->|]; [destruct (ascii_dec d LF) as [->|]; [right; left; by exists s|]|];
    destruct (cut_blank t) as [[raw rest]|]; solve [by left|right; right; by exists raw, rest].
Qed.

Lemma cut_split s raw rest : cut_blank s = Some (raw, rest) → s = String.append raw (String.append blank rest).
Proof.
  revert raw. induction s as [|c s IH]; intros raw Hc; [done|].
  destruct (cut_cons c s) as [[H _]|[(r & -> & -> & H)|(raw' & r & Hs & H)]]; rewrite H in Hc; [done| |]; injection Hc as <- <-; [done|].
  cbn [String.append]. by rewrite <-(IH raw' Hs).
Qed.

Lemma cut_app s t raw rest : cut_blank s = Some (raw, rest) → cut_blank (String.append s t) = Some (raw, String.append rest t).
Proof.
  revert raw. induction s as [|c s IH]; intros raw Hc; [done|]. cbn [String.append].
  destruct (cut_cons c s) as [[H _]|[(r & -> & -> & H)|(raw' & r & Hs & H)]]; rewrite H in Hc; [done| |]; injection Hc as <- <-; [done|].
  specialize (IH raw' Hs). destruct (cut_cons c (String.append s t)) as [[H' Hn]|[(r' & -> & Heq & H')|(raw'' & r' & Hs' & H')]].
  - congruence.
  - destruct s as [|d s]; [done|]. injection Heq as -> _. cbn in H. done.
  - rewrite H'. congruence.
Qed.

Lemma cut_skip k : ∀ s raw rest, cut_blank s = Some (raw, rest) → (k ≤ String.length raw)%nat → cut_blank (skip k s) = Some (skip k raw, rest).
Proof.
  induction k as [|k IH]; intros s raw rest Hc Hk; [done|]. destruct s as [|c s]; [done|].
  destruct (cut_cons c s) as [[H _]|[(r & -> & -> & H)|(raw' & r & Hs & H)]]; rewrite H in Hc; [done| |]; injection Hc as <- <-; [cbn in Hk; lia|].
  specialize (IH s raw' r Hs ltac:(cbn in Hk; lia)). unfold skip in *. cbn [split_at]. destruct (split_at k s), (split_at k raw'). done.
Qed.

Lemma cut_skip_None k : ∀ s, cut_blank s = None → cut_blank (skip k s) = None.
Proof.
  induction k as [|k IH]; intros s Hc; [done|]. destruct s as [|c s]; [done|].
  destruct (cut_cons c s) as [[_ H]|[(r & -> & -> & H)|(raw' & r & Hs & H)]]; [|congruence..].
  specialize (IH s H). unfold skip in *. cbn [split_at]. by destruct (split_at k s).
Qed.

Lemma cut_app_None a b raw rest : cut_blank a = None → cut_blank (String.append a b) = Some (raw, rest) → (String.length a ≤ S (String.length raw))%nat.
Proof.
  revert raw. induction a as [|c a IH]; intros raw Ha Hc; [cbn; lia|]. cbn [String.append] in Hc.
  destruct (cut_cons c a) as [[_ Hn]|[(r & -> & -> & H)|(raw' & r & Hs & H)]]; [|congruence..].
  destruct (cut_cons c (String.append a b)) as [[H' _]|[(r' & -> & Heq & H')|(raw' & r' & Hs' & H')]]; rewrite H' in Hc; [done| |].
  - injection Hc as <- <-. destruct a as [|d a]; [cbn; lia|]. injection Heq as -> _. cbn in Ha. by destruct (ascii_dec LF LF).
  - injection Hc as <- <-. specialize (IH raw' Hn Hs'). cbn. lia.
Qed.

(** ** Draining *)

Inductive drained : string → bool → list string → string → bool → Prop :=
| Drained_none buf seen : cut_blank buf = None → drained buf seen [] buf seen
| Drained_event buf seen raw rest e es buf' seen' :
    cut_blank buf = Some (raw, rest) → canonicalise seen raw = Ok e → drained rest true es buf' seen' →
    drained buf seen (option_list e ++ es) buf' seen'.

(** The part that was searched before has no blank line in it. *)
Definition searched (buf : string) (scanned : nat) : Prop :=
  ∀ raw rest, cut_blank buf = Some (raw, rest) → (scanned - 1 ≤ String.length raw)%nat.

Lemma searched_0 buf : searched buf 0.
Proof. intros raw rest _. lia. Qed.

Lemma skip_length k s : (k ≤ String.length s)%nat → (String.length (skip k s) = String.length s - k)%nat.
Proof.
  unfold skip. revert s. induction k as [|k IH]; intros [|c s] Hk; cbn in *; try lia. specialize (IH s ltac:(lia)). destruct (split_at k s). cbn in *. lia.
Qed.

Lemma drain_round fuel buf seen scanned :
  searched buf scanned →
  drain_events (S fuel) buf seen scanned =
  match cut_blank buf with
  | None => Ok ([], buf, seen, String.length buf)
  | Some (raw, rest) =>
      let? canonical := canonicalise seen raw in
      let? (events, buf', seen', scanned') := drain_events fuel rest true 0 in
      Ok (option_list canonical ++ events, buf', seen', scanned')
  end.
Proof.
  intros Hs. cbn [drain_events]. rewrite find_cut. destruct (cut_blank buf) as [[raw rest]|] eqn:Hc.
  - rewrite (cut_skip _ _ _ _ Hc (Hs _ _ Hc)). cbn [option_map fst]. rewrite skip_length by (by eapply Hs).
    replace (scanned - 1 + (String.length raw - (scanned - 1)))%nat with (String.length raw) by (pose proof (Hs _ _ Hc); lia).
    rewrite (cut_split _ _ _ Hc) at 1. rewrite split_at_all. destruct (canonicalise seen raw) as [e|]; [|done]. cbn [result_bind].
    change (skip 2 (String.append blank rest)) with rest. by destruct e.
  - by rewrite (cut_skip_None _ _ Hc).
Qed.

Lemma drained_of fuel : ∀ buf seen scanned es buf' seen' n,
  (String.length buf < fuel)%nat → searched buf scanned →
  drain_events fuel buf seen scanned = Ok (es, buf', seen', n) → drained buf seen es buf' seen' ∧ n = String.length buf'.
Proof.
  induction fuel as [|fuel IH]; intros buf seen scanned es buf' seen' n Hf Hs Hd; [lia|]. rewrite drain_round in Hd by done.
  destruct (cut_blank buf) as [[raw rest]|] eqn:Hc; [|injection Hd as <- <- <- <-; split; [by constructor|done]].
  destruct (canonicalise seen raw) as [e|] eqn:He; cbn [result_bind] in Hd; [|done].
  destruct (drain_events fuel rest true 0) as [[[[es' b'] s'] n']|] eqn:Hr; cbn [result_bind] in Hd; [|done]. injection Hd as <- <- <- <-.
  assert (String.length rest < fuel)%nat as Hl.
  { pose proof (cut_split _ _ _ Hc) as ->. rewrite !append_length in Hf. cbn in Hf. lia. }
  destruct (IH rest true 0%nat es' b' s' n' Hl (searched_0 rest) Hr) as [Hdr ->]. split; [by econstructor|done].
Qed.

Lemma drain_of buf seen es buf' seen' : drained buf seen es buf' seen' → ∀ fuel scanned,
  (String.length buf < fuel)%nat → searched buf scanned → drain_events fuel buf seen scanned = Ok (es, buf', seen', String.length buf').
Proof.
  induction 1 as [buf seen Hc|buf seen raw rest e es buf' seen' Hc He Hd IH]; intros [|fuel] scanned Hf Hs; try lia; rewrite drain_round by done; rewrite Hc.
  - done.
  - rewrite He. cbn [result_bind]. rewrite IH; [done| |apply searched_0].
    pose proof (cut_split _ _ _ Hc) as ->. rewrite !append_length in Hf. cbn in Hf. lia.
Qed.

Lemma drained_app a seen es1 r1 s1 b es2 r2 s2 :
  drained a seen es1 r1 s1 → drained (String.append r1 b) s1 es2 r2 s2 → drained (String.append a b) seen (es1 ++ es2) r2 s2.
Proof.
  induction 1 as [buf seen Hc|buf seen raw rest e es buf' seen' Hc He Hd IH]; intros H2; [done|]. rewrite <-app_assoc.
  econstructor; [by apply cut_app|done|by apply IH].
Qed.

(** The rest has no blank line. *)
Lemma drained_rest buf seen es r s : drained buf seen es r s → cut_blank r = None.
Proof. by induction 1. Qed.

(** Nothing was seen only when nothing was drained. *)
Lemma drained_unseen buf seen es r : drained buf seen es r false → es = [] ∧ r = buf ∧ seen = false.
Proof.
  intros Hd. remember false as s eqn:Hs. induction Hd as [buf seen Hc|buf seen raw rest e es buf' seen' Hc He Hd IH]; [by subst|].
  destruct (IH Hs) as (_ & _ & ?). congruence.
Qed.

(** ** Blank lines between events *)

Definition unblank (s : string) : string := snd (take_while is_lf s).

Lemma unblank_cons s : unblank (String LF s) = unblank s.
Proof. unfold unblank. cbn. destruct (ascii_dec LF LF); [|done]. by destruct (take_while is_lf s). Qed.

Lemma unblank_head s : match s with String c _ => c ≠ LF | EmptyString => True end → unblank s = s.
Proof. destruct s as [|c s]; [done|]. intros Hc. unfold unblank. cbn. unfold is_lf. by destruct (ascii_dec c LF). Qed.

Lemma unblank_prefix s : ∃ k, s = String.append (foldr (λ _ t, String LF t) EmptyString (seq 0 k)) (unblank s).
Proof.
  assert (∀ k j, foldr (λ _ t, String LF t) EmptyString (seq j k) = foldr (λ _ t, String LF t) EmptyString (seq 0 k)) as Hshift.
  { induction k as [|k IH]; intros j; [done|]. cbn. rewrite (IH (S j)), (IH 1%nat). done. }
  induction s as [|c s [k IH]]; [by exists 0%nat|]. destruct (ascii_dec c LF) as [->|Hc].
  - exists (S k). rewrite unblank_cons. cbn. rewrite Hshift. cbn. by rewrite <-IH.
  - exists 0%nat. by rewrite unblank_head.
Qed.

Lemma canonical_lead raw : canonicalise true (String LF raw) = canonicalise true raw.
Proof.
  unfold canonicalise. assert (valid_utf8 (String LF raw) = valid_utf8 raw) as -> by done. destruct (valid_utf8 raw); [|done]. cbn [negb].
  unfold canonical_text. cbn [split_on]. destruct (ascii_dec LF LF); [|done]. cbn [canonical_lines is_empty]. by destruct (canonical_lines _).
Qed.

(** A line feed before changes nothing once an event was seen. *)
Lemma drained_lead n : ∀ x, (String.length x ≤ n)%nat →
  (∀ es r s, drained x true es r s → ∃ r', drained (String LF x) true es r' s ∧ unblank r' = unblank r) ∧
  (∀ es r s, drained (String LF x) true es r s → ∃ r', drained x true es r' s ∧ unblank r' = unblank r).
Proof.
  assert (∀ x, match x with String c _ => c ≠ LF | EmptyString => True end →
    (∀ es r s, drained x true es r s → ∃ r', drained (String LF x) true es r' s ∧ unblank r' = unblank r) ∧
    (∀ es r s, drained (String LF x) true es r s → ∃ r', drained x true es r' s ∧ unblank r' = unblank r)) as Hplain.
  { intros x Hx. destruct (cut_cons LF x) as [[H Hn]|[(r & _ & -> & H)|(raw & rest & Hs & H)]]; [| done|].
    - split; intros es r s Hd; inversion Hd; simplify_eq.
      + exists (String LF r). split; [by constructor|]. apply unblank_cons.
      + exists x. split; [by constructor|]. by rewrite unblank_cons.
    - split; intros es r s Hd; inversion Hd; simplify_eq; exists r; (split; [|done]).
      + eapply Drained_event; [exact H|by rewrite canonical_lead|done].
      + eapply Drained_event; [exact Hs|by rewrite <-canonical_lead|done]. }
  induction n as [|n IH]; intros x Hn; [destruct x; [by apply Hplain|cbn in Hn; lia]|].
  destruct x as [|c x]; [by apply Hplain|]. destruct (ascii_dec c LF) as [->|Hc]; [|by apply Hplain]. cbn in Hn.
  destruct (IH x ltac:(lia)) as [IHa IHb].
  assert (cut_blank (String LF (String LF x)) = Some (EmptyString, x)) as Hcut by (cbn; by destruct (ascii_dec LF LF)).
  split; intros es r s Hd.
  - destruct (IHb _ _ _ Hd) as (r' & Hr & Hu). exists r'. split; [|done].
    change es with (option_list (@None string) ++ es). eapply Drained_event; [exact Hcut|by vm_compute|done].
  - inversion Hd as [? ? Hn0|? ? raw rest e es' ? ? Hc He Hr]; simplify_eq.
    assert (e = None) as -> by (vm_compute in He; congruence). cbn [option_list app] in *. by apply IHa.
Qed.

Lemma drained_unblank r b es r2 s2 :
  drained (String.append (unblank r) b) true es r2 s2 →
  ∃ r', drained (String.append r b) true es r' s2 ∧ unblank r' = unblank r2.
Proof.
  destruct (unblank_prefix r) as [k Hk]. generalize dependent (seq 0 k). generalize (unblank r). intros u l -> Hd. clear k.
  induction l as [|x l IH]; cbn [foldr String.append]; [by exists r2|]. destruct IH as (r1 & H1 & Hu1).
  edestruct (drained_lead _ _ (le_n (String.length (String.append (String.append (foldr (λ _ t, String LF t) EmptyString l) u) b)))) as [Ha _].
  destruct (Ha _ _ _ H1) as (r' & H' & Hu'). exists r'. split; [done|congruence].
Qed.

(** ** Pieces *)

Lemma normalise_app cr a b :
  normalise cr (String.append a b) =
  (String.append (fst (normalise cr a)) (fst (normalise (snd (normalise cr a)) b)), snd (normalise (snd (normalise cr a)) b)).
Proof.
  revert cr. induction a as [|c a IH]; intros cr; cbn [String.append normalise fst snd]; [by destruct (normalise cr b)|].
  destruct (cr && _); [by rewrite IH|].
  destruct (ascii_dec c CR); rewrite IH; destruct (normalise _ a) as [x y]; cbn [fst snd]; by destruct (normalise y b).
Qed.

(** A parser between two pieces. *)
Record parser_ok (p : SseParser) : Prop := {
  po_cut : cut_blank (sp_buf p) = None;
  po_scanned : sp_scanned p = String.length (sp_buf p);
}.

Lemma parser_searched p more : parser_ok p → searched (String.append (sp_buf p) more) (sp_scanned p).
Proof. intros [Hc ->] raw rest Hr. pose proof (cut_app_None _ _ _ _ Hc Hr). lia. Qed.

(** One piece: what was drained, and the parser after it. *)
Definition after (r : string) (seen cr : bool) : SseParser :=
  {| sp_buf := unblank r; sp_pending_cr := cr; sp_seen_event := seen; sp_scanned := String.length (unblank r) |}.

Lemma unblank_length r : (String.length r - String.length (fst (take_while is_lf r)) = String.length (unblank r))%nat.
Proof.
  unfold unblank. induction r as [|c r IH]; [done|]. cbn [take_while]. destruct (is_lf c); [|cbn; lia].
  destruct (take_while is_lf r). cbn in *. lia.
Qed.

Lemma push_Ok p bytes es q : parser_ok p →
  push p bytes = Ok (es, q) ↔
  ∃ r seen, drained (String.append (sp_buf p) (fst (normalise (sp_pending_cr p) bytes))) (sp_seen_event p) es r seen ∧
    len (unblank r) ≤ MAX_EVENT_BYTES ∧ q = after r seen (snd (normalise (sp_pending_cr p) bytes)).
Proof.
  intros Hp. unfold push. destruct (normalise (sp_pending_cr p) bytes) as [more cr]. cbn [fst snd].
  pose proof (parser_searched p more Hp) as Hs. split.
  - intros H. destruct (drain_events _ _ _ _) as [[[[out b] seen] n]|] eqn:Hd; cbn [result_bind] in H; [|done].
    apply drained_of in Hd as [Hd ->]; [|lia|done]. pose proof (unblank_length b) as Hl. unfold unblank in *.
    destruct (take_while is_lf b) as [bl buf] eqn:Ht. cbn [fst snd] in *. destruct (Z.ltb_spec MAX_EVENT_BYTES (len buf)); [done|]. injection H as <- <-.
    exists b, seen. unfold after, unblank. rewrite Ht. cbn [snd]. rewrite Hl. by split_and!.
  - intros (r & seen & Hd & Hm & ->). rewrite (drain_of _ _ _ _ _ Hd) by (done || lia). cbn [result_bind].
    pose proof (unblank_length r) as Hl. unfold after, unblank in *. destruct (take_while is_lf r) as [bl buf]. cbn [fst snd] in *.
    destruct (Z.ltb_spec MAX_EVENT_BYTES (len buf)); [lia|]. by rewrite Hl.
Qed.

Lemma after_ok buf seen es r s cr : drained buf seen es r s → parser_ok (after r s cr).
Proof.
  intros Hr%drained_rest. split; [|done]. cbn. destruct (unblank_prefix r) as [k Hk].
  generalize dependent (seq 0 k). generalize (unblank r). intros u l ->. clear k. induction l as [|x l IH]; [done|]. apply IH.
  cbn [foldr String.append] in Hr. by destruct (cut_cons LF (String.append (foldr (λ _ t, String LF t) EmptyString l) u)) as [[_ H]|[(r' & _ & Heq & H)|(? & ? & ? & H)]];
    [|congruence..].
Qed.

Lemma push_parser_ok p bytes es q : parser_ok p → push p bytes = Ok (es, q) → parser_ok q.
Proof. intros Hp Hq. apply push_Ok in Hq as (r & seen & Hd & _ & ->); [|done]. by eapply after_ok. Qed.

(** Two pieces at once; the buffer does not begin with a blank line unless an event was seen. *)
Lemma push_app p a b es1 p1 es2 p2 :
  parser_ok p →
  sp_seen_event p = true ∨ unblank (String.append (sp_buf p) (fst (normalise (sp_pending_cr p) a))) =
                             String.append (sp_buf p) (fst (normalise (sp_pending_cr p) a)) →
  push p a = Ok (es1, p1) → push p1 b = Ok (es2, p2) → push p (String.append a b) = Ok (es1 ++ es2, p2).
Proof.
  intros Hp Hseen H1 H2. pose proof (push_parser_ok _ _ _ _ Hp H1) as Hp1.
  apply push_Ok in H1 as (r1 & s1 & Hd1 & Hm1 & ->); [|done]. apply push_Ok in H2 as (r2 & s2 & Hd2 & Hm2 & ->); [|done].
  apply push_Ok; [done|]. rewrite normalise_app. cbn [fst snd]. cbn [after sp_buf sp_pending_cr sp_seen_event] in *.
  assert (∃ r', drained (String.append r1 (fst (normalise (snd (normalise (sp_pending_cr p) a)) b))) s1 es2 r' s2 ∧ unblank r' = unblank r2)
    as (r' & Hd' & Hu).
  { destruct s1; [by apply drained_unblank|]. apply drained_unseen in Hd1 as (-> & -> & Hf).
    destruct Hseen as [|Hseen]; [congruence|]. rewrite Hseen in Hd2. by exists r2. }
  exists r', s2. split_and!; [|by rewrite Hu|unfold after; by rewrite Hu].
  rewrite <-append_assoc. by eapply drained_app.
Qed.

(** The pieces of a stream, one after the other. *)
Fixpoint push_all (p : SseParser) (pieces : list string) : result (list string * SseParser) SseError.t :=
  match pieces with
  | [] => Ok ([], p)
  | piece :: rest =>
      let? (es, p1) := push p piece in
      let? (es', p2) := push_all p1 rest in
      Ok (es ++ es', p2)
  end.

Definition joined (pieces : list string) : string := foldr String.append EmptyString pieces.

(** A stream that does not begin with a blank line. *)
Definition starts_plain (s : string) : Prop := match s with String c _ => c ≠ CR ∧ c ≠ LF | EmptyString => True end.

Lemma starts_plain_unblank a : starts_plain a → unblank (fst (normalise false a)) = fst (normalise false a).
Proof.
  destruct a as [|c a]; [done|]. intros [Hcr Hlf]. apply unblank_head. cbn [normalise andb].
  destruct (ascii_dec c CR); [done|]. by destruct (normalise false a).
Qed.

Lemma starts_plain_app a b : starts_plain (String.append a b) → starts_plain a.
Proof. by destruct a. Qed.

Lemma push_all_at_once pieces : ∀ a es1 p1 es2 q,
  starts_plain (String.append a (joined pieces)) → push sse_new a = Ok (es1, p1) → push_all p1 pieces = Ok (es2, q) →
  push sse_new (String.append a (joined pieces)) = Ok (es1 ++ es2, q).
Proof.
  assert (parser_ok sse_new) as Hnew by (by split).
  induction pieces as [|b pieces IH]; intros a es1 p1 es2 q Hs H1 H2; cbn [joined foldr push_all] in *.
  - injection H2 as <- <-. by rewrite append_nil_r, app_nil_r.
  - destruct (push p1 b) as [[es p2]|] eqn:Hb; cbn [result_bind] in H2; [|done].
    destruct (push_all p2 pieces) as [[es' q']|] eqn:Hr; cbn [result_bind] in H2; [|done]. injection H2 as <- <-.
    fold (joined pieces) in *. rewrite <-append_assoc in *. rewrite app_assoc. eapply IH; [done| |exact Hr].
    eapply push_app; [done| |done|done]. right. cbn [sp_buf sse_new sp_pending_cr String.append].
    apply starts_plain_unblank. by eapply starts_plain_app, starts_plain_app.
Qed.

(** However a stream is cut into pieces, the events that come out of the pieces are those
    that come out of the stream as a whole, and the parser is left in the same state; for a
    stream that does not begin with a blank line. *)
Theorem sse_any_split pieces es q :
  starts_plain (joined pieces) → push_all sse_new pieces = Ok (es, q) → push sse_new (joined pieces) = Ok (es, q).
Proof.
  intros Hs Hp. assert (push sse_new EmptyString = Ok ([], sse_new)) as He by (by vm_compute).
  exact (push_all_at_once pieces EmptyString [] sse_new es q Hs He Hp).
Qed.

(** A carriage return, a line feed and the blank line in different pieces. *)
Definition sample_pieces : list string :=
  ["data:a"; String CR EmptyString; String LF "ev"; String.append "ent: x" (String LF EmptyString); String LF ": note";
   String.append blank "id: 1"].

Lemma sse_any_split_witness :
  ∃ es q, push_all sse_new sample_pieces = Ok (es, q) ∧ push sse_new (joined sample_pieces) = Ok (es, q) ∧ List.length es = 2%nat.
Proof.
  eexists _, _. split; [by vm_compute|]. split; [|reflexivity]. apply sse_any_split; [done|by vm_compute].
Defined.

(** ** Byte by byte *)

Fixpoint bytes_of (s : string) : list string :=
  match s with
  | EmptyString => []
  | String c rest => String c EmptyString :: bytes_of rest
  end.

Lemma bytes_of_app a b : bytes_of (String.append a b) = bytes_of a ++ bytes_of b.
Proof. induction a as [|c a IH]; [done|]. cbn. by rewrite IH. Qed.

Lemma push_all_app p a b :
  push_all p (a ++ b) = let? (es, p1) := push_all p a in let? (es', p2) := push_all p1 b in Ok (es ++ es', p2).
Proof.
  revert p. induction a as [|x a IH]; intros p; cbn [app push_all result_bind]; [by destruct (push_all p b) as [[]|]|].
  destruct (push p x) as [[es1 p1]|]; cbn [result_bind]; [|done]. rewrite IH.
  destruct (push_all p1 a) as [[es2 p2]|]; cbn [result_bind]; [|done].
  destruct (push_all p2 b) as [[es3 p3]|]; cbn [result_bind]; [|done]. by rewrite app_assoc.
Qed.

(** A parser in the middle of a stream. *)
Record begun (p : SseParser) : Prop := {
  bg_ok : parser_ok p;
  bg_plain : unblank (sp_buf p) = sp_buf p;
  bg_small : len (sp_buf p) ≤ MAX_EVENT_BYTES;
  bg_some : sp_seen_event p = true ∨ sp_buf p ≠ EmptyString;
}.

Lemma push_nothing p : parser_ok p → unblank (sp_buf p) = sp_buf p → len (sp_buf p) ≤ MAX_EVENT_BYTES → push p EmptyString = Ok ([], p).
Proof.
  intros Hp Hu Hm. apply push_Ok; [done|]. cbn [normalise fst snd]. exists (sp_buf p), (sp_seen_event p). rewrite append_nil_r.
  destruct Hp as [Hc Hs]. split_and!; [by constructor|by rewrite Hu|]. unfold after. rewrite Hu. by destruct p; cbn in *; subst.
Qed.

Lemma unblank_app a b : a ≠ EmptyString → unblank a = a → unblank (String.append a b) = String.append a b.
Proof.
  destruct a as [|c a]; [done|]. intros _ Ha. apply unblank_head. cbn. intros ->. rewrite unblank_cons in Ha.
  assert (String.length (unblank a) ≤ String.length a)%nat by apply take_while_length. rewrite Ha in *. cbn in *. lia.
Qed.

Lemma unblank_idemp r : unblank (unblank r) = unblank r.
Proof. induction r as [|c r IH]; [done|]. destruct (ascii_dec c LF) as [->|]; [by rewrite unblank_cons|].
  by rewrite (unblank_head (String c r)), (unblank_head (String c r)). Qed.

Lemma begun_seen p a : begun p →
  sp_seen_event p = true ∨ unblank (String.append (sp_buf p) (fst (normalise (sp_pending_cr p) a))) =
                             String.append (sp_buf p) (fst (normalise (sp_pending_cr p) a)).
Proof. intros [_ Hu _ [Hs|Hs]]; [by left|]. right. by apply unblank_app. Qed.

Lemma push_begun p a es q : begun p → push p a = Ok (es, q) → begun q.
Proof.
  intros Hp Hq. pose proof (push_parser_ok _ _ _ _ (bg_ok _ Hp) Hq) as Hok.
  apply push_Ok in Hq as (r & seen & Hd & Hm & ->); [|apply Hp]. split; [done|apply unblank_idemp|done|]. cbn. destruct seen; [by left|]. right.
  apply drained_unseen in Hd as (-> & -> & Hs). destruct (begun_seen p a Hp) as [|Hu]; [congruence|]. rewrite Hu.
  destruct (bg_some _ Hp) as [|Hne]; [congruence|]. by destruct (sp_buf p).
Qed.

Lemma push_bytes a : ∀ p es q, begun p → push_all p (bytes_of a) = Ok (es, q) → push p a = Ok (es, q).
Proof.
  induction a as [|c a IH]; intros p es q Hp H; cbn [bytes_of push_all] in H.
  - injection H as <- <-. destruct Hp. by apply push_nothing.
  - destruct (push p _) as [[es1 p1]|] eqn:H1; cbn [result_bind] in H; [|done].
    destruct (push_all p1 _) as [[es2 p2]|] eqn:H2; cbn [result_bind] in H; [|done]. injection H as <- <-.
    apply (push_app p (String c EmptyString) a _ p1 _ p2 (bg_ok _ Hp) (begun_seen _ _ Hp) H1). apply IH; [by eapply push_begun|done].
Qed.

Lemma pieces_begun ps : ∀ p es q, begun p → push_all p (bytes_of (joined ps)) = Ok (es, q) → push_all p ps = Ok (es, q).
Proof.
  induction ps as [|a ps IH]; intros p es q Hp H; [done|]. change (joined (a :: ps)) with (String.append a (joined ps)) in H.
  rewrite bytes_of_app, push_all_app in H. destruct (push_all p (bytes_of a)) as [[es1 p1]|] eqn:H1; cbn [result_bind] in H; [|done].
  destruct (push_all p1 _) as [[es2 p2]|] eqn:H2; cbn [result_bind] in H; [|done]. injection H as <- <-.
  apply push_bytes in H1; [|done]. cbn [push_all]. rewrite H1. cbn [result_bind]. by rewrite (IH p1 es2 p2 (push_begun _ _ _ _ Hp H1) H2).
Qed.

(** A first byte that is not the end of a line. *)
Lemma push_first c es p : starts_plain (String c EmptyString) → push sse_new (String c EmptyString) = Ok (es, p) → begun p.
Proof.
  intros Hc Hp. assert (parser_ok sse_new) as Hnew by (by split). pose proof (push_parser_ok _ _ _ _ Hnew Hp) as Hok.
  apply push_Ok in Hp as (r & seen & Hd & Hm & ->); [|done]. split; [done|apply unblank_idemp|done|]. cbn in *. destruct seen; [by left|]. right.
  apply drained_unseen in Hd as (-> & -> & _). destruct Hc as [Hcr Hlf]. destruct (ascii_dec c CR); [done|]. cbn. by rewrite unblank_head.
Qed.

(** A stream that can be read byte by byte can be read in any pieces, with the same events. *)
Lemma any_pieces ps es q : starts_plain (joined ps) → push_all sse_new (bytes_of (joined ps)) = Ok (es, q) → push_all sse_new ps = Ok (es, q).
Proof.
  revert es q. induction ps as [|a ps IH]; intros es q Hs H; [done|]. destruct a as [|c a].
  { assert (push sse_new EmptyString = Ok ([], sse_new)) as He by (by vm_compute).
    cbn [push_all]. rewrite He. cbn [result_bind]. rewrite (IH es q) by done. done. }
  change (joined (String c a :: ps)) with (String c (String.append a (joined ps))) in H. cbn [bytes_of push_all] in H.
  destruct (push sse_new _) as [[es1 p1]|] eqn:H1; cbn [result_bind] in H; [|done].
  destruct (push_all p1 _) as [[es2 p2]|] eqn:H2; cbn [result_bind] in H; [|done]. injection H as <- <-.
  pose proof (push_first c es1 p1 Hs H1) as Hp1. rewrite bytes_of_app, push_all_app in H2.
  destruct (push_all p1 (bytes_of a)) as [[es3 p3]|] eqn:H3; cbn [result_bind] in H2; [|done].
  destruct (push_all p3 _) as [[es4 p4]|] eqn:H4; cbn [result_bind] in H2; [|done]. injection H2 as <- <-.
  apply push_bytes in H3; [|done]. cbn [push_all]. change (String c a) with (String.append (String c EmptyString) a).
  rewrite (push_app sse_new (String c EmptyString) a es1 p1 es3 p3); [|by split| |done|done].
  - cbn [result_bind]. rewrite (pieces_begun ps p3 es4 p4); [|by eapply push_begun|done]. cbn [result_bind]. by rewrite app_assoc.
  - right. by apply (starts_plain_unblank (String c EmptyString)).
Qed.

(** After a blank line the byte order mark is dropped or kept with the cut of the stream. *)
Lemma mark_after_blank_depends_on_cut :
  let stream := String LF (String.append BOM (String.append "data: x" blank)) in
  (∃ q, push sse_new stream = Ok ([], q)) ∧
  ∃ e q, push_all sse_new [String LF EmptyString; String.append BOM (String.append "data: x" blank)] = Ok ([e], q).
Proof. split; [eexists; by vm_compute|eexists _, _; by vm_compute]. Qed.

(** ** UTF-8 and ASCII separators *)

Lemma utf8_tail_length wanted : ∀ range s t ok rest, utf8_tail wanted range s = (t, ok, rest) → (String.length rest ≤ String.length s)%nat.
Proof.
  induction wanted as [|w IH]; intros range s t ok rest; cbn [utf8_tail]; [by intros [= _ _ <-]|].
  destruct s as [|c s]; [by intros [= _ _ <-]|]. destruct (in_range _ _ c); [|by intros [= _ _ <-]].
  destruct (utf8_tail w _ s) as [[t' ok'] rest'] eqn:Ht. intros [= _ _ <-]. apply IH in Ht. cbn. lia.
Qed.

Lemma utf8_ok_fuel n : ∀ m s, (String.length s ≤ n)%nat → (String.length s ≤ m)%nat → utf8_ok n s = utf8_ok m s.
Proof.
  induction n as [|n IH]; intros m s Hn Hm; [destruct s, m; (done || cbn in Hn; lia)|].
  destruct s as [|c s]; [by destruct m|]. destruct m as [|m]; [cbn in Hm; lia|]. cbn [utf8_ok]. cbn in Hn, Hm.
  destruct (code c <? 128); [apply IH; lia|]. destruct (utf8_lead c) as [[w range]|]; [|done].
  destruct (utf8_tail w range s) as [[t ok] rest] eqn:Ht. apply utf8_tail_length in Ht. f_equal. apply IH; lia.
Qed.

Lemma utf8_tail_ascii wanted : ∀ range s c b, 128 ≤ fst range → code c < 128 →
  utf8_tail wanted range (String.append s (String c b)) =
  (let '(t, ok, rest) := utf8_tail wanted range s in (t, ok, String.append rest (String c b))).
Proof.
  induction wanted as [|w IH]; intros range s c b Hr Hc; [done|]. destruct s as [|d s]; cbn [String.append utf8_tail].
  - unfold in_range at 1. destruct (Z.leb_spec (fst range) (code c)); [lia|]. done.
  - destruct (in_range _ _ d); [|done]. rewrite IH by (cbn; lia || done). by destruct (utf8_tail w _ s) as [[t ok] rest].
Qed.

Lemma utf8_lead_range c w range : utf8_lead c = Some (w, range) → 128 ≤ fst range.
Proof.
  unfold utf8_lead. repeat match goal with |- context [if ?b then _ else _] => destruct b end; try done; intros [= _ <-]; cbn; lia.
Qed.

Lemma utf8_ok_ascii n : ∀ m s c b, code c < 128 → (String.length (String.append s (String c b)) ≤ n)%nat → (String.length b ≤ m)%nat →
  utf8_ok n (String.append s (String c b)) = utf8_ok n s && utf8_ok m b.
Proof.
  induction n as [|n IH]; intros m s c b Hc Hn Hm; [destruct s; cbn in Hn; lia|]. destruct s as [|d s]; cbn [String.append utf8_ok].
  - destruct (Z.ltb_spec (code c) 128); [|lia]. cbn [andb]. apply utf8_ok_fuel; cbn in Hn; lia.
  - cbn in Hn. rewrite append_length in Hn. cbn in Hn. destruct (code d <? 128).
    + apply IH; [done|rewrite append_length; cbn; lia|done].
    + destruct (utf8_lead d) as [[w range]|] eqn:Hl; [|done]. rewrite utf8_tail_ascii by (done || by eapply utf8_lead_range).
      destruct (utf8_tail w range s) as [[t ok] rest] eqn:Ht. apply utf8_tail_length in Ht.
      rewrite (IH m) by (done || rewrite append_length; cbn; lia). by rewrite andb_assoc.
Qed.

Lemma valid_ascii s c b : code c < 128 → valid_utf8 (String.append s (String c b)) = valid_utf8 s && valid_utf8 b.
Proof.
  intros Hc. unfold valid_utf8. rewrite (utf8_ok_ascii _ (String.length b)) by done. rewrite append_length. cbn [String.length].
  f_equal; apply utf8_ok_fuel; lia.
Qed.

Lemma valid_mark s : valid_utf8 (String.append BOM s) = valid_utf8 s.
Proof.
  assert (∀ n, utf8_ok (S n) (String.append BOM s) = utf8_ok n s) as H by reflexivity.
  unfold valid_utf8. rewrite append_length. change (String.length BOM + String.length s)%nat with (S (S (S (String.length s)))).
  rewrite H. apply utf8_ok_fuel; lia.
Qed.

Lemma lf_ascii : code LF < 128. Proof. done. Qed.

Lemma split_valid n : ∀ s, (String.length s ≤ n)%nat → valid_utf8 s = forallb valid_utf8 (split_on LF s).
Proof.
  induction n as [|n IH]; intros s Hn; [by destruct s; [|cbn in Hn; lia]|].
  destruct (split_once LF s) as [[a b]|] eqn:Hs.
  - pose proof (split_once_lacks _ _ _ _ Hs) as Ha. apply split_once_Some in Hs as ->. rewrite valid_ascii by apply lf_ascii.
    rewrite split_on_app by done. cbn [forallb]. f_equal. apply IH. rewrite append_length in Hn. cbn in Hn. lia.
  - assert (lacks LF s = true) as Hl.
    { clear -Hs. induction s as [|c s IH]; [done|]. cbn in Hs |- *. destruct (ascii_dec c LF); [done|]. cbn [negb andb].
      apply IH. by destruct (split_once LF s) as [[]|]. }
    rewrite split_on_lone by done. cbn. by rewrite andb_true_r.
Qed.

(** ** Canonical events *)

(** A line that is its own canonical form. *)
Definition good_line (l : string) : Prop :=
  ∃ name value, l = String.append name (String.append ": " value) ∧ is_field name = true ∧
    lacks LF value = true ∧ lacks CR value = true ∧ valid_utf8 value = true ∧ (name = "id" → lacks (chr 0) value = true).

Fixpoint unlines (ls : list string) : string :=
  match ls with
  | [] => EmptyString
  | l :: rest => String.append l (String LF (unlines rest))
  end.

Definition canonical_event (e : string) : Prop :=
  e = KEEPALIVE ∨ ∃ l ls, Forall good_line (l :: ls) ∧ e = String.append (unlines (l :: ls)) (String LF EmptyString).

Lemma is_field_cases name : is_field name = true → name = "data" ∨ name = "event" ∨ name = "id" ∨ name = "retry".
Proof. unfold is_field. cbn. rewrite !orb_true_iff, !String.eqb_eq. intuition congruence. Qed.

Lemma canonical_line_good line e :
  lacks LF line = true → lacks CR line = true → valid_utf8 line = true → canonical_line line = Some e →
  ∃ l, good_line l ∧ e = String.append l (String LF EmptyString).
Proof.
  intros Hlf Hcr Hv. unfold canonical_line.
  assert (∃ name value, default (line, EmptyString) (split_once ":" line) = (name, value) ∧
    lacks LF value = true ∧ lacks CR value = true ∧ valid_utf8 value = true) as (name & value & -> & H1 & H2 & H3).
  { destruct (split_once ":" line) as [[a b]|] eqn:Hs; cbn; [|by exists line, EmptyString].
    apply split_once_Some in Hs as ->. rewrite valid_ascii in Hv by done. apply andb_true_iff in Hv as [_ Hv].
    apply lacks_parts in Hlf as [_ Hlf], Hcr as [_ Hcr]. eexists _, _. split; [done|]. by cbn in Hlf, Hcr. }
  assert (∃ v, default value (strip_prefix value " ") = v ∧ lacks LF v = true ∧ lacks CR v = true ∧ valid_utf8 v = true)
    as (v & -> & Hv1 & Hv2 & Hv3).
  { destruct (strip_prefix value " ") as [w|] eqn:Hp; [|by exists value]. apply strip_prefix_Some in Hp as ->. exists w.
    change (valid_utf8 w = true) in H3. by cbn in H1, H2. }
  destruct (is_field name) eqn:Hf; [|done]. cbn [negb]. destruct (String.eqb name "id" && _) eqn:Hid; [done|]. intros [= <-].
  exists (String.append name (String.append ": " v)). split; [|rewrite !append_assoc; cbn; by rewrite ?append_assoc].
  exists name, v. split_and!; try done. intros ->. rewrite String.eqb_refl in Hid. by apply negb_false_iff in Hid.
Qed.

Lemma canonical_lines_good ls : ∀ out comment,
  Forall (λ l, lacks LF l = true ∧ lacks CR l = true ∧ valid_utf8 l = true) ls → canonical_lines ls = (out, comment) →
  ∃ gs, Forall good_line gs ∧ out = unlines gs.
Proof.
  induction ls as [|l ls IH]; intros out comment Hls; cbn [canonical_lines]; [intros [= <- _]; by exists []|].
  inversion Hls as [|? ? (H1 & H2 & H3) Hrest]; subst. destruct (canonical_lines ls) as [out' c']. destruct (IH _ _ Hrest eq_refl) as (gs & Hg & ->).
  destruct (is_empty l); [intros [= <- _]; by exists gs|]. destruct (is_comment l); intros [= <- _]; [by exists gs|].
  destruct (canonical_line l) as [e|] eqn:He; [|by exists gs]. destruct (canonical_line_good l e H1 H2 H3 He) as (g & Hgg & ->).
  exists (g :: gs). split; [by constructor|]. cbn [default id unlines]. by rewrite append_assoc.
Qed.

Lemma split_on_keeps sep x s : lacks x s = true → Forall (λ l, lacks x l = true) (split_on sep s).
Proof.
  unfold lacks. induction s as [|c s IH]; cbn [split_on str_forallb]; [by repeat constructor|]. intros [Hc Hs]%andb_true_iff. specialize (IH Hs).
  destruct (ascii_dec c sep); [by constructor|]. destruct (split_on sep s); inversion IH; subst; repeat constructor; try done; cbn; by rewrite Hc.
Qed.

Lemma canonicalise_canonical seen raw e : lacks CR raw = true → canonicalise seen raw = Ok (Some e) → canonical_event e.
Proof.
  intros Hcr. unfold canonicalise. destruct (valid_utf8 raw) eqn:Hv; [|done]. cbn [negb]. intros [= He].
  assert (∃ t, (if seen then raw else default raw (strip_prefix raw BOM)) = t ∧ lacks CR t = true ∧ valid_utf8 t = true) as (t & Ht & Htcr & Htv).
  { destruct seen; [by exists raw|]. destruct (strip_prefix raw BOM) as [w|] eqn:Hp; [|by exists raw]. apply strip_prefix_Some in Hp as ->.
    exists w. split; [done|]. apply lacks_parts in Hcr as [_ Hcr]. by rewrite valid_mark in Hv. }
  rewrite Ht in He. unfold canonical_text in He. destruct (canonical_lines (split_on LF t)) as [out comment] eqn:Hc.
  apply canonical_lines_good in Hc as (gs & Hg & ->).
  - destruct gs as [|g gs]; cbn [unlines is_empty] in He; [destruct comment; [|done]; injection He as <-; by left|].
    destruct (String.append g _) eqn:Hu; [by destruct g|]. cbn [is_empty] in He. injection He as <-. right. exists g, gs.
    split; [done|]. cbn [unlines]. by rewrite Hu.
  - rewrite (split_valid _ _ (le_n _)), forallb_forall in Htv. apply Forall_forall. intros l Hl. split_and!.
    + by eapply (proj1 (Forall_forall _ _) (split_on_lacks LF t)).
    + by eapply (proj1 (Forall_forall _ _) (split_on_keeps LF CR t Htcr)).
    + apply Htv. by apply list_elem_of_In.
Qed.

(** ** A canonical event reads back as itself *)

Lemma normalise_lacks cr a : lacks CR (fst (normalise cr a)) = true.
Proof.
  unfold lacks. revert cr. induction a as [|c a IH]; intros cr; [done|]. cbn [normalise]. destruct (cr && _); [done|].
  destruct (ascii_dec c CR) eqn:Hc; destruct (normalise _ a) as [out b] eqn:Hn; cbn [fst str_forallb].
  - specialize (IH true). by rewrite Hn in IH.
  - rewrite Hc. specialize (IH false). by rewrite Hn in IH.
Qed.

Lemma normalise_id s : lacks CR s = true → normalise false s = (s, false).
Proof.
  unfold lacks. induction s as [|c s IH]; [done|]. cbn [normalise str_forallb andb]. destruct (ascii_dec c CR); [done|].
  intros H. by rewrite IH.
Qed.

Lemma good_line_lacks l : good_line l → lacks LF l = true ∧ lacks CR l = true.
Proof.
  intros (name & value & -> & Hf & H1 & H2 & _). rewrite !lacks_app, H1, H2.
  apply is_field_cases in Hf as [->|[->|[->| ->]]]; by vm_compute.
Qed.

Lemma good_line_valid l : good_line l → valid_utf8 l = true.
Proof.
  intros (name & value & -> & Hf & _ & _ & Hv & _). change (String.append ": " value) with (String ":" (String " " value)).
  rewrite valid_ascii by done. rewrite andb_true_iff. split; [|exact Hv].
  apply is_field_cases in Hf as [->|[->|[->| ->]]]; by vm_compute.
Qed.

Lemma good_line_head l : good_line l → is_empty l = false ∧ is_comment l = false ∧ ∀ t, strip_prefix (String.append l t) BOM = None.
Proof. by intros (name & value & -> & [->|[->|[->| ->]]]%is_field_cases & _). Qed.

Lemma good_line_canonical l : good_line l → canonical_line l = Some (String.append l (String LF EmptyString)).
Proof.
  intros (name & value & -> & Hf & _ & _ & _ & Hid). unfold canonical_line.
  assert (split_once ":" (String.append name (String.append ": " value)) = Some (name, String " " value)) as ->
    by (by apply is_field_cases in Hf as [->|[->|[->| ->]]]).
  cbn [default id]. change (String " " value) with (String.append " " value). rewrite strip_prefix_app. cbn [default id]. rewrite Hf. cbn [negb].
  rewrite !append_assoc. destruct (String.eqb_spec name "id") as [->|]; [|done]. by rewrite Hid.
Qed.

Lemma good_lines_canonical ls : Forall good_line ls → canonical_lines ls = (unlines ls, false).
Proof.
  induction 1 as [|l ls Hl Hls IH]; [done|]. cbn [canonical_lines unlines]. destruct (good_line_head l Hl) as (-> & -> & _).
  rewrite IH, (good_line_canonical l Hl). cbn [default id]. by rewrite append_assoc.
Qed.

Fixpoint join_lines (l : string) (ls : list string) : string :=
  match ls with
  | [] => l
  | m :: rest => String.append l (String LF (join_lines m rest))
  end.

Lemma join_lines_split l ls : Forall good_line (l :: ls) → split_on LF (join_lines l ls) = l :: ls.
Proof.
  revert l. induction ls as [|m ls IH]; intros l H; inversion H as [|? ? Hl Hls]; subst; cbn [join_lines].
  - by apply split_on_lone, good_line_lacks.
  - rewrite split_on_app by (by apply good_line_lacks). by rewrite IH.
Qed.

Lemma cut_line l s : lacks LF l = true →
  match s with String c _ => c ≠ LF | EmptyString => True end →
  cut_blank (String.append l (String LF s)) = option_map (λ ab, (String.append l (String LF (fst ab)), snd ab)) (cut_blank s).
Proof.
  unfold lacks. intros Hl Hs. assert (cut_blank (String LF s) = option_map (λ ab, (String LF (fst ab), snd ab)) (cut_blank s)) as Hlf.
  { destruct (cut_cons LF s) as [[-> ->]|[(r & _ & -> & _)|(a & b & -> & ->)]]; done. }
  induction l as [|c l IH]; [exact Hlf|]. cbn [str_forallb] in Hl. destruct (ascii_dec c LF) as [|Hc]; [done|].
  specialize (IH Hl). cbn [String.append].
  destruct (cut_cons c (String.append l (String LF s))) as [[-> Hn]|[(r & -> & _)|(a & b & Hn & ->)]]; [|done|];
    rewrite IH in Hn; destruct (cut_blank s) as [[]|]; cbn in *; simplify_eq; done.
Qed.

Lemma cut_last l t : lacks LF l = true → cut_blank (String.append l (String.append blank t)) = Some (l, t).
Proof.
  unfold lacks. induction l as [|c l IH]; intros Hl; [cbn; by destruct (ascii_dec LF LF)|]. cbn [str_forallb] in Hl.
  destruct (ascii_dec c LF) as [|Hc]; [done|]. specialize (IH Hl). cbn [String.append].
  destruct (cut_cons c (String.append l (String.append blank t))) as [[_ Hn]|[(r & -> & _)|(a & b & Hn & H)]]; [congruence|done|].
  rewrite H. congruence.
Qed.

Lemma cut_event l ls t : Forall good_line (l :: ls) →
  cut_blank (String.append (String.append (unlines (l :: ls)) (String LF EmptyString)) t) = Some (join_lines l ls, t).
Proof.
  revert l. induction ls as [|m ls IH]; intros l H; inversion H as [|? ? Hl Hls]; subst; destruct (good_line_lacks l Hl) as [Hlf _].
  - cbn [unlines join_lines]. rewrite !append_assoc. cbn [String.append]. by apply cut_last.
  - cbn [join_lines]. change (unlines (l :: m :: ls)) with (String.append l (String LF (unlines (m :: ls)))).
    rewrite append_assoc, append_assoc. change (String.append (String LF ?x) ?y) with (String LF (String.append x y)). 
    rewrite cut_line; [|done|].
    + rewrite <-append_assoc. change (String.append (String LF ?x) ?y) with (String LF (String.append x y)). rewrite IH by done. done.
    + inversion Hls as [|? ? Hm _]; subst. by destruct Hm as (name & value & -> & [->|[->|[->| ->]]]%is_field_cases & _).
Qed.

Lemma canonical_event_back e seen t : canonical_event e →
  ∃ raw, cut_blank (String.append e t) = Some (raw, t) ∧ canonicalise seen raw = Ok (Some e).
Proof.
  intros [->|(l & ls & Hg & ->)].
  - exists ":". split; [exact (cut_last ":" t eq_refl)|]. by destruct seen; vm_compute.
  - exists (join_lines l ls). split; [by apply cut_event|]. unfold canonicalise.
    assert (valid_utf8 (join_lines l ls) = true) as ->.
    { rewrite (split_valid _ _ (le_n _)), join_lines_split by done. apply forallb_forall. intros x Hx%list_elem_of_In.
      apply good_line_valid. by eapply (proj1 (Forall_forall _ _) Hg). }
    assert (strip_prefix (join_lines l ls) BOM = None) as Hb.
    { inversion Hg as [|? ? Hl _]; subst. destruct (good_line_head l Hl) as (_ & _ & Hh). destruct ls as [|m ls]; [|apply Hh].
      rewrite <-(append_nil_r l). apply Hh. }
    cbn [negb]. rewrite Hb. cbn [default id]. do 2 f_equal.
    transitivity (canonical_text (join_lines l ls)); [by destruct seen|]. unfold canonical_text.
    rewrite join_lines_split, good_lines_canonical by done. cbn [unlines]. by destruct l.
Qed.

Lemma canonical_event_lacks e : canonical_event e → lacks CR e = true.
Proof.
  intros [->|(l & ls & Hg & ->)]; [done|]. rewrite lacks_app. apply andb_true_iff. split; [|done].
  induction Hg as [|x xs Hx _ IH]; [done|]. cbn [unlines]. rewrite lacks_app, (proj2 (good_line_lacks x Hx)). exact IH.
Qed.

Lemma canonical_drained sent seen : Forall canonical_event sent → drained (joined sent) seen sent EmptyString (seen || negb (bool_decide (sent = []))).
Proof.
  intros Hs. revert seen. induction Hs as [|e es He Hes IH]; intros seen; [rewrite orb_false_r; by constructor|].
  destruct (canonical_event_back e seen (joined es) He) as (raw & Hc & Hr).
  assert (drained (joined (e :: es)) seen (option_list (Some e) ++ es) EmptyString true) as H by (eapply Drained_event; [exact Hc|done|apply IH]).
  by rewrite orb_true_r.
Qed.

Lemma drained_canonical buf seen es r s : drained buf seen es r s → lacks CR buf = true → Forall canonical_event es ∧ lacks CR r = true.
Proof.
  induction 1 as [buf seen Hc|buf seen raw rest e es buf' seen' Hc He Hd IH]; intros Hl; [done|].
  apply cut_split in Hc as ->. apply lacks_parts in Hl as [Hraw Hrest]. apply lacks_parts in Hrest as [_ Hrest].
  destruct (IH Hrest) as [Hes Hb]. split; [|done]. destruct e as [e|]; [|done]. constructor; [|done]. exact (canonicalise_canonical _ _ _ Hraw He).
Qed.

Lemma unblank_lacks x s : lacks x s = true → lacks x (unblank s) = true.
Proof. destruct (unblank_prefix s) as [k Hk]. rewrite Hk at 1. rewrite lacks_parts. tauto. Qed.

Lemma push_all_canonical pieces : ∀ p es q, parser_ok p → lacks CR (sp_buf p) = true → push_all p pieces = Ok (es, q) → Forall canonical_event es.
Proof.
  induction pieces as [|b pieces IH]; intros p es q Hp Hl H; cbn [push_all] in H; [by injection H as <- <-|].
  destruct (push p b) as [[es1 p1]|] eqn:Hb; cbn [result_bind] in H; [|done].
  destruct (push_all p1 pieces) as [[es2 p2]|] eqn:Hr; cbn [result_bind] in H; [|done]. injection H as <- <-.
  pose proof (push_parser_ok _ _ _ _ Hp Hb) as Hp1. apply push_Ok in Hb as (r & seen & Hd & _ & ->); [|done].
  apply drained_canonical in Hd as [Hes1 Hlr]; [|by rewrite lacks_app, Hl, normalise_lacks].
  apply Forall_app. split; [done|]. eapply IH; [done| |done]. by apply unblank_lacks.
Qed.

(** Whatever a stream held and however it was cut, any of its events, repeated, reordered or left
    out, written one after the other, read back as exactly those events with nothing left over:
    the text that is judged is the text the receiver reads. *)
Theorem sse_canonical pieces es q sent :
  push_all sse_new pieces = Ok (es, q) → sent ⊆ es →
  ∃ q', push sse_new (joined sent) = Ok (sent, q') ∧ has_partial q' = false.
Proof.
  intros Hp Hsent. assert (Forall canonical_event sent) as Hc.
  { apply push_all_canonical in Hp; [|by split|done]. rewrite Forall_forall in *. intros e He. by apply Hp, Hsent. }
  exists (after EmptyString (negb (bool_decide (sent = []))) false). split; [|done]. apply push_Ok; [by split|].
  assert (normalise false (joined sent) = (joined sent, false)) as Hn.
  { apply normalise_id. clear -Hc. induction Hc as [|e es He _ IH]; [done|]. cbn [joined foldr].
    rewrite lacks_app, (canonical_event_lacks e He). exact IH. }
  cbn [sse_new sp_pending_cr sp_buf sp_seen_event String.append]. rewrite Hn. cbn [fst snd].
  exists EmptyString, (negb (bool_decide (sent = []))). split; [exact (canonical_drained sent false Hc)|done].
Qed.

Lemma sse_canonical_witness :
  ∃ e1 e2 q q', push_all sse_new sample_pieces = Ok ([e1; e2], q) ∧ push sse_new (joined [e2; e1; e2]) = Ok ([e2; e1; e2], q') ∧
    has_partial q' = false ∧ e2 = KEEPALIVE.
Proof.
  destruct (push_all sse_new sample_pieces) as [[[|e1 [|e2 [|e3 es]]] q]|] eqn:Hp; try (vm_compute in Hp; discriminate Hp).
  assert (e2 = KEEPALIVE) as He by (vm_compute in Hp; by injection Hp as <- <- <-).
  destruct (sse_canonical sample_pieces [e1; e2] q [e2; e1; e2] Hp) as (q' & H & Hq); [intros x; rewrite !elem_of_cons; tauto|]. by exists e1, e2, q, q'.
Defined.
