(* ===== verification/ResponseCodec.v ===== *)
(** * ResponseCodec: the responses the proxy reads and the responses it sends

    aa-proxy/src/proxy/http.rs, the response side.  What an upstream sends is its bytes and
    how they end; texts of a head are as in HttpCodec. *)

From stdpp Require Import base strings list.
From Stdlib Require Import ZArith Lia Bool Ascii String.
From S2P Require Import Prelude.
From S2P Require Import Text.
From S2P Require Import NetAddr.
From S2P Require Import HttpCodec.

Open Scope Z_scope.
Open Scope aasm_scope.

#[local] Arguments ascii_dec : simpl never.

(** ** The upstream *)

(** After its last byte the upstream closes, the connection fails, or nothing happens. *)
Module Ending.
Inductive t := Closed | Failed | Silent.
End Ending.

#[global] Instance Ending_eq_dec : EqDecision Ending.t.
Proof. solve_decision. Defined.

(** A read is refused, fails, never returns, or the task panics. *)
Module ReadError.
Inductive t := Refused | Io | Waiting | Panic.
End ReadError.

(** What a read that needs more bytes than there are ends with. *)
Definition short_read (e : Ending.t) : ReadError.t :=
  match e with Ending.Silent => ReadError.Waiting | _ => ReadError.Io end.

(** A line of at most [cap] bytes; no bytes when the upstream has closed. *)
Definition read_line_up (e : Ending.t) (cap : Z) (s : string) : result (string * Z * string) ReadError.t :=
  if bool_decide (break_line s = None) && (len s <=? cap) && negb (bool_decide (e = Ending.Closed)) then Err (short_read e)
  else match read_line_capped cap cap s with Ok r => Ok r | Err _ => Err ReadError.Refused end.

Definition read_exact_from (e : Ending.t) (n : Z) (s : string) : result (string * string) ReadError.t :=
  if len s <? n then Err (short_read e) else Ok (split_at (Z.to_nat n) s).

(** ** Heads *)

Record HttpResponseHead := {
  rh_version : string;
  status_code : string;
  rh_reason : string;
  rh_headers : list (string * string);
  rh_raw : string;
}.

Record HttpResponse := {
  rs_version : string;
  rs_status_code : string;
  rs_reason : string;
  rs_headers : list (string * string);
  rs_body : string;
}.

Definition EVENT_STREAM_TYPE : string := "text/event-stream".

Definition is_event_stream (head : HttpResponseHead) : bool :=
  existsb (λ kv, eq_ignore_ascii_case (fst kv) "content-type" && contains (to_ascii_lowercase (snd kv)) EVENT_STREAM_TYPE)
    (rh_headers head).

Definition MAX_RAW_HEAD_BYTES : Z := 1024 * 1024.

(** The head so far, last byte first, ends in an empty line. *)
Definition ends_head (rev : string) : bool :=
  starts_with rev (String LF (String CR (String LF (String CR EmptyString)))) || starts_with rev (String LF (String LF EmptyString)).

Fixpoint read_raw_head (e : Ending.t) (cap : Z) (rev : string) (s : string) : result (string * string) ReadError.t :=
  match s with
  | EmptyString => if decide (e = Ending.Closed) then Ok (EmptyString, EmptyString) else Err (short_read e)
  | String b rest =>
      let rev := String b rev in
      if ends_head rev then Ok (String b EmptyString, rest)
      else if cap <? len rev then Err ReadError.Refused
      else let? (head, rest') := read_raw_head e cap rev rest in Ok (String b head, rest')
  end.

Definition read_raw_response_head (e : Ending.t) (cap : Z) (s : string) : result (option string * string) ReadError.t :=
  let? (head, rest) := read_raw_head e cap EmptyString s in
  Ok (if is_empty head then None else Some head, rest).

Definition is_ows (c : ascii) : bool := (code c =? 32) || (code c =? 9).

Fixpoint trim_ows_end (s : string) : string :=
  match s with
  | EmptyString => EmptyString
  | String c rest =>
      match trim_ows_end rest with
      | EmptyString => if is_ows c then EmptyString else String c EmptyString
      | t => String c t
      end
  end.

Definition trim_ows (s : string) : string := trim_ows_end (snd (take_while is_ows s)).

(** The lines after the status line; [in_content_type] for continuation lines. *)
Fixpoint lines_declare_stream (in_content_type : bool) (ls : list string) : bool :=
  match ls with
  | [] => false
  | l :: rest =>
      let line := strip_cr l in
      let declares value := contains (to_ascii_lowercase value) EVENT_STREAM_TYPE in
      if match line with String c _ => is_ows c | EmptyString => false end then
        in_content_type && declares line || lines_declare_stream in_content_type rest
      else
        match split_once ":" line with
        | Some (name, value) =>
            if eq_ignore_ascii_case (trim_ows name) "content-type"
            then declares value || lines_declare_stream true rest
            else lines_declare_stream false rest
        | None => lines_declare_stream false rest
        end
  end.

Definition raw_head_is_event_stream (raw : string) : bool := lines_declare_stream false (tail (split_on LF raw)).

Definition raw_head_is_interim (raw : string) : bool :=
  match List.filter (λ p, negb (is_empty p)) (split_on " " (strip_cr (hd EmptyString (split_on LF raw)))) with
  | _ :: status :: _ =>
      (String.length status =? 3)%nat && starts_with status "1" && negb (String.eqb status "101") && str_forallb is_ascii_digit status
  | _ => false
  end.

(** [split_inclusive] at line feeds. *)
Fixpoint split_inclusive (fuel : nat) (s : string) : list string :=
  match fuel, s with
  | _, EmptyString => []
  | O, _ => []
  | S fuel', _ =>
      match break_line s with
      | Some (line, rest) => line :: split_inclusive fuel' rest
      | None => [s]
      end
  end.

(** [splitn(3, ' ')], which must have two parts. *)
Definition status_line_parts (trimmed : string) : option (string * string * string) :=
  match split_once " " trimmed with
  | Some (v, rest) => Some match split_once " " rest with Some (c, r) => (v, c, r) | None => (v, rest, EmptyString) end
  | None => None
  end.

(** The header lines up to the empty one. *)
Fixpoint parse_response_headers (room : nat) (ls : list string) : result (list (string * string)) ReadError.t :=
  match ls with
  | [] => Err ReadError.Refused
  | line :: rest =>
      let trimmed := trim_line_end line in
      if is_empty trimmed then Ok []
      else
        match room with
        | O => Err ReadError.Refused
        | S room' =>
            match split_once ":" trimmed with
            | None => Err ReadError.Refused
            | Some (k, v) => let? kvs := parse_response_headers room' rest in Ok ((trim k, trim v) :: kvs)
            end
        end
  end.

Definition parse_raw_response_head (raw : string) : result HttpResponseHead ReadError.t :=
  match from_utf8 raw with
  | None => Err ReadError.Refused
  | Some text =>
      if MAX_HEADER_BYTES <? len raw then Err ReadError.Refused
      else
        let ls := split_inclusive (String.length text) text in
        let status_line := hd EmptyString ls in
        if existsb (λ l, MAX_HEADER_LINE_LEN <? len (as_bytes l)) ls then Err ReadError.Refused
        else
          match status_line_parts (trim_line_end status_line) with
          | None => Err ReadError.Refused
          | Some (v, c, r) =>
              let? hs := parse_response_headers MAX_HEADER_COUNT (tail ls) in
              Ok {| rh_version := v; status_code := c; rh_reason := r; rh_headers := hs; rh_raw := raw |}
          end
  end.

(** ** Bodies *)

Fixpoint hex_below (limit acc : Z) (s : string) : option Z :=
  match s with
  | EmptyString => Some acc
  | String c rest =>
      match to_digit 16 c with
      | Some d => let acc' := acc * 16 + d in if acc' <? limit then hex_below limit acc' rest else None
      | None => None
      end
  end.

(** [usize::from_str_radix] with radix 16. *)
Definition usize_from_hex (s : string) : option Z :=
  let digits := default s (strip_prefix s "+") in
  if is_empty digits then None else hex_below usize_limit 0 digits.

(** The line before a chunk. *)
Definition read_chunk_size (e : Ending.t) (s : string) : result (Z * string) ReadError.t :=
  let? (line, n, rest) := read_line_up e MAX_HEADER_LINE_LEN s in
  if n =? 0 then Err ReadError.Refused
  else
    match usize_from_hex (trim (hd EmptyString (split_on ";" (trim_line_end line)))) with
    | Some size => Ok (size, rest)
    | None => Err ReadError.Refused
    end.

(** The lines after the last chunk; every round takes at least a byte. *)
Fixpoint read_trailers (fuel : nat) (e : Ending.t) (s : string) : result string ReadError.t :=
  match fuel with
  | O => Err ReadError.Refused
  | S fuel' =>
      let? (line, n, rest) := read_line_up e MAX_HEADER_LINE_LEN s in
      if n =? 0 then Err ReadError.Refused
      else if is_empty (trim_line_end line) then Ok rest
      else read_trailers fuel' e rest
  end.

(** The two bytes after a chunk. *)
Definition read_chunk_end (e : Ending.t) (s : string) : result string ReadError.t :=
  let? (crlf, rest) := read_exact_from e 2 s in
  if String.eqb crlf CRLF then Ok rest else Err ReadError.Refused.

(** [body] is what was read.  The sum of the lengths is a [usize]: past it, the slice of the
    resized body begins after its end. *)
Fixpoint read_chunks (fuel : nat) (e : Ending.t) (body : string) (s : string) : result (string * string) ReadError.t :=
  match fuel with
  | O => Err ReadError.Refused
  | S fuel' =>
      let? (size, rest) := read_chunk_size e s in
      if size =? 0 then let? rest' := read_trailers (S (String.length rest)) e rest in Ok (body, rest')
      else if usize_limit <=? len body + size then Err ReadError.Panic
      else if MAX_BODY_LEN <? len body + size then Err ReadError.Refused
      else
        let? (chunk, rest1) := read_exact_from e size rest in
        let? rest2 := read_chunk_end e rest1 in
        read_chunks fuel' e (String.append body chunk) rest2
  end.

Definition read_chunked_body (e : Ending.t) (s : string) : result (string * string) ReadError.t :=
  read_chunks (S (String.length s)) e EmptyString s.

Definition read_to_eof_capped (e : Ending.t) (s : string) : result (string * string) ReadError.t :=
  if MAX_BODY_LEN <? len s then Err ReadError.Refused
  else if decide (e = Ending.Closed) then Ok (s, EmptyString) else Err (short_read e).

Definition first_header (hs : list (string * string)) (name : string) : option string :=
  option_map snd (List.find (λ kv, eq_ignore_ascii_case (fst kv) name) hs).

Definition transfer_encoding (hs : list (string * string)) : option string :=
  option_map (λ v, to_ascii_lowercase (trim v)) (first_header hs "transfer-encoding").

Definition read_http_response_body (e : Ending.t) (head : HttpResponseHead) (s : string) : result (string * string) ReadError.t :=
  match first_header (rh_headers head) "content-length", transfer_encoding (rh_headers head) with
  | _, Some te => if String.eqb te "chunked" then read_chunked_body e s else Err ReadError.Refused
  | Some raw, None =>
      match parse_unsigned usize_limit raw with
      | None => Err ReadError.Refused
      | Some content_length => if MAX_BODY_LEN <? content_length then Err ReadError.Refused else read_exact_from e content_length s
      end
  | None, None =>
      if String.eqb (status_code head) "204" || String.eqb (status_code head) "304" then Ok (EmptyString, s)
      else read_to_eof_capped e s
  end.

(** ** What is sent to the client *)

Definition is_length_header (k : string) : bool :=
  eq_ignore_ascii_case k "content-length" || eq_ignore_ascii_case k "transfer-encoding".

Definition serialize_http_response (resp : HttpResponse) (new_body : string) : string :=
  String.append (as_bytes (String.append (rs_version resp) (String " " (rs_status_code resp))))
    (String.append (if is_empty (rs_reason resp) then EmptyString else String " " (as_bytes (rs_reason resp)))
       (String.append CRLF
          (String.append (header_lines (List.filter (λ kv, negb (is_length_header (fst kv))) (rs_headers resp)))
             (String.append (String.append "Content-Length: " (decimal (N.of_nat (String.length new_body))))
                (String.append CRLF (String.append CRLF new_body)))))).

(** ** Bodies in pieces *)

Definition BODY_STREAM_PIECE : Z := 8 * 1024.

Module BodyFraming.
Inductive t := Chunked (remaining : Z) | Length (remaining : Z) | UntilClose | Done.
End BodyFraming.

Definition BodyStream_new (head : HttpResponseHead) : result BodyFraming.t ReadError.t :=
  let find name := option_map (λ v, to_ascii_lowercase (trim v)) (first_header (rh_headers head) name) in
  if String.eqb (status_code head) "204" || String.eqb (status_code head) "304" || starts_with (status_code head) "1"
  then Ok BodyFraming.Done
  else
    match find "content-length", find "transfer-encoding" with
    | _, Some te => if String.eqb te "chunked" then Ok (BodyFraming.Chunked 0) else Err ReadError.Refused
    | Some raw, None =>
        match parse_unsigned usize_limit raw with
        | Some n => Ok (BodyFraming.Length n)
        | None => Err ReadError.Refused
        end
    | None, None => Ok BodyFraming.UntilClose
    end.

(** One read into a buffer of [want] bytes when [n] are there, at least one of them; empty
    when the upstream has closed. *)
Definition read_some (e : Ending.t) (n : nat) (want : Z) (s : string) : result (string * string) ReadError.t :=
  match s, e with
  | EmptyString, Ending.Failed => Err ReadError.Io
  | EmptyString, Ending.Silent => Err ReadError.Waiting
  | _, _ => Ok (split_at (Nat.min (S n) (Z.to_nat want)) s)
  end.

Definition read_in_chunk (e : Ending.t) (n : nat) (remaining : Z) (s : string)
  : result (option string * BodyFraming.t * string) ReadError.t :=
  let? (piece, rest) := read_some e n (Z.min remaining BODY_STREAM_PIECE) s in
  if is_empty piece then Err ReadError.Refused
  else
    let left := remaining - len piece in
    if left =? 0 then let? rest' := read_chunk_end e rest in Ok (Some piece, BodyFraming.Chunked 0, rest')
    else Ok (Some piece, BodyFraming.Chunked left, rest).

(** The next piece, [None] after the last one. *)
Definition next_piece (e : Ending.t) (n : nat) (framing : BodyFraming.t) (s : string)
  : result (option string * BodyFraming.t * string) ReadError.t :=
  match framing with
  | BodyFraming.Done => Ok (None, BodyFraming.Done, s)
  | BodyFraming.UntilClose =>
      let? (piece, rest) := read_some e n BODY_STREAM_PIECE s in
      if is_empty piece then Ok (None, BodyFraming.Done, rest) else Ok (Some piece, BodyFraming.UntilClose, rest)
  | BodyFraming.Length remaining =>
      if remaining =? 0 then Ok (None, BodyFraming.Done, s)
      else
        let? (piece, rest) := read_some e n (Z.min remaining BODY_STREAM_PIECE) s in
        if is_empty piece then Err ReadError.Refused else Ok (Some piece, BodyFraming.Length (remaining - len piece), rest)
  | BodyFraming.Chunked remaining =>
      if 0 <? remaining then read_in_chunk e n remaining s
      else
        let? (size, rest) := read_chunk_size e s in
        if size =? 0 then let? rest' := read_trailers (S (String.length rest)) e rest in Ok (None, BodyFraming.Done, rest')
        else read_in_chunk e n size rest
  end.
