(* ===== verification/BodyProps.v ===== *)
(** * BodyProps: a body in pieces is the body at once *)

From stdpp Require Import base strings list.
From Stdlib Require Import ZArith Lia Bool Ascii String.
From S2P Require Import Prelude.
From S2P Require Import Text.
From S2P Require Import NetAddr.
From S2P Require Import HttpCodec.
From S2P Require Import HttpProps.
From S2P Require Import Sse.
From S2P Require Import ResponseCodec.

Open Scope Z_scope.
Open Scope aasm_scope.

#[local] Arguments ascii_dec : simpl never.

(** ** Splitting *)

Lemma split_at_app n s a b : split_at n s = (a, b) → s = String.append a b.
Proof.
  revert s a b. induction n as [|n IH]; intros [|c s] a b; cbn [split_at]; try by intros [= <- <-].
  destruct (split_at n s) as [x y] eqn:Hs. intros [= <- <-]. cbn. by rewrite <-(IH _ _ _ Hs).
Qed.

Lemma split_at_length n s a b : split_at n s = (a, b) → String.length a = Nat.min n (String.length s).
Proof.
  revert s a b. induction n as [|n IH]; intros [|c s] a b; cbn [split_at]; try by intros [= <- <-].
  destruct (split_at n s) as [x y] eqn:Hs. intros [= <- <-]. cbn. by rewrite (IH _ _ _ Hs).
Qed.

Lemma append_same_length a b c d : String.length a = String.length c → String.append a b = String.append c d → a = c ∧ b = d.
Proof.
  revert c. induction a as [|x a IH]; intros [|y c] Hl He; cbn in *; try done. injection He as -> He. injection Hl as Hl.
  by destruct (IH c Hl He) as [-> ->].
Qed.

Lemma read_exact_up e n s a b : 0 ≤ n →
  read_exact_from e n s = Ok (a, b) ↔ s = String.append a b ∧ len a = n.
Proof.
  intros Hn. unfold read_exact_from. split.
  - destruct (Z.ltb_spec (len s) n) as [|Hl]; [done|]. destruct (split_at (Z.to_nat n) s) as [x y] eqn:Hs. intros [= <- <-].
    split; [by apply split_at_app in Hs|]. apply split_at_length in Hs. unfold len in *. lia.
  - intros [-> <-]. rewrite len_append. pose proof (len_nonneg b). destruct (Z.ltb_spec (len a + len b) (len a)); [lia|].
    unfold len at 1. by rewrite Nat2Z.id, split_at_all.
Qed.

(** ** What the framing says the body is *)

Inductive chunked (e : Ending.t) : string → string → string → Prop :=
| Chunked_end s r rest : read_chunk_size e s = Ok (0, r) → read_trailers (S (String.length r)) e r = Ok rest → chunked e s EmptyString rest
| Chunked_chunk s size r chunk r1 r2 b rest :
    read_chunk_size e s = Ok (size, r) → size ≠ 0 → read_exact_from e size r = Ok (chunk, r1) → read_chunk_end e r1 = Ok r2 →
    chunked e r2 b rest → chunked e s (String.append chunk b) rest.

Definition in_chunk (e : Ending.t) (remaining : Z) (s b rest : string) : Prop :=
  ∃ chunk r1 r2 b', read_exact_from e remaining s = Ok (chunk, r1) ∧ read_chunk_end e r1 = Ok r2 ∧ chunked e r2 b' rest ∧
    b = String.append chunk b'.

Lemma chunked_inv e s b rest : chunked e s b rest →
  ∃ size r, read_chunk_size e s = Ok (size, r) ∧
    (size = 0 ∧ b = EmptyString ∧ read_trailers (S (String.length r)) e r = Ok rest ∨ size ≠ 0 ∧ in_chunk e size r b rest).
Proof.
  destruct 1 as [s r rest H1 H2|s size r chunk r1 r2 b rest H1 H2 H3 H4 H5].
  - exists 0, r. split; [done|]. by left.
  - exists size, r. split; [done|]. right. split; [done|]. by exists chunk, r1, r2, b.
Qed.

Definition framed (e : Ending.t) (framing : BodyFraming.t) (s b rest : string) : Prop :=
  match framing with
  | BodyFraming.Chunked remaining => if 0 <? remaining then in_chunk e remaining s b rest else chunked e s b rest
  | BodyFraming.Length n => read_exact_from e n s = Ok (b, rest)
  | BodyFraming.UntilClose => e = Ending.Closed ∧ b = s ∧ rest = EmptyString
  | BodyFraming.Done => b = EmptyString ∧ rest = s
  end.

Definition framing_ok (framing : BodyFraming.t) : Prop :=
  match framing with BodyFraming.Chunked n | BodyFraming.Length n => 0 ≤ n | _ => True end.

Lemma hex_below_nonneg limit s : ∀ acc z, 0 ≤ acc → hex_below limit acc s = Some z → 0 ≤ z.
Proof.
  induction s as [|c s IH]; intros acc z Ha; cbn [hex_below]; [by intros [= <-]|].
  destruct (to_digit 16 c) as [d|] eqn:Hd; [|done]. destruct (_ <? _); [|done]. apply IH.
  destruct (to_digit_Some _ _ _ Hd). lia.
Qed.

Lemma read_line_shrinks e cap s text n rest : read_line_up e cap s = Ok (text, n, rest) → len s = n + len rest ∧ 0 ≤ n.
Proof.
  unfold read_line_up. destruct (_ && _); [done|]. unfold read_line_capped, read_line_bytes.
  destruct (default (s, EmptyString) (break_line s)) as [line r] eqn:Hb.
  assert (s = String.append line r) as Hs.
  { destruct (break_line s) as [[l' r']|] eqn:Hl; cbn in Hb; injection Hb as <- <-.
    - apply break_line_Some in Hl as (? & _ & _ & ->). done.
    - by rewrite append_nil_r. }
  destruct (_ <? _); cbn [result_bind]; [done|]. destruct (from_utf8 line); [|done]. intros [= _ <- <-].
  split; [by rewrite Hs, len_append|apply len_nonneg].
Qed.

Lemma read_chunk_size_shrinks e s size r : read_chunk_size e s = Ok (size, r) → (String.length r < String.length s)%nat ∧ 0 ≤ size.
Proof.
  unfold read_chunk_size. destruct (read_line_up e _ s) as [[[line n] rest]|] eqn:Hl; cbn [result_bind]; [|done].
  apply read_line_shrinks in Hl as [Hl Hn]. destruct (Z.eqb_spec n 0); [done|].
  destruct (usize_from_hex _) as [z|] eqn:Hz; [|done]. intros [= <- <-]. unfold len in Hl. split; [lia|].
  unfold usize_from_hex in Hz. destruct (is_empty _); [done|]. by eapply hex_below_nonneg; [|exact Hz].
Qed.

Lemma read_chunk_end_app e s rest : read_chunk_end e s = Ok rest → s = String.append CRLF rest.
Proof.
  unfold read_chunk_end. destruct (read_exact_from e 2 s) as [[crlf r]|] eqn:Hr; cbn [result_bind]; [|done].
  apply read_exact_up in Hr as [-> _]; [|lia]. destruct (String.eqb_spec crlf CRLF) as [->|]; [|done]. by intros [= <-].
Qed.

(** ** One piece *)

Inductive piece_spec (e : Ending.t) (framing : BodyFraming.t) (s : string)
  : result (option string * BodyFraming.t * string) ReadError.t → Prop :=
| Piece_last f r : (∀ b rest, framed e framing s b rest ↔ b = EmptyString ∧ rest = r) → piece_spec e framing s (Ok (None, f, r))
| Piece_some p f r :
    (String.length r < String.length s)%nat → framing_ok f →
    (∀ b rest, framed e framing s b rest ↔ ∃ b', b = String.append p b' ∧ framed e f r b' rest) → piece_spec e framing s (Ok (Some p, f, r))
| Piece_error err : (∀ b rest, framed e framing s b rest → False) → piece_spec e framing s (Err err).

Lemma read_some_cases e n want s : 0 < want →
  (s = EmptyString ∧ read_some e n want s = match e with Ending.Closed => Ok (EmptyString, EmptyString) | _ => Err (short_read e) end) ∨
  ∃ p r, read_some e n want s = Ok (p, r) ∧ s = String.append p r ∧ p ≠ EmptyString ∧ len p ≤ want.
Proof.
  intros Hw. destruct s as [|c s]; [left; destruct e; cbn; (done || by destruct (Z.to_nat want))|]. right. unfold read_some.
  destruct (split_at (Nat.min (S n) (Z.to_nat want)) (String c s)) as [p r] eqn:Hs. exists p, r.
  pose proof (split_at_length _ _ _ _ Hs) as Hl. apply split_at_app in Hs. split_and!; [by destruct e|done| |].
  - intros ->. cbn [String.length] in Hl. lia.
  - unfold len. lia.
Qed.

Lemma short_exact e n : 0 < n → read_exact_from e n EmptyString = Err (short_read e).
Proof. intros Hn. unfold read_exact_from. change (len EmptyString) with 0. destruct (Z.ltb_spec 0 n); [done|lia]. Qed.

Lemma is_empty_false s : s ≠ EmptyString → is_empty s = false.
Proof. by destruct s. Qed.

Lemma piece_smaller p r : p ≠ EmptyString → (String.length r < String.length (String.append p r))%nat.
Proof. intros Hp. rewrite append_length. destruct p; [done|]. cbn. lia. Qed.

(** Part of what is wanted, and the rest of it. *)
Lemma exact_after e n p r b rest : 0 ≤ n - len p →
  read_exact_from e n (String.append p r) = Ok (b, rest) ↔ ∃ b', b = String.append p b' ∧ read_exact_from e (n - len p) r = Ok (b', rest).
Proof.
  intros Hn. pose proof (len_nonneg p). rewrite read_exact_up by lia. split.
  - intros [He Hl]. assert (∃ b', b = String.append p b') as [b' ->].
    { exists (snd (split_at (String.length p) b)). destruct (split_at (String.length p) b) as [x y] eqn:Hs.
      pose proof (split_at_length _ _ _ _ Hs) as Hx. apply split_at_app in Hs as ->. rewrite append_assoc in He.
      apply append_same_length in He as [-> _]; [done|]. rewrite len_append in Hl. unfold len in *. rewrite append_length in Hx. lia. }
    exists b'. split; [done|]. rewrite append_assoc in He. apply append_same_length in He as [_ ->]; [|done].
    apply read_exact_up; [lia|]. rewrite len_append in Hl. split; [done|lia].
  - intros (b' & -> & Hb). apply read_exact_up in Hb as [-> Hb]; [|lia]. rewrite append_assoc, len_append. split; [done|lia].
Qed.

Lemma piece_in_chunk e n remaining s : 0 < remaining → piece_spec e (BodyFraming.Chunked remaining) s (read_in_chunk e n remaining s).
Proof.
  intros Hr. unfold read_in_chunk. destruct (read_some_cases e n (Z.min remaining BODY_STREAM_PIECE) s) as [[-> ->]|(p & r & -> & -> & Hp & Hl)].
  { unfold BODY_STREAM_PIECE. lia. }
  - assert (∀ b rest, framed e (BodyFraming.Chunked remaining) EmptyString b rest → False) as Hf.
    { intros b rest. cbn. rewrite (proj2 (Z.ltb_lt 0 remaining)) by lia. intros (? & ? & ? & ? & Hx & _). by rewrite short_exact in Hx. }
    destruct e; cbn [result_bind is_empty]; by constructor.
  - cbn [result_bind]. rewrite is_empty_false by done. destruct (Z.eqb_spec (remaining - len p) 0) as [H0|H0].
    + assert (∀ b rest, framed e (BodyFraming.Chunked remaining) (String.append p r) b rest ↔
        ∃ r2 b', read_chunk_end e r = Ok r2 ∧ chunked e r2 b' rest ∧ b = String.append p b') as Hf.
      { intros b rest. cbn. rewrite (proj2 (Z.ltb_lt 0 remaining)) by lia. split.
        - intros (chunk & r1 & r2 & b' & H1 & H2 & H3 & ->). apply read_exact_up in H1 as [He Hc]; [|lia].
          apply append_same_length in He as [-> ->]; [by exists r2, b'|]. unfold len in *. lia.
        - intros (r2 & b' & H2 & H3 & ->). exists p, r, r2, b'. split; [|done]. apply read_exact_up; [lia|]. split; [done|lia]. }
      destruct (read_chunk_end e r) as [r2|err] eqn:Hend; cbn [result_bind].
      * constructor; [|done|].
        -- apply read_chunk_end_app in Hend as ->. rewrite append_length. cbn. pose proof (piece_smaller p r2 Hp). rewrite append_length in *. lia.
        -- intros b rest. rewrite Hf. cbn. split; [intros (? & b' & [= <-] & ? & ->); by exists b'|intros (b' & -> & ?); by exists r2, b'].
      * constructor. intros b rest H. apply Hf in H as (? & ? & ? & _). done.
    + constructor; [by apply piece_smaller|cbn; lia|]. intros b rest. cbn. rewrite (proj2 (Z.ltb_lt 0 remaining)) by lia.
      rewrite (proj2 (Z.ltb_lt 0 (remaining - len p))) by lia. unfold in_chunk. split.
      * intros (chunk & r1 & r2 & b' & H1 & H2 & H3 & ->). apply exact_after in H1 as (c' & -> & H1); [|lia].
        exists (String.append c' b'). rewrite append_assoc. split; [done|]. by exists c', r1, r2, b'.
      * intros (bb & -> & chunk & r1 & r2 & b' & H1 & H2 & H3 & ->). exists (String.append p chunk), r1, r2, b'. rewrite append_assoc.
        split; [|done]. apply exact_after; [lia|]. by exists chunk.
Qed.

Lemma next_piece_spec e n framing s : framing_ok framing → piece_spec e framing s (next_piece e n framing s).
Proof.
  intros Hok. destruct framing as [remaining|remaining| |]; cbn [next_piece framing_ok] in *.
  - destruct (Z.ltb_spec 0 remaining); [by apply piece_in_chunk|]. assert (remaining = 0) as -> by lia.
    destruct (read_chunk_size e s) as [[size r]|err] eqn:Hs; cbn [result_bind].
    2:{ constructor. intros b rest (? & ? & ? & _)%chunked_inv. congruence. }
    destruct (read_chunk_size_shrinks _ _ _ _ Hs) as [Hlen Hsize]. destruct (Z.eqb_spec size 0) as [->|Hne].
    + destruct (read_trailers _ e r) as [rest'|] eqn:Ht; cbn [result_bind]; constructor; intros b rest; cbn.
      * split; [|intros [-> ->]; by econstructor]. intros (? & ? & Hx & [(-> & -> & ?)|[? _]])%chunked_inv; [|congruence].
        split; congruence.
      * intros (? & ? & Hx & [(-> & -> & ?)|[? _]])%chunked_inv; congruence.
    + assert (∀ b rest, framed e (BodyFraming.Chunked 0) s b rest ↔ framed e (BodyFraming.Chunked size) r b rest) as Hf.
      { intros b rest. cbn. rewrite (proj2 (Z.ltb_lt 0 size)) by lia. split.
        - intros (? & ? & Hx & [[-> _]|[_ Hc]])%chunked_inv; [congruence|]. rewrite Hs in Hx. by injection Hx as <- <-.
        - intros (chunk & r1 & r2 & b' & H1 & H2 & H3 & ->). by eapply Chunked_chunk. }
      pose proof (piece_in_chunk e n size r ltac:(lia)) as Hp. destruct Hp as [f r0 Hp|p f r0 Hl Hf' Hp|err Hp]; constructor;
        try intros b rest; rewrite ?Hf; try done; [lia|apply Hp].
  - destruct (Z.eqb_spec remaining 0) as [->|Hne].
    + constructor. intros b rest. cbn. rewrite read_exact_up by lia. split.
      * intros [-> Hb]. destruct b; [done|]. unfold len in Hb. cbn in Hb. lia.
      * by intros [-> ->].
    + destruct (read_some_cases e n (Z.min remaining BODY_STREAM_PIECE) s) as [[-> ->]|(p & r & -> & -> & Hp & Hl)].
      { unfold BODY_STREAM_PIECE. lia. }
      * assert (∀ b rest, framed e (BodyFraming.Length remaining) EmptyString b rest → False) as Hf
          by (intros b rest; cbn; rewrite short_exact by lia; done).
        destruct e; cbn [result_bind is_empty]; by constructor.
      * cbn [result_bind]. rewrite is_empty_false by done. constructor; [by apply piece_smaller|cbn; lia|].
        intros b rest. cbn. apply exact_after. lia.
  - destruct (read_some_cases e n BODY_STREAM_PIECE s) as [[-> ->]|(p & r & -> & -> & Hp & Hl)]; [done| |].
    + destruct e; cbn [result_bind is_empty]; constructor; cbn; [tauto|intros ? ? [? _]; done..].
    + cbn [result_bind]. rewrite is_empty_false by done. constructor; [by apply piece_smaller|done|]. intros b rest. cbn.
      split; [intros (-> & -> & ->); by exists r|by intros (b' & -> & -> & -> & ->)].
  - constructor. intros b rest. cbn. done.
Qed.

(** ** All pieces *)

(** Every piece of a body, each read giving as many bytes as the schedule says. *)
Fixpoint body_pieces (fuel : nat) (e : Ending.t) (sched : list nat) (framing : BodyFraming.t) (s : string)
  : result (list string * string) ReadError.t :=
  match fuel with
  | O => Err ReadError.Refused
  | S fuel' =>
      let? (piece, framing', s') := next_piece e (hd (Z.to_nat BODY_STREAM_PIECE) sched) framing s in
      match piece with
      | None => Ok ([], s')
      | Some p => let? (ps, rest) := body_pieces fuel' e (tail sched) framing' s' in Ok (p :: ps, rest)
      end
  end.

Lemma pieces_framed fuel e : ∀ sched framing s b rest, framing_ok framing → (String.length s < fuel)%nat →
  framed e framing s b rest ↔ ∃ ps, body_pieces fuel e sched framing s = Ok (ps, rest) ∧ joined ps = b.
Proof.
  induction fuel as [|fuel IH]; intros sched framing s b rest Hok Hf; [lia|]. cbn [body_pieces].
  destruct (next_piece_spec e (hd (Z.to_nat BODY_STREAM_PIECE) sched) framing s Hok) as [f r Hp|p f r Hl Hok' Hp|err Hp]; cbn [result_bind].
  - rewrite Hp. split; [intros [-> ->]; by exists []|by intros (ps & [= <- ->] & <-)].
  - rewrite Hp. split.
    + intros (b' & -> & Hb). apply (IH (tail sched)) in Hb as (ps & Hps & <-); [|done|lia]. exists (p :: ps). by rewrite Hps.
    + intros (ps & Hps & <-). destruct (body_pieces fuel e (tail sched) f r) as [[ps' rest']|] eqn:Hr; cbn [result_bind] in Hps; [|done].
      injection Hps as <- ->. exists (joined ps'). split; [done|]. apply (IH (tail sched)); [done|lia|]. by exists ps'.
  - split; [intros H; by destruct (Hp _ _ H)|by intros (ps & H & _)].
Qed.

Lemma exact_length e n s a b : 0 ≤ n → read_exact_from e n s = Ok (a, b) → (String.length b ≤ String.length s)%nat.
Proof. intros Hn H. apply read_exact_up in H as [-> _]; [|done]. rewrite append_length. lia. Qed.

Lemma chunk_end_length e s r : read_chunk_end e s = Ok r → (String.length r ≤ String.length s)%nat.
Proof. intros ->%read_chunk_end_app. rewrite append_length. lia. Qed.

Lemma chunks_framed fuel e : ∀ acc s x rest, (String.length s < fuel)%nat → len acc ≤ MAX_BODY_LEN →
  read_chunks fuel e acc s = Ok (x, rest) ↔ ∃ b, chunked e s b rest ∧ x = String.append acc b ∧ len x ≤ MAX_BODY_LEN.
Proof.
  induction fuel as [|fuel IH]; intros acc s x rest Hf Hacc; [lia|]. cbn [read_chunks].
  destruct (read_chunk_size e s) as [[size r]|] eqn:Hs; cbn [result_bind].
  2:{ split; [done|]. intros (b & (? & ? & ? & _)%chunked_inv & _). congruence. }
  destruct (read_chunk_size_shrinks _ _ _ _ Hs) as [Hlen Hsize]. destruct (Z.eqb_spec size 0) as [->|Hne].
  { split.
    - destruct (read_trailers _ e r) as [r'|] eqn:Ht; cbn [result_bind]; [|done]. intros [= <- <-]. exists EmptyString.
      rewrite append_nil_r. split; [by econstructor|done].
    - intros (b & (? & ? & Hx & [(-> & -> & Ht)|[? _]])%chunked_inv & -> & _); [|congruence]. rewrite Hs in Hx. injection Hx as <-.
      by rewrite Ht, append_nil_r. }
  assert (∀ b, chunked e s b rest ↔ in_chunk e size r b rest) as Hin.
  { intros b. split; [intros (? & ? & Hx & [[-> _]|[_ Hc]])%chunked_inv; [congruence|]; rewrite Hs in Hx; by injection Hx as <- <-|].
    intros (chunk & r1 & r2 & b' & H1 & H2 & H3 & ->). by eapply Chunked_chunk. }
  assert (∀ b, in_chunk e size r b rest → size ≤ len b) as Hbig.
  { intros b (chunk & r1 & r2 & b' & H1 & _ & _ & ->). apply read_exact_up in H1 as [_ H1]; [|done]. rewrite len_append.
    pose proof (len_nonneg b'). lia. }
  destruct (usize_limit <=? len acc + size) eqn:Hu; [|destruct (Z.ltb_spec MAX_BODY_LEN (len acc + size))].
  1,2: split; [done|]; intros (b & Hb%Hin%Hbig & -> & Hm); rewrite len_append in Hm; rewrite ?Z.leb_le in Hu; unfold usize_limit, MAX_BODY_LEN in *; lia.
  split.
  - destruct (read_exact_from e size r) as [[chunk r1]|] eqn:He; cbn [result_bind]; [|done].
    destruct (read_chunk_end e r1) as [r2|] eqn:Hend; cbn [result_bind]; [|done]. pose proof (exact_length _ _ _ _ _ Hsize He). pose proof (chunk_end_length _ _ _ Hend).
    intros Hx. apply IH in Hx as (b & Hc & -> & Hm); [|lia|].
    + exists (String.append chunk b). rewrite <-append_assoc. split; [|done]. apply Hin. by exists chunk, r1, r2, b.
    + apply read_exact_up in He as [_ He]; [|done]. rewrite len_append. lia.
  - intros (b & (chunk & r1 & r2 & b' & H1 & H2 & H3 & ->)%Hin & -> & Hm). rewrite H1. cbn [result_bind]. rewrite H2. cbn [result_bind].
    pose proof (exact_length _ _ _ _ _ Hsize H1). pose proof (chunk_end_length _ _ _ H2). apply IH; [lia| |].
    + rewrite !len_append in Hm. rewrite len_append. pose proof (len_nonneg b'). lia.
    + exists b'. by rewrite append_assoc.
Qed.

(** ** Heads *)

Lemma parse_headers_trimmed room ls hs : parse_response_headers room ls = Ok hs → Forall (λ kv, trim (snd kv) = snd kv) hs.
Proof.
  revert room hs. induction ls as [|l ls IH]; intros room hs; [by destruct room|].
  destruct room as [|room]; cbn [parse_response_headers]; destruct (is_empty _); try by intros [= <-]. destruct (split_once ":" _) as [[k v]|]; [|done].
  destruct (parse_response_headers room ls) as [kvs|] eqn:Hr; cbn [result_bind]; [|done]. intros [= <-]. constructor; [apply trim_idemp|by eapply IH].
Qed.

Lemma parse_head_trimmed raw head : parse_raw_response_head raw = Ok head → Forall (λ kv, trim (snd kv) = snd kv) (rh_headers head).
Proof.
  unfold parse_raw_response_head. destruct (from_utf8 raw); [|done]. destruct (_ <? _); [done|]. destruct (existsb _ _); [done|].
  destruct (status_line_parts _) as [[[v c] r]|]; [|done]. destruct (parse_response_headers _ _) eqn:Hp; cbn [result_bind]; [|done].
  intros [= <-]. by eapply parse_headers_trimmed.
Qed.

Lemma first_header_trimmed hs name v : Forall (λ kv, trim (snd kv) = snd kv) hs → first_header hs name = Some v → trim v = v.
Proof.
  unfold first_header. intros Hh. destruct (List.find _ hs) as [[k w]|] eqn:Hf; [|done]. intros [= <-]. apply find_some in Hf as [Hin _].
  rewrite Forall_forall in Hh. apply (Hh (k, w)). by apply list_elem_of_In.
Qed.

Lemma lower_digit c : is_ascii_digit (lower_char c) = is_ascii_digit c ∧ (is_ascii_digit c = true → lower_char c = c).
Proof. by destruct c as [[] [] [] [] [] [] [] []]. Qed.

Lemma digits_lower limit s : ∀ acc, digits_below limit acc (to_ascii_lowercase s) = digits_below limit acc s.
Proof.
  induction s as [|c s IH]; intros acc; [done|]. cbn [to_ascii_lowercase digits_below]. destruct (lower_digit c) as [-> Hd].
  destruct (is_ascii_digit c); [|done]. rewrite Hd by done. by rewrite IH.
Qed.

Lemma parse_lower limit s : parse_unsigned limit (to_ascii_lowercase s) = parse_unsigned limit s.
Proof.
  unfold parse_unsigned. destruct s as [|c s]; [done|].
  assert (strip_prefix (to_ascii_lowercase (String c s)) "+" = option_map to_ascii_lowercase (strip_prefix (String c s) "+")) as ->.
  { cbn [to_ascii_lowercase strip_prefix]. assert (lower_char c = "+"%char ↔ c = "+"%char) as H by (by destruct c as [[] [] [] [] [] [] [] []]; split).
    destruct (ascii_dec "+" (lower_char c)) as [H1|H1], (ascii_dec "+" c) as [H2|H2]; [by destruct s|..|done]; exfalso;
      destruct H as [Ha Hb]; [by apply H2; rewrite Ha|by apply H1; rewrite Hb]. }
  destruct (strip_prefix (String c s) "+") as [t|]; cbn [option_map default id]; [|by rewrite digits_lower].
  rewrite digits_lower. by destruct t.
Qed.

Lemma digits_below_nonneg limit s : ∀ acc z, 0 ≤ acc → digits_below limit acc s = Some z → 0 ≤ z.
Proof.
  induction s as [|c s IH]; intros acc z Ha; cbn [digits_below]; [by intros [= <-]|].
  destruct (is_ascii_digit c) eqn:Hd; [|done]. destruct (_ <? _); [|done]. apply IH. apply in_range_spec in Hd. lia.
Qed.

Lemma parse_unsigned_nonneg limit s z : parse_unsigned limit s = Some z → 0 ≤ z.
Proof. unfold parse_unsigned. destruct (is_empty _); [done|]. by apply digits_below_nonneg. Qed.

(** A response without a body. *)
Definition bodiless (head : HttpResponseHead) : bool :=
  String.eqb (status_code head) "204" || String.eqb (status_code head) "304" || starts_with (status_code head) "1".

Lemma body_framed e head s b rest :
  Forall (λ kv, trim (snd kv) = snd kv) (rh_headers head) → bodiless head = false →
  read_http_response_body e head s = Ok (b, rest) ↔
  ∃ framing, BodyStream_new head = Ok framing ∧ framing_ok framing ∧ framed e framing s b rest ∧ len b ≤ MAX_BODY_LEN.
Proof.
  intros Ht Hb. unfold read_http_response_body, BodyStream_new, transfer_encoding. unfold bodiless in Hb. rewrite Hb.
  apply orb_false_iff in Hb as [Hb _]. rewrite Hb.
  destruct (first_header (rh_headers head) "transfer-encoding") as [te|]; cbn [option_map].
  - destruct (String.eqb _ "chunked"); [|destruct (first_header _ _); split; [done|by intros (? & ? & _)|done|by intros (? & ? & _)]].
    assert (read_chunked_body e s = Ok (b, rest) ↔ chunked e s b rest ∧ len b ≤ MAX_BODY_LEN) as Hc.
    { unfold read_chunked_body. rewrite chunks_framed by (lia || done). split; [by intros (? & ? & -> & ?)|]. intros [??]. by exists b. }
    destruct (first_header (rh_headers head) "content-length"); rewrite Hc; cbn.
    all: split; [intros [??]; by exists (BodyFraming.Chunked 0)|by intros (f & [= <-] & _ & ?)].
  - destruct (first_header (rh_headers head) "content-length") as [v|] eqn:Hv; cbn [option_map].
    + rewrite (first_header_trimmed _ _ _ Ht Hv), parse_lower. destruct (parse_unsigned usize_limit v) as [n|] eqn:Hn.
      2:{ split; [done|]. by intros (? & ? & _). }
      apply parse_unsigned_nonneg in Hn. destruct (Z.ltb_spec MAX_BODY_LEN n).
      * split; [done|]. intros (f & [= <-] & _ & Hf & Hm). cbn in Hf. apply read_exact_up in Hf as [_ Hf]; [lia|done].
      * split; [|by intros (f & [= <-] & _ & ? & _)]. intros He. exists (BodyFraming.Length n). split_and!; try done.
        apply read_exact_up in He as [_ He]; [lia|done].
    + unfold read_to_eof_capped. destruct (Z.ltb_spec MAX_BODY_LEN (len s)).
      * split; [done|]. intros (f & [= <-] & _ & Hf & Hm). destruct Hf as (_ & -> & _). lia.
      * destruct (decide (e = Ending.Closed)) as [->|].
        -- split; [intros [= <- <-]; by exists BodyFraming.UntilClose|]. intros (f & [= <-] & _ & (_ & -> & ->) & _). done.
        -- split; [done|]. by intros (f & [= <-] & _ & (? & _) & _).
Qed.

Lemma body_in_pieces raw head e sched s b rest :
  parse_raw_response_head raw = Ok head → bodiless head = false →
  read_http_response_body e head s = Ok (b, rest) ↔
  len b ≤ MAX_BODY_LEN ∧
  ∃ framing ps, BodyStream_new head = Ok framing ∧ body_pieces (S (String.length s)) e sched framing s = Ok (ps, rest) ∧ joined ps = b.
Proof.
  intros Hp Hb. rewrite body_framed by (done || by eapply parse_head_trimmed). split.
  - intros (f & Hf & Hok & Hfr & Hm). split; [done|]. apply (pieces_framed (S (String.length s)) e sched) in Hfr as (ps & Hps & <-); [|done|lia].
    by exists f, ps.
  - intros (Hm & f & ps & Hf & Hps & Hj). exists f. assert (framing_ok f) as Hok.
    { unfold BodyStream_new in Hf. destruct (_ || _); [by injection Hf as <-|].
      repeat case_match; simplify_eq; try done. by eapply parse_unsigned_nonneg. }
    split_and!; try done. apply (pieces_framed (S (String.length s)) e sched); [done|lia|]. by exists ps.
Qed.

(** Reading a body in pieces agrees with reading it at once, however the bytes arrive: what is
    read at once is what the pieces make up, the same bytes are left over, and a body that
    cannot be read one way cannot be read the other, its length apart. *)
Theorem body_stream_agrees raw head e sched s b rest :
  parse_raw_response_head raw = Ok head → bodiless head = false →
  read_http_response_body e head s = Ok (b, rest) ↔
  len b ≤ MAX_BODY_LEN ∧
  ∃ framing ps, BodyStream_new head = Ok framing ∧ body_pieces (S (String.length s)) e sched framing s = Ok (ps, rest) ∧ joined ps = b.
Proof. apply body_in_pieces. Qed.

(** Lines, each with its end. *)
Definition crlf_lines (ls : list string) : string := joined (map (λ l, String.append l CRLF) ls).

Definition sample_chunked_head : string := crlf_lines ["HTTP/1.1 200 OK"; "Transfer-Encoding: Chunked"; "Content-Length: 3"; ""].
Definition sample_chunks : string := crlf_lines ["5;x=y"; "hello"; "3"; "abc"; "0"; "Trailer: t"; ""].

Lemma body_stream_agrees_witness :
  ∃ head rest, parse_raw_response_head sample_chunked_head = Ok head ∧ bodiless head = false ∧
    read_http_response_body Ending.Silent head (String.append sample_chunks "next") = Ok ("helloabc", rest) ∧ rest = "next" ∧
    ∃ framing ps, BodyStream_new head = Ok framing ∧
      body_pieces (S (String.length (String.append sample_chunks "next"))) Ending.Silent [2; 0; 9]%nat framing (String.append sample_chunks "next") =
      Ok (ps, rest) ∧ joined ps = "helloabc".
Proof.
  destruct (parse_raw_response_head sample_chunked_head) as [head|] eqn:Hp; [|vm_compute in Hp; discriminate Hp].
  assert (bodiless head = false) as Hb by (vm_compute in Hp; by injection Hp as <-).
  assert (read_http_response_body Ending.Silent head (String.append sample_chunks "next") = Ok ("helloabc", "next")) as Hr
    by (vm_compute in Hp; injection Hp as <-; by vm_compute).
  exists head, "next". split_and!; try done. by apply (body_stream_agrees _ head _ [2; 0; 9]%nat _ _ _ Hp Hb) in Hr as [_ Hr].
Defined.

(** A chunk whose length wraps the length of the body makes the task panic. *)
Lemma chunk_size_wraps :
  read_chunked_body Ending.Closed (crlf_lines ["1"; "a"; "ffffffffffffffff"; "b"; "0"; ""]) = Err ReadError.Panic.
Proof. by vm_compute. Qed.

(** An empty line that ends differently from the line before it does not end a head: the
    body is taken for part of it, and lost. *)
Definition mixed_end : string :=
  String.append (crlf_lines ["HTTP/1.1 200 OK"]) (String.append "Content-Length: 2" (String LF (String.append CRLF "ok"))).

Lemma mixed_head_end_takes_body :
  read_raw_response_head Ending.Closed MAX_RAW_HEAD_BYTES mixed_end = Ok (Some mixed_end, EmptyString) ∧
  ∃ head, parse_raw_response_head mixed_end = Ok head ∧ read_http_response_body Ending.Closed head EmptyString = Err ReadError.Io.
Proof.
  split; [vm_compute; reflexivity|]. destruct (parse_raw_response_head mixed_end) as [head|] eqn:Hp; [|vm_compute in Hp; discriminate Hp].
  exists head. split; [reflexivity|]. vm_compute in Hp. injection Hp as <-. vm_compute. reflexivity.
Qed.
