(* ===== verification/Credentials.v ===== *)
(** * Credentials: the provider keys the proxy holds, and their revocation

    aa-proxy/src/credentials.rs, revocations.rs and the dispatch of control.rs.  The store is
    a map by lower-case host; a revoked host keeps its entry without the secret.  The
    durable record is a file of host names; its mode, and the mode and owner of its
    directory, are part of the state. *)

From stdpp Require Import base strings list gmap relations.
From Stdlib Require Import ZArith Lia Bool Ascii String.
From S2P Require Import Prelude.
From S2P Require Import Text.
From S2P Require Import HttpCodec.
From S2P Require Import NetAddr.
From S2P Require Import HttpProps.

Open Scope Z_scope.
Open Scope aasm_scope.

#[local] Arguments ascii_dec : simpl never.

(** ** The store *)

(** A secret's bytes, and the instant it expires at. *)
Record Entry := { ce_secret : option string; ce_expires_at : option Z }.

Definition is_expired (now : Z) (e : Entry) : bool :=
  match ce_expires_at e with Some deadline => deadline <=? now | None => false end.

Inductive Injection := Inject (name value : string) | NotConfigured | Expired | Revoked.

Module Outcome.
Inductive RevokeOutcome := Revoked | AlreadyRevoked | NotConfigured.
End Outcome.

Module Provider.
Inductive t := Anthropic | OpenAi | Cohere.
End Provider.

Definition classify_provider_for_host (host : string) : option Provider.t :=
  let host := to_ascii_lowercase host in
  if contains host "anthropic" then Some Provider.Anthropic
  else if contains host "openai" then Some Provider.OpenAi
  else if contains host "cohere" then Some Provider.Cohere
  else None.

(** Later pairs of one host replace earlier ones. *)
Definition from_pairs (pairs : list (string * string)) : gmap string Entry :=
  foldl (λ (m : gmap string Entry) hk, <[to_ascii_lowercase (fst hk) := {| ce_secret := Some (snd hk); ce_expires_at := None |}]> m)
    ∅ pairs.

Definition injection_for (store : gmap string Entry) (now : Z) (host : string) : Injection :=
  match store !! to_ascii_lowercase host with
  | None => NotConfigured
  | Some e =>
      match ce_secret e with
      | None => Revoked
      | Some key =>
          if is_expired now e then Expired
          else match classify_provider_for_host host with
               | Some Provider.Anthropic => Inject "x-api-key" key
               | _ => Inject "Authorization" (String.append "Bearer " key)
               end
      end
  end.

Definition revoke (store : gmap string Entry) (host : string) : gmap string Entry * Outcome.RevokeOutcome :=
  let host := to_ascii_lowercase host in
  match store !! host with
  | None => (store, Outcome.NotConfigured)
  | Some e =>
      match ce_secret e with
      | None => (store, Outcome.AlreadyRevoked)
      | Some _ => (<[host := {| ce_secret := None; ce_expires_at := None |}]> store, Outcome.Revoked)
      end
  end.

Definition rotate (store : gmap string Entry) (now : Z) (host new_secret : string) (ttl : option Z) : gmap string Entry :=
  <[to_ascii_lowercase host := {| ce_secret := Some new_secret; ce_expires_at := option_map (Z.add now) ttl |}]> store.

(** ** Keys at startup *)

Module KeysError.
Inductive ProviderKeysError := Ambiguous | Unreadable | Empty | TooLarge | NotUtf8 | Malformed (index : nat).
End KeysError.

Definition MAX_PROVIDER_KEYS_BYTES : Z := 8192.

Definition parse_entry (entry : string) : option (string * string) :=
  match split_once "=" entry with
  | Some (host, key) => if is_empty (trim host) || is_empty key then None else Some (trim host, key)
  | None => None
  end.

Fixpoint parse_entries (position : nat) (entries : list string) : result (list (string * string)) KeysError.ProviderKeysError :=
  match entries with
  | [] => Ok []
  | e :: rest =>
      match parse_entry e with
      | None => Err (KeysError.Malformed (S position))
      | Some p => let? ps := parse_entries (S position) rest in Ok (p :: ps)
      end
  end.

Definition key_entries (raw : string) : list string :=
  List.filter (λ e, negb (is_empty e)) (map trim (split_on "," raw)).

Definition parse_provider_keys (raw : string) : result (list (string * string)) KeysError.ProviderKeysError :=
  match parse_entries 0 (key_entries raw) with
  | Ok [] => Err KeysError.Empty
  | r => r
  end.

(** [None] when the reader fails. *)
Definition read_provider_keys (reader : option string) : result (list (string * string)) KeysError.ProviderKeysError :=
  match reader with
  | None => Err KeysError.Unreadable
  | Some buf =>
      if MAX_PROVIDER_KEYS_BYTES <? len buf then Err KeysError.TooLarge
      else match from_utf8 buf with
           | Some raw => parse_provider_keys raw
           | None => Err KeysError.NotUtf8
           end
  end.

(** From the environment, malformed entries are skipped. *)
Definition from_env (value : option string) : gmap string Entry :=
  match value with
  | Some v => if is_empty v then ∅ else from_pairs (omap parse_entry (key_entries v))
  | None => ∅
  end.

Definition load_with (stdin_selected env_present : bool) (stdin : option string)
  : result (option (gmap string Entry)) KeysError.ProviderKeysError :=
  match stdin_selected, env_present with
  | true, true => Err KeysError.Ambiguous
  | true, false => let? pairs := read_provider_keys stdin in Ok (Some (from_pairs pairs))
  | false, _ => Ok None
  end.

(** ** The durable record *)

Definition MAX_HOST_LEN : Z := 253.

Definition is_host_byte (c : ascii) : bool :=
  in_range 97 122 c || is_ascii_digit c || (code c =? 46) || (code c =? 45).

Definition normalize_host (raw : string) : option string :=
  let trimmed := trim raw in
  let host := to_ascii_lowercase (default trimmed (strip_suffix_char "." trimmed)) in
  if negb (is_empty host) && (len host <=? MAX_HOST_LEN) && str_forallb is_host_byte host then Some host else None.

Module RevocationError.
Inductive RevocationFileError :=
| Io | InvalidHost (line : nat) | Insecure (mode : Z) | InsecureDir (mode : Z) (owned : bool).
End RevocationError.

(** The directory, absent or with its permission bits and whether this user owns it; the
    file, absent or with its bits and its text. *)
Record RecordFile := {
  rf_parent : option (Z * bool);
  rf_file : option (Z * string);
}.

Definition group_or_other_write (mode : Z) : bool := negb (Z.land mode 18 =? 0).

Definition verify_private_parent (f : RecordFile) : result unit RevocationError.RevocationFileError :=
  match rf_parent f with
  | None => Ok tt
  | Some (mode, owned) =>
      if negb owned || group_or_other_write mode then Err (RevocationError.InsecureDir mode owned) else Ok tt
  end.

Fixpoint load_lines (index : nat) (ls : list string) : result (gset string) RevocationError.RevocationFileError :=
  match ls with
  | [] => Ok ∅
  | l :: rest =>
      if is_empty (trim l) then load_lines (S index) rest
      else match normalize_host l with
           | None => Err (RevocationError.InvalidHost (S index))
           | Some h => let? hs := load_lines (S index) rest in Ok ({[ h ]} ∪ hs)
           end
  end.

Definition load (f : RecordFile) : result (gset string) RevocationError.RevocationFileError :=
  let? _ := verify_private_parent f in
  match rf_file f with
  | None => Ok ∅
  | Some (mode, text) =>
      if group_or_other_write mode then Err (RevocationError.Insecure mode) else load_lines 0 (lines text)
  end.

(** The hosts in the order of a [BTreeSet], one line each. *)
Definition render (hosts : gset string) : string :=
  foldr (λ h text, String.append h (String LF text)) EmptyString
    (stable_sort (λ a b, negb (str_ltb b a)) (elements hosts)).

(** [io]: the temporary file can be written and renamed over the record. *)
Definition record (f : RecordFile) (host : string) (io : bool) : RecordFile * result unit RevocationError.RevocationFileError :=
  match normalize_host host with
  | None => (f, Err (RevocationError.InvalidHost 0))
  | Some h =>
      match load f with
      | Err e => (f, Err e)
      | Ok hosts =>
          if decide (h ∈ hosts) then (f, Ok tt)
          else if io then ({| rf_parent := rf_parent f; rf_file := Some (384, render ({[ h ]} ∪ hosts)) |}, Ok tt)
          else (f, Err RevocationError.Io)
      end
  end.

(** ** The control socket *)

Module Answer.
Inductive Outcome := Pong | Revoked | AlreadyRevoked | NotConfigured | Rejected.
End Answer.

Record Response := {
  rs_outcome : Answer.Outcome;
  rs_host : option string;
  rs_persisted : option bool;
  rs_error : option string;
}.

Inductive ControlRequest := Ping | RevokeCredential (host : string).

Definition rejected (reason : string) : Response :=
  {| rs_outcome := Answer.Rejected; rs_host := None; rs_persisted := None; rs_error := Some reason |}.

(** The live store, and the record when one is configured. *)
Record Broker := { br_store : gmap string Entry; br_record : option RecordFile }.

(** The line parsed by serde; [None] when it is not a request. *)
Definition dispatch (b : Broker) (request : option ControlRequest) (io : bool) : Broker * Response :=
  match request with
  | None => (b, rejected "unknown or malformed request")
  | Some Ping => (b, {| rs_outcome := Answer.Pong; rs_host := None; rs_persisted := None; rs_error := None |})
  | Some (RevokeCredential raw) =>
      match normalize_host raw with
      | None => (b, rejected "not a valid host name")
      | Some host =>
          let '(store, outcome) := revoke (br_store b) host in
          let '(rec, persisted, error) :=
            match outcome with
            | Outcome.NotConfigured => (br_record b, None, None)
            | _ =>
                match br_record b with
                | None => (None, Some false, Some "revoked in memory only; no durable record configured")
                | Some f =>
                    let '(f', r) := record f host io in
                    match r with
                    | Ok _ => (Some f', Some true, None)
                    | Err _ => (Some f', Some false, Some "revoked in memory; could not write the durable record")
                    end
                end
            end in
          ({| br_store := store; br_record := rec |},
           {| rs_outcome := match outcome with
                            | Outcome.Revoked => Answer.Revoked
                            | Outcome.AlreadyRevoked => Answer.AlreadyRevoked
                            | Outcome.NotConfigured => Answer.NotConfigured
                            end;
              rs_host := Some host; rs_persisted := persisted; rs_error := error |})
      end
  end.

Definition apply_persisted (store : gmap string Entry) (f : RecordFile)
  : result (gmap string Entry * nat) RevocationError.RevocationFileError :=
  let? hosts := load f in
  Ok (foldl (λ (acc : gmap string Entry * nat) h,
        let '(s, n) := acc in
        let '(s', o) := revoke s h in
        (s', match o with Outcome.Revoked => S n | _ => n end))
      (store, 0%nat) (stable_sort (λ a b, negb (str_ltb b a)) (elements hosts))).

(** ** A revocation lasts

    The record reads back as the hosts that were written; a host whose revocation was
    persisted is never served its credential again, whatever is asked over the control
    socket and however often the proxy restarts with whatever keys. *)

#[local] Arguments ascii_dec : simpl never.

(** ** Hosts *)

Definition host_bytes (h : string) : Prop := str_forallb is_host_byte h = true.

Lemma normalize_bytes raw h : normalize_host raw = Some h → host_bytes h ∧ is_empty h = false ∧ to_ascii_lowercase h = h.
Proof.
  unfold normalize_host. destruct (negb _ && _ && _) eqn:Hc; [|done]. intros [= <-].
  apply andb_true_iff in Hc as [Hc Hb]. apply andb_true_iff in Hc as [He _]. apply negb_true_iff in He.
  split_and!; [done|done|apply to_ascii_lowercase_idemp].
Qed.

Lemma host_byte_plain c : is_host_byte c = true → negb (is_whitespace c) = true ∧ c ≠ LF ∧ c ≠ CR.
Proof. by destruct c as [[] [] [] [] [] [] [] []]. Qed.

Lemma host_trim h : host_bytes h → trim h = h.
Proof. intros Hh. apply trim_clean. eapply str_forallb_mono; [|exact Hh]. intros c Hc. by apply host_byte_plain. Qed.

Lemma host_lacks h c : is_host_byte c = false → host_bytes h → lacks c h = true.
Proof. apply lacks_class. Qed.

Lemma host_strip_cr h : host_bytes h → strip_cr h = h.
Proof.
  intros Hh. unfold strip_cr. destruct (strip_suffix_char CR h) as [t|] eqn:Ht; [|done]. exfalso.
  apply strip_suffix_char_Some in Ht. apply (host_lacks h CR) in Hh; [|done]. rewrite Ht, lacks_app in Hh.
  by rewrite andb_false_r in Hh.
Qed.

(** ** The record reads back *)

Definition text_lines (hs : list string) : string := foldr (λ h text, String.append h (String LF text)) EmptyString hs.

Lemma split_text_lines hs : Forall host_bytes hs → split_on LF (text_lines hs) = hs ++ [EmptyString].
Proof.
  induction 1 as [|h hs Hh _ IH]; [done|]. cbn [text_lines foldr]. fold (text_lines hs).
  rewrite split_on_app by (by apply host_lacks). by rewrite IH.
Qed.

Lemma lines_text_lines hs : Forall host_bytes hs → lines (text_lines hs) = hs.
Proof.
  intros Hh. unfold lines. rewrite split_text_lines by done. rewrite last_last, removelast_last. cbn [is_empty].
  induction Hh as [|h hs Hx _ IH]; [done|]. cbn. by rewrite host_strip_cr, IH.
Qed.

Definition sorted_hosts (S : gset string) : list string := stable_sort (λ a b, negb (str_ltb b a)) (elements S).

Lemma elem_of_sorted_hosts h S : h ∈ sorted_hosts S ↔ h ∈ S.
Proof. unfold sorted_hosts. by rewrite elem_of_stable_sort, elem_of_elements. Qed.

Lemma lines_render (S : gset string) : (∀ h, h ∈ S → host_bytes h) → lines (render S) = sorted_hosts S.
Proof.
  intros HS. apply lines_text_lines. apply Forall_forall. intros h Hh. by apply HS, elem_of_sorted_hosts.
Qed.

Lemma load_lines_spec i ls hs :
  load_lines i ls = Ok hs → ∀ h, h ∈ hs ↔ ∃ l, l ∈ ls ∧ is_empty (trim l) = false ∧ normalize_host l = Some h.
Proof.
  revert i hs. induction ls as [|l ls IH]; intros i hs; cbn [load_lines].
  - intros [= <-] h. split; [set_solver|]. by intros (l & Hl%not_elem_of_nil & _).
  - destruct (is_empty (trim l)) eqn:He.
    + intros Hl h. rewrite (IH _ _ Hl h). split; intros (x & Hx & H).
      * exists x. split; [by right|done].
      * apply elem_of_cons in Hx as [->|Hx]; [destruct H; congruence|]. by exists x.
    + destruct (normalize_host l) as [n|] eqn:Hn; [|done].
      destruct (load_lines (S i) ls) as [hs'|e] eqn:Hr; cbn [result_bind]; [|done]. intros [= <-] h.
      rewrite elem_of_union, elem_of_singleton, (IH _ _ Hr h). split.
      * intros [->|(x & Hx & H)]; [exists l; split; [by left|done]|exists x; split; [by right|done]].
      * intros (x & Hx & H1 & H2). apply elem_of_cons in Hx as [->|Hx]; [left; congruence|right; eauto].
Qed.

Lemma load_lines_bytes i ls hs h : load_lines i ls = Ok hs → h ∈ hs → host_bytes h.
Proof. intros Hl Hh. apply (load_lines_spec _ _ _ Hl) in Hh as (l & _ & _ & Hn). by apply normalize_bytes in Hn as [? _]. Qed.

Lemma load_bytes f hs h : load f = Ok hs → h ∈ hs → host_bytes h.
Proof.
  unfold load. destruct (verify_private_parent f); cbn [result_bind]; [|done].
  destruct (rf_file f) as [[mode text]|]; [|intros [= <-]; set_solver]. destruct (group_or_other_write mode); [done|].
  apply load_lines_bytes.
Qed.

(** A host as it is looked up. *)
Record canonical_name (h : string) : Prop := { cn_self : normalize_host h = Some h }.

Lemma canonical_not_blank h : normalize_host h = Some h → is_empty (trim h) = false.
Proof. intros Hn. destruct (normalize_bytes _ _ Hn) as (Hb & He & _). by rewrite host_trim. Qed.

(** Every line is its own host, so the file holds exactly the hosts. *)
Lemma load_lines_canonical i ls :
  Forall (λ h, normalize_host h = Some h) ls → load_lines i ls = Ok (list_to_set ls).
Proof.
  intros Hl. revert i. induction Hl as [|h ls Hh Hls IH]; intros i; cbn [load_lines]; [done|].
  rewrite canonical_not_blank by done. rewrite Hh, IH. done.
Qed.

Lemma private_record f hosts : verify_private_parent f = Ok tt →
  load {| rf_parent := rf_parent f; rf_file := Some (384, render hosts) |} = load_lines 0 (lines (render hosts)).
Proof. intros Hp. unfold load. unfold verify_private_parent in *. cbn [rf_parent]. rewrite Hp. done. Qed.

Lemma load_private f hs : load f = Ok hs → verify_private_parent f = Ok tt.
Proof. unfold load. by destruct (verify_private_parent f) as [[]|]. Qed.

(** What is recorded is read back at the next start: after a host was recorded,
    the record holds the hosts it held and that one, and nothing else. *)
Theorem record_reads_back f host h hosts f' :
  normalize_host host = Some h → canonical_name h → (∀ x, x ∈ hosts → canonical_name x) → load f = Ok hosts →
  record f host true = (f', Ok tt) → load f' = Ok ({[ h ]} ∪ hosts).
Proof.
  intros Hn [Hc] Hall Hl. unfold record. rewrite Hn, Hl. destruct (decide (h ∈ hosts)) as [Hin|Hin].
  - intros [= <-]. rewrite Hl. f_equal. apply set_eq. intros x. rewrite elem_of_union, elem_of_singleton.
    split; [by right|by intros [->|]].
  - intros [= <-].
    assert (∀ x, x ∈ {[ h ]} ∪ hosts → normalize_host x = Some x) as Hx.
    { intros x. rewrite elem_of_union, elem_of_singleton. intros [->|Hx]; [done|]. by apply Hall. }
    rewrite private_record by (by eapply load_private). rewrite lines_render by (intros x Hxs; by apply (normalize_bytes x), Hx).
    rewrite load_lines_canonical by (apply Forall_forall; intros x Hxs; by apply Hx, elem_of_sorted_hosts).
    f_equal. apply set_eq. intros x. by rewrite elem_of_list_to_set, elem_of_sorted_hosts.
Qed.

(** ** A revocation lasts *)

(** What happens to a broker: a request on the control socket, or a restart of the proxy
    with some keys on the record it left. *)
Inductive broker_step : Broker → Broker → Prop :=
| Dispatched b request io : broker_step b (fst (dispatch b request io))
| Restarted b f keys store n :
    br_record b = Some f → apply_persisted (from_pairs keys) f = Ok (store, n) →
    broker_step b {| br_store := store; br_record := Some f |}.

(** No secret is left for the host. *)
Definition spent (store : gmap string Entry) (h : string) : Prop :=
  match store !! h with Some e => ce_secret e = None | None => True end.

(** No secret is left for the host, and a record that can be read has it. *)
Definition revoked_for_good (h : string) (b : Broker) : Prop :=
  spent (br_store b) h ∧ ∃ f, br_record b = Some f ∧ ∀ hosts, load f = Ok hosts → h ∈ hosts.

Lemma revoke_spent store host h : spent store h → spent (fst (revoke store host)) h.
Proof.
  unfold spent, revoke. intros Hs. destruct (store !! to_ascii_lowercase host) as [e|] eqn:He; [|done].
  destruct (ce_secret e) as [k|]; [|done]. cbn [fst]. destruct (decide (to_ascii_lowercase host = h)) as [->|Hne].
  - by rewrite lookup_insert_eq.
  - by rewrite lookup_insert_ne.
Qed.

Lemma revoke_spends store h : to_ascii_lowercase h = h → spent (fst (revoke store h)) h.
Proof.
  intros Hl. unfold spent, revoke. rewrite Hl. destruct (store !! h) as [e|] eqn:He; cbn [fst].
  - destruct (ce_secret e) as [k|] eqn:Hk; cbn [fst]; [by rewrite lookup_insert_eq|by rewrite He].
  - by rewrite He.
Qed.

(** A rewritten record has every host that was in it, and the new one. *)
Lemma rewritten_has f hs x h hosts :
  load f = Ok hs → host_bytes x → normalize_host h = Some h → h ∈ {[ x ]} ∪ hs →
  load {| rf_parent := rf_parent f; rf_file := Some (384, render ({[ x ]} ∪ hs)) |} = Ok hosts → h ∈ hosts.
Proof.
  intros Hl Hx Hn Hin. rewrite private_record, lines_render; [|intros y Hy|by eapply load_private].
  - intros Hh. apply (load_lines_spec _ _ _ Hh). exists h.
    split; [by apply elem_of_sorted_hosts|]. by split; [apply canonical_not_blank|].
  - apply elem_of_union in Hy as [Hy|Hy]; [|by eapply load_bytes]. by apply elem_of_singleton in Hy as ->.
Qed.

Lemma record_keeps f host io f' r h :
  normalize_host h = Some h → record f host io = (f', r) →
  (∀ hosts, load f = Ok hosts → h ∈ hosts) → ∀ hosts, load f' = Ok hosts → h ∈ hosts.
Proof.
  intros Hn. unfold record. destruct (normalize_host host) as [x|] eqn:Hx; [|by intros [= <- <-]].
  destruct (load f) as [hs|e] eqn:Hl; [|by intros [= <- <-]; rewrite Hl]. destruct (decide (x ∈ hs)); [by intros [= <- <-]; rewrite Hl|].
  destruct io; [|by intros [= <- <-]; rewrite Hl]. intros [= <- <-] Hin hosts.
  apply normalize_bytes in Hx as [Hx _]. apply (rewritten_has _ _ _ _ _ Hl Hx Hn). apply elem_of_union. right. by apply Hin.
Qed.

Lemma record_adds f h io f' : normalize_host h = Some h → record f h io = (f', Ok tt) → ∀ hosts, load f' = Ok hosts → h ∈ hosts.
Proof.
  intros Hn. unfold record. rewrite Hn. destruct (load f) as [hs|e] eqn:Hl; [|done].
  destruct (decide (h ∈ hs)); [by intros [= <-] hosts; rewrite Hl; intros [= <-]|]. destruct io; [|done]. intros [= <-] hosts.
  pose proof (normalize_bytes _ _ Hn) as [Hb _]. apply (rewritten_has _ _ _ _ _ Hl Hb Hn). set_solver.
Qed.

Definition revoke_step (acc : gmap string Entry * nat) (h : string) : gmap string Entry * nat :=
  let '(s, n) := acc in let '(s', o) := revoke s h in (s', match o with Outcome.Revoked => S n | _ => n end).

Lemma revoke_step_store acc x : fst (revoke_step acc x) = fst (revoke (fst acc) x).
Proof. destruct acc as [s n]. cbn. by destruct (revoke s x). Qed.

Lemma revoke_all_spends hs acc h :
  h ∈ hs ∨ spent (fst acc) h → to_ascii_lowercase h = h → spent (fst (foldl revoke_step acc hs)) h.
Proof.
  intros Hh Hl. revert acc Hh. induction hs as [|x hs IH]; intros acc Hh; cbn [foldl].
  - by destruct Hh as [?%not_elem_of_nil|].
  - apply IH. rewrite revoke_step_store. destruct Hh as [Hin|Hs]; [|right; by apply revoke_spent].
    apply elem_of_cons in Hin as [<-|]; [right; by apply revoke_spends|by left].
Qed.

Lemma apply_persisted_spends store f store' n h hosts :
  apply_persisted store f = Ok (store', n) → load f = Ok hosts → h ∈ hosts → to_ascii_lowercase h = h → spent store' h.
Proof.
  unfold apply_persisted. intros Ha Hl Hh Hlow. rewrite Hl in Ha. cbn [result_bind] in Ha.
  injection Ha as Ha. change (foldl revoke_step (store, 0%nat) (sorted_hosts hosts) = (store', n)) in Ha.
  change store' with (fst (store', n)). rewrite <-Ha. apply revoke_all_spends; [|done]. left. by apply elem_of_sorted_hosts.
Qed.

Lemma broker_step_keeps h b b' : normalize_host h = Some h → broker_step b b' → revoked_for_good h b → revoked_for_good h b'.
Proof.
  intros Hn Hstep (Hs & f & Hf & Hin). destruct Hstep as [b request io|b f0 keys store n Hf0 Ha].
  - destruct request as [[|raw]|]; cbn [dispatch fst]; [by split; eauto..| |by split; eauto].
    destruct (normalize_host raw) as [host|]; [|by split; eauto].
    pose proof (revoke_spent (br_store b) host h Hs) as Hr. destruct (revoke (br_store b) host) as [store o]. cbn [fst] in Hr.
    rewrite Hf. destruct (record f host io) as [f' r] eqn:Hrec. pose proof (record_keeps _ _ _ _ _ h Hn Hrec Hin) as Hin'.
    destruct o, r; cbn [fst]; split; cbn [br_store br_record]; eauto.
  - rewrite Hf in Hf0. injection Hf0 as <-. split; [|by eauto]. cbn [br_store].
    destruct (load f) as [hosts|e] eqn:Hl.
    + eapply apply_persisted_spends; [exact Ha|exact Hl|by apply Hin|]. by apply normalize_bytes in Hn as (_ & _ & ?).
    + unfold apply_persisted in Ha. by rewrite Hl in Ha.
Qed.

(** C28: Once the control socket answered that a revocation was persisted, the
    credential is never injected for that host again, after any requests and restarts with
    any keys: the host is revoked or has no entry.  The host is a name that normalising
    again leaves as it is (with several trailing dots it is not). *)
Theorem revocation_is_durable b raw h io response b1 b2 host now :
  normalize_host raw = Some h → canonical_name h →
  dispatch b (Some (RevokeCredential raw)) io = (b1, response) → rs_persisted response = Some true →
  rtc broker_step b1 b2 → to_ascii_lowercase host = h →
  injection_for (br_store b2) now host = Revoked ∨ injection_for (br_store b2) now host = NotConfigured.
Proof.
  intros Hn [Hc] Hd Hp Hsteps Hhost.
  assert (revoked_for_good h b1) as Hgood.
  { cbn [dispatch] in Hd. rewrite Hn in Hd. pose proof (revoke_spends (br_store b) h) as Hs.
    apply normalize_bytes in Hn as (_ & _ & Hlow). specialize (Hs Hlow).
    destruct (revoke (br_store b) h) as [store o]. cbn [fst] in Hs.
    destruct (br_record b) as [f|]; [|by destruct o; injection Hd as <- <-].
    destruct (record f h io) as [f' r] eqn:Hrec. destruct o, r as [[]|e]; injection Hd as <- <-; try done;
      (split; [done|]; exists f'; split; [done|]; by eapply record_adds). }
  assert (revoked_for_good h b2) as [Hspent _].
  { clear -Hsteps Hgood Hc. induction Hsteps as [|x y z Hxy _ IH]; [done|]. by eapply IH, broker_step_keeps. }
  unfold injection_for. rewrite Hhost. unfold spent in Hspent. destruct (br_store b2 !! h) as [e|]; [|by right].
  rewrite Hspent. by left.
Qed.

Definition sample_broker : Broker := {|
  br_store := from_pairs [("API.OpenAI.com", "sk-1")]; br_record := Some {| rf_parent := Some (448, true); rf_file := None |} |}.

Definition sample_record : RecordFile := {| rf_parent := Some (448, true); rf_file := Some (384, String.append "a.example" (String LF "")) |}.

(** A second host joins the record. *)
Lemma record_reads_back_witness :
  load (fst (record sample_record "B.example." true)) = Ok ({[ "b.example" ]} ∪ {[ "a.example" ]}).
Proof.
  eapply (record_reads_back sample_record "B.example." "b.example" {[ "a.example" ]});
    [by vm_compute|by split; vm_compute| |by vm_compute|by vm_compute].
  intros x ->%elem_of_singleton. by split; vm_compute.
Defined.

(** The key is live, is revoked, and stays revoked when the proxy starts with a new key. *)
Lemma revocation_is_durable_witness :
  let b1 := fst (dispatch sample_broker (Some (RevokeCredential "api.openai.com.")) true) in
  injection_for (br_store sample_broker) 0 "api.openai.com" = Inject "Authorization" "Bearer sk-1" ∧
  (injection_for (br_store b1) 0 "API.OPENAI.COM" = Revoked ∨ injection_for (br_store b1) 0 "API.OPENAI.COM" = NotConfigured).
Proof.
  split; [by vm_compute|].
  eapply (revocation_is_durable sample_broker "api.openai.com." "api.openai.com" true _ _ _ "API.OPENAI.COM" 0);
    [by vm_compute|by split; vm_compute|apply surjective_pairing|by vm_compute|apply rtc_refl|by vm_compute].
Defined.

(** ** Names that cannot be revoked

    A host with an underscore is an authority the proxy accepts and a key of the store, but
    not a name the control socket takes. *)
Lemma underscore_host_not_revocable :
  injection_for (from_pairs [("llm_gw.corp", "sk-1")]) 0 "llm_gw.corp" = Inject "Authorization" "Bearer sk-1" ∧
  normalize_host "llm_gw.corp" = None.
Proof. by vm_compute. Qed.
