(* ===== verification/ProxyEgress.v ===== *)
(** * ProxyEgress: where the proxy lets a connection go

    The egress decisions of aa-proxy/src/proxy/mod.rs (the local guard, the gateway's
    answer, the hosts named inside a tunnel, the authority of a plain request), with
    network_enforce.rs, intercept/detect.rs and the records of trusted_upstream.rs.  The
    resolver, the gateway and the connections themselves are the class [Net]. *)

From stdpp Require Import base strings list.
From Stdlib Require Import ZArith Lia Bool Ascii String.
From S2P Require Import Prelude.
From S2P Require Import Text.
From S2P Require Import EgressHost.
From S2P Require Import RuntimeQuery.
From S2P Require Import NetAddr.
From S2P Require Import HttpCodec.
From S2P Require Import Intercept.

Open Scope Z_scope.
Open Scope aasm_scope.

#[local] Arguments ascii_dec : simpl never.

(** ** Configuration *)

(** An address and a port. *)
Definition SocketAddr : Type := Ip.IpAddr * Z.

Record ProxyConfig := {
  llm_only : bool;
  mitm_hosts : list string;
  denied_hosts : list string;
  network_allowlist : list string;
  credential_action : OnFinding.CredentialAction;
  upstream_override : option SocketAddr;
  gateway_endpoint : option string;
  mcp_fail_open : bool;
  network_fail_open : bool;
  allow_private_connect_targets : bool;
  cfg_agent_id : option string;
}.

Module Upstream.
Inductive Scheme := Http | Https.
End Upstream.

Record TrustedUpstreamProxyEndpoint := {
  te_scheme : Upstream.Scheme;
  te_host : string;
  te_port : Z;
  te_pinned_addr : SocketAddr;
  te_auth : option (string * string);
}.

Record DeclaredEnterpriseDestination := { dd_host : string; dd_port : Z }.

Record ChainedUpstreamConfig := {
  cu_endpoint : TrustedUpstreamProxyEndpoint;
  cu_destinations : list DeclaredEnterpriseDestination;
  cu_llm_endpoints : list string;
}.

Record ChainedRoute := { ch_dest : DeclaredEnterpriseDestination; ch_endpoint : TrustedUpstreamProxyEndpoint }.

(** ** Providers *)

Module Llm.
Inductive LlmApiPattern := OpenAi | Anthropic | Cohere | Unknown.

#[global] Instance LlmApiPattern_eq_dec : EqDecision LlmApiPattern.
Proof. solve_decision. Defined.
End Llm.

Definition detect_api (host : string) : Llm.LlmApiPattern :=
  let hostname := match split_on ":" host with h :: _ => h | [] => host end in
  let hostname := to_ascii_lowercase (default hostname (strip_suffix_char "." hostname)) in
  if String.eqb hostname "api.openai.com" then Llm.OpenAi
  else if String.eqb hostname "api.anthropic.com" then Llm.Anthropic
  else if String.eqb hostname "api.cohere.com" then Llm.Cohere
  else Llm.Unknown.

Definition is_llm (host : string) : bool := negb (bool_decide (detect_api host = Llm.Unknown)).

(** ** The gateway's answer *)

Inductive NetworkDecision := NetAllow | NetDeny (reason : string).

(** The decision codes of the protocol: 1 allow, 2 deny, 3 pending, 4 redact. *)
Definition decision_from_response (debug : string → string) (code_text : Z → string) (r : CheckActionResponse)
  : NetworkDecision :=
  if cr_decision r =? 1 then NetAllow
  else if cr_decision r =? 2 then NetDeny (cr_reason r)
  else if cr_decision r =? 4 then
    NetDeny "policy returned REDACT for a network-egress decision, which has no request body to redact at this checkpoint — denying (fail-closed)"
  else if cr_decision r =? 3 then
    NetDeny (String.append "policy returned PENDING (approval queue "
      (String.append (debug (cr_approval_id r)) ") — proxy cannot block on human approval"))
  else NetDeny (String.append "unrecognised policy decision code " (code_text (cr_decision r))).

(** The outside: name resolution, the gateway's answer to a network call ([None] when it
    cannot be had), the printing of values in messages, and which connections succeed. *)
Class Net := {
  lookup_host : string → option (list SocketAddr);
  check_action : string → Z → string → option CheckActionResponse;
  debug_text : string → string;
  code_text : Z → string;
  tcp_connect : list SocketAddr → bool;
  tls_connect : string → bool;
  chain_connect : ChainedRoute → bool;
}.

Module Deny.
Inductive EgressDenyReason := Denylist | NetworkAllowlist | SsrfBlockedAddress | GatewayNetworkPolicy.

Definition rule (r : EgressDenyReason) : Rule.RefusalRule :=
  match r with
  | Denylist => Rule.EgressDenylist
  | NetworkAllowlist => Rule.EgressAllowlist
  | SsrfBlockedAddress => Rule.SsrfBlockedAddress
  | GatewayNetworkPolicy => Rule.GatewayEgressPolicy
  end.
End Deny.

(** ** Targets *)

(** The text before the first of some characters. *)
Definition until (stop : ascii → bool) (s : string) : string := fst (take_while (λ c, negb (stop c)) s).

Definition is_backslash (c : ascii) : bool := if ascii_dec c backslash_c then true else false.

Definition strip_scheme (scheme target : string) : option string :=
  let '(head, rest) := split_at (String.length scheme) target in
  if (String.length head =? String.length scheme)%nat && eq_ignore_ascii_case head scheme then Some rest else None.

Definition strip_http_scheme (target : string) : option string :=
  match strip_scheme "http://" target with Some r => Some r | None => strip_scheme "https://" target end.

Definition non_empty (s : string) : option string := if is_empty s then None else Some s.

Definition target_request_host (req : HttpRequest) : option string :=
  match strip_http_scheme (rq_target req) with
  | Some rest => non_empty (strip_host_port (until (λ c, is_authority_end c || is_backslash c) rest))
  | None => None
  end.

Definition header_request_host (req : HttpRequest) : option string :=
  match header req "host" with Some h => non_empty (strip_host_port h) | None => None end.

Definition effective_request_host (req : HttpRequest) : option string :=
  match target_request_host req with Some h => Some h | None => header_request_host req end.

Definition target_authority (target : string) : option string :=
  option_map (until is_authority_end) (strip_http_scheme target).

Definition host_header_values (req : HttpRequest) : list string :=
  map (λ kv, trim (snd kv)) (List.filter (λ kv, eq_ignore_ascii_case (trim (fst kv)) "host") (headers req)).

Definition names_no_host (authority : string) : bool := negb (bool_decide (is_Some (egress_host_from_authority authority))).

Definition request_authority_is_ambiguous (req : HttpRequest) : bool :=
  match host_header_values req with
  | _ :: _ :: _ => true
  | hosts => existsb names_no_host (option_list (target_authority (rq_target req)) ++ hosts)
  end.

(** The port of a CONNECT authority. *)
Definition parse_connect_authority_port (authority : string) : option Z :=
  let authority := trim authority in
  let port_str :=
    match strip_prefix authority "[" with
    | Some rest => match split_once "]" rest with Some (_, after) => strip_prefix after ":" | None => None end
    | None =>
        match rsplit_once ":" authority with
        | Some (before, port) => if lacks ":" before then Some port else None
        | None => None
        end
    end in
  match port_str with Some p => parse_unsigned 65536 p | None => None end.

(** ** Plain requests: header lines as they were read, with their line ends *)

Definition plain_http_host_values (lines : list string) : list string :=
  omap (λ h, match split_once ":" h with
             | Some (name, value) => if eq_ignore_ascii_case (trim name) "host" then Some value else None
             | None => None
             end) lines.

Definition parse_plain_http_host (target : string) (lines : list string) : string :=
  match strip_http_scheme target with
  | Some url_host => until (λ c, is_authority_end c || is_backslash c) url_host
  | None => match plain_http_host_values lines with v :: _ => trim v | [] => EmptyString end
  end.

Definition plain_http_header_value (lines : list string) (name : string) : option string :=
  let prefix := String.append (to_ascii_lowercase name) ":" in
  match List.find (λ h, starts_with (to_ascii_lowercase h) prefix) lines with
  | Some h => Some (trim (snd (split_at (String.length prefix) h)))
  | None => None
  end.

Definition plain_http_content_encoding (lines : list string) : option string :=
  match omap (λ h, match split_once ":" h with
                   | Some (name, value) =>
                       if eq_ignore_ascii_case (trim name) "content-encoding" then Some (trim value) else None
                   | None => None
                   end) lines with
  | [] => None
  | values => Some (join ", " values)
  end.

Definition plain_http_body_is_chunked (lines : list string) : bool :=
  existsb (λ h, let l := to_ascii_lowercase h in starts_with l "transfer-encoding:" && contains l "chunked") lines.

Definition plain_http_content_length (lines : list string) : result Z HttpError.t :=
  let? n := match plain_http_header_value lines "content-length" with
            | None => Ok 0
            | Some v => match parse_unsigned usize_limit v with Some n => Ok n | None => Err HttpError.InvalidLength end
            end in
  if MAX_BODY_LEN <? n then Err (HttpError.BodyTooLong n) else Ok n.

Fixpoint rewrite_plain_http_content_length (lines : list string) (new_len : nat) : list string :=
  match lines with
  | [] => []
  | h :: rest =>
      if starts_with (to_ascii_lowercase h) "content-length:"
      then String.append "Content-Length: " (String.append (decimal (N.of_nat new_len)) CRLF) :: rest
      else h :: rewrite_plain_http_content_length rest new_len
  end.

(** Why a plain request names no destination that can be judged. *)
Definition plain_destination_conflicts (target host : string) (lines : list string) : bool :=
  let host_values := plain_http_host_values lines in
  let disagrees :=
    match strip_http_scheme target, host_values with
    | Some _, h :: _ => negb (bool_decide (egress_host_from_authority (trim h) = egress_host_from_authority host))
    | _, _ => false
    end in
  let not_origin_form :=
    negb (starts_with target "/") && negb (String.eqb target "*") && negb (bool_decide (is_Some (strip_http_scheme target))) in
  let backslash_authority :=
    match target_authority target with Some a => negb (lacks backslash_c a) | None => false end in
  (1 <? List.length host_values)%nat || disagrees || not_origin_form || backslash_authority.

(** ** The decisions *)

Section Egress.
Context {N : Net}.
Context (config : ProxyConfig).

Definition connect_deny_reason (host : string) : option Deny.EgressDenyReason :=
  if negb (allow_private_connect_targets config) && bool_decide (blocked_ip_literal (strip_host_port host) = Some true)
  then Some Deny.SsrfBlockedAddress
  else
    let host := canonical_host host in
    if existsb (λ denied, String.eqb (canonical_host denied) host) (denied_hosts config) then Some Deny.Denylist
    else if negb (bool_decide (is_Some (gateway_endpoint config)))
            && negb (is_host_allowed_by_egress_allowlist host (network_allowlist config))
    then Some Deny.NetworkAllowlist
    else None.

Definition evaluate_network_call (host : string) (port : Z) (protocol : string) : option NetworkDecision :=
  option_map (decision_from_response debug_text code_text) (check_action host port protocol).

(** [connected]: the gateway client was set up. *)
Definition gateway_egress_deny_reason (connected : bool) (host : string) (port : Z) (protocol : string)
  : option Deny.EgressDenyReason :=
  match gateway_endpoint config with
  | None => None
  | Some _ =>
      let failed := if network_fail_open config then None else Some Deny.GatewayNetworkPolicy in
      if negb connected then failed
      else match evaluate_network_call host port protocol with
           | Some NetAllow => None
           | Some (NetDeny _) => Some Deny.GatewayNetworkPolicy
           | None => failed
           end
  end.

Definition egress_deny_reason (connected : bool) (host : string) (port : Z) (protocol : string)
  : option Deny.EgressDenyReason :=
  match connect_deny_reason host with
  | Some reason => Some reason
  | None => gateway_egress_deny_reason connected host port protocol
  end.

Fixpoint first_denied (connected : bool) (hosts : list string) : option Deny.EgressDenyReason :=
  match hosts with
  | [] => None
  | h :: rest =>
      match egress_deny_reason connected h 443 "https" with
      | Some reason => Some reason
      | None => first_denied connected rest
      end
  end.

Definition in_tunnel_deny_reason (connected : bool) (req : HttpRequest) : option Deny.EgressDenyReason :=
  if request_authority_is_ambiguous req then Some Deny.NetworkAllowlist
  else first_denied connected (option_list (target_request_host req) ++ option_list (header_request_host req)).

Definition should_mitm (chained : option ChainedUpstreamConfig) (host : string) : bool :=
  is_llm host
  || is_host_allowed_by_egress_allowlist_fail_closed host (mitm_hosts config)
  || match chained with
     | Some cfg => existsb (λ d, eq_ignore_ascii_case (dd_host d) host) (cu_destinations cfg)
     | None => false
     end.

Definition is_declared_llm_endpoint (chained : option ChainedUpstreamConfig) (host : string) : bool :=
  match chained with
  | Some cfg => existsb (λ h, eq_ignore_ascii_case h host) (cu_llm_endpoints cfg)
  | None => false
  end.

Definition chained_route_of (chained : option ChainedUpstreamConfig) (target host : string) : option ChainedRoute :=
  match parse_connect_authority_port target, chained with
  | Some port, Some cfg =>
      option_map (λ d, {| ch_dest := d; ch_endpoint := cu_endpoint cfg |})
        (List.find (λ d, eq_ignore_ascii_case (dd_host d) host && (dd_port d =? port)) (cu_destinations cfg))
  | _, _ => None
  end.

(** The addresses that may be dialled for a target. *)
Definition safe_addresses (target : string) : option (list SocketAddr) :=
  match lookup_host target with
  | None => None
  | Some addrs =>
      match List.filter (λ a, allow_private_connect_targets config || negb (is_blocked_ip (fst a))) addrs with
      | [] => None
      | safe => Some safe
      end
  end.
End Egress.

(** ** The trusted upstream proxy *)

(** The artifact as serde reads it. *)
Record RawTrustedConfig := {
  rt_endpoint : option (Upstream.Scheme * string * Z * option (string * string));
  rt_destinations : list DeclaredEnterpriseDestination;
  rt_llm_endpoints : list string;
}.

Module TrustedError.
Inductive t := Unreadable | Malformed | Wildcard (host : string) | NotEligible (host : string) | AuthOverHttp
| Unresolvable | Loop.
End TrustedError.

Fixpoint reject_wildcard_hosts (hosts : list string) : result unit TrustedError.t :=
  match hosts with
  | [] => Ok tt
  | h :: rest => if negb (lacks "*" h) then Err (TrustedError.Wildcard h) else reject_wildcard_hosts rest
  end.

Fixpoint check_eligible (llm_endpoints : list string) (dests : list DeclaredEnterpriseDestination) : result unit TrustedError.t :=
  match dests with
  | [] => Ok tt
  | d :: rest =>
      if is_llm (dd_host d) || existsb (λ h, eq_ignore_ascii_case h (dd_host d)) llm_endpoints
      then check_eligible llm_endpoints rest else Err (TrustedError.NotEligible (dd_host d))
  end.

(** [IpAddr::is_unspecified] and [is_loopback]. *)
Definition ip_is_unspecified (ip : Ip.IpAddr) : bool :=
  match ip with Ip.V4 a => is_unspecified a | Ip.V6 v6 => zero_segments 8 v6 end.

Definition ip_is_loopback (ip : Ip.IpAddr) : bool :=
  match ip with Ip.V4 a => is_loopback a | Ip.V6 v6 => zero_segments 7 v6 && (segment v6 7 =? 1) end.

Definition points_back_at_self (pinned bound : SocketAddr) : bool :=
  (snd pinned =? snd bound)
  && (bool_decide (fst pinned = fst bound) || ip_is_unspecified (fst bound)
      || ip_is_loopback (fst pinned) && ip_is_loopback (fst bound)).

Definition load_and_validate {N : Net} (raw : result RawTrustedConfig TrustedError.t) (port_text : Z → string) (bound : SocketAddr)
  : result (option ChainedUpstreamConfig) TrustedError.t :=
  let? raw := raw in
  let? _ := reject_wildcard_hosts (map dd_host (rt_destinations raw)) in
  let? _ := reject_wildcard_hosts (rt_llm_endpoints raw) in
  let? _ := check_eligible (rt_llm_endpoints raw) (rt_destinations raw) in
  match rt_endpoint raw with
  | None => Ok None
  | Some (scheme, host, port, auth) =>
      match scheme, auth with
      | Upstream.Http, Some _ => Err TrustedError.AuthOverHttp
      | _, _ =>
          match lookup_host (String.append host (String ":" (port_text port))) with
          | None | Some [] => Err TrustedError.Unresolvable
          | Some (pinned :: _) =>
              if points_back_at_self pinned bound then Err TrustedError.Loop
              else Ok (Some {|
                cu_endpoint := {| te_scheme := scheme; te_host := host; te_port := port; te_pinned_addr := pinned; te_auth := auth |};
                cu_destinations := rt_destinations raw;
                cu_llm_endpoints := rt_llm_endpoints raw |})
          end
      end
  end.
