(* ===== verification/Mcp.v ===== *)
(** * Mcp: the judgement of an MCP request

    aa-proxy/src/intercept/mcp.rs, the request side of aa-proxy/src/mcp_enforce.rs, and
    evaluate_mcp_request of aa-proxy/src/proxy/mod.rs with the events it emits.  Reasons and
    answers are UTF-8 bytes, header values are decoded texts. *)

From stdpp Require Import base strings list gmap.
From Stdlib Require Import ZArith Lia Bool Ascii String.
From S2P Require Import Prelude.
From S2P Require Import Text.
From S2P Require Import Findings.
From S2P Require Import Detection.
From S2P Require Import RuntimeQuery.
From S2P Require Import HttpCodec.
From S2P Require Import Intercept.
From S2P Require Import JsonText.
From S2P Require Import ProxyEgress.

Open Scope Z_scope.
Open Scope aasm_scope.

#[local] Arguments ascii_dec : simpl never.

Definition MCP_TOOLS_CALL_METHOD : string := "tools/call".
Definition JSONRPC_VERSION : string := "2.0".

Record McpToolCall := { tool_name : string; arguments : Json }.

(** ** Ambiguous spellings *)

(** The keys are not distinct once folded. *)
Fixpoint fold_repeats (seen : list string) (keys : list string) : bool :=
  match keys with
  | [] => false
  | k :: keys' => existsb (String.eqb (fold_key k)) seen || fold_repeats (fold_key k :: seen) keys'
  end.

Definition has_fold_collision (members : list (string * Json)) : bool := fold_repeats [] (map fst members).

Fixpoint has_nested_fold_collision (v : Json) : bool :=
  match v with
  | JObject members => has_fold_collision members || existsb (λ m, has_nested_fold_collision (snd m)) members
  | JArray items => existsb has_nested_fold_collision items
  | _ => false
  end.

Definition is_inexact_spelling (key canonical : string) : bool :=
  negb (String.eqb key canonical) && String.eqb (fold_key key) canonical.

Definition is_case_ambiguous_tools_call (members : list (string * Json)) : bool :=
  let names_tools_call :=
    existsb (λ m, String.eqb (fold_key (fst m)) "method" &&
                  bool_decide (as_str (snd m) = Some MCP_TOOLS_CALL_METHOD)) members in
  if negb names_tools_call then false
  else if has_fold_collision members
          || existsb (λ m, existsb (is_inexact_spelling (fst m)) ["jsonrpc"; "method"; "params"; "id"]) members then true
  else
    existsb (λ m,
      String.eqb (fold_key (fst m)) "params" &&
      (has_nested_fold_collision (snd m)
       || match snd m with
          | JObject p => existsb (λ q, existsb (is_inexact_spelling (fst q)) ["name"; "arguments"]) p
          | _ => false
          end)) members.

Definition has_case_ambiguity (v : Json) : bool :=
  match v with
  | JObject members => is_case_ambiguous_tools_call members
  | JArray items => existsb (λ i, match i with JObject members => is_case_ambiguous_tools_call members | _ => false end) items
  | _ => false
  end.

(** ** Charsets *)

Fixpoint trim_end_matches (p : ascii → bool) (s : string) : string :=
  match s with
  | EmptyString => EmptyString
  | String c rest =>
      match trim_end_matches p rest with
      | EmptyString => if p c then EmptyString else String c EmptyString
      | t => String c t
      end
  end.

Definition is_quote (c : ascii) : bool := if ascii_dec c quote_c then true else false.

(** [trim_matches] of quotes. *)
Definition trim_quotes (s : string) : string := trim_end_matches is_quote (snd (take_while is_quote s)).

Definition charset_param (param : string) : option string :=
  match split_once "=" param with
  | Some (name, value) =>
      if eq_ignore_ascii_case (trim name) "charset" then Some (to_ascii_lowercase (trim (trim_quotes (trim value)))) else None
  | None => None
  end.

Definition declared_charsets (content_types : list string) : list string :=
  omap charset_param (mjoin (map (λ ct, tail (split_on ";" ct)) content_types)).

Definition mentions_json (content_types : list string) : bool :=
  existsb (λ ct, contains (to_ascii_lowercase ct) "json") content_types.

Definition is_ascii (s : string) : bool := str_forallb (λ c, code c <? 128) s.

Definition charset_unjudgeable (body : string) (content_types : list string) : bool :=
  match declared_charsets content_types with
  | [] => false
  | [c] =>
      if existsb (String.eqb c) ["utf-8"; "utf8"] then false
      else if existsb (String.eqb c) ["us-ascii"; "iso-8859-1"; "latin1"; "windows-1252"] then negb (is_ascii body)
      else true
  | _ => true
  end.

Definition encoding_unjudgeable (body : string) (content_types : list string) : bool :=
  charset_unjudgeable body content_types || negb (bool_decide (detect_json_encoding body = Utf8)).

Definition request_encoding_hazard (body : string) (content_types : list string) (has_mcp_header : bool) : bool :=
  let json_ct := mentions_json content_types in
  let typed := json_ct || has_mcp_header || looks_like_json_document (decode_as body (detect_json_encoding body)) in
  if typed then (1 <? List.length content_types)%nat && json_ct || encoding_unjudgeable body content_types
  else charset_unjudgeable body content_types.

(** ** Requests *)

Definition has_tools_call_token (text : string) : bool :=
  match decode_json_strings text with
  | None => true
  | Some d => existsb (String.eqb MCP_TOOLS_CALL_METHOD) (lines d)
  end.

Definition mentions_tools_call (v : Json) : bool :=
  match v with
  | JObject members =>
      match get members "method" with Some m => bool_decide (as_str m = Some MCP_TOOLS_CALL_METHOD) | None => false end
  | _ => false
  end.

Definition MAX_METHOD_LABEL_LEN : nat := 64.
Definition MCP_LABEL_PREFIX : string := "mcp-method:".
Definition MCP_LABEL_BATCH : string := "mcp-method:#batch".
Definition MCP_LABEL_UNKNOWN : string := "mcp-method:#unknown".
Definition MCP_LABEL_STREAM : string := "mcp-method:#stream".

Definition has_reserved_label_prefix (name : string) : bool := starts_with name MCP_LABEL_PREFIX.

Definition label_char (c : ascii) : bool :=
  is_ascii_alphanumeric c || existsb (λ d, code c =? d) [47; 95; 46; 45].

(** At most [n] characters; one that is not allowed becomes an underscore. *)
Fixpoint sanitize (n : nat) (s : string) : string :=
  match n, s with
  | S n', String c rest => String (if label_char c then c else "_") (sanitize n' (snd (take_while is_cont rest)))
  | _, _ => EmptyString
  end.

Definition sanitize_method (method : string) : string := sanitize MAX_METHOD_LABEL_LEN method.

Section Requests.
Context {SD : Serde}.

Definition parse_mcp_request (body : string) : option McpToolCall :=
  let text := lenient_json_text body in
  if match from_str_value text with Some v => has_case_ambiguity v | None => false end then None
  else
    match from_str_envelope text with
    | None => None
    | Some envelope =>
        if negb (bool_decide (ev_jsonrpc envelope = Some JSONRPC_VERSION)) then None
        else if negb (bool_decide (ev_method envelope = Some MCP_TOOLS_CALL_METHOD)) then None
        else
          match ev_params envelope with
          | Some params => option_map (λ n, {| tool_name := n; arguments := pm_arguments params |}) (pm_name params)
          | None => None
          end
    end.

Definition is_unenforceable_tool_call (body : string) : bool :=
  let text := lenient_json_text body in
  match from_str_value text with
  | None => looks_like_json_document text && has_tools_call_token text
  | Some value =>
      if has_case_ambiguity value then true
      else
        let framing_mentions :=
          match value with
          | JArray items => existsb mentions_tools_call items
          | JObject _ => mentions_tools_call value
          | _ => false
          end in
        if framing_mentions then true
        else
          match value with JArray _ | JObject _ => true | _ => false end
          && match from_str_envelope text with None => true | Some _ => false end
          && has_tools_call_token text
  end.

Definition recognised (v : Json) : bool :=
  match v with
  | JObject members =>
      match get members "jsonrpc" with Some _ => true | None => false end
      || match get members "method" with Some (JString _) => true | _ => false end
  | _ => false
  end.

Definition classify_mcp_exchange (body : string) : option string :=
  let text := lenient_json_text body in
  match from_str_value text with
  | None => if looks_like_json_document text then Some MCP_LABEL_UNKNOWN else None
  | Some value =>
      match value with
      | JArray items => if existsb recognised items then Some MCP_LABEL_BATCH else None
      | JObject members =>
          if recognised value then
            match get members "method" with
            | Some (JString m) => Some (String.append MCP_LABEL_PREFIX (sanitize_method m))
            | _ => Some MCP_LABEL_UNKNOWN
            end
          else None
      | _ => None
      end
  end.
End Requests.

(** ** The gateway's answer *)

Module ToolDecision.
Inductive McpDecision := Allow | Deny (reason : string) | Redact.
End ToolDecision.

Definition MCP_TOOL_SOURCE : string := "mcp".
Definition PROXY_AGENT_ID : string := "aa-proxy".

(** What is asked about a call, and about a result: the fields that are not empty. *)
Record ToolCallCheck := {
  tc_agent_id : string;
  tc_tool_name : string;
  tc_tool_source : string;
  tc_args_json : string;
  tc_target_url : string;
}.

Record ToolResultCheck := {
  tr_agent_id : string;
  tr_tool_name : string;
  tr_tool_source : string;
  tr_result_json : string;
  tr_source_url : string;
}.

(** The client was busy for too long, the call failed or took too long, or an answer. *)
Module Rpc.
Inductive t := Contended | Failed | Answered (r : CheckActionResponse).
End Rpc.

(** The gateway.  A result was not judged with an error, or in time without one. *)
Class McpGateway := {
  check_tool_call : ToolCallCheck → Rpc.t;
  check_tool_result : ToolResultCheck → result CheckActionResponse (option string);
}.

Definition mcp_decision_from_response {N : Net} (r : CheckActionResponse) : ToolDecision.McpDecision :=
  if cr_decision r =? 1 then ToolDecision.Allow
  else if cr_decision r =? 2 then ToolDecision.Deny (cr_reason r)
  else if cr_decision r =? 4 then ToolDecision.Redact
  else if cr_decision r =? 3 then
    ToolDecision.Deny (String.append "policy returned PENDING (approval queue "
      (String.append (debug_text (cr_approval_id r)) ") — proxy cannot block on human approval"))
  else ToolDecision.Deny (String.append "unrecognised policy decision code " (code_text (cr_decision r))).

(** ** Events and answers *)

Inductive McpEvent :=
| Violation (blocked_action reason : string)
| ToolCallAllowed (name args_json : string).

Section Evaluate.
Context {DT : Detectors} {IF : Inflate} {SD : Serde} {N : Net} {GW : McpGateway}.
Context (config : ProxyConfig) (connected : bool) (scanner : Scanner).

Definition emit_mcp_decision (name args_json : string) (denied : bool) (reason : string) : McpEvent :=
  if denied then Violation (String.append "tools/call " name) reason
  else
    let text := from_utf8_lossy args_json in
    ToolCallAllowed name (if scanner && negb (is_clean text) then redact (scanner_scan text) text else args_json).

Definition quoted (s : string) : string := String quote_c (String.append s (String quote_c EmptyString)).

Definition build_jsonrpc_error_response (code : string) (message : string) : string :=
  String.append "{" (String.append (quoted "jsonrpc") (String.append ":" (String.append (quoted "2.0")
    (String.append "," (String.append (quoted "id") (String.append ":null," (String.append (quoted "error")
      (String.append ":{" (String.append (quoted "code") (String.append ":" (String.append code
        (String.append "," (String.append (quoted "message") (String.append ":" (String.append (to_json_string message) "}}"))))))))))))))).

Definition http_jsonrpc_error_response (code : string) (reason : string) : string :=
  let body := build_jsonrpc_error_response code reason in
  String.append "HTTP/1.1 200 OK" (String.append CRLF (String.append "Content-Type: application/json" (String.append CRLF
    (String.append "Content-Length: " (String.append (decimal (N.of_nat (String.length body)))
      (String.append CRLF (String.append CRLF body))))))).

Inductive McpEvalOutcome :=
| McpForward (call : McpToolCall) (args : string)
| McpForwardUnevaluated (call : McpToolCall) (args : string)
| McpForwardResponseOnly (call : McpToolCall)
| McpDeny (response : string)
| McpSkip.

Definition build_check_action_request (call : McpToolCall) (target_url : string) : ToolCallCheck :=
  {| tc_agent_id := PROXY_AGENT_ID; tc_tool_name := tool_name call; tc_tool_source := MCP_TOOL_SOURCE;
     tc_args_json := to_vec (arguments call); tc_target_url := target_url |}.

Definition evaluate_mcp_call (call : McpToolCall) (target_url : string) : result ToolDecision.McpDecision bool :=
  match check_tool_call (build_check_action_request call target_url) with
  | Rpc.Contended => Err true
  | Rpc.Failed => Err false
  | Rpc.Answered r => Ok (mcp_decision_from_response r)
  end.

Definition fail_closed_reason (contended : bool) : string :=
  if contended
  then "MCP enforcement unavailable: gateway client busy, call was not evaluated within 10s (fail-closed)"
  else "MCP enforcement unavailable: gateway did not return a decision within 10s or failed (fail-closed)".

(** The body as it is judged. *)
Definition decoded_body (req : HttpRequest) : option string :=
  match content_encoding req with
  | None => Some (body req)
  | Some enc =>
      if is_empty (trim enc) || eq_ignore_ascii_case (trim enc) "identity" then Some (body req)
      else decompress_content_encoding (trim enc) (body req)
  end.

Definition content_types (hs : list (string * string)) : list string :=
  map snd (List.filter (λ kv, eq_ignore_ascii_case (fst kv) "content-type") hs).

Definition has_mcp_header (req : HttpRequest) : bool :=
  existsb (λ kv, eq_ignore_ascii_case (fst kv) "mcp-session-id" || eq_ignore_ascii_case (fst kv) "mcp-protocol-version")
    (headers req).

Definition mcp_deny (code name args reason : string) : W McpEvent McpEvalOutcome :=
  (McpDeny (http_jsonrpc_error_response code reason), [emit_mcp_decision name args true reason]).

Definition reject (reason : string) : W McpEvent McpEvalOutcome := mcp_deny "-32600" "unknown" EmptyString reason.

(** A request that is not one call of a tool. *)
Definition evaluate_other (req : HttpRequest) (decoded : string) : W McpEvent McpEvalOutcome :=
  if is_unenforceable_tool_call decoded then
    reject "MCP tools/call in unsupported JSON-RPC framing (batch array or malformed envelope) cannot be enforced and was rejected (fail-closed)"
  else
    let label :=
      match classify_mcp_exchange decoded with
      | Some l => Some l
      | None => if has_mcp_header req then Some MCP_LABEL_UNKNOWN else None
      end in
    w_ret match label with
          | Some l => McpForwardResponseOnly {| tool_name := l; arguments := JNull |}
          | None => McpSkip
          end.

(** One call, by the gateway. *)
Definition evaluate_call (req : HttpRequest) (host : string) (call : McpToolCall) : W McpEvent McpEvalOutcome :=
  let target_url := String.append "https://" (as_bytes (String.append host (rq_target req))) in
  let args := to_vec (arguments call) in
  match (if connected then evaluate_mcp_call call target_url else Err false) with
  | Ok ToolDecision.Allow => (McpForward call args, [emit_mcp_decision (tool_name call) args false EmptyString])
  | Ok ToolDecision.Redact =>
      mcp_deny "-32000" (tool_name call) args
        "gateway required redaction of this MCP call that the proxy cannot apply (fail-closed); change the policy to alert/allow, or wait for proxy redaction support"
  | Ok (ToolDecision.Deny reason) => mcp_deny "-32000" (tool_name call) args reason
  | Err contended =>
      if mcp_fail_open config then w_ret (McpForwardUnevaluated call args)
      else mcp_deny "-32000" (tool_name call) args (fail_closed_reason contended)
  end.

Definition evaluate_mcp_request (req : HttpRequest) (host : string) : W McpEvent McpEvalOutcome :=
  match decoded_body req with
  | None => reject "MCP request body has a Content-Encoding the proxy cannot decode, so it cannot be enforced and was rejected (fail-closed)"
  | Some decoded =>
      if request_encoding_hazard decoded (content_types (headers req)) (has_mcp_header req) then
        reject "MCP request body is in an encoding the proxy cannot judge (non-UTF-8 charset, conflicting charsets, or UTF-16/32), so it cannot be enforced and was rejected (fail-closed)"
      else
        match parse_mcp_request decoded with
        | None => evaluate_other req decoded
        | Some call =>
            if has_reserved_label_prefix (tool_name call) then
              reject "MCP tools/call names a tool in the reserved `mcp-method:` namespace and was rejected (fail-closed)"
            else evaluate_call req host call
        end
  end.
End Evaluate.
