(* ===== verification/ResponseRelay.v ===== *)
(** * ResponseRelay: responses on an enforcing proxy

    What aa-proxy/src/intercept/mod.rs makes of a response, the result side of
    aa-proxy/src/mcp_enforce.rs, and relay_enforced_response with what it calls, of
    aa-proxy/src/proxy/mod.rs.  A relay is the sequence of its events and writes and how it
    ends; a write that fails ends it early, so what happens is then a prefix. *)

From stdpp Require Import base strings list gmap.
From Stdlib Require Import ZArith Lia Bool Ascii String.
From S2P Require Import Prelude.
From S2P Require Import Text.
From S2P Require Import Findings.
From S2P Require Import Detection.
From S2P Require Import RuntimeQuery.
From S2P Require Import HttpCodec.
From S2P Require Import Intercept.
From S2P Require Import JsonText.
From S2P Require Import Sse.
From S2P Require Import ResponseCodec.
From S2P Require Import ProxyEgress.
From S2P Require Import Mcp.

Open Scope Z_scope.
Open Scope aasm_scope.

#[local] Arguments ascii_dec : simpl never.

(** ** The scan of a response *)

Module ResponseScan.
Inductive t := Forward | Redact (bytes : string) | Withhold.
End ResponseScan.

Record ResponseForms := { fm_raw : string; fm_extra : list string }.

Definition texts (f : ResponseForms) : list string := fm_raw f :: fm_extra f.

Definition response_forms (bytes : string) : option ResponseForms :=
  let raw := lenient_json_text bytes in
  if negb (lacks backslash_c raw) then
    match decode_json_strings raw with
    | None => None
    | Some decoded => Some {| fm_raw := raw; fm_extra := if String.eqb decoded raw then [] else [decoded] |}
    end
  else Some {| fm_raw := raw; fm_extra := [] |}.

Section Scan.
Context {DT : Detectors} {IF : Inflate}.

Definition redact_response_body (scanner : Scanner) (body : string) (content_encoding : option string) : ResponseScan.t :=
  if negb scanner then ResponseScan.Forward
  else
    match scan_source body content_encoding with
    | Uninspectable => ResponseScan.Withhold
    | Plaintext bytes encoded =>
        match response_forms bytes with
        | None => ResponseScan.Withhold
        | Some forms =>
            if is_clean (fm_raw forms) then
              if existsb (λ t, negb (is_clean t)) (fm_extra forms) then ResponseScan.Withhold else ResponseScan.Forward
            else if encoded then ResponseScan.Withhold
            else
              let redacted := redact (scanner_scan (fm_raw forms)) (fm_raw forms) in
              match response_forms redacted with
              | Some after => if forallb is_clean (texts after) then ResponseScan.Redact redacted else ResponseScan.Withhold
              | None => ResponseScan.Withhold
              end
        end
    end.

Definition response_encoding_unjudgeable (body : string) (content_encoding : option string) (content_types : list string) : bool :=
  match scan_source body content_encoding with
  | Plaintext bytes _ => encoding_unjudgeable bytes content_types
  | Uninspectable => false
  end.

Definition response_body_is_empty (body : string) (content_encoding : option string) : bool :=
  match scan_source body content_encoding with Plaintext bytes _ => is_empty bytes | Uninspectable => false end.

Definition gateway_candidates (body : string) (content_encoding : option string) (sent : option string) : option (list string) :=
  match match sent with
        | Some redacted => response_forms redacted
        | None => match scan_source body content_encoding with Plaintext bytes _ => response_forms bytes | Uninspectable => None end
        end with
  | Some forms => Some (texts forms)
  | None => None
  end.
End Scan.

(** ** The gateway and a result *)

Definition build_tool_result_request (call : McpToolCall) (result_body source_url : string) : ToolResultCheck :=
  {| tr_agent_id := PROXY_AGENT_ID; tr_tool_name := tool_name call; tr_tool_source := MCP_TOOL_SOURCE;
     tr_result_json := result_body; tr_source_url := source_url |}.

(** ** Effects *)

Inductive RelayEffect := Emit (e : McpEvent) | Write (bytes : string).

Definition Relay : Type := W RelayEffect (result unit ReadError.t).

Definition emit (e : McpEvent) : W RelayEffect unit := (tt, [Emit e]).
Definition write_all (bytes : string) : W RelayEffect unit := (tt, [Write bytes]).
Definition relayed : Relay := w_ret (Ok tt).

(** ** Heads *)

(** [str::split] at a string; at least one byte goes in a round. *)
Fixpoint split_str (fuel : nat) (sep s : string) : list string :=
  match fuel, split_once_str sep s with
  | S fuel', Some (a, b) => a :: split_str fuel' sep b
  | _, _ => [s]
  end.

Definition ends_charset (c : ascii) : bool := (code c =? 59) || (code c =? 34) || (code c =? 44) || (code c =? 32).

(** What follows one [charset=]. *)
Definition foreign_name (rest : string) : bool :=
  let from := snd (take_while (λ c, (code c =? 34) || (code c =? 32)) rest) in
  let name := fst (take_while (λ c, negb (ends_charset c)) from) in
  negb (existsb (String.eqb name) ["utf-8"; "us-ascii"; "utf8"]).

Definition event_stream_head_is_judgeable (hs : list (string * string)) : bool :=
  let encoded := existsb (λ kv, eq_ignore_ascii_case (fst kv) "content-encoding" && negb (is_empty (trim (snd kv)))
                                && negb (eq_ignore_ascii_case (trim (snd kv)) "identity")) hs in
  let foreign_charset :=
    existsb (λ v, existsb foreign_name (tail (split_str (String.length v) "charset=" (to_ascii_lowercase v)))) (content_types hs) in
  negb encoded && negb foreign_charset.

Definition clean_text (s : string) : bool := lacks CR s && lacks LF s && lacks (chr 0) s.

Definition head_is_safe_to_reserialise (head : HttpResponseHead) : bool :=
  clean_text (rh_version head) && clean_text (status_code head) && clean_text (rh_reason head)
  && forallb (λ kv, clean_text (fst kv) && clean_text (snd kv)) (rh_headers head).

Definition stream_dropped (k : string) : bool :=
  existsb (eq_ignore_ascii_case k)
    ["content-length"; "transfer-encoding"; "connection"; "keep-alive"; "content-encoding"; "upgrade"; "te"; "trailer"; "proxy-connection"].

Definition event_stream_head (head : HttpResponseHead) : string :=
  String.append (as_bytes (String.append (rh_version head) (String " " (String.append (status_code head) (String " " (String.append (rh_reason head) CRLF))))))
    (String.append (header_lines (List.filter (λ kv, negb (stream_dropped (fst kv))) (rh_headers head)))
       (String.append "Connection: close" (String.append CRLF CRLF))).

Definition MAX_INTERIM_HEADS : nat := 16.

(** A head of an event stream and what follows it, or a response. *)
Inductive Upstream :=
| UpClosed
| UpEventStream (raw rest : string)
| UpBuffered (resp : HttpResponse).

Definition response_of (head : HttpResponseHead) (b : string) : HttpResponse :=
  {| rs_version := rh_version head; rs_status_code := status_code head; rs_reason := rh_reason head;
     rs_headers := rh_headers head; rs_body := b |}.

(** The reading half of [relay_enforced_response]; [room] interim heads may still come. *)
Fixpoint read_upstream (room : nat) (e : Ending.t) (s : string) : result Upstream ReadError.t :=
  let? (raw, rest) := read_raw_response_head e MAX_RAW_HEAD_BYTES s in
  match raw with
  | None => Ok UpClosed
  | Some raw =>
      if raw_head_is_event_stream raw then Ok (UpEventStream raw rest)
      else if raw_head_is_interim raw then
        match room with O => Err ReadError.Refused | S room' => read_upstream room' e rest end
      else
        let? head := parse_raw_response_head raw in
        if is_event_stream head then Ok (UpEventStream (rh_raw head) rest)
        else let? (b, _) := read_http_response_body e head rest in Ok (UpBuffered (response_of head b))
  end.

(** The next read of a stream gives at least one of [n] more bytes, or none came for as long
    as an unfinished event may take. *)
Inductive ReadStep := Take (n : nat) | Elapsed.

Definition next_step (sched : list ReadStep) : ReadStep * list ReadStep :=
  match sched with
  | [] => (Take (Z.to_nat BODY_STREAM_PIECE), [])
  | step :: rest => (step, rest)
  end.

Section Relays.
Context {DT : Detectors} {IF : Inflate} {SD : Serde} {N : Net} {GW : McpGateway}.
Context (config : ProxyConfig) (connected : bool) (scanner : Scanner).
Context (source_url : string).

Definition mcp_withheld_response_bytes (message : string) : string :=
  let body := build_jsonrpc_error_response "-32000" message in
  String.append "HTTP/1.1 502 Bad Gateway" (String.append CRLF (String.append "Content-Type: application/json" (String.append CRLF
    (String.append "Content-Length: " (String.append (decimal (N.of_nat (String.length body)))
      (String.append CRLF (String.append "Connection: close" (String.append CRLF (String.append CRLF body))))))))).

Definition mcp_unparseable_response_bytes : string :=
  mcp_withheld_response_bytes "MCP response could not be inspected for secrets and was withheld (fail-closed)".

Definition withhold_response (name args audit_reason client_message : string) : Relay :=
  let* _ := emit (emit_mcp_decision scanner name args true audit_reason) in
  let* _ := write_all (mcp_withheld_response_bytes client_message) in relayed.

Definition withhold_event_stream (name args : string) : Relay :=
  withhold_response name args "event-stream response not inspectable, withheld (fail-closed)"
    "MCP event-stream response cannot be inspected for secrets and was withheld (fail-closed)".

(** A denial is audited, and the client reads the fixed answer. *)
Definition withhold_unparseable (name args reason : string) : Relay :=
  let* _ := emit (emit_mcp_decision scanner name args true reason) in
  let* _ := write_all mcp_unparseable_response_bytes in relayed.

Definition end_event : string :=
  String.append "event: message" (String LF (String.append "data: "
    (String.append (build_jsonrpc_error_response "-32000"
       "MCP event stream ended: an event could not be cleared for delivery (fail-closed)") (String LF (String LF EmptyString))))).

Definition end_event_stream (call : McpToolCall) (args reason : string) : Relay :=
  let* _ := emit (emit_mcp_decision scanner (tool_name call) args true reason) in
  let* _ := write_all end_event in relayed.

(** ** One response *)

(** Each form in turn; the reason of the first that is not allowed. *)
Fixpoint all_allowed (call : McpToolCall) (bodies : list string) : result unit string :=
  match bodies with
  | [] => Ok tt
  | b :: rest =>
      match check_tool_result (build_tool_result_request call b source_url) with
      | Ok r =>
          match mcp_decision_from_response r with
          | ToolDecision.Allow => all_allowed call rest
          | ToolDecision.Deny reason => Err (String.append "gateway denied the MCP response: " reason)
          | ToolDecision.Redact =>
              Err "gateway required redaction of this MCP response that the proxy cannot apply (fail-closed)"
          end
      | Err (Some e) =>
          Err (String.append "MCP response enforcement unavailable: PolicyService.CheckAction (tool result) failed: "
                 (String.append e " (fail-closed)"))
      | Err None => Err "MCP response enforcement unavailable: gateway did not answer within 10s (fail-closed)"
      end
  end.

Definition evaluate_response_candidate (call : McpToolCall) (scan : ResponseScan.t) (b : string) (content_encoding : option string)
  : result ResponseScan.t string :=
  match scan with
  | ResponseScan.Withhold => Ok scan
  | _ =>
      match gateway_candidates b content_encoding (match scan with ResponseScan.Redact bytes => Some bytes | _ => None end) with
      | None => Err "response body could not be decoded for gateway evaluation"
      | Some bodies => let? _ := all_allowed call bodies in Ok scan
      end
  end.

Definition handle_mcp_response_body (resp : HttpResponse) (call : McpToolCall) (args : string) : Relay :=
  let enforcing := bool_decide (is_Some (gateway_endpoint config)) in
  let content_encoding := joined_content_encoding (rs_headers resp) in
  if response_body_is_empty (rs_body resp) content_encoding then
    let* _ := write_all (serialize_http_response resp (rs_body resp)) in relayed
  else
    let scan :=
      if response_encoding_unjudgeable (rs_body resp) content_encoding (content_types (rs_headers resp)) then ResponseScan.Withhold
      else redact_response_body scanner (rs_body resp) content_encoding in
    match (if connected then evaluate_response_candidate call scan (rs_body resp) content_encoding
           else if enforcing then Err "gateway configured for MCP enforcement but no live client is connected (fail-closed)"
           else Ok scan) with
    | Err reason => withhold_unparseable (tool_name call) args reason
    | Ok ResponseScan.Withhold =>
        withhold_unparseable (tool_name call) args "response encoding not inspectable, withheld (fail-closed)"
    | Ok (ResponseScan.Redact redacted) =>
        let* _ := emit (emit_mcp_decision scanner (tool_name call) args false "response redacted") in
        let* _ := write_all (serialize_http_response resp redacted) in relayed
    | Ok ResponseScan.Forward => let* _ := write_all (serialize_http_response resp (rs_body resp)) in relayed
    end.

(** ** A stream of events *)

(** The events of one piece; the reason the stream ends, if it does. *)
Fixpoint send_events (call : McpToolCall) (args : string) (events : list string) : W RelayEffect (option string) :=
  match events with
  | [] => w_ret None
  | event :: rest =>
      if String.eqb event KEEPALIVE then let* _ := write_all event in send_events call args rest
      else
        match evaluate_response_candidate call (redact_response_body scanner event None) event None with
        | Ok ResponseScan.Forward => let* _ := write_all event in send_events call args rest
        | Ok (ResponseScan.Redact redacted) =>
            let* _ := emit (emit_mcp_decision scanner (tool_name call) args false "response event redacted") in
            let* _ := write_all redacted in send_events call args rest
        | Ok ResponseScan.Withhold => w_ret (Some "event not inspectable, withheld (fail-closed)")
        | Err reason => w_ret (Some reason)
        end
  end.

(** Each round takes a byte of the upstream or a step of the schedule. *)
Fixpoint relay_events (fuel : nat) (e : Ending.t) (call : McpToolCall) (args : string)
  (sched : list ReadStep) (parser : SseParser) (framing : BodyFraming.t) (s : string) : Relay :=
  match fuel with
  | O => relayed
  | S fuel' =>
      let stalled := end_event_stream call args "event stream stalled inside an event, withheld (fail-closed)" in
      let '(step, sched') := next_step sched in
      match step with
      | Elapsed => if has_partial parser then stalled else relay_events fuel' e call args sched' parser framing s
      | Take n =>
          match next_piece e n framing s with
          | Ok (None, _, _) => relayed
          | Ok (Some piece, framing', s') =>
              match push parser piece with
              | Err _ => end_event_stream call args "event not inspectable (oversized or not UTF-8), withheld (fail-closed)"
              | Ok (events, parser') =>
                  let* ended := send_events call args events in
                  match ended with
                  | Some reason => end_event_stream call args reason
                  | None => relay_events fuel' e call args sched' parser' framing' s'
                  end
              end
          | Err ReadError.Waiting => if has_partial parser then stalled else w_ret (Err ReadError.Waiting)
          | Err _ => end_event_stream call args "event stream framing error, withheld (fail-closed)"
          end
      end
  end.

Definition relay_event_stream (e : Ending.t) (sched : list ReadStep) (raw_head : string) (rest : string) (call : McpToolCall) (args : string)
  : Relay :=
  let withheld := withhold_event_stream (tool_name call) args in
  if negb connected then withheld
  else
    match parse_raw_response_head raw_head with
    | Err _ => withheld
    | Ok head =>
        match BodyStream_new head with
        | Err _ => withheld
        | Ok framing =>
            if negb (event_stream_head_is_judgeable (rh_headers head)) || negb (head_is_safe_to_reserialise head) then withheld
            else
              let* _ := write_all (event_stream_head head) in
              relay_events (S (String.length rest + List.length sched)) e call args sched sse_new framing rest
        end
    end.

(** ** The relays *)

Definition stream_call : McpToolCall := {| tool_name := MCP_LABEL_STREAM; arguments := JNull |}.

(** [tokio::io::copy] of the rest. *)
Definition copy_rest (e : Ending.t) (rest : string) : Relay :=
  let* _ := write_all rest in
  w_ret match e with Ending.Closed => Ok tt | _ => Err (short_read e) end.

Fixpoint relay_unrecognised_response (room : nat) (e : Ending.t) (sched : list ReadStep) (s : string) : Relay :=
  match read_raw_response_head e MAX_RAW_HEAD_BYTES s with
  | Err ReadError.Waiting => w_ret (Err ReadError.Waiting)
  | Err _ => withhold_unparseable MCP_LABEL_STREAM EmptyString "response head too large to inspect, withheld (fail-closed)"
  | Ok (None, _) => relayed
  | Ok (Some raw, rest) =>
      if raw_head_is_event_stream raw then relay_event_stream e sched raw rest stream_call EmptyString
      else
        let* _ := write_all raw in
        if raw_head_is_interim raw then
          match room with
          | O => withhold_response MCP_LABEL_STREAM EmptyString "too many interim 1xx heads, withheld (fail-closed)"
                   "MCP response sent too many interim heads and was withheld (fail-closed)"
          | S room' => relay_unrecognised_response room' e sched rest
          end
        else copy_rest e rest
  end.

(** [in_time]: the response of a recognised exchange was read within its bound. *)
Definition relay_enforced_response (e : Ending.t) (in_time : bool) (sched : list ReadStep) (s : string)
  (mcp_call : option (McpToolCall * string)) : Relay :=
  match mcp_call with
  | None => relay_unrecognised_response MAX_INTERIM_HEADS e sched s
  | Some (call, args) =>
      match (if in_time then read_upstream MAX_INTERIM_HEADS e s else Err ReadError.Waiting) with
      | Ok UpClosed => relayed
      | Ok (UpEventStream raw rest) => relay_event_stream e sched raw rest call args
      | Ok (UpBuffered resp) => handle_mcp_response_body resp call args
      | Err ReadError.Panic => w_ret (Err ReadError.Panic)
      | Err _ => withhold_unparseable (tool_name call) args "response unparseable, withheld (fail-closed)"
      end
  end.
End Relays.
