(* ===== verification/ResponseProps.v ===== *)
(** * ResponseProps: what the client of an enforcing proxy can be sent *)

From stdpp Require Import base strings list gmap.
From Stdlib Require Import ZArith Lia Bool Ascii String.
From S2P Require Import Prelude.
From S2P Require Import Text.
From S2P Require Import Findings.
From S2P Require Import Detection.
From S2P Require Import RuntimeQuery.
From S2P Require Import HttpCodec.
From S2P Require Import HttpProps.
From S2P Require Import Intercept.
From S2P Require Import JsonText.
From S2P Require Import Sse.
From S2P Require Import ResponseCodec.
From S2P Require Import BodyProps.
From S2P Require Import ProxyEgress.
From S2P Require Import Mcp.
From S2P Require Import ResponseRelay.

Open Scope Z_scope.
Open Scope aasm_scope.

#[local] Arguments ascii_dec : simpl never.

(** ** The effects of a relay *)

Lemma trace_emit {A} e (m : W RelayEffect A) : snd (w_bind (emit e) (λ _, m)) = Emit e :: snd m.
Proof. by destruct m. Qed.

Lemma trace_write {A} b (m : W RelayEffect A) : snd (w_bind (write_all b) (λ _, m)) = Write b :: snd m.
Proof. by destruct m. Qed.

Lemma trace_relay {A B} (m : W RelayEffect A) (k : A → W RelayEffect B) : snd (w_bind m k) = snd m ++ snd (k (fst m)).
Proof. destruct m as [a t]. cbn. by destruct (k a). Qed.

Lemma result_write {A} b (m : W RelayEffect A) : fst (w_bind (write_all b) (λ _, m)) = fst m.
Proof. by destruct m. Qed.

Lemma result_emit {A} e (m : W RelayEffect A) : fst (w_bind (emit e) (λ _, m)) = fst m.
Proof. by destruct m. Qed.

Lemma result_relay {A B} (m : W RelayEffect A) (k : A → W RelayEffect B) : fst (w_bind m k) = fst (k (fst m)).
Proof. destruct m as [a t]. cbn. by destruct (k a). Qed.

(** What the client is sent. *)
Definition sent_bytes (e : RelayEffect) : option string := match e with Write b => Some b | Emit _ => None end.
Definition writes (t : list RelayEffect) : list string := omap sent_bytes t.

Lemma writes_app t u : writes (t ++ u) = writes t ++ writes u.
Proof. apply omap_app. Qed.

Lemma writes_write b t : writes (Write b :: t) = b :: writes t.
Proof. done. Qed.

Lemma writes_emit e t : writes (Emit e :: t) = writes t.
Proof. done. Qed.

Section Responses.
Context {DT : Detectors} {IF : Inflate} {SD : Serde} {N : Net} {GW : McpGateway}.
Context (config : ProxyConfig) (connected : bool) (scanner : Scanner) (source_url : string).

(** ** Cleared bytes *)

(** The gateway answered yes. *)
Definition allows (call : McpToolCall) (t : string) : Prop :=
  ∃ r, check_tool_result (build_tool_result_request call t source_url) = Ok r ∧ cr_decision r = 1.

Definition clean_forms (forms : ResponseForms) : Prop := scanner = true → Forall (λ t, is_clean t = true) (texts forms).

(** Every reading of the bytes is clean and allowed. *)
Definition cleared (call : McpToolCall) (bytes : string) : Prop :=
  ∃ forms, response_forms bytes = Some forms ∧ clean_forms forms ∧ Forall (allows call) (texts forms).

Lemma decision_allow r : mcp_decision_from_response r = ToolDecision.Allow → cr_decision r = 1.
Proof. unfold mcp_decision_from_response. destruct (Z.eqb_spec (cr_decision r) 1); [done|]. by repeat destruct (_ =? _). Qed.

Lemma all_allowed_Ok call bodies u : all_allowed source_url call bodies = Ok u → Forall (allows call) bodies.
Proof.
  induction bodies as [|b rest IH]; [done|]. cbn [all_allowed]. destruct (check_tool_result _) as [r|[?|]] eqn:Hr; [|done..].
  destruct (mcp_decision_from_response r) eqn:Hd; [|done..]. intros H. constructor; [|by apply IH]. exists r. split; [done|by apply decision_allow].
Qed.

(** What is scanned in what encoding: the bytes a client reads. *)
Definition reads_as (sent : string) (content_encoding : option string) (bytes : string) : Prop :=
  ∃ encoded, scan_source sent content_encoding = Plaintext bytes encoded.

Lemma plain_encoding ce body bytes : scan_source body ce = Plaintext bytes false → bytes = body ∧ ∀ s, scan_source s ce = Plaintext s false.
Proof.
  unfold scan_source. destruct ce as [enc|]; [|by intros [= <-]]. destruct (_ || _); [by intros [= <-]|].
  by destruct (decompress_content_encoding _ body).
Qed.

Lemma scan_forward b ce : redact_response_body scanner b ce = ResponseScan.Forward →
  scanner = true → ∃ bytes encoded forms, scan_source b ce = Plaintext bytes encoded ∧ response_forms bytes = Some forms ∧
    Forall (λ t, is_clean t = true) (texts forms).
Proof.
  unfold redact_response_body. destruct scanner; [|done]. cbn [negb]. destruct (scan_source b ce) as [bytes encoded|]; [|done].
  destruct (response_forms bytes) as [forms|] eqn:Hf; [|done]. destruct (is_clean (fm_raw forms)) eqn:Hc.
  - destruct (existsb _ _) eqn:He; [done|]. intros _ _. exists bytes, encoded, forms. split_and!; [done..|]. constructor; [done|].
    apply Forall_forall. intros t Ht. apply list_elem_of_In in Ht. destruct (is_clean t) eqn:Ht'; [done|].
    assert (existsb (λ t, negb (is_clean t)) (fm_extra forms) = true) by (apply existsb_exists; exists t; by rewrite Ht'). congruence.
  - destruct encoded; [done|]. destruct (response_forms (redact _ _)) as [after|]; [|done]. by destruct (forallb is_clean _).
Qed.

Lemma scan_redact b ce r : redact_response_body scanner b ce = ResponseScan.Redact r →
  scan_source r ce = Plaintext r false ∧ ∃ forms, response_forms r = Some forms ∧ Forall (λ t, is_clean t = true) (texts forms).
Proof.
  unfold redact_response_body. destruct (negb scanner); [done|]. destruct (scan_source b ce) as [bytes encoded|] eqn:Hs; [|done].
  destruct (response_forms bytes) as [forms|]; [|done]. destruct (is_clean (fm_raw forms)); [by destruct (existsb _ _)|].
  destruct encoded; [done|]. destruct (response_forms (redact _ _)) as [after|] eqn:Ha; [|done]. destruct (forallb _ _) eqn:Hc; [|done].
  intros [= <-]. split; [by eapply plain_encoding|]. exists after. split; [done|]. apply Forall_forall. intros t Ht.
  rewrite forallb_forall in Hc. apply Hc. by apply list_elem_of_In.
Qed.

Lemma candidate_cleared call b ce scan :
  evaluate_response_candidate source_url call (redact_response_body scanner b ce) b ce = Ok scan →
  match scan with
  | ResponseScan.Forward => ∃ bytes, reads_as b ce bytes ∧ cleared call bytes
  | ResponseScan.Redact r => reads_as r ce r ∧ cleared call r
  | ResponseScan.Withhold => True
  end.
Proof.
  destruct (redact_response_body scanner b ce) as [|r|] eqn:Hs; cbn [evaluate_response_candidate]; [| |by intros [= <-]].
  - unfold gateway_candidates. destruct (scan_source b ce) as [bytes encoded|] eqn:Hss; [|done].
    destruct (response_forms bytes) as [forms|] eqn:Hf; [|done]. destruct (all_allowed _ _ _) as [u|] eqn:Ha; cbn [result_bind]; [|done].
    intros [= <-]. apply all_allowed_Ok in Ha. exists bytes. split; [by exists encoded|]. exists forms. split_and!; try done.
    intros Hsc. destruct (scan_forward _ _ Hs Hsc) as (b' & e' & f' & H1 & H2 & H3). simplify_eq. congruence.
  - unfold gateway_candidates. destruct (response_forms r) as [forms|] eqn:Hf; [|done]. destruct (all_allowed _ _ _) as [u|] eqn:Ha; cbn [result_bind]; [|done].
    intros [= <-]. apply all_allowed_Ok in Ha. destruct (scan_redact _ _ _ Hs) as (H1 & f' & H2 & H3). split; [by exists false|].
    exists forms. split_and!; try done. intros _. congruence.
Qed.

(** ** What may be written *)

Inductive answer (call : McpToolCall) : string → Prop :=
| Answer_withheld m :
    m ∈ ["MCP response could not be inspected for secrets and was withheld (fail-closed)";
         "MCP event-stream response cannot be inspected for secrets and was withheld (fail-closed)"] →
    answer call (mcp_withheld_response_bytes m)
| Answer_ended : answer call end_event
| Answer_empty resp : reads_as (rs_body resp) (joined_content_encoding (rs_headers resp)) EmptyString →
    answer call (serialize_http_response resp (rs_body resp))
| Answer_body resp b bytes : reads_as b (joined_content_encoding (rs_headers resp)) bytes → cleared call bytes →
    answer call (serialize_http_response resp b)
| Answer_head head : event_stream_head_is_judgeable (rh_headers head) = true → head_is_safe_to_reserialise head = true →
    answer call (event_stream_head head)
| Answer_keepalive : answer call KEEPALIVE
| Answer_event event : cleared call event → answer call event.

Definition answers (call : McpToolCall) (t : list RelayEffect) : Prop := Forall (answer call) (writes t).

Lemma answers_write call b t : answer call b → answers call t → answers call (Write b :: t).
Proof. intros Hb Ht. by constructor. Qed.

Lemma answers_emit call e t : answers call t → answers call (Emit e :: t).
Proof. done. Qed.

Lemma answers_unparseable call name args reason : answers call (snd (withhold_unparseable scanner name args reason)).
Proof. unfold answers, withhold_unparseable. rewrite trace_emit, trace_write. repeat constructor. Qed.

Lemma answers_withheld_stream call name args : answers call (snd (withhold_event_stream scanner name args)).
Proof. unfold answers, withhold_event_stream, withhold_response. rewrite trace_emit, trace_write. repeat constructor. Qed.

Lemma answers_end call args reason : answers call (snd (end_event_stream scanner call args reason)).
Proof. unfold answers, end_event_stream. rewrite trace_emit, trace_write. repeat constructor. Qed.

Lemma empty_reads b ce : response_body_is_empty b ce = true → reads_as b ce EmptyString.
Proof. unfold response_body_is_empty. destruct (scan_source b ce) as [[|] enc|] eqn:Hs; try done. intros _. by exists enc. Qed.

Lemma answers_body resp call args : is_Some (gateway_endpoint config) →
  answers call (snd (handle_mcp_response_body config connected scanner source_url resp call args)).
Proof.
  intros Hg. unfold handle_mcp_response_body. destruct (response_body_is_empty _ _) eqn:He.
  { unfold answers. rewrite trace_write. repeat constructor. by apply empty_reads. }
  destruct connected; [|rewrite bool_decide_true by done; apply answers_unparseable].
  destruct (response_encoding_unjudgeable _ _ _); [apply answers_unparseable|].
  destruct (evaluate_response_candidate _ _ _ _ _) as [scan|reason] eqn:Hc; [|apply answers_unparseable].
  apply candidate_cleared in Hc. destruct scan as [|r|]; [| |apply answers_unparseable].
  - destruct Hc as (bytes & Hr & Hc). rewrite trace_write. apply answers_write; [by eapply Answer_body|constructor].
  - destruct Hc as [Hr Hc]. rewrite trace_emit, trace_write. apply answers_emit, answers_write; [by eapply Answer_body|constructor].
Qed.

(** ** Events *)

(** What the client reads for an event, if the event is not refused. *)
Definition delivered (call : McpToolCall) (event : string) : option string :=
  if String.eqb event KEEPALIVE then Some event
  else match evaluate_response_candidate source_url call (redact_response_body scanner event None) event None with
       | Ok ResponseScan.Forward => Some event
       | Ok (ResponseScan.Redact redacted) => Some redacted
       | _ => None
       end.

(** The events before the first that is refused, as they are delivered, and whether one was. *)
Fixpoint deliver (call : McpToolCall) (events : list string) : list string * bool :=
  match events with
  | [] => ([], false)
  | event :: rest =>
      match delivered call event with
      | Some b => let '(bs, refused) := deliver call rest in (b :: bs, refused)
      | None => ([], true)
      end
  end.

Lemma delivered_answer call event b : delivered call event = Some b → answer call b.
Proof.
  unfold delivered. destruct (String.eqb_spec event KEEPALIVE) as [->|]; [intros [= <-]; constructor|].
  destruct (evaluate_response_candidate _ _ _ _ _) as [scan|] eqn:Hc; [|done]. apply candidate_cleared in Hc.
  destruct scan as [|r|]; [| |done]; intros [= <-]; [|by apply Answer_event, Hc].
  destruct Hc as (bytes & [enc Hr] & Hc). cbn in Hr. injection Hr as <- <-. by apply Answer_event.
Qed.

Lemma deliver_answers call events : Forall (answer call) (fst (deliver call events)).
Proof.
  induction events as [|event rest IH]; cbn [deliver]; [constructor|]. destruct (delivered call event) as [b|] eqn:Hd; [|constructor].
  destruct (deliver call rest). constructor; [by eapply delivered_answer|done].
Qed.

Lemma send_events_deliver call args events :
  writes (snd (send_events scanner source_url call args events)) = fst (deliver call events) ∧
  bool_decide (is_Some (fst (send_events scanner source_url call args events))) = snd (deliver call events).
Proof.
  induction events as [|event rest [IHw IHr]]; [done|]. cbn [send_events deliver]. unfold delivered.
  destruct (String.eqb event KEEPALIVE).
  { rewrite trace_write, result_write, writes_write, IHw, IHr. by destruct (deliver call rest). }
  destruct (evaluate_response_candidate _ _ _ _ _) as [[|r|]|]; [| |done..].
  - rewrite trace_write, result_write, writes_write, IHw, IHr. by destruct (deliver call rest).
  - rewrite trace_emit, result_emit, writes_emit, trace_write, result_write, writes_write, IHw, IHr. by destruct (deliver call rest).
Qed.

Lemma answers_events fuel e call args : ∀ sched parser framing s,
  answers call (snd (relay_events scanner source_url fuel e call args sched parser framing s)).
Proof.
  induction fuel as [|fuel IH]; intros sched parser framing s; [constructor|]. cbn [relay_events].
  destruct (next_step sched) as [[n|] sched']; [|destruct (has_partial parser); [apply answers_end|apply IH]].
  destruct (next_piece e n framing s) as [[[[piece|] framing'] s']|err]; [| constructor|].
  - destruct (push parser piece) as [[events parser']|]; [|apply answers_end]. unfold answers. rewrite trace_relay, writes_app.
    destruct (send_events_deliver call args events) as [Hw _]. rewrite Hw. apply Forall_app. split; [apply deliver_answers|].
    destruct (fst (send_events _ _ _ _ _)); [apply answers_end|apply IH].
  - destruct err; try apply answers_end. destruct (has_partial parser); [apply answers_end|constructor].
Qed.

Lemma answers_stream e sched raw rest call args :
  answers call (snd (relay_event_stream connected scanner source_url e sched raw rest call args)).
Proof.
  unfold relay_event_stream. destruct (negb connected); [apply answers_withheld_stream|].
  destruct (parse_raw_response_head raw) as [head|]; [|apply answers_withheld_stream].
  destruct (BodyStream_new head) as [framing|]; [|apply answers_withheld_stream].
  destruct (event_stream_head_is_judgeable (rh_headers head)) eqn:Hj, (head_is_safe_to_reserialise head) eqn:Hh;
    cbn [negb orb]; try apply answers_withheld_stream.
  rewrite trace_write. apply answers_write; [by constructor|apply answers_events].
Qed.

Lemma recognised_answers e in_time sched s call args : is_Some (gateway_endpoint config) →
  answers call (snd (relay_enforced_response config connected scanner source_url e in_time sched s (Some (call, args)))).
Proof.
  intros Hg. cbn [relay_enforced_response]. destruct (if in_time then _ else _) as [[|raw rest|resp]|err].
  - constructor.
  - apply answers_stream.
  - by apply answers_body.
  - destruct err; try apply answers_unparseable. constructor.
Qed.

(** C18: In answer to a recognised exchange of an enforcing proxy, whatever the upstream sends and
    however its bytes arrive, the client is sent only fixed refusals, responses without a
    body, the heads of event streams without a line break in a field, comments that keep a
    stream alive, and bodies and events whose every reading, as text and with its escapes
    resolved, was allowed by the gateway and, with scanning on, is free of findings. *)
Theorem response_judged e in_time sched s call args b :
  is_Some (gateway_endpoint config) →
  Write b ∈ snd (relay_enforced_response config connected scanner source_url e in_time sched s (Some (call, args))) → answer call b.
Proof.
  intros Hg Hb. pose proof (recognised_answers e in_time sched s call args Hg) as H. unfold answers in H. rewrite Forall_forall in H.
  apply H, list_elem_of_omap. by exists (Write b).
Qed.

(** ** A stream that is well formed *)

Lemma deliver_app call a b :
  deliver call (a ++ b) =
  if snd (deliver call a) then deliver call a
  else (fst (deliver call a) ++ fst (deliver call b), snd (deliver call b)).
Proof.
  induction a as [|event rest IH]; cbn [app deliver fst snd]; [by destruct (deliver call b)|].
  destruct (delivered call event) as [x|]; [|done]. rewrite IH. destruct (deliver call rest) as [bs [|]]; done.
Qed.

(** What goes out for the events of a stream. *)
Definition stream_writes (call : McpToolCall) (es : list string) : list string :=
  fst (deliver call es) ++ (if snd (deliver call es) then [end_event] else []).

Lemma relay_events_deliver k e call args : ∀ fuel ns parser framing s ps r es q,
  (k ≤ fuel)%nat → body_pieces k e ns framing s = Ok (ps, r) → push_all parser ps = Ok (es, q) →
  writes (snd (relay_events scanner source_url fuel e call args (map Take ns) parser framing s)) = stream_writes call es ∧
  fst (relay_events scanner source_url fuel e call args (map Take ns) parser framing s) = Ok tt.
Proof.
  induction k as [|k IH]; intros fuel ns parser framing s ps r es q Hk Hps Hes; [done|]. destruct fuel as [|fuel]; [lia|].
  cbn [relay_events body_pieces] in *.
  assert (next_step (map Take ns) = (Take (hd (Z.to_nat BODY_STREAM_PIECE) ns), map Take (tail ns))) as -> by (by destruct ns).
  destruct (next_piece _ _ _ _) as [[[[piece|] framing'] s']|]; cbn [result_bind] in Hps; [| |done].
  2:{ injection Hps as <- <-. cbn in Hes. by injection Hes as <- <-. }
  destruct (body_pieces k e (tail ns) framing' s') as [[ps' r']|] eqn:Hr; cbn [result_bind] in Hps; [|done]. injection Hps as <- <-.
  cbn [push_all] in Hes. destruct (push parser piece) as [[events parser']|]; cbn [result_bind] in Hes; [|done].
  destruct (push_all parser' ps') as [[es' q']|] eqn:Hq; cbn [result_bind] in Hes; [|done]. injection Hes as <- <-.
  destruct (IH fuel (tail ns) parser' framing' s' ps' r' es' q' ltac:(lia) Hr Hq) as [IHw IHf].
  destruct (send_events_deliver call args events) as [Hw Hb]. rewrite trace_relay, result_relay, writes_app, Hw.
  unfold stream_writes. rewrite deliver_app. destruct (fst (send_events _ _ _ _ _)) as [reason|].
  - destruct (deliver call events) as [out [|]]; [done|discriminate Hb].
  - destruct (deliver call events) as [out [|]]; [discriminate Hb|]. rewrite IHw, IHf. unfold stream_writes. cbn [fst snd]. by rewrite app_assoc.
Qed.

Lemma relay_stream_deliver e ns raw rest head framing call args ps r es q :
  parse_raw_response_head raw = Ok head → BodyStream_new head = Ok framing →
  event_stream_head_is_judgeable (rh_headers head) = true → head_is_safe_to_reserialise head = true →
  body_pieces (S (String.length rest)) e ns framing rest = Ok (ps, r) → push_all sse_new ps = Ok (es, q) →
  writes (snd (relay_event_stream true scanner source_url e (map Take ns) raw rest call args)) = event_stream_head head :: stream_writes call es ∧
  fst (relay_event_stream true scanner source_url e (map Take ns) raw rest call args) = Ok tt.
Proof.
  intros Hp Hf Hj Hh Hps Hes. unfold relay_event_stream. cbn [negb]. rewrite Hp, Hf, Hj, Hh. cbn [negb orb].
  rewrite trace_write, result_write, writes_write.
  destruct (relay_events_deliver (S (String.length rest)) e call args (S (String.length rest + List.length (map Take ns))) ns sse_new framing rest ps r es q)
    as [-> ->]; [lia|done..].
Qed.

(** An event stream of a recognised exchange that is well formed is delivered: its head, then its
    events in order, each as it is or redacted, up to the first that is refused and then the
    fixed event that ends the stream; nothing else, and nothing missing.  The events are those
    of the whole body, whatever its framing and however its bytes arrive. *)
Theorem stream_delivers e ns s raw rest head call args b r es q :
  read_upstream MAX_INTERIM_HEADS e s = Ok (UpEventStream raw rest) →
  parse_raw_response_head raw = Ok head → bodiless head = false →
  event_stream_head_is_judgeable (rh_headers head) = true → head_is_safe_to_reserialise head = true →
  read_http_response_body e head rest = Ok (b, r) → starts_plain b →
  push_all sse_new (bytes_of b) = Ok (es, q) →
  let relay := relay_enforced_response config true scanner source_url e true (map Take ns) s (Some (call, args)) in
  writes (snd relay) = event_stream_head head :: stream_writes call es ∧ fst relay = Ok tt.
Proof.
  intros Hu Hp Hb Hj Hh Hr Hs Hes. cbn [relay_enforced_response]. rewrite Hu.
  apply (body_in_pieces raw head e ns) in Hr as (_ & framing & ps & Hf & Hps & <-); [|done|done].
  apply any_pieces in Hes; [|done]. by eapply relay_stream_deliver.
Qed.
End Responses.

(** ** A concrete proxy *)

(** A scanner that finds a word in an event, and a gateway that refuses another. *)
#[local] Instance event_detectors : Detectors := {|
  scanner_scan text := if starts_with text "data: SECRET" then [cf_new Kind.AwsAccessKey 6 12] else [];
  regex := string; regex_new pattern := Some pattern; find_iter _ _ := []; zh_tw_scan _ := []; security_version := "1.0" |}.

#[local] Instance event_inflate : Inflate := {| multi_gz _ := None; zlib _ := None; raw_deflate _ := None |}.

#[local] Instance event_serde : Serde := {|
  json_document _ := None; from_str_value _ := None; from_str_envelope _ := None; to_vec _ := "null"; to_json_string := quoted |}.

#[local] Instance event_net : Net := {|
  lookup_host _ := None; check_action _ _ _ := None; debug_text s := s; code_text _ := "code";
  tcp_connect _ := true; tls_connect _ := true; chain_connect _ := true |}.

#[local] Instance event_gateway : McpGateway := {|
  check_tool_call _ := Rpc.Failed;
  check_tool_result c := Ok (respond (if contains (tr_result_json c) "forbidden" then 2 else 1) "no") |}.

Definition enforcing_config : ProxyConfig := {|
  llm_only := false; mitm_hosts := []; denied_hosts := []; network_allowlist := []; credential_action := OnFinding.Block;
  upstream_override := None; gateway_endpoint := Some "http://gateway"; mcp_fail_open := false;
  network_fail_open := false; allow_private_connect_targets := false; cfg_agent_id := None |}.

Definition event_call : McpToolCall := {| tool_name := "read_file"; arguments := JNull |}.

Definition event (l : string) : string := String.append l blank.

Definition stream_head_text : string := crlf_lines ["HTTP/1.1 200 OK"; "Content-Type: text/event-stream"; "Transfer-Encoding: chunked"; ""].

Definition stream_body : string := joined [event "data:SECRET-it"; event ": note"; event "data: forbidden"; event "data: late"].

Definition stream_bytes : string := joined [stream_head_text; crlf_lines ["35"; stream_body; "0"; ""]].

Definition redacted_event : string := event "data: [REDACTED:AwsAccessKey]-it".

(** The interim head before it and the reads of a few bytes make no difference. *)
Definition interim_head : string := crlf_lines ["HTTP/1.1 103 Early Hints"; ""].

Lemma stream_delivers_witness :
  ∃ head, parse_raw_response_head stream_head_text = Ok head ∧
    writes (snd (relay_enforced_response enforcing_config true true "https://mcp.example/mcp" Ending.Closed true (map Take [3; 1; 20]%nat)
                   (String.append interim_head stream_bytes) (Some (event_call, EmptyString)))) =
    [event_stream_head head; redacted_event; KEEPALIVE; end_event].
Proof.
  destruct (parse_raw_response_head stream_head_text) as [head|] eqn:Hp; [|vm_compute in Hp; discriminate Hp].
  exists head. split; [reflexivity|]. destruct (push_all sse_new (bytes_of stream_body)) as [[es q]|] eqn:Hes; [|vm_compute in Hes; discriminate Hes].
  destruct (stream_delivers enforcing_config true "https://mcp.example/mcp" Ending.Closed [3; 1; 20]%nat
    (String.append interim_head stream_bytes) stream_head_text (crlf_lines ["35"; stream_body; "0"; ""]) head event_call EmptyString
    stream_body EmptyString es q) as [Hw _].
  - vm_compute. reflexivity.
  - exact Hp.
  - vm_compute in Hp. injection Hp as <-. reflexivity.
  - vm_compute in Hp. injection Hp as <-. vm_compute. reflexivity.
  - vm_compute in Hp. injection Hp as <-. vm_compute. reflexivity.
  - vm_compute in Hp. injection Hp as <-. vm_compute. reflexivity.
  - split; discriminate.
  - exact Hes.
  - rewrite Hw. f_equal. vm_compute in Hes. injection Hes as <- <-. vm_compute. reflexivity.
Defined.

Definition reply_bytes : string := joined [crlf_lines ["HTTP/1.1 200 OK"; "Content-Type: application/json"; "Content-Length: 2"; ""]; "42"].

Lemma response_judged_witness :
  ∃ b, Write b ∈ snd (relay_enforced_response enforcing_config true true "https://mcp.example/mcp" Ending.Silent true []
                        reply_bytes (Some (event_call, EmptyString))) ∧
    answer true "https://mcp.example/mcp" event_call b ∧ ends_with b "42" = true.
Proof.
  exists (joined [crlf_lines ["HTTP/1.1 200 OK"; "Content-Type: application/json"; "Content-Length: 2"; ""]; "42"]).
  assert (Write (joined [crlf_lines ["HTTP/1.1 200 OK"; "Content-Type: application/json"; "Content-Length: 2"; ""]; "42"]) ∈
    snd (relay_enforced_response enforcing_config true true "https://mcp.example/mcp" Ending.Silent true [] reply_bytes (Some (event_call, EmptyString))))
    as H by (apply list_elem_of_In; vm_compute; left; reflexivity).
  split; [exact H|]. split; [|reflexivity]. apply (response_judged enforcing_config true true _ _ _ _ _ _ _ _ (ex_intro _ _ eq_refl) H).
Defined.

(** ** A gap *)

(** The head of a response that is not a stream is written with a carriage return in a field,
    which the head of a stream may not have: a client that ends a line there reads another
    header. *)
Definition split_field : string := String.append "X: a" (String CR "Content-Encoding: gzip").

Lemma buffered_head_keeps_line_break :
  let reply := joined [crlf_lines ["HTTP/1.1 200 OK"; split_field; "Content-Length: 2"; ""]; "42"] in
  (∃ head, parse_raw_response_head (crlf_lines ["HTTP/1.1 200 OK"; split_field; "Content-Length: 2"; ""]) = Ok head ∧
    head_is_safe_to_reserialise head = false) ∧
  writes (snd (relay_enforced_response enforcing_config true true "https://mcp.example/mcp" Ending.Closed true [] reply
                 (Some (event_call, EmptyString)))) = [reply].
Proof.
  split; [|vm_compute; reflexivity].
  destruct (parse_raw_response_head _) as [head|] eqn:Hp; [|vm_compute in Hp; discriminate Hp].
  exists head. split; [reflexivity|]. vm_compute in Hp. injection Hp as <-. vm_compute. reflexivity.
Qed.
