(* ===== verification/McpProps.v ===== *)
(** * McpProps: no call of a tool goes around the judgement *)

From stdpp Require Import base strings list.
From Stdlib Require Import ZArith Lia Bool Ascii String.
From S2P Require Import Prelude.
From S2P Require Import Text.
From S2P Require Import Findings.
From S2P Require Import Detection.
From S2P Require Import RuntimeQuery.
From S2P Require Import HttpCodec.
From S2P Require Import HttpProps.
From S2P Require Import Intercept.
From S2P Require Import NetAddr.
From S2P Require Import JsonText.
From S2P Require Import ProxyEgress.
From S2P Require Import Mcp.

Open Scope Z_scope.
Open Scope aasm_scope.

#[local] Arguments ascii_dec : simpl never.

(** ** How a string is written *)

Definition short_escape (e : ascii) : option ascii :=
  if code e =? 110 then Some LF
  else if code e =? 116 then Some (chr 9)
  else if code e =? 114 then Some CR
  else if code e =? 98 then Some (chr 8)
  else if code e =? 102 then Some (chr 12)
  else if code e =? 117 then None
  else Some e.

Definition unit_of (a b c d : ascii) : option Z := option_map fst (hex4 (String a (String b (String c (String d EmptyString))))).

(** The characters between the quotes of a token, and the string they stand for. *)
Inductive spells : string → string → Prop :=
| Spells_end : spells EmptyString EmptyString
| Spells_char c raw s : c ≠ quote_c → c ≠ backslash_c → spells raw s → spells (String c raw) (String c s)
| Spells_short e c raw s : short_escape e = Some c → spells raw s → spells (String backslash_c (String e raw)) (String c s)
| Spells_unit u a b c d v raw s :
    code u = 117 → unit_of a b c d = Some v → v < 55296 ∨ 56319 < v → spells raw s →
    spells (String backslash_c (String u (String a (String b (String c (String d raw)))))) (String.append (utf8_char v) s)
| Spells_pair u a b c d hi u' a' b' c' d' lo raw s :
    code u = 117 → unit_of a b c d = Some hi → 55296 ≤ hi ≤ 56319 →
    code u' = 117 → unit_of a' b' c' d' = Some lo → 56320 ≤ lo ≤ 57343 → spells raw s →
    spells (String backslash_c (String u (String a (String b (String c (String d
             (String backslash_c (String u' (String a' (String b' (String c' (String d' raw))))))))))))
      (String.append (utf8_char (65536 + (hi - 55296) * 1024 + (lo - 56320))) s).

(** A beginning of a text that ends outside its string tokens. *)
Inductive outside : string → Prop :=
| Outside_end : outside EmptyString
| Outside_char c pre : c ≠ quote_c → outside pre → outside (String c pre)
| Outside_token raw s pre :
    spells raw s → outside pre → outside (String quote_c (String.append raw (String quote_c pre))).

(** A string token of the text stands for the string. *)
Definition token_in (s text : string) : Prop :=
  ∃ pre raw post, text = String.append pre (String quote_c (String.append raw (String quote_c post))) ∧ outside pre ∧ spells raw s.

(** ** The decoder finds every token *)

Lemma unit_hex4 a b c d v rest : unit_of a b c d = Some v → hex4 (String a (String b (String c (String d rest)))) = Some (v, rest).
Proof.
  unfold unit_of, hex4. destruct (to_digit 16 a), (to_digit 16 b), (to_digit 16 c), (to_digit 16 d); try done. by intros [= <-].
Qed.

Lemma unescape_short e c rest : short_escape e = Some c → unescape e rest = (String c EmptyString, rest).
Proof.
  unfold short_escape, unescape. repeat destruct (code e =? _); try done; by intros [= <-].
Qed.

Lemma unescape_unit u a b c d v rest :
  code u = 117 → unit_of a b c d = Some v → v < 55296 ∨ 56319 < v →
  unescape u (String a (String b (String c (String d rest)))) = (utf8_char v, rest).
Proof.
  intros Hu Hv Hr. unfold unescape. rewrite Hu, (unit_hex4 _ _ _ _ _ _ Hv). cbn [Z.eqb Pos.eqb].
  destruct (Z.leb_spec 55296 v), (Z.leb_spec v 56319); cbn [andb]; try done. lia.
Qed.

Lemma unescape_pair u a b c d hi u' a' b' c' d' lo rest :
  code u = 117 → unit_of a b c d = Some hi → 55296 ≤ hi ≤ 56319 →
  code u' = 117 → unit_of a' b' c' d' = Some lo → 56320 ≤ lo ≤ 57343 →
  unescape u (String a (String b (String c (String d (String backslash_c (String u' (String a' (String b' (String c' (String d' rest))))))))))
  = (utf8_char (65536 + (hi - 55296) * 1024 + (lo - 56320)), rest).
Proof.
  intros Hu Hv Hr Hu' Hv' Hr'. unfold unescape. rewrite Hu, (unit_hex4 _ _ _ _ _ _ Hv). cbn [Z.eqb Pos.eqb].
  destruct (Z.leb_spec 55296 hi), (Z.leb_spec hi 56319); try lia. cbn [andb]. unfold low_surrogate. rewrite Hu', (unit_hex4 _ _ _ _ _ _ Hv').
  destruct (Z.leb_spec 56320 lo), (Z.leb_spec lo 57343); try lia. done.
Qed.

(** Inside a token: the string comes out, and the decoder goes on after the token. *)
Lemma decode_inside raw s : spells raw s → ∀ fuel cap written post,
  (String.length (String.append raw (String quote_c post)) < fuel)%nat →
  let r := decode_loop fuel cap written true (String.append raw (String quote_c post)) in
  r = None ∨ ∃ fuel' written', (String.length post < fuel')%nat ∧
    r = option_map (λ d, String.append s (String LF d)) (decode_loop fuel' cap written' false post).
Proof.
  induction 1 as [|c raw s Hq Hb Hs IH|e c raw s He Hs IH|u a b c d v raw s Hu Hv Hr Hs IH
                 |u a b c d hi u' a' b' c' d' lo raw s Hu Hv Hr Hu' Hv' Hr' Hs IH];
    intros [|fuel] cap written post Hf; try (cbn in Hf; lia); cbn [String.append] in *; cbn [decode_loop];
    (destruct (Z.ltb_spec cap written); [by left|]).
  - destruct (ascii_dec quote_c quote_c); [|done]. right. exists fuel, (written + 1). split; [cbn in Hf; lia|].
    by destruct (decode_loop _ _ _ _ _).
  - destruct (ascii_dec c quote_c); [done|]. destruct (ascii_dec c backslash_c); [done|].
    destruct (IH fuel cap (written + 1) post) as [->|(f' & w' & Hf' & ->)]; [cbn in Hf; lia|by left|].
    right. exists f', w'. split; [done|]. by destruct (decode_loop _ _ _ _ _).
  - destruct (ascii_dec backslash_c quote_c); [done|]. destruct (ascii_dec backslash_c backslash_c); [|done].
    rewrite (unescape_short _ _ _ He).
    destruct (IH fuel cap (written + len (String c EmptyString)) post) as [->|(f' & w' & Hf' & ->)]; [cbn in Hf; lia|by left|].
    right. exists f', w'. split; [done|]. by destruct (decode_loop _ _ _ _ _).
  - destruct (ascii_dec backslash_c quote_c); [done|]. destruct (ascii_dec backslash_c backslash_c); [|done].
    rewrite (unescape_unit _ _ _ _ _ _ _ Hu Hv Hr).
    destruct (IH fuel cap (written + len (utf8_char v)) post) as [->|(f' & w' & Hf' & ->)]; [cbn in Hf; lia|by left|].
    right. exists f', w'. split; [done|]. destruct (decode_loop _ _ _ _ _); [|done]. cbn [option_map]. by rewrite append_assoc.
  - destruct (ascii_dec backslash_c quote_c); [done|]. destruct (ascii_dec backslash_c backslash_c); [|done].
    rewrite (unescape_pair _ _ _ _ _ _ _ _ _ _ _ _ _ Hu Hv Hr Hu' Hv' Hr').
    destruct (IH fuel cap (written + len (utf8_char (65536 + (hi - 55296) * 1024 + (lo - 56320)))) post) as [->|(f' & w' & Hf' & ->)];
      [cbn in Hf; lia|by left|].
    right. exists f', w'. split; [done|]. destruct (decode_loop _ _ _ _ _); [|done]. cbn [option_map]. by rewrite append_assoc.
Qed.

(** What the decoder has written so far ends a line. *)
Definition line_ended (d : string) : Prop := d = EmptyString ∨ ∃ d', d = String.append d' (String LF EmptyString).

Lemma line_ended_app s d : line_ended d → line_ended (String.append s (String LF d)).
Proof.
  intros [->|[d' ->]]; right; [by exists s|]. exists (String.append s (String LF d')). rewrite append_assoc. done.
Qed.

Lemma decode_outside pre : outside pre → ∀ fuel cap written post,
  (String.length (String.append pre post) < fuel)%nat →
  let r := decode_loop fuel cap written false (String.append pre post) in
  r = None ∨ ∃ fuel' written' d, (String.length post < fuel')%nat ∧ line_ended d ∧
    r = option_map (String.append d) (decode_loop fuel' cap written' false post).
Proof.
  induction 1 as [|c pre Hc Ho IH|raw s pre Hs Ho IH]; intros fuel cap written post Hf.
  - right. exists fuel, written, EmptyString. split_and!; [done|by left|]. cbn [String.append]. by destruct (decode_loop _ _ _ _ _).
  - destruct fuel as [|fuel]; [cbn in Hf; lia|]. cbn [String.append decode_loop]. destruct (ascii_dec c quote_c); [done|].
    apply IH. cbn in Hf. lia.
  - destruct fuel as [|fuel]; [cbn in Hf; lia|]. cbn [String.append decode_loop] in *. destruct (ascii_dec quote_c quote_c); [|done].
    rewrite append_assoc in *. cbn [String.append] in *.
    destruct (decode_inside raw s Hs fuel cap written (String.append pre post)) as [->|(f1 & w1 & Hf1 & ->)]; [cbn in Hf; lia|by left|].
    destruct (IH f1 cap w1 post Hf1) as [->|(f2 & w2 & d & Hf2 & Hd & ->)]; [by left|].
    right. exists f2, w2, (String.append s (String LF d)). split_and!; [done|by apply line_ended_app|].
    destruct (decode_loop f2 _ _ _ _); [|done]. cbn [option_map]. by rewrite append_assoc.
Qed.

Lemma split_on_lf a b : split_on LF (String.append a (String LF b)) = split_on LF a ++ split_on LF b.
Proof.
  induction a as [|c a IH]; cbn [String.append split_on].
  - destruct (ascii_dec LF LF); [|done]. done.
  - rewrite IH. destruct (ascii_dec c LF); [done|]. destruct (split_on LF a) as [|x xs] eqn:Hs; [|done].
    by destruct a; cbn in Hs; repeat case_match.
Qed.

Lemma lines_has s d1 d2 :
  line_ended d1 → split_on LF s = [s] → strip_cr s = s → In s (lines (String.append d1 (String.append s (String LF d2)))).
Proof.
  intros Hd Hs Hcr. unfold lines. rewrite <-Hcr at 1. apply in_map.
  assert (∃ xs ys, split_on LF (String.append d1 (String.append s (String LF d2))) = xs ++ s :: ys ∧ ys ≠ []) as (xs & ys & -> & Hy).
  { assert (split_on LF d2 ≠ []) as Hne by (destruct d2; cbn; repeat case_match; done).
    destruct Hd as [->|[d' ->]]; cbn [String.append].
    - exists [], (split_on LF d2). by rewrite split_on_lf, Hs.
    - exists (split_on LF d'), (split_on LF d2). rewrite append_assoc. cbn [String.append]. by rewrite !split_on_lf, Hs. }
  destruct (is_empty _); [|apply in_or_app; right; by left]. rewrite removelast_app by done.
  apply in_or_app. right. destruct ys; [done|]. by left.
Qed.

(** A token that stands for the method is found, however it is spelled. *)
Lemma token_found text : token_in MCP_TOOLS_CALL_METHOD text → has_tools_call_token text = true.
Proof.
  intros (pre & raw & post & -> & Ho & Hs). unfold has_tools_call_token, decode_json_strings, decode_json_strings_capped.
  destruct (decode_outside pre Ho (S (String.length (String.append pre (String quote_c (String.append raw (String quote_c post))))))
              MAX_DECODED_JSON_STRINGS 0 (String quote_c (String.append raw (String quote_c post)))) as [->|(f1 & w1 & d & Hf1 & Hd & ->)];
    [lia|done|].
  destruct f1 as [|f1]; [lia|]. cbn [decode_loop]. destruct (ascii_dec quote_c quote_c); [|done].
  destruct (decode_inside raw _ Hs f1 MAX_DECODED_JSON_STRINGS w1 post) as [->|(f2 & w2 & Hf2 & ->)]; [cbn in Hf1; lia|done|].
  destruct (decode_loop f2 _ _ _ _) as [d2|]; [|done]. cbn [option_map]. apply existsb_exists.
  exists MCP_TOOLS_CALL_METHOD. split; [|by apply String.eqb_eq]. by apply lines_has.
Qed.

(** ** What serde_json promises *)

(** The strings of a document, names of members too. *)
Fixpoint strings (t : Json) : list string :=
  match t with
  | JString s => [s]
  | JArray items => mjoin (map strings items)
  | JObject members => mjoin (map (λ m, fst m :: strings (snd m)) members)
  | _ => []
  end.

(** A reader accepts only documents; the value keeps the last of the members of one name;
    the derived reader reads the document when there is a value; an object or an array begins
    with its bracket, and its strings are written as string tokens. *)
Class SerdeLaws (SD : Serde) : Prop := {
  value_is_document text v : from_str_value text = Some v → ∃ t, json_document text = Some t ∧ v = value_of t;
  envelope_is_document text e : from_str_envelope text = Some e → ∃ t, json_document text = Some t ∧ envelope_of t = Some e;
  envelope_complete text v t e :
    from_str_value text = Some v → json_document text = Some t → envelope_of t = Some e → from_str_envelope text = Some e;
  document_begins text t :
    json_document text = Some t → match t with JArray _ | JObject _ => looks_like_json_document text = true | _ => True end;
  document_spelled text t s : json_document text = Some t → s ∈ strings t → token_in s text;
}.

(** ** Peers

    A peer takes the first or the last member of a name, and compares names exactly or
    folded. *)

Definition same_name (fold : bool) (name key : string) : bool := String.eqb (if fold then fold_key key else key) name.

Definition peer_field (fold first : bool) (name : string) (members : list (string * Json)) : option Json :=
  let found := List.filter (λ m, same_name fold name (fst m)) members in
  option_map snd (if first then head found else last found).

Definition calls_tool (fold first : bool) (t : Json) : Prop :=
  match t with JObject members => peer_field fold first "method" members = Some (JString MCP_TOOLS_CALL_METHOD) | _ => False end.

(** The peer runs a tool: the document is a call, or a batch with one. *)
Definition runs_tool (fold first : bool) (t : Json) : Prop :=
  calls_tool fold first t ∨ match t with JArray items => ∃ i, i ∈ items ∧ calls_tool fold first i | _ => False end.

Lemma last_wins_key {A} (l : list (string * A)) k v : (k, v) ∈ last_wins l → (k, v) ∈ l.
Proof.
  induction l as [|[k0 v0] l IH]; cbn; [done|]. destruct (existsb _ l); [intros H; right; by apply IH|].
  intros [->|H]%elem_of_cons; [by left|]; right; by apply IH.
Qed.

Lemma last_wins_last {A} (p : string → bool) (l : list (string * A)) k v :
  last (List.filter (λ m, p (fst m)) l) = Some (k, v) → (k, v) ∈ last_wins l.
Proof.
  induction l as [|[k0 v0] l IH]; cbn [List.filter last_wins fst]; [done|]. intros Hl.
  destruct (p k0) eqn:Hp.
  - rewrite last_cons in Hl. destruct (last (List.filter _ l)) as [[k1 v1]|] eqn:Hr.
    + injection Hl as -> ->. specialize (IH eq_refl). destruct (existsb _ l); [done|]. by right.
    + injection Hl as -> ->. destruct (existsb _ l) eqn:Hex; [|by left]. exfalso.
      apply existsb_exists in Hex as ([k1 v1] & Hin & Heq). apply String.eqb_eq in Heq. cbn in Heq. subst k1.
      apply last_None in Hr. assert (In (k, v1) (List.filter (λ m, p (fst m)) l)) as Hf by (apply filter_In; by split).
      by rewrite Hr in Hf.
  - specialize (IH Hl). destruct (existsb _ l); [done|]. by right.
Qed.

Lemma get_last_wins (l : list (string * Json)) name :
  get (last_wins l) name = option_map snd (last (List.filter (λ m, String.eqb (fst m) name) l)).
Proof.
  unfold get. induction l as [|[k v] l IH]; [done|]. cbn [last_wins List.filter fst]. destruct (existsb _ l) eqn:Hex.
  - rewrite IH. destruct (String.eqb_spec k name) as [->|]; [|done]. rewrite last_cons.
    destruct (last (List.filter _ l)) as [m|] eqn:Hl; [done|]. apply last_None in Hl. exfalso.
    apply existsb_exists in Hex as (m & Hin & Heq).
    assert (In m (List.filter (λ m, String.eqb (fst m) name) l)) as Hf by (by apply filter_In). by rewrite Hl in Hf.
  - cbn [List.find fst]. destruct (String.eqb_spec k name) as [->|]; [|by rewrite IH]. cbn [option_map snd]. rewrite last_cons.
    destruct (last (List.filter _ l)) as [m|] eqn:Hl; [|done]. exfalso.
    apply last_Some in Hl as [l' Hl]. assert (In m (List.filter (λ m, String.eqb (fst m) name) l)) as Hf.
    { rewrite Hl. apply in_or_app. right. by left. }
    apply filter_In in Hf as [Hin Heq]. assert (existsb (λ m, String.eqb (fst m) name) l = true) as Hx by (apply existsb_exists; by exists m).
    congruence.
Qed.

Lemma last_wins_get (l : list (string * Json)) k v : (k, v) ∈ last_wins l → get (last_wins l) k = Some v.
Proof.
  unfold get. induction l as [|[k0 v0] l IH]; cbn [last_wins]; [by intros ?%not_elem_of_nil|]. destruct (existsb _ l) eqn:Hex; [done|].
  intros [[= -> ->]|Hin]%elem_of_cons; cbn [List.find fst]; [by rewrite String.eqb_refl|].
  destruct (String.eqb_spec k0 k) as [->|]; [|by apply IH]. exfalso. apply last_wins_key in Hin.
  assert (existsb (λ m, String.eqb (fst m) k) l = true) as Hx; [|congruence].
  apply existsb_exists. exists (k, v). split; [by apply list_elem_of_In|apply String.eqb_refl].
Qed.

Definition value_members (members : list (string * Json)) : list (string * Json) :=
  map (λ m, (fst m, value_of (snd m))) members.

Lemma filter_value_members p l :
  List.filter (λ m, p (fst m)) (value_members l) = value_members (List.filter (λ m, p (fst m)) l).
Proof. unfold value_members. induction l as [|[k v] l IH]; [done|]. cbn. rewrite IH. by destruct (p k). Qed.

(** A peer that takes the last member reads one that the value has. *)
Lemma peer_last_value fold name members v :
  peer_field fold false name members = Some v →
  ∃ k, same_name fold name k = true ∧ (k, value_of v) ∈ last_wins (value_members members).
Proof.
  unfold peer_field. destruct (last (List.filter _ members)) as [[k w]|] eqn:Hl; [|done]. intros [= ->]. exists k. split.
  - apply last_Some in Hl as [l' Hl]. assert (In (k, v) (List.filter (λ m, same_name fold name (fst m)) members)) as Hf.
    { rewrite Hl. apply in_or_app. right. by left. }
    by apply filter_In in Hf as [_ Hf].
  - apply (last_wins_last (same_name fold name)). rewrite filter_value_members. unfold value_members. rewrite fmap_last, Hl. done.
Qed.

(** A call by the last members is seen in the value. *)
Lemma last_call_seen fold t :
  calls_tool fold false t → ∃ members, value_of t = JObject members ∧
    (is_case_ambiguous_tools_call members = true ∨ mentions_tools_call (JObject members) = true).
Proof.
  destruct t as [| | | | |members]; try done. intros Hc. exists (last_wins (value_members members)). split; [done|].
  pose proof (peer_last_value _ _ _ _ Hc) as (k & Hk & Hin). cbn in Hin.
  assert (existsb (λ m, String.eqb (fold_key (fst m)) "method" && bool_decide (as_str (snd m) = Some MCP_TOOLS_CALL_METHOD))
            (last_wins (value_members members)) = true ∨ k = "method") as Hnames.
  { destruct fold; [|right; by apply String.eqb_eq]. left. apply existsb_exists. exists (k, JString MCP_TOOLS_CALL_METHOD).
    split; [by apply list_elem_of_In|]. cbn. unfold same_name in Hk. rewrite Hk. done. }
  destruct (String.eqb_spec k "method") as [->|Hne].
  - right. unfold mentions_tools_call. by rewrite (last_wins_get _ _ _ Hin).
  - left. destruct Hnames as [Hnames|]; [|done]. unfold is_case_ambiguous_tools_call. rewrite Hnames. cbn [negb].
    assert (existsb (λ m, existsb (is_inexact_spelling (fst m)) ["jsonrpc"; "method"; "params"; "id"]) (last_wins (value_members members)) = true) as ->.
    { apply existsb_exists. exists (k, JString MCP_TOOLS_CALL_METHOD). split; [by apply list_elem_of_In|]. apply existsb_exists.
      exists "method". split; [right; by left|]. unfold is_inexact_spelling. cbn [fst]. destruct fold; [|by apply String.eqb_eq in Hk].
      unfold same_name in Hk. rewrite Hk. by destruct (String.eqb_spec k "method"). }
    by rewrite orb_true_r.
Qed.

Lemma peer_field_in fold first name members v : peer_field fold first name members = Some v → ∃ k, (k, v) ∈ members.
Proof.
  unfold peer_field. set (found := List.filter _ members). intros Hf.
  assert (∃ k, In (k, v) found) as [k Hin].
  { destruct first; [destruct found as [|[k w] found']; [done|]; injection Hf as ->; exists k; by left|].
    destruct (last found) as [[k w]|] eqn:Hl; [|done]. injection Hf as ->. apply last_Some in Hl as [l' ->]. exists k.
    apply in_or_app. right. by left. }
  exists k. apply filter_In in Hin as [Hin _]. by apply list_elem_of_In.
Qed.

Lemma call_string fold first t : calls_tool fold first t → MCP_TOOLS_CALL_METHOD ∈ strings t.
Proof.
  destruct t as [| | | | |members]; try done. intros [k Hin]%peer_field_in. cbn [strings]. apply list_elem_of_join.
  exists (k :: strings (JString MCP_TOOLS_CALL_METHOD)). split; [right; by left|].
  apply list_elem_of_fmap. exists (k, JString MCP_TOOLS_CALL_METHOD). by split.
Qed.

Lemma run_string fold first t : runs_tool fold first t → MCP_TOOLS_CALL_METHOD ∈ strings t.
Proof.
  intros [Hc|Hb]; [by eapply call_string|]. destruct t as [| | | |items|]; try done. destruct Hb as (i & Hi & Hc).
  cbn [strings]. apply list_elem_of_join. exists (strings i). split; [by eapply call_string|]. apply list_elem_of_fmap. by exists i.
Qed.

Lemma run_shape fold first t : runs_tool fold first t → match t with JArray _ | JObject _ => True | _ => False end.
Proof. by destruct t; intros [|]. Qed.

(** A repeated member has no derived reading. *)
Lemma repeated_method members v w rest :
  List.filter (λ m, String.eqb (fst m) "method") members = v :: w :: rest → envelope_of (JObject members) = None.
Proof. intros Hf. cbn [envelope_of]. unfold read_field at 2. rewrite Hf. by destruct (read_field _ _ "jsonrpc" _). Qed.

(** ** What is judged is what runs *)

Lemma last_wins_covers {A} (l : list (string * A)) k : In k (map fst l) → ∃ w, (k, w) ∈ last_wins l.
Proof.
  induction l as [|[k0 v0] l IH]; [done|]. cbn [map fst last_wins]. intros Hin. destruct (existsb _ l) eqn:Hex.
  - destruct Hin as [->|Hin]; [|by apply IH]. apply IH. apply existsb_exists in Hex as ([k1 v1] & Hin & Heq).
    apply String.eqb_eq in Heq. cbn in Heq. subst k1. apply in_map_iff. by exists (k, v1).
  - destruct Hin as [->|Hin]; [exists v0; by left|]. apply IH in Hin as [w Hw]. exists w. by right.
Qed.

(** Where no name is spelled inexactly, folding changes nothing. *)
Lemma exact_names names members n fold :
  existsb (λ m, existsb (is_inexact_spelling (fst m)) names) (last_wins (value_members members)) = false →
  In n names → fold_key n = n →
  List.filter (λ m, same_name fold n (fst m)) members = List.filter (λ m, String.eqb (fst m) n) members.
Proof.
  intros Hx Hn Hf. apply filter_ext_in. intros [k w] Hin. cbn [fst]. unfold same_name. destruct fold; [|done].
  destruct (String.eqb_spec k n) as [->|Hne]; [rewrite Hf; apply String.eqb_refl|]. destruct (String.eqb_spec (fold_key k) n) as [Hk|]; [|done].
  exfalso. assert (In k (map fst (value_members members))) as Hk'.
  { unfold value_members. rewrite map_map. apply in_map_iff. by exists (k, w). }
  apply last_wins_covers in Hk' as [w' Hw].
  assert (existsb (λ m, existsb (is_inexact_spelling (fst m)) names) (last_wins (value_members members)) = true) as Hy; [|congruence].
  apply existsb_exists. exists (k, w'). split; [by apply list_elem_of_In|]. apply existsb_exists. exists n. split; [done|].
  unfold is_inexact_spelling. cbn [fst]. destruct (String.eqb_spec k n); [done|]. by rewrite Hk, String.eqb_refl.
Qed.

Lemma read_field_found {A} (read : Json → option A) missing name members x :
  read_field read missing name members = Some x →
  List.filter (λ m, String.eqb (fst m) name) members = [] ∧ x = missing ∨
  ∃ k v, List.filter (λ m, String.eqb (fst m) name) members = [(k, v)] ∧ read v = Some x.
Proof.
  unfold read_field. destruct (List.filter _ members) as [|[k v] [|? ?]]; [intros [= <-]; by left| |done]. intros Hr. right. by exists k, v.
Qed.

Lemma peer_field_one fold first name members k v :
  List.filter (λ m, same_name fold name (fst m)) members = [(k, v)] → peer_field fold first name members = Some v.
Proof. unfold peer_field. intros ->. by destruct first. Qed.

Lemma peer_field_none fold first name members :
  List.filter (λ m, same_name fold name (fst m)) members = [] → peer_field fold first name members = None.
Proof. unfold peer_field. intros ->. by destruct first. Qed.

(** The call as a peer reads it from the members of the request. *)
Definition reads_call (fold first : bool) (members : list (string * Json)) (call : McpToolCall) : Prop :=
  peer_field fold first "method" members = Some (JString MCP_TOOLS_CALL_METHOD) ∧
  ∃ params, peer_field fold first "params" members = Some params ∧
    match params with
    | JObject q =>
        peer_field fold first "name" q = Some (JString (tool_name call)) ∧
        match peer_field fold first "arguments" q with
        | Some a => value_of a = arguments call
        | None => arguments call = JNull
        end
    | JArray items => head items = Some (JString (tool_name call)) ∧
                      arguments call = from_option value_of JNull (items !! 1%nat)
    | _ => False
    end.

Lemma params_read fold first q ps name :
  params_of (JObject q) = Some ps → pm_name ps = Some name →
  existsb (λ m, existsb (is_inexact_spelling (fst m)) ["name"; "arguments"]) (last_wins (value_members q)) = false →
  peer_field fold first "name" q = Some (JString name) ∧
  match peer_field fold first "arguments" q with Some a => value_of a = pm_arguments ps | None => pm_arguments ps = JNull end.
Proof.
  cbn [params_of]. destruct (read_field read_opt_string _ "name" q) as [n|] eqn:Hn; [|done].
  destruct (read_field (Some ∘ value_of) _ "arguments" q) as [a|] eqn:Ha; [|done]. intros [= <-]. cbn [pm_name pm_arguments]. intros -> Hx.
  assert (∀ x, In x ["name"; "arguments"] → List.filter (λ m, same_name fold x (fst m)) q = List.filter (λ m, String.eqb (fst m) x) q) as Hex.
  { intros x Hin. eapply exact_names; [exact Hx|done|]. by destruct Hin as [<-|[<-|[]]]. }
  split.
  - apply read_field_found in Hn as [[_ ?]|(k & v & Hf & Hr)]; [done|]. rewrite <-Hex in Hf by (by left).
    rewrite (peer_field_one _ _ _ _ _ _ Hf). destruct v; try done. by injection Hr as ->.
  - apply read_field_found in Ha as [[Hf ->]|(k & v & Hf & Hr)]; rewrite <-Hex in Hf by (right; by left).
    + by rewrite (peer_field_none _ _ _ _ Hf).
    + rewrite (peer_field_one _ _ _ _ _ _ Hf). by injection Hr as ->.
Qed.

Section Gate.
Context {SD : Serde} {SL : SerdeLaws SD}.

Lemma enforceable_not_run body t :
  json_document (lenient_json_text body) = Some t → is_unenforceable_tool_call body = false →
  (∀ fold, ¬ runs_tool fold false t) ∧ match t with JObject _ => ¬ runs_tool false true t | _ => True end.
Proof.
  intros Hd Hu. unfold is_unenforceable_tool_call in Hu.
  assert (∀ fold first, runs_tool fold first t → has_tools_call_token (lenient_json_text body) = true) as Htok.
  { intros fold first Hr%run_string. apply token_found. by eapply document_spelled. }
  destruct (from_str_value (lenient_json_text body)) as [value|] eqn:Hv.
  - pose proof Hv as (t' & Ht' & ->)%value_is_document. rewrite Hd in Ht'. injection Ht' as <-.
    destruct (has_case_ambiguity (value_of t)) eqn:Hamb; [done|].
    destruct (match value_of t with JArray items => _ | JObject _ => _ | _ => _ end) eqn:Hm; [done|]. split.
    + intros fold [Hc|Hb].
      * apply last_call_seen in Hc as (members & Hval & Hseen). rewrite Hval in Hamb, Hm. cbn in Hamb.
        destruct Hseen; congruence.
      * destruct t as [| | | |items|]; try done. destruct Hb as (i & Hi & Hc).
        apply last_call_seen in Hc as (members & Hval & Hseen). cbn [value_of has_case_ambiguity] in Hamb, Hm.
        assert (In (JObject members) (map value_of items)) as Hin by (rewrite <-Hval; apply in_map; by apply list_elem_of_In).
        destruct Hseen as [Hs|Hs].
        -- assert (existsb (λ i, match i with JObject members => is_case_ambiguous_tools_call members | _ => false end) (map value_of items) = true) as Hx;
             [|congruence]. apply existsb_exists. by exists (JObject members).
        -- assert (existsb mentions_tools_call (map value_of items) = true) as Hx; [|congruence].
           apply existsb_exists. by exists (JObject members).
    + destruct t as [| | | | |members]; try done. intros Hr. pose proof (Htok _ _ Hr) as Ht. destruct Hr as [Hc|[]].
      cbn [value_of] in Hu. rewrite Ht, andb_true_r in Hu. cbn [andb] in Hu.
      destruct (from_str_envelope _) as [e|] eqn:He; [|done].
      pose proof He as (t' & Ht' & Hof)%envelope_is_document. rewrite Hd in Ht'. injection Ht' as <-.
      unfold calls_tool, peer_field in Hc. cbn [value_of] in Hm. unfold mentions_tools_call in Hm.
      change (map (λ m, (fst m, value_of (snd m))) members) with (value_members members) in Hm. rewrite get_last_wins in Hm.
      rewrite (filter_value_members (λ k, String.eqb k "method")) in Hm.
      change (List.filter (λ m, same_name false "method" (fst m)) members) with (List.filter (λ m, String.eqb (fst m) "method") members) in Hc.
      destruct (List.filter (λ m, String.eqb (fst m) "method") members) as [|m1 [|m2 found]] eqn:Hf; [done| |].
      * injection Hc as Hc. cbn in Hm. rewrite Hc in Hm. done.
      * by rewrite (repeated_method _ _ _ _ Hf) in Hof.
  - assert (∀ fold first, ¬ runs_tool fold first t) as Hno.
    { intros fold first Hr. pose proof (run_shape _ _ _ Hr) as Hs. pose proof (document_begins _ _ Hd) as Hb.
      rewrite (Htok _ _ Hr), andb_true_r in Hu. destruct t; try done; congruence. }
    split; [intros fold; apply Hno|]. destruct t; try done.
Qed.
Lemma parsed_call_read body call v members :
  from_str_value (lenient_json_text body) = Some v → json_document (lenient_json_text body) = Some (JObject members) →
  parse_mcp_request body = Some call → ∀ fold first, reads_call fold first members call.
Proof.
  intros Hv Hd Hp fold first. unfold parse_mcp_request in Hp. rewrite Hv in Hp.
  apply value_is_document in Hv as (t & Ht & ->). rewrite Hd in Ht. injection Ht as <-.
  destruct (has_case_ambiguity _) eqn:Hamb; [done|]. destruct (from_str_envelope _) as [e|] eqn:He; [|done].
  apply envelope_is_document in He as (t & Ht & He). rewrite Hd in Ht. injection Ht as <-. cbn [envelope_of] in He.
  destruct (read_field read_opt_string None "jsonrpc" members) as [j|]; [|done].
  destruct (read_field read_opt_string None "method" members) as [m|] eqn:Hm; [|done].
  destruct (read_field read_opt_params None "params" members) as [p|] eqn:Hpar; [|done]. injection He as <-.
  cbn [ev_jsonrpc ev_method ev_params] in Hp. destruct (bool_decide (j = _)); [|done]. cbn [negb] in Hp.
  destruct (bool_decide (m = _)) eqn:Hmeth; [|done]. apply bool_decide_eq_true in Hmeth as ->. cbn [negb] in Hp.
  destruct p as [ps|]; [|done]. destruct (pm_name ps) as [name|] eqn:Hname; [|done]. injection Hp as <-.
  cbn [value_of has_case_ambiguity] in Hamb. fold (value_members members) in Hamb. unfold is_case_ambiguous_tools_call in Hamb.
  apply read_field_found in Hm as [[_ ?]|(k & mv & Hmf & Hmr)]; [done|]. destruct mv; try done. injection Hmr as ->.
  apply read_field_found in Hpar as [[_ ?]|(k' & pv & Hpf & Hpr)]; [done|].
  assert (∀ k w x, List.filter (λ m, String.eqb (fst m) x) members = [(k, w)] → k = x ∧ (x, value_of w) ∈ last_wins (value_members members)) as Hlast.
  { intros k0 w x Hf. assert (k0 = x) as ->.
    { assert (In (k0, w) (List.filter (λ m, String.eqb (fst m) x) members)) as Hi by (rewrite Hf; by left).
      apply filter_In in Hi as [_ Hi]. by apply String.eqb_eq. }
    split; [done|]. apply (last_wins_last (λ k, String.eqb k x)). rewrite (filter_value_members (λ k, String.eqb k x)), Hf. done. }
  destruct (Hlast _ _ _ Hmf) as [-> Hmin]. destruct (Hlast _ _ _ Hpf) as [-> Hpin].
  assert (existsb (λ m, String.eqb (fold_key (fst m)) "method" && bool_decide (as_str (snd m) = Some MCP_TOOLS_CALL_METHOD))
            (last_wins (value_members members)) = true) as Hnames.
  { apply existsb_exists. eexists. split; [by apply list_elem_of_In, Hmin|done]. }
  rewrite Hnames in Hamb. cbn [negb] in Hamb. destruct (has_fold_collision _ || _) eqn:Htop in Hamb; [done|].
  apply orb_false_iff in Htop as [_ Htop]. split.
  - eapply (peer_field_one _ _ _ _ "method"). erewrite exact_names; [exact Hmf|exact Htop|right; by left|done].
  - exists pv. split; [eapply (peer_field_one _ _ _ _ "params"); erewrite exact_names; [exact Hpf|exact Htop|right; right; by left|done]|].
    cbn [tool_name arguments]. destruct pv as [| | | |items|q]; cbn in Hpr; try done.
    + destruct items as [|n [|a [|]]]; try done; destruct (read_opt_string n) as [n'|] eqn:Hn; try done; injection Hpr as <-;
        cbn in Hname; subst n'; destruct n; try done; injection Hn as ->; by split.
    + destruct (params_of (JObject q)) as [ps'|] eqn:Hps; [|cbn in Hps; by rewrite Hps in Hpr]. cbn in Hps. rewrite Hps in Hpr. injection Hpr as ->.
      eapply params_read; [exact Hps|done|].
      destruct (existsb (λ m, existsb (is_inexact_spelling (fst m)) ["name"; "arguments"]) (last_wins (value_members q))) eqn:Hq; [|done].
      exfalso. revert Hamb. apply not_false_iff_true, existsb_exists. eexists. split; [by apply list_elem_of_In, Hpin|].
      cbn [fst snd value_of]. fold (value_members q). by rewrite Hq, orb_true_r.
Qed.
End Gate.

Section Evaluate.
Context {DT : Detectors} {IF : Inflate} {SD : Serde} {SL : SerdeLaws SD} {N : Net} {GW : McpGateway}.
Context (config : ProxyConfig) (connected : bool) (scanner : Scanner).

(** A body that is one object, and that a value can hold, is read as this call by every peer. *)
Definition read_alike (req : HttpRequest) (call : McpToolCall) : Prop :=
  ∃ decoded, decoded_body req = Some decoded ∧
    ∀ v members, from_str_value (lenient_json_text decoded) = Some v →
      json_document (lenient_json_text decoded) = Some (JObject members) →
      ∀ fold first, reads_call fold first members call.

(** What the judgement of a request means for the peer that will get it. *)
Definition judged_exchange (req : HttpRequest) (host : string) (outcome : McpEvalOutcome) : Prop :=
  let url := String.append "https://" (as_bytes (String.append host (rq_target req))) in
  match outcome with
  | McpForward call args =>
      ∃ r, connected = true ∧
        check_tool_call {| tc_agent_id := "aa-proxy"; tc_tool_name := tool_name call; tc_tool_source := "mcp";
                           tc_args_json := args; tc_target_url := url |} = Rpc.Answered r ∧ cr_decision r = 1 ∧
        args = to_vec (arguments call) ∧ read_alike req call
  | McpForwardUnevaluated call args =>
      mcp_fail_open config = true ∧ args = to_vec (arguments call) ∧ read_alike req call ∧
      (connected = false ∨ ∀ r, check_tool_call (build_check_action_request call url) ≠ Rpc.Answered r)
  | McpForwardResponseOnly _ | McpSkip =>
      ∃ decoded, decoded_body req = Some decoded ∧
        ∀ t, json_document (lenient_json_text decoded) = Some t →
          (∀ fold, ¬ runs_tool fold false t) ∧ match t with JObject _ => ¬ runs_tool false true t | _ => True end
  | McpDeny _ => True
  end.

Lemma other_judged req host decoded :
  decoded_body req = Some decoded → judged_exchange req host (fst (evaluate_other scanner req decoded)).
Proof.
  intros Hd. unfold evaluate_other. destruct (is_unenforceable_tool_call decoded) eqn:Hu; [done|]. cbn [w_ret fst].
  assert (∃ d, decoded_body req = Some d ∧ ∀ t, json_document (lenient_json_text d) = Some t →
            (∀ fold, ¬ runs_tool fold false t) ∧ match t with JObject _ => ¬ runs_tool false true t | _ => True end) as Hj.
  { exists decoded. split; [done|]. intros t Ht. by apply (enforceable_not_run decoded). }
  by destruct (classify_mcp_exchange decoded), (has_mcp_header req).
Qed.

Lemma evaluation_judged req host :
  judged_exchange req host (fst (evaluate_mcp_request config connected scanner req host)).
Proof.
  unfold evaluate_mcp_request. destruct (decoded_body req) as [decoded|] eqn:Hd; [|done].
  destruct (request_encoding_hazard _ _ _); [done|]. destruct (parse_mcp_request decoded) as [call|] eqn:Hp; [|by apply other_judged].
  assert (read_alike req call) as Hread.
  { exists decoded. split; [done|]. intros v members Hv Ht. by eapply parsed_call_read. }
  destruct (has_reserved_label_prefix _); [done|]. unfold evaluate_call.
  destruct connected eqn:Hc; [|cbn; destruct (mcp_fail_open config) eqn:Hf; [|done]; cbn; split_and!; [done..|by left]].
  destruct (evaluate_mcp_call call _) as [[| |]|contended] eqn:He; try done.
  - cbn. unfold evaluate_mcp_call in He. destruct (check_tool_call _) as [| |r] eqn:Hr; try done. injection He as He.
    exists r. split_and!; [done..| |done|done].
    unfold mcp_decision_from_response in He. destruct (Z.eqb_spec (cr_decision r) 1); [done|].
    by destruct (cr_decision r =? 2), (cr_decision r =? 4), (cr_decision r =? 3).
  - destruct (mcp_fail_open config) eqn:Hf; [|done]. cbn [w_ret fst judged_exchange]. split_and!; [done..|]. right. intros r Hr.
    unfold evaluate_mcp_call in He. by rewrite Hr in He.
Qed.
End Evaluate.

(** ** A reader of some documents *)

Definition quote_text (s : string) : string := String quote_c (String.append s (String quote_c EmptyString)).

Fixpoint render (t : Json) : string :=
  match t with
  | JNull => "null"
  | JBool b => if b then "true" else "false"
  | JNumber n => n
  | JString s => quote_text s
  | JArray items => String "[" (String.append (join "," (map render items)) "]")
  | JObject members =>
      String "{" (String.append (join "," (map (λ m, String.append (quote_text (fst m)) (String ":" (render (snd m)))) members)) "}")
  end.

(** No quotes and escapes in strings, no quotes in numbers. *)
Definition clean_text (s : string) : bool := lacks quote_c s && lacks backslash_c s.

Fixpoint clean_json (t : Json) : bool :=
  match t with
  | JNumber n => lacks quote_c n
  | JString s => clean_text s
  | JArray items => forallb clean_json items
  | JObject members => forallb (λ m, clean_text (fst m) && clean_json (snd m)) members
  | _ => true
  end.

Lemma lacks_first sep c s : lacks sep (String c s) = true → c ≠ sep ∧ lacks sep s = true.
Proof.
  unfold lacks. cbn [str_forallb]. intros [Hc Hs]%andb_true_iff. split; [|done]. intros ->. by destruct (ascii_dec sep sep).
Qed.

Lemma clean_spells s : clean_text s = true → spells s s.
Proof.
  unfold clean_text. induction s as [|c s IH]; [constructor|]. intros [Hq Hb]%andb_true_iff.
  apply lacks_first in Hq as [? Hq], Hb as [? Hb]. constructor; [done..|]. apply IH. by rewrite Hq, Hb.
Qed.

Lemma outside_plain s : lacks quote_c s = true → outside s.
Proof. induction s as [|c s IH]; [constructor|]. intros [? ?]%lacks_first. constructor; auto. Qed.

Lemma outside_app a b : outside a → outside b → outside (String.append a b).
Proof.
  induction 1 as [|c pre Hc Ho IH|raw s pre Hs Ho IH]; intros Hb; [done|by constructor; auto|].
  cbn [String.append]. rewrite append_assoc. cbn [String.append]. econstructor; [exact Hs|auto].
Qed.

Lemma outside_quote s : clean_text s = true → outside (quote_text s).
Proof. intros Hs. unfold quote_text. eapply (Outside_token _ s); [by apply clean_spells|constructor]. Qed.

Lemma token_app s a b pre : outside pre → token_in s a → token_in s (String.append pre (String.append a b)).
Proof.
  intros Hp (p & raw & post & -> & Ho & Hs). exists (String.append pre p), raw, (String.append post b).
  split_and!; [|by apply outside_app|done]. rewrite !append_assoc. cbn [String.append]. by rewrite append_assoc.
Qed.

Lemma token_quote s : clean_text s = true → token_in s (quote_text s).
Proof. intros Hs. exists EmptyString, s, EmptyString. split_and!; [done|constructor|by apply clean_spells]. Qed.

(** A separated list of pieces that are each outside of tokens at their end. *)
Lemma outside_join parts : Forall outside parts → outside (join "," parts).
Proof.
  induction 1 as [|a parts Ha Hf IH]; [constructor|]. destruct parts as [|b parts]; [done|]. cbn [join].
  apply outside_app; [done|]. cbn [String.append]. constructor; [done|exact IH].
Qed.

Lemma token_join s parts : Forall outside parts → Exists (token_in s) parts → token_in s (join "," parts).
Proof.
  induction 1 as [|a parts Ha Hf IH]; intros He; [by inversion He|]. inversion He as [? ? Ht|? ? Ht]; subst.
  - destruct parts as [|b parts]; [done|]. cbn [join]. by apply (token_app s a _ EmptyString (Outside_end)).
  - destruct parts as [|b parts]; [by inversion Ht|]. cbn [join]. specialize (IH Ht).
    pose proof (token_app s (join "," (b :: parts)) EmptyString (String.append a ",")) as Htok.
    rewrite append_nil_r, append_assoc in Htok. apply Htok; [|done]. apply outside_app; [done|by apply outside_plain].
Qed.

(** Induction on documents through their lists. *)
Section JsonInd.
Context (P : Json → Prop).
Context (Hleaf : ∀ t, match t with JArray _ | JObject _ => False | _ => True end → P t).
Context (Harray : ∀ items, Forall P items → P (JArray items)).
Context (Hobject : ∀ members, Forall (λ m, P (snd m)) members → P (JObject members)).

Lemma json_induction t : P t.
Proof.
  revert t. fix IH 1. intros t. destruct t as [|b|n|s|items|members]; try (by apply Hleaf).
  - apply Harray. induction items as [|i items IHl]; constructor; [apply IH|exact IHl].
  - apply Hobject. induction members as [|m members IHl]; constructor; [apply IH|exact IHl].
Qed.
End JsonInd.

Lemma render_outside t : clean_json t = true → outside (render t).
Proof.
  induction t as [t Ht|items IH|members IH] using json_induction; cbn [clean_json render]; intros Hc.
  - destruct t; try done; cbn [render]; [by apply outside_plain|by destruct b; apply outside_plain|by apply outside_plain|by apply outside_quote].
  - constructor; [done|]. apply outside_app; [|by apply outside_plain]. apply outside_join, Forall_map.
    rewrite forallb_forall in Hc. apply Forall_forall. intros i Hi. rewrite Forall_forall in IH. apply IH; [done|]. by apply Hc, list_elem_of_In.
  - constructor; [done|]. apply outside_app; [|by apply outside_plain]. apply outside_join, Forall_map.
    rewrite forallb_forall in Hc. apply Forall_forall. intros m Hm. rewrite Forall_forall in IH.
    specialize (Hc m ltac:(by apply list_elem_of_In)). apply andb_true_iff in Hc as [Hk Hv].
    apply outside_app; [by apply outside_quote|]. constructor; [done|by apply IH].
Qed.

Lemma render_tokens t s : clean_json t = true → s ∈ strings t → token_in s (render t).
Proof.
  revert s. induction t as [t Ht|items IH|members IH] using json_induction; cbn [clean_json render strings]; intros s Hc Hs.
  - destruct t; try done; try (by apply not_elem_of_nil in Hs). apply list_elem_of_singleton in Hs as ->. by apply token_quote.
  - apply list_elem_of_join in Hs as (l & Hl & Hin). apply list_elem_of_fmap in Hin as (i & -> & Hi).
    rewrite forallb_forall in Hc. rewrite Forall_forall in IH.
    apply (token_app s (join "," (map render items)) "]" "["); [by apply outside_plain|]. apply token_join.
    + apply Forall_map, Forall_forall. intros x Hx. by apply render_outside, Hc, list_elem_of_In.
    + apply Exists_exists. exists (render i). split; [apply list_elem_of_fmap; by exists i|]. apply IH; [done| |done]. by apply Hc, list_elem_of_In.
  - apply list_elem_of_join in Hs as (l & Hl & Hin). apply list_elem_of_fmap in Hin as (m & -> & Hm).
    rewrite forallb_forall in Hc. rewrite Forall_forall in IH.
    assert (∀ x, x ∈ members → clean_text (fst x) = true ∧ clean_json (snd x) = true) as Hclean.
    { intros x Hx. specialize (Hc x ltac:(by apply list_elem_of_In)). by apply andb_true_iff in Hc. }
    match goal with |- token_in s (String "{" (String.append (join "," ?parts) "}")) =>
      apply (token_app s (join "," parts) "}" "{"); [by apply outside_plain|]; apply token_join end.
    + apply Forall_map, Forall_forall. intros x Hx. destruct (Hclean x Hx) as [Hk Hv].
      apply outside_app; [by apply outside_quote|]. constructor; [done|by apply render_outside].
    + apply Exists_exists. eexists. split; [apply list_elem_of_fmap; by exists m|]. destruct (Hclean m Hm) as [Hk Hv].
      apply elem_of_cons in Hl as [->|Hl].
      * apply (token_app (fst m) (quote_text (fst m)) _ EmptyString); [constructor|by apply token_quote].
      * pose proof (token_app s (render (snd m)) EmptyString (String.append (quote_text (fst m)) ":")) as Htok.
        rewrite append_nil_r, append_assoc in Htok. apply Htok; [|by apply IH].
        apply outside_app; [by apply outside_quote|by apply outside_plain].
Qed.

Definition str (name value : string) : string * Json := (name, JString value).

Definition call_members (params : list (string * Json)) : list (string * Json) :=
  [str "jsonrpc" "2.0"; str "method" "tools/call"; ("params", JObject params)].

Definition read_call : Json := JObject (call_members [str "name" "read_file"; ("arguments", JObject [str "path" "/tmp"])]).
Definition list_request : Json := JObject [str "jsonrpc" "2.0"; str "method" "tools/list"].

(** A batch whose third element fits the parameters of a call, with its method twice. *)
Definition shadowed_batch : Json := JArray [JNull; JNull; JObject [str "method" "tools/call"; str "method" "ping"]].

(** A capital and a repetition. *)
Definition shadowed_fold : Json := JObject [str "Method" "tools/call"; str "Method" "ping"].

(** An array that is an envelope by its fields and a batch with another call. *)
Definition positional : Json :=
  JArray [JString "2.0"; JString "tools/call";
          JObject (call_members [str "name" "delete_all"] ++ [str "name" "read_file"])].

(** An argument twice. *)
Definition shadowed_argument : Json :=
  JObject (call_members [str "name" "read_file"; ("arguments", JObject [str "path" "/etc/passwd"; str "path" "/tmp"])]).

(** A number no value can hold, in a member that is skipped, beside two names. *)
Definition huge_number : Json :=
  JObject (call_members [str "name" "read_file"; str "Name" "delete_all"] ++ [("x", JNumber "1e400")]).

Definition documents : list Json :=
  [read_call; list_request; shadowed_batch; shadowed_fold; positional; shadowed_argument; huge_number].

Fixpoint finite (t : Json) : bool :=
  match t with
  | JNumber n => negb (String.eqb n "1e400")
  | JArray items => forallb finite items
  | JObject members => forallb (λ m, finite (snd m)) members
  | _ => true
  end.

Definition sample_document (text : string) : option Json := List.find (λ t, String.eqb (render t) text) documents.

#[local] Instance sample_serde : Serde := {|
  json_document := sample_document;
  from_str_value text := match sample_document text with Some t => if finite t then Some (value_of t) else None | None => None end;
  from_str_envelope text := match sample_document text with Some t => envelope_of t | None => None end;
  to_vec := render;
  to_json_string := quote_text;
|}.

Lemma sample_document_spec text t :
  sample_document text = Some t → text = render t ∧ clean_json t = true ∧
    match t with JArray _ | JObject _ => looks_like_json_document (render t) = true | _ => True end.
Proof.
  unfold sample_document. intros [Hin Heq]%find_some. apply String.eqb_eq in Heq as <-. split; [done|]. revert Hin. clear. intros Hin.
  repeat (destruct Hin as [<-|Hin]; [by vm_compute|]). done.
Qed.

#[local] Instance sample_serde_laws : SerdeLaws sample_serde.
Proof.
  split; cbn [from_str_value json_document from_str_envelope sample_serde].
  - intros text v. destruct (sample_document text) as [t|]; [|done]. destruct (finite t); [|done]. intros [= <-]. by exists t.
  - intros text e. destruct (sample_document text) as [t|]; [|done]. intros He. by exists t.
  - intros text v t e _ -> He. done.
  - intros text t (-> & _ & Hl)%sample_document_spec. done.
  - intros text t s (-> & Hc & _)%sample_document_spec Hs. by apply render_tokens.
Qed.

#[local] Instance sample_detectors : Detectors := {|
  scanner_scan _ := []; regex := string; regex_new pattern := Some pattern; find_iter _ _ := []; zh_tw_scan _ := []; security_version := "1.0" |}.

#[local] Instance sample_inflate : Inflate := {| multi_gz _ := None; zlib _ := None; raw_deflate _ := None |}.

#[local] Instance sample_net : Net := {|
  lookup_host _ := None; check_action _ _ _ := None; debug_text s := s; code_text _ := "code";
  tcp_connect _ := true; tls_connect _ := true; chain_connect _ := true |}.

(** The gateway allows one tool. *)
#[local] Instance sample_gateway : McpGateway := {|
  check_tool_call c := Rpc.Answered (respond (if String.eqb (tc_tool_name c) "read_file" then 1 else 2) "not allowed");
  check_tool_result _ := Err None;
|}.

Definition sample_config : ProxyConfig := {|
  llm_only := false; mitm_hosts := []; denied_hosts := []; network_allowlist := []; credential_action := OnFinding.Block;
  upstream_override := None; gateway_endpoint := Some "http://gateway"; mcp_fail_open := false;
  network_fail_open := false; allow_private_connect_targets := false; cfg_agent_id := None |}.

Definition post (t : Json) : HttpRequest :=
  {| method := "POST"; rq_target := "/mcp"; version := "HTTP/1.1"; headers := [("Content-Type", "application/json")]; body := render t |}.

Definition evaluate (t : Json) : McpEvalOutcome := fst (evaluate_mcp_request sample_config true true (post t) "mcp.example").

(** ** Gaps *)

(** In a batch of three, a repeated method is not looked for: a peer that takes the first of
    repeated members runs a call that no one judged. *)
Lemma shadowed_batch_is_forwarded :
  runs_tool false true shadowed_batch ∧ ∃ call, evaluate shadowed_batch = McpForwardResponseOnly call.
Proof. split; [right; eexists; split; [right; right; by left|by vm_compute]|eexists; by vm_compute]. Qed.

(** Repeated and folded together, too. *)
Lemma shadowed_fold_is_forwarded : runs_tool true true shadowed_fold ∧ evaluate shadowed_fold = McpSkip.
Proof. split; [by left|by vm_compute]. Qed.

(** A batch that is also an envelope by the order of its elements is judged as one call, and
    carries another one. *)
Lemma positional_batch_is_misjudged :
  (∃ call args, evaluate positional = McpForward call args ∧ tool_name call = "read_file") ∧
  runs_tool false false positional ∧
  reads_call false false (call_members [str "name" "delete_all"] ++ [str "name" "read_file"]) {| tool_name := "delete_all"; arguments := JNull |}.
Proof.
  split; [eexists _, _; split; by vm_compute|]. split; [right; eexists; split; [right; right; by left|by vm_compute]|].
  split; [by vm_compute|]. eexists. split; by vm_compute.
Qed.

(** A repeated argument is judged by its last value. *)
Lemma shadowed_argument_is_judged_last :
  ∃ call args, evaluate shadowed_argument = McpForward call args ∧ arguments call = JObject [str "path" "/tmp"].
Proof. eexists _, _. split; by vm_compute. Qed.

(** When the value cannot be read and the envelope can, names are not compared: a peer that
    folds them runs a tool that was not judged. *)
Lemma huge_number_hides_folded_name :
  (∃ call args, evaluate huge_number = McpForward call args ∧ tool_name call = "read_file") ∧
  peer_field true false "name" [str "name" "read_file"; str "Name" "delete_all"] = Some (JString "delete_all").
Proof. split; [eexists _, _; split; by vm_compute|by vm_compute]. Qed.
