(* ===== verification/Proxy.v ===== *)
(** * Proxy: the handlers of a connection

    handle_connection, handle_connect_tunnel, handle_llm_mitm, handle_non_llm_mitm,
    transparent_tunnel and handle_plain_http of aa-proxy/src/proxy/mod.rs, with the dials and
    the records they make.  A handler is the sequence of its effects and its result; a write
    that fails ends it early, so what happens is then a prefix of that sequence.  The bytes
    of the client are one argument, the bytes inside the TLS tunnel another.  The response of
    an upstream is relayed as it is, or as relay_enforced_response of ResponseRelay does. *)

From stdpp Require Import base strings list gmap.
From Stdlib Require Import ZArith Lia Bool Ascii String.
From S2P Require Import Prelude.
From S2P Require Import Text.
From S2P Require Import EgressHost.
From S2P Require Import Findings.
From S2P Require Import Detection.
From S2P Require Import NetAddr.
From S2P Require Import HttpCodec.
From S2P Require Import Intercept.
From S2P Require Import JsonText.
From S2P Require Import Credentials.
From S2P Require Import ProxyEgress.
From S2P Require Import Mcp.

Open Scope Z_scope.
Open Scope aasm_scope.

#[local] Arguments ascii_dec : simpl never.

Module ProxyError.
Inductive t := Http (e : HttpError.t) | Config | Io | Tls.
End ProxyError.

(** ** Effects *)

Inductive Effect :=
| Audited (entry : ProxyAuditEntry)
| AuditDropped (entry : ProxyAuditEntry)
| PolicyEvent (host : string) (denied : bool)
| LlmEvent (pattern : Llm.LlmApiPattern) (request_method path : string)
| Connect (addrs : list SocketAddr)
| ConnectOverride (addr : SocketAddr)
| ConnectChained (route : ChainedRoute)
| SendUpstream (bytes : string)
| Reply (bytes : string)
| ReplyAdjudication (a : ProbeAdjudication)
| Tunnel (target : string)
| McpDecided (e : McpEvent)
| RelayResponse
| RelayEnforced (mcp_call : option (McpToolCall * string)) (source_url : string).

Definition Handler : Type := W Effect (result unit ProxyError.t).

Definition tell (e : Effect) : W Effect unit := (tt, [e]).

Definition finish : Handler := w_ret (Ok tt).
Definition fail (e : ProxyError.t) : Handler := w_ret (Err e).

(** The events of the judgement of an exchange. *)
Definition decided {A} (m : W McpEvent A) : W Effect A := (fst m, map McpDecided (snd m)).

(** The next step when the last one succeeded. *)
Definition w_and (m : Handler) (k : Handler) : Handler :=
  let* r := m in match r with Ok _ => k | Err e => fail e end.

Definition FORBIDDEN : string :=
  String.append "HTTP/1.1 403 Forbidden" (String.append CRLF (String.append "Content-Length: 0" (String.append CRLF CRLF))).

Definition ESTABLISHED : string := String.append "HTTP/1.1 200 Connection Established" (String.append CRLF CRLF).

Definition credential_revoked_body : string :=
  String.append "{" (String quote_c (String.append "error" (String quote_c (String.append ":"
    (String quote_c (String.append "credential_revoked" (String quote_c "}"))))))).

Definition credential_revoked_response : string :=
  String.append "HTTP/1.1 403 Forbidden" (String.append CRLF (String.append "Content-Type: application/json" (String.append CRLF
    (String.append "Content-Length: " (String.append (decimal (N.of_nat (String.length credential_revoked_body)))
      (String.append CRLF (String.append "Connection: close" (String.append CRLF (String.append CRLF credential_revoked_body))))))))).

(** ** The server *)

Record ProxyServer := {
  ps_config : ProxyConfig;
  ps_scanner : Scanner;
  (** The channel of the records, if there is one, and whether it takes an entry. *)
  ps_audit_sink : option (ProxyAuditEntry → bool);
  ps_connected : bool;
  ps_credentials : gmap string Entry;
  ps_chained : option ChainedUpstreamConfig;
}.

Record RequestIdentity := { id_host : string; id_method : string; id_target : string }.

Section Server.
Context {DT : Detectors} {IF : Inflate} {SD : Serde} {N : Net} {GW : McpGateway}.
Context (client_tls : string → bool).
Context (now_ms now : Z).
Context (server : ProxyServer).

Let config := ps_config server.

(** ** Records *)

(** [try_send]: an entry that a full or closed channel does not take is dropped and counted. *)
Definition try_send (accepts : ProxyAuditEntry → bool) (entry : ProxyAuditEntry) : Effect :=
  if accepts entry then Audited entry else AuditDropped entry.

Definition send_record (r : DecisionRecord) (execution : ExecutionEvidence) : W Effect unit :=
  match ps_audit_sink server with
  | None => w_ret tt
  | Some accepts => tell (try_send accepts (entry_of now_ms r execution))
  end.

Definition emit_rule_refusal (id : RequestIdentity) (rule : Rule.RefusalRule) (probe : option string) : W Effect unit :=
  send_record {|
    dr_agent_id := cfg_agent_id config; dr_host := id_host id; dr_method := id_method id;
    dr_path := redact_target (ps_scanner server) (id_target id); dr_decision := Audit.Blocked;
    dr_refusal_rule := Some rule; dr_findings := []; dr_redacted_body := None; dr_probe_correlation := probe |}
    not_forwarded_by_rule.

Definition decision_record (id : RequestIdentity) (v : InterceptVerdict) (decision : Audit.ProxyAuditDecision)
  (execution : ExecutionEvidence) (probe : option string) : DecisionRecord := {|
  dr_agent_id := cfg_agent_id config; dr_host := id_host id; dr_method := id_method id;
  dr_path := redact_target (ps_scanner server) (id_target id); dr_decision := decision; dr_refusal_rule := None;
  dr_findings := iv_findings v;
  dr_redacted_body := if decide (transmission execution = Sent.ForwardedCarryingSensitiveValue) then None
                      else option_map bound_persisted_body (iv_redacted_body v);
  dr_probe_correlation := probe |}.

Definition emit_audit_entry (id : RequestIdentity) (v : InterceptVerdict) (decision : Audit.ProxyAuditDecision)
  (execution : ExecutionEvidence) (probe : option string) : W Effect unit :=
  send_record (decision_record id v decision execution probe) execution.

Definition allowed_record (id : RequestIdentity) (probe : option string) : DecisionRecord := {|
  dr_agent_id := cfg_agent_id config; dr_host := id_host id; dr_method := id_method id;
  dr_path := redact_target (ps_scanner server) (id_target id); dr_decision := Audit.Allowed; dr_refusal_rule := None;
  dr_findings := []; dr_redacted_body := None; dr_probe_correlation := probe |}.

Definition forwarding_audit_decision (d : Verdict.VerdictDecision) : option Audit.ProxyAuditDecision :=
  match d with
  | Verdict.ForwardRedacted => Some Audit.ForwardedRedacted
  | Verdict.AlertAndForward => Some Audit.Forwarded
  | Verdict.Forward => Some Audit.Allowed
  | Verdict.Block => None
  end.

(** [ForwardObservation::persist]: the key to the wire is what follows. *)
Definition persist (evidence : ExecutionEvidence) (record : option DecisionRecord) : W Effect unit :=
  match record with Some r => send_record r evidence | None => w_ret tt end.

Definition record_forwarding (evidence : ExecutionEvidence) (id : RequestIdentity) (v : InterceptVerdict)
  (decision : option Audit.ProxyAuditDecision) (probe : option string) : W Effect unit :=
  persist evidence (option_map (λ d, decision_record id v d evidence probe) decision).

Definition probe_correlation (req : HttpRequest) : option string :=
  match header req PROBE_CORRELATION_HEADER with Some v => ProbeCorrelation_parse v | None => None end.

Definition probe_correlation_plain (lines : list string) : option string :=
  match plain_http_header_value lines PROBE_CORRELATION_HEADER with Some v => ProbeCorrelation_parse v | None => None end.

(** ** Dials *)

Definition connect_revalidated (target : string) : Handler :=
  match safe_addresses config target with
  | None => fail ProxyError.Config
  | Some safe => let* _ := tell (Connect safe) in if tcp_connect safe then finish else fail ProxyError.Io
  end.

Definition connect_override (addr : SocketAddr) : Handler :=
  let* _ := tell (ConnectOverride addr) in if tcp_connect [addr] then finish else fail ProxyError.Io.

Definition dial_upstream_tls (host target : string) (route : option ChainedRoute) : Handler :=
  w_and match route, upstream_override config with
        | Some r, _ => let* _ := tell (ConnectChained r) in if chain_connect r then finish else fail ProxyError.Config
        | None, Some addr => connect_override addr
        | None, None => connect_revalidated target
        end
    (if tls_connect host then finish else fail ProxyError.Tls).

Definition dial_upstream_plain (upstream_addr : string) : Handler :=
  match upstream_override config with
  | Some addr => connect_override addr
  | None => connect_revalidated upstream_addr
  end.

Definition transparent_tunnel (target : string) (route : option ChainedRoute) : Handler :=
  match route with
  | Some _ => fail ProxyError.Config
  | None =>
      let id := {| id_host := canonical_host target; id_method := "CONNECT"; id_target := target |} in
      let* _ := persist (forwarded Verdict.Forward (credential_action config) None) (Some (allowed_record id None)) in
      w_and match upstream_override config with Some addr => connect_override addr | None => connect_revalidated target end
        (let* _ := tell (Tunnel target) in finish)
  end.

(** ** Inside a tunnel *)

Definition in_tunnel_refusal (req : HttpRequest) (host : string) (reason : Deny.EgressDenyReason) : Handler :=
  let in_host := default host (effective_request_host req) in
  let* _ := tell (PolicyEvent in_host true) in
  let* _ := emit_rule_refusal {| id_host := in_host; id_method := method req; id_target := rq_target req |}
              (Deny.rule reason) (probe_correlation req) in
  let* _ := tell (Reply FORBIDDEN) in finish.

Definition request_id (host : string) (req : HttpRequest) : RequestIdentity :=
  {| id_host := host; id_method := method req; id_target := rq_target req |}.

Definition block_verdict_refusal (host : string) (req : HttpRequest) (v : InterceptVerdict) : Handler :=
  let* _ := emit_audit_entry (request_id host req) v Audit.Blocked
              (not_forwarded (iv_decision v) (credential_action config)) (probe_correlation req) in
  let* _ := tell (Reply FORBIDDEN) in finish.

Definition adjudicate_probe (host : string) (req : HttpRequest) (v : InterceptVerdict) (correlation : string) : Handler :=
  let clean bytes := forwarded_payload_is_clean (ps_scanner server) bytes in
  let '(audit_decision, forwarded_is_clean) :=
    match iv_decision v with
    | Verdict.Block => (Audit.Blocked, None)
    | Verdict.ForwardRedacted => (Audit.AnsweredLocally, clean (default (body req) (iv_redacted_body v)))
    | _ => (Audit.AnsweredLocally, clean (body req))
    end in
  let execution := probe_execution_evidence (credential_action config) v in
  let* _ := send_record (decision_record (request_id host req) v audit_decision execution (Some correlation)) execution in
  let* _ := tell (ReplyAdjudication (ProbeAdjudication_new correlation v forwarded_is_clean)) in finish.

Definition injected_auth (i : Injection) : option (string * string) :=
  match i with Inject name value => Some (name, value) | _ => None end.

Definition handle_llm_mitm (host target : string) (pattern : Llm.LlmApiPattern) (route : option ChainedRoute) (inner : string)
  : Handler :=
  match read_http_request inner with
  | Err e => fail (ProxyError.Http e)
  | Ok None => finish
  | Ok (Some (req, _)) =>
      match in_tunnel_deny_reason config (ps_connected server) req with
      | Some reason => in_tunnel_refusal req host reason
      | None =>
          let v := intercept_request (ps_scanner server) (body req) (content_encoding req) (credential_action config) in
          let* _ := if decide (pattern = Llm.Unknown) then w_ret tt else tell (LlmEvent pattern (method req) (rq_target req)) in
          match probe_correlation req with
          | Some correlation => adjudicate_probe host req v correlation
          | None =>
              if decide (iv_decision v = Verdict.Block) then block_verdict_refusal host req v
              else
                let injection := injection_for (ps_credentials server) now host in
                match injection with
                | Revoked =>
                    let* _ := emit_rule_refusal (request_id host req) Rule.CredentialRevoked (probe_correlation req) in
                    let* _ := tell (Reply credential_revoked_response) in finish
                | _ =>
                    let* _ := record_forwarding (observe_forwarding (ps_scanner server) (credential_action config) v)
                                (request_id host req) v (forwarding_audit_decision (iv_decision v)) (probe_correlation req) in
                    w_and (dial_upstream_tls host target route)
                      (let* _ := tell (SendUpstream (serialize_http_request_with_auth req (forward_body v (body req))
                                                       (injected_auth injection))) in
                       let* _ := tell RelayResponse in finish)
                end
          end
      end
  end.

(** How the response of an exchange is relayed. *)
Definition response_relay (enforcing : bool) (mcp_call : option (McpToolCall * string)) (host : string) (req : HttpRequest) : Effect :=
  if enforcing then RelayEnforced mcp_call (String.append "https://" (as_bytes (String.append host (rq_target req)))) else RelayResponse.

(** The part after the judgement of the exchange. *)
Definition non_llm_forward (relay : Effect) (host target : string) (route : option ChainedRoute) (req : HttpRequest) : Handler :=
  let v := intercept_request (ps_scanner server) (body req) (content_encoding req) (credential_action config) in
  if decide (iv_decision v = Verdict.Block) then block_verdict_refusal host req v
  else
    let* _ := record_forwarding (observe_forwarding (ps_scanner server) (credential_action config) v)
                (request_id host req) v (forwarding_audit_decision (iv_decision v)) (probe_correlation req) in
    w_and (dial_upstream_tls host target route)
      (let* _ := tell (SendUpstream (serialize_http_request req (forward_body v (body req)))) in
       let* _ := tell relay in finish).

Definition handle_non_llm_mitm (host target : string) (route : option ChainedRoute) (inner : string) : Handler :=
  match read_http_request inner with
  | Err e => fail (ProxyError.Http e)
  | Ok None => finish
  | Ok (Some (req, _)) =>
      match in_tunnel_deny_reason config (ps_connected server) req with
      | Some reason => in_tunnel_refusal req host reason
      | None =>
          let enforcing := bool_decide (is_Some (gateway_endpoint config)) in
          let forward mcp_call := non_llm_forward (response_relay enforcing mcp_call host req) host target route req in
          let* outcome := if enforcing then decided (evaluate_mcp_request config (ps_connected server) (ps_scanner server) req host)
                          else w_ret McpSkip in
          match outcome with
          | McpForward call args | McpForwardUnevaluated call args => forward (Some (call, args))
          | McpForwardResponseOnly call => forward (Some (call, EmptyString))
          | McpDeny response =>
              let* _ := emit_rule_refusal (request_id host req) Rule.McpToolCall (probe_correlation req) in
              let* _ := tell (Reply response) in finish
          | McpSkip => forward None
          end
      end
  end.

(** ** CONNECT *)

(** The head after the request line: the probe's mark, if a line has it, and the rest. *)
Fixpoint drain_connect_head (room : nat) (budget : Z) (probe : option string) (s : string)
  : result (option string * string) HttpError.t :=
  let? (line, n, rest) := read_line_capped MAX_HEADER_LINE_LEN budget s in
  if is_empty (trim line) then Ok (probe, rest)
  else
    let probe := match probe with Some p => Some p | None => probe_correlation_plain [line] end in
    match room with
    | O => Err HttpError.TooManyHeaders
    | S room' => drain_connect_head room' (budget - n) probe rest
    end.

Definition connect_refusal (host target : string) (rule : Rule.RefusalRule) (probe : option string) : W Effect unit :=
  let* _ := emit_rule_refusal {| id_host := host; id_method := "CONNECT"; id_target := target |} rule probe in
  tell (Reply FORBIDDEN).

Definition handle_connect_tunnel (rest target inner : string) : Handler :=
  match drain_connect_head MAX_HEADER_COUNT MAX_HEADER_BYTES None rest with
  | Err e => fail (ProxyError.Http e)
  | Ok (probe, _) =>
      if names_no_host target then
        let* _ := connect_refusal EmptyString target (Deny.rule Deny.NetworkAllowlist) probe in finish
      else
        let host := canonical_host target in
        match egress_deny_reason config (ps_connected server) host 443 "https" with
        | Some reason =>
            let* _ := connect_refusal host target (Deny.rule reason) probe in
            let* _ := tell (PolicyEvent host true) in finish
        | None =>
            let route := chained_route_of (ps_chained server) target host in
            let* _ := tell (Reply ESTABLISHED) in
            if llm_only config && negb (should_mitm config (ps_chained server) host) then transparent_tunnel target route
            else
              let* _ := tell (PolicyEvent host false) in
              if negb (client_tls host) then fail ProxyError.Tls
              else if is_llm host || is_declared_llm_endpoint (ps_chained server) host
              then handle_llm_mitm host target (detect_api host) route inner
              else handle_non_llm_mitm host target route inner
        end
  end.

(** ** Plain requests *)

Fixpoint read_plain_http_headers (room : nat) (budget : Z) (s : string) : result (list string * string) HttpError.t :=
  let? (line, n, rest) := read_line_capped MAX_HEADER_LINE_LEN budget s in
  if is_empty (trim line) then Ok ([], rest)
  else match room with
       | O => Err HttpError.TooManyHeaders
       | S room' => let? (ls, rest') := read_plain_http_headers room' (budget - n) rest in Ok (line :: ls, rest')
       end.

Definition refuse_plain_http_403 (deny_host : string) : Handler :=
  let* _ := tell (PolicyEvent deny_host true) in
  let* _ := tell (Reply FORBIDDEN) in finish.

(** A body that was refused, or what goes on: the verdict, the body and the header lines. *)
Inductive PlainHttpScan :=
| ScanRefused (v : InterceptVerdict)
| ScanForward (v : option InterceptVerdict) (b : option string) (lines : list string).

Definition scan_plain_http_body (lines : list string) (rest : string) : result PlainHttpScan HttpError.t :=
  let? n := plain_http_content_length lines in
  if n =? 0 then Ok (ScanForward None None lines)
  else
    let? (b, _) := read_exact n rest in
    let v := intercept_request (ps_scanner server) b (plain_http_content_encoding lines) (credential_action config) in
    if decide (iv_decision v = Verdict.Block) then Ok (ScanRefused v)
    else
      let sent := forward_body v b in
      Ok (ScanForward (Some v) (Some sent)
            (if decide (iv_decision v = Verdict.ForwardRedacted)
             then rewrite_plain_http_content_length lines (String.length sent) else lines)).

Definition plain_request_bytes (request_line : string) (lines : list string) (b : option string) : string :=
  String.append (as_bytes request_line) (String.append CRLF
    (String.append
       (foldr String.append EmptyString
          (map as_bytes (List.filter (λ h, negb (starts_with (to_ascii_lowercase h) "connection:")) lines)))
       (String.append "Connection: close" (String.append CRLF (String.append CRLF (default EmptyString b)))))).

Definition plain_upstream_addr (host : string) : string :=
  if negb (lacks ":" host) then host else String.append host ":80".

Definition forward_plain (request_line : string) (lines : list string) (host deny_host m target : string)
  (v : option InterceptVerdict) (b : option string) : Handler :=
  let id := {| id_host := deny_host; id_method := m; id_target := target |} in
  let probe := probe_correlation_plain lines in
  let* _ := match v with
            | Some v => record_forwarding (observe_forwarding (ps_scanner server) (credential_action config) v) id v
                          (forwarding_audit_decision (iv_decision v)) probe
            | None => persist (forwarded Verdict.Forward (credential_action config) None) (Some (allowed_record id probe))
            end in
  w_and (dial_upstream_plain (plain_upstream_addr host))
    (let* _ := tell (SendUpstream (plain_request_bytes request_line lines b)) in
     let* _ := tell RelayResponse in finish).

Definition plain_refusal (host m target : string) (rule : Rule.RefusalRule) (lines : list string) : Handler :=
  let* _ := emit_rule_refusal {| id_host := host; id_method := m; id_target := target |} rule (probe_correlation_plain lines) in
  refuse_plain_http_403 host.

Definition handle_plain_http (rest request_line m target : string) : Handler :=
  match read_plain_http_headers MAX_HEADER_COUNT MAX_HEADER_BYTES rest with
  | Err e => fail (ProxyError.Http e)
  | Ok (lines, rest1) =>
      let host := parse_plain_http_host target lines in
      if plain_destination_conflicts target host lines then
        plain_refusal EmptyString m target (Deny.rule Deny.NetworkAllowlist) lines
      else if names_no_host host then plain_refusal EmptyString m target (Deny.rule Deny.NetworkAllowlist) lines
      else
        let deny_host := strip_host_port host in
        match egress_deny_reason config (ps_connected server) deny_host 80 "http" with
        | Some reason => plain_refusal deny_host m target (Deny.rule reason) lines
        | None =>
            if is_llm deny_host then plain_refusal deny_host m target Rule.PlaintextLlmDowngrade lines
            else if plain_http_body_is_chunked lines then fail (ProxyError.Http HttpError.ChunkedNotInspectable)
            else
              match scan_plain_http_body lines rest1 with
              | Err e => fail (ProxyError.Http e)
              | Ok (ScanRefused v) =>
                  let* _ := emit_audit_entry {| id_host := deny_host; id_method := m; id_target := target |} v Audit.Blocked
                              (not_forwarded (iv_decision v) (credential_action config)) (probe_correlation_plain lines) in
                  refuse_plain_http_403 deny_host
              | Ok (ScanForward v b lines') => forward_plain request_line lines' host deny_host m target v b
              end
        end
  end.

(** ** A connection *)

(** [split_whitespace]. *)
Fixpoint words (current : string) (s : string) : list string :=
  match s with
  | EmptyString => if is_empty current then [] else [current]
  | String c rest =>
      if is_whitespace c then (if is_empty current then words EmptyString rest else current :: words EmptyString rest)
      else words (String.append current (String c EmptyString)) rest
  end.

Definition handle_connection (stream inner : string) : Handler :=
  match read_line_capped MAX_HEADER_LINE_LEN MAX_HEADER_BYTES stream with
  | Err e => fail (ProxyError.Http e)
  | Ok (line, _, rest) =>
      let request_line := trim_end line in
      match words EmptyString request_line with
      | m :: target :: _ :: _ =>
          if eq_ignore_ascii_case m "CONNECT" then handle_connect_tunnel rest target inner
          else handle_plain_http rest request_line m target
      | _ => fail (ProxyError.Http HttpError.MalformedRequestLine)
      end
  end.
End Server.
