(* ===== verification/ProxyProps.v ===== *)
(** * ProxyProps: what a connection through the proxy can do

    Where it can go, what is sent there, and that the records of it are true; each statement
    also for every prefix of the effects, which is what happens when a write fails. *)

From stdpp Require Import base strings list gmap.
From Stdlib Require Import ZArith Lia Bool Ascii String.
From S2P Require Import Prelude.
From S2P Require Import Text.
From S2P Require Import EgressHost.
From S2P Require Import Findings.
From S2P Require Import Detection.
From S2P Require Import RuntimeQuery.
From S2P Require Import NetAddr.
From S2P Require Import HttpCodec.
From S2P Require Import HttpProps.
From S2P Require Import Intercept.
From S2P Require Import JsonText.
From S2P Require Import Credentials.
From S2P Require Import ProxyEgress.
From S2P Require Import Mcp.
From S2P Require Import Proxy.

Open Scope Z_scope.
Open Scope aasm_scope.

#[local] Arguments ascii_dec : simpl never.

(** ** The effects of a handler *)

Lemma trace_tell {A} e (m : W Effect A) : snd (w_bind (tell e) (λ _, m)) = e :: snd m.
Proof. by destruct m. Qed.

Lemma trace_bind {A} (m : W Effect unit) (k : W Effect A) : snd (w_bind m (λ _, k)) = snd m ++ snd k.
Proof. by destruct m, k. Qed.

Lemma trace_then {A B} (m : W Effect A) (k : A → W Effect B) : snd (w_bind m k) = snd m ++ snd (k (fst m)).
Proof. destruct m as [a t]. cbn. by destruct (k a). Qed.

Lemma trace_and m k : snd (w_and m k) = snd m ++ match fst m with Ok _ => snd k | Err _ => [] end.
Proof. unfold w_and, fail, w_ret. destruct m as [[u|e] t]; cbn; [by destruct k|done]. Qed.

Lemma trace_finish : snd finish = [].
Proof. done. Qed.

Lemma trace_fail e : snd (fail e) = [].
Proof. done. Qed.

Create Rewrite HintDb trace.
#[export] Hint Rewrite @trace_tell @trace_bind trace_and trace_finish trace_fail : trace.

(** Bytes or a connection towards an upstream. *)
Definition outward (e : Effect) : bool :=
  match e with
  | Connect _ | ConnectOverride _ | ConnectChained _ | SendUpstream _ | Tunnel _ => true
  | _ => false
  end.

Definition silent (t : list Effect) : Prop := Forall (λ e, outward e = false) t.

Definition is_record (e : Effect) : bool := match e with Audited _ | AuditDropped _ => true | _ => false end.

(** An entry was handed to the channel of the records, which took it or dropped it. *)
Definition offered (en : ProxyAuditEntry) (t : list Effect) : Prop := Audited en ∈ t ∨ AuditDropped en ∈ t.

(** A record, if it is one, says that the bytes went. *)
Definition says_sent (e : Effect) : Prop :=
  match e with Audited en | AuditDropped en => proves_transmission (transmission (pe_execution en)) = true | _ => True end.

(** Nothing goes out; or every record says it did, and one of them is before anything went. *)
Definition accounted (sink : option (ProxyAuditEntry → bool)) (t : list Effect) : Prop :=
  silent t ∨
  Forall says_sent t ∧
  (∀ accepts, sink = Some accepts → ∃ t1 en t2, t = t1 ++ try_send accepts en :: t2 ∧ silent t1 ∧ says_sent (Audited en)).

Lemma accounted_silent sink t : silent t → accounted sink t.
Proof. by left. Qed.

Lemma accounted_cons sink e t :
  outward e = false → is_record e = false → accounted sink t → accounted sink (e :: t).
Proof.
  intros Ho Hr [Hs|[Hall Hsink]]; [left; by constructor|]. right. split; [constructor; [by destruct e|done]|].
  intros acc Hk. destruct (Hsink acc Hk) as (t1 & en & t2 & -> & Hs & He). exists (e :: t1), en, t2. by split_and!; [|constructor|].
Qed.

Lemma prefix_forall {A} (P : A → Prop) (l k : list A) : l `prefix_of` k → Forall P k → Forall P l.
Proof. intros [r ->] Hf. by apply Forall_app in Hf as [? _]. Qed.

Lemma prefix_middle {A} (x : A) t1 t2 t' : t' `prefix_of` t1 ++ x :: t2 → t' `prefix_of` t1 ∨ ∃ t3, t' = t1 ++ x :: t3.
Proof.
  revert t'. induction t1 as [|y t1 IH]; intros [|z t'] Hp; try (left; apply prefix_nil).
  - right. exists t'. by apply prefix_cons_inv_1 in Hp as ->.
  - pose proof (prefix_cons_inv_1 _ _ _ _ Hp) as ->. apply prefix_cons_inv_2, IH in Hp as [Hp|[t3 ->]].
    + left. by apply prefix_cons.
    + right. by exists t3.
Qed.

Lemma accounted_prefix sink t t' : t' `prefix_of` t → accounted sink t → accounted sink t'.
Proof.
  intros Hp [Hs|[Hall Hsink]]; [left; by eapply prefix_forall|]. destruct sink as [acc|].
  - destruct (Hsink acc eq_refl) as (t1 & en & t2 & -> & Hs & He). pose proof Hp as [Hp1|[t3 ->]]%prefix_middle.
    + left. by eapply prefix_forall.
    + right. split; [by eapply prefix_forall|]. intros ? [= <-]. by exists t1, en, t3.
  - right. split; [by eapply prefix_forall|done].
Qed.

Section Server.
Context {DT : Detectors} {IF : Inflate} {SD : Serde} {N : Net} {GW : McpGateway}.
Context (client_tls : string → bool).
Context (now_ms now : Z).
Context (server : ProxyServer).

Lemma trace_send_record r ev :
  snd (send_record now_ms server r ev) =
  match ps_audit_sink server with Some accepts => [try_send accepts (entry_of now_ms r ev)] | None => [] end.
Proof. unfold send_record. by destruct (ps_audit_sink server). Qed.

Lemma record_evidence r ev : pe_execution (entry_of now_ms r ev) = ev.
Proof. unfold entry_of. by destruct (bound_persisted_findings (dr_findings r)). Qed.

Lemma silent_record r ev : silent (snd (send_record now_ms server r ev)).
Proof.
  rewrite trace_send_record. destruct (ps_audit_sink server) as [acc|]; [|constructor].
  constructor; [unfold try_send; by case_match|constructor].
Qed.

(** A forwarding record and then anything that makes no record. *)
Lemma accounted_forward r ev t :
  proves_transmission (transmission ev) = true → Forall (λ e, is_record e = false) t →
  accounted (ps_audit_sink server) (snd (send_record now_ms server r ev) ++ t).
Proof.
  intros Hev Ht. rewrite trace_send_record. right.
  assert (Forall says_sent t) as Hs by (eapply Forall_impl; [exact Ht|]; by intros []).
  destruct (ps_audit_sink server) as [acc|].
  - split.
    + constructor; [|done]. unfold try_send. destruct (acc _); unfold says_sent; by rewrite record_evidence.
    + intros ? [= <-]. exists [], (entry_of now_ms r ev), t. split_and!; [done|constructor|]. unfold says_sent. by rewrite record_evidence.
  - split; [done|]. by intros.
Qed.

Lemma forwarded_says_sent d a r : proves_transmission (transmission (forwarded d a r)) = true.
Proof. by destruct r as [[]|]. Qed.

Lemma no_record_connect target : Forall (λ e, is_record e = false) (snd (connect_revalidated server target)).
Proof.
  unfold connect_revalidated. destruct (safe_addresses _ _); autorewrite with trace; [|constructor].
  constructor; [done|]. by destruct (tcp_connect _); constructor.
Qed.

Lemma no_record_override addr : Forall (λ e, is_record e = false) (snd (connect_override addr)).
Proof. unfold connect_override. autorewrite with trace. constructor; [done|]. by destruct (tcp_connect _); constructor. Qed.

Lemma no_record_dial host target route : Forall (λ e, is_record e = false) (snd (dial_upstream_tls server host target route)).
Proof.
  unfold dial_upstream_tls. rewrite trace_and. apply Forall_app. split.
  - destruct route as [r|]; [|destruct (upstream_override (ps_config server)); [apply no_record_override|apply no_record_connect]].
    autorewrite with trace. constructor; [done|]. by destruct (chain_connect r); constructor.
  - destruct (fst _); [|constructor]. by destruct (tls_connect host); constructor.
Qed.

Lemma no_record_plain addr : Forall (λ e, is_record e = false) (snd (dial_upstream_plain server addr)).
Proof. unfold dial_upstream_plain. destruct (upstream_override (ps_config server)); [apply no_record_override|apply no_record_connect]. Qed.

(** ** The ways of a connection

    A connection stays here, or it is tunnelled, or a request inside its tunnel is sent, or
    a plain request is sent; with what was decided on each way. *)

Definition quiet (e : Effect) : Prop := outward e = false ∧ is_record e = false.

Definition judged_connect (target : string) : Prop :=
  names_no_host target = false ∧
  egress_deny_reason (ps_config server) (ps_connected server) (canonical_host target) 443 "https" = None.

Definition verdict_of (req : HttpRequest) : InterceptVerdict :=
  intercept_request (ps_scanner server) (body req) (content_encoding req) (credential_action (ps_config server)).

(** The credential that goes with a request: the host's on the LLM path, none on the other. *)
Definition credential_of (host : string) (auth : option (string * string)) : Prop :=
  auth = None ∨
  injection_for (ps_credentials server) now host ≠ Revoked ∧ auth = injected_auth (injection_for (ps_credentials server) now host).

(** A revoked credential stops every request to an LLM endpoint. *)
Definition not_revoked_llm (host : string) : Prop :=
  is_llm host = true ∨ is_declared_llm_endpoint (ps_chained server) host = true →
  injection_for (ps_credentials server) now host ≠ Revoked.

(** The first line of what the client sends, its second word and what follows. *)
Definition head_of (stream line target rest : string) : Prop :=
  ∃ text n m v ws, read_line_capped MAX_HEADER_LINE_LEN MAX_HEADER_BYTES stream = Ok (text, n, rest) ∧
    line = trim_end text ∧ words EmptyString line = m :: target :: v :: ws.

(** The target of a tunnel the client asks for. *)
Definition asks_tunnel (stream target : string) : Prop := ∃ line rest, head_of stream line target rest.

(** The head of a plain request the client sends, and what follows it. *)
Definition plain_head (stream line target : string) (lines : list string) (rest : string) : Prop :=
  ∃ after, head_of stream line target after ∧
    read_plain_http_headers MAX_HEADER_COUNT MAX_HEADER_BYTES after = Ok (lines, rest).

Inductive journey (stream inner : string) : list Effect → Prop :=
| JStay t : silent t → journey stream inner t
| JTunnel target pre r :
    asks_tunnel stream target → judged_connect target → llm_only (ps_config server) = true →
    should_mitm (ps_config server) (ps_chained server) (canonical_host target) = false →
    chained_route_of (ps_chained server) target (canonical_host target) = None → Forall quiet pre →
    journey stream inner (pre ++ snd (send_record now_ms server r (forwarded Verdict.Forward (credential_action (ps_config server)) None)) ++
      snd (w_and match upstream_override (ps_config server) with
                 | Some addr => connect_override addr | None => connect_revalidated server target end
             (let* _ := tell (Tunnel target) in finish)))
| JSent target req rest pre r ev auth relay :
    asks_tunnel stream target → judged_connect target → read_http_request inner = Ok (Some (req, rest)) →
    in_tunnel_deny_reason (ps_config server) (ps_connected server) req = None →
    iv_decision (verdict_of req) ≠ Verdict.Block → credential_of (canonical_host target) auth →
    not_revoked_llm (canonical_host target) → Forall quiet pre →
    ev = observe_forwarding (ps_scanner server) (credential_action (ps_config server)) (verdict_of req) →
    outward relay = false → is_record relay = false →
    journey stream inner (pre ++ snd (send_record now_ms server r ev) ++
      snd (w_and (dial_upstream_tls server (canonical_host target) target
                    (chained_route_of (ps_chained server) target (canonical_host target)))
             (let* _ := tell (SendUpstream (serialize_http_request_with_auth req (forward_body (verdict_of req) (body req)) auth)) in
              let* _ := tell relay in finish)))
| JPlain line target host lines rest1 lines' v b pre r ev :
    plain_head stream line target lines rest1 → plain_destination_conflicts target host lines = false → host = parse_plain_http_host target lines →
    names_no_host host = false →
    egress_deny_reason (ps_config server) (ps_connected server) (strip_host_port host) 80 "http" = None →
    is_llm (strip_host_port host) = false → plain_http_body_is_chunked lines = false →
    scan_plain_http_body server lines rest1 = Ok (ScanForward v b lines') → Forall quiet pre →
    ev = match v with
         | Some v => observe_forwarding (ps_scanner server) (credential_action (ps_config server)) v
         | None => forwarded Verdict.Forward (credential_action (ps_config server)) None
         end →
    journey stream inner (pre ++ snd (send_record now_ms server r ev) ++
      snd (w_and (dial_upstream_plain server (plain_upstream_addr host))
             (let* _ := tell (SendUpstream (plain_request_bytes line lines' b)) in let* _ := tell RelayResponse in finish))).

Create HintDb journey discriminated.

Ltac quieten := autorewrite with trace; repeat first
  [ apply Forall_nil; exact I | apply Forall_app; split | apply silent_record | constructor ]; try done.

Lemma silent_refusal id rule probe : silent (snd (emit_rule_refusal now_ms server id rule probe)).
Proof. apply silent_record. Qed.

Lemma silent_in_tunnel req host reason : silent (snd (in_tunnel_refusal now_ms server req host reason)).
Proof. unfold in_tunnel_refusal. quieten. Qed.

Lemma silent_block host req v : silent (snd (block_verdict_refusal now_ms server host req v)).
Proof. unfold block_verdict_refusal. quieten. Qed.

Lemma silent_probe host req v c : silent (snd (adjudicate_probe now_ms server host req v c)).
Proof.
  unfold adjudicate_probe. destruct (match iv_decision v with Verdict.Block => _ | _ => _ end) as [d f]. quieten.
Qed.

Lemma silent_plain_refusal host m target rule lines : silent (snd (plain_refusal now_ms server host m target rule lines)).
Proof. unfold plain_refusal, refuse_plain_http_403. quieten. Qed.

Lemma silent_fail e : silent (snd (fail e)).
Proof. constructor. Qed.

Hint Resolve silent_in_tunnel silent_block silent_probe silent_plain_refusal silent_fail JStay : journey.

(** Something quiet happens before. *)
Lemma journey_cons stream inner e t : quiet e → journey stream inner t → journey stream inner (e :: t).
Proof.
  intros He Ht. destruct Ht; rewrite ?app_comm_cons.
  - apply JStay. constructor; [apply He|done].
  - apply JTunnel; try done. by constructor.
  - eapply JSent; try done. by constructor.
  - eapply JPlain; try done. by constructor.
Qed.

Lemma journey_app stream inner pre t : Forall quiet pre → journey stream inner t → journey stream inner (pre ++ t).
Proof. induction 1; [done|]. intros Ht. cbn. by apply journey_cons; auto. Qed.

Lemma trace_record_forwarding ev id v probe :
  iv_decision v ≠ Verdict.Block →
  ∃ r, snd (record_forwarding now_ms server ev id v (forwarding_audit_decision (iv_decision v)) probe) = snd (send_record now_ms server r ev).
Proof. intros Hv. unfold record_forwarding, persist. destruct (iv_decision v); [by eexists..|done|by eexists]. Qed.

Lemma llm_journey stream host target pattern inner :
  host = canonical_host target → asks_tunnel stream target → judged_connect target →
  journey stream inner (snd (handle_llm_mitm now_ms now server host target pattern (chained_route_of (ps_chained server) target host) inner)).
Proof.
  intros -> Hask Hj. unfold handle_llm_mitm. destruct (read_http_request inner) as [[[req rest]|]|e] eqn:Hr; [|by apply JStay; constructor..].
  destruct (in_tunnel_deny_reason _ _ req) eqn:Hd; [auto with journey|]. fold (verdict_of req). rewrite trace_bind.
  assert (∀ t, journey stream inner t → journey stream inner (snd (if decide (pattern = Llm.Unknown) then w_ret tt else tell (LlmEvent pattern (method req) (rq_target req))) ++ t)) as Hpre.
  { intros t Ht. destruct (decide (pattern = Llm.Unknown)); [done|]. by apply journey_cons. }
  apply Hpre. destruct (probe_correlation req) as [c|]; [auto with journey|].
  destruct (decide (iv_decision (verdict_of req) = Verdict.Block)) as [|Hv]; [auto with journey|].
  destruct (injection_for (ps_credentials server) now (canonical_host target)) as [n value| | |] eqn:Hi;
    [| | |apply JStay; quieten]; rewrite trace_bind;
    match goal with |- context [record_forwarding _ _ ?ev ?id ?v _ ?pr] => destruct (trace_record_forwarding ev id v pr Hv) as [r ->] end;
    apply (JSent stream inner target req rest [] r); try done; try (right; rewrite Hi; split; [congruence|done]); by intros _; rewrite Hi.
Qed.

Lemma non_llm_journey stream host target inner :
  host = canonical_host target → asks_tunnel stream target → judged_connect target →
  is_llm host || is_declared_llm_endpoint (ps_chained server) host = false →
  journey stream inner (snd (handle_non_llm_mitm now_ms server host target (chained_route_of (ps_chained server) target host) inner)).
Proof.
  intros -> Hask Hj Hllm. unfold handle_non_llm_mitm. destruct (read_http_request inner) as [[[req rest]|]|e] eqn:Hr; [|by apply JStay; constructor..].
  destruct (in_tunnel_deny_reason _ _ req) eqn:Hd; [auto with journey|].
  assert (∀ mcp_call, journey stream inner (snd (non_llm_forward now_ms server (response_relay
            (bool_decide (is_Some (gateway_endpoint (ps_config server)))) mcp_call (canonical_host target) req) (canonical_host target) target
            (chained_route_of (ps_chained server) target (canonical_host target)) req))) as Hf.
  { intros mcp_call. set (enforcing := bool_decide _). unfold non_llm_forward. fold (verdict_of req).
    destruct (decide (iv_decision (verdict_of req) = Verdict.Block)) as [|Hv]; [auto with journey|]. rewrite trace_bind.
    match goal with |- context [record_forwarding _ _ ?ev ?id ?v _ ?pr] => destruct (trace_record_forwarding ev id v pr Hv) as [r ->] end.
    apply (JSent stream inner target req rest [] r _ None); try done; [by left| |by destruct enforcing..].
    intros [H|H]; rewrite H in Hllm; [done|by rewrite orb_true_r in Hllm]. }
  rewrite trace_then. apply journey_app.
  - destruct (bool_decide _); [|constructor]. apply Forall_map, Forall_forall. done.
  - destruct (fst _); try apply Hf. apply JStay. quieten.
Qed.

Lemma connect_journey stream rest target inner :
  asks_tunnel stream target → journey stream inner (snd (handle_connect_tunnel client_tls now_ms now server rest target inner)).
Proof.
  intros Hask.  unfold handle_connect_tunnel. destruct (drain_connect_head _ _ _ rest) as [[probe rest1]|e]; [|auto with journey].
  destruct (names_no_host target) eqn:Hn; [apply JStay; unfold connect_refusal, emit_rule_refusal; quieten|].
  destruct (egress_deny_reason _ _ (canonical_host target) 443 "https") as [reason|] eqn:Hd;
    [apply JStay; unfold connect_refusal, emit_rule_refusal; quieten|].
  assert (judged_connect target) as Hj by done. rewrite trace_tell. apply journey_cons; [done|].
  destruct (llm_only _ && negb _) eqn:Hm.
  - apply andb_true_iff in Hm as [Ho Hs]. apply negb_true_iff in Hs. unfold transparent_tunnel.
    destruct (chained_route_of _ target _) eqn:Hc; [auto with journey|]. rewrite trace_bind. by apply (JTunnel stream inner target []).
  - rewrite trace_tell. apply journey_cons; [done|]. destruct (client_tls (canonical_host target)); cbn [negb]; [|auto with journey].
    destruct (is_llm _ || _) eqn:Hl; [by apply llm_journey|by apply non_llm_journey].
Qed.

Lemma plain_journey stream rest line m target inner :
  head_of stream line target rest → journey stream inner (snd (handle_plain_http now_ms server rest line m target)).
Proof.
  intros Hhead. unfold handle_plain_http. destruct (read_plain_http_headers _ _ rest) as [[lines rest1]|e] eqn:Hlines; [|auto with journey].
  assert (plain_head stream line target lines rest1) as Hph by (by exists rest).
  destruct (plain_destination_conflicts _ _ lines) eqn:Hc; [auto with journey|].
  destruct (names_no_host _) eqn:Hn; [auto with journey|].
  destruct (egress_deny_reason _ _ _ 80 "http") as [reason|] eqn:Hd; [auto with journey|].
  destruct (is_llm _) eqn:Hl; [auto with journey|]. destruct (plain_http_body_is_chunked lines) eqn:Hk; [auto with journey|].
  destruct (scan_plain_http_body server lines rest1) as [[v|v b lines']|e] eqn:Hs; [| |auto with journey].
  - apply JStay. unfold emit_audit_entry, refuse_plain_http_403. quieten.
  - assert (∀ v', v = Some v' → iv_decision v' ≠ Verdict.Block) as Hv.
    { intros v' ->. unfold scan_plain_http_body in Hs. destruct (plain_http_content_length lines) as [n|]; cbn in Hs; [|done].
      destruct (n =? 0); [done|]. destruct (read_exact n rest1) as [[b' ?]|]; cbn in Hs; [|done].
      destruct (decide (iv_decision _ = Verdict.Block)); [done|]. by injection Hs as <- _ _. }
    unfold forward_plain. rewrite trace_bind. destruct v as [v|].
    + match goal with |- context [record_forwarding _ _ ?ev ?id ?v _ ?pr] =>
        destruct (trace_record_forwarding ev id v pr (Hv _ eq_refl)) as [r ->] end.
      by eapply (JPlain stream inner line target _ lines rest1 lines' (Some v) b []).
    + by eapply (JPlain stream inner line target _ lines rest1 lines' None b []).
Qed.

Lemma connection_journey stream inner :
  journey stream inner (snd (handle_connection client_tls now_ms now server stream inner)).
Proof.
  unfold handle_connection. destruct (read_line_capped _ _ stream) as [[[line n] rest]|e] eqn:Hline; [|auto with journey].
  destruct (words EmptyString (trim_end line)) as [|m [|target [|v ws]]] eqn:Hw; [auto with journey..|].
  assert (head_of stream (trim_end line) target rest) as Hhead by (by exists line, n, m, v, ws).
  destruct (eq_ignore_ascii_case m "CONNECT"); [apply connect_journey; by exists (trim_end line), rest|by apply plain_journey].
Qed.

(** ** Where it goes *)

Definition production : Prop :=
  allow_private_connect_targets (ps_config server) = false ∧ upstream_override (ps_config server) = None.

(** Only addresses outside the blocked ranges, or the trusted proxy for a declared destination. *)
Definition may_dial (e : Effect) : Prop :=
  match e with
  | Connect addrs => addrs ≠ [] ∧ Forall (λ a, is_blocked_ip (fst a) = false) addrs
  | ConnectOverride _ => False
  | ConnectChained r => ∃ cfg, ps_chained server = Some cfg ∧ ch_endpoint r = cu_endpoint cfg ∧ ch_dest r ∈ cu_destinations cfg
  | _ => True
  end.

Lemma safe_addresses_public target safe :
  production → safe_addresses (ps_config server) target = Some safe →
  safe ≠ [] ∧ Forall (λ a, is_blocked_ip (fst a) = false) safe ∧
  ∃ all, lookup_host target = Some all ∧ ∀ a, a ∈ safe → a ∈ all.
Proof.
  intros [Hp _]. unfold safe_addresses. destruct (lookup_host target) as [all|]; [|done]. rewrite Hp. cbn [orb].
  match goal with |- context [List.filter ?f all] => destruct (List.filter f all) as [|x xs] eqn:Hf end; [done|]. intros [= <-].
  assert (∀ a, a ∈ x :: xs → a ∈ all ∧ negb (is_blocked_ip (fst a)) = true) as Hin.
  { intros a. rewrite <-Hf, list_elem_of_In, filter_In, <-list_elem_of_In. done. }
  split_and!; [done| |].
  - apply Forall_forall. intros a Ha. apply Hin in Ha as [_ Ha]. by apply negb_true_iff in Ha.
  - exists all. split; [done|]. intros a Ha. by apply Hin.
Qed.

Lemma route_declared target host r : chained_route_of (ps_chained server) target host = Some r → may_dial (ConnectChained r).
Proof.
  unfold chained_route_of. destruct (parse_connect_authority_port target); [|done].
  destruct (ps_chained server) as [cfg|] eqn:Hc; [|done]. destruct (List.find _ _) as [d|] eqn:Hf; [|done]. intros [= <-].
  apply find_some in Hf as [Hf _]. cbn. exists cfg. split_and!; [by rewrite Hc|done|by apply list_elem_of_In].
Qed.

(** A property of effects that holds of what is not a dial, and of each dial. *)
Section Everywhere.
Context (P : Effect → Prop).
Context (Hquiet : ∀ e, outward e = false → P e).

Lemma everywhere_silent t : silent t → Forall P t.
Proof. intros Ht. eapply Forall_impl; [exact Ht|]. exact Hquiet. Qed.

Lemma everywhere_pre pre : Forall quiet pre → Forall P pre.
Proof. intros Hp. eapply Forall_impl; [exact Hp|]. intros e [He _]. by apply Hquiet. Qed.

Lemma everywhere_record r ev : Forall P (snd (send_record now_ms server r ev)).
Proof. apply everywhere_silent, silent_record. Qed.

Lemma everywhere_connect target :
  (∀ safe, safe_addresses (ps_config server) target = Some safe → P (Connect safe)) →
  Forall P (snd (connect_revalidated server target)).
Proof.
  intros Hc. unfold connect_revalidated. destruct (safe_addresses _ _) as [safe|]; autorewrite with trace; [|constructor].
  constructor; [by apply Hc|]. by destruct (tcp_connect safe); constructor.
Qed.

Lemma everywhere_override addr : P (ConnectOverride addr) → Forall P (snd (connect_override addr)).
Proof. intros Hp. unfold connect_override. autorewrite with trace. constructor; [done|]. by destruct (tcp_connect _); constructor. Qed.

Lemma everywhere_direct target :
  (∀ safe, upstream_override (ps_config server) = None → safe_addresses (ps_config server) target = Some safe → P (Connect safe)) →
  (∀ addr, upstream_override (ps_config server) = Some addr → P (ConnectOverride addr)) →
  Forall P (snd match upstream_override (ps_config server) with
                | Some addr => connect_override addr | None => connect_revalidated server target end).
Proof.
  intros Hc Ho. destruct (upstream_override _) as [addr|].
  - apply everywhere_override. by apply Ho.
  - apply everywhere_connect. intros safe. by apply Hc.
Qed.

Lemma everywhere_dial host target route :
  (∀ r, route = Some r → P (ConnectChained r)) →
  (∀ safe, upstream_override (ps_config server) = None → safe_addresses (ps_config server) target = Some safe → P (Connect safe)) →
  (∀ addr, upstream_override (ps_config server) = Some addr → P (ConnectOverride addr)) →
  Forall P (snd (dial_upstream_tls server host target route)).
Proof.
  intros Hr Hc Ho. unfold dial_upstream_tls. rewrite trace_and. apply Forall_app. split.
  - destruct route as [r|]; [|by apply everywhere_direct]. autorewrite with trace. constructor; [by apply Hr|].
    by destruct (chain_connect r); constructor.
  - destruct (fst _); [|constructor]. by destruct (tls_connect host); constructor.
Qed.

Lemma everywhere_and m k : Forall P (snd m) → Forall P (snd k) → Forall P (snd (w_and m k)).
Proof. intros Hm Hk. rewrite trace_and. apply Forall_app. split; [done|]. destruct (fst m); [done|constructor]. Qed.

Lemma everywhere_send bytes relay :
  P (SendUpstream bytes) → outward relay = false →
  Forall P (snd (let* _ := tell (SendUpstream bytes) in let* _ := tell relay in finish)).
Proof. intros Hb Hr. autorewrite with trace. constructor; [done|]. constructor; [by apply Hquiet|constructor]. Qed.

(** What is decided about a plain request before it is sent. *)
Definition judged_plain (stream line target host : string) (lines : list string) (rest : string) : Prop :=
  plain_head stream line target lines rest ∧ host = parse_plain_http_host target lines ∧ plain_destination_conflicts target host lines = false ∧
  names_no_host host = false ∧
  egress_deny_reason (ps_config server) (ps_connected server) (strip_host_port host) 80 "http" = None ∧
  is_llm (strip_host_port host) = false ∧ plain_http_body_is_chunked lines = false.

(** What is decided about a request inside a tunnel before it is sent. *)
Definition judged_request (stream target inner : string) (req : HttpRequest) (auth : option (string * string)) : Prop :=
  asks_tunnel stream target ∧ judged_connect target ∧ (∃ rest, read_http_request inner = Ok (Some (req, rest))) ∧
  in_tunnel_deny_reason (ps_config server) (ps_connected server) req = None ∧
  iv_decision (verdict_of req) ≠ Verdict.Block ∧ credential_of (canonical_host target) auth ∧
  not_revoked_llm (canonical_host target).

Context (stream inner : string).
Context (Htunnel : ∀ target, asks_tunnel stream target → judged_connect target → llm_only (ps_config server) = true →
  should_mitm (ps_config server) (ps_chained server) (canonical_host target) = false →
  chained_route_of (ps_chained server) target (canonical_host target) = None → P (Tunnel target)).
Context (Hconnect : ∀ target safe, asks_tunnel stream target → judged_connect target → safe_addresses (ps_config server) target = Some safe → P (Connect safe)).
Context (Hplain : ∀ line target host lines rest safe, judged_plain stream line target host lines rest →
  safe_addresses (ps_config server) (plain_upstream_addr host) = Some safe → P (Connect safe)).
Context (Hover : ∀ addr, upstream_override (ps_config server) = Some addr → P (ConnectOverride addr)).
Context (Hchain : ∀ target r, asks_tunnel stream target → judged_connect target →
  chained_route_of (ps_chained server) target (canonical_host target) = Some r → P (ConnectChained r)).
Context (Hsend : ∀ target req auth, judged_request stream target inner req auth →
  P (SendUpstream (serialize_http_request_with_auth req (forward_body (verdict_of req) (body req)) auth))).
Context (Hsend_plain : ∀ line target host lines rest v b lines', judged_plain stream line target host lines rest →
  scan_plain_http_body server lines rest = Ok (ScanForward v b lines') → P (SendUpstream (plain_request_bytes line lines' b))).

Lemma everywhere_journey t : journey stream inner t → Forall P t.
Proof.
  intros [t' Hs|target pre r Hask Hj Hl Hm Hroute Hpre|target req rest pre r ev auth relay Hask Hj Hr Hd Hv Ha Hnr Hpre Hev Hor Hrr
         |line target host lines rest1 lines' v b pre r ev Hph Hc1 Hh Hn Hd Hl Hk Hs Hpre Hev]; [by apply everywhere_silent|..];
    (apply Forall_app; split; [by apply everywhere_pre|]; apply Forall_app; split; [by apply everywhere_record|]; apply everywhere_and).
  - apply everywhere_direct; eauto.
  - autorewrite with trace. constructor; [by apply Htunnel|constructor].
  - apply everywhere_dial; eauto.
  - apply everywhere_send; [|done]. apply (Hsend target). split_and!; eauto.
  - unfold dial_upstream_plain. apply everywhere_direct; [|eauto]. intros safe _. by apply (Hplain line target host lines rest1).
  - apply everywhere_send; [|done]. by apply (Hsend_plain line target host lines rest1 v).
Qed.
End Everywhere.

(** C8: Whatever a client sends, a proxy as it is deployed connects only to addresses
    outside the blocked ranges, or to the operator's pinned proxy for a destination that was
    declared to it. *)
Theorem dials_only_public stream inner t :
  production → t `prefix_of` snd (handle_connection client_tls now_ms now server stream inner) → Forall may_dial t.
Proof.
  intros Hprod Ht. eapply prefix_forall; [exact Ht|].
  eapply (everywhere_journey may_dial); [..|apply connection_journey]; try (by intros []); try done.
  - intros target safe _ _ Hs. by apply safe_addresses_public in Hs as (? & ? & _).
  - intros line target host lines rest safe _ Hs. by apply safe_addresses_public in Hs as (? & ? & _).
  - intros addr Ha. destruct Hprod as [_ Hn]. congruence.
  - intros target r _ _. apply route_declared.
Qed.

(** ** What was asked before *)

(** The checks of a host: it is not a blocked literal, not on the denylist, and on the
    allowlist, or allowed by the gateway when there is one; only a gateway that gave no
    answer can be passed over, and only when the operator chose so. *)
Definition egress_passes (host : string) (port : Z) (protocol : string) : Prop :=
  (allow_private_connect_targets (ps_config server) = false → blocked_ip_literal (strip_host_port host) ≠ Some true) ∧
  (∀ d, d ∈ denied_hosts (ps_config server) → canonical_host d ≠ canonical_host host) ∧
  match gateway_endpoint (ps_config server) with
  | None => is_host_allowed_by_egress_allowlist (canonical_host host) (network_allowlist (ps_config server)) = true
  | Some _ =>
      match (if ps_connected server then check_action host port protocol else None) with
      | Some r => cr_decision r = 1
      | None => network_fail_open (ps_config server) = true
      end
  end.

Lemma not_denied_passes host port protocol :
  egress_deny_reason (ps_config server) (ps_connected server) host port protocol = None → egress_passes host port protocol.
Proof.
  unfold egress_deny_reason, connect_deny_reason, egress_passes. intros Hd.
  destruct (negb (allow_private_connect_targets _) && _) eqn:Hssrf; [done|].
  destruct (existsb _ (denied_hosts _)) eqn:Hdeny; [done|]. split_and!.
  - intros Hp Hb. rewrite Hp, Hb in Hssrf. by rewrite bool_decide_true in Hssrf.
  - intros d Hin Heq. assert (existsb (λ denied, String.eqb (canonical_host denied) (canonical_host host)) (denied_hosts (ps_config server)) = true) as Hx.
    { apply existsb_exists. exists d. split; [by apply list_elem_of_In|]. by apply String.eqb_eq. }
    congruence.
  - unfold gateway_egress_deny_reason, evaluate_network_call in Hd. destruct (gateway_endpoint _) as [g|].
    + rewrite bool_decide_true in Hd by eauto. cbn [negb andb] in Hd. destruct (ps_connected server); cbn [negb] in Hd.
      * destruct (check_action host port protocol) as [r|]; cbn [option_map] in Hd; [|by destruct (network_fail_open _)].
        unfold decision_from_response in Hd. destruct (Z.eqb_spec (cr_decision r) 1) as [|]; [done|].
        by destruct (cr_decision r =? 2), (cr_decision r =? 4), (cr_decision r =? 3).
      * by destruct (network_fail_open _).
    + rewrite bool_decide_false in Hd by (by intros [? ?]). cbn [negb andb] in Hd.
      by destruct (is_host_allowed_by_egress_allowlist _ _).
Qed.

Lemma names_host authority : names_no_host authority = false → is_Some (egress_host_from_authority authority).
Proof. unfold names_no_host. intros H%negb_false_iff. by apply bool_decide_eq_true in H. Qed.

(** The authority the client gave: the target of its CONNECT, or the host of its plain request. *)
Definition authority_of (stream authority : string) : Prop :=
  asks_tunnel stream authority ∨
  ∃ line target lines rest, plain_head stream line target lines rest ∧ authority = parse_plain_http_host target lines.

(** Where an effect that goes out goes: to addresses of the authority, to the declared
    destination of its host and port, or through a tunnel to it. *)
Definition goes_to (authority host : string) (e : Effect) : Prop :=
  match e with
  | Connect addrs => ∃ text all, (text = authority ∨ text = plain_upstream_addr authority) ∧
                       lookup_host text = Some all ∧ ∀ a, a ∈ addrs → a ∈ all
  | ConnectChained r => eq_ignore_ascii_case (dd_host (ch_dest r)) host = true ∧
                          parse_connect_authority_port authority = Some (dd_port (ch_dest r))
  | Tunnel target => target = authority
  | _ => True
  end.

(** The authority behind an effect that goes out: the client gave it, it names one host, which
    passed the checks, and a connection or a tunnel goes to it. *)
Definition judged (stream : string) (e : Effect) : Prop :=
  outward e = true → ∃ authority host port protocol, authority_of stream authority ∧
    is_Some (egress_host_from_authority authority) ∧
    (host = canonical_host authority ∨ host = strip_host_port authority) ∧ egress_passes host port protocol ∧
    goes_to authority host e.

Lemma connect_judged stream target e :
  asks_tunnel stream target → judged_connect target → goes_to target (canonical_host target) e → judged stream e.
Proof.
  intros Ha [Hn Hd] He _. exists target, (canonical_host target), 443, "https".
  split_and!; [by left|by apply names_host|by left|by apply not_denied_passes|done].
Qed.

Lemma plain_judged stream line target host lines rest e :
  judged_plain stream line target host lines rest → goes_to host (strip_host_port host) e → judged stream e.
Proof.
  intros (Hp & -> & _ & Hn & Hd & _) He _. eexists _, (strip_host_port _), 80, "http".
  split_and!; [right; by eauto 10|by apply names_host|by right|by apply not_denied_passes|done].
Qed.

Lemma safe_resolved target safe :
  safe_addresses (ps_config server) target = Some safe → ∃ all, lookup_host target = Some all ∧ ∀ a, a ∈ safe → a ∈ all.
Proof.
  unfold safe_addresses. destruct (lookup_host target) as [all|]; [|done].
  match goal with |- context [List.filter ?f all] => destruct (List.filter f all) as [|x xs] eqn:Hf end; [done|]. intros [= <-].
  exists all. split; [done|]. intros a. rewrite <-Hf, list_elem_of_In, filter_In, <-list_elem_of_In. by intros [? _].
Qed.

Lemma route_goes_to target host r : chained_route_of (ps_chained server) target host = Some r → goes_to target host (ConnectChained r).
Proof.
  unfold chained_route_of. destruct (parse_connect_authority_port target) as [port|] eqn:Hp; [|done].
  destruct (ps_chained server) as [cfg|]; [|done]. destruct (List.find _ _) as [d|] eqn:Hf; [|done]. intros [= <-].
  apply find_some in Hf as [_ Hf]. apply andb_true_iff in Hf as [Hh Hport]. apply Z.eqb_eq in Hport as <-. by split.
Qed.

(** C15: In a proxy without the fixed upstream address of the tests, nothing goes out, not a
    connection, a request or a tunnel, before the authority the client gave, which names one
    host, passed the deny list, the address check and the allow list, or the gateway in its
    place (only a gateway that gave no answer can be passed over, and only when the operator
    chose so); and a connection or a tunnel goes to addresses of that authority or to the
    destination declared for its host and port. *)
Theorem egress_is_judged stream inner t e :
  upstream_override (ps_config server) = None →
  t `prefix_of` snd (handle_connection client_tls now_ms now server stream inner) → e ∈ t → judged stream e.
Proof.
  intros Hno Ht. revert e. apply Forall_forall. eapply prefix_forall; [exact Ht|].
  eapply (everywhere_journey (judged stream)); [..|apply connection_journey].
  - intros e He Ho. congruence.
  - intros target Ha Hj _ _ _. by apply (connect_judged stream target).
  - intros target safe Ha Hj (all & ? & ?)%safe_resolved. apply (connect_judged stream target); [done..|]. exists target, all. auto.
  - intros line target host lines rest safe Hj (all & ? & ?)%safe_resolved. eapply plain_judged; [exact Hj|].
    exists (plain_upstream_addr host), all. auto.
  - intros addr Ha. congruence.
  - intros target r Ha Hj Hr. apply (connect_judged stream target); [done..|]. by eapply route_goes_to.
  - intros target req auth (Ha & Hj & _). by apply (connect_judged stream target).
  - intros line target host lines rest v b lines' Hj _. by eapply plain_judged; [exact Hj|].
Qed.

(** ** What is sent *)

(** The text of what was received was scanned and is clean and is sent as it came; or the
    operator only wants to be told; or what is sent was scrubbed and scans clean. *)
Definition inspected (encoding : option string) (received sent : string) : Prop :=
  if ps_scanner server then
    ∃ text encoded, scan_source received encoding = Plaintext text encoded ∧
      (is_clean (from_utf8_lossy text) = true ∧ sent = received ∨
       credential_action (ps_config server) = OnFinding.AlertOnly ∧ sent = received ∨
       credential_action (ps_config server) = OnFinding.RedactOnly ∧ encoded = false ∧ is_clean sent = true ∧
       sent = redact (scanner_scan (from_utf8_lossy received)) (from_utf8_lossy received))
  else sent = received.

Lemma scan_plain_identity received encoding text : scan_source received encoding = Plaintext text false → text = received.
Proof.
  unfold scan_source. destruct encoding as [enc|]; [|by intros [= <-]]. destruct (_ || _); [by intros [= <-]|].
  by destruct (decompress_content_encoding _ received).
Qed.

Lemma forwarded_is_inspected received encoding :
  let v := intercept_request (ps_scanner server) received encoding (credential_action (ps_config server)) in
  iv_decision v ≠ Verdict.Block → inspected encoding received (forward_body v received).
Proof.
  unfold inspected, intercept_request, forward_body. intros Hv. destruct (ps_scanner server); [|done].
  destruct (scan_source received encoding) as [text encoded|] eqn:Hsrc; [|done]. exists text, encoded. split; [done|].
  destruct (is_clean (from_utf8_lossy text)) eqn:Hc; [by left|]. destruct (credential_action _); [done| |by right; left].
  destruct encoded; [done|]. apply scan_plain_identity in Hsrc as ->.
  destruct (is_clean (redact _ _)) eqn:Hr; [|done]. cbn [negb verdict iv_decision iv_redacted_body default id].
  right. right. by split_and!.
Qed.

Lemma first_denied_None connected hosts h :
  first_denied (ps_config server) connected hosts = None → h ∈ hosts → egress_deny_reason (ps_config server) connected h 443 "https" = None.
Proof.
  induction hosts as [|x hosts IH]; [by intros _ ?%not_elem_of_nil|]. cbn [first_denied].
  destruct (egress_deny_reason _ _ x 443 "https") eqn:Hx; [done|]. intros Hf [->|Hin]%elem_of_cons; [done|by apply IH].
Qed.

(** The hosts a request names, in its target and in its one Host header, passed the checks. *)
Definition hosts_pass (req : HttpRequest) : Prop :=
  request_authority_is_ambiguous req = false ∧
  ∀ h, target_request_host req = Some h ∨ header_request_host req = Some h → egress_passes h 443 "https".

Lemma in_tunnel_passes req : in_tunnel_deny_reason (ps_config server) (ps_connected server) req = None → hosts_pass req.
Proof.
  unfold in_tunnel_deny_reason, hosts_pass. destruct (request_authority_is_ambiguous req); [done|]. intros Hf. split; [done|].
  intros h Hh. apply not_denied_passes. eapply first_denied_None; [exact Hf|]. apply elem_of_app.
  destruct Hh as [->| ->]; [left|right]; apply elem_of_cons; by left.
Qed.

(** A plain request goes without a body when its length is zero, and with the inspected bytes
    of that length otherwise; only the length line may differ. *)
Definition plain_leaves (line : string) (lines : list string) (rest : string) (n : Z) (bytes : string) : Prop :=
  if n =? 0 then bytes = plain_request_bytes line lines None
  else ∃ received after sent lines', read_exact n rest = Ok (received, after) ∧
         inspected (plain_http_content_encoding lines) received sent ∧
         (lines' = lines ∧ sent = received ∨ lines' = rewrite_plain_http_content_length lines (String.length sent)) ∧
         bytes = plain_request_bytes line lines' (Some sent).

Definition leaves_inspected (stream inner : string) (e : Effect) : Prop :=
  match e with
  | SendUpstream bytes =>
      (∃ req rest sent auth, read_http_request inner = Ok (Some (req, rest)) ∧ hosts_pass req ∧
         inspected (content_encoding req) (body req) sent ∧ bytes = serialize_http_request_with_auth req sent auth) ∨
      (∃ line target lines rest n, plain_head stream line target lines rest ∧ plain_http_content_length lines = Ok n ∧
         plain_leaves line lines rest n bytes)
  | Tunnel target => asks_tunnel stream target ∧ llm_only (ps_config server) = true ∧
      is_llm (canonical_host target) = false ∧
      is_host_allowed_by_egress_allowlist_fail_closed (canonical_host target) (mitm_hosts (ps_config server)) = false ∧
      ∀ cfg d, ps_chained server = Some cfg → d ∈ cu_destinations cfg →
        eq_ignore_ascii_case (dd_host d) (canonical_host target) = false
  | _ => True
  end.

Lemma scanned_leaves line lines rest v b lines' :
  scan_plain_http_body server lines rest = Ok (ScanForward v b lines') →
  ∃ n, plain_http_content_length lines = Ok n ∧ plain_leaves line lines rest n (plain_request_bytes line lines' b).
Proof.
  unfold scan_plain_http_body. destruct (plain_http_content_length lines) as [n|]; cbn [result_bind]; [|done]. intros Hs. exists n. split; [done|].
  unfold plain_leaves. destruct (n =? 0); [by injection Hs as <- <- <-|].
  destruct (read_exact n rest) as [[received after]|] eqn:Hx; cbn [result_bind] in Hs; [|done].
  destruct (decide (iv_decision _ = Verdict.Block)) as [|Hv] in Hs; [done|]. injection Hs as _ <- <-.
  eexists received, after, _, _. split_and!; [done|by apply forwarded_is_inspected| |done].
  destruct (decide (iv_decision _ = Verdict.ForwardRedacted)) as [|Hr]; [by right|left]. split; [done|].
  unfold forward_body. by destruct (iv_decision _).
Qed.

Lemma tunnelled_leaves stream inner target :
  asks_tunnel stream target → llm_only (ps_config server) = true →
  should_mitm (ps_config server) (ps_chained server) (canonical_host target) = false → leaves_inspected stream inner (Tunnel target).
Proof.
  intros Ha Hl. unfold should_mitm. intros [[Hllm Hhosts]%orb_false_iff Hd]%orb_false_iff. split_and!; [done..|].
  intros cfg d Hc Hin. rewrite Hc in Hd. apply not_true_iff_false. intros Ht. apply not_true_iff_false in Hd. apply Hd.
  apply existsb_exists. exists d. split; [by apply list_elem_of_In|done].
Qed.

(** C7: With the scanner on, as the proxy is always built, the body of every request the
    proxy sends upstream was scanned, as the proxy delimits and decodes it: it is clean and
    goes as it came, or findings were scrubbed and the scrubbed text, which scans clean, goes
    instead, or the operator only wants alerts; a body whose content coding cannot be decoded
    is not sent.  With the scanner off the body goes as it came.  Inside a tunnel, every host
    the request names passed the egress checks as well.  A raw tunnel, whose bytes the proxy
    does not read, is opened only in the mode that inspects LLM traffic only (the default),
    and never to a provider, to a host the operator wants inspected or to a declared
    destination. *)
Theorem what_leaves_was_inspected stream inner t e :
  t `prefix_of` snd (handle_connection client_tls now_ms now server stream inner) → e ∈ t → leaves_inspected stream inner e.
Proof.
  intros Ht. revert e. apply Forall_forall. eapply prefix_forall; [exact Ht|].
  eapply (everywhere_journey (leaves_inspected stream inner)); [..|apply connection_journey]; try done; try (by intros []).
  - intros target Ha _ Hl Hm _. by apply tunnelled_leaves.
  - intros target req auth (_ & Hj & [rest Hr] & Hd & Hv & _). left.
    exists req, rest, (forward_body (verdict_of req) (body req)), auth.
    split_and!; [done|by apply in_tunnel_passes|by apply forwarded_is_inspected|done].
  - intros line target host lines rest v b lines' [Hp _] Hs. right. exists line, target, lines, rest.
    apply scanned_leaves with (line := line) in Hs as (n & Hn & Hl). by exists n.
Qed.

(** ** The records are true *)

Lemma no_record_and m k :
  Forall (λ e, is_record e = false) (snd m) → Forall (λ e, is_record e = false) (snd k) →
  Forall (λ e, is_record e = false) (snd (w_and m k)).
Proof. intros Hm Hk. rewrite trace_and. apply Forall_app. split; [done|]. destruct (fst m); [done|constructor]. Qed.

Lemma observed_says_sent v : proves_transmission (transmission (observe_forwarding (ps_scanner server) (credential_action (ps_config server)) v)) = true.
Proof. apply forwarded_says_sent. Qed.

Lemma accounted_pre pre t : Forall quiet pre → accounted (ps_audit_sink server) t → accounted (ps_audit_sink server) (pre ++ t).
Proof. intros Hp Ht. induction Hp as [|e pre [Ho Hr] _ IH]; [done|]. by apply accounted_cons. Qed.

Lemma journey_accounted stream inner t : journey stream inner t → accounted (ps_audit_sink server) t.
Proof.
  intros [t' Hs|target pre r Hask Hj Hl Hm Hroute Hpre|target req rest pre r ev auth relay Hask Hj Hr Hd Hv Ha Hnr Hpre Hev Hor Hrr
         |line target host lines rest1 lines' v b pre r ev Hph Hc1 Hh Hn Hd Hl Hk Hs Hpre Hev]; [by apply accounted_silent|..];
    apply accounted_pre; try done; apply accounted_forward.
  - apply forwarded_says_sent.
  - apply no_record_and; [destruct (upstream_override _); [apply no_record_override|apply no_record_connect]|].
    autorewrite with trace. by repeat constructor.
  - rewrite Hev. apply observed_says_sent.
  - apply no_record_and; [apply no_record_dial|]. autorewrite with trace. by repeat constructor.
  - rewrite Hev. destruct v; [apply observed_says_sent|apply forwarded_says_sent].
  - apply no_record_and; [apply no_record_plain|]. autorewrite with trace. by repeat constructor.
Qed.

(** C16: The audit records of a connection do not claim what did not happen: an entry that
    establishes that nothing was transmitted, recorded or dropped by its channel, is of a
    connection from which nothing went out; and when something goes out and the proxy has an
    audit channel, an entry that says so was handed to the channel before, and is recorded if
    the channel took it and dropped and counted if the channel was full or closed. *)
Theorem records_are_true stream inner t :
  t `prefix_of` snd (handle_connection client_tls now_ms now server stream inner) →
  (∀ en, offered en t → establishes_non_transmission (pe_execution en) = true → silent t) ∧
  (∀ t1 e t2 accepts, t = t1 ++ e :: t2 → outward e = true → ps_audit_sink server = Some accepts →
     ∃ en, proves_transmission (transmission (pe_execution en)) = true ∧
       if accepts en then Audited en ∈ t1 else AuditDropped en ∈ t1).
Proof.
  intros Ht. pose proof (accounted_prefix _ _ _ Ht (journey_accounted _ _ _ (connection_journey stream inner))) as [Hs|[Hall Hsink]].
  - split; [done|]. intros t1 e t2 acc -> Ho. apply Forall_app in Hs as [_ Hs]. apply Forall_cons in Hs as [He _]. congruence.
  - split.
    + intros en Hin Hest. rewrite Forall_forall in Hall.
      assert (proves_transmission (transmission (pe_execution en)) = true) as Hp by (destruct Hin as [Hin|Hin]; exact (Hall _ Hin)).
      unfold establishes_non_transmission in Hest. apply andb_true_iff in Hest as [Hest _]. apply andb_true_iff in Hest as [_ Hest].
      by destruct (transmission (pe_execution en)).
    + intros t1 e t2 acc -> Ho Hk. destruct (Hsink acc Hk) as (u1 & en & u2 & Heq & Hu & Hen). exists en. split; [exact Hen|].
      assert (try_send acc en ∈ t1) as Hin; [|unfold try_send in Hin; by destruct (acc en)].
      assert (t1 `prefix_of` u1 ++ try_send acc en :: u2) as Hp by (rewrite <-Heq; by apply prefix_app_r).
      apply prefix_middle in Hp as [[k ->]|[u3 ->]]; [|apply elem_of_app; right; by left].
      exfalso. rewrite <-app_assoc in Heq. apply app_inv_head in Heq. apply Forall_app in Hu as [_ Hu].
      destruct k as [|x k]; injection Heq as -> _; [unfold try_send in Ho; by destruct (acc en)|].
      apply Forall_cons in Hu as [Hx _]. congruence.
Qed.

(** ** Revoked credentials *)

(** The host a connection is for: the target of its CONNECT, or the host of its plain request. *)
Definition destination (stream : string) : option string :=
  match read_line_capped MAX_HEADER_LINE_LEN MAX_HEADER_BYTES stream with
  | Err _ => None
  | Ok (line, _, rest) =>
      match words EmptyString (trim_end line) with
      | m :: target :: _ :: _ =>
          if eq_ignore_ascii_case m "CONNECT" then Some (canonical_host target)
          else match read_plain_http_headers MAX_HEADER_COUNT MAX_HEADER_BYTES rest with
               | Ok (lines, _) => Some (strip_host_port (parse_plain_http_host target lines))
               | Err _ => None
               end
      | _ => None
      end
  end.

Lemma revoked_tunnel_silent rest target inner :
  is_llm (canonical_host target) = true → injection_for (ps_credentials server) now (canonical_host target) = Revoked →
  silent (snd (handle_connect_tunnel client_tls now_ms now server rest target inner)).
Proof.
  intros Hl Hi. unfold handle_connect_tunnel. destruct (drain_connect_head _ _ _ rest) as [[probe rest1]|e]; [|apply silent_fail].
  destruct (names_no_host target); [unfold connect_refusal, emit_rule_refusal; quieten|].
  destruct (egress_deny_reason _ _ _ _ _); [unfold connect_refusal, emit_rule_refusal; quieten|].
  assert (should_mitm (ps_config server) (ps_chained server) (canonical_host target) = true) as Hm by (unfold should_mitm; by rewrite Hl).
  rewrite Hm, Hl, andb_false_r, !trace_tell. cbn [orb]. constructor; [done|]. constructor; [done|].
  destruct (client_tls _); cbn [negb]; [|apply silent_fail]. unfold handle_llm_mitm.
  destruct (read_http_request inner) as [[[req rest2]|]|e]; [|constructor..]. destruct (in_tunnel_deny_reason _ _ req); [apply silent_in_tunnel|].
  rewrite trace_bind. apply Forall_app. split; [destruct (decide _); by repeat constructor|].
  destruct (probe_correlation req); [apply silent_probe|]. destruct (decide _); [apply silent_block|]. rewrite Hi.
  unfold emit_rule_refusal. quieten.
Qed.

(** A plain request to a provider is refused, revoked or not. *)
Lemma plain_llm_silent rest line m target lines rest1 :
  read_plain_http_headers MAX_HEADER_COUNT MAX_HEADER_BYTES rest = Ok (lines, rest1) →
  is_llm (strip_host_port (parse_plain_http_host target lines)) = true →
  silent (snd (handle_plain_http now_ms server rest line m target)).
Proof.
  intros Hr Hl. unfold handle_plain_http. rewrite Hr, Hl.
  destruct (plain_destination_conflicts _ _ _); [apply silent_plain_refusal|].
  destruct (names_no_host _); [apply silent_plain_refusal|]. destruct (egress_deny_reason _ _ _ _ _); apply silent_plain_refusal.
Qed.

(** C29: When the credential of a provider the proxy knows by name is revoked, nothing goes
    out of a connection to that host, whatever else the client sends, neither through a
    tunnel nor as a plain request: no address is dialled and the request is not sent with
    the agent's own headers instead. *)
Theorem revoked_stops_llm stream inner host :
  destination stream = Some host → is_llm host = true → injection_for (ps_credentials server) now host = Revoked →
  silent (snd (handle_connection client_tls now_ms now server stream inner)).
Proof.
  unfold destination, handle_connection. intros Hd Hl Hi.
  destruct (read_line_capped _ _ stream) as [[[line n] rest]|e]; [|done].
  destruct (words EmptyString (trim_end line)) as [|m [|target [|v ws]]]; [done..|].
  destruct (eq_ignore_ascii_case m "CONNECT"); [injection Hd as <-; by apply revoked_tunnel_silent|].
  destruct (read_plain_http_headers _ _ rest) as [[lines rest1]|e] eqn:Hr; [|done]. injection Hd as <-. by eapply plain_llm_silent.
Qed.
End Server.

(** ** A concrete proxy *)

(** A scanner that finds the word SECRET at the start of a text. *)
#[local] Instance word_detectors : Detectors := {|
  scanner_scan text := if starts_with text "SECRET" then [cf_new Kind.AwsAccessKey 0 6] else [];
  regex := string;
  regex_new pattern := Some pattern;
  find_iter _ _ := [];
  zh_tw_scan _ := [];
  security_version := "1.0";
|}.

#[local] Instance no_inflate : Inflate := {| multi_gz _ := None; zlib _ := None; raw_deflate _ := None |}.

(** One name resolves to a public and to a private address, the other to loopback. *)
#[local] Instance sample_net : Net := {|
  lookup_host text :=
    if String.eqb text "api.openai.com:443" then Some [(Ip.V4 167772161, 443); (Ip.V4 1746927617, 443)]
    else if String.eqb text "files.example:80" then Some [(Ip.V4 1746927618, 80)]
    else Some [(Ip.V4 2130706433, 443)];
  check_action _ _ _ := None;
  debug_text s := s;
  code_text _ := "code";
  tcp_connect _ := true;
  tls_connect _ := true;
  chain_connect _ := true;
|}.

(** No gateway. *)
#[local] Instance no_serde : Serde := {|
  json_document _ := None; from_str_value _ := None; from_str_envelope _ := None; to_vec _ := "null"; to_json_string s := s |}.

#[local] Instance no_gateway : McpGateway := {| check_tool_call _ := Rpc.Failed; check_tool_result _ := Err None |}.

Definition sample_config : ProxyConfig := {|
  llm_only := true; mitm_hosts := []; denied_hosts := ["Evil.example."]; network_allowlist := ["*.openai.com"; "*.example"];
  credential_action := OnFinding.RedactOnly; upstream_override := None; gateway_endpoint := None; mcp_fail_open := false;
  network_fail_open := false; allow_private_connect_targets := false; cfg_agent_id := Some "agent-1" |}.

Definition sample_server (credentials : gmap string Entry) : ProxyServer := {|
  ps_config := sample_config; ps_scanner := true; ps_audit_sink := Some (λ _, true); ps_connected := false;
  ps_credentials := credentials; ps_chained := None |}.

Definition all_tls (_ : string) : bool := true.

Definition text_of_lines (ls : list string) (after : string) : string :=
  foldr (λ l t, String.append l (String.append CRLF t)) after ls.

Definition connect_bytes : string := text_of_lines ["CONNECT api.openai.com:443 HTTP/1.1"; "Host: x"; ""] "".
Definition secret_request : string :=
  text_of_lines ["POST /v1/chat HTTP/1.1"; "Host: api.openai.com"; "X-Api-Key: mine"; "Content-Length: 9"; ""] "SECRET-it".

Definition run (credentials : gmap string Entry) (stream inner : string) : list Effect :=
  snd (handle_connection all_tls 7 0 (sample_server credentials) stream inner).

Definition real_key : gmap string Entry := from_pairs [("api.openai.com", "sk-real")].

(** The scrubbed request goes to the public address, with the real key. *)
Definition sample_sent : Effect :=
  SendUpstream (text_of_lines ["POST /v1/chat HTTP/1.1"; "Host: api.openai.com"; "Authorization: Bearer sk-real";
    "Connection: close"; "Content-Length: 26"; ""] "[REDACTED:AwsAccessKey]-it").

Lemma sample_run :
  filter (λ e, outward e = true) (run real_key connect_bytes secret_request)
  = [Connect [(Ip.V4 1746927617, 443)]; sample_sent].
Proof. by vm_compute. Qed.

Lemma sample_in_run e :
  e ∈ [Connect [(Ip.V4 1746927617, 443)]; sample_sent] → e ∈ run real_key connect_bytes secret_request.
Proof. rewrite <-sample_run. by intros [_ ?]%list_elem_of_filter. Qed.

(** The private address of the name is not dialled. *)
Lemma dials_only_public_witness :
  production (sample_server real_key) ∧ Forall (may_dial (sample_server real_key)) (run real_key connect_bytes secret_request) ∧
  Connect [(Ip.V4 1746927617, 443)] ∈ run real_key connect_bytes secret_request.
Proof.
  split; [done|]. split; [|apply sample_in_run; by left].
  apply (dials_only_public all_tls 7 0 (sample_server real_key) connect_bytes secret_request); [done|reflexivity].
Defined.

Lemma egress_is_judged_witness :
  judged (sample_server real_key) connect_bytes (Connect [(Ip.V4 1746927617, 443)]) ∧
  judged (sample_server real_key) connect_bytes sample_sent.
Proof.
  split; apply (egress_is_judged all_tls 7 0 (sample_server real_key) connect_bytes secret_request
                  (run real_key connect_bytes secret_request)); try done; apply sample_in_run; set_solver.
Defined.

Lemma what_leaves_was_inspected_witness : leaves_inspected (sample_server real_key) connect_bytes secret_request sample_sent.
Proof.
  apply (what_leaves_was_inspected all_tls 7 0 (sample_server real_key) connect_bytes secret_request
           (run real_key connect_bytes secret_request)); [done|]. apply sample_in_run. set_solver.
Defined.

(** The request that is sent has a record before it that says so. *)
Lemma records_are_true_witness :
  ∃ t1 t2 en, run real_key connect_bytes secret_request = t1 ++ sample_sent :: t2 ∧ Audited en ∈ t1 ∧
    proves_transmission (transmission (pe_execution en)) = true.
Proof.
  exists (take 5 (run real_key connect_bytes secret_request)), [RelayResponse].
  assert (run real_key connect_bytes secret_request =
            take 5 (run real_key connect_bytes secret_request) ++ sample_sent :: [RelayResponse]) as Hrun by (by vm_compute).
  destruct (records_are_true all_tls 7 0 (sample_server real_key) connect_bytes secret_request
              (run real_key connect_bytes secret_request)) as [_ Hafter]; [done|].
  destruct (Hafter _ _ _ (λ _, true) Hrun) as (en & Hp & Hen); [done..|]. exists en. by split.
Defined.

Definition revoked_key : gmap string Entry := fst (revoke real_key "api.openai.com").

Lemma revoked_stops_llm_witness :
  let inner := text_of_lines ["GET / HTTP/1.1"; "Host: api.openai.com"; ""] "" in
  silent (run revoked_key connect_bytes inner) ∧ Reply credential_revoked_response ∈ run revoked_key connect_bytes inner ∧
  silent (run revoked_key (text_of_lines ["GET http://api.openai.com/v1 HTTP/1.1"; "Host: api.openai.com"; ""] "") "").
Proof.
  split_and!; [|apply (list_elem_of_lookup_2 _ 4); by vm_compute|].
  - by apply (revoked_stops_llm all_tls 7 0 (sample_server revoked_key) _ _ "api.openai.com"); vm_compute.
  - by apply (revoked_stops_llm all_tls 7 0 (sample_server revoked_key) _ _ "api.openai.com"); vm_compute.
Defined.

(** ** Gaps *)

(** A space before the colon hides the transfer coding of a plain request: the guard against
    chunked bodies looks for the name and the colon, the line is forwarded, and the scanner has
    seen the chunks and not what they carry. *)
Lemma spaced_transfer_encoding_is_forwarded :
  let stream := text_of_lines ["POST http://files.example/up HTTP/1.1"; "Transfer-Encoding : chunked"; "Content-Length: 24"; ""]
                  (text_of_lines ["3"; "SEC"; "6"; "RET-it"; "0"; ""] "") in
  SendUpstream (text_of_lines ["POST http://files.example/up HTTP/1.1"; "Transfer-Encoding : chunked"; "Content-Length: 24";
    "Connection: close"; ""] (text_of_lines ["3"; "SEC"; "6"; "RET-it"; "0"; ""] "")) ∈ run ∅ stream "".
Proof. apply (list_elem_of_lookup_2 _ 2). by vm_compute. Qed.

(** A line break inside a provider's key is kept, so that what is injected is two headers. *)
Lemma line_break_in_key_adds_header :
  let store := from_env (Some (String.append "api.openai.com=sk-1" (String.append CRLF "X-Extra: 1"))) in
  existsb (λ e, match e with
                | SendUpstream bytes =>
                    match read_http_request bytes with
                    | Ok (Some (req, _)) => bool_decide (header req "X-Extra" = Some "1")
                    | _ => false
                    end
                | _ => false
                end) (run store connect_bytes secret_request) = true.
Proof. by vm_compute. Qed.

(** A plain request to an endpoint declared as an LLM is sent although its key is revoked:
    only the providers known by name are refused in the clear. *)
Lemma declared_endpoint_plain_is_sent :
  let cfg := {| cu_endpoint := {| te_scheme := Upstream.Https; te_host := "proxy.example"; te_port := 3128;
                                  te_pinned_addr := (Ip.V4 1746927619, 3128); te_auth := None |};
                cu_destinations := [{| dd_host := "files.example"; dd_port := 443 |}]; cu_llm_endpoints := ["files.example"] |} in
  let server := {| ps_config := sample_config; ps_scanner := true; ps_audit_sink := None; ps_connected := false;
                   ps_credentials := fst (revoke (from_pairs [("files.example", "sk-1")]) "files.example");
                   ps_chained := Some cfg |} in
  let stream := text_of_lines ["GET http://files.example/v1 HTTP/1.1"; "Authorization: Bearer mine"; ""] "" in
  is_declared_llm_endpoint (Some cfg) "files.example" = true ∧
  injection_for (ps_credentials server) 0 "files.example" = Revoked ∧
  existsb (λ e, match e with SendUpstream _ => true | _ => false end)
    (snd (handle_connection all_tls 7 0 server stream "")) = true.
Proof. by vm_compute. Qed.

(** A bracketed address without a port gets none. *)
Lemma bracketed_plain_host_has_no_port : plain_upstream_addr "[2606:4700::1111]" = "[2606:4700::1111]".
Proof. done. Qed.

(** An endpoint declared as an LLM and not as a destination is valid, and is tunnelled. *)
Lemma declared_endpoint_is_tunnelled :
  let raw := {| rt_endpoint := Some (Upstream.Https, "proxy.example", 3128, None); rt_destinations := [];
                rt_llm_endpoints := ["llm.example"] |} in
  ∃ cfg, load_and_validate (Ok raw) (λ _, "3128") (Ip.V4 2130706433, 8899) = Ok (Some cfg) ∧
    is_declared_llm_endpoint (Some cfg) "llm.example" = true ∧ should_mitm sample_config (Some cfg) "llm.example" = false.
Proof. eexists. split; [by vm_compute|]. by vm_compute. Qed.
