(* ===== verification/McpFlow.v ===== *)
(** * McpFlow: an exchange through an enforcing proxy

    The handler of a tunnel, the judgement of the request and the relay of the response
    together. *)

From stdpp Require Import base strings list gmap.
From Stdlib Require Import ZArith Lia Bool Ascii String.
From S2P Require Import Prelude.
From S2P Require Import Text.
From S2P Require Import Findings.
From S2P Require Import Detection.
From S2P Require Import RuntimeQuery.
From S2P Require Import NetAddr.
From S2P Require Import HttpCodec.
From S2P Require Import Intercept.
From S2P Require Import JsonText.
From S2P Require Import Sse.
From S2P Require Import ResponseCodec.
From S2P Require Import BodyProps.
From S2P Require Import Credentials.
From S2P Require Import ProxyEgress.
From S2P Require Import Mcp.
From S2P Require Import ResponseRelay.
From S2P Require Import ResponseProps.
From S2P Require Import McpProps.
From S2P Require Import Proxy.
From S2P Require Import ProxyProps.

Open Scope Z_scope.
Open Scope aasm_scope.

#[local] Arguments ascii_dec : simpl never.

Section Flow.
Context {DT : Detectors} {IF : Inflate} {SD : Serde} {SL : SerdeLaws SD} {N : Net} {GW : McpGateway}.
Context (now_ms : Z) (server : ProxyServer) (host target : string) (route : option ChainedRoute) (inner : string).

Let config := ps_config server.

(** The call a forwarded exchange is recognised as. *)
Definition recognised_call (o : McpEvalOutcome) : option (McpToolCall * string) :=
  match o with
  | McpForward call args | McpForwardUnevaluated call args => Some (call, args)
  | McpForwardResponseOnly call => Some (call, EmptyString)
  | _ => None
  end.

Definition exchange_url (req : HttpRequest) : string := String.append "https://" (as_bytes (String.append host (rq_target req))).

(** One effect of an exchange whose request is [req] and whose judgement is [o]. *)
Definition lawful_effect (req : HttpRequest) (o : McpEvalOutcome) (eff : Effect) : Prop :=
  match eff with
  | SendUpstream b =>
      judged_exchange config (ps_connected server) req host o ∧ (∀ r, o ≠ McpDeny r) ∧
      b = serialize_http_request req (forward_body (intercept_request (ps_scanner server) (body req) (content_encoding req) (credential_action config)) (body req))
  | RelayEnforced c url => c = recognised_call o ∧ url = exchange_url req
  | RelayResponse | Tunnel _ => False
  | _ => True
  end.

Lemma lawful_record req o r ev : Forall (lawful_effect req o) (snd (send_record now_ms server r ev)).
Proof.
  rewrite trace_send_record. destruct (ps_audit_sink server); [|constructor].
  constructor; [unfold try_send; by case_match|constructor].
Qed.

Lemma lawful_connect req o t : Forall (lawful_effect req o) (snd (connect_revalidated server t)).
Proof.
  unfold connect_revalidated. destruct (safe_addresses _ _); autorewrite with trace; [|constructor]. constructor; [done|].
  by destruct (tcp_connect _); constructor.
Qed.

Lemma lawful_override req o addr : Forall (lawful_effect req o) (snd (connect_override addr)).
Proof. unfold connect_override. autorewrite with trace. constructor; [done|]. by destruct (tcp_connect _); constructor. Qed.

Lemma lawful_dial req o : Forall (lawful_effect req o) (snd (dial_upstream_tls server host target route)).
Proof.
  unfold dial_upstream_tls. rewrite trace_and. apply Forall_app. split.
  - destruct route as [r|]; [autorewrite with trace; constructor; [done|]; by destruct (chain_connect r); constructor|].
    destruct (upstream_override _); [apply lawful_override|apply lawful_connect].
  - destruct (fst _); [|constructor]. by destruct (tls_connect host); constructor.
Qed.

Lemma lawful_forward req o relay :
  judged_exchange config (ps_connected server) req host o → (∀ r, o ≠ McpDeny r) → lawful_effect req o relay →
  Forall (lawful_effect req o) (snd (non_llm_forward now_ms server relay host target route req)).
Proof.
  intros Hj Hd Hr. unfold non_llm_forward. fold config. destruct (decide _).
  { unfold block_verdict_refusal, emit_audit_entry. autorewrite with trace. apply Forall_app. split; [apply lawful_record|by repeat constructor]. }
  rewrite trace_bind, trace_and. repeat (apply Forall_app; split).
  - unfold record_forwarding, persist. destruct (option_map _ _); [apply lawful_record|constructor].
  - apply lawful_dial.
  - destruct (fst _); [|constructor]. autorewrite with trace. constructor; [|by constructor]. split_and!; done.
Qed.

End Flow.

(** ** A concrete exchange *)

#[local] Existing Instances sample_serde sample_serde_laws sample_detectors sample_inflate sample_gateway.

#[local] Instance open_net : Net := {|
  lookup_host _ := Some [(Ip.V4 1746927617, 443)]; check_action _ _ _ := Some (respond 1 EmptyString); debug_text s := s; code_text _ := "code";
  tcp_connect _ := true; tls_connect _ := true; chain_connect _ := true |}.

Definition flow_server : ProxyServer := {|
  ps_config := McpProps.sample_config; ps_scanner := true; ps_audit_sink := Some (λ _, true); ps_connected := true;
  ps_credentials := ∅; ps_chained := None |}.

Definition post_bytes (t : Json) : string :=
  String.append (crlf_lines ["POST /mcp HTTP/1.1"; "Host: mcp.example"; "Content-Type: application/json";
                             String.append "Content-Length: " (decimal (N.of_nat (String.length (render t)))); ""]) (render t).

Definition flow (t : Json) : list Effect :=
  snd (handle_non_llm_mitm 7 flow_server "mcp.example" "mcp.example:443" None (post_bytes t)).

Definition sent_upstream (t : Json) : option Effect := List.find (λ e, match e with SendUpstream _ => true | _ => false end) (flow t).


