(* ===== verification/Topology.v ===== *)
(** * Topology: the edges between agents and the two cycle detectors

    aa-core/src/topology (edge.rs, cycle.rs) and aa-gateway/src/edges/cycle.rs: the edge
    types and records, Tarjan's search for a strongly connected component that is a cycle,
    and the depth-first search that answers a path.

    A hash map or set is iterated in an order of its own: that order is an argument, a list.
    [metadata] is a JSON value the code only carries, of a type [M].  A search that runs out
    of fuel, indexes a map at a missing key or pops an empty stack answers [None]; this file and
    TarjanProps prove that none of these happens. *)

From stdpp Require Import base gmap strings list sets relations sorting.
From Stdlib Require Import ZArith Lia Bool String.
From S2P Require Import Prelude.
From S2P Require Import CoreTypes.

Open Scope Z_scope.
Open Scope aasm_scope.

(** ** Edges *)

Inductive EdgeType := DelegatesTo | Calls | Reads | Writes | Approves | Messages.

#[export] Instance EdgeType_eq_dec : EqDecision EdgeType.
Proof. solve_decision. Defined.

#[export] Instance EdgeType_countable : Countable EdgeType.
Proof.
  refine (inj_countable'
    (λ t, match t with DelegatesTo => 0 | Calls => 1 | Reads => 2 | Writes => 3 | Approves => 4 | Messages => 5 end)%nat
    (λ n, match n with 0 => DelegatesTo | 1 => Calls | 2 => Reads | 3 => Writes | 4 => Approves | _ => Messages end%nat) _).
  by intros [].
Defined.

Definition edge_type_as_str (t : EdgeType) : string :=
  match t with
  | DelegatesTo => "delegates_to"
  | Calls => "calls"
  | Reads => "reads"
  | Writes => "writes"
  | Approves => "approves"
  | Messages => "messages"
  end.

Definition ALL : list EdgeType := [DelegatesTo; Calls; Reads; Writes; Approves; Messages].

(** [EdgeType::try_from]; the error carries the text. *)
Definition edge_type_try_from (s : string) : result EdgeType string :=
  if String.eqb s "delegates_to" then Ok DelegatesTo
  else if String.eqb s "calls" then Ok Calls
  else if String.eqb s "reads" then Ok Reads
  else if String.eqb s "writes" then Ok Writes
  else if String.eqb s "approves" then Ok Approves
  else if String.eqb s "messages" then Ok Messages
  else Err s.

(** An edge to record and a recorded edge: typed in aa-core, with the type as a text in the
    gateway's older store. *)
Record NewEdgeOf (T M : Type) := {
  ne_source : AgentId;
  ne_target : AgentId;
  ne_edge_type : T;
  ne_metadata : option M;
}.
#[global] Arguments ne_source {T M} _.
#[global] Arguments ne_target {T M} _.
#[global] Arguments ne_edge_type {T M} _.
#[global] Arguments ne_metadata {T M} _.

Record EdgeOf (T M : Type) := {
  e_id : Z;
  e_source : AgentId;
  e_target : AgentId;
  e_edge_type : T;
  e_created_at : Z;
  e_metadata : option M;
}.
#[global] Arguments e_id {T M} _.
#[global] Arguments e_source {T M} _.
#[global] Arguments e_target {T M} _.
#[global] Arguments e_edge_type {T M} _.
#[global] Arguments e_created_at {T M} _.
#[global] Arguments e_metadata {T M} _.

Definition NewEdge : Type → Type := NewEdgeOf EdgeType.
Definition Edge : Type → Type := EdgeOf EdgeType.

(** ** Adjacency *)

Abbreviation Adj := (gmap AgentId (list AgentId)).

(** [adj.get(&v)], an absent key read as the empty list. *)
Definition neighbours (adj : Adj) (v : AgentId) : list AgentId := default [] (adj !! v).

(** ** Depth-first search: edges/cycle.rs *)

Module Dfs.
(** The three collections of [detect_cycle]; [stack] is the [Vec], last element on top. *)
Record DfsState := {
  visited : gset AgentId;
  on_stack : gset AgentId;
  stack : list AgentId;
}.

Abbreviation Answer := (option (option (list AgentId) * DfsState)).

Definition init : DfsState := {| visited := ∅; on_stack := ∅; stack := [] |}.

Definition enter (node : AgentId) (s : DfsState) : DfsState := {|
  visited := {[node]} ∪ visited s;
  on_stack := {[node]} ∪ on_stack s;
  stack := stack s ++ [node] |}.

Definition leave (node : AgentId) (s : DfsState) : DfsState := {|
  visited := visited s;
  on_stack := on_stack s ∖ {[node]};
  stack := removelast (stack s) |}.

(** The path of a back edge: the stack from the neighbour on, and the neighbour again. *)
Definition back_path (neighbor : AgentId) (s : DfsState) : list AgentId :=
  let cycle_start := default 0%nat (fst <$> list_find (λ n, n = neighbor) (stack s)) in
  drop cycle_start (stack s) ++ [neighbor].

(** The loop over the neighbours; [rec] is the recursive call. *)
Fixpoint dfs_neighbors (rec : AgentId → DfsState → Answer) (neighbors : list AgentId) (s : DfsState) : Answer :=
  match neighbors with
  | [] => Some (None, s)
  | neighbor :: rest =>
      if decide (neighbor ∉ visited s) then
        match rec neighbor s with
        | Some (None, s') => dfs_neighbors rec rest s'
        | r => r
        end
      else if decide (neighbor ∈ on_stack s) then Some (Some (back_path neighbor s), s)
      else dfs_neighbors rec rest s
  end.

Fixpoint dfs (fuel : nat) (adj : Adj) (node : AgentId) (s : DfsState) : Answer :=
  match fuel with
  | O => None
  | S fuel' =>
      match dfs_neighbors (dfs fuel' adj) (neighbours adj node) (enter node s) with
      | Some (None, s') => Some (None, leave node s')
      | r => r
      end
  end.

Fixpoint start_all (fuel : nat) (adj : Adj) (keys : list AgentId) (s : DfsState) : Answer :=
  match keys with
  | [] => Some (None, s)
  | start :: rest =>
      if decide (start ∉ visited s) then
        match dfs fuel adj start s with
        | Some (None, s') => start_all fuel adj rest s'
        | r => r
        end
      else start_all fuel adj rest s
  end.

(** [detect_cycle(adj)] when [adj.keys()] yields [keys]. *)
Definition detect_cycle (fuel : nat) (adj : Adj) (keys : list AgentId) : option (option (list AgentId)) :=
  fst <$> start_all fuel adj keys init.
End Dfs.

(** ** Strongly connected components: topology/cycle.rs *)

Module Tarjan.
(** [TarjanState] without its two borrowed collections; [stack] has its top first. *)
Record TarjanState := {
  index_counter : Z;
  stack : list AgentId;
  on_stack : gset AgentId;
  index_map : gmap AgentId Z;
  lowlink : gmap AgentId Z;
}.

Abbreviation Answer := (option (option (list AgentId) * TarjanState)).

Definition init : TarjanState :=
  {| index_counter := 0; stack := []; on_stack := ∅; index_map := ∅; lowlink := ∅ |}.

(** What [cycle_detect] gathers from the edges. *)
Record Graph := { g_adj : Adj; g_nodes : gset AgentId; g_self_loops : gset AgentId }.

Definition add_edge {M} (g : Graph) (edge : Edge M) : Graph := {|
  g_adj := <[e_source edge := neighbours (g_adj g) (e_source edge) ++ [e_target edge]]> (g_adj g);
  g_nodes := {[e_target edge]} ∪ ({[e_source edge]} ∪ g_nodes g);
  g_self_loops := if decide (e_source edge = e_target edge) then {[e_source edge]} ∪ g_self_loops g
                  else g_self_loops g |}.

Definition graph_of {M} (edges : list (Edge M)) : Graph :=
  foldl add_edge {| g_adj := ∅; g_nodes := ∅; g_self_loops := ∅ |} edges.

(** The first five statements of [strongconnect]; the counter is a [u32]. *)
Definition discover (v : AgentId) (s : TarjanState) : TarjanState := {|
  index_counter := (index_counter s + 1) mod 2 ^ 32;
  stack := v :: stack s;
  on_stack := {[v]} ∪ on_stack s;
  index_map := <[v := index_counter s]> (index_map s);
  lowlink := <[v := index_counter s]> (lowlink s) |}.

(** [*lowlink.get_mut(&v).unwrap() = lowlink[&v].min(n)]. *)
Definition lower (v : AgentId) (n : Z) (s : TarjanState) : option TarjanState :=
  match lowlink s !! v with
  | Some l => Some {| index_counter := index_counter s; stack := stack s; on_stack := on_stack s;
                      index_map := index_map s; lowlink := <[v := Z.min l n]> (lowlink s) |}
  | None => None
  end.

Definition pop (w : AgentId) (rest : list AgentId) (s : TarjanState) : TarjanState := {|
  index_counter := index_counter s; stack := rest; on_stack := on_stack s ∖ {[w]};
  index_map := index_map s; lowlink := lowlink s |}.

(** The loop of [pop_scc], over what is left of the stack. *)
Fixpoint pop_loop (v : AgentId) (stk : list AgentId) (s : TarjanState) (scc : list AgentId)
  : option (list AgentId * TarjanState) :=
  match stk with
  | [] => None
  | w :: rest =>
      if decide (w = v) then Some (scc ++ [w], pop w rest s)
      else pop_loop v rest (pop w rest s) (scc ++ [w])
  end.

Definition pop_scc (v : AgentId) (s : TarjanState) : option (list AgentId * TarjanState) :=
  pop_loop v (stack s) s [].

Fixpoint neighbors_loop (rec : AgentId → TarjanState → Answer) (v : AgentId) (neighbors : list AgentId)
    (s : TarjanState) : Answer :=
  match neighbors with
  | [] => Some (None, s)
  | w :: rest =>
      match index_map s !! w with
      | None =>
          match rec w s with
          | Some (None, s') =>
              match lowlink s' !! w ≫= λ w_low, lower v w_low s' with
              | Some s'' => neighbors_loop rec v rest s''
              | None => None
              end
          | r => r
          end
      | Some w_idx =>
          if decide (w ∈ on_stack s) then
            match lower v w_idx s with
            | Some s' => neighbors_loop rec v rest s'
            | None => None
            end
          else neighbors_loop rec v rest s
      end
  end.

(** The end of [strongconnect]: the component of a root. *)
Definition close_root (g : Graph) (v : AgentId) (s : TarjanState) : Answer :=
  match lowlink s !! v, index_map s !! v with
  | Some low, Some idx =>
      if decide (low = idx) then
        match pop_scc v s with
        | Some (first :: others, s') =>
            if (1 <? List.length (first :: others))%nat || bool_decide (first ∈ g_self_loops g)
            then Some (Some (first :: others), s') else Some (None, s')
        | _ => None
        end
      else Some (None, s)
  | _, _ => None
  end.

Fixpoint strongconnect (fuel : nat) (g : Graph) (v : AgentId) (s : TarjanState) : Answer :=
  match fuel with
  | O => None
  | S fuel' =>
      match neighbors_loop (strongconnect fuel' g) v (neighbours (g_adj g) v) (discover v s) with
      | Some (None, s') => close_root g v s'
      | r => r
      end
  end.

Fixpoint start_all (fuel : nat) (g : Graph) (nodes : list AgentId) (s : TarjanState) : Answer :=
  match nodes with
  | [] => Some (None, s)
  | node :: rest =>
      match index_map s !! node with
      | None =>
          match strongconnect fuel g node s with
          | Some (None, s') => start_all fuel g rest s'
          | r => r
          end
      | Some _ => start_all fuel g rest s
      end
  end.

(** [cycle_detect(edges)] when [all_nodes] is iterated in the order [nodes]. *)
Definition cycle_detect {M} (fuel : nat) (edges : list (Edge M)) (nodes : list AgentId)
  : option (option (list AgentId)) :=
  fst <$> start_all fuel (graph_of edges) nodes init.
End Tarjan.

(** ** Both cycle detectors are exact

    For every graph and every order in which the hash tables yield their keys, each detector
    ends, never fails on a missing key or an empty stack, answers a cycle of the graph or
    that there is none, and the two agree. *)

(** ** Graphs *)

Definition edge (adj : Adj) (a b : AgentId) : Prop := b ∈ neighbours adj a.

(** No agent reaches itself. *)
Definition acyclic (adj : Adj) : Prop := ∀ x, ¬ tc (edge adj) x x.

(** A walk: every element is a neighbour of the one before. *)
Fixpoint chain (adj : Adj) (l : list AgentId) : Prop :=
  match l with
  | x :: ((y :: _) as rest) => edge adj x y ∧ chain adj rest
  | _ => True
  end.

(** A closed walk of at least one step. *)
Definition closed_walk (adj : Adj) (p : list AgentId) : Prop :=
  ∃ x q, p = x :: q ++ [x] ∧ chain adj p.

(** A set of agents nobody in which lies on a cycle, closed under edges. *)
Definition settled (adj : Adj) (B : gset AgentId) : Prop :=
  ∀ x, x ∈ B → (∀ y, edge adj x y → y ∈ B) ∧ ¬ tc (edge adj) x x.

(** The agents of a graph: [U] holds [keys] and is closed under edges. *)
Definition universe (adj : Adj) (U : gset AgentId) : Prop := ∀ x y, x ∈ U → edge adj x y → y ∈ U.

Section Graphs.
Context (adj : Adj).

Lemma chain_suffix l1 l2 : chain adj (l1 ++ l2) → chain adj l2.
Proof.
  induction l1 as [|x l1 IH]; [done|]. simpl. destruct (l1 ++ l2) eqn:E; [|tauto].
  apply app_eq_nil in E as [-> ->]. done.
Qed.

Lemma chain_snoc l x y : chain adj (l ++ [x]) → edge adj x y → chain adj (l ++ [x; y]).
Proof.
  induction l as [|z l IH]; [done|]. simpl. intros Hc Hxy.
  destruct l; simpl in *; tauto.
Qed.

Lemma chain_tc x q y : chain adj (x :: q ++ [y]) → tc (edge adj) x y.
Proof.
  revert x. induction q as [|z q IH]; intros x; simpl.
  - intros [H _]. by apply tc_once.
  - intros [H Hc]. eapply tc_l; [done|]. by apply IH.
Qed.

Lemma closed_walk_tc p : closed_walk adj p → ∃ x, tc (edge adj) x x.
Proof. intros (x & q & -> & Hc). exists x. by eapply chain_tc. Qed.

Lemma settled_tc B x y : settled adj B → x ∈ B → tc (edge adj) x y → y ∈ B.
Proof.
  intros HB Hx Hxy. revert Hx. induction Hxy as [x y H|x y z H _ IH]; intros Hx.
  - by apply (proj1 (HB x Hx)).
  - apply IH. by apply (proj1 (HB x Hx)).
Qed.

Lemma settled_add B v :
  settled adj B → v ∉ B → (∀ y, edge adj v y → y ∈ B) → settled adj ({[v]} ∪ B).
Proof.
  intros HB Hv Hout x Hx. apply elem_of_union in Hx as [->%elem_of_singleton|Hx].
  - split; [set_solver|]. intros Hc. inversion Hc as [? H| ? y ? H Hy]; subst.
    + by apply Hv, Hout.
    + apply Hv. eapply settled_tc; [done| |done]. by apply Hout.
  - destruct (HB x Hx) as [Ho Hn]. split; [|done]. intros y Hy. apply elem_of_union_r. by apply Ho.
Qed.

Lemma settled_acyclic B : settled adj B → (∀ x y, edge adj x y → x ∈ B) → acyclic adj.
Proof.
  intros HB Hall x Hc. assert (x ∈ B) as Hx; [|by destruct (HB x Hx)].
  inversion Hc; subst; by eapply Hall.
Qed.

Lemma edge_dom x y : edge adj x y → x ∈ dom adj.
Proof.
  unfold edge, neighbours. intros H. apply elem_of_dom.
  destruct (adj !! x) as [ns|]; [by eauto|]. by apply not_elem_of_nil in H.
Qed.
End Graphs.

(** ** The depth-first search *)

Section DepthFirst.
Import Dfs.
Context (adj : Adj) (U : gset AgentId) (HU : universe adj U).

Record dfs_inv (s : DfsState) : Prop := {
  di_on_stack : on_stack s = list_to_set (stack s);
  di_nodup : NoDup (stack s);
  di_stack x : x ∈ stack s → x ∈ visited s;
  di_chain : chain adj (stack s);
  di_settled : settled adj (visited s ∖ on_stack s);
  di_bound : visited s ⊆ U;
}.

(** What a call that found nothing leaves. *)
Record dfs_rest (s s' : DfsState) : Prop := {
  dr_inv : dfs_inv s';
  dr_stack : stack s' = stack s;
  dr_visited : visited s ⊆ visited s';
}.

Definition dfs_spec (s : DfsState) (done : DfsState → Prop) (a : Dfs.Answer) : Prop :=
  ∃ r s', a = Some (r, s') ∧
    match r with Some p => closed_walk adj p | None => dfs_rest s s' ∧ done s' end.

Lemma back_path_closed s l v w :
  stack s = l ++ [v] → chain adj (stack s) → edge adj v w → w ∈ stack s → closed_walk adj (back_path w s).
Proof.
  intros Hs Hc Hvw Hw. unfold back_path.
  destruct (list_find_elem_of (λ n, n = w) (stack s) w Hw eq_refl) as [[i x] Hf].
  rewrite Hf. simpl. apply list_find_Some in Hf as (Hi & -> & _).
  rewrite (drop_S _ _ _ Hi). exists w, (drop (S i) (stack s)). split; [done|].
  rewrite <- (drop_S _ _ _ Hi).
  assert (∃ m, drop i (stack s) = m ++ [v]) as [m Hm].
  { rewrite Hs. apply lookup_lt_Some in Hi. rewrite Hs, length_app in Hi. simpl in Hi.
    exists (drop i l). rewrite drop_app_le by lia. done. }
  rewrite Hm, <- app_assoc. apply chain_snoc; [|done]. rewrite <- Hm.
  eapply (chain_suffix _ (take i (stack s))). by rewrite take_drop.
Qed.

Lemma dfs_neighbors_ok rec v l : ∀ ns s,
  (∀ w s1, dfs_rest s s1 → w ∉ visited s1 → edge adj v w →
     dfs_spec s1 (λ s', w ∈ visited s') (rec w s1)) →
  dfs_inv s → stack s = l ++ [v] → (∀ w, w ∈ ns → edge adj v w) →
  dfs_spec s (λ s', ∀ w, w ∈ ns → w ∈ visited s' ∖ on_stack s') (dfs_neighbors rec ns s).
Proof.
  assert (Hsame : ∀ s s', dfs_inv s → dfs_rest s s' → on_stack s' = on_stack s).
  { intros s s' H [H' Hst _]. by rewrite (di_on_stack _ H), (di_on_stack _ H'), Hst. }
  induction ns as [|w ns IH]; intros s Hrec Hs Hl Hns; simpl.
  { eexists None, s. split; [done|]. split; [by split|]. intros w Hw. by apply not_elem_of_nil in Hw. }
  assert (edge adj v w) as Hvw by (apply Hns; left).
  assert (∀ w, w ∈ ns → edge adj v w) as Hns' by (intros; apply Hns; by right).
  destruct (decide (w ∉ visited s)) as [Hw|Hw%dec_stable].
  - destruct (Hrec w s) as (r & s1 & -> & Hr); [by split|done|done|].
    destruct r as [p|]; [by exists (Some p), s1|]. destruct Hr as [Hr Hw1].
    destruct (IH s1) as (r & s2 & -> & Hr2); [|by apply Hr|by rewrite (dr_stack _ _ Hr)|done|].
    { intros w' s' Hs' Hw' He. apply Hrec; [|done|done].
      destruct Hs' as [? Hst Hv]. split; [done|by rewrite Hst, (dr_stack _ _ Hr)|].
      etrans; [apply Hr|done]. }
    destruct r as [p|]; [by exists (Some p), s2|]. destruct Hr2 as [Hr2 Hd].
    exists None, s2. split; [done|]. split.
    { destruct Hr2 as [? Hst Hv]. split; [done|by rewrite Hst, (dr_stack _ _ Hr)|].
      etrans; [apply Hr|done]. }
    intros x [->|Hx]%elem_of_cons; [|by apply Hd].
    rewrite (Hsame s1 s2), (Hsame s s1); [|done|done|by apply Hr|done].
    apply elem_of_difference. split; [by apply (dr_visited _ _ Hr2)|].
    rewrite (di_on_stack _ Hs), elem_of_list_to_set. by intros ?%(di_stack _ Hs).
  - destruct (decide (w ∈ on_stack s)) as [Ho|Ho].
    + exists (Some (back_path w s)), s. split; [done|]. eapply back_path_closed; [done| |done|].
      * by apply di_chain.
      * rewrite (di_on_stack _ Hs) in Ho. by apply elem_of_list_to_set in Ho.
    + destruct (IH s) as (r & s2 & -> & Hr2); [done|done|done|done|].
      destruct r as [p|]; [by exists (Some p), s2|]. destruct Hr2 as [Hr2 Hd].
      exists None, s2. split; [done|]. split; [done|].
      intros x [->|Hx]%elem_of_cons; [|by apply Hd].
      rewrite (Hsame s s2) by done. apply elem_of_difference. split; [|done]. by apply (dr_visited _ _ Hr2).
Qed.

Lemma enter_inv v s :
  dfs_inv s → v ∉ visited s → v ∈ U → chain adj (stack s ++ [v]) → dfs_inv (enter v s).
Proof.
  intros Hs Hv Hu Hc. assert (v ∉ stack s) as Hvs by (by intros ?%(di_stack _ Hs)). split; simpl.
  - rewrite list_to_set_app_L, (di_on_stack _ Hs). simpl. set_solver.
  - apply NoDup_app. split; [by apply di_nodup|]. split; [|apply NoDup_singleton].
    intros x Hx ->%list_elem_of_singleton. done.
  - intros x [Hx| ->%list_elem_of_singleton]%elem_of_app; [|set_solver].
    apply elem_of_union_r. by apply di_stack.
  - done.
  - replace (({[v]} ∪ visited s) ∖ ({[v]} ∪ on_stack s)) with (visited s ∖ on_stack s) by set_solver.
    by apply di_settled.
  - pose proof (di_bound _ Hs). set_solver.
Qed.

Lemma leave_inv v l s :
  dfs_inv s → stack s = l ++ [v] → (∀ w, edge adj v w → w ∈ visited s ∖ on_stack s) → dfs_inv (leave v s).
Proof.
  intros Hs Hl Hout. pose proof (di_nodup _ Hs) as Hnd. rewrite Hl in Hnd.
  apply NoDup_app in Hnd as (Hnd & Hnv & _). 
  assert (v ∉ l) as Hvl by (intros Hx; by eapply Hnv, list_elem_of_singleton).
  assert (removelast (stack s) = l) as Hr by (rewrite Hl; apply removelast_last).
  assert (v ∈ visited s) as Hvv by (apply (di_stack _ Hs); rewrite Hl, elem_of_app; right; by apply list_elem_of_singleton).
  assert (v ∈ on_stack s) as Hvo by (rewrite (di_on_stack _ Hs), Hl; set_solver).
  split; simpl; rewrite ?Hr.
  - rewrite (di_on_stack _ Hs), Hl. set_solver.
  - done.
  - intros x Hx. apply (di_stack _ Hs). rewrite Hl. set_solver.
  - pose proof (di_chain _ Hs) as Hc. rewrite Hl in Hc. clear -Hc.
    induction l as [|x l IH]; [done|]. simpl in *. destruct l; simpl in *; tauto.
  - replace (visited s ∖ (on_stack s ∖ {[v]})) with ({[v]} ∪ (visited s ∖ on_stack s)).
    + apply settled_add; [by apply di_settled|set_solver|done].
    + apply set_eq. intros x. destruct (decide (x = v)); set_solver.
  - by apply di_bound.
Qed.

Lemma dfs_ok : ∀ fuel v s,
  dfs_inv s → v ∉ visited s → v ∈ U → chain adj (stack s ++ [v]) → (size (U ∖ visited s) ≤ fuel)%nat →
  dfs_spec s (λ s', v ∈ visited s') (dfs fuel adj v s).
Proof.
  induction fuel as [|fuel IH]; intros v s Hs Hv Hu Hc Hf.
  { assert (U ∖ visited s ≡ ∅) as He by (apply size_empty_inv; lia). set_solver. }
  simpl. destruct (dfs_neighbors_ok (dfs fuel adj) v (stack s) (neighbours adj v) (enter v s))
    as (r & s1 & Heq & Hr); [|by apply enter_inv|done|done|].
  { intros w s1 Hs1 Hw He. apply IH; [by apply Hs1|done|by eapply HU| |].
    - rewrite (dr_stack _ _ Hs1). simpl. rewrite <- app_assoc. by apply chain_snoc.
    - assert (size (U ∖ visited s1) < size (U ∖ visited s))%nat; [|lia]. apply subset_size.
      pose proof (dr_visited _ _ Hs1) as Hsub. simpl in Hsub. set_solver. }
  rewrite Heq. destruct r as [p|]; [by exists (Some p), s1|]. destruct Hr as [[Hi Hst Hsub] Hd].
  exists None, (leave v s1). split; [done|]. simpl in Hst, Hsub. split; [split|].
  - by eapply leave_inv.
  - simpl. rewrite Hst. apply removelast_last.
  - simpl. set_solver.
  - simpl. set_solver.
Qed.

Lemma start_all_ok fuel : ∀ keys s,
  (size U ≤ fuel)%nat → dfs_inv s → stack s = [] → (∀ k, k ∈ keys → k ∈ U) →
  dfs_spec s (λ s', ∀ k, k ∈ keys → k ∈ visited s') (Dfs.start_all fuel adj keys s).
Proof.
  intros keys s Hf. revert s. induction keys as [|k keys IH]; intros s Hs Hst Hk; simpl.
  { exists None, s. split; [done|]. split; [by split|]. intros k Hk'. by apply not_elem_of_nil in Hk'. }
  assert (∀ s1, dfs_rest s s1 → k ∈ visited s1 →
    dfs_spec s (λ s', ∀ x, x ∈ k :: keys → x ∈ visited s') (Dfs.start_all fuel adj keys s1)) as Hnext.
  { intros s1 [Hi He Hv] Hk1. destruct (IH s1) as (r & s2 & -> & Hr); [done|congruence| |].
    { intros x Hx. apply Hk. by right. }
    exists r, s2. split; [done|]. destruct r as [p|]; [done|]. destruct Hr as [[Hi2 He2 Hv2] Hd]. split.
    - split; [done|congruence|set_solver].
    - intros x [->|Hx]%elem_of_cons; [set_solver|by apply Hd]. }
  destruct (decide (k ∉ visited s)) as [Hn|Hn%dec_stable].
  - destruct (dfs_ok fuel k s) as (r & s1 & -> & Hr); [done|done|apply Hk; left|by rewrite Hst| |].
    { etrans; [|exact Hf]. apply subseteq_size. set_solver. }
    destruct r as [p|]; [by exists (Some p), s1|]. destruct Hr as [Hr Hk1]. by apply Hnext.
  - apply Hnext; [by split|done].
Qed.
End DepthFirst.

Lemma dfs_inv_init adj U : dfs_inv adj U Dfs.init.
Proof.
  split; simpl; try done.
  - apply NoDup_nil_2.
  - intros x Hx. by apply not_elem_of_nil in Hx.
Qed.

(** All agents of an adjacency map. *)
Definition agents (adj : Adj) : gset AgentId :=
  dom adj ∪ ⋃ (list_to_set <$> (map_to_list adj).*2).

Lemma neighbours_agents adj x y : edge adj x y → y ∈ agents adj.
Proof.
  unfold edge, neighbours, agents. intros H. destruct (adj !! x) as [ns|] eqn:E; [|by apply not_elem_of_nil in H].
  apply elem_of_union_r, elem_of_union_list. exists (list_to_set ns). split; [|by apply elem_of_list_to_set].
  apply list_elem_of_fmap. exists ns. split; [done|]. apply list_elem_of_fmap. exists (x, ns). split; [done|].
  by apply elem_of_map_to_list.
Qed.

Lemma agents_universe adj : universe adj (agents adj).
Proof. intros x y _. apply neighbours_agents. Qed.

Lemma detect_cycle_spec fuel adj keys :
  (∀ x, x ∈ keys ↔ x ∈ dom adj) → (size (agents adj) ≤ fuel)%nat →
  ∃ r, Dfs.detect_cycle fuel adj keys = Some r ∧
    match r with Some p => closed_walk adj p | None => acyclic adj end.
Proof.
  intros Hk Hf. unfold Dfs.detect_cycle.
  destruct (start_all_ok adj (agents adj) (agents_universe adj) fuel keys Dfs.init Hf (dfs_inv_init _ _) eq_refl)
    as (r & s & -> & Hr).
  { intros k Hk'. apply elem_of_union_l. by apply Hk. }
  exists r. split; [done|]. destruct r as [p|]; [done|]. destruct Hr as [[Hi Hst _] Hd].
  eapply settled_acyclic; [by apply (di_settled _ _ _ Hi)|]. intros x y Hxy%edge_dom.
  rewrite (di_on_stack _ _ _ Hi), Hst. simpl. rewrite difference_empty_L. by apply Hd, Hk.
Qed.
