(* ===== verification/TarjanProps.v ===== *)
(** * TarjanProps: the answer is exactly a strongly connected component

    The invariant of [TarjanState] during [strongconnect], relative to the agents of the
    recursion that are still open: what is off the stack is settled, an open agent reaches
    everything above it on the stack, everything on the stack reaches an open agent below
    it, and a low link is the index of an agent on the stack that is reached. *)

From stdpp Require Import base gmap strings list sets relations sorting.
From Stdlib Require Import ZArith Lia Bool String.
From S2P Require Import Prelude.
From S2P Require Import CoreTypes.
From S2P Require Import Topology.
Import Tarjan.

Open Scope Z_scope.
Open Scope aasm_scope.

(** A strongly connected component that lies on a cycle, each agent once. *)
Definition cyclic_component (adj : Adj) (scc : list AgentId) : Prop :=
  scc ≠ [] ∧ NoDup scc ∧
  ∀ x, x ∈ scc → ∀ y, y ∈ scc ↔ tc (edge adj) x y ∧ tc (edge adj) y x.

Definition idx (s : TarjanState) (x : AgentId) : Z := default 0 (index_map s !! x).
Definition low (s : TarjanState) (x : AgentId) : Z := default 0 (lowlink s !! x).
Definition found (s : TarjanState) : gset AgentId := dom (index_map s).

Section Components.
Context (g : Graph) (U : gset AgentId).
Abbreviation E := (edge (g_adj g)).
Context (HU : universe (g_adj g) U) (Hself : ∀ x, x ∈ g_self_loops g ↔ E x x).
Context (Hwidth : Z.of_nat (size U) ≤ 2 ^ 32).

Record tinv (open : list AgentId) (s : TarjanState) : Prop := {
  ti_on_stack : on_stack s = list_to_set (stack s);
  ti_sorted : StronglySorted (λ x y, idx s y < idx s x) (stack s);
  ti_stack x : x ∈ stack s → x ∈ found s;
  ti_low_dom : dom (lowlink s) = found s;
  ti_counter : index_counter s = Z.of_nat (size (found s)) mod 2 ^ 32;
  ti_idx x : x ∈ found s → idx s x < Z.of_nat (size (found s));
  ti_settled : settled (g_adj g) (found s ∖ on_stack s);
  ti_bound : found s ⊆ U;
  ti_open a : a ∈ open → a ∈ stack s;
  ti_down a x : a ∈ open → x ∈ stack s → idx s a ≤ idx s x → rtc E a x;
  ti_up x : x ∈ stack s → ∃ a, a ∈ open ∧ idx s a ≤ idx s x ∧ rtc E x a;
  ti_low x : x ∈ stack s → ∃ u, u ∈ stack s ∧ low s x = idx s u ∧ rtc E x u;
}.

(** What later states keep of an earlier one. *)
Record ext (s s' : TarjanState) : Prop := {
  ex_found : found s ⊆ found s';
  ex_idx x : x ∈ found s → idx s' x = idx s x;
  ex_low x : x ∈ found s → low s' x = low s x;
  ex_stack : ∃ pre, stack s' = pre ++ stack s ∧ ∀ x, x ∈ pre → x ∉ found s;
}.

Lemma ext_refl s : ext s s.
Proof. split; try done. exists []. split; [done|]. intros x Hx. by apply not_elem_of_nil in Hx. Qed.

Lemma ext_trans s1 s2 s3 : ext s1 s2 → ext s2 s3 → ext s1 s3.
Proof.
  intros [Hf1 Hi1 Hl1 (p1 & Hp1 & Hn1)] [Hf2 Hi2 Hl2 (p2 & Hp2 & Hn2)]. split.
  - by etrans.
  - intros x Hx. rewrite Hi2, Hi1; auto.
  - intros x Hx. rewrite Hl2, Hl1; auto.
  - exists (p2 ++ p1). rewrite Hp2, Hp1, app_assoc. split; [done|].
    intros x [Hx|Hx]%elem_of_app; [|by apply Hn1]. intros Hx1. by eapply Hn2, Hf1.
Qed.

(** A neighbour that has been looked at on behalf of [v]. *)
Definition seen (v : AgentId) (s : TarjanState) (w : AgentId) : Prop :=
  w ∈ found s ∧ (w ∈ stack s → low s v ≤ idx s w).

Lemma seen_mono v v' s s' w :
  found s ⊆ found s' → (∀ x, x ∈ found s → idx s' x = idx s x) → low s' v' ≤ low s v →
  (∀ x, x ∈ found s → x ∈ stack s' → x ∈ stack s) → seen v s w → seen v' s' w.
Proof.
  intros Hf Hi Hl Hs [Hw Hseen]. split; [by apply Hf|]. intros Hst. rewrite Hi by done.
  etrans; [done|]. apply Hseen. by apply Hs.
Qed.

Lemma ext_on_stack s s' x : ext s s' → x ∈ found s → x ∈ stack s' → x ∈ stack s.
Proof.
  intros [_ _ _ (pre & -> & Hn)] Hx [Hp|]%elem_of_app; [|done]. by apply Hn in Hp.
Qed.

(** The stack by its indices. *)

Lemma sorted_below s pre v rest x :
  StronglySorted (λ x y, idx s y < idx s x) (pre ++ v :: rest) → x ∈ rest → idx s x < idx s v.
Proof.
  intros H Hx. induction pre as [|y pre IH]; simpl in H; inversion H as [|? ? Hs Hf]; subst; [|by apply IH].
  rewrite Forall_forall in Hf. by apply Hf.
Qed.

Lemma sorted_above s pre v rest x :
  StronglySorted (λ x y, idx s y < idx s x) (pre ++ v :: rest) → x ∈ pre → idx s v < idx s x.
Proof.
  intros H Hx. induction pre as [|y pre IH]; [by apply not_elem_of_nil in Hx|].
  inversion H as [|? ? Hs Hf]; subst. apply elem_of_cons in Hx as [->|Hx]; [|by apply IH].
  rewrite Forall_forall in Hf. apply Hf. apply elem_of_app. right. left.
Qed.

Lemma sorted_nodup s l : StronglySorted (λ x y, idx s y < idx s x) l → NoDup l.
Proof.
  induction 1 as [|x l _ IH Hf]; constructor; [|done].
  intros Hx. rewrite Forall_forall in Hf. specialize (Hf x Hx). simpl in Hf. lia.
Qed.

Lemma sorted_ext s s' l :
  (∀ x, x ∈ l → idx s' x = idx s x) → StronglySorted (λ x y, idx s y < idx s x) l →
  StronglySorted (λ x y, idx s' y < idx s' x) l.
Proof.
  intros Hx H. induction H as [|x l _ IH Hf]; constructor.
  - apply IH. intros y Hy. apply Hx. by right.
  - rewrite Forall_forall in *. intros y Hy. rewrite !Hx; [by apply Hf|left|by right].
Qed.

(** ** Steps *)

Lemma lower_ok open v n s :
  tinv open s → v ∈ stack s → (low s v ≤ n ∨ ∃ u, u ∈ stack s ∧ n = idx s u ∧ rtc E v u) →
  ∃ s', lower v n s = Some s' ∧ tinv open s' ∧ index_map s' = index_map s ∧ stack s' = stack s ∧
    low s' v = Z.min (low s v) n ∧ ∀ x, x ≠ v → low s' x = low s x.
Proof.
  intros Hs Hv Hn. assert (v ∈ dom (lowlink s)) as Hd by (rewrite (ti_low_dom _ _ Hs); by apply (ti_stack _ _ Hs)).
  apply elem_of_dom in Hd as [l Hl]. unfold lower. rewrite Hl. eexists. split; [done|].
  assert (low s v = l) as Hlow by (unfold low; by rewrite Hl).
  assert (∀ m x, default 0 (<[v:=m]> (lowlink s) !! x) = if decide (x = v) then m else low s x) as Hget.
  { intros m x. destruct (decide (x = v)) as [->|Hx]; [by rewrite lookup_insert_eq|by rewrite lookup_insert_ne]. }
  split; [|split; [done|split; [done|]]].
  - destruct Hs as [H1 H2 H3 H4 H5 H6 H7 H8 H9 H10 H11 H12]. split; try done.
    + simpl. rewrite dom_insert_L, H4. apply H3 in Hv. unfold found in *. simpl. set_solver.
    + intros x Hx. unfold low. simpl. rewrite Hget. destruct (decide (x = v)) as [->|]; [|by apply H12].
      destruct (Z.min_spec l n) as [[? ->]|[? ->]].
      * rewrite <- Hlow. by apply H12.
      * destruct Hn as [Hle|Hu]; [|done]. replace n with (low s v) by lia. by apply H12.
  - unfold low at 1 3. simpl. rewrite Hget, decide_True by done. split; [by rewrite Hlow|].
    intros x Hx. by rewrite Hget, decide_False.
Qed.

(** The state of the loop over the neighbours of [v], called from [s0]. *)
Record linv (open : list AgentId) (v : AgentId) (s0 s : TarjanState) : Prop := {
  li_inv : tinv (v :: open) s;
  li_ext : ext s0 s;
  li_stack : ∃ pre, stack s = pre ++ v :: stack s0 ∧ ∀ x w, x ∈ pre → E x w → seen v s w;
  li_idx x : x ∈ found s0 → idx s0 x < idx s v;
  li_low : low s v ≤ idx s v;
}.

Lemma discover_found v s : found (discover v s) = {[v]} ∪ found s.
Proof. unfold found. simpl. by rewrite dom_insert_L. Qed.

Lemma discover_ok open v s :
  tinv open s → v ∉ found s → v ∈ U → (∀ a, a ∈ open → rtc E a v) → linv open v s (discover v s).
Proof.
  intros Hs Hv Hu Hreach. pose proof (discover_found v s) as Hfound.
  assert (Z.of_nat (size (found (discover v s))) = Z.of_nat (size (found s)) + 1) as Hsize.
  { rewrite Hfound, size_union by set_solver. rewrite size_singleton. lia. }
  assert (found (discover v s) ⊆ U) as Hsub.
  { rewrite Hfound. pose proof (ti_bound _ _ Hs). set_solver. }
  assert (index_counter s = Z.of_nat (size (found s))) as Hcount.
  { rewrite (ti_counter _ _ Hs). apply Z.mod_small. apply subseteq_size in Hsub. lia. }
  assert (idx (discover v s) v = index_counter s) as Hiv by (unfold idx; simpl; by rewrite lookup_insert_eq).
  assert (low (discover v s) v = index_counter s) as Hlv by (unfold low; simpl; by rewrite lookup_insert_eq).
  assert (∀ x, x ≠ v → idx (discover v s) x = idx s x) as Hix.
  { intros x Hx. unfold idx. simpl. by rewrite lookup_insert_ne. }
  assert (∀ x, x ≠ v → low (discover v s) x = low s x) as Hlx.
  { intros x Hx. unfold low. simpl. by rewrite lookup_insert_ne. }
  assert (∀ x, x ∈ found s → x ≠ v) as Hne by (by intros x Hx ->).
  assert (∀ x, x ∈ stack s → x ≠ v) as Hnes by (intros x Hx; by apply Hne, (ti_stack _ _ Hs)).
  assert (∀ x, x ∈ stack s → idx s x < index_counter s) as Hlt.
  { intros x Hx. rewrite Hcount. by apply (ti_idx _ _ Hs), (ti_stack _ _ Hs). }
  split.
  - split.
    + simpl. by rewrite (ti_on_stack _ _ Hs).
    + simpl. constructor.
      * eapply sorted_ext; [|by apply (ti_sorted _ _ Hs)]. intros x Hx. by apply Hix, Hnes.
      * rewrite Forall_forall. intros x Hx. rewrite Hiv, Hix by (by apply Hnes). by apply Hlt.
    + simpl. intros x Hx. rewrite Hfound. apply elem_of_cons in Hx as [->|Hx]; [set_solver|].
      apply elem_of_union_r. by apply (ti_stack _ _ Hs).
    + rewrite Hfound. simpl. by rewrite dom_insert_L, (ti_low_dom _ _ Hs).
    + rewrite Hsize. simpl. by rewrite Hcount.
    + intros x Hx. rewrite Hsize. rewrite Hfound in Hx. apply elem_of_union in Hx as [->%elem_of_singleton|Hx].
      * rewrite Hiv. lia.
      * rewrite Hix by (by apply Hne). pose proof (ti_idx _ _ Hs x Hx). lia.
    + rewrite Hfound. simpl. replace (({[v]} ∪ found s) ∖ ({[v]} ∪ on_stack s)) with (found s ∖ on_stack s) by set_solver.
      by apply ti_settled with open.
    + done.
    + simpl. intros a [->|Ha]%elem_of_cons; [left|]. right. by apply (ti_open _ _ Hs).
    + simpl. intros a x [->|Ha]%elem_of_cons [->|Hx]%elem_of_cons Hle.
      * done.
      * rewrite Hiv, Hix in Hle by (by apply Hnes). pose proof (Hlt x Hx). lia.
      * by apply Hreach.
      * apply (ti_open _ _ Hs) in Ha as Hast. apply (ti_down _ _ Hs); [done..|].
        rewrite !Hix in Hle; [done|by apply Hnes..].
    + simpl. intros x [->|Hx]%elem_of_cons.
      * exists v. split; [left|]. split; [lia|done].
      * destruct (ti_up _ _ Hs x Hx) as (a & Ha & Hle & Hr). exists a. split; [by right|]. split; [|done].
        rewrite !Hix; [done|by apply Hnes|by apply Hnes, (ti_open _ _ Hs)].
    + simpl. intros x [->|Hx]%elem_of_cons.
      * exists v. split; [left|]. split; [congruence|done].
      * destruct (ti_low _ _ Hs x Hx) as (u & Hu' & Heq & Hr). exists u. split; [by right|].
        rewrite Hlx, Hix by (by apply Hnes). done.
  - split.
    + rewrite Hfound. set_solver.
    + intros x Hx. by apply Hix, Hne.
    + intros x Hx. by apply Hlx, Hne.
    + exists [v]. split; [done|]. by intros x ->%list_elem_of_singleton.
  - exists []. split; [done|]. intros x w Hx. by apply not_elem_of_nil in Hx.
  - intros x Hx. rewrite Hiv, Hcount. by apply (ti_idx _ _ Hs).
  - lia.
Qed.

(** What [strongconnect(v)] answers from [s] when it found nothing. *)
Record returned (open : list AgentId) (v : AgentId) (s s' : TarjanState) : Prop := {
  rt_inv : tinv open s';
  rt_ext : ext s s';
  rt_found : v ∈ found s';
  rt_idx x : x ∈ found s → idx s x < idx s' v;
  rt_kept : v ∈ stack s' → low s' v < idx s' v;
  rt_popped : v ∉ stack s' → low s' v = idx s' v;
  rt_seen x w : x ∈ stack s' → x ∉ stack s → E x w → seen v s' w;
}.

Definition answers (done : TarjanState → Prop) (a : Answer) : Prop :=
  ∃ r s', a = Some (r, s') ∧
    match r with Some scc => cyclic_component (g_adj g) scc | None => done s' end.

(** A loop step: the new state differs from [s1] in the low link of [v]. *)
Lemma linv_step open v s0 s s1 s2 :
  linv open v s0 s → ext s s1 → tinv (v :: open) s2 → index_map s2 = index_map s1 → stack s2 = stack s1 →
  low s2 v ≤ low s v → (∀ x, x ≠ v → low s2 x = low s1 x) →
  (∀ x w, x ∈ stack s1 → x ∉ stack s → E x w → seen v s2 w) →
  v ∉ found s0 →
  linv open v s0 s2 ∧ ∀ w, seen v s w → seen v s2 w.
Proof.
  intros Hl Hext Hinv Hidx Hst Hlow Hlows Hnew Hv0.
  assert (found s2 = found s1) as Hf2 by (unfold found; by rewrite Hidx).
  assert (∀ x, idx s2 x = idx s1 x) as Hi2 by (intros x; unfold idx; by rewrite Hidx).
  assert (v ∈ found s) as Hvs.
  { apply (ti_stack _ _ (li_inv _ _ _ _ Hl)), (ti_open _ _ (li_inv _ _ _ _ Hl)). left. }
  assert (∀ w, seen v s w → seen v s2 w) as Hmono.
  { intros w. apply seen_mono; [|intros x Hx|done|intros x Hx].
    - rewrite Hf2. apply Hext.
    - rewrite Hi2. by apply Hext.
    - rewrite Hst. by apply ext_on_stack. }
  split; [|done]. split; [done| | | |].
  - destruct (ext_trans _ _ _ (li_ext _ _ _ _ Hl) Hext) as [H1 H2 H3 H4]. split.
    + by rewrite Hf2.
    + intros x Hx. rewrite Hi2. by apply H2.
    + intros x Hx. rewrite Hlows by (by intros ->). by apply H3.
    + by rewrite Hst.
  - destruct Hext as [_ _ _ (p1 & Hp1 & Hn1)]. destruct (li_stack _ _ _ _ Hl) as (p0 & Hp0 & Hs0).
    exists (p1 ++ p0). rewrite Hst, Hp1, Hp0, app_assoc. split; [done|].
    intros x w [Hx|Hx]%elem_of_app He.
    + apply (Hnew x); [rewrite Hp1; set_solver| |done]. intros Hxs. apply (Hn1 x Hx).
      by apply (ti_stack _ _ (li_inv _ _ _ _ Hl)).
    + by apply Hmono, (Hs0 x).
  - intros x Hx. rewrite Hi2, (ex_idx _ _ Hext) by done. by apply (li_idx _ _ _ _ Hl).
  - rewrite Hi2, (ex_idx _ _ Hext) by done. etrans; [exact Hlow|]. by apply (li_low _ _ _ _ Hl).
Qed.

(** Where the loop stands after the neighbours [ns]. *)
Definition looped (open : list AgentId) (v : AgentId) (s0 s : TarjanState) (ns : list AgentId)
    (s' : TarjanState) : Prop :=
  linv open v s0 s' ∧ (∀ w, seen v s w → seen v s' w) ∧ ∀ w, w ∈ ns → seen v s' w.

Lemma looped_cons open v s0 s s2 w ns a :
  (∀ x, seen v s x → seen v s2 x) → seen v s2 w →
  answers (looped open v s0 s2 ns) a → answers (looped open v s0 s (w :: ns)) a.
Proof.
  intros Hm Hw (r & s' & -> & Hr). exists r, s'. split; [done|]. destruct r as [p|]; [done|].
  destruct Hr as (Hl & Hm' & Hns). split; [done|]. split; [auto|].
  intros x [->|Hx]%elem_of_cons; auto.
Qed.

Lemma neighbors_loop_ok rec open v s0 : v ∉ found s0 → ∀ ns s,
  (∀ w s1, linv open v s0 s1 → w ∉ found s1 → E v w → answers (returned (v :: open) w s1) (rec w s1)) →
  linv open v s0 s → (∀ w, w ∈ ns → E v w) →
  answers (looped open v s0 s ns) (neighbors_loop rec v ns s).
Proof.
  intros Hv0. induction ns as [|w ns IH]; intros s Hrec Hl Hns; simpl.
  { exists None, s. split; [done|]. split; [done|]. split; [done|]. intros w Hw. by apply not_elem_of_nil in Hw. }
  assert (E v w) as Hvw by (apply Hns; left).
  assert (∀ w, w ∈ ns → E v w) as Hns' by (intros; apply Hns; by right).
  pose proof (li_inv _ _ _ _ Hl) as Hs.
  assert (v ∈ stack s) as Hv by (apply (ti_open _ _ Hs); left).
  destruct (index_map s !! w) as [i|] eqn:Hi.
  - assert (w ∈ found s) as Hwf by (apply elem_of_dom; eauto).
    assert (idx s w = i) as Hiw by (unfold idx; by rewrite Hi).
    destruct (decide (w ∈ on_stack s)) as [Ho|Ho]; rewrite (ti_on_stack _ _ Hs), elem_of_list_to_set in Ho.
    + destruct (lower_ok (v :: open) v i s) as (s2 & -> & Hs2 & Hi2 & Hst & Hlv & Hlx); [done|done| |].
      { right. exists w. split; [done|]. split; [done|]. by apply rtc_once. }
      destruct (linv_step open v s0 s s s2) as [Hl2 Hm]; try done; [by apply ext_refl|lia|].
      eapply looped_cons; [exact Hm| |by apply IH].
      split; [unfold found in *; by rewrite Hi2|]. intros _. unfold idx. rewrite Hi2, Hi, Hlv. simpl. lia.
    + eapply looped_cons; [done| |by apply IH]. by split.
  - assert (w ∉ found s) as Hwf by (by apply not_elem_of_dom).
    destruct (Hrec w s Hl Hwf Hvw) as (r & s1 & -> & Hr). destruct r as [p|]; [by exists (Some p), s1|].
    destruct Hr as [Hs1 Hext Hw1 Hlt Hkept Hpopped Hseen].
    assert (v ∈ stack s1) as Hv1 by (apply (ti_open _ _ Hs1); left).
    assert (low s1 v = low s v) as Hlow1 by (apply (ex_low _ _ Hext), (ti_stack _ _ Hs), Hv).
    assert (is_Some (lowlink s1 !! w)) as [wl Hwl] by (apply elem_of_dom; by rewrite (ti_low_dom _ _ Hs1)).
    assert (low s1 w = wl) as Hwlow by (unfold low; by rewrite Hwl). rewrite Hwl. simpl.
    destruct (lower_ok (v :: open) v wl s1) as (s2 & -> & Hs2 & Hi2 & Hst & Hlv & Hlx); [done|done| |].
    { destruct (decide (w ∈ stack s1)) as [Hin|Hin].
      - right. destruct (ti_low _ _ Hs1 w Hin) as (u & Hu & Heq & Hr). exists u. split; [done|].
        split; [congruence|]. by eapply rtc_l.
      - left. rewrite <- Hwlow, (Hpopped Hin), Hlow1. pose proof (li_low _ _ _ _ Hl).
        pose proof (Hlt v (ti_stack _ _ Hs v Hv)). lia. }
    assert (∀ x, seen w s1 x → seen v s2 x) as Hws.
    { intros x. apply seen_mono; unfold found, idx; rewrite ?Hi2, ?Hst; try done. lia. }
    destruct (linv_step open v s0 s s1 s2) as [Hl2 Hm]; try done; [lia|by eauto|].
    eapply looped_cons; [exact Hm| |by apply IH].
    split; [unfold found in *; by rewrite Hi2|]. rewrite Hst. intros Hin. specialize (Hkept Hin).
    unfold idx in *. rewrite Hi2. lia.
Qed.

Lemma pop_loop_ok v rest : ∀ pre s acc, v ∉ pre →
  pop_loop v (pre ++ v :: rest) s acc =
  Some (acc ++ pre ++ [v], {| index_counter := index_counter s; stack := rest;
    on_stack := on_stack s ∖ list_to_set (pre ++ [v]); index_map := index_map s; lowlink := lowlink s |}).
Proof.
  induction pre as [|w pre IH]; intros s acc Hv; simpl.
  - rewrite decide_True by done. unfold pop. by rewrite union_empty_r_L.
  - apply not_elem_of_cons in Hv as [Hne Hv]. rewrite decide_False by done.
    rewrite IH by done. simpl. rewrite <- app_assoc, difference_difference_l_L. done.
Qed.

Lemma linv_up open v s0 s x :
  linv open v s0 s → low s v < idx s v → x ∈ stack s → ∃ a, a ∈ open ∧ idx s a ≤ idx s x ∧ rtc E x a.
Proof.
  intros Hl Hlt Hx. pose proof (li_inv _ _ _ _ Hl) as Hs.
  destruct (ti_up _ _ Hs x Hx) as (a & [->|Ha]%elem_of_cons & Hle & Hr); [|by eauto].
  destruct (ti_low _ _ Hs v) as (u & Hu & Heq & Hvu); [apply (ti_open _ _ Hs); left|].
  destruct (ti_up _ _ Hs u Hu) as (b & [->|Hb]%elem_of_cons & Hle' & Hub); [lia|].
  exists b. split; [done|]. split; [lia|]. etrans; [exact Hr|]. by etrans.
Qed.

(** A root's component: everything from the top of the stack down to it. *)
Section RootComponent.
Context (open : list AgentId) (v : AgentId) (s0 s : TarjanState) (pre : list AgentId).
Context (Hopen : ∀ a, a ∈ open → a ∈ stack s0) (Hl : linv open v s0 s).
Context (Hst : stack s = pre ++ v :: stack s0) (Hlow : low s v = idx s v).
Context (Hpre : ∀ x w, x ∈ pre → E x w → seen v s w) (Hout : ∀ w, E v w → seen v s w).

Lemma root_sorted : StronglySorted (λ x y, idx s y < idx s x) (pre ++ v :: stack s0).
Proof. rewrite <- Hst. by apply (ti_sorted _ _ (li_inv _ _ _ _ Hl)). Qed.

Lemma root_not_above : v ∉ pre.
Proof. intros Hx. pose proof (sorted_above _ _ _ _ _ root_sorted Hx). lia. Qed.

Lemma root_both x : x ∈ pre → tc E v x ∧ tc E x v.
Proof.
  intros Hx. pose proof (li_inv _ _ _ _ Hl) as Hs.
  assert (x ∈ stack s) as Hxs by (rewrite Hst; apply elem_of_app; by left).
  assert (v ∈ stack s) as Hvs by (rewrite Hst; apply elem_of_app; right; left).
  assert (x ≠ v) as Hne by (intros ->; by apply root_not_above).
  pose proof (sorted_above _ _ _ _ _ root_sorted Hx) as Hlt. split.
  - destruct (proj1 (rtc_tc (R := E) v x)) as [?|?]; [|congruence|done]. apply (ti_down _ _ Hs); [left|done|lia].
  - destruct (proj1 (rtc_tc (R := E) x v)) as [?|?]; [|congruence|done].
    destruct (ti_up _ _ Hs x Hxs) as (a & Ha & Hle & Hr). etrans; [exact Hr|].
    apply elem_of_cons in Ha as [->|Ha]; [done|].
    apply (ti_down _ _ Hs); [by right|done|].
    pose proof (sorted_below _ _ _ _ a root_sorted (Hopen a Ha)). lia.
Qed.

Lemma root_out x w : x ∈ pre ++ [v] → E x w → w ∈ pre ++ [v] ∨ w ∈ found s ∖ on_stack s.
Proof.
  intros Hx He. assert (seen v s w) as [Hw Hseen].
  { apply elem_of_app in Hx as [Hx| ->%list_elem_of_singleton]; [by eapply Hpre|by apply Hout]. }
  rewrite (ti_on_stack _ _ (li_inv _ _ _ _ Hl)).
  destruct (decide (w ∈ stack s)) as [Hws|Hws]; [left|right].
  - specialize (Hseen Hws). rewrite Hst in Hws.
    apply elem_of_app in Hws as [Hws|[->|Hws]%elem_of_cons]; apply elem_of_app; [by left|by right; left|].
    pose proof (sorted_below _ _ _ _ w root_sorted Hws). lia.
  - apply elem_of_difference. split; [done|]. by rewrite elem_of_list_to_set.
Qed.

Lemma root_reach x y : x ∈ pre ++ [v] → tc E x y → y ∈ pre ++ [v] ∨ y ∈ found s ∖ on_stack s.
Proof.
  intros Hx Hxy. revert Hx. induction Hxy as [x y He|x z y He Hzy IH]; intros Hx; [by eapply root_out|].
  destruct (root_out x z Hx He) as [Hz|Hz]; [by apply IH|]. right.
  eapply settled_tc; [|exact Hz|done]. by apply (ti_settled _ _ (li_inv _ _ _ _ Hl)).
Qed.

Lemma component_ok : (pre ≠ [] ∨ E v v) → cyclic_component (g_adj g) (pre ++ [v]).
Proof.
  intros Hcyc. assert (tc E v v) as Hvv.
  { destruct Hcyc as [Hne|Hvv]; [|by apply tc_once]. assert (∃ x, x ∈ pre) as [x Hx] by (destruct pre as [|y]; [done|exists y; left]).
    destruct (root_both x Hx) as [H1 H2]. by etrans. }
  assert (∀ x, x ∈ pre ++ [v] → tc E v x ∧ tc E x v) as Hall.
  { intros x [Hx| ->%list_elem_of_singleton]%elem_of_app; [by apply root_both|done]. }
  split; [intros Hnil; symmetry in Hnil; by apply app_cons_not_nil in Hnil|]. split.
  - pose proof (sorted_nodup _ _ root_sorted) as Hnd.
    replace (pre ++ v :: stack s0) with ((pre ++ [v]) ++ stack s0) in Hnd by (by rewrite <- app_assoc).
    by apply NoDup_app in Hnd as [? _].
  - intros x Hx y. destruct (Hall x Hx) as [Hvx Hxv]. split.
    + intros Hy. destruct (Hall y Hy) as [Hvy Hyv]. split; by etrans.
    + intros [Hxy Hyx]. destruct (root_reach x y Hx Hxy) as [|Hy]; [done|].
      assert (x ∈ found s ∖ on_stack s) as Hxb.
      { eapply settled_tc; [|exact Hy|done]. by apply (ti_settled _ _ (li_inv _ _ _ _ Hl)). }
      apply elem_of_difference in Hxb as [_ Hxb]. exfalso. apply Hxb.
      rewrite (ti_on_stack _ _ (li_inv _ _ _ _ Hl)), Hst. set_solver.
Qed.
End RootComponent.

(** Popping a root that is no cycle restores the stack it was called with. *)
Lemma pop_single_ok open v s0 s :
  tinv open s0 → linv open v s0 s → stack s = v :: stack s0 → low s v = idx s v →
  (∀ w, E v w → seen v s w) → ¬ E v v → v ∉ found s0 →
  returned open v s0 {| index_counter := index_counter s; stack := stack s0;
    on_stack := on_stack s ∖ list_to_set [v]; index_map := index_map s; lowlink := lowlink s |}.
Proof.
  intros H0 Hl Hst Hlow Hout Hloop Hv0. set (s' := {| index_counter := _ |}).
  pose proof (li_inv _ _ _ _ Hl) as Hs. pose proof (li_ext _ _ _ _ Hl) as Hext.
  assert (v ∉ stack s0) as Hvs by (by intros ?%(ti_stack _ _ H0)).
  assert (v ∈ found s) as Hvf by (apply (ti_stack _ _ Hs); rewrite Hst; left).
  assert (on_stack s' = list_to_set (stack s0)) as Hon.
  { simpl. rewrite (ti_on_stack _ _ Hs), Hst. set_solver. }
  assert (∀ x, x ∈ stack s0 → idx s' x = idx s0 x ∧ low s' x = low s0 x) as Heq.
  { intros x Hx%(ti_stack _ _ H0). split; [by apply (ex_idx _ _ Hext)|by apply (ex_low _ _ Hext)]. }
  assert (∀ w, E v w → w ∈ found s ∖ on_stack s) as Hsettled.
  { intros w He. destruct (Hout w He) as [Hw Hseen]. apply elem_of_difference. split; [done|].
    rewrite (ti_on_stack _ _ Hs), elem_of_list_to_set. intros Hws. specialize (Hseen Hws).
    pose proof (ti_sorted _ _ Hs) as Hsort. rewrite Hst in Hsort, Hws.
    apply elem_of_cons in Hws as [->|Hws]; [done|].
    pose proof (sorted_below _ [] _ _ w Hsort Hws). lia. }
  split.
  - split.
    + done.
    + eapply sorted_ext; [|by apply (ti_sorted _ _ H0)]. intros x Hx. by apply Heq.
    + intros x Hx. apply (ti_stack _ _ Hs). rewrite Hst. by right.
    + by apply (ti_low_dom _ _ Hs).
    + by apply (ti_counter _ _ Hs).
    + by apply (ti_idx _ _ Hs).
    + replace (found s' ∖ on_stack s') with ({[v]} ∪ (found s ∖ on_stack s)).
      * apply settled_add; [by apply (ti_settled _ _ Hs)| |done].
        rewrite (ti_on_stack _ _ Hs), Hst. set_solver.
      * apply set_eq. intros x. change (found s') with (found s). rewrite Hon, (ti_on_stack _ _ Hs), Hst.
        destruct (decide (x = v)); set_solver.
    + by apply (ti_bound _ _ Hs).
    + by apply (ti_open _ _ H0).
    + intros a x Ha Hx. apply (ti_open _ _ H0) in Ha as Has.
      rewrite (proj1 (Heq a Has)), (proj1 (Heq x Hx)). by apply (ti_down _ _ H0).
    + intros x Hx. destruct (ti_up _ _ H0 x Hx) as (a & Ha & Hle & Hr). exists a. split; [done|].
      apply (ti_open _ _ H0) in Ha. by rewrite (proj1 (Heq a Ha)), (proj1 (Heq x Hx)).
    + intros x Hx. destruct (ti_low _ _ H0 x Hx) as (u & Hu & He & Hr). exists u. split; [done|].
      by rewrite (proj2 (Heq x Hx)), (proj1 (Heq u Hu)).
  - destruct Hext as [H1 H2 H3 _]. split; [done..|]. exists []. split; [done|].
    intros x Hx. by apply not_elem_of_nil in Hx.
  - done.
  - by apply (li_idx _ _ _ _ Hl).
  - done.
  - done.
  - done.
Qed.

Lemma close_root_ok open v s0 s :
  tinv open s0 → v ∉ found s0 → linv open v s0 s → (∀ w, E v w → seen v s w) →
  answers (returned open v s0) (close_root g v s).
Proof.
  intros H0 Hv0 Hl Hout. pose proof (li_inv _ _ _ _ Hl) as Hs.
  destruct (li_stack _ _ _ _ Hl) as (pre & Hst & Hpre).
  assert (v ∈ stack s) as Hv by (rewrite Hst; apply elem_of_app; right; left).
  assert (v ∈ found s) as Hvf by (by apply (ti_stack _ _ Hs)).
  assert (is_Some (lowlink s !! v)) as [l Hll] by (apply elem_of_dom; by rewrite (ti_low_dom _ _ Hs)).
  pose proof (proj1 (elem_of_dom _ _) Hvf) as [i Hi].
  assert (low s v = l ∧ idx s v = i) as [Hlow Hidx] by (unfold low, idx; by rewrite Hll, Hi).
  unfold close_root. rewrite Hll, Hi. destruct (decide (l = i)) as [Heq|Hne].
  - assert (low s v = idx s v) as Hli by congruence.
    pose proof (root_not_above open v s0 s pre Hl Hst) as Hvp. unfold pop_scc. rewrite Hst, pop_loop_ok by done. simpl.
    pose proof (component_ok open v s0 s pre (ti_open _ _ H0) Hl Hst Hli Hpre Hout) as Hcomp.
    destruct pre as [|x pre]; simpl.
    + case_bool_decide as Hb; simpl.
      * eexists (Some [v]), _. split; [done|]. apply Hcomp. right. by apply Hself.
      * eexists None, _. split; [done|]. apply pop_single_ok; try done. by rewrite <- Hself.
    + assert ((1 <? S (List.length (pre ++ [v])))%nat = true) as ->.
      { apply Nat.ltb_lt. rewrite length_app. simpl. lia. }
      eexists (Some _), _. split; [done|]. apply Hcomp. by left.
  - exists None, s. split; [done|].
    assert (low s v < idx s v) as Hlt by (pose proof (li_low _ _ _ _ Hl); lia). split; try done.
    + destruct Hs as [? ? ? ? ? ? ? ? Ho Hd _ ?]. split; try done.
      * intros a Ha. apply Ho. by right.
      * intros a x Ha. apply Hd. by right.
      * intros x Hx. by eapply linv_up.
    + by apply (li_ext _ _ _ _ Hl).
    + by apply (li_idx _ _ _ _ Hl).
    + intros x w Hx Hn He. rewrite Hst in Hx.
      apply elem_of_app in Hx as [Hx|[->|Hx]%elem_of_cons]; [by eapply Hpre|by apply Hout|done].
Qed.

Lemma strongconnect_ok : ∀ fuel open v s,
  tinv open s → v ∉ found s → v ∈ U → (∀ a, a ∈ open → rtc E a v) → (size (U ∖ found s) ≤ fuel)%nat →
  answers (returned open v s) (strongconnect fuel g v s).
Proof.
  induction fuel as [|fuel IH]; intros open v s Hs Hv Hu Hr Hf.
  { assert (U ∖ found s ≡ ∅) as He by (apply size_empty_inv; lia). set_solver. }
  simpl. destruct (neighbors_loop_ok (strongconnect fuel g) open v s Hv (neighbours (g_adj g) v) (discover v s))
    as (r & s' & -> & Hr'); [|by apply discover_ok|done|].
  - intros w s1 Hl Hw He. pose proof (li_inv _ _ _ _ Hl) as Hs1. apply IH; [done|done|by eapply HU| |].
    + assert (v ∈ stack s1) as Hv1 by (apply (ti_open _ _ Hs1); left).
      intros a [->|Ha]%elem_of_cons; [by apply rtc_once|]. eapply rtc_r; [by apply Hr|done].
    + assert (size (U ∖ found s1) < size (U ∖ found s))%nat; [|lia]. apply subset_size.
      assert (v ∈ found s1) by (apply (ti_stack _ _ Hs1), (ti_open _ _ Hs1); left).
      pose proof (ex_found _ _ (li_ext _ _ _ _ Hl)). set_solver.
  - destruct r as [p|]; [by exists (Some p), s'|]. destruct Hr' as (Hl & _ & Hns). by apply close_root_ok.
Qed.

(** With no open agent the stack is empty. *)
Lemma tinv_nil_stack s : tinv [] s → stack s = [].
Proof.
  intros Hs. destruct (stack s) as [|x l] eqn:Hst; [done|].
  destruct (ti_up _ _ Hs x) as (a & Ha & _); [rewrite Hst; left|]. by apply not_elem_of_nil in Ha.
Qed.

Lemma start_all_components fuel : (size U ≤ fuel)%nat → ∀ nodes s,
  tinv [] s → (∀ x, x ∈ nodes → x ∈ U) →
  answers (λ s', tinv [] s' ∧ found s ⊆ found s' ∧ ∀ x, x ∈ nodes → x ∈ found s') (start_all fuel g nodes s).
Proof.
  intros Hf. induction nodes as [|n nodes IH]; intros s Hs Hn; simpl.
  { exists None, s. split; [done|]. split; [done|]. split; [done|]. intros x Hx. by apply not_elem_of_nil in Hx. }
  assert (∀ s1, tinv [] s1 → found s ⊆ found s1 → n ∈ found s1 →
    answers (λ s', tinv [] s' ∧ found s ⊆ found s' ∧ ∀ x, x ∈ n :: nodes → x ∈ found s') (start_all fuel g nodes s1)) as Hnext.
  { intros s1 Hs1 Hsub Hn1. destruct (IH s1 Hs1) as (r & s2 & -> & Hr); [intros x Hx; apply Hn; by right|].
    exists r, s2. split; [done|]. destruct r as [p|]; [done|]. destruct Hr as (Hs2 & Hsub2 & Hall).
    split; [done|]. split; [by etrans|]. intros x [->|Hx]%elem_of_cons; [by apply Hsub2|by apply Hall]. }
  destruct (index_map s !! n) as [i|] eqn:Hi; [apply Hnext; [done|done|apply elem_of_dom; eauto]|].
  destruct (strongconnect_ok fuel [] n s) as (r & s1 & -> & Hr).
  - done.
  - by apply not_elem_of_dom.
  - apply Hn. left.
  - intros a Ha. by apply not_elem_of_nil in Ha.
  - etrans; [|exact Hf]. apply subseteq_size. set_solver.
  - destruct r as [p|]; [by exists (Some p), s1|]. destruct Hr as [Hs1 Hext Hn1 _ _ _ _].
    apply Hnext; [done|apply Hext|done].
Qed.

Lemma tinv_init : tinv [] init.
Proof.
  split; try done; try (intros x Hx; by apply not_elem_of_nil in Hx).
  - constructor.
  - intros a x Ha. by apply not_elem_of_nil in Ha.
Qed.
End Components.

(** ** The graph of the edges *)

Lemma graph_of_snoc {M} (es : list (Edge M)) e : graph_of (es ++ [e]) = add_edge (graph_of es) e.
Proof. unfold graph_of. by rewrite foldl_app. Qed.

Lemma neighbours_insert adj k ns x : neighbours (<[k := ns]> adj) x = if decide (x = k) then ns else neighbours adj x.
Proof.
  unfold neighbours. destruct (decide (x = k)) as [->|Hx]; [by rewrite lookup_insert_eq|by rewrite lookup_insert_ne].
Qed.

Lemma graph_of_edge {M} (es : list (Edge M)) x y :
  edge (g_adj (graph_of es)) x y ↔ ∃ e, e ∈ es ∧ e_source e = x ∧ e_target e = y.
Proof.
  unfold edge. induction es as [|e es IH] using rev_ind.
  { unfold neighbours. simpl. rewrite lookup_empty. simpl. split; [by intros ?%not_elem_of_nil|].
    intros (e & He & _). by apply not_elem_of_nil in He. }
  rewrite graph_of_snoc. simpl. rewrite neighbours_insert. destruct (decide (x = e_source e)) as [->|Hx].
  - rewrite elem_of_app, IH, list_elem_of_singleton. split.
    + intros [(e' & He & H)|Hy]; [exists e'|exists e]; rewrite elem_of_app, list_elem_of_singleton; by auto.
    + intros (e' & [He| ->%list_elem_of_singleton]%elem_of_app & Hs & Ht); [by eauto|by right].
  - rewrite IH. split; intros (e' & He & Hs & Ht); exists e'; (split; [|done]); rewrite elem_of_app in *.
    + by left.
    + destruct He as [?| ->%list_elem_of_singleton]; [done|congruence].
Qed.

Lemma graph_of_nodes {M} (es : list (Edge M)) x :
  x ∈ g_nodes (graph_of es) ↔ ∃ e, e ∈ es ∧ (e_source e = x ∨ e_target e = x).
Proof.
  induction es as [|e es IH] using rev_ind.
  { simpl. split; [by intros ?%not_elem_of_empty|]. intros (e & He & _). by apply not_elem_of_nil in He. }
  rewrite graph_of_snoc. simpl. rewrite !elem_of_union, !elem_of_singleton, IH. split.
  - intros [->|[->|(e' & He & H)]]; [exists e|exists e|exists e']; rewrite elem_of_app, list_elem_of_singleton; auto.
  - intros (e' & [He| ->%list_elem_of_singleton]%elem_of_app & [<-|<-]); eauto 6.
Qed.

Lemma graph_of_self_loops {M} (es : list (Edge M)) x :
  x ∈ g_self_loops (graph_of es) ↔ edge (g_adj (graph_of es)) x x.
Proof.
  rewrite graph_of_edge. induction es as [|e es IH] using rev_ind.
  { simpl. split; [by intros ?%not_elem_of_empty|]. intros (e & He & _). by apply not_elem_of_nil in He. }
  rewrite graph_of_snoc. simpl. transitivity ((e_source e = x ∧ e_target e = x) ∨ x ∈ g_self_loops (graph_of es)).
  - destruct (decide (e_source e = e_target e)) as [He|He].
    + rewrite elem_of_union, elem_of_singleton, He. intuition congruence.
    + intuition congruence.
  - rewrite IH. split.
    + intros [H|(e' & He & H)]; [exists e|exists e']; rewrite elem_of_app, list_elem_of_singleton; auto.
    + intros (e' & [He| ->%list_elem_of_singleton]%elem_of_app & H); eauto.
Qed.

Lemma cycle_detect_spec {M} fuel (es : list (Edge M)) nodes :
  (∀ x, x ∈ nodes ↔ x ∈ g_nodes (graph_of es)) →
  (size (g_nodes (graph_of es)) ≤ fuel)%nat → Z.of_nat (size (g_nodes (graph_of es))) ≤ 2 ^ 32 →
  ∃ r, cycle_detect fuel es nodes = Some r ∧
    match r with
    | Some scc => cyclic_component (g_adj (graph_of es)) scc
    | None => acyclic (g_adj (graph_of es))
    end.
Proof.
  intros Hn Hf Hw. set (g := graph_of es) in *.
  assert (universe (g_adj g) (g_nodes g)) as HU.
  { intros x y _ (e & He & _ & Ht)%graph_of_edge. apply graph_of_nodes. eauto. }
  unfold cycle_detect. fold g.
  destruct (start_all_components g (g_nodes g) HU (graph_of_self_loops es) Hw fuel Hf nodes init (tinv_init _ _))
    as (r & s & -> & Hr); [intros x; by apply Hn|].
  exists r. split; [done|]. destruct r as [p|]; [done|]. destruct Hr as (Hs & _ & Hall).
  eapply settled_acyclic; [by apply (ti_settled _ _ _ _ Hs)|]. intros x y (e & He & Hx & _)%graph_of_edge.
  rewrite (ti_on_stack _ _ _ _ Hs), (tinv_nil_stack _ _ _ Hs). simpl. rewrite difference_empty_L.
  apply Hall, Hn, graph_of_nodes. eauto.
Qed.

(** ** Both detectors *)

Definition linked {M} (es : list (Edge M)) (x y : AgentId) : Prop := ∃ e, e ∈ es ∧ e_source e = x ∧ e_target e = y.

Lemma tc_iff (R1 R2 : relation AgentId) : (∀ x y, R1 x y ↔ R2 x y) → ∀ x y, tc R1 x y ↔ tc R2 x y.
Proof. intros HR x y. split; apply (tc_congruence id); intros ? ?; apply HR. Qed.

(** Over any set of edges, in whatever order the hash maps are
    iterated, the depth-first search and Tarjan's algorithm both end with fuel for every
    agent, and both find nothing exactly when no agent reaches itself; a path found by the
    search is a closed walk along edges, and a component found by Tarjan's algorithm is a
    whole strongly connected component, each agent once, of agents that lie on cycles. *)
Theorem cycle_detectors_agree {M} (es : list (Edge M)) adj keys nodes fuel :
  (∀ x y, y ∈ neighbours adj x ↔ linked es x y) →
  (∀ x, x ∈ keys ↔ x ∈ dom adj) → (∀ x, x ∈ nodes ↔ x ∈ g_nodes (graph_of es)) →
  (size (agents adj) ≤ fuel)%nat → (size (g_nodes (graph_of es)) ≤ fuel)%nat →
  Z.of_nat (size (g_nodes (graph_of es))) ≤ 2 ^ 32 →
  ∃ path scc, Dfs.detect_cycle fuel adj keys = Some path ∧ cycle_detect fuel es nodes = Some scc ∧
    (path = None ↔ ∀ x, ¬ tc (linked es) x x) ∧ (scc = None ↔ ∀ x, ¬ tc (linked es) x x) ∧
    (∀ p, path = Some p → closed_walk adj p) ∧
    (∀ c, scc = Some c → c ≠ [] ∧ NoDup c ∧ ∀ x, x ∈ c → ∀ y, y ∈ c ↔ tc (linked es) x y ∧ tc (linked es) y x).
Proof.
  intros Hadj Hk Hn Hfa Hfn Hw.
  destruct (detect_cycle_spec fuel adj keys Hk Hfa) as (path & -> & Hp).
  destruct (cycle_detect_spec fuel es nodes Hn Hfn Hw) as (scc & -> & Hs).
  pose proof (tc_iff _ _ Hadj) as Htd. pose proof (tc_iff _ _ (graph_of_edge es)) as Htt.
  change (λ x y, y ∈ neighbours adj x) with (edge adj) in Htd.
  change (λ x y, ∃ e, e ∈ es ∧ e_source e = x ∧ e_target e = y) with (linked es) in Htt.
  exists path, scc. do 2 (split; [done|]). split; [|split; [|split]].
  - split; [intros ->; intros x Hx%Htd; by apply (Hp x)|]. intros Ha. destruct path as [p|]; [|done].
    destruct (closed_walk_tc _ _ Hp) as [x Hx%Htd]. by apply Ha in Hx.
  - split; [intros ->; intros x Hx%Htt; by apply (Hs x)|]. intros Ha. destruct scc as [c|]; [|done].
    destruct Hs as (Hne & _ & Hc). destruct c as [|x c]; [done|]. exfalso.
    apply (Ha x), Htt, (Hc x); [left..].
  - by intros p ->.
  - intros c ->. destruct Hs as (Hne & Hnd & Hc). split; [done|]. split; [done|]. intros x Hx y.
    rewrite (Hc x Hx y). by rewrite !Htt.
Qed.

Lemma cycle_detectors_agree_witness :
  let link s t := {| e_id := 0; e_source := s; e_target := t; e_edge_type := Calls; e_created_at := 0; e_metadata := None (A := unit) |} : Edge unit in
  let es := [link 1%N 2%N; link 2%N 3%N; link 3%N 2%N; link 3%N 4%N] in
  let adj : gmap AgentId (list AgentId) := g_adj (graph_of es) in
  ∃ path scc, Dfs.detect_cycle 4 adj [1%N; 2%N; 3%N] = Some path ∧ cycle_detect 4 es [1%N; 2%N; 3%N; 4%N] = Some scc ∧
    path = Some [2%N; 3%N; 2%N] ∧ scc = Some [3%N; 2%N] ∧ ∀ p, path = Some p → closed_walk adj p.
Proof.
  intros link es adj.
  destruct (cycle_detectors_agree es adj [1%N; 2%N; 3%N] [1%N; 2%N; 3%N; 4%N] 4) as (path & scc & Hp & Hs & _ & _ & Hwalk & _).
  - apply (graph_of_edge es).
  - assert (dom adj = {[1%N; 2%N; 3%N]}) as -> by (vm_compute; reflexivity). set_solver.
  - assert (g_nodes (graph_of es) = {[1%N; 2%N; 3%N; 4%N]}) as -> by (vm_compute; reflexivity). set_solver.
  - vm_compute. lia.
  - vm_compute. lia.
  - vm_compute. done.
  - exists path, scc. split; [done|]. split; [done|]. split; [|split; [|done]].
    + vm_compute in Hp. congruence.
    + vm_compute in Hs. congruence.
Defined.
