(* ===== verification/EdgeStore.v ===== *)
(** * EdgeStore: the append-only stores of topology edges

    aa-gateway/src/edges (store.rs, repo.rs, events.rs) and the trait [EdgeRepo] with its
    test double of aa-core/src/topology/edge.rs.  Both stores of the gateway keep their
    records in a [Vec] and four indexes of positions into it; they differ in the type of the
    edge type, and the repository tells a channel about edges between two teams.

    The trait is a record of operations with their laws: an abstract log, newest edge last,
    that an insertion extends and the lists filter.  The clients are proved against it. *)

From stdpp Require Import base gmap strings list sets.
From Stdlib Require Import ZArith Lia Bool String.
From S2P Require Import Prelude.
From S2P Require Import CoreTypes.
From S2P Require Import Registry.
From S2P Require Import Topology.

Open Scope Z_scope.
Open Scope aasm_scope.

(** [i64 + 1] of a release build. *)
Definition wrap_i64 (n : Z) : Z := (n + 2 ^ 63) mod 2 ^ 64 - 2 ^ 63.

Definition PAGE_MAX : Z := 1000.

(** ** The indexed data *)

Module Data.
Section Data.
Context {T M : Type} `{Countable T}.

Abbreviation Index K := (gmap K (list nat)).

Record RepoData := {
  records : list (EdgeOf T M);
  next_id : Z;
  by_source_type : Index (AgentId * T);
  by_target_type : Index (AgentId * T);
  by_source : Index AgentId;
  by_target : Index AgentId;
}.

Definition new : RepoData := {|
  records := []; next_id := 1; by_source_type := ∅; by_target_type := ∅; by_source := ∅; by_target := ∅ |}.

(** [index.entry(key).or_default().push(idx)]. *)
Definition push_index {K} `{Countable K} (key : K) (i : nat) (index : Index K) : Index K :=
  <[key := default [] (index !! key) ++ [i]]> index.

(** The write section of [insert] at the time [now]. *)
Definition insert (now : Z) (edge : NewEdgeOf T M) (d : RepoData) : Z * RepoData :=
  let id := next_id d in
  let i := List.length (records d) in
  (id, {|
    records := records d ++ [{| e_id := id; e_source := ne_source edge; e_target := ne_target edge;
                                e_edge_type := ne_edge_type edge; e_created_at := now;
                                e_metadata := ne_metadata edge |}];
    next_id := wrap_i64 (id + 1);
    by_source_type := push_index (ne_source edge, ne_edge_type edge) i (by_source_type d);
    by_target_type := push_index (ne_target edge, ne_edge_type edge) i (by_target_type d);
    by_source := push_index (ne_source edge) i (by_source d);
    by_target := push_index (ne_target edge) i (by_target d) |}).

(** [idxs.iter().rev().take(limit).map(|&i| data.records[i].clone())]; an index out of range
    panics. *)
Definition select (d : RepoData) (idxs : list nat) (limit : Z) : option (list (EdgeOf T M)) :=
  mapM (λ i, records d !! i) (take (Z.to_nat (Z.min limit PAGE_MAX)) (rev idxs)).

Definition list_outgoing (d : RepoData) (source : AgentId) (edge_type : option T) (limit : Z)
  : option (list (EdgeOf T M)) :=
  select d (default [] (match edge_type with
                        | Some et => by_source_type d !! (source, et)
                        | None => by_source d !! source
                        end)) limit.

Definition list_incoming (d : RepoData) (target : AgentId) (edge_type : option T) (limit : Z)
  : option (list (EdgeOf T M)) :=
  select d (default [] (match edge_type with
                        | Some et => by_target_type d !! (target, et)
                        | None => by_target d !! target
                        end)) limit.

Definition list_by_type (d : RepoData) (edge_type : T) (since limit : Z) : list (EdgeOf T M) :=
  take (Z.to_nat (Z.min limit PAGE_MAX))
    (rev (List.filter (λ r, bool_decide (e_edge_type r = edge_type) && (since <=? e_created_at r)) (records d))).
End Data.
#[global] Arguments RepoData T M {_ _}.
End Data.
Import Data.

(** ** [InMemoryEdgeStore] *)

Module Store.
Section Store.
Context {M : Type}.

Definition VALID_EDGE_TYPES : list string :=
  ["delegates_to"; "calls"; "reads"; "writes"; "approves"; "messages"].

Inductive EdgeStoreError := InvalidEdgeType (edge_type : string).

Definition EdgeData : Type := RepoData string M.

Definition insert (now : Z) (edge : NewEdgeOf string M) (d : EdgeData) : result Z EdgeStoreError * EdgeData :=
  if existsb (String.eqb (ne_edge_type edge)) VALID_EDGE_TYPES then
    let (id, d') := Data.insert now edge d in (Ok id, d')
  else (Err (InvalidEdgeType (ne_edge_type edge)), d).

(** The lists read the same indexes, keyed by the text of the type. *)
Definition list_outgoing (d : EdgeData) (source : AgentId) (edge_type : option string) (limit : Z)
  : option (list (EdgeOf string M)) := Data.list_outgoing d source edge_type limit.

Definition list_incoming (d : EdgeData) (target : AgentId) (edge_type : option string) (limit : Z)
  : option (list (EdgeOf string M)) := Data.list_incoming d target edge_type limit.

Definition list_by_type (d : EdgeData) (edge_type : string) (since limit : Z) : list (EdgeOf string M) :=
  Data.list_by_type d edge_type since limit.
End Store.
End Store.

(** ** [InMemoryEdgeRepo] *)

Module Repo.
Section Repo.
Context {M : Type}.

Record CrossTeamEdgeEvent := {
  ct_edge_id : Z;
  ct_source_agent_id : AgentId;
  ct_source_team_id : string;
  ct_target_agent_id : AgentId;
  ct_target_team_id : string;
  ct_edge_type : EdgeType;
  ct_occurred_at : Z;
}.

(** The data and what was sent to the channel; [with_events] is the repository's registry,
    present when it was made with one. *)
Record InMemoryEdgeRepo := { repo_data : RepoData EdgeType M; repo_sent : list CrossTeamEdgeEvent }.

Definition new : InMemoryEdgeRepo := {| repo_data := Data.new; repo_sent := [] |}.

Definition team_id_of (registry : AgentRegistry) (id : AgentId) : option string :=
  get registry id ≫= ar_team_id.

Definition cross_team_event (registry : AgentRegistry) (id : Z) (edge : NewEdge M) (occurred_at : Z)
  : list CrossTeamEdgeEvent :=
  match team_id_of registry (ne_source edge), team_id_of registry (ne_target edge) with
  | Some source_team_id, Some target_team_id =>
      if decide (source_team_id = target_team_id) then []
      else [{| ct_edge_id := id; ct_source_agent_id := ne_source edge; ct_source_team_id := source_team_id;
               ct_target_agent_id := ne_target edge; ct_target_team_id := target_team_id;
               ct_edge_type := ne_edge_type edge; ct_occurred_at := occurred_at |}]
  | _, _ => []
  end.

Definition insert (with_events : option AgentRegistry) (now : Z) (edge : NewEdge M) (r : InMemoryEdgeRepo)
  : Z * InMemoryEdgeRepo :=
  let (id, d) := Data.insert now edge (repo_data r) in
  (id, {| repo_data := d;
          repo_sent := repo_sent r ++
            match with_events with Some registry => cross_team_event registry id edge now | None => [] end |}).
End Repo.
#[global] Arguments InMemoryEdgeRepo M : clear implicits.
End Repo.

(** ** The trait *)

(** [EdgeRepo]: an operation fails with the text of [EdgeRepoError::Store]. *)
Class EdgeRepo (M S : Type) := {
  repo_insert : Z → NewEdge M → S → result Z string * S;
  repo_list_outgoing : S → AgentId → option EdgeType → Z → result (list (Edge M)) string;
  repo_list_incoming : S → AgentId → option EdgeType → Z → result (list (Edge M)) string;
  repo_list_by_type : S → EdgeType → Z → Z → result (list (Edge M)) string;
}.

Definition of_type {M} (edge_type : option EdgeType) (e : Edge M) : bool :=
  match edge_type with Some et => bool_decide (e_edge_type e = et) | None => true end.

(** The newest [limit] edges of a log that satisfy [f], at most a page. *)
Definition newest {T M} (f : EdgeOf T M → bool) (limit : Z) (log : list (EdgeOf T M)) : list (EdgeOf T M) :=
  take (Z.to_nat (Z.min limit PAGE_MAX)) (rev (List.filter f log)).

Definition recorded {T M} (id now : Z) (edge : NewEdgeOf T M) : EdgeOf T M := {|
  e_id := id; e_source := ne_source edge; e_target := ne_target edge; e_edge_type := ne_edge_type edge;
  e_created_at := now; e_metadata := ne_metadata edge |}.

(** The documented contract of the trait over the log of the recorded edges. *)
Class EdgeRepoLaws (M S : Type) `{!EdgeRepo M S} := {
  repo_log : S → list (Edge M);
  repo_inv : S → Prop;
  law_insert s now edge r s' :
    repo_inv s → repo_insert now edge s = (r, s') →
    repo_inv s' ∧
    repo_log s' = repo_log s ++ match r with Ok id => [recorded id now edge] | Err _ => [] end;
  law_outgoing s a et limit l :
    repo_inv s → repo_list_outgoing s a et limit = Ok l →
    l = newest (λ e, bool_decide (e_source e = a) && of_type et e) limit (repo_log s);
  law_incoming s a et limit l :
    repo_inv s → repo_list_incoming s a et limit = Ok l →
    l = newest (λ e, bool_decide (e_target e = a) && of_type et e) limit (repo_log s);
  law_by_type s et since limit l :
    repo_inv s → repo_list_by_type s et since limit = Ok l →
    l = newest (λ e, bool_decide (e_edge_type e = et) && (since <=? e_created_at e)) limit (repo_log s);
}.

(** [InMemoryEdgeRepo] behind the trait; the lemmas below show that no list is a default. *)
#[export] Instance in_memory_repo M (with_events : option AgentRegistry) : EdgeRepo M (Repo.InMemoryEdgeRepo M) := {|
  repo_insert now edge r := let (id, r') := Repo.insert with_events now edge r in (Ok id, r');
  repo_list_outgoing r a et limit := Ok (default [] (list_outgoing (Repo.repo_data r) a et limit));
  repo_list_incoming r a et limit := Ok (default [] (list_incoming (Repo.repo_data r) a et limit));
  repo_list_by_type r et since limit := Ok (list_by_type (Repo.repo_data r) et since limit) |}.

(** ** [MockEdgeRepo]: the same without indexes *)

Module Mock.
Section Mock.
Context {M : Type}.
Record MockEdgeRepo := { inner : list (Edge M); mock_next_id : Z }.

Definition new : MockEdgeRepo := {| inner := []; mock_next_id := 1 |}.

Definition insert (now : Z) (edge : NewEdge M) (r : MockEdgeRepo) : Z * MockEdgeRepo :=
  (mock_next_id r, {| inner := inner r ++ [recorded (mock_next_id r) now edge];
                      mock_next_id := wrap_i64 (mock_next_id r + 1) |}).

Definition list_outgoing (r : MockEdgeRepo) (source : AgentId) (et : option EdgeType) (limit : Z) : list (Edge M) :=
  take (Z.to_nat (Z.min limit 1000)) (rev (List.filter (λ e, bool_decide (e_source e = source) && of_type et e) (inner r))).

Definition list_incoming (r : MockEdgeRepo) (target : AgentId) (et : option EdgeType) (limit : Z) : list (Edge M) :=
  take (Z.to_nat (Z.min limit 1000)) (rev (List.filter (λ e, bool_decide (e_target e = target) && of_type et e) (inner r))).

Definition list_by_type (r : MockEdgeRepo) (et : EdgeType) (since limit : Z) : list (Edge M) :=
  take (Z.to_nat (Z.min limit 1000))
    (rev (List.filter (λ e, bool_decide (e_edge_type e = et) && (since <=? e_created_at e)) (inner r))).
End Mock.
#[global] Arguments MockEdgeRepo M : clear implicits.
End Mock.

(** ** The indexed stores are filtered logs

    The four indexes always hold, in order, the positions of the records with their key, so
    every list is the filter of the log it stands for, no index is out of range, and the
    indexed repository cannot be told from the test double without indexes. *)

Import Data.


(** ** The indexes *)

Section Indexed.
Context {T M : Type} `{Countable T}.
Implicit Types (d : RepoData T M) (e : EdgeOf T M).

Definition index_ok {K} `{Countable K} (key : EdgeOf T M → K) (d : RepoData T M) (index : gmap K (list nat)) : Prop :=
  ∀ k, default [] (index !! k) = positions (λ e, bool_decide (key e = k)) (records d).

Record data_inv d : Prop := {
  in_source_type : index_ok (λ e, (e_source e, e_edge_type e)) d (by_source_type d);
  in_target_type : index_ok (λ e, (e_target e, e_edge_type e)) d (by_target_type d);
  in_source : index_ok e_source d (by_source d);
  in_target : index_ok e_target d (by_target d);
}.

Lemma data_new_inv : data_inv new.
Proof. split; intros k; simpl; by rewrite lookup_empty. Qed.

Lemma push_index_ok {K} `{Countable K} (key : EdgeOf T M → K) d d' e index :
  records d' = records d ++ [e] → index_ok key d index →
  index_ok key d' (push_index (key e) (List.length (records d)) index).
Proof.
  intros Hr Hok k. rewrite Hr, positions_snoc. unfold push_index.
  destruct (decide (key e = k)) as [->|Hk].
  - rewrite lookup_insert_eq, bool_decide_true by done. simpl. f_equal. apply Hok.
  - rewrite lookup_insert_ne, bool_decide_false, app_nil_r by done. apply Hok.
Qed.

Lemma data_insert_inv now edge d : data_inv d → data_inv (snd (insert now edge d)).
Proof.
  intros [H1 H2 H3 H4]. set (e := recorded (next_id d) now edge). split.
  - by apply (push_index_ok (λ e, (e_source e, e_edge_type e)) d _ e).
  - by apply (push_index_ok (λ e, (e_target e, e_edge_type e)) d _ e).
  - by apply (push_index_ok e_source d _ e).
  - by apply (push_index_ok e_target d _ e).
Qed.

Lemma select_ok (f : EdgeOf T M → bool) d limit :
  select d (positions f (records d)) limit = Some (newest f limit (records d)).
Proof.
  unfold select, newest. apply mapM_Some. apply Forall2_take, Forall2_rev, positions_lookup.
Qed.

(** The typed and the untyped filter of a list. *)
Definition keyed (key : EdgeOf T M → AgentId) (a : AgentId) (et : option T) e : bool :=
  bool_decide (key e = a) && match et with Some t => bool_decide (e_edge_type e = t) | None => true end.

Lemma newest_ext (f g : EdgeOf T M → bool) limit log : (∀ e, f e = g e) → newest f limit log = newest g limit log.
Proof. intros Hfg. unfold newest. by rewrite (List.filter_ext f g). Qed.

Lemma select_keyed (key : EdgeOf T M → AgentId) d typed untyped a et limit :
  index_ok (λ e, (key e, e_edge_type e)) d typed → index_ok key d untyped →
  select d (default [] (match et with Some t => typed !! (a, t) | None => untyped !! a end)) limit
  = Some (newest (keyed key a et) limit (records d)).
Proof.
  intros Ht Hu. destruct et as [t|].
  - rewrite (Ht (a, t)), select_ok. f_equal. apply newest_ext. intros e. unfold keyed.
    apply eq_true_iff_eq. rewrite andb_true_iff, !bool_decide_eq_true. split; [by intros [=]|by intros [-> ->]].
  - rewrite (Hu a), select_ok. f_equal. apply newest_ext. intros e. unfold keyed. by rewrite andb_true_r.
Qed.

Lemma list_outgoing_ok d a et limit :
  data_inv d → list_outgoing d a et limit = Some (newest (keyed e_source a et) limit (records d)).
Proof. intros []. by apply select_keyed. Qed.

Lemma list_incoming_ok d a et limit :
  data_inv d → list_incoming d a et limit = Some (newest (keyed e_target a et) limit (records d)).
Proof. intros []. by apply select_keyed. Qed.
End Indexed.

(** ** The trait's contract *)

#[export] Instance in_memory_repo_laws M events : @EdgeRepoLaws M (Repo.InMemoryEdgeRepo M) (in_memory_repo M events).
Proof.
  refine {| repo_log r := records (Repo.repo_data r) : list (Edge M); repo_inv r := data_inv (Repo.repo_data r) |}.
  - intros s now edge r s' Hs [= <- <-]. split; [|done]. by apply (data_insert_inv now edge).
  - intros s a et limit l Hs [= <-]. by rewrite list_outgoing_ok.
  - intros s a et limit l Hs [= <-]. by rewrite list_incoming_ok.
  - by intros s et since limit l Hs [= <-].
Defined.

(** ** Refinement of the test double

    What a client of the trait can observe, one operation after the other. *)

Inductive Op (M : Type) :=
| Insert (now : Z) (edge : NewEdge M)
| Outgoing (source : AgentId) (et : option EdgeType) (limit : Z)
| Incoming (target : AgentId) (et : option EdgeType) (limit : Z)
| ByType (et : EdgeType) (since limit : Z).
#[global] Arguments Insert {M} _ _.
#[global] Arguments Outgoing {M} _ _ _.
#[global] Arguments Incoming {M} _ _ _.
#[global] Arguments ByType {M} _ _ _.

Inductive Seen (M : Type) := Assigned (id : Z) | Listed (edges : list (Edge M)) | Panicked.
#[global] Arguments Assigned {M} _.
#[global] Arguments Listed {M} _.
#[global] Arguments Panicked {M}.

Definition listed {M} (l : option (list (Edge M))) : Seen M :=
  match l with Some l => Listed l | None => Panicked end.

Definition repo_step {M} (events : option AgentRegistry) (op : Op M) (r : Repo.InMemoryEdgeRepo M)
  : Seen M * Repo.InMemoryEdgeRepo M :=
  match op with
  | Insert now edge => let (id, r') := Repo.insert events now edge r in (Assigned id, r')
  | Outgoing a et limit => (listed (list_outgoing (Repo.repo_data r) a et limit), r)
  | Incoming a et limit => (listed (list_incoming (Repo.repo_data r) a et limit), r)
  | ByType et since limit => (Listed (list_by_type (Repo.repo_data r) et since limit), r)
  end.

Definition mock_step {M} (op : Op M) (r : Mock.MockEdgeRepo M) : Seen M * Mock.MockEdgeRepo M :=
  match op with
  | Insert now edge => let (id, r') := Mock.insert now edge r in (Assigned id, r')
  | Outgoing a et limit => (Listed (Mock.list_outgoing r a et limit), r)
  | Incoming a et limit => (Listed (Mock.list_incoming r a et limit), r)
  | ByType et since limit => (Listed (Mock.list_by_type r et since limit), r)
  end.

Fixpoint observe {S Op Seen : Type} (step : Op → S → Seen * S) (ops : list Op) (s : S) : list Seen :=
  match ops with
  | [] => []
  | op :: rest => let (o, s') := step op s in o :: observe step rest s'
  end.

(** The simulation relation. *)
Record simulates {M} (m : Mock.MockEdgeRepo M) (r : Repo.InMemoryEdgeRepo M) : Prop := {
  sim_inv : data_inv (Repo.repo_data r);
  sim_log : records (Repo.repo_data r) = Mock.inner m;
  sim_next : next_id (Repo.repo_data r) = Mock.mock_next_id m;
}.

Lemma simulates_step {M} events (op : Op M) m r :
  simulates m r →
  fst (repo_step events op r) = fst (mock_step op m) ∧
  simulates (snd (mock_step op m)) (snd (repo_step events op r)).
Proof.
  intros [Hi Hl Hn]. destruct op as [now edge|a et limit|a et limit|et since limit]; simpl.
  - split; [by rewrite Hn|]. split; [by apply (data_insert_inv now edge)|simpl; by rewrite Hl, Hn|simpl; by rewrite Hn].
  - rewrite list_outgoing_ok, Hl by done. split; [done|by split].
  - rewrite list_incoming_ok, Hl by done. split; [done|by split].
  - unfold list_by_type. rewrite Hl. split; [done|by split].
Qed.

Lemma simulates_observe {M} events (ops : list (Op M)) m r :
  simulates m r → observe (repo_step events) ops r = observe mock_step ops m.
Proof.
  revert m r. induction ops as [|op ops IH]; intros m r Hsim; simpl; [done|].
  destruct (simulates_step events op m r Hsim) as [Hf Hs].
  destruct (repo_step events op r) as [o r'], (mock_step op m) as [o' m']. simpl in *. subst.
  f_equal. by apply IH.
Qed.

(** Whatever sequence of insertions and lists a client performs, with or without
    events, the indexed repository answers every one exactly as the test double that keeps only a log and
    filters it: same identifiers, same edges in the same order, and no index is ever out of range. *)
Theorem repo_refines_log : ∀ (M : Type) (events : option AgentRegistry) (ops : list (Op M)),
  observe (repo_step events) ops Repo.new = observe mock_step ops Mock.new ∧
  Panicked ∉ observe (repo_step events) ops Repo.new.
Proof.
  intros M events ops.
  assert (simulates (M := M) Mock.new Repo.new) as Hsim by (split; [apply data_new_inv|done|done]).
  split; [by apply simulates_observe|]. rewrite (simulates_observe events ops _ _ Hsim). clear Hsim.
  generalize (Mock.new (M := M)). induction ops as [|op ops IH]; intros m; simpl; [apply not_elem_of_nil|].
  destruct op as [now edge|a et limit|a et limit|et since limit]; simpl;
    apply not_elem_of_cons; (split; [done|]); apply IH.
Qed.

(** ** Events and identifiers *)

(** An event says that the teams the registry knows for the endpoints differ. *)
Lemma cross_team_event_iff {M} (g : AgentRegistry) id (edge : NewEdge M) now :
  Repo.cross_team_event g id edge now ≠ [] ↔
  ∃ s t, Repo.team_id_of g (ne_source edge) = Some s ∧ Repo.team_id_of g (ne_target edge) = Some t ∧ s ≠ t.
Proof.
  unfold Repo.cross_team_event. destruct (Repo.team_id_of g (ne_source edge)) as [s|], (Repo.team_id_of g (ne_target edge)) as [t|];
    try (split; [done|]; intros (s' & t' & ? & ? & ?); congruence).
  destruct (decide (s = t)) as [->|Hne].
  - split; [done|]. intros (s' & t' & [= <-] & [= <-] & Hne). done.
  - split; [|done]. intros _. by exists s, t.
Qed.

Lemma wrap_i64_id n : - 2 ^ 63 ≤ n < 2 ^ 63 → wrap_i64 n = n.
Proof. intros. unfold wrap_i64. rewrite Z.mod_small by lia. lia. Qed.

(** Identifiers count up from one: the record at a position has the next number. *)
Definition ids_ok {T M} `{Countable T} (d : RepoData T M) : Prop :=
  next_id d = Z.of_nat (List.length (records d)) + 1 ∧
  ∀ i e, records d !! i = Some e → e_id e = Z.of_nat i + 1.

Lemma insert_ids {T M} `{Countable T} now (edge : NewEdgeOf T M) d :
  ids_ok d → Z.of_nat (List.length (records d)) + 2 < 2 ^ 63 → ids_ok (snd (insert now edge d)).
Proof.
  intros [Hn Hi] Hb. split; simpl.
  - rewrite Hn, wrap_i64_id by lia. rewrite length_app. simpl. lia.
  - intros i e He. apply lookup_app_Some in He as [He|[Hge He]]; [by apply Hi|].
    apply list_lookup_singleton_Some in He as [He <-]. simpl. rewrite Hn. lia.
Qed.
