(* ===== verification/Auth.v ===== *)
(** * Auth: credentials, callers and scopes of the HTTP surfaces

    The crate aa-auth (lib.rs, api_key.rs, jwt.rs, scope.rs, role.rs, rate_limit.rs, gate.rs,
    config.rs), the roles of aa-policy/src/rbac.rs with their check in
    aa-api/src/auth/policy_auth.rs.

    argon2, SHA-256 and jsonwebtoken are arguments (the class [Credentials]); time is an
    argument in the unit the code reads: seconds of the wall clock for keys and tokens,
    nanoseconds of the monotonic clock for the rate limit.  A header value is the text
    [HeaderValue::to_str] gives, if it gives one. *)

From stdpp Require Import base gmap strings list sets.
From Stdlib Require Import ZArith Lia Bool Ascii String.
From Stdlib Require Import Floats.SpecFloat.
From S2P Require Import Prelude.
From S2P Require Import Text.
From S2P Require Import Float64.
From S2P Require Import CoreTypes.
From S2P Require Import PolicyDocument.
From S2P Require Import RateLimit.

Open Scope Z_scope.
Open Scope aasm_scope.

(** ** Scopes and roles *)

Module ApiScope.
Inductive t := Read | Write | Admin.

#[global] Instance t_eq_dec : EqDecision t.
Proof. solve_decision. Defined.

(** The derived order. *)
Definition rank (s : t) : Z := match s with Read => 0 | Write => 1 | Admin => 2 end.

Definition is_satisfied_by (required : t) (granted : list t) : bool :=
  existsb (λ s, rank required <=? rank s) granted.

Definition display (s : t) : string := match s with Read => "read" | Write => "write" | Admin => "admin" end.
End ApiScope.

Definition has_scope (s : ApiScope.t) (scopes : list ApiScope.t) : bool := existsb (λ x, bool_decide (x = s)) scopes.

Module Role.
Inductive t := Owner | Admin | Developer | Viewer.

Definition scopes (r : t) : list ApiScope.t :=
  match r with
  | Owner | Admin => [ApiScope.Read; ApiScope.Write; ApiScope.Admin]
  | Developer => [ApiScope.Read; ApiScope.Write]
  | Viewer => [ApiScope.Read]
  end.

Definition as_str (r : t) : string :=
  match r with Owner => "owner" | Admin => "admin" | Developer => "developer" | Viewer => "viewer" end.
End Role.

(** ** Callers *)

Record Tenant := { tn_team_id : option string; tn_org_id : option string }.
Definition tenant_default : Tenant := {| tn_team_id := None; tn_org_id := None |}.

Record AuthenticatedCaller := {
  c_key_id : string;
  c_scopes : list ApiScope.t;
  c_tenant : Tenant;
}.

Definition is_admin (c : AuthenticatedCaller) : bool := has_scope ApiScope.Admin (c_scopes c).

Definition can_access_team (c : AuthenticatedCaller) (team : string) : bool :=
  if is_admin c then true else bool_decide (tn_team_id (c_tenant c) = Some team).

Definition can_access_org (c : AuthenticatedCaller) (org : string) : bool :=
  if is_admin c then true else bool_decide (tn_org_id (c_tenant c) = Some org).

Definition storage_tenant_org (c : AuthenticatedCaller) : option string := tn_org_id (c_tenant c).

Inductive AuthError :=
| MissingHeader
| InvalidToken (reason : string)
| ExpiredToken
| RateLimited (retry_after_secs : Z)
| InsufficientScope (required : ApiScope.t).

(** [ProblemDetail]: the status and the detail; the title follows from the status. *)
Record ProblemDetail := { pd_status : Z; pd_detail : option string }.
Definition problem (status : Z) (detail : string) : ProblemDetail := {| pd_status := status; pd_detail := Some detail |}.

(** [AuthError::into_response]: the problem and the value of the header [retry-after]. *)
Definition auth_error_response (e : AuthError) : ProblemDetail * option string :=
  match e with
  | MissingHeader => (problem 401 "Missing Authorization header", None)
  | InvalidToken reason => (problem 401 (String.append "Invalid token: " reason), None)
  | ExpiredToken => (problem 401 "Token has expired", None)
  | RateLimited secs =>
      (problem 429 (String.append "Rate limit exceeded. Retry after " (String.append (decimal (Z.to_N secs)) " seconds")),
       Some (decimal (Z.to_N secs)))
  | InsufficientScope required =>
      (problem 403 (String.append "Insufficient scope: requires '" (String.append (ApiScope.display required) "'")), None)
  end.

(** ** API keys *)

Definition API_KEY_PREFIX : string := "aa_".
Definition API_KEY_HEX_LEN : Z := 32.
Definition KEY_LOOKUP_HEX_LEN : nat := 16.

Inductive ApiKeyError := InvalidPrefix | InvalidLength (expected actual : Z) | InvalidHex.

(** [ApiKey::parse]. *)
Definition api_key_parse (raw : string) : result string ApiKeyError :=
  match strip_prefix raw API_KEY_PREFIX with
  | None => Err InvalidPrefix
  | Some hex_part =>
      if negb (utf8_len hex_part =? API_KEY_HEX_LEN)
      then Err (InvalidLength API_KEY_HEX_LEN (utf8_len hex_part))
      else if negb (str_forallb is_ascii_hexdigit hex_part) then Err InvalidHex
      else Ok raw
  end.

Record Claims := {
  cl_sub : string;
  cl_iat : Z;
  cl_exp : Z;
  cl_scope : list ApiScope.t;
  cl_team_id : option string;
  cl_org_id : option string;
}.

(** argon2 ([PasswordHash::new] and [verify_password]: a hash that does not parse verifies
    nothing), SHA-256 in lowercase hexadecimal, and jsonwebtoken with HMAC-SHA256 over the
    [Claims]: [encode], and [decode] at a time, which fails with a text. *)
Class Credentials := {
  argon2_verify : string → string → bool;
  sha256_hex : string → string;
  jwt_encode : string → Claims → result string string;
  jwt_decode : string → Z → string → result Claims string;
}.

Record ApiKeyEntry := {
  ak_id : string;
  ak_key_hash : string;
  ak_scopes : list ApiScope.t;
  ak_created_at : Z;
  ak_expires_at : option Z;
  ak_label : option string;
  ak_team_id : option string;
  ak_org_id : option string;
  ak_key_lookup : option string;
}.

Record ApiKeyStore := {
  ks_entries : list ApiKeyEntry;
  ks_lookup_index : gmap string (list nat);
  ks_unindexed : list nat;
  ks_revoked_ids : gset string;
}.

(** One round of [build_index]. *)
Definition index_entry (acc : nat * (gmap string (list nat) * list nat)) (entry : ApiKeyEntry)
  : nat * (gmap string (list nat) * list nat) :=
  let '(idx, (lookup_index, unindexed)) := acc in
  (S idx, match ak_key_lookup entry with
          | Some lookup => (<[lookup := default [] (lookup_index !! lookup) ++ [idx]]> lookup_index, unindexed)
          | None => (lookup_index, unindexed ++ [idx])
          end).

Definition build_index (entries : list ApiKeyEntry) : gmap string (list nat) * list nat :=
  snd (foldl index_entry (0%nat, (∅, [])) entries).

Definition from_entries (entries : list ApiKeyEntry) : ApiKeyStore :=
  let (lookup_index, unindexed) := build_index entries in
  {| ks_entries := entries; ks_lookup_index := lookup_index; ks_unindexed := unindexed; ks_revoked_ids := ∅ |}.

Definition revoke (key_id : string) (s : ApiKeyStore) : ApiKeyStore := {|
  ks_entries := ks_entries s; ks_lookup_index := ks_lookup_index s; ks_unindexed := ks_unindexed s;
  ks_revoked_ids := {[key_id]} ∪ ks_revoked_ids s |}.

Inductive KeyNotValid := NotFound | Revoked | Expired.

(** [now] is what [now_unix_secs] reads: 0 for a clock before the epoch. *)
Definition is_expired (now : Z) (expires_at : option Z) : bool :=
  match expires_at with None => false | Some exp => exp <=? now end.

Section Keys.
Context `{Credentials}.

(** [ApiKey::lookup]: the first eight bytes of the digest. *)
Definition key_lookup (raw : string) : string := substring 0 KEY_LOOKUP_HEX_LEN (sha256_hex raw).

(** The candidates of [validate_detailed]: those of the index, then those without one. *)
Definition candidates (s : ApiKeyStore) (raw : string) : list ApiKeyEntry :=
  omap (λ idx, ks_entries s !! idx) (default [] (ks_lookup_index s !! key_lookup raw) ++ ks_unindexed s).

Definition judge_entry (s : ApiKeyStore) (now : Z) (entry : ApiKeyEntry) : result ApiKeyEntry KeyNotValid :=
  if bool_decide (ak_id entry ∈ ks_revoked_ids s) then Err Revoked
  else if is_expired now (ak_expires_at entry) then Err Expired
  else Ok entry.

Definition validate_detailed (s : ApiKeyStore) (now : Z) (raw_key : string) : result ApiKeyEntry KeyNotValid :=
  match api_key_parse raw_key with
  | Err _ => Err NotFound
  | Ok key =>
      match List.find (λ entry, argon2_verify key (ak_key_hash entry)) (candidates s key) with
      | None => Err NotFound
      | Some entry => judge_entry s now entry
      end
  end.

(** ** Tokens *)

Definition TOKEN_EXPIRY_SECS : Z := 24 * 60 * 60.

(** [sign_with_ttl]; [sign_with_tenant] is the same with the lifetime of a day. *)
Definition sign_with_ttl (secret : string) (now : Z) (subject : string) (scopes : list ApiScope.t)
    (team_id org_id : option string) (ttl_secs : Z) : result string string :=
  jwt_encode secret {| cl_sub := subject; cl_iat := now; cl_exp := wrap64 (now + ttl_secs); cl_scope := scopes;
                       cl_team_id := team_id; cl_org_id := org_id |}.

Definition sign_with_tenant (secret : string) (now : Z) (key_id : string) (scopes : list ApiScope.t)
    (team_id org_id : option string) : result string string :=
  jwt_encode secret {| cl_sub := key_id; cl_iat := now; cl_exp := wrap64 (now + TOKEN_EXPIRY_SECS); cl_scope := scopes;
                       cl_team_id := team_id; cl_org_id := org_id |}.

Definition sign (secret : string) (now : Z) (key_id : string) (scopes : list ApiScope.t) : result string string :=
  sign_with_tenant secret now key_id scopes None None.

(** [JwtVerifier::verify]; the error is the text of [JwtError::Decode]. *)
Definition jwt_verify (secret : string) (now : Z) (token : string) : result Claims string :=
  match jwt_decode secret now token with
  | Ok claims => Ok claims
  | Err e => Err (String.append "failed to decode JWT: " e)
  end.
End Keys.

(** ** The rate limit of a key *)

Module Limiter.
Record TokenBucket := { tokens : f64; capacity : f64; refill_rate : f64; last_refill : Z }.

Definition new_with_window (rpm window_secs now : Z) : TokenBucket :=
  let capacity := f64_of_Z rpm in
  {| tokens := capacity; capacity := capacity; refill_rate := f64_div capacity (f64_of_Z (Z.max window_secs 1));
     last_refill := now |}.

(** [f64::ceil] and [as u64], which saturates; NaN is zero. *)
Definition ceil_as_u64 (x : f64) : Z :=
  match x with
  | S754_finite false m e =>
      Z.min u64_max (if 0 <=? e then Zpos m * 2 ^ e else - (- Zpos m / 2 ^ (- e)))
  | S754_infinity false => u64_max
  | _ => 0
  end.

Definition refill (now : Z) (b : TokenBucket) : TokenBucket :=
  let elapsed := as_secs_f64 (Z.max 0 (now - last_refill b)) in
  {| tokens := f64_min (f64_add (tokens b) (f64_mul elapsed (refill_rate b))) (capacity b);
     capacity := capacity b; refill_rate := refill_rate b; last_refill := now |}.

Definition try_consume (now : Z) (b : TokenBucket) : result unit Z * TokenBucket :=
  let b := refill now b in
  if SFleb f64_one (tokens b) then
    (Ok (), {| tokens := f64_sub (tokens b) f64_one; capacity := capacity b; refill_rate := refill_rate b;
               last_refill := last_refill b |})
  else
    let deficit := f64_sub f64_one (tokens b) in
    (Err (Z.max (ceil_as_u64 (f64_div deficit (refill_rate b))) 1), b).

Record RateLimiter := { buckets : gmap string TokenBucket; rpm : Z; window_secs : Z }.

Definition new (rpm window_secs : Z) : RateLimiter :=
  {| buckets := ∅; rpm := rpm; window_secs := Z.max window_secs 1 |}.

Definition check (now : Z) (key_id : string) (l : RateLimiter) : result unit Z * RateLimiter :=
  let bucket := default (new_with_window (rpm l) (window_secs l) now) (buckets l !! key_id) in
  let (r, bucket') := try_consume now bucket in
  (r, {| buckets := <[key_id := bucket']> (buckets l); rpm := rpm l; window_secs := window_secs l |}).
End Limiter.

(** ** Configuration *)

Inductive AuthMode := On | Off.

#[export] Instance AuthMode_eq_dec : EqDecision AuthMode.
Proof. solve_decision. Defined.

Record AuthConfig := {
  ac_mode : AuthMode;
  ac_jwt_secret : option string;
  ac_api_keys_path : string;
  ac_rate_limit_rpm : Z;
}.

Inductive AuthConfigError := MissingJwtSecret | JwtSecretTooShort (actual : Z) | InvalidRateLimit (value : string).

Definition DEFAULT_API_KEYS_PATH : string := "~/.aa/api-keys.json".
Definition DEFAULT_RATE_LIMIT_RPM : Z := 1000.
Definition MIN_JWT_SECRET_LEN : Z := 32.

(** [str::parse::<u32>]: digits after an optional plus sign. *)
Definition parse_u32 (s : string) : option Z :=
  let digits := match strip_prefix s "+" with Some r => r | None => s end in
  if is_empty digits || negb (str_forallb is_ascii_digit digits) then None
  else let n := digits_value 0 digits in if n <=? u32_max then Some n else None.

Section Environment.
(** [std::env::var], [None] when the variable is unset or not Unicode. *)
Context (env : string → option string).

(** [PathBuf::join] of a relative path. *)
Definition join (base rest : string) : string :=
  if starts_with rest "/" then rest
  else if is_empty base then rest
  else match String.get (String.length base - 1) base with
       | Some c => if ascii_dec c "/"%char then String.append base rest
                   else String.append base (String.append "/" rest)
       | None => rest
       end.

Definition expand_tilde (path : string) : string :=
  match strip_prefix path "~/" with
  | Some rest => match env "HOME" with Some home => join home rest | None => path end
  | None => path
  end.

Definition resolve_rate_limit_rpm : result Z AuthConfigError :=
  match env "AA_RATE_LIMIT_RPM" with
  | Some val => match parse_u32 val with Some n => Ok n | None => Err (InvalidRateLimit val) end
  | None => Ok DEFAULT_RATE_LIMIT_RPM
  end.

Definition from_env : result AuthConfig AuthConfigError :=
  let mode := match env "AA_AUTH" with
              | Some v => if String.eqb v "off" || String.eqb v "OFF" then Off else On
              | None => On
              end in
  let jwt_secret := match mode with
                    | On => match env "AA_JWT_SECRET" with
                            | None => Err MissingJwtSecret
                            | Some secret =>
                                if utf8_len secret <? MIN_JWT_SECRET_LEN
                                then Err (JwtSecretTooShort (utf8_len secret))
                                else Ok (Some secret)
                            end
                    | Off => Ok None
                    end in
  match jwt_secret with
  | Err e => Err e
  | Ok jwt_secret =>
      match resolve_rate_limit_rpm with
      | Err e => Err e
      | Ok rpm =>
          Ok {| ac_mode := mode; ac_jwt_secret := jwt_secret;
                ac_api_keys_path := expand_tilde (default DEFAULT_API_KEYS_PATH (env "AA_API_KEYS_PATH"));
                ac_rate_limit_rpm := rpm |}
      end
  end.
End Environment.

(** ** The extractors

    The extensions of a request: what the router adds, of which the rate limiter changes, and
    the caller an earlier extractor resolved. *)

Record AuthState := {
  as_mode : AuthMode;
  as_keys : ApiKeyStore;
  as_jwt_secret : string;
  as_limiter : Limiter.RateLimiter;
}.

Definition with_limiter (s : AuthState) (l : Limiter.RateLimiter) : AuthState :=
  {| as_mode := as_mode s; as_keys := as_keys s; as_jwt_secret := as_jwt_secret s; as_limiter := l |}.

Record Clock := { ck_wall_secs : Z; ck_mono_nanos : Z }.

Record Parts := { pt_cached : option AuthenticatedCaller; pt_authorization : option string }.

Definition bypass_caller : AuthenticatedCaller :=
  {| c_key_id := "__bypass__"; c_scopes := [ApiScope.Read; ApiScope.Write; ApiScope.Admin]; c_tenant := tenant_default |}.

Section Extractors.
Context `{Credentials}.

(** Steps 2 and 3 of [from_request_parts]: the credential of the header. *)
Definition resolve_credential (s : AuthState) (now : Z) (authorization : option string)
  : result AuthenticatedCaller AuthError :=
  match authorization with
  | None => Err MissingHeader
  | Some header_value =>
      match strip_prefix header_value "Bearer " with
      | None => Err (InvalidToken "expected 'Bearer <token>' format")
      | Some token =>
          if starts_with token API_KEY_PREFIX then
            match validate_detailed (as_keys s) now token with
            | Ok entry => Ok {| c_key_id := ak_id entry; c_scopes := ak_scopes entry;
                                c_tenant := {| tn_team_id := ak_team_id entry; tn_org_id := ak_org_id entry |} |}
            | Err Revoked => Err (InvalidToken "revoked API key")
            | Err Expired => Err ExpiredToken
            | Err NotFound => Err (InvalidToken "invalid API key")
            end
          else
            match jwt_verify (as_jwt_secret s) now token with
            | Ok claims => Ok {| c_key_id := cl_sub claims; c_scopes := cl_scope claims;
                                 c_tenant := {| tn_team_id := cl_team_id claims; tn_org_id := cl_org_id claims |} |}
            | Err msg => Err (if contains msg "ExpiredSignature" then ExpiredToken else InvalidToken msg)
            end
      end
  end.

(** [AuthenticatedCaller::from_request_parts]. *)
Definition from_request_parts (s : AuthState) (clock : Clock) (parts : Parts)
  : result AuthenticatedCaller AuthError * AuthState :=
  match pt_cached parts with
  | Some caller => (Ok caller, s)
  | None =>
      if decide (as_mode s = Off) then (Ok bypass_caller, s)
      else
        match resolve_credential s (ck_wall_secs clock) (pt_authorization parts) with
        | Err e => (Err e, s)
        | Ok caller =>
            let (r, l) := Limiter.check (ck_mono_nanos clock) (c_key_id caller) (as_limiter s) in
            (match r with Ok _ => Ok caller | Err secs => Err (RateLimited secs) end, with_limiter s l)
        end
  end.

(** [RequireScope::check]. *)
Definition scope_check (c : AuthenticatedCaller) (required : ApiScope.t) : result unit AuthError :=
  if ApiScope.is_satisfied_by required (c_scopes c) then Ok () else Err (InsufficientScope required).

(** [RequireRead], [RequireWrite] and [RequireAdmin]. *)
Definition require (required : ApiScope.t) (s : AuthState) (clock : Clock) (parts : Parts)
  : result AuthenticatedCaller AuthError * AuthState :=
  match from_request_parts s clock parts with
  | (Ok caller, s') => (match scope_check caller required with Ok _ => Ok caller | Err e => Err e end, s')
  | (Err e, s') => (Err e, s')
  end.

(** [require_authentication] around a handler whose parameter is an extractor of [required]. *)
Definition gated {A} (required : ApiScope.t) (s : AuthState) (clock : Clock) (parts : Parts)
    (handler : AuthenticatedCaller → A) : result A AuthError * AuthState :=
  match from_request_parts s clock parts with
  | (Err e, s') => (Err e, s')
  | (Ok caller, s') =>
      let parts' := {| pt_cached := Some caller; pt_authorization := pt_authorization parts |} in
      match require required s' clock parts' with
      | (Ok caller', s'') => (Ok (handler caller'), s'')
      | (Err e, s'') => (Err e, s'')
      end
  end.
End Extractors.

(** ** Policy mutations: rbac.rs and policy_auth.rs *)

Module Rbac.
Inductive PolicyScopeKind := KGlobal | KOrg | KTeam | KAgent | KTool.
Inductive MutationKind := Create | Update | Delete.
Inductive CallerRole := Auditor | Viewer | Developer | TeamAdmin | OrgAdmin.

#[global] Instance CallerRole_eq_dec : EqDecision CallerRole.
Proof. solve_decision. Defined.

Definition rank (r : CallerRole) : Z :=
  match r with Auditor => 0 | Viewer => 1 | Developer => 2 | TeamAdmin => 3 | OrgAdmin => 4 end.

Definition kind_of (scope : PolicyScope) : PolicyScopeKind :=
  match scope with
  | Scope.Global => KGlobal
  | Scope.Org _ => KOrg
  | Scope.Team _ => KTeam
  | Scope.Agent _ => KAgent
  | Scope.Tool _ => KTool
  end.

Definition satisfies (self required : CallerRole) : bool :=
  if decide (self = Auditor) then false else rank required <=? rank self.

Definition required_role_for (scope : PolicyScope) (_mutation : MutationKind) : CallerRole :=
  match kind_of scope with
  | KGlobal | KOrg => OrgAdmin
  | KTeam => TeamAdmin
  | KAgent | KTool => Developer
  end.

Definition caller_role_from_authenticated (c : AuthenticatedCaller) : CallerRole :=
  if has_scope ApiScope.Admin (c_scopes c) then OrgAdmin
  else if has_scope ApiScope.Write (c_scopes c) then Developer
  else Viewer.

Inductive PolicyAuthorizationDenied :=
| DeniedRole (actual_role required_role : CallerRole) (scope_kind : PolicyScopeKind) (mutation_kind : MutationKind)
| TenantMismatch (scope_kind : PolicyScopeKind) (mutation_kind : MutationKind) (scope_tenant : string)
    (caller_tenant : option string).

Definition check_tenant_binding (c : AuthenticatedCaller) (scope : PolicyScope) (mutation : MutationKind)
  : result unit PolicyAuthorizationDenied :=
  let bind (scope_tenant : string) (caller_tenant : option string) :=
    if decide (caller_tenant = Some scope_tenant) then Ok ()
    else Err (TenantMismatch (kind_of scope) mutation scope_tenant caller_tenant) in
  match scope with
  | Scope.Org org => bind org (tn_org_id (c_tenant c))
  | Scope.Team team => bind team (tn_team_id (c_tenant c))
  | _ => Ok ()
  end.

(** [PolicyWriteAuth::check_mutation] of the extractor's caller and role. *)
Definition check_mutation (c : AuthenticatedCaller) (role : CallerRole) (scope : PolicyScope) (mutation : MutationKind)
  : result unit PolicyAuthorizationDenied :=
  let required := required_role_for scope mutation in
  if satisfies role required then check_tenant_binding c scope mutation
  else Err (DeniedRole role required (kind_of scope) mutation).
End Rbac.
