(* ===== verification/AuthProps.v ===== *)
(** * AuthProps: who is let in, and as whom

    The lookup index never changes the verdict on a key, a caller is exactly what its
    credential says, one request is charged once, and a policy of a tenant is changed from
    within that tenant only. *)

From stdpp Require Import base gmap strings list sets.
From Stdlib Require Import ZArith Lia Bool Ascii String.
From Stdlib Require Import Floats.SpecFloat.
From S2P Require Import Prelude.
From S2P Require Import Text.
From S2P Require Import Float64.
From S2P Require Import CoreTypes.
From S2P Require Import PolicyDocument.
From S2P Require Import RateLimit.
From S2P Require Import Auth.

Open Scope Z_scope.
Open Scope aasm_scope.

(** ** The index *)

Definition has_lookup (lookup : option string) (e : ApiKeyEntry) : bool := bool_decide (ak_key_lookup e = lookup).

Lemma index_entry_ok entries :
  foldl index_entry (0%nat, (∅, [])) entries =
    (List.length entries, build_index entries) ∧
  (∀ l, default [] (fst (build_index entries) !! l) = positions (has_lookup (Some l)) entries) ∧
  snd (build_index entries) = positions (has_lookup None) entries.
Proof.
  induction entries as [|e entries (IH1 & IH2 & IH3)] using rev_ind; [by split; [|split]|].
  unfold build_index in *. rewrite foldl_app.
  destruct (foldl index_entry (0%nat, (∅, [])) entries) as [n [idx un]]. simpl in *. injection IH1 as ->.
  split; [by rewrite length_app, Nat.add_comm|].
  destruct (ak_key_lookup e) as [k|] eqn:Hk; simpl; (split; [intros l|]); rewrite positions_snoc; unfold has_lookup at 2;
    rewrite Hk; rewrite ?IH3.
  - destruct (decide (k = l)) as [->|Hne].
    + rewrite lookup_insert_eq, bool_decide_true by done. simpl. by rewrite IH2.
    + rewrite lookup_insert_ne, bool_decide_false, app_nil_r by (done || congruence). apply IH2.
  - by rewrite bool_decide_false, app_nil_r.
  - by rewrite bool_decide_false, app_nil_r.
  - by rewrite bool_decide_true.
Qed.

Lemma omap_positions {A} (f : A → bool) (l : list A) : omap (λ i, l !! i) (positions f l) = List.filter f l.
Proof.
  pose proof (positions_lookup f l) as H. induction H as [|i x ns xs Hi _ IH]; simpl; [done|].
  rewrite Hi. by f_equal.
Qed.

(** What every operation of a store keeps. *)
Definition indexed (s : ApiKeyStore) : Prop := ∃ revoked, s =
  {| ks_entries := ks_entries s; ks_lookup_index := fst (build_index (ks_entries s));
     ks_unindexed := snd (build_index (ks_entries s)); ks_revoked_ids := revoked |}.

Lemma from_entries_indexed entries : indexed (from_entries entries).
Proof.
  exists ∅. unfold from_entries. destruct (build_index entries) as [index un] eqn:E. simpl. by rewrite E.
Qed.

Lemma revoke_indexed id s : indexed s → indexed (revoke id s).
Proof. intros [r Hr]. exists ({[id]} ∪ ks_revoked_ids s). unfold revoke. simpl. rewrite Hr at 2 3. done. Qed.

Section Keys.
Context `{Credentials}.

Lemma candidates_ok s raw : indexed s →
  candidates s raw = List.filter (has_lookup (Some (key_lookup raw))) (ks_entries s)
                  ++ List.filter (has_lookup None) (ks_entries s).
Proof.
  intros [r Hr]. unfold candidates. rewrite omap_app. rewrite Hr. simpl.
  destruct (index_entry_ok (ks_entries s)) as (_ & -> & ->). by rewrite !omap_positions.
Qed.

(** The keys of a store: an index that is there belongs to the key, and no key opens two
    different entries. *)
Record sound_keys (entries : list ApiKeyEntry) : Prop := {
  sk_lookup e raw : e ∈ entries → argon2_verify raw (ak_key_hash e) = true →
    ∀ l, ak_key_lookup e = Some l → l = key_lookup raw;
  sk_unique e e' raw : e ∈ entries → e' ∈ entries → argon2_verify raw (ak_key_hash e) = true →
    argon2_verify raw (ak_key_hash e') = true → e = e';
}.

(** The scan of every entry the index replaces. *)
Definition scan (s : ApiKeyStore) (now : Z) (raw_key : string) : result ApiKeyEntry KeyNotValid :=
  match api_key_parse raw_key with
  | Err _ => Err NotFound
  | Ok key =>
      match List.find (λ entry, argon2_verify key (ak_key_hash entry)) (ks_entries s) with
      | None => Err NotFound
      | Some entry => judge_entry s now entry
      end
  end.

Lemma find_unique (f : ApiKeyEntry → bool) l l' :
  (∀ e, e ∈ l → f e = true → e ∈ l') → (∀ e, e ∈ l' → f e = true → e ∈ l) →
  (∀ e e', e ∈ l → e' ∈ l → f e = true → f e' = true → e = e') → List.find f l = List.find f l'.
Proof.
  intros H1 H2 Hu. destruct (List.find f l) as [e|] eqn:E; symmetry.
  - apply find_some in E as [He Hf]. apply list_elem_of_In in He.
    destruct (List.find f l') as [e'|] eqn:E'.
    + apply find_some in E' as [He' Hf']. apply list_elem_of_In in He'. f_equal.
      apply Hu; [by apply H2|done|done|done].
    + exfalso. assert (f e = false); [|congruence]. eapply find_none; [exact E'|]. apply list_elem_of_In. by apply H1.
  - destruct (List.find f l') as [e'|] eqn:E'; [|done].
    apply find_some in E' as [He' Hf']. apply list_elem_of_In in He'.
    exfalso. assert (f e' = false); [|congruence]. eapply find_none; [exact E|]. apply list_elem_of_In. by apply H2.
Qed.

Lemma validate_is_scan s now raw :
  indexed s → sound_keys (ks_entries s) → validate_detailed s now raw = scan s now raw.
Proof.
  intros Hi [Hl Hu]. unfold validate_detailed, scan. destruct (api_key_parse raw) as [key|]; [|done].
  rewrite (find_unique _ (candidates s key) (ks_entries s)); [done|..];
    assert (∀ e, e ∈ candidates s key → e ∈ ks_entries s) as Hsub
    by (intros e; rewrite candidates_ok, elem_of_app, !list_elem_of_In, !filter_In by done; tauto).
  - auto.
  - intros e He Hv. rewrite candidates_ok, elem_of_app, !list_elem_of_In, !filter_In by done.
    rewrite <- list_elem_of_In. unfold has_lookup. rewrite !bool_decide_eq_true.
    destruct (ak_key_lookup e) as [l|] eqn:E; [|tauto]. left. split; [done|]. f_equal. by eapply Hl.
  - intros e e' He He' Hv Hv'. by eapply Hu; eauto.
Qed.

(** ** Callers *)

Definition caller_of_entry (e : ApiKeyEntry) : AuthenticatedCaller := {|
  c_key_id := ak_id e; c_scopes := ak_scopes e;
  c_tenant := {| tn_team_id := ak_team_id e; tn_org_id := ak_org_id e |} |}.

Definition caller_of_claims (c : Claims) : AuthenticatedCaller := {|
  c_key_id := cl_sub c; c_scopes := cl_scope c;
  c_tenant := {| tn_team_id := cl_team_id c; tn_org_id := cl_org_id c |} |}.

(** A bearer token that is somebody's: a key of the store, neither revoked nor expired, or a
    token that verifies. *)
Definition belongs (s : AuthState) (now : Z) (token : string) (caller : AuthenticatedCaller) : Prop :=
  (∃ e hex, token = String.append API_KEY_PREFIX hex ∧ utf8_len hex = API_KEY_HEX_LEN ∧
     str_forallb is_ascii_hexdigit hex = true ∧
     e ∈ ks_entries (as_keys s) ∧ argon2_verify token (ak_key_hash e) = true ∧
     ak_id e ∉ ks_revoked_ids (as_keys s) ∧ is_expired now (ak_expires_at e) = false ∧
     caller = caller_of_entry e) ∨
  (starts_with token API_KEY_PREFIX = false ∧
   ∃ claims, jwt_decode (as_jwt_secret s) now token = Ok claims ∧ caller = caller_of_claims claims).

Lemma api_key_parse_Ok raw key :
  api_key_parse raw = Ok key ↔
  key = raw ∧ ∃ hex, raw = String.append API_KEY_PREFIX hex ∧ utf8_len hex = API_KEY_HEX_LEN ∧
    str_forallb is_ascii_hexdigit hex = true.
Proof.
  unfold api_key_parse. split.
  - destruct (strip_prefix raw API_KEY_PREFIX) as [hex|] eqn:E; [|done]. apply strip_prefix_Some in E.
    destruct (Z.eqb_spec (utf8_len hex) API_KEY_HEX_LEN) as [Hl|]; [|done]. cbn [negb].
    destruct (str_forallb is_ascii_hexdigit hex) eqn:Hh; [|done]. cbn [negb]. intros [= <-]. eauto.
  - intros (-> & hex & -> & Hl & Hh). rewrite strip_prefix_app, Hl, Z.eqb_refl. cbn [negb]. by rewrite Hh.
Qed.

Lemma scan_Ok s now raw e :
  sound_keys (ks_entries s) →
  (scan s now raw = Ok e) ↔
  (∃ hex, raw = String.append API_KEY_PREFIX hex ∧ utf8_len hex = API_KEY_HEX_LEN ∧
     str_forallb is_ascii_hexdigit hex = true) ∧
  e ∈ ks_entries s ∧ argon2_verify raw (ak_key_hash e) = true ∧ ak_id e ∉ ks_revoked_ids s ∧
  is_expired now (ak_expires_at e) = false.
Proof.
  intros [_ Hu]. unfold scan, judge_entry. split.
  - destruct (api_key_parse raw) as [key|] eqn:E; [|done]. apply api_key_parse_Ok in E as [-> Hex].
    destruct (List.find _ _) as [e'|] eqn:Hf; [|done]. apply find_some in Hf as [Hin Hv]. apply list_elem_of_In in Hin.
    case_bool_decide; [done|]. destruct (is_expired now (ak_expires_at e')) eqn:Hx; [done|]. intros [= <-]. auto.
  - intros (Hex & Hin & Hv & Hr & Hx). assert (api_key_parse raw = Ok raw) as -> by (by apply api_key_parse_Ok).
    destruct (List.find _ _) as [e'|] eqn:Hf.
    + apply find_some in Hf as [Hin' Hv']. apply list_elem_of_In in Hin'.
      assert (e' = e) as -> by (by eapply Hu). by rewrite bool_decide_false, Hx.
    + apply list_elem_of_In in Hin. apply (find_none _ _ Hf) in Hin. congruence.
Qed.

Lemma resolve_credential_Ok s now authorization caller :
  indexed (as_keys s) → sound_keys (ks_entries (as_keys s)) →
  (resolve_credential s now authorization = Ok caller) ↔
  ∃ token, authorization = Some (String.append "Bearer " token) ∧ belongs s now token caller.
Proof.
  intros Hi Hk. unfold resolve_credential. split.
  - destruct authorization as [h|]; [|done]. destruct (strip_prefix h "Bearer ") as [token|] eqn:Hb; [|done].
    apply strip_prefix_Some in Hb as ->. intros Hr. exists token. split; [done|].
    destruct (starts_with token API_KEY_PREFIX) eqn:Hp.
    + rewrite validate_is_scan in Hr by done. destruct (scan _ _ _) as [e|[]] eqn:Hs; try done.
      injection Hr as <-. apply scan_Ok in Hs as ((hex & ? & ? & ?) & ? & ? & ? & ?); [|done]. left. exists e, hex. auto 10.
    + right. split; [done|]. unfold jwt_verify in Hr. destruct (jwt_decode _ _ _) as [claims|]; [|by destruct (contains _ _)].
      injection Hr as <-. by exists claims.
  - intros (token & -> & Hb). rewrite strip_prefix_app. destruct Hb as [(e & hex & Ht & Hl & Hh & Hin & Hv & Hr & Hx & ->)|(Hp & claims & Hd & ->)].
    + assert (starts_with token API_KEY_PREFIX = true) as -> by (rewrite Ht; apply starts_with_app).
      rewrite validate_is_scan by done.
      assert (scan (as_keys s) now token = Ok e) as -> by (apply scan_Ok; eauto 10). done.
    + rewrite Hp. unfold jwt_verify. by rewrite Hd.
Qed.

(** A gated request, spelled out: it is charged once, to the caller it is made by. *)
Definition admitted (s : AuthState) (clock : Clock) (caller : AuthenticatedCaller) (s' : AuthState) : Prop :=
  ∃ l, Limiter.check (ck_mono_nanos clock) (c_key_id caller) (as_limiter s) = (Ok (), l) ∧ s' = with_limiter s l.

Lemma from_request_parts_Ok s clock authorization caller s' :
  as_mode s = On → indexed (as_keys s) → sound_keys (ks_entries (as_keys s)) →
  from_request_parts s clock {| pt_cached := None; pt_authorization := authorization |} = (Ok caller, s') ↔
  (∃ token, authorization = Some (String.append "Bearer " token) ∧ belongs s (ck_wall_secs clock) token caller) ∧
  admitted s clock caller s'.
Proof.
  intros Hm Hi Hk. unfold from_request_parts. simpl. rewrite decide_False by congruence.
  rewrite <- (resolve_credential_Ok s _ authorization caller Hi Hk).
  destruct (resolve_credential _ _ _) as [c|e] eqn:Hr; [|split; [done|by intros [? _]]].
  unfold admitted. split.
  - destruct (Limiter.check _ _ _) as [[[]|secs] l] eqn:Hc; intros [= <- <-]. split; [done|]. by exists l.
  - intros [[= <-] (l & -> & ->)]. done.
Qed.

(** C38: A gated handler runs exactly when authentication is off, and then for the bypass
    caller, or for a bearer token that is a key of the store, well formed, neither revoked nor
    expired, or a token that verifies, when the scopes it carries reach the required one and the
    key's rate limit admits the request; the handler sees exactly the identity, scopes and
    tenant of that credential, and the limit is charged once, not once per extractor.  The
    request arrives without a caller resolved before, the store's index is the one its
    operations keep, a stored lookup is that of the key that verifies, and no key verifies against two entries. *)
Theorem gated_exact : ∀ A required s clock authorization (handler : AuthenticatedCaller → A) (a : A) s',
  indexed (as_keys s) → sound_keys (ks_entries (as_keys s)) →
  gated required s clock {| pt_cached := None; pt_authorization := authorization |} handler = (Ok a, s') ↔
  (as_mode s = Off ∧ a = handler bypass_caller ∧ s' = s) ∨
  (as_mode s = On ∧ ∃ token caller, authorization = Some (String.append "Bearer " token) ∧
    belongs s (ck_wall_secs clock) token caller ∧
    Exists (λ g, ApiScope.rank required ≤ ApiScope.rank g) (c_scopes caller) ∧
    a = handler caller ∧ admitted s clock caller s').
Proof.
  intros A required s clock authorization handler a s' Hi Hk. unfold gated. destruct (as_mode s) eqn:Hm.
  2: { unfold from_request_parts, require. simpl. rewrite decide_True by done. split.
    - destruct (scope_check _ _) eqn:E; [|by destruct required]. intros [= <- <-]. auto.
    - intros [(_ & -> & ->)|[? _]]; [by destruct required|done]. }
  assert (Hscope : ∀ caller, ApiScope.is_satisfied_by required (c_scopes caller) = true ↔
    Exists (λ g, ApiScope.rank required ≤ ApiScope.rank g) (c_scopes caller)).
  { intros caller. unfold ApiScope.is_satisfied_by. rewrite existsb_exists, Exists_exists.
    setoid_rewrite list_elem_of_In. setoid_rewrite Z.leb_le. done. }
  split.
  - destruct (from_request_parts _ _ _) as [[caller|e] s1] eqn:Hf; [|done].
    apply from_request_parts_Ok in Hf as [(token & Ht & Hb) Ha]; [|done..].
    unfold require, scope_check. simpl. destruct (ApiScope.is_satisfied_by _ _) eqn:Hs; [|done].
    intros [= <- <-]. right. split; [done|]. exists token, caller. rewrite <- Hscope. auto.
  - intros [[? _]|(_ & token & caller & -> & Hb & Hs & -> & Ha)]; [done|].
    assert (from_request_parts s clock {| pt_cached := None; pt_authorization := Some (String.append "Bearer " token) |} = (Ok caller, s'))
      as -> by (apply from_request_parts_Ok; eauto).
    unfold require, scope_check. simpl. apply Hscope in Hs. by rewrite Hs.
Qed.
End Keys.

(** ** A concrete store *)

Module Toy.
Definition hash_of (raw : string) : string := String.append "argon2:" raw.

Definition claims : Claims := {| cl_sub := "user-1"; cl_iat := 0; cl_exp := 100; cl_scope := [ApiScope.Read];
  cl_team_id := Some "alpha"; cl_org_id := None |}.

#[global] Instance credentials : Credentials := {|
  argon2_verify raw hash := String.eqb hash (hash_of raw);
  sha256_hex raw := raw;
  jwt_encode secret c := Ok "token";
  jwt_decode secret now token :=
    if String.eqb token "token" then (if now <? 100 then Ok claims else Err "ExpiredSignature") else Err "InvalidToken" |}.

Definition key1 : string := "aa_00112233445566778899aabbccddeeff".
Definition key2 : string := "aa_ffeeddccbbaa99887766554433221100".

Definition entry (id raw : string) (scopes : list ApiScope.t) (expires : option Z) (indexed : bool) : ApiKeyEntry := {|
  ak_id := id; ak_key_hash := hash_of raw; ak_scopes := scopes; ak_created_at := 0; ak_expires_at := expires;
  ak_label := None; ak_team_id := Some "alpha"; ak_org_id := Some "acme";
  ak_key_lookup := if indexed then Some (key_lookup raw) else None |}.

Definition entry1 : ApiKeyEntry := entry "k1" key1 [ApiScope.Write] (Some 1000) true.
Definition entry2 : ApiKeyEntry := entry "k2" key2 [ApiScope.Read] None false.

Definition state : AuthState := {|
  as_mode := On; as_keys := from_entries [entry1; entry2]; as_jwt_secret := ""; as_limiter := Limiter.new 2 60 |}.

Definition clock (wall : Z) : Clock := {| ck_wall_secs := wall; ck_mono_nanos := 0 |}.

Lemma verify_entry raw id r scopes expires indexed :
  argon2_verify raw (ak_key_hash (entry id r scopes expires indexed)) = true → raw = r.
Proof. intros Hv. apply String.eqb_eq in Hv. by injection Hv. Qed.

Lemma sound : sound_keys (ks_entries (as_keys state)).
Proof.
  split.
  - intros e raw He. change (e ∈ [entry1; entry2]) in He.
    apply elem_of_cons in He as [->|[->|He%not_elem_of_nil]%elem_of_cons]; [| |done];
      intros ->%verify_entry l [= <-]; done.
  - intros e e' raw He He'. change (e ∈ [entry1; entry2]) in He. change (e' ∈ [entry1; entry2]) in He'.
    apply elem_of_cons in He as [->|[->|He%not_elem_of_nil]%elem_of_cons]; [| |done];
      apply elem_of_cons in He' as [->|[->|He'%not_elem_of_nil]%elem_of_cons]; try done;
      intros Hv%verify_entry Hv'%verify_entry; rewrite Hv in Hv'; discriminate Hv'.
Qed.
End Toy.

Lemma gated_exact_witness : ∃ s',
  gated ApiScope.Read Toy.state (Toy.clock 10)
    {| pt_cached := None; pt_authorization := Some (String.append "Bearer " Toy.key1) |} c_key_id = (Ok "k1", s') ∧
  ∃ token caller, Some (String.append "Bearer " Toy.key1) = Some (String.append "Bearer " token) ∧
    belongs Toy.state 10 token caller ∧ "k1" = c_key_id caller.
Proof.
  destruct (gated ApiScope.Read Toy.state (Toy.clock 10)
    {| pt_cached := None; pt_authorization := Some (String.append "Bearer " Toy.key1) |} c_key_id) as [r s'] eqn:E.
  assert (r = Ok "k1") as -> by (vm_compute in E; congruence).
  exists s'. split; [done|].
  destruct (proj1 (gated_exact string ApiScope.Read Toy.state (Toy.clock 10) _ c_key_id "k1" s'
    (from_entries_indexed _) Toy.sound) E) as [[Hm _]|(_ & token & caller & Ht & Hb & _ & Hk & _)]; [discriminate Hm|].
  by exists token, caller.
Defined.

(** The limit is charged once per request: two of three requests of a key pass. *)
Example one_charge_per_request :
  let run s := gated ApiScope.Read s (Toy.clock 10)
    {| pt_cached := None; pt_authorization := Some (String.append "Bearer " Toy.key1) |} c_key_id in
  let '(r1, s1) := run Toy.state in
  let '(r2, s2) := run s1 in
  let '(r3, _) := run s2 in
  (r1, r2, r3) = (Ok "k1", Ok "k1", Err (RateLimited 30)).
Proof. vm_compute. reflexivity. Qed.

(** Revoked, expired and unknown keys, an expired token, a scope too low. *)
Example refusals :
  let run s wall token required := fst (gated required s (Toy.clock wall)
    {| pt_cached := None; pt_authorization := Some (String.append "Bearer " token) |} c_key_id) in
  let revoked := {| as_mode := On; as_keys := revoke "k1" (as_keys Toy.state); as_jwt_secret := ""; as_limiter := as_limiter Toy.state |} in
  run revoked 10 Toy.key1 ApiScope.Read = Err (InvalidToken "revoked API key") ∧
  run Toy.state 1000 Toy.key1 ApiScope.Read = Err ExpiredToken ∧
  run Toy.state 10 "aa_x" ApiScope.Read = Err (InvalidToken "invalid API key") ∧
  run Toy.state 100 "token" ApiScope.Read = Err ExpiredToken ∧
  run Toy.state 10 Toy.key1 ApiScope.Admin = Err (InsufficientScope ApiScope.Admin).
Proof. vm_compute. auto. Qed.

(** A clock that cannot be read is taken for time 0, at which no set expiry has passed. *)
Lemma unreadable_clock_expires_nothing exp : 0 < exp → is_expired 0 (Some exp) = false.
Proof. intros. by apply Z.leb_gt. Qed.

(** A limit of zero requests per minute is accepted from the environment; every request of
    every key is then refused, for 2^64 - 1 seconds. *)
Lemma zero_rate_is_accepted :
  let env v := if String.eqb v "AA_AUTH" then None
               else if String.eqb v "AA_JWT_SECRET" then Some "0123456789abcdef0123456789abcdef"
               else if String.eqb v "AA_RATE_LIMIT_RPM" then Some "0" else None in
  (ac_rate_limit_rpm <$> match from_env env with Ok c => Some c | Err _ => None end) = Some 0 ∧
  fst (Limiter.check 0 "k" (Limiter.new 0 60)) = Err u64_max.
Proof. vm_compute. auto. Qed.

(** ** Policy mutations *)

(** The role derived from a caller's scopes lets it change a policy exactly
    when: the policy is global and the caller has the admin scope; it belongs to an organisation or a team,
    the caller has the admin scope and is confined to that very organisation or team; or it belongs to an
    agent or a tool and the caller has the write or the admin scope. *)
Theorem policy_mutation_bound : ∀ c scope mutation,
  Rbac.check_mutation c (Rbac.caller_role_from_authenticated c) scope mutation = Ok () ↔
  match scope with
  | Scope.Global => ApiScope.Admin ∈ c_scopes c
  | Scope.Org org => ApiScope.Admin ∈ c_scopes c ∧ tn_org_id (c_tenant c) = Some org
  | Scope.Team team => ApiScope.Admin ∈ c_scopes c ∧ tn_team_id (c_tenant c) = Some team
  | Scope.Agent _ | Scope.Tool _ => ApiScope.Write ∈ c_scopes c ∨ ApiScope.Admin ∈ c_scopes c
  end.
Proof.
  intros c scope mutation.
  assert (Hhas : ∀ x, has_scope x (c_scopes c) = true ↔ x ∈ c_scopes c).
  { intros x. unfold has_scope. rewrite existsb_exists, list_elem_of_In. split.
    - intros (y & Hy & ->%bool_decide_eq_true). done.
    - intros Hx. exists x. by rewrite bool_decide_true. }
  unfold Rbac.check_mutation, Rbac.caller_role_from_authenticated.
  destruct scope; rewrite <- !Hhas;
    destruct (has_scope ApiScope.Admin (c_scopes c)), (has_scope ApiScope.Write (c_scopes c)); simpl;
    try (destruct (decide _)); intuition congruence.
Qed.
