(* ===== verification/EdgeApi.v ===== *)
(** * EdgeApi: the edge routes of the HTTP API

    aa-api/src/routes/edges.rs: recording an edge, an agent's edges, the subgraph around an
    agent, all edges.

    The edge repository is any implementation of the trait.  The crate hex, the timestamps
    of chrono and serde_json are arguments.  A hash set is iterated in the order of its
    [elements]; nothing claimed depends on it.  The walk over the graph takes fuel. *)

From stdpp Require Import base gmap strings list sets.
From Stdlib Require Import ZArith Lia Bool Ascii String.
From S2P Require Import Prelude.
From S2P Require Import Text.
From S2P Require Import CoreTypes.
From S2P Require Import External.
From S2P Require Import Registry.
From S2P Require Import Engine.
From S2P Require Import Topology.
From S2P Require Import EdgeStore.
From S2P Require Import Auth.

Open Scope Z_scope.
Open Scope aasm_scope.

(** [hex::decode], [DateTime::<Utc>::to_rfc3339] and its parser. *)
Class Formats := {
  hex_decode : string → option (list N);
  to_rfc3339 : Z → string;
  parse_rfc3339 : string → option Z;
}.

(** ** Identifiers *)

(** [AgentId::from_bytes]. *)
Definition id_of_bytes (bytes : list N) : AgentId := foldl (λ acc b, (acc * 256 + b)%N) 0%N bytes.

Section Ids.
Context `{Formats}.

Definition parse_agent_id (id : string) : result AgentId ProblemDetail :=
  match hex_decode id with
  | None => Err (problem 400 (String.append "Invalid agent ID format: " id))
  | Some bytes =>
      if (List.length bytes =? 16)%nat then Ok (id_of_bytes bytes)
      else Err (problem 400 (String.append "Agent ID must be 32 hex characters: " id))
  end.

Definition parse_edge_type (s : string) : result EdgeType ProblemDetail :=
  match edge_type_try_from s with
  | Ok t => Ok t
  | Err _ => Err (problem 400 (String.append "Unknown edge_type: " (String.append s
      ". Valid values: delegates_to, calls, reads, writes, approves, messages")))
  end.
End Ids.

(** ** Tenant checks *)

Section Access.
Context (registry : AgentRegistry).

Definition agent_team_id (agent : AgentId) : option string := get registry agent ≫= ar_team_id.

(** Whether the caller may see an agent: its team, or for an agent without one the admin
    scope. *)
Definition node_authorized (caller : AuthenticatedCaller) (agent : AgentId) : bool :=
  match agent_team_id agent with
  | Some team => can_access_team caller team
  | None => is_admin caller
  end.

Definition authorize_agent_team_access (caller : AuthenticatedCaller) (agent : AgentId) : result unit ProblemDetail :=
  if negb (is_admin caller) && bool_decide (tn_team_id (c_tenant caller) = None)
  then Err (problem 403 "This operation requires admin scope or a team scope")
  else if negb (node_authorized caller agent)
  then Err (problem 403 "This operation requires admin scope or membership in the agent's team")
  else Ok ().

Definition authorize_edge_target (caller : AuthenticatedCaller) (target : AgentId) : result unit ProblemDetail :=
  if is_admin caller then Ok ()
  else match agent_team_id target with
       | Some team => if can_access_team caller team then Ok ()
                      else Err (problem 403 "Edge target agent belongs to another team")
       | None => Ok ()
       end.

(** [topology::team_of]: a blank team is none. *)
Definition non_blank_team (team_id : option string) : option string :=
  match team_id with Some team => if is_empty (trim team) then None else Some team | None => None end.

Definition team_of (record : AgentRecord) : option string := non_blank_team (ar_team_id record).

Definition is_cross_team (source_team target_team : option string) : bool :=
  match source_team, target_team with
  | Some a, Some b => negb (String.eqb a b)
  | _, _ => false
  end.

(** [compute_cross_team]; the map of the batch lookup answers what the registry does. *)
Definition compute_cross_team {M} (edges : list (Edge M)) : list bool :=
  map (λ e, is_cross_team (get registry (e_source e) ≫= team_of) (get registry (e_target e) ≫= team_of)) edges.
End Access.

(** ** Responses *)

Record EdgeResponse (M : Type) := {
  er_id : Z;
  er_source_agent_id : string;
  er_target_agent_id : string;
  er_edge_type : string;
  er_created_at : string;
  er_is_cross_team : bool;
  er_metadata : option M;
}.
#[global] Arguments er_id {M} _.
#[global] Arguments er_source_agent_id {M} _.
#[global] Arguments er_target_agent_id {M} _.
#[global] Arguments er_is_cross_team {M} _.

Section Routes.
Context `{JsonLib, Formats}.
Context {S : Type} `{!EdgeRepo json_value S}.
Abbreviation Edge := (Edge json_value).

Definition edge_to_response (edge : Edge) (is_cross_team : bool) : EdgeResponse json_value := {|
  er_id := e_id edge;
  er_source_agent_id := hex_id (e_source edge);
  er_target_agent_id := hex_id (e_target edge);
  er_edge_type := edge_type_as_str (e_edge_type edge);
  er_created_at := to_rfc3339 (e_created_at edge);
  er_is_cross_team := is_cross_team;
  er_metadata := e_metadata edge |}.

Definition edge_responses (registry : AgentRegistry) (edges : list Edge) : list (EdgeResponse json_value) :=
  zip_with edge_to_response edges (compute_cross_team registry edges).

(** The state the routes use. *)
Record AppState := { st_registry : AgentRegistry; st_edges : S }.

(** The 500 a store error becomes. *)
Definition or_500 {A} (detail : string) (r : result A string) : result A ProblemDetail :=
  match r with Ok a => Ok a | Err _ => Err (problem 500 detail) end.

(** ** POST /topology/edges *)

Record ReportEdgeRequest := {
  rr_source_agent_id : string;
  rr_target_agent_id : string;
  rr_edge_type : string;
  rr_metadata_json : option string;
}.

Definition read_metadata (metadata_json : option string) (invalid : result (option json_value) ProblemDetail)
  : result (option json_value) ProblemDetail :=
  match metadata_json with
  | Some json_str =>
      if is_empty json_str then Ok None
      else match json_from_str json_str with Some v => Ok (Some v) | None => invalid end
  | None => Ok None
  end.

(** The text serde_json explains a failure with is not modelled: the detail ends before it. *)
Definition report_edge (now : Z) (caller : AuthenticatedCaller) (body : ReportEdgeRequest) (st : AppState)
  : result Z ProblemDetail * AppState :=
  let request :=
    let? source := parse_agent_id (rr_source_agent_id body) in
    let? target := parse_agent_id (rr_target_agent_id body) in
    let? edge_type := parse_edge_type (rr_edge_type body) in
    let? _ := authorize_agent_team_access (st_registry st) caller source in
    let? _ := authorize_edge_target (st_registry st) caller target in
    let? metadata := read_metadata (rr_metadata_json body) (Err (problem 400 "metadata_json is not valid JSON: ")) in
    Ok {| ne_source := source; ne_target := target; ne_edge_type := edge_type; ne_metadata := metadata |} in
  match request with
  | Err e => (Err e, st)
  | Ok edge =>
      let (r, edges) := repo_insert now edge (st_edges st) in
      (or_500 "Failed to record topology edge" r, {| st_registry := st_registry st; st_edges := edges |})
  end.

(** ** GET /agents/{id}/edges *)

Record EdgeListParams := {
  lp_type : option string;
  lp_direction : option string;
  lp_limit : option Z;
  lp_before : option string;
}.

Record EdgeListResponse := { lr_agent_id : string; lr_edges : list (EdgeResponse json_value); lr_count : Z }.

Definition transpose {A E} (o : option (result A E)) : result (option A) E :=
  match o with None => Ok None | Some (Ok a) => Ok (Some a) | Some (Err e) => Err e end.

Definition list_agent_edges (caller : AuthenticatedCaller) (id : string) (params : EdgeListParams) (st : AppState)
  : result EdgeListResponse ProblemDetail :=
  let? agent_id := parse_agent_id id in
  let? _ := authorize_agent_team_access (st_registry st) caller agent_id in
  let? edge_type := transpose (parse_edge_type <$> lp_type params) in
  let direction := default "outgoing" (lp_direction params) in
  let limit := Z.min (default 100 (lp_limit params)) 1000 in
  let? before := transpose ((λ s, match parse_rfc3339 s with
                                  | Some t => Ok t
                                  | None => Err (problem 400 (String.append "Invalid 'before' timestamp: " s))
                                  end) <$> lp_before params) in
  let? raw_edges := or_500 "Failed to list topology edges"
    (if String.eqb direction "incoming" then repo_list_incoming (st_edges st) agent_id edge_type limit
     else repo_list_outgoing (st_edges st) agent_id edge_type limit) in
  let filtered := match before with
                  | Some cutoff => List.filter (λ e, e_created_at e <? cutoff) raw_edges
                  | None => raw_edges
                  end in
  let edges := edge_responses (st_registry st) filtered in
  Ok {| lr_agent_id := id; lr_edges := edges; lr_count := Z.of_nat (List.length edges) |}.

(** ** GET /agents/{id}/graph *)

Record GraphResponse := {
  gr_root_agent_id : string;
  gr_nodes : list string;
  gr_edges : list (EdgeResponse json_value);
}.

Definition list_outgoing_or_500 (st : AppState) (node : AgentId) : result (list Edge) ProblemDetail :=
  or_500 "Failed to list topology edges" (repo_list_outgoing (st_edges st) node None 1000).

Definition Frontier : Type := gset AgentId * list (AgentId * Z).

(** The inner loop over the edges of a node at distance [d]. *)
Fixpoint admit_targets (allowed : AgentId → bool) (d : Z) (edges : list Edge) (f : Frontier) : Frontier :=
  match edges with
  | [] => f
  | edge :: rest =>
      let '(visited, queue) := f in
      if allowed (e_target edge) && bool_decide (e_target edge ∉ visited)
      then admit_targets allowed d rest ({[e_target edge]} ∪ visited, queue ++ [(e_target edge, d + 1)])
      else admit_targets allowed d rest f
  end.

Fixpoint bfs_loop (fuel : nat) (st : AppState) (depth : Z) (allowed : AgentId → bool) (f : Frontier)
  : option (result (gset AgentId) ProblemDetail) :=
  match snd f with
  | [] => Some (Ok (fst f))
  | (node, d) :: queue =>
      match fuel with
      | O => None
      | Datatypes.S fuel' =>
          if depth <=? d then bfs_loop fuel' st depth allowed (fst f, queue)
          else match list_outgoing_or_500 st node with
               | Err e => Some (Err e)
               | Ok edges => bfs_loop fuel' st depth allowed (admit_targets allowed d edges (fst f, queue))
               end
      end
  end.

Definition collect_reachable_nodes (fuel : nat) (st : AppState) (root : AgentId) (depth : Z) (allowed : AgentId → bool)
  : option (result (gset AgentId) ProblemDetail) :=
  bfs_loop fuel st depth allowed ({[root]}, [(root, 0)]).

Fixpoint internal_edges (st : AppState) (nodes : gset AgentId) (left : list AgentId) : result (list Edge) ProblemDetail :=
  match left with
  | [] => Ok []
  | node :: rest =>
      let? edges := list_outgoing_or_500 st node in
      let? more := internal_edges st nodes rest in
      Ok (List.filter (λ e, bool_decide (e_target e ∈ nodes)) edges ++ more)
  end.

Definition collect_internal_edges (st : AppState) (nodes : gset AgentId) : result (list Edge) ProblemDetail :=
  internal_edges st nodes (elements nodes).

Definition get_agent_graph (fuel : nat) (caller : AuthenticatedCaller) (id : string) (depth : option Z) (st : AppState)
  : option (result GraphResponse ProblemDetail) :=
  match (let? root_id := parse_agent_id id in
         let? _ := authorize_agent_team_access (st_registry st) caller root_id in
         Ok root_id) with
  | Err e => Some (Err e)
  | Ok root_id =>
      let depth := Z.min (default 2 depth) 5 in
      match collect_reachable_nodes fuel st root_id depth (node_authorized (st_registry st) caller) with
      | None => None
      | Some (Err e) => Some (Err e)
      | Some (Ok visited) =>
          Some (let? all_edges := collect_internal_edges st visited in
                Ok {| gr_root_agent_id := id; gr_nodes := map hex_id (elements visited);
                      gr_edges := edge_responses (st_registry st) all_edges |})
      end
  end.

(** ** GET /topology/edges *)

Fixpoint all_types (st : AppState) (types : list EdgeType) : result (list Edge) ProblemDetail :=
  match types with
  | [] => Ok []
  | et :: rest =>
      let? batch := or_500 "Failed to list topology edges" (repo_list_by_type (st_edges st) et 0 1000) in
      let? more := all_types st rest in
      Ok (batch ++ more)
  end.

Definition in_team (registry : AgentRegistry) (tid : string) (e : Edge) : bool :=
  bool_decide (agent_team_id registry (e_source e) = Some tid) ||
  bool_decide (agent_team_id registry (e_target e) = Some tid).

(** The edges before the answer is written: filtered, newest first, cut at the limit. *)
Definition select_topology_edges (caller : AuthenticatedCaller) (team_id : option string) (limit : option Z) (st : AppState)
  : result (list Edge) ProblemDetail :=
  let cap := Z.min (default 500 limit) 1000 in
  let? all_edges := all_types st ALL in
  let effective_team := if is_admin caller then team_id else tn_team_id (c_tenant caller) in
  let filtered := match is_admin caller, effective_team with
                  | true, None => all_edges
                  | _, Some tid => List.filter (in_team (st_registry st) tid) all_edges
                  | false, None => []
                  end in
  Ok (take (Z.to_nat cap) (stable_sort (λ a b, e_created_at b <=? e_created_at a) filtered)).

Definition list_topology_edges (caller : AuthenticatedCaller) (team_id : option string) (limit : option Z) (st : AppState)
  : result (list (EdgeResponse json_value) * Z) ProblemDetail :=
  let? sorted := select_topology_edges caller team_id limit st in
  let edges := edge_responses (st_registry st) sorted in
  Ok (edges, Z.of_nat (List.length edges)).
End Routes.
#[global] Arguments AppState S : clear implicits.
