(* ===== verification/EdgeApiProps.v ===== *)
(** * EdgeApiProps: edges are recorded by their owners, and a graph is exactly what it says

    Proved against the trait's contract: the walk from an agent ends and finds exactly the
    agents within the asked distance that can be reached through agents the caller may see. *)

From stdpp Require Import base gmap strings list sets relations sorting.
From Stdlib Require Import ZArith Lia Bool Ascii String.
From S2P Require Import Prelude.
From S2P Require Import Text.
From S2P Require Import CoreTypes.
From S2P Require Import External.
From S2P Require Import Registry.
From S2P Require Import Engine.
From S2P Require Import Topology.
From S2P Require Import EdgeStore.
From S2P Require Import Auth.
From S2P Require Import EdgeApi.

Open Scope Z_scope.
Open Scope aasm_scope.

Section Graph.
Context `{JsonLib, Formats}.
Context {S : Type} `{!EdgeRepo json_value S, HL : !EdgeRepoLaws json_value S}.
Context (st : AppState S) (Hinv : repo_inv (st_edges st)).
Context (allowed : AgentId → bool) (root : AgentId) (depth : Z).
Abbreviation Edge := (Edge json_value).

(** The page of an agent's edges the walk reads. *)
Definition page (x : AgentId) : list Edge :=
  newest (λ e, bool_decide (e_source e = x) && of_type None e) 1000 (repo_log (st_edges st)).

(** One hop of the walk. *)
Definition hop (x y : AgentId) : Prop := allowed y = true ∧ ∃ e, e ∈ page x ∧ e_target e = y.

Lemma list_outgoing_page x edges : list_outgoing_or_500 st x = Ok edges → edges = page x.
Proof.
  unfold list_outgoing_or_500, or_500. destruct (repo_list_outgoing _ _ _ _) as [l|] eqn:E; [|done].
  intros [= <-]. by apply law_outgoing.
Qed.

Lemma page_log x e : e ∈ page x → e ∈ repo_log (st_edges st) ∧ e_source e = x.
Proof.
  unfold page, newest. intros He.
  assert (e ∈ rev (List.filter (λ e, bool_decide (e_source e = x) && of_type None e) (repo_log (st_edges st)))) as Hr.
  { rewrite <- (take_drop (Z.to_nat (Z.min 1000 PAGE_MAX)) (rev _)). apply elem_of_app. by left. }
  rewrite elem_of_rev, list_elem_of_In, filter_In, <- list_elem_of_In in Hr. destruct Hr as [Hr Hb].
  split; [done|]. apply andb_true_iff in Hb as [Hb _]. by apply bool_decide_eq_true in Hb.
Qed.

(** The repository fails a read of the walk. *)
Definition repo_fails : Prop := ∃ x m, repo_list_outgoing (st_edges st) x None 1000 = Err m.

Lemma list_outgoing_fails x e : list_outgoing_or_500 st x = Err e → repo_fails.
Proof. unfold list_outgoing_or_500, or_500. destruct (repo_list_outgoing _ _ _ _) as [l|m] eqn:E; [done|]. by exists x, m. Qed.

Lemma admit_targets_ok d edges : ∀ visited queue,
  ∃ news, NoDup news ∧ admit_targets allowed d edges (visited, queue) =
      (list_to_set news ∪ visited, queue ++ map (λ y, (y, d + 1)) news) ∧
    (∀ y, y ∈ news ↔ y ∉ visited ∧ allowed y = true ∧ ∃ e, e ∈ edges ∧ e_target e = y).
Proof.
  induction edges as [|e edges IH]; intros visited queue; simpl.
  { exists []. split; [apply NoDup_nil_2|]. split; [simpl; by rewrite union_empty_l_L, app_nil_r|].
    intros y. split; [by intros ?%not_elem_of_nil|]. intros (_ & _ & e & He & _). by apply not_elem_of_nil in He. }
  assert (Hcons : ∀ y, (∃ e', e' ∈ e :: edges ∧ e_target e' = y) ↔ y = e_target e ∨ ∃ e', e' ∈ edges ∧ e_target e' = y).
  { intros y. setoid_rewrite elem_of_cons. split.
    - intros (e' & [->|He'] & <-); eauto.
    - intros [->|(e' & He' & <-)]; eauto. }
  destruct (allowed (e_target e)) eqn:Ha; simpl; [case_bool_decide as Hv|].
  - destruct (IH ({[e_target e]} ∪ visited) (queue ++ [(e_target e, d + 1)])) as (news & Hnd & Heq & Hnews).
    exists (e_target e :: news). split; [|split].
    + constructor; [|done]. rewrite Hnews. set_solver.
    + rewrite Heq. simpl. rewrite <- app_assoc. f_equal. set_solver.
    + intros y. rewrite elem_of_cons, Hnews, Hcons, not_elem_of_union, not_elem_of_singleton.
      destruct (decide (y = e_target e)) as [->|]; tauto.
  - destruct (IH visited queue) as (news & Hnd & Heq & Hnews). exists news. split; [done|]. split; [done|].
    intros y. rewrite Hnews, Hcons. split; [tauto|]. intros (? & ? & [->|?]); [done|auto].
  - destruct (IH visited queue) as (news & Hnd & Heq & Hnews). exists news. split; [done|]. split; [done|].
    intros y. rewrite Hnews, Hcons. split; [tauto|]. intros (? & ? & [->|?]); [congruence|auto].
Qed.

(** ** The walk

    [L] is the distance at which each visited agent was found. *)

Record walk_inv (L : gmap AgentId Z) (visited : gset AgentId) (queue : list (AgentId * Z)) : Prop := {
  wi_dom : dom L = visited;
  wi_root : L !! root = Some 0;
  wi_queue x d : (x, d) ∈ queue → L !! x = Some d;
  wi_sorted : StronglySorted (λ p q, snd p ≤ snd q ≤ snd p + 1) queue;
  wi_nodup : NoDup queue.*1;
  wi_found x d : L !! x = Some d → 0 ≤ d ≤ Z.max 0 depth ∧ nsteps hop (Z.to_nat d) root x;
  wi_done x d : L !! x = Some d → x ∉ queue.*1 →
    (∀ p, p ∈ queue → d ≤ snd p) ∧
    (d < depth → ∀ y, hop x y → ∃ d', L !! y = Some d' ∧ d' ≤ d + 1);
}.

(** The agents that can ever be found. *)
Definition reach : gset AgentId := {[root]} ∪ list_to_set (map e_target (repo_log (st_edges st))).

Lemma hop_reach x y : hop x y → y ∈ reach.
Proof.
  intros (_ & e & He & <-). apply page_log in He as [He _]. apply elem_of_union_r, elem_of_list_to_set.
  by apply list_elem_of_fmap_2.
Qed.

Lemma walk_init : walk_inv {[root := 0]} {[root]} [(root, 0)].
Proof.
  split.
  - apply dom_singleton_L.
  - apply lookup_singleton_eq.
  - intros x d [= -> ->]%list_elem_of_singleton. by rewrite lookup_singleton_eq.
  - by repeat constructor.
  - apply NoDup_singleton.
  - intros x d [<- <-]%lookup_singleton_Some. split; [lia|]. constructor.
  - intros x d [<- <-]%lookup_singleton_Some Hx. set_solver.
Qed.

Lemma walk_skip L visited x d queue :
  walk_inv L visited ((x, d) :: queue) → depth ≤ d → walk_inv L visited queue.
Proof.
  intros [Hdom Hroot Hq Hs Hnd Hf Hd] Hle. inversion Hs as [|? ? Hs' Hall]; subst.
  rewrite Forall_forall in Hall. apply NoDup_cons in Hnd as [Hx Hnd]. split; try done.
  - intros y dy Hy. apply Hq. by right.
  - intros y dy Hy Hn. destruct (decide (y = x)) as [->|Hne].
    + assert (dy = d) as -> by (specialize (Hq x d ltac:(left)); congruence). split; [|lia].
      intros p Hp. by destruct (Hall p Hp).
    + destruct (Hd y dy Hy) as [H1 H2].
      { intros Hin. simpl in Hin. apply elem_of_cons in Hin as [|]; done. }
      split; [|done]. intros p Hp. apply H1. by right.
Qed.

Lemma sorted_snoc_const queue news d :
  StronglySorted (λ p q : AgentId * Z, snd p ≤ snd q ≤ snd p + 1) queue →
  (∀ p, p ∈ queue → snd p ≤ d ≤ snd p + 1) →
  StronglySorted (λ p q, snd p ≤ snd q ≤ snd p + 1) (queue ++ map (λ y, (y, d)) news).
Proof.
  intros Hs Hb. assert (∀ p, p ∈ map (λ y, (y, d)) news → snd p = d) as Hc.
  { intros p (y & -> & _)%list_elem_of_fmap. done. }
  induction Hs as [|p queue Hs IH Hall]; simpl.
  - induction news as [|y news IHn]; simpl; constructor.
    + apply IHn. intros p Hp. apply Hc. by right.
    + apply Forall_forall. intros p Hp. simpl. rewrite (Hc p); [lia|by right].
  - constructor.
    + apply IH. intros q Hq. apply Hb. by right.
    + apply Forall_app. split; [done|]. apply Forall_forall. intros q Hq. rewrite (Hc q Hq). apply Hb. left.
Qed.

Section Visit.
Context (L : gmap AgentId Z) (visited : gset AgentId) (x : AgentId) (d : Z) (queue : list (AgentId * Z)) (news : list AgentId).
Context (Hw : walk_inv L visited ((x, d) :: queue)) (Hlt : d < depth) (Hndn : NoDup news).
Context (Hnews : ∀ y, y ∈ news ↔ y ∉ visited ∧ hop x y).

Definition labels : gmap AgentId Z := list_to_map (map (λ y, (y, d + 1)) news) ∪ L.

Lemma labels_lookup y : labels !! y = if decide (y ∈ news) then Some (d + 1) else L !! y.
Proof.
  unfold labels. destruct (decide (y ∈ news)) as [Hy|Hy].
  - apply lookup_union_Some_l. apply elem_of_list_to_map.
    + rewrite map_map. simpl. by rewrite map_id.
    + by apply (list_elem_of_fmap_2 (λ y, (y, d + 1))).
  - rewrite lookup_union_r; [done|]. apply not_elem_of_list_to_map. rewrite map_map. simpl. by rewrite map_id.
Qed.

Lemma head_label : L !! x = Some d.
Proof. apply (wi_queue _ _ _ Hw). left. Qed.

Lemma queue_bounds p : p ∈ queue → d ≤ snd p ≤ d + 1.
Proof.
  intros Hp. pose proof (wi_sorted _ _ _ Hw) as Hs. inversion Hs as [|? ? _ Hall]; subst.
  rewrite Forall_forall in Hall. exact (Hall p Hp).
Qed.

(** Whatever was visited has a label of at most one more than the head's. *)
Lemma visited_label y dy : L !! y = Some dy → dy ≤ d + 1.
Proof.
  intros Hy. destruct (decide (y ∈ ((x, d) :: queue).*1)) as [Hin|Hin].
  - apply list_elem_of_fmap in Hin as ([y' d'] & -> & Hin). simpl in *.
    rewrite (wi_queue _ _ _ Hw _ _ Hin) in Hy. injection Hy as ->.
    apply elem_of_cons in Hin as [[= _ ->]|Hin]; [lia|]. apply queue_bounds in Hin. simpl in Hin. lia.
  - destruct (wi_done _ _ _ Hw y dy Hy Hin) as [Hle _]. specialize (Hle (x, d) ltac:(left)). simpl in Hle. lia.
Qed.

Lemma queue_visited y : y ∈ queue.*1 → y ∈ visited.
Proof.
  intros ([y' d'] & -> & Hin)%list_elem_of_fmap. rewrite <- (wi_dom _ _ _ Hw). apply elem_of_dom.
  exists d'. apply (wi_queue _ _ _ Hw). by right.
Qed.

Lemma walk_visit : walk_inv labels (list_to_set news ∪ visited) (queue ++ map (λ y, (y, d + 1)) news).
Proof.
  pose proof (wi_nodup _ _ _ Hw) as Hnd. apply NoDup_cons in Hnd as [Hx Hnd].
  assert (Hfst : (queue ++ map (λ y, (y, d + 1)) news).*1 = queue.*1 ++ news).
  { rewrite fmap_app. f_equal. change (map fst (map (λ y, (y, d + 1)) news) = news). rewrite map_map. apply map_id. }
  split.
  - unfold labels. rewrite dom_union_L, dom_list_to_map_L, (wi_dom _ _ _ Hw), map_map. simpl. by rewrite map_id.
  - rewrite labels_lookup, decide_False; [by apply (wi_root _ _ _ Hw)|]. intros [Hn _]%Hnews. apply Hn.
    rewrite <- (wi_dom _ _ _ Hw). apply elem_of_dom. eexists. apply (wi_root _ _ _ Hw).
  - intros y dy [Hy|Hy]%elem_of_app.
    + rewrite labels_lookup, decide_False; [apply (wi_queue _ _ _ Hw); by right|].
      intros [Hn _]%Hnews. apply Hn, queue_visited. by apply (list_elem_of_fmap_2 fst) in Hy.
    + apply list_elem_of_fmap in Hy as (z & [= -> ->] & Hz). by rewrite labels_lookup, decide_True.
  - pose proof (wi_sorted _ _ _ Hw) as Hs. inversion Hs as [|? ? Hs' _]; subst.
    apply sorted_snoc_const; [done|]. intros p Hp%queue_bounds. lia.
  - rewrite Hfst. apply NoDup_app. split; [done|]. split; [|done]. intros y Hy%queue_visited [Hn _]%Hnews. done.
  - intros y dy. rewrite labels_lookup. destruct (decide (y ∈ news)) as [Hy|_]; [|by apply (wi_found _ _ _ Hw)].
    intros [= <-]. destruct (wi_found _ _ _ Hw x d head_label) as [Hb Hn]. split; [lia|].
    replace (Z.to_nat (d + 1)) with (Datatypes.S (Z.to_nat d)) by lia. eapply nsteps_r; [exact Hn|].
    by apply Hnews in Hy as [_ Hy].
  - intros y dy. rewrite Hfst, labels_lookup, not_elem_of_app. intros Hy [Hyq Hyn]. rewrite decide_False in Hy by done.
    assert (dy ≤ d ∧ (dy < depth → ∀ z, hop y z → ∃ dz, labels !! z = Some dz ∧ dz ≤ dy + 1)) as [Hle Hhop].
    { destruct (decide (y = x)) as [->|Hne].
      - rewrite head_label in Hy. injection Hy as <-. split; [lia|]. intros _ z Hz. rewrite labels_lookup.
        destruct (decide (z ∈ news)) as [Hin|Hin]; [exists (d + 1); split; [done|lia]|].
        destruct (decide (z ∈ visited)) as [Hv|Hv]; [|exfalso; by apply Hin, Hnews].
        rewrite <- (wi_dom _ _ _ Hw) in Hv. apply elem_of_dom in Hv as [dz Hdz]. exists dz. split; [done|].
        by eapply visited_label.
      - destruct (wi_done _ _ _ Hw y dy Hy) as [H1 H2].
        { simpl. rewrite not_elem_of_cons. done. }
        split; [specialize (H1 (x, d) ltac:(left)); simpl in H1; lia|]. intros Hdy z Hz.
        destruct (H2 Hdy z Hz) as (dz & Hdz & Hlz). exists dz. rewrite labels_lookup, decide_False; [done|].
        intros [Hn _]%Hnews. apply Hn. rewrite <- (wi_dom _ _ _ Hw). apply elem_of_dom. eauto. }
    split; [|done]. intros p [Hp%queue_bounds|Hp]%elem_of_app; [lia|].
    apply list_elem_of_fmap in Hp as (z & -> & _). simpl. lia.
Qed.
End Visit.

Definition work (visited : gset AgentId) (queue : list (AgentId * Z)) : nat := size (reach ∖ visited) + List.length queue.

Lemma work_visit visited news queue (queued : list (AgentId * Z)) :
  NoDup news → (∀ y, y ∈ news → y ∉ visited ∧ y ∈ reach) → List.length queued = List.length news →
  work (list_to_set news ∪ visited) (queue ++ queued) = work visited queue.
Proof.
  intros Hnd Hnews Hlen. unfold work. rewrite length_app, Hlen.
  assert (size (reach ∖ visited) = List.length news + size (reach ∖ (list_to_set news ∪ visited)))%nat as ->; [|lia].
  rewrite <- (size_list_to_set (C := gset AgentId) news Hnd), <- size_union by set_solver. f_equal.
  apply set_eq. intros y. rewrite elem_of_union, !elem_of_difference, elem_of_union, elem_of_list_to_set.
  specialize (Hnews y). destruct (decide (y ∈ news)); tauto.
Qed.

Lemma bfs_loop_spec fuel : ∀ L visited queue,
  walk_inv L visited queue → (work visited queue ≤ fuel)%nat →
  ∃ r, bfs_loop fuel st depth allowed (visited, queue) = Some r ∧
    match r with Ok nodes => ∃ L', walk_inv L' nodes [] | Err _ => repo_fails end.
Proof.
  induction fuel as [|fuel IH]; intros L visited [|[x d] queue] Hw Hf; cbn -[Z.leb].
  1, 3: eexists; split; [done|]; by exists L.
  { unfold work in Hf. simpl in Hf. lia. }
  destruct (depth <=? d) eqn:Hd.
  { apply (IH L); [eapply walk_skip; [exact Hw|lia]|]. unfold work in *. simpl in Hf. lia. }
  destruct (list_outgoing_or_500 st x) as [edges|e] eqn:He; [|exists (Err e); split; [done|by eapply list_outgoing_fails]].
  apply list_outgoing_page in He as ->.
  destruct (admit_targets_ok d (page x) visited queue) as (news & Hnd & -> & Hnews).
  assert (∀ y, y ∈ news ↔ y ∉ visited ∧ hop x y) as Hnews' by (intros y; rewrite Hnews; unfold hop; tauto).
  apply (IH (labels L d news)).
  - eapply walk_visit; try done. lia.
  - rewrite work_visit; [unfold work in *; simpl in Hf; lia|done| |by rewrite length_map].
    intros y [Hy Hh]%Hnews'. split; [done|]. by apply hop_reach in Hh.
Qed.

Lemma nsteps_label L visited n y :
  walk_inv L visited [] → nsteps hop n root y → Z.of_nat n ≤ depth → ∃ d, L !! y = Some d ∧ d ≤ Z.of_nat n.
Proof.
  intros Hw. revert y. induction n as [|n IH]; intros y Hy Hn.
  - inversion Hy; subst. exists 0. split; [apply (wi_root _ _ _ Hw)|lia].
  - apply nsteps_inv_r in Hy as (z & Hz & Hh). destruct (IH z Hz ltac:(lia)) as (d & Hd & Hle).
    destruct (wi_done _ _ _ Hw z d Hd) as [_ Hnext]; [by intros ?%not_elem_of_nil|].
    destruct (Hnext ltac:(lia) y Hh) as (d' & Hd' & Hle'). exists d'. split; [done|lia].
Qed.

(** Within the asked distance through agents the caller may see. *)
Definition within (y : AgentId) : Prop := ∃ n, Z.of_nat n ≤ depth ∧ nsteps hop n root y.

Lemma walk_exact L visited : 0 ≤ depth → walk_inv L visited [] → ∀ y, y ∈ visited ↔ within y.
Proof.
  intros Hpos Hw y. rewrite <- (wi_dom _ _ _ Hw), elem_of_dom. split.
  - intros [d Hd]. destruct (wi_found _ _ _ Hw y d Hd) as [Hb Hn]. exists (Z.to_nat d). split; [lia|done].
  - intros (n & Hn & Hy). destruct (nsteps_label _ _ _ _ Hw Hy Hn) as (d & Hd & _). by exists d.
Qed.

Lemma size_targets (l : list AgentId) : (size (list_to_set l : gset AgentId) ≤ List.length l)%nat.
Proof.
  induction l as [|x l IH]; [by rewrite list_to_set_nil, size_empty|].
  rewrite list_to_set_cons, size_union_alt, size_singleton. simpl. apply le_n_S.
  etrans; [|exact IH]. apply subseteq_size. set_solver.
Qed.

Lemma reach_size : (size reach ≤ Datatypes.S (List.length (repo_log (st_edges st))))%nat.
Proof.
  unfold reach. rewrite size_union_alt, size_singleton. simpl. apply le_n_S.
  rewrite <- (length_map e_target (repo_log _)), <- size_targets. apply subseteq_size. set_solver.
Qed.

Lemma collect_reachable_nodes_spec fuel :
  0 ≤ depth → (Datatypes.S (Datatypes.S (List.length (repo_log (st_edges st)))) ≤ fuel)%nat →
  ∃ r, collect_reachable_nodes fuel st root depth allowed = Some r ∧
    match r with Ok nodes => ∀ y, y ∈ nodes ↔ within y | Err _ => repo_fails end.
Proof.
  intros Hpos Hf. destruct (bfs_loop_spec fuel {[root := 0]} {[root]} [(root, 0)] walk_init) as (r & Hr & Hok).
  { unfold work. simpl. pose proof reach_size.
    assert (size (reach ∖ {[root]}) ≤ size reach)%nat by (apply subseteq_size; set_solver). lia. }
  exists r. split; [done|]. destruct r as [nodes|e]; [|done]. destruct Hok as [L' Hw]. by eapply walk_exact.
Qed.

Lemma within_allowed y : within y → y = root ∨ allowed y = true.
Proof.
  intros (n & _ & Hn). destruct n as [|n]; [inversion Hn; subst; by left|].
  apply nsteps_inv_r in Hn as (z & _ & Hh & _). by right.
Qed.

Lemma internal_edges_spec nodes left :
  match internal_edges st nodes left with
  | Ok edges => ∀ e, e ∈ edges ↔ ∃ x, x ∈ left ∧ e ∈ page x ∧ e_target e ∈ nodes
  | Err _ => repo_fails
  end.
Proof.
  induction left as [|x left IH]; simpl.
  { intros e. split; [by intros ?%not_elem_of_nil|]. by intros (x & ?%not_elem_of_nil & _). }
  destruct (list_outgoing_or_500 st x) as [edges|e] eqn:He; simpl; [|by eapply list_outgoing_fails].
  apply list_outgoing_page in He as ->. destruct (internal_edges st nodes left) as [more|e]; simpl; [|done].
  intros e. rewrite elem_of_app, IH, list_elem_of_In, filter_In, <- list_elem_of_In, bool_decide_eq_true.
  setoid_rewrite elem_of_cons. split; [intros [[]|(y & ? & ?)]; eauto|intros (y & [->|] & ? & ?); eauto].
Qed.

(** The edges of a graph. *)
Definition inside (nodes : gset AgentId) (e : Edge) : Prop :=
  e_source e ∈ nodes ∧ e_target e ∈ nodes ∧ e ∈ page (e_source e).

Lemma collect_internal_edges_spec nodes :
  match collect_internal_edges st nodes with
  | Ok edges => ∀ e, e ∈ edges ↔ inside nodes e
  | Err _ => repo_fails
  end.
Proof.
  pose proof (internal_edges_spec nodes (elements nodes)) as Hs. unfold collect_internal_edges.
  destruct (internal_edges st nodes (elements nodes)) as [edges|]; [|done].
  intros e. rewrite Hs. unfold inside. split.
  - intros (x & Hx%elem_of_elements & He & Ht). destruct (page_log x e He) as [_ ->]. done.
  - intros (Hs' & Ht & He). exists (e_source e). rewrite elem_of_elements. done.
Qed.
End Graph.

Lemma authorize_node registry caller x :
  authorize_agent_team_access registry caller x = Ok () → node_authorized registry caller x = true.
Proof. unfold authorize_agent_team_access. destruct (_ && _); [done|]. by destruct (node_authorized registry caller x). Qed.

Section Claims.
Context `{JsonLib, Formats}.
Context {S : Type} `{!EdgeRepo json_value S, HL : !EdgeRepoLaws json_value S}.

(** A graph request always ends, and every answer is exact against the
    contract of the repository: it is refused when the id is malformed or the agent is not
    the caller's, it fails only when the repository does, and otherwise its nodes are
    exactly the agents within the asked distance (two hops when not said, five at most)
    that can be reached through agents the caller may see, every one of which the caller
    may see, and its edges are exactly the ones of their pages between those nodes. *)
Theorem graph_exact (st : AppState S) fuel caller id depth :
  repo_inv (st_edges st) → 0 ≤ default 2 depth →
  (2 + List.length (repo_log (st_edges st)) ≤ fuel)%nat →
  ∃ answer, get_agent_graph fuel caller id depth st = Some answer ∧
  match answer with
  | Ok graph => ∃ root nodes edges,
      parse_agent_id id = Ok root ∧ authorize_agent_team_access (st_registry st) caller root = Ok () ∧
      gr_root_agent_id graph = id ∧ gr_nodes graph = map hex_id (elements nodes) ∧
      gr_edges graph = edge_responses (st_registry st) edges ∧
      (∀ y, y ∈ nodes ↔ within st (node_authorized (st_registry st) caller) root (Z.min (default 2 depth) 5) y) ∧
      (∀ y, y ∈ nodes → node_authorized (st_registry st) caller y = true) ∧
      (∀ e, e ∈ edges ↔ inside st nodes e)
  | Err e => parse_agent_id id = Err e ∨
      (∃ root, parse_agent_id id = Ok root ∧ authorize_agent_team_access (st_registry st) caller root = Err e) ∨
      repo_fails st
  end.
Proof.
  intros Hinv Hd Hf. unfold get_agent_graph.
  destruct (parse_agent_id id) as [root|e] eqn:Hp; simpl; [|by eexists; split; [done|left]].
  destruct (authorize_agent_team_access _ _ root) as [[]|e] eqn:Ha; simpl;
    [|eexists; split; [done|right; left; by exists root]].
  destruct (collect_reachable_nodes_spec st Hinv (node_authorized (st_registry st) caller) root
    (Z.min (default 2 depth) 5) fuel ltac:(lia) Hf) as (r & -> & Hr).
  destruct r as [nodes|e]; [|eexists; split; [done|by right; right]].
  pose proof (collect_internal_edges_spec st Hinv nodes) as He.
  destruct (collect_internal_edges st nodes) as [edges|e]; simpl; [|eexists; split; [done|by right; right]].
  eexists; split; [done|]. exists root, nodes, edges. do 6 (split; [done|]). split; [|done].
  intros y [->|?]%Hr%within_allowed; [by apply authorize_node|done].
Qed.

(** Reporting an edge either records exactly the edge that
    was asked for, under the returned id, or changes nothing; what is recorded has a source
    the caller may see and a target that is not of a team it may not see, and no caller
    without a team records anything but the administrator. *)
Theorem edges_recorded_by_owner now caller body (st : AppState S) answer st' :
  repo_inv (st_edges st) → report_edge now caller body st = (answer, st') →
  st_registry st' = st_registry st ∧ repo_inv (st_edges st') ∧
  match answer with
  | Err _ => repo_log (st_edges st') = repo_log (st_edges st)
  | Ok id => ∃ source target edge_type metadata,
      parse_agent_id (rr_source_agent_id body) = Ok source ∧ parse_agent_id (rr_target_agent_id body) = Ok target ∧
      edge_type_try_from (rr_edge_type body) = Ok edge_type ∧
      repo_log (st_edges st') = repo_log (st_edges st) ++
        [recorded id now {| ne_source := source; ne_target := target; ne_edge_type := edge_type; ne_metadata := metadata |}] ∧
      node_authorized (st_registry st) caller source = true ∧
      (is_admin caller = true ∨ is_Some (tn_team_id (c_tenant caller))) ∧
      (∀ team, agent_team_id (st_registry st) target = Some team → can_access_team caller team = true)
  end.
Proof.
  intros Hinv. unfold report_edge.
  destruct (parse_agent_id (rr_source_agent_id body)) as [source|]; simpl; [|by intros [= <- <-]].
  destruct (parse_agent_id (rr_target_agent_id body)) as [target|]; simpl; [|by intros [= <- <-]].
  unfold parse_edge_type. destruct (edge_type_try_from (rr_edge_type body)) as [et|]; simpl; [|by intros [= <- <-]].
  destruct (authorize_agent_team_access _ caller source) as [[]|] eqn:Ha; simpl; [|by intros [= <- <-]].
  destruct (authorize_edge_target _ caller target) as [[]|] eqn:Ht; simpl; [|by intros [= <- <-]].
  destruct (read_metadata _ _) as [metadata|]; simpl; [|by intros [= <- <-]].
  destruct (repo_insert now _ (st_edges st)) as [r edges] eqn:Hi.
  destruct (law_insert _ _ _ _ _ Hinv Hi) as [Hinv' Hlog]. intros [= <- <-]. do 2 (split; [done|]).
  destruct r as [id|m]; simpl in *; [|by rewrite app_nil_r in Hlog].
  exists source, target, et, metadata. do 4 (split; [done|]). split; [by apply authorize_node|]. split.
  - unfold authorize_agent_team_access in Ha. destruct (is_admin caller); [by left|right].
    destruct (tn_team_id (c_tenant caller)) as [team|]; [by exists team|done].
  - intros team Hteam. unfold authorize_edge_target in Ht. rewrite Hteam in Ht. revert Ht.
    unfold can_access_team. destruct (is_admin caller); [done|]. by destruct (_ : bool).
Qed.
End Claims.

(** ** A registry of two tenants *)

Module ApiDemo.
Definition profile (name : string) (team org : option string) : AgentProfile := {|
  ap_name := name; ap_framework := ""; ap_version := ""; ap_risk_tier := 0; ap_tool_names := [];
  ap_public_key := ""; ap_credential_token := name; ap_metadata := ∅; ap_registered_at := 0; ap_pid := None;
  ap_layer := None; ap_governance_level := L0Discover; ap_team_id := team; ap_org_id := org;
  ap_delegation_reason := None; ap_spawned_by_tool := None |}.

Definition agent (id : AgentId) (name : string) (team org : option string) (depth : Z) (parent : option AgentId)
    (children : list AgentId) : AgentRecord := {|
  ar_agent_id := id; ar_profile := profile name team org; ar_last_heartbeat := 0; ar_status := Active;
  ar_session_count := 0; ar_active_sessions := []; ar_parent_agent_id := None; ar_depth := depth;
  ar_root_agent_id := None; ar_children := children; ar_parent_key := parent; ar_enforcement_mode := None;
  ar_enforcement_mode_expires_at := None |}.

Definition agents : gmap AgentId AgentRecord :=
  {[ 1%N := agent 1%N "root" (Some "alpha") (Some "acme") 0 None [2%N];
     2%N := agent 2%N "helper" (Some "beta") (Some "acme") 1 (Some 1%N) [];
     3%N := agent 3%N "other" (Some "alpha") (Some "umbrella") 0 None [] ]}.

Definition registry : AgentRegistry := {|
  rg_agents := agents; rg_control_senders := ∅;
  rg_team_index := {[ "alpha" := {[1%N; 3%N]}; "beta" := {[2%N]} ]};
  rg_org_index := {[ "acme" := {[1%N; 2%N]}; "umbrella" := {[3%N]} ]};
  rg_credential_index := {[ "root" := 1%N; "helper" := 2%N; "other" := 3%N ]};
  rg_suspend_reasons := ∅; rg_team_max_age_secs := ∅ |}.

Definition caller (team org : option string) : AuthenticatedCaller := {|
  c_key_id := "k"; c_scopes := [ApiScope.Read]; c_tenant := {| tn_team_id := team; tn_org_id := org |} |}.

(** Identifiers as one byte each, for the sake of examples. *)
#[global] Instance formats : Formats := {|
  hex_decode s := if String.eqb s "1" then Some (replicate 15 0%N ++ [1%N])
                  else if String.eqb s "2" then Some (replicate 15 0%N ++ [2%N])
                  else if String.eqb s "3" then Some (replicate 15 0%N ++ [3%N]) else None;
  to_rfc3339 t := "";
  parse_rfc3339 s := if String.eqb s "t10" then Some 10 else None |}.

End ApiDemo.

Module EdgeDemo.
Import ApiDemo.

(** A document is its text. *)
#[global] Instance json : JsonLib := {|
  json_value := string; json_number := unit;
  json_from_str s := if String.prefix "{" s then Some s else None;
  json_pointer v p := None; json_as_str v := Some v; json_as_number v := None; json_number_as_f64 n := None |}.

Definition Repository := Repo.InMemoryEdgeRepo json_value.
#[global] Instance repository : EdgeRepo json_value Repository := in_memory_repo json_value None.
#[global] Instance repository_laws : EdgeRepoLaws json_value Repository := in_memory_repo_laws json_value None.

Definition link (source target : AgentId) (et : EdgeType) : NewEdge json_value :=
  {| ne_source := source; ne_target := target; ne_edge_type := et; ne_metadata := None |}.

Definition record_all (edges : list (Z * NewEdge json_value)) : Repository :=
  foldl (λ r p, snd (Repo.insert None (fst p) (snd p) r)) Repo.new edges.

Definition state (edges : list (Z * NewEdge json_value)) : AppState Repository :=
  {| st_registry := registry; st_edges := record_all edges |}.

Lemma state_inv edges : repo_inv (st_edges (state edges)).
Proof.
  unfold state, record_all. cbn [st_edges]. assert (repo_inv (Repo.new : Repository)) as Hn by apply data_new_inv.
  revert Hn. generalize (Repo.new : Repository). induction edges as [|[now e] edges IH]; intros r Hr; [done|].
  simpl. apply IH. destruct (repo_insert now e r) as [id r'] eqn:E.
  destruct (law_insert r now e id r' Hr E) as [Hr' _]. revert E. simpl. unfold Repo.insert. simpl. by intros [= _ <-].
Qed.

(** 1 calls 3 of its own team name, and 2 of another team, which calls 3. *)
Definition calls : list (Z * NewEdge json_value) :=
  [(5, link 1%N 2%N Calls); (6, link 2%N 3%N Calls); (20, link 1%N 3%N Reads)].

Definition report (source target : string) : ReportEdgeRequest :=
  {| rr_source_agent_id := source; rr_target_agent_id := target; rr_edge_type := "calls"; rr_metadata_json := Some "{}" |}.
End EdgeDemo.
Import EdgeDemo.

Definition alpha : AuthenticatedCaller := ApiDemo.caller (Some "alpha") None.

Lemma graph_exact_witness : ∃ graph,
  get_agent_graph 5 alpha "1" None (state calls) = Some (Ok graph) ∧
  gr_nodes graph = [hex_id 3%N; hex_id 1%N] ∧ List.length (gr_edges graph) = 1%nat ∧
  ∃ (nodes : gset AgentId) (edges : list (Edge json_value)),
    (∀ y, y ∈ nodes ↔ within (state calls) (node_authorized ApiDemo.registry alpha) 1%N 2 y) ∧
    (∀ e, e ∈ edges ↔ inside (state calls) nodes e).
Proof.
  destruct (graph_exact (state calls) 5 alpha "1" None) as (answer & He & Ha);
    [apply state_inv|done|vm_compute; lia|].
  destruct answer as [graph|e]; [|vm_compute in He; discriminate He].
  exists graph. split; [exact He|]. destruct Ha as (root & nodes & edges & Hp & _ & _ & _ & _ & Hw & _ & Hi).
  vm_compute in Hp. injection Hp as <-. split; [|split; [|by exists nodes, edges]].
  all: vm_compute in He; injection He as <-; vm_compute; reflexivity.
Defined.

Lemma edges_recorded_by_owner_witness :
  ∃ st', report_edge 30 alpha (report "1" "3") (state calls) = (Ok 4, st') ∧
    ∃ metadata, repo_log (st_edges st') = repo_log (st_edges (state calls)) ++
      [recorded 4 30 {| ne_source := 1%N; ne_target := 3%N; ne_edge_type := Calls; ne_metadata := metadata |}].
Proof.
  destruct (report_edge 30 alpha (report "1" "3") (state calls)) as [answer st'] eqn:E.
  assert (answer = Ok 4) as -> by (change answer with (fst (answer, st')); rewrite <- E; vm_compute; reflexivity).
  exists st'. split; [done|].
  destruct (edges_recorded_by_owner 30 alpha (report "1" "3") (state calls) (Ok 4) st' (state_inv calls) E)
    as (_ & _ & source & target & et & metadata & Hs & Ht & Het & Hlog & _).
  exists metadata. rewrite Hlog. change (Ok 1%N = Ok (E := ProblemDetail) source) in Hs.
  change (Ok 3%N = Ok (E := ProblemDetail) target) in Ht. change (Ok Calls = Ok (E := string) et) in Het.
  congruence.
Defined.

(** ** What the pages leave out *)

Definition list_request (limit : option Z) (before : option string) : EdgeListParams :=
  {| lp_type := None; lp_direction := None; lp_limit := limit; lp_before := before |}.

(** The limit cuts before the cursor filters: with newer edges in the way, a page of the
    edges before a time is empty although there are some. *)
Lemma cursor_after_limit :
  (let? r := list_agent_edges alpha "1" (list_request (Some 1) (Some "t10")) (state calls) in Ok (lr_count r)) = Ok 0 ∧
  (let? r := list_agent_edges alpha "1" (list_request (Some 2) (Some "t10")) (state calls) in Ok (lr_count r)) = Ok 1.
Proof. split; vm_compute; reflexivity. Qed.

(** The page of a type is cut before the team filters: whatever a team has recorded, once
    the newest thousand edges of every type are of others it sees none of its own. *)
Lemma others_crowd_out {S} `{!EdgeRepo json_value S} (st : AppState S) caller team limit newest_edges :
  is_admin caller = false → tn_team_id (c_tenant caller) = Some team → all_types st ALL = Ok newest_edges →
  Forall (λ e, in_team (st_registry st) team e = false) newest_edges →
  list_topology_edges caller None limit st = Ok ([], 0).
Proof.
  intros Ha Ht Hall Hn. unfold list_topology_edges, select_topology_edges. rewrite Hall, Ha, Ht. simpl.
  replace (List.filter _ newest_edges) with (@nil (Edge json_value)); [by destruct (Z.to_nat _)|].
  clear Hall. induction Hn as [|e l He Hn IH]; [done|]. simpl. by rewrite He.
Qed.

(** Only the team is compared: a caller of an organisation reads the agents of the team of
    the same name of another. *)
Lemma organisation_not_compared :
  authorize_agent_team_access ApiDemo.registry (ApiDemo.caller (Some "alpha") (Some "acme")) 3%N = Ok () ∧
  (get ApiDemo.registry 3%N ≫= ar_org_id) = Some "umbrella".
Proof. split; reflexivity. Qed.

(** The event names the team as it was registered: a blank one counts. *)
Lemma blank_team_is_announced :
  let registry := {| rg_agents := {[ 1%N := ApiDemo.agent 1%N "a" (Some "") None 0 None [];
                                     2%N := ApiDemo.agent 2%N "b" (Some "beta") None 0 None [] ]};
                     rg_control_senders := ∅; rg_team_index := ∅; rg_org_index := ∅; rg_credential_index := ∅;
                     rg_suspend_reasons := ∅; rg_team_max_age_secs := ∅ |} in
  map Repo.ct_source_team_id (Repo.cross_team_event registry 1 (link 1%N 2%N Calls) 0) = [""] ∧
  compute_cross_team registry [recorded 1 0 (link 1%N 2%N Calls)] = [false].
Proof. split; vm_compute; reflexivity. Qed.
