(* ===== verification/TopologyService.v ===== *)
(** * TopologyService: the topology RPCs and the gRPC credential

    aa-gateway/src/service/topology_service.rs and the interceptors of
    aa-gateway/src/iam/grpc_auth.rs.  A metadata value is the text [to_str] gives, if it gives
    one.  The recursion over the children takes fuel. *)

From stdpp Require Import base gmap strings list sets.
From Stdlib Require Import ZArith Lia Bool Ascii String.
From S2P Require Import Prelude.
From S2P Require Import Text.
From S2P Require Import CoreTypes.
From S2P Require Import External.
From S2P Require Import Registry.
From S2P Require Import Engine.
From S2P Require Import Topology.
From S2P Require Import EdgeStore.
From S2P Require Import EdgeApi.
From S2P Require Import EdgeApiProps.

Open Scope Z_scope.
Open Scope aasm_scope.

(** [tonic::Status]. *)
Inductive Code :=
  InvalidArgument | NotFound | AlreadyExists | PermissionDenied | FailedPrecondition | Unauthenticated | Internal.
Record Status := { s_code : Code; s_message : string }.

Definition status {A} (c : Code) (message : string) : result A Status := Err {| s_code := c; s_message := message |}.

(** ** The interceptors *)

Record VerifiedCaller := { vc_agent_key : AgentId; vc_team_id : option string; vc_org_id : option string }.

(** The two metadata entries that are read. *)
Record Metadata := { md_credential : option string; md_authorization : option string }.

Definition non_empty (s : string) : option string := if is_empty s then None else Some s.

Definition token_from_credential_header (md : Metadata) : option string := md_credential md ≫= λ v, non_empty (trim v).

Definition token_from_authorization_header (md : Metadata) : option string :=
  md_authorization md ≫= λ v,
  let value := trim v in
  match strip_prefix value "Bearer " with
  | Some t => non_empty (trim t)
  | None => strip_prefix value "bearer " ≫= λ t, non_empty (trim t)
  end.

Definition extract_token (md : Metadata) : option string :=
  match token_from_credential_header md with Some t => Some t | None => token_from_authorization_header md end.

Definition resolve_caller (registry : AgentRegistry) (token : string) : option VerifiedCaller :=
  agent_key ← find_by_credential_token registry token;
  record ← get registry agent_key;
  Some {| vc_agent_key := agent_key; vc_team_id := ar_team_id record; vc_org_id := ar_org_id record |}.

Definition auth_interceptor (registry : AgentRegistry) (md : Metadata) : result VerifiedCaller Status :=
  match extract_token md with
  | None => status Unauthenticated "missing credential token"
  | Some token =>
      match resolve_caller registry token with
      | Some caller => Ok caller
      | None => status Unauthenticated "invalid credential token"
      end
  end.

Definition enrich_interceptor (registry : AgentRegistry) (md : Metadata) : option VerifiedCaller :=
  extract_token md ≫= resolve_caller registry.

(** ** Helpers *)

(** One dimension of [caller_may_read]. *)
Definition dimension_ok (caller resource : option string) : bool :=
  match caller, resource with
  | Some c, Some r => String.eqb c r
  | None, Some _ => false
  | _, None => true
  end.

Definition caller_may_read (caller : VerifiedCaller) (resource_team resource_org : option string) : bool :=
  dimension_ok (vc_team_id caller) resource_team && dimension_ok (vc_org_id caller) resource_org.

Definition status_str (s : AgentStatus) : string :=
  match s with Active => "active" | Suspended _ => "suspended" | Deregistered => "deregistered" end.

Record TopologyAgent := {
  ta_id : string;
  ta_name : string;
  ta_depth : Z;
  ta_status : string;
  ta_team_id : string;
  ta_delegation_reason : string;
  ta_spawned_by_tool : string;
}.

Definition record_to_topology_agent (record : AgentRecord) : TopologyAgent := {|
  ta_id := hex_id (ar_agent_id record);
  ta_name := ap_name (ar_profile record);
  ta_depth := ar_depth record;
  ta_status := status_str (ar_status record);
  ta_team_id := default "" (ar_team_id record);
  ta_delegation_reason := default "" (ap_delegation_reason (ar_profile record));
  ta_spawned_by_tool := default "" (ap_spawned_by_tool (ar_profile record)) |}.

Inductive TreeNode := Node (agent : TopologyAgent) (children : list TreeNode).

(** [filter_map] over a function that can run out of fuel. *)
Fixpoint filter_map_fuel {A B} (f : A → option (option B)) (l : list A) : option (list B) :=
  match l with
  | [] => Some []
  | x :: rest =>
      match f x, filter_map_fuel f rest with
      | Some (Some y), Some ys => Some (y :: ys)
      | Some None, Some ys => Some ys
      | _, _ => None
      end
  end.

(** [build_tree_node]; [None] when the fuel runs out, [Some None] for an unknown agent. *)
Fixpoint build_tree_node (fuel : nat) (registry : AgentRegistry) (agent_id : AgentId) (remaining : Z) (unlimited : bool)
  : option (option TreeNode) :=
  match fuel with
  | O => None
  | S fuel' =>
      match get registry agent_id with
      | None => Some None
      | Some record =>
          let children :=
            if unlimited || (0 <? remaining) then
              let next := if unlimited then 0 else remaining - 1 in
              filter_map_fuel (λ child_id, build_tree_node fuel' registry child_id next unlimited)
                (children_of registry agent_id)
            else Some [] in
          match children with
          | Some children => Some (Some (Node (record_to_topology_agent record) children))
          | None => None
          end
      end
  end.

(** ** The RPCs *)

Section Rpcs.
Context `{JsonLib, Formats}.

(** [parse_agent_id] of the gateway. *)
Definition parse_agent_key (hex : string) : result AgentId Status :=
  match hex_decode hex with
  | None => status InvalidArgument "agent_id is not valid hex"
  | Some bytes =>
      if (List.length bytes =? 16)%nat then Ok (id_of_bytes bytes)
      else status InvalidArgument "agent_id must be 32 hex characters (16 bytes)"
  end.

Definition find_agent (registry : AgentRegistry) (agent_id : AgentId) (text : string) : result AgentRecord Status :=
  match get registry agent_id with
  | Some record => Ok record
  | None => status NotFound (String.append "agent not found: " text)
  end.

(** The check of a read: only a caller that is there is confined. *)
Definition check_read (caller : option VerifiedCaller) (record : AgentRecord) : result unit Status :=
  match caller with
  | Some caller =>
      if caller_may_read caller (ar_team_id record) (ar_org_id record) then Ok ()
      else status PermissionDenied "agent belongs to a different tenant"
  | None => Ok ()
  end.

Definition get_agent_tree (fuel : nat) (registry : AgentRegistry) (caller : option VerifiedCaller) (agent_id : string)
    (max_depth : Z) : option (result TreeNode Status) :=
  match (let? key := parse_agent_key agent_id in
         let? record := find_agent registry key agent_id in
         let? _ := check_read caller record in
         match ar_parent_key record with
         | Some _ => status FailedPrecondition (String.append "agent " (String.append agent_id " is not a root agent"))
         | None => Ok key
         end) with
  | Err e => Some (Err e)
  | Ok key =>
      match build_tree_node fuel registry key max_depth (max_depth =? 0) with
      | None => None
      | Some None => Some (status NotFound (String.append "agent not found: " agent_id))
      | Some (Some root) => Some (Ok root)
      end
  end.

Definition get_lineage (fuel : nat) (registry : AgentRegistry) (caller : option VerifiedCaller) (agent_id : string)
  : option (result (list TopologyAgent) Status) :=
  match (let? key := parse_agent_key agent_id in
         let? record := find_agent registry key agent_id in
         let? _ := check_read caller record in
         Ok (key, record)) with
  | Err e => Some (Err e)
  | Ok (key, record) =>
      match ancestors_of fuel registry key with
      | None => None
      | Some ids => Some (Ok (record_to_topology_agent record :: map record_to_topology_agent (omap (get registry) ids)))
      end
  end.

Definition ta_leb (a b : TopologyAgent) : bool := negb (String.ltb (ta_id b) (ta_id a)).

Definition get_team_members (registry : AgentRegistry) (caller : option VerifiedCaller) (team_id : string)
  : result (list TopologyAgent) Status :=
  if is_empty team_id then status InvalidArgument "team_id must not be empty"
  else
    let? _ := match caller with
              | Some caller =>
                  if decide (vc_team_id caller = Some team_id) then Ok ()
                  else status PermissionDenied "team belongs to a different tenant"
              | None => Ok ()
              end in
    let member_ids := elements (team_members registry team_id) in
    if (List.length member_ids =? 0)%nat
    then status NotFound (String.append "team not found or has no agents: " team_id)
    else Ok (stable_sort ta_leb (map record_to_topology_agent (omap (get registry) member_ids))).

Record ReportEdge := {
  re_source_agent_id : string;
  re_target_agent_id : string;
  re_edge_type : string;
  re_metadata_json : string;
}.

(** [report_edge]; [{:?}] of the edge type and serde_json's explanation are left out of the
    messages. *)
Definition report_edge (registry : AgentRegistry) (now : Z) (caller : option VerifiedCaller) (req : ReportEdge)
    (repo : Repo.InMemoryEdgeRepo json_value) (events : option AgentRegistry)
  : result Z Status * Repo.InMemoryEdgeRepo json_value :=
  let request :=
    let? caller := match caller with
                   | Some c => Ok c
                   | None => status Unauthenticated
                       "missing verified caller; reporting a topology edge requires authentication"
                   end in
    let? source := parse_agent_key (re_source_agent_id req) in
    let? target := parse_agent_key (re_target_agent_id req) in
    let? edge_type := match edge_type_try_from (re_edge_type req) with
                      | Ok t => Ok t
                      | Err _ => status InvalidArgument "unknown edge_type: "
                      end in
    let? metadata := if is_empty (re_metadata_json req) then Ok None
                     else match json_from_str (re_metadata_json req) with
                          | Some v => Ok (Some v)
                          | None => status InvalidArgument "metadata_json is not valid JSON: "
                          end in
    let? source_record := find_agent registry source (re_source_agent_id req) in
    let? _ := if caller_may_read caller (ar_team_id source_record) (ar_org_id source_record) then Ok ()
              else status PermissionDenied "source agent belongs to a different tenant" in
    let? target_record := find_agent registry target (re_target_agent_id req) in
    let? _ := if caller_may_read caller (ar_team_id target_record) (ar_org_id target_record) then Ok ()
              else status PermissionDenied "target agent belongs to a different tenant" in
    Ok {| ne_source := source; ne_target := target; ne_edge_type := edge_type; ne_metadata := metadata |} in
  match request with
  | Err e => (Err e, repo)
  | Ok edge => let (id, repo') := Repo.insert events now edge repo in (Ok id, repo')
  end.
End Rpcs.

(** ** Who the topology RPCs answer *)

Section Rpcs.
Context `{JsonLib, Formats}.

(** The tenant of an agent that is there and that the caller may read. *)
Definition readable (registry : AgentRegistry) (caller : VerifiedCaller) (x : AgentId) : Prop :=
  ∃ record, get registry x = Some record ∧ caller_may_read caller (ar_team_id record) (ar_org_id record) = true.

Lemma find_agent_ok registry x text record : find_agent registry x text = Ok record → get registry x = Some record.
Proof. unfold find_agent. destruct (get registry x); [by intros [= ->]|done]. Qed.

(** Over gRPC an edge is recorded only for a verified caller and
    only between two registered agents that are both the caller's to read; exactly the edge
    asked for is appended, and every refusal leaves the repository as it was. *)
Theorem rpc_edges_confined registry now caller req repo events answer repo' :
  data_inv (Repo.repo_data repo) → TopologyService.report_edge registry now caller req repo events = (answer, repo') →
  data_inv (Repo.repo_data repo') ∧
  match answer with
  | Err _ => repo' = repo
  | Ok id => ∃ c source target edge_type metadata,
      caller = Some c ∧ parse_agent_key (re_source_agent_id req) = Ok source ∧
      parse_agent_key (re_target_agent_id req) = Ok target ∧
      readable registry c source ∧ readable registry c target ∧
      Data.records (Repo.repo_data repo') = Data.records (Repo.repo_data repo) ++
        [recorded id now {| ne_source := source; ne_target := target; ne_edge_type := edge_type; ne_metadata := metadata |}]
  end.
Proof.
  intros Hinv. unfold TopologyService.report_edge. destruct caller as [c|]; simpl; [|by intros [= <- <-]].
  destruct (parse_agent_key (re_source_agent_id req)) as [source|]; simpl; [|by intros [= <- <-]].
  destruct (parse_agent_key (re_target_agent_id req)) as [target|]; simpl; [|by intros [= <- <-]].
  destruct (edge_type_try_from (re_edge_type req)) as [et|]; simpl; [|by intros [= <- <-]].
  match goal with |- context [result_bind (if is_empty ?x then ?a else ?b) _] => destruct (if is_empty x then a else b) as [metadata|]; simpl; [|by intros [= <- <-]] end.
  destruct (find_agent registry source _) as [rs|] eqn:Hs; simpl; [|by intros [= <- <-]].
  destruct (caller_may_read c (ar_team_id rs) _) eqn:Hrs; simpl; [|by intros [= <- <-]].
  destruct (find_agent registry target _) as [rt|] eqn:Ht; simpl; [|by intros [= <- <-]].
  destruct (caller_may_read c (ar_team_id rt) _) eqn:Hrt; simpl; [|by intros [= <- <-]].
  apply find_agent_ok in Hs, Ht. set (edge := {| ne_source := source |}). intros Heq. injection Heq as <- <-.
  split; [apply (data_insert_inv now edge _ Hinv)|].
  exists c, source, target, et, metadata. do 3 (split; [done|]). split; [by exists rs|]. split; [by exists rt|done].
Qed.
End Rpcs.

Lemma rpc_edges_confined_witness : ∃ repo',
  let c := {| vc_agent_key := 1%N; vc_team_id := Some "alpha"; vc_org_id := Some "acme" |} in
  let req := {| re_source_agent_id := "1"; re_target_agent_id := "1"; re_edge_type := "calls"; re_metadata_json := "" |} in
  TopologyService.report_edge ApiDemo.registry 7 (Some c) req Repo.new None = (Ok 1, repo') ∧ data_inv (Repo.repo_data repo').
Proof.
  eexists. intros c req. split; [vm_compute; reflexivity|].
  eapply (rpc_edges_confined ApiDemo.registry 7 (Some c) req Repo.new None (Ok 1)); [apply data_new_inv|vm_compute; reflexivity].
Defined.

(** ** The reads compare the tenant of the first agent only *)

Definition acme_alpha : VerifiedCaller := {| vc_agent_key := 1%N; vc_team_id := Some "alpha"; vc_org_id := Some "acme" |}.

Fixpoint tree_teams (t : TreeNode) : list string :=
  match t with Node a children => ta_team_id a :: List.concat (map tree_teams children) end.

(** The tree of the caller's own agent shows a child of another team. *)
Lemma tree_shows_other_team :
  ∃ t, get_agent_tree 4 ApiDemo.registry (Some acme_alpha) "1" 0 = Some (Ok t) ∧ tree_teams t = ["alpha"; "beta"] ∧
  caller_may_read acme_alpha (Some "beta") (Some "acme") = false.
Proof. eexists. split; [vm_compute; reflexivity|]. done. Qed.

(** The lineage of the other team's own agent shows the parent's. *)
Lemma lineage_shows_other_team :
  ∃ l, get_lineage 4 ApiDemo.registry (Some {| vc_agent_key := 2%N; vc_team_id := Some "beta"; vc_org_id := Some "acme" |}) "2"
    = Some (Ok l) ∧ map ta_team_id l = ["beta"; "alpha"].
Proof. eexists. split; [vm_compute; reflexivity|]. done. Qed.

(** The roster of a team holds the team of that name of every organisation. *)
Lemma roster_shows_other_organisation :
  ∃ l, get_team_members ApiDemo.registry (Some acme_alpha) "alpha" = Ok l ∧ map ta_name l = ["root"; "other"] ∧
  caller_may_read acme_alpha (Some "alpha") (get ApiDemo.registry 3%N ≫= ar_org_id) = false.
Proof. eexists. split; [vm_compute; reflexivity|]. done. Qed.
