(* ===== verification/TopologyApi.v ===== *)
(** * TopologyApi: the topology routes of the HTTP API and their caches

    aa-api/src/routes/topology.rs with the response types of aa-api/src/models/topology.rs and
    the mirrors of aa-api/src/routes/enforcement_mirror.rs.

    A response cache may forget an entry at any time: each lookup takes whether the entry is
    still there.  [flagged] is what the audit log says about an agent, read once per request.
    The registry and a hash map are iterated in the order of their finite map. *)

From stdpp Require Import base gmap strings list sets.
From Stdlib Require Import ZArith Lia Bool Ascii String.
From S2P Require Import Prelude.
From S2P Require Import Text.
From S2P Require Import CoreTypes.
From S2P Require Import External.
From S2P Require Import Float64.
From S2P Require Import Capability.
From S2P Require Import PolicyDocument.
From S2P Require Import Registry.
From S2P Require Import Budget.
From S2P Require Import BudgetTracker.
From S2P Require Import RateLimit.
From S2P Require Import Engine.
From S2P Require Import Topology.
From S2P Require Import EdgeStore.
From S2P Require Import Auth.
From S2P Require Import EdgeApi.
From S2P Require Import TopologyService.

Open Scope Z_scope.
Open Scope aasm_scope.

Definition list_records (registry : AgentRegistry) : list AgentRecord := (map_to_list (rg_agents registry)).*2.

(** ** Tenant scoping *)

Definition matches_status_filter (s : AgentStatus) (filter : string) : bool :=
  let f := to_ascii_lowercase filter in
  if String.eqb f "active" then match s with Active => true | _ => false end
  else if String.eqb f "suspended" then match s with Suspended _ => true | _ => false end
  else if String.eqb f "deregistered" then match s with Deregistered => true | _ => false end
  else true.

Definition caller_has_no_tenant_scope (caller : AuthenticatedCaller) : bool :=
  negb (is_admin caller) && bool_decide (tn_org_id (c_tenant caller) = None) &&
  bool_decide (tn_team_id (c_tenant caller) = None).

(** [true] unless the caller is confined in a dimension and the record is elsewhere. *)
Definition confined_to (scope value : option string) : bool :=
  match scope with Some s => bool_decide (value = Some s) | None => true end.

Definition record_visible_to (caller : AuthenticatedCaller) (record : AgentRecord) : bool :=
  if is_admin caller then true
  else if bool_decide (tn_org_id (c_tenant caller) = None) && bool_decide (tn_team_id (c_tenant caller) = None) then false
  else if negb (confined_to (tn_org_id (c_tenant caller)) (ar_org_id record)) then false
  else if negb (confined_to (tn_team_id (c_tenant caller)) (ar_team_id record)) then false
  else true.

Definition caller_can_observe_unclaimed (caller : AuthenticatedCaller) : bool :=
  is_admin caller || bool_decide (tn_team_id (c_tenant caller) = None).

(** ** Cache keys *)

(** [Display] of an unsigned integer. *)
Definition u32_text (n : Z) : string := decimal (Z.to_N n).

Definition push_part (key part : string) : string :=
  let key := if is_empty key then key else String.append key "|" in
  String.append key (String.append (u32_text (utf8_len part)) (String.append ":" part)).

Definition cache_key_of (parts : list string) : string := foldl push_part "" parts.

Definition opt_part (value : option string) : string :=
  match value with Some v => String.append "=" v | None => "-" end.

Definition tenant_cache_tag (caller : AuthenticatedCaller) : string :=
  if is_admin caller then cache_key_of ["admin"]
  else cache_key_of ["tenant"; opt_part (tn_org_id (c_tenant caller)); opt_part (tn_team_id (c_tenant caller))].

Definition bool_text (b : bool) : string := if b then "true" else "false".

(** ** Response types *)

Inductive ObservationProfile := Standard | PersonalObserve.

Definition agent_mode (record : AgentRecord) (profile : ObservationProfile) : string :=
  match ar_enforcement_mode record, profile with
  | Some Observe, _ => "shadow"
  | Some Disabled, _ => "off"
  | Some Enforce, _ => "enforce"
  | None, PersonalObserve => "shadow"
  | None, Standard => "enforce"
  end.

Inductive AgentNodeStatus := NodeActive | NodeSuspended | NodeDeregistered.

Definition node_status (s : AgentStatus) : AgentNodeStatus :=
  match s with Active => NodeActive | Suspended _ => NodeSuspended | Deregistered => NodeDeregistered end.

Definition governance_debug (l : GovernanceLevel) : string :=
  match l with
  | L0Discover => "L0Discover"
  | L1Observe => "L1Observe"
  | L2Enforce => "L2Enforce"
  | L3Native => "L3Native"
  end.

Record PolicyChainTier := { pt_tier : string; pt_scope : string; pt_policies : list string }.

Record NodeEffectivePermissions := {
  np_chain : list PolicyChainTier;
  np_allow : list string;
  np_deny : list string;
  np_allow_restricted : bool;
  np_cascade_loaded : bool;
}.

Record NodeBudget := { nb_spend_usd : f64; nb_limit_usd : option f64 }.

(** [trust] is always null. *)
Record AgentNode := {
  an_id : string;
  an_name : string;
  an_depth : Z;
  an_status : AgentNodeStatus;
  an_team_id : option string;
  an_governance_level : option string;
  an_mode : string;
  an_flagged : bool;
  an_owner : option string;
  an_policy_count : option Z;
  an_budget : option NodeBudget;
  an_effective_permissions : option NodeEffectivePermissions;
}.

(** [AgentNode::from] with the three fields the handlers overwrite. *)
Definition node_of (profile : ObservationProfile) (flagged : AgentId → bool) (show_budget : bool) (r : AgentRecord) : AgentNode := {|
  an_id := hex_id (ar_agent_id r);
  an_name := ap_name (ar_profile r);
  an_depth := ar_depth r;
  an_status := node_status (ar_status r);
  an_team_id := ar_team_id r;
  an_governance_level := if show_budget then Some (governance_debug (ap_governance_level (ar_profile r))) else None;
  an_mode := agent_mode r profile;
  an_flagged := flagged (ar_agent_id r);
  an_owner := ap_metadata (ar_profile r) !! "owner";
  an_policy_count := None;
  an_budget := None;
  an_effective_permissions := None |}.

Record TeamSummary := { ts_team_id : string; ts_agent_count : Z; ts_root_agent_count : Z }.

Record TopologyOverview := {
  ov_team_count : Z;
  ov_root_agent_count : Z;
  ov_total_agent_count : Z;
  ov_teams : list TeamSummary;
  ov_standalone_root_agents : list AgentNode;
}.

Definition overview_default : TopologyOverview := {|
  ov_team_count := 0; ov_root_agent_count := 0; ov_total_agent_count := 0; ov_teams := [];
  ov_standalone_root_agents := [] |}.

Record AgentTreeFields := {
  at_id : string;
  at_name : string;
  at_depth : Z;
  at_status : string;
  at_team_id : option string;
  at_delegation_reason : option string;
  at_spawned_by_tool : option string;
  at_governance_level : option string;
  at_mode : string;
  at_flagged : bool;
}.

Inductive AgentTree := Tree (fields : AgentTreeFields) (children : list AgentTree).

Record TeamTopology := { tt_team_id : string; tt_agent_count : Z; tt_members : list AgentNode }.

Record LineageStep := {
  ls_id : string;
  ls_name : string;
  ls_depth : Z;
  ls_delegation_reason : option string;
  ls_team_id : option string;
}.

Record AgentLineage := { al_agent_id : string; al_ancestor_count : Z; al_ancestors : list LineageStep }.

Record TopologyStats := {
  ss_total_agents : Z;
  ss_root_agent_count : Z;
  ss_max_depth : Z;
  ss_active_count : Z;
  ss_suspended_count : Z;
  ss_deregistered_count : Z;
  ss_team_count : Z;
  ss_team_sizes : gmap string Z;
  ss_depth_histogram : gmap string Z;
  ss_team_size_histogram : gmap string Z;
  ss_spawn_count_histogram : gmap string Z;
  ss_orphan_count : Z;
  ss_avg_children_per_parent : f64;
}.

Record TopologyGraphEdge := { ge_source : string; ge_target : string; ge_kind : string; ge_cross_team : bool }.

Record TopologyGraphResponse := {
  tg_nodes : list AgentNode;
  tg_edges : list TopologyGraphEdge;
  tg_unclaimed_observable : bool;
}.

(** ** The tree *)

Definition MAX_TREE_DEPTH : Z := 10.

Definition tree_fields (profile : ObservationProfile) (flagged : AgentId → bool) (show_budget : bool) (agent_id : AgentId)
    (record : AgentRecord) : AgentTreeFields := {|
  at_id := hex_id agent_id;
  at_name := ap_name (ar_profile record);
  at_depth := ar_depth record;
  at_status := status_str (ar_status record);
  at_team_id := ar_team_id record;
  at_delegation_reason := ap_delegation_reason (ar_profile record);
  at_spawned_by_tool := ap_spawned_by_tool (ar_profile record);
  at_governance_level := if show_budget then Some (governance_debug (ap_governance_level (ar_profile record))) else None;
  at_mode := agent_mode record profile;
  at_flagged := flagged agent_id |}.

(** [build_tree]; [remaining_depth] is the number of levels below. *)
Fixpoint build_tree (registry : AgentRegistry) (caller : AuthenticatedCaller) (profile : ObservationProfile)
    (flagged : AgentId → bool) (status_filter : option string) (show_budget : bool) (remaining_depth : nat)
    (agent_id : AgentId) : option AgentTree :=
  match get registry agent_id with
  | None => None
  | Some record =>
      if negb (record_visible_to caller record) then None
      else if negb (match status_filter with Some f => matches_status_filter (ar_status record) f | None => true end) then None
      else
        let children := match remaining_depth with
                        | O => []
                        | S below => omap (build_tree registry caller profile flagged status_filter show_budget below)
                                       (children_of registry agent_id)
                        end in
        Some (Tree (tree_fields profile flagged show_budget agent_id record) children)
  end.

(** ** Effective permissions *)

Definition TOOL_WILDCARD : string := "*".

Definition cascade_denies_tool (cascade : list PolicyDocument) (tool : string) : bool :=
  existsb (λ doc, match (match pd_tools doc !! tool with Some tp => Some tp | None => pd_tools doc !! TOOL_WILDCARD end) with
                  | Some tp => negb (tp_allow tp)
                  | None => false
                  end) cascade.

Definition cascade_denies_all_egress (cascade : list PolicyDocument) : bool :=
  existsb (λ doc, match pd_network doc with
                  | Some np => match np_allowlist np with [] => true | _ => false end
                  | None => false
                  end) cascade.

Definition mcp_tool_name (c : Capability) : option string := match c with McpTool name => Some name | _ => None end.

Definition agent_tool_ids (record : AgentRecord) (caps : CapabilitySet) (cascade : list PolicyDocument) : gset string :=
  (list_to_set (ap_tool_names (ar_profile record))
   ∪ list_to_set (omap mcp_tool_name (elements (cs_allow caps) ++ elements (cs_deny caps)))
   ∪ ⋃ map (λ doc, dom (pd_tools doc)) cascade) ∖ {[TOOL_WILDCARD]}.

Definition cascade_denies (cascade : list PolicyDocument) (merged : CapabilitySet) (egress_denied : bool) (cap : Capability)
  : bool :=
  match cap with
  | NetworkOutbound => if egress_denied then true else capability_is_denied (cs_deny merged) cap
  | McpTool name => if cascade_denies_tool cascade name then true else capability_is_denied (cs_deny merged) cap
  | _ => capability_is_denied (cs_deny merged) cap
  end.

(** The texts of a [BTreeSet] and of a sorted [Vec]. *)
Definition str_leb (a b : string) : bool := negb (String.ltb b a).
Definition sorted_texts (s : gset string) : list string := stable_sort str_leb (elements s).

Section Permissions.
Context `{UuidLib}.

Definition build_policy_chain (cascade : list PolicyDocument) (agent_id : AgentId) (lineage : Lineage) : list PolicyChainTier :=
  let tiers := [("global", Scope.Global)]
    ++ match ln_org_id lineage with Some org => [("org", Scope.Org org)] | None => [] end
    ++ match non_blank_team (ln_team_id lineage) with Some team => [("team", Scope.Team team)] | None => [] end
    ++ [("agent", Scope.Agent agent_id)] in
  map (λ t, let '(tier, scope) := t in
            let label := scope_display scope in
            {| pt_tier := tier; pt_scope := label;
               pt_policies := map (λ doc, default label (pd_name doc))
                                (List.filter (λ doc, bool_decide (pd_scope doc = scope)) cascade) |}) tiers.

(** The denied capabilities, as texts. *)
Definition denied_texts (record : AgentRecord) (cascade : list PolicyDocument) : gset string :=
  let merged := collect_merged_capabilities cascade in
  list_to_set (map capability_display (elements (cs_deny merged)))
  ∪ (if capability_is_denied (cs_deny merged) FileDelete then {[capability_display FileDelete]} else ∅)
  ∪ (if cascade_denies_all_egress cascade then {[capability_display NetworkOutbound]} else ∅)
  ∪ list_to_set (map (λ tool, capability_display (McpTool tool))
      (List.filter (cascade_denies_tool cascade) (elements (agent_tool_ids record merged cascade)))).

Definition allowed_texts (cascade : list PolicyDocument) : list string :=
  let merged := collect_merged_capabilities cascade in
  let egress_denied := cascade_denies_all_egress cascade in
  stable_sort str_leb
    (map capability_display
       (List.filter (λ cap, negb (cascade_denies cascade merged egress_denied cap)) (elements (cs_allow merged)))).

Definition project_effective_permissions (record : AgentRecord) (cascade : list PolicyDocument) (agent_id : AgentId)
    (lineage : Lineage) (cascade_loaded : bool) : NodeEffectivePermissions := {|
  np_chain := build_policy_chain cascade agent_id lineage;
  np_allow := allowed_texts cascade;
  np_deny := sorted_texts (denied_texts record cascade);
  np_allow_restricted := allow_is_restricted (collect_merged_capabilities cascade);
  np_cascade_loaded := cascade_loaded |}.
End Permissions.

(** ** The graph *)

Definition EDGE_BATCH_LIMIT : Z := 1000.

Definition graph_edge_kind (t : EdgeType) : string :=
  match t with DelegatesTo => "delegation" | Calls => "call" | other => edge_type_as_str other end.

Definition node_leb (a b : AgentNode) : bool := str_leb (an_id a) (an_id b).

Section Handlers.
Context `{JsonLib, Formats, UuidLib, ChronoLib, DecimalLib, Detection.Detectors}.
Context {S : Type} `{!EdgeRepo json_value S}.
Context (en : Engine) (profile : ObservationProfile) (flagged : AgentId → bool).
Context (budgets : Config) (ledger : Ledger).
Implicit Types (st : AppState S) (caller : AuthenticatedCaller).

Definition cascade_loaded : bool := negb (bool_decide (ScopeIndex.si_policies (ca_scope_index (en_cascade en)) = ∅)).

(** Today's spend of each agent of the tracker's snapshot, by the text of its id. *)
Definition spend_by_id : gmap string f64 :=
  list_to_map (map (λ p, (hex_id (fst p), f64_or_zero (bs_spent_usd (snd p)))) (map_to_list (lg_per_agent ledger))).

Definition node_budget (agent_id : AgentId) : NodeBudget := {|
  nb_spend_usd := default (f64_of_Z 0) (spend_by_id !! hex_id agent_id);
  nb_limit_usd := or_limit (cf_agent_limits budgets !! agent_id ≫= lim_daily_usd) (cf_daily_limit_usd budgets)
                    ≫= dec_to_f64 |}.

Definition project_graph_node (registry : AgentRegistry) (record : AgentRecord) : AgentNode :=
  let node := node_of profile flagged false record in
  let agent_id := ar_agent_id record in
  let lineage := default lineage_default (Registry.lineage registry agent_id) in
  let cascade := collect_cascade_with_lineage en agent_id lineage in
  {| an_id := an_id node; an_name := an_name node; an_depth := an_depth node; an_status := an_status node;
     an_team_id := an_team_id node; an_governance_level := an_governance_level node; an_mode := an_mode node;
     an_flagged := an_flagged node; an_owner := an_owner node;
     an_policy_count := if cascade_loaded then Some (Z.of_nat (List.length cascade)) else None;
     an_budget := Some (node_budget agent_id);
     an_effective_permissions :=
       Some (project_effective_permissions record cascade agent_id lineage cascade_loaded) |}.

Definition project_graph_nodes (registry : AgentRegistry) (records : list AgentRecord) : list AgentNode :=
  stable_sort node_leb (map (project_graph_node registry) records).

(** An edge between two visible agents; [teams_by_id] is their set with their teams. *)
Definition graph_edge (teams_by_id : gmap AgentId (option string)) (edge : Edge json_value) : option TopologyGraphEdge :=
  match teams_by_id !! e_source edge, teams_by_id !! e_target edge with
  | Some source_team, Some target_team =>
      Some {| ge_source := hex_id (e_source edge); ge_target := hex_id (e_target edge);
              ge_kind := graph_edge_kind (e_edge_type edge);
              ge_cross_team := is_cross_team source_team target_team |}
  | _, _ => None
  end.

Fixpoint collect_graph_edges st (teams_by_id : gmap AgentId (option string)) (types : list EdgeType)
  : result (list TopologyGraphEdge) ProblemDetail :=
  match types with
  | [] => Ok []
  | et :: rest =>
      let? batch := or_500 "Failed to list topology edges" (repo_list_by_type (st_edges st) et 0 EDGE_BATCH_LIMIT) in
      let? more := collect_graph_edges st teams_by_id rest in
      Ok (omap (graph_edge teams_by_id) batch ++ more)
  end.

Definition visible_records (registry : AgentRegistry) caller : list AgentRecord :=
  List.filter (record_visible_to caller) (list_records registry).

Definition get_topology_graph st caller : result TopologyGraphResponse ProblemDetail :=
  if caller_has_no_tenant_scope caller then Ok {| tg_nodes := []; tg_edges := []; tg_unclaimed_observable := false |}
  else
    let records := visible_records (st_registry st) caller in
    let teams_by_id := list_to_map (map (λ r, (ar_agent_id r, team_of r)) records) : gmap AgentId (option string) in
    let nodes := project_graph_nodes (st_registry st) records in
    let? edges := collect_graph_edges st teams_by_id ALL in
    Ok {| tg_nodes := nodes; tg_edges := edges; tg_unclaimed_observable := caller_can_observe_unclaimed caller |}.

(** ** Cached handlers *)

Record Caches := {
  cc_overview : gmap string TopologyOverview;
  cc_tree : gmap string AgentTree;
  cc_team : gmap string TeamTopology;
  cc_lineage : gmap string AgentLineage;
  cc_stats : gmap string TopologyStats;
}.

Record TopologyFilterParams := {
  fp_status : option string;
  fp_min_depth : option Z;
  fp_show_budget : option bool;
  fp_org_id : option string;
}.

Definition passes_filter (params : TopologyFilterParams) (r : AgentRecord) : bool :=
  match fp_status params with Some f => matches_status_filter (ar_status r) f | None => true end
  && match fp_min_depth params with Some d => d <=? ar_depth r | None => true end.

Definition effective_org caller (params : TopologyFilterParams) : option string :=
  if is_admin caller then fp_org_id params else tn_org_id (c_tenant caller).

Definition overview_key caller (params : TopologyFilterParams) : string :=
  cache_key_of [tenant_cache_tag caller; opt_part (effective_org caller params); opt_part (fp_status params);
                u32_text (default 0 (fp_min_depth params)); bool_text (default false (fp_show_budget params))].

(** The agents and the roots of a team so far. *)
Definition count_team (m : gmap string (Z * Z)) (r : AgentRecord) : gmap string (Z * Z) :=
  match team_of r with
  | Some tid =>
      let '(agents, roots) := default (0, 0) (m !! tid) in
      <[tid := (agents + 1, if ar_depth r =? 0 then roots + 1 else roots)]> m
  | None => m
  end.

Definition overview_of (registry : AgentRegistry) caller (params : TopologyFilterParams) : TopologyOverview :=
  let all := match effective_org caller params with
             | Some oid => omap (get registry) (elements (org_members registry oid))
             | None => list_records registry
             end in
  let show_budget := default false (fp_show_budget params) in
  let filtered := List.filter (passes_filter params) (List.filter (record_visible_to caller) all) in
  let team_map := foldl count_team ∅ filtered in
  {| ov_team_count := Z.of_nat (size team_map);
     ov_root_agent_count := Z.of_nat (List.length (List.filter (λ r, ar_depth r =? 0) filtered));
     ov_total_agent_count := Z.of_nat (List.length filtered);
     ov_teams := stable_sort (λ a b, str_leb (ts_team_id a) (ts_team_id b))
       (map (λ t, {| ts_team_id := fst t; ts_agent_count := fst (snd t); ts_root_agent_count := snd (snd t) |})
          (map_to_list team_map));
     ov_standalone_root_agents := stable_sort node_leb
       (map (node_of profile flagged show_budget)
          (List.filter (λ r, (ar_depth r =? 0) && bool_decide (team_of r = None)) filtered)) |}.

(** A cached handler: what the cache still holds under the key, or the answer, which is put there. *)
Definition cached {V E} (live : bool) (key : string) (cache : gmap string V) (compute : result V E)
  : result V E * gmap string V :=
  match (if live then cache !! key else None) with
  | Some v => (Ok v, cache)
  | None => match compute with Ok v => (Ok v, <[key := v]> cache) | Err e => (Err e, cache) end
  end.

Definition get_overview (registry : AgentRegistry) (live : bool) caller (params : TopologyFilterParams)
    (cache : gmap string TopologyOverview) : result TopologyOverview ProblemDetail * gmap string TopologyOverview :=
  if caller_has_no_tenant_scope caller then (Ok overview_default, cache)
  else cached live (overview_key caller params) cache (Ok (overview_of registry caller params)).

Record TreeParams := { tp_depth : option Z; tp_status : option string; tp_show_budget : option bool }.

Definition tree_depth (params : TreeParams) : Z := Z.min (default MAX_TREE_DEPTH (tp_depth params)) MAX_TREE_DEPTH.

Definition tree_key caller (root_id : string) (params : TreeParams) : string :=
  cache_key_of [tenant_cache_tag caller; root_id; u32_text (tree_depth params); opt_part (tp_status params);
                bool_text (default false (tp_show_budget params))].

Definition agent_not_found {A} (text : string) : result A ProblemDetail :=
  Err (problem 404 (String.append "Agent not found: " text)).

Definition get_tree (registry : AgentRegistry) (live : bool) caller (root_id : string) (params : TreeParams)
    (cache : gmap string AgentTree) : result AgentTree ProblemDetail * gmap string AgentTree :=
  match (let? agent_id := parse_agent_id root_id in
         if caller_has_no_tenant_scope caller then agent_not_found root_id
         else match get registry agent_id with
              | Some record =>
                  if negb (record_visible_to caller record) then agent_not_found root_id
                  else if 0 <? ar_depth record
                  then Err (problem 422 (String.append "Agent " (String.append root_id
                         (String.append " is not a root agent (depth " (String.append (u32_text (ar_depth record)) ")")))))
                  else Ok agent_id
              | None => agent_not_found root_id
              end) with
  | Err e => (Err e, cache)
  | Ok agent_id =>
      cached live (tree_key caller root_id params) cache
        (match build_tree registry caller profile flagged (tp_status params) (default false (tp_show_budget params))
                 (Z.to_nat (tree_depth params)) agent_id with
         | Some tree => Ok tree
         | None => agent_not_found root_id
         end)
  end.

Definition team_key caller (team_id : string) (params : TopologyFilterParams) : string :=
  cache_key_of [tenant_cache_tag caller; team_id; opt_part (fp_status params); opt_part (fp_org_id params);
                u32_text (default 0 (fp_min_depth params)); bool_text (default false (fp_show_budget params))].

Definition team_members_shown (registry : AgentRegistry) caller (team_id : string) (params : TopologyFilterParams)
  : list AgentRecord :=
  List.filter (λ r, passes_filter params r && confined_to (fp_org_id params) (ar_org_id r))
    (List.filter (record_visible_to caller) (omap (get registry) (elements (team_members registry team_id)))).

Definition team_of_members (team_id : string) (members : list AgentNode) : TeamTopology :=
  let members := stable_sort (λ a b, an_depth a <=? an_depth b) members in
  {| tt_team_id := team_id; tt_agent_count := Z.of_nat (List.length members); tt_members := members |}.

Definition get_team (registry : AgentRegistry) (live : bool) caller (team_id : string) (params : TopologyFilterParams)
    (cache : gmap string TeamTopology) : result TeamTopology ProblemDetail * gmap string TeamTopology :=
  if negb (can_access_team caller team_id)
  then (Err (problem 403 "Reading a team's topology requires admin scope or membership in that team"), cache)
  else cached live (team_key caller team_id params) cache
         (Ok (team_of_members team_id (map (node_of profile flagged (default false (fp_show_budget params)))
                (team_members_shown registry caller team_id params)))).

Definition lineage_step (r : AgentRecord) : LineageStep := {|
  ls_id := hex_id (ar_agent_id r); ls_name := ap_name (ar_profile r); ls_depth := ar_depth r;
  ls_delegation_reason := ap_delegation_reason (ar_profile r); ls_team_id := ar_team_id r |}.

(** The ancestors up to the first that is not visible; an unknown one is skipped. *)
Fixpoint visible_ancestors (registry : AgentRegistry) caller (ids : list AgentId) : list AgentRecord :=
  match ids with
  | [] => []
  | id :: rest =>
      match get registry id with
      | None => visible_ancestors registry caller rest
      | Some r => if record_visible_to caller r then r :: visible_ancestors registry caller rest else []
      end
  end.

Definition lineage_key caller (agent_id : string) : string := cache_key_of [tenant_cache_tag caller; agent_id].

Definition get_lineage (fuel : nat) (registry : AgentRegistry) (live : bool) caller (agent_id : string)
    (cache : gmap string AgentLineage) : option (result AgentLineage ProblemDetail * gmap string AgentLineage) :=
  if caller_has_no_tenant_scope caller then Some (agent_not_found agent_id, cache)
  else
    let compute :=
      match parse_agent_id agent_id with
      | Err e => Some (Err e)
      | Ok key =>
          match get registry key with
          | None => Some (agent_not_found agent_id)
          | Some record =>
              if negb (record_visible_to caller record) then Some (agent_not_found agent_id)
              else match ancestors_of fuel registry key with
                   | None => None
                   | Some ids =>
                       let ancestors := map lineage_step (rev (visible_ancestors registry caller ids) ++ [record]) in
                       Some (Ok {| al_agent_id := agent_id; al_ancestor_count := Z.of_nat (List.length ancestors);
                                   al_ancestors := ancestors |})
                   end
          end
      end in
    match (if live then cache !! lineage_key caller agent_id else None), compute with
    | Some v, _ => Some (Ok v, cache)
    | None, Some compute => Some (cached false (lineage_key caller agent_id) cache compute)
    | None, None => None
    end.

(** ** Statistics *)

Definition bump (k : string) (m : gmap string Z) : gmap string Z := <[k := default 0 (m !! k) + 1]> m.

Definition count_if (f : AgentRecord → bool) (l : list AgentRecord) : Z := Z.of_nat (List.length (List.filter f l)).

(** The children of the agents that have some, in the order of the histogram's keys. *)
Definition child_counts (histogram : gmap string Z) : list Z :=
  List.concat (map (λ count, let c := default 0 (parse_u32 count) in
                        if 0 <? c then replicate (Z.to_nat (default 0 (histogram !! count))) c else [])
    (stable_sort str_leb (elements (dom histogram)))).

Definition average (parents : list Z) : f64 :=
  match parents with
  | [] => f64_of_Z 0
  | _ => f64_div (foldl (λ sum c, f64_add sum (f64_of_Z c)) (f64_of_Z 0) parents) (f64_of_Z (Z.of_nat (List.length parents)))
  end.

Definition stats_of (registry : AgentRegistry) (all : list AgentRecord) : TopologyStats :=
  let team_sizes := foldl (λ m r, match team_of r with Some tid => bump tid m | None => m end) ∅ all in
  let spawn_counts :=
    foldl (λ m r, bump (u32_text (Z.of_nat (List.length (children_of registry (ar_agent_id r))))) m) ∅ all in
  {| ss_total_agents := Z.of_nat (List.length all);
     ss_root_agent_count := count_if (λ r, ar_depth r =? 0) all;
     ss_max_depth := foldl (λ m r, if m <? ar_depth r then ar_depth r else m) 0 all;
     ss_active_count := count_if (λ r, match ar_status r with Active => true | _ => false end) all;
     ss_suspended_count := count_if (λ r, match ar_status r with Suspended _ => true | _ => false end) all;
     ss_deregistered_count := count_if (λ r, match ar_status r with Deregistered => true | _ => false end) all;
     ss_team_count := Z.of_nat (size team_sizes);
     ss_team_sizes := team_sizes;
     ss_depth_histogram := foldl (λ m r, bump (u32_text (ar_depth r)) m) ∅ all;
     ss_team_size_histogram := foldl (λ m n, bump (u32_text n) m) ∅ (map_to_list team_sizes).*2;
     ss_spawn_count_histogram := spawn_counts;
     ss_orphan_count := count_if (λ r, bool_decide (team_of r = None) && (0 <? ar_depth r)) all;
     ss_avg_children_per_parent := average (child_counts spawn_counts) |}.

Definition stats_key caller : string := cache_key_of ["stats"; tenant_cache_tag caller].

Definition get_stats (registry : AgentRegistry) (live : bool) caller (cache : gmap string TopologyStats)
  : result TopologyStats ProblemDetail * gmap string TopologyStats :=
  cached live (stats_key caller) cache (Ok (stats_of registry (visible_records registry caller))).
End Handlers.
