(* ===== verification/TopologyApiProps.v ===== *)
(** * TopologyApiProps: a caller sees its own tenant, from the caches too

    The keys of the response caches are injective, so along any sequence of requests by any
    callers an answer is one the handler computed for that very caller and request; and what
    a handler computes shows agents the caller may see only, and counts those only, but for
    the children the statistics count.  The permissions shown are the ones enforced. *)

From stdpp Require Import base gmap strings list sets.
From Stdlib Require Import ZArith Lia Bool Ascii String.
From S2P Require Import Prelude.
From S2P Require Import Text.
From S2P Require Import CoreTypes.
From S2P Require Import External.
From S2P Require Import Capability.
From S2P Require Import PolicyDocument.
From S2P Require Import Registry.
From S2P Require Import Budget.
From S2P Require Import BudgetTracker.
From S2P Require Import Engine.
From S2P Require Import Topology.
From S2P Require Import EdgeStore.
From S2P Require Import Auth.
From S2P Require Import EdgeApi.
From S2P Require Import EdgeApiProps.
From S2P Require Import TopologyService.
From S2P Require Import TopologyApi.
From S2P Require Import EgressHost.
From S2P Require Import Decision.

Open Scope Z_scope.
Open Scope aasm_scope.

(** ** Cache keys *)

Definition enc (p : string) : string := String.append (u32_text (utf8_len p)) (String ":" p).

Fixpoint enc_rest (ps : list string) : string :=
  match ps with [] => "" | p :: ps => String "|" (String.append (enc p) (enc_rest ps)) end.

Lemma push_part_cons c k p : push_part (String c k) p = String c (String.append k (String "|" (enc p))).
Proof. unfold push_part, enc. simpl. by rewrite append_assoc. Qed.

Lemma fold_parts ps c k : foldl push_part (String c k) ps = String c (String.append k (enc_rest ps)).
Proof.
  revert k. induction ps as [|p ps IH]; intros k; simpl; [by rewrite append_nil_r|].
  rewrite push_part_cons, IH. simpl. by rewrite append_assoc.
Qed.

Lemma enc_cons p : ∃ c k, enc p = String c k.
Proof.
  unfold enc. destruct (u32_text (utf8_len p)) as [|c k]; [by exists ":"%char, p|]. simpl. eauto.
Qed.

Lemma cache_key_cons p ps : cache_key_of (p :: ps) = String.append (enc p) (enc_rest ps).
Proof.
  unfold cache_key_of. simpl. change (push_part "" p) with (enc p).
  destruct (enc_cons p) as (c & k & ->). by rewrite fold_parts.
Qed.

Lemma u32_text_inj a b : 0 ≤ a → 0 ≤ b → u32_text a = u32_text b → a = b.
Proof. unfold u32_text. intros Ha Hb H%decimal_inj. lia. Qed.

Lemma enc_inj p q r r' : String.append (enc p) r = String.append (enc q) r' → p = q ∧ r = r'.
Proof.
  unfold enc. rewrite !append_assoc. simpl. intros H.
  pose proof (split_once_app ":" (u32_text (utf8_len p)) (String.append p r) (decimal_lacks _)) as Hp.
  rewrite H, split_once_app in Hp by apply decimal_lacks. injection Hp as Hl He.
  apply u32_text_inj in Hl; [|apply utf8_len_nonneg..].
  destruct (utf8_len_split q p r' r He Hl) as [-> ->]. done.
Qed.

Lemma enc_rest_inj ps qs : enc_rest ps = enc_rest qs → ps = qs.
Proof.
  revert qs. induction ps as [|p ps IH]; intros [|q qs]; simpl; intros H; try done.
  injection H as H. apply enc_inj in H as [-> H]. by rewrite (IH qs H).
Qed.

Lemma cache_key_inj ps qs : cache_key_of ps = cache_key_of qs → ps = qs.
Proof.
  destruct ps as [|p ps], qs as [|q qs]; [done|..]; rewrite ?cache_key_cons.
  - by destruct (enc_cons q) as (c & k & ->).
  - by destruct (enc_cons p) as (c & k & ->).
  - intros [-> H]%enc_inj. by rewrite (enc_rest_inj _ _ H).
Qed.

Lemma opt_part_inj a b : opt_part a = opt_part b → a = b.
Proof. destruct a, b; simpl; congruence. Qed.

Lemma bool_text_inj a b : bool_text a = bool_text b → a = b.
Proof. by destruct a, b. Qed.

(** Two callers the topology makes no difference between. *)
Definition same_tenant (c c' : AuthenticatedCaller) : Prop :=
  is_admin c = is_admin c' ∧ (is_admin c = false → tn_org_id (c_tenant c) = tn_org_id (c_tenant c') ∧
                                                  tn_team_id (c_tenant c) = tn_team_id (c_tenant c')).

Lemma tenant_tag_inj c c' : tenant_cache_tag c = tenant_cache_tag c' → same_tenant c c'.
Proof.
  unfold tenant_cache_tag, same_tenant.
  destruct (is_admin c), (is_admin c'); intros H; apply cache_key_inj in H; try discriminate; [done|].
  injection H as Ho Ht. by apply opt_part_inj in Ho, Ht.
Qed.

Lemma same_tenant_visible c c' r : same_tenant c c' → record_visible_to c r = record_visible_to c' r.
Proof.
  intros [Ha Ht]. unfold record_visible_to. rewrite <- Ha.
  destruct (is_admin c); [done|]. destruct (Ht eq_refl) as [-> ->]. done.
Qed.

(** ** Caches *)

Section History.
Context {W Q V E : Type}.
Context (key : Q → string) (compute : W → Q → result V E) (early : W → Q → option (result V E)).

(** A handler that may answer at once and otherwise goes through its cache. *)
Definition serve (w : W) (live : bool) (q : Q) (cache : gmap string V) : result V E * gmap string V :=
  match early w q with
  | Some r => (r, cache)
  | None => cached live (key q) cache (compute w q)
  end.

(** The answer without a cache. *)
Definition fresh (w : W) (q : Q) : result V E := match early w q with Some r => r | None => compute w q end.

Fixpoint serve_all (requests : list (W * bool * Q)) (cache : gmap string V) : list (result V E) :=
  match requests with
  | [] => []
  | (w, live, q) :: rest => let (r, cache') := serve w live q cache in r :: serve_all rest cache'
  end.

Context (good : W → Prop) (allowed : Q → Prop).
Hypothesis key_covers : ∀ w q q', good w → allowed q → allowed q' → key q = key q' →
  early w q = early w q' ∧ compute w q = compute w q'.

(** Everything in the cache is the answer to its key in a world of the past. *)
Definition cache_ok (past : list W) (cache : gmap string V) : Prop :=
  ∀ k v, cache !! k = Some v → ∃ w q, w ∈ past ∧ good w ∧ allowed q ∧ k = key q ∧ fresh w q = Ok v.

Lemma fresh_same w q q' : good w → allowed q → allowed q' → key q = key q' → fresh w q = fresh w q'.
Proof. intros Hg Hq Hq' Hk. unfold fresh. destruct (key_covers w q q' Hg Hq Hq' Hk) as [-> ->]. done. Qed.

Lemma serve_ok past w live q cache :
  good w → allowed q → cache_ok past cache →
  cache_ok (past ++ [w]) (snd (serve w live q cache)) ∧
  ∀ v, fst (serve w live q cache) = Ok v → ∃ w', w' ∈ past ++ [w] ∧ fresh w' q = Ok v.
Proof.
  intros Hg Hq Hc.
  assert (∀ v, fresh w q = Ok v → ∃ w', w' ∈ past ++ [w] ∧ fresh w' q = Ok v) as Hnow.
  { intros v Hv. exists w. rewrite elem_of_app, list_elem_of_singleton. auto. }
  assert (cache_ok (past ++ [w]) cache) as Hc'.
  { intros k v Hk. destruct (Hc k v Hk) as (w' & q' & Hw & H'). exists w', q'. rewrite elem_of_app. auto. }
  unfold serve. destruct (early w q) as [r|] eqn:He.
  { split; [done|]. simpl. intros v ->. apply Hnow. unfold fresh. by rewrite He. }
  unfold cached. destruct (if live then cache !! key q else None) as [v|] eqn:Hl.
  - simpl. split; [done|]. intros v' [= <-]. destruct live; [|done].
    destruct (Hc' _ _ Hl) as (w' & q' & Hw & Hgw & Hq' & Hk & Hv). exists w'. split; [done|].
    by rewrite (fresh_same w' q q').
  - assert (fresh w q = compute w q) as Hf by (unfold fresh; by rewrite He).
    destruct (compute w q) as [v|e] eqn:Hv; simpl; (split; [|intros v' Hv'; apply Hnow; congruence]); [|done].
    intros k v' Hk. destruct (decide (k = key q)) as [->|Hne].
    + rewrite lookup_insert_eq in Hk. injection Hk as <-. exists w, q. rewrite elem_of_app, list_elem_of_singleton. auto 6.
    + rewrite lookup_insert_ne in Hk by done. by apply Hc'.
Qed.

Lemma serve_all_ok requests : ∀ past cache i w live q v,
  Forall (λ r, good (fst (fst r)) ∧ allowed (snd r)) requests → cache_ok past cache →
  requests !! i = Some (w, live, q) → serve_all requests cache !! i = Some (Ok v) →
  ∃ w', (w' ∈ past ∨ w' ∈ map (fst ∘ fst) (take (S i) requests)) ∧ fresh w' q = Ok v.
Proof.
  induction requests as [|[[w0 l0] q0] requests IH]; intros past cache i w live q v Ha Hc Hi Hr; [done|].
  apply Forall_cons in Ha as [[Hg0 Ha0] Ha]. simpl in Hr, Hg0, Ha0.
  destruct (serve_ok past w0 l0 q0 cache Hg0 Ha0 Hc) as [Hc1 Hv1].
  destruct (serve w0 l0 q0 cache) as [r cache1]. simpl in *. destruct i as [|i]; simpl in *.
  - injection Hi as -> -> ->. injection Hr as ->. destruct (Hv1 v eq_refl) as (w' & Hw & Hv).
    exists w'. apply elem_of_app in Hw. rewrite list_elem_of_singleton in *. auto.
  - destruct (IH (past ++ [w0]) cache1 i w live q v Ha Hc1 Hi Hr) as (w' & Hw & Hv).
    exists w'. split; [|done]. rewrite elem_of_app, list_elem_of_singleton in Hw. rewrite elem_of_cons. tauto.
Qed.
End History.

(** ** The five cached endpoints *)

(** What a request reads besides its caller and its parameters. *)
Record World := { w_registry : AgentRegistry; w_profile : ObservationProfile; w_flagged : AgentId → bool }.

Inductive Endpoint := EOverview | ETree | ETeam | ELineage | EStats.

Definition Query (e : Endpoint) : Type :=
  match e with
  | EOverview => TopologyFilterParams
  | ETree => string * TreeParams
  | ETeam => string * TopologyFilterParams
  | ELineage => string
  | EStats => unit
  end.

Definition Answer (e : Endpoint) : Type :=
  match e with
  | EOverview => TopologyOverview
  | ETree => AgentTree
  | ETeam => TeamTopology
  | ELineage => AgentLineage
  | EStats => TopologyStats
  end.

(** An error is a problem, or that the walk to the root does not end within the fuel. *)
Definition Failure : Type := option ProblemDetail.

Definition lift {V} (r : result V ProblemDetail * gmap string V) : result V Failure * gmap string V :=
  (match fst r with Ok v => Ok v | Err p => Err (Some p) end, snd r).

Section Endpoints.
Context `{Formats} (fuel : nat).

Definition handle (e : Endpoint) (w : World) (live : bool) (q : AuthenticatedCaller * Query e)
  : gmap string (Answer e) → result (Answer e) Failure * gmap string (Answer e) :=
  match e return AuthenticatedCaller * Query e → gmap string (Answer e) → result (Answer e) Failure * gmap string (Answer e) with
  | EOverview => λ q cache, lift (get_overview (w_profile w) (w_flagged w) (w_registry w) live (fst q) (snd q) cache)
  | ETree => λ q cache,
      lift (get_tree (w_profile w) (w_flagged w) (w_registry w) live (fst q) (fst (snd q)) (snd (snd q)) cache)
  | ETeam => λ q cache,
      lift (get_team (w_profile w) (w_flagged w) (w_registry w) live (fst q) (fst (snd q)) (snd (snd q)) cache)
  | ELineage => λ q cache,
      match TopologyApi.get_lineage fuel (w_registry w) live (fst q) (snd q) cache with
      | Some r => lift r
      | None => (Err None, cache)
      end
  | EStats => λ q cache, lift (get_stats (w_registry w) live (fst q) cache)
  end q.

(** A sequence of requests to one endpoint, each in a world of its own. *)
Fixpoint handle_all (e : Endpoint) (requests : list (World * bool * (AuthenticatedCaller * Query e)))
    (cache : gmap string (Answer e)) : list (result (Answer e) Failure) :=
  match requests with
  | [] => []
  | (w, live, q) :: rest => let (r, cache') := handle e w live q cache in r :: handle_all e rest cache'
  end.

(** The answer without a cache. *)
Definition uncached (e : Endpoint) (w : World) (q : AuthenticatedCaller * Query e) : result (Answer e) Failure :=
  fst (handle e w false q ∅).

Definition key_of (e : Endpoint) : AuthenticatedCaller * Query e → string :=
  match e with
  | EOverview => λ q, overview_key (fst q) (snd q)
  | ETree => λ q, tree_key (fst q) (fst (snd q)) (snd (snd q))
  | ETeam => λ q, team_key (fst q) (fst (snd q)) (snd (snd q))
  | ELineage => λ q, lineage_key (fst q) (snd q)
  | EStats => λ q, stats_key (fst q)
  end.

(** What each handler decides before it looks into its cache. *)
Definition early_of (e : Endpoint) (w : World) : AuthenticatedCaller * Query e → option (result (Answer e) Failure) :=
  match e with
  | EOverview => λ q, if caller_has_no_tenant_scope (fst q) then Some (Ok overview_default) else None
  | ETree => λ q,
      match parse_agent_id (fst (snd q)) with
      | Err p => Some (Err (Some p))
      | Ok agent_id =>
          if caller_has_no_tenant_scope (fst q) then Some (fst (lift (agent_not_found (fst (snd q)), ∅)))
          else match get (w_registry w) agent_id with
               | Some record =>
                   if negb (record_visible_to (fst q) record) then Some (fst (lift (agent_not_found (fst (snd q)), ∅)))
                   else if 0 <? ar_depth record
                   then Some (Err (Some (problem 422 (String.append "Agent " (String.append (fst (snd q))
                          (String.append " is not a root agent (depth " (String.append (u32_text (ar_depth record)) ")")))))))
                   else None
               | None => Some (fst (lift (agent_not_found (fst (snd q)), ∅)))
               end
      end
  | ETeam => λ q,
      if negb (can_access_team (fst q) (fst (snd q)))
      then Some (Err (Some (problem 403 "Reading a team's topology requires admin scope or membership in that team")))
      else None
  | ELineage => λ q, if caller_has_no_tenant_scope (fst q) then Some (fst (lift (agent_not_found (snd q), ∅))) else None
  | EStats => λ q, None
  end.

(** What each handler puts into its cache. *)
Definition compute_of (e : Endpoint) (w : World) : AuthenticatedCaller * Query e → result (Answer e) Failure :=
  match e with
  | EOverview => λ q, Ok (overview_of (w_profile w) (w_flagged w) (w_registry w) (fst q) (snd q))
  | ETree => λ q,
      match parse_agent_id (fst (snd q)) with
      | Err p => Err (Some p)
      | Ok agent_id =>
          match build_tree (w_registry w) (fst q) (w_profile w) (w_flagged w) (tp_status (snd (snd q)))
                  (default false (tp_show_budget (snd (snd q)))) (Z.to_nat (tree_depth (snd (snd q)))) agent_id with
          | Some tree => Ok tree
          | None => fst (lift (agent_not_found (fst (snd q)), ∅))
          end
      end
  | ETeam => λ q,
      Ok (team_of_members (fst (snd q)) (map (node_of (w_profile w) (w_flagged w) (default false (fp_show_budget (snd (snd q)))))
            (team_members_shown (w_registry w) (fst q) (fst (snd q)) (snd (snd q)))))
  | ELineage => λ q,
      match parse_agent_id (snd q) with
      | Err p => Err (Some p)
      | Ok key =>
          match get (w_registry w) key with
          | None => fst (lift (agent_not_found (snd q), ∅))
          | Some record =>
              if negb (record_visible_to (fst q) record) then fst (lift (agent_not_found (snd q), ∅))
              else match ancestors_of fuel (w_registry w) key with
                   | None => Err None
                   | Some ids =>
                       let ancestors := map lineage_step (rev (visible_ancestors (w_registry w) (fst q) ids) ++ [record]) in
                       Ok {| al_agent_id := snd q; al_ancestor_count := Z.of_nat (List.length ancestors);
                             al_ancestors := ancestors |}
                   end
          end
      end
  | EStats => λ q, Ok (stats_of (w_registry w) (visible_records (w_registry w) (fst q)))
  end.

Lemma lift_cached {V} live key (cache : gmap string V) (r : result V ProblemDetail) :
  lift (cached live key cache r) = cached live key cache (fst (lift (r, cache))).
Proof.
  unfold cached, lift. destruct (if live then cache !! key else None); [done|]. simpl. by destruct r.
Qed.

Lemma handle_serve e w live q cache :
  handle e w live q cache = serve (key_of e) (compute_of e) (early_of e) w live q cache.
Proof.
  destruct e, q as [caller q]; simpl in *; unfold serve; simpl.
  - unfold get_overview. destruct (caller_has_no_tenant_scope caller); [done|]. by rewrite lift_cached.
  - unfold get_tree. destruct q as [root params]. simpl. destruct (parse_agent_id root) as [id|p]; simpl; [|done].
    destruct (caller_has_no_tenant_scope caller); [done|]. destruct (get (w_registry w) id) as [r|]; [|done].
    destruct (record_visible_to caller r); simpl; [|done]. destruct (0 <? ar_depth r); [done|].
    rewrite lift_cached. by destruct (build_tree _ _ _ _ _ _ _ _).
  - unfold get_team. destruct q as [team params]. simpl. destruct (can_access_team caller team); simpl; [|done].
    by rewrite lift_cached.
  - unfold TopologyApi.get_lineage. destruct (caller_has_no_tenant_scope caller); [done|].
    unfold cached. destruct (if live then cache !! lineage_key caller q else None) as [v|]; [done|].
    destruct (parse_agent_id q) as [key|p]; [|done]. destruct (get (w_registry w) key) as [r|]; [|done].
    destruct (record_visible_to caller r); simpl; [|done]. by destruct (ancestors_of fuel (w_registry w) key).
  - unfold get_stats. by rewrite lift_cached.
Qed.

Lemma uncached_fresh e w q : uncached e w q = fresh (compute_of e) (early_of e) w q.
Proof.
  unfold uncached, fresh. rewrite handle_serve. unfold serve, cached.
  destruct (early_of e w q); [done|]. by destruct (compute_of e w q).
Qed.

Lemma handle_all_serve e requests cache :
  handle_all e requests cache = serve_all (key_of e) (compute_of e) (early_of e) requests cache.
Proof.
  revert cache. induction requests as [|[[w live] q] requests IH]; intros cache; simpl; [done|].
  rewrite handle_serve. destruct (serve _ _ _ _ _ _ _). by rewrite IH.
Qed.
(** Numbers of the source's types: depths and limits are unsigned. *)
Definition world_ok (w : World) : Prop := ∀ k r, get (w_registry w) k = Some r → 0 ≤ ar_depth r ∧ ar_agent_id r = k.

Definition filter_ok (p : TopologyFilterParams) : Prop := 0 ≤ default 0 (fp_min_depth p).

Definition query_ok (e : Endpoint) : AuthenticatedCaller * Query e → Prop :=
  match e with
  | EOverview => λ q, filter_ok (snd q)
  | ETree => λ q, 0 ≤ tree_depth (snd (snd q))
  | ETeam => λ q, filter_ok (snd (snd q))
  | _ => λ _, True
  end.

Lemma filter_visible c c' l :
  same_tenant c c' → List.filter (record_visible_to c) l = List.filter (record_visible_to c') l.
Proof. intros H'. apply List.filter_ext. intros r. by apply same_tenant_visible. Qed.

Lemma passes_filter_eq p p' r :
  0 ≤ ar_depth r → filter_ok p → filter_ok p' → fp_status p = fp_status p' →
  default 0 (fp_min_depth p) = default 0 (fp_min_depth p') → passes_filter p r = passes_filter p' r.
Proof.
  unfold filter_ok, passes_filter. intros Hd Hp Hp' -> Hm. f_equal.
  destruct (fp_min_depth p) as [d|], (fp_min_depth p') as [d'|]; simpl in *; subst; try done;
    [|symmetry]; apply Z.leb_le; lia.
Qed.

Lemma list_records_get w r : world_ok w → r ∈ list_records (w_registry w) → get (w_registry w) (ar_agent_id r) = Some r.
Proof.
  intros Hw Hr. apply list_elem_of_fmap in Hr as ([k r'] & -> & Hk). apply elem_of_map_to_list in Hk.
  destruct (Hw k r' Hk) as [_ <-]. done.
Qed.

Lemma omap_get_depth w (ids : list AgentId) r : world_ok w → r ∈ omap (get (w_registry w)) ids → 0 ≤ ar_depth r.
Proof. intros Hw (k & _ & Hk)%list_elem_of_omap. by apply (Hw k). Qed.

Lemma build_tree_same g c c' pr fl sf sb n a :
  same_tenant c c' → build_tree g c pr fl sf sb n a = build_tree g c' pr fl sf sb n a.
Proof.
  intros Hs. revert a. induction n as [|n IH]; intros a; simpl; destruct (get g a) as [r|]; try done;
    rewrite (same_tenant_visible c c' r Hs); [done|].
  destruct (negb (record_visible_to c' r)); [done|]. destruct (negb _); [done|]. do 2 f_equal.
  by apply list_omap_ext, Forall2_same_length_lookup; split; [done|intros i x y -> [= ->]].
Qed.

Lemma visible_ancestors_same g c c' ids : same_tenant c c' → visible_ancestors g c ids = visible_ancestors g c' ids.
Proof.
  intros Hs. induction ids as [|i ids IH]; simpl; [done|]. destruct (get g i) as [r|]; [|done].
  by rewrite (same_tenant_visible c c' r Hs), IH.
Qed.

Lemma key_covers_compute e w q q' :
  world_ok w → query_ok e q → query_ok e q' → key_of e q = key_of e q' → compute_of e w q = compute_of e w q'.
Proof.
  intros Hw. destruct e, q as [c q], q' as [c' q']; simpl in *; intros Hq Hq' Hk; apply cache_key_inj in Hk; injection Hk.
  - intros Hb%bool_text_inj Hd%u32_text_inj Hs%opt_part_inj Ho%opt_part_inj Ht%tenant_tag_inj; [|done..].
    f_equal. unfold overview_of. rewrite Ho, Hb.
    assert (∀ l, (∀ r, r ∈ l → 0 ≤ ar_depth r) →
      List.filter (passes_filter q) (List.filter (record_visible_to c) l) =
      List.filter (passes_filter q') (List.filter (record_visible_to c') l)) as Hf.
    { intros l Hl. rewrite (filter_visible c c' l Ht). apply List.filter_ext_in. intros r [Hr _]%filter_In.
      apply passes_filter_eq; try done. by apply Hl, list_elem_of_In. }
    destruct (effective_org c' q'); rewrite Hf; try done.
    + intros r. by apply omap_get_depth.
    + intros r Hr%list_records_get; [|done]. by apply (Hw _ _ Hr).
  - destruct q as [root p], q' as [root' p']. simpl in *.
    intros Hb%bool_text_inj Hs%opt_part_inj Hd%u32_text_inj -> Ht%tenant_tag_inj; [|done..].
    destruct (parse_agent_id root') as [id|]; [|done]. by rewrite Hs, Hb, Hd, (build_tree_same _ c c').
  - destruct q as [team p], q' as [team' p']. simpl in *.
    intros Hb%bool_text_inj Hd%u32_text_inj Ho%opt_part_inj Hs%opt_part_inj -> Ht%tenant_tag_inj; [|done..].
    unfold team_members_shown. rewrite Hb, Ho, (filter_visible c c' _ Ht). do 3 f_equal.
    apply List.filter_ext_in. intros r [Hr _]%filter_In. f_equal. apply passes_filter_eq; try done.
    by eapply omap_get_depth, list_elem_of_In.
  - intros -> Ht%tenant_tag_inj. destruct (parse_agent_id q') as [key|]; [|done].
    destruct (get (w_registry w) key) as [r|]; [|done]. rewrite (same_tenant_visible c c' r Ht).
    destruct (negb _); [done|]. destruct (ancestors_of _ _ _) as [ids|]; [|done].
    by rewrite (visible_ancestors_same _ c c').
  - intros Ht%tenant_tag_inj. unfold visible_records. by rewrite (filter_visible c c').
Qed.
Lemma same_tenant_no_scope c c' : same_tenant c c' → caller_has_no_tenant_scope c = caller_has_no_tenant_scope c'.
Proof.
  intros [Ha Ht]. unfold caller_has_no_tenant_scope. rewrite <- Ha. destruct (is_admin c); [done|].
  destruct (Ht eq_refl) as [-> ->]. done.
Qed.

Lemma key_covers_early e w q q' : key_of e q = key_of e q' → early_of e w q = early_of e w q'.
Proof.
  destruct e, q as [c q], q' as [c' q']; simpl in *; intros Hk; try apply cache_key_inj in Hk; try injection Hk.
  - intros _ _ _ _ Ht%tenant_tag_inj. by rewrite (same_tenant_no_scope c c').
  - destruct q as [root p], q' as [root' p']. simpl in *. intros _ _ _ -> Ht%tenant_tag_inj.
    rewrite (same_tenant_no_scope c c') by done. destruct (parse_agent_id root') as [id|]; [|done].
    destruct (get (w_registry w) id) as [r|]; [|done]. by rewrite (same_tenant_visible c c' r Ht).
  - destruct q as [team p], q' as [team' p']. simpl in *. intros _ _ _ _ -> [Ha Ht]%tenant_tag_inj.
    unfold can_access_team. rewrite <- Ha. destruct (is_admin c); [done|]. destruct (Ht eq_refl) as [_ ->]. done.
  - intros -> Ht%tenant_tag_inj. by rewrite (same_tenant_no_scope c c').
  - done.
Qed.

Lemma handle_all_ok e requests i w live q v :
  Forall (λ r, world_ok (fst (fst r)) ∧ query_ok e (snd r)) requests →
  requests !! i = Some (w, live, q) → handle_all e requests ∅ !! i = Some (Ok v) →
  ∃ w', w' ∈ map (fst ∘ fst) (take (S i) requests) ∧ uncached e w' q = Ok v.
Proof.
  intros Hok Hi Hr. rewrite handle_all_serve in Hr.
  destruct (serve_all_ok (key_of e) (compute_of e) (early_of e) world_ok (query_ok e)) with (requests := requests)
    (past := [] : list World) (cache := ∅ : gmap string (Answer e)) (i := i) (w := w) (live := live) (q := q) (v := v)
    as (w' & [Hw|Hw] & Hv); try done.
  - intros w0 q0 q1 Hw Hq Hq' Hk. split; [by apply key_covers_early|by apply key_covers_compute].
  - by apply not_elem_of_nil in Hw.
  - exists w'. by rewrite uncached_fresh.
Qed.
End Endpoints.

(** ** What an answer shows *)

Inductive Facet :=
| FAgent (id name : string) (team : option string)
| FTeam (team : string).

Definition node_facet (n : AgentNode) : Facet := FAgent (an_id n) (an_name n) (an_team_id n).
Definition step_facet (s : LineageStep) : Facet := FAgent (ls_id s) (ls_name s) (ls_team_id s).

Fixpoint tree_facets (t : AgentTree) : list Facet :=
  match t with
  | Tree f children => FAgent (at_id f) (at_name f) (at_team_id f) :: flat_map tree_facets children
  end.

Definition facets (e : Endpoint) : Answer e → list Facet :=
  match e with
  | EOverview => λ v, map (FTeam ∘ ts_team_id) (ov_teams v) ++ map node_facet (ov_standalone_root_agents v)
  | ETree => tree_facets
  | ETeam => λ v, map node_facet (tt_members v)
  | ELineage => λ v, map step_facet (al_ancestors v)
  | EStats => λ v, map FTeam (elements (dom (ss_team_sizes v)))
  end.

(** A facet is of an agent of the registry the caller may see. *)
Definition of_visible (g : AgentRegistry) (caller : AuthenticatedCaller) (f : Facet) : Prop :=
  ∃ k r, get g k = Some r ∧ record_visible_to caller r = true ∧
    match f with
    | FAgent id name team => id = hex_id k ∧ name = ap_name (ar_profile r) ∧ team = ar_team_id r
    | FTeam team => team_of r = Some team
    end.

Section Confinement.
Context (w : World) (caller : AuthenticatedCaller) (Hw : world_ok w).
Abbreviation g := (w_registry w).

Definition visible_record (r : AgentRecord) : Prop := get g (ar_agent_id r) = Some r ∧ record_visible_to caller r = true.

Lemma visible_filter l r :
  (∀ r, r ∈ l → get g (ar_agent_id r) = Some r) → r ∈ List.filter (record_visible_to caller) l → visible_record r.
Proof. intros Hl [Hr Hv]%list_elem_of_In%filter_In. split; [|done]. by apply Hl, list_elem_of_In. Qed.

Lemma omap_get_key (ids : list AgentId) r : r ∈ omap (get g) ids → get g (ar_agent_id r) = Some r.
Proof. intros (k & _ & Hk)%list_elem_of_omap. by destruct (Hw k r Hk) as [_ ->]. Qed.

Lemma node_visible pr fl sb r : visible_record r → of_visible g caller (node_facet (node_of pr fl sb r)).
Proof. intros [Hr Hv]. by exists (ar_agent_id r), r. Qed.

Lemma step_visible r : visible_record r → of_visible g caller (step_facet (lineage_step r)).
Proof. intros [Hr Hv]. by exists (ar_agent_id r), r. Qed.

Lemma team_visible r t : visible_record r → team_of r = Some t → of_visible g caller (FTeam t).
Proof. intros [Hr Hv] Ht. by exists (ar_agent_id r), r. Qed.

Lemma tree_visible pr fl sf sb n : ∀ a t,
  build_tree g caller pr fl sf sb n a = Some t → ∀ f, f ∈ tree_facets t → of_visible g caller f.
Proof.
  assert (∀ a r cs, get g a = Some r → record_visible_to caller r = true →
    (∀ t, t ∈ cs → ∀ f, f ∈ tree_facets t → of_visible g caller f) →
    ∀ f, f ∈ tree_facets (Tree (tree_fields pr fl sb a r) cs) → of_visible g caller f) as Hnode.
  { intros a r cs Ha Hv Hcs f Hf. simpl in Hf. apply elem_of_cons in Hf as [->|Hf]; [by exists a, r|].
    apply list_elem_of_In, in_flat_map in Hf as (t & Ht & Hf). apply list_elem_of_In in Ht, Hf. by eapply Hcs. }
  induction n as [|n IH]; intros a t; simpl; destruct (get g a) as [r|] eqn:Ha; try done;
    destruct (record_visible_to caller r) eqn:Hv; try done; simpl; destruct (negb _); try done; intros [= <-];
    apply (Hnode a); try done.
  - intros t Ht. by apply not_elem_of_nil in Ht.
  - intros t (c & _ & Hc)%list_elem_of_omap. by eapply IH.
Qed.

Lemma visible_ancestors_ok ids r : r ∈ visible_ancestors g caller ids → visible_record r.
Proof.
  induction ids as [|i ids IH]; simpl; [by intros ?%not_elem_of_nil|].
  destruct (get g i) as [r'|] eqn:Hi; [|done]. destruct (record_visible_to caller r') eqn:Hv; [|by intros ?%not_elem_of_nil].
  intros [->|Hr]%elem_of_cons; [|by apply IH]. split; [|done]. by destruct (Hw i r' Hi) as [_ ->].
Qed.

(** The keys of a map counted over records are teams of those records. *)
Lemma count_team_keys l t p : foldl count_team ∅ l !! t = Some p → ∃ r, r ∈ l ∧ team_of r = Some t.
Proof.
  revert p. induction l as [|r l IH] using rev_ind; intros p; [done|]. rewrite foldl_app. simpl. unfold count_team at 1.
  setoid_rewrite elem_of_app. setoid_rewrite list_elem_of_singleton.
  destruct (team_of r) as [t'|] eqn:Ht; [|intros (r' & Hr & H')%IH; eauto].
  destruct (default _ _) as [a b]. destruct (decide (t' = t)) as [->|Hne]; [by eauto|].
  rewrite lookup_insert_ne by done. intros (r' & Hr & H')%IH. eauto.
Qed.

Lemma bump_team_keys l t p :
  foldl (λ m r, match team_of r with Some tid => bump tid m | None => m end) ∅ l !! t = Some p →
  ∃ r, r ∈ l ∧ team_of r = Some t.
Proof.
  revert p. induction l as [|r l IH] using rev_ind; intros p; [done|]. rewrite foldl_app. simpl.
  setoid_rewrite elem_of_app. setoid_rewrite list_elem_of_singleton.
  destruct (team_of r) as [t'|] eqn:Ht; [|intros (r' & Hr & H')%IH; eauto]. unfold bump at 1.
  destruct (decide (t' = t)) as [->|Hne]; [by eauto|].
  rewrite lookup_insert_ne by done. intros (r' & Hr & H')%IH. eauto.
Qed.

Lemma sub_visible P l r :
  (∀ r, r ∈ l → get g (ar_agent_id r) = Some r) →
  r ∈ List.filter P (List.filter (record_visible_to caller) l) → visible_record r.
Proof. intros Hl [Hr _]%list_elem_of_In%filter_In. apply list_elem_of_In in Hr. by eapply visible_filter. Qed.

Lemma overview_confined pr fl q f : f ∈ facets EOverview (overview_of pr fl g caller q) → of_visible g caller f.
Proof.
  simpl. set (all := match effective_org caller q with Some oid => _ | None => _ end).
  assert (∀ r, r ∈ all → get g (ar_agent_id r) = Some r) as Hall.
  { intros r Hr. subst all. destruct (effective_org caller q); [by eapply omap_get_key|by apply list_records_get]. }
  intros [Hf|Hf]%elem_of_app; apply list_elem_of_fmap in Hf as (x & -> & Hx); rewrite elem_of_stable_sort in Hx;
    apply list_elem_of_fmap in Hx as (y & -> & Hy).
  - destruct y as [t p]. apply elem_of_map_to_list, count_team_keys in Hy as (r & Hr & Ht).
    eapply team_visible; [|exact Ht]. by eapply sub_visible.
  - apply list_elem_of_In, filter_In in Hy as [Hy _]. apply list_elem_of_In in Hy. apply node_visible. by eapply sub_visible.
Qed.
End Confinement.

(** ** What an answer counts *)

(** The agents of the registry that are visible to the caller and of which [P] holds. *)
Definition tally (g : AgentRegistry) (caller : AuthenticatedCaller) (P : AgentId → AgentRecord → bool) : Z :=
  Z.of_nat (size (filter (λ kr, record_visible_to caller kr.2 && P kr.1 kr.2 = true) (rg_agents g))).

(** An entry of a histogram: present when it is not zero. *)
Definition positive_count (n : Z) : option Z := if n =? 0 then None else Some n.

Definition in_team (t : string) (r : AgentRecord) : bool := bool_decide (team_of r = Some t).
Definition at_root (r : AgentRecord) : bool := ar_depth r =? 0.

(** The agents an overview is asked for, and those a team's members are filtered to. *)
Definition overview_asks (g : AgentRegistry) (caller : AuthenticatedCaller) (p : TopologyFilterParams)
    (k : AgentId) (r : AgentRecord) : bool :=
  match effective_org caller p with Some oid => bool_decide (k ∈ org_members g oid) | None => true end && passes_filter p r.

Definition team_asks (g : AgentRegistry) (team : string) (p : TopologyFilterParams) (k : AgentId) (r : AgentRecord) : bool :=
  bool_decide (k ∈ team_members g team) && (passes_filter p r && confined_to (fp_org_id p) (ar_org_id r)).

(** Every number of the statistics is one of visible agents; the histogram of spawns, and the
    average made of it, count the visible agents by all their children, visible or not. *)
Definition stats_counted (g : AgentRegistry) (caller : AuthenticatedCaller) (v : TopologyStats) : Prop :=
  let agents P := tally g caller (λ _ r, P r) in
  ss_total_agents v = agents (λ _, true) ∧
  ss_root_agent_count v = agents at_root ∧
  ss_active_count v = agents (λ r, match ar_status r with Active => true | _ => false end) ∧
  ss_suspended_count v = agents (λ r, match ar_status r with Suspended _ => true | _ => false end) ∧
  ss_deregistered_count v = agents (λ r, match ar_status r with Deregistered => true | _ => false end) ∧
  ss_orphan_count v = agents (λ r, bool_decide (team_of r = None) && (0 <? ar_depth r)) ∧
  ((∀ k r, get g k = Some r → record_visible_to caller r = true → ar_depth r ≤ ss_max_depth v) ∧
   (ss_max_depth v = 0 ∨ ∃ k r, get g k = Some r ∧ record_visible_to caller r = true ∧ ss_max_depth v = ar_depth r)) ∧
  ss_team_count v = Z.of_nat (size (ss_team_sizes v)) ∧
  (∀ t, ss_team_sizes v !! t = positive_count (agents (in_team t))) ∧
  (∀ d, ss_depth_histogram v !! d = positive_count (agents (λ r, bool_decide (u32_text (ar_depth r) = d)))) ∧
  (∀ n, ss_team_size_histogram v !! n =
     positive_count (Z.of_nat (size (filter (λ tn, u32_text tn.2 = n) (ss_team_sizes v))))) ∧
  (∀ n, ss_spawn_count_histogram v !! n =
     positive_count (tally g caller (λ k _, bool_decide (u32_text (Z.of_nat (List.length (children_of g k))) = n)))) ∧
  ss_avg_children_per_parent v = average (child_counts (ss_spawn_count_histogram v)).

Definition counted (e : Endpoint) (g : AgentRegistry) (caller : AuthenticatedCaller) : Query e → Answer e → Prop :=
  match e with
  | EOverview => λ p v,
      let agents P := tally g caller (λ k r, overview_asks g caller p k r && P r) in
      ov_total_agent_count v = agents (λ _, true) ∧
      ov_root_agent_count v = agents at_root ∧
      ov_team_count v = Z.of_nat (List.length (ov_teams v)) ∧
      ∀ s, s ∈ ov_teams v →
        ts_agent_count s = agents (in_team (ts_team_id s)) ∧
        ts_root_agent_count s = agents (λ r, in_team (ts_team_id s) r && at_root r)
  | ETree => λ _ _, True
  | ETeam => λ q v,
      tt_agent_count v = tally g caller (team_asks g (fst q) (snd q)) ∧ tt_agent_count v = Z.of_nat (List.length (tt_members v))
  | ELineage => λ _ v, al_ancestor_count v = Z.of_nat (List.length (al_ancestors v))
  | EStats => λ _ v, stats_counted g caller v
  end.

Lemma length_stable_sort {A} (leb : A → A → bool) l : List.length (stable_sort leb l) = List.length l.
Proof.
  assert (∀ x l, List.length (insert_sorted leb x l) = S (List.length l)) as Hi.
  { intros x k. induction k as [|y k IH]; simpl; [done|]. destruct (leb x y); simpl; congruence. }
  unfold stable_sort. induction l as [|x l IH]; simpl; [done|]. by rewrite Hi, IH.
Qed.

Section Counting.
Context (w : World) (caller : AuthenticatedCaller) (Hw : world_ok w).
Abbreviation g := (w_registry w).

(** A list without repetitions of exactly the agents a tally counts. *)
Lemma tally_length P l :
  NoDup l →
  (∀ r, r ∈ l ↔ get g (ar_agent_id r) = Some r ∧ record_visible_to caller r = true ∧ P (ar_agent_id r) r = true) →
  Z.of_nat (List.length l) = tally g caller P.
Proof.
  intros Hnd Hl. unfold tally. f_equal. rewrite <- length_map_to_list, <- (length_fmap snd). apply Permutation_length.
  apply NoDup_Permutation; [done| |].
  - apply NoDup_fmap_2_strong; [|apply NoDup_map_to_list].
    intros [k r] [k' r'] [Hk _]%elem_of_map_to_list%map_lookup_filter_Some [Hk' _]%elem_of_map_to_list%map_lookup_filter_Some.
    simpl. intros ->. destruct (Hw k r' Hk) as [_ <-], (Hw k' r' Hk') as [_ <-]. done.
  - intros r. rewrite Hl, list_elem_of_fmap. split.
    + intros (Hr & Hv & HP). exists (ar_agent_id r, r). split; [done|].
      apply elem_of_map_to_list, map_lookup_filter_Some. simpl. by rewrite Hv, HP.
    + intros ([k r'] & -> & [Hk Hp]%elem_of_map_to_list%map_lookup_filter_Some). simpl in *.
      destruct (Hw k r' Hk) as [_ <-]. by apply andb_true_iff in Hp.
Qed.

Lemma list_filter_elem {A} (P : A → bool) l x : x ∈ List.filter P l ↔ x ∈ l ∧ P x = true.
Proof. by rewrite !list_elem_of_In, filter_In. Qed.

Lemma list_filter_NoDup {A} (P : A → bool) (l : list A) : NoDup l → NoDup (List.filter P l).
Proof. rewrite !NoDup_ListNoDup. apply List.NoDup_filter. Qed.

Lemma list_records_NoDup : NoDup (list_records g).
Proof.
  apply NoDup_fmap_2_strong; [|apply NoDup_map_to_list]. intros [k r] [k' r'] Hk%elem_of_map_to_list Hk'%elem_of_map_to_list.
  simpl. intros ->. destruct (Hw k r' Hk) as [_ <-], (Hw k' r' Hk') as [_ <-]. done.
Qed.

Lemma list_records_elem r : r ∈ list_records g ↔ get g (ar_agent_id r) = Some r.
Proof.
  split; [by apply list_records_get|]. intros Hr. apply list_elem_of_fmap. exists (ar_agent_id r, r).
  by rewrite elem_of_map_to_list.
Qed.

Lemma members_elem (ids : gset AgentId) r : r ∈ omap (get g) (elements ids) ↔ get g (ar_agent_id r) = Some r ∧ ar_agent_id r ∈ ids.
Proof.
  rewrite list_elem_of_omap. setoid_rewrite elem_of_elements. split.
  - intros (k & Hk & Hr). by destruct (Hw k r Hr) as [_ ->].
  - intros [Hr Hk]. by exists (ar_agent_id r).
Qed.

Lemma members_NoDup (ids : gset AgentId) : NoDup (omap (get g) (elements ids)).
Proof.
  pose proof (NoDup_elements ids) as Hnd. induction Hnd as [|k l Hk Hnd IH]; simpl; [constructor|].
  destruct (get g k) as [r|] eqn:Hr; [|done]. constructor; [|done].
  intros (k' & Hk' & Hr')%list_elem_of_omap. destruct (Hw k r Hr) as [_ <-], (Hw k' r Hr') as [_ <-]. done.
Qed.

(** A map filled by steps that each add one to at most one key counts. *)
Lemma counts_lookup {A} (key : A → option string) (step : gmap string Z → A → gmap string Z) :
  (∀ m r, step m r = match key r with Some k => bump k m | None => m end) →
  ∀ l k, foldl step ∅ l !! k = positive_count (Z.of_nat (List.length (List.filter (λ r, bool_decide (key r = Some k)) l))).
Proof.
  intros Hs l k. induction l as [|r l IH] using rev_ind; [done|].
  rewrite foldl_app, List.filter_app, length_app. simpl. rewrite Hs. destruct (key r) as [k'|]; [|by rewrite Nat.add_0_r].
  unfold bump. case_bool_decide as Hk; [injection Hk as ->|].
  - rewrite lookup_insert_eq, IH. unfold positive_count. simpl. generalize (List.length (List.filter (λ r, bool_decide (key r = Some k)) l)) as n.
    intros n. destruct (Z.eqb_spec (Z.of_nat n) 0), (Z.eqb_spec (Z.of_nat (n + 1)) 0); simpl; try lia; f_equal; lia.
  - rewrite lookup_insert_ne by congruence. by rewrite Nat.add_0_r.
Qed.

Lemma tally_filter P (l : list AgentRecord) (asked : AgentId → AgentRecord → bool) :
  NoDup l →
  (∀ r, r ∈ l ↔ get g (ar_agent_id r) = Some r ∧ record_visible_to caller r = true ∧ asked (ar_agent_id r) r = true) →
  Z.of_nat (List.length (List.filter P l)) = tally g caller (λ k r, asked k r && P r).
Proof.
  intros Hnd Hl. apply tally_length; [by apply list_filter_NoDup|].
  intros r. rewrite list_filter_elem, Hl, andb_true_iff. tauto.
Qed.

Lemma tally_ext P P' : (∀ k r, P k r = P' k r) → tally g caller P = tally g caller P'.
Proof.
  intros HP. unfold tally. do 2 f_equal. apply map_filter_ext. intros k r _. simpl. by rewrite HP.
Qed.

Lemma tally_none P : (∀ r, record_visible_to caller r = false) → tally g caller P = 0.
Proof.
  intros Hn. rewrite <- (tally_length P []); [done|constructor|]. intros r. rewrite elem_of_nil, Hn. split; [done|by intros (_ & ? & _)].
Qed.

Lemma filter_all {A} (l : list A) : List.filter (λ _, true) l = l.
Proof. induction l as [|x l IH]; simpl; congruence. Qed.

(** The agents and roots counted for a team are those of the list. *)
Lemma count_team_lookup l t p :
  foldl count_team ∅ l !! t = Some p →
  p = (count_if (in_team t) l, count_if (λ r, in_team t r && at_root r) l).
Proof.
  assert (∀ l, default (0, 0) (foldl count_team ∅ l !! t) = (count_if (in_team t) l, count_if (λ r, in_team t r && at_root r) l)) as Hd;
    [|intros Hp; specialize (Hd l); by rewrite Hp in Hd].
  clear p l. intros l. induction l as [|r l IH] using rev_ind; [done|]. rewrite foldl_app. simpl. unfold count_team at 1, count_if.
  rewrite !List.filter_app, !length_app. simpl. unfold count_if in IH.
  assert (in_team t r = bool_decide (team_of r = Some t)) as -> by done.
  destruct (team_of r) as [t'|]; [|rewrite bool_decide_false by done; simpl; by rewrite !Nat.add_0_r].
  destruct (decide (t' = t)) as [->|Hne].
  - rewrite IH, lookup_insert_eq, bool_decide_true by done. simpl. f_equal; [lia|].
    unfold at_root. destruct (ar_depth r =? 0); simpl; lia.
  - destruct (default (0, 0) (_ !! t')) as [a b]. rewrite lookup_insert_ne, bool_decide_false by congruence.
    simpl. by rewrite !Nat.add_0_r.
Qed.

Lemma visible_list_elem (P : AgentRecord → bool) l r :
  (r ∈ List.filter P (List.filter (record_visible_to caller) l)) ↔ r ∈ l ∧ record_visible_to caller r = true ∧ P r = true.
Proof. rewrite !list_filter_elem. tauto. Qed.

Lemma overview_counted pr fl p : counted EOverview g caller p (overview_of pr fl g caller p).
Proof.
  simpl. set (all := match effective_org caller p with Some oid => _ | None => _ end).
  set (l := List.filter (passes_filter p) (List.filter (record_visible_to caller) all)).
  assert (NoDup l) as Hnd.
  { do 2 apply list_filter_NoDup. subst all. destruct (effective_org caller p); [apply members_NoDup|apply list_records_NoDup]. }
  assert (∀ r, r ∈ l ↔ get g (ar_agent_id r) = Some r ∧ record_visible_to caller r = true ∧
                         overview_asks g caller p (ar_agent_id r) r = true) as Hl.
  { intros r. subst l all. rewrite visible_list_elem. unfold overview_asks.
    destruct (effective_org caller p); rewrite ?members_elem, ?list_records_elem, ?andb_true_iff, ?bool_decide_eq_true; tauto. }
  split; [rewrite <- (filter_all l); by apply tally_filter|]. split; [by apply tally_filter|].
  rewrite length_stable_sort, length_map, length_map_to_list. split; [done|].
  intros s Hs. apply elem_of_stable_sort, list_elem_of_fmap in Hs as ([t c] & -> & Hc%elem_of_map_to_list%count_team_lookup).
  simpl. subst c. split; by apply tally_filter.
Qed.

Lemma team_counted pr fl q :
  counted ETeam g caller q (team_of_members (fst q) (map (node_of pr fl (default false (fp_show_budget (snd q))))
    (team_members_shown g caller (fst q) (snd q)))).
Proof.
  simpl. split; [|done]. rewrite length_stable_sort, length_map. apply tally_length.
  - do 2 apply list_filter_NoDup. apply members_NoDup.
  - intros r. unfold team_members_shown, team_asks.
    rewrite visible_list_elem, members_elem, !andb_true_iff, bool_decide_eq_true. tauto.
Qed.

(** The values of a map with a text, in the list of all of them. *)
Lemma size_values (m : gmap string Z) n :
  size (filter (λ tn, u32_text tn.2 = n) m) =
  List.length (List.filter (λ s, bool_decide (Some (u32_text s) = Some n)) (map_to_list m).*2).
Proof.
  rewrite <- length_map_to_list, map_filter_alt, map_to_list_to_map.
  2: { apply (NoDup_fmap_2_strong fst).
       - intros [t s] [t' s'] [_ Ht]%list_elem_of_filter [_ Ht']%list_elem_of_filter. apply elem_of_map_to_list in Ht, Ht'.
         simpl. intros ->. congruence.
       - eapply sublist_NoDup; [apply NoDup_map_to_list|apply sublist_filter]. }
  induction (map_to_list m) as [|[t s] l IH]; [done|]. rewrite filter_cons. simpl.
  case_decide as Hs; case_bool_decide as Hs'; simpl; try congruence; by rewrite IH.
Qed.

Lemma max_depth_spec l :
  let m := foldl (λ m r, if m <? ar_depth r then ar_depth r else m) 0 l in
  (∀ r, r ∈ l → ar_depth r ≤ m) ∧ (m = 0 ∨ ∃ r, r ∈ l ∧ m = ar_depth r).
Proof.
  induction l as [|r l [IH IH']] using rev_ind; simpl; [split; [by intros r ?%not_elem_of_nil|by left]|].
  rewrite foldl_app. simpl. setoid_rewrite elem_of_app. setoid_rewrite list_elem_of_singleton. split.
  - intros r' [Hr| ->]; [specialize (IH r' Hr)|]; destruct (Z.ltb_spec (foldl (λ m r, if m <? ar_depth r then ar_depth r else m) 0 l) (ar_depth r)); lia.
  - destruct (_ <? ar_depth r); [right; eauto|]. destruct IH' as [?|(r' & ? & ?)]; eauto.
Qed.

Lemma stats_are_counted : stats_counted g caller (stats_of g (visible_records g caller)).
Proof.
  set (l := visible_records g caller).
  assert (NoDup l) as Hnd by (apply list_filter_NoDup, list_records_NoDup).
  assert (∀ r, r ∈ l ↔ get g (ar_agent_id r) = Some r ∧ record_visible_to caller r = true ∧ true = true) as Hl.
  { intros r. subst l. unfold visible_records. rewrite list_filter_elem, list_records_elem. tauto. }
  assert (∀ P, Z.of_nat (List.length (List.filter P l)) = tally g caller (λ _ r, P r)) as Hc.
  { intros P. rewrite (tally_filter P l (λ _ _, true)) by done. by apply tally_ext. }
  unfold stats_counted. simpl. split_and!; try apply Hc; try done.
  - rewrite <- (filter_all l). apply Hc.
  - intros k r Hk Hv. apply max_depth_spec, Hl. by destruct (Hw k r Hk) as [_ ->].
  - destruct (proj2 (max_depth_spec l)) as [?|(r & (? & ? & _)%Hl & ?)]; [by left|right; eauto].
  - intros t. rewrite (counts_lookup team_of) by done. f_equal. apply Hc.
  - intros d. rewrite (counts_lookup (λ r, Some (u32_text (ar_depth r)))) by done. f_equal. rewrite <- Hc. f_equal.
    f_equal. apply List.filter_ext. intros r. apply bool_decide_ext. split; congruence.
  - intros n. rewrite (counts_lookup (λ s, Some (u32_text s))) by done. f_equal. f_equal. symmetry. apply size_values.
  - intros n. rewrite (counts_lookup (λ r, Some (u32_text (Z.of_nat (List.length (children_of g (ar_agent_id r))))))) by done.
    f_equal. rewrite (tally_length (λ k _, bool_decide (u32_text (Z.of_nat (List.length (children_of g k))) = n)))
      with (l := List.filter (λ r, bool_decide (Some (u32_text (Z.of_nat (List.length (children_of g (ar_agent_id r))))) = Some n)) l).
    + done.
    + by apply list_filter_NoDup.
    + intros r. rewrite list_filter_elem, Hl, !bool_decide_eq_true. intuition congruence.
Qed.
End Counting.

Lemma uncached_confined `{Formats} fuel e w caller q v :
  world_ok w → uncached fuel e w (caller, q) = Ok v → ∀ f, f ∈ facets e v → of_visible (w_registry w) caller f.
Proof.
  intros Hw. rewrite uncached_fresh. unfold fresh. destruct e; simpl in *.
  - destruct (caller_has_no_tenant_scope caller); intros [= <-] f Hf; [by apply not_elem_of_nil in Hf|].
    by eapply overview_confined.
  - destruct q as [root p]. simpl. destruct (parse_agent_id root) as [id|]; [|done].
    destruct (caller_has_no_tenant_scope caller); [done|]. destruct (get _ id) as [r|]; [|done].
    destruct (negb _); [done|]. destruct (0 <? _); [done|].
    destruct (build_tree _ _ _ _ _ _ _ _) as [t|] eqn:Ht; [|done]. intros [= <-]. by eapply tree_visible.
  - destruct q as [team p]. simpl. destruct (negb _); [done|]. intros [= <-] f Hf. simpl in Hf.
    apply list_elem_of_fmap in Hf as (x & -> & Hx). rewrite elem_of_stable_sort in Hx.
    apply list_elem_of_fmap in Hx as (r & -> & Hr). apply node_visible. eapply sub_visible; [|exact Hr].
    intros r'. by apply omap_get_key.
  - destruct (caller_has_no_tenant_scope caller); [done|]. destruct (parse_agent_id q) as [key|]; [|done].
    destruct (get _ key) as [r|] eqn:Hr; [|done]. destruct (record_visible_to caller r) eqn:Hv; [|done]. simpl.
    destruct (ancestors_of _ _ _) as [ids|]; [|done]. intros [= <-] f Hf. simpl in Hf.
    apply list_elem_of_fmap in Hf as (x & -> & Hx). apply list_elem_of_fmap in Hx as (r' & -> & Hr').
    apply step_visible. apply elem_of_app in Hr' as [Hr'| ->%list_elem_of_singleton].
    + rewrite elem_of_rev in Hr'. eapply visible_ancestors_ok; [done|exact Hr'].
    + split; [|done]. by destruct (Hw key r Hr) as [_ ->].
  - intros [= <-] f Hf. simpl in Hf. apply list_elem_of_fmap in Hf as (t & -> & Ht).
    apply elem_of_elements, elem_of_dom in Ht as [p Hp]. apply bump_team_keys in Hp as (r & Hr & Ht).
    eapply team_visible; [|exact Ht]. eapply visible_filter; [|exact Hr]. intros r'. by apply list_records_get.
Qed.

Lemma uncached_counted `{Formats} fuel e w caller q v :
  world_ok w → uncached fuel e w (caller, q) = Ok v → counted e (w_registry w) caller q v.
Proof.
  intros Hw. rewrite uncached_fresh. unfold fresh. destruct e; simpl in *.
  - destruct (caller_has_no_tenant_scope caller) eqn:Hn; intros [= <-]; [|by apply overview_counted].
    assert (∀ r, record_visible_to caller r = false) as Hv.
    { intros r. unfold caller_has_no_tenant_scope, record_visible_to in *. by destruct (is_admin caller), (bool_decide _), (bool_decide _). }
    rewrite !tally_none by done. split_and!; [done..|]. by intros s ?%not_elem_of_nil.
  - done.
  - destruct (negb _); [done|]. intros [= <-]. by apply team_counted.
  - destruct (caller_has_no_tenant_scope caller); [done|]. destruct (parse_agent_id q) as [key|]; [|done].
    destruct (get _ key) as [r|]; [|done]. destruct (negb _); [done|].
    destruct (ancestors_of _ _ _) as [ids|]; [|done]. by intros [= <-].
  - intros [= <-]. by apply stats_are_counted.
Qed.

(** ** The graph *)

(** A graph shows the visible agents, each once, and edges between two of them only. *)
Definition graph_of_visible (g : AgentRegistry) (caller : AuthenticatedCaller) (v : TopologyGraphResponse) : Prop :=
  (∀ n, n ∈ tg_nodes v → of_visible g caller (node_facet n)) ∧
  Z.of_nat (List.length (tg_nodes v)) = tally g caller (λ _ _, true) ∧
  ∀ x, x ∈ tg_edges v → ∃ k k' r r', get g k = Some r ∧ get g k' = Some r' ∧
    record_visible_to caller r = true ∧ record_visible_to caller r' = true ∧ ge_source x = hex_id k ∧ ge_target x = hex_id k'.

Section Graph.
Context `{JsonLib, Formats, UuidLib, ChronoLib, DecimalLib, Detection.Detectors}.
Context {S : Type} `{!EdgeRepo json_value S}.
Context (en : Engine) (budgets : Config) (ledger : Ledger) (edges : S).

Lemma graph_edges_between st (teams : gmap AgentId (option string)) types shown x :
  collect_graph_edges (S := S) st teams types = Ok shown → x ∈ shown →
  ∃ k k', k ∈ dom teams ∧ k' ∈ dom teams ∧ ge_source x = hex_id k ∧ ge_target x = hex_id k'.
Proof.
  revert shown. induction types as [|et types IH]; intros shown; simpl; [intros [= <-] ?%not_elem_of_nil; done|].
  destruct (or_500 _ _) as [batch|]; [|done]. simpl. destruct (collect_graph_edges _ _ _) as [more|]; [|done]. simpl.
  intros [= <-] [(edge & _ & He)%list_elem_of_omap|Hx]%elem_of_app; [|by eapply IH].
  unfold graph_edge in He. destruct (teams !! e_source edge) eqn:Hs; [|done]. destruct (teams !! e_target edge) eqn:Ht; [|done].
  injection He as <-. exists (e_source edge), (e_target edge). rewrite !elem_of_dom. eauto.
Qed.

Lemma graph_confined w caller v :
  world_ok w →
  get_topology_graph en (w_profile w) (w_flagged w) budgets ledger {| st_registry := w_registry w; st_edges := edges |} caller = Ok v →
  graph_of_visible (w_registry w) caller v.
Proof.
  intros Hw. unfold get_topology_graph, graph_of_visible. destruct (caller_has_no_tenant_scope caller) eqn:Hn.
  { intros [= <-]. simpl. rewrite tally_none; [|done|].
    - split; [by intros n ?%not_elem_of_nil|]. split; [done|]. by intros x ?%not_elem_of_nil.
    - intros r. unfold caller_has_no_tenant_scope, record_visible_to in *. by destruct (is_admin caller), (bool_decide _), (bool_decide _). }
  cbn [st_registry]. assert (∀ r, r ∈ visible_records (w_registry w) caller ↔ get (w_registry w) (ar_agent_id r) = Some r ∧ record_visible_to caller r = true) as Hl.
  { intros r. unfold visible_records. by rewrite list_filter_elem, list_records_elem. }
  match goal with |- context [collect_graph_edges ?st ?teams ?types] =>
    destruct (collect_graph_edges st teams types) as [shown|] eqn:He; [|done] end.
  intros [= <-]. simpl. split_and!.
  - intros n Hx. apply elem_of_stable_sort, list_elem_of_fmap in Hx as (r & -> & [Hr Hv]%Hl). by exists (ar_agent_id r), r.
  - unfold project_graph_nodes. rewrite length_stable_sort, length_map. apply tally_length; [done|by apply list_filter_NoDup, list_records_NoDup|].
    intros r. rewrite Hl. tauto.
  - intros x Hx. destruct (graph_edges_between _ _ _ _ _ He Hx) as (k & k' & Hk & Hk' & Hs & Ht).
    rewrite dom_list_to_map_L, elem_of_list_to_set, <- list_fmap_compose, list_elem_of_fmap in Hk, Hk'.
    destruct Hk as (r & -> & [Hr Hv]%Hl), Hk' as (r' & -> & [Hr' Hv']%Hl). by exists (ar_agent_id r), (ar_agent_id r'), r, r'.
Qed.
End Graph.


(** ** Two tenants *)

Module Demo.
Definition world : World := {| w_registry := ApiDemo.registry; w_profile := Standard; w_flagged := λ _, false |}.

Lemma world_fine : world_ok world.
Proof.
  intros k r Hk. assert (k = 1%N ∨ k = 2%N ∨ k = 3%N) as Hcases.
  { assert (k ∈ dom ApiDemo.agents) as Hd by (apply elem_of_dom; eauto). unfold ApiDemo.agents in Hd. set_solver. }
  destruct Hcases as [->|[->| ->]]; vm_compute in Hk; injection Hk as <-; done.
Qed.

Definition tree_request : AuthenticatedCaller * Query ETree :=
  (ApiDemo.caller (Some "alpha") None, ("1", {| tp_depth := None; tp_status := None; tp_show_budget := None |})).
End Demo.


(** The statistics of a team that sees one agent show that the agent has a child, which is of
    another team: deregistering the child changes the histogram and no agent the team sees. *)
Lemma hidden_child_is_counted :
  let caller := ApiDemo.caller (Some "alpha") (Some "acme") in
  let stats g := stats_of g (visible_records g caller) in
  record_visible_to caller (ApiDemo.agent 2%N "helper" (Some "beta") (Some "acme") 1 (Some 1%N) []) = false ∧
  ss_total_agents (stats ApiDemo.registry) = 1 ∧
  ss_spawn_count_histogram (stats ApiDemo.registry) !! "1" = Some 1 ∧
  option_map (λ p, (ss_total_agents (stats (fst p)), ss_spawn_count_histogram (stats (fst p)) !! "1"))
    (@deregister binary_uuid 4 ApiDemo.registry 2%N Orphan.Suspend) = Some (1, None).
Proof. vm_compute. done. Qed.

(** ** The permissions a node shows are the ones the gateway enforces *)

Lemma capability_display_inj c c' : capability_display c = capability_display c' → c = c'.
Proof. destruct c, c'; simpl; intros Heq; try done; simplify_eq; done. Qed.

Lemma elem_of_displays c (l : list Capability) : capability_display c ∈ map capability_display l ↔ c ∈ l.
Proof.
  rewrite list_elem_of_fmap. split; [intros (c' & ->%capability_display_inj & Hc'); done|]. intros Hc. by exists c.
Qed.

Section Projection.
Context (record : AgentRecord) (cascade : list PolicyDocument).
Abbreviation merged := (collect_merged_capabilities cascade).
Abbreviation egress := (cascade_denies_all_egress cascade).

(** The tools a node can speak about: the agent's, and those a policy names. *)
Definition known (c : Capability) : Prop :=
  match c with McpTool name => name ∈ agent_tool_ids record merged cascade | _ => True end.

Lemma denied_texts_spec c :
  known c → capability_display c ∈ denied_texts record cascade ↔ cascade_denies cascade merged egress c = true.
Proof.
  intros Hk. unfold denied_texts. rewrite !elem_of_union, !elem_of_list_to_set, elem_of_displays, elem_of_elements.
  assert (Htool : capability_display c ∈ map (λ tool, capability_display (McpTool tool))
      (List.filter (cascade_denies_tool cascade) (elements (agent_tool_ids record merged cascade))) ↔
    match c with McpTool tool => cascade_denies_tool cascade tool = true | _ => False end).
  { rewrite list_elem_of_fmap. setoid_rewrite list_elem_of_In. setoid_rewrite filter_In.
    setoid_rewrite <- list_elem_of_In. setoid_rewrite elem_of_elements. split.
    - by intros (tool & ->%capability_display_inj & _ & Ht).
    - destruct c; try done. intros Ht. by exists name. }
  rewrite Htool.
  assert (Hc : ∀ (b : bool) c', capability_display c ∈ (if b then {[capability_display c']} else ∅ : gset string) ↔ b = true ∧ c = c').
  { intros b c'. destruct b; [rewrite elem_of_singleton|set_solver].
    split; [intros ?%capability_display_inj; done|]. by intros [_ ->]. }
  rewrite !Hc. unfold cascade_denies, capability_is_denied, set_contains.
  destruct c; simpl in *; repeat case_bool_decide; try destruct egress; try destruct (cascade_denies_tool cascade name) eqn:E;
    intuition congruence.
Qed.

Lemma allowed_texts_spec c :
  capability_display c ∈ allowed_texts cascade ↔ c ∈ cs_allow merged ∧ cascade_denies cascade merged egress c = false.
Proof.
  unfold allowed_texts. rewrite elem_of_stable_sort, elem_of_displays, list_elem_of_In, filter_In, <- list_elem_of_In,
    elem_of_elements. by rewrite negb_true_iff.
Qed.
End Projection.

Section Mirror.
Context `{UuidLib}.

(** How the panel reads: denied, or not among the only things allowed. *)
Definition shown_refused (p : NodeEffectivePermissions) (c : Capability) : Prop :=
  capability_display c ∈ np_deny p ∨
  (np_allow_restricted p = true ∧ capability_display c ∉ np_allow p).

(** What the gateway refuses whatever the host and the condition of an approval: the tool
    stage of a document, a document without any host, the guard of the merged set. *)
Definition refused_outright (cascade : list PolicyDocument) (a : GovernanceAction) : Prop :=
  (∃ doc, doc ∈ cascade ∧ is_Some (stage_tool_allow doc a)) ∨
  (∃ url method doc np, a = NetworkRequest url method ∧ doc ∈ cascade ∧ pd_network doc = Some np ∧ np_allowlist np = []) ∨
  is_Some (cascade_capability_guard cascade a).

Lemma no_host_is_refused doc np url method :
  pd_network doc = Some np → np_allowlist np = [] → is_Some (stage_network doc (NetworkRequest url method)).
Proof.
  intros Hnp Hl. simpl. rewrite Hnp. unfold network_request_url_allowed. rewrite Hl.
  destruct (egress_host_from_url url); by eexists.
Qed.

Lemma tool_stage_spec cascade name args :
  (∃ doc, doc ∈ cascade ∧ is_Some (stage_tool_allow doc (ToolCall name args))) ↔ cascade_denies_tool cascade name = true.
Proof.
  unfold cascade_denies_tool. rewrite existsb_exists. setoid_rewrite <- list_elem_of_In.
  apply exist_proper. intros doc. apply and_iff_compat_l. simpl. unfold tool_policy_for. change TOOL_WILDCARD with "*".
  destruct (match pd_tools doc !! name with Some tp => Some tp | None => _ end) as [tp|]; [|by split; [intros []|]].
  destruct (tp_allow tp); simpl; (split; [first [done|by intros []]|first [done|by eexists]]).
Qed.

Lemma egress_spec cascade :
  cascade_denies_all_egress cascade = true ↔ ∃ doc np, doc ∈ cascade ∧ pd_network doc = Some np ∧ np_allowlist np = [].
Proof.
  unfold cascade_denies_all_egress. rewrite existsb_exists. setoid_rewrite <- list_elem_of_In. split.
  - intros (doc & Hdoc & Hd). destruct (pd_network doc) as [np|] eqn:En; [|done].
    exists doc, np. split; [done|]. split; [done|]. by destruct (np_allowlist np).
  - intros (doc & np & Hdoc & En & El). exists doc. split; [done|]. by rewrite En, El.
Qed.

Lemma guard_spec cascade a c :
  action_to_capability a = Some c →
  is_Some (cascade_capability_guard cascade a) ↔
    capability_is_denied (cs_deny (collect_merged_capabilities cascade)) c = true ∨
    (allow_is_restricted (collect_merged_capabilities cascade) = true ∧ c ∉ cs_allow (collect_merged_capabilities cascade)).
Proof.
  intros Hc. unfold cascade_capability_guard, capability_guard. rewrite Hc.
  destruct (capability_is_denied _ c); [split; [by left|by eexists]|].
  unfold set_contains. destruct (allow_is_restricted _); case_bool_decide; simpl;
    (split; [first [by intros []|by right]|first [by intros [|[? ?]]|by eexists]]).
Qed.

Lemma denies_spec cascade a c :
  action_to_capability a = Some c → (∀ name result, a ≠ ToolResult name result) →
  cascade_denies cascade (collect_merged_capabilities cascade) (cascade_denies_all_egress cascade) c = true ↔
  (∃ doc, doc ∈ cascade ∧ is_Some (stage_tool_allow doc a)) ∨
  (∃ url method doc np, a = NetworkRequest url method ∧ doc ∈ cascade ∧ pd_network doc = Some np ∧ np_allowlist np = []) ∨
  capability_is_denied (cs_deny (collect_merged_capabilities cascade)) c = true.
Proof.
  intros Hc Hres.
  assert (Hnet : (∃ url method doc np, a = NetworkRequest url method ∧ doc ∈ cascade ∧ pd_network doc = Some np ∧ np_allowlist np = []) ↔
    (∃ url method, a = NetworkRequest url method) ∧ cascade_denies_all_egress cascade = true) by (rewrite egress_spec; naive_solver).
  rewrite Hnet. assert (Htool : (∃ doc, doc ∈ cascade ∧ is_Some (stage_tool_allow doc a)) ↔
    ∃ name args, a = ToolCall name args ∧ cascade_denies_tool cascade name = true).
  { destruct a; try (split; [intros (doc & _ & []); done|naive_solver]). rewrite tool_stage_spec. naive_solver. }
  rewrite Htool. unfold cascade_denies. destruct a as [name args|name result|path []|url method|cmd|]; simpl in Hc; simplify_eq;
    try (split; [by right; right|intros [(? & ? & ? & _)|[[(? & ? & ?) _]|?]]; done]).
  - destruct (cascade_denies_tool cascade name) eqn:E; (split; [intros Hd|]).
    + left. eauto.
    + done.
    + by right; right.
    + intros [(? & ? & [= <- <-] & ?)|[[(? & ? & ?) _]|?]]; congruence.
  - by destruct (Hres name result).
  - destruct (cascade_denies_all_egress cascade); (split; [intros Hd|]).
    + right. left. eauto.
    + done.
    + by right; right.
    + by intros [(? & ? & ? & _)|[[_ ?]|?]].
Qed.

(** The permissions shown for an agent are the ones the gateway
    enforces: for a file access, a command, a network request or a call of a tool that is
    the agent's or named by a policy, the panel shows the capability as denied, or as
    missing from an exhaustive list of what is allowed, exactly when the cascade refuses
    the action outright, by the tool stage of a document, by a document that allows no
    host, or by the guard of the merged capabilities. *)
Theorem permissions_mirror (record : AgentRecord) cascade agent_id lineage loaded (a : GovernanceAction) c :
  action_to_capability a = Some c → (∀ name result, a ≠ ToolResult name result) →
  known record cascade c →
  shown_refused (project_effective_permissions record cascade agent_id lineage loaded) c ↔ refused_outright cascade a.
Proof.
  intros Hc Hres Hk. unfold shown_refused, refused_outright. simpl.
  unfold sorted_texts. rewrite elem_of_stable_sort, elem_of_elements, (denied_texts_spec record cascade c Hk), allowed_texts_spec.
  rewrite (guard_spec cascade a c Hc). pose proof (denies_spec cascade a c Hc Hres) as Hd.
  revert Hd. generalize (∃ doc, doc ∈ cascade ∧ is_Some (stage_tool_allow doc a)). intros T.
  generalize (∃ url method doc np, a = NetworkRequest url method ∧ doc ∈ cascade ∧ pd_network doc = Some np ∧ np_allowlist np = []).
  intros N Hd. destruct (cascade_denies cascade _ _ c); destruct (allow_is_restricted _); intuition congruence.
Qed.
End Mirror.

(** ** A cascade of two documents *)

Definition no_bash : PolicyDocument :=
  set_tools (empty_document Scope.Global)
    {[ "bash"%string := {| tp_allow := false; tp_limit_per_hour := None; tp_requires_approval_if := None; tp_capabilities := None |} ]}.

Lemma permissions_mirror_witness :
  shown_refused (project_effective_permissions (H := binary_uuid) (ApiDemo.agent 1%N "a" None None 0 None [])
    [no_bash; reader_doc] 1%N lineage_default true) (McpTool "bash") ∧
  refused_outright [no_bash; reader_doc] (ToolCall "bash" "ls").
Proof.
  assert (refused_outright [no_bash; reader_doc] (ToolCall "bash" "ls")) as Hr.
  { left. exists no_bash. split; [left|vm_compute; by eexists]. }
  split; [|done].
  apply (permissions_mirror (H := binary_uuid) (ApiDemo.agent 1%N "a" None None 0 None []) [no_bash; reader_doc] 1%N
    lineage_default true (ToolCall "bash" "ls")); [done|done| |done].
  simpl. vm_compute. done.
Defined.

(** The third of three allow-lists hides the first two from the merged set, and with it
    from the panel; the document's own stage still refuses. *)
Lemma third_list_shown_allowed :
  let cascade := [set_capabilities global_doc (allow_only FileRead); set_capabilities global_doc (allow_only FileWrite);
                  set_capabilities global_doc (allow_only TerminalExec)] in
  let p := project_effective_permissions (H := binary_uuid) (ApiDemo.agent 1%N "a" None None 0 None []) cascade 1%N lineage_default true in
  np_allow p = ["terminal_exec"%string] ∧ np_deny p = [] ∧
  Exists (λ doc, is_Some (stage_capability doc (ProcessExec "ls"))) cascade.
Proof. split; [vm_compute; reflexivity|]. split; [vm_compute; reflexivity|]. left. vm_compute. by eexists. Qed.
