(* ===== verification/Anomaly.v ===== *)
(** * Anomaly: the behavioural baseline and the seven detections

    aa-gateway/src/anomaly: the sliding window of an agent (baseline.rs), the checks and
    their order (detector.rs), the responses (types.rs); the responder only logs what it is
    given.  Timestamps and hashes are [u64], counters [u32], as in a release build. *)

From stdpp Require Import base gmap strings list sets.
From Stdlib Require Import ZArith Lia Bool String Floats.SpecFloat.
From S2P Require Import Prelude.
From S2P Require Import Text.
From S2P Require Import Float64.
From S2P Require Import CoreTypes.
From S2P Require Import EgressHost.
From S2P Require Import RateLimit.

Open Scope Z_scope.
Open Scope aasm_scope.

(** [u64::from_le_bytes] of the first eight bytes of a SHA-256 digest, the printing of
    floating-point numbers as they are and with one digit, and [{:?}] of an identifier. *)
Class AnomalyLib := {
  sha256_u64 : string → Z;
  fmt_f64 : f64 → string;
  fmt_f64_1 : f64 → string;
  debug_id : AgentId → string;
}.

(** ** Types *)

Module Anomaly.
Inductive AnomalyType :=
  | BehaviorSpike | UnknownExternalConnection | CredentialLeakAttempt | ChildProcessExecution
  | DataExfiltrationAttempt | LoopRunaway | CrossAgentIdentitySpoofing.

Inductive AnomalyResponse := Pause | Block | Alert | Quarantine.
End Anomaly.
Export Anomaly (AnomalyType, AnomalyResponse).

Definition anomaly_description (t : AnomalyType) : string :=
  match t with
  | Anomaly.BehaviorSpike => "Action rate spike exceeding behavioral baseline"
  | Anomaly.UnknownExternalConnection => "Connection attempt to host not in network allowlist"
  | Anomaly.CredentialLeakAttempt => "Credential pattern detected in agent payload"
  | Anomaly.ChildProcessExecution => "Unauthorized child process execution"
  | Anomaly.DataExfiltrationAttempt => "PII detected in payload to external API"
  | Anomaly.LoopRunaway => "Repeated identical tool invocations in short window"
  | Anomaly.CrossAgentIdentitySpoofing => "Agent presenting another agent's credentials"
  end.

Definition default_for (t : AnomalyType) : AnomalyResponse :=
  match t with
  | Anomaly.BehaviorSpike => Anomaly.Pause
  | Anomaly.UnknownExternalConnection => Anomaly.Block
  | Anomaly.CredentialLeakAttempt => Anomaly.Alert
  | Anomaly.ChildProcessExecution => Anomaly.Block
  | Anomaly.DataExfiltrationAttempt => Anomaly.Block
  | Anomaly.LoopRunaway => Anomaly.Pause
  | Anomaly.CrossAgentIdentitySpoofing => Anomaly.Alert
  end.

Definition is_blocking (r : AnomalyResponse) : bool :=
  match r with Anomaly.Block | Anomaly.Quarantine => true | _ => false end.

Record AnomalyEvent := {
  av_anomaly_type : AnomalyType;
  av_response : AnomalyResponse;
  av_agent_id : AgentId;
  av_description : string;
  av_detected_at : Z;
}.

Record AnomalyConfig := {
  an_baseline_window_secs : Z;
  an_spike_stddev_multiplier : f64;
  an_loop_threshold : Z;
  an_loop_window_secs : Z;
  an_credential_leak_threshold : Z;
}.

Definition default_config : AnomalyConfig := {|
  an_baseline_window_secs := 3600; an_spike_stddev_multiplier := f64_of_Z 3; an_loop_threshold := 50;
  an_loop_window_secs := 300; an_credential_leak_threshold := 3 |}.

(** ** The baseline of an agent *)

Definition RATE_BUCKETS : Z := 12.

Record AgentBaseline := {
  ab_action_timestamps : list Z;
  ab_tool_call_counts : gmap Z Z;
  ab_credential_findings_count : Z;
  ab_window_ms : Z;
}.

Definition inc_u32 (n : Z) : Z := (n + 1) mod 2 ^ 32.

Definition baseline_new (window_secs : Z) : AgentBaseline := {|
  ab_action_timestamps := []; ab_tool_call_counts := ∅; ab_credential_findings_count := 0;
  ab_window_ms := wrap64 (window_secs * 1000) |}.

Definition evict (b : AgentBaseline) (now_ms : Z) : AgentBaseline :=
  let cutoff := Z.max 0 (now_ms - ab_window_ms b) in
  let kept := filter (λ ts, cutoff ≤ ts) (ab_action_timestamps b) in
  match kept with
  | [] => {| ab_action_timestamps := []; ab_tool_call_counts := ∅; ab_credential_findings_count := 0;
             ab_window_ms := ab_window_ms b |}
  | _ => {| ab_action_timestamps := kept; ab_tool_call_counts := ab_tool_call_counts b;
            ab_credential_findings_count := ab_credential_findings_count b; ab_window_ms := ab_window_ms b |}
  end.

Definition push_action (b : AgentBaseline) (now_ms : Z) : AgentBaseline := {|
  ab_action_timestamps := ab_action_timestamps b ++ [now_ms]; ab_tool_call_counts := ab_tool_call_counts b;
  ab_credential_findings_count := ab_credential_findings_count b; ab_window_ms := ab_window_ms b |}.

Definition baseline_action (b : AgentBaseline) (now_ms : Z) : AgentBaseline := push_action (evict b now_ms) now_ms.

Definition tool_call_count (b : AgentBaseline) (tool_hash : Z) : Z := default 0 (ab_tool_call_counts b !! tool_hash).

Definition baseline_tool_call (b : AgentBaseline) (tool_hash now_ms : Z) : AgentBaseline :=
  let b := evict b now_ms in
  push_action {|
    ab_action_timestamps := ab_action_timestamps b;
    ab_tool_call_counts := <[tool_hash := inc_u32 (tool_call_count b tool_hash)]> (ab_tool_call_counts b);
    ab_credential_findings_count := ab_credential_findings_count b; ab_window_ms := ab_window_ms b |} now_ms.

Definition set_findings (b : AgentBaseline) (n : Z) : AgentBaseline := {|
  ab_action_timestamps := ab_action_timestamps b; ab_tool_call_counts := ab_tool_call_counts b;
  ab_credential_findings_count := n; ab_window_ms := ab_window_ms b |}.

Definition baseline_credential_finding (b : AgentBaseline) : AgentBaseline :=
  set_findings b (inc_u32 (ab_credential_findings_count b)).

Definition reset_credential_findings (b : AgentBaseline) : AgentBaseline := set_findings b 0.

(** The earliest timestamp and the length of a bucket; [None] where the code falls back to
    the number of actions. *)
Definition bucket_span (b : AgentBaseline) : option (Z * Z) :=
  match ab_action_timestamps b with
  | earliest :: _ =>
      let span := Z.max 0 (List.last (ab_action_timestamps b) 0 - earliest) in
      let bucket_ms := span / RATE_BUCKETS in
      if bucket_ms =? 0 then None else Some (earliest, bucket_ms)
  | [] => None
  end.

Definition f64_sqrt (a : f64) : f64 := SFsqrt prec emax a.
Definition f64_sum (l : list f64) : f64 := foldl f64_add (f64_of_Z 0) l.

Definition bucket_of (earliest bucket_ms ts : Z) : nat :=
  Z.to_nat (Z.min (wrap64 (ts - earliest) / bucket_ms) (RATE_BUCKETS - 1)).

Definition fill_buckets (timestamps : list Z) (earliest bucket_ms : Z) : list Z :=
  foldl (λ buckets ts, alter inc_u32 (bucket_of earliest bucket_ms ts) buckets) (replicate (Z.to_nat RATE_BUCKETS) 0) timestamps.

Definition action_count (b : AgentBaseline) : Z := Z.of_nat (List.length (ab_action_timestamps b)).

Definition action_mean_stddev (b : AgentBaseline) : f64 * f64 :=
  if action_count b <? 2 then (f64_of_Z 0, f64_of_Z 0)
  else match bucket_span b with
       | None => (f64_of_Z (action_count b), f64_of_Z 0)
       | Some (earliest, bucket_ms) =>
           let counts := f64_of_Z <$> fill_buckets (ab_action_timestamps b) earliest bucket_ms in
           let n := f64_of_Z RATE_BUCKETS in
           let mean := f64_div (f64_sum counts) n in
           let variance := f64_div (f64_sum ((λ c, f64_mul (f64_sub c mean) (f64_sub c mean)) <$> counts)) n in
           (mean, f64_sqrt variance)
       end.

Definition latest_bucket_count (b : AgentBaseline) : f64 :=
  if action_count b <? 2 then f64_of_Z (action_count b)
  else match bucket_span b with
       | None => f64_of_Z (action_count b)
       | Some (earliest, bucket_ms) =>
           let last_bucket_start := earliest + bucket_ms * (RATE_BUCKETS - 1) in
           f64_of_Z (Z.of_nat (List.length (filter (λ ts, last_bucket_start ≤ ts) (ab_action_timestamps b))))
       end.

(** ** The detector *)

Record AnomalyDetector := { ad_baselines : gmap AgentId AgentBaseline; ad_config : AnomalyConfig }.

Definition detector_new (config : AnomalyConfig) : AnomalyDetector := {| ad_baselines := ∅; ad_config := config |}.

Definition with_baseline (d : AnomalyDetector) (agent_id : AgentId) (f : AgentBaseline → AgentBaseline) : AnomalyDetector := {|
  ad_baselines := <[agent_id := f (default (baseline_new (an_baseline_window_secs (ad_config d))) (ad_baselines d !! agent_id))]>
                    (ad_baselines d);
  ad_config := ad_config d |}.

Section Detector.
Context `{AnomalyLib}.
Implicit Types (d : AnomalyDetector) (agent_id : AgentId).

Definition hash_tool_call (tool_name args : string) : Z :=
  sha256_u64 (String.append tool_name (String.append ":" args)).

Definition record_action d agent_id (now_ms : Z) : AnomalyDetector :=
  with_baseline d agent_id (λ b, baseline_action b now_ms).

Definition record_tool_call d agent_id (tool_name args : string) (now_ms : Z) : AnomalyDetector :=
  with_baseline d agent_id (λ b, baseline_tool_call b (hash_tool_call tool_name args) now_ms).

Definition record_credential_finding d agent_id : AnomalyDetector := with_baseline d agent_id baseline_credential_finding.

(** An event with the default response of its type, [now] the reading of [Utc::now]. *)
Definition event_of (t : AnomalyType) agent_id (description : string) (now : Z) : AnomalyEvent := {|
  av_anomaly_type := t; av_response := default_for t; av_agent_id := agent_id; av_description := description;
  av_detected_at := now |}.

Definition concat_texts (l : list string) : string := foldr String.append "" l.

Definition check_behavior_spike d agent_id (now : Z) : option AnomalyEvent :=
  match ad_baselines d !! agent_id with
  | None => None
  | Some baseline =>
      let (mean, stddev) := action_mean_stddev baseline in
      if SFeqb mean (f64_of_Z 0) then None
      else
        let threshold := f64_add mean (f64_mul (an_spike_stddev_multiplier (ad_config d)) stddev) in
        let current := latest_bucket_count baseline in
        if SFltb threshold current && SFltb (f64_of_Z 0) stddev
        then Some (event_of Anomaly.BehaviorSpike agent_id
               (concat_texts ["Latest bucket count "; fmt_f64 current; " exceeds threshold "; fmt_f64_1 threshold; " (mean=";
                              fmt_f64_1 mean; ", stddev="; fmt_f64_1 stddev; ")"]) now)
        else None
  end.

Definition check_unknown_connection agent_id (url : string) (allowlist : list string) (now : Z) : option AnomalyEvent :=
  let parsed := egress_host_from_url url in
  let host := default url parsed in
  if match allowlist with [] => true | _ => false end ||
     (bool_decide (is_Some parsed) && is_host_allowed_by_egress_allowlist host allowlist)
  then None
  else Some (event_of Anomaly.UnknownExternalConnection agent_id
         match parsed with
         | Some host => concat_texts ["Connection to host '"; host; "' not in network allowlist"]
         | None => "Connection to an ambiguous destination URL not in network allowlist"
         end now).

Definition check_credential_leak d agent_id (now : Z) : option AnomalyEvent :=
  match ad_baselines d !! agent_id with
  | None => None
  | Some baseline =>
      let count := ab_credential_findings_count baseline in
      let threshold := an_credential_leak_threshold (ad_config d) in
      if threshold <=? count
      then Some (event_of Anomaly.CredentialLeakAttempt agent_id
             (concat_texts ["Credential findings count "; decimal (Z.to_N count); " exceeds threshold ";
                            decimal (Z.to_N threshold)]) now)
      else None
  end.

Definition check_child_process agent_id (command : string) (now : Z) : option AnomalyEvent :=
  Some (event_of Anomaly.ChildProcessExecution agent_id
          (String.append "Unauthorized child process execution: " command) now).

Definition check_data_exfiltration agent_id (has_pii : bool) (url : string) (now : Z) : option AnomalyEvent :=
  if negb has_pii then None
  else Some (event_of Anomaly.DataExfiltrationAttempt agent_id
         match egress_host_from_url url with
         | Some host => String.append "PII detected in payload destined for external host: " host
         | None => "PII detected in payload destined for an ambiguous destination URL"
         end now).

Definition check_loop_runaway d agent_id (tool_name args : string) (now : Z) : option AnomalyEvent :=
  match ad_baselines d !! agent_id with
  | None => None
  | Some baseline =>
      let count := tool_call_count baseline (hash_tool_call tool_name args) in
      let threshold := an_loop_threshold (ad_config d) in
      if threshold <=? count
      then Some (event_of Anomaly.LoopRunaway agent_id
             (concat_texts ["Tool '"; tool_name; "' called "; decimal (Z.to_N count); " times (threshold: ";
                            decimal (Z.to_N threshold); ")"]) now)
      else None
  end.

Definition check_identity_spoofing (claimed_agent_id credential_owner_id : AgentId) (now : Z) : option AnomalyEvent :=
  if bool_decide (claimed_agent_id = credential_owner_id) then None
  else Some (event_of Anomaly.CrossAgentIdentitySpoofing claimed_agent_id
         (concat_texts ["Agent "; debug_id claimed_agent_id; " presented credentials belonging to agent ";
                        debug_id credential_owner_id]) now).

Definition or_else {A} (a b : option A) : option A := match a with Some _ => a | None => b end.

Definition detect_for_action d agent_id (action : GovernanceAction) (has_pii : bool) (network_allowlist : list string)
    (now : Z) : option AnomalyEvent :=
  match action with
  | ProcessExec command => check_child_process agent_id command now
  | NetworkRequest url _ =>
      or_else (check_unknown_connection agent_id url network_allowlist now) (check_data_exfiltration agent_id has_pii url now)
  | ToolCall name args => check_loop_runaway d agent_id name args now
  | _ => None
  end.

Definition detect d agent_id (action : GovernanceAction) (has_pii : bool) (network_allowlist : list string)
    (credential_owner_id : option AgentId) (now : Z) : option AnomalyEvent :=
  or_else (detect_for_action d agent_id action has_pii network_allowlist now)
    (or_else (check_behavior_spike d agent_id now)
      (or_else (check_credential_leak d agent_id now)
        (match credential_owner_id with Some owner => check_identity_spoofing agent_id owner now | None => None end))).

(** ** What blocks *)

(** The destination the detections accept: any when the list is empty, else one whose host is
    unambiguous and on the list. *)
Definition known_destination (url : string) (allowlist : list string) : Prop :=
  allowlist = [] ∨ ∃ host, egress_host_from_url url = Some host ∧ is_host_allowed_by_egress_allowlist host allowlist = true.

Lemma unknown_connection_None agent_id url allowlist now :
  check_unknown_connection agent_id url allowlist now = None ↔ known_destination url allowlist.
Proof.
  unfold check_unknown_connection, known_destination. destruct allowlist as [|a allowlist]; [by split; auto|].
  cbn [orb]. destruct (egress_host_from_url url) as [host|]; cbn [default id andb].
  - rewrite bool_decide_true by by eexists. cbn [andb].
    destruct (is_host_allowed_by_egress_allowlist host (a :: allowlist)) eqn:E.
    + split; [|done]. intros _. right. by exists host.
    + split; [done|]. intros [?|(h & [= <-] & ?)]; [done|congruence].
  - rewrite bool_decide_false by by intros [? ?]. split; [done|]. by intros [?|(h & ? & _)].
Qed.

(** Exactly the process executions, the requests to unknown destinations and those with
    sensitive data are blocked; nothing an agent did before makes a difference. *)
Lemma detect_blocks_iff d agent_id action has_pii allowlist owner now :
  (∃ e, detect d agent_id action has_pii allowlist owner now = Some e ∧ is_blocking (av_response e) = true) ↔
  match action with
  | ProcessExec _ => True
  | NetworkRequest url _ => ¬ known_destination url allowlist ∨ has_pii = true
  | _ => False
  end.
Proof.
  assert (∀ e, or_else (check_behavior_spike d agent_id now) (or_else (check_credential_leak d agent_id now)
    (match owner with Some owner => check_identity_spoofing agent_id owner now | None => None end)) = Some e →
    is_blocking (av_response e) = false) as Hrest.
  { intros e. unfold or_else, check_behavior_spike, check_credential_leak, check_identity_spoofing.
    repeat case_match; intros; simplify_eq; done. }
  unfold detect. destruct action as [name args| | |url method|command|]; cbn [detect_for_action].
  - split; [|done]. intros (e & He & Hb). unfold or_else at 1 in He. unfold check_loop_runaway in He.
    repeat case_match; simplify_eq; try done; rewrite Hrest in Hb; done.
  - split; [|done]. intros (e & He & Hb). by rewrite (Hrest _ He) in Hb.
  - split; [|done]. intros (e & He & Hb). by rewrite (Hrest _ He) in Hb.
  - pose proof (unknown_connection_None agent_id url allowlist now) as Hu.
    destruct (check_unknown_connection agent_id url allowlist now) as [e|] eqn:E; cbn [or_else].
    + split; [|intros _; exists e; split; [done|]].
      * intros _. left. intros Hk. by apply Hu in Hk.
      * unfold check_unknown_connection in E. repeat case_match; simplify_eq; done.
    + unfold check_data_exfiltration. destruct has_pii; cbn [negb or_else].
      * split; [by right|]. intros _. by eexists.
      * split.
        -- intros (e & He & Hb). by rewrite (Hrest _ He) in Hb.
        -- intros [Hk|?]; [|done]. by destruct Hk; apply Hu.
  - split; [done|]. intros _. by eexists.
  - split; [|done]. intros (e & He & Hb). by rewrite (Hrest _ He) in Hb.
Qed.
End Detector.

(** ** How long the counters last *)

(** A recorded action: its time and, for a tool call, the hash. *)
Abbreviation Recorded := (Z * option Z)%type.

Definition baseline_record (b : AgentBaseline) (r : Recorded) : AgentBaseline :=
  match snd r with
  | Some tool_hash => baseline_tool_call b tool_hash (fst r)
  | None => baseline_action b (fst r)
  end.

(** The records of the current busy period, newest first: back to the last pause that is
    longer than the window. *)
Fixpoint busy (window : Z) (newest_first : list Recorded) : list Recorded :=
  match newest_first with
  | [] => []
  | r :: older =>
      r :: match older with
           | previous :: _ => if fst r - fst previous <=? window then busy window older else []
           | [] => []
           end
  end.

(** Times that do not go back. *)
Fixpoint ordered (newest_first : list Recorded) : Prop :=
  match newest_first with
  | r :: ((previous :: _) as older) => fst previous ≤ fst r ∧ ordered older
  | [r] => 0 ≤ fst r
  | [] => True
  end.

Definition calls_of (tool_hash : Z) (l : list Recorded) : Z :=
  Z.of_nat (List.length (filter (λ r, snd r = Some tool_hash) l)).

Definition baseline_of (window_secs : Z) (newest_first : list Recorded) : AgentBaseline :=
  foldr (λ r b, baseline_record b r) (baseline_new window_secs) newest_first.

Lemma evict_window b now : ab_window_ms (evict b now) = ab_window_ms b.
Proof. unfold evict. by case_match. Qed.

Lemma evict_timestamps b now :
  ab_action_timestamps (evict b now) = filter (λ ts, Z.max 0 (now - ab_window_ms b) ≤ ts) (ab_action_timestamps b).
Proof. unfold evict. by destruct (filter _ (ab_action_timestamps b)) eqn:E. Qed.

Lemma record_window b r : ab_window_ms (baseline_record b r) = ab_window_ms b.
Proof. unfold baseline_record. by destruct (snd r); simpl; rewrite evict_window. Qed.

Lemma record_timestamps b r :
  ab_action_timestamps (baseline_record b r) =
    filter (λ ts, Z.max 0 (fst r - ab_window_ms b) ≤ ts) (ab_action_timestamps b) ++ [fst r].
Proof. unfold baseline_record. destruct (snd r); simpl; by rewrite evict_timestamps. Qed.

Lemma baseline_window w l : ab_window_ms (baseline_of w l) = wrap64 (w * 1000).
Proof. induction l as [|r l IH]; simpl; [done|]. by rewrite record_window. Qed.

Lemma ordered_nonneg r l : ordered (r :: l) → 0 ≤ fst r.
Proof. revert r. induction l as [|r' l IH]; intros r; simpl; [done|]. intros [Hr Ho]. apply IH in Ho. lia. Qed.

Lemma ordered_tail r l : ordered (r :: l) → ordered l.
Proof. destruct l; [done|]. by intros [_ ?]. Qed.

Lemma ordered_newest r l : ordered (r :: l) → Forall (λ r', fst r' ≤ fst r) l.
Proof.
  revert r. induction l as [|r' l IH]; intros r Ho; [constructor|]. destruct Ho as [Hr Ho].
  constructor; [done|]. eapply Forall_impl; [by apply IH|]. intros x Hx. simpl in *. lia.
Qed.

Lemma wrap64_nonneg z : 0 ≤ wrap64 z.
Proof. unfold wrap64. apply Z.mod_pos_bound. lia. Qed.

(** The window holds exactly the records of the last [window] milliseconds. *)
Lemma window_exact w r l :
  ordered (r :: l) →
  ab_action_timestamps (baseline_of w (r :: l)) =
    rev (fst <$> filter (λ r', fst r - wrap64 (w * 1000) ≤ fst r') (r :: l)).
Proof.
  revert r. induction l as [|r' l IH]; intros r Ho.
  - simpl. rewrite record_timestamps. simpl. pose proof (wrap64_nonneg (w * 1000)).
    rewrite filter_cons_True by lia. done.
  - pose proof (ordered_nonneg _ _ Ho) as Hr0. pose proof (ordered_nonneg _ _ (ordered_tail _ _ Ho)) as Hr0'.
    change (baseline_of w (r :: r' :: l)) with (baseline_record (baseline_of w (r' :: l)) r).
    rewrite record_timestamps, baseline_window, IH by by eapply ordered_tail.
    pose proof (wrap64_nonneg (w * 1000)).
    rewrite (filter_cons_True _ r) by lia. rewrite fmap_cons. cbn [rev]. f_equal.
    destruct Ho as [Hle Ho].
    assert (∀ l' : list Recorded, Forall (λ x, 0 ≤ fst x ) l' →
      filter (λ ts, Z.max 0 (fst r - wrap64 (w * 1000)) ≤ ts)
        (rev (fst <$> filter (λ x, fst r' - wrap64 (w * 1000) ≤ fst x) l')) =
      rev (fst <$> filter (λ x, fst r - wrap64 (w * 1000) ≤ fst x) l')) as Hf.
    { intros l' Hl'. induction Hl' as [|x l' Hx Hl' IHl]; [done|].
      destruct (decide (fst r - wrap64 (w * 1000) ≤ fst x)) as [H1|H1].
      - rewrite !filter_cons_True by lia. rewrite !fmap_cons. cbn [rev]. rewrite filter_app, IHl. f_equal.
        rewrite filter_cons_True by lia. done.
      - rewrite (filter_cons_False (λ x, fst r - wrap64 (w * 1000) ≤ fst x)) by lia.
        destruct (decide (fst r' - wrap64 (w * 1000) ≤ fst x)) as [H2|H2].
        + rewrite filter_cons_True by lia. rewrite fmap_cons. cbn [rev]. rewrite filter_app, IHl.
          rewrite filter_cons_False by lia. apply app_nil_r.
        + by rewrite filter_cons_False by lia. }
    apply Hf. clear -Ho. revert r' Ho. induction l as [|x l IHl]; intros r' Ho.
    + constructor; [done|constructor].
    + constructor; [by eapply ordered_nonneg|]. by apply IHl, (ordered_tail r').
Qed.

Lemma evict_keeps w r l t :
  ordered (r :: l) → fst r ≤ t → t - fst r ≤ wrap64 (w * 1000) →
  ab_tool_call_counts (evict (baseline_of w (r :: l)) t) = ab_tool_call_counts (baseline_of w (r :: l)) ∧
  ab_credential_findings_count (evict (baseline_of w (r :: l)) t) = ab_credential_findings_count (baseline_of w (r :: l)).
Proof.
  intros Ho Ht Hw. unfold evict. rewrite baseline_window, (window_exact w r l Ho).
  pose proof (ordered_nonneg _ _ Ho). pose proof (wrap64_nonneg (w * 1000)).
  rewrite filter_cons_True by lia. rewrite fmap_cons. cbn [rev]. rewrite filter_app, (filter_cons_True _ (fst r)) by lia.
  destruct (filter _ (rev _)); done.
Qed.

Lemma evict_clears w r l t :
  ordered (r :: l) → wrap64 (w * 1000) < t - fst r →
  ab_tool_call_counts (evict (baseline_of w (r :: l)) t) = ∅ ∧
  ab_credential_findings_count (evict (baseline_of w (r :: l)) t) = 0.
Proof.
  intros Ho Hw. unfold evict. rewrite baseline_window, (window_exact w r l Ho).
  pose proof (ordered_nonneg _ _ Ho). pose proof (wrap64_nonneg (w * 1000)).
  assert (∀ l' : list Recorded, Forall (λ x, fst x ≤ fst r) l' →
    filter (λ ts, Z.max 0 (t - wrap64 (w * 1000)) ≤ ts) (rev (fst <$> filter (λ x, fst r - wrap64 (w * 1000) ≤ fst x) l')) = []) as Hf.
  { intros l' Hl'. induction Hl' as [|x l' Hx Hl' IHl]; [done|].
    destruct (decide (fst r - wrap64 (w * 1000) ≤ fst x)) as [Hd|Hd].
    - rewrite filter_cons_True by lia. rewrite fmap_cons. cbn [rev]. rewrite filter_app, IHl, filter_cons_False by lia. done.
    - by rewrite filter_cons_False by lia. }
  rewrite Hf; [done|]. constructor; [lia|by apply ordered_newest].
Qed.

Lemma calls_of_cons h r l : calls_of h (r :: l) = (if decide (snd r = Some h) then 1 else 0) + calls_of h l.
Proof.
  unfold calls_of. destruct (decide (snd r = Some h)); [rewrite filter_cons_True by done|rewrite filter_cons_False by done];
    simpl; lia.
Qed.

Lemma record_count b r h :
  tool_call_count (baseline_record b r) h =
    (if decide (snd r = Some h) then inc_u32 (tool_call_count (evict b (fst r)) h) else tool_call_count (evict b (fst r)) h).
Proof.
  unfold baseline_record. destruct (snd r) as [h0|]; [|by destruct (decide (None = Some h))].
  unfold baseline_tool_call, tool_call_count at 1. cbn [ab_tool_call_counts push_action]. destruct (decide (Some h0 = Some h)) as [[= ->]|Hne].
  - by rewrite lookup_insert_eq.
  - rewrite lookup_insert_ne by congruence. done.
Qed.

(** The calls counted are those of the whole busy period, however long it has lasted. *)
Lemma tool_count_exact w r l h :
  ordered (r :: l) →
  tool_call_count (baseline_of w (r :: l)) h = calls_of h (busy (wrap64 (w * 1000)) (r :: l)) mod 2 ^ 32.
Proof.
  revert r. induction l as [|r' l IH]; intros r Ho.
  - change (baseline_of w [r]) with (baseline_record (baseline_new w) r). rewrite record_count. cbn [busy].
    rewrite calls_of_cons. change (evict (baseline_new w) (fst r)) with (baseline_new w).
    destruct (decide _); done.
  - change (baseline_of w (r :: r' :: l)) with (baseline_record (baseline_of w (r' :: l)) r). rewrite record_count.
    pose proof (ordered_tail _ _ Ho) as Ho'. specialize (IH r' Ho').
    assert (tool_call_count (evict (baseline_of w (r' :: l)) (fst r)) h =
      calls_of h (if fst r - fst r' <=? wrap64 (w * 1000) then busy (wrap64 (w * 1000)) (r' :: l) else []) mod 2 ^ 32) as He.
    { destruct Ho as [Hle _]. destruct (Z.leb_spec (fst r - fst r') (wrap64 (w * 1000))) as [Hw|Hw].
      - destruct (evict_keeps w r' l (fst r) Ho' Hle Hw) as [Hc _]. rewrite <- IH. unfold tool_call_count. by rewrite Hc.
      - destruct (evict_clears w r' l (fst r) Ho' Hw) as [Hc _]. unfold tool_call_count. by rewrite Hc. }
    rewrite He. set (W := wrap64 (w * 1000)) in *.
    change (busy W (r :: r' :: l)) with (r :: (if fst r - fst r' <=? W then busy W (r' :: l) else [])).
    rewrite calls_of_cons. destruct (decide (snd r = Some h)); [|f_equal; lia].
    unfold inc_u32. rewrite Zplus_mod_idemp_l. f_equal. lia.
Qed.

(** A tool called once an hour, as often as one likes. *)
Definition hourly (n : nat) : list Recorded := reverse ((λ k, (Z.of_nat k * 3600000, Some 7)) <$> seq 0 n).

Lemma hourly_S n : hourly (S n) = (Z.of_nat n * 3600000, Some 7) :: hourly n.
Proof. unfold hourly. by rewrite seq_S, fmap_app, reverse_app. Qed.

Lemma hourly_ordered n : ordered (hourly n).
Proof.
  induction n as [|n IH]; [done|]. rewrite hourly_S. destruct n as [|n]; [simpl; lia|]. rewrite hourly_S in *.
  split; [simpl; lia|done].
Qed.

Lemma hourly_busy n : busy 3600000 (hourly n) = hourly n.
Proof.
  induction n as [|n IH]; [done|]. rewrite hourly_S. destruct n as [|n]; [done|]. rewrite hourly_S in *.
  change (busy 3600000 (?a :: ?b :: ?l)) with (a :: (if fst a - fst b <=? 3600000 then busy 3600000 (b :: l) else [])).
  rewrite IH. cbn [fst]. destruct (Z.leb_spec (Z.of_nat (S n) * 3600000 - Z.of_nat n * 3600000) 3600000); [done|lia].
Qed.

Lemma hourly_calls n : calls_of 7 (hourly n) = Z.of_nat n.
Proof. induction n as [|n IH]; [done|]. rewrite hourly_S, calls_of_cons, IH, decide_True by done. lia. Qed.

Lemma hourly_count n : tool_call_count (baseline_of 3600 (hourly (S n))) 7 = Z.of_nat (S n) mod 2 ^ 32.
Proof.
  rewrite hourly_S, tool_count_exact by (rewrite <- hourly_S; apply hourly_ordered).
  change (wrap64 (3600 * 1000)) with 3600000. by rewrite <- hourly_S, hourly_busy, hourly_calls.
Qed.

(** Fifty calls in fifty hours are a loop, though no two fall into the loop window of five
    minutes. *)
Lemma slow_calls_are_a_loop `{AnomalyLib} agent tool args now :
  hash_tool_call tool args = 7 →
  ∃ e, check_loop_runaway {| ad_baselines := {[agent := baseline_of 3600 (hourly 50)]}; ad_config := default_config |}
         agent tool args now = Some e.
Proof.
  intros Hh. unfold check_loop_runaway. cbn [ad_baselines ad_config]. rewrite lookup_singleton_eq, Hh, hourly_count.
  by eexists.
Qed.

(** An agent that acts once a second, thirteen times, is reported for a spike: the last bucket
    has the instant at its end as well. *)
Definition even_actions : list Recorded := reverse ((λ k, (Z.of_nat k * 1000, None)) <$> seq 1 13).

Lemma even_rate_is_a_spike `{AnomalyLib} :
  ∃ e, check_behavior_spike {| ad_baselines := {[1%N := baseline_of 3600 even_actions]}; ad_config := default_config |}
         1%N 0 = Some e.
Proof.
  unfold check_behavior_spike. cbn [ad_baselines ad_config]. rewrite lookup_singleton_eq.
  assert (SFltb (f64_add (action_mean_stddev (baseline_of 3600 even_actions)).1
                  (f64_mul (f64_of_Z 3) (action_mean_stddev (baseline_of 3600 even_actions)).2))
            (latest_bucket_count (baseline_of 3600 even_actions)) = true ∧
          SFltb (f64_of_Z 0) (action_mean_stddev (baseline_of 3600 even_actions)).2 = true ∧
          SFeqb (action_mean_stddev (baseline_of 3600 even_actions)).1 (f64_of_Z 0) = false) as (H1 & H2 & H3)
    by (vm_compute; done).
  destruct (action_mean_stddev (baseline_of 3600 even_actions)) as [mean stddev]. simpl in *.
  rewrite H3. change (an_spike_stddev_multiplier default_config) with (f64_of_Z 3). rewrite H1, H2. by eexists.
Qed.
