(* ===== verification/Lifecycle.v ===== *)
(** * Lifecycle: how an agent gets its credential

    aa-gateway/src/service/lifecycle_service.rs with the organisation of a registration
    (service/org_binding.rs), the identifiers (registry/convert.rs), the credential token
    (registry/token.rs) and the challenge store of several replicas (storage/challenge.rs).

    A registration runs in three steps, between which other requests run: the checks, the
    insertion into the registry, and the answer of the durable write, at which the handler
    can also be dropped.  Random nonces and tokens, Ed25519, SHA-256 and base58 are
    arguments, and so is the Redis server. *)

From stdpp Require Import base gmap strings list sets.
From Stdlib Require Import ZArith Lia Bool Ascii String.
From S2P Require Import Prelude.
From S2P Require Import Text.
From S2P Require Import Float64.
From S2P Require Import CoreTypes.
From S2P Require Import External.
From S2P Require Import Detection.
From S2P Require Import Registry.
From S2P Require Import Engine.
From S2P Require Import AuditChain.
From S2P Require Import Auth.
From S2P Require Import EdgeApi.
From S2P Require Import TopologyService.

Open Scope Z_scope.
Open Scope aasm_scope.

(** Nonces and signatures are byte strings.  The libraries: [bs58::decode], the first sixteen bytes of [Sha256::digest] as an
    identifier, [VerifyingKey::from_bytes] and [verify_strict]. *)
Class Keys := {
  bs58_decode : string → option (list N);
  sha256_id : string → AgentId;
  is_verifying_key : list N → bool;
  verify_strict : list N → string → string → bool;
}.

(** One reading of the clocks: [Instant] in nanoseconds, [Utc::now] and its seconds and
    milliseconds. *)
Record Reading := { at_instant : Z; at_utc : Z; at_ms : Z; at_secs : Z }.

(** ** Identifiers *)

Record ProtoAgentId := { pi_org_id : string; pi_team_id : string; pi_agent_id : string }.

Definition composite (id : ProtoAgentId) : string :=
  String.append (pi_org_id id) (String.append "/" (String.append (pi_team_id id) (String.append "/" (pi_agent_id id)))).

Definition proto_agent_id_to_key `{Keys} (id : ProtoAgentId) : AgentId := sha256_id (composite id).

Definition quoted (s : string) : string :=
  String (ascii_of_nat 34) (String.append s (String (ascii_of_nat 34) "")).

(** The two prefixes both readers of a did:key strip. *)
Definition did_multibase (value : string) : result string string :=
  match strip_prefix value "did:key:" with
  | None => Err (String.append "agent_id is not a did:key DID (missing " (String.append (quoted "did:key:") " prefix)"))
  | Some multibase =>
      match strip_prefix multibase "z" with
      | None => Err (String.append "agent_id is not a valid did:key DID (expected base58btc "
                       (String.append (quoted "z") " multibase prefix)"))
      | Some encoded => Ok encoded
      end
  end.

Definition NOT_BASE58 : string := "agent_id is not a valid did:key DID (multibase value is not valid base58btc)".

Definition validate_did_key `{Keys} (value : string) : result unit string :=
  let? encoded := did_multibase value in
  if is_empty encoded then Err "agent_id is not a valid did:key DID (empty multibase value)"
  else match bs58_decode encoded with
       | None => Err NOT_BASE58
       | Some [] => Err "agent_id is not a valid did:key DID (multibase value decodes to empty bytes)"
       | Some _ => Ok ()
       end.

Definition validate_proto_agent_id `{Keys} (id : ProtoAgentId) : result unit string :=
  if is_empty (pi_agent_id id) then Err "agent_id is empty" else validate_did_key (pi_agent_id id).

Definition ED25519_PUB_MULTICODEC : list N := [237; 1]%N.

Definition did_key_ed25519_public_key `{Keys} (value : string) : result (list N) string :=
  let? encoded := did_multibase value in
  match bs58_decode encoded with
  | None => Err NOT_BASE58
  | Some decoded =>
      if bool_decide (take 2 decoded = ED25519_PUB_MULTICODEC) then
        if (List.length (drop 2 decoded) =? 32)%nat then Ok (drop 2 decoded)
        else Err "agent_id did:key does not encode a 32-byte Ed25519 public key"
      else Err "agent_id did:key is not an ed25519-pub multicodec key"
  end.

Inductive DidKeyBindingError := Malformed (msg : string) | Mismatch.

Definition assert_did_key_binds_public_key `{Keys, Formats} (agent_id public_key_hex : string)
  : result unit DidKeyBindingError :=
  match did_key_ed25519_public_key agent_id with
  | Err msg => Err (Malformed msg)
  | Ok embedded =>
      match hex_decode public_key_hex with
      | None => Err (Malformed "public_key is not valid hex")
      | Some supplied =>
          if negb (List.length supplied =? 32)%nat then Err (Malformed "public_key must be 32 bytes (64 hex chars)")
          else if bool_decide (embedded = supplied) then Ok () else Err Mismatch
      end
  end.

Definition enforce_did_key_binding `{Keys, Formats} (agent_id public_key : string) : result unit Status :=
  match assert_did_key_binds_public_key agent_id public_key with
  | Ok _ => Ok ()
  | Err (Malformed msg) => status InvalidArgument msg
  | Err Mismatch => status Unauthenticated "agent_id did:key embedded public key does not match the supplied public_key"
  end.

(** ** Challenges *)

Definition CHALLENGE_TTL_SECS : Z := 30.
Definition CHALLENGE_TTL : Z := CHALLENGE_TTL_SECS * 1000000000.

Definition challenge_expiry_unix_ms (now : Reading) : Z := at_ms now + CHALLENGE_TTL_SECS * 1000.

Definition unknown_nonce {A} : result A Status := status Unauthenticated "unknown or already-used registration nonce".
Definition foreign_nonce {A} : result A Status :=
  status Unauthenticated "registration nonce was not issued for this agent_id + public_key".
Definition missing_nonce {A} : result A Status :=
  status Unauthenticated "missing registration_nonce — call RequestChallenge before Register (AAASM-3866)".

(** [ChallengeStoreLike]; the fresh nonce is an argument of [issue]. *)
Class ChallengeStore (S : Type) := {
  ch_issue : Reading → string → string → string → S → result (string * Z) Status * S;
  ch_consume : Reading → string → string → string → S → result unit Status * S;
}.

Module InMemory.
Record IssuedChallenge := { ic_agent_id : string; ic_public_key : string; ic_expires_at : Z }.

Definition Store : Type := gmap string IssuedChallenge.

Definition issue (now : Reading) (nonce agent_id public_key : string) (issued : Store)
  : result (string * Z) Status * Store :=
  (Ok (nonce, challenge_expiry_unix_ms now),
   <[nonce := {| ic_agent_id := agent_id; ic_public_key := public_key; ic_expires_at := at_instant now + CHALLENGE_TTL |}]>
     (filter (λ p, at_instant now < ic_expires_at (snd p)) issued)).

Definition consume (now : Reading) (nonce agent_id public_key : string) (issued : Store)
  : result unit Status * Store :=
  if is_empty nonce then (missing_nonce, issued)
  else
      match issued !! nonce with
      | None => (unknown_nonce, issued)
      | Some entry =>
          ((if ic_expires_at entry <? at_instant now
            then status Unauthenticated "registration nonce expired — request a fresh challenge"
            else if negb (String.eqb (ic_agent_id entry) agent_id) || negb (String.eqb (ic_public_key entry) public_key)
            then foreign_nonce else Ok ()), delete nonce issued)
      end.
End InMemory.

#[export] Instance in_memory_challenges : ChallengeStore InMemory.Store :=
  {| ch_issue := InMemory.issue; ch_consume := InMemory.consume |}.

(** The commands of a Redis server that are used; an error is a driver's. *)
Class Redis (R : Type) := {
  redis_set_ex : Z → string → string → Z → R → result unit string * R;
  redis_getdel : Z → string → R → result (option string) string * R;
}.

Module Shared.
Section Shared.
Context {R : Type} `{!Redis R}.

(** [{byte:02x}] of a byte. *)
Definition hex_byte (b : ascii) : string := hex_digits 2 (N_of_ascii b) "".

Fixpoint hex_text (bytes : string) : string :=
  match bytes with
  | EmptyString => EmptyString
  | String b rest => String.append (hex_byte b) (hex_text rest)
  end.

Definition challenge_key (nonce : string) : string := String.append "aa:challenge:" (hex_text nonce).

Definition UNIT_SEPARATOR : string := String (ascii_of_nat 31) "".

Definition binding_value (agent_id public_key : string) : string :=
  String.append agent_id (String.append UNIT_SEPARATOR public_key).

Definition issue (now : Reading) (nonce agent_id public_key : string) (conn : R)
  : result (string * Z) Status * R :=
  let (r, conn) := redis_set_ex (at_instant now) (challenge_key nonce) (binding_value agent_id public_key)
                     CHALLENGE_TTL_SECS conn in
  (match r with
   | Ok _ => Ok (nonce, challenge_expiry_unix_ms now)
   | Err _ => status Internal "could not issue registration challenge"
   end, conn).

Definition consume (now : Reading) (nonce agent_id public_key : string) (conn : R)
  : result unit Status * R :=
  if is_empty nonce then (missing_nonce, conn)
  else
      let (r, conn) := redis_getdel (at_instant now) (challenge_key nonce) conn in
      (match r with
       | Err _ => status Unauthenticated "registration challenge store unavailable"
       | Ok None => unknown_nonce
       | Ok (Some stored) =>
           if String.eqb stored (binding_value agent_id public_key) then Ok () else foreign_nonce
       end, conn).
End Shared.
End Shared.

#[export] Instance shared_challenges R `{!Redis R} : ChallengeStore R :=
  {| ch_issue := Shared.issue; ch_consume := Shared.consume |}.

(** ** The organisation of a registration *)

Record ResolvedOrg := { ro_org : option string; ro_key_bound : bool; ro_key_team : option string }.

Definition unbound (org : option string) : ResolvedOrg := {| ro_org := org; ro_key_bound := false; ro_key_team := None |}.

Definition non_blank (o : option string) : option string := o ≫= non_empty.

Section OrgBinder.
Context `{Credentials}.
Context (keys : ApiKeyStore).

(** [bind_presented] at the second [now]. *)
Definition bind_presented (now : Z) (presented : option string) (claimed : string) : result ResolvedOrg Status :=
  let claimed := non_empty claimed in
  match presented with
  | None =>
      match claimed with
      | None => Ok (unbound None)
      | Some _ => status PermissionDenied
          "agent_id.org_id is a claim and needs an organization-bound registration key (x-aa-registration-key); none was presented"
      end
  | Some raw =>
      match validate_detailed keys now raw with
      | Err _ => status Unauthenticated "registration key is not valid"
      | Ok entry =>
          let bound org := {| ro_org := Some org; ro_key_bound := true; ro_key_team := non_blank (ak_team_id entry) |} in
          match non_blank (ak_org_id entry), claimed with
          | Some org, None => Ok (bound org)
          | Some org, Some c =>
              if String.eqb org c then Ok (bound org)
              else status PermissionDenied "claimed org_id does not match the organization bound to the registration key"
          | None, None => Ok (unbound None)
          | None, Some c =>
              if has_scope ApiScope.Admin (ak_scopes entry) then Ok (unbound (Some c))
              else status PermissionDenied "the registration key is not bound to an organization and cannot assert one"
          end
      end
  end.

(** [resolve_binding]: the values of the header, each as [to_str] gives it. *)
Definition resolve_binding (now : Z) (values : list (option string)) (claimed : string) : result ResolvedOrg Status :=
  let unusable := status Unauthenticated "x-aa-registration-key must be one non-empty ASCII value" in
  match values with
  | [] => bind_presented now None claimed
  | [v] => match (v ≫= λ s, non_empty (trim s)) with
           | Some key => bind_presented now (Some key) claimed
           | None => unusable
           end
  | _ => unusable
  end.
End OrgBinder.

(** ** The service *)

Inductive TenancyMode := Untenanted | Tenanted.

Definition tenancy_parse (raw : string) : TenancyMode :=
  if String.eqb (to_ascii_lowercase (trim raw)) "tenanted" then Tenanted else Untenanted.

Definition tenancy_from_env (var : option string) : TenancyMode :=
  match var with Some v => tenancy_parse v | None => Untenanted end.

Record RegisterRequest := {
  rq_agent_id : option ProtoAgentId;
  rq_name : string;
  rq_framework : string;
  rq_version : string;
  rq_risk_tier : Z;
  rq_tool_names : list string;
  rq_public_key : string;
  rq_metadata : gmap string string;
  rq_parent_agent_id : option string;
  rq_delegation_reason : option string;
  rq_spawned_by_tool : option string;
  rq_enforcement_mode : Z;
  rq_registration_nonce : string;
  rq_possession_proof : string;
}.

Record RegisterResponse := {
  rs_credential_token : string;
  rs_assigned_policy : string;
  rs_heartbeat_interval_sec : Z;
  rs_parent_agent_id : option string;
  rs_team_id : option string;
  rs_root_agent_id : option AgentId;
  rs_org_id : option string;
}.

Definition DEFAULT_HEARTBEAT_INTERVAL_SEC : Z := 30.

(** The entries the service handed to its audit channel, and the head of its chain. *)
Record AuditTail := { at_chain : ChainState; at_sent : list AuditEntry }.

Section Service.
Context `{Keys, Formats, Credentials, UuidLib, ChronoLib, DecimalLib, Detectors}.
Context (dec_of_f64 : f64 → option dec) (sha256 : list Z → Digest).
Context {S : Type} `{!ChallengeStore S}.

(** [AgentLifecycleServiceImpl]; the lock of each map is the step it is used in. *)
Record Service := {
  sv_registry : AgentRegistry;
  sv_engine : option Engine;
  sv_audit : option AuditTail;
  sv_challenges : S;
  sv_tenancy_mode : TenancyMode;
  sv_keys : ApiKeyStore;
  sv_registering : gset AgentId;
}.
Implicit Types (sv : Service) (req : RegisterRequest).

Definition set_registry sv (g : AgentRegistry) : Service := {|
  sv_registry := g; sv_engine := sv_engine sv; sv_audit := sv_audit sv; sv_challenges := sv_challenges sv;
  sv_tenancy_mode := sv_tenancy_mode sv; sv_keys := sv_keys sv; sv_registering := sv_registering sv |}.

Definition set_challenges sv (c : S) : Service := {|
  sv_registry := sv_registry sv; sv_engine := sv_engine sv; sv_audit := sv_audit sv; sv_challenges := c;
  sv_tenancy_mode := sv_tenancy_mode sv; sv_keys := sv_keys sv; sv_registering := sv_registering sv |}.

Definition set_registering sv (m : gset AgentId) : Service := {|
  sv_registry := sv_registry sv; sv_engine := sv_engine sv; sv_audit := sv_audit sv; sv_challenges := sv_challenges sv;
  sv_tenancy_mode := sv_tenancy_mode sv; sv_keys := sv_keys sv; sv_registering := m |}.

Definition set_engine_audit sv (en : option Engine) (audit : option AuditTail) : Service := {|
  sv_registry := sv_registry sv; sv_engine := en; sv_audit := audit; sv_challenges := sv_challenges sv;
  sv_tenancy_mode := sv_tenancy_mode sv; sv_keys := sv_keys sv; sv_registering := sv_registering sv |}.

(** ** The checks *)

Definition text_status {A} (c : Code) (r : result A string) : result A Status :=
  match r with Ok a => Ok a | Err msg => status c msg end.

Definition require_agent_id (id : option ProtoAgentId) : result ProtoAgentId Status :=
  match id with Some id => Ok id | None => status InvalidArgument "missing agent_id" end.

(** The bytes of a well-formed Ed25519 key. *)
Definition parse_public_key (public_key : string) : result (list N) Status :=
  if is_empty public_key then status InvalidArgument "missing public_key"
  else match hex_decode public_key with
       | None => status InvalidArgument "public_key is not valid hex"
       | Some bytes =>
           if negb (List.length bytes =? 32)%nat then status InvalidArgument "public_key must be 32 bytes (64 hex chars)"
           else if is_verifying_key bytes then Ok bytes
           else status InvalidArgument "invalid Ed25519 public key"
       end.

Definition verify_possession_proof (verifying_key : list N) (challenge proof : string) : result unit Status :=
  if is_empty proof then status Unauthenticated "missing possession_proof — credential_token requires proof of key possession"
  else if negb (String.length proof =? 64)%nat
  then status Unauthenticated "possession_proof must be a 64-byte Ed25519 signature"
  else if verify_strict verifying_key challenge proof then Ok ()
  else status Unauthenticated "possession_proof did not verify against public_key".

Definition authoritative_enforcement_mode (proto_value : Z) : option EnforcementMode :=
  match EnforcementModes.from_proto_i32 proto_value with
  | Some Enforce => Some Enforce
  | _ => None
  end.

(** [request_challenge] with the fresh [nonce]. *)
Definition request_challenge (now : Reading) (nonce : string) (agent_id : option ProtoAgentId) (public_key : string) sv
  : result (string * Z) Status * Service :=
  let checked :=
    let? proto_id := require_agent_id agent_id in
    let? _ := text_status InvalidArgument (validate_proto_agent_id proto_id) in
    let? _ := parse_public_key public_key in
    let? _ := enforce_did_key_binding (pi_agent_id proto_id) public_key in
    Ok proto_id in
  match checked with
  | Err e => (Err e, sv)
  | Ok proto_id =>
      let (r, c) := ch_issue now nonce (pi_agent_id proto_id) public_key (sv_challenges sv) in
      (r, set_challenges sv c)
  end.

(** What the checks of a registration establish. *)
Record Checked := { ck_id : ProtoAgentId; ck_resolved : ResolvedOrg }.

(** The beginning of [register], up to the proof. *)
Definition register_checks (now : Reading) (header : list (option string)) req sv : result Checked Status * Service :=
  let claimed := match rq_agent_id req with Some id => pi_org_id id | None => "" end in
  let before :=
    let? resolved := resolve_binding (sv_keys sv) (at_secs now) header claimed in
    let? proto_id := require_agent_id (rq_agent_id req) in
    let? _ := text_status InvalidArgument (validate_proto_agent_id proto_id) in
    let? _ := (match sv_tenancy_mode sv with
               | Tenanted => if is_empty (pi_team_id proto_id)
                             then status FailedPrecondition "tenanted gateway: registration requires a non-empty team_id (AAASM-4032)"
                             else Ok ()
               | Untenanted => Ok ()
               end) in
    let? verifying_key := parse_public_key (rq_public_key req) in
    let? _ := enforce_did_key_binding (pi_agent_id proto_id) (rq_public_key req) in
    Ok (resolved, proto_id, verifying_key) in
  match before with
  | Err e => (Err e, sv)
  | Ok (resolved, proto_id, verifying_key) =>
      let (r, c) := ch_consume now (rq_registration_nonce req) (pi_agent_id proto_id) (rq_public_key req) (sv_challenges sv) in
      (let? _ := r in
       let? _ := verify_possession_proof verifying_key (rq_registration_nonce req) (rq_possession_proof req) in
       Ok {| ck_id := {| pi_org_id := default "" (ro_org resolved); pi_team_id := pi_team_id proto_id;
                         pi_agent_id := pi_agent_id proto_id |};
             ck_resolved := resolved |}, set_challenges sv c)
  end.

(** ** An agent that is already there *)

(** [e.to_string()] of a registry error; the cycle and the mode are left out of the texts. *)
Definition registry_error_text (e : RegistryError) : string :=
  match e with
  | RErr.AlreadyRegistered id => String.append "agent already registered: " (hex_id id)
  | RErr.NotFound id => String.append "agent not found: " (hex_id id)
  | RErr.Lineage (LErr.CircularDelegation _) => "lineage validation failed: circular agent delegation detected"
  | RErr.Lineage (LErr.MaxDepthExceeded depth max) =>
      String.append "lineage validation failed: max delegation depth exceeded: depth "
        (String.append (decimal (Z.to_N depth)) (String.append " > max " (decimal (Z.to_N max))))
  | RErr.Storage e => String.append "storage backend error: " e
  | RErr.InvalidTenantId field => String.append "invalid tenant id: " (String.append field " contains control characters")
  | RErr.UncappedShadowWindow _ => "refusing to persist an uncapped override with no expiry"
  end.

Definition already_registered {A} (agent_key : AgentId) : result A Status :=
  status AlreadyExists (registry_error_text (RErr.AlreadyRegistered agent_key)).

Definition rebind_existing (existing : AgentRecord) (public_key : string) : result RegisterResponse Status :=
  if negb (String.eqb (ap_public_key (ar_profile existing)) public_key) then already_registered (ar_agent_id existing)
  else Ok {| rs_credential_token := ar_credential_token existing; rs_assigned_policy := "";
             rs_heartbeat_interval_sec := DEFAULT_HEARTBEAT_INTERVAL_SEC;
             rs_parent_agent_id := ar_parent_agent_id existing; rs_team_id := ar_team_id existing;
             rs_root_agent_id := ar_root_agent_id existing; rs_org_id := ar_org_id existing |}.

(** [committed_record]; the registry is read before and after the marks. *)
Definition committed_record (before : AgentRegistry) (registering : gset AgentId) (after : AgentRegistry) (agent_key : AgentId)
  : option AgentRecord :=
  match get before agent_key with
  | None => None
  | Some first =>
      if bool_decide (agent_key ∈ registering) then None
      else match get after agent_key with
           | Some again => if String.eqb (ar_credential_token again) (ar_credential_token first) then Some again else None
           | None => None
           end
  end.

Definition refuse_or_rebind (before : AgentRegistry) (registering : gset AgentId) (after : AgentRegistry)
    (agent_key : AgentId) (resolved : ResolvedOrg) (public_key : string) : result RegisterResponse Status :=
  let authorized_org := if ro_key_bound resolved then ro_org resolved else None in
  match committed_record before registering after agent_key, authorized_org with
  | Some existing, Some org =>
      if bool_decide (ar_org_id existing = Some org) &&
         match ro_key_team resolved with Some team => bool_decide (ar_team_id existing = Some team) | None => true end
      then rebind_existing existing public_key
      else already_registered agent_key
  | _, _ => already_registered agent_key
  end.

(** ** A new agent *)

Definition agent_key_of (c : Checked) : AgentId := proto_agent_id_to_key (ck_id c).

(** The place of the agent in its tree: root, parent and depth. *)
Definition placement (g : AgentRegistry) (c : Checked) (parent : option string)
  : result (option AgentId * option AgentId * Z) Status :=
  match parent with
  | Some parent_str =>
      let pk := proto_agent_id_to_key {| pi_org_id := pi_org_id (ck_id c); pi_team_id := pi_team_id (ck_id c);
                                         pi_agent_id := parent_str |} in
      match get g pk with
      | None => status InvalidArgument "parent_agent_id not found in registry"
      | Some parent => Ok (Some (default (ar_agent_id parent) (ar_root_agent_id parent)), Some pk, ar_depth parent + 1)
      end
  | None => Ok (Some (agent_key_of c), None, 0)
  end.

Definition new_record (now : Reading) (token : string) (c : Checked) req (root parent_key : option AgentId) (depth : Z)
  : AgentRecord := {|
  ar_agent_id := agent_key_of c;
  ar_profile := {|
    ap_name := rq_name req; ap_framework := rq_framework req; ap_version := rq_version req;
    ap_risk_tier := rq_risk_tier req; ap_tool_names := rq_tool_names req; ap_public_key := rq_public_key req;
    ap_credential_token := token; ap_metadata := rq_metadata req; ap_registered_at := at_utc now; ap_pid := None;
    ap_layer := None; ap_governance_level := L0Discover; ap_team_id := non_empty (pi_team_id (ck_id c));
    ap_org_id := ro_org (ck_resolved c); ap_delegation_reason := rq_delegation_reason req;
    ap_spawned_by_tool := rq_spawned_by_tool req |};
  ar_last_heartbeat := at_utc now; ar_status := Active; ar_session_count := 0; ar_active_sessions := [];
  ar_parent_agent_id := rq_parent_agent_id req; ar_depth := depth; ar_root_agent_id := root; ar_children := [];
  ar_parent_key := parent_key; ar_enforcement_mode := authoritative_enforcement_mode (rq_enforcement_mode req);
  ar_enforcement_mode_expires_at := None |}.

(** A registration whose durable write is outstanding: the armed guard and the answer. *)
Record Pending := { pg_key : AgentId; pg_token : string; pg_response : RegisterResponse }.

Definition response_of (c : Checked) req (token : string) (root : option AgentId) : RegisterResponse := {|
  rs_credential_token := token; rs_assigned_policy := ""; rs_heartbeat_interval_sec := DEFAULT_HEARTBEAT_INTERVAL_SEC;
  rs_parent_agent_id := rq_parent_agent_id req; rs_team_id := non_empty (pi_team_id (ck_id c));
  rs_root_agent_id := root; rs_org_id := ro_org (ck_resolved c) |}.

(** The answer to a registry error that is not the collision. *)
Definition register_failure {A} (e : RegistryError) : result A Status :=
  match e with
  | RErr.Lineage _ => status InvalidArgument (registry_error_text e)
  | _ => status Internal (registry_error_text e)
  end.

Definition release (key : AgentId) sv : Service := set_registering sv (sv_registering sv ∖ {[key]}).

(** [Registering::enter]. *)
Definition enter (key : AgentId) sv : option Service :=
  if bool_decide (key ∈ sv_registering sv) then None
  else Some (set_registering sv ({[key]} ∪ sv_registering sv)).

(** What the insertion comes to: an answer, a collision with an agent that was committed in
    the meantime, or a durable write to wait for. *)
Inductive Outcome := Answered (r : result RegisterResponse Status) | Collided | Waiting (p : Pending).

(** From the mark to the durable write.  Every early return drops the mark.  [None] when the
    walk up the ancestors runs out of fuel. *)
Definition register_insert (fuel : nat) (now : Reading) (token : string) (c : Checked) req sv : option (Outcome * Service) :=
  let key := agent_key_of c in
  match placement (sv_registry sv) c (rq_parent_agent_id req) with
  | Err e => Some (Answered (Err e), release key sv)
  | Ok (root, parent_key, depth) =>
      match register fuel (sv_registry sv) (new_record now token c req root parent_key depth) with
      | None => None
      | Some (Ok g) =>
          Some (Waiting {| pg_key := key; pg_token := token; pg_response := response_of c req token root |}, set_registry sv g)
      | Some (Err (RErr.AlreadyRegistered _)) => Some (Collided, release key sv)
      | Some (Err e) => Some (Answered (register_failure e), release key sv)
      end
  end.

(** The durable write reports back. *)
Definition register_finish (fuel : nat) (p : Pending) (write : result unit string) sv
  : option (result RegisterResponse Status * Service) :=
  match write with
  | Ok _ => Some (Ok (pg_response p), release (pg_key p) sv)
  | Err e =>
      match deregister fuel (sv_registry sv) (pg_key p) Orphan.Suspend with
      | None => None
      | Some (g, _) => Some (register_failure (RErr.Storage e), release (pg_key p) (set_registry sv g))
      end
  end.

(** The handler is dropped while the write is outstanding: [Drop for Registering]. *)
Definition register_cancel (fuel : nat) (p : Pending) sv : option Service :=
  match get (sv_registry sv) (pg_key p) with
  | Some record =>
      if String.eqb (ar_credential_token record) (pg_token p) then
        match deregister fuel (sv_registry sv) (pg_key p) Orphan.Suspend with
        | None => None
        | Some (g, _) => Some (release (pg_key p) (set_registry sv g))
        end
      else Some (release (pg_key p) sv)
  | None => Some (release (pg_key p) sv)
  end.

(** ** The calls of a registered agent *)

Definition validate_token (g : AgentRegistry) (agent_id : AgentId) (token : string) : bool :=
  match get g agent_id with
  | Some record => String.eqb (ar_credential_token record) token
  | None => false
  end.

Definition with_token sv (agent_id : option ProtoAgentId) (token : string) : result (ProtoAgentId * AgentId) Status :=
  let? proto_id := require_agent_id agent_id in
  let key := proto_agent_id_to_key proto_id in
  if validate_token (sv_registry sv) key token then Ok (proto_id, key)
  else status Unauthenticated "invalid credential token".

Definition not_found {A} (e : RegistryError) : result A Status := status NotFound (registry_error_text e).

(** The entries of the evicted agents; the head of the chain moves on whether or not the
    channel [accepts] the entry. *)
Definition audit_evicted (timestamp_ns : Z) (accepts : AgentId → bool) (tail : AuditTail) (key : AgentId) : AuditTail :=
  let entry := entry_new sha256 (cs_next_seq (at_chain tail)) timestamp_ns Event.AgentForceDeregistered key 0%N
                 (String.append "{" (String.append (quoted "reason") (String.append ":" (String.append (quoted "age_exceeded") "}"))))
                 (cs_last_hash (at_chain tail)) in
  {| at_chain := {| cs_next_seq := cs_next_seq (at_chain tail) + 1; cs_last_hash := ae_entry_hash entry |};
     at_sent := at_sent tail ++ if accepts key then [entry] else [] |}.

(** Whether an agent suspended over its budget may go on: never without an engine. *)
Definition within_budget sv (key : AgentId) (now : Z) : option Engine * bool :=
  match sv_engine sv with
  | Some en => let (en, ok) := is_within_budget dec_of_f64 en key now in (Some en, ok)
  | None => (None, false)
  end.

Definition heartbeat (now : Reading) (timestamp_ns : Z) (accepts : AgentId → bool) (agent_id : option ProtoAgentId)
    (token : string) sv : result bool Status * Service :=
  match with_token sv agent_id token with
  | Err e => (Err e, sv)
  | Ok (_, key) =>
      match update_heartbeat (sv_registry sv) key (at_utc now) with
      | Err e => (not_found e, sv)
      | Ok g =>
          let sv := set_registry sv g in
          let '(should_suspend, sv) :=
            match ar_status <$> get g key with
            | Some (Suspended Suspend.BudgetExceeded) =>
                let (en, ok) := within_budget sv key (at_utc now) in
                let sv := set_engine_audit sv en (sv_audit sv) in
                if ok then (false, set_registry sv (fst (resume_agent g key))) else (true, sv)
            | Some (Suspended _) => (true, sv)
            | _ => (false, sv)
            end in
          let (g, evicted) := sweep_aged_agents (sv_registry sv) (at_secs now) in
          let audit := (λ tail, foldl (audit_evicted timestamp_ns accepts) tail evicted) <$> sv_audit sv in
          (Ok should_suspend, set_engine_audit (set_registry sv g) (sv_engine sv) audit)
      end
  end.

(** [deregister]; [storage] is what the durable delete answers, if there is a store. *)
Definition deregister_rpc (fuel : nat) (storage : option DeleteOutcome) (agent_id : option ProtoAgentId) (token : string) sv
  : option (result string Status * Service) :=
  match with_token sv agent_id token with
  | Err e => Some (Err e, sv)
  | Ok (proto_id, key) =>
      match deregister_persisted fuel (sv_registry sv) key Orphan.Suspend storage with
      | None => None
      | Some (g, Ok _) => Some (Ok (pi_agent_id proto_id), set_registry sv g)
      | Some (g, Err (RErr.Storage e)) => Some (status Internal (registry_error_text (RErr.Storage e)), set_registry sv g)
      | Some (g, Err e) => Some (not_found e, set_registry sv g)
      end
  end.

Definition control_stream (agent_id : option ProtoAgentId) (token : string) sv : result unit Status * Service :=
  match with_token sv agent_id token with
  | Err e => (Err e, sv)
  | Ok (_, key) =>
      match open_control_stream (sv_registry sv) key with
      | Err e => (not_found e, sv)
      | Ok g => (Ok (), set_registry sv g)
      end
  end.

(** ** Registrations side by side

    A call of [register] is a task; other calls run between its accesses to the registry, the
    marks and the durable store.  [ts_first] has read the registry, [ts_marks] also the marks:
    the three reads of [committed_record]. *)
Inductive Task :=
  | ts_arrived (c : Checked) (req : RegisterRequest)
  | ts_entering (c : Checked) (req : RegisterRequest)
  | ts_marked (c : Checked) (req : RegisterRequest)
  | ts_waiting (c : Checked) (req : RegisterRequest) (p : Pending)
  | ts_existing (c : Checked) (req : RegisterRequest)
  | ts_first (c : Checked) (req : RegisterRequest) (before : AgentRegistry)
  | ts_marks (c : Checked) (req : RegisterRequest) (before : AgentRegistry) (marks : gset AgentId).

Inductive Event :=
  | ev_challenge (now : Reading) (nonce : string) (agent_id : option ProtoAgentId) (public_key : string)
  | ev_accepted (now : Reading) (c : Checked) (req : RegisterRequest)
  | ev_answer (c : Checked) (req : RegisterRequest) (r : result RegisterResponse Status)
  | ev_internal.

(** [w_minted] are the tokens drawn so far, [w_written] the agents the durable store has
    acknowledged with their tokens. *)
Record World := {
  w_service : Service;
  w_tasks : list Task;
  w_minted : gset string;
  w_written : gset (AgentId * string);
}.

Definition with_tasks (w : World) sv (ts : list Task) : World :=
  {| w_service := sv; w_tasks := ts; w_minted := w_minted w; w_written := w_written w |}.

Definition mint (w : World) (token : string) : World := {|
  w_service := w_service w; w_tasks := w_tasks w; w_minted := {[token]} ∪ w_minted w; w_written := w_written w |}.

Definition written (w : World) (p : Pending) : World := {|
  w_service := w_service w; w_tasks := w_tasks w; w_minted := w_minted w;
  w_written := {[(pg_key p, pg_token p)]} ∪ w_written w |}.

Definition after_insert (c : Checked) req (o : Outcome) : list Task * Event :=
  match o with
  | Answered r => ([], ev_answer c req r)
  | Collided => ([ts_existing c req], ev_internal)
  | Waiting p => ([ts_waiting c req p], ev_internal)
  end.

(** The agents with what their registration said of them. *)
Definition profiles (g : AgentRegistry) : gmap AgentId AgentProfile := ar_profile <$> rg_agents g.

(** One access of one call.  [st_other] stands for the rest of the gateway, which removes
    agents and changes what is not part of a registration. *)
Inductive step (w : World) : Event → World → Prop :=
  | st_challenge now nonce id pk r sv :
      request_challenge now nonce id pk (w_service w) = (r, sv) →
      step w (ev_challenge now nonce id pk) (with_tasks w sv (w_tasks w))
  | st_refused now header req e sv :
      register_checks now header req (w_service w) = (Err e, sv) →
      step w ev_internal (with_tasks w sv (w_tasks w))
  | st_accepted now header req c sv :
      register_checks now header req (w_service w) = (Ok c, sv) →
      step w (ev_accepted now c req) (with_tasks w sv (ts_arrived c req :: w_tasks w))
  | st_lookup c req ts :
      w_tasks w ≡ₚ ts_arrived c req :: ts →
      step w ev_internal (with_tasks w (w_service w)
        ((if get (sv_registry (w_service w)) (agent_key_of c) is Some _ then ts_existing c req else ts_entering c req) :: ts))
  | st_enter c req ts sv :
      w_tasks w ≡ₚ ts_entering c req :: ts → enter (agent_key_of c) (w_service w) = Some sv →
      step w ev_internal (with_tasks w sv (ts_marked c req :: ts))
  | st_no_entry c req ts :
      w_tasks w ≡ₚ ts_entering c req :: ts → enter (agent_key_of c) (w_service w) = None →
      step w (ev_answer c req (already_registered (agent_key_of c))) (with_tasks w (w_service w) ts)
  | st_insert fuel now token c req ts o sv :
      w_tasks w ≡ₚ ts_marked c req :: ts → token ∉ w_minted w →
      register_insert fuel now token c req (w_service w) = Some (o, sv) →
      step w (snd (after_insert c req o)) (with_tasks (mint w token) sv (fst (after_insert c req o) ++ ts))
  | st_written fuel c req p ts r sv :
      w_tasks w ≡ₚ ts_waiting c req p :: ts →
      register_finish fuel p (Ok ()) (w_service w) = Some (r, sv) →
      step w (ev_answer c req r) (with_tasks (written w p) sv ts)
  | st_write_failed fuel c req p ts e r sv :
      w_tasks w ≡ₚ ts_waiting c req p :: ts →
      register_finish fuel p (Err e) (w_service w) = Some (r, sv) →
      step w (ev_answer c req r) (with_tasks w sv ts)
  | st_cancelled fuel c req p ts sv :
      w_tasks w ≡ₚ ts_waiting c req p :: ts → register_cancel fuel p (w_service w) = Some sv →
      step w ev_internal (with_tasks w sv ts)
  | st_first c req ts :
      w_tasks w ≡ₚ ts_existing c req :: ts →
      step w ev_internal (with_tasks w (w_service w) (ts_first c req (sv_registry (w_service w)) :: ts))
  | st_marks c req before ts :
      w_tasks w ≡ₚ ts_first c req before :: ts →
      step w ev_internal (with_tasks w (w_service w) (ts_marks c req before (sv_registering (w_service w)) :: ts))
  | st_rebind c req before marks ts :
      w_tasks w ≡ₚ ts_marks c req before marks :: ts →
      step w (ev_answer c req (refuse_or_rebind before marks (sv_registry (w_service w)) (agent_key_of c)
                                 (ck_resolved c) (rq_public_key req)))
             (with_tasks w (w_service w) ts)
  | st_heartbeat now ns accepts id token r sv :
      heartbeat now ns accepts id token (w_service w) = (r, sv) →
      step w ev_internal (with_tasks w sv (w_tasks w))
  | st_deregister fuel storage id token r sv :
      deregister_rpc fuel storage id token (w_service w) = Some (r, sv) →
      step w ev_internal (with_tasks w sv (w_tasks w))
  | st_control id token r sv :
      control_stream id token (w_service w) = (r, sv) →
      step w ev_internal (with_tasks w sv (w_tasks w))
  | st_other g :
      profiles g ⊆ profiles (sv_registry (w_service w)) →
      step w ev_internal (with_tasks w (set_registry (w_service w) g) (w_tasks w)).

Inductive run (w : World) : list Event → World → Prop :=
  | run_nil : run w [] w
  | run_snoc tr w1 e w2 : run w tr w1 → step w1 e w2 → run w (tr ++ [e]) w2.
End Service.
#[global] Arguments Service {_ _ _} S.
#[global] Arguments World {_ _ _} S.
