(* ===== verification/LifecycleProps.v ===== *)
(** * LifecycleProps: who is given a credential

    Registrations that run side by side: a token is answered only for an agent the durable
    store has acknowledged, and a second process is given it only with a key of the agent's
    organisation and team.  A nonce is accepted once, from the holder of the key it was
    issued for, whichever store keeps it. *)

From stdpp Require Import base gmap strings list sets.
From Stdlib Require Import ZArith Lia Bool Ascii String.
From S2P Require Import Prelude.
From S2P Require Import Text.
From S2P Require Import Float64.
From S2P Require Import CoreTypes.
From S2P Require Import External.
From S2P Require Import Detection.
From S2P Require Import Registry.
From S2P Require Import Engine.
From S2P Require Import AuditChain.
From S2P Require Import Auth.
From S2P Require Import AuthProps.
From S2P Require Import EdgeApi.
From S2P Require Import TopologyService.
From S2P Require Import Lifecycle.

Open Scope Z_scope.
Open Scope aasm_scope.

(** ** What the registry keeps of a registration *)

Lemma profiles_lookup g k : profiles g !! k = ar_profile <$> get g k.
Proof. apply lookup_fmap. Qed.

Lemma profiles_alter f k g :
  (∀ r, ar_profile (f r) = ar_profile r) → profiles (alter_agent f k g) = profiles g.
Proof.
  intros Hf. apply map_eq. intros i. rewrite !profiles_lookup. unfold get, alter_agent. simpl.
  destruct (decide (k = i)) as [->|Hne]; [|by rewrite lookup_alter_ne].
  rewrite lookup_alter_eq. destruct (rg_agents g !! i); simpl; [by rewrite Hf|done].
Qed.

Lemma profiles_foldl_alter f ks g :
  (∀ r, ar_profile (f r) = ar_profile r) → profiles (foldl (λ g k, alter_agent f k g) g ks) = profiles g.
Proof.
  intros Hf. revert g. induction ks as [|k ks IH]; intros g; simpl; [done|]. by rewrite IH, profiles_alter.
Qed.

Lemma profiles_insert_agent g record :
  profiles (insert_agent g record) = <[ar_agent_id record := ar_profile record]> (profiles g).
Proof.
  unfold insert_agent. change (profiles (with_indexes ?x _ _ _ _)) with (profiles x).
  destruct (ar_parent_key record); [rewrite profiles_alter by done|]; unfold profiles; simpl; by rewrite fmap_insert.
Qed.

Lemma profiles_register fuel g record g' :
  register fuel g record = Some (Ok g') →
  profiles g' = <[ar_agent_id record := ar_profile record]> (profiles g).
Proof.
  unfold register. intros H. repeat case_match; simplify_eq; apply profiles_insert_agent.
Qed.

Lemma profiles_remove_agent g id record : profiles (remove_agent g id record) = delete id (profiles g).
Proof.
  unfold remove_agent. change (profiles (with_indexes ?x _ _ _ _)) with (profiles x).
  destruct (ar_parent_key record); [rewrite profiles_alter by done|]; unfold profiles; simpl; by rewrite fmap_delete.
Qed.

Section Profiles.
Context `{UuidLib}.

Lemma profiles_suspend_orphan g k eff : profiles (suspend_orphan g k eff).1 = profiles g.
Proof. unfold suspend_orphan. case_match; simpl; [by apply profiles_alter|done]. Qed.

Lemma profiles_orphan fuel g k eff g' eff' :
  apply_orphan_mode_recursive fuel g k Orphan.Suspend eff = Some (g', eff') → profiles g' = profiles g.
Proof.
  revert g k eff g' eff'. induction fuel as [|fuel IH]; intros g k eff g' eff'; simpl; [done|].
  pose proof (profiles_suspend_orphan g k eff) as Hs. destruct (suspend_orphan g k eff) as [g1 eff1]. simpl in Hs.
  rewrite <- Hs. generalize (children_of g k). intros ks. clear Hs. revert g1 eff1.
  induction ks as [|c ks IHk]; intros g1 eff1; [by intros [= -> ->]|].
  destruct (apply_orphan_mode_recursive fuel g1 c Orphan.Suspend eff1) as [[g2 eff2]|] eqn:E; [|done].
  intros Hk%IHk. rewrite Hk. by eapply IH.
Qed.

Lemma profiles_orphan_children fuel g ks eff g' eff' :
  orphan_children fuel g ks Orphan.Suspend eff = Some (g', eff') → profiles g' = profiles g.
Proof.
  revert g eff. induction ks as [|k ks IH]; intros g eff; simpl; [by intros [= -> ->]|].
  destruct (apply_orphan_mode_recursive fuel g k Orphan.Suspend eff) as [[g1 eff1]|] eqn:E; [|done].
  intros Hk%IH. rewrite Hk. by eapply profiles_orphan.
Qed.

Lemma profiles_deregister fuel g id g' out :
  deregister fuel g id Orphan.Suspend = Some (g', out) → profiles g' = delete id (profiles g).
Proof.
  unfold deregister. destruct (get (with_indexes _ _ _ _ _) id) as [record|] eqn:Hg; intros Hd.
  - destruct (orphan_children _ _ _ _ _) as [[g1 eff]|] eqn:E; [|done]. simplify_eq.
    apply profiles_orphan_children in E. by rewrite E, profiles_remove_agent.
  - simplify_eq. symmetry. apply delete_id. rewrite profiles_lookup. unfold get in *. simpl in *. by rewrite Hg.
Qed.
End Profiles.

Lemma profiles_sweep g now : profiles (sweep_aged_agents g now).1 = profiles g.
Proof. by apply profiles_foldl_alter. Qed.

Lemma profiles_resume g id : profiles (resume_agent g id).1 = profiles g.
Proof. unfold resume_agent. case_match; simpl; [by rewrite profiles_alter|done]. Qed.

Lemma profiles_heartbeat g id now g' : update_heartbeat g id now = Ok g' → profiles g' = profiles g.
Proof. unfold update_heartbeat. intros H. case_match; simplify_eq. by apply profiles_alter. Qed.

(** ** What a challenge store promises *)

(** No text with the separator of the shared store's values in it. *)
Definition plain (s : string) : Prop := ascii_of_nat 31 ∉ list_ascii_of_string s.

(** [redeemable s n a pk e]: the nonce [n] may be redeemed by [a] with the key [pk] until [e]. *)
Class ChallengeLaws (S : Type) `{!ChallengeStore S} := {
  redeemable : S → string → string → string → Z → Prop;
  issue_redeemable now n a pk s r s' n' a' pk' e :
    plain a → plain a' → ch_issue now n a pk s = (r, s') → redeemable s' n' a' pk' e →
    redeemable s n' a' pk' e ∨ n' = n ∧ a' = a ∧ pk' = pk ∧ e = at_instant now + CHALLENGE_TTL;
  consume_shrinks now n a pk s r s' n' a' pk' e :
    ch_consume now n a pk s = (r, s') → redeemable s' n' a' pk' e → redeemable s n' a' pk' e;
  consume_ok now n a pk s s' :
    ch_consume now n a pk s = (Ok (), s') →
    (∃ e, redeemable s n a pk e ∧ at_instant now ≤ e) ∧ ∀ a' pk' e', ¬ redeemable s' n a' pk' e';
}.

#[export, program] Instance in_memory_laws : ChallengeLaws InMemory.Store := {|
  redeemable s n a pk e :=
    s !! n = Some {| InMemory.ic_agent_id := a; InMemory.ic_public_key := pk; InMemory.ic_expires_at := e |};
|}.
Next Obligation.
  intros now n a pk s r s' n' a' pk' e _ _ [= _ <-] Hl.
  apply lookup_insert_Some in Hl as [[<- [= <- <- <-]]|[_ Hl]]; [by right|left].
  by apply map_lookup_filter_Some in Hl as [Hl _].
Qed.
Next Obligation.
  intros now n a pk s r s' n' a' pk' e. simpl. unfold InMemory.consume. intros Hc Hl.
  repeat case_match; simplify_eq; try done; by apply lookup_delete_Some in Hl as [_ Hl].
Qed.
Next Obligation.
  intros now n a pk s s'. simpl. unfold InMemory.consume, missing_nonce, unknown_nonce, foreign_nonce, status.
  destruct (is_empty n); [done|]. destruct (s !! n) as [[a0 pk0 e0]|]; [|done]. simpl.
  destruct (Z.ltb_spec e0 (at_instant now)); [done|]. destruct (String.eqb_spec a0 a) as [->|]; [|done].
  destruct (String.eqb_spec pk0 pk) as [->|]; [|done]. intros [= <-]. split; [by exists e0|].
  intros a' pk' e' Hl. by apply lookup_delete_Some in Hl as [? _].
Qed.

(** What the shared store relies on: [SET key value EX ttl] and [GETDEL] on a server that
    drops a key at its deadline. *)
Class RedisLaws (R : Type) `{!Redis R} := {
  redis_holds : R → string → string → Z → Prop;
  set_ex_holds now k v ttl c r c' k' v' e :
    redis_set_ex now k v ttl c = (r, c') → redis_holds c' k' v' e →
    redis_holds c k' v' e ∨ k' = k ∧ v' = v ∧ e = now + ttl * 1000000000;
  getdel_shrinks now k c r c' k' v' e :
    redis_getdel now k c = (r, c') → redis_holds c' k' v' e → redis_holds c k' v' e;
  getdel_found now k c v c' :
    redis_getdel now k c = (Ok (Some v), c') →
    (∃ e, redis_holds c k v e ∧ now ≤ e) ∧ ∀ v' e', ¬ redis_holds c' k v' e';
}.

Definition unhex (c : ascii) : N := let n := N_of_ascii c in (if n <? 58 then n - 48 else n - 87)%N.

Lemma hex_byte_spec b : ∃ x y, Shared.hex_byte b = String x (String y "") ∧ ascii_of_N (unhex x * 16 + unhex y) = b.
Proof. destruct b as [[] [] [] [] [] [] [] []]; do 2 eexists; (split; [reflexivity|vm_compute; reflexivity]). Qed.

Lemma hex_text_inj s s' : Shared.hex_text s = Shared.hex_text s' → s = s'.
Proof.
  revert s'. induction s as [|b s IH]; intros [|b' s']; cbn [Shared.hex_text]; [done| | |].
  - destruct (hex_byte_spec b') as (x & y & -> & _). done.
  - destruct (hex_byte_spec b) as (x & y & -> & _). done.
  - destruct (hex_byte_spec b) as (x & y & -> & <-), (hex_byte_spec b') as (x' & y' & -> & <-). simpl.
    intros [= -> -> ->%IH]. done.
Qed.

Lemma challenge_key_inj n n' : Shared.challenge_key n = Shared.challenge_key n' → n = n'.
Proof. unfold Shared.challenge_key. intros [= H%hex_text_inj]. done. Qed.

Lemma binding_value_inj a pk a' pk' :
  plain a → plain a' → Shared.binding_value a pk = Shared.binding_value a' pk' → a = a' ∧ pk = pk'.
Proof.
  unfold plain, Shared.binding_value. revert a'. induction a as [|c a IH]; intros [|c' a']; simpl.
  - by intros _ _ [= ->].
  - intros _ Hn [= <- _]. destruct Hn. left.
  - intros Hn _ [= -> _]. destruct Hn. left.
  - intros Hn Hn' [= <- He]. apply not_elem_of_cons in Hn as [_ Hn], Hn' as [_ Hn'].
    by destruct (IH a' Hn Hn' He) as [-> ->].
Qed.

#[export, program] Instance shared_laws R `{RedisLaws R} : ChallengeLaws R := {|
  redeemable c n a pk e := redis_holds c (Shared.challenge_key n) (Shared.binding_value a pk) e;
|}.
Next Obligation.
  intros R ? ? now n a pk s r s' n' a' pk' e Ha Ha'. simpl. unfold Shared.issue.
  destruct (redis_set_ex _ _ _ _ s) as [r0 s0] eqn:Hs. intros [= _ <-] Hh.
  destruct (set_ex_holds _ _ _ _ _ _ _ _ _ _ Hs Hh) as [?|(Hk & Hb & He)]; [by left|right].
  apply challenge_key_inj in Hk as ->. apply binding_value_inj in Hb as [-> ->]; done.
Qed.
Next Obligation.
  intros R ? ? now n a pk s r s' n' a' pk' e. simpl. unfold Shared.consume.
  destruct (is_empty n); [by intros [= _ <-]|]. destruct (redis_getdel _ _ s) as [r0 s0] eqn:Hg. intros [= _ <-].
  by apply (getdel_shrinks _ _ _ _ _ _ _ _ Hg).
Qed.
Next Obligation.
  intros R ? ? now n a pk s s'. simpl. unfold Shared.consume, missing_nonce, unknown_nonce, foreign_nonce, status.
  destruct (is_empty n); [done|]. destruct (redis_getdel _ _ s) as [[[stored|]|] s0] eqn:Hg; [|done..].
  destruct (String.eqb_spec stored (Shared.binding_value a pk)) as [->|]; [|done]. intros [= <-].
  destruct (getdel_found _ _ _ _ _ Hg) as [He Hn]. split; [done|]. intros a' pk' e'. apply Hn.
Qed.

(** ** The calls of registered agents *)

Section Calls.
Context `{Keys, Formats, Credentials, UuidLib, ChronoLib, DecimalLib, Detectors}.
Context (dec_of_f64 : f64 → option dec) (sha256 : list Z → Digest).
Context {S : Type} `{!ChallengeStore S}.
Implicit Types (sv : Service S) (w : World S) (t : Task).

(** Agents are only removed; marks and challenges stay. *)
Definition shrinks sv sv' : Prop :=
  profiles (sv_registry sv') ⊆ profiles (sv_registry sv) ∧ sv_registering sv' = sv_registering sv ∧
  sv_challenges sv' = sv_challenges sv.

Lemma shrinks_refl sv : shrinks sv sv.
Proof. done. Qed.

Lemma shrinks_same sv sv' :
  profiles (sv_registry sv') = profiles (sv_registry sv) → sv_registering sv' = sv_registering sv →
  sv_challenges sv' = sv_challenges sv → shrinks sv sv'.
Proof. intros Hp Hr Hc. unfold shrinks. by rewrite Hp, Hr, Hc. Qed.

Lemma heartbeat_shrinks now ns accepts id token sv r sv' :
  heartbeat dec_of_f64 sha256 now ns accepts id token sv = (r, sv') → shrinks sv sv'.
Proof.
  unfold heartbeat. destruct (with_token sv id token) as [[proto key]|e]; [|intros [= _ <-]; apply shrinks_refl].
  destruct (update_heartbeat _ _ _) as [g|e] eqn:Hu; [|intros [= _ <-]; apply shrinks_refl].
  apply profiles_heartbeat in Hu.
  destruct (match ar_status <$> get g key with Some (Suspended _) => _ | _ => _ end) as [suspend sv1] eqn:Hm.
  assert (profiles (sv_registry sv1) = profiles g ∧ sv_registering sv1 = sv_registering sv ∧
          sv_challenges sv1 = sv_challenges sv) as (Hp & Hr & Hc).
  { repeat case_match; simplify_eq; simpl; rewrite ?profiles_resume; done. }
  pose proof (profiles_sweep (sv_registry sv1) (at_secs now)) as Hs.
  destruct (sweep_aged_agents (sv_registry sv1) (at_secs now)) as [g2 evicted]. intros [= _ <-].
  apply shrinks_same; simpl in *; congruence.
Qed.

Lemma deregister_shrinks fuel storage id token sv r sv' :
  deregister_rpc fuel storage id token sv = Some (r, sv') → shrinks sv sv'.
Proof.
  unfold deregister_rpc. destruct (with_token sv id token) as [[proto key]|e]; [|intros [= _ <-]; apply shrinks_refl].
  destruct (deregister_persisted _ _ _ _ _) as [[g out]|] eqn:Hd; [|done].
  assert (profiles g ⊆ profiles (sv_registry sv)) as Hp.
  { unfold deregister_persisted in Hd. repeat case_match; simplify_eq; try done;
      apply profiles_deregister in Hd; rewrite Hd; apply delete_subseteq. }
  intros Ho. repeat case_match; simplify_eq; done.
Qed.

Lemma control_shrinks id token sv r sv' : control_stream id token sv = (r, sv') → shrinks sv sv'.
Proof.
  unfold control_stream, open_control_stream. intros Hc. repeat case_match; simplify_eq; done.
Qed.

Lemma challenge_frame now nonce id pk sv r sv' :
  request_challenge now nonce id pk sv = (r, sv') →
  sv_registry sv' = sv_registry sv ∧ sv_registering sv' = sv_registering sv.
Proof. unfold request_challenge. intros Hc. repeat case_match; by simplify_eq. Qed.

Lemma checks_frame now header req sv r sv' :
  register_checks now header req sv = (r, sv') →
  sv_registry sv' = sv_registry sv ∧ sv_registering sv' = sv_registering sv.
Proof. unfold register_checks. intros Hc. repeat case_match; by simplify_eq. Qed.

(** ** The invariant of the registrations in flight *)

Definition holds_mark t : option AgentId :=
  match t with
  | ts_marked c _ => Some (agent_key_of c)
  | ts_waiting c _ _ => Some (agent_key_of c)
  | _ => None
  end.

Definition marks_ok (m : gset AgentId) (ts : list Task) : Prop := omap holds_mark ts ≡ₚ elements m.

#[local] Instance marks_ok_perm m : Proper ((≡ₚ) ==> iff) (marks_ok m).
Proof. intros ts ts' E. unfold marks_ok. by rewrite E. Qed.

Lemma marks_ok_none m t ts : holds_mark t = None → marks_ok m (t :: ts) ↔ marks_ok m ts.
Proof. intros E. unfold marks_ok. simpl. by rewrite E. Qed.

Lemma marks_ok_app m ts ts' : Forall (λ t, holds_mark t = None) ts' → marks_ok m ts → marks_ok m (ts' ++ ts).
Proof. induction 1; simpl; [done|]. intros Hm. rewrite marks_ok_none; auto. Qed.

Lemma marks_ok_enter m t ts k :
  holds_mark t = Some k → k ∉ m → marks_ok m ts → marks_ok ({[k]} ∪ m) (t :: ts).
Proof. intros E Hk Hm. unfold marks_ok in *. simpl. rewrite E, elements_union_singleton by done. by rewrite Hm. Qed.

Lemma marks_ok_swap m t t' ts : holds_mark t = holds_mark t' → marks_ok m (t :: ts) → marks_ok m (t' :: ts).
Proof. intros E. unfold marks_ok. simpl. by rewrite E. Qed.

Lemma marks_ok_elem m t ts k : marks_ok m (t :: ts) → holds_mark t = Some k → k ∈ m.
Proof. unfold marks_ok. simpl. intros Hm E. rewrite E in Hm. apply elem_of_elements. rewrite <- Hm. left. Qed.

Lemma marks_ok_release m t ts k : holds_mark t = Some k → marks_ok m (t :: ts) → marks_ok (m ∖ {[k]}) ts.
Proof.
  intros E Hm. assert (k ∈ m) as Hk by by eapply marks_ok_elem.
  unfold marks_ok in *. simpl in Hm. rewrite E in Hm.
  rewrite (union_difference_singleton_L k m), elements_union_singleton in Hm by set_solver.
  by apply (inj (k ::.)) in Hm.
Qed.

Definition waits w (k : AgentId) (token : string) : Prop :=
  ∃ c req p, ts_waiting c req p ∈ w_tasks w ∧ agent_key_of c = k ∧ pg_token p = token.

Abbreviation live w := (profiles (sv_registry (w_service w))).

Definition task_ok w t : Prop :=
  match t with
  | ts_waiting c req p => pg_key p = agent_key_of c ∧ rs_credential_token (pg_response p) = pg_token p
  | ts_first c req before =>
      ∀ pr, profiles before !! agent_key_of c = Some pr → ap_credential_token pr ∈ w_minted w
  | ts_marks c req before marks =>
      agent_key_of c ∉ marks → ∀ pr, profiles before !! agent_key_of c = Some pr →
      ap_credential_token pr ∈ w_minted w ∧
      ∀ pr', live w !! agent_key_of c = Some pr' → ap_credential_token pr' = ap_credential_token pr →
      (agent_key_of c, ap_credential_token pr) ∈ w_written w
  | _ => True
  end.

Record inv w : Prop := {
  inv_marks : marks_ok (sv_registering (w_service w)) (w_tasks w);
  inv_minted : ∀ k pr, live w !! k = Some pr → ap_credential_token pr ∈ w_minted w;
  inv_written : ∀ k pr, live w !! k = Some pr →
    (k, ap_credential_token pr) ∈ w_written w ∨ waits w k (ap_credential_token pr);
  inv_tasks : ∀ t, t ∈ w_tasks w → task_ok w t;
}.

(** What a step may do to the agents: keep, remove, or add one with a fresh token. *)
Definition grows_fresh w w' : Prop :=
  ∀ k pr, live w' !! k = Some pr → live w !! k = Some pr ∨
    ap_credential_token pr ∉ w_minted w ∧ ap_credential_token pr ∈ w_minted w' ∧ waits w' k (ap_credential_token pr).

Lemma task_ok_mono w w' t :
  grows_fresh w w' → w_minted w ⊆ w_minted w' → w_written w ⊆ w_written w' → task_ok w t → task_ok w' t.
Proof.
  intros Hg Hm Hw. destruct t as [| | | | |c req before|c req before marks]; simpl; try done.
  - intros Ht pr Hpr. by apply Hm, Ht.
  - intros Ht Hk pr Hpr. destruct (Ht Hk pr Hpr) as [Hi Hl]. split; [by apply Hm|].
    intros pr' Hpr' He. destruct (Hg _ _ Hpr') as [Hold|(Hf & _)]; [by eapply Hw, Hl|congruence].
Qed.

Lemma inv_move w w' :
  inv w → grows_fresh w w' → w_minted w ⊆ w_minted w' → w_written w ⊆ w_written w' →
  marks_ok (sv_registering (w_service w')) (w_tasks w') →
  (∀ k pr, live w' !! k = Some pr → waits w k (ap_credential_token pr) →
     (k, ap_credential_token pr) ∈ w_written w' ∨ waits w' k (ap_credential_token pr)) →
  (∀ t, t ∈ w_tasks w' → t ∈ w_tasks w ∨ task_ok w' t) → inv w'.
Proof.
  intros [Ik Im Iw It] Hg Hm Hw Hk Hwait Ht. split; [done| | |].
  - intros k pr Hpr. destruct (Hg _ _ Hpr) as [Hold|(_ & ? & _)]; [|done]. by eapply Hm, Im.
  - intros k pr Hpr. destruct (Hg _ _ Hpr) as [Hold|(_ & _ & ?)]; [|by right].
    destruct (Iw _ _ Hold) as [?|?]; [left; by apply Hw|by apply Hwait].
  - intros t Hin. destruct (Ht t Hin) as [Hold|?]; [|done]. eapply task_ok_mono; eauto.
Qed.

Lemma shrink_grows_fresh w w' : live w' ⊆ live w → grows_fresh w w'.
Proof. intros Hs k pr Hpr. left. by eapply lookup_weaken. Qed.

Lemma waits_mono w w' k token :
  (∀ c req p, ts_waiting c req p ∈ w_tasks w → ts_waiting c req p ∈ w_tasks w') → waits w k token → waits w' k token.
Proof. intros Hs (c & req & p & Hin & Hk & Ht). exists c, req, p. split; [by apply Hs|done]. Qed.

(** A step that takes no mark and gives none up. *)
Lemma inv_keep w sv ts :
  inv w → profiles (sv_registry sv) ⊆ live w → sv_registering sv = sv_registering (w_service w) →
  marks_ok (sv_registering (w_service w)) ts →
  (∀ t, t ∈ w_tasks w → is_Some (holds_mark t) → t ∈ ts) →
  (∀ t, t ∈ ts → t ∈ w_tasks w ∨ task_ok (with_tasks w sv ts) t) → inv (with_tasks w sv ts).
Proof.
  intros Hi Hp Hr Hk Hm Ht. eapply inv_move; [done|by apply shrink_grows_fresh|done|done| | |done].
  - simpl. by rewrite Hr.
  - intros k pr _ Hwt. right. eapply waits_mono; [|done]. intros c req p Hin. apply Hm; [done|by eexists].
Qed.

Lemma inv_shrinks w sv : inv w → shrinks (w_service w) sv → inv (with_tasks w sv (w_tasks w)).
Proof. intros Hi (Hp & Hr & _). apply inv_keep; try done; [apply Hi|]. auto. Qed.

(** One task goes on to another that holds no mark either. *)
Lemma inv_replace w t ts ts' :
  inv w → w_tasks w ≡ₚ t :: ts → holds_mark t = None → Forall (λ t', holds_mark t' = None) ts' →
  Forall (task_ok (with_tasks w (w_service w) (ts' ++ ts))) ts' →
  inv (with_tasks w (w_service w) (ts' ++ ts)).
Proof.
  intros Hi Hts Ht Hn Hok. pose proof (inv_marks _ Hi) as Hm. rewrite Hts, marks_ok_none in Hm by done.
  apply inv_keep; try done.
  - by apply marks_ok_app.
  - intros t' Hin [k Hk]. rewrite Hts in Hin. apply elem_of_cons in Hin as [->|Hin]; [congruence|set_solver].
  - intros t' [Hin|Hin]%elem_of_app; [right; by eapply Forall_forall in Hok|left]. rewrite Hts. by right.
Qed.

(** A task gives up its mark; what it wrote is acknowledged or gone. *)
Lemma inv_release w t ts ts' sv written' k :
  inv w → w_tasks w ≡ₚ t :: ts → holds_mark t = Some k → Forall (λ t', holds_mark t' = None) ts' →
  profiles (sv_registry sv) ⊆ live w → sv_registering sv = sv_registering (w_service w) ∖ {[k]} →
  w_written w ⊆ written' →
  (∀ c req p pr, t = ts_waiting c req p → profiles (sv_registry sv) !! k = Some pr →
     ap_credential_token pr = pg_token p → (k, pg_token p) ∈ written') →
  ∀ minted', w_minted w ⊆ minted' →
  Forall (λ t', ∃ c req, t' = ts_existing c req) ts' →
  inv {| w_service := sv; w_tasks := ts' ++ ts; w_minted := minted'; w_written := written' |}.
Proof.
  intros Hi Hts Ht Hn Hp Hr Hw Hwr minted' Hmi Hex.
  pose proof (inv_marks _ Hi) as Hm. rewrite Hts in Hm. apply (marks_ok_release _ _ _ k) in Hm; [|done].
  eapply inv_move; [done|by apply shrink_grows_fresh|done|done| | |].
  - simpl. rewrite Hr. by apply marks_ok_app.
  - intros k' pr Hpr (c & req & p & Hin & Hk & Htok). simpl in *. rewrite Hts in Hin.
    apply elem_of_cons in Hin as [<-|Hin].
    + left. simpl in Ht. assert (k' = k) as -> by congruence. rewrite <- Htok. by eapply Hwr.
    + right. exists c, req, p. split; [|done]. simpl. set_solver.
  - intros t' [Hin|Hin]%elem_of_app; simpl.
    + right. eapply Forall_forall in Hex as (c & req & ->); done.
    + left. rewrite Hts. by right.
Qed.

Lemma release_profiles k sv : profiles (sv_registry (release k sv)) = profiles (sv_registry sv).
Proof. done. Qed.

Lemma finish_ok fuel p sv r sv' :
  register_finish fuel p (Ok ()) sv = Some (r, sv') → r = Ok (pg_response p) ∧ sv' = release (pg_key p) sv.
Proof. by intros [= <- <-]. Qed.

(** A write that failed leaves nothing behind. *)
Lemma finish_err fuel p e sv r sv' :
  register_finish fuel p (Err e) sv = Some (r, sv') →
  (∃ st, r = Err st) ∧ profiles (sv_registry sv') = delete (pg_key p) (profiles (sv_registry sv)) ∧
  sv_registering sv' = sv_registering sv ∖ {[pg_key p]} ∧ sv_challenges sv' = sv_challenges sv.
Proof.
  unfold register_finish. destruct (deregister _ _ _ _) as [[g out]|] eqn:Hd; [|done]. intros [= <- <-].
  apply profiles_deregister in Hd. split; [|done]. by eexists.
Qed.

(** A call that is dropped takes its own record with it. *)
Lemma cancel_spec fuel p sv sv' :
  register_cancel fuel p sv = Some sv' →
  profiles (sv_registry sv') ⊆ profiles (sv_registry sv) ∧ sv_registering sv' = sv_registering sv ∖ {[pg_key p]} ∧
  sv_challenges sv' = sv_challenges sv ∧
  ∀ pr, profiles (sv_registry sv') !! pg_key p = Some pr → ap_credential_token pr ≠ pg_token p.
Proof.
  unfold register_cancel. destruct (get (sv_registry sv) (pg_key p)) as [r|] eqn:Hg; [|intros [= <-]].
  - destruct (String.eqb_spec (ar_credential_token r) (pg_token p)) as [He|He].
    + destruct (deregister _ _ _ _) as [[g out]|] eqn:Hd; [|done]. intros [= <-]. simpl.
      apply profiles_deregister in Hd. rewrite Hd. split_and!; [apply delete_subseteq|done|done|].
      intros pr. by rewrite lookup_delete_eq.
    + intros [= <-]. split_and!; [done..|]. simpl. rewrite profiles_lookup, Hg. by intros pr [= <-].
  - split_and!; [done..|]. simpl. by rewrite profiles_lookup, Hg.
Qed.

(** The insertion: a new agent with the token drawn, or nothing but the mark released. *)
Lemma insert_spec fuel now token c req sv o sv' :
  register_insert fuel now token c req sv = Some (o, sv') →
  (∃ p pr, o = Waiting p ∧ pg_key p = agent_key_of c ∧ pg_token p = token ∧
     rs_credential_token (pg_response p) = token ∧ ap_credential_token pr = token ∧
     profiles (sv_registry sv') = <[agent_key_of c := pr]> (profiles (sv_registry sv)) ∧
     sv_registering sv' = sv_registering sv ∧ sv_challenges sv' = sv_challenges sv) ∨
  (o = Collided ∨ ∃ st, o = Answered (Err st)) ∧ sv' = release (agent_key_of c) sv.
Proof.
  unfold register_insert. destruct (placement _ _ _) as [[[root pk] depth]|e]; [|intros [= <- <-]; right; eauto].
  destruct (register _ _ _) as [[g|e]|] eqn:Hr; [| |done].
  - intros [= <- <-]. left. apply profiles_register in Hr. do 2 eexists. split_and!; try done; simpl; eauto.
  - intros Ho. right. destruct e; simplify_eq; split; eauto; right; unfold register_failure; case_match; by eexists.
Qed.

Lemma inv_become w t t' ts :
  inv w → w_tasks w ≡ₚ t :: ts → holds_mark t = None → holds_mark t' = None →
  task_ok (with_tasks w (w_service w) (t' :: ts)) t' → inv (with_tasks w (w_service w) (t' :: ts)).
Proof.
  intros Hi Hts Ht Ht' Hok. apply (inv_replace w t ts [t']); try done; by apply Forall_singleton.
Qed.

Lemma inv_enter w t t' ts k :
  inv w → w_tasks w ≡ₚ t :: ts → holds_mark t = None → holds_mark t' = Some k → task_ok w t' →
  k ∉ sv_registering (w_service w) →
  inv (with_tasks w (set_registering (w_service w) ({[k]} ∪ sv_registering (w_service w))) (t' :: ts)).
Proof.
  intros Hi Hts Ht Ht' Hok Hk. pose proof (inv_marks _ Hi) as Hm. rewrite Hts, marks_ok_none in Hm by done.
  eapply inv_move; [done|by apply shrink_grows_fresh|done|done| | |].
  - simpl. by apply marks_ok_enter.
  - intros k' pr _ Hw. right. eapply waits_mono; [|done]. intros c req p Hin. simpl.
    rewrite Hts in Hin. apply elem_of_cons in Hin as [<-|Hin]; [done|by right].
  - simpl. intros t0 [->|Hin]%elem_of_cons; [|left; rewrite Hts; by right].
    right. eapply task_ok_mono; [by apply shrink_grows_fresh|done|done|done].
Qed.

(** The insertion of a marked agent. *)
Lemma inv_inserted w c req ts p pr sv token :
  inv w → w_tasks w ≡ₚ ts_marked c req :: ts → token ∉ w_minted w →
  pg_key p = agent_key_of c → pg_token p = token → rs_credential_token (pg_response p) = token →
  ap_credential_token pr = token → profiles (sv_registry sv) = <[agent_key_of c := pr]> (live w) →
  sv_registering sv = sv_registering (w_service w) →
  inv (with_tasks (mint w token) sv (ts_waiting c req p :: ts)).
Proof.
  intros Hi Hts Hf Hk Htok Hresp Hpr Hp Hr. pose proof (inv_marks _ Hi) as Hm. rewrite Hts in Hm.
  eapply inv_move; [done| |simpl; set_solver|done| | |].
  - intros k pr' Hl. simpl in Hl. rewrite Hp in Hl. apply lookup_insert_Some in Hl as [[<- <-]|[_ Hl]]; [|by left].
    right. rewrite Hpr. split_and!; [done|simpl; set_solver|]. exists c, req, p. by split; [left|].
  - simpl. rewrite Hr. by eapply marks_ok_swap.
  - intros k pr' _ Hw. right. eapply waits_mono; [|done]. intros c' req' p' Hin. simpl.
    rewrite Hts in Hin. apply elem_of_cons in Hin as [?|Hin]; [done|by right].
  - simpl. intros t0 [->|Hin]%elem_of_cons; [right; simpl; by rewrite Htok|left; rewrite Hts; by right].
Qed.

Lemma unmarked_written w k pr :
  inv w → k ∉ sv_registering (w_service w) → live w !! k = Some pr → (k, ap_credential_token pr) ∈ w_written w.
Proof.
  intros Hi Hk Hpr. destruct (inv_written _ Hi _ _ Hpr) as [?|(c & req & p & Hin & Hc & _)]; [done|].
  pose proof (inv_marks _ Hi) as Hm. apply elem_of_Permutation in Hin as [ts Hts]. rewrite Hts in Hm.
  destruct Hk. by eapply marks_ok_elem; [|rewrite <- Hc].
Qed.

Lemma step_inv w e w' : inv w → step dec_of_f64 sha256 w e w' → inv w'.
Proof.
  intros Hi Hs. destruct Hs as [now nonce id pk r sv Hc|now header req e sv Hc|now header req c sv Hc|c req ts Hts
    |c req ts sv Hts He|c req ts Hts He|fuel now token c req ts o sv Hts Hf Hins|fuel c req p ts r sv Hts Hfin
    |fuel c req p ts e r sv Hts Hfin|fuel c req p ts sv Hts Hcan|c req ts Hts|c req before ts Hts
    |c req before marks ts Hts|now ns accepts id token r sv Hh|fuel storage id token r sv Hd|id token r sv Hc|g Hg].
  - apply challenge_frame in Hc as [Hc1 Hc2]. apply inv_keep; rewrite ?Hc1; try done; [apply Hi|auto].
  - apply checks_frame in Hc as [Hc1 Hc2]. apply inv_keep; rewrite ?Hc1; try done; [apply Hi|auto].
  - apply checks_frame in Hc as [Hc1 Hc2]. apply inv_keep; rewrite ?Hc1; try done.
    + rewrite marks_ok_none by done. apply Hi.
    + intros t Hin _. by right.
    + intros t [->|Hin]%elem_of_cons; [by right|by left].
  - eapply inv_become; [done|done|done|by case_match..].
  - unfold enter in He. case_bool_decide; simplify_eq. by eapply inv_enter.
  - by eapply (inv_replace w _ ts []).
  - destruct (insert_spec _ _ _ _ _ _ _ _ Hins) as [(p & pr & -> & ? & ? & ? & ? & ? & ? & _)|[Ho ->]].
    + by eapply inv_inserted.
    + eapply inv_release with (t := ts_marked c req); try done; [..|simpl; set_solver|];
        destruct Ho as [->|[st ->]]; simpl; repeat constructor; eauto.
  - apply finish_ok in Hfin as [-> ->]. destruct (inv_tasks _ Hi (ts_waiting c req p)) as [Hk _]; [rewrite Hts; left|].
    eapply (inv_release _ _ _ []); try done; simpl; [by rewrite Hk|set_solver|].
    intros ??? pr [= -> -> ->] _ _. rewrite Hk. set_solver.
  - apply finish_err in Hfin as (_ & Hp & Hr & _).
    destruct (inv_tasks _ Hi (ts_waiting c req p)) as [Hk _]; [rewrite Hts; left|]. rewrite Hk in *.
    eapply (inv_release _ _ _ []); try done; simpl; [rewrite Hp; apply delete_subseteq|].
    intros ??? pr _. by rewrite Hp, lookup_delete_eq.
  - apply cancel_spec in Hcan as (Hp & Hr & _ & Hn).
    destruct (inv_tasks _ Hi (ts_waiting c req p)) as [Hk _]; [rewrite Hts; left|]. rewrite Hk in *.
    eapply (inv_release _ _ _ []); try done.
    intros ??? pr [= <- <- <-] Hpr Ht. by destruct (Hn pr).
  - eapply inv_become; [done..|]. simpl. intros pr. by apply Hi.
  - eapply inv_become; [done..|]. simpl. intros Hk pr Hpr. split.
    + assert (task_ok w (ts_first c req before)) as Hok by (apply Hi; rewrite Hts; left). by apply Hok.
    + intros pr' Hpr' <-. by apply unmarked_written.
  - by eapply (inv_replace w _ ts []).
  - eapply inv_shrinks; [done|]. by eapply heartbeat_shrinks.
  - eapply inv_shrinks; [done|]. by eapply deregister_shrinks.
  - eapply inv_shrinks; [done|]. by eapply control_shrinks.
  - by eapply inv_shrinks.
Qed.

(** ** Credentials *)

(** A gateway that has just started: nothing in flight, every agent read from the store. *)
Definition started w : Prop :=
  w_tasks w = [] ∧ sv_registering (w_service w) = ∅ ∧
  ∀ k pr, live w !! k = Some pr → ap_credential_token pr ∈ w_minted w ∧ (k, ap_credential_token pr) ∈ w_written w.

Lemma started_inv w : started w → inv w.
Proof.
  intros (Ht & Hr & Hl). split.
  - unfold marks_ok. by rewrite Ht, Hr, elements_empty.
  - intros k pr Hpr. by eapply Hl.
  - intros k pr Hpr. left. by eapply Hl.
  - rewrite Ht. by intros t ?%elem_of_nil.
Qed.

Abbreviation steps := (run dec_of_f64 sha256).

Lemma run_inv w0 tr w : started w0 → steps w0 tr w → inv w.
Proof.
  intros Hst Hr. induction Hr as [|tr w1 e w2 Hr IH Hs]; [by apply started_inv|by eapply step_inv].
Qed.

(** The call a task belongs to. *)
Definition call_of t : Checked * RegisterRequest :=
  match t with
  | ts_arrived c req | ts_entering c req | ts_marked c req | ts_existing c req
  | ts_waiting c req _ | ts_first c req _ | ts_marks c req _ _ => (c, req)
  end.

Lemma step_calls w e w' t' :
  step dec_of_f64 sha256 w e w' → t' ∈ w_tasks w' →
  (∃ now, e = ev_accepted now (call_of t').1 (call_of t').2) ∨ ∃ t, t ∈ w_tasks w ∧ call_of t = call_of t'.
Proof.
  intros Hs Hin.
  assert (∀ ts t u, w_tasks w ≡ₚ t :: ts → call_of u = call_of t → t' ∈ u :: ts →
            ∃ t0, t0 ∈ w_tasks w ∧ call_of t0 = call_of t') as Hnext.
  { intros ts t u Hts Hc [->|Hu]%elem_of_cons; [exists t|exists t']; rewrite Hts; (split; [|done]); [by left|by right]. }
  destruct Hs; simpl in Hin; try (right; by exists t');
    try (right; eapply Hnext; [eassumption|idtac|by right]; reflexivity).
  - apply elem_of_cons in Hin as [->|Hin]; [left; by eexists|right; by exists t'].
  - right. eapply Hnext; [done| |exact Hin]. by case_match.
  - right. by eapply Hnext; [done| |exact Hin].
  - right. destruct o; simpl in Hin; [eapply Hnext; [done| |right; exact Hin]; done|by eapply Hnext; [done| |exact Hin]..].
  - right. by eapply Hnext; [done| |exact Hin].
  - right. by eapply Hnext; [done| |exact Hin].
Qed.

Lemma run_accepted w0 tr w t :
  w_tasks w0 = [] → steps w0 tr w → t ∈ w_tasks w → ∃ now, ev_accepted now (call_of t).1 (call_of t).2 ∈ tr.
Proof.
  intros Hnil Hr. revert t. induction Hr as [|tr w1 e w2 Hr IH Hs]; intros t Hin.
  - rewrite Hnil in Hin. by apply elem_of_nil in Hin.
  - destruct (step_calls _ _ _ _ Hs Hin) as [[now ->]|(t0 & Hin0 & Hc)].
    + exists now. set_solver.
    + destruct (IH t0 Hin0) as [now Hn]. exists now. rewrite <- Hc. set_solver.
Qed.

(** What a second process has to show. *)
Record rebinds (existing : AgentRecord) (c : Checked) (req : RegisterRequest) (resp : RegisterResponse) : Prop := {
  rb_bound : ro_key_bound (ck_resolved c) = true;
  rb_org : is_Some (ar_org_id existing) ∧ ro_org (ck_resolved c) = ar_org_id existing;
  rb_team : ∀ team, ro_key_team (ck_resolved c) = Some team → ar_team_id existing = Some team;
  rb_key : ap_public_key (ar_profile existing) = rq_public_key req;
  rb_token : rs_credential_token resp = ar_credential_token existing;
}.

Lemma rebind_spec before marks after c req resp :
  refuse_or_rebind before marks after (agent_key_of c) (ck_resolved c) (rq_public_key req) = Ok resp →
  ∃ first existing, get before (agent_key_of c) = Some first ∧ agent_key_of c ∉ marks ∧
    get after (agent_key_of c) = Some existing ∧ ar_credential_token existing = ar_credential_token first ∧
    rebinds existing c req resp.
Proof.
  unfold refuse_or_rebind, committed_record. intros Hr.
  destruct (get before _) as [first|]; [|done]. destruct (bool_decide_reflect (agent_key_of c ∈ marks)) as [|Hm]; [done|].
  destruct (get after _) as [existing|]; [|done]. destruct (String.eqb_spec (ar_credential_token existing) (ar_credential_token first)) as [Ht|]; [|done].
  destruct (ro_key_bound (ck_resolved c)) eqn:Hb; [|done]. destruct (ro_org (ck_resolved c)) as [org|] eqn:Ho; [|done].
  destruct (bool_decide_reflect (ar_org_id existing = Some org)) as [Horg|]; [|done]. simpl in Hr.
  destruct (match ro_key_team (ck_resolved c) with Some team => _ | None => _ end) eqn:Hteam; [|done].
  unfold rebind_existing in Hr. destruct (String.eqb_spec (ap_public_key (ar_profile existing)) (rq_public_key req)) as [Hpk|]; [|done].
  simplify_eq/=. exists first, existing. split_and!; try done. split; try done; [by rewrite Horg|].
  intros team Ht'. rewrite Ht' in Hteam. by apply bool_decide_eq_true in Hteam.
Qed.

(** The three ways a credential is answered, and the task that answers it. *)
Lemma credential_step w c req resp w' :
  step dec_of_f64 sha256 w (ev_answer c req (Ok resp)) w' →
  (∃ p, ts_waiting c req p ∈ w_tasks w ∧ resp = pg_response p ∧ w_written w' = {[(pg_key p, pg_token p)]} ∪ w_written w) ∨
  (∃ before marks, ts_marks c req before marks ∈ w_tasks w ∧ w_written w' = w_written w ∧
     refuse_or_rebind before marks (sv_registry (w_service w)) (agent_key_of c) (ck_resolved c) (rq_public_key req) = Ok resp).
Proof.
  intros Hs. inversion Hs as [| | | | | |fuel now token c0 req0 ts o sv Hts Hf Hins|fuel c0 req0 p ts r sv Hts Hfin
    |fuel c0 req0 p ts e r sv Hts Hfin| | | |c0 req0 before marks ts Hts| | | |]; subst.
  - destruct (insert_spec _ _ _ _ _ _ _ _ Hins) as [(p & pr & -> & _)|[[->|[st ->]] _]]; simpl in *; simplify_eq.
  - apply finish_ok in Hfin as [[= ->] _]. left. exists p. split; [rewrite Hts; left|done].
  - by apply finish_err in Hfin as ([st ?] & _).
  - right. exists before, marks. split; [rewrite Hts; left|done].
Qed.

(** C39: However the calls of a gateway interleave, with durable
    writes that fail and handlers that are dropped, a registration that is answered with a
    credential token was accepted by the checks before, and the durable store has
    acknowledged the agent with exactly that token.  The token was drawn for that very call,
    or it is the one of the agent as the registry shows it, and then the caller presented an
    operator key bound to the agent's organisation, and to its team where the key names one,
    and the same public key. *)
Theorem credential_is_committed w0 tr w c req resp w' :
  started w0 → steps w0 tr w → step dec_of_f64 sha256 w (ev_answer c req (Ok resp)) w' →
  (agent_key_of c, rs_credential_token resp) ∈ w_written w' ∧
  (∃ now, ev_accepted now c req ∈ tr) ∧
  ((∃ p, ts_waiting c req p ∈ w_tasks w ∧ pg_token p = rs_credential_token resp) ∨
   ∃ existing, get (sv_registry (w_service w)) (agent_key_of c) = Some existing ∧ rebinds existing c req resp).
Proof.
  intros Hst Hr Hs. pose proof (run_inv _ _ _ Hst Hr) as Hi. destruct Hst as (Hnil & _ & _).
  destruct (credential_step _ _ _ _ _ Hs) as [(p & Hin & -> & Hw)|(before & marks & Hin & Hw & Hre)].
  - destruct (inv_tasks _ Hi _ Hin) as [Hk Ht]. rewrite Hw, Ht, <- Hk. split_and!; [set_solver| |left; by exists p].
    by apply (run_accepted _ _ _ _ Hnil Hr) in Hin.
  - destruct (rebind_spec _ _ _ _ _ _ Hre) as (first & existing & Hf & Hm & He & Ht & Hb).
    rewrite Hw, (rb_token _ _ _ _ Hb). split_and!; [| |right; by exists existing].
    + pose proof (inv_tasks _ Hi _ Hin) as Hok. simpl in Hok.
      destruct (Hok Hm (ar_profile first)) as [_ Hl]; [by rewrite profiles_lookup, Hf|]. rewrite Ht.
      apply (Hl (ar_profile existing)); [by rewrite profiles_lookup, He|done].
    + by apply (run_accepted _ _ _ _ Hnil Hr) in Hin.
Qed.
End Calls.

(** ** Nonces *)

(** The base58 alphabet has no control characters. *)
Class KeysLaws `{Keys} := { bs58_plain s bytes : bs58_decode s = Some bytes → plain s }.

Lemma plain_app s t : plain s → plain t → plain (String.append s t).
Proof.
  unfold plain. induction s as [|c s IH]; simpl; [done|]. intros Hs Ht. apply not_elem_of_cons in Hs as [Hc Hs].
  apply not_elem_of_cons. split; [done|]. by apply IH.
Qed.

Section Nonces.
Context `{Keys, !KeysLaws, Formats, Credentials, UuidLib, ChronoLib, DecimalLib, Detectors}.
Context (dec_of_f64 : f64 → option dec) (sha256 : list Z → Digest).
Context {S : Type} `{!ChallengeStore S, !ChallengeLaws S}.
Implicit Types (sv : Service S) (w : World S).

Lemma did_plain value vk : did_key_ed25519_public_key value = Ok vk → plain value.
Proof.
  unfold did_key_ed25519_public_key, did_multibase. destruct (strip_prefix value "did:key:") as [m|] eqn:Hd; [|done].
  destruct (strip_prefix m "z") as [encoded|] eqn:Hz; [|done]. simpl.
  apply strip_prefix_Some in Hd as ->, Hz as ->. destruct (bs58_decode encoded) as [bytes|] eqn:Hb; [|done]. intros _.
  apply plain_app; [|apply plain_app; [|by eapply bs58_plain]]; by apply (bool_decide_unpack _).
Qed.

Lemma binding_spec did pk r :
  enforce_did_key_binding did pk = Ok r →
  ∃ vk, did_key_ed25519_public_key did = Ok vk ∧ hex_decode pk = Some vk.
Proof.
  unfold enforce_did_key_binding, assert_did_key_binds_public_key, status. intros Hb.
  destruct (did_key_ed25519_public_key did) as [vk|]; [|done]. destruct (hex_decode pk) as [bytes|]; [|done].
  destruct (negb _); [done|]. case_bool_decide; [|done]. subst. by exists bytes.
Qed.

(** What a call of [request_challenge] does to the store. *)
Lemma challenge_redeemable now nonce id pk sv r sv' n a pk' e :
  request_challenge now nonce id pk sv = (r, sv') → plain a → redeemable (sv_challenges sv') n a pk' e →
  redeemable (sv_challenges sv) n a pk' e ∨
  ∃ id', id = Some id' ∧ n = nonce ∧ a = pi_agent_id id' ∧ pk' = pk ∧ e = at_instant now + CHALLENGE_TTL.
Proof.
  unfold request_challenge, require_agent_id, status. destruct id as [id|]; simpl; [|intros [= _ <-]; by left].
  destruct (text_status _ _); simpl; [|intros [= _ <-]; by left].
  destruct (parse_public_key pk); simpl; [|intros [= _ <-]; by left].
  destruct (enforce_did_key_binding _ pk) eqn:Hb; simpl; [|intros [= _ <-]; by left].
  destruct (ch_issue _ _ _ _ _) as [r0 c] eqn:Hi. intros [= _ <-] Ha Hr. simpl in Hr.
  apply binding_spec in Hb as (vk & Hd%did_plain & _).
  destruct (issue_redeemable _ _ _ _ _ _ _ _ _ _ _ Hd Ha Hi Hr) as [?|(-> & -> & -> & ->)]; [by left|right; by exists id].
Qed.

(** What the checks of a registration that passes them have seen. *)
Record proven (now : Reading) (c : Checked) (req : RegisterRequest) sv sv' : Prop := {
  pv_key : ∃ vk, did_key_ed25519_public_key (pi_agent_id (ck_id c)) = Ok vk ∧ hex_decode (rq_public_key req) = Some vk ∧
    verify_strict vk (rq_registration_nonce req) (rq_possession_proof req) = true;
  pv_nonce : ch_consume now (rq_registration_nonce req) (pi_agent_id (ck_id c)) (rq_public_key req) (sv_challenges sv)
    = (Ok (), sv_challenges sv');
}.

Lemma parse_public_key_spec pk vk : parse_public_key pk = Ok vk → hex_decode pk = Some vk.
Proof. unfold parse_public_key, status. intros Hp. repeat case_match; simplify_eq; done. Qed.

Lemma checks_proven now header req sv c sv' :
  register_checks now header req sv = (Ok c, sv') → proven now c req sv sv'.
Proof.
  unfold register_checks, require_agent_id, status. destruct (resolve_binding _ _ _ _) as [resolved|]; simpl; [|done].
  destruct (rq_agent_id req) as [id|]; simpl; [|done]. destruct (text_status _ _); simpl; [|done].
  destruct (match sv_tenancy_mode sv with Untenanted => _ | Tenanted => _ end); simpl; [|done].
  destruct (parse_public_key _) as [vk|] eqn:Hp; simpl; [|done].
  destruct (enforce_did_key_binding _ _) eqn:Hb; simpl; [|done].
  destruct (ch_consume _ _ _ _ _) as [[[]|] s] eqn:Hc; simpl; [|done].
  destruct (verify_possession_proof vk _ _) eqn:Hv; simpl; [|done]. intros [= <- <-]. split; [|done].
  apply binding_spec in Hb as (vk' & Hd & Hh). apply parse_public_key_spec in Hp. exists vk. simpl.
  split_and!; [congruence|done|]. unfold verify_possession_proof, status in Hv. by repeat case_match.
Qed.

Lemma checks_shrink now header req sv r sv' n a pk e :
  register_checks now header req sv = (r, sv') → redeemable (sv_challenges sv') n a pk e →
  redeemable (sv_challenges sv) n a pk e.
Proof.
  unfold register_checks. destruct (let? _ := _ in _) as [[[resolved id] vk]|]; [|by intros [= _ <-]].
  destruct (ch_consume _ _ _ _ _) as [r0 s] eqn:Hc. intros [= _ <-]. by apply (consume_shrinks _ _ _ _ _ _ _ _ _ _ _ Hc).
Qed.

(** The nonces drawn in a trace, and the steps that touch the store. *)
Definition drawn (e : Event) : option string :=
  match e with ev_challenge _ nonce _ _ => Some nonce | _ => None end.

Lemma cancel_challenges fuel p sv sv' : register_cancel fuel p sv = Some sv' → sv_challenges sv' = sv_challenges sv.
Proof. intros Hc. by apply cancel_spec in Hc as (_ & _ & ? & _). Qed.

Lemma step_challenges w e w' :
  step dec_of_f64 sha256 w e w' →
  (∃ now nonce id pk r, e = ev_challenge now nonce id pk ∧ request_challenge now nonce id pk (w_service w) = (r, w_service w')) ∨
  (∃ now header req r, register_checks now header req (w_service w) = (r, w_service w') ∧
     (e = ev_internal ∨ ∃ c, r = Ok c ∧ e = ev_accepted now c req)) ∨
  sv_challenges (w_service w') = sv_challenges (w_service w) ∧ (e = ev_internal ∨ ∃ c req r, e = ev_answer c req r).
Proof.
  intros Hs. destruct Hs as [now nonce id pk r sv Hc|now header req e sv Hc|now header req c sv Hc|c req ts Hts
    |c req ts sv Hts He|c req ts Hts He|fuel now token c req ts o sv Hts Hf Hins|fuel c req p ts r sv Hts Hfin
    |fuel c req p ts e r sv Hts Hfin|fuel c req p ts sv Hts Hcan|c req ts Hts|c req before ts Hts
    |c req before marks ts Hts|now ns accepts id token r sv Hh|fuel storage id token r sv Hd|id token r sv Hc|g Hg];
    [left; eauto 10|right; left; eauto 10|right; left; eauto 10|..]; right; right; simpl; split; eauto.
  - unfold enter in He. by case_match; simplify_eq.
  - by destruct (insert_spec _ _ _ _ _ _ _ _ Hins) as [(p & pr & _ & _ & _ & _ & _ & _ & _ & ?)|[_ ->]].
  - destruct o; simpl; eauto.
  - by apply finish_ok in Hfin as [_ ->].
  - by apply finish_err in Hfin as (_ & _ & _ & ?).
  - by eapply cancel_challenges.
  - by apply heartbeat_shrinks in Hh as (_ & _ & ?).
  - by apply deregister_shrinks in Hd as (_ & _ & ?).
  - by apply control_shrinks in Hc as (_ & _ & ?).
Qed.

Definition was_drawn (tr : list Event) (n a pk : string) (e : Z) : Prop :=
  ∃ now id, ev_challenge now n (Some id) pk ∈ tr ∧ pi_agent_id id = a ∧ e = at_instant now + CHALLENGE_TTL.

Lemma was_drawn_app tr e0 n a pk e : was_drawn tr n a pk e → was_drawn (tr ++ [e0]) n a pk e.
Proof. intros (now & id & Hin & ?). exists now, id. split; [set_solver|done]. Qed.

Lemma was_drawn_elem tr n a pk e : was_drawn tr n a pk e → n ∈ omap drawn tr.
Proof. intros (now & id & Hin & _). apply list_elem_of_omap. by eexists. Qed.

(** What may be redeemed was drawn; what was accepted was drawn and is spent. *)
Record nonces (tr : list Event) w : Prop := {
  nn_drawn n a pk e : plain a → redeemable (sv_challenges (w_service w)) n a pk e → was_drawn tr n a pk e;
  nn_spent now c req : ev_accepted now c req ∈ tr → rq_registration_nonce req ∈ omap drawn tr ∧
    ∀ a pk e, plain a → ¬ redeemable (sv_challenges (w_service w)) (rq_registration_nonce req) a pk e;
}.

Lemma proven_drawn tr w now c req sv' :
  nonces tr w → proven now c req (w_service w) sv' →
  ∃ e, was_drawn tr (rq_registration_nonce req) (pi_agent_id (ck_id c)) (rq_public_key req) e ∧ at_instant now ≤ e.
Proof.
  intros Hn [(vk & Hd & _) Hc]. destruct (consume_ok _ _ _ _ _ _ Hc) as [(e & He & Hle) _]. exists e. split; [|done].
  eapply nn_drawn; [done| |done]. by eapply did_plain.
Qed.

Lemma nonces_step tr w e w' :
  nonces tr w → step dec_of_f64 sha256 w e w' → NoDup (omap drawn (tr ++ [e])) → nonces (tr ++ [e]) w'.
Proof.
  intros Hn Hs Hnd. rewrite omap_app in Hnd.
  assert (∀ now c req, ev_accepted now c req ∈ tr → rq_registration_nonce req ∈ omap drawn (tr ++ [e])) as Hin.
  { intros now c req Ha. rewrite omap_app. apply elem_of_app. left. by eapply nn_spent. }
  destruct (step_challenges _ _ _ Hs) as [(now & nonce & id & pk & r & -> & Hc)|[(now & header & req & r & Hc & He)|[Hc He]]].
  - split.
    + intros n a pk' e' Ha Hr. destruct (challenge_redeemable _ _ _ _ _ _ _ _ _ _ _ Hc Ha Hr) as [Ho|(id' & -> & -> & -> & -> & ->)].
      * by apply was_drawn_app, Hn.
      * exists now, id'. split; [set_solver|done].
    + intros now1 c1 req1 [Ha|?%list_elem_of_singleton]%elem_of_app; [|done]. split; [by eapply Hin|].
      destruct (nn_spent _ _ Hn _ _ _ Ha) as [Hd Hsp]. intros a pk' e' Hp Hr.
      destruct (challenge_redeemable _ _ _ _ _ _ _ _ _ _ _ Hc Hp Hr) as [Ho|(id' & _ & Hq & _)]; [by eapply Hsp|].
      apply NoDup_app in Hnd as (_ & Hnd & _). apply (Hnd _ Hd). simpl. rewrite Hq. left.
  - split.
    + intros n a pk e' Ha Hr. apply was_drawn_app, Hn; [done|]. by eapply checks_shrink.
    + intros now1 c1 req1 [Ha|Ha%list_elem_of_singleton]%elem_of_app.
      * split; [by eapply Hin|]. intros a pk e' Hp Hr. eapply (nn_spent _ _ Hn _ _ _ Ha); [done|]. by eapply checks_shrink.
      * destruct He as [->|(c & -> & ->)]; [done|]. injection Ha as -> -> ->. apply checks_proven in Hc.
        destruct (proven_drawn _ _ _ _ _ _ Hn Hc) as (e0 & Hd & _). split.
        -- rewrite omap_app. apply elem_of_app. left. by eapply was_drawn_elem.
        -- intros a pk e' _. by apply (consume_ok _ _ _ _ _ _ (pv_nonce _ _ _ _ _ Hc)).
  - split.
    + intros n a pk e' Ha Hr. rewrite Hc in Hr. by apply was_drawn_app, Hn.
    + intros now1 c1 req1 [Ha|Ha%list_elem_of_singleton]%elem_of_app; [|by destruct He as [->|(? & ? & ? & ->)]].
      split; [by eapply Hin|]. rewrite Hc. by eapply nn_spent.
Qed.

Lemma run_nonces w0 tr w :
  (∀ n a pk e, ¬ redeemable (sv_challenges (w_service w0)) n a pk e) →
  run dec_of_f64 sha256 w0 tr w → NoDup (omap drawn tr) → nonces tr w.
Proof.
  intros Hz Hr. induction Hr as [|tr w1 e w2 Hr IH Hs]; intros Hnd.
  - split; [intros n a pk e _ Hr; by apply Hz in Hr|by intros now c req ?%elem_of_nil].
  - eapply nonces_step; [|done|done]. apply IH. rewrite omap_app in Hnd. by apply NoDup_app in Hnd as [? _].
Qed.

(** C40: A registration that passes the checks presents a nonce that
    this gateway issued to the same DID and the same public key at most thirty seconds
    before, signed with the key the DID itself encodes, and no registration was accepted
    with that nonce before: with the store of one process and with the one that replicas
    share, as long as no nonce is drawn twice. *)
Theorem nonce_accepted_once w0 tr w now c req w' :
  (∀ n a pk e, ¬ redeemable (sv_challenges (w_service w0)) n a pk e) →
  run dec_of_f64 sha256 w0 tr w → NoDup (omap drawn tr) →
  step dec_of_f64 sha256 w (ev_accepted now c req) w' →
  (∃ now0 id, ev_challenge now0 (rq_registration_nonce req) (Some id) (rq_public_key req) ∈ tr ∧
     pi_agent_id id = pi_agent_id (ck_id c) ∧ at_instant now ≤ at_instant now0 + CHALLENGE_TTL) ∧
  (∃ vk, did_key_ed25519_public_key (pi_agent_id (ck_id c)) = Ok vk ∧ hex_decode (rq_public_key req) = Some vk ∧
     verify_strict vk (rq_registration_nonce req) (rq_possession_proof req) = true) ∧
  (∀ now1 c1 req1, ev_accepted now1 c1 req1 ∈ tr → rq_registration_nonce req1 ≠ rq_registration_nonce req).
Proof.
  intros Hz Hr Hnd Hs. pose proof (run_nonces _ _ _ Hz Hr Hnd) as Hn.
  destruct (step_challenges _ _ _ Hs) as [(? & ? & ? & ? & ? & ? & _)|[(now' & header & req' & r & Hc & [?|(c' & -> & [= <- <- <-])])|[_ [?|(? & ? & ? & ?)]]]];
    [done|done| |done|done].
  apply checks_proven in Hc. destruct (proven_drawn _ _ _ _ _ _ Hn Hc) as (e & (now0 & id & Hin & Hid & ->) & Hle).
  split_and!; [by exists now0, id|apply Hc|]. intros now1 c1 req1 Ha He.
  destruct (nn_spent _ _ Hn _ _ _ Ha) as [_ Hsp]. destruct Hc as [(vk & Hd & _) Hcons].
  destruct (consume_ok _ _ _ _ _ _ Hcons) as [(e & Hred & _) _]. rewrite <- He in Hred.
  eapply Hsp; [|exact Hred]. by eapply did_plain.
Qed.
End Nonces.

(** ** Two processes of one agent *)

Module LifeDemo.
Definition public : list N := replicate 32 7%N.

(** One key with its base58 and hexadecimal texts; a digest that tells texts apart by their
    length; a proof that begins with what it signs. *)
#[global] Instance keys : Keys := {|
  bs58_decode s := if String.eqb s "KEY" then Some (ED25519_PUB_MULTICODEC ++ public) else None;
  sha256_id s := N.of_nat (String.length s);
  is_verifying_key bytes := bool_decide (bytes = public);
  verify_strict key message proof := bool_decide (key = public) && String.prefix message proof |}.

#[global] Instance keys_laws : KeysLaws.
Proof.
  split. intros s bytes. simpl. destruct (String.eqb_spec s "KEY") as [->|]; [|done]. intros _.
  by apply (bool_decide_unpack _).
Qed.

#[global] Instance formats : Formats := {|
  hex_decode s := if String.eqb s "0707" then Some public else None;
  to_rfc3339 t := ""; parse_rfc3339 s := None |}.

#[global] Instance detectors : Detectors := {|
  scanner_scan text := []; regex := string; regex_new pattern := Some pattern; find_iter _ _ := [];
  zh_tw_scan _ := []; security_version := "1.0" |}.
#[global] Existing Instances binary_uuid utc_only rational.

(** A Redis server: each key with its value and deadline. *)
Definition Server : Type := gmap string (string * Z).

#[global] Instance redis : Redis Server := {|
  redis_set_ex now k v ttl c := (Ok (), <[k := (v, now + ttl * 1000000000)]> c);
  redis_getdel now k c :=
    match c !! k with
    | Some (v, e) => (Ok (if e <? now then None else Some v), delete k c)
    | None => (Ok None, c)
    end |}.

#[global, program] Instance redis_laws : RedisLaws Server := {|
  redis_holds c k v e := c !! k = Some (v, e);
|}.
Next Obligation.
  intros now k v ttl c r c' k' v' e [= _ <-] Hl. apply lookup_insert_Some in Hl as [[<- [= <- <-]]|[_ Hl]]; [by right|by left].
Qed.
Next Obligation.
  intros now k c r c' k' v' e. simpl. destruct (c !! k) as [[v0 e0]|]; intros [= _ <-] Hl; [|done].
  by apply lookup_delete_Some in Hl as [_ Hl].
Qed.
Next Obligation.
  intros now k c v c'. simpl. destruct (c !! k) as [[v0 e0]|]; [|done].
  destruct (Z.ltb_spec e0 now); [done|]. intros [= <- <-]. split; [by exists e0|].
  intros v' e' Hl. by apply lookup_delete_Some in Hl as [? _].
Qed.

Definition no_dec (x : f64) : option dec := None.
Definition no_hash (bytes : list Z) : Digest := [].

Definition at_second (s : Z) : Reading :=
  {| at_instant := s * 1000000000; at_utc := s; at_ms := s * 1000; at_secs := s |}.

Definition proto : ProtoAgentId := {| pi_org_id := "acme"; pi_team_id := "alpha"; pi_agent_id := "did:key:zKEY" |}.

Definition sixty_two : string := "--------------------------------------------------------------".

Definition request (nonce : string) : RegisterRequest := {|
  rq_agent_id := Some proto; rq_name := "agent"; rq_framework := ""; rq_version := ""; rq_risk_tier := 0;
  rq_tool_names := []; rq_public_key := "0707"; rq_metadata := ∅; rq_parent_agent_id := None;
  rq_delegation_reason := None; rq_spawned_by_tool := None; rq_enforcement_mode := 2;
  rq_registration_nonce := nonce; rq_possession_proof := String.append nonce sixty_two |}.

Definition header : list (option string) := [Some Toy.key1].

Definition checked : Checked := {|
  ck_id := proto;
  ck_resolved := {| ro_org := Some "acme"; ro_key_bound := true; ro_key_team := Some "alpha" |} |}.

Definition service : Service Server := {|
  sv_registry := new_registry; sv_engine := None; sv_audit := None; sv_challenges := ∅;
  sv_tenancy_mode := Tenanted; sv_keys := as_keys Toy.state; sv_registering := ∅ |}.

Definition world : World Server := {| w_service := service; w_tasks := []; w_minted := ∅; w_written := ∅ |}.

(** The steps of the two calls, one after the other. *)
Definition challenged (s : Z) (nonce : string) (w : World Server) : World Server :=
  with_tasks w (snd (request_challenge (at_second s) nonce (Some proto) "0707" (w_service w))) (w_tasks w).

Definition accepted (s : Z) (nonce : string) (w : World Server) : World Server :=
  with_tasks w (snd (register_checks (at_second s) header (request nonce) (w_service w)))
    (ts_arrived checked (request nonce) :: w_tasks w).

Definition w2 : World Server := accepted 20 "n1" (challenged 10 "n1" world).
Definition w3 : World Server := with_tasks w2 (w_service w2) [ts_entering checked (request "n1")].
Definition w4 : World Server := with_tasks w3 (set_registering (w_service w3) {[agent_key_of checked]}) [ts_marked checked (request "n1")].

Definition pending : Pending := {|
  pg_key := agent_key_of checked; pg_token := "t1";
  pg_response := response_of checked (request "n1") "t1" (Some (agent_key_of checked)) |}.

Definition registered : AgentRegistry :=
  insert_agent new_registry (new_record (at_second 20) "t1" checked (request "n1") (Some (agent_key_of checked)) None 0).

Definition w5 : World Server :=
  with_tasks (mint w4 "t1") (set_registry (w_service w4) registered) [ts_waiting checked (request "n1") pending].
Definition w6 : World Server := with_tasks (written w5 pending) (release (pg_key pending) (w_service w5)) [].
Definition w8 : World Server := accepted 40 "n2" (challenged 30 "n2" w6).
Definition w9 : World Server := with_tasks w8 (w_service w8) [ts_existing checked (request "n2")].
Definition w10 : World Server := with_tasks w9 (w_service w9) [ts_first checked (request "n2") (sv_registry (w_service w9))].
Definition w11 : World Server :=
  with_tasks w10 (w_service w10)
    [ts_marks checked (request "n2") (sv_registry (w_service w9)) (sv_registering (w_service w10))].

Definition trace : list Event :=
  [ev_challenge (at_second 10) "n1" (Some proto) "0707"; ev_accepted (at_second 20) checked (request "n1");
   ev_internal; ev_internal; ev_internal; ev_answer checked (request "n1") (Ok (pg_response pending));
   ev_challenge (at_second 30) "n2" (Some proto) "0707"].

Abbreviation steps := (run no_dec no_hash).

Lemma challenged_step s nonce w :
  step no_dec no_hash w (ev_challenge (at_second s) nonce (Some proto) "0707") (challenged s nonce w).
Proof. eapply st_challenge. apply surjective_pairing. Qed.

Lemma accepted_step s nonce w :
  fst (register_checks (at_second s) header (request nonce) (w_service w)) = Ok checked →
  step no_dec no_hash w (ev_accepted (at_second s) checked (request nonce)) (accepted s nonce w).
Proof. intros Hc. eapply st_accepted. rewrite <- Hc. apply surjective_pairing. Qed.

Lemma run_next tr w1 e w2 tr' :
  steps world tr w1 → step no_dec no_hash w1 e w2 → tr' = tr ++ [e] → steps world tr' w2.
Proof. intros Hr Hs ->. by econstructor. Qed.

Lemma w4_step : step no_dec no_hash w3 ev_internal w4.
Proof.
  apply (st_enter _ _ w3 checked (request "n1") []); [reflexivity|].
  unfold enter. change (sv_registering (w_service w3)) with (∅ : gset AgentId). by rewrite union_empty_r_L.
Qed.

Lemma w5_step : step no_dec no_hash w4 ev_internal w5.
Proof.
  apply (st_insert _ _ w4 5 (at_second 20) "t1" checked (request "n1") [] (Waiting pending)).
  - reflexivity.
  - change (w_minted w4) with (∅ : gset string). apply not_elem_of_empty.
  - assert (register 5 (sv_registry (w_service w4)) (new_record (at_second 20) "t1" checked (request "n1")
      (Some (agent_key_of checked)) None 0) = Some (Ok registered)) as Hr by (vm_compute; reflexivity).
    unfold register_insert. cbn [placement rq_parent_agent_id request]. by rewrite Hr.
Qed.

Lemma first_call : steps world (take 6 trace) w6.
Proof.
  assert (steps world (take 2 trace) w2) as H2.
  { eapply run_next; [eapply run_next; [constructor|apply challenged_step|reflexivity]| |reflexivity].
    apply accepted_step. vm_compute. reflexivity. }
  assert (steps world (take 3 trace) w3) as H3.
  { eapply run_next; [exact H2|apply (st_lookup _ _ w2 checked (request "n1") []); reflexivity|reflexivity]. }
  assert (steps world (take 5 trace) w5) as H5.
  { eapply run_next; [eapply run_next; [exact H3|apply w4_step|reflexivity]|apply w5_step|reflexivity]. }
  eapply run_next; [exact H5|apply (st_written _ _ w5 5 checked (request "n1") pending []); reflexivity|reflexivity].
Qed.

Lemma second_challenge : steps world trace (challenged 30 "n2" w6).
Proof. eapply run_next; [apply first_call|apply challenged_step|reflexivity]. Qed.

Definition second_trace : list Event :=
  trace ++ [ev_accepted (at_second 40) checked (request "n2"); ev_internal; ev_internal; ev_internal].

Lemma w9_step : step no_dec no_hash w8 ev_internal w9.
Proof.
  unfold w9. assert (is_Some (get (sv_registry (w_service w8)) (agent_key_of checked))) as [r Hr] by (vm_compute; by eexists).
  pose proof (st_lookup no_dec no_hash w8 checked (request "n2") []) as Hs. rewrite Hr in Hs. apply Hs. reflexivity.
Qed.

Lemma second_call : steps world second_trace w11.
Proof.
  assert (steps world (take 8 second_trace) w8) as H8.
  { eapply run_next; [apply second_challenge|apply accepted_step; vm_compute; reflexivity|reflexivity]. }
  assert (steps world (take 9 second_trace) w9) as H9 by (eapply run_next; [exact H8|apply w9_step|reflexivity]).
  eapply run_next; [eapply run_next; [exact H9|by apply (st_first _ _ w9 checked (request "n2") [])|reflexivity]
    |by apply (st_marks _ _ w10 checked (request "n2") (sv_registry (w_service w9)) [])|reflexivity].
Qed.

Definition rebound : RegisterResponse := response_of checked (request "n1") "t1" (Some (agent_key_of checked)).

Lemma rebind_step :
  step no_dec no_hash w11 (ev_answer checked (request "n2") (Ok rebound)) (with_tasks w11 (w_service w11) []).
Proof.
  assert (refuse_or_rebind (sv_registry (w_service w9)) (sv_registering (w_service w10)) (sv_registry (w_service w11))
    (agent_key_of checked) (ck_resolved checked) (rq_public_key (request "n2")) = Ok rebound) as <-
    by (vm_compute; reflexivity).
  apply st_rebind. reflexivity.
Qed.

Lemma nothing_redeemable n a pk e : ¬ redeemable (sv_challenges (w_service world)) n a pk e.
Proof.
  intros Hl. change ((∅ : gmap string (string * Z)) !! Shared.challenge_key n = Some (Shared.binding_value a pk, e)) in Hl.
  by rewrite lookup_empty in Hl.
Qed.
End LifeDemo.

Lemma credential_is_committed_witness :
  (agent_key_of LifeDemo.checked, "t1") ∈ w_written LifeDemo.w11 ∧
  ∃ existing, get (sv_registry (w_service LifeDemo.w11)) (agent_key_of LifeDemo.checked) = Some existing ∧
    rebinds existing LifeDemo.checked (LifeDemo.request "n2") LifeDemo.rebound.
Proof.
  destruct (credential_is_committed LifeDemo.no_dec LifeDemo.no_hash LifeDemo.world LifeDemo.second_trace LifeDemo.w11
    LifeDemo.checked (LifeDemo.request "n2") LifeDemo.rebound (with_tasks LifeDemo.w11 (w_service LifeDemo.w11) []))
    as (Hw & _ & [(p & Hin & _)|Hr]).
  - split_and!; [done|done|]. intros k pr Hl.
    change ((∅ : gmap AgentId AgentProfile) !! k = Some pr) in Hl. by rewrite lookup_empty in Hl.
  - apply LifeDemo.second_call.
  - apply LifeDemo.rebind_step.
  - by apply list_elem_of_singleton in Hin.
  - split; [exact Hw|exact Hr].
Defined.

Lemma nonce_accepted_once_witness :
  (∃ now0 id, ev_challenge now0 "n2" (Some id) "0707" ∈ LifeDemo.trace ∧ pi_agent_id id = "did:key:zKEY" ∧
     40 * 1000000000 ≤ at_instant now0 + CHALLENGE_TTL) ∧
  rq_registration_nonce (LifeDemo.request "n1") ≠ rq_registration_nonce (LifeDemo.request "n2").
Proof.
  destruct (nonce_accepted_once LifeDemo.no_dec LifeDemo.no_hash LifeDemo.world LifeDemo.trace
    (LifeDemo.challenged 30 "n2" LifeDemo.w6) (LifeDemo.at_second 40) LifeDemo.checked (LifeDemo.request "n2") LifeDemo.w8)
    as (Hd & _ & Hn).
  - apply LifeDemo.nothing_redeemable.
  - apply LifeDemo.second_challenge.
  - by apply (bool_decide_unpack _).
  - apply LifeDemo.accepted_step. vm_compute. reflexivity.
  - split; [exact Hd|]. apply (Hn (LifeDemo.at_second 20) LifeDemo.checked). right. left.
Defined.

(** ** The organisation *)

(** An organisation comes from a valid key that is bound to it, or that is bound to none and
    has the admin scope; the claim alone gives none. *)
Lemma org_needs_key `{Credentials} keys now values claimed resolved org :
  resolve_binding keys now values claimed = Ok resolved → ro_org resolved = Some org →
  ∃ v key entry, values = [Some v] ∧ key = trim v ∧ validate_detailed keys now key = Ok entry ∧
    (claimed = "" ∨ claimed = org) ∧
    if ro_key_bound resolved
    then ak_org_id entry = Some org ∧ ro_key_team resolved = non_blank (ak_team_id entry)
    else non_blank (ak_org_id entry) = None ∧ has_scope ApiScope.Admin (ak_scopes entry) = true ∧ claimed = org.
Proof.
  assert (∀ s t, non_empty s = Some t → s = t) as Hne by (intros [|] ? [= <-]; done).
  assert (∀ s, non_empty s = None → s = "") as Hnone by (by intros [|]).
  unfold resolve_binding, bind_presented. destruct values as [|v [|]]; [by destruct (non_empty claimed); intros [= <-]| |done].
  destruct v as [v|]; simpl; [|done]. destruct (non_empty (trim v)) as [key|] eqn:Hk; [|done]. apply Hne in Hk.
  destruct (validate_detailed keys now key) as [entry|] eqn:Hv; [|done].
  destruct (non_blank (ak_org_id entry)) as [o|] eqn:Ho, (non_empty claimed) as [cl|] eqn:Hc; [| | |by intros [= <-]].
  - destruct (String.eqb_spec o cl) as [<-|]; [|done]. intros [= <-] [= <-]. exists v, key, entry. simpl.
    apply Hne in Hc. split_and!; auto. unfold non_blank in Ho. destruct (ak_org_id entry); simplify_eq/=. f_equal. by apply Hne.
  - intros [= <-] [= <-]. exists v, key, entry. simpl. apply Hnone in Hc. split_and!; auto.
    unfold non_blank in Ho. destruct (ak_org_id entry); simplify_eq/=. f_equal. by apply Hne.
  - destruct (has_scope ApiScope.Admin _) eqn:Ha; [|done]. intros [= <-] [= <-]. exists v, key, entry. simpl.
    apply Hne in Hc. split_and!; auto.
Qed.

(** A registration may ask to be held to the policy, never to be let off. *)
Lemma requested_mode_is_enforce v mode : authoritative_enforcement_mode v = Some mode → mode = Enforce.
Proof. unfold authoritative_enforcement_mode. intros Hm. repeat case_match; simplify_eq; done. Qed.

(** The text that is hashed does not separate an organisation from a team. *)
Lemma composite_collides org team sub agent :
  composite {| pi_org_id := String.append org (String.append "/" team); pi_team_id := sub; pi_agent_id := agent |} =
  composite {| pi_org_id := org; pi_team_id := String.append team (String.append "/" sub); pi_agent_id := agent |}.
Proof.
  assert (∀ s t u, String.append (String.append s t) u = String.append s (String.append t u)) as Happ.
  { induction s as [|ch s IH]; intros t u; simpl; [done|]. by rewrite IH. }
  unfold composite. simpl. by rewrite !Happ.
Qed.

Section Heartbeats.
Context `{Keys, ChronoLib, DecimalLib, Detectors}.
Context (dec_of_f64 : f64 → option dec) (sha256 : list Z → Digest).
Context {S : Type}.
Implicit Types (sv : Service S).

Lemma heartbeat_status now ns accepts id token sv proto key r :
  with_token sv id token = Ok (proto, key) → get (sv_registry sv) key = Some r →
  fst (heartbeat dec_of_f64 sha256 now ns accepts id token sv) =
    Ok match ar_status r with
       | Suspended Suspend.BudgetExceeded => negb (snd (within_budget dec_of_f64 sv key (at_utc now)))
       | Suspended _ => true
       | _ => false
       end.
Proof.
  intros Ht Hg. unfold heartbeat, update_heartbeat. rewrite Ht, Hg.
  unfold alter_agent, get. simpl. rewrite lookup_alter_eq. unfold get in Hg. rewrite Hg. simpl.
  unfold within_budget. simpl.
  repeat (case_match; simplify_eq/=); done.
Qed.

(** Without an engine an agent over its budget is never resumed. *)
Lemma no_engine_no_resume now ns accepts id token sv proto key r :
  sv_engine sv = None → with_token sv id token = Ok (proto, key) → get (sv_registry sv) key = Some r →
  ar_status r = Suspended Suspend.BudgetExceeded →
  fst (heartbeat dec_of_f64 sha256 now ns accepts id token sv) = Ok true.
Proof.
  intros He Ht Hg Hs. rewrite (heartbeat_status _ _ _ _ _ _ _ _ _ Ht Hg), Hs. unfold within_budget. by rewrite He.
Qed.

(** An agent that was evicted for its age still has a valid token, and is told to go on. *)
Lemma evicted_agent_goes_on now ns accepts id token sv proto key r :
  with_token sv id token = Ok (proto, key) → get (sv_registry sv) key = Some r → ar_status r = Deregistered →
  fst (heartbeat dec_of_f64 sha256 now ns accepts id token sv) = Ok false.
Proof. intros Ht Hg Hs. by rewrite (heartbeat_status _ _ _ _ _ _ _ _ _ Ht Hg), Hs. Qed.
End Heartbeats.
