(* ===== verification/PolicyService.v ===== *)
(** * PolicyService: one policy check from the request to the record

    aa-gateway/src/service/policy_service.rs with service/convert.rs and
    aa-core/src/identity_attribution.rs: what a request claims, who may claim it, the
    evaluation and what is done with it in observe mode, the detections, the hold for an
    approval and its continuation, the reservation of spend, and the audit entries.

    The registry of the service is also the engine's where a deployment shares it.  The
    approval router, the escalation schedulers and the control stream are not state here;
    the router's answer is an argument. *)

From stdpp Require Import base gmap strings list sets.
From Stdlib Require Import ZArith Lia Bool Ascii String Floats.SpecFloat.
From S2P Require Import Prelude.
From S2P Require Import Text.
From S2P Require Import Float64.
From S2P Require Import CoreTypes.
From S2P Require Import External.
From S2P Require Import PolicyDocument.
From S2P Require Import Budget.
From S2P Require Import BudgetTracker.
From S2P Require Import Findings.
From S2P Require Import Detection.
From S2P Require Import OpControl.
From S2P Require Import AuditChain.
From S2P Require Import Approval.
From S2P Require Import Registry.
From S2P Require Import Engine.
From S2P Require Import Anomaly.
From S2P Require Import EdgeApi.
From S2P Require Import TopologyService.
From S2P Require Import Lifecycle.

Open Scope Z_scope.
Open Scope aasm_scope.

(** ** The request *)

Module Act.
Inductive Action :=
  | LlmCall (model : string) (prompt_tokens : Z) (contains_pii : bool)
  | ToolCall (tool_name args_json : string)
  | FileOp (operation path : string)
  | NetworkCall (host : string) (port : Z) (protocol : string)
  | ProcessExec (command : string) (args : list string)
  | ToolResult (tool_name result_json : string).
End Act.

(** The absent context and the context without an action are both [None]. *)
Record CheckActionRequest := {
  cq_agent_id : option Lifecycle.ProtoAgentId;
  cq_credential_token : string;
  cq_trace_id : string;
  cq_span_id : string;
  cq_action_type : Z;
  cq_action : option Act.Action;
  cq_caller_agent_id : option Lifecycle.ProtoAgentId;
}.

Record RedactRule := { rx_field_path : string; rx_replacement : string }.

Record Reply := {
  rp_decision : Z;
  rp_reason : string;
  rp_policy_rule : string;
  rp_approval_id : string;
  rp_redact : option (list RedactRule);
  rp_decision_latency_us : Z;
  rp_agent_identity_assurance : Z;
  rp_decision_id : string;
}.

Definition DECISION_REDACT : Z := 4.

(** A response with the two stamps still at their defaults. *)
Definition reply (decision : Z) (reason policy_rule approval_id : string) (redact : option (list RedactRule)) (latency_us : Z)
  : Reply := {|
  rp_decision := decision; rp_reason := reason; rp_policy_rule := policy_rule; rp_approval_id := approval_id;
  rp_redact := redact; rp_decision_latency_us := latency_us; rp_agent_identity_assurance := 0; rp_decision_id := "" |}.

(** What the audit entry of a decision says, before it is printed as JSON. *)
Record DecisionPayload := {
  dp_action_type : Z;
  dp_action : option string;
  dp_decision : Z;
  dp_verdict : string;
  dp_latency_ms : Z;
  dp_reason : string;
  dp_policy_rule : string;
  dp_policy_doc_id : option string;
  dp_latency_us : Z;
  dp_shadow : option ShadowEvent;
  dp_agent_id_claimed : option string;
  dp_agent_identity_assurance : string;
  dp_caller_agent_id : option string;
  dp_callee_agent_id : option string;
  dp_trace_id : option string;
  dp_span_id : option string;
  dp_lineage : AuditChain.Lineage;
  dp_agent_id_hex : string;
  dp_session_id_hex : string;
}.

Record ImpersonationPayload := {
  ip_action_type : Z;
  ip_decision : Z;
  ip_reason : string;
  ip_policy_rule : string;
  ip_agent_id_claimed : option string;
  ip_claimed_org_id : string;
  ip_credential_token_present : bool;
  ip_identity_claimed : bool;
  ip_agent_identity_assurance : string;
}.

(** serde_json's texts, [from_utf8_lossy], the text of an approval's UUID, [{:?}] of a kind
    and of an anomaly type. *)
Class ServiceLib := {
  llm_args_json : string → Z → bool → string;
  from_utf8_lossy : string → string;
  decision_json : DecisionPayload → string;
  impersonation_json : ImpersonationPayload → string;
  routed_json : string → Z → string → string;
  approval_id_text : N → string;
  kind_debug : CredentialKind → string;
  anomaly_debug : AnomalyType → string;
}.

(** ** Conversions *)

Module ConvertError.
Inductive t := MissingContext | UnknownFileOp (operation : string).

Definition display (e : t) : string :=
  match e with
  | MissingContext => "missing action context"
  | UnknownFileOp operation => String.append "unknown file operation: " operation
  end.
End ConvertError.

Section Convert.
Context `{Keys, ServiceLib}.
Implicit Types (req : CheckActionRequest).

Definition hash_to_16 (s : string) : N := sha256_id s.

Definition session_id_from_trace (trace_id : string) : SessionId :=
  if is_empty trace_id then 0%N else hash_to_16 trace_id.

Definition UNATTRIBUTED_AGENT_ID : AgentId := 0%N.
Definition CLAIMED_AGENT_ID_KEY : string := "agent_id".
Definition AGENT_IDENTITY_ASSURANCE_KEY : string := "agent_identity_assurance".

Definition claimed_agent_id req : option string := cq_agent_id req ≫= λ a, non_empty (pi_agent_id a).

Definition context_agent_id req : AgentId :=
  match claimed_agent_id req with Some id => hash_to_16 id | None => UNATTRIBUTED_AGENT_ID end.

Definition insert_non_empty (key value : string) (m : gmap string string) : gmap string string :=
  if is_empty value then m else <[key := value]> m.

Definition request_metadata req : gmap string string :=
  let m := match claimed_agent_id req with Some id => {[CLAIMED_AGENT_ID_KEY := id]} | None => ∅ end in
  let m := match cq_agent_id req with
           | Some a => insert_non_empty "team_id" (pi_team_id a) (insert_non_empty "org_id" (pi_org_id a) m)
           | None => m
           end in
  insert_non_empty "span_id" (cq_span_id req) (insert_non_empty "credential_token" (cq_credential_token req) m).

Definition request_context req : AgentContext := {|
  ac_agent_id := context_agent_id req; ac_session_id := hash_to_16 (cq_trace_id req); ac_pid := 0; ac_started_at := 0;
  ac_metadata := request_metadata req; ac_governance_level := L0Discover; ac_parent_agent_id := None; ac_team_id := None;
  ac_depth := 0; ac_delegation_reason := None; ac_spawned_by_tool := None; ac_root_agent_id := None |}.

Definition decimal_i32 (n : Z) : string :=
  if n <? 0 then String.append "-" (decimal (Z.to_N (- n))) else decimal (Z.to_N n).

Definition call_url (host : string) (port : Z) (protocol : string) : string :=
  let host := if Text.contains host ":" && negb (starts_with host "[")
              then String.append "[" (String.append host "]") else host in
  concat_texts [protocol; "://"; host; ":"; decimal_i32 port].

Definition action_to_core (a : Act.Action) : result GovernanceAction ConvertError.t :=
  match a with
  | Act.ToolCall name args => Ok (ToolCall name (from_utf8_lossy args))
  | Act.ToolResult name res => Ok (ToolResult name (from_utf8_lossy res))
  | Act.FileOp operation path =>
      if String.eqb operation "read" then Ok (FileAccess path Read)
      else if String.eqb operation "write" || String.eqb operation "create" then Ok (FileAccess path Write)
      else if String.eqb operation "append" then Ok (FileAccess path Append)
      else if String.eqb operation "delete" then Ok (FileAccess path Delete)
      else Err (ConvertError.UnknownFileOp operation)
  | Act.NetworkCall host port protocol => Ok (NetworkRequest (call_url host port protocol) "CONNECT")
  | Act.ProcessExec command args =>
      Ok (ProcessExec (match args with [] => command | _ => String.append command (String.append " " (join " " args)) end))
  | Act.LlmCall model prompt_tokens contains_pii => Ok (ToolCall "llm_call" (llm_args_json model prompt_tokens contains_pii))
  end.

Definition request_to_core req : result (AgentContext * GovernanceAction) ConvertError.t :=
  match cq_action req with
  | None => Err ConvertError.MissingContext
  | Some a => let? action := action_to_core a in Ok (request_context req, action)
  end.

Definition action_label req : option string :=
  match cq_action req with
  | None => None
  | Some (Act.ToolCall name _) | Some (Act.ToolResult name _) => Some name
  | Some (Act.FileOp _ path) => Some path
  | Some (Act.NetworkCall host port _) => Some (concat_texts [host; ":"; decimal_i32 port])
  | Some (Act.ProcessExec command _) => Some command
  | Some (Act.LlmCall model _ _) => Some model
  end.

(** The findings that only the canonical tier names. *)
Definition canonical_only (eval : EvaluationResult) : list CanonicalFinding :=
  filter (λ f, to_credential_kind (kf_category f) = None) (er_canonical_findings eval).

Definition redact_rules (eval : EvaluationResult) : list RedactRule :=
  ((λ f, {| rx_field_path := String.append "$." (kind_debug (cf_kind f)); rx_replacement := "[REDACTED]" |})
     <$> er_credential_findings eval) ++
  ((λ f, {| rx_field_path := String.append "$." (category_display (kf_category f)); rx_replacement := "[REDACTED]" |})
     <$> canonical_only eval).

Definition has_findings (eval : EvaluationResult) : bool :=
  match er_credential_findings eval, er_canonical_findings eval with [], [] => false | _, _ => true end.

(** [None] is the panic on a decision that requires approval. *)
Definition eval_result_to_response (eval : EvaluationResult) (latency_us : Z) (policy_rule : string) : option Reply :=
  match er_decision eval with
  | Deny reason => Some (reply DECISION_DENY reason policy_rule "" None latency_us)
  | decision =>
      if has_findings eval && bool_decide (is_Some (er_redacted_payload eval))
      then Some (reply DECISION_REDACT "sensitive data detected" "data_pattern_scan" "" (Some (redact_rules eval)) latency_us)
      else match decision with
           | Allow => Some (reply DECISION_ALLOW "" "" "" None latency_us)
           | _ => None
           end
  end.

Definition runtime_verdict (decision : Z) (narrowed : bool) : string :=
  if decision =? DECISION_ALLOW then (if narrowed then "narrow" else "allow")
  else if decision =? DECISION_REDACT then "scrub"
  else if decision =? DECISION_PENDING then "pending"
  else "deny".

Definition approval_decision_to_response (decision : ApprovalDecision) (approval_id : N) (latency_us : Z)
    (policy_rule : string) : Reply :=
  let answer d reason := reply d reason policy_rule (approval_id_text approval_id) None latency_us in
  match decision with
  | Verdict.Approved _ _ _ => answer DECISION_ALLOW ""
  | Verdict.Rejected _ reason => answer DECISION_DENY reason
  | Verdict.TimedOut Allow => answer DECISION_ALLOW ""
  | Verdict.TimedOut (Deny reason) => answer DECISION_DENY reason
  | Verdict.TimedOut (RequiresApproval _) => answer DECISION_DENY "approval timed out"
  end.
End Convert.

(** ** What is known of the claimed identity *)

Module Assurance.
Inductive AgentIdentityAssurance := Unattributed | Asserted | Bound.

Definition as_str (a : AgentIdentityAssurance) : string :=
  match a with Unattributed => "unattributed" | Asserted => "asserted" | Bound => "bound" end.

Definition proto_assurance (a : AgentIdentityAssurance) : Z :=
  match a with Unattributed => 1 | Asserted => 2 | Bound => 3 end.
End Assurance.

Module Attribution.
Inductive AgentIdentityAttribution := Unattributed | Asserted (claimed : string) | Bound (agent_id : string).

Definition from_claim (claimed : option string) (agreement : option bool) : AgentIdentityAttribution :=
  match claimed ≫= non_empty with
  | None => Unattributed
  | Some c => if bool_decide (agreement = Some true) then Bound c else Asserted c
  end.

Definition assurance (a : AgentIdentityAttribution) : Assurance.AgentIdentityAssurance :=
  match a with
  | Unattributed => Assurance.Unattributed
  | Asserted _ => Assurance.Asserted
  | Bound _ => Assurance.Bound
  end.

Definition claimed_id (a : AgentIdentityAttribution) : option string :=
  match a with Unattributed => None | Asserted c | Bound c => Some c end.
End Attribution.

(** ** The service *)

(** What the approval router answered: the role a request goes to, and when it is escalated. *)
Record RoutingDecision := { rt_target_role : string; rt_escalate_at : Z }.

Record SecretAlert := {
  sl_agent_id : AgentId;
  sl_team_id : option string;
  sl_kinds : list CredentialKind;
  sl_finding_count : nat;
}.

(** One entry on its way to the audit channel: the reading of the clock and what the channel
    does with it. *)
Record Emission := { em_timestamp_ns : Z; em_channel : ChannelOutcome }.

(** What one check reads from its surroundings, in the order of use. *)
Record CheckEnv := {
  ev_decision_id : string;
  ev_session_at : Z;
  ev_ingested_at : Z;
  ev_request : Request;
  ev_latency_us : Z;
  ev_baseline_ms : Z;
  ev_detected_at : Z;
  ev_approval_id : ApprovalRequestId;
  ev_routed : Emission;
  ev_submitted_at : Z;
  ev_routing : option RoutingDecision;
  ev_approval : Ambient;
  ev_routed_at : Z;
  ev_spend : Readings;
  ev_settled_at : Z;
  ev_audit : Emission;
}.

(** An action held for an approval: the arguments of [run_approval_continuation]. *)
Record Held := {
  hd_req : CheckActionRequest;
  hd_eval : EvaluationResult;
  hd_policy_rule : string;
  hd_latency_us : Z;
  hd_approval_id : ApprovalRequestId;
  hd_future : Ticket;
  hd_timeout_secs : Z;
  hd_ops_op_id : option string;
  hd_anomaly_event : option AnomalyEvent;
  hd_shadow_event : option ShadowEvent;
  hd_decision_id : string;
}.

(** [Panicked] is the panic of [eval_result_to_response]; [Stuck] the walk over the ancestors
    that does not end within the fuel. *)
Inductive Outcome (A : Type) := Answered (a : A) | Failed (s : Status) | Panicked | Stuck.
Arguments Answered {A} _.
Arguments Failed {A} _.
Arguments Panicked {A}.
Arguments Stuck {A}.

(** The rows of the table the processes share. *)
Abbreviation ApprovalTable := (gmap ApprovalRequestId (ApprovalRecord * option ApprovalDecisionRow)).

Definition MIN_ESTIMATED_PROMPT_TOKENS : Z := 1000.

Definition emit_entry (tail : AuditTail) (build : Z → Digest → AuditEntry) (em : Emission) : AuditTail :=
  let '(chain, _, sent) := emit (at_chain tail) build (em_channel em) in
  {| at_chain := chain; at_sent := at_sent tail ++ match sent with Some e => [e] | None => [] end |}.

Section Service.
Context `{Keys, Formats, ServiceLib, AnomalyLib, JsonLib, HumantimeLib, UuidLib, ChronoLib, DecimalLib, Detectors}.
Context (content_digest : PolicyDocument → string) (action_discriminant : GovernanceAction → Z).
Context (dec_of_f64 : f64 → option dec) (sha256 : list Z → Digest).
Context (payload_of : ApprovalRequest → option string → string).

(** [PolicyServiceImpl].  [gw_shared] says that the engine holds the same registry. *)
Record Gateway := {
  gw_engine : Engine;
  gw_registry : option AgentRegistry;
  gw_shared : bool;
  gw_policy_default_mode : PolicyDefaultMode;
  gw_audit : AuditTail;
  gw_ops : option OpsRegistry;
  gw_approvals : option (ApprovalQueue * ApprovalTable);
  gw_anomaly : option (AnomalyDetector * list AnomalyEvent);
  gw_secret_alerts : option (list SecretAlert);
  gw_budget_alerts : list BudgetAlert;
  gw_held : list Held;
}.
Implicit Types (g : Gateway) (req : CheckActionRequest) (ev : CheckEnv) (eval : EvaluationResult) (response : Reply).

Definition set_engine g (en : Engine) : Gateway := {|
  gw_engine := en; gw_registry := gw_registry g; gw_shared := gw_shared g;
  gw_policy_default_mode := gw_policy_default_mode g; gw_audit := gw_audit g; gw_ops := gw_ops g;
  gw_approvals := gw_approvals g; gw_anomaly := gw_anomaly g; gw_secret_alerts := gw_secret_alerts g;
  gw_budget_alerts := gw_budget_alerts g; gw_held := gw_held g |}.

(** An update of the registry is one of the engine's too where they share it. *)
Definition put_registry g (reg : AgentRegistry) : Gateway := {|
  gw_engine := if gw_shared g then Engine.set_registry (gw_engine g) reg else gw_engine g;
  gw_registry := Some reg; gw_shared := gw_shared g;
  gw_policy_default_mode := gw_policy_default_mode g; gw_audit := gw_audit g; gw_ops := gw_ops g;
  gw_approvals := gw_approvals g; gw_anomaly := gw_anomaly g; gw_secret_alerts := gw_secret_alerts g;
  gw_budget_alerts := gw_budget_alerts g; gw_held := gw_held g |}.

Definition set_audit g (tail : AuditTail) : Gateway := {|
  gw_engine := gw_engine g; gw_registry := gw_registry g; gw_shared := gw_shared g;
  gw_policy_default_mode := gw_policy_default_mode g; gw_audit := tail; gw_ops := gw_ops g;
  gw_approvals := gw_approvals g; gw_anomaly := gw_anomaly g; gw_secret_alerts := gw_secret_alerts g;
  gw_budget_alerts := gw_budget_alerts g; gw_held := gw_held g |}.

Definition set_live_ops g (ops : option OpsRegistry) : Gateway := {|
  gw_engine := gw_engine g; gw_registry := gw_registry g; gw_shared := gw_shared g;
  gw_policy_default_mode := gw_policy_default_mode g; gw_audit := gw_audit g; gw_ops := ops;
  gw_approvals := gw_approvals g; gw_anomaly := gw_anomaly g; gw_secret_alerts := gw_secret_alerts g;
  gw_budget_alerts := gw_budget_alerts g; gw_held := gw_held g |}.

Definition set_approvals g (approvals : ApprovalQueue * ApprovalTable) : Gateway := {|
  gw_engine := gw_engine g; gw_registry := gw_registry g; gw_shared := gw_shared g;
  gw_policy_default_mode := gw_policy_default_mode g; gw_audit := gw_audit g; gw_ops := gw_ops g;
  gw_approvals := Some approvals; gw_anomaly := gw_anomaly g; gw_secret_alerts := gw_secret_alerts g;
  gw_budget_alerts := gw_budget_alerts g; gw_held := gw_held g |}.

Definition set_anomaly g (anomaly : AnomalyDetector * list AnomalyEvent) : Gateway := {|
  gw_engine := gw_engine g; gw_registry := gw_registry g; gw_shared := gw_shared g;
  gw_policy_default_mode := gw_policy_default_mode g; gw_audit := gw_audit g; gw_ops := gw_ops g;
  gw_approvals := gw_approvals g; gw_anomaly := Some anomaly; gw_secret_alerts := gw_secret_alerts g;
  gw_budget_alerts := gw_budget_alerts g; gw_held := gw_held g |}.

Definition set_secret_alerts g (alerts : list SecretAlert) : Gateway := {|
  gw_engine := gw_engine g; gw_registry := gw_registry g; gw_shared := gw_shared g;
  gw_policy_default_mode := gw_policy_default_mode g; gw_audit := gw_audit g; gw_ops := gw_ops g;
  gw_approvals := gw_approvals g; gw_anomaly := gw_anomaly g; gw_secret_alerts := Some alerts;
  gw_budget_alerts := gw_budget_alerts g; gw_held := gw_held g |}.

Definition spend_alerts g (alerts : list BudgetAlert) : Gateway := {|
  gw_engine := gw_engine g; gw_registry := gw_registry g; gw_shared := gw_shared g;
  gw_policy_default_mode := gw_policy_default_mode g; gw_audit := gw_audit g; gw_ops := gw_ops g;
  gw_approvals := gw_approvals g; gw_anomaly := gw_anomaly g; gw_secret_alerts := gw_secret_alerts g;
  gw_budget_alerts := gw_budget_alerts g ++ alerts; gw_held := gw_held g |}.

Definition set_held g (held : list Held) : Gateway := {|
  gw_engine := gw_engine g; gw_registry := gw_registry g; gw_shared := gw_shared g;
  gw_policy_default_mode := gw_policy_default_mode g; gw_audit := gw_audit g; gw_ops := gw_ops g;
  gw_approvals := gw_approvals g; gw_anomaly := gw_anomaly g; gw_secret_alerts := gw_secret_alerts g;
  gw_budget_alerts := gw_budget_alerts g; gw_held := held |}.

(** *** Identity *)

(** The key under which the claimed agent is registered, if it is. *)
Definition claimed_key req : option AgentId := proto_agent_id_to_key <$> cq_agent_id req.

Definition credentialed_owner_key g req : option AgentId :=
  registry ← gw_registry g;
  if is_empty (cq_credential_token req) then None
  else find_by_credential_token registry (cq_credential_token req).

Definition authoritative_agent_key g req : option AgentId :=
  match credentialed_owner_key g req with Some key => Some key | None => claimed_key req end.

Definition agent_identity_attribution g req : Attribution.AgentIdentityAttribution :=
  Attribution.from_claim (claimed_agent_id req)
    ((λ owner_key, bool_decide (claimed_key req = Some owner_key)) <$> credentialed_owner_key g req).

Definition stamp_attribution_on_context (attribution : Attribution.AgentIdentityAttribution) (ctx : AgentContext)
  : AgentContext :=
  with_tenancy ctx (ac_governance_level ctx) (ac_team_id ctx)
    (<[AGENT_IDENTITY_ASSURANCE_KEY := Assurance.as_str (Attribution.assurance attribution)]> (ac_metadata ctx)).

Definition stamp_identity_assurance g req response : Reply := {|
  rp_decision := rp_decision response; rp_reason := rp_reason response; rp_policy_rule := rp_policy_rule response;
  rp_approval_id := rp_approval_id response; rp_redact := rp_redact response;
  rp_decision_latency_us := rp_decision_latency_us response;
  rp_agent_identity_assurance := Assurance.proto_assurance (Attribution.assurance (agent_identity_attribution g req));
  rp_decision_id := rp_decision_id response |}.

Definition stamp_decision_id response (decision_id : string) : Reply := {|
  rp_decision := rp_decision response; rp_reason := rp_reason response; rp_policy_rule := rp_policy_rule response;
  rp_approval_id := rp_approval_id response; rp_redact := rp_redact response;
  rp_decision_latency_us := rp_decision_latency_us response;
  rp_agent_identity_assurance := rp_agent_identity_assurance response; rp_decision_id := decision_id |}.

Definition lookup_agent_enforcement_override g req : option EnforcementMode :=
  registry ← gw_registry g;
  agent_key ← authoritative_agent_key g req;
  record ← get registry agent_key;
  ar_enforcement_mode record.

(** *** Evaluation *)

Definition policy_rule_of eval : string :=
  match er_decision eval with
  | Allow => ""
  | Deny reason => default reason (er_policy_scope eval)
  | RequiresApproval _ => "requires_approval"
  end.

Definition evaluate_one ev g req : Gateway * result (EvaluationResult * string) Status :=
  match request_to_core req with
  | Err e => (g, status InvalidArgument (ConvertError.display e))
  | Ok (ctx, action) =>
      let ctx := apply_authoritative_tenancy (gw_registry g) (cq_credential_token req) ctx in
      let ctx := stamp_attribution_on_context (agent_identity_attribution g req) ctx in
      let (en, eval) := evaluate content_digest action_discriminant dec_of_f64 (gw_engine g) ctx action (ev_request ev) in
      (set_engine g en, Ok (eval, policy_rule_of eval))
  end.

(** The command pushed on the control stream of the suspended agent is not state. *)
Definition maybe_suspend_agent g req (deny_action : option DA.DenyAction) : Gateway :=
  if bool_decide (deny_action = Some DA.SuspendAgent) then
    match gw_registry g, authoritative_agent_key g req with
    | Some registry, Some agent_key => put_registry g (fst (suspend_agent registry agent_key Suspend.BudgetExceeded))
    | _, _ => g
    end
  else g.

(** *** Audit *)

Definition decision_to_event_type_from_response (decision : Z) : Event.AuditEventType :=
  if decision =? DECISION_ALLOW then Event.ToolCallIntercepted
  else if decision =? DECISION_DENY then Event.PolicyViolation
  else if decision =? DECISION_REDACT then Event.CredentialLeakBlocked
  else if decision =? DECISION_PENDING then Event.ApprovalRequested
  else Event.PolicyViolation.

(** The caller of an agent-to-agent call. *)
Definition a2a_caller g req : option string :=
  c ← cq_caller_agent_id req;
  if is_empty (pi_agent_id c) || bool_decide (Some (pi_agent_id c) = Attribution.claimed_id (agent_identity_attribution g req))
  then None else Some (pi_agent_id c).

Definition subject_of (claimed : option string) : AgentId :=
  match claimed with Some id => hash_to_16 id | None => UNATTRIBUTED_AGENT_ID end.

Definition audit_lineage g req : AuditChain.Lineage :=
  match gw_registry g ≫= λ r, claimed_key req ≫= Registry.lineage r with
  | None => AuditChain.no_lineage
  | Some l => {|
      AuditChain.ln_root_agent_id := Registry.ln_root_agent_id l; AuditChain.ln_parent_agent_id := Registry.ln_parent_agent_id l;
      AuditChain.ln_team_id := Registry.ln_team_id l; AuditChain.ln_delegation_reason := Registry.ln_delegation_reason l;
      AuditChain.ln_spawned_by_tool := Registry.ln_spawned_by_tool l; AuditChain.ln_depth := Registry.ln_depth l;
      AuditChain.ln_org_id := Registry.ln_org_id l |}
  end.

Definition decision_payload g req response eval (shadow : option ShadowEvent) : DecisionPayload :=
  let attribution := agent_identity_attribution g req in
  let claimed := Attribution.claimed_id attribution in
  let caller := a2a_caller g req in {|
  dp_action_type := cq_action_type req; dp_action := action_label req; dp_decision := rp_decision response;
  dp_verdict := runtime_verdict (rp_decision response) (er_narrowed eval);
  dp_latency_ms := Z.max (rp_decision_latency_us response) 0 / 1000;
  dp_reason := rp_reason response; dp_policy_rule := rp_policy_rule response; dp_policy_doc_id := er_policy_doc_id eval;
  dp_latency_us := rp_decision_latency_us response; dp_shadow := shadow; dp_agent_id_claimed := claimed;
  dp_agent_identity_assurance := Assurance.as_str (Attribution.assurance attribution);
  dp_caller_agent_id := caller; dp_callee_agent_id := caller ≫= λ _, claimed;
  dp_trace_id := non_empty (cq_trace_id req); dp_span_id := non_empty (cq_span_id req); dp_lineage := audit_lineage g req;
  dp_agent_id_hex := hex_id (subject_of claimed); dp_session_id_hex := hex_id (session_id_from_trace (cq_trace_id req)) |}.

Definition audit_redaction eval : AuditRedaction :=
  if has_findings eval
  then {| rd_credential_findings := er_credential_findings eval; rd_redacted_payload := er_redacted_payload eval |}
  else no_redaction.

Definition audit_event g req response : Event.AuditEventType :=
  if bool_decide (is_Some (a2a_caller g req)) && (rp_decision response =? DECISION_ALLOW)
  then Event.A2ACallIntercepted else decision_to_event_type_from_response (rp_decision response).

Definition record_audit (em : Emission) g req response eval (shadow : option ShadowEvent) : Gateway :=
  let build seq previous_hash :=
    new_with_lineage_redaction_and_attribution sha256 seq (em_timestamp_ns em) (audit_event g req response)
      (subject_of (Attribution.claimed_id (agent_identity_attribution g req))) (session_id_from_trace (cq_trace_id req))
      (decision_json (decision_payload g req response eval shadow)) previous_hash (audit_lineage g req)
      (audit_redaction eval) (er_policy_doc_id eval) (non_empty (rp_decision_id response)) in
  set_audit g (emit_entry (gw_audit g) build em).

Definition impersonation_payload g req response : ImpersonationPayload := {|
  ip_action_type := cq_action_type req; ip_decision := rp_decision response; ip_reason := rp_reason response;
  ip_policy_rule := rp_policy_rule response; ip_agent_id_claimed := claimed_agent_id req;
  ip_claimed_org_id := match cq_agent_id req with Some a => pi_org_id a | None => "" end;
  ip_credential_token_present := negb (is_empty (cq_credential_token req));
  ip_identity_claimed := bool_decide (is_Some (claimed_agent_id req));
  ip_agent_identity_assurance := Assurance.as_str (Attribution.assurance (agent_identity_attribution g req)) |}.

Definition claimed_org_lineage req : AuditChain.Lineage :=
  match cq_agent_id req ≫= λ a, non_empty (pi_org_id a) with
  | None => AuditChain.no_lineage
  | Some org => {| AuditChain.ln_root_agent_id := None; AuditChain.ln_parent_agent_id := None; AuditChain.ln_team_id := None;
                   AuditChain.ln_delegation_reason := None; AuditChain.ln_spawned_by_tool := None; AuditChain.ln_depth := None;
                   AuditChain.ln_org_id := Some org |}
  end.

Definition record_impersonation_audit (em : Emission) g req response : Gateway :=
  let build seq previous_hash :=
    new_with_lineage_redaction_and_attribution sha256 seq (em_timestamp_ns em) Event.A2AImpersonationAttempted
      (subject_of (claimed_agent_id req)) (session_id_from_trace (cq_trace_id req))
      (impersonation_json (impersonation_payload g req response)) previous_hash (claimed_org_lineage req)
      no_redaction None (non_empty (rp_decision_id response)) in
  set_audit g (emit_entry (gw_audit g) build em).

(** The reason to refuse the credential of a request. *)
Definition credential_refusal g req : option string :=
  registry ← gw_registry g;
  match claimed_key req ≫= get registry with
  | Some record =>
      if is_empty (cq_credential_token req) then Some "missing credential token"
      else if negb (String.eqb (cq_credential_token req) (ar_credential_token record)) then Some "credential token mismatch"
      else None
  | None =>
      if is_empty (cq_credential_token req) then None
      else match find_by_credential_token registry (cq_credential_token req) with
           | Some _ => Some "credential token registered to a different agent"
           | None => None
           end
  end.

Definition validate_credential_token ev g req : Gateway * option Reply :=
  match credential_refusal g req with
  | None => (g, None)
  | Some reason =>
      let response := stamp_decision_id
        (stamp_identity_assurance g req (reply DECISION_DENY reason "a2a_identity_verification" "" None 0)) (ev_decision_id ev) in
      (record_impersonation_audit (ev_audit ev) g req response, Some response)
  end.

(** *** Around the evaluation *)

Definition session_activity ev g req : Gateway :=
  match gw_registry g with
  | Some registry =>
      if is_empty (cq_trace_id req) then g
      else match claimed_key req with
           | None => g
           | Some agent_key =>
               match record_session_activity registry agent_key (hex_id (hash_to_16 (cq_trace_id req))) (ev_session_at ev) with
               | Ok (registry, _) => put_registry g registry
               | Err _ => g
               end
           end
  | None => g
  end.

Definition op_request req : OpRequest := {|
  oq_trace_id := cq_trace_id req; oq_span_id := cq_span_id req;
  oq_agent_id := (λ a, {| OpControl.pa_org_id := pi_org_id a; OpControl.pa_team_id := pi_team_id a; OpControl.pa_agent_id := pi_agent_id a |}) <$> cq_agent_id req |}.

Definition ingest_op ev g req : Gateway * option string :=
  match gw_ops g with
  | None => (g, None)
  | Some ops =>
      let (ops, op_id) := OpControl.ingest_op to_rfc3339 ops (op_request req) (ev_ingested_at ev) in
      (set_live_ops g (Some ops), op_id)
  end.

(** [allow_op] or [terminate_op], by the decision. *)
Definition settle_op ev g (op_id : option string) (decision : Z) : Gateway :=
  set_live_ops g ((λ ops, OpControl.settle_op to_rfc3339 ops op_id decision (ev_settled_at ev)) <$> gw_ops g).

(** The kinds in the order they are first seen. *)
Definition distinct_kinds (findings : list CredentialFinding) : list CredentialKind :=
  foldl (λ kinds f, if bool_decide (cf_kind f ∈ kinds) then kinds else kinds ++ [cf_kind f]) [] findings.

Definition maybe_emit_secret_alert g req eval : Gateway :=
  match er_credential_findings eval, gw_secret_alerts g, cq_agent_id req with
  | _ :: _, Some alerts, Some proto_agent =>
      set_secret_alerts g (alerts ++ [{| sl_agent_id := proto_agent_id_to_key proto_agent;
                                         sl_team_id := non_empty (pi_team_id proto_agent);
                                         sl_kinds := distinct_kinds (er_credential_findings eval);
                                         sl_finding_count := List.length (er_credential_findings eval) |}])
  | _, _, _ => g
  end.

Definition network_allowlist (en : Engine) : list string :=
  match pd_network (en_policy en) with Some np => np_allowlist np | None => [] end.

Definition maybe_detect_anomaly ev g req eval : Gateway * option AnomalyEvent :=
  match gw_anomaly g, request_to_core req with
  | Some (detector, events), Ok (ctx, action) =>
      let agent_id := ac_agent_id ctx in
      let detector := record_action detector agent_id (ev_baseline_ms ev) in
      let detector := match action with
                      | ToolCall name args => record_tool_call detector agent_id name args (ev_baseline_ms ev)
                      | _ => detector
                      end in
      let found := (List.length (er_credential_findings eval) + List.length (canonical_only eval))%nat in
      let detector := Nat.iter found (λ d, record_credential_finding d agent_id) detector in
      let event := detect detector agent_id action (0 <? found)%nat (network_allowlist (gw_engine g)) None (ev_detected_at ev) in
      (set_anomaly g (detector, events ++ option_list event), event)
  | _, _ => (g, None)
  end.

Definition enforce_anomaly_block response (event : option AnomalyEvent) : Reply :=
  match event with
  | None => response
  | Some event =>
      if negb (is_blocking (av_response event)) then response
      else if negb (rp_decision response =? DECISION_ALLOW) then response
      else reply DECISION_DENY
             (concat_texts ["anomaly detected ("; anomaly_debug (av_anomaly_type event); "): "; av_description event;
                            " — blocked by anomaly responder"])
             "anomaly_detection" "" None (rp_decision_latency_us response)
  end.

Definition estimated_tokens (prompt_tokens : Z) : Z :=
  if 0 <? prompt_tokens then prompt_tokens else MIN_ESTIMATED_PROMPT_TOKENS.

(** [None] when the walk over the ancestors does not end. *)
Definition maybe_accrue_llm_spend (fuel : nat) ev g req response : option (Gateway * Reply) :=
  if rp_decision response =? DECISION_DENY then Some (g, response)
  else match cq_action req with
       | Some (Act.LlmCall model prompt_tokens _) =>
           let cost := llm_call_cost_usd (gw_engine g) model (estimated_tokens prompt_tokens) 0 in
           if SFleb cost (f64_of_Z 0) then Some (g, response)
           else
             let ctx := apply_authoritative_tenancy (gw_registry g) (cq_credential_token req) (request_context req) in
             match check_and_accrue_llm_spend dec_of_f64 fuel (gw_engine g) ctx cost (ev_spend ev) with
             | None => None
             | Some ((en, refusal), alerts) =>
                 Some (spend_alerts (set_engine g en) alerts,
                       match refusal with
                       | None => response
                       | Some reason => reply DECISION_DENY reason reason "" None (rp_decision_latency_us response)
                       end)
             end
       | _ => Some (g, response)
       end.

(** *** Approval *)

Definition approval_escalation_overrides (en : Engine) : option Z * option string :=
  match pd_approval_policy (en_policy en) with
  | Some ap => (ap_timeout_seconds ap, ap_escalation_role ap)
  | None => (None, None)
  end.

Definition build_approval_request req (timeout_secs : Z) (team_id : option string) (request_id : ApprovalRequestId)
    (timeout_override_secs : option Z) (escalation_role_override : option string) (now : Z) : ApprovalRequest := {|
  aq_request_id := request_id; aq_agent_id := match cq_agent_id req with Some a => pi_agent_id a | None => "" end;
  aq_action := String.append "action_type=" (decimal_i32 (cq_action_type req)); aq_condition_triggered := "requires_approval";
  aq_submitted_at := now; aq_timeout_secs := timeout_secs; aq_fallback := Deny "approval timed out"; aq_team_id := team_id;
  aq_timeout_override_secs := timeout_override_secs; aq_escalation_role_override := escalation_role_override |}.

(** The team the claimed agent is registered with. *)
Definition approval_team g req : option string :=
  registry ← gw_registry g; agent_key ← claimed_key req; record ← get registry agent_key; ar_team_id record.

Definition emit_approval_routed_audit ev g req (team_id : string) : Gateway :=
  let build seq previous_hash :=
    entry_new sha256 seq (em_timestamp_ns (ev_routed ev)) Event.ApprovalRouted
      (match cq_agent_id req with Some a => hash_to_16 (pi_agent_id a) | None => 0%N end)
      (session_id_from_trace (cq_trace_id req))
      (routed_json team_id (cq_action_type req) (approval_id_text (ev_approval_id ev))) previous_hash in
  set_audit g (emit_entry (gw_audit g) build (ev_routed ev)).

(** The routing recorded with the held request: the status, the role and when it escalates. *)
Definition routing_of (routing : option RoutingDecision) (team_id : option string) : string * option string * option Z :=
  match routing with
  | Some d => (if String.eqb (rt_target_role d) "TeamAdmin" then "routed_to_team_admin" else "routed_to_org_admin",
               Some (rt_target_role d), Some (rt_escalate_at d))
  | None => (match team_id with Some _ => "routed_to_team_admin" | None => "routed_to_org_admin" end, None, None)
  end.

Definition maybe_submit_approval ev g req eval (policy_rule : string) : Gateway * option (Reply * Ticket * Z) :=
  match er_decision eval, gw_approvals g with
  | RequiresApproval timeout_secs, Some (queue, table) =>
      let team_id := approval_team g req in
      let g := match team_id with Some tid => emit_approval_routed_audit ev g req tid | None => g end in
      let (timeout_override, role_override) := approval_escalation_overrides (gw_engine g) in
      let approval_req := build_approval_request req timeout_secs team_id (ev_approval_id ev) timeout_override role_override
                            (ev_submitted_at ev) in
      let '(queue, table, future) :=
        submit_persisted sha256 hash_to_16 approval_id_text payload_of queue table approval_req (ev_approval ev) in
      let '(routing_status, target_role, escalate_at) := routing_of (ev_routing ev) team_id in
      let history_entry := {| rh_at := ev_routed_at ev; rh_action := "routed"; rh_from_role := None;
                              rh_to_role := default routing_status target_role |} in
      let queue := fst (record_routing queue (ev_approval_id ev) routing_status target_role (Some (ev_routed_at ev))
                          escalate_at (Some history_entry)) in
      (set_approvals g (queue, table),
       Some (reply DECISION_PENDING "" policy_rule (approval_id_text (ev_approval_id ev)) None (ev_latency_us ev),
             future, timeout_secs))
  | _, _ => (g, None)
  end.

(** *** The two calls *)

(** What is known of a request once it is evaluated: the result with observe mode applied, the
    label of the rule, what observe mode hid, and the anomaly. *)
Record Assessment := {
  as_eval : EvaluationResult;
  as_policy_rule : string;
  as_shadow_event : option ShadowEvent;
  as_anomaly_event : option AnomalyEvent;
}.

Definition effective_mode g req : EffectiveMode :=
  resolve_enforcement_mode (lookup_agent_enforcement_override g req) (gw_policy_default_mode g).

Definition assess ev g req : Gateway * result Assessment Status :=
  match evaluate_one ev g req with
  | (g, Err s) => (g, Err s)
  | (g, Ok (eval, policy_rule)) =>
      let g := maybe_emit_secret_alert g req eval in
      let (eval, shadow_event) := transform_for_observe_mode eval (effective_mode g req) in
      let (g, anomaly_event) := maybe_detect_anomaly ev g req eval in
      (g, Ok {| as_eval := eval; as_policy_rule := policy_rule; as_shadow_event := shadow_event;
                as_anomaly_event := anomaly_event |})
  end.

Definition held_action ev req (a : Assessment) (ops_op_id : option string) (future : Ticket) (timeout_secs : Z) : Held := {|
  hd_req := req; hd_eval := as_eval a; hd_policy_rule := as_policy_rule a; hd_latency_us := ev_latency_us ev;
  hd_approval_id := ev_approval_id ev; hd_future := future; hd_timeout_secs := timeout_secs; hd_ops_op_id := ops_op_id;
  hd_anomaly_event := as_anomaly_event a; hd_shadow_event := as_shadow_event a; hd_decision_id := ev_decision_id ev |}.

(** The evaluation of one admitted request and everything after it. *)
Definition decide_request (fuel : nat) ev g req (ops_op_id : option string) : Gateway * Outcome Reply :=
  match assess ev g req with
  | (g, Err s) => (g, Failed s)
  | (g, Ok a) =>
      match maybe_submit_approval ev g req (as_eval a) (as_policy_rule a) with
      | (g, Some (pending, future, timeout_secs)) =>
          let pending := stamp_decision_id (stamp_identity_assurance g req pending) (ev_decision_id ev) in
          let g := record_audit (ev_audit ev) g req pending (as_eval a) (as_shadow_event a) in
          (set_held g (gw_held g ++ [held_action ev req a ops_op_id future timeout_secs]), Answered pending)
      | (g, None) =>
          match eval_result_to_response (as_eval a) (ev_latency_us ev) (as_policy_rule a) with
          | None => (g, Panicked)
          | Some response =>
              match maybe_accrue_llm_spend fuel ev g req (enforce_anomaly_block response (as_anomaly_event a)) with
              | None => (g, Stuck)
              | Some (g, response) =>
                  let response := stamp_decision_id (stamp_identity_assurance g req response) (ev_decision_id ev) in
                  let g := settle_op ev g ops_op_id (rp_decision response) in
                  let g := maybe_suspend_agent g req (er_deny_action (as_eval a)) in
                  (record_audit (ev_audit ev) g req response (as_eval a) (as_shadow_event a), Answered response)
              end
          end
      end
  end.

Definition check_action (fuel : nat) ev g req : Gateway * Outcome Reply :=
  match validate_credential_token ev g req with
  | (g, Some rejection) => (g, Answered rejection)
  | (g, None) =>
      let g := session_activity ev g req in
      let (g, ops_op_id) := ingest_op ev g req in
      decide_request fuel ev g req ops_op_id
  end.

(** The first entry that fails ends the batch. *)
Fixpoint batch_check (fuel : nat) g (batch : list (CheckEnv * CheckActionRequest)) : Gateway * Outcome (list Reply) :=
  match batch with
  | [] => (g, Answered [])
  | (ev, req) :: batch =>
      let '(g, outcome) :=
        match validate_credential_token ev g req with
        | (g, Some rejection) => (g, Answered rejection)
        | (g, None) => decide_request fuel ev (session_activity ev g req) req None
        end in
      match outcome with
      | Answered response =>
          let '(g, rest) := batch_check fuel g batch in
          (g, match rest with Answered responses => Answered (response :: responses) | other => other end)
      | Failed s => (g, Failed s)
      | Panicked => (g, Panicked)
      | Stuck => (g, Stuck)
      end
  end.

(** *** After the approval *)

(** What the continuation finds when it is polled, [elapsed] once its own timer has fired:
    [None] while it waits. *)
Definition await_decision (q : ApprovalQueue) (future : Ticket) (elapsed : bool) : option ApprovalDecision :=
  match q_settled q !! future with
  | Some decision => Some decision
  | None =>
      if existsb (λ e, bool_decide (snd (snd e) = Some future)) (map_to_list (q_pending q))
      then if elapsed then Some (Verdict.TimedOut (Deny "approval timed out")) else None
      else Some (Verdict.Rejected "system" "approval channel closed")
  end.

(** The rest of [run_approval_continuation]; nobody reads its response. *)
Definition resume_held (fuel : nat) ev g (hd : Held) (decision : ApprovalDecision) : Gateway * Outcome Reply :=
  let req := hd_req hd in
  let response := approval_decision_to_response decision (hd_approval_id hd) (hd_latency_us hd) (hd_policy_rule hd) in
  match maybe_accrue_llm_spend fuel ev g req (enforce_anomaly_block response (hd_anomaly_event hd)) with
  | None => (g, Stuck)
  | Some (g, response) =>
      let response := stamp_decision_id (stamp_identity_assurance g req response) (hd_decision_id hd) in
      let g := settle_op ev g (hd_ops_op_id hd) (rp_decision response) in
      (record_audit (ev_audit ev) g req response (hd_eval hd) (hd_shadow_event hd), Answered response)
  end.

(** [None] while the hold waits. *)
Definition run_approval_continuation (fuel : nat) ev g (hd : Held) (elapsed : bool) : option (Gateway * Outcome Reply) :=
  '(queue, _) ← gw_approvals g;
  decision ← await_decision queue (hd_future hd) elapsed;
  Some (resume_held fuel ev g hd decision).
End Service.
