(* ===== verification/PolicyServiceProps.v ===== *)
(** * PolicyServiceProps: what a policy check promises

    The exact condition of an allowed action, whose records a check may touch, what is written
    of every answer, and what releases an action that is held for an approval. *)

From stdpp Require Import base gmap strings list sets relations.
From Stdlib Require Import ZArith Lia Bool Ascii String Floats.SpecFloat.
From S2P Require Import Prelude.
From S2P Require Import ScopeIndex.
From S2P Require Import Text.
From S2P Require Import Float64.
From S2P Require Import CoreTypes.
From S2P Require Import External.
From S2P Require Import PolicyDocument.
From S2P Require Import Decision.
From S2P Require Import Budget.
From S2P Require Import BudgetTracker.
From S2P Require Import BudgetProps.
From S2P Require Import Findings.
From S2P Require Import Detection.
From S2P Require Import OpControl.
From S2P Require Import AuditChain.
From S2P Require Import AuditProps.
From S2P Require Import Approval.
From S2P Require Import ApprovalProps.
From S2P Require Import Registry.
From S2P Require Import RegistryProps.
From S2P Require Import Engine.
From S2P Require Import EngineProps.
From S2P Require Import Anomaly.
From S2P Require Import EdgeApi.
From S2P Require Import TopologyService.
From S2P Require Import Lifecycle.
From S2P Require Import PolicyService.

Open Scope Z_scope.
Open Scope aasm_scope.

(** The parts of a gateway that an evaluation leaves alone. *)
Section Frames.
Context `{ChronoLib, DecimalLib, Detectors}.
Implicit Types (g : Gateway).

Definition standing g :=
  (gw_registry g, gw_shared g, gw_policy_default_mode g, gw_audit g, gw_ops g, gw_approvals g, gw_held g).

Lemma standing_registry g g' : standing g = standing g' → gw_registry g = gw_registry g'.
Proof. by intros [=]. Qed.
End Frames.

(** ** Registered agents *)

(** Every agent with a token is found by it. *)
Definition credentials_ok (registry : AgentRegistry) : Prop :=
  ∀ key r, get registry key = Some r → ar_credential_token r ≠ "" →
  find_by_credential_token registry (ar_credential_token r) = Some key.

(** Only the record of [key] may differ, and not in its token. *)
Record touches (key : AgentId) (registry registry' : AgentRegistry) : Prop := {
  to_index : rg_credential_index registry' = rg_credential_index registry;
  to_others k : k ≠ key → get registry' k = get registry k;
  to_tokens k : ar_credential_token <$> get registry' k = ar_credential_token <$> get registry k;
}.

Lemma touches_refl key registry : touches key registry registry.
Proof. by split. Qed.

Lemma touches_trans key r1 r2 r3 : touches key r1 r2 → touches key r2 r3 → touches key r1 r3.
Proof.
  intros [Hi Ho Ht] [Hi' Ho' Ht']. split; [congruence| |].
  - intros k Hk. by rewrite Ho', Ho.
  - intros k. by rewrite Ht', Ht.
Qed.

Lemma touches_alter key f registry :
  (∀ r, ar_credential_token (f r) = ar_credential_token r) → touches key registry (alter_agent f key registry).
Proof.
  intros Hf. split; [done| |]; unfold alter_agent, get; simpl.
  - intros k Hk. by rewrite lookup_alter_ne.
  - intros k. destruct (base.decide (k = key)) as [->|Hk]; [|by rewrite lookup_alter_ne].
    rewrite lookup_alter_eq. destruct (rg_agents registry !! key); simpl; [|done]. by rewrite Hf.
Qed.

Lemma touches_unregistered key registry registry' k :
  touches key registry registry' → get registry key = None → get registry' k = get registry k.
Proof.
  intros [_ Ho Ht] Hn. destruct (base.decide (k = key)) as [->|Hk]; [|by apply Ho]. specialize (Ht key). rewrite Hn in *.
  by destruct (get registry' key).
Qed.

Lemma suspend_touches registry key reason : touches key registry (fst (suspend_agent registry key reason)).
Proof.
  unfold suspend_agent. set (g1 := with_reasons _ _).
  assert (touches key registry g1) as H1 by by split. destruct (get g1 key); simpl; [|done].
  eapply touches_trans; [exact H1|]. by apply touches_alter.
Qed.

Lemma session_touches registry key session now registry' n :
  record_session_activity registry key session now = Ok (registry', n) → touches key registry registry'.
Proof.
  unfold record_session_activity. destruct (get registry key) as [r|]; [|done].
  destruct (bump_session _ _) as [[ss m]|]; intros [= <- _]; by apply touches_alter.
Qed.

Section Props.
Context `{Keys, Formats, ServiceLib, AnomalyLib, JsonLib, HumantimeLib, UuidLib, ChronoLib, DecimalLib, Detectors}.
Context (content_digest : PolicyDocument → string) (action_discriminant : GovernanceAction → Z).
Context (dec_of_f64 : f64 → option dec) (sha256 : list Z → Digest).
Context (payload_of : ApprovalRequest → option string → string).
Implicit Types (g : Gateway) (req : CheckActionRequest) (ev : CheckEnv) (eval : EvaluationResult) (response : Reply).

Abbreviation evaluate := (evaluate content_digest action_discriminant dec_of_f64).
Abbreviation assess := (assess content_digest action_discriminant dec_of_f64).
Abbreviation accrue := (maybe_accrue_llm_spend dec_of_f64).
Abbreviation record_audit := (record_audit sha256).
Abbreviation submit_approval := (maybe_submit_approval sha256 payload_of).
Abbreviation decide_request := (decide_request content_digest action_discriminant dec_of_f64 sha256 payload_of).
Abbreviation check_action := (check_action content_digest action_discriminant dec_of_f64 sha256 payload_of).
Abbreviation batch_check := (batch_check content_digest action_discriminant dec_of_f64 sha256 payload_of).
Abbreviation resume_held := (resume_held dec_of_f64 sha256).
Abbreviation continuation := (run_approval_continuation dec_of_f64 sha256).

(** ** Frames *)

Lemma evaluate_one_standing ev g req :
  standing (fst (evaluate_one content_digest action_discriminant dec_of_f64 ev g req)) = standing g.
Proof.
  unfold evaluate_one. destruct (request_to_core req) as [[ctx action]|e]; [|done]. by destruct (evaluate _ _ _ _).
Qed.

Lemma secret_alert_standing g req eval : standing (maybe_emit_secret_alert g req eval) = standing g.
Proof.
  unfold maybe_emit_secret_alert. by destruct (er_credential_findings eval), (gw_secret_alerts g), (cq_agent_id req).
Qed.

Lemma detect_standing ev g req eval : standing (fst (maybe_detect_anomaly ev g req eval)) = standing g.
Proof.
  unfold maybe_detect_anomaly. by destruct (gw_anomaly g) as [[d es]|], (request_to_core req) as [[ctx action]|e].
Qed.

Lemma assess_standing ev g req : standing (fst (assess ev g req)) = standing g.
Proof.
  unfold PolicyService.assess. pose proof (evaluate_one_standing ev g req) as He.
  destruct (evaluate_one _ _ _ ev g req) as [g1 [[eval rule]|s]]; [|done]. cbn [fst] in He. rewrite <- He.
  rewrite <- (secret_alert_standing g1 req eval). destruct (transform_for_observe_mode _ _) as [eval' shadow].
  rewrite <- (detect_standing ev (maybe_emit_secret_alert g1 req eval) req eval'). by destruct (maybe_detect_anomaly _ _ _ _).
Qed.

Lemma accrue_standing fuel ev g req response g' response' :
  accrue fuel ev g req response = Some (g', response') →
  standing g' = standing g ∧ (response' = response ∨ rp_decision response ≠ DECISION_DENY ∧ rp_decision response' = DECISION_DENY).
Proof.
  unfold maybe_accrue_llm_spend. destruct (rp_decision response =? DECISION_DENY) eqn:Hd.
  { intros [= <- <-]. auto. }
  apply Z.eqb_neq in Hd. destruct (cq_action req) as [[]|]; try (intros [= <- <-]; by auto).
  destruct (SFleb _ _); [intros [= <- <-]; by auto|].
  destruct (check_and_accrue_llm_spend _ _ _ _ _ _) as [[[en refusal] alerts]|]; [|done]. intros [= <- <-].
  split; [done|]. destruct refusal; auto.
Qed.

Lemma attribution_standing g g' req :
  gw_registry g = gw_registry g' → agent_identity_attribution g req = agent_identity_attribution g' req.
Proof. intros Hr. unfold agent_identity_attribution, credentialed_owner_key. by rewrite Hr. Qed.

(** ** Whose records a check touches *)

Lemma session_spec ev g req :
  session_activity ev g req = g ∨
  ∃ registry registry' key, gw_registry g = Some registry ∧ claimed_key req = Some key ∧
    session_activity ev g req = put_registry g registry' ∧ touches key registry registry'.
Proof.
  unfold session_activity. destruct (gw_registry g) as [registry|]; [|by left].
  destruct (is_empty _); [by left|]. destruct (claimed_key req) as [key|]; [|by left].
  destruct (record_session_activity _ _ _ _) as [[registry' n]|e] eqn:E; [|by left].
  right. exists registry, registry', key. split_and!; [done..|]. by eapply session_touches.
Qed.

Lemma suspend_spec g req action :
  maybe_suspend_agent g req action = g ∨
  ∃ registry registry' key, gw_registry g = Some registry ∧ authoritative_agent_key g req = Some key ∧
    maybe_suspend_agent g req action = put_registry g registry' ∧ touches key registry registry'.
Proof.
  unfold maybe_suspend_agent. destruct (bool_decide _); [|by left]. destruct (gw_registry g) as [registry|]; [|by left].
  destruct (authoritative_agent_key g req) as [key|]; [|by left]. right. eexists registry, _, key. split_and!; [done..|].
  apply suspend_touches.
Qed.

Lemma submit_standing ev g req eval rule :
  gw_registry (fst (submit_approval ev g req eval rule)) = gw_registry g.
Proof.
  unfold maybe_submit_approval. destruct (er_decision eval); try done. destruct (gw_approvals g) as [[queue table]|]; [|done].
  set (g1 := match approval_team g req with Some _ => _ | None => _ end).
  destruct (approval_escalation_overrides _) as [t r]. destruct (submit_persisted _ _ _ _ _ _ _ _) as [[q tb] f].
  destruct (routing_of _ _) as [[st role] at_]. simpl. unfold g1. by destruct (approval_team g req).
Qed.

(** After an evaluation only a suspension touches the registry. *)
Lemma decide_registry fuel ev g req op :
  gw_registry (fst (decide_request fuel ev g req op)) = gw_registry g ∨
  ∃ registry registry' key, gw_registry g = Some registry ∧ authoritative_agent_key g req = Some key ∧
    gw_registry (fst (decide_request fuel ev g req op)) = Some registry' ∧ touches key registry registry'.
Proof.
  unfold PolicyService.decide_request. pose proof (standing_registry _ _ (assess_standing ev g req)) as Ha.
  destruct (assess ev g req) as [g1 [a|s]]; [|by left]. cbn [fst] in Ha.
  pose proof (submit_standing ev g1 req (as_eval a) (as_policy_rule a)) as Hs.
  destruct (submit_approval ev g1 req (as_eval a) (as_policy_rule a)) as [g2 [[[pending future] timeout]|]]; cbn [fst] in Hs.
  { left. simpl. congruence. }
  destruct (eval_result_to_response _ _ _) as [response|]; [|left; simpl; congruence].
  destruct (accrue fuel ev g2 req _) as [[g3 response']|] eqn:Hac; [|left; simpl; congruence].
  apply accrue_standing in Hac as [Hst _]. apply standing_registry in Hst. simpl.
  set (g4 := settle_op ev g3 op _). assert (gw_registry g4 = gw_registry g) as Hg4 by (unfold g4; simpl; congruence).
  destruct (suspend_spec g4 req (er_deny_action (as_eval a))) as [->|(registry & registry' & key & Hr & Hk & -> & Ht)].
  - by left.
  - right. exists registry, registry', key. split_and!; [congruence| |done|done].
    revert Hk. unfold authoritative_agent_key, credentialed_owner_key. by rewrite Hg4.
Qed.

(** Whoever is admitted presents the token of the registered agent it claims to be, or claims
    to be nobody who is registered and presents nobody's token. *)
Lemma admitted_identity g req registry :
  gw_registry g = Some registry → credentials_ok registry → credential_refusal g req = None →
  match claimed_key req ≫= get registry with
  | Some r => credentialed_owner_key g req = claimed_key req ∧ cq_credential_token req = ar_credential_token r ∧
              ar_credential_token r ≠ ""
  | None => credentialed_owner_key g req = None
  end.
Proof.
  intros Hr Hok. unfold credential_refusal, credentialed_owner_key. rewrite Hr. cbn [mbind option_bind].
  destruct (claimed_key req) as [key|] eqn:Hk; cbn [mbind option_bind].
  - destruct (get registry key) as [r|] eqn:Hg.
    + destruct (is_empty (cq_credential_token req)) eqn:He; [done|]. destruct (String.eqb _ _) eqn:Heq; [|done].
      intros _. apply String.eqb_eq in Heq. rewrite Heq in *.
      assert (ar_credential_token r ≠ "") as Hne by (intros E; by rewrite E in He). by rewrite (Hok key r).
    + destruct (is_empty _); [done|]. by destruct (find_by_credential_token _ _).
  - destruct (is_empty _); [done|]. by destruct (find_by_credential_token _ _).
Qed.

(** The request claims the registered agent [key] and presents its token. *)
Definition proves_identity (registry : AgentRegistry) req (key : AgentId) : Prop :=
  ∃ r, get registry key = Some r ∧ claimed_key req = Some key ∧ cq_credential_token req = ar_credential_token r ∧
    ar_credential_token r ≠ "".

Definition same_tokens (registry registry' : AgentRegistry) : Prop :=
  rg_credential_index registry' = rg_credential_index registry ∧
  ∀ k, ar_credential_token <$> get registry' k = ar_credential_token <$> get registry k.

(** The registry after a request: the tokens are kept, and so is every record but the one
    the request proved to be about. *)
Definition owner_only registry registry' req : Prop :=
  same_tokens registry registry' ∧ ∀ key, ¬ proves_identity registry req key → get registry' key = get registry key.

Lemma same_tokens_credentials registry registry' : same_tokens registry registry' → credentials_ok registry → credentials_ok registry'.
Proof.
  intros [Hi Ht] Hok k r' Hr' Hne. specialize (Ht k). rewrite Hr' in Ht. simpl in Ht.
  destruct (get registry k) as [r|] eqn:Hr; [|done]. injection Ht as Ht. unfold find_by_credential_token. rewrite Hi, Ht.
  apply Hok; [done|]. by rewrite <- Ht.
Qed.

Lemma proves_back registry registry' req key :
  same_tokens registry registry' → proves_identity registry' req key → proves_identity registry req key.
Proof.
  intros [_ Ht] (r' & Hr' & Hc & Hk & Hne). specialize (Ht key). rewrite Hr' in Ht. simpl in Ht.
  destruct (get registry key) as [r|] eqn:Hr; [|done]. injection Ht as Ht. exists r. rewrite <- Ht. done.
Qed.

(** A registered agent whose key the request may act on is the one it proved to be. *)
Lemma acted_on_is_proved g req registry key r :
  gw_registry g = Some registry → credentials_ok registry → credential_refusal g req = None →
  authoritative_agent_key g req = Some key ∨ claimed_key req = Some key → get registry key = Some r →
  proves_identity registry req key.
Proof.
  intros Hg Hok Ha Hk Hr. pose proof (admitted_identity g req registry Hg Hok Ha) as Hid.
  assert (claimed_key req = Some key) as Hc.
  { destruct Hk as [Hk|Hk]; [|done]. unfold authoritative_agent_key in Hk.
    destruct (claimed_key req ≫= get registry) as [r'|].
    - destruct Hid as [Hid _]. rewrite Hid in Hk. by destruct (claimed_key req).
    - by rewrite Hid in Hk. }
  rewrite Hc in Hid. cbn [mbind option_bind] in Hid. rewrite Hr in Hid. exists r. tauto.
Qed.

Lemma touches_same key registry registry' : touches key registry registry' → same_tokens registry registry'.
Proof. intros [Hi _ Ht]. by split. Qed.

Lemma owner_step g req registry registry' key :
  gw_registry g = Some registry → credentials_ok registry → credential_refusal g req = None →
  authoritative_agent_key g req = Some key ∨ claimed_key req = Some key → touches key registry registry' →
  owner_only registry registry' req.
Proof.
  intros Hg Hok Ha Hk Ht. split; [by eapply touches_same|]. intros k Hne.
  destruct (get registry key) as [r|] eqn:Hr; [|by eapply touches_unregistered].
  destruct (base.decide (k = key)) as [->|Hn]; [|by apply (to_others _ _ _ Ht)].
  destruct Hne. by eapply acted_on_is_proved.
Qed.

Lemma owner_only_refl registry req : owner_only registry registry req.
Proof. by split. Qed.

Lemma owner_only_trans r1 r2 r3 req : owner_only r1 r2 req → owner_only r2 r3 req → owner_only r1 r3 req.
Proof.
  intros [[Hi Ht] Ho] [[Hi' Ht'] Ho']. assert (same_tokens r1 r2) as Hs by by split.
  split; [split; [congruence|intros k; by rewrite Ht', Ht]|]. intros key Hne.
  rewrite <- (Ho key Hne). apply Ho'. intros Hp. apply Hne. by eapply proves_back.
Qed.

(** The keys a request may act on depend on the registry by its tokens only. *)
Lemma same_tokens_keys g g' req registry registry' :
  gw_registry g = Some registry → gw_registry g' = Some registry' → same_tokens registry registry' →
  credential_refusal g' req = credential_refusal g req ∧ authoritative_agent_key g' req = authoritative_agent_key g req.
Proof.
  intros Hg Hg' [Hi Ht]. unfold authoritative_agent_key, credentialed_owner_key, credential_refusal.
  rewrite Hg, Hg'. cbn [mbind option_bind]. unfold find_by_credential_token. rewrite Hi. split; [|done].
  destruct (claimed_key req) as [key|]; cbn [mbind option_bind]; [|done]. specialize (Ht key).
  destruct (get registry key) as [r|], (get registry' key) as [r'|]; try done. injection Ht as ->. done.
Qed.

Lemma admitted_owner_only fuel ev g g0 req op registry :
  gw_registry g = Some registry → credentials_ok registry → credential_refusal g req = None →
  gw_registry g0 = gw_registry (session_activity ev g req) →
  ∃ registry', gw_registry (fst (decide_request fuel ev g0 req op)) = Some registry' ∧ owner_only registry registry' req.
Proof.
  intros Hg Hok Ha Hg0.
  assert (∃ r1, gw_registry g0 = Some r1 ∧ owner_only registry r1 req) as (r1 & Hr1 & Ho1).
  { destruct (session_spec ev g req) as [E|(reg & reg' & key & Hr & Hk & E & Ht)]; rewrite Hg0, E.
    - exists registry. split; [done|apply owner_only_refl].
    - simplify_eq. exists reg'. split; [done|]. eapply owner_step; eauto. }
  destruct (same_tokens_keys g g0 req registry r1) as [Hc Hak]; [done|done|apply Ho1|].
  destruct (decide_registry fuel ev g0 req op) as [E|(reg & reg' & key & Hr & Hk & E & Ht)]; rewrite E.
  - by exists r1.
  - simplify_eq. exists reg'. split; [done|]. eapply owner_only_trans; [exact Ho1|].
    eapply owner_step; [done| | |by left|done]; [|by rewrite Hc].
    eapply same_tokens_credentials; [apply Ho1|done].
Qed.

Lemma refused_keeps ev g req response g' :
  validate_credential_token sha256 ev g req = (g', Some response) → ∃ tail, g' = set_audit g tail.
Proof. unfold validate_credential_token. destruct (credential_refusal g req); [|done]. intros [= <- _]. by eexists. Qed.

Lemma admitted_by ev g req g' :
  validate_credential_token sha256 ev g req = (g', None) → g' = g ∧ credential_refusal g req = None.
Proof. unfold validate_credential_token. destruct (credential_refusal g req); [done|]. by intros [= <-]. Qed.

Lemma ingest_registry ev g req : gw_registry (fst (ingest_op ev g req)) = gw_registry g.
Proof. unfold ingest_op. destruct (gw_ops g); [|done]. by destruct (OpControl.ingest_op _ _ _ _). Qed.

Lemma check_owner_only fuel ev g req registry :
  gw_registry g = Some registry → credentials_ok registry →
  ∃ registry', gw_registry (fst (check_action fuel ev g req)) = Some registry' ∧ owner_only registry registry' req.
Proof.
  intros Hg Hok. unfold PolicyService.check_action.
  destruct (validate_credential_token sha256 ev g req) as [g1 [rejection|]] eqn:Hv.
  - apply refused_keeps in Hv as [tail ->]. exists registry. split; [done|apply owner_only_refl].
  - apply admitted_by in Hv as [-> Ha]. pose proof (ingest_registry ev (session_activity ev g req) req) as Hi.
    destruct (ingest_op ev (session_activity ev g req) req) as [g2 op]. by eapply admitted_owner_only.
Qed.

Lemma batch_owner_only fuel g batch registry :
  gw_registry g = Some registry → credentials_ok registry →
  ∃ registry', gw_registry (fst (batch_check fuel g batch)) = Some registry' ∧ same_tokens registry registry' ∧
    ∀ key, (∀ e, e ∈ batch → ¬ proves_identity registry e.2 key) → get registry' key = get registry key.
Proof.
  revert g registry. induction batch as [|[ev req] batch IH]; intros g registry Hg Hok.
  { by exists registry. }
  cbn [PolicyService.batch_check].
  set (first := match validate_credential_token sha256 ev g req with (_, Some _) => _ | _ => _ end).
  assert (∃ r1, gw_registry (fst first) = Some r1 ∧ owner_only registry r1 req) as (r1 & Hr1 & Hs & Ho).
  { unfold first. destruct (validate_credential_token sha256 ev g req) as [g1 [rejection|]] eqn:Hv.
    - apply refused_keeps in Hv as [tail ->]. exists registry. split; [done|apply owner_only_refl].
    - apply admitted_by in Hv as [-> Ha]. by eapply admitted_owner_only. }
  assert (∀ key, (∀ e, e ∈ (ev, req) :: batch → ¬ proves_identity registry e.2 key) → get r1 key = get registry key) as Hhere.
  { intros key Hne. apply Ho, (Hne (ev, req)). left. }
  destruct first as [g1 [response|st| |]]; cbn [fst] in Hr1; [|by exists r1..].
  destruct (IH g1 r1 Hr1) as (r2 & Hr2 & [Hi2 Ht2] & Ho2); [by eapply same_tokens_credentials|].
  destruct (batch_check fuel g1 batch) as [g2 rest]. exists r2. cbn [fst] in *. split_and!; [done| |].
  - destruct Hs as [Hi Ht]. split; [congruence|intros k; by rewrite Ht2, Ht].
  - intros key Hne. rewrite <- (Hhere key Hne). apply Ho2. intros e He Hp. apply (Hne e); [by right|].
    by eapply proves_back.
Qed.

(** C3: A policy check leaves the record of a registered agent (its
    sessions, its suspension) as it is unless the request claims that agent and presents its
    credential token; the tokens themselves never change.  So it is in a batch: a record is kept
    when no entry claims the agent with its token, whatever else the entries claim.  The
    registry's credential index finds each agent by its token. *)
Theorem records_touched_by_owner fuel g registry :
  gw_registry g = Some registry → credentials_ok registry →
  (∀ ev req, ∃ registry', gw_registry (fst (check_action fuel ev g req)) = Some registry' ∧
     same_tokens registry registry' ∧ ∀ key, ¬ proves_identity registry req key → get registry' key = get registry key) ∧
  (∀ batch, ∃ registry', gw_registry (fst (batch_check fuel g batch)) = Some registry' ∧
     same_tokens registry registry' ∧
     ∀ key, (∀ e, e ∈ batch → ¬ proves_identity registry e.2 key) → get registry' key = get registry key).
Proof.
  intros Hg Hok. split.
  - intros ev req. by apply check_owner_only.
  - intros batch. by apply batch_owner_only.
Qed.

(** ** When an action is allowed *)

(** The evaluation asks for something to be redacted. *)
Definition redacts eval : bool := has_findings eval && bool_decide (is_Some (er_redacted_payload eval)).

Definition blocks (event : option AnomalyEvent) : Prop := ∃ e, event = Some e ∧ is_blocking (av_response e) = true.

Definition observes g req : Prop := mode_get (effective_mode g req) = Observe.

(** The service when the evaluation begins, and the context it evaluates. *)
Definition admitted ev g req : Gateway := fst (ingest_op ev (session_activity ev g req) req).

Definition evaluated_context g req (ctx : AgentContext) : AgentContext :=
  stamp_attribution_on_context (agent_identity_attribution g req)
    (apply_authoritative_tenancy (gw_registry g) (cq_credential_token req) ctx).

(** A call of a model is free, or its cost could be reserved; other actions cost nothing. *)
Definition affordable (fuel : nat) ev g req : Prop :=
  match cq_action req with
  | Some (Act.LlmCall model prompt_tokens _) =>
      let cost := llm_call_cost_usd (gw_engine g) model (estimated_tokens prompt_tokens) 0 in
      SFleb cost (f64_of_Z 0) = true ∨
      ∃ en alerts, check_and_accrue_llm_spend dec_of_f64 fuel (gw_engine g)
        (apply_authoritative_tenancy (gw_registry g) (cq_credential_token req) (request_context req)) cost (ev_spend ev)
        = Some ((en, None), alerts)
  | _ => True
  end.

Lemma accrue_allow fuel ev g req response :
  rp_decision response = DECISION_ALLOW →
  (∃ g' response', accrue fuel ev g req response = Some (g', response') ∧ rp_decision response' = DECISION_ALLOW) ↔
  affordable fuel ev g req.
Proof.
  intros Hd. unfold maybe_accrue_llm_spend, affordable. rewrite Hd. change (DECISION_ALLOW =? DECISION_DENY) with false.
  cbn [negb]. destruct (cq_action req) as [[model tokens pii| | | | |]|]; try (split; [done|intros _; by eauto]).
  cbv zeta. destruct (SFleb _ _) eqn:Hc. { split; [by left|intros _; by eauto]. }
  destruct (check_and_accrue_llm_spend _ _ _ _ _ _) as [[[en refusal] alerts]|].
  - destruct refusal as [reason|].
    + split; [by intros (g' & r' & [= <- <-] & ?)|]. by intros [?|(en' & al & [=])].
    + split; [|intros _; by eauto]. intros _. right. by eauto.
  - split; [by intros (g' & r' & ? & ?)|]. by intros [?|(en' & al & [=])].
Qed.

Lemma response_allow eval latency rule :
  (∃ r, eval_result_to_response eval latency rule = Some r ∧ rp_decision r = DECISION_ALLOW) ↔
  er_decision eval = Allow ∧ redacts eval = false.
Proof.
  unfold eval_result_to_response, redacts. destruct (er_decision eval) as [|reason|t].
  - destruct (has_findings eval && _); [|by split; eauto].
    split; [by intros (r & [= <-] & ?)|by intros [? ?]].
  - split; [by intros (r & [= <-] & ?)|by intros [? ?]].
  - destruct (has_findings eval && _); (split; [|by intros [? ?]]); [by intros (r & [= <-] & ?)|by intros (r & ? & ?)].
Qed.

Lemma block_allow response event :
  rp_decision (enforce_anomaly_block response event) = DECISION_ALLOW ↔ rp_decision response = DECISION_ALLOW ∧ ¬ blocks event.
Proof.
  unfold enforce_anomaly_block, blocks. destruct event as [e|].
  - destruct (is_blocking _) eqn:Hb; cbn [negb].
    + destruct (rp_decision response =? DECISION_ALLOW) eqn:Hd; cbn [negb].
      * split; [done|]. intros [_ Hn]. destruct Hn. by exists e.
      * apply Z.eqb_neq in Hd. split; [done|by intros [? _]].
    + split; [|by intros [? _]]. intros ?. split; [done|]. intros (e' & [= <-] & ?). congruence.
  - split; [|by intros [? _]]. intros ?. split; [done|]. by intros (e' & ? & _).
Qed.

Lemma transform_allow eval mode :
  er_decision (fst (transform_for_observe_mode eval mode)) = Allow ∧ redacts (fst (transform_for_observe_mode eval mode)) = false ↔
  er_decision eval = Allow ∧ redacts eval = false ∨ mode_get mode = Observe ∧ er_decision eval ≠ Allow.
Proof.
  unfold transform_for_observe_mode. case_decide as Hm; [|naive_solver].
  destruct (er_decision eval) eqn:Hd; cbn [fst].
  - rewrite Hd. naive_solver.
  - cbn [er_decision]. unfold redacts at 1. cbn [er_redacted_payload].
    rewrite bool_decide_false by (by intros [? ?]). rewrite andb_false_r. naive_solver.
  - cbn [er_decision]. unfold redacts at 1. cbn [er_redacted_payload].
    rewrite bool_decide_false by (by intros [? ?]). rewrite andb_false_r. naive_solver.
Qed.

(** The mode does not depend on what the evaluation changes. *)
Lemma effective_mode_standing g g' req : standing g = standing g' → effective_mode g req = effective_mode g' req.
Proof.
  unfold effective_mode, lookup_agent_enforcement_override, authoritative_agent_key, credentialed_owner_key.
  intros [= Hr _ Hm _ _ _ _]. by rewrite Hr, Hm.
Qed.

Lemma assess_Ok ev g req g' a :
  assess ev g req = (g', Ok a) ↔
  ∃ ctx action en eval g1, request_to_core req = Ok (ctx, action) ∧
    evaluate (gw_engine g) (evaluated_context g req ctx) action (ev_request ev) = (en, eval) ∧
    g1 = maybe_emit_secret_alert (set_engine g en) req eval ∧
    as_eval a = fst (transform_for_observe_mode eval (effective_mode g req)) ∧
    as_shadow_event a = snd (transform_for_observe_mode eval (effective_mode g req)) ∧
    as_policy_rule a = policy_rule_of eval ∧ maybe_detect_anomaly ev g1 req (as_eval a) = (g', as_anomaly_event a).
Proof.
  unfold PolicyService.assess, evaluate_one. destruct (request_to_core req) as [[ctx action]|e].
  2: { split; [done|]. by intros (? & ? & ? & ? & ? & ? & _). }
  fold (evaluated_context g req ctx). destruct (evaluate _ _ _ _) as [en eval] eqn:He.
  set (g1 := maybe_emit_secret_alert (set_engine g en) req eval).
  assert (effective_mode g1 req = effective_mode g req) as ->.
  { apply effective_mode_standing. unfold g1. by rewrite secret_alert_standing. }
  destruct (transform_for_observe_mode eval _) as [eval' shadow] eqn:Ht.
  destruct (maybe_detect_anomaly ev g1 req eval') as [g2 event] eqn:Hd. split.
  - intros [= <- <-]. exists ctx, action, en, eval, g1. cbn [as_eval as_policy_rule as_shadow_event as_anomaly_event].
    rewrite Ht. split_and!; done.
  - intros (ctx' & action' & en' & eval2 & g3 & [= <- <-] & He' & -> & Hv & Hs & Hr & Ha). rewrite He' in He. simplify_eq.
    rewrite Ht in *. cbn [fst snd] in *. destruct a as [v r sh an]. simpl in *. subst. fold g1 in Ha. rewrite Hd in Ha.
    by simplify_eq.
Qed.

Lemma submit_None ev g req eval rule g' :
  submit_approval ev g req eval rule = (g', None) → g' = g.
Proof.
  unfold maybe_submit_approval. destruct (er_decision eval); try (by intros [= <-]).
  destruct (gw_approvals g) as [[queue table]|]; [|by intros [= <-]].
  destruct (approval_escalation_overrides _) as [t r]. destruct (submit_persisted _ _ _ _ _ _ _ _) as [[q tb] f].
  by destruct (routing_of _ _) as [[st role] at_].
Qed.

Lemma submit_Some ev g req eval rule g' pending future timeout :
  submit_approval ev g req eval rule = (g', Some (pending, future, timeout)) →
  er_decision eval = RequiresApproval timeout ∧ rp_decision pending = DECISION_PENDING.
Proof.
  unfold maybe_submit_approval. destruct (er_decision eval) as [| |t]; try done.
  destruct (gw_approvals g) as [[queue table]|]; [|done].
  destruct (approval_escalation_overrides _) as [t' r]. destruct (submit_persisted _ _ _ _ _ _ _ _) as [[q tb] f].
  destruct (routing_of _ _) as [[st role] at_]. by intros [= _ <- _ <-].
Qed.

Lemma decide_allow fuel ev g req op :
  (∃ r, snd (decide_request fuel ev g req op) = Answered r ∧ rp_decision r = DECISION_ALLOW) ↔
  ∃ g' a, assess ev g req = (g', Ok a) ∧ (er_decision (as_eval a) = Allow ∧ redacts (as_eval a) = false) ∧
    ¬ blocks (as_anomaly_event a) ∧ affordable fuel ev g' req.
Proof.
  unfold PolicyService.decide_request. destruct (assess ev g req) as [g1 [a|s]].
  2: { split; [by intros (r & ? & _)|]. by intros (g' & a & ? & _). }
  destruct (submit_approval ev g1 req (as_eval a) (as_policy_rule a)) as [g2 [[[pending future] timeout]|]] eqn:Hs.
  { apply submit_Some in Hs as [Hd Hp]. split.
    - intros (r & [= <-] & Hr). cbn [stamp_decision_id stamp_identity_assurance rp_decision] in Hr. by rewrite Hp in Hr.
    - intros (g' & a' & [= <- <-] & [He _] & _). by rewrite He in Hd. }
  apply submit_None in Hs as ->. split.
  - intros (r & Hr & Hd). destruct (eval_result_to_response _ _ _) as [response|] eqn:Hresp; [|done].
    destruct (accrue fuel ev g1 req _) as [[g3 response']|] eqn:Hac; [|done]. simpl in Hr. injection Hr as <-.
    cbn [stamp_decision_id stamp_identity_assurance rp_decision] in Hd. exists g1, a. split; [done|].
    destruct (accrue_standing _ _ _ _ _ _ _ Hac) as [_ [->|[_ Hx]]]; [|by rewrite Hx in Hd].
    pose proof Hd as [Hal Hbl]%block_allow.
    split; [apply (response_allow _ (ev_latency_us ev) (as_policy_rule a)); by eauto|]. split; [done|].
    apply (accrue_allow _ _ _ _ _ Hd). by eauto.
  - intros (g' & a' & [= <- <-] & Hal & Hbl & Haf).
    apply (response_allow _ (ev_latency_us ev) (as_policy_rule a)) in Hal as (response & -> & Hr).
    assert (rp_decision (enforce_anomaly_block response (as_anomaly_event a)) = DECISION_ALLOW) as Hb by by apply block_allow.
    apply (accrue_allow _ _ _ _ _ Hb) in Haf as (g3 & response' & -> & Hd). by eexists.
Qed.

Lemma detect_event_ext ev g g' req eval :
  gw_anomaly g = gw_anomaly g' → gw_engine g = gw_engine g' →
  snd (maybe_detect_anomaly ev g req eval) = snd (maybe_detect_anomaly ev g' req eval).
Proof.
  intros Ha He. unfold maybe_detect_anomaly. rewrite Ha, He.
  by destruct (gw_anomaly g') as [[d es]|], (request_to_core req) as [[ctx action]|e].
Qed.

Lemma detect_engine ev g req eval : gw_engine (fst (maybe_detect_anomaly ev g req eval)) = gw_engine g.
Proof. unfold maybe_detect_anomaly. by destruct (gw_anomaly g) as [[d es]|], (request_to_core req) as [[ctx action]|e]. Qed.

Lemma alert_keeps g req eval :
  gw_anomaly (maybe_emit_secret_alert g req eval) = gw_anomaly g ∧ gw_engine (maybe_emit_secret_alert g req eval) = gw_engine g.
Proof.
  unfold maybe_emit_secret_alert. by destruct (er_credential_findings eval), (gw_secret_alerts g), (cq_agent_id req).
Qed.

Lemma affordable_ext fuel ev g g' req :
  gw_engine g = gw_engine g' → gw_registry g = gw_registry g' → affordable fuel ev g req ↔ affordable fuel ev g' req.
Proof. intros He Hr. unfold affordable. by rewrite He, Hr. Qed.

Lemma check_allow_assessed fuel ev g req :
  (∃ r, snd (check_action fuel ev g req) = Answered r ∧ rp_decision r = DECISION_ALLOW) ↔
  credential_refusal g req = None ∧
  ∃ g' a, assess ev (admitted ev g req) req = (g', Ok a) ∧ (er_decision (as_eval a) = Allow ∧ redacts (as_eval a) = false) ∧
    ¬ blocks (as_anomaly_event a) ∧ affordable fuel ev g' req.
Proof.
  unfold PolicyService.check_action, validate_credential_token, admitted. destruct (credential_refusal g req) as [reason|].
  { split; [|by intros [? _]]. intros (r & [= <-] & Hr). discriminate Hr. }
  destruct (ingest_op ev (session_activity ev g req) req) as [g1 op]. rewrite decide_allow. naive_solver.
Qed.

(** C2: A policy check is answered Allow exactly when the credential is not
    refused, the request converts, the engine allows the action and nothing of it is to be
    redacted, or the agent is observed and the engine refuses it or wants an approval; and, in
    either case, no anomaly that blocks is detected and, for a call of a model, the cost is
    reserved. *)
Theorem check_allow_iff fuel ev g req :
  let g0 := admitted ev g req in
  (∃ r, snd (check_action fuel ev g req) = Answered r ∧ rp_decision r = DECISION_ALLOW) ↔
  credential_refusal g req = None ∧
  ∃ ctx action en eval, request_to_core req = Ok (ctx, action) ∧
    evaluate (gw_engine g0) (evaluated_context g0 req ctx) action (ev_request ev) = (en, eval) ∧
    (er_decision eval = Allow ∧ redacts eval = false ∨ observes g0 req ∧ er_decision eval ≠ Allow) ∧
    ¬ blocks (snd (maybe_detect_anomaly ev (set_engine g0 en) req
                     (fst (transform_for_observe_mode eval (effective_mode g0 req))))) ∧
    affordable fuel ev (set_engine g0 en) req.
Proof.
  intros g0. rewrite check_allow_assessed. fold g0. split.
  - intros (Hcred & g' & a & (ctx & action & en & eval & g1 & Hc & He & -> & Hv & _ & _ & Hd)%assess_Ok & Hal & Hbl & Haf).
    split; [done|]. exists ctx, action, en, eval. rewrite Hv, transform_allow in Hal. destruct (alert_keeps (set_engine g0 en) req eval) as [Hka Hke].
    split_and!; [done..| |].
    + rewrite <- Hv. rewrite (detect_event_ext ev _ (maybe_emit_secret_alert (set_engine g0 en) req eval)) by done. by rewrite Hd.
    + revert Haf. apply affordable_ext.
      * change g' with (fst (g', as_anomaly_event a)). by rewrite <- Hd, detect_engine.
      * change g' with (fst (g', as_anomaly_event a)). rewrite <- Hd. apply standing_registry. by rewrite detect_standing, secret_alert_standing.
  - intros (Hcred & ctx & action & en & eval & Hc & He & Hal & Hbl & Haf). split; [done|].
    destruct (alert_keeps (set_engine g0 en) req eval) as [Hka Hke].
    destruct (transform_for_observe_mode eval (effective_mode g0 req)) as [eval' shadow] eqn:Ht.
    destruct (maybe_detect_anomaly ev (maybe_emit_secret_alert (set_engine g0 en) req eval) req eval') as [g' event] eqn:Hd.
    exists g', {| as_eval := eval'; as_policy_rule := policy_rule_of eval; as_shadow_event := shadow; as_anomaly_event := event |}.
    cbn [as_eval as_anomaly_event]. split_and!.
    + apply assess_Ok. exists ctx, action, en, eval, (maybe_emit_secret_alert (set_engine g0 en) req eval).
      cbn [as_eval as_anomaly_event as_policy_rule as_shadow_event]. by rewrite Ht.
    + apply (transform_allow _ (effective_mode g0 req)) in Hal as [Hal _]. by rewrite Ht in Hal.
    + apply (transform_allow _ (effective_mode g0 req)) in Hal as [_ Hal]. by rewrite Ht in Hal.
    + revert Hbl. cbn [fst]. rewrite (detect_event_ext ev _ (maybe_emit_secret_alert (set_engine g0 en) req eval)) by done. by rewrite Hd.
    + revert Haf. apply affordable_ext.
      * change g' with (fst (g', event)). by rewrite <- Hd, detect_engine.
      * change g' with (fst (g', event)). rewrite <- Hd. symmetry. apply standing_registry. by rewrite detect_standing, secret_alert_standing.
Qed.

(** ** The records *)

Lemma claimed_id_of g req : Attribution.claimed_id (agent_identity_attribution g req) = claimed_agent_id req.
Proof.
  unfold agent_identity_attribution, Attribution.from_claim, claimed_agent_id.
  destruct (cq_agent_id req) as [a|]; [|done]. cbn [mbind option_bind]. unfold non_empty.
  destruct (is_empty (pi_agent_id a)) eqn:He; cbn [mbind option_bind]; [done|]. rewrite He. by destruct (bool_decide _).
Qed.

(** What every entry about a request says. *)
Record describes req (decision_id : string) (event : Event.AuditEventType) (entry : AuditEntry) : Prop := {
  ds_decision_id : ae_decision_id entry = non_empty decision_id;
  ds_event : ae_event_type entry = event;
  ds_agent : ae_agent_id entry = subject_of (claimed_agent_id req);
  ds_session : ae_session_id entry = session_id_from_trace (cq_trace_id req);
  ds_integrity : verify_integrity sha256 entry = true;
}.

(** [tail'] is [tail] with entries of [before] and one that describes the answer. *)
Definition recorded (tail tail' : AuditTail) (before : list AuditEntry) req (decision_id : string) (event : Event.AuditEventType)
  : Prop := ∃ entry, at_sent tail' = at_sent tail ++ before ++ [entry] ∧ describes req decision_id event entry.

Lemma emit_accepted tail build em :
  em_channel em = Accepted →
  at_sent (emit_entry tail build em) =
    at_sent tail ++ [build (cs_next_seq (at_chain tail)) (cs_last_hash (at_chain tail))].
Proof. intros Ha. unfold emit_entry, emit. by rewrite Ha. Qed.

Lemma record_audit_recorded em g req response eval shadow :
  em_channel em = Accepted →
  recorded (gw_audit g) (gw_audit (record_audit em g req response eval shadow)) [] req (rp_decision_id response)
    (audit_event g req response).
Proof.
  intros Ha. unfold recorded, PolicyService.record_audit. cbn [set_audit gw_audit]. rewrite emit_accepted by done.
  eexists. split; [done|]. split; try done.
  - cbn [new_with_lineage_redaction_and_attribution ae_agent_id]. by rewrite claimed_id_of.
  - by apply bool_decide_eq_true.
Qed.

Lemma impersonation_recorded em g req response :
  em_channel em = Accepted →
  recorded (gw_audit g) (gw_audit (record_impersonation_audit sha256 em g req response)) [] req (rp_decision_id response)
    Event.A2AImpersonationAttempted.
Proof.
  intros Ha. unfold recorded, record_impersonation_audit. cbn [set_audit gw_audit]. rewrite emit_accepted by done.
  eexists. split; [done|]. split; try done. by apply bool_decide_eq_true.
Qed.

(** What a hold adds before the answer is recorded: at most the entry about its routing. *)
Lemma submit_audit ev g req eval rule :
  ∃ routed, at_sent (gw_audit (fst (submit_approval ev g req eval rule))) = at_sent (gw_audit g) ++ routed ∧
    (List.length routed ≤ 1)%nat ∧ Forall (λ e, ae_event_type e = Event.ApprovalRouted) routed.
Proof.
  assert (∃ routed, at_sent (gw_audit g) = at_sent (gw_audit g) ++ routed ∧ (List.length routed ≤ 1)%nat ∧
    Forall (λ e, ae_event_type e = Event.ApprovalRouted) routed) as Hnone.
  { exists []. rewrite app_nil_r. split_and!; [done|simpl; lia|constructor]. }
  unfold maybe_submit_approval. destruct (er_decision eval); [done..|]. destruct (gw_approvals g) as [[queue table]|]; [|done].
  set (g1 := match approval_team g req with Some _ => _ | None => _ end).
  destruct (approval_escalation_overrides _) as [t r]. destruct (submit_persisted _ _ _ _ _ _ _ _) as [[q tb] f].
  destruct (routing_of _ _) as [[st role] at_]. cbn [fst set_approvals gw_audit].
  unfold g1. destruct (approval_team g req) as [team|]; [|done].
  unfold emit_approval_routed_audit, emit_entry, emit. cbn [set_audit gw_audit].
  destruct (em_channel (ev_routed ev)); cbn [at_sent].
  - eexists. split; [done|]. split; [simpl; lia|]. by apply Forall_singleton.
  - exists []. split_and!; [done|simpl; lia|constructor].
  - exists []. split_and!; [done|simpl; lia|constructor].
Qed.

Lemma standing_audit g g' : standing g = standing g' → gw_audit g = gw_audit g'.
Proof. by intros [=]. Qed.

Lemma audit_event_ext g g' req response response' :
  rp_decision response = rp_decision response' → audit_event g req response = audit_event g' req response'.
Proof. intros Hd. unfold audit_event, a2a_caller. by rewrite !claimed_id_of, Hd. Qed.

Lemma suspend_audit g req action : gw_audit (maybe_suspend_agent g req action) = gw_audit g.
Proof. by destruct (suspend_spec g req action) as [->|(? & ? & ? & _ & _ & -> & _)]. Qed.

Lemma decide_recorded fuel ev g req op g' response :
  decide_request fuel ev g req op = (g', Answered response) → em_channel (ev_audit ev) = Accepted →
  rp_decision_id response = ev_decision_id ev ∧
  ∃ routed, (List.length routed ≤ 1)%nat ∧ Forall (λ e, ae_event_type e = Event.ApprovalRouted) routed ∧
    recorded (gw_audit g) (gw_audit g') routed req (ev_decision_id ev) (audit_event g req response).
Proof.
  unfold PolicyService.decide_request. pose proof (standing_audit _ _ (assess_standing ev g req)) as Ha.
  destruct (assess ev g req) as [g1 [a|s]]; [|done]. cbn [fst] in Ha.
  pose proof (submit_audit ev g1 req (as_eval a) (as_policy_rule a)) as (routed & Hs & Hl & Hf).
  destruct (submit_approval ev g1 req (as_eval a) (as_policy_rule a)) as [g2 [[[pending future] timeout]|]] eqn:Hsub; cbn [fst] in Hs.
  - intros [= <- <-] Hc. split; [done|]. exists routed. split_and!; [done..|].
    set (answer := stamp_decision_id _ _).
    destruct (record_audit_recorded (ev_audit ev) g2 req answer (as_eval a) (as_shadow_event a) Hc) as (entry & He & Hd).
    exists entry. cbn [set_held gw_audit]. rewrite He, Hs, Ha, <- app_assoc. split; [done|].
    by rewrite (audit_event_ext g g2 req _ answer).
  - apply submit_None in Hsub as ->. destruct (eval_result_to_response _ _ _) as [resp|]; [|done].
    destruct (accrue fuel ev g1 req _) as [[g3 resp']|] eqn:Hac; [|done]. intros [= <- <-] Hc. split; [done|].
    apply accrue_standing in Hac as [Hst _]. apply standing_audit in Hst.
    exists []. split_and!; [simpl; lia|constructor|].
    set (answer := stamp_decision_id _ _). set (g5 := maybe_suspend_agent _ _ _).
    assert (gw_audit g5 = gw_audit g) as Hg5.
    { unfold g5. rewrite suspend_audit. cbn [settle_op set_live_ops gw_audit]. congruence. }
    destruct (record_audit_recorded (ev_audit ev) g5 req answer (as_eval a) (as_shadow_event a) Hc) as (entry & He & Hd).
    exists entry. rewrite He, Hg5. split; [done|]. by rewrite (audit_event_ext g g5 req _ answer).
Qed.

(** C24: Every answer of a policy check carries the decision id that was
    minted for it, and while the audit channel accepts entries the last entry written by the
    check carries the same id, the subject and the session of the request and an intact hash.
    It is an impersonation attempt exactly when the credential was refused, and otherwise of
    the kind of the decision; a hold is preceded by at most one entry, about its routing. *)
Theorem answers_are_recorded fuel ev g req g' response :
  check_action fuel ev g req = (g', Answered response) → em_channel (ev_audit ev) = Accepted →
  rp_decision_id response = ev_decision_id ev ∧
  ∃ routed, (List.length routed ≤ 1)%nat ∧ Forall (λ e, ae_event_type e = Event.ApprovalRouted) routed ∧
    recorded (gw_audit g) (gw_audit g') routed req (ev_decision_id ev)
      (match credential_refusal g req with
       | Some _ => Event.A2AImpersonationAttempted
       | None => audit_event g req response
       end).
Proof.
  unfold PolicyService.check_action, validate_credential_token. destruct (credential_refusal g req) as [reason|].
  - intros [= <- <-] Hc. split; [done|]. exists []. split_and!; [simpl; lia|constructor|]. by apply impersonation_recorded.
  - intros Hd Hc. destruct (ingest_op ev (session_activity ev g req) req) as [g0 op] eqn:Hi.
    assert (gw_audit g0 = gw_audit g) as Hg0.
    { revert Hi. unfold ingest_op. destruct (session_spec ev g req) as [->|(? & ? & ? & _ & _ & -> & _)];
        destruct (gw_ops _); try destruct (OpControl.ingest_op _ _ _ _); by intros [= <- _]. }
    destruct (decide_recorded _ _ _ _ _ _ _ Hd Hc) as (Hid & routed & Hl & Hf & Hr). split; [done|]. exists routed.
    rewrite Hg0 in Hr. by rewrite (audit_event_ext g g0 req _ response).
Qed.

(** ** The log *)

(** One entry more on a tail, built as the emitters build it. *)
Definition emits (tail tail' : AuditTail) : Prop :=
  ∃ build em, honest sha256 build ∧ tail' = emit_entry tail build em.

Definition tail_audited (s0 : ChainState) (tail : AuditTail) : Prop :=
  ∃ es, Forall (λ b, honest sha256 (fst b)) es ∧ at_chain tail = chain_after s0 es ∧ at_sent tail = emissions s0 es.

Lemma chain_after_snoc s es b o : chain_after s (es ++ [(b, o)]) = fst (fst (emit (chain_after s es) b o)).
Proof. unfold chain_after. by rewrite foldl_app. Qed.

Lemma emits_audited s0 tail tail' : emits tail tail' → tail_audited s0 tail → tail_audited s0 tail'.
Proof.
  intros (build & em & Hb & ->) (es & Hh & Hc & Hs). exists (es ++ [(build, em_channel em)]).
  unfold emit_entry. rewrite Hc, Hs, emissions_snoc, chain_after_snoc. destruct (emit (chain_after s0 es) build (em_channel em)) as [[c o] sent]. split_and!; [|done..].
  apply Forall_app. split; [done|]. by apply Forall_singleton.
Qed.

Lemma honest_entry timestamp event agent session payload lineage redaction doc decision :
  honest sha256 (λ seq previous_hash, new_with_lineage_redaction_and_attribution sha256 seq timestamp event agent session payload
                                        previous_hash lineage redaction doc decision).
Proof. intros seq prev. split_and!; [done..|]. by apply bool_decide_eq_true. Qed.

Lemma record_emits em g req response eval shadow :
  emits (gw_audit g) (gw_audit (record_audit em g req response eval shadow)).
Proof. eexists _, em. split; [|reflexivity]. apply honest_entry. Qed.

Lemma submit_emits ev g req eval rule :
  rtc emits (gw_audit g) (gw_audit (fst (submit_approval ev g req eval rule))).
Proof.
  unfold maybe_submit_approval. destruct (er_decision eval); [done..|]. destruct (gw_approvals g) as [[queue table]|]; [|done].
  set (g1 := match approval_team g req with Some _ => _ | None => _ end).
  destruct (approval_escalation_overrides _) as [t r]. destruct (submit_persisted _ _ _ _ _ _ _ _) as [[q tb] f].
  destruct (routing_of _ _) as [[st role] at_]. cbn [fst set_approvals gw_audit].
  unfold g1. destruct (approval_team g req); [|done]. apply rtc_once. eexists _, (ev_routed ev). split; [|reflexivity].
  apply honest_entry.
Qed.

Lemma decide_emits fuel ev g req op : rtc emits (gw_audit g) (gw_audit (fst (decide_request fuel ev g req op))).
Proof.
  unfold PolicyService.decide_request. pose proof (standing_audit _ _ (assess_standing ev g req)) as Ha.
  destruct (assess ev g req) as [g1 [a|s]]; cbn [fst] in Ha; rewrite <- Ha; [|done].
  pose proof (submit_emits ev g1 req (as_eval a) (as_policy_rule a)) as Hs.
  destruct (submit_approval ev g1 req (as_eval a) (as_policy_rule a)) as [g2 [[[pending future] timeout]|]]; cbn [fst] in Hs.
  - eapply rtc_r; [exact Hs|]. apply record_emits.
  - destruct (eval_result_to_response _ _ _) as [resp|]; [|done].
    destruct (accrue fuel ev g2 req _) as [[g3 resp']|] eqn:Hac; [|done]. apply accrue_standing in Hac as [Hst _].
    apply standing_audit in Hst. rewrite <- Hst in Hs. eapply rtc_r; [exact Hs|]. cbn [fst].
    set (g5 := maybe_suspend_agent _ _ _). replace (gw_audit g3) with (gw_audit g5) by (unfold g5; by rewrite suspend_audit).
    apply record_emits.
Qed.

Lemma session_audit ev g req : gw_audit (session_activity ev g req) = gw_audit g.
Proof. by destruct (session_spec ev g req) as [->|(? & ? & ? & _ & _ & -> & _)]. Qed.

Lemma ingest_audit ev g req : gw_audit (fst (ingest_op ev g req)) = gw_audit g.
Proof. unfold ingest_op. destruct (gw_ops g); [|done]. by destruct (OpControl.ingest_op _ _ _ _). Qed.

Lemma validate_emits ev g req : rtc emits (gw_audit g) (gw_audit (fst (validate_credential_token sha256 ev g req))).
Proof.
  unfold validate_credential_token. destruct (credential_refusal g req); [|done]. apply rtc_once.
  eexists _, (ev_audit ev). split; [|reflexivity]. apply honest_entry.
Qed.

Lemma check_emits fuel ev g req : rtc emits (gw_audit g) (gw_audit (fst (check_action fuel ev g req))).
Proof.
  unfold PolicyService.check_action. pose proof (validate_emits ev g req) as Hv.
  destruct (validate_credential_token sha256 ev g req) as [g1 [r|]]; [done|]. cbn [fst] in Hv.
  pose proof (ingest_audit ev (session_activity ev g1 req) req) as Hi. rewrite session_audit in Hi.
  destruct (ingest_op ev (session_activity ev g1 req) req) as [g2 op]. cbn [fst] in Hi. etrans; [exact Hv|].
  rewrite <- Hi. apply decide_emits.
Qed.

Lemma batch_emits fuel g batch : rtc emits (gw_audit g) (gw_audit (fst (batch_check fuel g batch))).
Proof.
  revert g. induction batch as [|[ev req] batch IH]; intros g; [done|]. cbn [PolicyService.batch_check].
  set (first := match validate_credential_token sha256 ev g req with (_, Some _) => _ | _ => _ end).
  assert (rtc emits (gw_audit g) (gw_audit (fst first))) as Hf.
  { unfold first. pose proof (validate_emits ev g req) as Hv.
    destruct (validate_credential_token sha256 ev g req) as [g1 [r|]]; [done|]. cbn [fst] in Hv. etrans; [exact Hv|].
    rewrite <- (session_audit ev g1 req). apply decide_emits. }
  destruct first as [g1 [response|st| |]]; cbn [fst] in Hf; [|done..]. etrans; [exact Hf|].
  specialize (IH g1). by destruct (batch_check fuel g1 batch).
Qed.

(** What happens to a gateway: the calls, the continuations of held actions, the entries of the
    other emitters of the chain, and whatever changes the rest. *)
Inductive gateway_step : Gateway → Gateway → Prop :=
  | gs_check fuel ev g req : gateway_step g (fst (check_action fuel ev g req))
  | gs_batch fuel g batch : gateway_step g (fst (batch_check fuel g batch))
  | gs_resume fuel ev g hd decision : gateway_step g (fst (resume_held fuel ev g hd decision))
  | gs_emit g build em : honest sha256 build → gateway_step g (set_audit g (emit_entry (gw_audit g) build em))
  | gs_elsewhere g g' : gw_audit g' = gw_audit g → gateway_step g g'.

Lemma gateway_step_emits g g' : gateway_step g g' → rtc emits (gw_audit g) (gw_audit g').
Proof.
  destruct 1 as [fuel ev g req|fuel g batch|fuel ev g hd decision|g build em Hb|g g' ->].
  - apply check_emits.
  - apply batch_emits.
  - unfold PolicyService.resume_held. destruct (accrue fuel ev g (hd_req hd) _) as [[g3 resp']|] eqn:Hac; [|done].
    apply accrue_standing in Hac as [Hst _]. apply standing_audit in Hst. rewrite <- Hst. apply rtc_once. cbn [fst].
    apply (record_emits (ev_audit ev) (settle_op ev g3 _ _)).
  - apply rtc_once. by exists build, em.
  - done.
Qed.

(** However the calls interleave and whatever the channel drops, the entries of the chain form
    a file that verifies, or lacks entries, and never one that was tampered with. *)
Lemma gateway_log_verifies initial_hash g0 g :
  gw_audit g0 = {| at_chain := {| cs_next_seq := 0; cs_last_hash := initial_hash |}; at_sent := [] |} →
  rtc gateway_step g0 g →
  ∃ r, verify_chain sha256 (map LineOf (at_sent (gw_audit g))) = Ok r ∧
    vr_outcome r = (if 0 <? vr_missing_entries r then Incomplete else Verified).
Proof.
  intros Hg0 Hrun. set (s0 := {| cs_next_seq := 0; cs_last_hash := initial_hash |}).
  assert (tail_audited s0 (gw_audit g)) as (es & Hh & _ & ->).
  { assert (tail_audited s0 (gw_audit g0)) as Hinit by (rewrite Hg0; by exists []).
    clear Hg0. revert Hinit. induction Hrun as [|x y z Hs _ IH]; [done|]. intros Hx. apply IH.
    apply gateway_step_emits in Hs. induction Hs; eauto using emits_audited. }
  destruct (emissions_verify_first sha256 s0 es 0 [] 0 Hh) as (r & Hr & _ & Ho). exists r. by split.
Qed.

(** ** Held actions *)

Abbreviation queue_step := (queue_step sha256 hash_to_16 approval_id_text payload_of).

(** The answers that let a held action go on: an approval, or a timeout that falls back to it. *)
Definition grants (d : ApprovalDecision) : Prop :=
  match d with Verdict.Approved _ _ _ | Verdict.TimedOut Allow => True | _ => False end.

Lemma submit_held ev g req eval rule g' pending future timeout queue table :
  submit_approval ev g req eval rule = (g', Some (pending, future, timeout)) →
  gw_approvals g = Some (queue, table) → queue_ok queue → q_pending queue !! ev_approval_id ev = None →
  rp_approval_id pending = approval_id_text (ev_approval_id ev) ∧ gw_held g' = gw_held g ∧
  ∃ queue' table' request, gw_approvals g' = Some (queue', table') ∧ rtc queue_step queue queue' ∧
    q_pending queue' !! ev_approval_id ev = Some (request, Some future) ∧ aq_fallback request = Deny "approval timed out".
Proof.
  unfold maybe_submit_approval. destruct (er_decision eval) as [| |t]; try done. intros Hs Hq Hok Hnew. rewrite Hq in Hs.
  set (g1 := match approval_team g req with Some _ => _ | None => _ end) in Hs.
  assert (gw_held g1 = gw_held g) as Hh by (unfold g1; by destruct (approval_team g req)).
  destruct (approval_escalation_overrides _) as [t' r]. unfold submit_persisted in Hs.
  set (request := build_approval_request _ _ _ _ _ _ _) in Hs.
  destruct (submit_fields sha256 hash_to_16 approval_id_text payload_of queue request (ev_approval ev)) as (Hf & Hb & _).
  assert (queue_step queue (fst (submit sha256 hash_to_16 approval_id_text payload_of queue request (ev_approval ev)))) as Hstep
    by by apply step_submit.
  destruct (submit sha256 hash_to_16 approval_id_text payload_of queue request (ev_approval ev)) as [q1 f].
  cbn [fst snd] in *. subst f. destruct (routing_of _ _) as [[st role] at_]. simplify_eq. cbn [set_approvals gw_approvals gw_held reply rp_approval_id].
  split_and!; [done..|]. eexists _, _, request. split_and!; [done| | |done].
  - eapply rtc_l; [exact Hstep|]. apply rtc_once, step_record.
  - match goal with |- context [record_routing q1 ?i ?a ?b ?c ?d ?e] =>
      destruct (record_routing_board q1 i a b c d e) as [Hrb _] end.
    apply (f_equal bd_open) in Hrb, Hb. simpl in Hrb, Hb. rewrite Hrb, Hb. by rewrite lookup_insert_eq.
Qed.

(** Only a submission is answered Pending. *)
Lemma decide_pending fuel ev g req op g' response :
  decide_request fuel ev g req op = (g', Answered response) → rp_decision response = DECISION_PENDING →
  ∃ g1 a g2 pending future timeout, assess ev g req = (g1, Ok a) ∧
    submit_approval ev g1 req (as_eval a) (as_policy_rule a) = (g2, Some (pending, future, timeout)) ∧
    rp_approval_id response = rp_approval_id pending ∧ gw_approvals g' = gw_approvals g2 ∧
    gw_held g' = gw_held g2 ++ [held_action ev req a op future timeout].
Proof.
  unfold PolicyService.decide_request. destruct (assess ev g req) as [g1 [a|s]] eqn:Ha; [|done].
  destruct (submit_approval ev g1 req (as_eval a) (as_policy_rule a)) as [g2 [[[pending future] timeout]|]] eqn:Hsub.
  { intros [= <- <-] _. by exists g1, a, g2, pending, future, timeout. }
  destruct (eval_result_to_response _ _ _) as [resp|] eqn:Hr; [|done].
  destruct (accrue fuel ev g2 req _) as [[g3 resp']|] eqn:Hac; [|done]. intros [= <- <-].
  cbn [stamp_decision_id stamp_identity_assurance rp_decision]. intros Hp. exfalso.
  destruct (accrue_standing _ _ _ _ _ _ _ Hac) as [_ [->|[_ Hx]]]; [|by rewrite Hx in Hp].
  revert Hp. unfold enforce_anomaly_block.
  assert (rp_decision resp ≠ DECISION_PENDING) as Hn.
  { revert Hr. unfold eval_result_to_response. destruct (er_decision (as_eval a)); [|by intros [= <-]|];
      (destruct (has_findings _ && _); [by intros [= <-]|]); [by intros [= <-]|done]. }
  destruct (as_anomaly_event a); [|done]. destruct (negb _); [done|]. by destruct (negb _).
Qed.

Lemma resume_allow fuel ev g hd decision g' response :
  resume_held fuel ev g hd decision = (g', Answered response) →
  rp_decision_id response = hd_decision_id hd ∧
  (rp_decision response = DECISION_ALLOW ↔
   grants decision ∧ ¬ blocks (hd_anomaly_event hd) ∧ affordable fuel ev g (hd_req hd)).
Proof.
  unfold PolicyService.resume_held. set (first := approval_decision_to_response _ _ _ _).
  assert (rp_decision first = DECISION_ALLOW ↔ grants decision) as Hfirst.
  { unfold first, approval_decision_to_response. destruct decision as [| |[]]; by split. }
  destruct (accrue fuel ev g (hd_req hd) _) as [[g1 resp]|] eqn:Hac; [|done]. intros [= _ <-]. split; [done|].
  cbn [stamp_decision_id stamp_identity_assurance rp_decision]. rewrite <- Hfirst. split.
  - intros Hd. destruct (accrue_standing _ _ _ _ _ _ _ Hac) as [_ [->|[_ Hx]]]; [|by rewrite Hx in Hd].
    pose proof Hd as [Hal Hbl]%block_allow. split_and!; [done..|]. apply (accrue_allow _ _ _ _ _ Hd). by eauto.
  - intros (Hal & Hbl & Haf). assert (rp_decision (enforce_anomaly_block first (hd_anomaly_event hd)) = DECISION_ALLOW) as Hb
      by by apply block_allow.
    apply (accrue_allow _ _ _ _ _ Hb) in Haf as (g2 & r2 & E & Hd). by simplify_eq.
Qed.

(** The answers of an evaluation carry the decision id of the check. *)
Lemma decide_answer_id fuel ev g req op g' response :
  decide_request fuel ev g req op = (g', Answered response) → rp_decision_id response = ev_decision_id ev.
Proof.
  unfold PolicyService.decide_request. destruct (assess ev g req) as [g1 [a|s]]; [|done].
  destruct (submit_approval _ _ _ _ _) as [g2 [[[pending future] timeout]|]]; [by intros [= _ <-]|].
  destruct (eval_result_to_response _ _ _) as [resp|]; [|done].
  destruct (accrue fuel ev g2 req _) as [[g3 resp']|]; [|done]. by intros [= _ <-].
Qed.

(** A waiter that was served before is found among the pending requests until it is answered. *)
Lemma await_served q id t elapsed :
  served id t (board_of q) →
  await_decision q t elapsed =
    match q_settled q !! t with
    | Some d => Some d
    | None => if elapsed then Some (Verdict.TimedOut (Deny "approval timed out")) else None
    end.
Proof.
  unfold await_decision. intros [[r Hr]|[d Hd]]; simpl in *; [|by rewrite Hd].
  destruct (q_settled q !! t); [done|]. rewrite (proj2 (existsb_exists _ _)); [done|].
  exists (id, (r, Some t)). split; [by apply list_elem_of_In, elem_of_map_to_list|]. by apply bool_decide_eq_true.
Qed.

(** C23: A check answered Pending has queued a request, which falls back to a
    denial, and kept the action as held.  Whatever the queue goes through afterwards, the
    continuation of the action waits exactly until the queue has answered this request or its
    own time is over; its outcome, recorded under the decision id of the first answer, is Allow
    exactly when the queue's answer grants it, the anomaly found at the check does not block and
    the cost of a model's call is reserved at last. *)
Theorem held_until_granted fuel ev g req g' response queue table :
  check_action fuel ev g req = (g', Answered response) → rp_decision response = DECISION_PENDING →
  gw_approvals g = Some (queue, table) → queue_ok queue → q_pending queue !! ev_approval_id ev = None →
  ∃ hd q0 t0 request, gw_held g' = gw_held g ++ [hd] ∧ gw_approvals g' = Some (q0, t0) ∧
    q_pending q0 !! hd_approval_id hd = Some (request, Some (hd_future hd)) ∧ aq_fallback request = Deny "approval timed out" ∧
    rp_approval_id response = approval_id_text (hd_approval_id hd) ∧
    ∀ fuel' ev' g1 q1 t1 elapsed, gw_approvals g1 = Some (q1, t1) → rtc queue_step q0 q1 →
      (continuation fuel' ev' g1 hd elapsed = None ↔ q_settled q1 !! hd_future hd = None ∧ elapsed = false) ∧
      ∀ g2 outcome, continuation fuel' ev' g1 hd elapsed = Some (g2, Answered outcome) →
        rp_decision_id outcome = rp_decision_id response ∧
        (rp_decision outcome = DECISION_ALLOW ↔
         (∃ d, q_settled q1 !! hd_future hd = Some d ∧ grants d) ∧ ¬ blocks (hd_anomaly_event hd) ∧
         affordable fuel' ev' g1 req).
Proof.
  intros Hc Hp Hq Hok Hnew. unfold PolicyService.check_action, validate_credential_token in Hc.
  destruct (credential_refusal g req). { by simplify_eq. }
  destruct (ingest_op ev (session_activity ev g req) req) as [g0 op] eqn:Hi.
  assert (gw_approvals g0 = gw_approvals g ∧ gw_held g0 = gw_held g) as [Hqa Hha].
  { revert Hi. unfold ingest_op. destruct (session_spec ev g req) as [->|(? & ? & ? & _ & _ & -> & _)];
      destruct (gw_ops _); try destruct (OpControl.ingest_op _ _ _ _); by intros [= <- _]. }
  destruct (decide_pending _ _ _ _ _ _ _ Hc Hp) as (g1 & a & g2 & pending & future & timeout & Has & Hsub & Hid & Hga & Hgh).
  assert (rp_decision_id response = ev_decision_id ev) as Hdid by by eapply decide_answer_id.
  pose proof (assess_standing ev g0 req) as Hst. rewrite Has in Hst. cbn [fst] in Hst. injection Hst as _ _ _ _ _ Ha1 Hh1.
  assert (gw_approvals g1 = Some (queue, table)) as Hq1 by congruence.
  destruct (submit_held _ _ _ _ _ _ _ _ _ _ _ Hsub Hq1 Hok Hnew) as (Hpid & Hheld & q0 & t0 & request & Hg2 & Hrun & Hpend & Hfall).
  exists (held_action ev req a op future timeout), q0, t0, request. cbn [held_action hd_approval_id hd_future hd_anomaly_event].
  split_and!; [congruence..|]. intros fuel' ev' g3 q1 t1 elapsed Hg3 Hrun1.
  assert (served (ev_approval_id ev) future (board_of q1)) as Hserved.
  { eapply board_steps_served; [|by eapply queue_steps_board|left; by exists request].
    eapply queue_steps_ok; [exact Hok|exact Hrun]. }
  unfold run_approval_continuation. rewrite Hg3. cbn [mbind option_bind held_action hd_future].
  rewrite (await_served _ _ _ elapsed Hserved). split.
  - destruct (q_settled q1 !! future); [|destruct elapsed]; cbn [mbind option_bind]; naive_solver.
  - intros g4 outcome Hrun2.
    destruct (q_settled q1 !! future) as [d|] eqn:Hset; cbn [mbind option_bind] in Hrun2.
    + injection Hrun2 as Hrun2. apply resume_allow in Hrun2 as [Hoid Hoal]. split; [by rewrite Hoid, Hdid|].
      rewrite Hoal. cbn [held_action hd_anomaly_event hd_req]. naive_solver.
    + destruct elapsed; [|done]. cbn [mbind option_bind] in Hrun2. injection Hrun2 as Hrun2.
      apply resume_allow in Hrun2 as [Hoid Hoal]. split; [by rewrite Hoid, Hdid|]. rewrite Hoal. simpl. naive_solver.
Qed.

(** ** What the service does not do *)

(** Without a queue an action that needs an approval is not held: the call panics, or, when
    something is to be redacted, the action goes on redacted without an approval. *)
Lemma no_queue_no_hold fuel ev g req op g' a t :
  assess ev g req = (g', Ok a) → er_decision (as_eval a) = RequiresApproval t → gw_approvals g = None →
  (redacts (as_eval a) = false → decide_request fuel ev g req op = (g', Panicked)) ∧
  (redacts (as_eval a) = true → (∀ m n p, cq_action req ≠ Some (Act.LlmCall m n p)) →
   ∃ response, snd (decide_request fuel ev g req op) = Answered response ∧ rp_decision response = DECISION_REDACT).
Proof.
  intros Ha Hd Hq. unfold PolicyService.decide_request. rewrite Ha.
  assert (gw_approvals g' = None) as Hq'.
  { pose proof (assess_standing ev g req) as Hst. rewrite Ha in Hst. cbn [fst] in Hst. injection Hst as _ _ _ _ _ E _. congruence. }
  unfold maybe_submit_approval. rewrite Hd, Hq'. unfold eval_result_to_response, redacts. rewrite Hd. split.
  - by intros ->.
  - intros -> Hn. set (first := reply _ _ _ _ _ _).
    assert (enforce_anomaly_block first (as_anomaly_event a) = first) as ->.
    { unfold enforce_anomaly_block. destruct (as_anomaly_event a) as [e|]; [|done]. by destruct (negb _). }
    unfold maybe_accrue_llm_spend. change (rp_decision first =? DECISION_DENY) with false.
    destruct (cq_action req) as [[m n p| | | | |]|]; [by destruct (Hn m n p)|by eexists..].
Qed.

(** A held action whose payload was to be redacted goes on unredacted once it is approved. *)
Lemma approval_drops_redaction fuel ev g hd by_ why conditions g' response :
  resume_held fuel ev g hd (Verdict.Approved by_ why conditions) = (g', Answered response) →
  rp_decision response = DECISION_ALLOW → rp_redact response = None.
Proof.
  unfold PolicyService.resume_held. destruct (accrue fuel ev g (hd_req hd) _) as [[g1 resp]|] eqn:Hac; [|done].
  intros [= _ <-]. cbn [stamp_decision_id stamp_identity_assurance rp_decision rp_redact]. intros Hd.
  destruct (accrue_standing _ _ _ _ _ _ _ Hac) as [_ [->|[_ Hx]]]; [|by rewrite Hx in Hd].
  unfold enforce_anomaly_block. destruct (hd_anomaly_event hd) as [e|]; [|done].
  destruct (negb _); [done|]. by destruct (negb _).
Qed.

(** With the detector attached no process is ever allowed to start, whatever the policies say
    and whether or not the agent is only observed. *)
Lemma exec_never_allowed fuel ev g req command args hook :
  cq_action req = Some (Act.ProcessExec command args) → gw_anomaly g = Some hook →
  ¬ ∃ response, snd (check_action fuel ev g req) = Answered response ∧ rp_decision response = DECISION_ALLOW.
Proof.
  intros Hact Hhook (_ & g' & a & (ctx & action & en & eval & g1 & Hc & _ & -> & _ & _ & _ & Hd)%assess_Ok & _ & Hbl & _)%check_allow_assessed.
  apply Hbl. clear Hbl. apply (f_equal snd) in Hd. cbn [snd] in Hd. rewrite <- Hd.
  assert (gw_anomaly (admitted ev g req) = Some hook) as Ha.
  { rewrite <- Hhook. unfold admitted, ingest_op. destruct (session_spec ev g req) as [->|(? & ? & ? & _ & _ & -> & _)];
      destruct (gw_ops _); try destruct (OpControl.ingest_op _ _ _ _); done. }
  unfold maybe_detect_anomaly. rewrite (proj1 (alert_keeps _ _ _)). cbn [set_engine gw_anomaly]. rewrite Ha, Hc.
  destruct hook as [d es].
  unfold request_to_core in Hc. rewrite Hact in Hc. simpl in Hc. injection Hc as <- <-.
  eexists. split; [reflexivity|]. done.
Qed.

(** Observe mode hides denials and holds only: what is allowed with something to redact is
    answered with the redaction in any mode. *)
Lemma observed_still_redacted fuel ev g req op g' a :
  assess ev g req = (g', Ok a) → er_decision (as_eval a) = Allow → redacts (as_eval a) = true →
  (∀ m n p, cq_action req ≠ Some (Act.LlmCall m n p)) →
  ∃ response, snd (decide_request fuel ev g req op) = Answered response ∧ rp_decision response = DECISION_REDACT.
Proof.
  intros Ha Hd Hr Hn. unfold PolicyService.decide_request. rewrite Ha. unfold maybe_submit_approval. rewrite Hd.
  unfold eval_result_to_response. rewrite Hd. fold (redacts (as_eval a)). rewrite Hr. set (first := reply _ _ _ _ _ _).
  assert (enforce_anomaly_block first (as_anomaly_event a) = first) as ->.
  { unfold enforce_anomaly_block. destruct (as_anomaly_event a) as [e|]; [|done]. by destruct (negb _). }
  unfold maybe_accrue_llm_spend. change (rp_decision first =? DECISION_DENY) with false.
  destruct (cq_action req) as [[m n p| | | | |]|]; [by destruct (Hn m n p)|by eexists..].
Qed.

(** What is answered with redactions stays pending among the live operations. *)
Lemma redacted_stays_pending fuel ev g req op g' response ops record now :
  decide_request fuel ev g req op = (g', Answered response) → rp_decision response = DECISION_REDACT →
  gw_ops g = Some ops → ∀ op_id, og_ops ops !! op_id = Some record → or_state record = Live.Pending →
  gw_ops g' = Some ops ∧ snd (OpControl.pause to_rfc3339 ops op_id now) = Err InvalidTransition.
Proof.
  intros Hdec Hr Hops op_id Hrec Hpend. split.
  2: { unfold OpControl.pause. by rewrite Hrec, Hpend. }
  revert Hdec. unfold PolicyService.decide_request. pose proof (assess_standing ev g req) as Hst.
  destruct (assess ev g req) as [g1 [a|s]]; [|done]. cbn [fst] in Hst. injection Hst as _ _ _ _ Ho _ _.
  destruct (submit_approval ev g1 req (as_eval a) (as_policy_rule a)) as [g2 [[[pending future] timeout]|]] eqn:Hsub.
  { apply submit_Some in Hsub as [_ Hp]. intros [= _ <-].
    cbn [stamp_decision_id stamp_identity_assurance rp_decision] in Hr. by rewrite Hp in Hr. }
  apply submit_None in Hsub as ->. destruct (eval_result_to_response _ _ _) as [resp|]; [|done].
  destruct (accrue fuel ev g1 req _) as [[g3 resp']|] eqn:Hac; [|done]. intros [= <- <-].
  apply accrue_standing in Hac as [Hst _]. injection Hst as _ _ _ _ Ho3 _ _.
  cbn [stamp_decision_id stamp_identity_assurance rp_decision] in Hr. cbn [PolicyService.record_audit set_audit gw_ops].
  set (g4 := settle_op ev g3 op _). assert (gw_ops g4 = Some ops) as Hg4.
  { unfold g4, settle_op. cbn [set_live_ops gw_ops stamp_decision_id stamp_identity_assurance rp_decision].
    rewrite Ho3, Ho, Hops, Hr. simpl. by destruct op. }
  by destruct (suspend_spec g4 req (er_deny_action (as_eval a))) as [->|(? & ? & ? & _ & _ & -> & _)].
Qed.

(** ** Claims that name another key *)

(** The request of nobody registered whose agent is named like the key text of a victim. *)
Definition disguised (victim : Lifecycle.ProtoAgentId) : Lifecycle.ProtoAgentId :=
  {| pi_org_id := ""; pi_team_id := ""; pi_agent_id := composite victim |}.

(** Where the engine shares the registry, the request of [disguised victim] without a token is
    admitted, evaluated as the victim, and its spend is charged to the victim, its team and its
    organisation. *)
Lemma disguise_charges_victim g req registry victim r :
  gw_registry g = Some registry → en_registry (gw_engine g) = Some registry →
  get registry (proto_agent_id_to_key victim) = Some r → get registry (proto_agent_id_to_key (disguised victim)) = None →
  cq_agent_id req = Some (disguised victim) → cq_credential_token req = "" →
  let ctx := apply_authoritative_tenancy (gw_registry g) (cq_credential_token req) (request_context req) in
  credential_refusal g req = None ∧ ac_agent_id ctx = proto_agent_id_to_key victim ∧
  authoritative_tenancy (gw_engine g) ctx = (ar_team_id r, ar_org_id r).
Proof.
  intros Hg He Hv Hd Hc Ht ctx.
  assert (is_empty (composite victim) = false) as Hne by (unfold composite; by destruct (pi_org_id victim)).
  assert (context_agent_id req = proto_agent_id_to_key victim) as Hk.
  { unfold context_agent_id, claimed_agent_id. rewrite Hc. cbn [mbind option_bind disguised pi_agent_id]. unfold non_empty. by rewrite Hne. }
  assert (ac_agent_id ctx = proto_agent_id_to_key victim) as Hid.
  { unfold ctx. rewrite Hg, Ht. simpl. exact Hk. }
  split_and!; [|done|].
  - unfold credential_refusal, claimed_key. rewrite Hg, Hc. cbn [mbind option_bind fmap option_fmap option_map].
    by rewrite Hd, Ht.
  - unfold authoritative_tenancy. rewrite He. cbn [mbind option_bind]. by rewrite Hid, Hv.
Qed.
End Props.

(** ** A running gateway *)

Module ServiceDemo.
Definition worker : Lifecycle.ProtoAgentId := {| pi_org_id := "acme"; pi_team_id := "red"; pi_agent_id := "worker" |}.

(** A digest that knows the worker; texts that are not read. *)
#[global] Instance keys : Keys := {|
  bs58_decode s := None; sha256_id s := if String.eqb s "acme/red/worker" then 2%N else 9%N;
  is_verifying_key bytes := false; verify_strict key message proof := false |}.
#[global] Instance formats : Formats := {| hex_decode s := None; to_rfc3339 t := "now"; parse_rfc3339 s := None |}.
#[global] Instance service_lib : ServiceLib := {|
  llm_args_json model tokens pii := model; from_utf8_lossy s := s; decision_json p := dp_reason p;
  impersonation_json p := ip_reason p; routed_json team action id := team; approval_id_text id := "approval";
  kind_debug k := "kind"; anomaly_debug t := "anomaly" |}.
#[global] Instance anomaly_lib : AnomalyLib := {|
  sha256_u64 s := 0; fmt_f64 x := ""; fmt_f64_1 x := ""; debug_id id := "" |}.
#[global] Instance detectors : Detectors := {|
  scanner_scan text := []; regex := string; regex_new pattern := Some pattern; find_iter _ _ := [];
  zh_tw_scan _ := []; security_version := "1.0" |}.
#[global] Existing Instances text_json no_durations binary_uuid utc_only rational.

Definition digest (bytes : list Z) : Digest := firstn 32 bytes.
Definition payload_of (request : ApprovalRequest) (by_ : option string) : string := aq_action request.

(** The shell needs an approval at any depth. *)
Definition doc : PolicyDocument := set_tools global_doc {[ "bash"%string := approval_tool "agent.depth >= 0" ]}.

Definition engine : Engine := {|
  en_policy := global_doc; en_rate_state := ∅; en_budget := sample_config None; en_ledger := empty_ledger;
  en_cascade := {| ca_scope_index := fst (ScopeIndex.insert ScopeIndex.new doc); ca_compiled_patterns := [] |};
  en_registry := Some lineage_registry; en_policy_epoch := 0; en_cache := ∅; en_cache_hits := 0;
  en_cache_misses := 0; en_audit := [] |}.

Definition gateway : Gateway := {|
  gw_engine := engine; gw_registry := Some lineage_registry; gw_shared := true;
  gw_policy_default_mode := DefaultMode Enforce;
  gw_audit := {| at_chain := {| cs_next_seq := 0; cs_last_hash := ZERO_HASH |}; at_sent := [] |};
  gw_ops := Some registry_new; gw_approvals := Some (queue_new, ∅); gw_anomaly := Some (detector_new default_config, []);
  gw_secret_alerts := Some []; gw_budget_alerts := []; gw_held := [] |}.

Definition accepted (t : Z) : Emission := {| em_timestamp_ns := t; em_channel := Accepted |}.

Definition env : CheckEnv := {|
  ev_decision_id := "d1"; ev_session_at := 1; ev_ingested_at := 2; ev_request := sample_request; ev_latency_us := 1500;
  ev_baseline_ms := 3; ev_detected_at := 4; ev_approval_id := 5%N; ev_routed := accepted 6; ev_submitted_at := 7;
  ev_routing := None; ev_approval := {| am_now := 8; am_timestamp_ns := 9; am_channel := λ _, Accepted |};
  ev_routed_at := 10; ev_spend := {| rd_now := 0; rd_preflight := 0; rd_cost_now := 0; rd_cost_today := 0; rd_today := 0 |};
  ev_settled_at := 11; ev_audit := accepted 12 |}.

Definition request (token tool : string) : CheckActionRequest := {|
  cq_agent_id := Some worker; cq_credential_token := token; cq_trace_id := "trace"; cq_span_id := "span";
  cq_action_type := 1; cq_action := Some (Act.ToolCall tool "ls"); cq_caller_agent_id := None |}.

Abbreviation check := (check_action no_digest coarse_hash whole_dollars digest payload_of).
End ServiceDemo.

Lemma demo_credentials : credentials_ok lineage_registry.
Proof.
  assert (map_Forall (λ key r, ar_credential_token r ≠ "" → find_by_credential_token lineage_registry (ar_credential_token r) = Some key)
            (rg_agents lineage_registry)) as Hall by (apply (bool_decide_unpack _); vm_compute; exact I).
  intros key r Hr. exact (Hall key r Hr).
Qed.

Definition demo_answer (token tool : string) : Outcome Reply :=
  snd (ServiceDemo.check 10 ServiceDemo.env ServiceDemo.gateway (ServiceDemo.request token tool)).

Lemma demo_held :
  demo_answer "t2" "bash" =
  Answered {| rp_decision := DECISION_PENDING; rp_reason := ""; rp_policy_rule := "requires_approval"; rp_approval_id := "approval";
              rp_redact := None; rp_decision_latency_us := 1500; rp_agent_identity_assurance := 3; rp_decision_id := "d1" |}.
Proof. vm_compute. reflexivity. Qed.

Lemma demo_allowed :
  demo_answer "t2" "ls" =
  Answered {| rp_decision := DECISION_ALLOW; rp_reason := ""; rp_policy_rule := ""; rp_approval_id := "";
              rp_redact := None; rp_decision_latency_us := 1500; rp_agent_identity_assurance := 3; rp_decision_id := "d1" |}.
Proof. vm_compute. reflexivity. Qed.

(** The outcome of a check as a pair. *)
Lemma demo_pair token tool response :
  demo_answer token tool = Answered response →
  ServiceDemo.check 10 ServiceDemo.env ServiceDemo.gateway (ServiceDemo.request token tool) =
  (fst (ServiceDemo.check 10 ServiceDemo.env ServiceDemo.gateway (ServiceDemo.request token tool)), Answered response).
Proof. unfold demo_answer. intros <-. apply surjective_pairing. Qed.

Lemma records_touched_by_owner_witness :
  ∃ registry', gw_registry (fst (ServiceDemo.check 10 ServiceDemo.env ServiceDemo.gateway (ServiceDemo.request "t3" "bash"))) =
    Some registry' ∧ get registry' 2%N = get lineage_registry 2%N.
Proof.
  destruct (records_touched_by_owner no_digest coarse_hash whole_dollars ServiceDemo.digest ServiceDemo.payload_of 10
    ServiceDemo.gateway lineage_registry) as [Hcheck _].
  - reflexivity.
  - apply demo_credentials.
  - destruct (Hcheck ServiceDemo.env (ServiceDemo.request "t3" "bash")) as (registry' & Hr & _ & Hk).
    exists registry'. split; [exact Hr|]. apply Hk. intros (r & Hg & _ & Ht & _).
    assert (ar_credential_token <$> get lineage_registry 2%N = Some "t2") as Htok by (vm_compute; reflexivity).
    rewrite Hg in Htok. simpl in Htok. injection Htok as Htok. rewrite Htok in Ht. discriminate Ht.
Defined.

Lemma answers_are_recorded_witness :
  ∃ routed entry,
    at_sent (gw_audit (fst (ServiceDemo.check 10 ServiceDemo.env ServiceDemo.gateway (ServiceDemo.request "t2" "ls")))) =
      routed ++ [entry] ∧ ae_decision_id entry = Some "d1" ∧ ae_event_type entry = Event.ToolCallIntercepted.
Proof.
  destruct (answers_are_recorded no_digest coarse_hash whole_dollars ServiceDemo.digest ServiceDemo.payload_of 10
    ServiceDemo.env ServiceDemo.gateway (ServiceDemo.request "t2" "ls") _ _ (demo_pair _ _ _ demo_allowed) eq_refl)
    as (_ & routed & _ & _ & entry & Hs & Hd).
  exists routed, entry. split; [exact Hs|]. split; [exact (ds_decision_id _ _ _ _ _ Hd)|].
  rewrite (ds_event _ _ _ _ _ Hd). vm_compute. reflexivity.
Defined.

Lemma held_until_granted_witness :
  ∃ hd, gw_held (fst (ServiceDemo.check 10 ServiceDemo.env ServiceDemo.gateway (ServiceDemo.request "t2" "bash"))) = [hd] ∧
    run_approval_continuation whole_dollars ServiceDemo.digest 10 ServiceDemo.env
      (fst (ServiceDemo.check 10 ServiceDemo.env ServiceDemo.gateway (ServiceDemo.request "t2" "bash"))) hd true ≠ None.
Proof.
  destruct (held_until_granted no_digest coarse_hash whole_dollars ServiceDemo.digest ServiceDemo.payload_of 10
    ServiceDemo.env ServiceDemo.gateway (ServiceDemo.request "t2" "bash") _ _ queue_new ∅ (demo_pair _ _ _ demo_held) eq_refl)
    as (hd & q0 & t0 & request & Hh & Hq & _ & _ & _ & Hc).
  - reflexivity.
  - apply queue_with_ok.
  - reflexivity.
  - exists hd. split; [exact Hh|].
    destruct (Hc 10%nat ServiceDemo.env _ q0 t0 true Hq (rtc_refl _ _)) as [Hw _].
    intros Hn. apply Hw in Hn as [_ Hn]. discriminate Hn.
Defined.
